(* ===== verification/_CoqProject ===== *)
-Q . S2P
Prelude.v
Coding.v
CodingFacts.v
BitStream.v
SubscriptionId.v
IdAllocator.v
Messages.v
MessagesFacts.v
Containers.v
LRUCache.v
Bloom.v
DataCache.v
DataCacheFacts.v
DataCacheVisit.v
TopicManager.v
LogReader.v
LogReaderFacts.v
TopicTailer.v
TailerInv.v
TopicTailerFacts.v
TailerSteps.v
TailerSubs.v
TailerRoom.v
Delivery.v
TailerPolite.v
LogTailer.v
LogTailerFacts.v
TailerLink.v
TailerCalls.v
Tower.v
ControlRoom.v
RoomWorkers.v
RoomFacts.v
ControlTower.v
TowerFacts.v
TopicSubscriptionMap.v
TopicMapFacts.v
SubscriptionsMap.v
ClientFacts.v
ResilientReceiver.v
Subscriber.v
SubscriberFacts.v
MultiShard.v
TailCollapsing.v
CollapsingFacts.v
TimeoutList.v
CopilotWorker.v
CopilotRequests.v
CopilotTowers.v
CopilotSteps.v
CopilotHandlers.v
CopilotClients.v
CopilotTimer.v
CopilotDelivery.v
CopilotCover.v
CopilotRecovery.v
ConsistentHash.v
TowerRouters.v
ProxyWorker.v
ProxyMux.v
ProxyFacts.v
Proxy.v
ProxyServer.v
