(* ===== verification/Prelude.v ===== *)
(** * RocketSpeed: a verification development

    RocketSpeed is a publish/subscribe system over a log storage.  Publishers
    append to logs through a pilot; subscribers reach a control tower through a
    copilot.  The tower is divided into rooms, one per thread; a room has a log
    tailer, which reads logs from the storage, a topic tailer, which serves the
    subscribers of the topics in those logs, and a cache of the records read
    last.  This library models the code that carries this service, from the
    bytes on the wire to the delivery of records, and proves it correct.

    ** Files, and the code under src/ they model

    - [Prelude]: machine integers ([wrap], [fits]), bytes, lists, the type
      [outcome] of code with assertions ([Abort] is a failed [RS_ASSERT], a
      memory error, or a loop that exceeds its fuel), tactics and hints.
    - [Coding], [CodingFacts]: util/common/coding.h and coding.cc, the fixed
      width and varint coders, length-prefixed slices, topic IDs.
    - [BitStream]: the bit fields of coding.cc.
    - [SubscriptionId]: util/common/subscription_id.cc, hash.h.
    - [IdAllocator]: util/id_allocator.h, and its division into pieces.
    - [Messages], [MessagesFacts]: messages/messages.cc and .h, every message
      type with its serialisation and parsing.
    - [Containers]: util/common/linked_map.h (Module [Linked]; a heap of nodes
      with an index), util/subscription_map.h, messages/observable_map.h.
    - [LRUCache]: util/cache.cc, the hash table (Module [HandleTable]) and the
      cache with reference counts, charges and eviction (Module [LRU]).
    - [Bloom]: util/bloom.cc.  [DataCache], [DataCacheFacts], [DataCacheVisit]:
      controltower/data_cache.cc, blocks of messages in the LRU cache.
    - [TopicManager]: util/topic_uuid.cc, controltower/topic.cc.
    - [LogReader], [LogReaderFacts]: the class LogReader of
      controltower/topic_tailer.cc (lines 25 to 715).
    - [TopicTailer] and the files [TailerInv], [TopicTailerFacts],
      [TailerSteps], [TailerSubs], [TailerRoom]: the class TopicTailer of that
      file, its invariant, and a lemma for each of its handlers.
    - [Delivery]: the topic tailer as a machine, and its main theorems.
    - [LogTailer], [LogTailerFacts]: controltower/log_tailer.cc.
    - [TailerLink], [TailerCalls], [Tower]: a room as controltower/tower.cc
      wires it, log tailer and topic tailer together.
    - [ControlRoom], [RoomFacts]: controltower/room.cc, around that pair, and
      [ControlTower], [TowerFacts]: controltower/tower.cc, the tower of such rooms.
      [TailerPolite] (what the tailer says, and to whom) and [RoomWorkers] (which
      event loops it asks for) carry the proofs.
    - [TopicSubscriptionMap], [TopicMapFacts]: client/topic_subscription_map.cc,
      the table from topics to subscription IDs (Module [TopicMap]).
    - [SubscriptionsMap], [ClientFacts]: client/subscriptions_map.cc and .h, the
      subscriptions of a client on one stream, with the containers it uses
      (Module [Keyless]: KeylessHashMMap.h, sparse_hash_maps.h).
    - [ResilientReceiver]: client/resilient_receiver.cc, which opens the stream of a
      receiver again when it ends, and the dispatch of messages/types.cc; the
      receiver is the class [ConnectionAwareReceiver] with its laws, which the
      subscriptions of a client satisfy.
    - [Subscriber], [SubscriberFacts]: client/single_shard_subscriber.cc; the
      class [ObserverIf] is what the subscriber requires of its observers.
      [MultiShard]: client/multi_shard_subscriber.cc, the subscribers of a thread,
      one per shard, with the counter of active subscriptions that they share.
    - [TailCollapsing], [CollapsingFacts]:
      client/tail_collapsing_subscriber.cc, an instance of [ObserverIf].
    - [TimeoutList]: util/timeout_list.h.
    - [CopilotWorker]: copilot/worker.cc and worker.h, a worker of the copilot:
      subscriptions of clients, its own at the towers, and the requests to
      resubscribe.  [CopilotRequests] (the request queues), [CopilotTowers]
      (subscribing at towers), [CopilotSteps] (what a step does to clients),
      [CopilotHandlers], [CopilotClients], [CopilotTimer] (a lemma for each
      handler), [CopilotDelivery] (the worker as a machine, delivery),
      [CopilotCover], [CopilotRecovery] (towers for every subscription).
    - [ConsistentHash]: util/consistent_hash.h.  [TowerRouters]:
      util/control_tower_router.cc; the class [TowerRouter] is what the copilot
      requires of a router, with both routers as instances.
    - [ProxyWorker]: proxy2/upstream_worker.cc, multiplexer.cc,
      updates_accumulator.cc and downstream_worker.cc, a proxy that lets clients
      share subscriptions at the server.  [ProxyMux] (the multiplexer of a shard;
      the class [AccumulatorLaws] is what it requires of an accumulator of updates),
      [ProxyFacts] (a lemma for each handler of the worker), [Proxy] (the worker as
      a machine, its theorems, and runs).  [ProxyServer]: proxy2/abstract_worker.cc
      and the part of proxy_server.cc that connects the workers.

    A class is a record of its fields, a method a function of the object that
    returns the new object and the result.  Calls that leave a component are
    appended to a trace; what the environment answers is an argument.

    ** What the theorems show

    - Coders: what is written is read back from the front of any buffer; the
      portable and the little-endian branches agree; bit fields set exactly
      their bits.  Messages: every well-formed message survives the wire, what
      is received can be forwarded, and parsing stops the process only at the
      two points named in the findings.
    - Containers: every operation of the linked map is that of an ordered
      association list; callers of the LRU cache that respect its contract never
      use a freed handle, and a handle keeps its value while it is held; the hash
      table is a map, a Bloom filter has no false negatives.
    - Data cache: a visit delivers a gapless run of what was stored.
    - Topic tailer ([Delivery]): for any sequence of calls that the environment
      promises ([enabled]), no assertion fails, and every subscriber is sent
      exactly the records of its topic, in order, once each; no subscription
      loses its reader, and a new one goes to the virtual reader only if no other
      is near; nothing is sent after an unsubscribe; the number of requests for
      the tail of a log is bounded.  Three closed runs show the behaviours that
      the hypotheses on gaps and on the virtual reader exclude.
    - Log tailer: what is handed to a reader is contiguous whatever the storage
      threads deliver; [Tick] terminates if the storage opens the logs.
    - Room ([Tower]): the log tailer always expects what the readers of the topic
      tailer expect, so that the promise on records on which [Delivery] relies is
      kept by the log tailer, and delivery is exact on a storage that delivers
      records in any order; the promises on gaps, on the virtual reader and on
      the opening of logs remain.
    - Control room ([RoomFacts]): the room knows the event loop of every
      subscription that the topic tailer knows, which [Delivery] and [Tower] take
      for granted, and what reaches the queues of the clients is exactly what the
      tailer says, so that delivery is exact from the storage to these queues.
      Control tower ([TowerFacts]): a subscription is known only to the room of the
      log of its topic, so that delivery is exact for the tower as a whole, whatever
      messages clients send and in whatever order rooms take their commands, with
      the same promises about each room.
    - Client: the table of topics is a finite map; the subscriptions of a client
      reach the server once a stream is up, across broken streams, and each
      follows its topic without holes; the subscribers of a thread together keep
      their count, limit and acknowledgements; a collapsing subscriber passes an update
      of a topic to exactly the subscriptions on it, with one subscription at
      the server.  Closed runs show what happens outside the hypotheses.  The
      supervisor of a stream always has a stream or a timer that will open one, and
      reports bad health once.
    - Copilot ([CopilotDelivery]): no command or tick of a worker fails,
      whatever clients, towers and full queues do; what a client accepts of the
      updates sent to it (the client's [ProcessUpdate]) are exactly the records of
      its topic between its two places, from however many towers, also when full
      queues make the copilot send an update again; a client that left is silent.
      [CopilotRecovery]: a subscription that is not at the tail always has a tower
      that follows the topic from its place or before, or a request to resubscribe
      that does not pass it, and a tick serves the requests; only for a topic whose
      tail a client asked for may it have to wait until a tower tells where the
      tail is.  Closed runs show how full queues, stale requests and missing towers
      leave a subscription behind.
    - Routers: the ring of hashes is a map from slots to replicas whatever
      collides; a lookup gives the nearest slots and changes only for the keys of
      a slot that comes or goes; both routers give a log different towers, which
      is what the copilot assumes of its router.
    - Proxy ([Proxy]): no assertion of an upstream worker fails, a topic has one
      subscription at the server per shard, and a client of a hot topic is brought
      to the place of that subscription and follows it, whenever it joins and
      however often the subscription starts again.  Closed runs show what gaps, old
      snapshots and a goodbye that cannot be forwarded do.  [ProxyServer]: workers
      can be connected exactly if there are as many of each kind.
    - ID allocators: the pieces of an allocator partition its IDs.

    ** Bounds and fuel

    Sequence numbers of records, and the lag of a reader, are at most
    [kMaxSeqno] (2^62), so that the unsigned arithmetic of the tailer does not
    wrap; the storage hands out numbers far below.  Charges of the cache stay
    below 2^64 ([cache_room]).  [Bump_loop] gets one round more than there are
    topics, since a bumped topic moves behind the limit; [VisitCache_loop] one
    more than there are blocks, since each visited block is cached; [Tick_loop]
    one per restart event, since a restarted log is no longer due.  The theorems
    show that the fuel is enough.  [Reconnect_loop] has one round: it calls itself
    only after a failure, and then sets a timer.  The table of topics is searched for as many
    rounds as it has slots; its load limits are computed in doubles by the code
    and exactly here, which agree below 2^50 entries.

    ** What the environment is assumed to do

    [environment_ok] and [enabled]: the log is a function from sequence numbers
    to records; the log tailer hands a reader the record after its position or a
    gap without records; a gap is at a place where the topics the reader does
    not follow have no subscription before its end (the finding about gaps shows
    why); the storage answers requests for the tail that were made.  In [Tower]
    the storage delivers any record of the log at any time, opens the logs it is
    asked to, and the virtual reader is taken over only where it stands
    ([steal_safe]; the findings show what happens otherwise).  In [RoomFacts] the
    tower names the event loop of a stream, which exists, and a subscription ID
    is used for one topic ([room_enabled], [loops_ok]; in [TowerFacts], of the
    messages of clients, [control_enabled]).  The client is
    given IDs that are not in use ([client_enabled], [sub_enabled]); for the
    collapsing subscriber the server ends no subscription, the limit is not
    reached and no shard is reported unhealthy ([collapse_enabled]; again the
    findings show what happens otherwise), and observers are distinct objects.
    Around the copilot ([copilot_enabled]) routers name a tower once, clients use
    an ID for one topic and stay on their event loop, and commands come from event
    loops that exist; for delivery, what towers send is true of the log
    ([honest]); for [CopilotRecovery] also [places_well].  Of the supervisor
    ([supervisor_enabled]): a message is heard while there is a stream.  Around the
    proxy ([proxy_enabled]) clients use an ID for one subscription at a time and
    their goodbye can be forwarded; servers speak about subscriptions they were told
    of, and send for shared ones true updates, no gaps, and after starting again a
    snapshot that is not older than what was sent; IDs of a shard do not run out.
    The stream of a multiplexer may come and go at any time, which covers what its
    supervisor does.

    ** Not modelled

    The event loop, sockets, threads and lock-free queues (libevent, file
    descriptors); flow control beyond the answer whether a queue is full;
    statistics and logging; xxHash (an arbitrary function); the LogDevice
    binding and the environment; the pilot, the first version of the proxy
    (src/proxy), and the front end of the copilot, which dispatches to workers; the
    administration interfaces; of the client, the front end that dispatches to
    threads, the refresh of routes, and publishing; of the proxy, the threads and full queues,
    and the time between the end of a shard's last stream and its destruction, when
    its multiplexer is without subscriptions; generated bindings, servers and tools. *)

From Stdlib Require Export ZArith Lia ZifyBool.
From Stdlib Require Strings.Byte.
From stdpp Require Export base numbers list gmap strings.

#[global] Open Scope Z_scope.

Abbreviation byte := Byte.byte.

(** ** Machine integers *)

(** [wrap w z] is the value of [z] stored in an unsigned [w]-bit integer. *)
Definition wrap (w z : Z) : Z := z mod 2 ^ w.

Declare Scope word_scope.
Delimit Scope word_scope with word.
Notation "'u8' z" := (wrap 8 z) (at level 10, only parsing) : word_scope.
Notation "'u16' z" := (wrap 16 z) (at level 10, only parsing) : word_scope.
Notation "'u32' z" := (wrap 32 z) (at level 10, only parsing) : word_scope.
Notation "'u64' z" := (wrap 64 z) (at level 10, only parsing) : word_scope.
#[global] Open Scope word_scope.

(** [fits w z]: [z] is a value of an unsigned [w]-bit integer. *)
Definition fits (w z : Z) : Prop := 0 <= z < 2 ^ w.

#[export] Instance fits_dec w z : Decision (fits w z).
Proof. unfold fits. apply _. Defined.

Definition fitsb (w z : Z) : bool := (0 <=? z) && (z <? 2 ^ w).

Lemma fitsb_spec w z : fitsb w z = true <-> fits w z.
Proof. unfold fitsb, fits. rewrite andb_true_iff, Z.leb_le, Z.ltb_lt. done. Qed.

Lemma wrap_fits w z : 0 <= w -> fits w (wrap w z).
Proof. intros Hw. apply Z.mod_pos_bound, Z.pow_pos_nonneg; lia. Qed.

Lemma wrap_small w z : fits w z -> wrap w z = z.
Proof. apply Z.mod_small. Qed.

Lemma fits_mono w w' z : 0 <= w <= w' -> fits w z -> fits w' z.
Proof.
  intros Hw [H0 H1]. split; [done|].
  eapply Z.lt_le_trans; [done|]. apply Z.pow_le_mono_r; lia.
Qed.

Lemma fits_0 w : 0 <= w -> fits w 0.
Proof. intros. split; [lia|]. apply Z.pow_pos_nonneg; lia. Qed.

Lemma testbit_wrap w z i : 0 <= w -> 0 <= i ->
  Z.testbit (wrap w z) i = (i <? w) && Z.testbit z i.
Proof.
  intros Hw Hi. unfold wrap. destruct (Z.ltb_spec i w).
  - by rewrite Z.mod_pow2_bits_low.
  - rewrite Z.mod_pow2_bits_high; [done|lia].
Qed.

Lemma testbit_fits w z i : fits w z -> 0 <= w <= i -> Z.testbit z i = false.
Proof.
  intros Hz Hi. rewrite <-(wrap_small w z Hz), testbit_wrap by lia.
  destruct (Z.ltb_spec i w); [lia|done].
Qed.

(** A number all of whose bits from [w] up are zero fits in [w] bits. *)
Lemma fits_of_testbit w z : 0 <= w -> 0 <= z ->
  (forall i, w <= i -> Z.testbit z i = false) -> fits w z.
Proof.
  intros Hw Hz Hb. replace z with (wrap w z); [by apply wrap_fits|].
  apply Z.bits_inj'. intros i Hi. rewrite testbit_wrap by lia.
  destruct (Z.ltb_spec i w); [done|]. by rewrite Hb.
Qed.

(** Disjoint [lor] is addition: the accumulating step of every decoder. *)
Lemma lor_shiftl_add lo hi s : fits s lo -> 0 <= s -> 0 <= hi ->
  Z.lor lo (Z.shiftl hi s) = lo + hi * 2 ^ s.
Proof.
  intros Hlo Hs Hhi. rewrite <-Z.shiftl_mul_pow2 by lia.
  assert (Z.land lo (Z.shiftl hi s) = 0) as Hdisj.
  { apply Z.bits_inj'. intros i Hi. rewrite Z.land_spec, Z.bits_0.
    destruct (Z.ltb_spec i s).
    - by rewrite Z.shiftl_spec_low, andb_false_r by lia.
    - by rewrite (testbit_fits s lo) by (done || lia). }
  by rewrite Z.add_nocarry_lxor, Z.lxor_lor.
Qed.

(** ** Bytes *)

Definition b2z (b : byte) : Z := Z.of_N (Byte.to_N b).

(** Truncating conversion, as a cast to [char] or [unsigned char]. *)
Definition z2b (z : Z) : byte :=
  match Byte.of_N (Z.to_N (wrap 8 z)) with
  | Some b => b
  | None => Byte.x00
  end.

#[export] Instance byte_eq_dec : EqDecision byte.
Proof. intros x y. apply Byte.byte_eq_dec. Defined.

Lemma b2z_fits b : fits 8 (b2z b).
Proof.
  unfold b2z. split; [lia|]. pose proof (Byte.to_N_bounded b). change (2 ^ 8) with 256. lia.
Qed.

Lemma b2z_z2b z : b2z (z2b z) = wrap 8 z.
Proof.
  unfold z2b, b2z. pose proof (wrap_fits 8 z ltac:(lia)) as [H0 H1].
  destruct (Byte.of_N _) as [b|] eqn:E.
  - apply Byte.to_of_N in E. rewrite E. lia.
  - apply Byte.of_N_None_iff in E. change (2 ^ 8) with 256 in H1. lia.
Qed.

Lemma z2b_b2z b : z2b (b2z b) = b.
Proof.
  unfold z2b. rewrite wrap_small by apply b2z_fits. unfold b2z.
  by rewrite N2Z.id, Byte.of_to_N.
Qed.

Lemma b2z_inj b1 b2 : b2z b1 = b2z b2 -> b1 = b2.
Proof. intros H. by rewrite <-(z2b_b2z b1), <-(z2b_b2z b2), H. Qed.

Lemma b2z_z2b_small z : fits 8 z -> b2z (z2b z) = z.
Proof. intros. rewrite b2z_z2b. by apply wrap_small. Qed.

(** The bytes of an ASCII literal, for the names and error texts of the source. *)
#[export] Instance byte_countable : Countable byte := inj_countable' b2z z2b z2b_b2z.

Definition bytes_of (s : string) : list byte := String.list_byte_of_string s.

(** ** Lists *)

Lemma take_app_length' {A} (l k : list A) n : n = length l -> take n (l ++ k) = l.
Proof. intros ->. apply take_app_length. Qed.

Lemma drop_app_length' {A} (l k : list A) n : n = length l -> drop n (l ++ k) = k.
Proof. intros ->. apply drop_app_length. Qed.

(** [k] is what is left of [l] after some prefix was consumed. *)
Lemma suffix_drop {A} n (l : list A) : drop n l `suffix_of` l.
Proof. exists (take n l). by rewrite take_drop. Qed.

Lemma filter_all {A} (P : A -> Prop) `{!forall x, Decision (P x)} (l : list A) :
  (forall x, x ∈ l -> P x) -> filter P l = l.
Proof.
  induction l as [|x l IH]; intros Hl; [done|]. rewrite filter_cons, decide_True by set_solver.
  f_equal. apply IH. set_solver.
Qed.

Lemma filter_ext_in {A} (P Q : A -> Prop) `{!forall x, Decision (P x)} `{!forall x, Decision (Q x)} (l : list A) :
  (forall x, x ∈ l -> P x <-> Q x) -> filter P l = filter Q l.
Proof.
  induction l as [|x l IH]; intros Hl; [done|]. rewrite !filter_cons, IH by set_solver.
  pose proof (Hl x ltac:(set_solver)). repeat case_decide; tauto.
Qed.

Lemma elem_of_concat {A} (x : A) (ls : list (list A)) : x ∈ concat ls <-> exists l, x ∈ l /\ l ∈ ls.
Proof. induction ls; set_solver. Qed.

Lemma NoDup_map_inj {A B} (f : A -> B) l x y : NoDup (map f l) -> x ∈ l -> y ∈ l -> f x = f y -> x = y.
Proof.
  induction l as [|z l IH]; [set_solver|]. cbn [map]. rewrite NoDup_cons, !elem_of_cons.
  intros [Hn Hl] [->|Hx] [->|Hy] Hf; auto; exfalso; apply Hn; apply list_elem_of_fmap; eauto.
Qed.

Lemma suffix_cons_tail {A} (x : A) (k l : list A) : k `suffix_of` l -> k `suffix_of` x :: l.
Proof. apply suffix_cons_r. Qed.

(** In an association list without repeated keys a key has one value. *)
Lemma NoDup_fst_inj {A B} (l : list (A * B)) a x y : NoDup (map fst l) -> (a, x) ∈ l -> (a, y) ∈ l -> x = y.
Proof.
  intros Hnd [i Hi]%list_elem_of_lookup [j Hj]%list_elem_of_lookup.
  assert (i = j) as ->; [|congruence]. eapply NoDup_lookup; [exact Hnd|..]; rewrite list_lookup_fmap; [by rewrite Hi|by rewrite Hj].
Qed.

(** ** Assertions *)

(** Result of code that contains an [RS_ASSERT]: [Abort what] is the process
    being aborted by the failed assertion [what]. *)
Inductive outcome (A : Type) : Type :=
| Ok (a : A)
| Abort (what : string).
Arguments Ok {A} a.
Arguments Abort {A} what.

Definition obind {A B} (m : outcome A) (f : A -> outcome B) : outcome B :=
  match m with
  | Ok a => f a
  | Abort w => Abort w
  end.

Definition assert_that (b : bool) (what : string) : outcome unit :=
  if b then Ok tt else Abort what.

Declare Scope outcome_scope.
Delimit Scope outcome_scope with outcome.
Notation "x <~ m ;; k" := (obind m (fun x => k))
  (at level 100, m at next level, right associativity) : outcome_scope.
Notation "m ;;; k" := (obind m (fun _ => k))
  (at level 100, right associativity) : outcome_scope.

Lemma obind_assoc {A B C} (m : outcome A) (f : A -> outcome B) (g : B -> outcome C) :
  obind (obind m f) g = obind m (fun a => obind (f a) g).
Proof. by destruct m. Qed.

Lemma Ok_inj {A} (a b : A) : Ok a = Ok b -> a = b.
Proof. by intros [= ->]. Qed.

Lemma obind_Ok {A B} (m : outcome A) (f : A -> outcome B) b :
  obind m f = Ok b <-> exists a, m = Ok a /\ f a = Ok b.
Proof. destruct m; simpl; naive_solver. Qed.

Lemma assert_that_Ok b w : assert_that b w = Ok tt <-> b = true.
Proof. destruct b; simpl; naive_solver. Qed.

(** ** Automation *)

Create HintDb rs.
#[export] Hint Resolve wrap_fits b2z_fits fits_0 : rs.
#[export] Hint Extern 1 (_ <= _) => lia : rs.
#[export] Hint Extern 1 (_ < _) => lia : rs.
#[export] Hint Resolve suffix_drop suffix_cons_tail suffix_nil : rs.
#[export] Hint Extern 2 (?l `suffix_of` ?l) => reflexivity : rs.

(** Case analysis on the boolean tests of the model, turning comparisons of
    [Z] into propositions. *)
Ltac case_bool :=
  match goal with
  | |- context [?a <? ?b] => destruct (Z.ltb_spec a b)
  | |- context [?a <=? ?b] => destruct (Z.leb_spec a b)
  | |- context [?a =? ?b] => destruct (Z.eqb_spec a b)
  | H : context [?a <? ?b] |- _ => destruct (Z.ltb_spec a b)
  | H : context [?a <=? ?b] |- _ => destruct (Z.leb_spec a b)
  | H : context [?a =? ?b] |- _ => destruct (Z.eqb_spec a b)
  end.

Ltac prop_bools :=
  repeat match goal with
  | H : _ && _ = true |- _ => apply andb_true_iff in H; destruct H
  | H : (_ <? _) = true |- _ => apply Z.ltb_lt in H
  | H : (_ <? _) = false |- _ => apply Z.ltb_ge in H
  | H : (_ <=? _) = true |- _ => apply Z.leb_le in H
  | H : (_ <=? _) = false |- _ => apply Z.leb_gt in H
  | H : (_ =? _) = true |- _ => apply Z.eqb_eq in H
  | H : (_ =? _) = false |- _ => apply Z.eqb_neq in H
  end.
