(* ===== verification/Coding.v ===== *)
(** * Wire coding primitives

    Model of [src/util/common/coding.h] and [src/util/common/coding.cc]:
    fixed-width little-endian integers, variable-length integers, length
    prefixed slices, enums and topic IDs.  A [std::string] being appended to
    is the list of the bytes appended; a [Slice] being consumed is the list of
    the bytes it still covers.  A [Get...] routine is a reader: it returns
    whether it succeeded (and with which value) together with the slice it
    leaves behind, also when it fails. *)

From S2P Require Import Prelude.

(** ** Readers *)

Definition slice := list byte.

(** [Get... (Slice* input, T* value)]: [None] is the [false] return. *)
Definition Get (A : Type) : Type := slice -> option A * slice.

Definition get_ret {A} (x : A) : Get A := fun s => (Some x, s).

Definition get_bind {A B} (m : Get A) (f : A -> Get B) : Get B :=
  fun s => match m s with
           | (Some x, s') => f x s'
           | (None, s') => (None, s')
           end.

Declare Scope get_scope.
Delimit Scope get_scope with get.
Notation "'let*' x ':=' m 'in' k" := (get_bind m (fun x => k))
  (at level 10, x name, m at level 100, k at level 200) : get_scope.

(** ** Fixed-width integers *)

(** The bytes of an integer in the memory of a little-endian host. *)
Fixpoint le_bytes (n : nat) (z : Z) : list byte :=
  match n with
  | O => []
  | S n => z2b z :: le_bytes n (Z.shiftr z 8)
  end.

(** The integer a little-endian host loads from memory. *)
Fixpoint le_value (l : list byte) : Z :=
  match l with
  | [] => 0
  | b :: l => Z.lor (b2z b) (Z.shiftl (le_value l) 8)
  end.

(** [kLittleEndian] selects the [#if __BYTE_ORDER] branch of the source. *)
Definition EncodeFixed16_on (kLittleEndian : bool) (value : Z) : list byte :=
  if kLittleEndian then le_bytes 2 value
  else [z2b (Z.land value 255); z2b (Z.land (Z.shiftr value 8) 255)].

Definition EncodeFixed32_on (kLittleEndian : bool) (value : Z) : list byte :=
  if kLittleEndian then le_bytes 4 value
  else [z2b (Z.land value 255); z2b (Z.land (Z.shiftr value 8) 255);
        z2b (Z.land (Z.shiftr value 16) 255); z2b (Z.land (Z.shiftr value 24) 255)].

Definition EncodeFixed64_on (kLittleEndian : bool) (value : Z) : list byte :=
  if kLittleEndian then le_bytes 8 value
  else [z2b (Z.land value 255); z2b (Z.land (Z.shiftr value 8) 255);
        z2b (Z.land (Z.shiftr value 16) 255); z2b (Z.land (Z.shiftr value 24) 255);
        z2b (Z.land (Z.shiftr value 32) 255); z2b (Z.land (Z.shiftr value 40) 255);
        z2b (Z.land (Z.shiftr value 48) 255); z2b (Z.land (Z.shiftr value 56) 255)].

Definition nth_byte (ptr : list byte) (i : nat) : Z := b2z (nth i ptr Byte.x00).

Definition DecodeFixed16_on (kLittleEndian : bool) (ptr : list byte) : Z :=
  if kLittleEndian then le_value (take 2 ptr)
  else u16 (Z.lor (nth_byte ptr 0) (Z.shiftl (nth_byte ptr 1) 8)).

Definition DecodeFixed32_on (kLittleEndian : bool) (ptr : list byte) : Z :=
  if kLittleEndian then le_value (take 4 ptr)
  else Z.lor (Z.lor (Z.lor (nth_byte ptr 0) (u32 (Z.shiftl (nth_byte ptr 1) 8)))
                    (u32 (Z.shiftl (nth_byte ptr 2) 16)))
             (u32 (Z.shiftl (nth_byte ptr 3) 24)).

Definition DecodeFixed64_on (kLittleEndian : bool) (ptr : list byte) : Z :=
  if kLittleEndian then le_value (take 8 ptr)
  else let lo := DecodeFixed32_on kLittleEndian ptr in
       let hi := DecodeFixed32_on kLittleEndian (drop 4 ptr) in
       Z.lor (u64 (Z.shiftl hi 32)) lo.

Definition EncodeFixed16 := EncodeFixed16_on true.
Definition EncodeFixed32 := EncodeFixed32_on true.
Definition EncodeFixed64 := EncodeFixed64_on true.
Definition DecodeFixed16 := DecodeFixed16_on true.
Definition DecodeFixed32 := DecodeFixed32_on true.
Definition DecodeFixed64 := DecodeFixed64_on true.

Definition PutFixed8 (dst : list byte) (value : Z) : list byte := dst ++ [z2b value].
Definition PutFixed16 (dst : list byte) (value : Z) : list byte := dst ++ EncodeFixed16 value.
Definition PutFixed32 (dst : list byte) (value : Z) : list byte := dst ++ EncodeFixed32 value.
Definition PutFixed64 (dst : list byte) (value : Z) : list byte := dst ++ EncodeFixed64 value.

Definition GetFixed8 : Get Z := fun input =>
  if (length input <? 1)%nat then (None, input)
  else (Some (nth_byte input 0), drop 1 input).

Definition GetFixed16 : Get Z := fun input =>
  if (length input <? 2)%nat then (None, input)
  else (Some (DecodeFixed16 input), drop 2 input).

Definition GetFixed32 : Get Z := fun input =>
  if (length input <? 4)%nat then (None, input)
  else (Some (DecodeFixed32 input), drop 4 input).

Definition GetFixed64 : Get Z := fun input =>
  if (length input <? 8)%nat then (None, input)
  else (Some (DecodeFixed64 input), drop 8 input).

(** ** Variable-length integers *)

Definition EncodeVarint32 (v : Z) : list byte :=
  let B := 128 in
  if v <? Z.shiftl 1 7 then [z2b v]
  else if v <? Z.shiftl 1 14 then [z2b (Z.lor v B); z2b (Z.shiftr v 7)]
  else if v <? Z.shiftl 1 21 then
    [z2b (Z.lor v B); z2b (Z.lor (Z.shiftr v 7) B); z2b (Z.shiftr v 14)]
  else if v <? Z.shiftl 1 28 then
    [z2b (Z.lor v B); z2b (Z.lor (Z.shiftr v 7) B);
     z2b (Z.lor (Z.shiftr v 14) B); z2b (Z.shiftr v 21)]
  else
    [z2b (Z.lor v B); z2b (Z.lor (Z.shiftr v 7) B);
     z2b (Z.lor (Z.shiftr v 14) B); z2b (Z.lor (Z.shiftr v 21) B);
     z2b (Z.shiftr v 28)].

(** The [while (v >= B)] loop; the fuel is the size of the caller's buffer. *)
Fixpoint EncodeVarint64_loop (room : nat) (v : Z) : list byte :=
  match room with
  | O => []
  | S room =>
      if 128 <=? v
      then z2b (Z.lor (Z.land v (128 - 1)) 128) :: EncodeVarint64_loop room (Z.shiftr v 7)
      else [z2b v]
  end.

Definition kMaxVarint32Length : nat := 5.
Definition kMaxVarint64Length : nat := 10.

Definition EncodeVarint64 (v : Z) : list byte := EncodeVarint64_loop kMaxVarint64Length v.

Fixpoint VarintLength_loop (fuel : nat) (v len : Z) : Z :=
  match fuel with
  | O => len
  | S fuel => if 128 <=? v then VarintLength_loop fuel (Z.shiftr v 7) (len + 1) else len
  end.

Definition VarintLength (v : Z) : Z := VarintLength_loop kMaxVarint64Length v 1.

Definition PutVarint32 (dst : list byte) (v : Z) : list byte := dst ++ EncodeVarint32 v.
Definition PutVarint64 (dst : list byte) (v : Z) : list byte := dst ++ EncodeVarint64 v.

(** The decoding loop shared by [GetVarint32PtrFallback] ([last = 28], 32-bit
    accumulator) and [GetVarint64Ptr] ([last = 63], 64-bit accumulator). *)
Fixpoint GetVarint_loop (last width : Z) (p : slice) (shift result : Z) : option (Z * slice) :=
  if shift <=? last then
    match p with
    | [] => None
    | b :: p' =>
        let byte := b2z b in
        if negb (Z.land byte 128 =? 0)
        then GetVarint_loop last width p' (shift + 7)
               (Z.lor result (wrap width (Z.shiftl (Z.land byte 127) shift)))
        else Some (Z.lor result (wrap width (Z.shiftl byte shift)), p')
    end
  else None.

Definition GetVarint32PtrFallback (p : slice) : option (Z * slice) :=
  GetVarint_loop 28 32 p 0 0.

Definition GetVarint64Ptr (p : slice) : option (Z * slice) :=
  GetVarint_loop 63 64 p 0 0.

Definition GetVarint32Ptr (p : slice) : option (Z * slice) :=
  match p with
  | b :: p' =>
      let result := b2z b in
      if Z.land result 128 =? 0 then Some (result, p') else GetVarint32PtrFallback p
  | [] => GetVarint32PtrFallback p
  end.

Definition GetVarint32 : Get Z := fun input =>
  match GetVarint32Ptr input with
  | None => (None, input)
  | Some (v, q) => (Some v, q)
  end.

Definition GetVarint64 : Get Z := fun input =>
  match GetVarint64Ptr input with
  | None => (None, input)
  | Some (v, q) => (Some v, q)
  end.

(** ** Slices, bytes and topic IDs *)

Definition PutLengthPrefixedSlice (dst : list byte) (value : slice) : list byte :=
  PutVarint32 dst (u32 (Z.of_nat (length value))) ++ value.

Definition PutLengthPrefixedSliceParts (dst : list byte) (parts : list slice) : list byte :=
  let total_bytes :=
    fold_left (fun acc part => u32 (acc + u32 (Z.of_nat (length part)))) parts 0 in
  fold_left (fun acc part => acc ++ part) parts (PutVarint32 dst total_bytes).

(** On failure the slice is left after the length if the length was read. *)
Definition GetLengthPrefixedSlice : Get slice := fun input =>
  match GetVarint32 input with
  | (Some len, input') =>
      if len <=? Z.of_nat (length input')
      then (Some (take (Z.to_nat len) input'), drop (Z.to_nat len) input')
      else (None, input')
  | (None, input') => (None, input')
  end.

(** The scan of [GetSliceUntil]; the slice is shorter than 2^32 bytes, so its
    32-bit index does not wrap. *)
Fixpoint GetSliceUntil (s : slice) (delimiter : byte) : slice * slice :=
  match s with
  | [] => ([], [])
  | b :: s' =>
      if decide (b = delimiter) then ([], s')
      else let '(ret, rest) := GetSliceUntil s' delimiter in (b :: ret, rest)
  end.

Definition PutTopicID (dst : list byte) (namespace_id topic : slice) : list byte :=
  PutLengthPrefixedSlice (PutLengthPrefixedSlice dst namespace_id) topic.

Definition GetTopicID : Get (slice * slice) := (
  let* namespace_id := GetLengthPrefixedSlice in
  let* topic := GetLengthPrefixedSlice in
  get_ret (namespace_id, topic))%get.

Definition PutBytes (output data : list byte) : list byte := output ++ data.

Definition GetBytes (size : nat) : Get (list byte) := fun input =>
  if (length input <? size)%nat then (None, input)
  else (Some (take size input), drop size input).

(** Enums: the cast always succeeds, the result is whether the value passes
    the enum's [ValidateEnum]. *)
Definition PutFixedEnum8 (dst : list byte) (value : Z) : list byte := PutFixed8 dst (u8 value).

Definition GetFixedEnum8 (ValidateEnum : Z -> bool) : Get Z := fun input =>
  match GetFixed8 input with
  | (None, input') => (None, input')
  | (Some data, input') => (if ValidateEnum data then Some data else None, input')
  end.
