(* ===== verification/CodingFacts.v ===== *)
(** * Facts about the wire coding primitives

    Round trips, lengths, host independence and input safety of the routines
    of [Coding], and the interface [WireCodec] through which the messages use
    them. *)

From S2P Require Import Prelude Coding.

(** ** The interface of a coder/decoder pair *)

(** The bytes a writer contributes. *)
Definition wire {A} (put : list byte -> A -> list byte) (x : A) : list byte := put [] x.

(** A writer only appends to its destination. *)
Class Appends {A} (put : list byte -> A -> list byte) : Prop :=
  put_appends : forall dst x, put dst x = dst ++ wire put x.

(** [get] reads back what [put] wrote for the values in [valid], leaving
    exactly what followed. *)
Class WireCodec {A} (put : list byte -> A -> list byte) (get : Get A) (valid : A -> Prop) : Prop :=
  get_put : forall x rest, valid x -> get (wire put x ++ rest) = (Some x, rest).

#[export] Instance PutFixed8_appends : Appends PutFixed8.
Proof. done. Qed.
#[export] Instance PutFixed16_appends : Appends PutFixed16.
Proof. done. Qed.
#[export] Instance PutFixed32_appends : Appends PutFixed32.
Proof. done. Qed.
#[export] Instance PutFixed64_appends : Appends PutFixed64.
Proof. done. Qed.
#[export] Instance PutFixedEnum8_appends : Appends PutFixedEnum8.
Proof. done. Qed.
#[export] Instance PutVarint32_appends : Appends PutVarint32.
Proof. done. Qed.
#[export] Instance PutVarint64_appends : Appends PutVarint64.
Proof. done. Qed.
#[export] Instance PutBytes_appends : Appends PutBytes.
Proof. done. Qed.
#[export] Instance PutLengthPrefixedSlice_appends : Appends PutLengthPrefixedSlice.
Proof. intros ? ?. unfold wire, PutLengthPrefixedSlice, PutVarint32. by rewrite app_nil_l, app_assoc. Qed.

(** A topic ID is written as two slices. *)
Definition PutTopicPair (dst : list byte) (t : slice * slice) : list byte :=
  PutTopicID dst (fst t) (snd t).

#[export] Instance PutTopicPair_appends : Appends PutTopicPair.
Proof.
  intros dst [n t]. unfold wire, PutTopicPair, PutTopicID. cbn [fst snd].
  rewrite !(put_appends (put:=PutLengthPrefixedSlice)), !app_nil_l. by rewrite app_assoc.
Qed.

(** A reader only ever moves its slice forward. *)
Class Forward {A} (get : Get A) : Prop :=
  forward : forall s, snd (get s) `suffix_of` s.

#[export] Instance get_ret_forward {A} (x : A) : Forward (get_ret x).
Proof. intros s. simpl. reflexivity. Qed.

#[export] Instance get_bind_forward {A B} (m : Get A) (f : A -> Get B) :
  Forward m -> (forall x, Forward (f x)) -> Forward (get_bind m f).
Proof.
  intros Hm Hf s. unfold get_bind. pose proof (Hm s) as Hs.
  destruct (m s) as [[x|] s']; simpl in *; [|done].
  etrans; [apply Hf|done].
Qed.

Lemma get_bind_put {A B} (put : list byte -> A -> list byte) (get : Get A) valid
    `{!WireCodec put get valid} (k : A -> Get B) x rest :
  valid x -> get_bind get k (wire put x ++ rest) = k x rest.
Proof. intros Hx. unfold get_bind. by rewrite get_put. Qed.

(** ** Fixed-width integers *)

Lemma length_le_bytes n z : length (le_bytes n z) = n.
Proof. revert z. induction n; intros; simpl; [done|]. by rewrite IHn. Qed.

Lemma le_value_le_bytes n z : le_value (le_bytes n z) = wrap (8 * Z.of_nat n) z.
Proof.
  revert z. induction n as [|n IH]; intros z; [unfold wrap; by rewrite Z.mod_1_r|].
  cbn [le_bytes le_value]. rewrite IH, b2z_z2b. apply Z.bits_inj'. intros i Hi.
  rewrite Z.lor_spec, !testbit_wrap by lia. destruct (Z.ltb_spec i 8).
  - rewrite Z.shiftl_spec_low, orb_false_r by lia. case_bool; [done|lia].
  - rewrite Z.shiftl_spec, testbit_wrap, Z.shiftr_spec by lia.
    replace (i - 8 + 8) with i by lia. repeat case_bool; try lia; done.
Qed.

Lemma le_value_nonneg l : 0 <= le_value l.
Proof.
  induction l; simpl; [lia|]. apply Z.lor_nonneg. split; [apply b2z_fits|].
  by apply Z.shiftl_nonneg.
Qed.

Lemma le_value_add b l : le_value (b :: l) = b2z b + le_value l * 2 ^ 8.
Proof. cbn [le_value]. apply lor_shiftl_add; [apply b2z_fits|lia|apply le_value_nonneg]. Qed.

Lemma le_value_fits l : fits (8 * Z.of_nat (length l)) (le_value l).
Proof.
  induction l as [|b l IH]; [unfold fits; simpl; lia|].
  rewrite le_value_add. cbn [length]. unfold fits in *.
  replace (8 * Z.of_nat (S (length l))) with (8 + 8 * Z.of_nat (length l)) by lia.
  rewrite Z.pow_add_r by lia. pose proof (b2z_fits b) as [? ?].
  set (N := 2 ^ (8 * Z.of_nat (length l))) in *. change (2 ^ 8) with 256 in *. nia.
Qed.

Lemma le_bytes_le_value l : le_bytes (length l) (le_value l) = l.
Proof.
  induction l as [|b l IH]; [done|]. cbn [length le_bytes]. f_equal.
  - apply b2z_inj. rewrite b2z_z2b, le_value_add. unfold wrap.
    rewrite Z_mod_plus_full. apply Z.mod_small, b2z_fits.
  - rewrite <-IH at 3. f_equal. rewrite le_value_add, Z.shiftr_div_pow2 by lia.
    rewrite Z.div_add, Z.div_small; [lia|apply b2z_fits|lia].
Qed.

Lemma land_255 v : Z.land v 255 = wrap 8 v.
Proof. change 255 with (Z.ones 8). apply Z.land_ones. lia. Qed.

Lemma z2b_wrap8 v : z2b (wrap 8 v) = z2b v.
Proof.
  apply b2z_inj. rewrite !b2z_z2b. apply wrap_small, wrap_fits. lia.
Qed.

Lemma z2b_land_255 v : z2b (Z.land v 255) = z2b v.
Proof. by rewrite land_255, z2b_wrap8. Qed.

(** The portable big-endian branch of every encoder produces the bytes of
    the [memcpy] branch, so the wire format does not depend on the host. *)
Lemma EncodeFixed_host_independent b v :
  EncodeFixed16_on b v = EncodeFixed16 v /\
  EncodeFixed32_on b v = EncodeFixed32 v /\
  EncodeFixed64_on b v = EncodeFixed64 v.
Proof.
  destruct b; [done|].
  unfold EncodeFixed16, EncodeFixed32, EncodeFixed64,
    EncodeFixed16_on, EncodeFixed32_on, EncodeFixed64_on.
  cbn [le_bytes]. rewrite !Z.shiftr_shiftr, !z2b_land_255 by lia. done.
Qed.

Lemma nth_byte_fits l i : fits 8 (nth_byte l i).
Proof. apply b2z_fits. Qed.

Lemma le_value_take4 ptr : (4 <= length ptr)%nat ->
  le_value (take 4 ptr) =
    nth_byte ptr 0 + nth_byte ptr 1 * 2 ^ 8 + nth_byte ptr 2 * 2 ^ 16 + nth_byte ptr 3 * 2 ^ 24.
Proof.
  intros Hl. destruct ptr as [|a [|b [|c [|d ptr]]]]; simpl in Hl; try lia.
  cbn [take]. rewrite take_0, !le_value_add. unfold nth_byte. cbn [nth]. change (le_value []) with 0. lia.
Qed.

Lemma byte_shift_fits b k w : 0 <= k -> 8 + k <= w -> fits w (Z.shiftl (b2z b) k).
Proof.
  intros. pose proof (b2z_fits b) as [H1 H2]. rewrite Z.shiftl_mul_pow2 by lia.
  apply fits_mono with (8 + k); [lia|]. unfold fits. rewrite Z.pow_add_r by lia.
  change (2 ^ 8) with 256 in *. assert (0 < 2 ^ k) by (apply Z.pow_pos_nonneg; lia). nia.
Qed.

Lemma DecodeFixed32_host_independent b ptr : (4 <= length ptr)%nat ->
  DecodeFixed32_on b ptr = DecodeFixed32 ptr.
Proof.
  intros Hl. destruct b; [done|]. unfold DecodeFixed32, DecodeFixed32_on.
  rewrite le_value_take4 by done.
  pose proof (nth_byte_fits ptr 0) as H0. pose proof (nth_byte_fits ptr 1) as H1.
  pose proof (nth_byte_fits ptr 2) as H2. pose proof (nth_byte_fits ptr 3) as H3.
  unfold nth_byte in *. rewrite !wrap_small by (apply byte_shift_fits; lia).
  unfold fits in *.
  rewrite (lor_shiftl_add (b2z _)); [|unfold fits; lia|lia|lia].
  rewrite (lor_shiftl_add _ (b2z _) 16); [|unfold fits; lia|lia|lia].
  rewrite (lor_shiftl_add _ (b2z _) 24); [|unfold fits; lia|lia|lia]. done.
Qed.

Lemma le_value_app k l : le_value (k ++ l) = le_value k + le_value l * 2 ^ (8 * Z.of_nat (length k)).
Proof.
  induction k as [|b k IH]; [simpl; lia|]. rewrite <-app_comm_cons, !le_value_add, IH.
  cbn [length]. replace (8 * Z.of_nat (S (length k))) with (8 + 8 * Z.of_nat (length k)) by lia.
  rewrite Z.pow_add_r by lia. ring.
Qed.

Lemma DecodeFixed64_host_independent b ptr : (8 <= length ptr)%nat ->
  DecodeFixed64_on b ptr = DecodeFixed64 ptr.
Proof.
  intros Hl. destruct b; [done|]. unfold DecodeFixed64, DecodeFixed64_on. cbv zeta.
  rewrite !DecodeFixed32_host_independent by (rewrite ?length_drop; lia).
  unfold DecodeFixed32, DecodeFixed32_on.
  pose proof (le_value_fits (take 4 ptr)) as Hlo. pose proof (le_value_fits (take 4 (drop 4 ptr))) as Hhi.
  rewrite length_take_le in Hlo, Hhi by (rewrite ?length_drop; lia).
  change (8 * Z.of_nat 4) with 32 in *. unfold fits in *.
  rewrite wrap_small.
  2: { rewrite Z.shiftl_mul_pow2 by lia. unfold fits. lia. }
  rewrite Z.lor_comm, lor_shiftl_add by (unfold fits; lia).
  replace (take 8 ptr) with (take 4 ptr ++ take 4 (drop 4 ptr)).
  - rewrite le_value_app, length_take_le by lia. done.
  - change 8%nat with (4 + 4)%nat. by rewrite take_take_drop.
Qed.

Lemma DecodeFixed16_host_independent b ptr : (2 <= length ptr)%nat ->
  DecodeFixed16_on b ptr = DecodeFixed16 ptr.
Proof.
  intros Hl. destruct b; [done|]. unfold DecodeFixed16, DecodeFixed16_on.
  destruct ptr as [|x [|y ptr]]; simpl in Hl; try lia.
  cbn [take]. unfold nth_byte. cbn [nth]. cbn [le_value]. rewrite Z.shiftl_0_l, Z.lor_0_r.
  pose proof (b2z_fits x). pose proof (b2z_fits y). unfold fits in *.
  apply wrap_small. rewrite lor_shiftl_add; unfold fits; lia.
Qed.

Lemma fixed_get_put n v rest : fits (8 * Z.of_nat n) v ->
  le_value (take n (le_bytes n v ++ rest)) = v /\ drop n (le_bytes n v ++ rest) = rest.
Proof.
  intros Hv. rewrite take_app_length', drop_app_length' by (by rewrite length_le_bytes).
  by rewrite le_value_le_bytes, wrap_small.
Qed.

Lemma app_not_short {A} (l k : list A) n : length l = n -> (length (l ++ k) <? n)%nat = false.
Proof. intros. apply Nat.ltb_ge. rewrite length_app. lia. Qed.

#[export] Instance Fixed8_codec : WireCodec PutFixed8 GetFixed8 (fits 8).
Proof.
  intros v rest Hv. unfold wire, GetFixed8, PutFixed8. cbn.
  unfold nth_byte. cbn. by rewrite b2z_z2b_small.
Qed.

#[export] Instance Fixed16_codec : WireCodec PutFixed16 GetFixed16 (fits 16).
Proof.
  intros v rest Hv. unfold wire, GetFixed16, PutFixed16. rewrite app_nil_l.
  rewrite app_not_short by apply length_le_bytes.
  unfold DecodeFixed16, EncodeFixed16. cbn [DecodeFixed16_on EncodeFixed16_on].
  by destruct (fixed_get_put 2 v rest Hv) as [-> ->].
Qed.

#[export] Instance Fixed32_codec : WireCodec PutFixed32 GetFixed32 (fits 32).
Proof.
  intros v rest Hv. unfold wire, GetFixed32, PutFixed32. rewrite app_nil_l.
  rewrite app_not_short by apply length_le_bytes.
  unfold DecodeFixed32, EncodeFixed32. cbn [DecodeFixed32_on EncodeFixed32_on].
  by destruct (fixed_get_put 4 v rest Hv) as [-> ->].
Qed.

#[export] Instance Fixed64_codec : WireCodec PutFixed64 GetFixed64 (fits 64).
Proof.
  intros v rest Hv. unfold wire, GetFixed64, PutFixed64. rewrite app_nil_l.
  rewrite app_not_short by apply length_le_bytes.
  unfold DecodeFixed64, EncodeFixed64. cbn [DecodeFixed64_on EncodeFixed64_on].
  by destruct (fixed_get_put 8 v rest Hv) as [-> ->].
Qed.

(** The enum reader accepts exactly the values its validator accepts. *)
#[export] Instance FixedEnum8_codec V :
  WireCodec PutFixedEnum8 (GetFixedEnum8 V) (fun v => fits 8 v /\ V v = true).
Proof.
  intros v rest [Hv HV]. unfold wire, GetFixedEnum8, PutFixedEnum8.
  rewrite wrap_small by done. change (PutFixed8 [] v) with (wire PutFixed8 v).
  rewrite (get_put v rest Hv). by rewrite HV.
Qed.

(** ** Variable-length integers *)

Lemma shiftl_1 k : 0 <= k -> Z.shiftl 1 k = 2 ^ k.
Proof. intros. rewrite Z.shiftl_mul_pow2 by lia. lia. Qed.

Lemma land_127 v : Z.land v 127 = v mod 128.
Proof. change 127 with (Z.ones 7). apply Z.land_ones. lia. Qed.

Lemma continuation_byte v : b2z (z2b (Z.lor (Z.land v 127) 128)) = v mod 128 + 128.
Proof.
  pose proof (Z.mod_pos_bound v 128 ltac:(lia)).
  rewrite land_127. change 128 with (Z.shiftl 1 7) at 2.
  rewrite lor_shiftl_add by (unfold fits; lia).
  rewrite b2z_z2b_small; [lia|unfold fits; lia].
Qed.

Lemma continuation_byte_lor v : z2b (Z.lor v 128) = z2b (Z.lor (Z.land v 127) 128).
Proof.
  apply b2z_inj. rewrite !b2z_z2b. apply Z.bits_inj'. intros i Hi.
  rewrite !testbit_wrap by lia. case_bool; [|done].
  rewrite !Z.lor_spec, !Z.land_spec. change 127 with (Z.ones 7). change 128 with (2 ^ 7).
  rewrite Z.testbit_ones_nonneg, Z.pow2_bits_eqb by lia.
  repeat case_bool; try lia; by rewrite ?andb_true_r, ?orb_true_r.
Qed.

Lemma land_128_high r : fits 7 r -> Z.land (r + 128) 128 = 128.
Proof.
  intros Hr. apply Z.bits_inj'. intros i Hi. rewrite Z.land_spec.
  replace (r + 128) with (Z.lor r (Z.shiftl 1 7)) by (rewrite lor_shiftl_add by (done || lia); lia).
  change 128 with (2 ^ 7) at 1 2. rewrite Z.pow2_bits_eqb by lia.
  case_bool; [subst|by rewrite andb_false_r].
  rewrite Z.lor_spec, Z.shiftl_spec by lia. by rewrite orb_true_r.
Qed.

Lemma land_128_low r : fits 7 r -> Z.land r 128 = 0.
Proof.
  intros Hr. apply Z.bits_inj'. intros i Hi. rewrite Z.land_spec, Z.bits_0.
  change 128 with (2 ^ 7). rewrite Z.pow2_bits_eqb by lia.
  case_bool; [subst|by rewrite andb_false_r]. by rewrite (testbit_fits 7) by (done || lia).
Qed.

(** One iteration of the encoder drops seven bits of a value that does not fit
    in a byte, and uses one byte of room. *)
Lemma varint_step v room : 128 <= v -> 0 <= v < 2 ^ (7 * Z.of_nat (S room)) ->
  (0 < room)%nat /\ 1 <= Z.shiftr v 7 < 2 ^ (7 * Z.of_nat room).
Proof.
  intros H128 Hv. replace (7 * Z.of_nat (S room)) with (7 + 7 * Z.of_nat room) in Hv by lia.
  rewrite Z.pow_add_r in Hv by lia. rewrite Z.shiftr_div_pow2 by lia.
  assert (1 <= v / 2 ^ 7) by (apply Z.div_le_lower_bound; lia).
  assert (v / 2 ^ 7 < 2 ^ (7 * Z.of_nat room)) by (apply Z.div_lt_upper_bound; lia).
  split; [|lia]. destruct room; [|lia]. change (2 ^ (7 * Z.of_nat 0)) with 1 in *. lia.
Qed.

Section VarintLoop.
Context (last width : Z).
Context (Hlast : forall s, s mod 7 = 0 -> s < width -> s <= last).

Lemma varint_final_byte (v shift result : Z) rest :
  fits shift result -> 0 <= shift < width -> shift mod 7 = 0 ->
  0 <= v < 128 -> v * 2 ^ shift < 2 ^ width ->
  GetVarint_loop last width (z2b v :: rest) shift result = Some (result + v * 2 ^ shift, rest).
Proof.
  intros Hr Hs Hm Hv Hw. simpl. rewrite (proj2 (Z.leb_le shift last)) by (apply Hlast; [done|lia]).
  rewrite b2z_z2b_small by (unfold fits; lia). rewrite land_128_low by (unfold fits; lia). simpl.
  rewrite wrap_small, lor_shiftl_add; try (done || lia).
  unfold fits. rewrite Z.shiftl_mul_pow2 by lia. pose proof (Z.pow_pos_nonneg 2 shift). nia.
Qed.

Lemma varint_next_byte (v shift result : Z) rest :
  fits shift result -> 0 <= shift < width -> shift mod 7 = 0 ->
  128 <= v -> v * 2 ^ shift < 2 ^ width ->
  GetVarint_loop last width (z2b (Z.lor (Z.land v (128 - 1)) 128) :: rest) shift result =
  GetVarint_loop last width rest (shift + 7) (result + v mod 128 * 2 ^ shift).
Proof.
  intros Hr Hs Hm Hv Hw. cbn [GetVarint_loop]. rewrite (proj2 (Z.leb_le shift last)) by (apply Hlast; [done|lia]). cbv zeta.
  change (128 - 1) with 127. rewrite continuation_byte.
  pose proof (Z.mod_pos_bound v 128 ltac:(lia)) as Hmod.
  rewrite land_128_high by (unfold fits; lia). change (128 =? 0) with false. cbn [negb].
  rewrite land_127. replace ((v mod 128 + 128) mod 128) with (v mod 128).
  2: { rewrite <-(Z.mul_1_l 128) at 3. rewrite Z_mod_plus_full. by rewrite Z.mod_mod. }
  pose proof (Z.pow_pos_nonneg 2 shift). pose proof (Z.mod_le v 128 ltac:(lia) ltac:(lia)).
  rewrite wrap_small, lor_shiftl_add; try (done || lia).
  unfold fits. rewrite Z.shiftl_mul_pow2 by lia. nia.
Qed.

Lemma varint_loop_decodes room v shift result rest :
  (0 < room)%nat -> fits shift result -> 0 <= shift < width -> shift mod 7 = 0 ->
  0 <= v < 2 ^ (7 * Z.of_nat room) -> v * 2 ^ shift < 2 ^ width ->
  GetVarint_loop last width (EncodeVarint64_loop room v ++ rest) shift result =
  Some (result + v * 2 ^ shift, rest).
Proof.
  revert v shift result. induction room as [|room IH]; intros v shift result Hn Hr Hs Hm Hv Hw; [lia|].
  cbn [EncodeVarint64_loop]. case_bool; [|apply varint_final_byte; (done || lia)].
  rewrite <-app_comm_cons, varint_next_byte by (done || lia).
  destruct (varint_step v room) as [Hn' Hv']; [done|done|].
  rewrite Z.shiftr_div_pow2 in * by lia. change (2 ^ 7) with 128 in *.
  pose proof (Z.pow_pos_nonneg 2 shift). pose proof (Z.mod_pos_bound v 128 ltac:(lia)).
  pose proof (Z.div_mod v 128 ltac:(lia)). unfold fits in *.
  assert (2 ^ (shift + 7) = 2 ^ shift * 128) as Hpow by (rewrite Z.pow_add_r by lia; done).
  rewrite IH.
  - rewrite Hpow. f_equal. f_equal. nia.
  - done.
  - rewrite Hpow. nia.
  - split; [lia|]. apply (Z.pow_lt_mono_r_iff 2); [lia|lia|]. rewrite Hpow. nia.
  - rewrite <-Zplus_mod_idemp_r, Z_mod_same_full, Z.add_0_r. done.
  - lia.
  - rewrite Hpow. nia.
Qed.
End VarintLoop.

Lemma EncodeVarint32_is_loop v : fits 32 v -> EncodeVarint32 v = EncodeVarint64_loop 5 v.
Proof.
  intros [H0 H1]. unfold EncodeVarint32. rewrite !shiftl_1 by lia.
  cbn [EncodeVarint64_loop]. change (128 - 1) with 127. rewrite <-!continuation_byte_lor.
  rewrite !Z.shiftr_shiftr by lia.
  change (7 + 7 + 7 + 7) with 28. change (7 + 7 + 7) with 21. change (7 + 7) with 14.
  rewrite !Z.shiftr_div_pow2 by lia.
  pose proof (Z.div_mod v (2 ^ 7)). pose proof (Z.mod_pos_bound v (2 ^ 7)).
  pose proof (Z.div_mod v (2 ^ 14)). pose proof (Z.mod_pos_bound v (2 ^ 14)).
  pose proof (Z.div_mod v (2 ^ 21)). pose proof (Z.mod_pos_bound v (2 ^ 21)).
  pose proof (Z.div_mod v (2 ^ 28)). pose proof (Z.mod_pos_bound v (2 ^ 28)).
  repeat match goal with |- context [?a <? ?b] => destruct (Z.ltb_spec a b) end;
  repeat match goal with |- context [?a <=? ?b] => destruct (Z.leb_spec a b) end;
  (reflexivity || lia).
Qed.

Lemma EncodeVarint64_loop_room room room' v :
  (0 < room <= room')%nat -> 0 <= v < 2 ^ (7 * Z.of_nat room) ->
  EncodeVarint64_loop room' v = EncodeVarint64_loop room v.
Proof.
  revert room' v. induction room as [|room IH]; intros [|room'] v Hr Hv; try lia.
  cbn [EncodeVarint64_loop]. case_bool; [|done].
  destruct (varint_step v room) as [Hn' Hv']; [done|done|]. f_equal. apply IH; lia.
Qed.

Lemma EncodeVarint32_EncodeVarint64 v : fits 32 v -> EncodeVarint32 v = EncodeVarint64 v.
Proof.
  intros Hv. rewrite EncodeVarint32_is_loop by done. symmetry.
  apply (EncodeVarint64_loop_room 5); [unfold kMaxVarint64Length; lia|]. unfold fits in Hv. change (7 * Z.of_nat 5) with 35. lia.
Qed.

Lemma length_EncodeVarint64_loop room v : (length (EncodeVarint64_loop room v) <= room)%nat.
Proof.
  revert v. induction room as [|room IH]; intros v; simpl; [lia|].
  case_bool; simpl; [specialize (IH (Z.shiftr v 7))|]; lia.
Qed.

(** The loop of [VarintLength] counts the iterations of the encoder. *)
Lemma VarintLength_loop_length room v len : 0 <= v < 2 ^ (7 * Z.of_nat room) -> (0 < room)%nat ->
  VarintLength_loop room v len = len + Z.of_nat (length (EncodeVarint64_loop room v)) - 1.
Proof.
  revert v len. induction room as [|room IH]; intros v len Hv Hr; [lia|].
  cbn [VarintLength_loop EncodeVarint64_loop]. case_bool; [|simpl; lia].
  destruct (varint_step v room) as [Hn' Hv']; [done|done|].
  rewrite IH by lia. cbn [length]. lia.
Qed.

Lemma GetVarint64Ptr_EncodeVarint64 v rest : fits 64 v ->
  GetVarint64Ptr (EncodeVarint64 v ++ rest) = Some (v, rest).
Proof.
  intros Hv. unfold GetVarint64Ptr, EncodeVarint64, kMaxVarint64Length, fits in *.
  rewrite varint_loop_decodes; try done; try (simpl; lia).
  do 2 f_equal. lia.
Qed.

Lemma GetVarint32PtrFallback_EncodeVarint32 v rest : fits 32 v ->
  GetVarint32PtrFallback (EncodeVarint32 v ++ rest) = Some (v, rest).
Proof.
  intros Hv. rewrite EncodeVarint32_is_loop by done. unfold GetVarint32PtrFallback, fits in *.
  rewrite varint_loop_decodes; try done; try (simpl; lia).
  - do 2 f_equal. lia.
  - intros s Hs Hw. pose proof (Z.div_mod s 7). lia.
Qed.

(** The one-byte fast path of [GetVarint32Ptr] computes what the general
    routine computes. *)
Lemma GetVarint32Ptr_fast_path p : GetVarint32Ptr p = GetVarint32PtrFallback p.
Proof.
  destruct p as [|b p]; [done|]. unfold GetVarint32Ptr, GetVarint32PtrFallback.
  cbn [GetVarint_loop]. change (0 <=? 28) with true. cbv zeta. cbv iota.
  destruct (Z.land (b2z b) 128 =? 0) eqn:E; simpl; [|done].
  rewrite Z.shiftl_0_r, wrap_small; [done|].
  apply (fits_mono 8); [lia|apply b2z_fits].
Qed.

#[export] Instance Varint32_codec : WireCodec PutVarint32 GetVarint32 (fits 32).
Proof.
  intros v rest Hv. unfold wire, GetVarint32, PutVarint32. rewrite app_nil_l.
  by rewrite GetVarint32Ptr_fast_path, GetVarint32PtrFallback_EncodeVarint32.
Qed.

#[export] Instance Varint64_codec : WireCodec PutVarint64 GetVarint64 (fits 64).
Proof.
  intros v rest Hv. unfold wire, GetVarint64, PutVarint64. rewrite app_nil_l.
  by rewrite GetVarint64Ptr_EncodeVarint64.
Qed.

(** ** Slices and topic IDs *)

(** A slice whose length fits the 32-bit length prefix. *)
Definition slice_ok (s : slice) : Prop := Z.of_nat (length s) < 2 ^ 32.

#[export] Instance slice_ok_dec s : Decision (slice_ok s).
Proof. unfold slice_ok. apply _. Defined.

#[export] Instance Slice_codec : WireCodec PutLengthPrefixedSlice GetLengthPrefixedSlice slice_ok.
Proof.
  intros v rest Hv. unfold slice_ok in Hv. unfold wire, GetLengthPrefixedSlice, PutLengthPrefixedSlice.
  assert (fits 32 (Z.of_nat (length v))) as Hf by (unfold fits; lia).
  rewrite (wrap_small _ _ Hf), <-app_assoc, (get_put (put:=PutVarint32) _ _ Hf).
  rewrite (proj2 (Z.leb_le _ _)) by (rewrite length_app; lia).
  by rewrite take_app_length', drop_app_length' by lia.
Qed.

Definition topic_ok (t : slice * slice) : Prop := slice_ok (fst t) /\ slice_ok (snd t).

#[export] Instance topic_ok_dec t : Decision (topic_ok t).
Proof. unfold topic_ok. apply _. Defined.

#[export] Instance TopicPair_codec : WireCodec PutTopicPair GetTopicID topic_ok.
Proof.
  intros [n t] rest [Hn Ht]. unfold wire, PutTopicPair, PutTopicID, GetTopicID. cbn [fst snd].
  rewrite !(put_appends (put:=PutLengthPrefixedSlice)), app_nil_l, <-app_assoc.
  rewrite !(get_bind_put _ _ slice_ok) by done. done.
Qed.

(** Writing the parts one after the other writes their concatenation. *)
Lemma PutLengthPrefixedSliceParts_concat dst parts : slice_ok (concat parts) ->
  PutLengthPrefixedSliceParts dst parts = PutLengthPrefixedSlice dst (concat parts).
Proof.
  intros Hok. unfold PutLengthPrefixedSliceParts, PutLengthPrefixedSlice.
  assert (forall acc, fold_left (fun acc part => acc ++ part) parts acc = acc ++ concat parts) as ->.
  { clear Hok. induction parts as [|p ps IH]; intros acc; simpl; [by rewrite app_nil_r|].
    by rewrite IH, <-app_assoc. }
  f_equal. f_equal.
  enough (forall acc, 0 <= acc -> acc + Z.of_nat (length (concat parts)) < 2 ^ 32 ->
    fold_left (fun acc part => wrap 32 (acc + wrap 32 (Z.of_nat (length part)))) parts acc =
    acc + Z.of_nat (length (concat parts))) as Hsum.
  { unfold slice_ok in Hok. rewrite Hsum by lia. rewrite wrap_small; unfold fits; lia. }
  clear Hok. induction parts as [|p ps IH]; intros acc Hacc Hb; simpl in *; [lia|].
  rewrite length_app, Nat2Z.inj_add in Hb.
  rewrite (wrap_small 32 (Z.of_nat (length p))) by (unfold fits; lia).
  rewrite wrap_small by (unfold fits; lia). rewrite IH by lia. rewrite length_app. lia.
Qed.

Lemma GetSliceUntil_spec s d :
  let '(ret, rest) := GetSliceUntil s d in
  (d ∉ ret) /\ ((s = ret ++ d :: rest) \/ (s = ret /\ rest = [])).
Proof.
  induction s as [|b s IH]; simpl; [split; [set_solver|auto]|].
  case_decide as Hd; subst; [split; [set_solver|by left]|].
  destruct (GetSliceUntil s d) as [ret rest]. destruct IH as [Hin [->|[-> ->]]].
  - split; [set_solver|by left].
  - split; [set_solver|by right].
Qed.

Lemma GetBytes_put data n rest : length data = n ->
  GetBytes n (PutBytes [] data ++ rest) = (Some data, rest).
Proof.
  intros Hn. unfold GetBytes, PutBytes. rewrite app_nil_l, app_not_short by done.
  by rewrite take_app_length', drop_app_length' by lia.
Qed.

#[export] Instance Bytes_codec n : WireCodec PutBytes (GetBytes n) (fun d => length d = n).
Proof. intros ? ? ?. by apply GetBytes_put. Qed.

(** ** Input safety: every reader leaves a suffix of its input *)

Lemma GetVarint_loop_suffix last w p shift result v q :
  GetVarint_loop last w p shift result = Some (v, q) -> q `suffix_of` p.
Proof.
  revert shift result. induction p as [|b p IH]; intros shift result; simpl.
  { by destruct (shift <=? last). }
  case_bool; [|done]. destruct (negb _); intros; simplify_eq; eauto with rs.
Qed.

#[export] Instance GetFixed8_forward : Forward GetFixed8.
Proof. intros s. unfold GetFixed8. destruct (_ <? _)%nat; cbn [snd]; auto with rs. Qed.
#[export] Instance GetFixed16_forward : Forward GetFixed16.
Proof. intros s. unfold GetFixed16. destruct (_ <? _)%nat; cbn [snd]; auto with rs. Qed.
#[export] Instance GetFixed64_forward : Forward GetFixed64.
Proof. intros s. unfold GetFixed64. destruct (_ <? _)%nat; cbn [snd]; auto with rs. Qed.
#[export] Instance GetBytes_forward n : Forward (GetBytes n).
Proof. intros s. unfold GetBytes. destruct (_ <? _)%nat; cbn [snd]; auto with rs. Qed.
#[export] Instance GetVarint32_forward : Forward GetVarint32.
Proof.
  intros s. unfold GetVarint32. rewrite GetVarint32Ptr_fast_path.
  destruct (GetVarint32PtrFallback s) as [[v q]|] eqn:E; simpl; [|reflexivity].
  by eapply GetVarint_loop_suffix.
Qed.
#[export] Instance GetVarint64_forward : Forward GetVarint64.
Proof.
  intros s. unfold GetVarint64.
  destruct (GetVarint64Ptr s) as [[v q]|] eqn:E; simpl; [|reflexivity].
  by eapply GetVarint_loop_suffix.
Qed.
#[export] Instance GetFixedEnum8_forward V : Forward (GetFixedEnum8 V).
Proof.
  intros s. unfold GetFixedEnum8. pose proof (forward (get:=GetFixed8) s).
  destruct (GetFixed8 s) as [[x|] s']; done.
Qed.
#[export] Instance GetLengthPrefixedSlice_forward : Forward GetLengthPrefixedSlice.
Proof.
  intros s. unfold GetLengthPrefixedSlice. pose proof (forward (get:=GetVarint32) s) as H.
  destruct (GetVarint32 s) as [[len|] s']; simpl in *; [|done].
  case_bool; simpl; [|done]. etrans; [apply suffix_drop|done].
Qed.
#[export] Instance GetTopicID_forward : Forward GetTopicID.
Proof. unfold GetTopicID. apply _. Qed.

(** ** Properties *)

(** A 64-bit value written as a varint is read back from the front of any
    input, takes [VarintLength] bytes and never more than the ten of the
    buffer; a 32-bit value has the same bytes in both encoders, takes at most
    five, and is read back by the 32-bit reader. *)
Theorem Varint_roundtrip v rest : fits 64 v ->
  GetVarint64 (PutVarint64 [] v ++ rest) = (Some v, rest) /\
  Z.of_nat (length (EncodeVarint64 v)) = VarintLength v /\
  (length (EncodeVarint64 v) <= kMaxVarint64Length)%nat /\
  (fits 32 v ->
   EncodeVarint32 v = EncodeVarint64 v /\
   GetVarint32 (PutVarint32 [] v ++ rest) = (Some v, rest) /\
   (length (EncodeVarint32 v) <= kMaxVarint32Length)%nat).
Proof.
  intros Hv. split_and!.
  - by apply (get_put (put:=PutVarint64)).
  - unfold VarintLength, EncodeVarint64, kMaxVarint64Length. unfold fits in Hv.
    rewrite VarintLength_loop_length by (cbn; lia). lia.
  - apply length_EncodeVarint64_loop.
  - intros H32. split_and!; [by apply EncodeVarint32_EncodeVarint64|by apply (get_put (put:=PutVarint32))|].
    rewrite EncodeVarint32_is_loop by done. apply length_EncodeVarint64_loop.
Qed.

Lemma Varint_roundtrip_witness :
  GetVarint64 (PutVarint64 [] 300 ++ [Byte.x07]) = (Some 300, [Byte.x07]) /\
  Z.of_nat (length (EncodeVarint64 300)) = VarintLength 300 /\
  (length (EncodeVarint64 300) <= kMaxVarint64Length)%nat /\
  (fits 32 300 ->
   EncodeVarint32 300 = EncodeVarint64 300 /\
   GetVarint32 (PutVarint32 [] 300 ++ [Byte.x07]) = (Some 300, [Byte.x07]) /\
   (length (EncodeVarint32 300) <= kMaxVarint32Length)%nat).
Proof. apply Varint_roundtrip. unfold fits. lia. Defined.

(** The portable branches of the fixed-width coders agree with the
    [memcpy] branches, on writing for every value and on reading for every
    buffer that is long enough: the wire format does not depend on the byte
    order of the host. *)
Theorem Fixed_host_independent b v ptr : (8 <= length ptr)%nat ->
  EncodeFixed16_on b v = EncodeFixed16 v /\ EncodeFixed32_on b v = EncodeFixed32 v /\
  EncodeFixed64_on b v = EncodeFixed64 v /\
  DecodeFixed16_on b ptr = DecodeFixed16 ptr /\ DecodeFixed32_on b ptr = DecodeFixed32 ptr /\
  DecodeFixed64_on b ptr = DecodeFixed64 ptr.
Proof.
  intros Hp. destruct (EncodeFixed_host_independent b v) as (? & ? & ?). split_and!; try done.
  - apply DecodeFixed16_host_independent. lia.
  - apply DecodeFixed32_host_independent. lia.
  - by apply DecodeFixed64_host_independent.
Qed.

Lemma Fixed_host_independent_witness :
  let ptr := map z2b [1; 2; 3; 4; 250; 251; 252; 253] in
  EncodeFixed16_on false 513 = EncodeFixed16 513 /\ EncodeFixed32_on false 513 = EncodeFixed32 513 /\
  EncodeFixed64_on false 513 = EncodeFixed64 513 /\
  DecodeFixed16_on false ptr = DecodeFixed16 ptr /\ DecodeFixed32_on false ptr = DecodeFixed32 ptr /\
  DecodeFixed64_on false ptr = DecodeFixed64 ptr.
Proof. intros ptr. apply Fixed_host_independent. simpl. lia. Defined.

(** Writing a slice in parts writes the same bytes as writing their
    concatenation, as long as the total length fits its 32-bit prefix, and the
    reader gives the concatenation back. *)
Theorem SliceParts_roundtrip dst parts rest : slice_ok (concat parts) ->
  PutLengthPrefixedSliceParts dst parts = PutLengthPrefixedSlice dst (concat parts) /\
  GetLengthPrefixedSlice (PutLengthPrefixedSliceParts [] parts ++ rest) = (Some (concat parts), rest).
Proof.
  intros Hok. split; [by apply PutLengthPrefixedSliceParts_concat|].
  rewrite PutLengthPrefixedSliceParts_concat by done. by apply (get_put (put:=PutLengthPrefixedSlice)).
Qed.

Lemma SliceParts_roundtrip_witness :
  let parts := [bytes_of "ab"; []; bytes_of "c"] in
  PutLengthPrefixedSliceParts [] parts = PutLengthPrefixedSlice [] (concat parts) /\
  GetLengthPrefixedSlice (PutLengthPrefixedSliceParts [] parts ++ [Byte.x01]) = (Some (concat parts), [Byte.x01]).
Proof. intros parts. apply SliceParts_roundtrip. unfold slice_ok. simpl. lia. Defined.
