(* ===== verification/BitStream.v ===== *)
(** * Bit streams

    Model of [BitStreamPutInt] and [BitStreamGetInt] of
    [src/util/common/coding.cc].  Buffers are lists of bytes; [None] is a
    failed [RS_ASSERT]. *)

From S2P Require Import Prelude Coding.

(** ** Model *)

Definition byte_at (l : list byte) (i : Z) : byte := nth (Z.to_nat i) l Byte.x00.

(** One iteration of the [while (bits > 0)] loop handles what is left of the
    current byte; [bits] iterations are always enough. *)
Fixpoint BitStreamGetInt_loop (fuel : nat) (ptr : list byte)
    (byteOffset bitOffset shift bits result : Z) : Z :=
  match fuel with
  | O => result
  | S fuel =>
      if 0 <? bits then
        let bitsToGet := Z.min bits (8 - bitOffset) in
        let mask := u8 (Z.shiftl 1 bitsToGet - 1) in
        BitStreamGetInt_loop fuel ptr (byteOffset + 1) 0 (shift + bitsToGet) (bits - bitsToGet)
          (u64 (result + u64 (Z.shiftl (Z.land (Z.shiftr (b2z (byte_at ptr byteOffset)) bitOffset)
                                               mask) shift)))
      else result
  end.

Definition BitStreamGetInt (src : list byte) (offset bits : Z) : option Z :=
  if ((offset + bits + 7) / 8 <=? Z.of_nat (length src)) && (bits <=? 64)
  then Some (BitStreamGetInt_loop (Z.to_nat bits) src (offset / 8) (offset mod 8) 0 bits 0)
  else None.

Fixpoint BitStreamPutInt_loop (fuel : nat) (ptr : list byte)
    (byteOffset bitOffset bits value : Z) : list byte :=
  match fuel with
  | O => ptr
  | S fuel =>
      if 0 <? bits then
        let bitsToGet := Z.min bits (8 - bitOffset) in
        let mask := u8 (Z.shiftl 1 bitsToGet - 1) in
        let old := b2z (byte_at ptr byteOffset) in
        let new := z2b (Z.land old (Z.lnot (Z.shiftl mask bitOffset))
                        + Z.shiftl (Z.land value mask) bitOffset) in
        BitStreamPutInt_loop fuel (<[Z.to_nat byteOffset := new]> ptr) (byteOffset + 1) 0
          (bits - bitsToGet) (Z.shiftr value bitsToGet)
      else ptr
  end.

Definition truncate (bits value : Z) : Z :=
  if bits <? 64 then Z.land value (Z.shiftl 1 bits - 1) else value.

Definition BitStreamPutInt (dst : list byte) (offset bits value : Z) : option (list byte) :=
  if ((offset + bits + 7) / 8 <=? Z.of_nat (length dst)) && (bits <=? 64) then
    let dst' := BitStreamPutInt_loop (Z.to_nat bits) dst (offset / 8) (offset mod 8) bits value in
    match BitStreamGetInt dst' offset bits with
    | Some v => if truncate bits value =? v then Some dst' else None
    | None => None
    end
  else None.

(** The [std::string] variant works on a nine byte buffer on the stack, whose
    initial contents are [uninit].  [mem] is the string's storage including its
    terminating NUL, since the copy loops run up to and including index
    [kUsedBytes]. *)
Definition copy_bytes (from : list byte) (from_off : Z) (to : list byte) (to_off : Z) (n : nat)
    : list byte :=
  fold_left (fun acc (idx : nat) =>
    <[Z.to_nat (to_off + Z.of_nat idx) := byte_at from (from_off + Z.of_nat idx)]> acc)
    (seq 0 n) to.

Definition BitStreamPutInt_string (uninit mem : list byte) (offset bits value : Z)
    : option (list byte) :=
  let size := Z.of_nat (length mem) - 1 in
  if (offset + bits + 7) / 8 <=? size then
    let kUsedBytes := (offset mod 8 + bits) / 8 in
    let n := Z.to_nat (kUsedBytes + 1) in
    let tmpBuf := copy_bytes mem (offset / 8) uninit 0 n in
    match BitStreamPutInt tmpBuf (offset mod 8) bits value with
    | None => None
    | Some tmpBuf' =>
        let mem' := copy_bytes tmpBuf' 0 mem (offset / 8) n in
        match BitStreamGetInt (removelast mem') offset bits with
        | Some v => if truncate bits value =? v then Some mem' else None
        | None => None
        end
    end
  else None.

(** ** Bit-level reading of a buffer *)

(** Bit [i] of a buffer: bits are numbered from the least significant bit of
    the first byte. *)
Definition bit_at (l : list byte) (i : Z) : bool :=
  Z.testbit (b2z (byte_at l (i / 8))) (i mod 8).

Lemma mask_ones n : 0 <= n <= 8 -> u8 (Z.shiftl 1 n - 1) = Z.ones n.
Proof.
  intros. rewrite wrap_small; [by rewrite Z.ones_equiv, Z.shiftl_mul_pow2, Z.mul_1_l by lia|].
  rewrite Z.shiftl_mul_pow2, Z.mul_1_l by lia. unfold fits.
  pose proof (Z.pow_le_mono_r 2 n 8). pose proof (Z.pow_pos_nonneg 2 n). lia.
Qed.

(** Writing a field of [n] bits at [bo] in one byte. *)
Lemma put_byte_testbit p value bo n j :
  0 <= bo -> 0 <= n -> bo + n <= 8 -> 0 <= j < 8 ->
  Z.testbit (b2z (z2b (Z.land (b2z p) (Z.lnot (Z.shiftl (Z.ones n) bo))
                        + Z.shiftl (Z.land value (Z.ones n)) bo))) j
  = if (bo <=? j) && (j <? bo + n) then Z.testbit value (j - bo) else Z.testbit (b2z p) j.
Proof.
  intros Hbo Hn Hle Hj. rewrite b2z_z2b, testbit_wrap by lia.
  rewrite (proj2 (Z.ltb_lt j 8)) by lia. cbn [andb].
  set (a := Z.land _ _). set (b := Z.shiftl _ _).
  assert (forall i, 0 <= i -> Z.testbit a i =
    Z.testbit (b2z p) i && negb ((bo <=? i) && (i <? bo + n))) as Ha.
  { intros i Hi. unfold a. rewrite Z.land_spec, Z.lnot_spec, Z.shiftl_spec by lia.
    f_equal. f_equal. destruct (Z.leb_spec bo i).
    - rewrite Z.testbit_ones_nonneg by lia. repeat case_bool; try lia; done.
    - by rewrite Z.testbit_neg_r by lia. }
  assert (forall i, 0 <= i -> Z.testbit b i =
    (bo <=? i) && (i <? bo + n) && Z.testbit value (i - bo)) as Hb.
  { intros i Hi. unfold b. rewrite Z.shiftl_spec, Z.land_spec by lia.
    destruct (Z.leb_spec bo i).
    - rewrite Z.testbit_ones_nonneg, andb_comm by lia. repeat case_bool; try lia; done.
    - by rewrite Z.testbit_neg_r by lia. }
  assert (Z.land a b = 0) as Hdisj.
  { apply Z.bits_inj'. intros i Hi. rewrite Z.land_spec, Ha, Hb, Z.bits_0 by lia.
    repeat case_bool; simpl; by rewrite ?andb_false_r. }
  rewrite Z.add_nocarry_lxor, Z.lxor_lor by done. rewrite Z.lor_spec, Ha, Hb by lia.
  destruct ((bo <=? j) && (j <? bo + n)); simpl; by rewrite ?andb_false_r, ?andb_true_r, ?orb_false_r.
Qed.

Lemma byte_at_insert l i b k : 0 <= i -> 0 <= k -> i < Z.of_nat (length l) ->
  byte_at (<[Z.to_nat i := b]> l) k = if k =? i then b else byte_at l k.
Proof.
  intros Hi Hk Hl. unfold byte_at. rewrite !nth_lookup. case_bool; subst.
  - rewrite list_lookup_insert_eq by lia. done.
  - rewrite list_lookup_insert_ne by lia. done.
Qed.

Lemma length_BitStreamPutInt_loop fuel l by_ bo bits v :
  length (BitStreamPutInt_loop fuel l by_ bo bits v) = length l.
Proof.
  revert l by_ bo bits v. induction fuel as [|fuel IH]; intros; simpl; [done|].
  case_bool; [|done]. by rewrite IH, length_insert.
Qed.

Lemma BitStreamPutInt_loop_bits fuel l by_ bo bits v i :
  0 <= by_ -> 0 <= bo < 8 -> 0 <= bits <= Z.of_nat fuel ->
  8 * by_ + bo + bits <= 8 * Z.of_nat (length l) -> 0 <= i ->
  bit_at (BitStreamPutInt_loop fuel l by_ bo bits v) i =
  if (8 * by_ + bo <=? i) && (i <? 8 * by_ + bo + bits)
  then Z.testbit v (i - (8 * by_ + bo)) else bit_at l i.
Proof.
  revert l by_ bo bits v. induction fuel as [|fuel IH]; intros l by_ bo bits v Hy Hbo Hb Hl Hi.
  { simpl. assert (bits = 0) as -> by lia. repeat case_bool; try lia; done. }
  cbn [BitStreamPutInt_loop]. case_bool; cycle 1.
  { assert (bits = 0) as -> by lia. repeat case_bool; try lia; done. }
  cbv zeta. set (n := Z.min bits (8 - bo)). rewrite mask_ones by lia.
  rewrite IH by (rewrite ?length_insert; lia).
  pose proof (Z.div_mod i 8 ltac:(lia)). pose proof (Z.mod_pos_bound i 8 ltac:(lia)).
  pose proof (Z.div_pos i 8 ltac:(lia) ltac:(lia)).
  unfold bit_at at 1. rewrite byte_at_insert by lia.
  destruct (Z.eqb_spec (i / 8) by_) as [Hby|Hby].
  - rewrite put_byte_testbit by lia.
    destruct ((8 * (by_ + 1) + 0 <=? i) && _) eqn:E1; [lia|].
    destruct ((bo <=? i mod 8) && _) eqn:E2, ((8 * by_ + bo <=? i) && _) eqn:E3; try lia.
    + f_equal. lia.
    + unfold bit_at. by rewrite Hby.
  - fold (bit_at l i).
    destruct ((8 * (by_ + 1) + 0 <=? i) && _) eqn:E1, ((8 * by_ + bo <=? i) && _) eqn:E3; try lia; try done.
    rewrite Z.shiftr_spec by lia. f_equal. lia.
Qed.

(** Reading accumulates: bits below [shift] come from [result], the next
    [bits] bits from the buffer, and the rest are zero. *)
Lemma BitStreamGetInt_loop_bits fuel l by_ bo shift bits result i :
  0 <= by_ -> 0 <= bo < 8 -> 0 <= bits <= Z.of_nat fuel -> 0 <= shift -> shift + bits <= 64 ->
  fits shift result -> 0 <= i ->
  Z.testbit (BitStreamGetInt_loop fuel l by_ bo shift bits result) i =
  if i <? shift then Z.testbit result i
  else if i <? shift + bits then bit_at l (8 * by_ + bo + (i - shift)) else false.
Proof.
  revert by_ bo shift bits result.
  induction fuel as [|fuel IH]; intros by_ bo shift bits result Hy Hbo Hb Hs H64 Hr Hi.
  { simpl. assert (bits = 0) as -> by lia. repeat case_bool; try lia; try done.
    by apply (testbit_fits shift). }
  cbn [BitStreamGetInt_loop]. destruct (Z.ltb_spec 0 bits); cycle 1.
  { assert (bits = 0) as -> by lia. repeat case_bool; try lia; try done.
    by apply (testbit_fits shift). }
  cbv zeta. set (n := Z.min bits (8 - bo)). rewrite mask_ones by lia.
  set (f := Z.land _ (Z.ones n)).
  assert (fits n f) as Hf.
  { unfold f. rewrite Z.land_ones by lia. apply wrap_fits. lia. }
  assert (fits (shift + n) (result + f * 2 ^ shift)) as Hnew.
  { unfold fits in *. rewrite Z.pow_add_r by lia. pose proof (Z.pow_pos_nonneg 2 shift). nia. }
  assert (0 <= f * 2 ^ shift) by (unfold fits in Hf; pose proof (Z.pow_pos_nonneg 2 shift); nia).
  rewrite (wrap_small 64 (Z.shiftl f shift)).
  2: { rewrite Z.shiftl_mul_pow2 by lia. apply (fits_mono (shift + n)); [lia|].
       unfold fits in *. lia. }
  rewrite Z.shiftl_mul_pow2, wrap_small by (try apply (fits_mono (shift + n)); done || lia).
  rewrite IH; try (done || lia).
  rewrite <-lor_shiftl_add by (done || apply Hf || lia).
  rewrite Z.lor_spec. destruct (Z.ltb_spec i (shift + n)), (Z.ltb_spec i shift); try lia.
  - rewrite Z.shiftl_spec_low by lia. by rewrite orb_false_r.
  - rewrite (testbit_fits shift result) by (done || lia). rewrite Z.shiftl_spec by lia. simpl.
    unfold f. rewrite Z.land_spec, Z.testbit_ones_nonneg, Z.shiftr_spec by lia.
    rewrite !(proj2 (Z.ltb_lt _ _)), andb_true_r by lia. unfold bit_at.
    replace ((8 * by_ + bo + (i - shift)) / 8) with by_ by (apply Z.div_unique with (bo + (i - shift)); lia).
    replace ((8 * by_ + bo + (i - shift)) mod 8) with (i - shift + bo)
      by (apply Z.mod_unique with by_; lia). done.
  - replace (shift + n + (bits - n)) with (shift + bits) by lia.
    case_bool; [|done]. f_equal. lia.
Qed.

(** ** Behaviour of the two routines *)

Lemma truncate_wrap bits v : 0 <= bits <= 64 -> fits 64 v -> truncate bits v = wrap bits v.
Proof.
  intros Hb Hv. unfold truncate. case_bool.
  - rewrite Z.shiftl_mul_pow2, Z.mul_1_l by lia.
    replace (2 ^ bits - 1) with (Z.ones bits) by (rewrite Z.ones_equiv; lia).
    apply Z.land_ones. lia.
  - assert (bits = 64) as -> by lia. by rewrite wrap_small.
Qed.

(** The range of bits lies inside the buffer, as both routines assert. *)
Definition field_ok (l : list byte) (offset bits : Z) : Prop :=
  0 <= offset /\ 0 <= bits <= 64 /\ (offset + bits + 7) / 8 <= Z.of_nat (length l).

#[export] Instance field_ok_dec l offset bits : Decision (field_ok l offset bits).
Proof. unfold field_ok. apply _. Defined.

Lemma field_ok_bits l offset bits : field_ok l offset bits ->
  0 <= offset / 8 /\ 0 <= offset mod 8 < 8 /\ offset = 8 * (offset / 8) + offset mod 8 /\
  8 * (offset / 8) + offset mod 8 + bits <= 8 * Z.of_nat (length l).
Proof.
  intros (Ho & Hb & Hl). pose proof (Z.div_mod offset 8 ltac:(lia)).
  pose proof (Z.mod_pos_bound offset 8 ltac:(lia)). pose proof (Z.div_pos offset 8 ltac:(lia) ltac:(lia)).
  pose proof (Z.div_mod (offset + bits + 7) 8 ltac:(lia)).
  pose proof (Z.mod_pos_bound (offset + bits + 7) 8 ltac:(lia)). lia.
Qed.

Lemma BitStreamGetInt_bits src offset bits i : field_ok src offset bits -> 0 <= i ->
  exists v, BitStreamGetInt src offset bits = Some v /\
            Z.testbit v i = (i <? bits) && bit_at src (offset + i).
Proof.
  intros Hok Hi. destruct (field_ok_bits _ _ _ Hok) as (? & ? & Heq & ?). destruct Hok as (? & ? & Hl).
  unfold BitStreamGetInt. rewrite !(proj2 (Z.leb_le _ _)) by lia. cbn [andb]. eexists. split; [done|].
  rewrite BitStreamGetInt_loop_bits by (unfold fits; lia).
  destruct (Z.ltb_spec i 0); [lia|]. rewrite Z.add_0_l. destruct (Z.ltb_spec i bits); [|done]. cbn [andb]. f_equal. lia.
Qed.

Lemma BitStreamPutInt_loop_get l offset bits value :
  field_ok l offset bits -> fits 64 value ->
  let l' := BitStreamPutInt_loop (Z.to_nat bits) l (offset / 8) (offset mod 8) bits value in
  BitStreamGetInt l' offset bits = Some (wrap bits value).
Proof.
  intros Hok Hv l'. destruct (field_ok_bits _ _ _ Hok) as (? & ? & Heq & ?).
  assert (field_ok l' offset bits) as Hok'.
  { unfold field_ok, l' in *. by rewrite length_BitStreamPutInt_loop. }
  destruct (BitStreamGetInt l' offset bits) as [v|] eqn:E.
  - f_equal. apply Z.bits_inj'. intros i Hi.
    destruct (BitStreamGetInt_bits l' offset bits i Hok' Hi) as (v' & E' & Hbit).
    assert (v = v') as -> by congruence. rewrite Hbit.
    rewrite testbit_wrap by (unfold field_ok in Hok; lia).
    case_bool; [|done]. cbn [andb]. unfold l'.
    rewrite BitStreamPutInt_loop_bits by (unfold field_ok in Hok; lia).
    clear Hbit. destruct ((_ <=? _) && _) eqn:Ec; [f_equal; lia|lia].
  - destruct (BitStreamGetInt_bits l' offset bits 0 Hok' ltac:(lia)) as (v' & E' & _). congruence.
Qed.

Lemma BitStreamPutInt_eq l offset bits value : field_ok l offset bits -> fits 64 value ->
  BitStreamPutInt l offset bits value =
  Some (BitStreamPutInt_loop (Z.to_nat bits) l (offset / 8) (offset mod 8) bits value).
Proof.
  intros Hok Hv. unfold BitStreamPutInt. rewrite BitStreamPutInt_loop_get by done.
  destruct Hok as (? & Hb & Hl). rewrite truncate_wrap by done. rewrite Z.eqb_refl.
  by rewrite !(proj2 (Z.leb_le _ _)) by lia.
Qed.

Lemma BitStreamPutInt_bits l offset bits value l' i :
  field_ok l offset bits -> fits 64 value -> BitStreamPutInt l offset bits value = Some l' -> 0 <= i ->
  bit_at l' i = if (offset <=? i) && (i <? offset + bits) then Z.testbit value (i - offset) else bit_at l i.
Proof.
  intros Hok Hv Hl' Hi. rewrite BitStreamPutInt_eq in Hl' by done. simplify_eq.
  destruct (field_ok_bits _ _ _ Hok) as (? & ? & Heq & ?).
  rewrite BitStreamPutInt_loop_bits by (unfold field_ok in Hok; lia). by rewrite <-Heq.
Qed.

(** Two buffers of one length with the same bits are the same buffer. *)
Lemma bits_ext l k : length l = length k -> (forall i, 0 <= i -> bit_at l i = bit_at k i) -> l = k.
Proof.
  intros Hlen Hbits. apply (nth_ext _ _ Byte.x00 Byte.x00); [done|]. intros n Hn.
  apply b2z_inj, Z.bits_inj'. intros j Hj. destruct (Z.ltb_spec j 8).
  - specialize (Hbits (8 * Z.of_nat n + j) ltac:(lia)). unfold bit_at, byte_at in Hbits.
    replace ((8 * Z.of_nat n + j) / 8) with (Z.of_nat n) in Hbits by (apply Z.div_unique with j; lia).
    replace ((8 * Z.of_nat n + j) mod 8) with j in Hbits by (apply Z.mod_unique with (Z.of_nat n); lia).
    by rewrite Nat2Z.id in Hbits.
  - rewrite !(testbit_fits 8) by (apply b2z_fits || lia). done.
Qed.

Lemma length_copy_bytes from fo to to_off n : length (copy_bytes from fo to to_off n) = length to.
Proof.
  unfold copy_bytes. generalize 0%nat. revert to. induction n as [|n IH]; intros to s; [done|].
  cbn [seq fold_left]. by rewrite IH, length_insert.
Qed.

Lemma byte_at_copy from fo to to_off n k :
  0 <= to_off -> to_off + Z.of_nat n <= Z.of_nat (length to) -> 0 <= k ->
  byte_at (copy_bytes from fo to to_off n) k =
  if (to_off <=? k) && (k <? to_off + Z.of_nat n) then byte_at from (fo + (k - to_off)) else byte_at to k.
Proof.
  intros Ho Hl Hk. unfold copy_bytes. induction n as [|n IH].
  { cbn [seq fold_left]. destruct ((to_off <=? k) && _) eqn:E; [lia|done]. }
  rewrite seq_S, fold_left_app. cbn [fold_left Nat.add].
  fold (copy_bytes from fo to to_off n) in *.
  rewrite byte_at_insert by (rewrite ?length_copy_bytes; lia). rewrite IH by lia.
  destruct (Z.eqb_spec k (to_off + Z.of_nat n)) as [->|].
  - destruct ((to_off <=? _) && (_ <? to_off + Z.of_nat (S n))) eqn:E; [f_equal; lia|lia].
  - destruct ((to_off <=? k) && _) eqn:E, ((to_off <=? k) && (k <? to_off + Z.of_nat (S n))) eqn:E'; try lia; done.
Qed.

Lemma bit_at_snoc_nul l i : bit_at (l ++ [Byte.x00]) i = bit_at l i.
Proof.
  unfold bit_at, byte_at. do 2 f_equal.
  destruct (decide (Z.to_nat (i / 8) < length l)%nat).
  - by rewrite app_nth1.
  - rewrite app_nth2 by lia. rewrite (nth_overflow l) by lia.
    by destruct (Z.to_nat (i / 8) - length l)%nat as [|[|]].
Qed.

Lemma bit_at_copy from fo to to_off n i :
  0 <= to_off -> to_off + Z.of_nat n <= Z.of_nat (length to) -> 0 <= i ->
  bit_at (copy_bytes from fo to to_off n) i =
  if (8 * to_off <=? i) && (i <? 8 * (to_off + Z.of_nat n)) then bit_at from (8 * (fo - to_off) + i)
  else bit_at to i.
Proof.
  intros Ho Hl Hi. unfold bit_at. pose proof (Z.div_mod i 8 ltac:(lia)).
  pose proof (Z.mod_pos_bound i 8 ltac:(lia)). pose proof (Z.div_pos i 8 ltac:(lia) ltac:(lia)).
  rewrite byte_at_copy by lia.
  destruct ((to_off <=? i / 8) && _) eqn:E, ((8 * to_off <=? i) && _) eqn:E'; try lia.
  replace ((8 * (fo - to_off) + i) / 8) with (fo + (i / 8 - to_off))
    by (apply Z.div_unique with (i mod 8); lia).
  replace ((8 * (fo - to_off) + i) mod 8) with (i mod 8)
    by (apply Z.mod_unique with (fo + (i / 8 - to_off)); lia). done.
Qed.

(** ** Properties *)

(** [BitStreamPutInt] on a field that lies in the buffer never trips an
    assertion; reading the field back gives the value truncated to the field's
    width, the buffer keeps its size, and every bit outside the field keeps
    its value. *)
Theorem BitStreamPutInt_correct dst offset bits value :
  field_ok dst offset bits -> fits 64 value ->
  exists dst', BitStreamPutInt dst offset bits value = Some dst' /\
    BitStreamGetInt dst' offset bits = Some (wrap bits value) /\
    length dst' = length dst /\
    (forall i, 0 <= i -> i < offset \/ offset + bits <= i -> bit_at dst' i = bit_at dst i).
Proof.
  intros Hok Hv. eexists. split; [by apply BitStreamPutInt_eq|].
  split; [by apply BitStreamPutInt_loop_get|].
  split; [apply length_BitStreamPutInt_loop|]. intros i Hi Hout.
  rewrite (BitStreamPutInt_bits dst offset bits value) by (done || by apply BitStreamPutInt_eq).
  destruct (_ && _) eqn:E; [lia|done].
Qed.

Lemma BitStreamPutInt_correct_witness :
  exists dst', BitStreamPutInt [Byte.xff; Byte.x00; Byte.xff] 5 9 300 = Some dst' /\
    BitStreamGetInt dst' 5 9 = Some 300.
Proof.
  destruct (BitStreamPutInt_correct [Byte.xff; Byte.x00; Byte.xff] 5 9 300) as (d & H1 & H2 & _).
  - split; [lia|]. split; [lia|]. vm_compute. discriminate.
  - unfold fits. lia.
  - exists d. split; [exact H1|exact H2].
Defined.

(** The [std::string] variant, which works through a nine byte buffer on
    the stack and copies one byte more than the field can touch, computes the
    same string as the pointer variant, whatever the buffer held before, and
    leaves the string's terminating NUL in place. *)
Theorem BitStreamPutInt_string_correct uninit dst offset bits value :
  field_ok dst offset bits -> fits 64 value -> length uninit = 9%nat ->
  exists dst', BitStreamPutInt dst offset bits value = Some dst' /\
    BitStreamPutInt_string uninit (dst ++ [Byte.x00]) offset bits value = Some (dst' ++ [Byte.x00]).
Proof.
  intros Hok Hv Hu. destruct (field_ok_bits _ _ _ Hok) as (Ho & Hm & Heq & Hend).
  exists (BitStreamPutInt_loop (Z.to_nat bits) dst (offset / 8) (offset mod 8) bits value).
  split; [by apply BitStreamPutInt_eq|]. set (dst' := BitStreamPutInt_loop _ _ _ _ _ _).
  assert (length dst' = length dst) as Hlen by apply length_BitStreamPutInt_loop.
  pose proof Hok as (_ & Hb & Hl).
  pose proof (Z.div_mod (offset mod 8 + bits) 8 ltac:(lia)) as Hu1.
  pose proof (Z.mod_pos_bound (offset mod 8 + bits) 8 ltac:(lia)) as Hu2.
  unfold BitStreamPutInt_string. rewrite length_app. cbn [length].
  rewrite (proj2 (Z.leb_le _ _)) by lia.
  set (used := (offset mod 8 + bits) / 8) in *. set (n := Z.to_nat (used + 1)).
  set (tmp := copy_bytes _ _ uninit 0 n).
  assert (field_ok tmp (offset mod 8) bits) as Hokt.
  { unfold field_ok, tmp. rewrite length_copy_bytes, Hu. repeat split; try lia.
    apply Z.lt_succ_r, Z.div_lt_upper_bound; lia. }
  rewrite BitStreamPutInt_eq by done. set (tmp' := BitStreamPutInt_loop _ _ _ _ _ _).
  assert (length tmp' = 9%nat) as Htmp'.
  { unfold tmp', tmp. by rewrite length_BitStreamPutInt_loop, length_copy_bytes. }
  assert (copy_bytes tmp' 0 (dst ++ [Byte.x00]) (offset / 8) n = dst' ++ [Byte.x00]) as ->.
  { apply bits_ext; [rewrite length_copy_bytes, !length_app; lia|]. intros i Hi.
    rewrite bit_at_copy by (rewrite ?length_app; simpl; lia). rewrite !bit_at_snoc_nul.
    rewrite (BitStreamPutInt_bits dst offset bits value dst') by (done || by apply BitStreamPutInt_eq).
    destruct ((8 * (offset / 8) <=? i) && _) eqn:E1.
    - rewrite (BitStreamPutInt_bits tmp (offset mod 8) bits value tmp')
        by (done || lia || by apply BitStreamPutInt_eq).
      unfold tmp. rewrite bit_at_copy by lia. rewrite bit_at_snoc_nul.
      destruct ((offset mod 8 <=? _) && _) eqn:E2, ((offset <=? i) && _) eqn:E3; try lia.
      + f_equal. lia.
      + destruct ((8 * 0 <=? _) && _) eqn:E4; [f_equal; lia|lia].
    - destruct ((offset <=? i) && _) eqn:E3; [lia|done]. }
  rewrite removelast_last. pose proof (BitStreamPutInt_loop_get dst offset bits value Hok Hv) as Hget.
  cbv zeta in Hget. fold dst' in Hget. rewrite Hget.
  rewrite truncate_wrap by done. by rewrite Z.eqb_refl.
Qed.

Lemma BitStreamPutInt_string_correct_witness :
  exists dst', BitStreamPutInt [Byte.xff; Byte.x00] 4 12 1000 = Some dst' /\
    BitStreamPutInt_string (repeat Byte.x55 9) ([Byte.xff; Byte.x00] ++ [Byte.x00]) 4 12 1000
    = Some (dst' ++ [Byte.x00]).
Proof.
  apply BitStreamPutInt_string_correct.
  - split; [lia|]. split; [lia|]. vm_compute. discriminate.
  - unfold fits. lia.
  - reflexivity.
Defined.
