(* ===== verification/SubscriptionId.v ===== *)
(** * Subscription IDs

    Model of [src/util/common/subscription_id.h], [subscription_id.cc] and the
    integer instances of [MurmurHash2] in [src/util/common/hash.h].  An ID is
    the 64-bit integer [encoded_]; 0 is the invalid ID. *)

From S2P Require Import Prelude Coding CodingFacts.

#[local] Open Scope outcome_scope.

(** ** Model *)

(** The 13 byte buffer of [ForShard] after both encoders wrote to it. *)
Definition ForShard_buffer (shard_id hierarchical_id : Z) : list byte :=
  let written := EncodeVarint32 shard_id ++ EncodeFixed64 hierarchical_id in
  written ++ repeat Byte.x00 (4 + 1 + 8 - length written).

Definition GetShardID (encoded : Z) : outcome Z :=
  assert_that (negb (encoded =? 0)) "*this" ;;;
  match GetVarint32 (le_bytes 8 encoded) with
  | (Some shard_id, _) => Ok shard_id
  | (None, _) => Abort "false"
  end.

Definition GetHierarchicalID (encoded : Z) : outcome Z :=
  assert_that (negb (encoded =? 0)) "*this" ;;;
  match GetVarint32 (le_bytes 8 encoded ++ repeat Byte.x00 (4 + 1)) with
  | (None, _) => Abort "false"
  | (Some _, inp) =>
      match GetFixed64 inp with
      | (None, _) => Abort "false"
      | (Some hierarchical_id, _) => Ok hierarchical_id
      end
  end.

Definition ForShard (shard_id hierarchical_id : Z) : outcome Z :=
  let buffer := ForShard_buffer shard_id hierarchical_id in
  if existsb (fun b => negb (b2z b =? 0)) (drop 8 buffer)
  then Ok 0
  else
    let encoded := le_value (take 8 buffer) in
    assert_that (negb (encoded =? 0)) "sub_id" ;;;
    s <~ GetShardID encoded ;;
    assert_that (shard_id =? s) "shard_id == sub_id.GetShardID()" ;;;
    h <~ GetHierarchicalID encoded ;;
    assert_that (hierarchical_id =? h) "hierarchical_id == sub_id.GetHierarchicalID()" ;;;
    Ok encoded.

Definition EncodeSubscriptionID (out : list byte) (id : Z) : list byte := PutVarint64 out id.
Definition DecodeSubscriptionID : Get Z := GetVarint64.

(** ** Allocation *)

Definition MurmurHash2_u64 (xa : Z) : Z :=
  let m := 0xc6a4a7935bd1e995 in
  let r := 47 in
  let x := u64 (xa * m) in
  let x := Z.lxor x (Z.shiftr x r) in
  let x := u64 (x * m) in
  let h := Z.lxor 0xfacec0defacec0de x in
  let h := u64 (h * m) in
  let h := Z.lxor h (Z.shiftr h r) in
  let h := u64 (h * m) in
  Z.lxor h (Z.shiftr h r).

(** [MurmurHash2<size_t, size_t>] *)
Definition MurmurHash2_u64_u64 (x y : Z) : Z :=
  let hash := MurmurHash2_u64 y in
  Z.lxor hash (u64 (MurmurHash2_u64 x + 0x9e3779b9 + u64 (Z.shiftl hash 6) + Z.shiftr hash 2)).

Record SubscriptionIDAllocator := {
  num_workers_ : Z;
  allocators_ : list Z
}.

Definition new_allocator (num_workers : Z) (num_allocators : nat) : SubscriptionIDAllocator :=
  {| num_workers_ := num_workers; allocators_ := repeat 0 num_allocators |}.

Definition allocator_index (al : SubscriptionIDAllocator) (shard_id worker_id : Z) : nat :=
  Z.to_nat (MurmurHash2_u64_u64 shard_id worker_id mod Z.of_nat (length (allocators_ al))).

(** [Next]: the counter is incremented in every case. *)
Definition Next (al : SubscriptionIDAllocator) (shard_id worker_id : Z)
    : outcome (Z * SubscriptionIDAllocator) :=
  assert_that (worker_id <? num_workers_ al) "worker_id < num_workers_" ;;;
  let i := allocator_index al shard_id worker_id in
  let seed := nth i (allocators_ al) 0 in
  let al' := {| num_workers_ := num_workers_ al;
                allocators_ := <[i := u64 (seed + 1)]> (allocators_ al) |} in
  let hierarchical_id := u64 (1 + worker_id + u64 (num_workers_ al * seed)) in
  let a := u64 (seed + 1) in
  if a =? 0 then Ok (0, al')
  else
    let b := u64 (num_workers_ al * a) in
    if negb (b / a =? num_workers_ al) then Ok (0, al')
    else id <~ ForShard shard_id hierarchical_id ;; Ok (id, al').

Definition GetWorkerID (al : SubscriptionIDAllocator) (sub_id : Z) : outcome Z :=
  assert_that (negb (sub_id =? 0)) "sub_id" ;;;
  hierarchical_id <~ GetHierarchicalID sub_id ;;
  if hierarchical_id =? 0 then Ok (num_workers_ al)
  else Ok ((hierarchical_id - 1) mod num_workers_ al).

(** A sequence of allocations; the result is the list of the IDs handed out. *)
Fixpoint NextMany (al : SubscriptionIDAllocator) (reqs : list (Z * Z))
    : outcome (list Z * SubscriptionIDAllocator) :=
  match reqs with
  | [] => Ok ([], al)
  | (shard, worker) :: reqs =>
      r <~ Next al shard worker ;;
      rs <~ NextMany (snd r) reqs ;;
      Ok (fst r :: fst rs, snd rs)
  end.

(** ** Encoding and decoding *)

#[export] Instance EncodeSubscriptionID_appends : Appends EncodeSubscriptionID.
Proof. done. Qed.

#[export] Instance SubscriptionID_codec :
  WireCodec EncodeSubscriptionID DecodeSubscriptionID (fits 64).
Proof. exact Varint64_codec. Qed.

Lemma length_EncodeVarint32 v : (1 <= length (EncodeVarint32 v) <= 5)%nat.
Proof. unfold EncodeVarint32. repeat case_match; simpl; lia. Qed.

Lemma length_written s h : (length (EncodeVarint32 s ++ EncodeFixed64 h) <= 13)%nat.
Proof.
  rewrite length_app. pose proof (length_EncodeVarint32 s).
  change (length (EncodeFixed64 h)) with 8%nat. lia.
Qed.

Lemma length_ForShard_buffer s h : length (ForShard_buffer s h) = 13%nat.
Proof.
  unfold ForShard_buffer. cbv zeta. rewrite length_app, repeat_length.
  pose proof (length_written s h). lia.
Qed.

Lemma GetVarint32_take s h n : fits 32 s -> (5 <= n)%nat ->
  fst (GetVarint32 (take n (ForShard_buffer s h))) = Some s.
Proof.
  intros Hs Hn. unfold ForShard_buffer. cbv zeta. rewrite <-app_assoc, take_app_ge.
  2: { pose proof (length_EncodeVarint32 s). lia. }
  change (EncodeVarint32 s) with (wire PutVarint32 s). by rewrite get_put.
Qed.

Lemma GetHierarchical_buffer s h : fits 32 s -> fits 64 h ->
  exists inp rest, GetVarint32 (ForShard_buffer s h) = (Some s, inp) /\ GetFixed64 inp = (Some h, rest).
Proof.
  intros Hs Hh. unfold ForShard_buffer. cbv zeta. rewrite <-app_assoc.
  change (EncodeVarint32 s) with (wire PutVarint32 s).
  rewrite get_put by done. eexists _, _. split; [done|].
  change (EncodeFixed64 h) with (wire PutFixed64 h). by rewrite get_put.
Qed.

(** When the tail of the buffer is zero, the eight encoded bytes determine it. *)
Lemma ForShard_buffer_from_encoded s h :
  existsb (fun b => negb (b2z b =? 0)) (drop 8 (ForShard_buffer s h)) = false ->
  le_bytes 8 (le_value (take 8 (ForShard_buffer s h))) ++ repeat Byte.x00 (4 + 1) = ForShard_buffer s h.
Proof.
  intros Hz. pose proof (length_ForShard_buffer s h) as Hl.
  assert (length (take 8 (ForShard_buffer s h)) = 8%nat) as H8 by (rewrite length_take; lia).
  rewrite <-H8 at 1. rewrite le_bytes_le_value.
  rewrite <-(take_drop 8 (ForShard_buffer s h)) at 2. f_equal.
  assert (length (drop 8 (ForShard_buffer s h)) = 5%nat) as H5 by (rewrite length_drop; lia).
  revert Hz H5. generalize (drop 8 (ForShard_buffer s h)).
  intros l Hz H5. change 5%nat with (4 + 1)%nat in H5. rewrite <-H5. clear H5 H8 Hl.
  induction l as [|b l IH]; [done|]. simpl in Hz. apply orb_false_iff in Hz as [Hb Hz].
  simpl. rewrite IH by done. f_equal. apply b2z_inj.
  apply negb_false_iff, Z.eqb_eq in Hb. by rewrite Hb.
Qed.

Lemma le_bytes_0 n : le_bytes n 0 = repeat Byte.x00 n.
Proof. induction n; [done|]. cbn [le_bytes repeat]. by rewrite Z.shiftr_0_l, IHn. Qed.

Lemma ForShard_encoded_nonzero s h : fits 32 s -> fits 64 h -> s <> 0 \/ h <> 0 ->
  existsb (fun b => negb (b2z b =? 0)) (drop 8 (ForShard_buffer s h)) = false ->
  le_value (take 8 (ForShard_buffer s h)) <> 0.
Proof.
  intros Hs Hh Hne Hz H0. pose proof (ForShard_buffer_from_encoded s h Hz) as Hbuf.
  rewrite H0, le_bytes_0 in Hbuf.
  destruct (GetHierarchical_buffer s h Hs Hh) as (inp & rest & E1 & E2).
  rewrite <-Hbuf in E1. vm_compute in E1. simplify_eq. vm_compute in E2. simplify_eq. naive_solver.
Qed.

(** The outcome of [ForShard] on every input that is not (0, 0). *)
Lemma ForShard_spec s h : fits 32 s -> fits 64 h -> s <> 0 \/ h <> 0 ->
  exists id, ForShard s h = Ok id /\
    (id = 0 \/ GetShardID id = Ok s /\ GetHierarchicalID id = Ok h /\ id <> 0).
Proof.
  intros Hs Hh Hne. unfold ForShard. cbv zeta.
  destruct (existsb _ _) eqn:Hz; [exists 0; auto|].
  pose proof (ForShard_encoded_nonzero s h Hs Hh Hne Hz) as Hnz.
  set (e := le_value _) in *.
  assert (GetShardID e = Ok s) as HS.
  { unfold GetShardID. rewrite (proj2 (Z.eqb_neq e 0) Hnz). cbn [obind assert_that negb].
    assert (le_bytes 8 e = take 8 (ForShard_buffer s h)) as ->.
    { rewrite <-(ForShard_buffer_from_encoded s h Hz) at 1. fold e.
      by rewrite take_app_length' by (by rewrite length_le_bytes). }
    pose proof (GetVarint32_take s h 8 Hs ltac:(lia)).
    destruct (GetVarint32 _) as [[?|] ?]; simpl in *; congruence. }
  assert (GetHierarchicalID e = Ok h) as HH.
  { unfold GetHierarchicalID. rewrite (proj2 (Z.eqb_neq e 0) Hnz). cbn [obind assert_that negb].
    pose proof (ForShard_buffer_from_encoded s h Hz) as Hbuf. fold e in Hbuf. rewrite Hbuf.
    destruct (GetHierarchical_buffer s h Hs Hh) as (inp & rest & -> & ->). done. }
  exists e. rewrite HS, HH. rewrite (proj2 (Z.eqb_neq e 0) Hnz).
  cbn [obind assert_that negb]. rewrite !Z.eqb_refl. cbn [obind assert_that negb]. auto.
Qed.

(** The overflow test of [Next] is exact, and when it passes the hierarchical
    ID is computed without wrap-around. *)
Lemma overflow_test n a : 0 <= n -> 0 < a < 2 ^ 64 ->
  u64 (n * a) / a = n <-> n * a < 2 ^ 64.
Proof.
  intros Hn Ha. split; intros H.
  - destruct (Z.lt_ge_cases (n * a) (2 ^ 64)) as [|Hge]; [done|exfalso].
    assert (u64 (n * a) <= n * a - 2 ^ 64) as Hle.
    { unfold wrap. pose proof (Z.div_mod (n * a) (2 ^ 64) ltac:(lia)).
      assert (1 <= n * a / 2 ^ 64) by (apply Z.div_le_lower_bound; lia). nia. }
    pose proof (Z.mul_div_le (u64 (n * a)) a ltac:(lia)). rewrite H in *. nia.
  - rewrite wrap_small by (unfold fits; nia). apply Z.div_mul. lia.
Qed.

(** What one call of [Next] returns: no assertion of it or of [ForShard] can
    fire, and a valid ID carries the shard, and the hierarchical ID built from
    the worker and the seed. *)
Lemma Next_spec al shard worker :
  fits 32 shard -> 0 <= worker < num_workers_ al -> fits 64 (num_workers_ al) ->
  let seed := nth (allocator_index al shard worker) (allocators_ al) 0 in
  fits 64 seed ->
  exists id, Next al shard worker =
      Ok (id, {| num_workers_ := num_workers_ al;
                 allocators_ := <[allocator_index al shard worker := u64 (seed + 1)]> (allocators_ al) |}) /\
    (id <> 0 -> GetShardID id = Ok shard /\
                GetHierarchicalID id = Ok (1 + worker + num_workers_ al * seed)).
Proof.
  intros Hs Hw Hn seed Hseed. unfold Next. fold seed.
  rewrite (proj2 (Z.ltb_lt _ _)) by lia. cbn [obind assert_that]. cbv zeta.
  destruct (Z.eqb_spec (u64 (seed + 1)) 0) as [|Ha]; [eexists; split; [done|naive_solver]|].
  assert (fits 64 (u64 (seed + 1))) as Hfa by (apply wrap_fits; lia).
  destruct (Z.eqb_spec (u64 (num_workers_ al * u64 (seed + 1)) / u64 (seed + 1)) (num_workers_ al))
    as [Hb|]; cbn [negb]; [|eexists; split; [done|naive_solver]].
  apply overflow_test in Hb; [|unfold fits in *; lia..].
  assert (u64 (seed + 1) = seed + 1) as Hinc.
  { apply wrap_small. unfold fits in *. split; [lia|].
    destruct (Z.eq_dec (seed + 1) (2 ^ 64)) as [E|]; [|lia]. exfalso. apply Ha. by rewrite E. }
  rewrite Hinc in *. unfold fits in *.
  rewrite (wrap_small 64 (num_workers_ al * seed)) by (unfold fits; nia).
  rewrite wrap_small by (unfold fits; nia).
  destruct (ForShard_spec shard (1 + worker + num_workers_ al * seed)) as (id & E & Hid);
    [done|unfold fits; nia|right; nia|].
  rewrite E. cbn [obind]. eexists. split; [done|]. naive_solver.
Qed.

(** ** Properties *)

(** For every shard and hierarchical ID other than the pair (0, 0),
    [ForShard] passes all its assertions; it returns the invalid ID, or a
    valid ID from which both components are recovered. *)
Theorem ForShard_roundtrip s h : fits 32 s -> fits 64 h -> s <> 0 \/ h <> 0 ->
  exists id, ForShard s h = Ok id /\
    (id = 0 \/ GetShardID id = Ok s /\ GetHierarchicalID id = Ok h /\ id <> 0).
Proof. apply ForShard_spec. Qed.

Lemma ForShard_roundtrip_witness :
  ForShard 300 5 = Ok 328364 /\ exists id, ForShard 300 5 = Ok id /\
    (id = 0 \/ GetShardID id = Ok 300 /\ GetHierarchicalID id = Ok 5 /\ id <> 0).
Proof.
  split; [vm_compute; reflexivity|].
  apply (ForShard_roundtrip 300 5); [unfold fits; lia|unfold fits; lia|left; discriminate].
Defined.

(** The valid IDs handed out so far on [al]: each belongs to some shard and
    worker and was built from a seed below the current counter. *)
Definition issued (al : SubscriptionIDAllocator) (id : Z) : Prop :=
  exists shard worker seed,
    GetShardID id = Ok shard /\
    GetHierarchicalID id = Ok (1 + worker + num_workers_ al * seed) /\
    0 <= worker < num_workers_ al /\ 0 <= seed < nth (allocator_index al shard worker) (allocators_ al) 0.

Definition request_ok (al : SubscriptionIDAllocator) (r : Z * Z) : Prop :=
  fits 32 (fst r) /\ 0 <= snd r < num_workers_ al.

Definition counters_below (n : Z) (al : SubscriptionIDAllocator) : Prop :=
  Forall (fun c => 0 <= c <= n) (allocators_ al).

Lemma allocator_index_lt al s w : allocators_ al <> [] ->
  (allocator_index al s w < length (allocators_ al))%nat.
Proof.
  intros Hne. unfold allocator_index. destruct (allocators_ al) as [|c l]; [done|].
  pose proof (Z.mod_pos_bound (MurmurHash2_u64_u64 s w) (Z.of_nat (length (c :: l)))). simpl length in *. lia.
Qed.

Lemma counters_nth n al i : 0 <= n -> counters_below n al -> 0 <= nth i (allocators_ al) 0 <= n.
Proof.
  intros Hn H. unfold counters_below in H. destruct (decide (i < length (allocators_ al))%nat) as [Hlt|].
  - rewrite List.Forall_forall in H. apply H. by apply nth_In.
  - rewrite nth_overflow by lia. lia.
Qed.

Lemma allocator_index_insert al n i c s w :
  allocator_index {| num_workers_ := n; allocators_ := <[i := c]> (allocators_ al) |} s w =
  allocator_index al s w.
Proof. unfold allocator_index. cbn [allocators_]. by rewrite length_insert. Qed.

(** After the counter of (shard, worker) is incremented, everything issued
    before is still issued, and a fresh seed makes a fresh ID. *)
Lemma issued_step al shard worker seed al' id :
  allocators_ al <> [] -> seed = nth (allocator_index al shard worker) (allocators_ al) 0 ->
  al' = {| num_workers_ := num_workers_ al;
           allocators_ := <[allocator_index al shard worker := seed + 1]> (allocators_ al) |} ->
  issued al id -> issued al' id.
Proof.
  intros Hne Hseed -> (s & w & k & H1 & H2 & H3 & H4). exists s, w, k. cbn [num_workers_ allocators_].
  split; [done|]. split; [done|]. split; [done|].
  rewrite allocator_index_insert.
  destruct (decide (allocator_index al s w = allocator_index al shard worker)) as [E|E].
  - rewrite E in *. rewrite nth_lookup, list_lookup_insert_eq by (by apply allocator_index_lt). simpl. lia.
  - rewrite !nth_lookup in *. by rewrite list_lookup_insert_ne.
Qed.

Lemma worker_seed_unique n w1 k1 w2 k2 : 0 <= w1 < n -> 0 <= w2 < n ->
  1 + w1 + n * k1 = 1 + w2 + n * k2 -> w1 = w2 /\ k1 = k2.
Proof. intros H1 H2 H. assert (k1 = k2) by nia. nia. Qed.

Lemma NextMany_fresh reqs al n : allocators_ al <> [] -> fits 64 (num_workers_ al) ->
  0 <= n -> n + Z.of_nat (length reqs) < 2 ^ 64 -> counters_below n al -> Forall (request_ok al) reqs ->
  exists ids al', NextMany al reqs = Ok (ids, al') /\
    NoDup (filter (fun id => id <> 0) ids) /\
    (forall id, id ∈ ids -> id <> 0 -> issued al' id /\ ~ issued al id) /\
    (forall id, issued al id -> issued al' id).
Proof.
  revert al n. induction reqs as [|[s w] reqs IH]; intros al n Hne Hw Hn Hlt Hcnt Hreqs.
  { exists [], al. split; [done|]. rewrite filter_nil. split; [constructor|]. set_solver. }
  apply Forall_cons in Hreqs as [[Hs Hwk] Hreqs]. cbn [fst snd length] in *.
  pose proof (counters_nth n al (allocator_index al s w) Hn Hcnt) as Hseed.
  destruct (Next_spec al s w Hs Hwk Hw) as (id & E & Hid); [unfold fits; lia|].
  set (seed := nth (allocator_index al s w) (allocators_ al) 0) in *.
  rewrite (wrap_small 64 (seed + 1)) in E by (unfold fits; lia).
  set (al1 := {| num_workers_ := _; allocators_ := _ |}) in E.
  assert (forall id, issued al id -> issued al1 id) as Hmono1.
  { intros j. eapply issued_step; done. }
  assert (id <> 0 -> issued al1 id /\ ~ issued al id) as Hnew.
  { intros Hnz. destruct (Hid Hnz) as [HS HH]. split.
    - exists s, w, seed. unfold al1. rewrite allocator_index_insert. cbn [num_workers_ allocators_].
      do 3 (split; [done|]). split; [lia|].
      rewrite nth_lookup, list_lookup_insert_eq by (by apply allocator_index_lt). simpl. lia.
    - intros (s' & w' & k & HS' & HH' & Hw' & Hk). assert (s' = s) as -> by congruence.
      rewrite HH in HH'. simplify_eq.
      destruct (worker_seed_unique (num_workers_ al) w seed w' k) as [Hww Hkk]; try done.
      rewrite <-Hww in Hk. fold seed in Hk. lia. }
  destruct (IH al1 (n + 1)) as (ids & al' & E' & Hnd & Hin & Hmono); try done; try lia.
  { unfold al1. cbn [allocators_]. intros H. apply Hne. apply (f_equal length) in H.
    rewrite length_insert in H. by destruct (allocators_ al). }
  { unfold counters_below, al1 in *. cbn [allocators_]. apply Forall_insert; [|lia].
    eapply Forall_impl; [exact Hcnt|]. simpl. lia. }
  exists (id :: ids), al'. cbn [NextMany]. rewrite E. cbn [obind snd fst]. rewrite E'. cbn [obind snd fst].
  split; [done|]. split; [|split].
  - rewrite filter_cons. case_decide as Hz; [|done]. constructor; [|done].
    rewrite list_elem_of_filter. intros [_ Hidin]. destruct (Hin id Hidin Hz) as [_ Hno].
    apply Hno. by apply Hnew.
  - intros j [->|Hj]%elem_of_cons Hz.
    + destruct (Hnew Hz). auto.
    + destruct (Hin j Hj Hz). auto.
  - auto.
Qed.

(** Starting from a fresh allocator, as long as fewer than 2^64 IDs were
    requested, allocation never trips an assertion and all valid IDs it hands
    out, over all shards and workers, are distinct. *)
Theorem NextMany_distinct num_workers num_allocators reqs :
  (0 < num_allocators)%nat -> fits 64 num_workers -> Z.of_nat (length reqs) < 2 ^ 64 ->
  Forall (fun r => fits 32 (fst r) /\ 0 <= snd r < num_workers) reqs ->
  exists ids al', NextMany (new_allocator num_workers num_allocators) reqs = Ok (ids, al') /\
    NoDup (filter (fun id => id <> 0) ids).
Proof.
  intros Hna Hnw Hlen Hreqs. destruct num_allocators as [|k]; [lia|].
  destruct (NextMany_fresh reqs (new_allocator num_workers (S k)) 0) as (ids & al' & E & Hnd & _);
    try done; try lia; [|eauto].
  unfold counters_below, new_allocator. cbn [allocators_]. apply Forall_forall.
  intros c Hc%list_elem_of_In%repeat_spec. lia.
Qed.

Lemma NextMany_distinct_witness :
  exists ids al', NextMany (new_allocator 4 2) [(0, 1); (7, 3); (0, 1)] = Ok (ids, al') /\
    NoDup (filter (fun id => id <> 0) ids).
Proof.
  apply NextMany_distinct; [lia|unfold fits; lia|simpl; lia|].
  repeat constructor; simpl; unfold fits; lia.
Defined.

(** The worker that allocated an ID is recovered from the ID. *)
Theorem GetWorkerID_Next al shard worker id al' :
  fits 32 shard -> 0 <= worker < num_workers_ al -> fits 64 (num_workers_ al) ->
  Forall (fits 64) (allocators_ al) ->
  Next al shard worker = Ok (id, al') -> id <> 0 ->
  GetShardID id = Ok shard /\ GetWorkerID al' id = Ok worker.
Proof.
  intros Hs Hw Hn Hc E Hid.
  assert (fits 64 (nth (allocator_index al shard worker) (allocators_ al) 0)) as Hseed.
  { rewrite nth_lookup. destruct (allocators_ al !! _) as [c|] eqn:El; [|by apply fits_0].
    rewrite Forall_lookup in Hc. eauto. }
  destruct (Next_spec al shard worker Hs Hw Hn Hseed) as (id' & E' & Hspec).
  rewrite E in E'. simplify_eq. destruct (Hspec Hid) as [HS HH]. split; [done|].
  unfold GetWorkerID. rewrite (proj2 (Z.eqb_neq _ _) Hid), HH. cbn [obind assert_that negb num_workers_].
  unfold fits in *. rewrite (proj2 (Z.eqb_neq _ _)) by nia. f_equal.
  replace (1 + worker + _ - 1) with (worker + nth (allocator_index al shard worker) (allocators_ al) 0 * num_workers_ al) by lia.
  rewrite Z_mod_plus_full. apply Z.mod_small. lia.
Qed.

Lemma GetWorkerID_Next_witness :
  exists id al', Next (new_allocator 4 2) 7 3 = Ok (id, al') /\
    GetShardID id = Ok 7 /\ GetWorkerID al' id = Ok 3.
Proof.
  eexists _, _. split; [vm_compute; reflexivity|].
  apply (GetWorkerID_Next (new_allocator 4 2) 7 3).
  - unfold fits. lia.
  - cbn. lia.
  - cbn. unfold fits. lia.
  - repeat constructor; unfold fits; lia.
  - vm_compute. reflexivity.
  - discriminate.
Defined.
