(* ===== verification/IdAllocator.v ===== *)
(** * ID allocators

    Model of [src/util/id_allocator.h], which hands out the IDs of streams and of
    the subscriptions of a proxy: an allocator gives the IDs that are equal to
    [next_] modulo [step_], a power of two, and can be divided into allocators
    that never give the same ID. *)

From S2P Require Import Prelude.

#[local] Open Scope outcome_scope.

(** ** Model, for 64-bit IDs *)

Record IDAllocator := { step_ : Z; next_ : Z }.

Definition kMax : Z := 2 ^ 64 - 1.

Definition CheckValid (a : IDAllocator) : outcome unit :=
  assert_that (0 <? step_ a) "step_ > 0" ;;; assert_that (Z.land (step_ a) (step_ a - 1) =? 0) "(step_ & (step_ - 1)) == 0" ;;; Ok tt.

Definition NewIDAllocator : IDAllocator := {| step_ := 1; next_ := 0 |}.

Definition Next (a : IDAllocator) : outcome (Z * IDAllocator) :=
  CheckValid a ;;; Ok (next_ a, {| step_ := step_ a; next_ := u64 (next_ a + step_ a) |}).

Definition IsSourceOf (a : IDAllocator) (id : Z) : outcome bool :=
  CheckValid a ;;; let step_mask := u64 (step_ a - 1) in Ok (Z.land (next_ a) step_mask =? Z.land id step_mask).

(** The mapping from IDs to the indices of the pieces. *)
Record DivisionMapping := { shift_ : Z; mask_ : Z }.

Definition map_id (m : DivisionMapping) (id : Z) : outcome Z :=
  assert_that (0 <=? shift_ m) "shift_ >= 0" ;;; Ok (Z.land (Z.shiftr id (shift_ m)) (mask_ m)).

(** The number of pieces and their step. *)
Fixpoint pieces_loop (fuel : nat) (num_pieces new_step min_pieces : Z) : outcome (Z * Z) :=
  if num_pieces <? min_pieces then
    assert_that (new_step <=? u64 (Z.shiftl kMax 1)) "new_step <= (kMax << 1)" ;;;
    match fuel with
    | O => Abort "fuel"
    | S fuel => pieces_loop fuel (u64 (Z.shiftl num_pieces 1)) (u64 (Z.shiftl new_step 1)) min_pieces
    end
  else Ok (num_pieces, new_step).

Fixpoint emplace_pieces (n : nat) (new_step : Z) (piece : IDAllocator) : outcome (list IDAllocator) :=
  match n with
  | O => Ok []
  | S n =>
      r <~ Next piece ;;
      allocs <~ emplace_pieces n new_step (snd r) ;;
      Ok ({| step_ := new_step; next_ := next_ piece |} :: allocs)
  end.

Fixpoint shift_loop (fuel : nat) (shift step : Z) : Z :=
  match fuel with
  | O => shift
  | S fuel => if 0 <? step then shift_loop fuel (shift + 1) (Z.shiftr step 1) else shift
  end.

Definition Divide (a : IDAllocator) (min_pieces : Z) : outcome (list IDAllocator * DivisionMapping) :=
  CheckValid a ;;;
  r <~ pieces_loop 64 1 (step_ a) min_pieces ;;
  let '(num_pieces, new_step) := r in
  let first := Z.land (next_ a) (u64 (step_ a - 1)) in
  allocs <~ emplace_pieces (Z.to_nat num_pieces) new_step {| step_ := step_ a; next_ := first |} ;;
  Ok (allocs, {| shift_ := shift_loop 65 (-1) (step_ a); mask_ := num_pieces - 1 |}).

(** Keeps the first of two pieces and returns the other. *)
Definition Split (a : IDAllocator) : outcome (IDAllocator * IDAllocator) :=
  CheckValid a ;;;
  r <~ Divide a 2 ;;
  match fst r with
  | [front; back] => Ok (front, back)
  | _ => Abort "allocs.size() == 2"
  end.

(** The IDs that an allocator gives, in their order. *)
Fixpoint allocate (n : nat) (a : IDAllocator) : outcome (list Z) :=
  match n with
  | O => Ok []
  | S n => r <~ Next a ;; ids <~ allocate n (snd r) ;; Ok (fst r :: ids)
  end.

(** ** Arithmetic *)

(** A valid allocator with step [2 ^ k]. *)
Definition allocator_ok (k : Z) (a : IDAllocator) : Prop := 0 <= k < 64 /\ step_ a = 2 ^ k /\ fits 64 (next_ a).

Lemma pow2_bound k : 0 <= k < 64 -> 1 <= 2 ^ k < 2 ^ 64.
Proof. intros Hk. pose proof (Z.pow_pos_nonneg 2 k). pose proof (Z.pow_lt_mono_r 2 k 64). lia. Qed.

Lemma land_mask k x : 0 <= k < 64 -> Z.land x (u64 (2 ^ k - 1)) = x mod 2 ^ k.
Proof.
  intros Hk. pose proof (pow2_bound k Hk). rewrite wrap_small by (unfold fits; lia). replace (2 ^ k - 1) with (Z.ones k) by (rewrite Z.ones_equiv; lia).
  apply Z.land_ones. lia.
Qed.

Lemma CheckValid_ok k a : allocator_ok k a -> CheckValid a = Ok tt.
Proof.
  intros (Hk & Hs & _). unfold CheckValid. rewrite Hs. pose proof (pow2_bound k Hk). rewrite (proj2 (Z.ltb_lt _ _)) by lia. cbn [assert_that obind].
  replace (2 ^ k - 1) with (Z.ones k) by (rewrite Z.ones_equiv; lia). rewrite Z.land_ones, Z.mod_same by lia. done.
Qed.

Lemma IsSourceOf_ok k a id : allocator_ok k a -> IsSourceOf a id = Ok (next_ a mod 2 ^ k =? id mod 2 ^ k).
Proof. intros Ha. unfold IsSourceOf. rewrite (CheckValid_ok k a Ha). destruct Ha as (Hk & -> & _). cbn [obind]. by rewrite !land_mask. Qed.

Lemma mod_mod_pow2 x k j : 0 <= k <= j -> (x mod 2 ^ j) mod 2 ^ k = x mod 2 ^ k.
Proof.
  intros H. apply Z.mod_mod_divide. exists (2 ^ (j - k)). rewrite <-Z.pow_add_r by lia. f_equal. lia.
Qed.

Lemma Next_ok k a : allocator_ok k a -> exists a', Next a = Ok (next_ a, a') /\ allocator_ok k a' /\ next_ a' mod 2 ^ k = next_ a mod 2 ^ k.
Proof.
  intros Ha. unfold Next. rewrite (CheckValid_ok k a Ha). destruct Ha as (Hk & Hs & Hn). cbn [obind]. eexists. split; [reflexivity|]. split.
  - split_and!; [lia|lia|done|]. apply wrap_fits. lia.
  - cbn [next_]. unfold wrap. rewrite mod_mod_pow2, Hs by lia. rewrite <-Zplus_mod_idemp_r, Z.mod_same, Z.add_0_r by (pose proof (pow2_bound k Hk); lia). done.
Qed.

Lemma allocate_ok k n a : allocator_ok k a -> exists ids, allocate n a = Ok ids /\ length ids = n /\ forall id, id ∈ ids -> fits 64 id /\ id mod 2 ^ k = next_ a mod 2 ^ k.
Proof.
  revert a. induction n as [|n IH]; intros a Ha; cbn [allocate]; [exists []; split_and!; [done|done|]; by intros id ?%elem_of_nil|].
  destruct (Next_ok k a Ha) as (a' & -> & Ha' & Hm). cbn [obind fst snd]. destruct (IH a' Ha') as (ids & -> & Hl & Hids). cbn [obind].
  exists (next_ a :: ids). split_and!; [done|cbn; lia|]. intros id [->|Hin]%elem_of_cons; [split; [apply Ha|done]|]. destruct (Hids id Hin) as [? ->]. by split.
Qed.

(** The remainder and the quotient are unique. *)
Lemma digits_unique d r r' x x' : 0 <= r < d -> 0 <= r' < d -> r + d * x = r' + d * x' -> r = r' /\ x = x'.
Proof. intros Hr Hr' He. destruct (Z.div_mod_unique d x x' r r'); lia. Qed.

(** ** Division *)

Lemma kMax_shifted : u64 (Z.shiftl kMax 1) = 2 ^ 64 - 2.
Proof. vm_compute. reflexivity. Qed.

Lemma pieces_loop_ok fuel i k j m : 0 <= i -> 0 <= k -> i + k + Z.of_nat fuel = 64 + k -> 0 <= j -> k + j < 64 -> 2 ^ j < 2 * m -> m <= 2 ^ j -> i <= j ->
  pieces_loop fuel (2 ^ i) (2 ^ (k + i)) m = Ok (2 ^ j, 2 ^ (k + j)).
Proof.
  revert i. induction fuel as [|fuel IH]; intros i Hi Hk Hf Hj Hb Hm1 Hm2 Hij; cbn [pieces_loop].
  - assert (i = 64) by lia. lia.
  - destruct (Z.ltb_spec (2 ^ i) m) as [Hlt|Hge].
    + assert (i < j) as Hlt'. { destruct (decide (i = j)); [subst; lia|lia]. }
      assert (0 <= k + i < 64) as Hki by lia. pose proof (pow2_bound (k + i) Hki). pose proof (Z.pow_le_mono_r 2 (k + i) 63 ltac:(lia) ltac:(lia)).
      rewrite kMax_shifted, (proj2 (Z.leb_le _ _)) by lia. cbn [assert_that obind].
      rewrite !Z.shiftl_mul_pow2 by lia. change (2 ^ 1) with 2. replace (2 ^ i * 2) with (2 ^ (i + 1)) by (rewrite Z.pow_add_r by lia; lia).
      replace (2 ^ (k + i) * 2) with (2 ^ (k + (i + 1))) by (replace (k + (i + 1)) with (k + i + 1) by lia; rewrite (Z.pow_add_r 2 (k + i) 1) by lia; lia).
      pose proof (pow2_bound (i + 1) ltac:(lia)). pose proof (pow2_bound (k + (i + 1)) ltac:(lia)). rewrite !wrap_small by (unfold fits; lia).
      apply IH; lia.
    + assert (i = j) as ->; [|done]. destruct (decide (i = j)); [done|]. pose proof (Z.pow_le_mono_r 2 (i + 1) j ltac:(lia) ltac:(lia)) as Hp.
      rewrite Z.pow_add_r in Hp by lia. lia.
Qed.

Lemma shift_loop_ok fuel s k : 0 <= k -> k < Z.of_nat fuel -> shift_loop fuel s (2 ^ k) = s + k + 1.
Proof.
  revert s k. induction fuel as [|fuel IH]; intros s k Hk Hf; [lia|]. cbn [shift_loop]. pose proof (Z.pow_pos_nonneg 2 k). rewrite (proj2 (Z.ltb_lt _ _)) by lia.
  destruct (decide (k = 0)) as [->|Hne].
  - change (Z.shiftr (2 ^ 0) 1) with 0. destruct fuel; cbn; lia.
  - rewrite Z.shiftr_div_pow2 by lia. replace (2 ^ k) with (2 ^ (k - 1) * 2 ^ 1) by (rewrite <-Z.pow_add_r by lia; f_equal; lia).
    rewrite Z.div_mul by lia. rewrite IH by lia. lia.
Qed.

Lemma emplace_pieces_ok k K n piece : allocator_ok k piece -> next_ piece + Z.of_nat n * 2 ^ k <= 2 ^ 64 ->
  exists ps, emplace_pieces n K piece = Ok ps /\ length ps = n /\
    forall i p, ps !! i = Some p -> p = {| step_ := K; next_ := next_ piece + Z.of_nat i * 2 ^ k |}.
Proof.
  revert piece. induction n as [|n IH]; intros piece Hp Hb; cbn [emplace_pieces]; [exists []; split_and!; [done|done|]; by intros i p ?|].
  unfold Next. rewrite (CheckValid_ok k piece Hp). cbn [obind snd]. destruct Hp as (Hk & Hs & Hf). pose proof (pow2_bound k Hk). rewrite Hs.
  destruct n as [|n'].
  - cbn [emplace_pieces obind]. eexists. split_and!; [reflexivity|done|]. intros [|i] p [= <-]. f_equal. lia.
  - set (q := {| step_ := 2 ^ k; next_ := u64 (next_ piece + 2 ^ k) |}).
    assert (next_ q = next_ piece + 2 ^ k) as Hq by (cbn; apply wrap_small; unfold fits in *; nia).
    destruct (IH q) as (ps & -> & Hl & Hps); [split_and!; [lia|lia|done|unfold fits in *; rewrite Hq; nia]|rewrite Hq; nia|].
    cbn [obind]. eexists. split_and!; [reflexivity|cbn; by rewrite Hl|]. intros [|i] p; cbn; [intros [= <-]; f_equal; lia|]. intros Hi.
    rewrite (Hps i p Hi), Hq. f_equal. lia.
Qed.

(** The pieces, and the mapping, in terms of remainders. *)
Lemma Divide_ok k a m : allocator_ok k a -> 1 <= m -> m * 2 ^ k <= 2 ^ 63 ->
  exists j ps mapping, 0 <= j /\ k + j < 64 /\ m <= 2 ^ j < 2 * m /\ Divide a m = Ok (ps, mapping) /\ Z.of_nat (length ps) = 2 ^ j /\
    (forall id, map_id mapping id = Ok ((id / 2 ^ k) mod 2 ^ j)) /\
    forall i p, ps !! i = Some p -> step_ p = 2 ^ (k + j) /\ next_ p = next_ a mod 2 ^ k + Z.of_nat i * 2 ^ k.
Proof.
  intros Ha Hm Hb. pose proof Ha as (Hk & Hs & Hn). set (j := Z.log2_up m). assert (0 <= j) as Hj by apply Z.log2_up_nonneg.
  assert (m <= 2 ^ j < 2 * m) as Hmj.
  { destruct (decide (m = 1)) as [->|Hne]; [done|]. destruct (Z.log2_up_spec m ltac:(lia)) as [H1 H2]. fold j in H1, H2. split; [done|].
    assert (0 < j) by (apply Z.log2_up_pos; lia). replace j with (Z.pred j + 1) by lia. rewrite Z.pow_add_r by lia. lia. }
  assert (k + j < 64) as Hkj.
  { apply (Z.pow_lt_mono_r_iff 2); [lia|lia|]. rewrite Z.pow_add_r by lia. pose proof (pow2_bound k Hk). change (2 ^ 64) with (2 * 2 ^ 63). nia. }
  pose proof (pow2_bound k Hk) as Hpk. pose proof (pow2_bound (k + j) ltac:(lia)) as Hpkj. rewrite Z.pow_add_r in Hpkj by lia.
  assert (0 <= next_ a mod 2 ^ k < 2 ^ k) as Hfirst by (apply Z.mod_pos_bound; lia).
  destruct (emplace_pieces_ok k (2 ^ (k + j)) (Z.to_nat (2 ^ j)) {| step_ := step_ a; next_ := Z.land (next_ a) (u64 (step_ a - 1)) |}) as (ps & E & Hl & Hps).
  { unfold allocator_ok. cbn [step_ next_]. rewrite Hs, land_mask by lia. unfold fits. split_and!; lia. }
  { cbn [next_]. rewrite Hs, land_mask by lia. rewrite Z2Nat.id by lia. assert (2 ^ k * 2 ^ j <= 2 ^ 63) as Hle.
    { rewrite <-Z.pow_add_r by lia. apply Z.pow_le_mono_r; lia. }
    change (2 ^ 64) with (2 ^ 63 + 2 ^ 63). pose proof (Z.pow_le_mono_r 2 k 63 ltac:(lia) ltac:(lia)). lia. }
  exists j, ps, {| shift_ := k; mask_ := 2 ^ j - 1 |}. split_and!; try lia.
  - unfold Divide. rewrite (CheckValid_ok k a Ha). cbn [obind]. rewrite Hs. rewrite Hs in E.
    pose proof (pieces_loop_ok 64 0 k j m ltac:(lia) ltac:(lia) ltac:(lia) Hj Hkj ltac:(lia) ltac:(lia) ltac:(lia)) as Hp. rewrite Z.add_0_r in Hp. change (2 ^ 0) with 1 in Hp.
    rewrite Hp. cbn [obind]. rewrite E. cbn [obind]. rewrite (shift_loop_ok 65 (-1) k) by lia. do 3 f_equal. lia.
  - intros id. unfold map_id. cbn [shift_ mask_]. rewrite (proj2 (Z.leb_le 0 k)) by lia. cbn [assert_that obind].
    replace (2 ^ j - 1) with (Z.ones j) by (rewrite Z.ones_equiv; lia). rewrite Z.land_ones, Z.shiftr_div_pow2 by lia. done.
  - intros i p Hi. rewrite (Hps i p Hi). cbn. split; [done|]. by rewrite Hs, land_mask by lia.
Qed.

(** ** Properties *)

(** C24: dividing an allocator partitions its IDs.  The number of pieces is the
    least power of two that is not below the number asked for; an ID of the
    allocator belongs to exactly one piece, the one that the mapping names, and a
    piece has only IDs of the allocator; two pieces never give the same ID. *)
Theorem Divide_partitions k a m : allocator_ok k a -> 1 <= m -> m * 2 ^ k <= 2 ^ 63 ->
  exists ps mapping, Divide a m = Ok (ps, mapping) /\ m <= Z.of_nat (length ps) < 2 * m /\
    (forall id, fits 64 id -> IsSourceOf a id = Ok true ->
       exists i p, ps !! i = Some p /\ map_id mapping id = Ok (Z.of_nat i) /\ IsSourceOf p id = Ok true) /\
    (forall i p id, ps !! i = Some p -> fits 64 id -> IsSourceOf p id = Ok true -> IsSourceOf a id = Ok true /\ map_id mapping id = Ok (Z.of_nat i)) /\
    (forall i j p q n n' ids ids', ps !! i = Some p -> ps !! j = Some q -> i <> j -> allocate n p = Ok ids -> allocate n' q = Ok ids' ->
       forall id, id ∈ ids -> id ∉ ids').
Proof.
  intros Ha Hm Hb. destruct (Divide_ok k a m Ha Hm Hb) as (j & ps & mapping & Hj & Hkj & Hmj & E & Hl & Hmap & Hps). pose proof Ha as (Hk & _ & _).
  pose proof (pow2_bound k Hk) as Hpk. pose proof (pow2_bound j ltac:(lia)) as Hpj. assert (0 <= next_ a mod 2 ^ k < 2 ^ k) as Hfirst by (apply Z.mod_pos_bound; lia).
  assert (forall i p, ps !! i = Some p -> allocator_ok (k + j) p /\ next_ p mod 2 ^ (k + j) = next_ a mod 2 ^ k + 2 ^ k * Z.of_nat i) as Hok.
  { intros i p Hi. destruct (Hps i p Hi) as [Hs Hn]. apply lookup_lt_Some in Hi. assert (Z.of_nat i < 2 ^ j) by lia.
    pose proof (pow2_bound (k + j) ltac:(lia)) as Hpkj. assert (0 <= next_ p < 2 ^ (k + j)) as Hr by (rewrite Hn, Z.pow_add_r by lia; nia).
    split; [split_and!; [lia|lia|done|unfold fits; lia]|]. rewrite Z.mod_small, Hn by lia. lia. }
  assert (forall i p id, ps !! i = Some p -> IsSourceOf p id = Ok true <-> id mod 2 ^ k = next_ a mod 2 ^ k /\ (id / 2 ^ k) mod 2 ^ j = Z.of_nat i) as Hsrc.
  { intros i p id Hi. destruct (Hok i p Hi) as [Hp Hn]. rewrite (IsSourceOf_ok (k + j) p id Hp), Hn. apply lookup_lt_Some in Hi.
    rewrite Z.pow_add_r, Z.rem_mul_r by lia. pose proof (Z.mod_pos_bound id (2 ^ k) ltac:(lia)). pose proof (Z.mod_pos_bound (id / 2 ^ k) (2 ^ j) ltac:(lia)).
    split; [intros [= Heq%Z.eqb_eq]; apply digits_unique in Heq; lia|]. intros [-> ->]. by rewrite Z.eqb_refl. }
  assert (forall id, IsSourceOf a id = Ok true <-> id mod 2 ^ k = next_ a mod 2 ^ k) as Hsa.
  { intros id. rewrite (IsSourceOf_ok k a id Ha). split; [by intros [= ?%Z.eqb_eq]|]. intros ->. by rewrite Z.eqb_refl. }
  exists ps, mapping. split_and!; [done|lia|lia| | |].
  - intros id _ Hid%Hsa. pose proof (Z.mod_pos_bound (id / 2 ^ k) (2 ^ j) ltac:(lia)) as Hi. set (i := Z.to_nat ((id / 2 ^ k) mod 2 ^ j)).
    destruct (lookup_lt_is_Some_2 ps i) as [p Hp]; [unfold i; lia|]. exists i, p. split_and!; [done| |].
    + rewrite Hmap. f_equal. unfold i. lia.
    + apply (Hsrc i p id Hp). split; [done|]. unfold i. lia.
  - intros i p id Hp _ [Hid Hi]%(Hsrc i p id Hp). split; [by apply Hsa|]. rewrite Hmap. by rewrite Hi.
  - intros i i' p q n n' ids ids' Hp Hq Hne Hids Hids' id Hin Hin'. destruct (Hok i p Hp) as [Hpok Hpn], (Hok i' q Hq) as [Hqok Hqn].
    destruct (allocate_ok _ n p Hpok) as (l & El & _ & Hl1). rewrite Hids in El. injection El as <-. destruct (allocate_ok _ n' q Hqok) as (l' & El & _ & Hl2).
    rewrite Hids' in El. injection El as <-. destruct (Hl1 id Hin) as [_ H1], (Hl2 id Hin') as [_ H2]. rewrite H1, Hpn, Hqn in H2. apply digits_unique in H2; lia.
Qed.

(** The IDs that are 1 modulo 4, divided into at least three pieces. *)
Lemma Divide_partitions_witness : exists ps mapping, Divide {| step_ := 4; next_ := 9 |} 3 = Ok (ps, mapping) /\
  map next_ ps = [1; 5; 9; 13] /\ map_id mapping 29 = Ok 3.
Proof.
  destruct (Divide_partitions 2 {| step_ := 4; next_ := 9 |} 3) as (ps & mapping & E & Hl & Hall & _); [split_and!; done|lia|done|].
  exists ps, mapping. split; [exact E|]. vm_compute in E. injection E as <- <-. split; reflexivity.
Defined.

(** The assertion on the step of the pieces compares with [kMax << 1], which is
    nearly the largest ID, and so admits a step that overflows: the pieces have
    step 0, and fail when they are used. *)
Lemma overflowing_step_accepted : Divide {| step_ := 2 ^ 63; next_ := 0 |} 2 = Ok ([{| step_ := 0; next_ := 0 |}; {| step_ := 0; next_ := 2 ^ 63 |}], {| shift_ := 63; mask_ := 1 |}) /\
  Next {| step_ := 0; next_ := 0 |} = Abort "step_ > 0".
Proof. split; vm_compute; reflexivity. Qed.
