(* ===== verification/Messages.v ===== *)
(** * Messages

    Model of [src/messages/messages.h], [src/messages/messages.cc] and the
    stream origin of [src/messages/types.cc]: the data carried by every message
    class, its [Serialize] and [DeSerialize], and the dispatch of
    [Message::CreateNewInstance].

    Enums keep their integer representation, since the wire can carry values
    that name no enumerator.  Every [Serialize] returns [Status::OK()], so a
    writer is modelled by the bytes it appends, or the assertion it trips. *)

From S2P Require Import Prelude Coding CodingFacts SubscriptionId.

#[local] Open Scope outcome_scope.

(** ** Enums *)

Module MessageType.
Definition NotInitialized := 0.
Definition mPing := 1.
Definition mPublish := 2.
Definition mDataAck := 4.
Definition mGap := 5.
Definition mDeliver := 6.
Definition mGoodbye := 7.
Definition mSubscribe := 8.
Definition mUnsubscribe := 9.
Definition mDeliverGap := 10.
Definition mDeliverData := 11.
Definition mFindTailSeqno := 12.
Definition mTailSeqno := 13.
Definition mDeliverBatch := 14.
Definition mHeartbeat := 15.
End MessageType.

Definition ValidateMessageType (e : Z) : bool :=
  (MessageType.mPing <=? e) && (e <=? MessageType.mHeartbeat).

Definition kMessageTypeNames : list string :=
  ["invalid"; "ping"; "publish"; "metadata (DEPRECATED)"; "data_ack"; "gap"; "deliver"; "goodbye";
   "subscribe"; "unsubscribe"; "deliver_gap"; "deliver_data"; "find_tail_seqno"; "tail_seqno";
   "deliver_batch"; "heartbeat"]%string.

Definition MessageTypeName (type : Z) : string :=
  if ValidateMessageType type then nth (Z.to_nat type) kMessageTypeNames "out of range"%string
  else "invalid"%string.

(** [kBenign] to [kRetention] of [GapType] (src/util/storage.h). *)
Definition kBenign := 0.
Definition kDataLoss := 1.
Definition kRetention := 2.
Definition ValidateGapType (e : Z) : bool := (kBenign <=? e) && (e <=? kRetention).

Definition PingRequest := 1.
Definition PingResponse := 2.
(** The underlying type is [char]: a byte from 128 up is negative. *)
Definition as_char (e : Z) : Z := if e <? 128 then e else e - 256.
Definition ValidatePingType (e : Z) : bool :=
  (PingRequest <=? as_char e) && (as_char e <=? PingResponse).

Definition AckSuccess := 0.
Definition AckFailure := 1.
Definition ValidateAckStatus (e : Z) : bool :=
  (AckSuccess <=? as_char e) && (as_char e <=? AckFailure).

Definition SocketError := 0.
Definition Graceful := 1.
Definition ValidateGoodbyeCode (e : Z) : bool :=
  (SocketError <=? as_char e) && (as_char e <=? Graceful).

Definition OriginClient := 0.
Definition OriginServer := 1.
Definition ValidateOriginType (e : Z) : bool :=
  (OriginClient <=? as_char e) && (as_char e <=? OriginServer).

Definition kRequested := 0.
Definition kInvalid := 2.
Definition ValidateReason (e : Z) : bool := (kRequested <=? e) && (e <=? kInvalid).

(** ** Message objects *)

(** The fields of the base class [Message]. *)
Record MessageBase := { type_ : Z; tenantid_ : Z }.

Record MessagePing := { ping_base : MessageBase; pingtype_ : Z; cookie_ : slice }.

Record MessageData := {
  data_base : MessageBase;
  data_seqno_prev_ : Z;
  data_seqno_ : Z;
  msgid_ : list byte;
  data_topic_name_ : slice;
  data_payload_ : slice;
  data_namespaceid_ : slice;
  storage_slice_ : slice
}.

Record Ack := { ack_status : Z; ack_msgid : list byte; ack_seqno : Z }.

Record MessageDataAck := { dataack_base : MessageBase; acks_ : list Ack }.

Record MessageGap := {
  gap_base : MessageBase;
  gap_namespace_id_ : slice;
  gap_topic_name_ : slice;
  gap_type_ : Z;
  gap_from_ : Z;
  gap_to_ : Z
}.

Record MessageGoodbye := { goodbye_base : MessageBase; code_ : Z; origin_type_ : Z }.

Record MessageFindTailSeqno := {
  find_base : MessageBase; find_namespace_id_ : slice; find_topic_name_ : slice }.

Record MessageTailSeqno := {
  tail_base : MessageBase; tail_namespace_id_ : slice; tail_topic_name_ : slice; tail_seqno_ : Z }.

Record MessageSubscribe := {
  sub_base : MessageBase;
  sub_namespace_id_ : slice;
  sub_topic_name_ : slice;
  start_seqno_ : Z;
  sub_sub_id_ : Z
}.

Record MessageUnsubscribe := { unsub_base : MessageBase; unsub_sub_id_ : Z; reason_ : Z }.

Record MessageDeliver := {
  deliver_base : MessageBase; deliver_sub_id_ : Z; deliver_seqno_prev_ : Z; deliver_seqno_ : Z }.

Record MessageDeliverGap := { dgap_deliver : MessageDeliver; dgap_gap_type_ : Z }.

Record MessageDeliverData := {
  ddata_deliver : MessageDeliver; message_id_ : list byte; ddata_payload_ : slice }.

Record MessageDeliverBatch := { batch_base : MessageBase; messages_ : list MessageDeliverData }.

(** [timestamp_] counts the ticks of [system_clock], a nanosecond each. *)
Record MessageHeartbeat := {
  heartbeat_base : MessageBase; timestamp_ : Z; healthy_streams_ : gset Z }.

Inductive Message :=
| Ping (m : MessagePing)
| Data (m : MessageData)
| DataAck (m : MessageDataAck)
| Gap (m : MessageGap)
| Goodbye (m : MessageGoodbye)
| Subscribe (m : MessageSubscribe)
| Unsubscribe (m : MessageUnsubscribe)
| DeliverGap (m : MessageDeliverGap)
| DeliverData (m : MessageDeliverData)
| FindTailSeqno (m : MessageFindTailSeqno)
| TailSeqno (m : MessageTailSeqno)
| DeliverBatch (m : MessageDeliverBatch)
| Heartbeat (m : MessageHeartbeat).

(** ** Serialization *)

Definition Message_Serialize (m : MessageBase) (out : list byte) : list byte :=
  let out := PutFixedEnum8 out (type_ m) in
  PutFixed16 out (tenantid_ m).

Definition MessagePing_Serialize (m : MessagePing) (out : list byte) : list byte :=
  let out := PutFixedEnum8 out (type_ (ping_base m)) in
  let out := PutFixed16 out (tenantid_ (ping_base m)) in
  let out := PutFixedEnum8 out (pingtype_ m) in
  PutLengthPrefixedSlice out (cookie_ m).

Definition MessageData_SerializeInternal (m : MessageData) (out : list byte) : list byte :=
  let out := PutFixed16 out (tenantid_ (data_base m)) in
  let out := PutTopicID out (data_namespaceid_ m) (data_topic_name_ m) in
  let out := PutLengthPrefixedSlice out (msgid_ m) in
  PutLengthPrefixedSlice out (data_payload_ m).

Definition MessageData_Serialize (m : MessageData) (out : list byte) : list byte :=
  let out := PutFixedEnum8 out (type_ (data_base m)) in
  let out := PutVarint64 out (data_seqno_prev_ m) in
  let out := PutVarint64 out (data_seqno_ m) in
  MessageData_SerializeInternal m out.

Definition Ack_Serialize (out : list byte) (ack : Ack) : list byte :=
  let out := PutFixedEnum8 out (ack_status ack) in
  let out := PutBytes out (ack_msgid ack) in
  PutVarint64 out (ack_seqno ack).

Definition MessageDataAck_Serialize (m : MessageDataAck) (out : list byte) : list byte :=
  let out := PutFixedEnum8 out (type_ (dataack_base m)) in
  let out := PutFixed16 out (tenantid_ (dataack_base m)) in
  let out := PutVarint32 out (u32 (Z.of_nat (length (acks_ m)))) in
  fold_left Ack_Serialize (acks_ m) out.

Definition MessageGap_Serialize (m : MessageGap) (out : list byte) : list byte :=
  let out := PutFixedEnum8 out (type_ (gap_base m)) in
  let out := PutFixed16 out (tenantid_ (gap_base m)) in
  let out := PutTopicID out (gap_namespace_id_ m) (gap_topic_name_ m) in
  let out := PutFixedEnum8 out (gap_type_ m) in
  let out := PutVarint64 out (gap_from_ m) in
  PutVarint64 out (gap_to_ m).

Definition MessageGoodbye_Serialize (m : MessageGoodbye) (out : list byte) : list byte :=
  let out := PutFixedEnum8 out (type_ (goodbye_base m)) in
  let out := PutFixed16 out (tenantid_ (goodbye_base m)) in
  let out := PutFixedEnum8 out (code_ m) in
  PutFixedEnum8 out (origin_type_ m).

Definition MessageFindTailSeqno_Serialize (m : MessageFindTailSeqno) (out : list byte) : list byte :=
  let out := Message_Serialize (find_base m) out in
  PutTopicID out (find_namespace_id_ m) (find_topic_name_ m).

Definition MessageTailSeqno_Serialize (m : MessageTailSeqno) (out : list byte) : list byte :=
  let out := Message_Serialize (tail_base m) out in
  let out := PutTopicID out (tail_namespace_id_ m) (tail_topic_name_ m) in
  PutVarint64 out (tail_seqno_ m).

Definition MessageSubscribe_Serialize (m : MessageSubscribe) (out : list byte) : list byte :=
  let out := Message_Serialize (sub_base m) out in
  let out := PutTopicID out (sub_namespace_id_ m) (sub_topic_name_ m) in
  let out := PutVarint64 out (start_seqno_ m) in
  EncodeSubscriptionID out (sub_sub_id_ m).

Definition MessageUnsubscribe_Serialize (m : MessageUnsubscribe) (out : list byte) : list byte :=
  let out := Message_Serialize (unsub_base m) out in
  let out := EncodeSubscriptionID out (unsub_sub_id_ m) in
  PutFixedEnum8 out (reason_ m).

Definition MessageDeliver_Serialize (m : MessageDeliver) (out : list byte) : outcome (list byte) :=
  let out := Message_Serialize (deliver_base m) out in
  let out := EncodeSubscriptionID out (deliver_sub_id_ m) in
  let out := PutVarint64 out (deliver_seqno_prev_ m) in
  assert_that (deliver_seqno_prev_ m <=? deliver_seqno_ m) "seqno_ >= seqno_prev_" ;;;
  let seqno_diff := u64 (deliver_seqno_ m - deliver_seqno_prev_ m) in
  Ok (PutVarint64 out seqno_diff).

Definition MessageDeliverGap_Serialize (m : MessageDeliverGap) (out : list byte) : outcome (list byte) :=
  out <~ MessageDeliver_Serialize (dgap_deliver m) out ;;
  Ok (PutFixedEnum8 out (dgap_gap_type_ m)).

Definition MessageDeliverData_Serialize (m : MessageDeliverData) (out : list byte) : outcome (list byte) :=
  out <~ MessageDeliver_Serialize (ddata_deliver m) out ;;
  let out := PutLengthPrefixedSlice out (message_id_ m) in
  Ok (PutLengthPrefixedSlice out (ddata_payload_ m)).

Fixpoint MessagesVector_Serialize (ms : list MessageDeliverData) (out : list byte) : outcome (list byte) :=
  match ms with
  | [] => Ok out
  | m :: ms => out <~ MessageDeliverData_Serialize m out ;; MessagesVector_Serialize ms out
  end.

Definition MessageDeliverBatch_Serialize (m : MessageDeliverBatch) (out : list byte) : outcome (list byte) :=
  let out := Message_Serialize (batch_base m) out in
  let out := PutVarint64 out (Z.of_nat (length (messages_ m))) in
  MessagesVector_Serialize (messages_ m) out.

Definition ticks_per_ms : Z := 1000000.

(** [order] is the order in which the [unordered_set] is traversed. *)
Definition MessageHeartbeat_Serialize_in (order : list Z) (m : MessageHeartbeat) (out : list byte)
    : list byte :=
  let out := PutFixedEnum8 out (type_ (heartbeat_base m)) in
  let out := PutFixed16 out (tenantid_ (heartbeat_base m)) in
  let epoch_ms := u64 (Z.quot (timestamp_ m) ticks_per_ms) in
  let out := PutFixed64 out epoch_ms in
  fold_left PutVarint32 order out.

Definition MessageHeartbeat_Serialize (m : MessageHeartbeat) (out : list byte) : list byte :=
  MessageHeartbeat_Serialize_in (elements (healthy_streams_ m)) m out.

Definition Serialize (m : Message) (out : list byte) : outcome (list byte) :=
  match m with
  | Ping m => Ok (MessagePing_Serialize m out)
  | Data m => Ok (MessageData_Serialize m out)
  | DataAck m => Ok (MessageDataAck_Serialize m out)
  | Gap m => Ok (MessageGap_Serialize m out)
  | Goodbye m => Ok (MessageGoodbye_Serialize m out)
  | Subscribe m => Ok (MessageSubscribe_Serialize m out)
  | Unsubscribe m => Ok (MessageUnsubscribe_Serialize m out)
  | DeliverGap m => MessageDeliverGap_Serialize m out
  | DeliverData m => MessageDeliverData_Serialize m out
  | FindTailSeqno m => Ok (MessageFindTailSeqno_Serialize m out)
  | TailSeqno m => Ok (MessageTailSeqno_Serialize m out)
  | DeliverBatch m => MessageDeliverBatch_Serialize m out
  | Heartbeat m => Ok (MessageHeartbeat_Serialize m out)
  end.

(** ** Deserialization *)

(** How a [DeSerialize] can stop: with [Status::InvalidArgument(msg)], with a
    failed assertion, or with an exception of the standard library. *)
Inductive derr :=
| InvalidArgument (msg : string)
| Assertion (what : string)
| Exception (what : string).

(** A [DeSerialize(Slice* in)], with the slice it leaves behind. *)
Definition Des (A : Type) : Type := slice -> (derr + A) * slice.

Definition des_ret {A} (x : A) : Des A := fun s => (inr x, s).

Definition des_fail {A} (e : derr) : Des A := fun s => (inl e, s).

Definition des_bind {A B} (m : Des A) (f : A -> Des B) : Des B :=
  fun s => match m s with
           | (inr x, s') => f x s'
           | (inl e, s') => (inl e, s')
           end.

(** [if (!Get...(in, &x)) return Status::InvalidArgument(msg);] *)
Definition need {A} (g : Get A) (msg : string) : Des A :=
  fun s => match g s with
           | (Some x, s') => (inr x, s')
           | (None, s') => (inl (InvalidArgument msg), s')
           end.

Declare Scope des_scope.
Delimit Scope des_scope with des.
Notation "'let!' x ':=' m 'in' k" := (des_bind m (fun x => k))
  (at level 10, x name, m at level 100, k at level 200) : des_scope.
#[local] Open Scope des_scope.

Definition Message_DeSerialize : Des MessageBase :=
  let! type := need (GetFixedEnum8 ValidateMessageType) "Bad MessageType" in
  let! tenantid := need GetFixed16 "Bad TenantID" in
  des_ret {| type_ := type; tenantid_ := tenantid |}.

(** The messages that do not call [Message::DeSerialize] read the same two
    fields with their own error texts. *)
Definition DeSerialize_header : Des MessageBase :=
  let! type := need (GetFixedEnum8 ValidateMessageType) "Bad type" in
  let! tenantid := need GetFixed16 "Bad tenant ID" in
  des_ret {| type_ := type; tenantid_ := tenantid |}.

Definition MessagePing_DeSerialize : Des MessagePing :=
  let! base := DeSerialize_header in
  let! pingtype := need (GetFixedEnum8 ValidatePingType) "Bad ping type" in
  let! cookie := need GetLengthPrefixedSlice "Bad cookie" in
  des_ret {| ping_base := base; pingtype_ := pingtype; cookie_ := cookie |}.

(** A length-prefixed GUID: the slice may be longer than the 16 bytes copied. *)
Definition GetGuidSlice : Get slice := fun s =>
  match GetLengthPrefixedSlice s with
  | (Some id_slice, s') =>
      if (length id_slice <? 16)%nat then (None, s') else (Some (take 16 id_slice), s')
  | (None, s') => (None, s')
  end.

Definition MessageData_DeSerializeStorage (type seqno_prev seqno : Z) (storage : slice) : Des MessageData :=
  let! tenantid := need GetFixed16 "Bad tenant ID" in
  let! topic_id := need GetTopicID "Bad Message Topic ID" in
  let! msgid := need GetGuidSlice "Bad Message Id" in
  let! payload := need GetLengthPrefixedSlice "Bad payload" in
  des_ret {| data_base := {| type_ := type; tenantid_ := tenantid |};
             data_seqno_prev_ := seqno_prev; data_seqno_ := seqno;
             msgid_ := msgid;
             data_topic_name_ := snd topic_id; data_payload_ := payload;
             data_namespaceid_ := fst topic_id; storage_slice_ := storage |}.

Definition des_get_slice : Des slice := fun s => (inr s, s).

Definition MessageData_DeSerialize : Des MessageData :=
  let! type := need (GetFixedEnum8 ValidateMessageType) "Bad type" in
  let! seqno_prev := need GetVarint64 "Bad Previous Sequence Number" in
  let! seqno := need GetVarint64 "Bad Sequence Number" in
  let! storage_slice := des_get_slice in
  MessageData_DeSerializeStorage type seqno_prev seqno storage_slice.

Definition Ack_DeSerialize : Des Ack :=
  let! status := need (GetFixedEnum8 ValidateAckStatus) "Bad Ack Status" in
  let! msgid := need (GetBytes 16) "Bad Ack MsgId" in
  let! seqno := need GetVarint64 "Bad Ack Sequence number" in
  des_ret {| ack_status := status; ack_msgid := msgid; ack_seqno := seqno |}.

(** [for (i = 0; i < n; i++) { read an element; push it back; }].  Each
    iteration that goes on consumes input, so one more unit of fuel than there
    are bytes is enough. *)
Fixpoint Repeat_loop {A} (element : Des A) (fuel : nat) (i n : Z) (acc : list A) : Des (list A) :=
  match fuel with
  | O => des_fail (Exception "fuel")
  | S fuel =>
      if i <? n then
        let! x := element in
        Repeat_loop element fuel (i + 1) n (acc ++ [x])
      else des_ret acc
  end.

Definition MessageDataAck_DeSerialize : Des MessageDataAck :=
  let! base := DeSerialize_header in
  let! num_acks := need GetVarint32 "Bad Number Of Acks" in
  let! acks := (fun s => Repeat_loop Ack_DeSerialize (S (length s)) 0 num_acks [] s) in
  des_ret {| dataack_base := base; acks_ := acks |}.

Definition MessageGap_DeSerialize : Des MessageGap :=
  let! base := DeSerialize_header in
  let! topic_id := need GetTopicID "Invalid topic ID" in
  let! gap_type := need (GetFixedEnum8 ValidateGapType) "Missing gap type" in
  let! gap_from := need GetVarint64 "Bad gap log ID" in
  let! gap_to := need GetVarint64 "Bad gap log ID" in
  des_ret {| gap_base := base; gap_namespace_id_ := fst topic_id; gap_topic_name_ := snd topic_id;
             gap_type_ := gap_type; gap_from_ := gap_from; gap_to_ := gap_to |}.

Definition MessageGoodbye_DeSerialize : Des MessageGoodbye :=
  let! base := DeSerialize_header in
  let! code := need (GetFixedEnum8 ValidateGoodbyeCode) "Bad code" in
  let! origin_type := need (GetFixedEnum8 ValidateOriginType) "Bad origin type" in
  des_ret {| goodbye_base := base; code_ := code; origin_type_ := origin_type |}.

Definition MessageFindTailSeqno_DeSerialize : Des MessageFindTailSeqno :=
  let! base := Message_DeSerialize in
  let! topic_id := need GetTopicID "Bad NamespaceID and/or TopicName" in
  des_ret {| find_base := base; find_namespace_id_ := fst topic_id; find_topic_name_ := snd topic_id |}.

Definition MessageTailSeqno_DeSerialize : Des MessageTailSeqno :=
  let! base := Message_DeSerialize in
  let! topic_id := need GetTopicID "Bad NamespaceID and/or TopicName" in
  let! seqno := need GetVarint64 "Bad sequence number" in
  des_ret {| tail_base := base; tail_namespace_id_ := fst topic_id; tail_topic_name_ := snd topic_id;
             tail_seqno_ := seqno |}.

Definition MessageSubscribe_DeSerialize : Des MessageSubscribe :=
  let! base := Message_DeSerialize in
  let! topic_id := need GetTopicID "Bad NamespaceID and/or TopicName" in
  let! start_seqno := need GetVarint64 "Bad SequenceNumber" in
  let! sub_id := need DecodeSubscriptionID "Bad SubscriptionID" in
  des_ret {| sub_base := base; sub_namespace_id_ := fst topic_id; sub_topic_name_ := snd topic_id;
             start_seqno_ := start_seqno; sub_sub_id_ := sub_id |}.

Definition MessageUnsubscribe_DeSerialize : Des MessageUnsubscribe :=
  let! base := Message_DeSerialize in
  let! sub_id := need DecodeSubscriptionID "Bad SubscriptionID" in
  let! reason := need (GetFixedEnum8 ValidateReason) "Bad Reason" in
  des_ret {| unsub_base := base; unsub_sub_id_ := sub_id; reason_ := reason |}.

(** The sum of the two wire values wraps at 64 bits, and is asserted not to. *)
Definition MessageDeliver_DeSerialize : Des MessageDeliver :=
  let! base := Message_DeSerialize in
  let! sub_id := need DecodeSubscriptionID "Bad SubscriptionID" in
  let! seqno_prev := need GetVarint64 "Bad previous SequenceNumber" in
  let! seqno_diff := need GetVarint64 "Bad difference between SequenceNumbers" in
  let seqno := u64 (seqno_prev + seqno_diff) in
  if seqno_prev <=? seqno
  then des_ret {| deliver_base := base; deliver_sub_id_ := sub_id;
                  deliver_seqno_prev_ := seqno_prev; deliver_seqno_ := seqno |}
  else des_fail (Assertion "seqno_ >= seqno_prev_").

Definition MessageDeliverGap_DeSerialize : Des MessageDeliverGap :=
  let! deliver := MessageDeliver_DeSerialize in
  let! gap_type := need (GetFixedEnum8 ValidateGapType) "Bad GapType" in
  des_ret {| dgap_deliver := deliver; dgap_gap_type_ := gap_type |}.

Definition MessageDeliverData_DeSerialize : Des MessageDeliverData :=
  let! deliver := MessageDeliver_DeSerialize in
  let! message_id := need GetGuidSlice "Bad Message ID" in
  let! payload := need GetLengthPrefixedSlice "Bad payload" in
  des_ret {| ddata_deliver := deliver; message_id_ := message_id; ddata_payload_ := payload |}.

(** [std::vector<std::unique_ptr<...>>::max_size()] on a 64-bit platform. *)
Definition vector_max_size : Z := 2 ^ 61 - 1.

(** [messages_.reserve(len)] throws when [len] exceeds the maximal size; memory that
    runs out below it, at the same place, is not modelled. *)
Definition MessageDeliverBatch_DeSerialize : Des MessageDeliverBatch :=
  let! base := Message_DeSerialize in
  let! len := need GetVarint64 "Bad Messages count" in
  if vector_max_size <? len then des_fail (Exception "std::length_error")
  else
    let! ms := (fun s => Repeat_loop MessageDeliverData_DeSerialize (S (length s)) 0 len [] s) in
    des_ret {| batch_base := base; messages_ := ms |}.

(** [while (GetVarint32(in, &shard)) healthy_streams_.insert(shard);] *)
Fixpoint Streams_loop (fuel : nat) (acc : gset Z) (s : slice) : gset Z * slice :=
  match fuel with
  | O => (acc, s)
  | S fuel =>
      match GetVarint32 s with
      | (Some shard, s') => Streams_loop fuel ({[shard]} ∪ acc) s'
      | (None, s') => (acc, s')
      end
  end.

(** [milliseconds(epoch_ms)] has a signed 64-bit count; the products of the
    conversion to clock ticks are not bounded here. *)
Definition as_int64 (z : Z) : Z := if z <? 2 ^ 63 then z else z - 2 ^ 64.

Definition MessageHeartbeat_DeSerialize : Des MessageHeartbeat :=
  let! base := DeSerialize_header in
  fun s =>
    if (length s =? 0)%nat
    then (inr {| heartbeat_base := base; timestamp_ := 0; healthy_streams_ := ∅ |}, s)
    else
      match need GetFixed64 "Bad timestamp" s with
      | (inl e, s') => (inl e, s')
      | (inr epoch_ms, s') =>
          let '(streams, s'') := Streams_loop (length s') ∅ s' in
          (inr {| heartbeat_base := base; timestamp_ := as_int64 epoch_ms * ticks_per_ms;
                  healthy_streams_ := streams |}, s'')
      end.

(** ** Dispatch *)

Definition ReadMessageType (s : slice) : Z :=
  match s with
  | [] => MessageType.NotInitialized
  | b :: _ => b2z b
  end.

(** The result of [CreateNewInstance]: [None] is [nullptr]. *)
Definition deliver_to {A} (wrap_msg : A -> Message) (d : Des A) (s : slice) : (derr + option Message) :=
  match fst (d s) with
  | inr m => inr (Some (wrap_msg m))
  | inl (InvalidArgument _) => inr None
  | inl e => inl e
  end.

Definition CreateNewInstance (s : slice) : derr + option Message :=
  let mtype := ReadMessageType s in
  if mtype =? MessageType.NotInitialized then inr None
  else if mtype =? MessageType.mPing then deliver_to Ping MessagePing_DeSerialize s
  else if (mtype =? MessageType.mPublish) || (mtype =? MessageType.mDeliver)
  then deliver_to Data MessageData_DeSerialize s
  else if mtype =? MessageType.mDataAck then deliver_to DataAck MessageDataAck_DeSerialize s
  else if mtype =? MessageType.mGap then deliver_to Gap MessageGap_DeSerialize s
  else if mtype =? MessageType.mGoodbye then deliver_to Goodbye MessageGoodbye_DeSerialize s
  else if mtype =? MessageType.mSubscribe then deliver_to Subscribe MessageSubscribe_DeSerialize s
  else if mtype =? MessageType.mUnsubscribe then deliver_to Unsubscribe MessageUnsubscribe_DeSerialize s
  else if mtype =? MessageType.mDeliverGap then deliver_to DeliverGap MessageDeliverGap_DeSerialize s
  else if mtype =? MessageType.mDeliverData then deliver_to DeliverData MessageDeliverData_DeSerialize s
  else if mtype =? MessageType.mFindTailSeqno then deliver_to FindTailSeqno MessageFindTailSeqno_DeSerialize s
  else if mtype =? MessageType.mTailSeqno then deliver_to TailSeqno MessageTailSeqno_DeSerialize s
  else if mtype =? MessageType.mDeliverBatch then deliver_to DeliverBatch MessageDeliverBatch_DeSerialize s
  else if mtype =? MessageType.mHeartbeat then deliver_to Heartbeat MessageHeartbeat_DeSerialize s
  else inr None.

(** [Message::Copy]: serialize and parse again. *)
Definition Copy (m : Message) : outcome (derr + option Message) :=
  serial <~ Serialize m [] ;; Ok (CreateNewInstance serial).

(** Stream origins (src/messages/types.cc). *)
Definition EncodeOrigin (out : list byte) (origin : Z) : list byte := PutFixed64 out (u64 origin).
Definition DecodeOrigin : Get Z := GetFixed64.

(** [MessageData] accessors used by the control tower. *)
Definition SetPreviousSequenceNumber (prev : Z) (m : MessageData) : MessageData :=
  {| data_base := data_base m; data_seqno_prev_ := prev; data_seqno_ := data_seqno_ m;
     msgid_ := msgid_ m; data_topic_name_ := data_topic_name_ m; data_payload_ := data_payload_ m;
     data_namespaceid_ := data_namespaceid_ m; storage_slice_ := storage_slice_ m |}.

(** ** Messages to subscriptions *)

(** The constructor of [MessageDeliver] and [SetSequenceNumbers]. *)
Definition deliver_header (type tenant sub_id prev seqno : Z) : outcome MessageDeliver :=
  assert_that (prev <=? seqno) "seqno_prev <= seqno" ;;;
  Ok {| deliver_base := {| type_ := type; tenantid_ := tenant |}; deliver_sub_id_ := sub_id;
        deliver_seqno_prev_ := prev; deliver_seqno_ := seqno |}.

Definition NewDeliverData (tenant sub_id : Z) (id : list byte) (payload : slice) (prev seqno : Z) : outcome Message :=
  h <~ deliver_header MessageType.mDeliverData tenant sub_id prev seqno ;;
  Ok (DeliverData {| ddata_deliver := h; message_id_ := id; ddata_payload_ := payload |}).

Definition NewDeliverGap (tenant sub_id type prev seqno : Z) : outcome Message :=
  h <~ deliver_header MessageType.mDeliverGap tenant sub_id prev seqno ;;
  Ok (DeliverGap {| dgap_deliver := h; dgap_gap_type_ := type |}).

Definition NewUnsubscribe (tenant sub_id reason : Z) : Message :=
  Unsubscribe {| unsub_base := {| type_ := MessageType.mUnsubscribe; tenantid_ := tenant |}; unsub_sub_id_ := sub_id; reason_ := reason |}.

Lemma NewDeliverGap_ok tenant sub_id type prev seqno : prev <= seqno ->
  exists m bytes, NewDeliverGap tenant sub_id type prev seqno = Ok m /\ Serialize m [] = Ok bytes.
Proof.
  intros Hle. unfold NewDeliverGap, deliver_header. rewrite (proj2 (Z.leb_le _ _) Hle). cbn [assert_that obind]. eexists _, _. split; [reflexivity|].
  cbn [Serialize]. unfold MessageDeliverGap_Serialize, MessageDeliver_Serialize. cbn [dgap_deliver deliver_seqno_prev_ deliver_seqno_].
  rewrite (proj2 (Z.leb_le _ _) Hle). cbn [assert_that obind]. reflexivity.
Qed.

Lemma NewDeliverData_ok tenant sub_id id payload prev seqno : prev <= seqno ->
  exists m bytes, NewDeliverData tenant sub_id id payload prev seqno = Ok m /\ Serialize m [] = Ok bytes.
Proof.
  intros Hle. unfold NewDeliverData, deliver_header. rewrite (proj2 (Z.leb_le _ _) Hle). cbn [assert_that obind]. eexists _, _. split; [reflexivity|].
  cbn [Serialize]. unfold MessageDeliverData_Serialize, MessageDeliver_Serialize. cbn [ddata_deliver deliver_seqno_prev_ deliver_seqno_].
  rewrite (proj2 (Z.leb_le _ _) Hle). cbn [assert_that obind]. reflexivity.
Qed.
