(* ===== verification/MessagesFacts.v ===== *)
(** * Facts about messages

    Round trips of every message class, behaviour of the parser on arbitrary
    input, and the exact inputs on which parsing does not return. *)

From S2P Require Import Prelude Coding CodingFacts SubscriptionId Messages.

#[local] Open Scope des_scope.

(** ** Reading back what was written *)

Lemma PutTopicID_wire dst n t : PutTopicID dst n t = dst ++ wire PutTopicPair (n, t).
Proof. exact (put_appends (put:=PutTopicPair) dst (n, t)). Qed.

#[export] Instance Guid_codec : WireCodec PutLengthPrefixedSlice GetGuidSlice (fun d => length d = 16%nat).
Proof.
  intros d rest Hd. unfold GetGuidSlice.
  rewrite (get_put (valid:=slice_ok)) by (unfold slice_ok; rewrite Hd; lia).
  rewrite (proj2 (Nat.ltb_ge _ _)) by lia. by rewrite take_ge by lia.
Qed.

Lemma need_put {A} put (get : Get A) valid `{!WireCodec put get valid} msg x rest :
  valid x -> need get msg (wire put x ++ rest) = (inr x, rest).
Proof. intros Hx. unfold need. by rewrite get_put. Qed.

Lemma bind_need_put {A B} put (get : Get A) valid `{!WireCodec put get valid} msg (k : A -> Des B) x rest :
  valid x -> des_bind (need get msg) k (wire put x ++ rest) = k x rest.
Proof. intros Hx. unfold des_bind. by rewrite (need_put put get valid). Qed.

Lemma des_bind_assoc {A B C} (m : Des A) (f : A -> Des B) (g : B -> Des C) s :
  des_bind (des_bind m f) g s = des_bind m (fun x => des_bind (f x) g) s.
Proof. unfold des_bind. by destruct (m s) as [[?|?] ?]. Qed.

Lemma des_bind_ret {A B} (x : A) (f : A -> Des B) s : des_bind (des_ret x) f s = f x s.
Proof. done. Qed.

Lemma des_bind_get_slice {B} (k : slice -> Des B) s : des_bind des_get_slice k s = k s s.
Proof. done. Qed.

#[local] Opaque PutTopicID PutFixedEnum8 PutFixed16 PutFixed64 PutVarint32 PutVarint64
  PutLengthPrefixedSlice EncodeSubscriptionID wire PutTopicPair.

(** Normalise a writer to the concatenation of the fields' bytes. *)
Ltac wire_fields :=
  rewrite ?PutTopicID_wire, ?(put_appends (put:=PutFixedEnum8)), ?(put_appends (put:=PutFixed16)),
    ?(put_appends (put:=PutFixed64)), ?(put_appends (put:=PutVarint64)), ?(put_appends (put:=PutVarint32)),
    ?(put_appends (put:=PutLengthPrefixedSlice)), ?(put_appends (put:=EncodeSubscriptionID)),
    ?app_nil_l, <-?app_assoc.

(** Consume one field of the input. *)
Ltac wire_step :=
  match goal with
  | |- context [des_bind (need ?g ?m) ?k (wire ?p ?x ++ ?r)] =>
      rewrite (bind_need_put p g _ m k x r) by (done || (split; done))
  | |- context [des_bind (need ?g ?m) ?k (wire ?p ?x)] =>
      rewrite <-(app_nil_r (wire p x)), (bind_need_put p g _ m k x []) by (done || (split; done))
  end.

Ltac wire_steps :=
  repeat first [rewrite des_bind_ret | rewrite des_bind_assoc | rewrite des_bind_get_slice | wire_step];
  try done.

(** ** Well-formed messages *)

Definition base_ok (t : Z) (b : MessageBase) : Prop :=
  type_ b = t /\ ValidateMessageType t = true /\ fits 8 t /\ fits 16 (tenantid_ b).

Definition enum_ok (V : Z -> bool) (v : Z) : Prop := fits 8 v /\ V v = true.

Definition MessagePing_ok (m : MessagePing) : Prop :=
  base_ok MessageType.mPing (ping_base m) /\ enum_ok ValidatePingType (pingtype_ m) /\ slice_ok (cookie_ m).

Definition MessageData_ok (m : MessageData) : Prop :=
  (base_ok MessageType.mPublish (data_base m) \/ base_ok MessageType.mDeliver (data_base m)) /\
  fits 64 (data_seqno_prev_ m) /\ fits 64 (data_seqno_ m) /\ length (msgid_ m) = 16%nat /\
  topic_ok (data_namespaceid_ m, data_topic_name_ m) /\ slice_ok (data_payload_ m).

Definition Ack_ok (a : Ack) : Prop :=
  enum_ok ValidateAckStatus (ack_status a) /\ length (ack_msgid a) = 16%nat /\ fits 64 (ack_seqno a).

Definition MessageDataAck_ok (m : MessageDataAck) : Prop :=
  base_ok MessageType.mDataAck (dataack_base m) /\ Forall Ack_ok (acks_ m) /\
  fits 32 (Z.of_nat (length (acks_ m))).

Definition MessageGap_ok (m : MessageGap) : Prop :=
  base_ok MessageType.mGap (gap_base m) /\ topic_ok (gap_namespace_id_ m, gap_topic_name_ m) /\
  enum_ok ValidateGapType (gap_type_ m) /\ fits 64 (gap_from_ m) /\ fits 64 (gap_to_ m).

Definition MessageGoodbye_ok (m : MessageGoodbye) : Prop :=
  base_ok MessageType.mGoodbye (goodbye_base m) /\ enum_ok ValidateGoodbyeCode (code_ m) /\
  enum_ok ValidateOriginType (origin_type_ m).

Definition MessageFindTailSeqno_ok (m : MessageFindTailSeqno) : Prop :=
  base_ok MessageType.mFindTailSeqno (find_base m) /\ topic_ok (find_namespace_id_ m, find_topic_name_ m).

Definition MessageTailSeqno_ok (m : MessageTailSeqno) : Prop :=
  base_ok MessageType.mTailSeqno (tail_base m) /\ topic_ok (tail_namespace_id_ m, tail_topic_name_ m) /\
  fits 64 (tail_seqno_ m).

Definition MessageSubscribe_ok (m : MessageSubscribe) : Prop :=
  base_ok MessageType.mSubscribe (sub_base m) /\ topic_ok (sub_namespace_id_ m, sub_topic_name_ m) /\
  fits 64 (start_seqno_ m) /\ fits 64 (sub_sub_id_ m).

Definition MessageUnsubscribe_ok (m : MessageUnsubscribe) : Prop :=
  base_ok MessageType.mUnsubscribe (unsub_base m) /\ fits 64 (unsub_sub_id_ m) /\
  enum_ok ValidateReason (reason_ m).

(** The order of the two sequence numbers is what [SetSequenceNumbers] asserts. *)
Definition MessageDeliver_ok (t : Z) (m : MessageDeliver) : Prop :=
  base_ok t (deliver_base m) /\ fits 64 (deliver_sub_id_ m) /\
  fits 64 (deliver_seqno_prev_ m) /\ fits 64 (deliver_seqno_ m) /\
  deliver_seqno_prev_ m <= deliver_seqno_ m.

Definition MessageDeliverGap_ok (m : MessageDeliverGap) : Prop :=
  MessageDeliver_ok MessageType.mDeliverGap (dgap_deliver m) /\ enum_ok ValidateGapType (dgap_gap_type_ m).

(** Elements of a batch may carry any valid type. *)
Definition MessageDeliverData_fields_ok (t : Z) (m : MessageDeliverData) : Prop :=
  MessageDeliver_ok t (ddata_deliver m) /\
  length (message_id_ m) = 16%nat /\ slice_ok (ddata_payload_ m).

Definition MessageDeliverData_ok : MessageDeliverData -> Prop :=
  MessageDeliverData_fields_ok MessageType.mDeliverData.

Definition element_ok (m : MessageDeliverData) : Prop := exists t, MessageDeliverData_fields_ok t m.

Definition MessageDeliverBatch_ok (m : MessageDeliverBatch) : Prop :=
  base_ok MessageType.mDeliverBatch (batch_base m) /\ Forall element_ok (messages_ m) /\
  Z.of_nat (length (messages_ m)) <= vector_max_size.

(** A time stamp is a signed 64-bit count of ticks; the wire carries whole
    milliseconds. *)
Definition MessageHeartbeat_ok (m : MessageHeartbeat) : Prop :=
  base_ok MessageType.mHeartbeat (heartbeat_base m) /\
  (- 2 ^ 63 <= timestamp_ m < 2 ^ 63 /\ timestamp_ m mod ticks_per_ms = 0) /\
  (forall x, x ∈ healthy_streams_ m -> fits 32 x).

Definition Message_ok (m : Message) : Prop :=
  match m with
  | Ping m => MessagePing_ok m
  | Data m => MessageData_ok m
  | DataAck m => MessageDataAck_ok m
  | Gap m => MessageGap_ok m
  | Goodbye m => MessageGoodbye_ok m
  | Subscribe m => MessageSubscribe_ok m
  | Unsubscribe m => MessageUnsubscribe_ok m
  | DeliverGap m => MessageDeliverGap_ok m
  | DeliverData m => MessageDeliverData_ok m
  | FindTailSeqno m => MessageFindTailSeqno_ok m
  | TailSeqno m => MessageTailSeqno_ok m
  | DeliverBatch m => MessageDeliverBatch_ok m
  | Heartbeat m => MessageHeartbeat_ok m
  end.

(** ** Round trips *)

Ltac unpack_ok :=
  repeat match goal with
  | H : _ /\ _ |- _ => destruct H
  | H : base_ok _ ?b |- _ => destruct H as (? & ? & ? & ?); let bt := fresh "bt" in let bn := fresh "bn" in destruct b as [bt bn]; cbn [type_ tenantid_] in *; subst bt
  end.

(** Unfold the two routines of a class and run the reader over the fields. *)
Ltac wire_roundtrip :=
  unpack_ok; cbv beta iota zeta; cbn [type_ tenantid_]; wire_fields; wire_steps.

Lemma MessagePing_roundtrip m rest : MessagePing_ok m ->
  MessagePing_DeSerialize (MessagePing_Serialize m [] ++ rest) = (inr m, rest).
Proof.
  destruct m as [b p c]. intros (Hb & Hp & Hc).
  unfold MessagePing_DeSerialize, MessagePing_Serialize, DeSerialize_header.
  cbn [ping_base pingtype_ cookie_] in *. wire_roundtrip.
Qed.

(** The storage slice of a parsed message covers what goes into the log. *)
Definition with_storage (st : slice) (m : MessageData) : MessageData :=
  {| data_base := data_base m; data_seqno_prev_ := data_seqno_prev_ m;
     data_seqno_ := data_seqno_ m; msgid_ := msgid_ m;
     data_topic_name_ := data_topic_name_ m; data_payload_ := data_payload_ m;
     data_namespaceid_ := data_namespaceid_ m; storage_slice_ := st |}.

Lemma MessageData_storage_roundtrip m rest st : MessageData_ok m ->
  MessageData_DeSerializeStorage (type_ (data_base m)) (data_seqno_prev_ m) (data_seqno_ m) st
    (MessageData_SerializeInternal m [] ++ rest) = (inr (with_storage st m), rest).
Proof.
  destruct m as [b sp sn id t p n st']. intros (Hb & Hsp & Hsn & Hid & Ht & Hp).
  unfold MessageData_SerializeInternal, MessageData_DeSerializeStorage, with_storage.
  cbn [data_base data_seqno_prev_ data_seqno_ msgid_ data_topic_name_ data_payload_ data_namespaceid_] in *.
  destruct Hb as [Hb|Hb]; wire_roundtrip.
Qed.

Lemma MessageData_SerializeInternal_appends m out :
  MessageData_SerializeInternal m out = out ++ MessageData_SerializeInternal m [].
Proof. unfold MessageData_SerializeInternal. cbv zeta. by wire_fields. Qed.

Lemma MessageData_roundtrip m rest : MessageData_ok m ->
  MessageData_DeSerialize (MessageData_Serialize m [] ++ rest) =
    (inr (with_storage (MessageData_SerializeInternal m [] ++ rest) m), rest).
Proof.
  intros Hok. pose proof (MessageData_storage_roundtrip m rest (MessageData_SerializeInternal m [] ++ rest) Hok) as HS.
  destruct Hok as (Hb & Hsp & Hsn & _).
  unfold MessageData_DeSerialize, MessageData_Serialize. cbv zeta.
  rewrite MessageData_SerializeInternal_appends.
  destruct Hb as [(Ht & ? & ? & ?)|(Ht & ? & ? & ?)]; rewrite Ht in *; wire_fields; wire_steps;
    by rewrite des_bind_get_slice.
Qed.

Lemma MessageGap_roundtrip m rest : MessageGap_ok m ->
  MessageGap_DeSerialize (MessageGap_Serialize m [] ++ rest) = (inr m, rest).
Proof.
  destruct m as [b n t g f l]. intros (Hb & Ht & Hg & Hf & Hl).
  unfold MessageGap_DeSerialize, MessageGap_Serialize, DeSerialize_header.
  cbn [gap_base gap_namespace_id_ gap_topic_name_ gap_type_ gap_from_ gap_to_] in *. wire_roundtrip.
Qed.

Lemma MessageGoodbye_roundtrip m rest : MessageGoodbye_ok m ->
  MessageGoodbye_DeSerialize (MessageGoodbye_Serialize m [] ++ rest) = (inr m, rest).
Proof.
  destruct m as [b c o]. intros (Hb & Hc & Ho).
  unfold MessageGoodbye_DeSerialize, MessageGoodbye_Serialize, DeSerialize_header.
  cbn [goodbye_base code_ origin_type_] in *. wire_roundtrip.
Qed.

Lemma MessageFindTailSeqno_roundtrip m rest : MessageFindTailSeqno_ok m ->
  MessageFindTailSeqno_DeSerialize (MessageFindTailSeqno_Serialize m [] ++ rest) = (inr m, rest).
Proof.
  destruct m as [b n t]. intros (Hb & Ht).
  unfold MessageFindTailSeqno_DeSerialize, MessageFindTailSeqno_Serialize, Message_DeSerialize, Message_Serialize.
  cbn [find_base find_namespace_id_ find_topic_name_] in *. wire_roundtrip.
Qed.

Lemma MessageTailSeqno_roundtrip m rest : MessageTailSeqno_ok m ->
  MessageTailSeqno_DeSerialize (MessageTailSeqno_Serialize m [] ++ rest) = (inr m, rest).
Proof.
  destruct m as [b n t s]. intros (Hb & Ht & Hs).
  unfold MessageTailSeqno_DeSerialize, MessageTailSeqno_Serialize, Message_DeSerialize, Message_Serialize.
  cbn [tail_base tail_namespace_id_ tail_topic_name_ tail_seqno_] in *. wire_roundtrip.
Qed.

Lemma MessageSubscribe_roundtrip m rest : MessageSubscribe_ok m ->
  MessageSubscribe_DeSerialize (MessageSubscribe_Serialize m [] ++ rest) = (inr m, rest).
Proof.
  destruct m as [b n t s i]. intros (Hb & Ht & Hs & Hi).
  unfold MessageSubscribe_DeSerialize, MessageSubscribe_Serialize, Message_DeSerialize, Message_Serialize.
  cbn [sub_base sub_namespace_id_ sub_topic_name_ start_seqno_ sub_sub_id_] in *. wire_roundtrip.
Qed.

Lemma MessageUnsubscribe_roundtrip m rest : MessageUnsubscribe_ok m ->
  MessageUnsubscribe_DeSerialize (MessageUnsubscribe_Serialize m [] ++ rest) = (inr m, rest).
Proof.
  destruct m as [b i r]. intros (Hb & Hi & Hr).
  unfold MessageUnsubscribe_DeSerialize, MessageUnsubscribe_Serialize, Message_DeSerialize, Message_Serialize.
  cbn [unsub_base unsub_sub_id_ reason_] in *. wire_roundtrip.
Qed.

(** The bytes of the common part of the delivery messages. *)
Definition deliver_wire (m : MessageDeliver) : list byte :=
  wire PutFixedEnum8 (type_ (deliver_base m)) ++ wire PutFixed16 (tenantid_ (deliver_base m)) ++
  wire EncodeSubscriptionID (deliver_sub_id_ m) ++ wire PutVarint64 (deliver_seqno_prev_ m) ++
  wire PutVarint64 (deliver_seqno_ m - deliver_seqno_prev_ m).

Lemma MessageDeliver_Serialize_wire t m out : MessageDeliver_ok t m ->
  MessageDeliver_Serialize m out = Ok (out ++ deliver_wire m).
Proof.
  intros (Hb & Hi & Hp & Hs & Hle). unfold MessageDeliver_Serialize, Message_Serialize, deliver_wire.
  rewrite (proj2 (Z.leb_le _ _) Hle). cbn [obind assert_that]. cbv zeta.
  rewrite wrap_small by (unfold fits in *; lia). by wire_fields.
Qed.

Lemma MessageDeliver_roundtrip {B} t m (k : MessageDeliver -> Des B) rest : MessageDeliver_ok t m ->
  des_bind MessageDeliver_DeSerialize k (deliver_wire m ++ rest) = k m rest.
Proof.
  destruct m as [b i p s]. intros (Hb & Hi & Hp & Hs & Hle).
  unfold MessageDeliver_DeSerialize, Message_DeSerialize, deliver_wire.
  cbn [deliver_base deliver_sub_id_ deliver_seqno_prev_ deliver_seqno_] in *.
  assert (fits 64 (s - p)) as Hd by (unfold fits in *; lia).
  wire_roundtrip. replace (p + (s - p)) with s by lia.
  by rewrite (wrap_small 64 s), (proj2 (Z.leb_le p s)) by done.
Qed.

Lemma MessageDeliverGap_roundtrip m rest : MessageDeliverGap_ok m ->
  exists bytes, MessageDeliverGap_Serialize m [] = Ok bytes /\
    MessageDeliverGap_DeSerialize (bytes ++ rest) = (inr m, rest).
Proof.
  destruct m as [d g]. intros (Hd & Hg). cbn [dgap_deliver dgap_gap_type_] in *.
  unfold MessageDeliverGap_Serialize, MessageDeliverGap_DeSerialize.
  cbn [dgap_deliver dgap_gap_type_]. rewrite (MessageDeliver_Serialize_wire _ _ _ Hd).
  cbn [obind]. eexists. split; [done|]. wire_fields.
  rewrite (MessageDeliver_roundtrip _ _ _ _ Hd). wire_steps.
Qed.

Definition ddata_wire (m : MessageDeliverData) : list byte :=
  deliver_wire (ddata_deliver m) ++ wire PutLengthPrefixedSlice (message_id_ m) ++
  wire PutLengthPrefixedSlice (ddata_payload_ m).

Lemma MessageDeliverData_Serialize_wire m out : element_ok m ->
  MessageDeliverData_Serialize m out = Ok (out ++ ddata_wire m).
Proof.
  intros (t & Hd & _). unfold MessageDeliverData_Serialize, ddata_wire.
  rewrite (MessageDeliver_Serialize_wire _ _ _ Hd). cbn [obind]. cbv zeta. by wire_fields.
Qed.

Lemma MessageDeliverData_wire_roundtrip m rest : element_ok m ->
  MessageDeliverData_DeSerialize (ddata_wire m ++ rest) = (inr m, rest).
Proof.
  destruct m as [d i p]. intros (t & Hd & Hi & Hp). unfold MessageDeliverData_DeSerialize, ddata_wire.
  cbn [ddata_deliver message_id_ ddata_payload_] in *. rewrite <-!app_assoc.
  rewrite (MessageDeliver_roundtrip _ _ _ _ Hd). wire_steps.
Qed.

(** A counted sequence is read back element by element. *)
Section RepeatLoop.
Context {A : Type} (element : Des A) (enc : A -> list byte) (ok : A -> Prop).
Context (element_ok : forall x rest, ok x -> element (enc x ++ rest) = (inr x, rest)).

Lemma Repeat_loop_decodes xs fuel i acc rest : Forall ok xs -> (length xs < fuel)%nat ->
  Repeat_loop element fuel i (i + Z.of_nat (length xs)) acc (concat (map enc xs) ++ rest)
  = (inr (acc ++ xs), rest).
Proof.
  revert fuel i acc. induction xs as [|x xs IH]; intros [|fuel] i acc Hok Hf; cbn [length] in *; try lia.
  - cbn [Repeat_loop]. rewrite (proj2 (Z.ltb_ge _ _)) by lia. by rewrite app_nil_r.
  - apply Forall_cons in Hok as [Hx Hok]. cbn [Repeat_loop]. rewrite (proj2 (Z.ltb_lt _ _)) by lia.
    cbn [map concat]. rewrite <-app_assoc. unfold des_bind at 1. rewrite element_ok by done.
    replace (i + Z.of_nat (S (length xs))) with (i + 1 + Z.of_nat (length xs)) by lia.
    rewrite IH by (done || lia). by rewrite <-app_assoc.
Qed.
End RepeatLoop.

Lemma length_concat_map {A} (f : A -> list byte) xs : (forall x, (0 < length (f x))%nat) ->
  (length xs <= length (concat (map f xs)))%nat.
Proof.
  intros Hf. induction xs as [|x xs IH]; cbn [map concat length]; [lia|].
  rewrite length_app. specialize (Hf x). lia.
Qed.

Definition ack_wire (a : Ack) : list byte :=
  wire PutFixedEnum8 (ack_status a) ++ wire PutBytes (ack_msgid a) ++ wire PutVarint64 (ack_seqno a).

Lemma Ack_Serialize_wire acks out : fold_left Ack_Serialize acks out = out ++ concat (map ack_wire acks).
Proof.
  revert out. induction acks as [|a acks IH]; intros out; cbn [fold_left map concat]; [by rewrite app_nil_r|].
  rewrite IH. unfold Ack_Serialize, ack_wire. cbv zeta. change (PutBytes ?o ?d) with (o ++ wire PutBytes d).
  wire_fields. done.
Qed.

Lemma Ack_roundtrip a rest : Ack_ok a -> Ack_DeSerialize (ack_wire a ++ rest) = (inr a, rest).
Proof.
  destruct a as [s i n]. intros (Hs & Hi & Hn). unfold Ack_DeSerialize, ack_wire.
  cbn [ack_status ack_msgid ack_seqno] in *. rewrite <-!app_assoc. wire_steps.
Qed.

#[local] Transparent wire PutFixedEnum8.
Lemma wire_enum8_length v : length (wire PutFixedEnum8 v) = 1%nat.
Proof. done. Qed.
#[local] Opaque wire PutFixedEnum8.

Lemma MessageDataAck_roundtrip m rest : MessageDataAck_ok m ->
  MessageDataAck_DeSerialize (MessageDataAck_Serialize m [] ++ rest) = (inr m, rest).
Proof.
  destruct m as [b acks]. intros (Hb & Hacks & Hlen).
  unfold MessageDataAck_DeSerialize, MessageDataAck_Serialize, DeSerialize_header.
  cbn [dataack_base acks_] in *. cbv zeta. rewrite Ack_Serialize_wire, (wrap_small _ _ Hlen).
  wire_roundtrip. unfold des_bind at 1.
  pose proof (Repeat_loop_decodes Ack_DeSerialize ack_wire Ack_ok Ack_roundtrip acks
    (S (length (concat (map ack_wire acks) ++ rest))) 0 [] rest Hacks) as HL.
  rewrite Z.add_0_l in HL. rewrite HL; [done|].
  rewrite length_app. enough (length acks <= length (concat (map ack_wire acks)))%nat by lia.
  apply length_concat_map. intros a. unfold ack_wire. rewrite length_app, wire_enum8_length. lia.
Qed.

Lemma MessagesVector_Serialize_wire ms out : Forall element_ok ms ->
  MessagesVector_Serialize ms out = Ok (out ++ concat (map ddata_wire ms)).
Proof.
  revert out. induction ms as [|m ms IH]; intros out Hok; cbn [MessagesVector_Serialize map concat].
  { by rewrite app_nil_r. }
  apply Forall_cons in Hok as [Hm Hok]. rewrite MessageDeliverData_Serialize_wire by done. cbn [obind].
  rewrite IH by done. by rewrite app_assoc.
Qed.

Lemma MessageDeliverBatch_roundtrip m rest : MessageDeliverBatch_ok m ->
  exists bytes, MessageDeliverBatch_Serialize m [] = Ok bytes /\
    MessageDeliverBatch_DeSerialize (bytes ++ rest) = (inr m, rest).
Proof.
  destruct m as [b ms]. intros (Hb & Hms & Hlen).
  unfold MessageDeliverBatch_DeSerialize, MessageDeliverBatch_Serialize, Message_DeSerialize, Message_Serialize.
  cbn [batch_base messages_] in *. cbv zeta. rewrite MessagesVector_Serialize_wire by done.
  eexists. split; [done|].
  assert (fits 64 (Z.of_nat (length ms))) as H64 by (unfold fits, vector_max_size in *; lia).
  wire_roundtrip. rewrite (proj2 (Z.ltb_ge _ _)) by lia. unfold des_bind at 1.
  pose proof (Repeat_loop_decodes MessageDeliverData_DeSerialize ddata_wire element_ok
    MessageDeliverData_wire_roundtrip ms (S (length (concat (map ddata_wire ms) ++ rest))) 0 [] rest Hms) as HL.
  rewrite Z.add_0_l in HL. rewrite HL; [done|].
  rewrite length_app. enough (length ms <= length (concat (map ddata_wire ms)))%nat by lia.
  apply length_concat_map. intros x. unfold ddata_wire, deliver_wire.
  rewrite !length_app, wire_enum8_length. lia.
Qed.

(** ** Heartbeats *)

#[local] Transparent PutVarint32 wire.

Lemma PutVarint32_fold order out :
  fold_left PutVarint32 order out = out ++ concat (map (wire PutVarint32) order).
Proof.
  revert out. induction order as [|x order IH]; intros out; cbn [fold_left map concat].
  { by rewrite app_nil_r. }
  rewrite IH, (put_appends (put:=PutVarint32)). by rewrite <-app_assoc.
Qed.

Lemma wire_varint32_length v : (0 < length (wire PutVarint32 v))%nat.
Proof. unfold wire, PutVarint32. rewrite app_nil_l. pose proof (length_EncodeVarint32 v). lia. Qed.

#[local] Opaque PutVarint32 wire.

Lemma GetVarint32_nil : GetVarint32 [] = (None, []).
Proof. done. Qed.

Lemma Streams_loop_decodes order fuel acc : Forall (fits 32) order -> (length order <= fuel)%nat ->
  Streams_loop fuel acc (concat (map (wire PutVarint32) order)) = (list_to_set order ∪ acc, []).
Proof.
  revert fuel acc. induction order as [|x order IH]; intros fuel acc Hok Hf; cbn [map concat length] in *.
  - destruct fuel; cbn [Streams_loop]; rewrite ?GetVarint32_nil; f_equal; set_solver.
  - destruct fuel as [|fuel]; [lia|]. apply Forall_cons in Hok as [Hx Hok]. cbn [Streams_loop].
    rewrite (get_put (put:=PutVarint32)) by done. rewrite IH by (done || lia). f_equal. set_solver.
Qed.

Lemma as_int64_u64 z : - 2 ^ 63 <= z < 2 ^ 63 -> as_int64 (u64 z) = z.
Proof.
  intros Hz. unfold as_int64, wrap.
  assert (z mod 2 ^ 64 = if z <? 0 then z + 2 ^ 64 else z) as ->.
  { destruct (Z.ltb_spec z 0); [|apply Z.mod_small; lia].
    symmetry. apply (Z.mod_unique_pos z (2 ^ 64) (-1)); lia. }
  destruct (Z.ltb_spec z 0); case_bool; lia.
Qed.

(** Any traversal order of the set of healthy streams is read back as the set. *)
Lemma MessageHeartbeat_roundtrip_in order m : MessageHeartbeat_ok m ->
  order ≡ₚ elements (healthy_streams_ m) ->
  MessageHeartbeat_DeSerialize (MessageHeartbeat_Serialize_in order m []) = (inr m, []).
Proof.
  destruct m as [b t hs]. intros (Hb & (Ht & Hms) & Hhs) Hord.
  unfold MessageHeartbeat_DeSerialize, MessageHeartbeat_Serialize_in, DeSerialize_header.
  cbn [heartbeat_base timestamp_ healthy_streams_] in *. cbv zeta. rewrite PutVarint32_fold.
  assert (t = Z.quot t ticks_per_ms * ticks_per_ms /\ - 2 ^ 63 <= Z.quot t ticks_per_ms < 2 ^ 63) as [Et Hq].
  { apply Z.mod_divide in Hms as [q ->]; [|done]. unfold ticks_per_ms in *. rewrite Z.quot_mul by lia. lia. }
  assert (fits 64 (u64 (Z.quot t ticks_per_ms))) as H64 by (apply wrap_fits; lia).
  wire_roundtrip.
  assert (forall k, (length (wire PutFixed64 (u64 (Z.quot t ticks_per_ms)) ++ k) =? 0)%nat = false) as ->.
  { intros k. by rewrite length_app. }
  rewrite (need_put PutFixed64 GetFixed64 (fits 64)) by done.
  rewrite Streams_loop_decodes.
  - rewrite as_int64_u64 by done. rewrite <-Et. do 3 f_equal.
    rewrite Hord. rewrite list_to_set_elements_L. set_solver.
  - apply Forall_forall. intros x Hx. apply Hhs. apply elem_of_elements. by rewrite <-Hord.
  - apply length_concat_map, wire_varint32_length.
Qed.

(** ** Behaviour of the parsers on arbitrary input *)

(** What a reader may return. *)
Class Reads {A} (get : Get A) (P : A -> Prop) : Prop :=
  reads : forall s x s', get s = (Some x, s') -> P x.

Lemma fits_lor w a b : 0 <= w -> fits w a -> fits w b -> fits w (Z.lor a b).
Proof.
  intros Hw Ha Hb. apply fits_of_testbit; [done|apply Z.lor_nonneg; split; [apply Ha|apply Hb]|].
  intros i Hi. by rewrite Z.lor_spec, (testbit_fits w a), (testbit_fits w b) by (done || lia).
Qed.

Lemma GetVarint_loop_fits last w p shift result v q : 0 <= w -> fits w result ->
  GetVarint_loop last w p shift result = Some (v, q) -> fits w v.
Proof.
  intros Hw. revert shift result. induction p as [|b p IH]; intros shift result Hr; simpl.
  { by destruct (shift <=? last). }
  case_bool; [|done]. destruct (negb _); intros; simplify_eq; eauto using fits_lor, wrap_fits.
Qed.

#[export] Instance GetVarint32_reads : Reads GetVarint32 (fits 32).
Proof.
  intros s x s'. unfold GetVarint32. rewrite GetVarint32Ptr_fast_path.
  destruct (GetVarint32PtrFallback s) as [[v q]|] eqn:E; intros; simplify_eq.
  eapply GetVarint_loop_fits; [..|apply E]; [lia|by apply fits_0].
Qed.
#[export] Instance GetVarint64_reads : Reads GetVarint64 (fits 64).
Proof.
  intros s x s'. unfold GetVarint64. destruct (GetVarint64Ptr s) as [[v q]|] eqn:E; intros; simplify_eq.
  eapply GetVarint_loop_fits; [..|apply E]; [lia|by apply fits_0].
Qed.
#[export] Instance GetFixed16_reads : Reads GetFixed16 (fits 16).
Proof.
  intros s x s'. unfold GetFixed16. destruct (Nat.ltb_spec (length s) 2); intros; simplify_eq.
  unfold DecodeFixed16, DecodeFixed16_on. pose proof (le_value_fits (take 2 s)) as H1.
  by rewrite length_take_le in H1 by lia.
Qed.
#[export] Instance GetFixedEnum8_reads V : Reads (GetFixedEnum8 V) (enum_ok V).
Proof.
  intros s x s'. unfold GetFixedEnum8, GetFixed8. destruct (_ <? _)%nat; [done|].
  destruct (V _) eqn:E; intros; simplify_eq. split; [apply nth_byte_fits|done].
Qed.
#[export] Instance GetLengthPrefixedSlice_reads : Reads GetLengthPrefixedSlice slice_ok.
Proof.
  intros s x s'. unfold GetLengthPrefixedSlice. destruct (GetVarint32 s) as [[len|] r] eqn:E; [|done].
  apply reads in E. unfold slice_ok, fits in *. case_bool; intros; simplify_eq.
  rewrite length_take. lia.
Qed.
#[export] Instance GetTopicID_reads : Reads GetTopicID topic_ok.
Proof.
  intros s x s'. unfold GetTopicID, get_bind, get_ret.
  destruct (GetLengthPrefixedSlice s) as [[n|] r] eqn:E1; [|done].
  destruct (GetLengthPrefixedSlice r) as [[t|] r'] eqn:E2; [|done].
  apply reads in E1, E2. intros; simplify_eq. done.
Qed.
#[export] Instance GetBytes_reads n : Reads (GetBytes n) (fun d => length d = n).
Proof.
  intros s x s'. unfold GetBytes. destruct (Nat.ltb_spec (length s) n); intros; simplify_eq.
  by apply length_take_le.
Qed.
#[export] Instance GetGuidSlice_reads : Reads GetGuidSlice (fun d => length d = 16%nat).
Proof.
  intros s x s'. unfold GetGuidSlice. destruct (GetLengthPrefixedSlice s) as [[d|] r]; [|done].
  destruct (Nat.ltb_spec (length d) 16); intros; simplify_eq. by apply length_take_le.
Qed.
#[export] Instance GetGuidSlice_forward : Forward GetGuidSlice.
Proof.
  intros s. unfold GetGuidSlice. pose proof (forward (get:=GetLengthPrefixedSlice) s) as H.
  destruct (GetLengthPrefixedSlice s) as [[d|] r]; [|done]. by destruct (_ <? _)%nat.
Qed.

(** On every input [s] a parser leaves a suffix, its result satisfies [P s],
    and apart from [InvalidArgument] it stops only as [E] says. *)
Definition Behaves {A} (E : derr -> Prop) (P : slice -> A -> Prop) (d : Des A) : Prop :=
  forall s, snd (d s) `suffix_of` s /\
    match fst (d s) with
    | inr x => P s x
    | inl (InvalidArgument _) => True
    | inl e => E e
    end.

Lemma Behaves_ret {A} E (P : slice -> A -> Prop) x : (forall s, P s x) -> Behaves E P (des_ret x).
Proof. intros HP s. split; [reflexivity|apply HP]. Qed.

Lemma Behaves_bind {A B} E (P : slice -> A -> Prop) (Q : slice -> B -> Prop) m f :
  Behaves E P m -> (forall s x, P s x -> Behaves E (fun _ => Q s) (f x)) -> Behaves E Q (des_bind m f).
Proof.
  intros Hm Hf s. unfold des_bind. destruct (Hm s) as [Hs HP]. destruct (m s) as [[e|x] s']; simpl in *; [done|].
  destruct (Hf s x HP s') as [Hs' HQ]. split; [by etrans|done].
Qed.

Lemma Behaves_need {A} E (P : A -> Prop) g msg `{!Forward g, !Reads g P} :
  Behaves E (fun _ => P) (need g msg).
Proof.
  intros s. unfold need. pose proof (forward (get:=g) s) as Hs.
  destruct (g s) as [[x|] s'] eqn:Eg; [|done]. split; [done|]. by eapply (reads (get:=g)).
Qed.

(** The first field of every message is the type that is dispatched on. *)
Lemma Behaves_type E V msg :
  Behaves E (fun s x => x = ReadMessageType s /\ enum_ok V x) (need (GetFixedEnum8 V) msg).
Proof.
  intros s. unfold need. pose proof (forward (get:=GetFixedEnum8 V) s) as Hs.
  destruct (GetFixedEnum8 V s) as [[x|] s'] eqn:Eg; [|done]. split; [done|].
  split; [|by eapply (reads (get:=GetFixedEnum8 V))]. revert Eg.
  unfold GetFixedEnum8, GetFixed8. destruct s as [|b s]; [done|]. cbn [length Nat.ltb Nat.leb fst].
  destruct (V _); intros; by simplify_eq.
Qed.

Lemma Behaves_mono {A} (E E' : derr -> Prop) (P P' : slice -> A -> Prop) d : (forall e, E e -> E' e) ->
  (forall s x, P s x -> P' s x) -> Behaves E P d -> Behaves E' P' d.
Proof.
  intros HE HP Hd s. destruct (Hd s) as [Hs H]. split; [done|].
  destruct (fst (d s)) as [[]|]; auto.
Qed.

(** A parser that consumes input whenever it succeeds. *)
Definition Consumes {A} (d : Des A) : Prop :=
  forall s x s', d s = (inr x, s') -> (length s' < length s)%nat.

Lemma Consumes_bind {A B} E (P : slice -> A -> Prop) (Q : slice -> B -> Prop) (m : Des A) (f : A -> Des B) :
  Behaves E P m -> Consumes m -> (forall s x, P s x -> Behaves E (fun _ => Q s) (f x)) ->
  Consumes (des_bind m f).
Proof.
  intros Hb Hm Hf s x s'. unfold des_bind. destruct (m s) as [[e|y] r] eqn:Em; [done|]. intros Ef.
  pose proof (Hm _ _ _ Em) as Hlt. destruct (Hb s) as [_ HP]. rewrite Em in HP.
  destruct (Hf s y HP r) as [Hs _]. rewrite Ef in Hs. apply suffix_length in Hs. simpl in *. lia.
Qed.

Lemma Consumes_enum V msg : Consumes (need (GetFixedEnum8 V) msg).
Proof.
  intros s x s'. unfold need, GetFixedEnum8, GetFixed8. destruct (Nat.ltb_spec (length s) 1); [done|].
  destruct (V _); intros; simplify_eq. rewrite length_drop. lia.
Qed.

(** A counted loop over such elements ends before its fuel does. *)
Lemma Repeat_loop_behaves {A} E (P : A -> Prop) element fuel i n acc s :
  Behaves E (fun _ => P) element -> Consumes element -> (length s < fuel)%nat -> i <= n -> Forall P acc ->
  let r := Repeat_loop element fuel i n acc s in
  snd r `suffix_of` s /\
  match fst r with
  | inr xs => Forall P xs /\ Z.of_nat (length xs) = Z.of_nat (length acc) + (n - i)
  | inl (InvalidArgument _) => True
  | inl e => E e
  end.
Proof.
  intros Hb Hc. revert i acc s. induction fuel as [|fuel IH]; intros i acc s Hf Hi Hacc; [lia|].
  cbn [Repeat_loop]. case_bool.
  2: { split; [reflexivity|]. split; [done|lia]. }
  unfold des_bind. destruct (Hb s) as [Hs HP]. destruct (element s) as [[e|x] s'] eqn:Ee; simpl in Hs, HP; [done|].
  apply Hc in Ee. destruct (IH (i + 1) (acc ++ [x]) s') as [Hs' HR]; [lia|lia|by apply Forall_app; auto|].
  cbv zeta. split; [by etrans|]. destruct (fst (Repeat_loop _ _ _ _ _ _)) as [e|xs]; [done|].
  rewrite length_app in HR. simpl in HR. destruct HR. split; [done|lia].
Qed.

Lemma Behaves_repeat {A} E (P : A -> Prop) element n :
  Behaves E (fun _ => P) element -> Consumes element -> 0 <= n ->
  Behaves E (fun _ xs => Forall P xs /\ Z.of_nat (length xs) = n)
    (fun s => Repeat_loop element (S (length s)) 0 n [] s).
Proof.
  intros Hb Hc Hn s.
  destruct (Repeat_loop_behaves E P element (S (length s)) 0 n [] s) as [Hs H]; [done|done|lia|done|done|].
  split; [done|]. destruct (fst (Repeat_loop _ _ _ _ _ _)) as [[]|]; try done.
  destruct H as [HP Hlen]. cbn [length] in Hlen. split; [done|lia].
Qed.

Definition never (e : derr) : Prop := False.
Definition seqno_assertion (e : derr) : Prop := e = Assertion "seqno_ >= seqno_prev_".
Definition batch_failure (e : derr) : Prop := seqno_assertion e \/ e = Exception "std::length_error".

Definition base_parsed (s : slice) (b : MessageBase) : Prop := base_ok (ReadMessageType s) b.

Lemma Behaves_base E m1 m2 : Behaves E base_parsed
  (let! type := need (GetFixedEnum8 ValidateMessageType) m1 in
   let! tenantid := need GetFixed16 m2 in
   des_ret {| type_ := type; tenantid_ := tenantid |}).
Proof.
  eapply Behaves_bind; [apply (Behaves_type E)|]. intros s t [-> [Ht HV]].
  eapply Behaves_bind; [apply (Behaves_need _ (fits 16)); apply _|]. intros ? n Hn.
  apply Behaves_ret. intros ?. by split_and!.
Qed.

(** Step through the fields of a parser. *)
Ltac parse_fields :=
  lazymatch goal with
  | |- Behaves _ _ (des_bind DeSerialize_header _) =>
      eapply Behaves_bind; [apply Behaves_base|intros ? ? ?; parse_fields]
  | |- Behaves _ _ (des_bind Message_DeSerialize _) =>
      eapply Behaves_bind; [apply Behaves_base|intros ? ? ?; parse_fields]
  | |- Behaves _ _ (des_bind (need _ _) _) =>
      eapply Behaves_bind; [eapply Behaves_need; apply _|cbv beta; intros ? ? ?; parse_fields]
  | |- Behaves _ _ (des_ret _) => apply Behaves_ret; intros ?
  | |- _ => idtac
  end.

(** The type a message is parsed as is the type it was dispatched on. *)
Ltac parsed :=
  parse_fields; unfold base_parsed in *; let Et := fresh "Et" in
  intros Et; rewrite <-?Et in *; hnf; cbn; split_and!; by auto using surjective_pairing.

Lemma topic_ok_pair p : topic_ok p -> topic_ok (fst p, snd p).
Proof. by destruct p. Qed.
#[local] Hint Resolve topic_ok_pair : core.

Lemma MessagePing_parsed E :
  Behaves E (fun s m => MessageType.mPing = ReadMessageType s -> MessagePing_ok m) MessagePing_DeSerialize.
Proof. unfold MessagePing_DeSerialize. parsed. Qed.

Lemma MessageGap_parsed E :
  Behaves E (fun s m => MessageType.mGap = ReadMessageType s -> MessageGap_ok m) MessageGap_DeSerialize.
Proof. unfold MessageGap_DeSerialize. parsed. Qed.

Lemma MessageGoodbye_parsed E :
  Behaves E (fun s m => MessageType.mGoodbye = ReadMessageType s -> MessageGoodbye_ok m)
    MessageGoodbye_DeSerialize.
Proof. unfold MessageGoodbye_DeSerialize. parsed. Qed.

Lemma MessageFindTailSeqno_parsed E :
  Behaves E (fun s m => MessageType.mFindTailSeqno = ReadMessageType s -> MessageFindTailSeqno_ok m)
    MessageFindTailSeqno_DeSerialize.
Proof. unfold MessageFindTailSeqno_DeSerialize. parsed. Qed.

Lemma MessageTailSeqno_parsed E :
  Behaves E (fun s m => MessageType.mTailSeqno = ReadMessageType s -> MessageTailSeqno_ok m)
    MessageTailSeqno_DeSerialize.
Proof. unfold MessageTailSeqno_DeSerialize. parsed. Qed.

#[export] Instance DecodeSubscriptionID_forward : Forward DecodeSubscriptionID := GetVarint64_forward.
#[export] Instance DecodeSubscriptionID_reads : Reads DecodeSubscriptionID (fits 64) := GetVarint64_reads.

Lemma MessageSubscribe_parsed E :
  Behaves E (fun s m => MessageType.mSubscribe = ReadMessageType s -> MessageSubscribe_ok m)
    MessageSubscribe_DeSerialize.
Proof. unfold MessageSubscribe_DeSerialize. parsed. Qed.

Lemma MessageUnsubscribe_parsed E :
  Behaves E (fun s m => MessageType.mUnsubscribe = ReadMessageType s -> MessageUnsubscribe_ok m)
    MessageUnsubscribe_DeSerialize.
Proof. unfold MessageUnsubscribe_DeSerialize. parsed. Qed.

Lemma Behaves_get_slice E : Behaves E (fun _ _ => True) des_get_slice.
Proof. intros s. split; [reflexivity|done]. Qed.

Lemma MessageData_parsed E :
  Behaves E (fun s m => MessageType.mPublish = ReadMessageType s \/ MessageType.mDeliver = ReadMessageType s ->
    MessageData_ok m) MessageData_DeSerialize.
Proof.
  unfold MessageData_DeSerialize, MessageData_DeSerializeStorage.
  eapply Behaves_bind; [apply (Behaves_type E)|]. intros s t [-> [Ht HV]]. parse_fields.
  eapply Behaves_bind; [apply Behaves_get_slice|]. intros ? ? _. parse_fields.
  intros [Et|Et]; rewrite <-Et in *; hnf; cbn; split_and!; auto; [left|right]; by split_and!.
Qed.

Lemma Ack_parsed E : Behaves E (fun _ => Ack_ok) Ack_DeSerialize.
Proof. unfold Ack_DeSerialize. parse_fields. by split_and!. Qed.

Lemma Ack_consumes : Consumes Ack_DeSerialize.
Proof.
  unfold Ack_DeSerialize. eapply (Consumes_bind never); [apply Behaves_type|apply Consumes_enum|].
  intros ? ? [_ ?]. instantiate (1 := fun _ _ => True). parse_fields. done.
Qed.

Lemma MessageDataAck_parsed E :
  Behaves E (fun s m => MessageType.mDataAck = ReadMessageType s -> MessageDataAck_ok m)
    MessageDataAck_DeSerialize.
Proof.
  unfold MessageDataAck_DeSerialize. eapply Behaves_bind; [apply Behaves_base|]. intros s b Hb.
  eapply Behaves_bind; [apply (Behaves_need _ (fits 32)); apply _|]. cbv beta. intros _ n Hn.
  eapply Behaves_bind; [apply (Behaves_repeat E Ack_ok); [apply Ack_parsed|apply Ack_consumes|apply Hn]|].
  intros _ acks [Ha Hl]. apply Behaves_ret. intros _ Et. unfold base_parsed in Hb. rewrite <-Et in Hb.
  split_and!; [done|done|cbn [acks_]; by rewrite Hl].
Qed.

Lemma MessageDeliver_parsed :
  Behaves seqno_assertion (fun s m => MessageDeliver_ok (ReadMessageType s) m) MessageDeliver_DeSerialize.
Proof.
  unfold MessageDeliver_DeSerialize. parse_fields. cbv zeta. case_bool.
  - apply Behaves_ret. intros _. split_and!; try done. by apply wrap_fits.
  - intros ?. split; [reflexivity|done].
Qed.

Lemma Message_DeSerialize_consumes : Consumes Message_DeSerialize.
Proof.
  eapply (Consumes_bind never _ (fun _ _ => True)); [apply Behaves_type|apply Consumes_enum|].
  intros ? ? _. parse_fields. done.
Qed.

Lemma MessageDeliver_consumes : Consumes MessageDeliver_DeSerialize.
Proof.
  eapply (Consumes_bind seqno_assertion _ (fun _ _ => True));
    [apply Behaves_base|apply Message_DeSerialize_consumes|].
  intros ? ? _. parse_fields. cbv zeta. case_bool; [by apply Behaves_ret|].
  intros ?. split; [reflexivity|done].
Qed.

Lemma MessageDeliverGap_parsed :
  Behaves seqno_assertion (fun s m => MessageType.mDeliverGap = ReadMessageType s -> MessageDeliverGap_ok m)
    MessageDeliverGap_DeSerialize.
Proof.
  unfold MessageDeliverGap_DeSerialize. eapply Behaves_bind; [apply MessageDeliver_parsed|]. cbv beta. intros s d Hd.
  parse_fields. intros Et. rewrite <-Et in Hd. by split_and!.
Qed.

Lemma MessageDeliverData_parsed :
  Behaves seqno_assertion (fun s m => MessageDeliverData_fields_ok (ReadMessageType s) m)
    MessageDeliverData_DeSerialize.
Proof.
  unfold MessageDeliverData_DeSerialize. eapply Behaves_bind; [apply MessageDeliver_parsed|]. cbv beta. intros s d Hd.
  parse_fields. by split_and!.
Qed.

Lemma MessageDeliverData_consumes : Consumes MessageDeliverData_DeSerialize.
Proof.
  eapply (Consumes_bind _ _ (fun _ _ => True)); [apply MessageDeliver_parsed|apply MessageDeliver_consumes|].
  intros ? ? _. parse_fields. done.
Qed.

Lemma MessageDeliverBatch_parsed :
  Behaves batch_failure (fun s m => MessageType.mDeliverBatch = ReadMessageType s -> MessageDeliverBatch_ok m)
    MessageDeliverBatch_DeSerialize.
Proof.
  unfold MessageDeliverBatch_DeSerialize. eapply Behaves_bind; [apply Behaves_base|]. intros s b Hb.
  eapply Behaves_bind; [apply (Behaves_need _ (fits 64)); apply _|]. cbv beta. intros _ n Hn. case_bool.
  { intros ?. split; [reflexivity|]. by right. }
  eapply Behaves_bind.
  - apply (Behaves_repeat batch_failure element_ok); [|apply MessageDeliverData_consumes|apply Hn].
    eapply Behaves_mono; [..|apply MessageDeliverData_parsed]; [intros ?; by left|]. intros s' m Hm. by exists (ReadMessageType s').
  - intros _ ms [Ha Hl]. apply Behaves_ret. intros _ Et. unfold base_parsed in Hb. rewrite <-Et in Hb.
    split_and!; [done|done|]. cbn [messages_]. lia.
Qed.

(** The loop over the healthy streams stops because the reader does, not for
    lack of fuel. *)
Lemma Streams_loop_stops fuel acc s : (length s <= fuel)%nat ->
  GetVarint32 (snd (Streams_loop fuel acc s)) = (None, snd (Streams_loop fuel acc s)).
Proof.
  revert acc s. induction fuel as [|fuel IH]; intros acc s Hf; cbn [Streams_loop].
  { destruct s; [done|simpl in Hf; lia]. }
  destruct (GetVarint32 s) as [[x|] s'] eqn:E; cbn [snd].
  - apply IH. revert E. unfold GetVarint32. rewrite GetVarint32Ptr_fast_path.
    destruct s as [|b s]; [done|]. cbn [length] in Hf. unfold GetVarint32PtrFallback. cbn [GetVarint_loop].
    change (0 <=? 28) with true. cbv iota zeta. destruct (negb _).
    + destruct (GetVarint_loop _ _ _ _ _) as [[v q]|] eqn:E; intros; simplify_eq.
      apply GetVarint_loop_suffix, suffix_length in E. lia.
    + intros; simplify_eq. lia.
  - revert E. unfold GetVarint32. destruct (GetVarint32Ptr s) as [[v q]|] eqn:E; intros; simplify_eq.
    by rewrite E.
Qed.

Lemma Streams_loop_suffix fuel acc s : snd (Streams_loop fuel acc s) `suffix_of` s.
Proof.
  revert acc s. induction fuel as [|fuel IH]; intros acc s; cbn [Streams_loop]; [reflexivity|].
  pose proof (forward (get:=GetVarint32) s) as Hs. destruct (GetVarint32 s) as [[x|] s']; [|done].
  etrans; [apply IH|done].
Qed.

Lemma MessageHeartbeat_parsed E : Behaves E (fun _ _ => True) MessageHeartbeat_DeSerialize.
Proof.
  eapply Behaves_bind; [apply Behaves_base|]. intros s b Hb r. destruct (_ =? _)%nat; [by split|].
  unfold need. pose proof (forward (get:=GetFixed64) r) as Hs.
  destruct (GetFixed64 r) as [[x|] r']; [|done]. pose proof (Streams_loop_suffix (length r') ∅ r') as Hs'.
  destruct (Streams_loop _ _ _) as [hs r'']. split; [by etrans|done].
Qed.

(** ** Properties of the dispatch *)

(** What a message is parsed back as: a data message also remembers the slice
    that goes to storage. *)
Definition received (m : Message) : Message :=
  match m with
  | Data d => Data (with_storage (MessageData_SerializeInternal d []) d)
  | _ => m
  end.

#[local] Transparent wire PutFixedEnum8.
Lemma ReadMessageType_wire t rest : fits 8 t -> ReadMessageType (wire PutFixedEnum8 t ++ rest) = t.
Proof.
  intros Ht. unfold wire, PutFixedEnum8, PutFixed8. rewrite (wrap_small 8 t) by done. cbn.
  by apply b2z_z2b_small.
Qed.
#[local] Opaque wire PutFixedEnum8.

Lemma deliver_to_parsed {A} (w : A -> Message) d s x rest : d s = (inr x, rest) -> deliver_to w d s = inr (Some (w x)).
Proof. intros H. unfold deliver_to. by rewrite H. Qed.

Definition base_of (m : Message) : MessageBase :=
  match m with
  | Ping m => ping_base m
  | Data m => data_base m
  | DataAck m => dataack_base m
  | Gap m => gap_base m
  | Goodbye m => goodbye_base m
  | Subscribe m => sub_base m
  | Unsubscribe m => unsub_base m
  | DeliverGap m => deliver_base (dgap_deliver m)
  | DeliverData m => deliver_base (ddata_deliver m)
  | FindTailSeqno m => find_base m
  | TailSeqno m => tail_base m
  | DeliverBatch m => batch_base m
  | Heartbeat m => heartbeat_base m
  end.

(** Every writer starts with the message's type. *)
Lemma Serialize_type m bytes : Message_ok m -> Serialize m [] = Ok bytes ->
  exists rest, bytes = wire PutFixedEnum8 (type_ (base_of m)) ++ rest.
Proof.
  destruct m as [m|m|m|m|m|m|m|m|m|m|m|m|m]; cbn [Message_ok Serialize base_of]; intros Hok HS.
  8: { unfold MessageDeliverGap_Serialize in HS. rewrite (MessageDeliver_Serialize_wire _ _ _ (proj1 Hok)) in HS.
       injection HS as <-. unfold deliver_wire. wire_fields. by eauto. }
  8: { rewrite MessageDeliverData_Serialize_wire in HS by (by exists MessageType.mDeliverData).
       injection HS as <-. unfold ddata_wire, deliver_wire. wire_fields. by eauto. }
  10: { unfold MessageDeliverBatch_Serialize, Message_Serialize in HS. cbv zeta in HS.
        rewrite MessagesVector_Serialize_wire in HS by apply Hok. injection HS as <-. wire_fields. by eauto. }
  all: injection HS as <-; unfold MessagePing_Serialize, MessageData_Serialize, MessageDataAck_Serialize,
    MessageGap_Serialize, MessageGoodbye_Serialize, MessageSubscribe_Serialize, MessageUnsubscribe_Serialize,
    MessageFindTailSeqno_Serialize, MessageTailSeqno_Serialize, MessageHeartbeat_Serialize,
    MessageHeartbeat_Serialize_in, Message_Serialize; cbv zeta.
  all: rewrite ?Ack_Serialize_wire, ?PutVarint32_fold; try rewrite MessageData_SerializeInternal_appends.
  all: wire_fields; by eauto.
Qed.

Lemma Message_ok_base m : Message_ok m -> exists t, base_ok t (base_of m).
Proof.
  destruct m as [m|m|m|m|m|m|m|m|m|m|m|m|m]; cbn [Message_ok base_of]; intros Hok.
  2: destruct Hok as [[H|H] _]; by eauto.
  all: eexists; apply Hok.
Qed.

(** ... and the dispatch follows it. *)
Lemma ReadMessageType_Serialize m bytes : Message_ok m -> Serialize m [] = Ok bytes ->
  ReadMessageType bytes = type_ (base_of m).
Proof.
  intros Hok HS. destruct (Serialize_type m bytes Hok HS) as [rest ->]. apply ReadMessageType_wire.
  destruct (Message_ok_base m Hok) as (t & -> & ? & ? & ?). done.
Qed.

Lemma Serialize_total m : Message_ok m -> exists bytes, Serialize m [] = Ok bytes.
Proof.
  destruct m as [m|m|m|m|m|m|m|m|m|m|m|m|m]; cbn [Message_ok Serialize]; intros Hok; try by eauto.
  - destruct (MessageDeliverGap_roundtrip m [] Hok) as (b & Hb & _); eauto.
  - rewrite MessageDeliverData_Serialize_wire by (by exists MessageType.mDeliverData). eauto.
  - destruct (MessageDeliverBatch_roundtrip m [] Hok) as (b & Hb & _); eauto.
Qed.

Lemma Serialize_received m : Message_ok m ->
  exists bytes, Serialize m [] = Ok bytes /\ CreateNewInstance bytes = inr (Some (received m)).
Proof.
  intros Hok. destruct (Serialize_total m Hok) as [bytes HS]. exists bytes. split; [done|].
  pose proof (ReadMessageType_Serialize m bytes Hok HS) as Ht. unfold CreateNewInstance. rewrite Ht.
  destruct m as [m|m|m|m|m|m|m|m|m|m|m|m|m]; cbn [Message_ok Serialize base_of received] in *;
    try (injection HS as <-).
  2: { pose proof Hok as [[(-> & _)|(-> & _)] _]; cbn; eapply deliver_to_parsed;
         rewrite <-(app_nil_r (MessageData_Serialize _ _)), MessageData_roundtrip by done; by rewrite app_nil_r. }
  all: pose proof Hok as Hb.
  7: { pose proof Hok as [[(-> & _) _] _]. cbn. destruct (MessageDeliverGap_roundtrip m [] Hok) as (b & Hb' & HD).
       rewrite app_nil_r in HD. rewrite HS in Hb'. injection Hb' as <-. exact (deliver_to_parsed _ _ _ _ _ HD). }
  7: { pose proof Hok as [[(-> & _) _] _]. cbn.
       assert (element_ok m) as He by (by exists MessageType.mDeliverData).
       rewrite MessageDeliverData_Serialize_wire in HS by done. simplify_eq. eapply deliver_to_parsed.
       change ([] ++ ddata_wire m) with (ddata_wire m); rewrite <-(app_nil_r (ddata_wire m)). by apply MessageDeliverData_wire_roundtrip. }
  9: { pose proof Hok as [(-> & _) _]. cbn. destruct (MessageDeliverBatch_roundtrip m [] Hok) as (b & Hb' & HD).
       rewrite app_nil_r in HD. rewrite HS in Hb'. injection Hb' as <-. exact (deliver_to_parsed _ _ _ _ _ HD). }
  all: destruct Hb as [(-> & _) _]; cbn; eapply deliver_to_parsed.
  9: by apply MessageHeartbeat_roundtrip_in.
  all: rewrite <-(app_nil_r (_ _ [])).
  all: eauto using MessagePing_roundtrip, MessageDataAck_roundtrip, MessageGap_roundtrip, MessageGoodbye_roundtrip,
    MessageSubscribe_roundtrip, MessageUnsubscribe_roundtrip, MessageFindTailSeqno_roundtrip,
    MessageTailSeqno_roundtrip.
Qed.

Definition stop_ok (t : Z) (e : derr) : Prop :=
  match e with
  | InvalidArgument _ => False
  | Assertion w => w = "seqno_ >= seqno_prev_"%string /\
      (t = MessageType.mDeliverGap \/ t = MessageType.mDeliverData \/ t = MessageType.mDeliverBatch)
  | Exception w => w = "std::length_error"%string /\ t = MessageType.mDeliverBatch
  end.

Definition parse_ok (t : Z) (r : derr + option Message) : Prop :=
  match r with
  | inr (Some m) => t <> MessageType.mHeartbeat -> Message_ok m
  | inr None => True
  | inl e => stop_ok t e
  end.

Lemma deliver_to_behaves {A} E (P : slice -> A -> Prop) (w : A -> Message) d s t : Behaves E P d ->
  (forall e, E e -> stop_ok t e) -> (forall x, P s x -> t <> MessageType.mHeartbeat -> Message_ok (w x)) ->
  parse_ok t (deliver_to w d s).
Proof.
  intros Hd HE HP. unfold deliver_to. destruct (Hd s) as [_ H]. destruct (fst (d s)) as [[]|x]; cbn [parse_ok] in *; auto.

Qed.

Lemma never_stops t e : never e -> stop_ok t e.
Proof. done. Qed.

Lemma CreateNewInstance_parse_ok s : parse_ok (ReadMessageType s) (CreateNewInstance s).
Proof.
  unfold CreateNewInstance. set (t := ReadMessageType s). cbv zeta.
  repeat match goal with
  | |- parse_ok _ (if ?a =? ?b then _ else _) => destruct (Z.eqb_spec a b) as [Et|]; [rewrite Et|]
  end; try done.
  1: eapply deliver_to_behaves; [apply MessagePing_parsed|apply never_stops|intros x Hx _; by apply Hx].
  destruct ((t =? MessageType.mPublish) || (t =? MessageType.mDeliver)) eqn:Et.
  { apply orb_true_iff in Et as [Et|Et]; apply Z.eqb_eq in Et; rewrite Et;
      (eapply deliver_to_behaves; [apply MessageData_parsed|apply never_stops|intros x Hx _; apply Hx; auto]). }
  clear Et.
  repeat match goal with
  | |- parse_ok _ (if ?a =? ?b then _ else _) => destruct (Z.eqb_spec a b) as [Et|]; [rewrite Et|]
  end; try done.
  all: eapply deliver_to_behaves; [eauto using MessageDataAck_parsed, MessageGap_parsed, MessageGoodbye_parsed,
    MessageSubscribe_parsed, MessageUnsubscribe_parsed, MessageFindTailSeqno_parsed, MessageTailSeqno_parsed,
    MessageDeliverGap_parsed, MessageDeliverData_parsed, MessageDeliverBatch_parsed, MessageHeartbeat_parsed| |].
  all: try apply never_stops; try (intros x Hx _; by apply Hx).
  - intros e ->. cbn. auto.
  - intros e ->. cbn. auto.
  - cbn. intros x. fold t. rewrite Et. done.
  - intros e [-> | ->]; cbn; auto.
  - done.
Qed.

(** ** Properties *)

(** C36: every well-formed message is written without tripping an assertion, and
    parsing the bytes gives back the message, of the same class and with the
    same fields (a data message also gets its storage slice).  In particular
    [Message::Copy] copies. *)
Theorem Copy_correct m : Message_ok m ->
  exists bytes, Serialize m [] = Ok bytes /\ CreateNewInstance bytes = inr (Some (received m)) /\
    Copy m = Ok (inr (Some (received m))).
Proof.
  intros Hok. destruct (Serialize_received m Hok) as (bytes & HS & HC). exists bytes.
  split_and!; [done|done|]. unfold Copy. rewrite HS. cbn [obind]. by rewrite HC.
Qed.

Definition sample_deliver (t prev seqno : Z) : MessageDeliver :=
  {| deliver_base := {| type_ := t; tenantid_ := 7 |};
     deliver_sub_id_ := 300; deliver_seqno_prev_ := prev; deliver_seqno_ := seqno |}.

Definition sample_batch : Message :=
  DeliverBatch {| batch_base := {| type_ := MessageType.mDeliverBatch; tenantid_ := 7 |};
    messages_ := [{| ddata_deliver := sample_deliver MessageType.mDeliverData 10 2000;
                     message_id_ := repeat Byte.x01 16; ddata_payload_ := bytes_of "payload" |};
                  {| ddata_deliver := sample_deliver MessageType.mDeliverData 2000 2001;
                     message_id_ := repeat Byte.x02 16; ddata_payload_ := [] |}] |}.

Lemma Copy_correct_witness :
  exists bytes, Serialize sample_batch [] = Ok bytes /\
    CreateNewInstance bytes = inr (Some sample_batch) /\ Copy sample_batch = Ok (inr (Some sample_batch)).
Proof.
  apply (Copy_correct sample_batch). cbn. split_and!; [by split_and!| |done].
  repeat apply Forall_cons_2; [exists MessageType.mDeliverData|exists MessageType.mDeliverData|constructor];
    by split_and!.
Defined.

(** C38: on every input whatsoever the parser either returns (a message or
    [nullptr]), or stops in one of two known ways: the assertion of
    [MessageDeliver::DeSerialize] on a delivery message, or the
    [std::length_error] of [reserve] on a batch.  In particular the counted
    loops and the loop over healthy streams end. *)
Theorem CreateNewInstance_stops s e : CreateNewInstance s = inl e ->
  (e = Assertion "seqno_ >= seqno_prev_" /\
   (ReadMessageType s = MessageType.mDeliverGap \/ ReadMessageType s = MessageType.mDeliverData \/
    ReadMessageType s = MessageType.mDeliverBatch)) \/
  (e = Exception "std::length_error" /\ ReadMessageType s = MessageType.mDeliverBatch).
Proof.
  intros H. pose proof (CreateNewInstance_parse_ok s) as Hp. rewrite H in Hp. cbn in Hp.
  destruct e; [done| |]; destruct Hp as [-> ?]; auto.
Qed.

(** A delivery message whose second varint makes the sequence number wrap. *)
Definition overflowing_gap : slice :=
  wire PutFixedEnum8 MessageType.mDeliverGap ++ wire PutFixed16 7 ++ wire EncodeSubscriptionID 1 ++
  wire PutVarint64 (2 ^ 64 - 1) ++ wire PutVarint64 1 ++ wire PutFixedEnum8 kBenign.

Lemma CreateNewInstance_stops_witness :
  CreateNewInstance overflowing_gap = inl (Assertion "seqno_ >= seqno_prev_") /\
  ((Assertion "seqno_ >= seqno_prev_" = Assertion "seqno_ >= seqno_prev_" /\
   (ReadMessageType overflowing_gap = MessageType.mDeliverGap \/
    ReadMessageType overflowing_gap = MessageType.mDeliverData \/
    ReadMessageType overflowing_gap = MessageType.mDeliverBatch)) \/
  (Assertion "seqno_ >= seqno_prev_" = Exception "std::length_error" /\
   ReadMessageType overflowing_gap = MessageType.mDeliverBatch)).
Proof.
  assert (CreateNewInstance overflowing_gap = inl (Assertion "seqno_ >= seqno_prev_")) as H by (vm_compute; reflexivity).
  split; [exact H|]. exact (CreateNewInstance_stops _ _ H).
Defined.

(** C37: a message received from the network (heartbeats apart) is well formed,
    so it can be written again without tripping an assertion and is received
    the same: forwarding is lossless and parsing is idempotent. *)
Theorem CreateNewInstance_forward s m : CreateNewInstance s = inr (Some m) ->
  ReadMessageType s <> MessageType.mHeartbeat ->
  exists bytes, Serialize m [] = Ok bytes /\ CreateNewInstance bytes = inr (Some (received m)).
Proof.
  intros H Ht. pose proof (CreateNewInstance_parse_ok s) as Hp. rewrite H in Hp. cbn in Hp.
  apply Serialize_received. auto.
Qed.

(** A subscribe message with an over-long varint and trailing bytes. *)
Definition sloppy_unsubscribe : slice :=
  map z2b [9; 1; 0; 133; 128; 0; 2; 255; 255].

Lemma CreateNewInstance_forward_witness :
  let m := Unsubscribe {| unsub_base := {| type_ := MessageType.mUnsubscribe; tenantid_ := 1 |};
                          unsub_sub_id_ := 5; reason_ := kInvalid |} in
  CreateNewInstance sloppy_unsubscribe = inr (Some m) /\
  exists bytes, Serialize m [] = Ok bytes /\ CreateNewInstance bytes = inr (Some (received m)).
Proof.
  intros m. assert (CreateNewInstance sloppy_unsubscribe = inr (Some m)) as H by (vm_compute; reflexivity).
  split; [exact H|]. apply (CreateNewInstance_forward _ _ H). discriminate.
Defined.

(** The assertion in [MessageDeliver::DeSerialize] is decided by bytes of
    the wire alone: any delivery whose two varints sum to 2^64 or more stops
    the receiving process. *)
Theorem MessageDeliver_wire_assertion t n id prev diff rest :
  t = MessageType.mDeliverGap \/ t = MessageType.mDeliverData ->
  fits 16 n -> fits 64 id -> fits 64 prev -> fits 64 diff -> 2 ^ 64 <= prev + diff ->
  CreateNewInstance (wire PutFixedEnum8 t ++ wire PutFixed16 n ++ wire EncodeSubscriptionID id ++
    wire PutVarint64 prev ++ wire PutVarint64 diff ++ rest) = inl (Assertion "seqno_ >= seqno_prev_").
Proof.
  intros Ht Hn Hid Hp Hd Hsum.
  assert (fits 8 t /\ ValidateMessageType t = true) as [H8 HV] by (by destruct Ht as [-> | ->]).
  unfold CreateNewInstance. rewrite ReadMessageType_wire by done.
  assert (u64 (prev + diff) < prev) as Hlt.
  { unfold wrap, fits in *. rewrite <-(Z.mod_unique_pos (prev + diff) (2 ^ 64) 1 (prev + diff - 2 ^ 64)); lia. }
  destruct Ht as [-> | ->]; cbn; unfold deliver_to, MessageDeliverGap_DeSerialize, MessageDeliverData_DeSerialize,
    MessageDeliver_DeSerialize, Message_DeSerialize; wire_steps; rewrite (proj2 (Z.leb_gt _ _) Hlt); done.
Qed.

Lemma MessageDeliver_wire_assertion_witness :
  CreateNewInstance overflowing_gap = inl (Assertion "seqno_ >= seqno_prev_").
Proof. apply MessageDeliver_wire_assertion; try done. by left. Defined.

(** A batch is stopped by the length it announces, before any element is
    read: a count above [max_size()] makes [reserve] throw, whatever follows. *)
Theorem MessageDeliverBatch_length_error n len rest : fits 16 n -> fits 64 len -> vector_max_size < len ->
  CreateNewInstance (wire PutFixedEnum8 MessageType.mDeliverBatch ++ wire PutFixed16 n ++
    wire PutVarint64 len ++ rest) = inl (Exception "std::length_error").
Proof.
  intros Hn Hl Hlen. unfold CreateNewInstance. rewrite ReadMessageType_wire by done. cbn.
  unfold deliver_to, MessageDeliverBatch_DeSerialize, Message_DeSerialize. wire_steps.
  by rewrite (proj2 (Z.ltb_lt _ _) Hlen).
Qed.

Lemma MessageDeliverBatch_length_error_witness :
  CreateNewInstance (wire PutFixedEnum8 MessageType.mDeliverBatch ++ wire PutFixed16 7 ++
    wire PutVarint64 (2 ^ 64 - 1) ++ []) = inl (Exception "std::length_error").
Proof. apply MessageDeliverBatch_length_error; done. Defined.
