(* ===== verification/Containers.v ===== *)
(** * Containers

    Models of the containers the control tower keeps its state in:
    [LinkedBase] (src/util/common/linked_map.h), [SubscriptionMap]
    (src/util/subscription_map.h) and [ObservableMap]
    (src/messages/observable_map.h).

    [LinkedBase] is modelled with its two structures, the node list and the
    index from keys to nodes, and shown to implement ordered association lists
    with distinct keys; the clients use the association lists. *)

From S2P Require Import Prelude.

#[local] Open Scope outcome_scope.

(** ** Ordered association lists: what a [LinkedMap] promises *)

Section Assoc.
Context {K V : Type} `{EqDecision K}.
Implicit Types (l : list (K * V)) (k : K) (v : V).

Fixpoint lm_find k l : option V :=
  match l with
  | [] => None
  | (k', v) :: l => if decide (k' = k) then Some v else lm_find k l
  end.

Definition lm_contains k l : bool := bool_decide (is_Some (lm_find k l)).

Definition lm_erase k l : list (K * V) := filter (fun e => fst e <> k) l.

(** An insertion with a key that is present leaves the map as it is. *)
Definition lm_emplace_front k v l : list (K * V) * bool :=
  if lm_contains k l then (l, false) else ((k, v) :: l, true).

Definition lm_emplace_back k v l : list (K * V) * bool :=
  if lm_contains k l then (l, false) else (l ++ [(k, v)], true).

(** [it->second = v] *)
Definition lm_set k v l : list (K * V) :=
  map (fun e => if decide (fst e = k) then (k, v) else e) l.

Definition lm_move_to_front k l : list (K * V) :=
  match lm_find k l with
  | Some v => (k, v) :: lm_erase k l
  | None => l
  end.

Definition lm_move_to_back k l : list (K * V) :=
  match lm_find k l with
  | Some v => lm_erase k l ++ [(k, v)]
  | None => l
  end.

(** A place of the list: an end, or before the entry with a key, which is the
    back if there is none. *)
Inductive place := Begin | End | At (k : K).

Fixpoint lm_insert_before k (e : K * V) l : list (K * V) :=
  match l with
  | [] => [e]
  | e' :: l' => if decide (fst e' = k) then e :: l else e' :: lm_insert_before k e l'
  end.

Definition lm_insert_at (p : place) (e : K * V) l : list (K * V) :=
  match p with
  | Begin => e :: l
  | End => l ++ [e]
  | At k => lm_insert_before k e l
  end.

Definition lm_move k v (p : place) l : list (K * V) :=
  match p with
  | At k' => if decide (k' = k) then l else lm_insert_before k' (k, v) (lm_erase k l)
  | _ => lm_insert_at p (k, v) (lm_erase k l)
  end.

(** The key after a key. *)
Fixpoint lm_after k l : option K :=
  match l with
  | [] => None
  | (k', _) :: l => if decide (k' = k) then fst <$> head l else lm_after k l
  end.

(** What the clients of a [LinkedMap] can do: an iterator comes from [find], and
    is known by its key. *)
Inductive lm_op :=
| OpEmplace (p : place) (k : K) (v : V)
| OpErase (k : K)
| OpEraseAt (k : K)
| OpPopFront
| OpPopBack
| OpClear
| OpMoveTo (k : K) (p : place)
| OpAssign (k : K) (v : V)
| OpFind (k : K)
| OpContains (k : K)
| OpFront
| OpBack
| OpSize.

Inductive lm_result :=
| RNone
| RBool (b : bool)
| RIter (k : option K)
| RInserted (k : option K) (b : bool)
| RElement (e : K * V)
| RSize (n : nat).

(** [None]: the operation is used on an empty map or with the end iterator where
    it must not be. *)
Definition lm_step l (o : lm_op) : option (list (K * V) * lm_result) :=
  match o with
  | OpEmplace p k v => Some (if lm_contains k l then l else lm_insert_at p (k, v) l, RInserted (Some k) (negb (lm_contains k l)))
  | OpErase k => Some (lm_erase k l, RBool (lm_contains k l))
  | OpEraseAt k => match lm_find k l with Some _ => Some (lm_erase k l, RIter (lm_after k l)) | None => None end
  | OpPopFront => match l with [] => None | _ :: l => Some (l, RNone) end
  | OpPopBack => match l with [] => None | _ => Some (removelast l, RNone) end
  | OpClear => Some ([], RNone)
  | OpMoveTo k p => match lm_find k l with Some v => Some (lm_move k v p l, RNone) | None => None end
  | OpAssign k v => match lm_find k l with Some _ => Some (lm_set k v l, RNone) | None => None end
  | OpFind k => Some (l, RIter (if lm_contains k l then Some k else None))
  | OpContains k => Some (l, RBool (lm_contains k l))
  | OpFront => match head l with Some e => Some (l, RElement e) | None => None end
  | OpBack => match last l with Some e => Some (l, RElement e) | None => None end
  | OpSize => Some (l, RSize (length l))
  end.

Definition lm_wf l : Prop := NoDup (map fst l).

Lemma lm_find_None k l : lm_find k l = None <-> k ∉ map fst l.
Proof.
  induction l as [|[k' v] l IH]; simpl; [set_solver|]. case_decide; [set_solver|].
  rewrite IH. set_solver.
Qed.

Lemma lm_find_in k l v : lm_find k l = Some v -> (k, v) ∈ l.
Proof.
  induction l as [|[k' v'] l IH]; simpl; [done|]. case_decide; intros; simplify_eq; set_solver.
Qed.

Lemma lm_find_elem k l v : lm_wf l -> (k, v) ∈ l -> lm_find k l = Some v.
Proof.
  unfold lm_wf. induction l as [|[k' v'] l IH]; simpl; [set_solver|].
  rewrite NoDup_cons, elem_of_cons. intros [Hn Hl] [?|Hin]; simplify_eq/=.
  - by rewrite decide_True.
  - rewrite decide_False; [by apply IH|]. intros ->. apply Hn. apply list_elem_of_fmap. by exists (k, v).
Qed.

Lemma lm_contains_true k l : lm_contains k l = true <-> k ∈ map fst l.
Proof.
  unfold lm_contains. rewrite bool_decide_eq_true, <-not_eq_None_Some, lm_find_None.
  destruct (decide (k ∈ map fst l)); tauto.
Qed.

Lemma lm_contains_false k l : lm_contains k l = false <-> k ∉ map fst l.
Proof. rewrite <-lm_contains_true. by destruct (lm_contains k l). Qed.

Lemma lm_find_app k l1 l2 :
  lm_find k (l1 ++ l2) = match lm_find k l1 with Some v => Some v | None => lm_find k l2 end.
Proof. induction l1 as [|[k' v] l1 IH]; simpl; [done|]. by case_decide. Qed.

Lemma lm_find_erase k k' l : lm_find k (lm_erase k' l) = if decide (k = k') then None else lm_find k l.
Proof.
  unfold lm_erase. induction l as [|[k2 v] l IH]; simpl; [by case_decide|].
  rewrite filter_cons. simpl. repeat case_decide; simpl; repeat case_decide; subst; try done; congruence.
Qed.

Lemma lm_find_set k k' v l :
  lm_find k (lm_set k' v l) = if decide (k = k') then const v <$> lm_find k l else lm_find k l.
Proof.
  unfold lm_set. induction l as [|[k2 v2] l IH]; simpl; [by case_decide|].
  repeat case_decide; simpl in *; repeat case_decide; subst; try done; congruence.
Qed.

Lemma lm_find_move_front k k' l : lm_find k (lm_move_to_front k' l) = lm_find k l.
Proof.
  unfold lm_move_to_front. destruct (lm_find k' l) eqn:E; [|done]. simpl.
  case_decide; subst; [done|]. rewrite lm_find_erase. by rewrite decide_False.
Qed.

Lemma lm_find_move_back k k' l : lm_find k (lm_move_to_back k' l) = lm_find k l.
Proof.
  unfold lm_move_to_back. destruct (lm_find k' l) eqn:E; [|done].
  rewrite lm_find_app, lm_find_erase. simpl. repeat case_decide; subst; try done.
  by destruct (lm_find k l).
Qed.

Lemma lm_keys_erase k l : map fst (lm_erase k l) = filter (fun k' => k' <> k) (map fst l).
Proof.
  unfold lm_erase. induction l as [|[k' v] l IH]; [done|]. cbn [map]. rewrite !filter_cons. cbn [fst].
  case_decide; cbn [map fst]; by rewrite IH.
Qed.

Lemma lm_keys_set k v l : map fst (lm_set k v l) = map fst l.
Proof.
  unfold lm_set. rewrite map_map. apply map_ext. intros [k' v']. simpl. case_decide; by subst.
Qed.

Lemma lm_wf_erase k l : lm_wf l -> lm_wf (lm_erase k l).
Proof. unfold lm_wf. rewrite lm_keys_erase. apply NoDup_filter. Qed.

Lemma lm_wf_set k v l : lm_wf l -> lm_wf (lm_set k v l).
Proof. unfold lm_wf. by rewrite lm_keys_set. Qed.

Lemma lm_wf_emplace_front k v l : lm_wf l -> lm_wf (fst (lm_emplace_front k v l)).
Proof.
  intros Hl. unfold lm_emplace_front. destruct (lm_contains k l) eqn:E; [done|].
  apply lm_contains_false in E. by apply NoDup_cons.
Qed.

Lemma lm_wf_emplace_back k v l : lm_wf l -> lm_wf (fst (lm_emplace_back k v l)).
Proof.
  intros Hl. unfold lm_emplace_back. destruct (lm_contains k l) eqn:E; [done|].
  apply lm_contains_false in E. unfold lm_wf. simpl. rewrite map_app. apply NoDup_app.
  split_and!; [done|set_solver|apply NoDup_singleton].
Qed.

Lemma lm_wf_move_front k l : lm_wf l -> lm_wf (lm_move_to_front k l).
Proof.
  intros Hl. unfold lm_move_to_front. destruct (lm_find k l); [|done]. apply NoDup_cons.
  split; [|by apply lm_wf_erase]. rewrite lm_keys_erase. intros [? _]%list_elem_of_filter. done.
Qed.

Lemma lm_wf_move_back k l : lm_wf l -> lm_wf (lm_move_to_back k l).
Proof.
  intros Hl. unfold lm_move_to_back. destruct (lm_find k l); [|done]. unfold lm_wf.
  rewrite map_app. apply NoDup_app. split_and!; [by apply lm_wf_erase| |apply NoDup_singleton].
  rewrite lm_keys_erase. intros x [? _]%list_elem_of_filter. set_solver.
Qed.
End Assoc.

#[export] Hint Resolve lm_wf_erase lm_wf_set lm_wf_emplace_front lm_wf_emplace_back lm_wf_move_front
  lm_wf_move_back : rs.

(** ** [LinkedBase]: a list of nodes and an index into it *)

Module Linked.
Section Linked.
Context {K V : Type} `{Countable K}.

(** A node has an address, which is what a list iterator holds.  The index of
    the code is keyed by pointers to the keys inside the nodes and hashes and
    compares what they point to ([KeyPtrHash], [KeyPtrEqual]), so it is a map
    from keys here; [erase(key)] frees the node before it erases the index
    entry by its iterator, for which the hash table uses the hash code it has
    stored and no key.  An iterator is an address, [None] the end. *)
#[local] Abbreviation node := (positive * (K * V))%type.
#[local] Abbreviation iterator := (option positive).

Record LinkedBase := {
  list_ : list node;
  index_ : gmap K positive;
  next_address : positive
}.

Definition empty_linked : LinkedBase := {| list_ := []; index_ := ∅; next_address := 1 |}.

Definition set_list (l : list node) (m : LinkedBase) : LinkedBase :=
  {| list_ := l; index_ := index_ m; next_address := next_address m |}.

(** [std::list::emplace(pos, ...)]; [None] is [end()]. *)
Fixpoint insert_before (pos : option positive) (n : node) (l : list node) : list node :=
  match l with
  | [] => [n]
  | n' :: l' =>
      if decide (pos = Some (fst n')) then n :: l else n' :: insert_before pos n l'
  end.

(** [std::list::erase(it)] *)
Definition remove_node (it : positive) (l : list node) : list node :=
  filter (fun n => fst n <> it) l.

(** The node an iterator points at. *)
Fixpoint node_at (it : positive) (l : list node) : option (K * V) :=
  match l with
  | [] => None
  | n :: l => if decide (fst n = it) then Some (snd n) else node_at it l
  end.

Definition deref (it : iterator) (l : list node) : outcome node :=
  match it with
  | Some a => match node_at a l with
              | Some e => Ok (a, e)
              | None => Abort "use of an invalid iterator"
              end
  | None => Abort "dereference of end()"
  end.

(** The iterator after a node. *)
Fixpoint next_of (it : positive) (l : list node) : iterator :=
  match l with
  | [] => None
  | n :: l => if decide (fst n = it) then fst <$> head l else next_of it l
  end.

Definition begin (m : LinkedBase) : iterator := fst <$> head (list_ m).

Definition size (m : LinkedBase) : nat := length (list_ m).

Definition front (m : LinkedBase) : outcome (K * V) :=
  match list_ m with
  | [] => Abort "front of an empty list"
  | n :: _ => Ok (snd n)
  end.

Definition back (m : LinkedBase) : outcome (K * V) :=
  match last (list_ m) with
  | None => Abort "back of an empty list"
  | Some n => Ok (snd n)
  end.

Definition find (m : LinkedBase) (key : K) : iterator := index_ m !! key.

Definition contains (m : LinkedBase) (key : K) : bool := bool_decide (is_Some (index_ m !! key)).

Definition clear (m : LinkedBase) : LinkedBase :=
  {| list_ := []; index_ := ∅; next_address := next_address m |}.

(** The node is linked into the list first; if its key turns out to be
    indexed already, it is unlinked again. *)
Definition emplace (m : LinkedBase) (pos : iterator) (key : K) (value : V)
    : LinkedBase * (positive * bool) :=
  let it := next_address m in
  let m := {| list_ := insert_before pos (it, (key, value)) (list_ m);
              index_ := index_ m; next_address := Pos.succ it |} in
  match index_ m !! key with
  | None => ({| list_ := list_ m; index_ := <[key := it]> (index_ m);
                next_address := next_address m |}, (it, true))
  | Some existing => (set_list (remove_node it (list_ m)) m, (existing, false))
  end.

Definition emplace_front (m : LinkedBase) := emplace m (begin m).
Definition emplace_back (m : LinkedBase) := emplace m None.

(** [erase(iterator)] dereferences the iterator to find its key. *)
Definition erase_at (m : LinkedBase) (pos : iterator) : outcome (LinkedBase * iterator) :=
  n <~ deref pos (list_ m) ;;
  Ok ({| list_ := remove_node (fst n) (list_ m); index_ := delete (fst (snd n)) (index_ m);
         next_address := next_address m |}, next_of (fst n) (list_ m)).

Definition erase (m : LinkedBase) (key : K) : LinkedBase * bool :=
  match index_ m !! key with
  | None => (m, false)
  | Some it =>
      ({| list_ := remove_node it (list_ m); index_ := delete key (index_ m);
          next_address := next_address m |}, true)
  end.

Definition pop_front (m : LinkedBase) : outcome LinkedBase :=
  match list_ m with
  | [] => Abort "!empty()"
  | n :: _ => r <~ erase_at m (Some (fst n)) ;; Ok (fst r)
  end.

Definition pop_back (m : LinkedBase) : outcome LinkedBase :=
  match last (list_ m) with
  | None => Abort "!empty()"
  | Some n => r <~ erase_at m (Some (fst n)) ;; Ok (fst r)
  end.

(** Nodes come from one allocator, so both maps go on above the addresses of
    either. *)
Definition swap (m other : LinkedBase) : LinkedBase * LinkedBase :=
  let next := Pos.max (next_address m) (next_address other) in
  ({| list_ := list_ other; index_ := index_ other; next_address := next |},
   {| list_ := list_ m; index_ := index_ m; next_address := next |}).

(** [list_.splice(pos, list_, it)]; splicing a node before itself does
    nothing. *)
Definition move_to (m : LinkedBase) (it pos : iterator) : outcome LinkedBase :=
  n <~ deref it (list_ m) ;;
  Ok (if decide (pos = it) then m else set_list (insert_before pos n (remove_node (fst n) (list_ m))) m).

Definition move_to_front (m : LinkedBase) (it : iterator) : outcome LinkedBase := move_to m it (begin m).
Definition move_to_back (m : LinkedBase) (it : iterator) : outcome LinkedBase := move_to m it None.

(** [it->second = v] *)
Definition assign (m : LinkedBase) (it : iterator) (v : V) : outcome LinkedBase :=
  n <~ deref it (list_ m) ;;
  Ok (set_list (map (fun x => if decide (fst x = fst n) then (fst x, (fst (snd x), v)) else x) (list_ m)) m).

(** An operation of a client.  Results are shown with keys for iterators. *)
Definition place_of (m : LinkedBase) (p : place (K:=K)) : iterator :=
  match p with
  | Begin => begin m
  | End => None
  | At k => find m k
  end.

Definition key_of (m : LinkedBase) (it : iterator) : option K := a ← it; fst <$> node_at a (list_ m).

Definition linked_step (m : LinkedBase) (o : lm_op (K:=K) (V:=V)) : outcome (LinkedBase * lm_result) :=
  match o with
  | OpEmplace p k v =>
      let '(m, (it, b)) := match p with
                           | Begin => emplace_front m k v
                           | End => emplace_back m k v
                           | At k' => emplace m (find m k') k v
                           end in
      Ok (m, RInserted (key_of m (Some it)) b)
  | OpErase k => let '(m, b) := erase m k in Ok (m, RBool b)
  | OpEraseAt k => r <~ erase_at m (find m k) ;; Ok (fst r, RIter (key_of (fst r) (snd r)))
  | OpPopFront => m <~ pop_front m ;; Ok (m, RNone)
  | OpPopBack => m <~ pop_back m ;; Ok (m, RNone)
  | OpClear => Ok (clear m, RNone)
  | OpMoveTo k p =>
      m <~ match p with
           | Begin => move_to_front m (find m k)
           | End => move_to_back m (find m k)
           | At k' => move_to m (find m k) (find m k')
           end ;;
      Ok (m, RNone)
  | OpAssign k v => m <~ assign m (find m k) v ;; Ok (m, RNone)
  | OpFind k => Ok (m, RIter (key_of m (find m k)))
  | OpContains k => Ok (m, RBool (contains m k))
  | OpFront => e <~ front m ;; Ok (m, RElement e)
  | OpBack => e <~ back m ;; Ok (m, RElement e)
  | OpSize => Ok (m, RSize (size m))
  end.

(** The contents in iteration order. *)
Definition entries (m : LinkedBase) : list (K * V) := map snd (list_ m).

  (** The index and the list describe the same nodes. *)
Record linked_inv (m : LinkedBase) : Prop := {
  inv_addresses : NoDup (map fst (list_ m));
  inv_fresh : Forall (fun n => fst n < next_address m)%positive (list_ m);
  inv_index : forall k it, index_ m !! k = Some it <-> exists v, (it, (k, v)) ∈ list_ m
}.
End Linked.
#[global] Arguments LinkedBase : clear implicits.
#[global] Arguments LinkedBase K V {_ _}.

Section LinkedFacts.
Context {K V : Type} `{Countable K}.
Implicit Types (m : LinkedBase K V) (l : list (positive * (K * V))).

Lemma insert_before_end n l : insert_before None n l = l ++ [n].
Proof. induction l as [|n' l IH]; cbn [insert_before]; [done|]. rewrite decide_False by done. by rewrite IH. Qed.

Lemma insert_before_begin n l : insert_before (fst <$> head l) n l = n :: l.
Proof. destruct l; cbn [insert_before]; [done|]. by rewrite decide_True. Qed.

Lemma insert_before_perm pos n l : insert_before pos n l ≡ₚ n :: l.
Proof.
  induction l as [|n' l IH]; simpl; [done|]. case_decide; [done|]. rewrite IH. apply Permutation_swap.
Qed.

Lemma remove_node_fresh it l : it ∉ map fst l -> remove_node it l = l.
Proof.
  intros Hn. apply filter_all. intros n Hin <-. apply Hn. apply list_elem_of_fmap. by exists n.
Qed.

Lemma remove_node_insert pos it e l : it ∉ map fst l -> remove_node it (insert_before pos (it, e) l) = l.
Proof.
  unfold remove_node. induction l as [|n l IH]; intros Hn; simpl.
  - rewrite filter_cons, decide_False by (simpl; tauto). done.
  - simpl in Hn. case_decide; rewrite !filter_cons; simpl.
    + rewrite decide_False by tauto. case_decide; [|set_solver].
      f_equal. apply remove_node_fresh. set_solver.
    + rewrite decide_True by set_solver. f_equal. apply IH. set_solver.
Qed.

Lemma node_at_elem it e l : NoDup (map fst l) -> node_at it l = Some e <-> (it, e) ∈ l.
Proof.
  induction l as [|[i e'] l IH]; simpl; [set_solver|]. rewrite NoDup_cons. intros [Hn Hl].
  rewrite elem_of_cons. case_decide as Hi.
  - simpl in Hi. subst. split; [intros; simplify_eq; by left|]. intros [?|Hin]; [by simplify_eq|].
    exfalso. apply Hn. apply list_elem_of_fmap. by exists (it, e).
  - rewrite (IH Hl). split; [by right|]. intros [?|?]; [by simplify_eq|done].
Qed.

Lemma address_unique m it e e' : linked_inv m -> (it, e) ∈ list_ m -> (it, e') ∈ list_ m -> e = e'.
Proof.
  intros [HA _ _] H1 H2. apply (node_at_elem _ _ _ HA) in H1, H2. congruence.
Qed.

(** Under the invariant, looking for a node by address or by key is the same. *)
Lemma same_node m k it n : linked_inv m -> index_ m !! k = Some it -> n ∈ list_ m ->
  fst n = it <-> fst (snd n) = k.
Proof.
  intros Hm Hk Hn. destruct n as [i [k' v]]. simpl. split.
  - intros ->. apply (inv_index m Hm) in Hk as [w Hw].
    pose proof (address_unique _ _ _ _ Hm Hn Hw). congruence.
  - intros ->. assert (index_ m !! k = Some i) by (apply (inv_index m Hm); eauto). congruence.
Qed.

Lemma entries_remove m k it : linked_inv m -> index_ m !! k = Some it ->
  map snd (remove_node it (list_ m)) = lm_erase k (entries m).
Proof.
  intros Hm Hk. unfold remove_node, lm_erase, entries.
  pose proof (fun n => same_node m k it n Hm Hk) as Hsame.
  induction (list_ m) as [|n l IH]; [done|]. cbn [map]. rewrite !filter_cons.
  pose proof (Hsame n ltac:(set_solver)) as Hs. specialize (IH ltac:(set_solver)).
  repeat case_decide; cbn [map]; first [tauto | exact IH | f_equal; exact IH].
Qed.

Lemma entries_wf m : linked_inv m -> lm_wf (entries m).
Proof.
  intros Hm. unfold lm_wf, entries. destruct Hm as [HA _ HI].
  assert (forall it1 it2 k v1 v2, (it1, (k, v1)) ∈ list_ m -> (it2, (k, v2)) ∈ list_ m -> it1 = it2) as Hk.
  { intros it1 it2 k v1 v2 H1 H2. assert (index_ m !! k = Some it1) by (apply HI; eauto).
    assert (index_ m !! k = Some it2) by (apply HI; eauto). congruence. }
  clear HI. revert HA Hk. generalize (list_ m) as l.
  induction l as [|[i [k v]] l IH]; intros HA Hk; [constructor|]. simpl in HA |- *.
  rewrite NoDup_cons in HA. rewrite NoDup_cons. destruct HA as [Hn HA]. split; [|apply IH; [done|set_solver]].
  intros ([k' v'] & Hk' & ([j e] & He & Hin)%list_elem_of_fmap)%list_elem_of_fmap. simpl in Hk', He. subst.
  apply Hn. apply list_elem_of_fmap. exists (j, (k', v')). split; [|done]. simpl.
  apply (Hk i j k' v v'); set_solver.
Qed.

Lemma contains_entries m k : linked_inv m -> contains m k = lm_contains k (entries m).
Proof.
  intros Hm. apply eq_bool_prop_intro. rewrite !Is_true_true, lm_contains_true. unfold contains, entries.
  rewrite bool_decide_eq_true, map_map, list_elem_of_fmap. split.
  - intros [it Hit]. apply (inv_index m Hm) in Hit as [v Hv]. by exists (it, (k, v)).
  - intros ([it [k' v]] & -> & Hin). exists it. apply (inv_index m Hm). by exists v.
Qed.

Lemma fresh_address m : linked_inv m -> next_address m ∉ map fst (list_ m).
Proof.
  intros Hm (n & Hn & Hin)%list_elem_of_fmap. pose proof (inv_fresh m Hm) as Hf.
  rewrite Forall_forall in Hf. specialize (Hf n Hin). lia.
Qed.

(** Reordering or relinking nodes keeps the invariant. *)
Lemma inv_perm m l : linked_inv m -> l ≡ₚ list_ m -> linked_inv (set_list l m).
Proof.
  intros [HA HF HI] Hl. split; simpl.
  - by rewrite Hl.
  - by rewrite Hl.
  - intros k it. rewrite HI. by setoid_rewrite Hl.
Qed.

Lemma inv_link m pos k v : linked_inv m -> index_ m !! k = None ->
  linked_inv {| list_ := insert_before pos (next_address m, (k, v)) (list_ m);
                index_ := <[k := next_address m]> (index_ m); next_address := Pos.succ (next_address m) |}.
Proof.
  intros Hm Hk. pose proof (fresh_address m Hm) as Hfr. destruct Hm as [HA HF HI]. split; simpl.
  - rewrite insert_before_perm. simpl. by apply NoDup_cons.
  - rewrite insert_before_perm. apply Forall_cons. split; [simpl; lia|].
    eapply Forall_impl; [exact HF|]. simpl. lia.
  - intros k' it. setoid_rewrite insert_before_perm. setoid_rewrite elem_of_cons.
    rewrite lookup_insert_Some, HI. split.
    + intros [[-> ->]|[? [w ?]]]; eauto.
    + intros [w [?|Hin]]; [left; by simplify_eq|]. right. split; [|by eauto].
      intros <-. assert (index_ m !! k = Some it) by (apply HI; eauto). congruence.
Qed.

Lemma inv_unlink m k it : linked_inv m -> index_ m !! k = Some it ->
  linked_inv {| list_ := remove_node it (list_ m); index_ := delete k (index_ m);
                next_address := next_address m |}.
Proof.
  intros Hm Hk. pose proof (fun n => same_node m k it n Hm Hk) as Hsame.
  destruct Hm as [HA HF HI]. unfold remove_node. split; simpl.
  - exact (lm_wf_erase it (list_ m) HA).
  - rewrite Forall_forall in *. intros n [_ Hn]%list_elem_of_filter. by apply HF.
  - intros k' it'. rewrite lookup_delete_Some, HI. setoid_rewrite list_elem_of_filter. split.
    + intros [Hne [w Hw]]. exists w. split; [|done]. specialize (Hsame _ Hw). simpl in *. naive_solver.
    + intros [w [Hne Hw]]. split; [|by eauto]. specialize (Hsame _ Hw). simpl in *. naive_solver.
Qed.

Lemma emplace_spec m pos k v : linked_inv m ->
  let '(m', (it, b)) := emplace m pos k v in
  linked_inv m' /\ b = negb (lm_contains k (entries m)) /\ find m' k = Some it /\
  entries m' = if lm_contains k (entries m) then entries m
               else map snd (insert_before pos (next_address m, (k, v)) (list_ m)).
Proof.
  intros Hm. rewrite <-contains_entries by done. unfold emplace, contains, find, entries. simpl.
  destruct (index_ m !! k) as [it|] eqn:Hk.
  - rewrite ?bool_decide_eq_true_2 by eauto. simpl. rewrite remove_node_insert by (by apply fresh_address).
    split_and!; try done. destruct Hm as [HA HF HI]. split; simpl; [done| |done].
    eapply Forall_impl; [exact HF|]. simpl. lia.
  - rewrite ?bool_decide_eq_false_2 by (by intros [? ?]). simpl.
    split_and!; [by apply inv_link|done|by rewrite lookup_insert_eq|done].
Qed.

Lemma erase_spec m k : linked_inv m ->
  linked_inv (fst (erase m k)) /\ snd (erase m k) = lm_contains k (entries m) /\
  entries (fst (erase m k)) = lm_erase k (entries m).
Proof.
  intros Hm. rewrite <-contains_entries by done. unfold erase, contains.
  destruct (index_ m !! k) as [it|] eqn:Hk; simpl.
  - rewrite ?bool_decide_eq_true_2 by eauto. split_and!; [by apply inv_unlink|done|by apply entries_remove].
  - rewrite ?bool_decide_eq_false_2 by (by intros [? ?]). split_and!; [done|done|]. symmetry.
    apply filter_all. intros e He <-. unfold entries in He.
    apply list_elem_of_fmap in He as ([it [k v]] & -> & Hin). simpl in *.
    assert (index_ m !! k = Some it) by (apply (inv_index m Hm); eauto). congruence.
Qed.

Lemma find_entries m k it : linked_inv m -> find m k = Some it ->
  exists v, node_at it (list_ m) = Some (k, v) /\ lm_find k (entries m) = Some v.
Proof.
  intros Hm Hk. unfold find in Hk. pose proof Hk as Hk'. apply (inv_index m Hm) in Hk as [v Hv]. exists v. split.
  - apply node_at_elem; [apply Hm|done].
  - apply lm_find_elem; [by apply entries_wf|]. apply list_elem_of_fmap. by exists (it, (k, v)).
Qed.

Lemma remove_node_perm m it e : linked_inv m -> node_at it (list_ m) = Some e ->
  (it, e) :: remove_node it (list_ m) ≡ₚ list_ m.
Proof.
  intros Hm He. destruct Hm as [HA _ _]. revert HA He. generalize (list_ m) as l.
  induction l as [|[i e'] l IH]; simpl; [done|]. rewrite NoDup_cons. intros [Hn HA].
  unfold remove_node. rewrite filter_cons. simpl. case_decide as Hi.
  - intros. simplify_eq. rewrite decide_False by tauto. f_equiv.
    change (remove_node it l ≡ₚ l). by rewrite remove_node_fresh.
  - intros He. rewrite decide_True by done. rewrite Permutation_swap. f_equiv. by apply IH.
Qed.

Lemma find_deref m k it : linked_inv m -> find m k = Some it ->
  exists v, deref (find m k) (list_ m) = Ok (it, (k, v)) /\ lm_find k (entries m) = Some v.
Proof. intros Hm Hk. destruct (find_entries m k it Hm Hk) as (v & Hn & Hf). exists v. rewrite Hk. cbn. by rewrite Hn. Qed.

Lemma find_None m k : linked_inv m -> find m k = None <-> lm_find k (entries m) = None.
Proof.
  intros Hm. pose proof (contains_entries m k Hm) as Hc. unfold contains, lm_contains, find in *. destruct (index_ m !! k), (lm_find k (entries m)); try done.
  all: by rewrite ?bool_decide_eq_true_2, ?bool_decide_eq_false_2 in Hc by first [by eexists|by intros [? ?]].
Qed.

(** A position by address and by key. *)
Lemma insert_before_key it k n l : (forall x, x ∈ l -> fst x = it <-> fst (snd x) = k) ->
  map snd (insert_before (Some it) n l) = lm_insert_before k (snd n) (map snd l).
Proof.
  induction l as [|[a [k' v]] l IH]; intros Hs; [done|]. cbn [insert_before map lm_insert_before snd fst].
  pose proof (Hs (a, (k', v)) ltac:(set_solver)) as Hx. cbn in Hx.
  destruct (decide (k' = k)) as [Hk|Hk]; [rewrite decide_True by (f_equal; symmetry; tauto); done|]. rewrite decide_False by (intros [= ->]; tauto).
  cbn [map snd]. f_equal. apply IH. set_solver.
Qed.

Lemma lm_insert_absent k (e : K * V) (l : list (K * V)) : lm_find k l = None -> lm_insert_before k e l = l ++ [e].
Proof.
  induction l as [|[k' v] l IH]; [done|]. cbn [lm_find lm_insert_before fst]. case_decide; [done|]. intros Hl. cbn. by rewrite IH.
Qed.

Lemma insert_found m k n l : linked_inv m -> (forall x, x ∈ l -> x ∈ list_ m) ->
  map snd (insert_before (find m k) n l) = lm_insert_before k (snd n) (map snd l).
Proof.
  intros Hm Hl. destruct (find m k) as [it|] eqn:Hk.
  - apply insert_before_key. intros x Hx. apply (same_node m); auto.
  - rewrite insert_before_end, map_app. symmetry. apply lm_insert_absent. apply lm_find_None. intros Hin.
    apply (find_None m _ Hm), lm_find_None in Hk. apply Hk. apply list_elem_of_fmap in Hin as (e & -> & (n' & -> & Hn')%list_elem_of_fmap).
    apply list_elem_of_fmap. exists (snd n'). split; [done|]. apply list_elem_of_fmap. exists n'. auto.
Qed.

Lemma next_key m k it : linked_inv m -> find m k = Some it ->
  (next_of it (list_ m) ≫= fun a => fst <$> node_at a (remove_node it (list_ m))) = lm_after k (entries m).
Proof.
  intros Hm Hk. pose proof (inv_addresses m Hm) as Hnd. pose proof (fun n => same_node m k it n Hm Hk) as Hs. unfold entries, remove_node.
  induction (list_ m) as [|[a [k' v]] l IH]; [done|]. cbn [next_of map lm_after fst snd]. cbn [map] in Hnd. apply NoDup_cons in Hnd as [Hn Hnd].
  pose proof (Hs (a, (k', v)) ltac:(set_solver)) as Hx. cbn in Hx. rewrite filter_cons. cbn [fst]. destruct (decide (a = it)) as [->|Ha].
  - rewrite (decide_True (P:=k' = k)) by tauto. rewrite decide_False by tauto.
    destruct l as [|[b [k2 v2]] l]; [done|]. cbn [head fmap option_fmap option_map fst map snd mbind option_bind].
    rewrite filter_cons. cbn [fst]. rewrite decide_True by (intros ->; apply Hn; cbn; set_solver). cbn [node_at fst]. by rewrite decide_True.
  - rewrite (decide_False (P:=k' = k)) by tauto. rewrite decide_True by done. rewrite <-IH by (try done; set_solver).
    destruct (next_of it l) as [b|] eqn:Eb; [|done]. cbn [mbind option_bind node_at fst]. rewrite decide_False; [done|].
    intros ->. apply Hn. clear -Eb. induction l as [|[c e] l IHl]; [done|]. cbn [next_of fst map] in *. case_decide; [|set_solver].
    destruct l as [|[d e'] l]; [done|]. cbn in *. injection Eb as ->. set_solver.
Qed.

Lemma erase_at_spec m k it : linked_inv m -> find m k = Some it -> exists m' i, erase_at m (find m k) = Ok (m', i) /\ linked_inv m' /\
  entries m' = lm_erase k (entries m) /\ (i ≫= fun a => fst <$> node_at a (list_ m')) = lm_after k (entries m).
Proof.
  intros Hm Hk. destruct (find_deref m k it Hm Hk) as (v & Hd & _). unfold erase_at. rewrite Hd. cbn [obind fst snd]. eexists _, _. split; [done|]. split_and!.
  - by apply inv_unlink.
  - by apply entries_remove.
  - cbn [list_]. by apply next_key.
Qed.

Lemma move_inv m k it v pos : linked_inv m -> find m k = Some it -> deref (find m k) (list_ m) = Ok (it, (k, v)) ->
  linked_inv (set_list (insert_before pos (it, (k, v)) (remove_node it (list_ m))) m).
Proof.
  intros Hm Hk Hd. apply inv_perm; [done|]. rewrite insert_before_perm. apply remove_node_perm; [done|]. rewrite Hk in Hd. cbn in Hd.
  destruct (node_at it (list_ m)); [|done]. by injection Hd as ->.
Qed.

Lemma lm_move_first (k : K) (v : V) (l : list (K * V)) : lm_wf ((k, v) :: l) -> (k, v) :: lm_erase k ((k, v) :: l) = (k, v) :: l.
Proof.
  intros Hw. f_equal. unfold lm_erase. rewrite filter_cons, decide_False by (cbn; tauto). apply filter_all. intros [k' w] Hin Hk. cbn in Hk. subst k'.
  apply NoDup_cons in Hw as [Hn _]. apply Hn, list_elem_of_fmap. by exists (k, w).
Qed.

Lemma move_to_spec m k it p : linked_inv m -> find m k = Some it ->
  exists m' v, move_to m (find m k) (place_of m p) = Ok m' /\ linked_inv m' /\ lm_find k (entries m) = Some v /\
    entries m' = lm_move k v p (entries m).
Proof.
  intros Hm Hk. destruct (find_deref m k it Hm Hk) as (v & Hd & Hf). unfold move_to. rewrite Hd. cbn [obind fst]. eexists _, v. split; [done|].
  pose proof (move_inv m k it v (place_of m p) Hm Hk Hd) as Hinv. pose proof (entries_wf m Hm) as Hwf.
  split; [by case_decide|]. split; [done|]. rewrite Hk. destruct p as [| |k']; cbn [place_of lm_move lm_insert_at] in *.
  - unfold begin in *. destruct (list_ m) as [|[a [k2 v2]] l] eqn:El; [by cbn in Hd; rewrite Hk in Hd|]. cbn [head fmap option_fmap option_map fst] in *.
    assert (entries m = (k2, v2) :: map snd l) as Ee by (unfold entries; by rewrite El). case_decide as Ha.
    + injection Ha as ->. assert (k2 = k) as -> by (apply (same_node m k it (it, (k2, v2)) Hm Hk); [rewrite El; set_solver|done]).
      rewrite Ee in *. cbn [lm_find] in Hf. rewrite decide_True in Hf by done. injection Hf as ->. by rewrite lm_move_first.
    + unfold entries at 1. cbn [list_ set_list]. rewrite <-(entries_remove m k it Hm Hk), El. unfold remove_node. rewrite filter_cons, decide_True by (cbn; congruence).
      cbn [insert_before fst]. by rewrite decide_True.
  - rewrite decide_False by done. unfold entries at 1. cbn [list_ set_list]. rewrite insert_before_end, map_app. by rewrite (entries_remove m k it).
  - destruct (decide (k' = k)) as [->|Hne].
    + by rewrite decide_True.
    + rewrite decide_False.
      * unfold entries at 1. cbn [list_ set_list]. rewrite insert_found by (try done; by intros x [_ ?]%list_elem_of_filter). by rewrite (entries_remove m k it).
      * intros E. unfold find in *. destruct (proj1 (inv_index m Hm k' it) E) as [w Hw]. apply Hne. by apply (same_node m k it (it, (k', w)) Hm Hk).
Qed.

Lemma assign_spec m k it v : linked_inv m -> find m k = Some it ->
  exists m', assign m (find m k) v = Ok m' /\ linked_inv m' /\ entries m' = lm_set k v (entries m).
Proof.
  intros Hm Hk. destruct (find_deref m k it Hm Hk) as (w & Hd & _). unfold assign. rewrite Hd. cbn [obind fst snd]. eexists. split; [done|].
  set (f := fun x : positive * (K * V) => if decide (fst x = it) then (fst x, (fst (snd x), v)) else x).
  assert (forall x, fst (f x) = fst x /\ fst (snd (f x)) = fst (snd x)) as Hkeep by (intros x; unfold f; by case_decide). split; [split; cbn [list_ set_list index_ next_address]|].
  - rewrite map_map, (map_ext _ fst) by apply Hkeep. apply Hm.
  - pose proof (inv_fresh m Hm) as HF. rewrite Forall_forall in *. intros n (x & -> & Hx)%list_elem_of_fmap. rewrite (proj1 (Hkeep x)). by apply HF.
  - intros k' a. rewrite (inv_index m Hm). split.
    + intros [u Hu]. exists (snd (snd (f (a, (k', u))))). apply list_elem_of_fmap. exists (a, (k', u)). split; [|done]. destruct (Hkeep (a, (k', u))) as [H1 H2].
      destruct (f (a, (k', u))) as [? [? ?]]. cbn in *. by subst.
    + intros [u (x & E & Hx)%list_elem_of_fmap]. destruct (Hkeep x) as [H1 H2]. rewrite <-E in H1, H2. destruct x as [a' [k2 u']]. cbn in *. subst. by exists u'.
  - unfold entries, lm_set. cbn [list_ set_list]. rewrite !map_map. apply map_ext_in. intros x Hx%list_elem_of_In. unfold f.
    pose proof (same_node m k it x Hm Hk Hx) as Hs. repeat case_decide; cbn; try tauto. destruct x as [a [k' u]]; cbn in *. f_equal. tauto.
Qed.

Lemma pop_at m n : linked_inv m -> n ∈ list_ m -> exists m' i, erase_at m (Some (fst n)) = Ok (m', i) /\ linked_inv m' /\
  entries m' = map snd (remove_node (fst n) (list_ m)).
Proof.
  intros Hm Hn. destruct n as [a [k v]]. cbn [fst]. assert (find m k = Some a) as Hk by (apply (inv_index m Hm); by exists v).
  destruct (erase_at_spec m k a Hm Hk) as (m' & i & E & Hm' & He & _). rewrite <-Hk. exists m', i. split_and!; try done. by rewrite He, (entries_remove m k a).
Qed.

Lemma pop_front_spec m n l : linked_inv m -> list_ m = n :: l ->
  exists m', pop_front m = Ok m' /\ linked_inv m' /\ entries m' = map snd l.
Proof.
  intros Hm El. destruct (pop_at m n Hm ltac:(rewrite El; set_solver)) as (m' & i & E & Hm' & He). exists m'. unfold pop_front. rewrite El, E.
  split_and!; [done|done|]. rewrite He, El. unfold remove_node. rewrite filter_cons, decide_False by tauto. f_equal. apply remove_node_fresh.
  pose proof (inv_addresses m Hm) as HA. rewrite El in HA. by apply NoDup_cons in HA as [? _].
Qed.

Lemma pop_back_spec m n l : linked_inv m -> list_ m = l ++ [n] ->
  exists m', pop_back m = Ok m' /\ linked_inv m' /\ entries m' = map snd l.
Proof.
  intros Hm El. destruct (pop_at m n Hm ltac:(rewrite El; set_solver)) as (m' & i & E & Hm' & He). exists m'. unfold pop_back. rewrite El, last_snoc, E.
  split_and!; [done|done|]. rewrite He, El. unfold remove_node. rewrite filter_app, filter_cons, decide_False by tauto. rewrite app_nil_r. f_equal.
  apply remove_node_fresh. pose proof (inv_addresses m Hm) as HA. rewrite El, map_app in HA. apply NoDup_app in HA as (_ & HA & _). intros Hin. apply (HA _ Hin). cbn. set_solver.
Qed.

Lemma swap_inv m other : linked_inv m -> linked_inv other ->
  linked_inv (fst (swap m other)) /\ linked_inv (snd (swap m other)).
Proof. intros [A1 F1 I1] [A2 F2 I2]. split; split; cbn; try done; eapply Forall_impl; try done; cbn; lia. Qed.

Lemma empty_linked_inv : linked_inv (empty_linked (K:=K) (V:=V)).
Proof. split; simpl; [constructor|constructor|]. intros k it. rewrite lookup_empty. set_solver. Qed.

(** What a step must do, given the step of the association list. *)
Definition simulates m (o : lm_op) (r : option (list (K * V) * lm_result)) : Prop :=
  match r with
  | Some (l, x) => exists m', linked_step m o = Ok (m', x) /\ linked_inv m' /\ entries m' = l
  | None => exists what, linked_step m o = Abort what
  end.

Lemma emplace_simulates m p k v : linked_inv m -> simulates m (OpEmplace p k v) (lm_step (entries m) (OpEmplace p k v)).
Proof.
  intros Hm. cbn [simulates lm_step linked_step]. assert (exists pos, match p with Begin => emplace_front m k v | End => emplace_back m k v | At k' => emplace m (find m k') k v end =
    emplace m pos k v /\ map snd (insert_before pos (next_address m, (k, v)) (list_ m)) = lm_insert_at p (k, v) (entries m)) as (pos & -> & Hins).
  { destruct p as [| |k']; eexists; (split; [reflexivity|]); cbn [lm_insert_at]; unfold begin, entries.
    - by rewrite insert_before_begin.
    - by rewrite insert_before_end, map_app.
    - by apply (insert_found m k' (next_address m, (k, v))). }
  pose proof (emplace_spec m pos k v Hm) as HE. destruct (emplace m pos k v) as [m' [it b]]. destruct HE as (Hm' & -> & Hf & He). exists m'.
  destruct (find_entries m' k it Hm' Hf) as (w & Hn & _). cbn. rewrite Hn, He, Hins. done.
Qed.

Lemma found_cases m k : linked_inv m -> (exists it v, find m k = Some it /\ lm_find k (entries m) = Some v) \/
  (find m k = None /\ lm_find k (entries m) = None).
Proof.
  intros Hm. destruct (find m k) as [it|] eqn:Hk; [|right; split; [done|by apply find_None]].
  left. destruct (find_entries m k it Hm Hk) as (v & _ & Hf). by exists it, v.
Qed.

(** The operations on an entry that [find] has looked up. *)
Lemma at_key_simulates m o : linked_inv m -> match o with OpEraseAt _ | OpMoveTo _ _ | OpAssign _ _ | OpFind _ => True | _ => False end ->
  simulates m o (lm_step (entries m) o).
Proof.
  intros Hm Ho. destruct o as [p k v|k|k| | | |k p|k v|k|k| | |]; try done; cbn [simulates lm_step linked_step];
    destruct (found_cases m k Hm) as [(it & w & Hk & Hf)|[Hk Hf]]; rewrite ?Hf; cbn [simulates linked_step].
  - destruct (erase_at_spec m k it Hm Hk) as (m' & i & -> & Hm' & He & Hi). exists m'. cbn [obind fst snd]. unfold key_of. by rewrite Hi.
  - rewrite Hk. by eexists.
  - destruct (move_to_spec m k it p Hm Hk) as (m' & v & E & Hm' & Hf' & He). exists m'. rewrite Hf in Hf'. injection Hf' as <-.
    assert (match p with Begin => move_to_front m (find m k) | End => move_to_back m (find m k) | At k' => move_to m (find m k) (find m k') end = Ok m') as ->
      by (by destruct p). by cbn [obind].
  - rewrite Hk. destruct p; by eexists.
  - destruct (assign_spec m k it v Hm Hk) as (m' & -> & Hm' & He). exists m'. by cbn [obind].
  - rewrite Hk. by eexists.
  - exists m. rewrite (proj2 (lm_contains_true k (entries m))) by (apply list_elem_of_fmap; exists (k, w); split; [done|by apply lm_find_in]).
    destruct (find_entries m k it Hm Hk) as (u & Hn & _). unfold key_of. rewrite Hk. cbn. by rewrite Hn.
  - exists m. rewrite (proj2 (lm_contains_false k (entries m))) by (by apply lm_find_None). by rewrite Hk.
Qed.

Lemma linked_step_simulates m o : linked_inv m -> simulates m o (lm_step (entries m) o).
Proof.
  intros Hm. destruct o as [p k v|k|k| | | |k p|k v|k|k| | |]; try by apply at_key_simulates.
  - by apply emplace_simulates.
  - cbn [simulates lm_step linked_step]. destruct (erase_spec m k Hm) as (Hm' & Hb & He). destruct (erase m k) as [m' b]. cbn [fst snd] in *. exists m'. by rewrite Hb.
  - cbn [simulates lm_step linked_step]. unfold entries. destruct (list_ m) as [|n l] eqn:El; cbn [map simulates linked_step].
    + unfold pop_front. rewrite El. by eexists.
    + destruct (pop_front_spec m n l Hm El) as (m' & -> & Hm' & He). by exists m'.
  - cbn [simulates lm_step linked_step]. unfold entries. destruct (list_ m) as [|n0 l0] eqn:El; cbn [map simulates linked_step].
    + unfold pop_back. rewrite El. by eexists.
    + destruct (exists_last (l:=n0 :: l0)) as (l & n & E); [done|]. rewrite E in El. destruct (pop_back_spec m n l Hm El) as (m' & -> & Hm' & He). exists m'.
      split_and!; [done|done|]. change (snd n0 :: map snd l0) with (map snd (n0 :: l0)). rewrite E, map_app. cbn [map]. by rewrite removelast_last.
  - exists (clear m). split_and!; [done| |done]. split; cbn; [constructor|constructor|]. intros k it. rewrite lookup_empty. set_solver.
  - exists m. cbn [lm_step linked_step]. by rewrite contains_entries.
  - cbn [simulates lm_step linked_step]. unfold entries. destruct (list_ m) as [|n l] eqn:El; cbn [map head simulates linked_step]; unfold front; rewrite El; [by eexists|].
    exists m. unfold entries. by rewrite El.
  - cbn [simulates lm_step linked_step]. unfold entries. rewrite fmap_last. destruct (last (list_ m)) as [n|] eqn:El; cbn [fmap option_fmap option_map simulates linked_step];
    unfold back; rewrite El; [by exists m|by eexists].
  - exists m. cbn [lm_step linked_step]. unfold size, entries. by rewrite length_map.
Qed.
End LinkedFacts.
End Linked.

(** ** [SubscriptionMap]: subscriptions per stream *)

Module SubscriptionMap.
(** Stream IDs and subscription IDs are 64-bit integers. *)
Abbreviation t T := (gmap Z (gmap Z T)).

Section SubscriptionMap.
Context {T : Type}.

Implicit Types (m : t T) (stream_id sub_id : Z).

Definition Find m stream_id sub_id : option T :=
  match m !! stream_id with
  | None => None
  | Some subs => subs !! sub_id
  end.

(** The entry of the stream stays, possibly empty. *)
Definition MoveOut m stream_id sub_id : t T * option T :=
  match m !! stream_id with
  | None => (m, None)
  | Some subs =>
      match subs !! sub_id with
      | None => (m, None)
      | Some out => (<[stream_id := delete sub_id subs]> m, Some out)
      end
  end.

(** [map_[stream_id].emplace(...)]: an existing entry is kept. *)
Definition Insert m stream_id sub_id (value : T) : t T :=
  let subs := default ∅ (m !! stream_id) in
  match subs !! sub_id with
  | Some _ => <[stream_id := subs]> m
  | None => <[stream_id := <[sub_id := value]> subs]> m
  end.

Definition RemoveStream m stream_id : t T := delete stream_id m.

Definition Remove m stream_id sub_id : t T :=
  match m !! stream_id with
  | None => m
  | Some subs => <[stream_id := delete sub_id subs]> m
  end.

(** The entries a visitor is called with; the order is unspecified. *)
Definition VisitSubscriptions m stream_id : list (Z * T) :=
  match m !! stream_id with
  | None => []
  | Some subs => map_to_list subs
  end.

Lemma Find_MoveOut m s i s' i' :
  Find (fst (MoveOut m s i)) s' i' = if decide (s' = s /\ i' = i) then None else Find m s' i'.
Proof.
  unfold MoveOut, Find. destruct (m !! s) as [subs|] eqn:Hs; [destruct (subs !! i) as [x|] eqn:Hi|]; simpl.
  - destruct (decide (s' = s)) as [->|]; [|rewrite lookup_insert_ne by done; rewrite decide_False by tauto; done].
    rewrite lookup_insert_eq, Hs. destruct (decide (i' = i)) as [->|].
    + by rewrite lookup_delete_eq, decide_True.
    + rewrite lookup_delete_ne by done. by rewrite decide_False by tauto.
  - case_decide as Hd; [|done]. destruct Hd as [-> ->]. by rewrite Hs.
  - case_decide as Hd; [|done]. destruct Hd as [-> ->]. by rewrite Hs.
Qed.

Lemma MoveOut_result m s i : snd (MoveOut m s i) = Find m s i.
Proof. unfold MoveOut, Find. destruct (m !! s) as [subs|]; [|done]. by destruct (subs !! i). Qed.

Lemma Find_Insert m s i x s' i' :
  Find (Insert m s i x) s' i' =
    if decide (s' = s /\ i' = i) then Some (default x (Find m s i)) else Find m s' i'.
Proof.
  unfold Insert, Find. destruct (decide (s' = s)) as [->|Hs].
  2: { rewrite decide_False by tauto. destruct (default ∅ (m !! s) !! i); by rewrite lookup_insert_ne by done. }
  destruct (m !! s) as [subs|] eqn:E; simpl.
  - destruct (subs !! i) as [y|] eqn:Ei; rewrite lookup_insert_eq.
    + case_decide as Hd; [destruct Hd as [_ ->]; by rewrite Ei|done].
    + case_decide as Hd; [destruct Hd as [_ ->]; by rewrite lookup_insert_eq|].
      rewrite lookup_insert_ne by naive_solver. done.
  - rewrite lookup_empty, lookup_insert_eq. case_decide as Hd.
    + destruct Hd as [_ ->]. by rewrite lookup_insert_eq.
    + rewrite lookup_insert_ne by naive_solver. apply lookup_empty.
Qed.

Lemma Find_Remove m s i s' i' :
  Find (Remove m s i) s' i' = if decide (s' = s /\ i' = i) then None else Find m s' i'.
Proof.
  unfold Remove, Find. destruct (m !! s) as [subs|] eqn:Hs; [|case_decide as Hd; [destruct Hd as [-> _]; by rewrite Hs|done]].
  destruct (decide (s' = s)) as [->|]; [|rewrite lookup_insert_ne by done; by rewrite decide_False by tauto].
  rewrite lookup_insert_eq, Hs. destruct (decide (i' = i)) as [->|]; [by rewrite lookup_delete_eq, decide_True|].
  rewrite lookup_delete_ne by done. by rewrite decide_False by tauto.
Qed.

Lemma Find_RemoveStream m s s' i' :
  Find (RemoveStream m s) s' i' = if decide (s' = s) then None else Find m s' i'.
Proof.
  unfold RemoveStream, Find. case_decide as Hd; subst; [by rewrite lookup_delete_eq|].
  by rewrite lookup_delete_ne by done.
Qed.

Lemma elem_of_VisitSubscriptions m s i x : (i, x) ∈ VisitSubscriptions m s <-> Find m s i = Some x.
Proof.
  unfold VisitSubscriptions, Find. destruct (m !! s); [|set_solver]. apply elem_of_map_to_list.
Qed.
End SubscriptionMap.
End SubscriptionMap.

(** ** [ObservableMap]: pending work, readable by an event loop *)

Module ObservableMap.
Section ObservableMap.
Context {K V : Type} `{EqDecision K}.

(** [read_ready_fd_] is the counter of the event descriptor. *)
Record t := { map_ : list (K * V); read_ready_fd_ : Z }.

Definition empty : t := {| map_ := []; read_ready_fd_ := 0 |}.

Definition Write (m : t) (key : K) (value : V) : t :=
  match lm_find key (map_ m) with
  | None =>
      let fd := match map_ m with [] => read_ready_fd_ m + 1 | _ => read_ready_fd_ m end in
      {| map_ := fst (lm_emplace_back key value (map_ m)); read_ready_fd_ := fd |}
  | Some _ => {| map_ := lm_set key value (map_ m); read_ready_fd_ := read_ready_fd_ m |}
  end.

(** Reading the descriptor takes its whole count, and asserts there was one. *)
Definition read_event (m : t) : outcome t :=
  assert_that (0 <? read_ready_fd_ m) "value > 0" ;;;
  Ok {| map_ := map_ m; read_ready_fd_ := 0 |}.

Definition clear_if_empty (m : t) : outcome t :=
  match map_ m with
  | [] => read_event m
  | _ => Ok m
  end.

Definition Remove (m : t) (key : K) : outcome t :=
  if lm_contains key (map_ m)
  then clear_if_empty {| map_ := lm_erase key (map_ m); read_ready_fd_ := read_ready_fd_ m |}
  else Ok m.

(** The iterator after the one at [key]. *)
Fixpoint next_key (key : K) (l : list (K * V)) : option K :=
  match l with
  | [] => None
  | (k, _) :: l => if decide (k = key) then fst <$> head l else next_key key l
  end.

(** [Drain] hands entries out front to back, erasing each before it is
    processed, until [DrainOne] asks to stop.  [DrainOne] may itself write to
    the map and works on a state [S] of its own. *)
Fixpoint Drain_loop {S} (DrainOne : K * V -> t -> S -> outcome (t * S * bool)) (fuel : nat)
    (it : option K) (m : t) (s : S) : outcome (t * S) :=
  match it, fuel with
  | None, _ => Ok (m, s)
  | Some _, O => Abort "fuel"
  | Some key, Datatypes.S fuel =>
      match lm_find key (map_ m) with
      | None => Abort "dereference of an invalid iterator"
      | Some value =>
          let it := next_key key (map_ m) in
          r <~ DrainOne (key, value)
                 {| map_ := lm_erase key (map_ m); read_ready_fd_ := read_ready_fd_ m |} s ;;
          let '(m, s, more) := r in
          if more : bool then Drain_loop DrainOne fuel it m s else Ok (m, s)
      end
  end.

Definition Drain {S} (DrainOne : K * V -> t -> S -> outcome (t * S * bool)) (fuel : nat) (m : t) (s : S)
    : outcome (t * S) :=
  match map_ m with
  | [] => Ok (m, s)
  | (key, _) :: _ =>
      r <~ Drain_loop DrainOne fuel (Some key) m s ;;
      let '(m, s) := r in
      m <~ clear_if_empty m ;;
      Ok (m, s)
  end.

(** The descriptor is readable exactly when there is something to read. *)
Definition inv (m : t) : Prop :=
  lm_wf (map_ m) /\ (map_ m = [] -> read_ready_fd_ m = 0) /\ (map_ m <> [] -> 0 < read_ready_fd_ m).

Lemma clear_if_empty_spec m : 0 < read_ready_fd_ m -> lm_wf (map_ m) ->
  exists m', clear_if_empty m = Ok m' /\ inv m' /\ map_ m' = map_ m.
Proof.
  intros Hfd Hwf. unfold clear_if_empty, read_event, inv. destruct (map_ m) eqn:E.
  - rewrite (proj2 (Z.ltb_lt _ _) Hfd). cbn. eexists. split; [done|]. simpl. rewrite ?E. by split_and!.
  - exists m. rewrite E. by split_and!.
Qed.

Lemma Write_inv m k v : inv m -> inv (Write m k v) /\
  map_ (Write m k v) = (if lm_contains k (map_ m) then lm_set k v (map_ m) else map_ m ++ [(k, v)]).
Proof.
  intros (Hwf & H0 & H1). unfold Write, inv, lm_contains. destruct (lm_find k (map_ m)) as [x|] eqn:E.
  - rewrite bool_decide_eq_true_2 by eauto. simpl. split; [|done]. split; [by apply lm_wf_set|].
    destruct (map_ m); [done|]. split; [done|]. by intros; apply H1.
  - rewrite bool_decide_eq_false_2 by (by intros [? ?]). simpl.
    assert (fst (lm_emplace_back k v (map_ m)) = map_ m ++ [(k, v)]) as Hem.
    { unfold lm_emplace_back, lm_contains. by rewrite E. }
    split; [|done]. split; [by apply lm_wf_emplace_back|]. rewrite Hem.
    split; [by destruct (map_ m)|]. intros _. destruct (map_ m) eqn:Em; [rewrite H0 by done; lia|by apply H1].
Qed.

Lemma Remove_inv m k : inv m ->
  exists m', Remove m k = Ok m' /\ inv m' /\ map_ m' = lm_erase k (map_ m).
Proof.
  intros (Hwf & H0 & H1). unfold Remove. destruct (lm_contains k (map_ m)) eqn:E.
  - apply (clear_if_empty_spec {| map_ := lm_erase k (map_ m); read_ready_fd_ := read_ready_fd_ m |}); simpl;
      [|by apply lm_wf_erase].
    apply H1. intros Hm. rewrite Hm in E. done.
  - exists m. split_and!; try done. symmetry. apply filter_all. apply lm_contains_false in E.
    intros [k' v] Hin <-. apply E. apply list_elem_of_fmap. by exists (k', v).
Qed.

(** What holds between the rounds of a [Drain] too, when the map may be empty
    and the descriptor not yet read. *)
Definition sound (m : t) : Prop := lm_wf (map_ m) /\ 0 <= read_ready_fd_ m /\ (map_ m <> [] -> 0 < read_ready_fd_ m).

Lemma inv_sound m : inv m -> sound m.
Proof. intros (? & H0 & H1). split_and!; [done| |done]. destruct (map_ m) eqn:E; [rewrite H0; done|]. specialize (H1 ltac:(done)). lia. Qed.

Lemma Write_sound m k v : sound m -> sound (Write m k v) /\ 0 < read_ready_fd_ (Write m k v) /\
  forall k', lm_find k' (map_ (Write m k v)) = if decide (k' = k) then Some v else lm_find k' (map_ m).
Proof.
  intros (Hwf & H0 & H1). unfold Write, sound. destruct (lm_find k (map_ m)) as [x|] eqn:E; simpl.
  - assert (0 < read_ready_fd_ m) as Hfd by (apply H1; by destruct (map_ m)).
    split_and!; [by apply lm_wf_set|lia|done|done|]. intros k'. rewrite lm_find_set. case_decide; [|done]. subst. by rewrite E.
  - assert (fst (lm_emplace_back k v (map_ m)) = map_ m ++ [(k, v)]) as Hem.
    { unfold lm_emplace_back, lm_contains. by rewrite E. }
    assert (0 < match map_ m with [] => read_ready_fd_ m + 1 | _ => read_ready_fd_ m end) as Hfd.
    { destruct (map_ m); [lia|]. by apply H1. }
    split_and!; [by apply lm_wf_emplace_back|lia|done|done|]. intros k'. rewrite Hem, lm_find_app. cbn. case_decide; subst.
    + by rewrite E, decide_True.
    + rewrite decide_False by done. by destruct (lm_find k' (map_ m)).
Qed.

Lemma Write_fd m k v : read_ready_fd_ m <= read_ready_fd_ (Write m k v).
Proof. unfold Write. destruct (lm_find k (map_ m)); simpl; [lia|]. destruct (map_ m); lia. Qed.

Lemma erase_sound m k : sound m -> sound {| map_ := lm_erase k (map_ m); read_ready_fd_ := read_ready_fd_ m |}.
Proof.
  intros (Hwf & H0 & H1). split_and!; simpl; [by apply lm_wf_erase|done|]. intros Hne. apply H1. intros E. apply Hne. by rewrite E.
Qed.

Lemma clear_sound m : sound m -> 0 < read_ready_fd_ m -> exists m', clear_if_empty m = Ok m' /\ sound m' /\ map_ m' = map_ m.
Proof.
  intros (Hwf & H0 & H1) Hfd. destruct (clear_if_empty_spec m Hfd Hwf) as (m' & ? & ?%inv_sound & ?). eauto.
Qed.

Lemma Remove_sound m k : sound m -> exists m', Remove m k = Ok m' /\ sound m' /\ map_ m' = lm_erase k (map_ m).
Proof.
  intros Hs. pose proof Hs as (Hwf & H0 & H1). unfold Remove. destruct (lm_contains k (map_ m)) eqn:E.
  - apply (clear_sound {| map_ := lm_erase k (map_ m); read_ready_fd_ := read_ready_fd_ m |}); [by apply erase_sound|].
    apply H1. intros Hm. by rewrite Hm in E.
  - exists m. split_and!; try done. symmetry. apply filter_all. apply lm_contains_false in E.
    intros [k' v] Hin <-. apply E. apply list_elem_of_fmap. by exists (k', v).
Qed.

Lemma lm_erase_head (k : K) (v : V) l : lm_wf ((k, v) :: l) -> lm_erase k ((k, v) :: l) = l.
Proof.
  intros Hwf. apply NoDup_cons in Hwf as [Hn _]. unfold lm_erase. rewrite filter_cons, decide_False by tauto.
  apply filter_all. intros [k' v'] Hin <-. apply Hn. apply list_elem_of_fmap. by exists (k', v').
Qed.

Section Reentrant.
  (** A callback that never fails and writes back only when it asks to stop,
      as the readers that hit back-pressure do. *)
Context {S : Type} (DrainOne : K * V -> t -> S -> outcome (t * S * bool)).
Context (writes_stop : forall kv m s, exists ws s' more,
  DrainOne kv m s = Ok (fold_left (fun m w => Write m (fst w) (snd w)) ws m, s', more) /\
  (more = true -> ws = [])).

Lemma Write_ready m k v : 0 < read_ready_fd_ m -> lm_wf (map_ m) ->
  0 < read_ready_fd_ (Write m k v) /\ lm_wf (map_ (Write m k v)).
Proof.
  intros Hfd Hwf. unfold Write. destruct (lm_find k (map_ m)); simpl; (split; [|by auto with rs]); [done|].
  destruct (map_ m); lia.
Qed.

Lemma Writes_ready ws m : 0 < read_ready_fd_ m -> lm_wf (map_ m) ->
  let m' := fold_left (fun m w => Write m (fst w) (snd w)) ws m in
  0 < read_ready_fd_ m' /\ lm_wf (map_ m').
Proof.
  revert m. induction ws as [|[k v] ws IH]; intros m Hfd Hwf; [done|]. simpl.
  destruct (Write_ready m k v Hfd Hwf). by apply IH.
Qed.

Lemma Drain_loop_spec fuel m s : 0 < read_ready_fd_ m -> lm_wf (map_ m) -> (length (map_ m) <= fuel)%nat ->
  exists m' s' rest ws, Drain_loop DrainOne fuel (fst <$> head (map_ m)) m s = Ok (m', s') /\
    0 < read_ready_fd_ m' /\ lm_wf (map_ m') /\ rest `suffix_of` map_ m /\
    m' = fold_left (fun m w => Write m (fst w) (snd w)) ws
           {| map_ := rest; read_ready_fd_ := read_ready_fd_ m |}.
Proof.
  revert fuel s. destruct m as [l fd]. simpl. induction l as [|[k v] l IH]; intros [|fuel] s Hfd Hwf Hf;
    simpl in *; try lia.
  - exists {| map_ := []; read_ready_fd_ := fd |}, s, [], []. done.
  - exists {| map_ := []; read_ready_fd_ := fd |}, s, [], []. done.
  - rewrite !decide_True by done. rewrite lm_erase_head by done.
    destruct (writes_stop (k, v) {| map_ := l; read_ready_fd_ := fd |} s) as (ws & s' & more & HD & Hm).
    rewrite HD. simpl. assert (lm_wf l) as Hl by (by apply NoDup_cons in Hwf as [_ ?]). destruct more.
    + rewrite (Hm eq_refl). simpl.
      destruct (IH fuel s' Hfd Hl ltac:(lia)) as (m' & s2 & rest & ws' & -> & ? & ? & ? & ?).
      exists m', s2, rest, ws'. split_and!; try done. by apply suffix_cons_tail.
    + pose proof (Writes_ready ws {| map_ := l; read_ready_fd_ := fd |} Hfd Hl) as [? ?].
      eexists _, s', l, ws. split_and!; try done. by exists [(k, v)].
Qed.
End Reentrant.
End ObservableMap.
#[global] Arguments t : clear implicits.
End ObservableMap.

(** ** Properties *)

(** C39: [LinkedBase] implements an ordered association list with distinct keys.
    The empty map has list and index in agreement; from maps that have, every
    operation (an insertion at an end or at an iterator, removal by key or by
    iterator, the two pops, clear, a move of an entry to an end or before
    another one, a write through an iterator, the look-ups, front, back and
    size) has exactly the effect and the result that [lm_step] says on the
    entries in iteration order, and they agree afterwards; it fails exactly
    when [lm_step] has no result: on the end iterator or an empty map.  An
    insertion with a key that is present changes nothing and returns the entry
    that is there.  [swap] exchanges the entries of two maps. *)
Theorem LinkedBase_refines {K V} `{Countable K} (m other : Linked.LinkedBase K V) (o : lm_op) :
  Linked.linked_inv m -> Linked.linked_inv other ->
  Linked.linked_inv (Linked.empty_linked (K:=K) (V:=V)) /\ Linked.entries (Linked.empty_linked (K:=K) (V:=V)) = [] /\
  lm_wf (Linked.entries m) /\
  match lm_step (Linked.entries m) o with
  | Some (l, r) => exists m', Linked.linked_step m o = Ok (m', r) /\ Linked.linked_inv m' /\ Linked.entries m' = l
  | None => exists what, Linked.linked_step m o = Abort what
  end /\
  (let '(m', other') := Linked.swap m other in
   Linked.linked_inv m' /\ Linked.linked_inv other' /\
   Linked.entries m' = Linked.entries other /\ Linked.entries other' = Linked.entries m).
Proof.
  intros Hm Ho. split_and!.
  - apply Linked.empty_linked_inv.
  - done.
  - by apply Linked.entries_wf.
  - by apply Linked.linked_step_simulates.
  - destruct (Linked.swap_inv m other Hm Ho). by split_and!.
Qed.

(** The example of the header file, and a move in front of its last entry. *)
Lemma LinkedBase_refines_witness :
  exists m1 m2 m3 m4 m5 : Linked.LinkedBase Z string,
    Linked.linked_step Linked.empty_linked (OpEmplace Begin 1 "a"%string) = Ok (m1, RInserted (Some 1) true) /\
    Linked.linked_step m1 (OpEmplace End 2 "b"%string) = Ok (m2, RInserted (Some 2) true) /\
    Linked.linked_step m2 (OpEmplace (At 2) 3 "c"%string) = Ok (m3, RInserted (Some 3) true) /\
    Linked.linked_step m3 (OpMoveTo 1 (At 2)) = Ok (m4, RNone) /\
    Linked.linked_step m4 (OpEraseAt 1) = Ok (m5, RIter (Some 2)) /\
    Linked.entries m4 = [(3, "c"%string); (1, "a"%string); (2, "b"%string)] /\
    Linked.linked_inv m5.
Proof.
  pose proof (Linked.empty_linked_inv (K:=Z) (V:=string)) as H0.
  destruct (LinkedBase_refines _ _ (OpEmplace Begin 1 "a"%string) H0 H0) as (_ & _ & _ & (m1 & E1 & H1 & L1) & _).
  destruct (LinkedBase_refines m1 _ (OpEmplace End 2 "b"%string) H1 H0) as (_ & _ & _ & Hs & _). rewrite L1 in Hs. destruct Hs as (m2 & E2 & H2 & L2).
  destruct (LinkedBase_refines m2 _ (OpEmplace (At 2) 3 "c"%string) H2 H0) as (_ & _ & _ & Hs & _). rewrite L2 in Hs. destruct Hs as (m3 & E3 & H3 & L3).
  destruct (LinkedBase_refines m3 _ (OpMoveTo 1 (At 2)) H3 H0) as (_ & _ & _ & Hs & _). rewrite L3 in Hs. destruct Hs as (m4 & E4 & H4 & L4).
  destruct (LinkedBase_refines m4 _ (OpEraseAt 1) H4 H0) as (_ & _ & _ & Hs & _). rewrite L4 in Hs. destruct Hs as (m5 & E5 & H5 & L5).
  exists m1, m2, m3, m4, m5. split_and!; [exact E1|exact E2|exact E3|exact E4|exact E5|exact L4|exact H5].
Defined.

(** What [SubscriptionMap] finds after each of its operations: [Insert]
    keeps a value that is already there, [MoveOut] returns and removes exactly
    the one entry, [Remove] of a stream removes exactly the stream's entries,
    and a visit of the stream sees exactly them. *)
Theorem SubscriptionMap_spec {T} (m : SubscriptionMap.t T) s i x s' i' :
  SubscriptionMap.Find (SubscriptionMap.Insert m s i x) s' i' =
    (if decide (s' = s /\ i' = i) then Some (default x (SubscriptionMap.Find m s i))
     else SubscriptionMap.Find m s' i') /\
  snd (SubscriptionMap.MoveOut m s i) = SubscriptionMap.Find m s i /\
  SubscriptionMap.Find (fst (SubscriptionMap.MoveOut m s i)) s' i' =
    (if decide (s' = s /\ i' = i) then None else SubscriptionMap.Find m s' i') /\
  SubscriptionMap.Find (SubscriptionMap.RemoveStream m s) s' i' =
    (if decide (s' = s) then None else SubscriptionMap.Find m s' i') /\
  ((i, x) ∈ SubscriptionMap.VisitSubscriptions m s <-> SubscriptionMap.Find m s i = Some x).
Proof.
  split_and!.
  - apply SubscriptionMap.Find_Insert.
  - apply SubscriptionMap.MoveOut_result.
  - apply SubscriptionMap.Find_MoveOut.
  - apply SubscriptionMap.Find_RemoveStream.
  - apply SubscriptionMap.elem_of_VisitSubscriptions.
Qed.

(** The event descriptor of an [ObservableMap] is readable exactly when the
    map has entries.  Writes (which merge into the entry of a key, in place, or
    queue a new one last), removals, and a drain whose callback writes back
    only when it asks to stop, keep this; none of them trips the assertion on
    the descriptor, and the drain ends, leaving what it did not reach. *)
Theorem ObservableMap_ready {K V S} `{EqDecision K} (m : ObservableMap.t K V) (k : K) (v : V)
    (DrainOne : K * V -> ObservableMap.t K V -> S -> outcome (ObservableMap.t K V * S * bool)) (s : S) :
  ObservableMap.inv m ->
  (forall kv m s, exists ws s' more,
    DrainOne kv m s = Ok (fold_left (fun m w => ObservableMap.Write m (fst w) (snd w)) ws m, s', more) /\
    (more = true -> ws = [])) ->
  ObservableMap.inv (ObservableMap.Write m k v) /\
  ObservableMap.map_ (ObservableMap.Write m k v) =
    (if lm_contains k (ObservableMap.map_ m) then lm_set k v (ObservableMap.map_ m)
     else ObservableMap.map_ m ++ [(k, v)]) /\
  (exists m', ObservableMap.Remove m k = Ok m' /\ ObservableMap.inv m' /\
    ObservableMap.map_ m' = lm_erase k (ObservableMap.map_ m)) /\
  (exists m' s' rest ws,
    ObservableMap.Drain DrainOne (length (ObservableMap.map_ m)) m s = Ok (m', s') /\
    ObservableMap.inv m' /\ rest `suffix_of` ObservableMap.map_ m /\
    ObservableMap.map_ m' = ObservableMap.map_ (fold_left (fun m w => ObservableMap.Write m (fst w) (snd w)) ws
      {| ObservableMap.map_ := rest; ObservableMap.read_ready_fd_ := ObservableMap.read_ready_fd_ m |})).
Proof.
  intros Hm HD. split_and!.
  - by apply ObservableMap.Write_inv.
  - by apply ObservableMap.Write_inv.
  - by apply ObservableMap.Remove_inv.
  - unfold ObservableMap.Drain. destruct (ObservableMap.map_ m) as [|[k0 v0] l] eqn:E.
    { exists m, s, [], []. split_and!; try done. }
    pose proof Hm as (Hwf & _ & H1). rewrite E in Hwf, H1.
    destruct (ObservableMap.Drain_loop_spec DrainOne HD (length (ObservableMap.map_ m)) m s)
      as (m' & s' & rest & ws & HL & Hfd & Hwf' & Hs & Hm'); [by apply H1|by rewrite E|done|].
    rewrite E in HL, Hs. cbn [head fmap option_fmap option_map fst] in HL. rewrite HL. cbn [obind].
    destruct (ObservableMap.clear_if_empty_spec m' Hfd Hwf') as (m2 & -> & Hinv & Hmap).
    cbn [obind]. exists m2, s', rest, ws. split_and!; try done. by rewrite Hmap, Hm'.
Qed.

Lemma ObservableMap_ready_witness :
  let m := ObservableMap.Write (ObservableMap.Write ObservableMap.empty 1 10) 2 20 in
  let stop_at_2 := fun (kv : Z * Z) (m : ObservableMap.t Z Z) (n : nat) =>
    if decide (kv.1 = 2) then Ok (ObservableMap.Write m 2 21, S n, false) else Ok (m, S n, true) in
  exists m' s' rest ws,
    ObservableMap.Drain stop_at_2 (length (ObservableMap.map_ m)) m 0%nat = Ok (m', s') /\
    ObservableMap.inv m' /\ rest `suffix_of` ObservableMap.map_ m /\
    ObservableMap.map_ m' = ObservableMap.map_ (fold_left (fun m w => ObservableMap.Write m (fst w) (snd w)) ws
      {| ObservableMap.map_ := rest; ObservableMap.read_ready_fd_ := ObservableMap.read_ready_fd_ m |}).
Proof.
  intros m stop_at_2. apply (ObservableMap_ready m 3 30 stop_at_2 0%nat).
  - split_and!; [by apply (bool_decide_unpack _)|done|done].
  - intros [k v] m0 n. unfold stop_at_2. case_decide.
    + exists [(2, 21)], (S n), false. done.
    + exists [], (S n), true. done.
Defined.
