(* ===== verification/LRUCache.v ===== *)
(** * The LRU cache

    Model of [src/util/cache.cc]: the chained hash table [HandleTable] and the
    cache [LRUCache] built on it.

    Handles live on a heap and are named by addresses.  The hash table is
    modelled with its buckets and shown to be a finite map ([HandleTable]
    below); the cache then keeps the map. *)

From S2P Require Import Prelude.

#[local] Open Scope outcome_scope.

(** ** [HandleTable] *)

Module HandleTable.
Section HandleTable.
Context {K : Type} `{EqDecision K}.

(** What the table reads of a handle: its hash, its key, its address. *)
Record entry := { hash : Z; key : K; addr : positive }.

Record t := { length_ : nat; elems_ : nat; list_ : list (list entry) }.

Definition bucket_index (h : Z) (length : nat) : nat := Z.to_nat (Z.land h (Z.of_nat length - 1)).

Definition matches (k : K) (h : Z) (e : entry) : bool :=
  (hash e =? h) && bool_decide (k = key e).

(** [FindPointer]: the bucket, split before the slot it returns. *)
Fixpoint FindPointer (k : K) (h : Z) (bucket : list entry) : list entry * list entry :=
  match bucket with
  | [] => ([], [])
  | e :: b =>
      if matches k h e then ([], bucket)
      else let '(before, after) := FindPointer k h b in (e :: before, after)
  end.

Definition bucket (m : t) (h : Z) : list entry := nth (bucket_index h (length_ m)) (list_ m) [].

Definition set_bucket (m : t) (h : Z) (b : list entry) : t :=
  {| length_ := length_ m; elems_ := elems_ m;
     list_ := <[bucket_index h (length_ m) := b]> (list_ m) |}.

Definition set_elems (n : nat) (m : t) : t :=
  {| length_ := length_ m; elems_ := n; list_ := list_ m |}.

Definition Lookup (m : t) (k : K) (h : Z) : option positive :=
  addr <$> head (snd (FindPointer k h (bucket m h))).

(** [while (new_length < elems_ * 1.5) new_length *= 2;] on 32 bits. *)
Fixpoint grow (fuel : nat) (elems new_length : nat) : nat :=
  match fuel with
  | O => new_length
  | S fuel => if (2 * new_length <? 3 * elems)%nat then grow fuel elems (2 * new_length) else new_length
  end.

(** Every entry is pushed in front of its new bucket. *)
Definition rehash (new_length : nat) (bs : list (list entry)) : list (list entry) :=
  fold_left (fun acc e =>
    let i := bucket_index (hash e) new_length in
    <[i := e :: nth i acc []]> acc) (concat bs) (replicate new_length []).

(** [count] is incremented for each entry that is moved. *)
Definition Resize (m : t) : outcome t :=
  let new_length := grow 32 (elems_ m) 16 in
  let count := length (concat (list_ m)) in
  assert_that (elems_ m =? count)%nat "elems_ == count" ;;;
  Ok {| length_ := new_length; elems_ := elems_ m; list_ := rehash new_length (list_ m) |}.

Definition HandleTable : outcome t := Resize {| length_ := 0; elems_ := 0; list_ := [] |}.

Definition Insert (m : t) (e : entry) : outcome (t * option positive) :=
  let '(before, after) := FindPointer (key e) (hash e) (bucket m (hash e)) in
  let old := head after in
  let m := set_bucket m (hash e) (before ++ e :: tail after) in
  match old with
  | None =>
      let m := set_elems (S (elems_ m)) m in
      m <~ (if (length_ m <? elems_ m)%nat then Resize m else Ok m) ;;
      Ok (m, None)
  | Some old => Ok (m, Some (addr old))
  end.

Definition Remove (m : t) (k : K) (h : Z) : t * option positive :=
  let '(before, after) := FindPointer k h (bucket m h) in
  match after with
  | [] => (m, None)
  | result :: after => (set_elems (Nat.pred (elems_ m)) (set_bucket m h (before ++ after)), Some (addr result))
  end.
End HandleTable.
#[global] Arguments t : clear implicits.
#[global] Arguments entry : clear implicits.

Section Facts.
Context {K : Type} `{EqDecision K} (H : K -> Z).
Implicit Types (m : t K) (e : entry K) (b : list (entry K)).

Definition content m : list (entry K) := concat (list_ m).

(** An entry carries the hash of its key and sits in the bucket of its hash. *)
Definition placed (n : nat) (l : list (list (entry K))) : Prop :=
  forall i b e, l !! i = Some b -> e ∈ b -> hash e = H (key e) /\ bucket_index (hash e) n = i.

Record inv m : Prop := {
  inv_len : length (list_ m) = length_ m;
  inv_pow : exists j, (j < 40)%nat /\ length_ m = (2 ^ j)%nat;
  inv_placed : placed (length_ m) (list_ m);
  inv_keys : NoDup (map key (content m));
  inv_elems : elems_ m = length (content m)
}.

Lemma bucket_index_lt h j : (bucket_index h (2 ^ j) < 2 ^ j)%nat.
Proof.
  unfold bucket_index. rewrite Nat2Z.inj_pow. change (Z.of_nat 2) with 2.
  replace (2 ^ Z.of_nat j - 1) with (Z.ones (Z.of_nat j)) by (rewrite Z.ones_equiv; lia).
  rewrite Z.land_ones by lia. pose proof (Z.mod_pos_bound h (2 ^ Z.of_nat j) ltac:(apply Z.pow_pos_nonneg; lia)).
  apply Nat2Z.inj_lt. rewrite Z2Nat.id by lia. rewrite Nat2Z.inj_pow. lia.
Qed.

Lemma FindPointer_spec k h b before after : FindPointer k h b = (before, after) ->
  b = before ++ after /\ (forall e, e ∈ before -> matches k h e = false) /\
  (forall e, head after = Some e -> matches k h e = true).
Proof.
  revert before after. induction b as [|e b IH]; intros before after; simpl.
  { intros. simplify_eq. split_and!; set_solver. }
  destruct (matches k h e) eqn:E.
  { intros. simplify_eq. split_and!; [done|set_solver|]. intros ? [= ->]. done. }
  destruct (FindPointer k h b) as [bf af] eqn:EF. intros. simplify_eq.
  destruct (IH bf after eq_refl) as (-> & Hb & Ha). split_and!; [done| |done]. set_solver.
Qed.

Lemma matches_true k h e : matches k h e = true <-> hash e = h /\ key e = k.
Proof. unfold matches. rewrite andb_true_iff, Z.eqb_eq, bool_decide_eq_true. naive_solver. Qed.

Lemma bucket_lookup m h : inv m -> list_ m !! bucket_index h (length_ m) = Some (bucket m h).
Proof.
  intros Hm. destruct (inv_pow m Hm) as (j & _ & Hj). unfold bucket.
  destruct (lookup_lt_is_Some_2 (list_ m) (bucket_index h (length_ m))) as [b Hb].
  { rewrite (inv_len m Hm), Hj. apply bucket_index_lt. }
  rewrite Hb. f_equal. symmetry. by apply nth_lookup_Some.
Qed.

(** The content, with one bucket brought to the front. *)
Lemma concat_insert (l : list (list (entry K))) i b b' : l !! i = Some b ->
  exists r, concat l ≡ₚ b ++ r /\ concat (<[i := b']> l) ≡ₚ b' ++ r.
Proof.
  intros Hb. exists (concat (take i l) ++ concat (drop (S i) l)).
  assert (i < length l)%nat as Hi by (by eapply lookup_lt_Some).
  split.
  - rewrite <-(take_drop_middle l i b) at 1 by done. rewrite concat_app. simpl. solve_Permutation.
  - rewrite insert_take_drop by done. rewrite concat_app. simpl. solve_Permutation.
Qed.

(** Where an entry with a given key can be. *)
Lemma content_bucket m e : inv m -> e ∈ content m -> e ∈ bucket m (H (key e)) /\ hash e = H (key e).
Proof.
  intros Hm (b & Hb & He)%elem_of_concat. apply list_elem_of_lookup in He as [i Hi].
  destruct (inv_placed m Hm i b e Hi Hb) as [Hh Hidx]. split; [|done].
  pose proof (bucket_lookup m (H (key e)) Hm) as HL. rewrite <-Hh, Hidx, Hi in HL. rewrite <-Hh.
  by injection HL as <-.
Qed.

Lemma bucket_content m h e : inv m -> e ∈ bucket m h -> e ∈ content m.
Proof.
  intros Hm He. apply elem_of_concat. exists (bucket m h). split; [done|].
  eapply list_elem_of_lookup_2. by apply bucket_lookup.
Qed.

(** [Lookup] finds exactly the content. *)
Lemma Lookup_content m k a : inv m ->
  Lookup m k (H k) = Some a <-> exists e, e ∈ content m /\ key e = k /\ addr e = a.
Proof.
  intros Hm. unfold Lookup. destruct (FindPointer k (H k) (bucket m (H k))) as [bf af] eqn:E.
  apply FindPointer_spec in E as (Hb & Hbf & Haf). simpl. split.
  - destruct af as [|e af]; [done|]. simpl. intros [= <-]. exists e.
    destruct (proj1 (matches_true _ _ _) (Haf e eq_refl)) as [_ Hk]. split_and!; try done.
    apply (bucket_content m (H k)); [done|]. rewrite Hb. set_solver.
  - intros (e & He & <- & <-). destruct (content_bucket m e Hm He) as [Hin Hh].
    rewrite Hb in Hin. apply elem_of_app in Hin as [Hin|Hin].
    { apply Hbf in Hin. assert (matches (key e) (H (key e)) e = true) by (by apply matches_true). congruence. }
    destruct af as [|e' af]; [set_solver|]. simpl.
    destruct (proj1 (matches_true _ _ _) (Haf e' eq_refl)) as [_ Hk]. do 2 f_equal.
    assert (e' ∈ content m) as He' by (apply (bucket_content m (H (key e))); [done|rewrite Hb; set_solver]).
    pose proof (inv_keys m Hm) as Hnd. by eapply (NoDup_map_inj key).
Qed.

Lemma placed_insert n l i b' : placed n l ->
  (forall e, e ∈ b' -> hash e = H (key e) /\ bucket_index (hash e) n = i) -> placed n (<[i := b']> l).
Proof.
  intros Hl Hb' j b e Hj He. destruct (decide (i = j)) as [->|Hij].
  - apply list_lookup_insert_Some in Hj as [(_ & <- & _)|[? _]]; [by apply Hb'|done].
  - rewrite list_lookup_insert_ne in Hj by done. by eapply Hl.
Qed.

(** Replacing one bucket by another, on an invariant table. *)
Lemma inv_set_bucket m h b' n : inv m ->
  (forall e, e ∈ b' -> hash e = H (key e) /\ bucket_index (hash e) (length_ m) = bucket_index h (length_ m)) ->
  (forall r, content m ≡ₚ bucket m h ++ r -> NoDup (map key (b' ++ r)) /\ n = length (b' ++ r)) ->
  inv (set_elems n (set_bucket m h b')).
Proof.
  intros Hm Hb' Hr.
  destruct (concat_insert (list_ m) (bucket_index h (length_ m)) (bucket m h) b' (bucket_lookup m h Hm))
    as (r & Hc & Hc'). destruct (Hr r Hc) as [Hnd Hn]. split; simpl.
  - rewrite length_insert. apply Hm.
  - apply Hm.
  - apply placed_insert; [apply Hm|done].
  - unfold content. simpl. by rewrite Hc'.
  - unfold content. simpl. by rewrite Hc'.
Qed.

Lemma content_set_bucket m h b' n : inv m -> exists r, content m ≡ₚ bucket m h ++ r /\
  content (set_elems n (set_bucket m h b')) ≡ₚ b' ++ r.
Proof. intros Hm. apply concat_insert. by apply bucket_lookup. Qed.

Lemma bucket_placed m h e : inv m -> e ∈ bucket m h ->
  hash e = H (key e) /\ bucket_index (hash e) (length_ m) = bucket_index h (length_ m).
Proof. intros Hm He. eapply (inv_placed m Hm); [by apply bucket_lookup|done]. Qed.

(** *** Resizing *)

Lemma grow_pow fuel elems j : exists j', (j' <= j + fuel)%nat /\ grow fuel elems (2 ^ j) = (2 ^ j')%nat.
Proof.
  revert j. induction fuel as [|fuel IH]; intros j; cbn [grow]; [exists j; split; [lia|done]|].
  destruct (_ <? _)%nat; [|exists j; split; [lia|done]].
  destruct (IH (S j)) as (j' & Hj & He). exists j'. split; [lia|]. by rewrite Nat.pow_succ_r' in He.
Qed.

Lemma rehash_spec j es acc : length acc = (2 ^ j)%nat -> placed (2 ^ j) acc ->
  (forall e, e ∈ es -> hash e = H (key e)) ->
  let r := fold_left (fun acc e => let i := bucket_index (hash e) (2 ^ j) in
             <[i := e :: nth i acc []]> acc) es acc in
  length r = (2 ^ j)%nat /\ placed (2 ^ j) r /\ concat r ≡ₚ es ++ concat acc.
Proof.
  revert acc. induction es as [|e es IH]; intros acc Hl Hp Hes; cbn [fold_left]; [done|]. cbv zeta.
  set (i := bucket_index (hash e) (2 ^ j)).
  destruct (lookup_lt_is_Some_2 acc i) as [b Hb]; [rewrite Hl; apply bucket_index_lt|].
  rewrite (nth_lookup_Some _ _ _ _ Hb). destruct (IH (<[i := e :: b]> acc)) as (Hl' & Hp' & Hc').
  - by rewrite length_insert.
  - apply placed_insert; [done|]. intros e' [->|He']%elem_of_cons.
    + split; [apply Hes; set_solver|done].
    + by eapply Hp.
  - set_solver.
  - split_and!; [done|done|]. rewrite Hc'.
    destruct (concat_insert acc i b (e :: b) Hb) as (r & -> & ->). solve_Permutation.
Qed.

Lemma placed_replicate n k : placed n (replicate k []).
Proof. intros i b e Hi He. apply lookup_replicate in Hi as [-> _]. set_solver. Qed.

Lemma concat_replicate_nil k : concat (replicate k ([] : list (entry K))) = [].
Proof. induction k; simpl; done. Qed.

Lemma Resize_spec m : placed (length_ m) (list_ m) -> NoDup (map key (content m)) ->
  elems_ m = length (content m) -> exists m', Resize m = Ok m' /\ inv m' /\ content m' ≡ₚ content m.
Proof.
  intros Hp Hk He. destruct (grow_pow 32 (elems_ m) 4) as (j & Hj & Hg). unfold Resize. cbv zeta.
  rewrite (proj2 (Nat.eqb_eq _ (length (concat (list_ m)))) He). cbn [assert_that obind]. eexists. split; [done|].
  replace (grow 32 (elems_ m) 16) with (2 ^ j)%nat by exact (eq_sym Hg). unfold rehash.
  destruct (rehash_spec j (concat (list_ m)) (replicate (2 ^ j) [])) as (Hl & Hpl & Hc).
  - by rewrite length_replicate.
  - apply placed_replicate.
  - intros e (b & Hb & [i Hi]%list_elem_of_lookup)%elem_of_concat. by eapply Hp.
  - rewrite concat_replicate_nil, app_nil_r in Hc. split; [|exact Hc].
    split; simpl; try done; [exists j; split; [lia|done]|..]; unfold content; simpl; by rewrite Hc.
Qed.

Lemma HandleTable_inv : exists m, HandleTable = Ok m /\ inv m.
Proof.
  destruct (Resize_spec {| length_ := 0; elems_ := 0; list_ := [] |}) as (m & E & Hm & _); simpl; [by intros i b e Hi|constructor|done|].
  by exists m.
Qed.

(** The table as a map. *)
Definition at_key m (k : K) (a : positive) : Prop := exists e, e ∈ content m /\ key e = k /\ addr e = a.

Lemma at_key_unique m k a a' : inv m -> at_key m k a -> at_key m k a' -> a = a'.
Proof.
  intros Hm (e & He & Hk & <-) (e' & He' & Hk' & <-). f_equal.
  eapply (NoDup_map_inj key); [apply Hm|done|done|congruence].
Qed.

Lemma no_match_key m h k bf af e : inv m -> h = H k -> bucket m h = bf ++ af ->
  (forall e, e ∈ bf -> matches k h e = false) -> (forall e, head af = Some e -> matches k h e = true) ->
  e ∈ content m -> key e = k -> head af = Some e.
Proof.
  intros Hm -> Hb Hbf Haf He <-. destruct (content_bucket m e Hm He) as [Hin Hh].
  rewrite Hb in Hin. apply elem_of_app in Hin as [Hin|Hin].
  { apply Hbf in Hin. assert (matches (key e) (H (key e)) e = true) by (by apply matches_true). congruence. }
  destruct af as [|e' af]; [set_solver|]. simpl.
  destruct (proj1 (matches_true _ _ _) (Haf e' eq_refl)) as [_ Hk]. f_equal.
  assert (e' ∈ content m) as He' by (apply (bucket_content m (H (key e))); [done|rewrite Hb; set_solver]).
  by eapply (NoDup_map_inj key); [apply Hm|..].
Qed.

Lemma Table_Insert_spec m e : inv m -> hash e = H (key e) ->
  exists m' old, Insert m e = Ok (m', old) /\ inv m' /\ (forall a, old = Some a <-> at_key m (key e) a) /\
  (forall k a, at_key m' k a <-> (k = key e /\ a = addr e) \/ (k <> key e /\ at_key m k a)).
Proof.
  intros Hm Hh. unfold Insert. destruct (FindPointer (key e) (hash e) (bucket m (hash e))) as [bf af] eqn:EF.
  apply FindPointer_spec in EF as (Hb & Hbf & Haf). cbv zeta.
  pose proof (fun x => no_match_key m _ _ bf af x Hm Hh Hb Hbf Haf) as Hhead.
  assert (forall x, x ∈ bf ++ e :: tail af -> hash x = H (key x) /\
    bucket_index (hash x) (length_ m) = bucket_index (hash e) (length_ m)) as Hpl.
  { intros x Hx. rewrite elem_of_app, elem_of_cons in Hx. destruct Hx as [Hx|[->|Hx]]; [|done|];
      (apply bucket_placed; [done|]); rewrite Hb; [set_solver|]. destruct af; set_solver. }
  destruct af as [|old af]; cbn [head tail] in *.
  - set (m1 := set_elems (S (elems_ (set_bucket m (hash e) (bf ++ [e])))) (set_bucket m (hash e) (bf ++ [e]))).
    destruct (content_set_bucket m (hash e) (bf ++ [e]) (S (elems_ m)) Hm) as (r & Hc & Hc').
    rewrite Hb, app_nil_r in Hc. fold m1 in Hc'. change (content m1 ≡ₚ (bf ++ [e]) ++ r) in Hc'.
    assert (content m1 ≡ₚ e :: content m) as Hcm by (rewrite Hc', Hc; solve_Permutation).
    assert (inv m1) as Hm1.
    { apply inv_set_bucket; [done|done|]. intros r' Hr'. rewrite Hb, app_nil_r in Hr'.
      assert ((bf ++ [e]) ++ r' ≡ₚ e :: content m) as Hp by (rewrite Hr'; solve_Permutation). rewrite Hp.
      split; [|simpl; by rewrite (inv_elems m Hm)]. simpl. apply NoDup_cons. split; [|apply Hm].
      intros (x & Hx & Hin)%list_elem_of_fmap. by specialize (Hhead x Hin (eq_sym Hx)). }
    assert (forall mm, content mm ≡ₚ content m1 -> forall k a, at_key mm k a <->
       (k = key e /\ a = addr e) \/ (k <> key e /\ at_key m k a)) as Hat.
    { intros mm Hmm k a. unfold at_key. setoid_rewrite Hmm. setoid_rewrite Hcm. setoid_rewrite elem_of_cons. split.
      - intros (x & [->|Hx] & <- & <-); [by left|]. right. split; [|by eauto].
        intros Hk. by specialize (Hhead x Hx Hk).
      - intros [[-> ->]|[? (x & ? & ? & ?)]]; eauto. }
    assert (forall a, None = Some a <-> at_key m (key e) a) as Hret.
    { intros a. split; [done|]. intros (x & Hx & Hk & _). by specialize (Hhead x Hx Hk). }
    destruct (length_ m1 <? elems_ m1)%nat; cbn [obind]; [|by exists m1, None; split_and!; auto].
    destruct (Resize_spec m1) as (m2 & -> & ? & ?); [apply Hm1|apply Hm1|apply Hm1|]. exists m2, None. split_and!; auto.
  - set (m1 := set_bucket m (hash e) (bf ++ e :: af)).
    destruct (proj1 (matches_true _ _ _) (Haf old eq_refl)) as [Ho Hok].
    assert (m1 = set_elems (elems_ m) m1) as Em1 by done.
    destruct (content_set_bucket m (hash e) (bf ++ e :: af) (elems_ m) Hm) as (r & Hc & Hc').
    rewrite Hb in Hc. fold m1 in Hc'. rewrite <-Em1 in Hc'.
    assert (content m ≡ₚ old :: bf ++ af ++ r) as Hcm by (rewrite Hc; solve_Permutation).
    assert (content m1 ≡ₚ e :: bf ++ af ++ r) as Hcm1 by (rewrite Hc'; solve_Permutation).
    pose proof (inv_keys m Hm) as Hnd. rewrite Hcm in Hnd. cbn [map] in Hnd. apply NoDup_cons in Hnd as [Hnin Hnd].
    exists m1, (Some (addr old)). split_and!; [done|..].
    + rewrite Em1. apply inv_set_bucket; [done|done|]. intros r' Hr'. rewrite Hb in Hr'.
      assert ((bf ++ e :: af) ++ r' ≡ₚ e :: bf ++ af ++ r') as -> by solve_Permutation.
      assert (content m ≡ₚ old :: bf ++ af ++ r') as Hcr by (rewrite Hr'; solve_Permutation).
      split; [|rewrite (inv_elems m Hm), Hcr; done].
      pose proof (inv_keys m Hm) as Hnd'. rewrite Hcr in Hnd'. cbn [map] in Hnd' |- *. by rewrite <-Hok.
    + intros a. split; [intros [= <-]|].
      * exists old. split_and!; [|done|done]. rewrite Hcm. set_solver.
      * intros (x & Hx & Hk & <-). specialize (Hhead x Hx Hk). by injection Hhead as ->.
    + intros k a. unfold at_key. setoid_rewrite Hcm1. setoid_rewrite Hcm. setoid_rewrite elem_of_cons. split.
      * intros (x & [->|Hx] & <- & <-); [by left|]. right. split; [|by eauto].
        intros Hk. apply Hnin. rewrite Hok, <-Hk. by apply list_elem_of_fmap_2.
      * intros [[-> ->]|[Hne (x & [->|Hx] & Hk & Ha)]]; [by eauto|congruence|by eauto].
Qed.

Lemma Remove_spec m k : inv m ->
  inv (fst (Remove m k (H k))) /\ (forall a, snd (Remove m k (H k)) = Some a <-> at_key m k a) /\
  (forall k' a, at_key (fst (Remove m k (H k))) k' a <-> k' <> k /\ at_key m k' a).
Proof.
  intros Hm. unfold Remove. destruct (FindPointer k (H k) (bucket m (H k))) as [bf af] eqn:EF.
  apply FindPointer_spec in EF as (Hb & Hbf & Haf).
  pose proof (fun x => no_match_key m _ _ bf af x Hm eq_refl Hb Hbf Haf) as Hhead.
  destruct af as [|old af]; cbn [head fst snd] in *.
  - assert (forall a, ~ at_key m k a) as Hno.
    { intros a (x & Hx & Hk & _). by specialize (Hhead x Hx Hk). }
    split_and!; [done| |].
    + intros a. split; [done|]. intros Ha. by destruct (Hno a).
    + intros k' a. split; [|tauto]. intros Ha. split; [|done]. intros ->. by destruct (Hno a).
  - destruct (proj1 (matches_true _ _ _) (Haf old eq_refl)) as [Ho Hok].
    set (m1 := set_elems _ (set_bucket m (H k) (bf ++ af))).
    destruct (content_set_bucket m (H k) (bf ++ af) (Nat.pred (elems_ m)) Hm) as (r & Hc & Hc').
    rewrite Hb in Hc. fold m1 in Hc'.
    assert (content m ≡ₚ old :: content m1) as Hcm by (rewrite Hc, Hc'; solve_Permutation).
    pose proof (inv_keys m Hm) as Hnd. rewrite Hcm in Hnd. cbn [map] in Hnd. apply NoDup_cons in Hnd as [Hnin Hnd].
    split_and!.
    + apply inv_set_bucket; [done| |].
      * intros x Hx. apply bucket_placed; [done|]. rewrite Hb. set_solver.
      * intros r' Hr'. rewrite Hb in Hr'.
        assert (content m ≡ₚ old :: (bf ++ af) ++ r') as Hcr by (rewrite Hr'; solve_Permutation).
        pose proof (inv_keys m Hm) as Hnd'. rewrite Hcr in Hnd'. cbn [map] in Hnd'. apply NoDup_cons in Hnd' as [_ Hnd'].
        split; [done|]. by rewrite (inv_elems m Hm), Hcr.
    + intros a. split; [intros [= <-]|].
      * exists old. split_and!; [|done|done]. rewrite Hcm. set_solver.
      * intros (x & Hx & Hk & <-). specialize (Hhead x Hx Hk). by injection Hhead as ->.
    + intros k' a. unfold at_key. setoid_rewrite Hcm. setoid_rewrite elem_of_cons. split.
      * intros (x & Hx & <- & <-). split; [|by eauto]. intros Hk. apply Hnin. rewrite Hok, <-Hk.
        by apply list_elem_of_fmap_2.
      * intros [Hne (x & [->|Hx] & Hk & Ha)]; [congruence|by eauto].
Qed.
End Facts.
End HandleTable.

(** ** [LRUCache] *)

Module LRU.
Section LRU.
Context {K V : Type} `{Countable K}.

(** A handle; its place in the LRU list is its membership in [lru_]. *)
Record LRUHandle := { value : V; charge : Z; key : K; refs : Z; in_cache : bool }.

(** [lru_] lists the evictable handles, oldest first ([lru_.next] is the
    oldest).  Sizes are [size_t] and wrap at 64 bits. *)
Record t := {
  capacity_ : Z;
  usage_ : Z;
  lru_usage_ : Z;
  lru_ : list positive;
  table_ : gmap K positive;
  heap : gmap positive LRUHandle;
  next_address : positive
}.

Definition NewLRUCache (capacity : Z) : t :=
  {| capacity_ := capacity; usage_ := 0; lru_usage_ := 0; lru_ := []; table_ := ∅; heap := ∅;
     next_address := 1 |}.

Definition set_capacity c (m : t) := {| capacity_ := c; usage_ := usage_ m; lru_usage_ := lru_usage_ m;
  lru_ := lru_ m; table_ := table_ m; heap := heap m; next_address := next_address m |}.
Definition set_usage u (m : t) := {| capacity_ := capacity_ m; usage_ := u; lru_usage_ := lru_usage_ m;
  lru_ := lru_ m; table_ := table_ m; heap := heap m; next_address := next_address m |}.
Definition set_lru l u (m : t) := {| capacity_ := capacity_ m; usage_ := usage_ m; lru_usage_ := u;
  lru_ := l; table_ := table_ m; heap := heap m; next_address := next_address m |}.
Definition set_table tb (m : t) := {| capacity_ := capacity_ m; usage_ := usage_ m; lru_usage_ := lru_usage_ m;
  lru_ := lru_ m; table_ := tb; heap := heap m; next_address := next_address m |}.
Definition set_heap hp (m : t) := {| capacity_ := capacity_ m; usage_ := usage_ m; lru_usage_ := lru_usage_ m;
  lru_ := lru_ m; table_ := table_ m; heap := hp; next_address := next_address m |}.

Definition set_refs r (h : LRUHandle) :=
  {| value := value h; charge := charge h; key := key h; refs := r; in_cache := in_cache h |}.
Definition set_in_cache b (h : LRUHandle) :=
  {| value := value h; charge := charge h; key := key h; refs := refs h; in_cache := b |}.
Definition set_charge c (h : LRUHandle) :=
  {| value := value h; charge := c; key := key h; refs := refs h; in_cache := in_cache h |}.
Definition set_value v (h : LRUHandle) :=
  {| value := v; charge := charge h; key := key h; refs := refs h; in_cache := in_cache h |}.

(** Following a handle pointer; a freed handle is not on the heap. *)
Definition deref (m : t) (e : positive) : outcome LRUHandle :=
  match heap m !! e with
  | Some h => Ok h
  | None => Abort "use of a freed handle"
  end.

Definition update (m : t) (e : positive) (f : LRUHandle -> LRUHandle) : t :=
  set_heap (alter f e (heap m)) m.

(** [LRUHandle::Free] calls the deleter and frees the handle. *)
Definition Free (m : t) (e : positive) : outcome t :=
  h <~ deref m e ;;
  assert_that ((refs h =? 1) && in_cache h || (refs h =? 0) && negb (in_cache h))
    "(refs == 1 && in_cache) || (refs == 0 && !in_cache)" ;;;
  Ok (set_heap (delete e (heap m)) m).

Fixpoint FreeAll (m : t) (es : list positive) : outcome t :=
  match es with
  | [] => Ok m
  | e :: es => m <~ Free m e ;; FreeAll m es
  end.

(** Returns whether the last reference is gone. *)
Definition Unref (m : t) (e : positive) : outcome (t * bool) :=
  h <~ deref m e ;;
  assert_that (0 <? refs h) "e->refs > 0" ;;;
  Ok (update m e (set_refs (refs h - 1)), refs h - 1 =? 0).

Definition LRU_Remove (m : t) (e : positive) : outcome t :=
  h <~ deref m e ;;
  assert_that (bool_decide (e ∈ lru_ m)) "e->next != nullptr" ;;;
  Ok (set_lru (filter (fun x => x <> e) (lru_ m)) (u64 (lru_usage_ m - charge h)) m).

Definition LRU_Append (m : t) (e : positive) : outcome t :=
  h <~ deref m e ;;
  assert_that (bool_decide (e ∉ lru_ m)) "e->next == nullptr" ;;;
  Ok (set_lru (lru_ m ++ [e]) (u64 (lru_usage_ m + charge h)) m).

(** The evicted handles are freed by the callers, after the loop.  An
    iteration removes one handle from the list: its length is fuel enough. *)
Fixpoint EvictFromLRU (fuel : nat) (m : t) (delta : Z) (deleted : list positive)
    : outcome (t * list positive) :=
  match lru_ m, fuel with
  | old :: _, S fuel =>
      if capacity_ m <? u64 (usage_ m + delta) then
        h <~ deref m old ;;
        assert_that (in_cache h) "old->in_cache" ;;;
        assert_that (refs h =? 1) "old->refs == 1" ;;;
        m <~ LRU_Remove m old ;;
        let m := set_table (delete (key h) (table_ m)) m in
        let m := update m old (set_in_cache false) in
        r <~ Unref m old ;;
        let m := set_usage (u64 (usage_ (fst r) - charge h)) (fst r) in
        EvictFromLRU fuel m delta (deleted ++ [old])
      else Ok (m, deleted)
  | _, _ => Ok (m, deleted)
  end.

(** [EvictFromLRU] followed by freeing what it evicted. *)
Definition Evict (m : t) (delta : Z) : outcome t :=
  r <~ EvictFromLRU (length (lru_ m)) m delta [] ;;
  FreeAll (fst r) (snd r).

Definition SetCapacity (m : t) (capacity : Z) : outcome t := Evict (set_capacity capacity m) 0.

Definition Lookup (m : t) (k : K) : outcome (t * option positive) :=
  match table_ m !! k with
  | None => Ok (m, None)
  | Some e =>
      h <~ deref m e ;;
      assert_that (in_cache h) "e->in_cache" ;;;
      m <~ (if refs h =? 1 then LRU_Remove m e else Ok m) ;;
      Ok (update m e (set_refs (refs h + 1)), Some e)
  end.

Definition Release (m : t) (e : positive) : outcome t :=
  r <~ Unref m e ;;
  let '(m, last_reference) := r in
  h <~ deref m e ;;
  let m := if last_reference : bool then set_usage (u64 (usage_ m - charge h)) m else m in
  r <~ (if (refs h =? 1) && in_cache h then
          if capacity_ m <? usage_ m then
            assert_that (bool_decide (lru_ m = [])) "lru_.next == &lru_" ;;;
            let m := set_table (delete (key h) (table_ m)) m in
            let m := update m e (set_in_cache false) in
            r <~ Unref m e ;;
            Ok (set_usage (u64 (usage_ (fst r) - charge h)) (fst r), true)
          else
            m <~ LRU_Append m e ;; Ok (m, last_reference)
        else Ok (m, last_reference)) ;;
  let '(m, last_reference) := r in
  if last_reference : bool then Free m e else Ok m.

(** The new handle is allocated and filled in before the eviction, which
    does not know it; the model puts it on the heap right after. *)
Definition Insert (m : t) (k : K) (v : V) (c : Z) : outcome (t * positive) :=
  r <~ EvictFromLRU (length (lru_ m)) m c [] ;;
  let '(m, last_reference_list) := r in
  let e := next_address m in
  let h := {| value := v; charge := c; key := k; refs := 2; in_cache := true |} in
  let m := {| capacity_ := capacity_ m; usage_ := usage_ m; lru_usage_ := lru_usage_ m; lru_ := lru_ m;
              table_ := table_ m; heap := <[e := h]> (heap m); next_address := Pos.succ e |} in
  let old := table_ m !! k in
  let m := set_table (<[k := e]> (table_ m)) m in
  let m := set_usage (u64 (usage_ m + c)) m in
  r <~ match old with
       | None => Ok (m, last_reference_list)
       | Some old =>
           let m := update m old (set_in_cache false) in
           r <~ Unref m old ;;
           let '(m, last) := r in
           if last : bool then
             ho <~ deref m old ;;
             let m := set_usage (u64 (usage_ m - charge ho)) m in
             m <~ LRU_Remove m old ;;
             Ok (m, last_reference_list ++ [old])
           else Ok (m, last_reference_list)
       end ;;
  m <~ FreeAll (fst r) (snd r) ;;
  Ok (m, e).

Definition Erase (m : t) (k : K) : outcome t :=
  match table_ m !! k with
  | None => Ok m
  | Some e =>
      let m := set_table (delete k (table_ m)) m in
      r <~ Unref m e ;;
      let '(m, last_reference) := r in
      h <~ deref m e ;;
      let m := if last_reference : bool then set_usage (u64 (usage_ m - charge h)) m else m in
      m <~ (if last_reference && in_cache h then LRU_Remove m e else Ok m) ;;
      let m := update m e (set_in_cache false) in
      if last_reference : bool then Free m e else Ok m
  end.

Definition Value (m : t) (e : positive) : outcome V := h <~ deref m e ;; Ok (value h).

(** [delta] is a [size_t]: a decrease wraps. *)
Definition ChargeDelta (m : t) (e : positive) (delta : Z) : outcome t :=
  m <~ Evict m delta ;;
  h <~ deref m e ;;
  let m := update m e (set_charge (u64 (charge h + delta))) in
  let m := set_usage (u64 (usage_ m + delta)) m in
  assert_that (1 <? refs h) "e->refs > 1" ;;;
  Ok m.

Definition GetPinnedUsage (m : t) : outcome Z :=
  assert_that (lru_usage_ m <=? usage_ m) "usage_ >= lru_usage_" ;;;
  Ok (usage_ m - lru_usage_ m).

  (** Writing through the pointer a handle holds. *)
Definition SetValue (m : t) (e : positive) (v : V) : t := update m e (set_value v).
End LRU.
#[global] Arguments t : clear implicits.
#[global] Arguments t K V {_ _}.
#[global] Arguments LRUHandle : clear implicits.

Section Invariant.
Context {K V : Type} `{Countable K}.
Implicit Types (m : t K V) (e : positive) (h : LRUHandle K V) (D L : list positive).

Definition charge_of m e : Z := match heap m !! e with Some h => charge h | None => 0 end.
Definition total m (es : list positive) : Z := foldr (fun e acc => charge_of m e + acc) 0 es.

(** [D] lists handles that are evicted but not freed yet, [L] the live ones:
    the states the comment in the source describes. *)
Record inv D L m : Prop := {
  i_cap : 0 <= capacity_ m;
  i_nodup : NoDup (D ++ L);
  i_live : forall e, e ∈ D ++ L <-> is_Some (heap m !! e);
  i_dead : forall e h, e ∈ D -> heap m !! e = Some h -> refs h = 0 /\ in_cache h = false;
  i_fresh : forall e h, heap m !! e = Some h -> (e < next_address m)%positive;
  i_refs : forall e h, e ∈ L -> heap m !! e = Some h -> 1 <= refs h /\ 0 <= charge h;
  i_table : forall k e, table_ m !! k = Some e <->
    exists h, heap m !! e = Some h /\ in_cache h = true /\ key h = k;
  i_lru_nodup : NoDup (lru_ m);
  i_lru : forall e, e ∈ lru_ m <-> exists h, heap m !! e = Some h /\ in_cache h = true /\ refs h = 1;
  i_usage : usage_ m = total m L;
  i_usage_fits : fits 64 (usage_ m);
  i_lru_usage : lru_usage_ m = total m (lru_ m)
}.

(** Between operations nothing waits to be freed, and the cache is over its
    capacity only when there is nothing it could evict. *)
Definition Inv m : Prop := exists L, inv [] L m /\ (usage_ m <= capacity_ m \/ lru_ m = []).

Lemma total_perm m es es' : es ≡ₚ es' -> total m es = total m es'.
Proof. unfold total. induction 1; simpl; lia. Qed.

Lemma total_app m es es' : total m (es ++ es') = total m es + total m es'.
Proof. unfold total. induction es; simpl; lia. Qed.

Lemma total_ext m m' es : (forall e, e ∈ es -> charge_of m e = charge_of m' e) -> total m es = total m' es.
Proof.
  unfold total. induction es as [|e es IH]; intros Hes; [done|]. simpl.
  rewrite Hes by set_solver. rewrite IH by set_solver. done.
Qed.

Lemma total_nonneg m es : (forall e, e ∈ es -> 0 <= charge_of m e) -> 0 <= total m es.
Proof.
  unfold total. induction es as [|e es IH]; intros Hes; [done|]. simpl.
  pose proof (Hes e ltac:(set_solver)). pose proof (IH ltac:(set_solver)). lia.
Qed.

(** Taking one element out of a list without duplicates. *)
Lemma remove_perm (es : list positive) e : NoDup es -> e ∈ es -> es ≡ₚ e :: filter (fun x => x <> e) es.
Proof.
  induction es as [|x es IH]; [set_solver|]. rewrite NoDup_cons, elem_of_cons. intros [Hn Hes] [<-|He].
  - rewrite filter_cons, decide_False by tauto. f_equiv. rewrite filter_all; [done|]. set_solver.
  - rewrite filter_cons, decide_True by set_solver. rewrite <-Permutation_swap. f_equiv. by apply IH.
Qed.

Lemma inv_charge_nonneg D L m e : inv D L m -> e ∈ L -> 0 <= charge_of m e.
Proof.
  intros Hm He. unfold charge_of. destruct (heap m !! e) as [h|] eqn:E; [|done].
  by apply (i_refs D L m Hm e h).
Qed.

Lemma lru_live D L m e : inv D L m -> e ∈ lru_ m -> e ∈ L.
Proof.
  intros Hm He. apply (i_lru D L m Hm) in He as (h & Hh & Hc & _).
  assert (e ∈ D ++ L) as Hin by (apply (i_live D L m Hm); eauto).
  apply elem_of_app in Hin as [Hd|]; [|done]. pose proof (i_dead D L m Hm e h Hd Hh) as [_ ?]. congruence.
Qed.

Lemma lru_sublist D L m : inv D L m -> exists r, L ≡ₚ lru_ m ++ r.
Proof.
  intros Hm. apply submseteq_Permutation. apply NoDup_submseteq; [apply Hm|].
  intros e. by apply (lru_live D L).
Qed.

(** The sizes are consistent: what is pinned is not negative. *)
Lemma inv_pinned D L m : inv D L m -> 0 <= lru_usage_ m <= usage_ m.
Proof.
  intros Hm. destruct (lru_sublist D L m Hm) as [r Hr].
  rewrite (i_lru_usage D L m Hm), (i_usage D L m Hm), (total_perm m _ _ Hr), total_app.
  assert (forall e, e ∈ lru_ m ++ r -> 0 <= charge_of m e) as Hnn.
  { intros e He. eapply inv_charge_nonneg; [done|]. by rewrite Hr. }
  pose proof (total_nonneg m (lru_ m) ltac:(set_solver)).
  pose proof (total_nonneg m r ltac:(set_solver)). lia.
Qed.

Lemma charge_of_insert m m' e h h' x : heap m !! e = Some h -> heap m' = <[e := h']> (heap m) ->
  charge h' = charge h -> charge_of m' x = charge_of m x.
Proof.
  intros Hh Hm' Hc. unfold charge_of. rewrite Hm'. destruct (decide (x = e)) as [->|].
  - by rewrite lookup_insert_eq, Hh.
  - by rewrite lookup_insert_ne by done.
Qed.

Lemma elem_of_remove (es : list positive) e x : x ∈ filter (fun y => y <> e) es <-> x <> e /\ x ∈ es.
Proof. by rewrite list_elem_of_filter. Qed.

(** The total of a list without one of its elements. *)
Lemma total_remove m es e : NoDup es -> e ∈ es -> total m (filter (fun y => y <> e) es) = total m es - charge_of m e.
Proof. intros Hn He. rewrite (total_perm m es _ (remove_perm es e Hn He)). simpl. lia. Qed.

Lemma inv_NoDup_L D L m : inv D L m -> NoDup L.
Proof. intros Hm. pose proof (i_nodup D L m Hm) as Hn. by apply NoDup_app in Hn as (_ & _ & ?). Qed.

Lemma inv_disjoint D L m e : inv D L m -> e ∈ D -> e ∈ L -> False.
Proof. intros Hm. pose proof (i_nodup D L m Hm) as Hn. apply NoDup_app in Hn as (_ & Hx & _). intros. by eapply Hx. Qed.

Lemma charge_le_usage D L m e : inv D L m -> e ∈ L -> 0 <= charge_of m e <= usage_ m.
Proof.
  intros Hm He. split; [by eapply inv_charge_nonneg|]. rewrite (i_usage D L m Hm).
  rewrite (total_perm m L _ (remove_perm L e (inv_NoDup_L D L m Hm) He)). simpl.
  enough (0 <= total m (filter (fun x => x <> e) L)) by lia. apply total_nonneg.
  intros x [_ Hx]%elem_of_remove. by eapply inv_charge_nonneg.
Qed.

Lemma charge_le_lru D L m e : inv D L m -> e ∈ lru_ m -> 0 <= charge_of m e <= lru_usage_ m.
Proof.
  intros Hm He. pose proof (lru_live D L m e Hm He). split; [by eapply inv_charge_nonneg|].
  rewrite (i_lru_usage D L m Hm), (total_perm m (lru_ m) _ (remove_perm (lru_ m) e (i_lru_nodup D L m Hm) He)). simpl.
  enough (0 <= total m (filter (fun x => x <> e) (lru_ m))) by lia. apply total_nonneg.
  intros x [_ Hx]%elem_of_remove. eapply inv_charge_nonneg; [done|]. by eapply lru_live.
Qed.

(** A handle leaves the cache for good: it waits to be freed. *)
Definition killed m e h : t K V :=
  {| capacity_ := capacity_ m; usage_ := usage_ m - charge h; lru_usage_ := lru_usage_ m - charge h;
     lru_ := filter (fun x => x <> e) (lru_ m); table_ := delete (key h) (table_ m);
     heap := <[e := set_refs 0 (set_in_cache false h)]> (heap m); next_address := next_address m |}.

Lemma inv_killed D L m e h : inv D L m -> e ∈ lru_ m -> heap m !! e = Some h ->
  inv (D ++ [e]) (filter (fun x => x <> e) L) (killed m e h).
Proof.
  intros Hm He Hh. pose proof (lru_live D L m e Hm He) as HL.
  pose proof (remove_perm L e (inv_NoDup_L D L m Hm) HL) as HLp.
  assert ((D ++ [e]) ++ filter (fun x => x <> e) L ≡ₚ D ++ L) as Hperm.
  { rewrite HLp at 2. solve_Permutation. }
  pose proof (charge_le_usage D L m e Hm HL) as Hcu. assert (charge_of m e = charge h) as Hc by (unfold charge_of; by rewrite Hh).
  assert (in_cache h = true /\ refs h = 1) as [Hic Hr].
  { apply (i_lru D L m Hm) in He as (h' & Hh' & ? & ?). by simplify_eq. }
  pose proof (fun x => charge_of_insert m (killed m e h) e h _ x Hh eq_refl eq_refl) as Hch.
  destruct Hm as [Hcap Hnd Hlive Hdead Hfr Href Htab Hln Hlru Hu Huf Hlu]. split; simpl.
  - done.
  - by rewrite Hperm.
  - intros x. rewrite Hperm, Hlive, lookup_insert_is_Some. destruct (decide (x = e)) as [->|]; [|naive_solver].
    split; [by left|]. intros _. by eexists.
  - intros x h' Hx. rewrite lookup_insert_Some. intros [[<- <-]|[Hne Hx']]; [done|].
    apply (Hdead x); [set_solver|done].
  - intros x h'. rewrite lookup_insert_Some. intros [[<- <-]|[Hne Hx']]; by eapply Hfr.
  - intros x h' [Hne Hx]%elem_of_remove. rewrite lookup_insert_ne by done. by apply Href.
  - intros k x. rewrite lookup_delete_Some, Htab. split.
    + intros (Hk & h' & Hx & Hi & <-). exists h'. split_and!; try done. rewrite lookup_insert_ne; [done|].
      intros <-. congruence.
    + intros (h' & Hx & Hi & <-). apply lookup_insert_Some in Hx as [[<- <-]|[Hne Hx]]; [done|].
      split; [|by eauto]. intros Hk. apply Hne.
      assert (table_ m !! key h = Some e) by (apply Htab; eauto).
      assert (table_ m !! key h = Some x) by (apply Htab; eauto). congruence.
  - by apply NoDup_filter.
  - intros x. rewrite elem_of_remove, Hlru. split.
    + intros (Hne & h' & Hx & Hi & Hr'). exists h'. by rewrite lookup_insert_ne by done.
    + intros (h' & Hx & Hi & Hr'). apply lookup_insert_Some in Hx as [[<- <-]|[Hne Hx]]; [done|]. split; [done|by eauto].
  - rewrite (total_ext (killed m e h) m) by (intros; apply Hch).
    rewrite total_remove; [lia| |done]. by apply NoDup_app in Hnd as (_ & _ & ?).
  - unfold fits in *. lia.
  - rewrite (total_ext (killed m e h) m) by (intros; apply Hch).
    rewrite total_remove by done. lia.
Qed.

(** A dead handle is freed. *)
Lemma inv_free D L m e : inv (e :: D) L m -> inv D L (set_heap (delete e (heap m)) m).
Proof.
  intros Hm. pose proof (i_nodup _ _ m Hm) as Hnd. simpl in Hnd. apply NoDup_cons in Hnd as [Hn Hnd].
  assert (forall x, x <> e -> charge_of (set_heap (delete e (heap m)) m) x = charge_of m x) as Hch.
  { intros x Hx. unfold charge_of. simpl. by rewrite lookup_delete_ne. }
  assert (forall h, heap m !! e = Some h -> in_cache h = false) as Hdd.
  { intros h Hh. by apply (i_dead _ _ m Hm e h ltac:(set_solver)). }
  destruct Hm as [Hcap _ Hlive Hdead Hfr Href Htab Hln Hlru Hu Huf Hlu]. split; simpl.
  - done.
  - done.
  - intros x. rewrite lookup_delete_is_Some, <-Hlive. simpl. rewrite elem_of_cons. naive_solver.
  - intros x h Hx. rewrite lookup_delete_Some. intros [_ Hh]. apply (Hdead x); [set_solver|done].
  - intros x h. rewrite lookup_delete_Some. intros [_ Hh]. by eapply Hfr.
  - intros x h Hx. rewrite lookup_delete_Some. intros [_ Hh]. by eapply Href.
  - intros k x. rewrite Htab. setoid_rewrite lookup_delete_Some. split.
    + intros (h & Hh & Hi & Hk). exists h. split_and!; try done. intros <-. rewrite (Hdd h Hh) in Hi. done.
    + intros (h & [_ Hh] & Hi & Hk). eauto.
  - done.
  - intros x. rewrite Hlru. setoid_rewrite lookup_delete_Some. split.
    + intros (h & Hh & Hi & Hk). exists h. split_and!; try done. intros <-. rewrite (Hdd h Hh) in Hi. done.
    + intros (h & [_ Hh] & Hi & Hk). eauto.
  - rewrite Hu. symmetry. apply total_ext. intros x Hx. apply Hch. intros ->. apply Hn. set_solver.
  - done.
  - rewrite Hlu. symmetry. apply total_ext. intros x Hx. apply Hch. intros ->.
    apply Hlru in Hx as (h & Hh & Hi & _). rewrite (Hdd h Hh) in Hi. done.
Qed.

(** What eviction may change: handles leave from the old end of the list;
    all others, pinned ones in particular, stay as they are. *)
Record evicted m m' : Prop := {
  ev_capacity : capacity_ m' = capacity_ m;
  ev_next : next_address m' = next_address m;
  ev_usage : usage_ m' <= usage_ m;
  ev_lru : lru_ m' `suffix_of` lru_ m;
  ev_table : table_ m' ⊆ table_ m;
  ev_heap : forall e, e ∉ lru_ m \/ e ∈ lru_ m' -> heap m' !! e = heap m !! e;
  ev_cached : forall k e, table_ m' !! k = Some e -> heap m' !! e = heap m !! e;
  ev_live : forall e h, heap m' !! e = Some h -> heap m !! e = Some h \/ refs h = 0
}.

Lemma evicted_refl m : evicted m m.
Proof. split; try done. auto. Qed.

Lemma evicted_trans m1 m2 m3 : evicted m1 m2 -> evicted m2 m3 -> evicted m1 m3.
Proof.
  intros [] []. split; try congruence; [lia|by etrans|by etrans| | |].
  3: { intros e h He. destruct (ev_live1 e h He); auto. }
  2: { intros k e He. rewrite (ev_cached1 k e He). eapply ev_cached0. by eapply lookup_weaken. }
  intros e He. assert (forall x, x ∈ lru_ m3 -> x ∈ lru_ m2) as H32.
  { destruct ev_lru1 as [r Hr]. rewrite Hr. set_solver. }
  assert (forall x, x ∈ lru_ m2 -> x ∈ lru_ m1) as H21.
  { destruct ev_lru0 as [r Hr]. rewrite Hr. set_solver. }
  rewrite ev_heap1; [apply ev_heap0|]; naive_solver.
Qed.

Lemma evicted_killed m old rest h : lru_ m = old :: rest -> NoDup (lru_ m) -> 0 <= charge h ->
  (forall k, table_ m !! k = Some old -> k = key h) ->
  evicted m (killed m old h) /\ lru_ (killed m old h) = rest.
Proof.
  intros Hl Hn Hc Ht. rewrite Hl in Hn. apply NoDup_cons in Hn as [Hn _].
  assert (lru_ (killed m old h) = rest) as Hr.
  { simpl. rewrite Hl, filter_cons, decide_False by tauto. apply filter_all. set_solver. }
  split; [|done]. split; rewrite ?Hr, ?Hl; simpl; try done.
  - lia.
  - by exists [old].
  - apply delete_subseteq.
  - intros e He. rewrite lookup_insert_ne; [done|]. intros <-. set_solver.
  - intros k e [Hk He]%lookup_delete_Some. rewrite lookup_insert_ne; [done|]. intros <-. by apply Hk, eq_sym, Ht.
  - intros e h' He. apply lookup_insert_Some in He as [[_ <-]|[_ ?]]; auto.
Qed.

(** One iteration of the loop. *)
Lemma EvictFromLRU_step D L m old rest h fuel delta : inv D L m -> lru_ m = old :: rest ->
  heap m !! old = Some h -> capacity_ m < u64 (usage_ m + delta) ->
  EvictFromLRU (S fuel) m delta D = EvictFromLRU fuel (killed m old h) delta (D ++ [old]).
Proof.
  intros Hm Hl Hh Hover. cbn [EvictFromLRU]. rewrite Hl.
  rewrite (proj2 (Z.ltb_lt _ _) Hover). unfold deref at 1. rewrite Hh. cbn [obind].
  assert (old ∈ lru_ m) as Hin by (rewrite Hl; set_solver).
  assert (in_cache h = true /\ refs h = 1) as [Hic Hr].
  { pose proof Hin as Hin'. apply (i_lru D L m Hm) in Hin' as (h' & Hh' & ? & ?). by simplify_eq. }
  assert (charge_of m old = charge h) as Hc by (unfold charge_of; by rewrite Hh).
  pose proof (charge_le_usage D L m old Hm (lru_live D L m old Hm Hin)).
  pose proof (charge_le_lru D L m old Hm Hin). pose proof (inv_pinned D L m Hm).
  pose proof (i_usage_fits D L m Hm) as Hf. unfold fits in Hf.
  rewrite Hic, Hr. cbn [assert_that obind]. change (1 =? 1) with true. cbn [assert_that obind].
  unfold LRU_Remove, deref. rewrite Hh. cbn [obind]. rewrite bool_decide_eq_true_2 by done. cbn [assert_that obind].
  unfold Unref, deref, update. cbn [heap set_heap set_table set_lru]. rewrite lookup_alter_eq, Hh. cbn [fmap option_fmap option_map obind].
  cbn [refs set_in_cache]. rewrite Hr. cbn [assert_that obind Z.ltb Z.compare fst]. f_equal. unfold killed.
  rewrite !wrap_small by (unfold fits; cbn [usage_ lru_usage_ set_heap set_table set_lru]; lia).
  unfold set_usage, set_heap, set_table, set_lru.
  cbn [usage_ lru_usage_ capacity_ lru_ table_ heap next_address]. f_equal.
  apply map_eq. intros x. destruct (decide (x = old)) as [->|].
  - by rewrite lookup_insert_eq, !lookup_alter_eq, Hh.
  - by rewrite lookup_insert_ne, !lookup_alter_ne by done.
Qed.

Lemma EvictFromLRU_spec fuel D L m delta : inv D L m -> (length (lru_ m) <= fuel)%nat ->
  exists m' D' L', EvictFromLRU fuel m delta D = Ok (m', D') /\ inv D' L' m' /\ evicted m m' /\
    (u64 (usage_ m' + delta) <= capacity_ m' \/ lru_ m' = []).
Proof.
  revert D L m. induction fuel as [|fuel IH]; intros D L m Hm Hf.
  { exists m, D, L. destruct (lru_ m) eqn:E; [|simpl in Hf; lia]. cbn [EvictFromLRU]. rewrite E.
    split_and!; auto using evicted_refl. }
  destruct (lru_ m) as [|old rest] eqn:E.
  { exists m, D, L. cbn [EvictFromLRU]. rewrite E. split_and!; auto using evicted_refl. }
  destruct (Z.ltb_spec (capacity_ m) (u64 (usage_ m + delta))) as [Hover|Hle].
  2: { exists m, D, L. cbn [EvictFromLRU]. rewrite E, (proj2 (Z.ltb_ge _ _) Hle).
       split_and!; auto using evicted_refl. }
  assert (old ∈ lru_ m) as Hin by (rewrite E; set_solver).
  pose proof Hin as Hin'. apply (i_lru D L m Hm) in Hin' as (h & Hh & _).
  rewrite (EvictFromLRU_step D L m old rest h) by done.
  destruct (evicted_killed m old rest h E (i_lru_nodup D L m Hm)) as [Hev Hlr].
  { apply (i_refs D L m Hm old h); [by eapply lru_live|done]. }
  { intros k Hk. apply (i_table D L m Hm) in Hk as (h' & ? & _ & ?). by simplify_eq. }
  destruct (IH (D ++ [old]) _ (killed m old h) (inv_killed D L m old h Hm Hin Hh)) as (m' & D' & L' & HE & Hi & Hev' & Hb).
  { rewrite Hlr. simpl in Hf. lia. }
  exists m', D', L'. split_and!; try done. by eapply evicted_trans.
Qed.

Lemma FreeAll_spec D L m : inv D L m ->
  exists hp, FreeAll m D = Ok (set_heap hp m) /\ inv [] L (set_heap hp m) /\
    (forall e, e ∉ D -> hp !! e = heap m !! e).
Proof.
  revert m. induction D as [|e D IH]; intros m Hm.
  { exists (heap m). destruct m. done. }
  assert (is_Some (heap m !! e)) as [h Hh] by (apply (i_live _ _ m Hm); set_solver).
  destruct (i_dead _ _ m Hm e h ltac:(set_solver) Hh) as [Hr Hi].
  cbn [FreeAll]. unfold Free at 1, deref. rewrite Hh. cbn [obind]. rewrite Hr, Hi.
  change (((0 =? 1) && false || (0 =? 0) && negb false)) with true. cbn [assert_that obind].
  destruct (IH _ (inv_free D L m e Hm)) as (hp & HF & Hinv & Hh').
  exists hp. split_and!; [exact HF|exact Hinv|]. intros x Hx. rewrite Hh' by set_solver. simpl.
  rewrite lookup_delete_ne; [done|]. set_solver.
Qed.

(** Freeing what was evicted, seen from before the eviction. *)
Lemma evicted_freed D L m D' L' m' hp : inv D L m -> evicted m m' -> inv D' L' m' ->
  (forall e, e ∈ D' -> e ∈ D \/ e ∈ lru_ m) -> (forall e, e ∉ D' -> hp !! e = heap m' !! e) -> D = [] ->
  inv [] L' (set_heap hp m') -> evicted m (set_heap hp m') /\ hp ⊆ heap m.
Proof.
  intros Hm [] Hm' HD Hhp -> Hfin.
  assert (forall e h, hp !! e = Some h -> heap m !! e = Some h) as Hsub.
  { intros e h He. destruct (i_refs _ _ _ Hfin e h) as [Hr _]; [apply (i_live _ _ _ Hfin); simpl; eauto|done|].
    assert (e ∉ D') as Hnd.
    { intros Hd. assert (e ∈ L') as HL by (apply (i_live _ _ _ Hfin); simpl; eauto). by eapply (inv_disjoint D' L' m'). }
    rewrite Hhp in He by done. destruct (ev_live0 e h He); [done|lia]. }
  split; [|by apply map_subseteq_spec]. split; simpl; try done; [| |by auto].
  2: { intros k e He. rewrite Hhp; [by eapply ev_cached0|]. intros Hd.
       apply (i_table _ _ m' Hm') in He as (h & Hh & Hi & _). destruct (i_dead _ _ m' Hm' e h Hd Hh). congruence. }
  intros e He. rewrite Hhp; [by apply ev_heap0|].
  intros Hd. destruct He as [He|He].
  - destruct (HD e Hd) as [?|?]; [set_solver|done].
  - apply (i_lru _ _ m' Hm') in He as (h & Hh & Hi & _). destruct (i_dead _ _ m' Hm' e h Hd Hh). congruence.
Qed.

(** Whatever the loop evicts was in the list. *)
Lemma EvictFromLRU_deleted D L m D' L' m' : inv D L m -> evicted m m' -> inv D' L' m' ->
  forall e, e ∈ D' -> e ∈ D \/ e ∈ lru_ m.
Proof.
  intros Hm Hev Hm' e Hd. destruct (decide (e ∈ lru_ m)) as [|Hn]; [by right|]. left.
  assert (is_Some (heap m' !! e)) as [h Hh] by (apply (i_live _ _ m' Hm'); set_solver).
  destruct (i_dead _ _ m' Hm' e h Hd Hh) as [Hr Hi].
  rewrite (ev_heap m m' Hev e) in Hh by (by left).
  assert (e ∈ D ++ L) as Hin by (apply (i_live _ _ m Hm); eauto). apply elem_of_app in Hin as [|HL]; [done|].
  destruct (i_refs _ _ m Hm e h HL Hh). lia.
Qed.

Lemma Evict_spec L m delta : inv [] L m ->
  exists m' L', Evict m delta = Ok m' /\ inv [] L' m' /\ evicted m m' /\
    (u64 (usage_ m' + delta) <= capacity_ m' \/ lru_ m' = []) /\ heap m' ⊆ heap m.
Proof.
  intros Hm. unfold Evict.
  destruct (EvictFromLRU_spec (length (lru_ m)) [] L m delta Hm ltac:(done)) as (m' & D' & L' & -> & Hm' & Hev & Hb).
  cbn [obind fst snd]. destruct (FreeAll_spec D' L' m' Hm') as (hp & -> & Hinv & Hhp).
  destruct (evicted_freed [] L m D' L' m' hp) as [Hev' Hsub]; try done; [by eapply EvictFromLRU_deleted|].
  exists (set_heap hp m'), L'. by split_and!.
Qed.

(** *** Changing one handle *)

Definition repinned m e h r lru lu : t K V :=
  {| capacity_ := capacity_ m; usage_ := usage_ m; lru_usage_ := lu; lru_ := lru; table_ := table_ m;
     heap := <[e := set_refs r h]> (heap m); next_address := next_address m |}.

(** A live handle gets another reference count, and is in the list exactly
    when the cache holds its only reference. *)
Lemma inv_repinned D L m e h r lru lu : inv D L m -> e ∈ L -> heap m !! e = Some h -> 1 <= r ->
  NoDup lru -> (forall x, x ∈ lru <-> (x <> e /\ x ∈ lru_ m) \/ (x = e /\ in_cache h = true /\ r = 1)) ->
  lu = total m lru -> inv D L (repinned m e h r lru lu).
Proof.
  intros Hm HL Hh Hr Hnl Hlru' Hlu'.
  pose proof (fun x => charge_of_insert m (repinned m e h r lru lu) e h _ x Hh eq_refl eq_refl) as Hch.
  pose proof (fun Hd => inv_disjoint D L m e Hm Hd HL) as HnD.
  destruct Hm as [Hcap Hnd Hlive Hdead Hfr Href Htab Hln Hlru Hu Huf Hlu]. split; simpl.
  - done.
  - done.
  - intros x. rewrite Hlive, lookup_insert_is_Some. destruct (decide (x = e)) as [->|]; [|naive_solver].
    split; [by left|]. intros _. by eexists.
  - intros x h' Hx. rewrite lookup_insert_Some. intros [[<- <-]|[_ ?]]; [done|by eapply Hdead].
  - intros x h'. rewrite lookup_insert_Some. intros [[<- <-]|[_ ?]]; by eapply Hfr.
  - intros x h' Hx. rewrite lookup_insert_Some. intros [[<- <-]|[_ ?]]; [|by eapply Href].
    simpl. split; [done|]. by apply (Href e h).
  - intros k x. rewrite Htab. setoid_rewrite lookup_insert_Some. split.
    + intros (h' & Hx & Hi & Hk). destruct (decide (x = e)) as [->|]; [|by eauto 7]. simplify_eq. eauto 7.
    + intros (h' & [[<- <-]|[_ Hx]] & Hi & Hk); eauto.
  - done.
  - intros x. rewrite Hlru', Hlru. setoid_rewrite lookup_insert_Some. split.
    + intros [[Hne (h' & Hx & Hi & Hk)]|(-> & Hi & ->)]; eauto 8.
    + intros (h' & [[<- <-]|[Hne Hx]] & Hi & Hk); [by right|]. left. eauto.
  - rewrite Hu. symmetry. apply total_ext. intros. apply Hch.
  - done.
  - rewrite Hlu'. symmetry. apply total_ext. intros. apply Hch.
Qed.

(** A pinned handle leaves the table and lives on until it is released. *)
Definition detached m e h : t K V :=
  {| capacity_ := capacity_ m; usage_ := usage_ m; lru_usage_ := lru_usage_ m; lru_ := lru_ m;
     table_ := delete (key h) (table_ m);
     heap := <[e := set_refs (refs h - 1) (set_in_cache false h)]> (heap m); next_address := next_address m |}.

Lemma inv_detached D L m e h : inv D L m -> heap m !! e = Some h -> in_cache h = true -> 2 <= refs h ->
  inv D L (detached m e h).
Proof.
  intros Hm Hh Hic Hr.
  pose proof (fun x => charge_of_insert m (detached m e h) e h _ x Hh eq_refl eq_refl) as Hch.
  assert (e ∉ D) as HnD.
  { intros Hd. destruct (i_dead D L m Hm e h Hd Hh). congruence. }
  destruct Hm as [Hcap Hnd Hlive Hdead Hfr Href Htab Hln Hlru Hu Huf Hlu]. split; simpl.
  - done.
  - done.
  - intros x. rewrite Hlive, lookup_insert_is_Some. destruct (decide (x = e)) as [->|]; [|naive_solver].
    split; [by left|]. intros _. by eexists.
  - intros x h' Hx. rewrite lookup_insert_Some. intros [[<- <-]|[_ ?]]; [done|by eapply Hdead].
  - intros x h'. rewrite lookup_insert_Some. intros [[<- <-]|[_ ?]]; by eapply Hfr.
  - intros x h' Hx. rewrite lookup_insert_Some. intros [[<- <-]|[_ ?]]; [|by eapply Href].
    simpl. split; [lia|]. by apply (Href e h).
  - intros k x. rewrite lookup_delete_Some, Htab. setoid_rewrite lookup_insert_Some. split.
    + intros (Hk & h' & Hx & Hi & Hk'). destruct (decide (x = e)) as [->|]; [|by eauto 7]. simplify_eq.
    + intros (h' & [[<- <-]|[Hne Hx]] & Hi & Hk); [done|]. split; [|by eauto]. intros <-. apply Hne.
      assert (table_ m !! key h = Some e) by (apply Htab; eauto).
      assert (table_ m !! key h = Some x) by (apply Htab; eauto). congruence.
  - done.
  - intros x. rewrite Hlru. setoid_rewrite lookup_insert_Some. split.
    + intros (h' & Hx & Hi & Hk). destruct (decide (x = e)) as [->|]; [|by eauto 8]. simplify_eq. lia.
    + intros (h' & [[<- <-]|[Hne Hx]] & Hi & Hk); [done|by eauto].
  - rewrite Hu. symmetry. apply total_ext. intros. apply Hch.
  - done.
  - rewrite Hlu. symmetry. apply total_ext. intros. apply Hch.
Qed.

(** The last reference to a handle outside the table goes away. *)
Lemma inv_dropped L m e h : inv [] L m -> heap m !! e = Some h -> in_cache h = false ->
  inv [] (filter (fun x => x <> e) L)
    (set_heap (delete e (heap m)) (set_usage (usage_ m - charge h) m)).
Proof.
  intros Hm Hh Hic. assert (e ∈ L) as HL by (apply (i_live [] L m Hm); eauto).
  pose proof (inv_NoDup_L [] L m Hm) as HNL. pose proof (charge_le_usage [] L m e Hm HL) as Hcu.
  assert (charge_of m e = charge h) as Hc by (unfold charge_of; by rewrite Hh).
  set (m' := set_heap _ _).
  assert (forall x, x <> e -> charge_of m' x = charge_of m x) as Hch.
  { intros x Hx. unfold charge_of. simpl. by rewrite lookup_delete_ne. }
  destruct Hm as [Hcap Hnd Hlive Hdead Hfr Href Htab Hln Hlru Hu Huf Hlu]. simpl in Hlive. split; simpl.
  - done.
  - by apply NoDup_filter.
  - intros x. rewrite elem_of_remove, lookup_delete_is_Some, Hlive. naive_solver.
  - set_solver.
  - intros x h'. rewrite lookup_delete_Some. intros [_ ?]. by eapply Hfr.
  - intros x h' [Hne Hx]%elem_of_remove. rewrite lookup_delete_ne by done. by apply Href.
  - intros k x. rewrite Htab. setoid_rewrite lookup_delete_Some. split.
    + intros (h' & Hx & Hi & Hk). exists h'. split_and!; try done. intros <-. simplify_eq. congruence.
    + intros (h' & [_ Hx] & Hi & Hk). eauto.
  - done.
  - intros x. rewrite Hlru. setoid_rewrite lookup_delete_Some. split.
    + intros (h' & Hx & Hi & Hk). exists h'. split_and!; try done. intros <-. simplify_eq. congruence.
    + intros (h' & [_ Hx] & Hi & Hk). eauto.
  - rewrite (total_ext m' m) by (intros x [Hx _]%elem_of_remove; by apply Hch).
    rewrite total_remove by done. lia.
  - unfold fits in *. lia.
  - rewrite Hlu. symmetry. apply total_ext. intros x Hx. apply Hch. intros ->.
    apply Hlru in Hx as (h' & ? & ? & _). simplify_eq. congruence.
Qed.

(** A new handle, referenced by the table and by the caller. *)
Definition added m k v c : t K V :=
  {| capacity_ := capacity_ m; usage_ := usage_ m + c; lru_usage_ := lru_usage_ m; lru_ := lru_ m;
     table_ := <[k := next_address m]> (table_ m);
     heap := <[next_address m := {| value := v; charge := c; key := k; refs := 2; in_cache := true |}]> (heap m);
     next_address := Pos.succ (next_address m) |}.

Lemma inv_added D L m k v c : inv D L m -> table_ m !! k = None -> 0 <= c -> usage_ m + c < 2 ^ 64 ->
  inv D (next_address m :: L) (added m k v c).
Proof.
  intros Hm Hk Hc Hb. set (e := next_address m).
  assert (heap m !! e = None) as Hne.
  { destruct (heap m !! e) as [h|] eqn:E; [|done]. apply (i_fresh D L m Hm) in E. lia. }
  assert (e ∉ D ++ L) as Hnin by (rewrite (i_live D L m Hm), Hne; by intros [? ?]).
  assert (forall x, x <> e -> charge_of (added m k v c) x = charge_of m x) as Hch.
  { intros x Hx. unfold charge_of. simpl. by rewrite lookup_insert_ne. }
  assert (charge_of (added m k v c) e = c) as Hce by (unfold charge_of; simpl; by rewrite lookup_insert_eq).
  destruct Hm as [Hcap Hnd Hlive Hdead Hfr Href Htab Hln Hlru Hu Huf Hlu]. split; simpl.
  - done.
  - rewrite <-Permutation_middle. by apply NoDup_cons.
  - intros x. rewrite <-Permutation_middle, elem_of_cons, lookup_insert_is_Some, Hlive. fold e.
    destruct (decide (x = e)) as [->|]; [tauto|]. naive_solver.
  - intros x h' Hx. rewrite lookup_insert_Some. intros [[<- <-]|[_ ?]]; [|by eapply Hdead].
    exfalso. apply Hnin, elem_of_app. by left.
  - intros x h'. rewrite lookup_insert_Some. intros [[<- <-]|[_ Hx]]; [lia|]. apply Hfr in Hx. lia.
  - intros x h' Hx. rewrite lookup_insert_Some. intros [[<- <-]|[? ?]]; [simpl; lia|].
    apply elem_of_cons in Hx as [->|Hx]; [done|]. by apply (Href x).
  - intros k' x. rewrite lookup_insert_Some, Htab. setoid_rewrite lookup_insert_Some. fold e. split.
    + intros [[<- <-]|[Hkk (h' & Hx & Hi & Hk')]]; [eauto 8|]. exists h'. split_and!; try done. right.
      split; [|done]. congruence.
    + intros (h' & [[<- <-]|[Hx1 Hx]] & Hi & <-); [by left|]. right. split; [|by eauto]. intros ->.
      assert (table_ m !! key h' = Some x) by (apply Htab; eauto). congruence.
  - done.
  - intros x. rewrite Hlru. setoid_rewrite lookup_insert_Some. fold e. split.
    + intros (h' & Hx & Hi & Hr). exists h'. split_and!; try done. right. split; [congruence|done].
    + intros (h' & [[<- <-]|[Hx1 Hx]] & Hi & Hr); [done|by eauto].
  - fold e. unfold total at 1. simpl. fold (total (added m k v c) L). rewrite Hce.
    rewrite (total_ext (added m k v c) m); [lia|]. intros x Hx. apply Hch. set_solver.
  - unfold fits in *. lia.
  - rewrite Hlu. symmetry. apply total_ext. intros x Hx. apply Hch. intros ->.
    apply Hlru in Hx as (h' & ? & _). congruence.
Qed.

(** The charge of a pinned handle changes. *)
Definition recharged m e h d : t K V :=
  {| capacity_ := capacity_ m; usage_ := usage_ m + d; lru_usage_ := lru_usage_ m; lru_ := lru_ m;
     table_ := table_ m; heap := <[e := set_charge (charge h + d) h]> (heap m); next_address := next_address m |}.

Lemma inv_recharged L m e h d : inv [] L m -> heap m !! e = Some h -> 2 <= refs h -> 0 <= charge h + d ->
  usage_ m + d < 2 ^ 64 -> inv [] L (recharged m e h d).
Proof.
  intros Hm Hh Hr Hc Hb. assert (e ∈ L) as HL by (apply (i_live [] L m Hm); eauto).
  pose proof (inv_NoDup_L [] L m Hm) as HNL. pose proof (charge_le_usage [] L m e Hm HL) as Hcu.
  assert (charge_of m e = charge h) as Hce by (unfold charge_of; by rewrite Hh).
  assert (forall x, x <> e -> charge_of (recharged m e h d) x = charge_of m x) as Hch.
  { intros x Hx. unfold charge_of. simpl. by rewrite lookup_insert_ne. }
  assert (charge_of (recharged m e h d) e = charge h + d) as Hce'.
  { unfold charge_of. simpl. by rewrite lookup_insert_eq. }
  destruct Hm as [Hcap Hnd Hlive Hdead Hfr Href Htab Hln Hlru Hu Huf Hlu]. simpl in Hlive. split; simpl.
  - done.
  - done.
  - intros x. rewrite Hlive, lookup_insert_is_Some. destruct (decide (x = e)) as [->|]; [|naive_solver].
    split; [by left|]. intros _. by eexists.
  - set_solver.
  - intros x h'. rewrite lookup_insert_Some. intros [[<- <-]|[_ ?]]; by eapply Hfr.
  - intros x h' Hx. rewrite lookup_insert_Some. intros [[<- <-]|[_ ?]]; [|by eapply Href]. simpl. lia.
  - intros k x. rewrite Htab. setoid_rewrite lookup_insert_Some. split.
    + intros (h' & Hx & Hi & Hk). destruct (decide (x = e)) as [->|]; [|by eauto 7]. simplify_eq. eauto 7.
    + intros (h' & [[<- <-]|[_ Hx]] & Hi & Hk); eauto.
  - done.
  - intros x. rewrite Hlru. setoid_rewrite lookup_insert_Some. split.
    + intros (h' & Hx & Hi & Hk). destruct (decide (x = e)) as [->|]; [|by eauto 8]. simplify_eq. lia.
    + intros (h' & [[<- <-]|[Hne Hx]] & Hi & Hk); [simpl in *; lia|by eauto].
  - rewrite (total_perm _ L _ (remove_perm L e HNL HL)). simpl. rewrite Hce'.
    rewrite (total_ext (recharged m e h d) m) by (intros x [Hx _]%elem_of_remove; by apply Hch).
    rewrite total_remove by done. lia.
  - unfold fits in *. lia.
  - rewrite Hlu. symmetry. apply total_ext. intros x Hx. apply Hch. intros ->.
    apply Hlru in Hx as (h' & ? & _ & ?). simplify_eq. lia.
Qed.

Lemma wrap_add a d : fits 64 (a + d) -> u64 (a + u64 d) = a + d.
Proof. intros Hf. unfold wrap. rewrite Zplus_mod_idemp_r. by apply (wrap_small 64). Qed.

(** *** The operations *)

(** The caller holds a reference to the handle. *)
Definition held m e : Prop :=
  exists h, heap m !! e = Some h /\ (if in_cache h then 2 <= refs h else 1 <= refs h).

Lemma Inv_live m e h : Inv m -> heap m !! e = Some h -> 1 <= refs h /\ 0 <= charge h.
Proof.
  intros (L & Hm & _) Hh. apply (i_refs _ _ m Hm e h); [|done]. apply (i_live _ _ m Hm). eauto.
Qed.

Lemma table_heap m k e : Inv m -> table_ m !! k = Some e ->
  exists h, heap m !! e = Some h /\ in_cache h = true /\ key h = k /\ 1 <= refs h.
Proof.
  intros Hi Ht. pose proof Hi as (L & Hm & _). apply (i_table _ _ m Hm) in Ht as (h & Hh & ? & ?).
  exists h. split_and!; try done. by apply (Inv_live m e h).
Qed.

Lemma alter_Some {A} (f : A -> A) (hp : gmap positive A) e x : hp !! e = Some x -> alter f e hp = <[e := f x]> hp.
Proof.
  intros Hx. apply map_eq. intros i. destruct (decide (i = e)) as [->|].
  - by rewrite lookup_alter_eq, lookup_insert_eq, Hx.
  - by rewrite lookup_alter_ne, lookup_insert_ne.
Qed.

Lemma set_refs_same h : set_refs (refs h) h = h.
Proof. by destruct h. Qed.

Lemma remove_notin (es : list positive) e : e ∉ es -> filter (fun x => x <> e) es = es.
Proof. intros Hn. apply filter_all. intros x Hx ->. done. Qed.

(** Pinning a cached handle. *)
Lemma Lookup_found m k e h : Inv m -> table_ m !! k = Some e -> heap m !! e = Some h ->
  exists m', Lookup m k = Ok (m', Some e) /\ Inv m' /\ capacity_ m' = capacity_ m /\ usage_ m' = usage_ m /\
    table_ m' = table_ m /\ heap m' = <[e := set_refs (refs h + 1) h]> (heap m).
Proof.
  intros Hi Ht Hh. pose proof Hi as (L & Hm & Hb).
  destruct (table_heap m k e Hi Ht) as (h' & Hh' & Hic & Hk & Hr). simplify_eq.
  assert (e ∈ L) as HL by (apply (i_live [] L m Hm); eauto).
  set (lru' := filter (fun x => x <> e) (lru_ m)).
  assert (Inv (repinned m e h (refs h + 1) lru' (total m lru'))) as HI'.
  { exists L. split.
    - apply inv_repinned; try done; [lia|apply NoDup_filter, Hm|].
      intros x. unfold lru'. rewrite elem_of_remove. split; [by left|]. intros [?|(_ & _ & ?)]; [done|lia].
    - destruct Hb as [Hb|Hb]; [by left|right]. simpl. unfold lru'. by rewrite Hb. }
  unfold Lookup. rewrite Ht. unfold deref. rewrite Hh. cbn [obind]. rewrite Hic. cbn [assert_that obind].
  destruct (Z.eqb_spec (refs h) 1) as [Hr1|Hr1].
  - assert (e ∈ lru_ m) as Hin by (apply (i_lru [] L m Hm); eauto).
    unfold LRU_Remove, deref. rewrite Hh. cbn [obind]. rewrite bool_decide_eq_true_2 by done. cbn [assert_that obind].
    eexists. split; [done|]. unfold update. rewrite (alter_Some _ _ e h) by done.
    pose proof (charge_le_lru [] L m e Hm Hin). pose proof (i_usage_fits [] L m Hm) as Hf.
    pose proof (inv_pinned [] L m Hm). unfold fits in Hf.
    assert (charge_of m e = charge h) as Hc by (unfold charge_of; by rewrite Hh).
    rewrite wrap_small by (unfold fits; lia). split; [|done].
    assert (total m lru' = lru_usage_ m - charge h) as Ht'.
    { unfold lru'. rewrite total_remove, (i_lru_usage [] L m Hm) by (done || apply Hm). lia. }
    rewrite Ht' in HI'. exact HI'.
  - assert (e ∉ lru_ m) as Hnin.
    { intros Hin. apply (i_lru [] L m Hm) in Hin as (h' & ? & _ & ?). by simplify_eq. }
    eexists. split; [done|]. unfold update. rewrite (alter_Some _ _ e h) by done. split; [|done].
    unfold lru' in HI'. rewrite remove_notin, <-(i_lru_usage [] L m Hm) in HI' by done. exact HI'.
Qed.

Lemma Lookup_missing m k : table_ m !! k = None -> Lookup m k = Ok (m, None).
Proof. intros Ht. unfold Lookup. by rewrite Ht. Qed.

(** Releasing a handle that stays, with other references or in the list. *)
Lemma inv_released L m e h : inv [] L m -> heap m !! e = Some h -> in_cache h = true -> refs h = 2 ->
  inv [] L (repinned m e h 1 (lru_ m ++ [e]) (lru_usage_ m + charge h)) /\ e ∉ lru_ m.
Proof.
  intros Hm Hh Hic Hr. assert (e ∈ L) as HL by (apply (i_live [] L m Hm); eauto).
  assert (e ∉ lru_ m) as Hnin.
  { intros Hin. apply (i_lru [] L m Hm) in Hin as (h' & ? & _ & ?). simplify_eq. lia. }
  split; [|done]. apply inv_repinned; try done.
  - apply NoDup_app. split_and!; [apply Hm|set_solver|apply NoDup_singleton].
  - intros x. rewrite elem_of_app, list_elem_of_singleton. split; [|naive_solver].
    intros [Hx| ->]; [left|by right]. split; [|done]. by intros ->.
  - rewrite total_app, <-(i_lru_usage [] L m Hm). simpl. unfold charge_of. rewrite Hh. lia.
Qed.

Lemma Release_spec m e h : Inv m -> heap m !! e = Some h -> (if in_cache h then 2 <= refs h else 1 <= refs h) ->
  exists m', Release m e = Ok m' /\ Inv m' /\ capacity_ m' = capacity_ m /\
    ((heap m' = <[e := set_refs (refs h - 1) h]> (heap m) /\ table_ m' = table_ m) \/
     (heap m' = delete e (heap m) /\ table_ m' = (if in_cache h then delete (key h) (table_ m) else table_ m) /\
      (in_cache h = true -> capacity_ m < usage_ m) /\ refs h = (if in_cache h then 2 else 1))).
Proof.
  intros Hi Hh Hheld. pose proof Hi as (L & Hm & Hb). pose proof (Inv_live m e h Hi Hh) as [Hr1 Hc0].
  assert (e ∈ L) as HL by (apply (i_live [] L m Hm); eauto).
  assert (charge_of m e = charge h) as Hce by (unfold charge_of; by rewrite Hh).
  pose proof (charge_le_usage [] L m e Hm HL) as Hcu. pose proof (i_usage_fits [] L m Hm) as Hf. unfold fits in Hf.
  unfold Release, Unref, deref, update. rewrite Hh. cbn [obind]. rewrite (proj2 (Z.ltb_lt _ _)) by lia.
  cbn [assert_that obind fst]. rewrite (alter_Some _ _ e h) by done. cbn [heap set_heap].
  rewrite lookup_insert_eq. cbn [obind refs set_refs charge in_cache key].
  destruct (in_cache h) eqn:Hic.
  - rewrite (proj2 (Z.eqb_neq (refs h - 1) 0)) by lia. destruct (Z.eqb_spec (refs h - 1) 1) as [Hr2|Hr2]; cbn [andb].
    + assert (refs h = 2) as Hr by lia. destruct (inv_released L m e h Hm Hh Hic Hr) as [Hinv Hnin].
      cbn [capacity_ usage_ set_heap]. destruct (Z.ltb_spec (capacity_ m) (usage_ m)) as [Hover|Hle].
      * destruct Hb as [Hb|Hb]; [lia|]. cbn [lru_ set_heap set_usage]. rewrite Hb.
        rewrite bool_decide_eq_true_2 by done. cbn [assert_that obind heap set_heap set_table].
        rewrite (alter_Some _ _ e (set_refs (refs h - 1) h)) by apply lookup_insert_eq. rewrite lookup_insert_eq.
        cbn [obind refs set_in_cache set_refs]. rewrite (proj2 (Z.ltb_lt _ _)) by lia. cbn [assert_that obind fst].
        rewrite (alter_Some _ _ e (set_in_cache false (set_refs (refs h - 1) h))) by apply lookup_insert_eq.
        unfold Free, deref. cbn [heap set_usage set_heap]. rewrite lookup_insert_eq. cbn [obind refs set_refs in_cache set_in_cache].
        replace (refs h - 1 - 1) with 0 by lia. change ((0 =? 1) && false || (0 =? 0) && negb false) with true.
        cbn [assert_that obind]. eexists. split; [done|]. cbn [usage_ set_usage set_heap set_table heap table_ capacity_].
        rewrite wrap_small by (unfold fits; lia).
        pose proof (inv_free [] _ _ e (inv_killed [] L _ e (set_refs 1 h) Hinv ltac:(simpl; set_solver) ltac:(simpl; apply lookup_insert_eq))) as Hfin.
        split_and!; [|done|].
        -- eexists. split; [|right; simpl; exact Hb].
           match type of Hfin with inv _ _ ?a => match goal with |- inv _ _ ?b => replace b with a; [exact Hfin|] end end.
           unfold killed, repinned, set_heap, set_usage, set_table. simpl.
           f_equal; rewrite ?Hb; simpl; try done.
           ++ rewrite (i_lru_usage [] L m Hm), Hb. simpl. lia.
           ++ rewrite filter_cons, decide_False by tauto. done.
           ++ by rewrite !insert_insert_eq.
        -- right. split_and!; [|done|done|done]. by rewrite !insert_insert_eq, delete_insert_eq.
      * unfold LRU_Append, deref. cbn [heap set_heap]. rewrite lookup_insert_eq. cbn [obind lru_ set_heap].
        rewrite bool_decide_eq_true_2 by done. cbn [assert_that obind]. eexists. split; [done|].
        cbn [charge set_refs lru_usage_ set_heap]. pose proof (inv_pinned [] L m Hm).
        pose proof (inv_pinned [] L _ Hinv) as Hp. cbn [lru_usage_ usage_ repinned] in Hp.
        rewrite wrap_small by (unfold fits; lia). split_and!; [|done|by left].
        exists L. split; [|by left]. rewrite Hr. exact Hinv.
    + eexists. split; [done|]. split_and!; [|done|by left]. exists L. split; [|done].
      assert (e ∉ lru_ m) as Hnin.
      { intros Hin. apply (i_lru [] L m Hm) in Hin as (h' & ? & _ & ?). simplify_eq. lia. }
      apply (inv_repinned [] L m e h (refs h - 1) (lru_ m) (lru_usage_ m)); try done; [lia|apply Hm| |apply Hm].
      intros x. split; [|intros [[? ?]|(_ & _ & ?)]; [done|lia]]. intros Hx. left. split; [|done]. by intros ->.
  - cbn [andb]. rewrite andb_false_r. destruct (Z.eqb_spec (refs h - 1) 0) as [Hr0|Hr0].
    + cbn [obind]. unfold Free, deref. cbn [heap set_usage set_heap]. rewrite lookup_insert_eq.
      cbn [obind refs set_refs in_cache]. rewrite Hic, Hr0. change ((0 =? 1) && false || (0 =? 0) && negb false) with true.
      cbn [assert_that obind]. eexists. split; [done|]. cbn [usage_ set_usage set_heap heap table_ capacity_].
      rewrite wrap_small by (unfold fits; lia). rewrite delete_insert_eq.
      split_and!; [|done|right; split_and!; [done|done|done|lia]]. exists (filter (fun x => x <> e) L).
      split; [exact (inv_dropped L m e h Hm Hh Hic)|]. simpl. destruct Hb as [Hb|Hb]; [left; lia|by right].
    + eexists. split; [done|]. split_and!; [|done|by left]. exists L. split; [|done].
      apply (inv_repinned [] L m e h (refs h - 1) (lru_ m) (lru_usage_ m)); try done; [lia|apply Hm| |apply Hm].
      intros x. split; [|intros [[? ?]|(_ & ? & ?)]; [done|congruence]]. intros Hx. left. split; [|done]. intros ->.
      apply (i_lru [] L m Hm) in Hx as (h' & ? & ? & ?). simplify_eq. congruence.
Qed.

Lemma SetCapacity_spec m c : Inv m -> 0 <= c ->
  exists m', SetCapacity m c = Ok m' /\ Inv m' /\ capacity_ m' = c /\ evicted (set_capacity c m) m'.
Proof.
  intros (L & Hm & Hb) Hc. unfold SetCapacity.
  assert (inv [] L (set_capacity c m)) as Hm' by (destruct Hm; by split).
  destruct (Evict_spec L _ 0 Hm') as (m' & L' & -> & Hi & Hev & Hb' & _). exists m'.
  split_and!; [done| |apply Hev|done]. exists L'. split; [done|]. rewrite Z.add_0_r in Hb'.
  by rewrite wrap_small in Hb' by apply Hi.
Qed.

(** Pinned handles are untouched by eviction, and so is what stays cached. *)
Lemma evicted_pinned m m' e h : Inv m -> evicted m m' -> heap m !! e = Some h -> refs h <> 1 \/ in_cache h = false -> heap m' !! e = Some h.
Proof.
  intros (L & Hm & _) Hev Hh Hr. rewrite (ev_heap m m' Hev); [done|]. left. intros Hin.
  apply (i_lru _ _ m Hm) in Hin as (h' & ? & ? & ?). simplify_eq. destruct Hr; congruence.
Qed.

(** [d] is the signed change; a decrease is passed as its wrapped value. *)
Lemma ChargeDelta_spec m e h d : Inv m -> heap m !! e = Some h -> 2 <= refs h -> 0 <= charge h + d ->
  usage_ m + d < 2 ^ 64 ->
  exists m', ChargeDelta m e (u64 d) = Ok m' /\ Inv m' /\ capacity_ m' = capacity_ m /\
    table_ m' ⊆ table_ m /\ heap m' !! e = Some (set_charge (charge h + d) h) /\
    (forall e' h', heap m !! e' = Some h' -> e' <> e -> refs h' <> 1 \/ in_cache h' = false -> heap m' !! e' = Some h') /\
    (forall e' h', heap m' !! e' = Some h' -> e' <> e -> heap m !! e' = Some h') /\
    usage_ m' <= usage_ m + d.
Proof.
  intros Hi Hh Hr Hc Hu. pose proof Hi as (L & Hm & Hb). unfold ChargeDelta.
  destruct (Evict_spec L m (u64 d) Hm) as (m1 & L1 & -> & Hm1 & Hev & Hb1 & Hsub). cbn [obind].
  assert (heap m1 !! e = Some h) as Hh1 by (apply (evicted_pinned m m1); try done; lia).
  assert (e ∈ L1) as HL1 by (apply (i_live [] L1 m1 Hm1); eauto).
  pose proof (charge_le_usage [] L1 m1 e Hm1 HL1) as Hcu. unfold charge_of in Hcu. rewrite Hh1 in Hcu.
  pose proof (ev_usage m m1 Hev). unfold deref. rewrite Hh1. cbn [obind].
  rewrite (proj2 (Z.ltb_lt _ _)) by lia. cbn [assert_that obind].
  eexists. split; [done|]. unfold update. rewrite (alter_Some _ _ e h) by done.
  rewrite !wrap_add in * by (unfold fits; cbn [usage_ set_heap]; lia).
  cbn [usage_ set_heap set_usage table_ heap capacity_ lru_]. split_and!.
  - exists L1. split; [|exact Hb1]. by apply (inv_recharged L1 m1 e h d); try done; lia.
  - apply Hev.
  - apply Hev.
  - by rewrite lookup_insert_eq.
  - intros e' h' Hh' Hne Hr'. rewrite lookup_insert_ne by done. by apply (evicted_pinned m m1).
  - intros e' h' Hh' Hne. rewrite lookup_insert_ne in Hh' by done. by eapply lookup_weaken.
  - lia.
Qed.

(** References held outside the cache. *)
Definition ext h : Z := refs h - (if in_cache h then 1 else 0).

(** Handles the callers hold stay valid and keep their value. *)
Definition survives m m' : Prop :=
  forall e h, heap m !! e = Some h -> 0 < ext h ->
    exists h', heap m' !! e = Some h' /\ ext h' = ext h /\ value h' = value h.

Lemma survives_refl m : survives m m.
Proof. intros e h Hh He. eauto. Qed.

Lemma survives_trans m1 m2 m3 : survives m1 m2 -> survives m2 m3 -> survives m1 m3.
Proof.
  intros H1 H2 e h Hh He. destruct (H1 e h Hh He) as (h2 & Hh2 & He2 & Hv2).
  destruct (H2 e h2 Hh2 ltac:(lia)) as (h3 & Hh3 & He3 & Hv3). exists h3. split_and!; congruence.
Qed.

Lemma survives_evicted D L m m' : inv D L m -> evicted m m' -> survives m m'.
Proof.
  intros Hm Hev e h Hh He. exists h. split_and!; [|done|done]. rewrite (ev_heap m m' Hev); [done|]. left. intros Hin.
  apply (i_lru D L m Hm) in Hin as (h' & ? & Hi & Hr). simplify_eq. unfold ext in He. rewrite Hi in He. lia.
Qed.

(** What the table loses when a new handle takes over a key. *)
Definition displaced m k : t K V :=
  match table_ m !! k with
  | None => m
  | Some old =>
      match heap m !! old with
      | Some h => if refs h =? 1 then killed m old h else detached m old h
      | None => m
      end
  end.

Lemma displaced_inv D L m k : inv D L m ->
  exists D' L', inv D' L' (displaced m k) /\ table_ (displaced m k) = delete k (table_ m) /\
    (D' = D \/ exists old, table_ m !! k = Some old /\ D' = D ++ [old]) /\
    usage_ (displaced m k) <= usage_ m /\
    (lru_ (displaced m k) = lru_ m \/ exists old, lru_ (displaced m k) = filter (fun x => x <> old) (lru_ m)) /\
    (forall e, table_ m !! k <> Some e -> heap (displaced m k) !! e = heap m !! e).
Proof.
  intros Hm. unfold displaced. destruct (table_ m !! k) as [old|] eqn:Ht.
  2: { exists D, L. split_and!; eauto; [by rewrite delete_id|lia]. }
  pose proof Ht as Ht'. apply (i_table D L m Hm) in Ht' as (h & Hh & Hic & <-). rewrite Hh.
  assert (old ∈ L) as HL.
  { assert (old ∈ D ++ L) as Hin by (apply (i_live D L m Hm); eauto). apply elem_of_app in Hin as [Hd|]; [|done].
    destruct (i_dead D L m Hm old h Hd Hh). congruence. }
  destruct (i_refs D L m Hm old h HL Hh) as [Hr Hc]. destruct (Z.eqb_spec (refs h) 1) as [Hr1|Hr1].
  - exists (D ++ [old]), (filter (fun x => x <> old) L). split_and!; simpl; eauto; [|lia|].
    + apply inv_killed; try done. apply (i_lru D L m Hm). eauto.
    + intros e He. rewrite lookup_insert_ne by congruence. done.
  - exists D, L. split_and!; simpl; eauto; [|lia|].
    + apply inv_detached; try done. lia.
    + intros e He. rewrite lookup_insert_ne by congruence. done.
Qed.

Lemma displaced_survives D L m k : inv D L m -> survives m (displaced m k).
Proof.
  intros Hm e h Hh He. unfold displaced. destruct (table_ m !! k) as [old|] eqn:Ht; [|by eauto].
  apply (i_table D L m Hm) in Ht as (ho & Hho & Hic & <-). rewrite Hho.
  destruct (Z.eqb_spec (refs ho) 1) as [Hr|Hr]; simpl.
  - exists h. split_and!; try done. rewrite lookup_insert_ne; [done|]. intros <-. simplify_eq.
    unfold ext in He. rewrite Hic in He. lia.
  - destruct (decide (e = old)) as [->|]; [|rewrite lookup_insert_ne by done; by eauto].
    simplify_eq. rewrite lookup_insert_eq. eexists. split; [done|]. unfold ext. simpl. rewrite Hic. split; [lia|done].
Qed.

Lemma displaced_back D L m k x hx : inv D L m -> heap (displaced m k) !! x = Some hx -> 0 < refs hx ->
  exists h0, heap m !! x = Some h0 /\ ext hx = ext h0 /\ 0 < refs h0.
Proof.
  intros Hm. unfold displaced. destruct (table_ m !! k) as [old|] eqn:Ht; [|by eauto].
  apply (i_table D L m Hm) in Ht as (ho & Hho & Hic & <-). rewrite Hho.
  destruct (Z.eqb_spec (refs ho) 1) as [Hr|Hr]; simpl; rewrite lookup_insert_Some; (intros [[<- <-]|[? ?]] Hx; [|by eauto]).
  - simpl in Hx. lia.
  - exists ho. unfold ext. simpl in Hx |- *. rewrite Hic. split_and!; [done|lia|lia].
Qed.

(** The part of [Insert] after the eviction, handle [old] included. *)
Lemma Insert_displaces D L m k v c : inv D L m -> 0 <= c -> usage_ m + c < 2 ^ 64 ->
  let e := next_address m in
  let h := {| value := v; charge := c; key := k; refs := 2; in_cache := true |} in
  let m0 := set_usage (u64 (usage_ m + c)) (set_table (<[k := e]> (table_ m))
             {| capacity_ := capacity_ m; usage_ := usage_ m; lru_usage_ := lru_usage_ m; lru_ := lru_ m;
                table_ := table_ m; heap := <[e := h]> (heap m); next_address := Pos.succ e |}) in
  exists D' L', inv D' L' (added (displaced m k) k v c) /\
    (forall x, x ∈ D' -> x ∈ D \/ table_ m !! k = Some x) /\
  match table_ m !! k with
  | None => Ok (m0, D)
  | Some old =>
      let m := update m0 old (set_in_cache false) in
      obind (Unref m old) (fun '(m, last) =>
        if last : bool then
          obind (deref m old) (fun ho =>
          obind (LRU_Remove (set_usage (u64 (usage_ m - charge ho)) m) old) (fun m =>
          Ok (m, D ++ [old])))
        else Ok (m, D))
  end = Ok (added (displaced m k) k v c, D').
Proof.
  intros Hm Hc Hu e h m0. unfold m0.
  destruct (displaced_inv D L m k Hm) as (D' & L' & Hd & Htd & HD' & Hud & _ & Hhd).
  assert (next_address (displaced m k) = e) as Hnx.
  { unfold displaced. destruct (table_ m !! k) as [o|]; [|done]. destruct (heap m !! o) as [ho|]; [|done].
    by destruct (refs ho =? 1). }
  pose proof (inv_added D' L' _ k v c Hd ltac:(rewrite Htd; apply lookup_delete_eq) Hc ltac:(lia)) as Hadd.
  pose proof (i_usage_fits D L m Hm) as Hf. unfold fits in Hf.
  destruct (table_ m !! k) as [old|] eqn:Ht.
  2: { exists D', (next_address (displaced m k) :: L').
       assert (D' = D) as -> by (destruct HD' as [|(o & ? & _)]; done).
       split_and!; [done|by left|]. unfold displaced, added. rewrite Ht. rewrite wrap_small by (unfold fits; lia). done. }
  pose proof Ht as Ht'. apply (i_table D L m Hm) in Ht' as (ho & Hho & Hic & Hk).
  assert (old ∈ L) as HL.
  { assert (old ∈ D ++ L) as Hin by (apply (i_live D L m Hm); eauto). apply elem_of_app in Hin as [Hdd|]; [|done].
    destruct (i_dead D L m Hm old ho Hdd Hho). congruence. }
  destruct (i_refs D L m Hm old ho HL Hho) as [Hr1 Hc1].
  assert (old <> e) as Hne by (intros ->; apply (i_fresh D L m Hm) in Hho; unfold e in *; lia).
  pose proof (charge_le_usage D L m old Hm HL) as Hcu. unfold charge_of in Hcu. rewrite Hho in Hcu.
  rewrite (wrap_small 64 (usage_ m + c)) by (unfold fits; lia).
  unfold Unref, deref, update. cbn [heap set_heap set_usage set_table].
  rewrite lookup_alter_eq, lookup_insert_ne, Hho by done. cbn [fmap option_fmap option_map obind refs set_in_cache].
  rewrite (proj2 (Z.ltb_lt _ _)) by lia. cbn [assert_that obind].
  rewrite (alter_Some (set_in_cache false) _ old ho) by (by rewrite lookup_insert_ne).
  rewrite (alter_Some _ _ old (set_in_cache false ho)) by apply lookup_insert_eq. rewrite insert_insert_eq.
  assert (forall x, x <> e -> <[e:=h]> (heap m) !! x = heap m !! x) as Hx by (intros; by rewrite lookup_insert_ne).
  unfold displaced in *. rewrite Ht in *. rewrite Hho in *. destruct (Z.eqb_spec (refs ho) 1) as [Hr|Hr].
  - assert (old ∈ lru_ m) as Hin by (apply (i_lru D L m Hm); eauto).
    rewrite Hr. change (1 - 1 =? 0) with true. cbv iota. unfold LRU_Remove, deref.
    cbn [heap set_heap set_usage lru_]. rewrite lookup_insert_eq. cbn [obind charge set_refs set_in_cache heap set_usage set_heap].
    rewrite ?lookup_insert_eq. cbn [obind lru_ set_usage set_heap]. rewrite bool_decide_eq_true_2 by done. cbn [assert_that obind].
    exists (D ++ [old]), (e :: filter (fun x => x <> old) L). split_and!.
    + rewrite <-Hnx. apply inv_added; [by apply inv_killed|simpl; rewrite Hk; apply lookup_delete_eq|done|simpl; lia].
    + intros x [Hx1|Hx1]%elem_of_app; [by left|]. apply list_elem_of_singleton in Hx1 as ->. by right.
    + pose proof (charge_le_lru D L m old Hm Hin) as Hcl. unfold charge_of in Hcl. rewrite Hho in Hcl.
      pose proof (inv_pinned D L m Hm).
      cbn [usage_ lru_usage_ set_usage set_heap set_table charge set_refs set_in_cache].
      rewrite !wrap_small by (unfold fits; lia). do 2 f_equal.
      unfold added, killed, set_lru, set_usage, set_heap, set_table. simpl. f_equal; try done.
      * lia.
      * rewrite Hk. by rewrite insert_delete_eq.
      * rewrite insert_insert_ne by done. done.
  - rewrite (proj2 (Z.eqb_neq (refs ho - 1) 0)) by lia. cbv iota.
    exists D, (e :: L). split_and!; [|by left|].
    + rewrite <-Hnx. apply inv_added; [apply inv_detached; try done; lia|simpl; rewrite Hk; apply lookup_delete_eq|done|simpl; lia].
    + do 2 f_equal. unfold added, detached, set_lru, set_usage, set_heap, set_table. simpl. f_equal; try done.
      * rewrite Hk. by rewrite insert_delete_eq.
      * rewrite insert_insert_ne by done. done.
Qed.

Lemma displaced_lru D L m k : inv D L m -> lru_ m = [] -> lru_ (displaced m k) = [].
Proof.
  intros Hm Hl. destruct (displaced_inv D L m k Hm) as (? & ? & _ & _ & _ & _ & [->|[old ->]] & _); by rewrite Hl.
Qed.

Lemma Insert_spec m k v c : Inv m -> 0 <= c -> usage_ m + c < 2 ^ 64 ->
  exists m' e, Insert m k v c = Ok (m', e) /\ Inv m' /\ capacity_ m' = capacity_ m /\ survives m m' /\
    heap m !! e = None /\ table_ m' !! k = Some e /\ usage_ m' <= usage_ m + c /\
    heap m' !! e = Some {| value := v; charge := c; key := k; refs := 2; in_cache := true |} /\
    (forall k' e', k' <> k -> table_ m' !! k' = Some e' ->
       table_ m !! k' = Some e' /\ heap m' !! e' = heap m !! e') /\
    (forall x hx, x <> e -> heap m' !! x = Some hx -> exists h0, heap m !! x = Some h0 /\ ext hx = ext h0).
Proof.
  intros Hi Hc Hu. pose proof Hi as (L & Hm & Hb). unfold Insert.
  destruct (EvictFromLRU_spec (length (lru_ m)) [] L m c Hm ltac:(done)) as (m1 & D1 & L1 & -> & Hm1 & Hev & Hb1).
  cbn [obind]. pose proof (ev_usage m m1 Hev) as Hu1. pose proof (i_usage_fits _ _ m1 Hm1) as Hf1. unfold fits in Hf1.
  destruct (Insert_displaces D1 L1 m1 k v c Hm1 Hc ltac:(lia)) as (D2 & L2 & Hm2 & HD2 & HE). cbv zeta in HE |- *.
  match goal with |- context [obind ?X _] => replace X with (Ok (added (displaced m1 k) k v c, D2)) by (symmetry; exact HE) end.
  cbn [obind fst snd].
  destruct (FreeAll_spec D2 L2 _ Hm2) as (hp & -> & Hinv & Hhp). cbn [obind].
  destruct (displaced_inv D1 L1 m1 k Hm1) as (D' & L' & Hd & Htd & HD' & Hud & _ & Hhd).
  assert (next_address m1 = next_address m) as Hnx by apply Hev.
  assert (next_address (displaced m1 k) = next_address m1) as Hnx1.
  { unfold displaced. destruct (table_ m1 !! k) as [o|]; [|done]. destruct (heap m1 !! o) as [ho|]; [|done].
    by destruct (refs ho =? 1). }
  assert (capacity_ (displaced m1 k) = capacity_ m1) as Hcap1.
  { unfold displaced. destruct (table_ m1 !! k) as [o|]; [|done]. destruct (heap m1 !! o) as [ho|]; [|done].
    by destruct (refs ho =? 1). }
  assert (heap m !! next_address m = None) as Hfresh.
  { destruct (heap m !! next_address m) as [h|] eqn:E; [|done]. apply (i_fresh _ _ m Hm) in E. lia. }
  set (m2 := added (displaced m1 k) k v c) in *.
  assert (forall x hx, heap m2 !! x = Some hx -> in_cache hx = true -> hp !! x = Some hx) as Hkeep.
  { intros x hx Hx Hic. rewrite Hhp; [done|]. intros Hd2. destruct (i_dead _ _ m2 Hm2 x hx Hd2 Hx). congruence. }
  assert (heap m2 !! next_address m1 = Some {| value := v; charge := c; key := k; refs := 2; in_cache := true |}) as Hnew.
  { unfold m2. simpl. rewrite Hnx1. apply lookup_insert_eq. }
  assert (survives m m2) as Hsv.
  { eapply survives_trans; [by eapply survives_evicted|]. eapply survives_trans; [by eapply displaced_survives|].
    intros x hx Hx He. exists hx. split_and!; try done. unfold m2. simpl. rewrite lookup_insert_ne; [done|].
    intros <-. apply (i_fresh _ _ _ Hd) in Hx. lia. }
  exists (set_heap hp m2), (next_address m1). split_and!.
  - done.
  - exists L2. split; [done|]. unfold m2. simpl. rewrite Hcap1. destruct Hb1 as [Hb1|Hb1].
    + left. rewrite wrap_small in Hb1 by (unfold fits; lia). lia.
    + right. by eapply displaced_lru.
  - simpl. rewrite Hcap1. apply Hev.
  - intros x hx Hx He. destruct (Hsv x hx Hx He) as (h2 & Hh2 & He2 & Hv2). exists h2. split_and!; [|done|done].
    simpl. rewrite Hhp; [done|]. intros Hd2. destruct (i_dead _ _ m2 Hm2 x h2 Hd2 Hh2) as [Hr0 Hic0].
    unfold ext in *. rewrite Hic0 in He2. lia.
  - by rewrite Hnx.
  - simpl. rewrite Hnx1. apply lookup_insert_eq.
  - unfold m2. simpl. lia.
  - simpl. by apply Hkeep.
  - intros k' e' Hk' Ht. simpl in Ht. rewrite lookup_insert_ne, Htd, lookup_delete_ne in Ht by done.
    split; [eapply lookup_weaken; [done|apply Hev]|]. simpl.
    pose proof Ht as Ht'. apply (i_table _ _ m1 Hm1) in Ht' as (h' & Hh' & Hic' & Hkk).
    rewrite <-(ev_cached m m1 Hev k' e' Ht). rewrite Hh'. apply Hkeep; [|done]. unfold m2. simpl.
    rewrite lookup_insert_ne.
    + rewrite Hhd; [done|]. intros Hk2. apply (i_table _ _ m1 Hm1) in Hk2 as (h'' & ? & _ & ?). by simplify_eq.
    + intros <-. rewrite Hnx1 in Hh'. apply (i_fresh _ _ m1 Hm1) in Hh'. lia.
  - intros x hx Hne Hx. simpl in Hx.
    assert (x ∈ L2) as HL2 by (apply (i_live _ _ _ Hinv); simpl; eauto).
    destruct (i_refs _ _ _ Hinv x hx HL2 Hx) as [Hr _].
    rewrite Hhp in Hx by (intros Hd2; by eapply (inv_disjoint D2 L2 m2)).
    unfold m2 in Hx. simpl in Hx. rewrite lookup_insert_ne in Hx by congruence.
    destruct (displaced_back D1 L1 m1 k x hx Hm1 Hx ltac:(lia)) as (h0 & Hh0 & He & Hr0).
    destruct (ev_live m m1 Hev x h0 Hh0); [by eauto|lia].
Qed.

Lemma Erase_spec m k : Inv m ->
  exists m', Erase m k = Ok m' /\ Inv m' /\ capacity_ m' = capacity_ m /\ survives m m' /\
    table_ m' = delete k (table_ m) /\
    (forall x hx, heap m' !! x = Some hx -> exists h0, heap m !! x = Some h0 /\ ext hx = ext h0 /\ value hx = value h0).
Proof.
  intros Hi. pose proof Hi as (L & Hm & Hb). unfold Erase. destruct (table_ m !! k) as [e|] eqn:Ht.
  2: { exists m. split_and!; eauto using survives_refl. by rewrite delete_id. }
  destruct (table_heap m k e Hi Ht) as (h & Hh & Hic & Hk & Hr).
  assert (e ∈ L) as HL by (apply (i_live [] L m Hm); eauto).
  pose proof (displaced_survives [] L m k Hm) as Hsv.
  pose proof (charge_le_usage [] L m e Hm HL) as Hcu. unfold charge_of in Hcu. rewrite Hh in Hcu.
  pose proof (i_usage_fits [] L m Hm) as Hf. unfold fits in Hf.
  unfold Unref, deref, update. cbn [heap set_table]. rewrite Hh. cbn [obind].
  rewrite (proj2 (Z.ltb_lt _ _)) by lia. cbn [assert_that obind]. cbv zeta.
  rewrite (alter_Some _ _ e h) by done. cbn [heap set_heap]. rewrite lookup_insert_eq. cbn [obind charge set_refs in_cache].
  rewrite Hic. unfold displaced in Hsv. rewrite Ht, Hh in Hsv.
  destruct (Z.eqb_spec (refs h) 1) as [Hr1|Hr1].
  - rewrite (proj2 (Z.eqb_eq (refs h - 1) 0)) by lia. cbn [andb].
    assert (e ∈ lru_ m) as Hin by (apply (i_lru [] L m Hm); eauto).
    unfold LRU_Remove, deref. cbn [heap set_usage set_heap]. rewrite lookup_insert_eq. cbn [obind lru_ set_usage set_heap].
    cbn [lru_ set_table]. rewrite bool_decide_eq_true_2 by done. cbn [assert_that obind heap set_lru set_usage set_heap].
    rewrite (alter_Some _ _ e (set_refs (refs h - 1) h)) by apply lookup_insert_eq.
    unfold Free, deref. cbn [heap set_heap]. rewrite lookup_insert_eq. cbn [obind refs set_refs set_in_cache in_cache].
    rewrite Hr1. change ((1 - 1 =? 1) && false || (1 - 1 =? 0) && negb false) with true. cbn [assert_that obind].
    eexists. split; [done|].
    pose proof (inv_free [] _ _ e (inv_killed [] L m e h Hm Hin Hh)) as Hfin.
    pose proof (charge_le_lru [] L m e Hm Hin) as Hcl. unfold charge_of in Hcl. rewrite Hh in Hcl.
    pose proof (inv_pinned [] L m Hm). cbn [usage_ lru_usage_ set_heap set_usage set_lru set_table charge set_refs].
    rewrite !wrap_small by (unfold fits; lia). split_and!; [|done| |done|].
    + eexists. split.
      * match type of Hfin with inv _ _ ?a => match goal with |- inv _ _ ?b => replace b with a; [exact Hfin|] end end.
        unfold killed, set_heap, set_usage, set_lru, set_table. simpl. rewrite Hk. f_equal. by rewrite !insert_insert_eq, !delete_insert_eq.
      * simpl. destruct Hb as [Hb|Hb]; [left; lia|right; by rewrite Hb].
    + intros x hx Hx He. destruct (Hsv x hx Hx He) as (h' & Hh' & ? & ?). exists h'. split_and!; try done. simpl in *.
      apply lookup_insert_Some in Hh' as [[<- <-]|[Hne Hh']]; [unfold ext in *; simpl in *; lia|].
      rewrite !insert_insert_eq, delete_insert_eq. by rewrite lookup_delete_ne.
    + intros x hx. simpl. rewrite !insert_insert_eq, delete_insert_eq. intros [_ Hx]%lookup_delete_Some. eauto.
  - rewrite (proj2 (Z.eqb_neq (refs h - 1) 0)) by lia. cbn [andb obind heap set_heap].
    rewrite (alter_Some _ _ e (set_refs (refs h - 1) h)) by apply lookup_insert_eq. rewrite insert_insert_eq.
    eexists. split; [done|]. pose proof (inv_detached [] L m e h Hm Hh Hic ltac:(lia)) as Hdet.
    unfold detached in *. rewrite Hk in *. split_and!; [|done| |done|].
    + exists L. split; [exact Hdet|]. simpl. done.
    + exact Hsv.
    + intros x hx. simpl. intros [[<- <-]|[_ Hx]]%lookup_insert_Some; [|by eauto]. exists h. unfold ext. simpl. rewrite Hic. by split_and!; try lia.
Qed.
End Invariant.

(** *** Sequences of calls *)

Section Reachable.
Context {K V : Type} `{Countable K}.

Inductive op :=
| OpLookup (k : K)
| OpRelease (e : positive)
| OpInsert (k : K) (v : V) (c : Z)
| OpErase (k : K)
| OpSetCapacity (c : Z)
| OpChargeDelta (e : positive) (d : Z).

Definition run (m : t K V) (o : op) : outcome (t K V) :=
  match o with
  | OpLookup k => r <~ Lookup m k ;; Ok (fst r)
  | OpRelease e => Release m e
  | OpInsert k v c => r <~ Insert m k v c ;; Ok (fst r)
  | OpErase k => Erase m k
  | OpSetCapacity c => SetCapacity m c
  | OpChargeDelta e d => ChargeDelta m e (u64 d)
  end.

(** The caller's side of the contract: only handles it holds are released or
    charged (the charged one being in the cache), and sizes do not overflow. *)
Definition legal (m : t K V) (o : op) : Prop :=
  match o with
  | OpLookup _ | OpErase _ => True
  | OpRelease e => held m e
  | OpInsert _ _ c => 0 <= c /\ usage_ m + c < 2 ^ 64
  | OpSetCapacity c => 0 <= c
  | OpChargeDelta e d => exists h, heap m !! e = Some h /\ 2 <= refs h /\ 0 <= charge h + d /\ usage_ m + d < 2 ^ 64
  end.

Inductive reachable : t K V -> Prop :=
| reach_new c : 0 <= c -> reachable (NewLRUCache c)
| reach_step m o m' : reachable m -> legal m o -> run m o = Ok m' -> reachable m'.

Lemma NewLRUCache_Inv c : 0 <= c -> Inv (NewLRUCache (K:=K) (V:=V) c).
Proof.
  intros Hc. exists []. split; [|by right]. split; simpl; try done; try (by constructor).
  all: try (intros; set_solver).
  all: intros *; rewrite ?lookup_empty; split; try set_solver; by intros (? & ? & ?).
Qed.

Lemma run_Inv m o : Inv m -> legal m o -> exists m', run m o = Ok m' /\ Inv m'.
Proof.
  intros Hm Ho. destruct o as [k|e|k v c|k|c|e d]; cbn [run legal] in *.
  - destruct (table_ m !! k) as [e|] eqn:Ht; [|rewrite Lookup_missing by done; by eauto].
    destruct (table_heap m k e Hm Ht) as (h & Hh & _).
    destruct (Lookup_found m k e h Hm Ht Hh) as (m' & -> & Hi & _). eauto.
  - destruct Ho as (h & Hh & He). destruct (Release_spec m e h Hm Hh He) as (m' & -> & Hi & _). eauto.
  - destruct Ho as [Hc Hu]. destruct (Insert_spec m k v c Hm Hc Hu) as (m' & e & -> & Hi & _). eauto.
  - destruct (Erase_spec m k Hm) as (m' & -> & Hi & _). eauto.
  - destruct (SetCapacity_spec m c Hm Ho) as (m' & -> & Hi & _). eauto.
  - destruct Ho as (h & Hh & Hr & Hc & Hu). destruct (ChargeDelta_spec m e h d Hm Hh Hr Hc Hu) as (m' & -> & Hi & _). eauto.
Qed.

Lemma reachable_Inv m : reachable m -> Inv m.
Proof.
  induction 1 as [c Hc|m o m' _ IH Ho Hr]; [by apply NewLRUCache_Inv|].
  destruct (run_Inv m o IH Ho) as (m2 & Hr2 & Hi). congruence.
Qed.

(** Nothing is held outside the cache. *)
Definition idle (m : t K V) : Prop := forall e h, heap m !! e = Some h -> ext h = 0.

Lemma idle_lru m L : inv [] L m -> idle m -> L ≡ₚ lru_ m.
Proof.
  intros Hm Hid. apply NoDup_Permutation; [by eapply inv_NoDup_L|apply Hm|]. intros e. split.
  - intros He. assert (is_Some (heap m !! e)) as [h Hh] by (apply (i_live [] L m Hm); done).
    apply (i_lru [] L m Hm). exists h. specialize (Hid e h Hh). unfold ext in Hid.
    destruct (i_refs [] L m Hm e h He Hh). destruct (in_cache h); [|lia]. split_and!; [done|done|lia].
  - by apply (lru_live [] L m).
Qed.
End Reachable.

(** *** The callers *)

(** What the callers know: the value last inserted under a key that was not
    erased since, and the handles they hold, each with the value it was handed
    out for; a handle obtained twice is held twice. *)
Section Callers.
Context {K V : Type} `{Countable K}.

Implicit Types (m : t K V) (k : K) (e : positive) (o : op (K:=K) (V:=V)).

Record callers := { latest : gmap K V; handles : list (positive * option V) }.

Definition no_callers : callers := {| latest := ∅; handles := [] |}.

Fixpoint drop_handle (e : positive) (l : list (positive * option V)) : list (positive * option V) :=
  match l with
  | [] => []
  | p :: l => if decide (fst p = e) then l else p :: drop_handle e l
  end.

Definition call (s : t K V * callers) (o : op (K:=K) (V:=V)) : outcome (t K V * callers) :=
  let '(m, c) := s in
  match o with
  | OpLookup k =>
      r <~ Lookup m k ;;
      Ok (fst r, match snd r with
                 | Some e => {| latest := latest c; handles := (e, latest c !! k) :: handles c |}
                 | None => c
                 end)
  | OpInsert k v ch =>
      r <~ Insert m k v ch ;;
      Ok (fst r, {| latest := <[k := v]> (latest c); handles := (snd r, Some v) :: handles c |})
  | OpRelease e => m <~ Release m e ;; Ok (m, {| latest := latest c; handles := drop_handle e (handles c) |})
  | OpErase k => m <~ Erase m k ;; Ok (m, {| latest := delete k (latest c); handles := handles c |})
  | OpSetCapacity _ | OpChargeDelta _ _ => m <~ run m o ;; Ok (m, c)
  end.

(** The contract, in the callers' terms: they release and charge what they
    hold, they charge only what is in the cache, and sizes do not overflow. *)
Definition permitted (s : t K V * callers) (o : op (K:=K) (V:=V)) : Prop :=
  let '(m, c) := s in
  match o with
  | OpLookup _ | OpErase _ => True
  | OpRelease e => e ∈ (handles c).*1
  | OpInsert _ _ ch => 0 <= ch /\ usage_ m + ch < 2 ^ 64
  | OpSetCapacity ch => 0 <= ch
  | OpChargeDelta e d => e ∈ (handles c).*1 /\
      exists h, heap m !! e = Some h /\ in_cache h = true /\ 0 <= charge h + d /\ usage_ m + d < 2 ^ 64
  end.

Inductive calls : t K V * callers -> list (op (K:=K) (V:=V)) -> t K V * callers -> Prop :=
| calls_nil s : calls s [] s
| calls_snoc s os s' o s'' : calls s os s' -> permitted s' o -> call s' o = Ok s'' -> calls s (os ++ [o]) s''.

Definition times_held (e : positive) (c : callers) : Z := Z.of_nat (length (filter (fun p => fst p = e) (handles c))).

(** The references to a handle that are not the cache's own. *)
Definition outstanding (m : t K V) (e : positive) : Z := match heap m !! e with Some h => ext h | None => 0 end.

Record callers_ok (m : t K V) (c : callers) : Prop := {
  co_inv : Inv m;
  co_refs : forall e, outstanding m e = times_held e c;
  co_value : forall e v, (e, v) ∈ handles c -> exists h, heap m !! e = Some h /\ v = Some (value h);
  co_table : forall k e h, table_ m !! k = Some e -> heap m !! e = Some h -> latest c !! k = Some (value h)
}.

Implicit Type c : callers.

Lemma ext_nonneg m e h : Inv m -> heap m !! e = Some h -> 0 <= ext h.
Proof. intros Hm Hh. destruct (Inv_live m e h Hm Hh). unfold ext. destruct (in_cache h); lia. Qed.

Lemma times_cons e e' v l c : handles c = (e', v) :: l ->
  times_held e c = (if decide (e' = e) then 1 else 0) + times_held e {| latest := latest c; handles := l |}.
Proof. intros E. unfold times_held. rewrite E, filter_cons. cbn [fst handles]. case_decide; cbn [length]; lia. Qed.

Lemma times_drop e e' tb (l : list (positive * option V)) : e' ∈ l.*1 ->
  times_held e {| latest := tb; handles := drop_handle e' l |} =
  times_held e {| latest := tb; handles := l |} - (if decide (e' = e) then 1 else 0).
Proof.
  unfold times_held. cbn [handles]. induction l as [|[x v] l IH]; [set_solver|]. cbn [fmap list_fmap fst drop_handle]. intros Hin.
  destruct (decide (x = e')) as [->|Hx]; rewrite !filter_cons; cbn [fst].
  - destruct (decide (e' = e)); cbn [length]; lia.
  - apply elem_of_cons in Hin as [->|Hin]; [done|]. specialize (IH Hin). destruct (decide (x = e)), (decide (e' = e)); cbn [length] in *; lia.
Qed.

Lemma drop_sub e l p : p ∈ drop_handle e l -> p ∈ l.
Proof. induction l as [|x l IH]; [done|]. cbn. case_decide; set_solver. Qed.

Lemma held_positive e v c : (e, v) ∈ handles c -> 0 < times_held e c.
Proof.
  intros Hin. unfold times_held. assert ((e, v) ∈ filter (fun p => fst p = e) (handles c)) as H' by (by apply list_elem_of_filter).
  destruct (filter _ (handles c)); [by apply elem_of_nil in H'|cbn; lia].
Qed.

Lemma held_fst e c : e ∈ (handles c).*1 -> exists v, (e, v) ∈ handles c.
Proof. intros ([x v] & -> & Hin)%list_elem_of_fmap. by exists v. Qed.

Lemma co_held m c e : callers_ok m c -> e ∈ (handles c).*1 -> exists h, heap m !! e = Some h /\ 0 < ext h.
Proof.
  intros Hc [v Hin]%held_fst. destruct (co_value m c Hc e v Hin) as (h & Hh & _). exists h. split; [done|].
  pose proof (held_positive e v c Hin). pose proof (co_refs m c Hc e) as Hr. unfold outstanding in Hr. rewrite Hh in Hr. lia.
Qed.

(** A change of the cache that the callers do not notice. *)
Lemma callers_kept m m' c tb : callers_ok m c -> Inv m' -> survives m m' ->
  (forall x hx, heap m' !! x = Some hx -> exists h0, heap m !! x = Some h0 /\ ext hx = ext h0) ->
  (forall k e hx, table_ m' !! k = Some e -> heap m' !! e = Some hx -> tb !! k = Some (value hx)) ->
  callers_ok m' {| latest := tb; handles := handles c |}.
Proof.
  intros Hc Hm' Hs Hback Htb. split; [done| | |done].
  - intros e. transitivity (times_held e c); [|done]. rewrite <-(co_refs m c Hc e). unfold outstanding.
    destruct (heap m !! e) as [h|] eqn:Hh.
    + destruct (decide (0 < ext h)) as [Hp|Hp].
      * destruct (Hs e h Hh Hp) as (h' & -> & -> & _). done.
      * pose proof (ext_nonneg m e h (co_inv m c Hc) Hh). destruct (heap m' !! e) as [h'|] eqn:Hh'; [|lia].
        destruct (Hback e h' Hh') as (h0 & Hh0 & ->). by simplify_eq.
    + destruct (heap m' !! e) as [h'|] eqn:Hh'; [|done]. destruct (Hback e h' Hh') as (h0 & Hh0 & _). congruence.
  - cbn [handles]. intros e v Hin. destruct (co_value m c Hc e v Hin) as (h & Hh & ->).
    destruct (co_held m c e Hc) as (h0 & Hh0 & Hp); [by apply (list_elem_of_fmap_2 fst _ (e, Some (value h)))|]. rewrite Hh in Hh0. injection Hh0 as <-.
    destruct (Hs e h Hh Hp) as (h' & Hh' & _ & Hv). exists h'. by rewrite Hv.
Qed.

Lemma Lookup_callers m c k : callers_ok m c -> exists s, call (m, c) (OpLookup k) = Ok s /\ callers_ok (fst s) (snd s).
Proof.
  intros Hc. pose proof (co_inv m c Hc) as Hm. cbn [call]. destruct (table_ m !! k) as [e|] eqn:Ht.
  2: { rewrite Lookup_missing by done. cbn [obind fst snd]. by eexists. }
  destruct (table_heap m k e Hm Ht) as (h & Hh & Hic & _). destruct (Lookup_found m k e h Hm Ht Hh) as (m' & -> & Hm' & _ & _ & Htb & Hhp).
  cbn [obind fst snd]. eexists. split; [done|]. cbn [fst snd]. split; [done|..].
  - intros x. rewrite (times_cons x e (latest c !! k) (handles c)) by done. transitivity ((if decide (e = x) then 1 else 0) + times_held x c); [|done].
    rewrite <-(co_refs m c Hc x). unfold outstanding. rewrite Hhp, lookup_insert. case_decide; [|by destruct (heap m !! x)]. subst x. rewrite Hh.
    unfold ext. cbn. lia.
  - cbn [handles]. intros x v Hin. rewrite Hhp. apply elem_of_cons in Hin as [[= -> ->]|Hin].
    + rewrite lookup_insert_eq. eexists. split; [done|]. by rewrite (co_table m c Hc k e h Ht Hh).
    + destruct (co_value m c Hc x v Hin) as (hx & Hx & ->). destruct (decide (e = x)) as [->|]; [rewrite lookup_insert_eq; simplify_eq; by eexists|].
      rewrite lookup_insert_ne by done. by exists hx.
  - cbn [latest]. rewrite Htb, Hhp. intros k' x hx Hk' Hx. apply lookup_insert_Some in Hx as [[<- <-]|[_ Hx]]; [|by eapply (co_table m c Hc)].
    by apply (co_table m c Hc k' e h).
Qed.

Lemma Insert_callers m c k v ch : callers_ok m c -> permitted (m, c) (OpInsert k v ch) ->
  exists s, call (m, c) (OpInsert k v ch) = Ok s /\ callers_ok (fst s) (snd s).
Proof.
  intros Hc [Hch Hu]. pose proof (co_inv m c Hc) as Hm. cbn [call].
  destruct (Insert_spec m k v ch Hm Hch Hu) as (m' & e & -> & Hm' & _ & Hs & Hfr & Ht & _ & He & Hk & Hback). cbn [obind fst snd].
  eexists. split; [done|]. cbn [fst snd]. pose proof (co_refs m c Hc) as Hrefs. split; [done|..].
  - intros x. rewrite (times_cons x e (Some v) (handles c)) by done. transitivity ((if decide (e = x) then 1 else 0) + times_held x c); [|done].
    rewrite <-(Hrefs x). unfold outstanding. case_decide as Hx; [subst x; by rewrite He, Hfr|].
    destruct (heap m !! x) as [h|] eqn:Hh.
    + destruct (decide (0 < ext h)) as [Hp|Hp]; [destruct (Hs x h Hh Hp) as (h' & -> & -> & _); lia|].
      pose proof (ext_nonneg m x h Hm Hh). destruct (heap m' !! x) as [h'|] eqn:Hh'; [|lia].
      destruct (Hback x h' ltac:(done) Hh') as (h0 & Hh0 & ->). simplify_eq. lia.
    + destruct (heap m' !! x) as [h'|] eqn:Hh'; [|done]. destruct (Hback x h' ltac:(done) Hh') as (h0 & Hh0 & _). congruence.
  - cbn [handles]. intros x w Hin. apply elem_of_cons in Hin as [[= -> ->]|Hin]; [rewrite He; by eexists|].
    destruct (co_value m c Hc x w Hin) as (h & Hh & ->).
    destruct (co_held m c x Hc) as (h0 & Hh0 & Hp); [by apply (list_elem_of_fmap_2 fst _ (x, Some (value h)))|]. rewrite Hh in Hh0. injection Hh0 as <-.
    destruct (Hs x h Hh Hp) as (h' & Hh' & _ & Hv). exists h'. by rewrite Hv.
  - cbn [latest]. intros k' x hx Hk' Hx. destruct (decide (k' = k)) as [->|Hne].
    + rewrite lookup_insert_eq. rewrite Ht in Hk'. injection Hk' as <-. rewrite He in Hx. by injection Hx as <-.
    + rewrite lookup_insert_ne by done. destruct (Hk k' x Hne Hk') as [Htx Heq]. rewrite Heq in Hx. by apply (co_table m c Hc k' x).
Qed.

Lemma Release_callers m c e : callers_ok m c -> permitted (m, c) (OpRelease e) ->
  exists s, call (m, c) (OpRelease e) = Ok s /\ callers_ok (fst s) (snd s).
Proof.
  intros Hc Hin. pose proof (co_inv m c Hc) as Hm. cbn [call permitted] in *. destruct (co_held m c e Hc Hin) as (h & Hh & Hp).
  destruct (Release_spec m e h Hm Hh) as (m' & -> & Hm' & _ & Hcase); [unfold ext in Hp; destruct (in_cache h); lia|].
  cbn [obind]. eexists. split; [done|]. cbn [fst snd]. pose proof (co_refs m c Hc) as Hrefs.
  pose proof (Inv_live m e h Hm Hh) as [Hr _].
  assert (forall x, times_held x {| latest := latest c; handles := drop_handle e (handles c) |} = outstanding m x - (if decide (e = x) then 1 else 0)) as Htimes.
  { intros x. rewrite times_drop by done. by rewrite (Hrefs x). }
  assert (forall x v, (x, v) ∈ drop_handle e (handles c) -> 0 < outstanding m x - (if decide (e = x) then 1 else 0)) as Hleft.
  { intros x v Hx. rewrite <-Htimes. by eapply held_positive. }
  destruct Hcase as [[Hhp Htb]|(Hhp & Htb & _ & Hlast)]; split; try done; cbn [handles latest].
  - intros x. rewrite Htimes. unfold outstanding. rewrite Hhp, lookup_insert. case_decide; [subst x; rewrite Hh; unfold ext; cbn; lia|].
    destruct (heap m !! x); lia.
  - intros x v Hx. destruct (co_value m c Hc x v (drop_sub _ _ _ Hx)) as (hx & Hhx & ->). rewrite Hhp.
    destruct (decide (e = x)) as [->|]; [rewrite lookup_insert_eq; simplify_eq; by eexists|]. rewrite lookup_insert_ne by done. by exists hx.
  - rewrite Htb, Hhp. intros k x hx Hk Hx. apply lookup_insert_Some in Hx as [[<- <-]|[_ Hx]]; [|by eapply (co_table m c Hc)].
    by apply (co_table m c Hc k e h).
  - intros x. rewrite Htimes. unfold outstanding. rewrite Hhp, lookup_delete. case_decide; [subst x; rewrite Hh; unfold ext; destruct (in_cache h); lia|].
    destruct (heap m !! x); lia.
  - intros x v Hx. destruct (co_value m c Hc x v (drop_sub _ _ _ Hx)) as (hx & Hhx & ->). exists hx. split; [|done]. rewrite Hhp, lookup_delete_ne; [done|].
    intros ->. specialize (Hleft x _ Hx). unfold outstanding in Hleft. rewrite Hh, decide_True in Hleft by done.
    unfold ext in Hleft. destruct (in_cache h); lia.
  - rewrite Htb, Hhp. intros k x hx Hk [_ Hx]%lookup_delete_Some. apply (co_table m c Hc k x); [|done].
    destruct (in_cache h); [by apply lookup_delete_Some in Hk as [_ ?]|done].
Qed.

Lemma call_ok m c o : callers_ok m c -> permitted (m, c) o -> exists s, call (m, c) o = Ok s /\ callers_ok (fst s) (snd s).
Proof.
  intros Hc Ho. pose proof (co_inv m c Hc) as Hm. destruct o as [k|e|k v ch|k|ch|e d].
  - by apply Lookup_callers.
  - by apply Release_callers.
  - by apply Insert_callers.
  - cbn [call]. destruct (Erase_spec m k Hm) as (m' & -> & Hm' & _ & Hs & Htb & Hback). cbn [obind]. eexists. split; [done|]. cbn [fst snd].
    apply (callers_kept m); try done.
    + intros x hx Hx. destruct (Hback x hx Hx) as (h0 & ? & ? & _). by exists h0.
    + rewrite Htb. intros k' e hx [Hne Hk']%lookup_delete_Some Hx. rewrite lookup_delete_ne by done.
      destruct (Hback e hx Hx) as (h0 & Hh0 & _ & ->). by apply (co_table m c Hc k' e).
  - cbn [call run permitted] in *. destruct (SetCapacity_spec m ch Hm Ho) as (m' & -> & Hm' & _ & Hev). cbn [obind]. eexists. split; [done|]. cbn [fst snd].
    destruct Hm as (L & Hi & Hb). destruct c as [tb hs]. apply (callers_kept m m' {| latest := tb; handles := hs |}); try done.
    + apply (survives_evicted [] L (set_capacity ch m)); [|done]. destruct Hi; by split.
    + intros x hx Hx. exists hx. split; [|done]. destruct (ev_live _ _ Hev x hx Hx) as [?|?]; [done|]. pose proof (Inv_live m' x hx Hm' Hx). lia.
    + intros k e hx Hk Hx. pose proof (lookup_weaken _ _ _ _ Hk (ev_table _ _ Hev)) as Hk0. rewrite (ev_cached _ _ Hev k e Hk) in Hx.
      by apply (co_table m _ Hc k e).
  - cbn [call run permitted] in *. destruct Ho as (Hin & h & Hh & Hic & Hch & Hu). destruct (co_held m c e Hc Hin) as (h0 & Hh0 & Hp).
    rewrite Hh in Hh0. injection Hh0 as <-. unfold ext in Hp. rewrite Hic in Hp.
    destruct (ChargeDelta_spec m e h d Hm Hh ltac:(lia) Hch Hu) as (m' & -> & Hm' & _ & Htb & He & Hpin & Hback & _). cbn [obind].
    eexists. split; [done|]. cbn [fst snd]. destruct c as [tb hs]. apply (callers_kept m m' {| latest := tb; handles := hs |}); try done.
    + intros x hx Hx Hpx. destruct (decide (x = e)) as [->|Hne]; [simplify_eq; by eexists|]. exists hx. split_and!; [|done|done].
      apply Hpin; [done|done|]. unfold ext in Hpx. destruct (in_cache hx); [left; lia|by right].
    + intros x hx Hx. destruct (decide (x = e)) as [->|Hne]; [simplify_eq; by eexists|]. exists hx. split; [by apply Hback|done].
    + intros k x hx Hk Hx. pose proof (lookup_weaken _ _ _ _ Hk Htb) as Hk0. destruct (decide (x = e)) as [->|Hne].
      * rewrite He in Hx. injection Hx as <-. by apply (co_table m _ Hc k e h).
      * apply (co_table m _ Hc k x hx Hk0). by apply Hback.
Qed.

Lemma calls_ok capacity os s : 0 <= capacity -> calls (NewLRUCache capacity, no_callers) os s -> callers_ok (fst s) (snd s).
Proof.
  intros Hcap. remember (NewLRUCache capacity, no_callers) as s0 eqn:E0. induction 1 as [|s os [m c] o s'' Hs IH Ho E]; subst.
  - split; cbn; try done; [by apply NewLRUCache_Inv|by intros e v ?%elem_of_nil].
  - destruct (call_ok m c o (IH eq_refl) Ho) as (s2 & E2 & Hs2). rewrite E2 in E. by injection E as <-.
Qed.

Lemma callers_gone m c e h : callers_ok m c -> handles c = [] -> heap m !! e = Some h -> ext h = 0.
Proof.
  intros Hc Hn Hh. pose proof (co_refs m c Hc e) as Hr. unfold outstanding, times_held in Hr. by rewrite Hh, Hn in Hr.
Qed.
End Callers.

(** *** Use by a client that holds one handle at a time *)

Section Client.
Context {K V : Type} `{Countable K}.
Implicit Types (m : t K V) (k : K) (e : positive).

(** What the cache holds under a key. *)
Definition cached m k : option V :=
  e ← table_ m !! k; h ← heap m !! e; Some (value h).

Lemma inv_revalued D L m e h v : inv D L m -> heap m !! e = Some h -> inv D L (SetValue m e v).
Proof.
  intros Hm Hh. unfold SetValue, update. rewrite (alter_Some _ _ e h) by done.
  set (m' := set_heap _ m).
  pose proof (fun x => charge_of_insert m m' e h _ x Hh eq_refl eq_refl) as Hch.
  assert (forall x h', heap m' !! x = Some h' -> exists h0, heap m !! x = Some h0 /\
    refs h' = refs h0 /\ charge h' = charge h0 /\ in_cache h' = in_cache h0 /\ key h' = key h0) as Hback.
  { intros x h'. simpl. rewrite lookup_insert_Some. intros [[<- <-]|[? ?]]; eauto 8. }
  assert (forall x h0, heap m !! x = Some h0 -> exists h', heap m' !! x = Some h' /\
    refs h' = refs h0 /\ in_cache h' = in_cache h0 /\ key h' = key h0) as Hforth.
  { intros x h0 Hx. simpl. destruct (decide (e = x)) as [<-|]; [|rewrite lookup_insert_ne by done; by eauto 7].
    simplify_eq. rewrite lookup_insert_eq. eauto 7. }
  destruct Hm as [Hcap Hnd Hlive Hdead Hfr Href Htab Hln Hlru Hu Huf Hlu]. split; try done.
  - intros x. rewrite Hlive. split; intros [h0 Hx]; [apply Hforth in Hx|apply Hback in Hx]; destruct Hx as (? & ? & _); by eexists.
  - intros x h' Hx Hh'. apply Hback in Hh' as (h0 & Hh0 & -> & _ & -> & _). by eapply Hdead.
  - intros x h' Hh'. apply Hback in Hh' as (h0 & Hh0 & _). by eapply Hfr.
  - intros x h' Hx Hh'. apply Hback in Hh' as (h0 & Hh0 & -> & -> & _). by eapply Href.
  - intros k x. simpl. rewrite Htab. split; intros (h0 & Hx & ? & ?); [apply Hforth in Hx|apply Hback in Hx];
      destruct Hx as (h1 & ? & Hrest); exists h1; destruct_and?; split_and!; first [assumption|congruence].
  - intros x. simpl. rewrite Hlru. split; intros (h0 & Hx & ? & ?); [apply Hforth in Hx|apply Hback in Hx];
      destruct Hx as (h1 & ? & Hrest); exists h1; destruct_and?; split_and!; first [assumption|congruence].
  - simpl. rewrite Hu. symmetry. apply total_ext. intros. apply Hch.
  - simpl. rewrite Hlu. symmetry. apply total_ext. intros. apply Hch.
Qed.

Lemma Inv_revalued m e h v : Inv m -> heap m !! e = Some h -> Inv (SetValue m e v).
Proof. intros (L & Hm & Hb) Hh. exists L. split; [by eapply inv_revalued|done]. Qed.

(** Exactly the handle [e] is held, once. *)
Definition holding m e h : Prop :=
  heap m !! e = Some h /\ in_cache h = true /\ refs h = 2 /\
  (forall x hx, x <> e -> heap m !! x = Some hx -> ext hx = 0).

Lemma table_inj m k k' e : Inv m -> table_ m !! k = Some e -> table_ m !! k' = Some e -> k = k'.
Proof.
  intros Hi H1 H2. destruct (table_heap m k e Hi H1) as (h & Hh & _ & <- & _).
  destruct (table_heap m k' e Hi H2) as (h' & Hh' & _ & <- & _). by simplify_eq.
Qed.

Lemma holding_table m e h : Inv m -> holding m e h -> table_ m !! key h = Some e.
Proof. intros (L & Hm & _) (Hh & Hic & _). apply (i_table _ _ m Hm). eauto. Qed.

Lemma idle_within m : Inv m -> idle m -> usage_ m <= capacity_ m.
Proof.
  intros (L & Hm & [Hb|Hb]) Hid; [done|]. rewrite (i_usage _ _ m Hm).
  rewrite (total_perm m _ _ (idle_lru m L Hm Hid)), Hb. simpl. apply Hm.
Qed.

Lemma Lookup_hold m k v : Inv m -> idle m -> cached m k = Some v ->
  exists m' e h, Lookup m k = Ok (m', Some e) /\ Inv m' /\ holding m' e h /\ key h = k /\ value h = v /\
    capacity_ m' = capacity_ m /\ usage_ m' = usage_ m /\ (forall k', cached m' k' = cached m k').
Proof.
  intros Hi Hid Hc. unfold cached in Hc. destruct (table_ m !! k) as [e|] eqn:Ht; [|done]. cbn in Hc.
  destruct (table_heap m k e Hi Ht) as (h & Hh & Hic & Hk & Hr). rewrite Hh in Hc. cbn in Hc. simplify_eq.
  destruct (Lookup_found m (key h) e h Hi Ht Hh) as (m' & HL & Hi' & Hcap & Hu & Htb & Hhp).
  exists m', e, (set_refs (refs h + 1) h). split_and!; try done.
  - split_and!.
    + rewrite Hhp. apply lookup_insert_eq.
    + done.
    + specialize (Hid e h Hh). unfold ext in Hid. rewrite Hic in Hid. simpl. lia.
    + intros x hx Hx Hhx. rewrite Hhp, lookup_insert_ne in Hhx by done. by apply (Hid x).
  - intros k'. unfold cached. rewrite Htb, Hhp. destruct (table_ m !! k') as [e'|]; [|done]. cbn.
    destruct (decide (e' = e)) as [->|]; [rewrite lookup_insert_eq, Hh; done|by rewrite lookup_insert_ne].
Qed.

Lemma cached_missing m k : Inv m -> cached m k = None -> table_ m !! k = None.
Proof.
  intros Hi Hc. unfold cached in Hc. destruct (table_ m !! k) as [e|] eqn:Ht; [|done].
  destruct (table_heap m k e Hi Ht) as (h & Hh & _). cbn in Hc. rewrite Hh in Hc. done.
Qed.

Lemma holding_SetValue m e h v : Inv m -> holding m e h ->
  Inv (SetValue m e v) /\ holding (SetValue m e v) e (set_value v h) /\
  (forall k', cached (SetValue m e v) k' = if decide (k' = key h) then Some v else cached m k').
Proof.
  intros Hi Hhold. pose proof (holding_table m e h Hi Hhold) as Ht. destruct Hhold as (Hh & Hic & Hr & Hoth).
  split_and!; [by eapply Inv_revalued|split_and!|]; unfold SetValue, update; rewrite ?(alter_Some _ _ e h) by done.
  - simpl. apply lookup_insert_eq.
  - done.
  - done.
  - intros x hx Hx Hhx. simpl in Hhx. rewrite lookup_insert_ne in Hhx by done. by eapply Hoth.
  - intros k'. unfold cached. simpl. case_decide as Hk.
    + subst. rewrite Ht. cbn. by rewrite lookup_insert_eq.
    + destruct (table_ m !! k') as [e'|] eqn:Ht'; [|done]. cbn. rewrite lookup_insert_ne; [done|].
      intros <-. apply Hk. by eapply table_inj.
Qed.

Lemma Release_hold m e h : Inv m -> holding m e h ->
  exists m', Release m e = Ok m' /\ Inv m' /\ idle m' /\ capacity_ m' = capacity_ m /\
    (forall k', cached m' k' = cached m k' \/ (k' = key h /\ cached m' k' = None /\ capacity_ m < usage_ m)).
Proof.
  intros Hi Hhold. pose proof (holding_table m e h Hi Hhold) as Ht. destruct Hhold as (Hh & Hic & Hr & Hoth).
  destruct (Release_spec m e h Hi Hh) as (m' & HR & Hi' & Hcap & Hcase); [rewrite Hic; lia|].
  exists m'. split_and!; try done; destruct Hcase as [[Hhp Htb]|(Hhp & Htb & Hover & _)].
  - intros x hx. rewrite Hhp, lookup_insert_Some. intros [[<- <-]|[? ?]]; [|by eapply Hoth].
    unfold ext. simpl. rewrite Hic. lia.
  - intros x hx. rewrite Hhp, lookup_delete_Some. intros [? ?]. by eapply Hoth.
  - intros k'. left. unfold cached. rewrite Htb, Hhp. destruct (table_ m !! k') as [e'|]; [|done]. cbn.
    destruct (decide (e' = e)) as [->|]; [rewrite lookup_insert_eq, Hh; done|by rewrite lookup_insert_ne].
  - intros k'. unfold cached. rewrite Htb, Hhp, Hic. destruct (decide (k' = key h)) as [->|Hk].
    + right. rewrite lookup_delete_eq. split_and!; [done|done|]. by apply Hover.
    + left. rewrite lookup_delete_ne by done. destruct (table_ m !! k') as [e'|] eqn:Ht'; [|done]. cbn.
      rewrite lookup_delete_ne; [done|]. intros <-. apply Hk. exact (table_inj m k' (key h) e Hi Ht' Ht).
Qed.

Lemma ChargeDelta_hold m e h d : Inv m -> holding m e h -> 0 <= charge h + d -> usage_ m + d < 2 ^ 64 ->
  exists m' h', ChargeDelta m e (u64 d) = Ok m' /\ Inv m' /\ holding m' e h' /\ key h' = key h /\
    value h' = value h /\ capacity_ m' = capacity_ m /\ usage_ m' <= usage_ m + d /\
    (forall k', cached m' k' = cached m k' \/ (k' <> key h /\ cached m' k' = None)).
Proof.
  intros Hi Hhold Hc Hu. pose proof (holding_table m e h Hi Hhold) as Ht. destruct Hhold as (Hh & Hic & Hr & Hoth).
  destruct (ChargeDelta_spec m e h d Hi Hh) as (m' & HC & Hi' & Hcap & Htb & Hh' & Hpin & Hcach & Hus); [lia|done|done|].
  exists m', (set_charge (charge h + d) h). assert (table_ m' !! key h = Some e) as Ht'.
  { destruct Hi' as (L' & Hm' & _). apply (i_table _ _ m' Hm'). eauto. }
  split_and!; try done.
  - split_and!; try done. intros x hx Hx Hhx. eapply Hoth; [done|]. by apply Hcach.
  - intros k'. unfold cached. destruct (table_ m' !! k') as [e'|] eqn:Hk'.
    + left. rewrite (lookup_weaken _ _ _ _ Hk' Htb). cbn. destruct (decide (e' = e)) as [->|Hne]; [by rewrite Hh', Hh|].
      destruct (table_heap m' k' e' Hi' Hk') as (hx & Hhx & _). rewrite Hhx. by rewrite (Hcach e' hx).
    + destruct (decide (k' = key h)) as [->|]; [congruence|by right].
Qed.

Lemma Insert_hold m k v c : Inv m -> idle m -> 0 <= c -> usage_ m + c < 2 ^ 64 ->
  exists m' e h, Insert m k v c = Ok (m', e) /\ Inv m' /\ holding m' e h /\ key h = k /\ value h = v /\
    charge h = c /\ capacity_ m' = capacity_ m /\ usage_ m' <= usage_ m + c /\
    (forall k', k' <> k -> cached m' k' = cached m k' \/ cached m' k' = None).
Proof.
  intros Hi Hid Hc Hu.
  destruct (Insert_spec m k v c Hi Hc Hu) as (m' & e & HI & Hi' & Hcap & Hsv & Hfr & Ht & Hum & Hh & Hk & Hback).
  exists m', e, {| value := v; charge := c; key := k; refs := 2; in_cache := true |}.
  split_and!; try done.
  - split_and!; try done. intros x hx Hx Hhx. destruct (Hback x hx Hx Hhx) as (h0 & Hh0 & ->). by apply (Hid x).
  - intros k' Hne. unfold cached. destruct (table_ m' !! k') as [e'|] eqn:Ht'; [|by right]. left.
    destruct (Hk k' e' Hne Ht') as [-> He]. cbn. by rewrite He.
Qed.
End Client.
End LRU.

(** ** Properties *)





(** Whenever nothing is held outside, the cache is within its capacity and
    reports no pinned usage; and at any time the pinned usage is the difference
    of two consistent sums, never negative. *)
Theorem LRUCache_capacity {K V} `{Countable K} (m : LRU.t K V) :
  LRU.reachable m ->
  (exists p, LRU.GetPinnedUsage m = Ok p /\ 0 <= p) /\
  (LRU.idle m -> LRU.GetPinnedUsage m = Ok 0 /\ LRU.usage_ m <= LRU.capacity_ m).
Proof.
  intros Hr. destruct (LRU.reachable_Inv m Hr) as (L & Hm & Hb). pose proof (LRU.inv_pinned [] L m Hm) as Hp.
  unfold LRU.GetPinnedUsage. rewrite (proj2 (Z.leb_le _ _)) by lia. cbn [assert_that obind].
  split; [eexists; split; [done|lia]|]. intros Hid. pose proof (LRU.idle_lru m L Hm Hid) as HL.
  pose proof (LRU.i_usage _ _ _ Hm) as Hu. pose proof (LRU.i_lru_usage _ _ _ Hm) as Hlu.
  rewrite (LRU.total_perm m _ _ HL) in Hu. split; [f_equal; lia|].
  destruct Hb as [|Hb]; [done|]. rewrite Hb in Hu. simpl in Hu. pose proof (LRU.i_cap _ _ _ Hm). lia.
Qed.

Lemma LRUCache_capacity_witness :
  exists m : LRU.t Z Z, LRU.run (LRU.NewLRUCache 10) (LRU.OpSetCapacity 5) = Ok m /\
    LRU.GetPinnedUsage m = Ok 0 /\ LRU.usage_ m <= LRU.capacity_ m.
Proof.
  eexists. split; [reflexivity|]. apply LRUCache_capacity.
  - eapply LRU.reach_step with (o := LRU.OpSetCapacity 5); [apply (LRU.reach_new 10); done|done|reflexivity].
  - intros e h Hh. discriminate Hh.
Defined.

(** What is in the cache.  After an insertion the key is bound to the new
    value, no other key has gained or changed a binding, and the handles held
    before keep their values; a look-up of a bound key pins that value, and of
    an unbound key finds nothing and changes nothing. *)
Theorem LRUCache_contents {K V} `{Countable K} (m : LRU.t K V) (k : K) (v : V) (c : Z) :
  LRU.reachable m -> 0 <= c -> LRU.usage_ m + c < 2 ^ 64 ->
  (exists m' e, LRU.Insert m k v c = Ok (m', e) /\ LRU.Value m' e = Ok v /\ LRU.table_ m' !! k = Some e /\
    LRU.survives m m' /\
    (forall k' e', k' <> k -> LRU.table_ m' !! k' = Some e' ->
       LRU.table_ m !! k' = Some e' /\ LRU.Value m' e' = LRU.Value m e')) /\
  match LRU.table_ m !! k with
  | None => LRU.Lookup m k = Ok (m, None)
  | Some e => exists m', LRU.Lookup m k = Ok (m', Some e) /\ LRU.Value m' e = LRU.Value m e /\ LRU.held m' e /\
      LRU.table_ m' = LRU.table_ m
  end.
Proof.
  intros Hr Hc Hu. pose proof (LRU.reachable_Inv m Hr) as Hm. split.
  - destruct (LRU.Insert_spec m k v c Hm Hc Hu) as (m' & e & -> & _ & _ & Hs & _ & Ht & _ & Hh & Hk & _).
    exists m', e. split_and!; try done; [unfold LRU.Value, LRU.deref; by rewrite Hh|].
    intros k' e' Hne Ht'. destruct (Hk k' e' Hne Ht') as [? He]. split; [done|]. unfold LRU.Value, LRU.deref. by rewrite He.
  - destruct (LRU.table_ m !! k) as [e|] eqn:Ht; [|by apply LRU.Lookup_missing].
    destruct (LRU.table_heap m k e Hm Ht) as (h & Hh & Hic & _ & Hrf).
    destruct (LRU.Lookup_found m k e h Hm Ht Hh) as (m' & -> & _ & _ & _ & Htb & Hhp). exists m'.
    assert (LRU.heap m' !! e = Some (LRU.set_refs (LRU.refs h + 1) h)) as Hh' by (rewrite Hhp; apply lookup_insert_eq).
    split_and!; try done.
    + unfold LRU.Value, LRU.deref. by rewrite Hh', Hh.
    + eexists. split; [exact Hh'|]. simpl. rewrite Hic. lia.
Qed.

Lemma LRUCache_contents_witness :
  exists m' e, LRU.Insert (LRU.NewLRUCache (K:=Z) (V:=Z) 10) 1 100 3 = Ok (m', e) /\ LRU.Value m' e = Ok 100 /\
    LRU.table_ m' !! 1 = Some e.
Proof.
  destruct (LRUCache_contents (LRU.NewLRUCache (K:=Z) (V:=Z) 10) 1 100 3) as [(m' & e & H1 & H2 & H3 & _) _];
    [by constructor|done|done|]. exists m', e. split; [exact H1|split; [exact H2|exact H3]].
Defined.
