(* ===== verification/Bloom.v ===== *)
(** * The bloom filter

    Model of [src/util/bloom.cc]: the filter a full cache block keeps over the
    topic names of its messages. *)

From S2P Require Import Prelude Coding CodingFacts.

(** [char] is signed where it is promoted. *)
Definition signed_char (b : byte) : Z := if b2z b <? 128 then b2z b else b2z b - 256.

Fixpoint BloomHash_words (fuel : nat) (data : slice) (h : Z) : slice * Z :=
  match fuel with
  | O => (data, h)
  | S fuel =>
      if (4 <=? length data)%nat then
        let w := DecodeFixed32 data in
        let h := u32 (h + w) in
        let h := u32 (h * 0xc6a4a793) in
        let h := Z.lxor h (Z.shiftr h 16) in
        BloomHash_words fuel (drop 4 data) h
      else (data, h)
  end.

(** The [switch] falls through from the longest remainder to the shortest. *)
Definition BloomHash (key : slice) : Z :=
  let seed := 0xbc9f1d34 in
  let m := 0xc6a4a793 in
  let h := u32 (Z.lxor seed (u64 (Z.of_nat (length key) * m))) in
  let '(data, h) := BloomHash_words (length key) key h in
  let h := match data with
           | [_; _; d2] => u32 (h + Z.shiftl (signed_char d2) 16)
           | _ => h
           end in
  let h := match data with
           | _ :: d1 :: _ => u32 (h + Z.shiftl (signed_char d1) 8)
           | _ => h
           end in
  match data with
  | d0 :: _ =>
      let h := u32 (h + signed_char d0) in
      let h := u32 (h * m) in
      Z.lxor h (Z.shiftr h 24)
  | [] => h
  end.

Record BloomFilterPolicy := {
  bits_per_key_ : Z;
  num_probes_ : nat;
  hash_func_ : slice -> Z
}.

(** [num_probes_ = bits_per_key * 0.69], rounded down, between 1 and 30.  The
    product in double precision differs from the exact one by less than its
    distance to the next integer below 44 bits, and above that the upper limit
    applies. *)
Definition NewBloomFilterPolicy (bits_per_key : Z) : BloomFilterPolicy :=
  {| bits_per_key_ := bits_per_key;
     num_probes_ := Z.to_nat (Z.min 30 (Z.max 1 (bits_per_key * 69 / 100)));
     hash_func_ := BloomHash |}.

(** Rotate right by 17 bits. *)
Definition probe_delta (h : Z) : Z := Z.lor (Z.shiftr h 17) (u32 (Z.shiftl h 15)).

(** [array[bitpos/8] |= 1 << (bitpos % 8)] *)
Definition set_bit (array : list byte) (bitpos : Z) : list byte :=
  let i := Z.to_nat (bitpos / 8) in
  <[i := z2b (Z.lor (b2z (nth i array Byte.x00)) (Z.shiftl 1 (bitpos mod 8)))]> array.

Definition test_bit (array : list byte) (bitpos : Z) : bool :=
  negb (Z.land (b2z (nth (Z.to_nat (bitpos / 8)) array Byte.x00)) (Z.shiftl 1 (bitpos mod 8)) =? 0).

Fixpoint set_probes (n : nat) (bits h delta : Z) (array : list byte) : list byte :=
  match n with
  | O => array
  | S n => set_probes n bits (u32 (h + delta)) delta (set_bit array (u32 (h mod bits)))
  end.

Fixpoint test_probes (n : nat) (bits h delta : Z) (array : list byte) : bool :=
  match n with
  | O => true
  | S n => if test_bit array (u32 (h mod bits)) then test_probes n bits (u32 (h + delta)) delta array else false
  end.

(** The filter is appended to [dst]: the bits, then the number of probes. *)
Definition CreateFilter (p : BloomFilterPolicy) (keys : list slice) (dst : list byte) : list byte :=
  let n := Z.of_nat (length keys) in
  let bits := u64 (n * bits_per_key_ p) in
  let bits := if bits <? 64 then 64 else bits in
  let bytes := (bits + 7) / 8 in
  let bits := bytes * 8 in
  let array := fold_left (fun array key =>
      let h := hash_func_ p key in
      set_probes (num_probes_ p) bits h (probe_delta h) array) keys (replicate (Z.to_nat bytes) Byte.x00) in
  dst ++ array ++ [z2b (Z.of_nat (num_probes_ p))].

Definition KeyMayMatch (p : BloomFilterPolicy) (key : slice) (bloom_filter : list byte) : bool :=
  let len := length bloom_filter in
  if (len <? 2)%nat then false
  else
    let bits := (Z.of_nat len - 1) * 8 in
    let k := b2z (nth (len - 1) bloom_filter Byte.x00) in
    if 30 <? k then true
    else
      let h := hash_func_ p key in
      test_probes (Z.to_nat k) bits h (probe_delta h) bloom_filter.

(** ** Facts *)

Lemma test_bit_set array pos pos' : (Z.to_nat (pos / 8) < length array)%nat -> 0 <= pos -> 0 <= pos' ->
  test_bit array pos' = true \/ pos' = pos -> test_bit (set_bit array pos) pos' = true.
Proof.
  intros Hl Hp Hp' H. unfold test_bit, set_bit in *.
  pose proof (Z.mod_pos_bound pos 8 ltac:(lia)). pose proof (Z.mod_pos_bound pos' 8 ltac:(lia)).
  rewrite negb_true_iff, Z.eqb_neq.
  assert (forall z n, 0 <= n < 8 -> 0 <= z -> Z.testbit z n = true -> Z.land z (Z.shiftl 1 n) <> 0) as Hnz.
  { intros z n Hn Hz Ht Hl0. assert (Z.testbit (Z.land z (Z.shiftl 1 n)) n = true) as Hb.
    { rewrite Z.land_spec, Ht, Z.shiftl_spec by lia. by replace (n - n) with 0 by lia. }
    rewrite Hl0, Z.bits_0 in Hb. done. }
  assert (forall z n, 0 <= n < 8 -> Z.land z (Z.shiftl 1 n) <> 0 -> Z.testbit z n = true) as Hzn.
  { intros z n Hn Hz. destruct (Z.testbit z n) eqn:E; [done|]. exfalso. apply Hz. apply Z.bits_inj'.
    intros i Hi. rewrite Z.land_spec, Z.bits_0. destruct (decide (i = n)) as [->|]; [by rewrite E|].
    rewrite Z.shiftl_spec by lia. destruct (decide (i < n)).
    - rewrite (Z.testbit_neg_r 1) by lia. by rewrite andb_false_r.
    - rewrite (Z.bits_above_log2 1) by (simpl; lia). by rewrite andb_false_r. }
  assert (forall z n, fits 8 z -> 0 <= n < 8 -> fits 8 (Z.lor z (Z.shiftl 1 n))) as Hf8.
  { intros z n Hz Hn. apply fits_of_testbit; [lia|apply Z.lor_nonneg; split; [apply Hz|by apply Z.shiftl_nonneg]|].
    intros i Hi. rewrite Z.lor_spec, (testbit_fits 8 z) by (done || lia). rewrite Z.shiftl_spec by lia.
    apply Z.bits_above_log2; simpl; lia. }
  destruct (decide (Z.to_nat (pos' / 8) = Z.to_nat (pos / 8))) as [Ei|Ei].
  - rewrite Ei in *. rewrite nth_lookup, list_lookup_insert_eq by done. cbn [from_option]. unfold id at 1.
    rewrite b2z_z2b_small by (apply Hf8; [apply b2z_fits|lia]). apply Hnz; [lia|apply Z.lor_nonneg; split; [apply b2z_fits|by apply Z.shiftl_nonneg]|].
    rewrite Z.lor_spec. destruct H as [H|<-].
    + rewrite negb_true_iff, Z.eqb_neq in H. apply Hzn in H; [|lia]. by rewrite H.
    + rewrite Z.shiftl_spec by lia. replace (pos' mod 8 - pos' mod 8) with 0 by lia. by rewrite orb_true_r.
  - destruct H as [H| ->]; [|done]. rewrite !nth_lookup in *. rewrite list_lookup_insert_ne by done.
    rewrite negb_true_iff, Z.eqb_neq in H. exact H.
Qed.

Lemma length_set_bit array pos : length (set_bit array pos) = length array.
Proof. unfold set_bit. cbv zeta. apply length_insert. Qed.

Lemma length_set_probes n bits h d array : length (set_probes n bits h d array) = length array.
Proof. revert h array. induction n as [|n IH]; intros h array; cbn [set_probes]; [done|]. by rewrite IH, length_set_bit. Qed.

(** A position the filter of [bytes] bytes has. *)
Lemma probe_position (bytes : nat) h : (0 < bytes)%nat ->
  0 <= u32 (h mod (Z.of_nat bytes * 8)) /\ (Z.to_nat (u32 (h mod (Z.of_nat bytes * 8)) / 8) < bytes)%nat.
Proof.
  intros Hb. pose proof (Z.mod_pos_bound h (Z.of_nat bytes * 8) ltac:(lia)) as Hm.
  unfold wrap. pose proof (Z.mod_pos_bound (h mod (Z.of_nat bytes * 8)) (2 ^ 32) ltac:(lia)) as Hw.
  split; [lia|]. pose proof (Z.mod_le (h mod (Z.of_nat bytes * 8)) (2 ^ 32) ltac:(lia) ltac:(lia)) as Hle.
  enough ((h mod (Z.of_nat bytes * 8)) mod 2 ^ 32 / 8 < Z.of_nat bytes) by lia.
  apply Z.div_lt_upper_bound; lia.
Qed.

(** Setting bits keeps the bits that were set. *)
Definition covers (a a' : list byte) : Prop :=
  length a = length a' /\ forall pos, 0 <= pos -> test_bit a pos = true -> test_bit a' pos = true.

Lemma covers_trans a b c : covers a b -> covers b c -> covers a c.
Proof. intros [? H1] [? H2]. split; [congruence|auto]. Qed.

Section Probes.
Context (bytes : nat) (Hbytes : (0 < bytes)%nat).
Let bits := Z.of_nat bytes * 8.

Lemma set_bit_covers h a : length a = bytes -> covers a (set_bit a (u32 (h mod bits))).
Proof.
  intros Ha. destruct (probe_position bytes h Hbytes) as [Hp Hl]. split; [by rewrite length_set_bit|].
  intros pos Hpos Ht. apply test_bit_set; [by rewrite Ha|done|done|by left].
Qed.

Lemma set_probes_covers n h d a : length a = bytes -> covers a (set_probes n bits h d a).
Proof.
  revert h a. induction n as [|n IH]; intros h a Ha; cbn [set_probes]; [done|].
  eapply covers_trans; [by apply (set_bit_covers h)|]. apply IH. by rewrite length_set_bit.
Qed.

Lemma test_probes_covers n h d a a' : length a = bytes -> covers a a' ->
  test_probes n bits h d a = true -> test_probes n bits h d a' = true.
Proof.
  intros Ha Hc. revert h. induction n as [|n IH]; intros h; cbn [test_probes]; [done|].
  destruct (test_bit a _) eqn:E; [|done]. intros Hn.
  assert (test_bit a' (u32 (h mod bits)) = true) as -> by exact (proj2 Hc _ (proj1 (probe_position bytes h Hbytes)) E).
  by apply IH.
Qed.

Lemma test_set_probes n h d a : length a = bytes -> test_probes n bits h d (set_probes n bits h d a) = true.
Proof.
  revert h a. induction n as [|n IH]; intros h a Ha; cbn [test_probes set_probes]; [done|].
  destruct (probe_position bytes h Hbytes) as [Hp Hl].
  assert (test_bit (set_probes n bits (u32 (h + d)) d (set_bit a (u32 (h mod bits)))) (u32 (h mod bits)) = true) as ->.
  { apply set_probes_covers; [by rewrite length_set_bit|done|].
    apply test_bit_set; [by rewrite Ha|done|done|by right]. }
  apply IH. by rewrite length_set_bit.
Qed.

(** The probe count that follows the bits does not disturb them. *)
Lemma test_probes_app n h d a tl : length a = bytes -> test_probes n bits h d (a ++ tl) = test_probes n bits h d a.
Proof.
  intros Ha. revert h. induction n as [|n IH]; intros h; cbn [test_probes]; [done|]. rewrite IH.
  destruct (probe_position bytes h Hbytes) as [Hp Hl]. unfold test_bit. by rewrite app_nth1 by (rewrite Ha; exact Hl).
Qed.

Lemma fold_set_probes (p : BloomFilterPolicy) keys a :
  let add := fun array key => set_probes (num_probes_ p) bits (hash_func_ p key) (probe_delta (hash_func_ p key)) array in
  length a = bytes ->
  length (fold_left add keys a) = bytes /\ covers a (fold_left add keys a) /\
  forall key, key ∈ keys ->
    test_probes (num_probes_ p) bits (hash_func_ p key) (probe_delta (hash_func_ p key)) (fold_left add keys a) = true.
Proof.
  cbv zeta. revert a. induction keys as [|key keys IH]; intros a Ha; cbn [fold_left].
  { split_and!; [done|done|]. set_solver. }
  set (a1 := set_probes (num_probes_ p) bits (hash_func_ p key) (probe_delta (hash_func_ p key)) a).
  assert (length a1 = bytes) as Ha1 by (unfold a1; by rewrite length_set_probes).
  destruct (IH a1 Ha1) as (Hl & Hc & Hk). split_and!; [done| |].
  - eapply covers_trans; [|exact Hc]. by apply set_probes_covers.
  - intros k [->|Hin]%elem_of_cons; [|by apply Hk]. eapply test_probes_covers; [exact Ha1|exact Hc|].
    by apply test_set_probes.
Qed.
End Probes.

Lemma CreateFilter_matches p keys key : (num_probes_ p <= 30)%nat -> key ∈ keys ->
  KeyMayMatch p key (CreateFilter p keys []) = true.
Proof.
  intros Hn Hk. unfold CreateFilter. cbv zeta. rewrite app_nil_l.
  set (b0 := u64 (Z.of_nat (length keys) * bits_per_key_ p)).
  set (bits := if b0 <? 64 then 64 else b0).
  assert (64 <= bits) as Hbits by (unfold bits; case_bool; lia).
  assert (8 <= (bits + 7) / 8) as Hby by (apply Z.div_le_lower_bound; lia).
  set (bytes := Z.to_nat ((bits + 7) / 8)). assert (Z.of_nat bytes = (bits + 7) / 8) as Eb by (unfold bytes; lia).
  rewrite <-Eb. assert (0 < bytes)%nat as Hpos by lia.
  destruct (fold_set_probes bytes Hpos p keys (replicate bytes Byte.x00) (length_replicate _ _)) as (Hl & _ & Ht).
  set (arr := fold_left _ keys (replicate bytes Byte.x00)) in *.
  unfold KeyMayMatch. cbv zeta. rewrite length_app, Hl. cbn [length].
  rewrite (proj2 (Nat.ltb_ge _ _)) by lia. replace (bytes + 1 - 1)%nat with (length arr + 0)%nat by lia.
  rewrite app_nth2_plus. cbn [nth]. rewrite b2z_z2b_small by (unfold fits; lia).
  rewrite (proj2 (Z.ltb_ge _ _)) by lia. rewrite Nat2Z.id.
  replace ((Z.of_nat (bytes + 1) - 1) * 8) with (Z.of_nat bytes * 8) by lia.
  rewrite test_probes_app by done. by apply Ht.
Qed.

(** ** Properties *)

(** No false negatives.  A filter built by the policy over a list of keys,
    whatever their hashes, matches every one of the keys. *)
Theorem Bloom_no_false_negatives bits_per_key keys key : key ∈ keys ->
  KeyMayMatch (NewBloomFilterPolicy bits_per_key) key
    (CreateFilter (NewBloomFilterPolicy bits_per_key) keys []) = true.
Proof. intros Hk. apply CreateFilter_matches; [|done]. cbn [num_probes_ NewBloomFilterPolicy]. lia. Qed.

Lemma Bloom_no_false_negatives_witness :
  KeyMayMatch (NewBloomFilterPolicy 10) (bytes_of "topic")
    (CreateFilter (NewBloomFilterPolicy 10) [bytes_of "other"; bytes_of "topic"] []) = true.
Proof. apply Bloom_no_false_negatives. set_solver. Defined.
