(* ===== verification/DataCache.v ===== *)
(** * The data cache of the control tower

    Model of [src/controltower/data_cache.cc]: blocks of messages of a log
    ([CacheEntry]), kept in the LRU cache under the log and the first sequence
    number of the block ([DataCache]).  The statistics counters are left out.

    The hash of a topic name (xxHash) and the sizes of the C++ objects are
    parameters: nothing depends on their values. *)

From S2P Require Import Prelude Coding CodingFacts Messages LRUCache Bloom.

#[local] Open Scope outcome_scope.

(** [IsReserved]: the system namespaces start with an underscore. *)
Definition IsReserved (ns : slice) : bool :=
  match ns with
  | b :: _ => bool_decide (b = Byte.x5f)
  | [] => false
  end.

(** Find the first sequence number of the block: [seqno & ~(block_size - 1)]. *)
Definition AlignToBlockStart (block_size seqno : Z) : Z :=
  Z.land seqno (Z.lxor (2 ^ 64 - 1) (u64 (block_size - 1))).

(** The 16 bytes of a cache key: log ID, then first sequence number. *)
Definition GenerateKey (block_size logid seqno : Z) : outcome (list byte) :=
  assert_that (seqno =? AlignToBlockStart block_size seqno) "seqno == AlignToBlockStart(block_size, seqno)" ;;;
  Ok (EncodeFixed64 logid ++ EncodeFixed64 seqno).

Record CacheEntry := {
  logid_ : Z;
  seqno_block_ : Z;
  bloom_bits_ : list byte;
  num_messages_ : Z;
  mcache_ : list (option MessageData);
  hcache_ : list Z
}.

Record DataCache := {
  bloom_bits_per_msg_ : Z;
  block_size_ : Z;
  StoreUserTopics : bool;
  StoreSystemTopics : bool;
  StoreDataRecords : bool;
  StoreGapRecords : bool;
  rs_cache_ : option (LRU.t (list byte) CacheEntry);
  bloom_filter_ : option BloomFilterPolicy
}.

Definition set_rs_cache (c : option (LRU.t (list byte) CacheEntry)) (dc : DataCache) : DataCache :=
  {| bloom_bits_per_msg_ := bloom_bits_per_msg_ dc; block_size_ := block_size_ dc;
     StoreUserTopics := StoreUserTopics dc; StoreSystemTopics := StoreSystemTopics dc;
     StoreDataRecords := StoreDataRecords dc; StoreGapRecords := StoreGapRecords dc;
     rs_cache_ := c; bloom_filter_ := bloom_filter_ dc |}.

Section DataCache.
Context (XXH64 : slice -> Z) (sizeof_MessageData sizeof_CacheEntry : Z).

Definition GetTotalSize (m : MessageData) : Z :=
  sizeof_MessageData + Z.of_nat (length (data_topic_name_ m)) + Z.of_nat (length (data_payload_ m)) +
  Z.of_nat (length (data_namespaceid_ m)) + Z.of_nat (length (storage_slice_ m)).

(** 0 is special, so the hash is reduced to a smaller range. *)
Definition HashTopic (topic : slice) : Z := u16 (XXH64 topic mod 0xFFFF + 1).

(** *** [CacheEntry] *)

Definition NewCacheEntry (dc : DataCache) (logid seqno_block : Z) : outcome CacheEntry :=
  assert_that (block_size_ dc + 1 <? 2 ^ 16) "(1U << 8 * sizeof(num_messages_)) > block_size_ + 1U" ;;;
  Ok {| logid_ := logid; seqno_block_ := seqno_block; bloom_bits_ := []; num_messages_ := 0;
        mcache_ := replicate (Z.to_nat (block_size_ dc)) None;
        hcache_ := replicate (Z.to_nat (block_size_ dc)) 0 |}.

(** An index into one of the two arrays. *)
Definition message_at (e : CacheEntry) (offset : nat) : option MessageData :=
  match mcache_ e !! offset with Some m => m | None => None end.
Definition hash_at (e : CacheEntry) (offset : nat) : Z := nth offset (hcache_ e) 0.

(** [topics.push_back(mcache_[i]->GetTopicName())] for the first [n] slots. *)
Fixpoint topic_names (ms : list (option MessageData)) : outcome (list slice) :=
  match ms with
  | [] => Ok []
  | Some m :: ms => ts <~ topic_names ms ;; Ok (data_topic_name_ m :: ts)
  | None :: _ => Abort "dereference of a null message"
  end.

(** Returns the increase in charge.  Creating the filter of a full block
    reads the topic of every slot. *)
Definition CacheEntry_StoreData (dc : DataCache) (e : CacheEntry) (topic : slice) (log_id : Z)
    (msg : MessageData) : outcome (CacheEntry * Z) :=
  let seqno := data_seqno_ msg in
  let seqno_block := AlignToBlockStart (block_size_ dc) seqno in
  let offset := Z.to_nat (seqno - seqno_block) in
  assert_that (logid_ e =? log_id) "logid_ == log_id" ;;;
  assert_that (seqno_block_ e =? seqno_block) "seqno_block_ == seqno_block" ;;;
  match message_at e offset with
  | Some old =>
      assert_that (data_seqno_ old =? data_seqno_ msg) "same sequence number" ;;;
      assert_that (GetTotalSize old =? GetTotalSize msg) "same total size" ;;;
      assert_that (negb (hash_at e offset =? 0)) "hcache_[offset] != 0" ;;;
      Ok (e, 0)
  | None =>
      assert_that (hash_at e offset =? 0) "hcache_[offset] == 0" ;;;
      let size := GetTotalSize msg in
      let mcache := <[offset := Some msg]> (mcache_ e) in
      let hcache := <[offset := HashTopic topic]> (hcache_ e) in
      let num_messages := u16 (num_messages_ e + 1) in
      bloom_bits <~
        match bloom_filter_ dc with
        | Some p =>
            if num_messages =? block_size_ dc then
              assert_that (length (bloom_bits_ e) =? 0)%nat "bloom_bits_.size() == 0" ;;;
              topics <~ topic_names (take (Z.to_nat num_messages) mcache) ;;
              Ok (CreateFilter p topics (bloom_bits_ e))
            else Ok (bloom_bits_ e)
        | None => Ok (bloom_bits_ e)
        end ;;
      Ok ({| logid_ := logid_ e; seqno_block_ := seqno_block_ e; bloom_bits_ := bloom_bits;
             num_messages_ := num_messages; mcache_ := mcache; hcache_ := hcache |}, size)
  end.

(** Returns the decrease in charge; [num_messages_] and the filter stay. *)
Definition CacheEntry_Erase (dc : DataCache) (e : CacheEntry) (log_id seqno : Z) : outcome (CacheEntry * Z) :=
  let seqno_block := AlignToBlockStart (block_size_ dc) seqno in
  let offset := Z.to_nat (seqno - seqno_block) in
  assert_that (logid_ e =? log_id) "logid_ == log_id" ;;;
  assert_that (seqno_block_ e =? seqno_block) "seqno_block_ == seqno_block" ;;;
  match message_at e offset with
  | None => assert_that (hash_at e offset =? 0) "hcache_[offset] == 0" ;;; Ok (e, 0)
  | Some m =>
      Ok ({| logid_ := logid_ e; seqno_block_ := seqno_block_ e; bloom_bits_ := bloom_bits_ e;
             num_messages_ := num_messages_ e; mcache_ := <[offset := None]> (mcache_ e);
             hcache_ := <[offset := 0]> (hcache_ e) |}, GetTotalSize m)
  end.

Definition CacheEntry_HasEntry (e : CacheEntry) (offset : nat) : outcome bool :=
  let here := bool_decide (is_Some (message_at e offset)) in
  assert_that (Bool.eqb (negb here) (hash_at e offset =? 0)) "(mcache_[offset] == nullptr) == (hcache_[offset] == 0)" ;;;
  Ok here.

Definition GetInitialCharge (dc : DataCache) : Z :=
  sizeof_CacheEntry + block_size_ dc * 8 + block_size_ dc * 2 + block_size_ dc * bloom_bits_per_msg_ dc / 8.

(** *** Visiting

    A visitor may change the message it is given (it stamps the previous
    sequence number) and a state of its own; it says whether to go on. *)

Section Visit.
Context {S : Type} (visit : MessageData -> S -> outcome (MessageData * S * bool)).

(** The two scanning loops, over the slots from the start offset.  They
    return the slots, how many were passed, and whether to stop. *)
Fixpoint visit_all (ms : list (option MessageData)) (s : S)
    : outcome (list (option MessageData) * nat * bool * S) :=
  match ms with
  | Some msg :: ms =>
      r <~ visit msg s ;;
      let '(msg, s, more) := r in
      if more : bool then
        r <~ visit_all ms s ;;
        let '(ms, n, stop, s) := r in Ok (Some msg :: ms, Datatypes.S n, stop, s)
      else Ok (Some msg :: ms, 1%nat, true, s)
  | _ => Ok (ms, 0%nat, false, s)
  end.

Fixpoint visit_hashed (hash : Z) (hs : list Z) (ms : list (option MessageData)) (s : S)
    : outcome (list (option MessageData) * nat * bool * S) :=
  match hs, ms with
  | h :: hs, m :: ms =>
      if h =? 0 then Ok (m :: ms, 0%nat, false, s)
      else if h =? hash then
        match m with
        | None => Abort "visit of a null message"
        | Some msg =>
            r <~ visit msg s ;;
            let '(msg, s, more) := r in
            if more : bool then
              r <~ visit_hashed hash hs ms s ;;
              let '(ms, n, stop, s) := r in Ok (Some msg :: ms, Datatypes.S n, stop, s)
            else Ok (Some msg :: ms, 1%nat, true, s)
        end
      else
        r <~ visit_hashed hash hs ms s ;;
        let '(ms, n, stop, s) := r in Ok (m :: ms, Datatypes.S n, stop, s)
  | _, _ => Ok (ms, 0%nat, false, s)
  end.

Definition set_mcache (ms : list (option MessageData)) (e : CacheEntry) : CacheEntry :=
  {| logid_ := logid_ e; seqno_block_ := seqno_block_ e; bloom_bits_ := bloom_bits_ e;
     num_messages_ := num_messages_ e; mcache_ := ms; hcache_ := hcache_ e |}.

(** Returns the next sequence number and whether to stop. *)
Definition VisitEntry (dc : DataCache) (e : CacheEntry) (logid seqno : Z) (lookup_topicname : slice) (s : S)
    : outcome (CacheEntry * Z * bool * S) :=
  let seqno_block := AlignToBlockStart (block_size_ dc) seqno in
  let offset := Z.to_nat (seqno - seqno_block) in
  assert_that (logid_ e =? logid) "logid_ == logid" ;;;
  assert_that (seqno_block_ e =? seqno_block) "seqno_block_ == seqno_block" ;;;
  if match bloom_filter_ dc with
     | Some p =>
         if (0 <? length lookup_topicname)%nat && (0 <? length (bloom_bits_ e))%nat
         then negb (KeyMayMatch p lookup_topicname (bloom_bits_ e)) else false
     | None => false
     end
  then Ok (e, u64 (seqno_block + block_size_ dc), false, s)
  else
    r <~ (if (length lookup_topicname =? 0)%nat
          then visit_all (drop offset (mcache_ e)) s
          else visit_hashed (HashTopic lookup_topicname) (drop offset (hcache_ e)) (drop offset (mcache_ e)) s) ;;
    let '(ms, n, stop, s) := r in
    Ok (set_mcache (take offset (mcache_ e) ++ ms) e, u64 (seqno_block + Z.of_nat (offset + n)), stop, s).

(** The loop over blocks.  A block is visited at most once, so one more
    iteration than there are blocks is enough. *)
Fixpoint VisitCache_loop (fuel : nat) (dc : DataCache) (cache : LRU.t (list byte) CacheEntry)
    (logid start seqno_block : Z) (lookup_topicname : slice) (s : S)
    : outcome (LRU.t (list byte) CacheEntry * Z * S) :=
  match fuel with
  | O => Abort "fuel"
  | Datatypes.S fuel =>
      cache_key <~ GenerateKey (block_size_ dc) logid seqno_block ;;
      r <~ LRU.Lookup cache cache_key ;;
      match r with
      | (cache, None) => Ok (cache, start, s)
      | (cache, Some handle) =>
          entry <~ LRU.Value cache handle ;;
          r <~ VisitEntry dc entry logid start lookup_topicname s ;;
          let '(entry, next, stop, s) := r in
          cache <~ LRU.Release (LRU.SetValue cache handle entry) handle ;;
          if (next <? u64 (seqno_block + block_size_ dc)) || stop then Ok (cache, next, s)
          else
            assert_that (next =? AlignToBlockStart (block_size_ dc) next) "next == AlignToBlockStart(next)" ;;;
            VisitCache_loop fuel dc cache logid next next lookup_topicname s
      end
  end.

  (** Returns the next sequence number that is not yet processed. *)
Definition VisitCache (dc : DataCache) (logid start : Z) (lookup_topicname : slice) (s : S)
    : outcome (DataCache * Z * S) :=
  match rs_cache_ dc with
  | None => Ok (dc, start, s)
  | Some cache =>
      pinned <~ LRU.GetPinnedUsage cache ;;
      assert_that (pinned =? 0) "rs_cache_->GetPinnedUsage() == 0" ;;;
      let seqno_block := AlignToBlockStart (block_size_ dc) start in
      r <~ VisitCache_loop (Datatypes.S (size (LRU.table_ cache))) dc cache logid start seqno_block lookup_topicname s ;;
      let '(cache, start, s) := r in
      Ok (set_rs_cache (Some cache) dc, start, s)
  end.
End Visit.

(** *** [DataCache] *)

Definition NewDataCache (size_in_bytes : Z) (cache_data_from_system_namespaces : bool)
    (bloom_bits_per_msg block_size : Z) : outcome DataCache :=
  assert_that (Z.land block_size (block_size - 1) =? 0) "(block_size & (block_size - 1)) == 0" ;;;
  Ok {| bloom_bits_per_msg_ := bloom_bits_per_msg; block_size_ := block_size;
        StoreUserTopics := true; StoreSystemTopics := cache_data_from_system_namespaces;
        StoreDataRecords := true; StoreGapRecords := true;
        rs_cache_ := if size_in_bytes =? 0 then None else Some (LRU.NewLRUCache size_in_bytes);
        bloom_filter_ := if 0 <? bloom_bits_per_msg then Some (NewBloomFilterPolicy bloom_bits_per_msg) else None |}.

Definition ClearCache (dc : DataCache) : DataCache :=
  match rs_cache_ dc with
  | None => dc
  | Some cache => set_rs_cache (Some (LRU.NewLRUCache (LRU.capacity_ cache))) dc
  end.

Definition SetCapacity (dc : DataCache) (capacity : Z) : outcome DataCache :=
  if capacity =? 0 then Ok (set_rs_cache None dc)
  else match rs_cache_ dc with
       | Some cache => cache <~ LRU.SetCapacity cache capacity ;; Ok (set_rs_cache (Some cache) dc)
       | None => Ok (set_rs_cache (Some (LRU.NewLRUCache capacity)) dc)
       end.

Definition GetCapacity (dc : DataCache) : Z :=
  match rs_cache_ dc with None => 0 | Some cache => LRU.capacity_ cache end.

Definition GetUsage (dc : DataCache) : Z :=
  match rs_cache_ dc with None => 0 | Some cache => LRU.usage_ cache end.

Definition stores (dc : DataCache) (namespace_id : slice) : bool :=
  StoreDataRecords dc && (if IsReserved namespace_id then StoreSystemTopics dc else StoreUserTopics dc).

Definition StoreData (dc : DataCache) (namespace_id topic : slice) (log_id : Z) (msg : MessageData)
    : outcome DataCache :=
  match rs_cache_ dc with
  | None => Ok dc
  | Some cache =>
      pinned <~ LRU.GetPinnedUsage cache ;;
      assert_that (pinned =? 0) "rs_cache_->GetPinnedUsage() == 0" ;;;
      if stores dc namespace_id then
        let seqno_block := AlignToBlockStart (block_size_ dc) (data_seqno_ msg) in
        cache_key <~ GenerateKey (block_size_ dc) log_id seqno_block ;;
        r <~ LRU.Lookup cache cache_key ;;
        r <~ match r with
             | (cache, Some handle) => entry <~ LRU.Value cache handle ;; Ok (cache, handle, entry)
             | (cache, None) =>
                 entry <~ NewCacheEntry dc log_id seqno_block ;;
                 r <~ LRU.Insert cache cache_key entry (GetInitialCharge dc) ;;
                 Ok (fst r, snd r, entry)
             end ;;
        let '(cache, handle, entry) := r in
        r <~ CacheEntry_StoreData dc entry topic log_id msg ;;
        let cache := LRU.SetValue cache handle (fst r) in
        cache <~ LRU.ChargeDelta cache handle (u64 (snd r)) ;;
        cache <~ LRU.Release cache handle ;;
        Ok (set_rs_cache (Some cache) dc)
      else Ok dc
  end.

(** Gaps are not stored. *)
Definition StoreGap (dc : DataCache) : DataCache :=
  match rs_cache_ dc with
  | None => dc
  | Some _ => if StoreGapRecords dc then dc else dc
  end.

Definition Erase (dc : DataCache) (log_id seqno : Z) : outcome DataCache :=
  match rs_cache_ dc with
  | None => Ok dc
  | Some cache =>
      let seqno_block := AlignToBlockStart (block_size_ dc) seqno in
      cache_key <~ GenerateKey (block_size_ dc) log_id seqno_block ;;
      r <~ LRU.Lookup cache cache_key ;;
      match r with
      | (cache, None) => Ok (set_rs_cache (Some cache) dc)
      | (cache, Some handle) =>
          entry <~ LRU.Value cache handle ;;
          r <~ CacheEntry_Erase dc entry log_id seqno ;;
          let cache := LRU.SetValue cache handle (fst r) in
          cache <~ LRU.ChargeDelta cache handle (u64 (- snd r)) ;;
          cache <~ LRU.Release cache handle ;;
          Ok (set_rs_cache (Some cache) dc)
      end
  end.

Definition HasEntry (dc : DataCache) (logid seqno : Z) : outcome (DataCache * bool) :=
  match rs_cache_ dc with
  | None => Ok (dc, false)
  | Some cache =>
      let seqno_block := AlignToBlockStart (block_size_ dc) seqno in
      cache_key <~ GenerateKey (block_size_ dc) logid seqno_block ;;
      r <~ LRU.Lookup cache cache_key ;;
      match r with
      | (cache, None) => Ok (set_rs_cache (Some cache) dc, false)
      | (cache, Some handle) =>
          entry <~ LRU.Value cache handle ;;
          result <~ CacheEntry_HasEntry entry (Z.to_nat (seqno - seqno_block)) ;;
          cache <~ LRU.Release cache handle ;;
          Ok (set_rs_cache (Some cache) dc, result)
      end
  end.
End DataCache.
