(* ===== verification/DataCacheFacts.v ===== *)
(** * Facts about the data cache

    The invariant of the cache, what its visits deliver, and the behaviour of
    each operation of [DataCache]. *)

From S2P Require Import Prelude Coding CodingFacts Messages LRUCache Bloom DataCache.

(** ** Blocks *)

Definition block_size_ok (bs : Z) : Prop := exists j, 0 <= j < 16 /\ bs = 2 ^ j /\ bs + 1 < 2 ^ 16.

Lemma block_size_pos bs : block_size_ok bs -> 1 <= bs < 2 ^ 16.
Proof. intros (j & Hj & -> & ?). pose proof (Z.pow_pos_nonneg 2 j). lia. Qed.

Lemma AlignToBlockStart_mod bs q : block_size_ok bs -> fits 64 q -> AlignToBlockStart bs q = q - q mod bs.
Proof.
  intros Hbs Hq. pose proof (block_size_pos bs Hbs) as Hp. destruct Hbs as (j & Hj & -> & _). unfold AlignToBlockStart.
  rewrite wrap_small by (unfold fits; lia).
  replace (2 ^ j - 1) with (Z.ones j) by (rewrite Z.ones_equiv; lia). change (2 ^ 64 - 1) with (Z.ones 64).
  replace (q - q mod 2 ^ j) with (Z.shiftl (Z.shiftr q j) j).
  2: { rewrite Z.shiftl_mul_pow2, Z.shiftr_div_pow2 by lia. pose proof (Z.div_mod q (2 ^ j)). lia. }
  apply Z.bits_inj'. intros i Hi. rewrite Z.land_spec, Z.lxor_spec, !Z.testbit_ones_nonneg by lia.
  destruct (Z.ltb_spec i j).
  - rewrite Z.shiftl_spec_low by lia. rewrite (proj2 (Z.ltb_lt i 64)) by lia. by rewrite andb_false_r.
  - rewrite Z.shiftl_spec, Z.shiftr_spec by lia. replace (i - j + j) with i by lia.
    destruct (Z.ltb_spec i 64); [by rewrite andb_true_r|]. by rewrite (testbit_fits 64 q i) by (done || lia).
Qed.

(** The block a sequence number belongs to, and its offset there. *)
Lemma block_offset bs q : block_size_ok bs -> fits 64 q ->
  let b := AlignToBlockStart bs q in
  0 <= b <= q /\ q - b < bs /\ b mod bs = 0 /\ fits 64 b /\ AlignToBlockStart bs b = b.
Proof.
  intros Hbs Hq. cbv zeta. rewrite AlignToBlockStart_mod by done. pose proof (block_size_pos bs Hbs).
  pose proof (Z.mod_pos_bound q bs ltac:(lia)). pose proof (Z.mod_le q bs ltac:(apply Hq) ltac:(lia)).
  assert ((q - q mod bs) mod bs = 0) as Hm by (rewrite Zminus_mod_idemp_r; replace (q - q) with 0 by lia; apply Z.mod_0_l; lia).
  assert (fits 64 (q - q mod bs)) as Hf by (unfold fits in *; lia).
  split_and!; try lia; try done. rewrite AlignToBlockStart_mod by done. lia.
Qed.

Lemma block_unique bs q b : block_size_ok bs -> fits 64 q -> fits 64 b -> b mod bs = 0 -> b <= q < b + bs ->
  AlignToBlockStart bs q = b.
Proof.
  intros Hbs Hq Hb Hm Hr. rewrite AlignToBlockStart_mod by done. pose proof (block_size_pos bs Hbs).
  enough (q mod bs = q - b) by lia. symmetry. apply (Z.mod_unique_pos q bs (b / bs)); [lia|].
  pose proof (Z.div_mod b bs ltac:(lia)). lia.
Qed.

Definition block_key (logid b : Z) : list byte := EncodeFixed64 logid ++ EncodeFixed64 b.

Lemma GenerateKey_block bs logid b : block_size_ok bs -> fits 64 b -> b mod bs = 0 ->
  GenerateKey bs logid b = Ok (block_key logid b).
Proof.
  intros Hbs Hb Hm. unfold GenerateKey. rewrite AlignToBlockStart_mod by done.
  rewrite (proj2 (Z.eqb_eq b _)) by lia. done.
Qed.

Lemma EncodeFixed64_inj a b : fits 64 a -> fits 64 b -> EncodeFixed64 a = EncodeFixed64 b -> a = b.
Proof.
  unfold EncodeFixed64, EncodeFixed64_on. intros Ha Hb E.
  assert (le_value (le_bytes 8 a) = le_value (le_bytes 8 b)) as E' by (by rewrite E).
  rewrite !le_value_le_bytes in E'. change (8 * Z.of_nat 8) with 64 in E'. by rewrite !wrap_small in E'.
Qed.

Lemma block_key_inj l b l' b' : fits 64 l -> fits 64 l' -> fits 64 b -> fits 64 b' ->
  block_key l b = block_key l' b' -> l = l' /\ b = b'.
Proof.
  intros ???? E. apply app_inj_1 in E as [E1 E2]; [|done]. split; by apply EncodeFixed64_inj.
Qed.

(** The first sequence number, read back from a key. *)
Definition key_block (k : list byte) : Z := le_value (drop 8 k).

Lemma key_block_key l b : fits 64 b -> key_block (block_key l b) = b.
Proof.
  intros Hb. unfold key_block, block_key. rewrite drop_app_length' by done.
  unfold EncodeFixed64, EncodeFixed64_on. rewrite le_value_le_bytes. by apply wrap_small.
Qed.

Section Facts.
Context (XXH64 : slice -> Z) (sizeof_MessageData sizeof_CacheEntry : Z).

Local Abbreviation Hash := (HashTopic XXH64).
Local Abbreviation Size := (GetTotalSize sizeof_MessageData).

Lemma HashTopic_nonzero t : Hash t <> 0.
Proof.
  unfold HashTopic. pose proof (Z.mod_pos_bound (XXH64 t) 0xFFFF ltac:(lia)).
  rewrite wrap_small by (unfold fits; lia). lia.
Qed.

(** *** The invariant *)

Definition slot_hash (m : option MessageData) : Z :=
  match m with Some m => Hash (data_topic_name_ m) | None => 0 end.

Record entry_wf (dc : DataCache) (e : CacheEntry) : Prop := {
  e_logid : fits 64 (logid_ e);
  e_block : 0 <= seqno_block_ e /\ seqno_block_ e + block_size_ dc < 2 ^ 64 /\ seqno_block_ e mod block_size_ dc = 0;
  e_length : length (mcache_ e) = Z.to_nat (block_size_ dc);
  e_hash : hcache_ e = map slot_hash (mcache_ e);
  e_seqno : forall i m, mcache_ e !! i = Some (Some m) -> data_seqno_ m = seqno_block_ e + Z.of_nat i;
  e_count : num_messages_ e = Z.of_nat (length (omap id (mcache_ e)));
  e_bloom : bloom_bits_ e <> [] -> Forall is_Some (mcache_ e) /\
    exists p, bloom_filter_ dc = Some p /\
      forall m, Some m ∈ mcache_ e -> KeyMayMatch p (data_topic_name_ m) (bloom_bits_ e) = true
}.

Record DC_inv (dc : DataCache) : Prop := {
  d_block : block_size_ok (block_size_ dc);
  d_bits : 0 <= bloom_bits_per_msg_ dc;
  d_probes : forall p, bloom_filter_ dc = Some p -> (num_probes_ p <= 30)%nat;
  d_cache : forall c, rs_cache_ dc = Some c -> LRU.Inv c /\ LRU.idle c /\
    forall k e, LRU.cached c k = Some e -> entry_wf dc e /\ k = block_key (logid_ e) (seqno_block_ e)
}.

(** The message cached for a sequence number of a log. *)
Definition block_at (dc : DataCache) (logid b : Z) : option CacheEntry :=
  c ← rs_cache_ dc; LRU.cached c (block_key logid b).

Definition msg_at (dc : DataCache) (logid q : Z) : option MessageData :=
  let b := AlignToBlockStart (block_size_ dc) q in
  e ← block_at dc logid b; message_at e (Z.to_nat (q - b)).

(** The contents of the LRU cache, as the blocks of [dc]. *)
Definition cache_ok (dc : DataCache) (c : LRU.t (list byte) CacheEntry) : Prop :=
  LRU.Inv c /\ LRU.idle c /\
  forall k e, LRU.cached c k = Some e -> entry_wf dc e /\ k = block_key (logid_ e) (seqno_block_ e).

Definition msg_in (dc : DataCache) (c : LRU.t (list byte) CacheEntry) (logid q : Z) : option MessageData :=
  let b := AlignToBlockStart (block_size_ dc) q in
  e ← LRU.cached c (block_key logid b); message_at e (Z.to_nat (q - b)).

(** Looking a block up, writing to it and releasing it replaces that block
    and nothing else. *)
Lemma touch_block dc c k e : cache_ok dc c -> LRU.cached c k = Some e ->
  exists c1 h, LRU.Lookup c k = Ok (c1, Some h) /\ LRU.Value c1 h = Ok e /\
    forall e', entry_wf dc e' -> logid_ e' = logid_ e -> seqno_block_ e' = seqno_block_ e ->
      exists c2, LRU.Release (LRU.SetValue c1 h e') h = Ok c2 /\ cache_ok dc c2 /\
        LRU.capacity_ c2 = LRU.capacity_ c /\
        (forall k', LRU.cached c2 k' = if decide (k' = k) then Some e' else LRU.cached c k').
Proof.
  intros (Hi & Hid & Hwf) Hc.
  destruct (LRU.Lookup_hold c k e Hi Hid Hc) as (c1 & h & hd & HL & Hi1 & Hh1 & Hk & Hv & Hcap & Hu & Hc1).
  exists c1, h. split_and!; [done| |].
  { unfold LRU.Value, LRU.deref. destruct Hh1 as (-> & _). cbn [obind]. by rewrite Hv. }
  intros e' He' Hlog Hblk. destruct (LRU.holding_SetValue c1 h hd e' Hi1 Hh1) as (Hi2 & Hh2 & Hc2).
  destruct (LRU.Release_hold _ _ _ Hi2 Hh2) as (c2 & HR & Hi3 & Hid3 & Hcap3 & Hc3).
  assert (forall k', LRU.cached c2 k' = if decide (k' = k) then Some e' else LRU.cached c k') as Hfin.
  { intros k'. destruct (Hc3 k') as [->|(_ & _ & Hover)].
    - rewrite Hc2, Hk, Hc1. done.
    - exfalso. pose proof (LRU.idle_within c Hi Hid). change (LRU.capacity_ c1 < LRU.usage_ c1) in Hover. lia. }
  exists c2. split_and!; try done; [|by rewrite Hcap3].
  split_and!; [done|done|]. intros k' x. rewrite Hfin. case_decide as Hd; [|by apply Hwf].
  intros [= <-]. split; [done|]. subst k'. rewrite Hlog, Hblk. by apply (Hwf k e).
Qed.

(** Blocks not yet passed: what the loop of [VisitCache] counts down. *)
Definition pending (c : LRU.t (list byte) CacheEntry) (cur : Z) : nat :=
  size (filter (fun k => cur <= key_block k) (dom (LRU.table_ c))).

Lemma cached_dom (c : LRU.t (list byte) CacheEntry) k : LRU.Inv c -> is_Some (LRU.cached c k) <-> k ∈ dom (LRU.table_ c).
Proof.
  intros Hi. rewrite elem_of_dom. split.
  - intros [e He]. unfold LRU.cached in He. destruct (LRU.table_ c !! k); [by eexists|done].
  - intros [a Ha]. destruct (LRU.cached c k) eqn:E; [by eexists|].
    apply (LRU.cached_missing c k Hi) in E. congruence.
Qed.

Lemma pending_next (c c' : LRU.t (list byte) CacheEntry) cur next k : LRU.Inv c -> LRU.Inv c' ->
  (forall x, is_Some (LRU.cached c' x) <-> is_Some (LRU.cached c x)) ->
  is_Some (LRU.cached c k) -> key_block k = cur -> cur < next -> (pending c' next < pending c cur)%nat.
Proof.
  intros Hi Hi' Hd Hk Hkb Hlt. unfold pending.
  assert (dom (LRU.table_ c') = dom (LRU.table_ c)) as ->.
  { apply set_eq. intros x. by rewrite <-!cached_dom. }
  apply subset_size. split.
  - intros x. rewrite !elem_of_filter. intros [? ?]. split; [lia|done].
  - intros Hsub. assert (k ∈ filter (fun x => next <= key_block x) (dom (LRU.table_ c))) as Hin.
    { apply Hsub. rewrite elem_of_filter. split; [lia|]. by apply cached_dom. }
    rewrite elem_of_filter in Hin. lia.
Qed.

(** *** Storing *)

Lemma count_insert (ms : list (option MessageData)) i m : ms !! i = Some None ->
  length (omap id (<[i := Some m]> ms)) = S (length (omap id ms)).
Proof.
  revert i. induction ms as [|a ms IH]; intros [|i] Hi; try done.
  - injection Hi as ->. done.
  - simpl in Hi. destruct a; cbn; [f_equal|]; by apply IH.
Qed.

Lemma count_le (ms : list (option MessageData)) : (length (omap id ms) <= length ms)%nat.
Proof. induction ms as [|[m|] ms IH]; [done|exact (le_n_S _ _ IH)|exact (le_S _ _ IH)]. Qed.

Lemma count_full (ms : list (option MessageData)) : length (omap id ms) = length ms -> Forall is_Some ms.
Proof.
  induction ms as [|[m|] ms IH]; [constructor| |].
  - intros E. constructor; [by eexists|]. apply IH. by injection E.
  - intros E. exfalso. pose proof (count_le ms). change (length (omap id ms) = S (length ms)) in E. lia.
Qed.

Lemma topic_names_full (ms : list (option MessageData)) : Forall is_Some ms ->
  topic_names ms = Ok (map data_topic_name_ (omap id ms)).
Proof. induction 1 as [|a l [m ->] _ IH]; [done|]. cbn [topic_names]. rewrite IH. done. Qed.

Lemma all_filled (ms : list (option MessageData)) : Forall is_Some ms -> ms = map Some (omap id ms).
Proof. induction 1 as [|a l [m ->] _ IH]; [done|]. cbn. f_equal. exact IH. Qed.

Lemma CreateFilter_nonempty p keys : CreateFilter p keys [] <> [].
Proof. unfold CreateFilter. rewrite app_nil_l. intros E. by apply app_eq_nil in E as [_ ?]. Qed.

(** The filter of a block that has just become full. *)
Lemma stored_bloom dc e ms : DC_inv dc -> entry_wf dc e -> (exists i, mcache_ e !! i = Some None) ->
  length ms = length (mcache_ e) -> length (omap id ms) = S (length (omap id (mcache_ e))) ->
  exists bits,
    match bloom_filter_ dc with
    | Some p =>
        if u16 (num_messages_ e + 1) =? block_size_ dc then
          obind (assert_that (length (bloom_bits_ e) =? 0)%nat "bloom_bits_.size() == 0") (fun _ =>
          obind (topic_names (take (Z.to_nat (u16 (num_messages_ e + 1))) ms)) (fun topics =>
          Ok (CreateFilter p topics (bloom_bits_ e))))
        else Ok (bloom_bits_ e)
    | None => Ok (bloom_bits_ e)
    end = Ok bits /\
    (bits <> [] -> Forall is_Some ms /\ exists p, bloom_filter_ dc = Some p /\
      forall m, Some m ∈ ms -> KeyMayMatch p (data_topic_name_ m) bits = true).
Proof.
  intros Hdc He [i Hi] Hlen Hcnt. pose proof (block_size_pos _ (d_block dc Hdc)) as Hbs.
  assert (bloom_bits_ e = []) as Hb0.
  { destruct (bloom_bits_ e) eqn:E; [done|]. destruct (e_bloom dc e He) as [Hall _]; [by rewrite E|].
    rewrite Forall_lookup in Hall. by destruct (Hall i None Hi). }
  pose proof (count_le ms) as Hle. pose proof (e_length dc e He) as Hl.
  rewrite (e_count dc e He), Hb0. rewrite wrap_small by (unfold fits; lia).
  destruct (bloom_filter_ dc) as [p|] eqn:Ep; [|by exists []].
  destruct (Z.eqb_spec (Z.of_nat (length (omap id (mcache_ e))) + 1) (block_size_ dc)) as [E|]; [|by exists []].
  assert (Forall is_Some ms) as Hall by (apply count_full; lia).
  cbn [length Nat.eqb assert_that obind]. rewrite take_ge by lia. rewrite topic_names_full by done. cbn [obind].
  eexists. split; [done|]. intros _. split; [done|]. exists p. split; [done|]. intros m Hm.
  apply CreateFilter_matches; [by apply (d_probes dc Hdc)|]. apply list_elem_of_fmap_2.
  rewrite (all_filled ms Hall) in Hm. apply list_elem_of_fmap in Hm as (m' & [= ->] & ?). done.
Qed.

(** *** Visiting *)

(** A visitor changes at most the previous sequence number of a message. *)
Definition same_message (m m' : MessageData) : Prop := exists prev, m' = SetPreviousSequenceNumber prev m.

Lemma same_message_refl m : same_message m m.
Proof. exists (data_seqno_prev_ m). by destruct m. Qed.

Definition same_slot (a b : option MessageData) : Prop :=
  match a, b with
  | Some m, Some m' => same_message m m'
  | None, None => True
  | _, _ => False
  end.

Lemma same_slot_refl a : same_slot a a.
Proof. destruct a; simpl; [apply same_message_refl|done]. Qed.

Lemma same_slots_refl l : Forall2 same_slot l l.
Proof. induction l; constructor; [apply same_slot_refl|done]. Qed.

Lemma same_slots_trans l1 l2 l3 : Forall2 same_slot l1 l2 -> Forall2 same_slot l2 l3 -> Forall2 same_slot l1 l3.
Proof.
  intros H12. revert l3. induction H12 as [|a b l1 l2 Hab _ IH]; intros l3 H23; inversion H23; subst; constructor; [|by apply IH].
  destruct a, b, y; try done. destruct Hab as [p1 ->]. simpl in *. match goal with H : same_message _ _ |- _ => destruct H as [p2 ->] end.
  by exists p2.
Qed.

Definition same_block (a b : option CacheEntry) : Prop :=
  match a, b with
  | Some e, Some e' => logid_ e' = logid_ e /\ seqno_block_ e' = seqno_block_ e /\
      Forall2 same_slot (mcache_ e) (mcache_ e')
  | None, None => True
  | _, _ => False
  end.

Lemma same_block_refl a : same_block a a.
Proof. destruct a; [|done]. split_and!; try done. apply same_slots_refl. Qed.

Lemma same_block_trans a b c : same_block a b -> same_block b c -> same_block a c.
Proof.
  destruct a, b, c; try done. intros (? & ? & H1) (? & ? & H2).
  split_and!; [congruence|congruence|by eapply same_slots_trans].
Qed.

Lemma same_block_Some a b : same_block a b -> is_Some b <-> is_Some a.
Proof. destruct a, b; try done; split; eauto. Qed.

(** What the visited slots become. *)
Lemma entry_wf_same dc e ms : entry_wf dc e -> Forall2 same_slot (mcache_ e) ms -> entry_wf dc (set_mcache ms e).
Proof.
  intros [] Hms.
  assert (forall i m', ms !! i = Some (Some m') -> exists m, mcache_ e !! i = Some (Some m) /\ same_message m m') as Hback.
  { intros i m' Hi. destruct (Forall2_lookup_r _ _ _ _ _ Hms Hi) as (a & Ha & Hs). destruct a; [|done]. eauto. }
  split; simpl; try done.
  - rewrite <-e_length0. symmetry. by eapply Forall2_length.
  - rewrite e_hash0. clear -Hms. induction Hms as [|a b l l' Hab Hl IH]; [done|]. cbn [map]. f_equal; [|done].
    destruct a, b; try done. destruct Hab as [prev ->]. done.
  - intros i m' Hi. destruct (Hback i m' Hi) as (m & Hm & prev & ->). exact (e_seqno0 i m Hm).
  - rewrite e_count0. f_equal. clear -Hms. induction Hms as [|a b l l' Hab Hl IH]; [done|].
    destruct a, b; try done; cbn; first [exact IH|f_equal; exact IH].
  - intros Hb. destruct (e_bloom0 Hb) as (Hall & p & Hp & Hk). split.
    + clear -Hms Hall. induction Hms as [|a b l l' Hab Hl IH]; [done|]. apply Forall_cons in Hall as [Ha Hall].
      constructor; [destruct a, b; try done; by destruct Ha|by apply IH].
    + exists p. split; [done|]. intros m' Hm'. apply list_elem_of_lookup in Hm' as [i Hi].
      destruct (Hback i m' Hi) as (m & Hm & prev & ->). apply (Hk m). by eapply list_elem_of_lookup_2.
Qed.

Section Visitor.
Context {S : Type} (visit : MessageData -> S -> outcome (MessageData * S * bool)).
Context (visit_good : forall m s, exists m' s' more, visit m s = Ok (m', s', more) /\ same_message m m').

(** Running the visitor over a list of messages: it may ask to stop at the last
    of them only. *)
Fixpoint run_visitor (ms : list MessageData) (s : S) : outcome (S * bool) :=
  match ms with
  | [] => Ok (s, true)
  | m :: ms =>
      match visit m s with
      | Ok (_, s, more) =>
          if more : bool then run_visitor ms s
          else match ms with [] => Ok (s, false) | _ => Abort "visit after the end" end
      | Abort w => Abort w
      end
  end.

(** What a scan over the slots [ms] delivers: it passes [n] slots, all
    filled by the messages [full], and visits the [vs] among them. *)
Definition scanned (lookup : slice) (ms : list (option MessageData)) (s : S)
    (r : list (option MessageData) * nat * bool * S) : Prop :=
  let '(ms', n, stop, s') := r in
  Forall2 same_slot ms ms' /\
  exists full vs, take n ms = map Some full /\ length full = n /\ vs `sublist_of` full /\
    (forall m, m ∈ full -> m ∈ vs \/ (lookup <> [] /\ data_topic_name_ m <> lookup)) /\
    run_visitor vs s = Ok (s', negb stop) /\ (stop = true -> vs <> []) /\
    (stop = false -> n = length ms \/ ms !! n = Some None).

Lemma scanned_nil lookup ms s : ms = [] \/ (exists ms', ms = None :: ms') -> scanned lookup ms s (ms, 0%nat, false, s).
Proof.
  intros Hms. split; [apply same_slots_refl|]. exists [], []. split_and!; try done; [set_solver|].
  intros _. destruct Hms as [->|[ms' ->]]; auto.
Qed.

(** One visited slot, on which the visitor stops. *)
Lemma scanned_stop lookup m ms s m' s' : visit m s = Ok (m', s', false) -> same_message m m' ->
  scanned lookup (Some m :: ms) s (Some m' :: ms, 1%nat, true, s').
Proof.
  intros Hv Hs. split; [constructor; [done|apply same_slots_refl]|]. exists [m], [m]. split_and!; try done.
  - intros x Hx. by left.
  - simpl. by rewrite Hv.
Qed.

(** One visited slot, and the rest of the scan. *)
Lemma scanned_cons lookup m ms s m' s1 ms' n stop s' : visit m s = Ok (m', s1, true) -> same_message m m' ->
  scanned lookup ms s1 (ms', n, stop, s') ->
  scanned lookup (Some m :: ms) s (Some m' :: ms', Datatypes.S n, stop, s').
Proof.
  intros Hv Hs (Hf & full & vs & Ht & Hn & Hsub & Hc & Hr & Hst & He). split; [by constructor|].
  exists (m :: full), (m :: vs). split_and!.
  - simpl. by rewrite Ht.
  - simpl. by rewrite Hn.
  - by apply sublist_skip.
  - intros x [->|Hx]%elem_of_cons; [left; apply elem_of_cons; by left|].
    destruct (Hc x Hx); [left; apply elem_of_cons; by right|by right].
  - simpl. by rewrite Hv.
  - done.
  - intros Hs0. simpl. destruct (He Hs0); auto.
Qed.

(** One skipped slot, and the rest of the scan. *)
Lemma scanned_skip lookup m ms s ms' n stop s' : lookup <> [] -> data_topic_name_ m <> lookup ->
  scanned lookup ms s (ms', n, stop, s') ->
  scanned lookup (Some m :: ms) s (Some m :: ms', Datatypes.S n, stop, s').
Proof.
  intros Hl Hm (Hf & full & vs & Ht & Hn & Hsub & Hc & Hr & Hst & He).
  split; [constructor; [apply same_slot_refl|done]|]. exists (m :: full), vs. split_and!; try done.
  - simpl. by rewrite Ht.
  - simpl. by rewrite Hn.
  - by apply sublist_cons.
  - set_solver.
  - intros Hs0. simpl. destruct (He Hs0); auto.
Qed.

Lemma visit_all_scans ms s : exists r, visit_all visit ms s = Ok r /\ scanned [] ms s r.
Proof.
  revert s. induction ms as [|[m|] ms IH]; intros s; cbn [visit_all].
  - eexists. split; [done|]. apply scanned_nil. by left.
  - destruct (visit_good m s) as (m' & s1 & more & Hv & Hs). rewrite Hv. cbn [obind]. destruct more.
    + destruct (IH s1) as ([[[ms' n] stop] s'] & Hr & Hsc). rewrite Hr. cbn [obind].
      eexists. split; [done|]. by eapply scanned_cons.
    + eexists. split; [done|]. by apply scanned_stop.
  - eexists. split; [done|]. apply scanned_nil. right. by eexists.
Qed.

Lemma visit_hashed_scans lookup ms s : lookup <> [] ->
  exists r, visit_hashed visit (Hash lookup) (map slot_hash ms) ms s = Ok r /\ scanned lookup ms s r.
Proof.
  intros Hl. revert s. induction ms as [|[m|] ms IH]; intros s; cbn [visit_hashed map slot_hash].
  - eexists. split; [done|]. apply scanned_nil. by left.
  - rewrite (proj2 (Z.eqb_neq _ _) (HashTopic_nonzero _)).
    destruct (Z.eqb_spec (Hash (data_topic_name_ m)) (Hash lookup)) as [Eh|Nh].
    + destruct (visit_good m s) as (m' & s1 & more & Hv & Hs). rewrite Hv. cbn [obind]. destruct more.
      * destruct (IH s1) as ([[[ms' n] stop] s'] & Hr & Hsc). rewrite Hr. cbn [obind].
        eexists. split; [done|]. by eapply scanned_cons.
      * eexists. split; [done|]. by apply scanned_stop.
    + destruct (IH s) as ([[[ms' n] stop] s'] & Hr & Hsc). rewrite Hr. cbn [obind].
      eexists. split; [done|]. apply scanned_skip; [done|congruence|done].
  - eexists. split; [done|]. apply scanned_nil. right. by eexists.
Qed.

(** The result of [VisitEntry]: how far it got in the block. *)
Lemma VisitEntry_spec dc e q lookup s : DC_inv dc -> entry_wf dc e -> fits 64 q ->
  AlignToBlockStart (block_size_ dc) q = seqno_block_ e ->
  let off := Z.to_nat (q - seqno_block_ e) in
  exists e' n stop s', VisitEntry XXH64 visit dc e (logid_ e) q lookup s = Ok (e', q + Z.of_nat n, stop, s') /\
    entry_wf dc e' /\ logid_ e' = logid_ e /\ seqno_block_ e' = seqno_block_ e /\
    Forall2 same_slot (mcache_ e) (mcache_ e') /\
    exists full vs, take n (drop off (mcache_ e)) = map Some full /\ length full = n /\ vs `sublist_of` full /\
      (forall m, m ∈ full -> m ∈ vs \/ (lookup <> [] /\ data_topic_name_ m <> lookup)) /\
      run_visitor vs s = Ok (s', negb stop) /\ (stop = true -> vs <> []) /\
      (stop = false -> (off + n)%nat = Z.to_nat (block_size_ dc) \/ mcache_ e !! (off + n)%nat = Some None).
Proof.
  intros Hdc He Hq Hal off. pose proof (block_size_pos _ (d_block dc Hdc)) as Hbs.
  pose proof (block_offset _ q (d_block dc Hdc) Hq) as (Hb1 & Hb2 & _ & _ & _). cbv zeta in *. rewrite Hal in *.
  destruct (e_block dc e He) as (Hbl0 & Hbl1 & Hbl2). pose proof (e_length dc e He) as Hlen.
  unfold VisitEntry. rewrite Hal, !Z.eqb_refl. cbn [assert_that obind]. fold off.
  match goal with |- context [if ?c then Ok _ else _] => destruct c eqn:Eskip end.
  - destruct (bloom_filter_ dc) as [p|] eqn:Ep; [|done].
    destruct ((0 <? length lookup)%nat && (0 <? length (bloom_bits_ e))%nat) eqn:Ec; [|done].
    apply andb_true_iff in Ec as [Ec1 Ec2]. apply Nat.ltb_lt in Ec1, Ec2. apply negb_true_iff in Eskip.
    destruct (e_bloom dc e He) as (Hall & p' & Hp' & Hk); [intros Hb; rewrite Hb in Ec2; simpl in Ec2; lia|]. simplify_eq.
    exists e, (Z.to_nat (block_size_ dc) - off)%nat, false, s. split_and!; try done; [|apply same_slots_refl|].
    + rewrite wrap_small by (unfold fits; lia). do 4 f_equal. unfold off. lia.
    + assert (Forall is_Some (drop off (mcache_ e))) as Hall' by (by apply Forall_drop).
      exists (omap id (drop off (mcache_ e))), []. rewrite <-all_filled by done.
      rewrite take_ge by (rewrite length_drop; lia). split_and!; try done.
      * erewrite <-length_map, <-all_filled by done. rewrite length_drop. lia.
      * apply sublist_nil_l.
      * intros m Hm. right. split; [intros ->; simpl in Ec1; lia|]. intros Et. rewrite <-Et in Eskip.
        rewrite Hk in Eskip; [done|]. assert (Some m ∈ drop off (mcache_ e)) as Hd.
        { rewrite (all_filled _ Hall'). by apply list_elem_of_fmap_2. }
        rewrite <-(take_drop off (mcache_ e)). set_solver.
      * intros _. left. lia.
  - clear Eskip.
    assert (exists r, (if (length lookup =? 0)%nat then visit_all visit (drop off (mcache_ e)) s
      else visit_hashed visit (Hash lookup) (drop off (hcache_ e)) (drop off (mcache_ e)) s) = Ok r /\
      scanned lookup (drop off (mcache_ e)) s r) as (r & -> & Hsc).
    { destruct (Nat.eqb_spec (length lookup) 0) as [E0|N0].
      - destruct lookup; [|done]. apply visit_all_scans.
      - rewrite (e_hash dc e He), <-fmap_drop. apply visit_hashed_scans. by destruct lookup. }
    destruct r as [[[ms n] stop] s']. cbn [obind]. destruct Hsc as (Hf & full & vs & Ht & Hn & Hsub & Hc & Hr & Hst & Hend).
    assert (Forall2 same_slot (mcache_ e) (take off (mcache_ e) ++ ms)) as Hsame.
    { rewrite <-(take_drop off (mcache_ e)) at 1. apply Forall2_app; [apply same_slots_refl|done]. }
    assert (n <= length (mcache_ e) - off)%nat as Hnl.
    { rewrite <-Hn, <-(length_map Some full), <-Ht, length_take, length_drop. lia. }
    exists (set_mcache (take off (mcache_ e) ++ ms) e), n, stop, s'. split_and!; try done.
    + rewrite wrap_small by (unfold fits, off in *; lia). do 4 f_equal. unfold off. lia.
    + by apply entry_wf_same.
    + exists full, vs. split_and!; try done. intros Hs0. destruct (Hend Hs0) as [E|E].
      * left. rewrite E, length_drop. lia.
      * right. by rewrite lookup_drop in E.
Qed.

(** What a visit of the log from [q] delivers, in terms of the contents:
    consecutive messages [full], of which [vs] are visited. *)
Definition visited (dc : DataCache) (c : LRU.t (list byte) CacheEntry) (logid : Z) (lookup : slice)
    (q ret : Z) (s s' : S) : Prop :=
  exists full vs more, ret = q + Z.of_nat (length full) /\
    (forall i m, full !! i = Some m -> msg_in dc c logid (q + Z.of_nat i) = Some m) /\
    vs `sublist_of` full /\
    (forall m, m ∈ full -> m ∈ vs \/ (lookup <> [] /\ data_topic_name_ m <> lookup)) /\
    run_visitor vs s = Ok (s', more) /\ (more = false -> vs <> []) /\
    (more = true -> msg_in dc c logid ret = None).

Lemma run_visitor_app vs1 vs2 s s1 : run_visitor vs1 s = Ok (s1, true) ->
  run_visitor (vs1 ++ vs2) s = run_visitor vs2 s1.
Proof.
  revert s. induction vs1 as [|m vs1 IH]; intros s; cbn [run_visitor app]; [by intros [= ->]|].
  destruct (visit m s) as [[[m' s2] []]|]; [apply IH|by destruct vs1|done].
Qed.

(** A visited stretch followed by another one. *)
Lemma visited_app dc c c1 logid lookup q full vs s s1 ret s' :
  (forall i m, full !! i = Some m -> msg_in dc c logid (q + Z.of_nat i) = Some m) ->
  vs `sublist_of` full ->
  (forall m, m ∈ full -> m ∈ vs \/ (lookup <> [] /\ data_topic_name_ m <> lookup)) ->
  run_visitor vs s = Ok (s1, true) ->
  (forall x, q + Z.of_nat (length full) <= x -> x <= ret -> msg_in dc c1 logid x = msg_in dc c logid x) ->
  visited dc c1 logid lookup (q + Z.of_nat (length full)) ret s1 s' ->
  visited dc c logid lookup q ret s s'.
Proof.
  intros Hf Hsub Hcp Hrun Hsame (full2 & vs2 & more & -> & Hf2 & Hsub2 & Hcp2 & Hrun2 & Hmf & Hmt).
  exists (full ++ full2), (vs ++ vs2), more. split_and!.
  - rewrite length_app. lia.
  - intros i m. rewrite lookup_app_Some. intros [Hi|[Hi Hm]]; [by apply Hf|].
    pose proof (lookup_lt_Some _ _ _ Hm). rewrite <-Hsame by lia. rewrite <-(Hf2 _ _ Hm). f_equal. lia.
  - by apply sublist_app.
  - intros m [Hm|Hm]%elem_of_app; [destruct (Hcp m Hm)|destruct (Hcp2 m Hm)]; set_solver.
  - by rewrite (run_visitor_app vs vs2 s s1).
  - intros Hm Hnil. apply app_eq_nil in Hnil as [_ ?]. by apply Hmf.
  - intros Hm. rewrite <-Hsame by lia. by apply Hmt.
Qed.

(** A stretch of one block, seen from the log. *)
Lemma block_stretch dc c e q n full : DC_inv dc -> cache_ok dc c -> fits 64 q ->
  LRU.cached c (block_key (logid_ e) (seqno_block_ e)) = Some e ->
  AlignToBlockStart (block_size_ dc) q = seqno_block_ e ->
  take n (drop (Z.to_nat (q - seqno_block_ e)) (mcache_ e)) = map Some full -> length full = n ->
  forall x, q <= x <= q + Z.of_nat n -> x < seqno_block_ e + block_size_ dc ->
    msg_in dc c (logid_ e) x = message_at e (Z.to_nat (x - seqno_block_ e)) /\
    (forall m, full !! Z.to_nat (x - q) = Some m -> message_at e (Z.to_nat (x - seqno_block_ e)) = Some m).
Proof.
  intros Hdc Hok Hq Hc Hal Ht Hn x Hx Hxb. pose proof Hok as (_ & _ & Hwf). destruct (Hwf _ _ Hc) as [He _].
  destruct (e_block dc e He) as (Hb0 & Hb1 & Hb2). pose proof (block_size_pos _ (d_block dc Hdc)).
  pose proof (block_offset _ q (d_block dc Hdc) Hq) as (Ho1 & Ho2 & _). cbv zeta in *. rewrite Hal in *.
  assert (AlignToBlockStart (block_size_ dc) x = seqno_block_ e) as Halx.
  { apply block_unique; [apply Hdc|unfold fits in *; lia|unfold fits; lia|done|lia]. }
  split; [unfold msg_in; by rewrite Halx, Hc|].
  intros m Hm. unfold message_at.
  assert (map Some full !! Z.to_nat (x - q) = Some (Some m)) as Hs by (by rewrite list_lookup_fmap, Hm).
  rewrite <-Ht in Hs. apply lookup_take_Some in Hs as [Hs _]. rewrite lookup_drop in Hs.
  replace (Z.to_nat (q - seqno_block_ e) + Z.to_nat (x - q))%nat with (Z.to_nat (x - seqno_block_ e)) in Hs by lia.
  by rewrite Hs.
Qed.

Lemma VisitCache_loop_spec fuel dc c logid q lookup s : DC_inv dc -> cache_ok dc c -> fits 64 logid -> fits 64 q ->
  (pending c (AlignToBlockStart (block_size_ dc) q) < fuel)%nat ->
  exists c' ret s',
    VisitCache_loop XXH64 visit fuel dc c logid q (AlignToBlockStart (block_size_ dc) q) lookup s = Ok (c', ret, s') /\
    cache_ok dc c' /\ LRU.capacity_ c' = LRU.capacity_ c /\
    (forall k, same_block (LRU.cached c k) (LRU.cached c' k)) /\
    visited dc c logid lookup q ret s s' /\ fits 64 ret.
Proof.
  intros Hdc Hok Hlog. revert c q s Hok. induction fuel as [|fuel IH]; intros c q s Hok Hq Hf; [lia|].
  set (b := AlignToBlockStart (block_size_ dc) q) in *.
  pose proof (block_offset _ q (d_block dc Hdc) Hq) as (Ho1 & Ho2 & Ho3 & Ho4 & Ho5). cbv zeta in *. fold b in Ho1, Ho2, Ho3, Ho4, Ho5.
  pose proof (block_size_pos _ (d_block dc Hdc)) as Hbs. cbn [VisitCache_loop].
  rewrite GenerateKey_block by (done || apply Hdc). cbn [obind].
  destruct (LRU.cached c (block_key logid b)) as [e|] eqn:Hc.
  2: { pose proof Hok as (Hi & _). rewrite LRU.Lookup_missing by (by apply LRU.cached_missing). cbn [obind].
       exists c, q, s. split_and!; try done.
       - intros k. apply same_block_refl.
       - exists [], [], true. split_and!; try done; [simpl; lia|set_solver|].
         intros _. unfold msg_in. fold b. by rewrite Hc. }
  destruct (touch_block dc c _ e Hok Hc) as (c1 & h & HL & HV & Hrel).
  pose proof Hok as (Hi & Hid & Hwf). destruct (Hwf _ _ Hc) as [He Hkey].
  destruct (e_block dc e He) as (Hb0 & Hb1 & Hb2).
  apply block_key_inj in Hkey as [Elog Eb]; [|done|apply He|done|unfold fits; lia]. subst logid. rewrite HL. cbn [obind].
  rewrite HV. cbn [obind].
  destruct (VisitEntry_spec dc e q lookup s Hdc He Hq ltac:(by rewrite <-Eb)) as
    (e' & n & stop & s1 & -> & He' & Hl' & Hb' & Hsame & full & vs & Ht & Hn & Hsub & Hcp & Hrun & Hst & Hend).
  cbn [obind]. destruct (Hrel e' He' Hl' Hb') as (c2 & -> & Hok2 & Hcap2 & Hc2). cbn [obind].
  assert (forall k, same_block (LRU.cached c k) (LRU.cached c2 k)) as Hsb.
  { intros k. rewrite Hc2. case_decide as Hd; [subst k; rewrite Hc; by split_and!|apply same_block_refl]. }
  rewrite Eb in Hc.
  pose proof (block_stretch dc c e q n full Hdc Hok Hq Hc ltac:(by rewrite <-Eb) Ht Hn) as Hstretch.
  assert (n <= length (mcache_ e) - Z.to_nat (q - seqno_block_ e))%nat as Hnl.
  { rewrite <-Hn, <-(length_map Some full), <-Ht, length_take, length_drop. lia. }
  rewrite (e_length dc e He) in Hnl.
  assert (forall i m, full !! i = Some m -> msg_in dc c (logid_ e) (q + Z.of_nat i) = Some m) as Hfull.
  { intros i m Hi'. pose proof (lookup_lt_Some _ _ _ Hi').
    destruct (Hstretch (q + Z.of_nat i)) as [-> Hm]; [lia|lia|]. apply Hm. by replace (Z.to_nat _) with i by lia. }
  rewrite (wrap_small 64 (b + block_size_ dc)) by (unfold fits; lia).
  destruct ((q + Z.of_nat n <? b + block_size_ dc) || stop) eqn:Edone.
  - exists c2, (q + Z.of_nat n), s1. split_and!; try done; [|unfold fits in *; lia].
    exists full, vs, (negb stop). split_and!; try done; [by rewrite Hn|intros Hns; apply Hst; by destruct stop|].
    intros Hns. destruct stop; [done|]. rewrite orb_false_r in Edone. apply Z.ltb_lt in Edone.
    destruct (Hstretch (q + Z.of_nat n)) as [-> _]; [lia|lia|].
    destruct (Hend eq_refl) as [E|E]; [lia|]. unfold message_at.
    replace (Z.to_nat (q + Z.of_nat n - seqno_block_ e)) with (Z.to_nat (q - seqno_block_ e) + n)%nat by lia.
    by rewrite E.
  - apply orb_false_iff in Edone as [Edone ->]. apply Z.ltb_ge in Edone.
    assert (q + Z.of_nat n = b + block_size_ dc) as Enext by lia.
    set (next := q + Z.of_nat n) in *.
    assert (fits 64 next) as Hnx by (unfold fits; lia).
    assert (AlignToBlockStart (block_size_ dc) next = next) as Hal.
    { apply block_unique; try done; [apply Hdc| |lia]. rewrite Enext, Zplus_mod, Ho3, Z_mod_same_full. done. }
    rewrite Hal, Z.eqb_refl. cbn [assert_that obind].
    specialize (IH c2 next s1 Hok2 Hnx). rewrite Hal in IH. destruct IH as (c3 & ret & s' & HE & Hok3 & Hcap3 & Hsb3 & Hvis & Hret).
    { enough (pending c2 next < pending c b)%nat by lia.
      eapply (pending_next c c2 b next (block_key (logid_ e) b)); [apply Hi|apply Hok2| | |by apply key_block_key|lia].
      - intros x. apply same_block_Some, Hsb.
      - rewrite Eb. by rewrite Hc. }
    rewrite HE. exists c3, ret, s'. split_and!; try done.
    + by rewrite Hcap3.
    + intros k. eapply same_block_trans; [apply Hsb|apply Hsb3].
    + eapply (visited_app dc c c2 (logid_ e) lookup q full vs s s1 ret s'); try done; rewrite Hn; fold next; [|done].
      intros x Hx1 Hx2. unfold msg_in.
      assert (fits 64 x) as Hxf by (unfold fits in *; lia).
      pose proof (block_offset _ x (d_block dc Hdc) Hxf) as (Hx3 & Hx4 & _ & Hx6 & _). cbv zeta in *.
      rewrite Hc2. rewrite decide_False; [done|]. intros Ek. apply block_key_inj in Ek as [_ Ek]; try done.
      assert (AlignToBlockStart (block_size_ dc) x = x - x mod block_size_ dc) as Hax by (apply AlignToBlockStart_mod; [apply Hdc|done]).
      lia.
Qed.
End Visitor.

(** *** The operations *)

Lemma DC_inv_cache dc c : DC_inv dc -> rs_cache_ dc = Some c -> cache_ok dc c.
Proof. intros Hdc Hc. exact (d_cache dc Hdc c Hc). Qed.

Lemma entry_wf_config dc c e : entry_wf dc e -> entry_wf (set_rs_cache c dc) e.
Proof. intros []. by split. Qed.

Lemma DC_inv_set dc c : DC_inv dc -> cache_ok dc c -> DC_inv (set_rs_cache (Some c) dc).
Proof.
  intros [] (Hi & Hid & Hwf). split; try done. intros ? [= <-]. split_and!; try done.
  intros k e Hk. destruct (Hwf k e Hk). split; [by apply entry_wf_config|done].
Qed.

Lemma msg_at_in dc c logid q : rs_cache_ dc = Some c -> msg_at dc logid q = msg_in dc c logid q.
Proof. intros Hc. unfold msg_at, block_at. by rewrite Hc. Qed.

(** Nothing is pinned between operations. *)
Lemma GetPinnedUsage_idle dc c : cache_ok dc c -> LRU.GetPinnedUsage c = Ok 0.
Proof.
  intros ((L & Hm & _) & Hid & _). unfold LRU.GetPinnedUsage.
  assert (LRU.usage_ c = LRU.lru_usage_ c) as ->.
  { rewrite (LRU.i_usage _ _ c Hm), (LRU.i_lru_usage _ _ c Hm). apply LRU.total_perm. by apply LRU.idle_lru. }
  rewrite Z.leb_refl, Z.sub_diag. done.
Qed.

Lemma NewLRUCache_ok dc cap : 0 <= cap -> cache_ok dc (LRU.NewLRUCache cap).
Proof.
  intros Hc. split_and!; [by apply LRU.NewLRUCache_Inv| |].
  - intros e h He. simpl in He. by rewrite lookup_empty in He.
  - intros k e He. unfold LRU.cached in He. simpl in He. by rewrite lookup_empty in He.
Qed.

(** Writing to a held block, charging for it and releasing it. *)
Lemma write_block dc c1 h hd e' d : LRU.Inv c1 -> LRU.holding c1 h hd ->
  (forall k e, LRU.cached c1 k = Some e -> k <> LRU.key hd -> entry_wf dc e /\ k = block_key (logid_ e) (seqno_block_ e)) ->
  entry_wf dc e' -> LRU.key hd = block_key (logid_ e') (seqno_block_ e') ->
  0 <= d -> 0 <= LRU.charge hd -> LRU.usage_ c1 + d < 2 ^ 64 ->
  exists c2 c3, LRU.ChargeDelta (LRU.SetValue c1 h e') h (u64 d) = Ok c2 /\ LRU.Release c2 h = Ok c3 /\
    cache_ok dc c3 /\ LRU.capacity_ c3 = LRU.capacity_ c1 /\
    (forall k, k <> LRU.key hd -> LRU.cached c3 k = LRU.cached c1 k \/ LRU.cached c3 k = None) /\
    (LRU.cached c3 (LRU.key hd) = Some e' \/
     LRU.cached c3 (LRU.key hd) = None /\ LRU.capacity_ c1 < LRU.usage_ c1 + d).
Proof.
  intros Hi Hh Hwf He' Hk Hd Hch Hu.
  destruct (LRU.holding_SetValue c1 h hd e' Hi Hh) as (Hi1 & Hh1 & Hc1).
  destruct (LRU.ChargeDelta_hold _ _ _ d Hi1 Hh1) as (c2 & hd2 & HC & Hi2 & Hh2 & Hk2 & Hv2 & Hcap2 & Hu2 & Hc2);
    [simpl; lia|done|].
  destruct (LRU.Release_hold _ _ _ Hi2 Hh2) as (c3 & HR & Hi3 & Hid3 & Hcap3 & Hc3). rewrite Hk2 in Hc3.
  change (LRU.key (LRU.set_value e' hd)) with (LRU.key hd) in *.
  change (LRU.capacity_ (LRU.SetValue c1 h e')) with (LRU.capacity_ c1) in *.
  change (LRU.usage_ (LRU.SetValue c1 h e')) with (LRU.usage_ c1) in *.
  assert (forall k, k <> LRU.key hd -> LRU.cached c3 k = LRU.cached c1 k \/ LRU.cached c3 k = None) as Hother.
  { intros k Hne. destruct (Hc3 k) as [->|(? & ? & ?)]; [|done]. destruct (Hc2 k) as [->|[_ ?]]; [|by right].
    left. rewrite Hc1. by rewrite decide_False. }
  assert (LRU.cached c3 (LRU.key hd) = Some e' \/
     LRU.cached c3 (LRU.key hd) = None /\ LRU.capacity_ c1 < LRU.usage_ c1 + d) as Hthis.
  { destruct (Hc3 (LRU.key hd)) as [->|(_ & HN & Hov)]; [|right; split; [done|lia]].
    left. destruct (Hc2 (LRU.key hd)) as [->|[? _]]; [|done]. rewrite Hc1. by rewrite decide_True. }
  exists c2, c3. split_and!; try done; [|congruence]. split_and!; try done. intros k e Hke.
  destruct (decide (k = LRU.key hd)) as [->|Hne].
  - destruct Hthis as [E|[E _]]; rewrite E in Hke; [|done]. by simplify_eq.
  - destruct (Hother k Hne) as [E|E]; rewrite E in Hke; [|done]. by apply Hwf.
Qed.

Lemma NewCacheEntry_wf dc logid b : DC_inv dc -> fits 64 logid -> 0 <= b -> b + block_size_ dc < 2 ^ 64 ->
  b mod block_size_ dc = 0 ->
  exists e, NewCacheEntry dc logid b = Ok e /\ entry_wf dc e /\ logid_ e = logid /\ seqno_block_ e = b /\
    forall i, message_at e i = None.
Proof.
  intros Hdc Hl Hb0 Hb1 Hb2. destruct (d_block dc Hdc) as (j & Hj & Ej & Hbs). unfold NewCacheEntry.
  rewrite (proj2 (Z.ltb_lt _ _)) by lia. cbn [assert_that obind].
  assert (forall (i : nat) n (x : option MessageData), replicate n None !! i = Some x -> x = None) as Hrep.
  { intros i n x Hx. by apply lookup_replicate in Hx as [? _]. }
  eexists. split; [done|]. split_and!; try done.
  - split; cbn [logid_ seqno_block_ mcache_ hcache_ num_messages_ bloom_bits_]; try done.
    + by rewrite length_replicate.
    + by rewrite fmap_replicate.
    + intros i m Hi. by apply Hrep in Hi.
    + induction (Z.to_nat (block_size_ dc)) as [|n IH]; [done|]. exact IH.
  - intros i. unfold message_at. cbn [mcache_]. destruct (replicate _ _ !! i) as [x|] eqn:E; [|done]. by apply Hrep in E.
Qed.

Lemma HasEntry_spec dc logid q : DC_inv dc -> fits 64 logid -> fits 64 q ->
  exists dc', HasEntry dc logid q = Ok (dc', bool_decide (is_Some (msg_at dc logid q))) /\ DC_inv dc' /\
    GetCapacity dc' = GetCapacity dc /\ (forall l x, msg_at dc' l x = msg_at dc l x).
Proof.
  intros Hdc Hl Hq. unfold HasEntry. destruct (rs_cache_ dc) as [c|] eqn:Hc.
  2: { exists dc. split_and!; try done. unfold msg_at, block_at. rewrite Hc. done. }
  pose proof (DC_inv_cache dc c Hdc Hc) as Hok. pose proof (block_size_pos _ (d_block dc Hdc)) as Hbs.
  pose proof (block_offset _ q (d_block dc Hdc) Hq) as (Hb1 & Hb2 & Hb3 & Hb4 & Hb5). cbv zeta in *.
  rewrite GenerateKey_block by (done || apply Hdc). cbn [obind]. rewrite (msg_at_in dc c) by done. unfold msg_in.
  destruct (LRU.cached c (block_key logid _)) as [e|] eqn:He; cbn [mbind option_bind].
  - destruct (touch_block dc c _ e Hok He) as (c1 & h & -> & HV & Hrel). cbn [obind]. rewrite HV. cbn [obind].
    pose proof Hok as (Hi & Hid & Hwf). destruct (Hwf _ _ He) as [Hew _].
    destruct (Hrel e Hew eq_refl eq_refl) as (c2 & HR & Hok2 & Hcap & Hc2).
    assert (LRU.SetValue c1 h e = c1) as Hset.
    { unfold LRU.Value, LRU.deref in HV. unfold LRU.SetValue, LRU.update.
      destruct (LRU.heap c1 !! h) as [hd|] eqn:Ehd; [|done]. injection HV as <-.
      destruct c1. unfold LRU.set_heap. simpl in *. f_equal. apply map_eq. intros i.
      destruct (decide (i = h)) as [->|]; [rewrite lookup_alter_eq, Ehd; by destruct hd|by rewrite lookup_alter_ne]. }
    rewrite Hset in HR. unfold CacheEntry_HasEntry.
    assert (hash_at e (Z.to_nat (q - AlignToBlockStart (block_size_ dc) q)) =
      slot_hash (message_at e (Z.to_nat (q - AlignToBlockStart (block_size_ dc) q)))) as ->.
    { unfold hash_at, message_at. rewrite (e_hash dc e Hew), nth_lookup, list_lookup_fmap. by destruct (mcache_ e !! _). }
    assert (forall o, Bool.eqb (negb (bool_decide (is_Some o))) (slot_hash o =? 0) = true) as Heq.
    { intros [m|]; [|done]. cbn [slot_hash]. by rewrite (proj2 (Z.eqb_neq _ _) (HashTopic_nonzero _)). }
    rewrite Heq. cbn [assert_that obind]. rewrite HR. cbn [obind]. exists (set_rs_cache (Some c2) dc).
    split_and!; [done|by apply DC_inv_set| |].
    + unfold GetCapacity. simpl. by rewrite Hc.
    + intros l x. rewrite (msg_at_in _ c2), (msg_at_in dc c) by done. unfold msg_in. simpl. rewrite Hc2.
      case_decide as Hd; [rewrite Hd, He|]; done.
  - destruct Hok as (Hi & ?). rewrite LRU.Lookup_missing by (by apply LRU.cached_missing). cbn [obind].
    exists (set_rs_cache (Some c) dc). split_and!; [done|by apply DC_inv_set| |].
    + unfold GetCapacity. by rewrite Hc.
    + intros l x. by rewrite (msg_at_in _ c), (msg_at_in dc c) by done.
Qed.

Lemma same_block_msg dc c c' l x : (forall k, same_block (LRU.cached c k) (LRU.cached c' k)) ->
  same_slot (msg_in dc c l x) (msg_in dc c' l x).
Proof.
  intros Hsb. unfold msg_in. set (b := AlignToBlockStart _ _). specialize (Hsb (block_key l b)).
  destruct (LRU.cached c _) as [e|], (LRU.cached c' _) as [e'|]; try done. destruct Hsb as (_ & _ & Hs).
  cbn [mbind option_bind]. unfold message_at. pose proof (Forall2_length _ _ _ Hs) as Hlen.
  destruct (mcache_ e !! Z.to_nat (x - b)) as [a|] eqn:Ea.
  - destruct (Forall2_lookup_l _ _ _ _ _ Hs Ea) as (a' & -> & ?). done.
  - apply lookup_ge_None_1 in Ea. rewrite lookup_ge_None_2 by lia. done.
Qed.

Lemma pending_size (c : LRU.t (list byte) CacheEntry) b : (pending c b < S (size (LRU.table_ c)))%nat.
Proof.
  unfold pending. rewrite <-size_dom. apply Nat.lt_succ_r, subseteq_size. intros x. rewrite elem_of_filter. by intros [_ ?].
Qed.

Lemma NewDataCache_spec size_in_bytes sys bits bs : block_size_ok bs -> 0 <= size_in_bytes -> 0 <= bits ->
  exists dc, NewDataCache size_in_bytes sys bits bs = Ok dc /\ DC_inv dc /\
    GetCapacity dc = size_in_bytes /\ GetUsage dc = 0 /\ (forall l x, msg_at dc l x = None).
Proof.
  intros Hbs Hs Hb. unfold NewDataCache.
  assert ((Z.land bs (bs - 1) =? 0) = true) as ->.
  { apply Z.eqb_eq. destruct Hbs as (j & Hj & -> & _). replace (2 ^ j - 1) with (Z.ones j) by (rewrite Z.ones_equiv; lia).
    rewrite Z.land_ones by lia. apply Z_mod_same_full. }
  cbn [assert_that obind]. eexists. split; [done|]. split_and!.
  - split; cbn [block_size_ bloom_bits_per_msg_ bloom_filter_ rs_cache_]; try done.
    + intros p. destruct (0 <? bits); [|done]. intros [= <-]. cbn [num_probes_ NewBloomFilterPolicy]. lia.
    + intros c. destruct (size_in_bytes =? 0); [done|]. intros [= <-]. by apply NewLRUCache_ok.
  - unfold GetCapacity. cbn [rs_cache_]. destruct (Z.eqb_spec size_in_bytes 0); [done|]. done.
  - unfold GetUsage. cbn [rs_cache_]. by destruct (size_in_bytes =? 0).
  - intros l x. unfold msg_at, block_at. cbn [rs_cache_]. destruct (size_in_bytes =? 0); [done|].
    cbn [mbind option_bind]. unfold LRU.cached, LRU.NewLRUCache. cbn [LRU.table_]. by rewrite lookup_empty.
Qed.

Lemma ClearCache_spec dc : DC_inv dc -> DC_inv (ClearCache dc) /\ GetCapacity (ClearCache dc) = GetCapacity dc /\
  (forall l x, msg_at (ClearCache dc) l x = None).
Proof.
  intros Hdc. unfold ClearCache, GetCapacity, msg_at, block_at. destruct (rs_cache_ dc) as [c|] eqn:Hc.
  2: { rewrite Hc. done. }
  split_and!; [|done|].
  - apply DC_inv_set; [done|]. apply NewLRUCache_ok. destruct (DC_inv_cache dc c Hdc Hc) as ((L & Hm & _) & _). apply Hm.
  - intros l x. cbn [rs_cache_ set_rs_cache mbind option_bind]. unfold LRU.cached, LRU.NewLRUCache. cbn [LRU.table_].
    by rewrite lookup_empty.
Qed.

(** Shrinking evicts blocks, and changes none that stays. *)
Lemma DataCache_SetCapacity_spec dc cap : DC_inv dc -> 0 <= cap ->
  exists dc', SetCapacity dc cap = Ok dc' /\ DC_inv dc' /\ GetCapacity dc' = cap /\ GetUsage dc' <= cap /\
    (forall l x, msg_at dc' l x = msg_at dc l x \/ msg_at dc' l x = None).
Proof.
  intros Hdc Hcap. unfold SetCapacity. destruct (Z.eqb_spec cap 0) as [->|Hn0].
  { exists (set_rs_cache None dc). split_and!; try done; [|by right]. destruct Hdc. by split. }
  destruct (rs_cache_ dc) as [c|] eqn:Hc.
  - pose proof (DC_inv_cache dc c Hdc Hc) as (Hi & Hid & Hwf).
    destruct (LRU.SetCapacity_spec c cap Hi Hcap) as (c' & -> & Hi' & Hcap' & Hev). cbn [obind].
    assert (LRU.idle c') as Hid'.
    { intros e h Hh. destruct (LRU.ev_live _ _ Hev e h Hh) as [Hh'|Hr]; [by eapply Hid|].
      exfalso. destruct Hi' as (L & Hm & _). destruct (LRU.i_refs _ _ c' Hm e h); [|done|lia].
      apply (LRU.i_live _ _ c' Hm). by eexists. }
    assert (forall k, LRU.cached c' k = LRU.cached c k \/ LRU.cached c' k = None) as Hc'.
    { intros k. unfold LRU.cached. destruct (LRU.table_ c' !! k) as [e|] eqn:Hk; [|by right]. left.
      rewrite (lookup_weaken _ _ _ _ Hk (LRU.ev_table _ _ Hev) : LRU.table_ c !! k = Some e). cbn [mbind option_bind].
      by rewrite (LRU.ev_cached _ _ Hev k e Hk). }
    exists (set_rs_cache (Some c') dc). split_and!; try done.
    + apply DC_inv_set; [done|]. split_and!; try done. intros k e Hk. apply Hwf. destruct (Hc' k); congruence.
    + simpl. rewrite <-Hcap'. by apply LRU.idle_within.
    + intros l x. rewrite (msg_at_in _ c'), (msg_at_in dc c) by done. unfold msg_in. simpl.
      destruct (Hc' (block_key l (AlignToBlockStart (block_size_ dc) x))) as [-> | ->]; auto.
  - exists (set_rs_cache (Some (LRU.NewLRUCache cap)) dc). split_and!; try done.
    + apply DC_inv_set; [done|]. by apply NewLRUCache_ok.
    + intros l x. right. unfold msg_at, block_at. cbn [rs_cache_ set_rs_cache mbind option_bind].
      unfold LRU.cached, LRU.NewLRUCache. cbn [LRU.table_]. by rewrite lookup_empty.
Qed.

(** *** Storing, with sizes of objects that are not negative *)

Context (sizes_nonneg : 0 <= sizeof_MessageData /\ 0 <= sizeof_CacheEntry).

Lemma CacheEntry_StoreData_spec dc e msg : DC_inv dc -> entry_wf dc e -> fits 64 (data_seqno_ msg) ->
  AlignToBlockStart (block_size_ dc) (data_seqno_ msg) = seqno_block_ e ->
  let off := Z.to_nat (data_seqno_ msg - seqno_block_ e) in
  (forall old, message_at e off = Some old -> Size old = Size msg) ->
  exists e' d, CacheEntry_StoreData XXH64 sizeof_MessageData dc e (data_topic_name_ msg) (logid_ e) msg = Ok (e', d) /\
    0 <= d <= Size msg /\ entry_wf dc e' /\ logid_ e' = logid_ e /\ seqno_block_ e' = seqno_block_ e /\
    message_at e' off = Some (default msg (message_at e off)) /\
    (forall i, i <> off -> message_at e' i = message_at e i).
Proof.
  intros Hdc He Hq Hal off Hsz. pose proof (block_size_pos _ (d_block dc Hdc)) as Hbs.
  pose proof (block_offset _ _ (d_block dc Hdc) Hq) as (Hb1 & Hb2 & _). cbv zeta in *. rewrite Hal in *.
  destruct (e_block dc e He) as (Hbl0 & Hbl1 & Hbl2). pose proof (e_length dc e He) as Hlen.
  assert (off < length (mcache_ e))%nat as Hoff by (unfold off; lia).
  destruct (lookup_lt_is_Some_2 _ _ Hoff) as [slot Hslot].
  assert (hash_at e off = slot_hash slot) as Hh.
  { unfold hash_at. rewrite (e_hash dc e He), nth_lookup, list_lookup_fmap, Hslot. done. }
  assert (0 <= Size msg) as Hsz0 by (unfold GetTotalSize; lia).
  unfold CacheEntry_StoreData. rewrite Hal, !Z.eqb_refl. cbn [assert_that obind]. fold off. rewrite Hh.
  unfold message_at at 1. rewrite Hslot. destruct slot as [old|].
  - rewrite (e_seqno dc e He off old Hslot). replace (seqno_block_ e + Z.of_nat off =? data_seqno_ msg) with true by (unfold off; lia).
    cbn [assert_that obind]. rewrite (proj2 (Z.eqb_eq _ _) (Hsz old ltac:(unfold message_at; by rewrite Hslot))).
    cbn [assert_that obind slot_hash]. rewrite (proj2 (Z.eqb_neq _ _) (HashTopic_nonzero _)). cbn [negb assert_that obind].
    exists e, 0. split_and!; try done. unfold message_at. by rewrite Hslot.
  - cbn [slot_hash]. change (0 =? 0) with true. cbn [assert_that obind].
    destruct (stored_bloom dc e (<[off := Some msg]> (mcache_ e)) Hdc He) as (bits & Hbits & Hbl);
      [by eexists|by rewrite length_insert|by apply count_insert|].
    cbv zeta. rewrite Hbits. cbn [obind]. eexists _, (Size msg). split; [done|].
    assert (message_at e off = None) as Hn by (unfold message_at; by rewrite Hslot).
    split_and!; try done.
    + pose proof (count_le (<[off := Some msg]> (mcache_ e))) as Hle. rewrite count_insert, length_insert in Hle by done.
      split; simpl; try (by destruct He); try done.
      * by rewrite length_insert.
      * rewrite (e_hash dc e He), list_fmap_insert. done.
      * intros i m Hi. apply list_lookup_insert_Some in Hi as [(<- & [= <-] & _)|[Hne Hi]]; [unfold off; lia|].
        by apply (e_seqno dc e He).
      * rewrite count_insert by done. rewrite (e_count dc e He), wrap_small by (unfold fits; lia). lia.
    + rewrite Hn. unfold message_at. simpl. by rewrite list_lookup_insert_eq.
    + intros i Hi. unfold message_at. simpl. by rewrite list_lookup_insert_ne.
Qed.

Lemma GetInitialCharge_nonneg dc : DC_inv dc -> 0 <= GetInitialCharge sizeof_CacheEntry dc.
Proof.
  intros Hdc. pose proof (block_size_pos _ (d_block dc Hdc)). pose proof (d_bits dc Hdc). unfold GetInitialCharge.
  pose proof (Z.div_pos (block_size_ dc * bloom_bits_per_msg_ dc) 8 ltac:(nia) ltac:(lia)). lia.
Qed.

Lemma holding_charge (c : LRU.t (list byte) CacheEntry) h hd : LRU.Inv c -> LRU.holding c h hd -> 0 <= LRU.charge hd.
Proof.
  intros (L & Hm & _) (Hh & _). apply (LRU.i_refs _ _ c Hm h hd); [|done].
  apply (LRU.i_live _ _ c Hm). by eexists.
Qed.

(** Finding the block of a message, or inserting an empty one. *)
Lemma acquire_block dc c logid b : DC_inv dc -> cache_ok dc c -> fits 64 logid -> 0 <= b ->
  b + block_size_ dc < 2 ^ 64 -> b mod block_size_ dc = 0 ->
  LRU.usage_ c + GetInitialCharge sizeof_CacheEntry dc < 2 ^ 64 ->
  exists c1 h hd e,
    obind (LRU.Lookup c (block_key logid b)) (fun r =>
      match r with
      | (cache, Some handle) => obind (LRU.Value cache handle) (fun entry => Ok (cache, handle, entry))
      | (cache, None) =>
          obind (NewCacheEntry dc logid b) (fun entry =>
          obind (LRU.Insert cache (block_key logid b) entry (GetInitialCharge sizeof_CacheEntry dc)) (fun r =>
          Ok (fst r, snd r, entry)))
      end) = Ok (c1, h, e) /\
    LRU.Inv c1 /\ LRU.holding c1 h hd /\ LRU.key hd = block_key logid b /\ 0 <= LRU.charge hd /\
    entry_wf dc e /\ logid_ e = logid /\ seqno_block_ e = b /\
    LRU.capacity_ c1 = LRU.capacity_ c /\
    LRU.usage_ c1 <= LRU.usage_ c + GetInitialCharge sizeof_CacheEntry dc /\
    (forall k, k <> block_key logid b -> LRU.cached c1 k = LRU.cached c k \/ LRU.cached c1 k = None) /\
    (forall i, message_at e i = e0 ← LRU.cached c (block_key logid b); message_at e0 i).
Proof.
  intros Hdc (Hi & Hid & Hwf) Hlog Hb0 Hb1 Hb2 Hu. pose proof (GetInitialCharge_nonneg dc Hdc) as Hg.
  pose proof (block_size_pos _ (d_block dc Hdc)).
  destruct (LRU.cached c (block_key logid b)) as [e|] eqn:Hc.
  - destruct (LRU.Lookup_hold c _ e Hi Hid Hc) as (c1 & h & hd & -> & Hi1 & Hh1 & Hk & Hv & Hcap & Hus & Hc1).
    cbn [obind]. exists c1, h, hd, e. destruct (Hwf _ _ Hc) as [He Hkey].
    destruct (e_block dc e He) as (? & ? & ?).
    apply block_key_inj in Hkey as [-> ->]; [|done|apply He|unfold fits; lia|unfold fits; lia].
    split_and!; try done.
    + unfold LRU.Value, LRU.deref. destruct Hh1 as (-> & _). cbn [obind]. by rewrite Hv.
    + by eapply holding_charge.
    + lia.
    + intros k _. left. apply Hc1.
  - rewrite LRU.Lookup_missing by (by apply LRU.cached_missing). cbn [obind].
    destruct (NewCacheEntry_wf dc logid b Hdc Hlog Hb0 Hb1 Hb2) as (e & -> & He & Hl & Hb & Hempty). cbn [obind].
    destruct (LRU.Insert_hold c (block_key logid b) e _ Hi Hid Hg Hu) as
      (c1 & h & hd & -> & Hi1 & Hh1 & Hk & Hv & Hch & Hcap & Hus & Hc1). cbn [obind fst snd].
    exists c1, h, hd, e. split_and!; try done. lia.
Qed.

(** The message found for a sequence number, given its block. *)
Lemma msg_in_block dc c logid b q : AlignToBlockStart (block_size_ dc) q = b ->
  msg_in dc c logid q = e ← LRU.cached c (block_key logid b); message_at e (Z.to_nat (q - b)).
Proof. intros <-. done. Qed.

(** What [StoreData] does to the contents of the cache. *)
Definition stored (dc : DataCache) (c c' : LRU.t (list byte) CacheEntry) (logid : Z) (msg : MessageData) : Prop :=
  forall l q, fits 64 l -> fits 64 q ->
    msg_in dc c' l q = msg_in dc c l q \/ msg_in dc c' l q = None \/
    (l = logid /\ q = data_seqno_ msg /\ msg_in dc c l q = None /\ msg_in dc c' l q = Some msg).

Lemma StoreData_spec dc c ns logid msg : DC_inv dc -> rs_cache_ dc = Some c -> stores dc ns = true ->
  fits 64 logid -> 0 <= data_seqno_ msg -> data_seqno_ msg + block_size_ dc < 2 ^ 64 ->
  LRU.usage_ c + GetInitialCharge sizeof_CacheEntry dc + Size msg < 2 ^ 64 ->
  (forall old, msg_in dc c logid (data_seqno_ msg) = Some old -> Size old = Size msg) ->
  exists c', StoreData XXH64 sizeof_MessageData sizeof_CacheEntry dc ns (data_topic_name_ msg) logid msg =
      Ok (set_rs_cache (Some c') dc) /\
    cache_ok dc c' /\ LRU.capacity_ c' = LRU.capacity_ c /\ stored dc c c' logid msg /\
    (LRU.usage_ c + GetInitialCharge sizeof_CacheEntry dc + Size msg <= LRU.capacity_ c ->
     is_Some (msg_in dc c' logid (data_seqno_ msg))).
Proof.
  intros Hdc Hc Hst Hlog Hq0 Hq1 Hu Hsz. pose proof (DC_inv_cache dc c Hdc Hc) as Hok.
  pose proof (block_size_pos _ (d_block dc Hdc)) as Hbs.
  assert (fits 64 (data_seqno_ msg)) as Hq by (unfold fits; lia).
  pose proof (block_offset _ _ (d_block dc Hdc) Hq) as (Hb1 & Hb2 & Hb3 & Hb4 & Hb5). cbv zeta in *.
  set (b := AlignToBlockStart (block_size_ dc) (data_seqno_ msg)) in *.
  assert (0 <= Size msg) as Hsz0 by (unfold GetTotalSize; lia).
  destruct (acquire_block dc c logid b Hdc Hok Hlog) as
    (c1 & h & hd & e & Hacq & Hi1 & Hh1 & Hk & Hch & He & Hl & Hb & Hcap1 & Hu1 & Hc1 & Hm1); try (done || lia).
  rewrite (msg_in_block dc c logid b) in Hsz by done.
  destruct (CacheEntry_StoreData_spec dc e msg Hdc He Hq) as (e' & d & Hsd & Hd & He' & Hl' & Hb' & Hat & Hoth);
    [by rewrite Hb|intros old; rewrite Hm1, Hb; apply Hsz|].
  destruct (write_block dc c1 h hd e' d Hi1 Hh1) as (c2 & c3 & HCD & HRel & Hok3 & Hcap3 & Hc3 & Hthis); try done.
  { intros k x Hkx Hne. rewrite Hk in Hne. destruct Hok as (_ & _ & Hwf). apply Hwf.
    destruct (Hc1 k Hne) as [E|E]; congruence. }
  { by rewrite Hk, Hl', Hb', Hl, Hb. }
  { lia. }
  { lia. }
  rewrite Hk in Hc3, Hthis. exists c3. split_and!; try done; [|congruence| |].
  - unfold StoreData. rewrite Hc, (GetPinnedUsage_idle dc c Hok). cbn [obind Z.eqb assert_that]. rewrite Hst.
    fold b. rewrite GenerateKey_block by (done || apply Hdc). cbn [obind]. rewrite <-obind_assoc.
    rewrite Hacq. cbn [obind]. rewrite <-Hl at 1. rewrite Hsd. cbn [obind fst snd].
    rewrite HCD. cbn [obind]. by rewrite HRel.
  - intros l q Hlf Hqf. unfold msg_in. pose proof (block_offset _ q (d_block dc Hdc) Hqf) as (Hx1 & Hx2 & _ & Hx4 & _).
    cbv zeta in *. set (bq := AlignToBlockStart (block_size_ dc) q) in *.
    destruct (decide (block_key l bq = block_key logid b)) as [Ek|Nk].
    + apply block_key_inj in Ek as [-> Ebq]; try done. rewrite Ebq.
      destruct Hthis as [->|[-> _]]; [|by right; left]. cbn [mbind option_bind].
      destruct (decide (q = data_seqno_ msg)) as [->|Nq].
      * rewrite Hb in Hat. rewrite Hat, Hm1.
        destruct (LRU.cached c (block_key logid b)) as [e0|]; cbn [mbind option_bind]; [|by right; right].
        destruct (message_at e0 _); [by left|by right; right].
      * left. rewrite Hoth by (rewrite Hb; lia). apply Hm1.
    + destruct (Hc3 _ Nk) as [-> | ->]; [|by right; left]. destruct (Hc1 _ Nk) as [-> | ->]; auto.
  - intros Hroom. rewrite (msg_in_block dc c3 logid b) by done.
    destruct Hthis as [->|[_ Hov]]; [|lia]. cbn [mbind option_bind]. rewrite Hb in Hat. rewrite Hat. by eexists.
Qed.

End Facts.

(** ** Properties *)

Section Properties.
Context (XXH64 : slice -> Z) (sizeof_MessageData sizeof_CacheEntry : Z).

(** A visitor that runs to completion and changes at most the previous
    sequence number of the message it is given. *)
Definition good_visitor {S} (visit : MessageData -> S -> outcome (MessageData * S * bool)) : Prop :=
  forall m s, exists m' s' more, visit m s = Ok (m', s', more) /\ same_message m m'.

(** The inputs [StoreData] is meant for: a message of a 64-bit log, whose
    block ends inside the range of sequence numbers, and no overflow of the
    charge. *)
Definition storable (dc : DataCache) (logid : Z) (msg : MessageData) : Prop :=
  fits 64 logid /\ 0 <= data_seqno_ msg /\ data_seqno_ msg + block_size_ dc < 2 ^ 64 /\
  GetCapacity dc + GetInitialCharge sizeof_CacheEntry dc + GetTotalSize sizeof_MessageData msg < 2 ^ 64 /\
  (forall old, msg_at dc logid (data_seqno_ msg) = Some old ->
    GetTotalSize sizeof_MessageData old = GetTotalSize sizeof_MessageData msg).

Lemma usage_within dc c : DC_inv XXH64 dc -> rs_cache_ dc = Some c -> LRU.usage_ c <= GetCapacity dc.
Proof.
  intros Hdc Hc. unfold GetCapacity. rewrite Hc. destruct (DC_inv_cache XXH64 dc c Hdc Hc) as (Hi & Hid & _).
  by apply LRU.idle_within.
Qed.

Lemma StoreData_total dc ns logid msg : 0 <= sizeof_MessageData /\ 0 <= sizeof_CacheEntry ->
  DC_inv XXH64 dc -> storable dc logid msg ->
  exists dc', StoreData XXH64 sizeof_MessageData sizeof_CacheEntry dc ns (data_topic_name_ msg) logid msg = Ok dc' /\
    DC_inv XXH64 dc' /\ GetCapacity dc' = GetCapacity dc /\
    (forall l q, fits 64 l -> fits 64 q ->
      msg_at dc' l q = msg_at dc l q \/ msg_at dc' l q = None \/
      (l = logid /\ q = data_seqno_ msg /\ msg_at dc l q = None /\ msg_at dc' l q = Some msg)) /\
    (stores dc ns = true ->
     GetUsage dc + GetInitialCharge sizeof_CacheEntry dc + GetTotalSize sizeof_MessageData msg <= GetCapacity dc ->
     rs_cache_ dc <> None -> is_Some (msg_at dc' logid (data_seqno_ msg))).
Proof.
  intros Hsz Hdc (Hl & Hq0 & Hq1 & Hu & Hold).
  assert (rs_cache_ dc = None \/ stores dc ns = false -> rs_cache_ dc = None \/ StoreData XXH64 sizeof_MessageData
    sizeof_CacheEntry dc ns (data_topic_name_ msg) logid msg = Ok dc) as Hskip.
  { intros [?|Hns]; [by left|]. unfold StoreData. destruct (rs_cache_ dc) as [c|] eqn:Hc; [|by left]. right.
    rewrite (GetPinnedUsage_idle XXH64 dc c) by (by apply DC_inv_cache). cbn [obind assert_that Z.eqb]. by rewrite Hns. }
  destruct (rs_cache_ dc) as [c|] eqn:Hc.
  2: { exists dc. split_and!; try done; [unfold StoreData; by rewrite Hc|auto]. }
  destruct (stores dc ns) eqn:Hns.
  2: { exists dc. split_and!; try done; [by destruct (Hskip ltac:(auto))|auto]. }
  pose proof (usage_within dc c Hdc Hc) as Huc.
  destruct (StoreData_spec XXH64 sizeof_MessageData sizeof_CacheEntry Hsz dc c ns logid msg) as
    (c' & HE & Hok & Hcap & Hstored & Hroom); try done; [lia| |].
  { intros old. rewrite <-(msg_at_in dc c) by done. apply Hold. }
  exists (set_rs_cache (Some c') dc). split_and!; try done.
  - by apply DC_inv_set.
  - unfold GetCapacity. rewrite Hc. done.
  - intros l q Hlf Hqf. rewrite (msg_at_in _ c'), (msg_at_in dc c) by done. by apply Hstored.
  - intros _ Hr _. rewrite (msg_at_in _ c') by done. apply Hroom. unfold GetUsage, GetCapacity in Hr. by rewrite Hc in Hr.
Qed.

Lemma VisitCache_total {S} (visit : MessageData -> S -> outcome (MessageData * S * bool)) dc logid start lookup s :
  good_visitor visit -> DC_inv XXH64 dc -> fits 64 logid -> fits 64 start ->
  exists dc' ret s', VisitCache XXH64 visit dc logid start lookup s = Ok (dc', ret, s') /\
    DC_inv XXH64 dc' /\ GetCapacity dc' = GetCapacity dc /\
    (forall l x, same_slot (msg_at dc l x) (msg_at dc' l x)) /\
    exists full vs more, ret = start + Z.of_nat (length full) /\
      (forall i m, full !! i = Some m -> msg_at dc logid (start + Z.of_nat i) = Some m) /\
      vs `sublist_of` full /\
      (forall m, m ∈ full -> m ∈ vs \/ (lookup <> [] /\ data_topic_name_ m <> lookup)) /\
      run_visitor visit vs s = Ok (s', more) /\ (more = false -> vs <> []) /\
      (more = true -> msg_at dc logid ret = None).
Proof.
  intros Hgood Hdc Hl Hq. unfold VisitCache. destruct (rs_cache_ dc) as [c|] eqn:Hc.
  2: { exists dc, start, s. split_and!; try done; [intros; apply same_slot_refl|].
       exists [], [], true. split_and!; try done; [simpl; lia|set_solver|].
       intros _. unfold msg_at, block_at. by rewrite Hc. }
  pose proof (DC_inv_cache XXH64 dc c Hdc Hc) as Hok.
  rewrite (GetPinnedUsage_idle XXH64 dc c) by done. cbn [obind assert_that Z.eqb].
  destruct (VisitCache_loop_spec XXH64 visit Hgood (Datatypes.S (size (LRU.table_ c))) dc c logid start lookup s
    Hdc Hok Hl Hq (pending_size c _)) as (c' & ret & s' & HE & Hok' & Hcap & Hsb & Hvis & Hret).
  rewrite HE. cbn [obind]. exists (set_rs_cache (Some c') dc), ret, s'. split_and!; try done.
  - by apply DC_inv_set.
  - unfold GetCapacity. by rewrite Hc.
  - intros l x. rewrite (msg_at_in dc c), (msg_at_in (set_rs_cache (Some c') dc) c') by done. exact (same_block_msg dc c c' l x Hsb).
  - destruct Hvis as (full & vs & more & Hv). exists full, vs, more. rewrite (msg_at_in dc c) by done.
    destruct Hv as (? & Hf & ?). split; [done|]. split; [|done]. intros i m Hi. rewrite (msg_at_in dc c) by done. by apply Hf.
Qed.

(** Caches a control tower can reach, with the messages stored on the way,
    each with its log. *)
Inductive reached : DataCache -> list (Z * MessageData) -> Prop :=
| reached_new size_in_bytes sys bits bs dc : block_size_ok bs -> 0 <= size_in_bytes -> 0 <= bits ->
    NewDataCache size_in_bytes sys bits bs = Ok dc -> reached dc []
| reached_store dc hist ns logid msg dc' : reached dc hist -> storable dc logid msg ->
    StoreData XXH64 sizeof_MessageData sizeof_CacheEntry dc ns (data_topic_name_ msg) logid msg = Ok dc' ->
    reached dc' ((logid, msg) :: hist)
| reached_visit S (visit : MessageData -> S -> outcome (MessageData * S * bool)) dc hist logid start lookup s dc' ret s' :
    reached dc hist -> good_visitor visit -> fits 64 logid -> fits 64 start ->
    VisitCache XXH64 visit dc logid start lookup s = Ok (dc', ret, s') -> reached dc' hist
| reached_has dc hist logid q dc' b : reached dc hist -> fits 64 logid -> fits 64 q ->
    HasEntry dc logid q = Ok (dc', b) -> reached dc' hist
| reached_capacity dc hist cap dc' : reached dc hist -> 0 <= cap -> SetCapacity dc cap = Ok dc' -> reached dc' hist
| reached_clear dc hist : reached dc hist -> reached (ClearCache dc) hist.

(** Every cached message was stored, for that log and sequence number. *)
Definition serves (dc : DataCache) (hist : list (Z * MessageData)) : Prop :=
  forall l q m, fits 64 l -> fits 64 q -> msg_at dc l q = Some m ->
    exists m0, (l, m0) ∈ hist /\ same_message m0 m /\ data_seqno_ m = q.

Lemma serves_sub dc dc' hist : serves dc hist ->
  (forall l q, msg_at dc' l q = msg_at dc l q \/ msg_at dc' l q = None) -> serves dc' hist.
Proof. intros Hs Hsub l q m Hl Hq Hm. destruct (Hsub l q) as [E|E]; rewrite E in Hm; [by apply Hs|done]. Qed.

Lemma reached_serves dc hist : 0 <= sizeof_MessageData /\ 0 <= sizeof_CacheEntry ->
  reached dc hist -> DC_inv XXH64 dc /\ serves dc hist.
Proof.
  intros Hsz. induction 1 as [n sys bits bs dc Hbs Hn Hb E|dc hist ns logid msg dc' _ [Hdc Hs] Hst E|
    S visit dc hist logid start lookup s dc' ret s' _ [Hdc Hs] Hg Hl Hq E|dc hist logid q dc' b _ [Hdc Hs] Hl Hq E|
    dc hist cap dc' _ [Hdc Hs] Hc E|dc hist _ [Hdc Hs]].
  - destruct (NewDataCache_spec XXH64 n sys bits bs Hbs Hn Hb) as (dc0 & E0 & Hdc & _ & _ & Hm). rewrite E in E0. simplify_eq.
    split; [done|]. intros l q m _ _ Hq. by rewrite Hm in Hq.
  - destruct (StoreData_total dc ns logid msg Hsz Hdc Hst) as (dc0 & E0 & Hdc' & _ & Hm & _). rewrite E in E0. simplify_eq.
    split; [done|]. intros l q m Hl Hq Hlq.
    destruct (Hm l q Hl Hq) as [E1|[E1|(-> & -> & _ & E1)]]; rewrite E1 in Hlq; [|done|].
    + destruct (Hs l q m Hl Hq Hlq) as (m0 & ? & ?). exists m0. set_solver.
    + simplify_eq. exists m. split_and!; [set_solver|apply same_message_refl|done].
  - destruct (VisitCache_total visit dc logid start lookup s Hg Hdc Hl Hq) as (dc0 & r0 & s0 & E0 & Hdc' & _ & Hm & _). rewrite E in E0. simplify_eq.
    split; [done|]. intros l q' m' Hl' Hq' Hlq. specialize (Hm l q'). rewrite Hlq in Hm.
    destruct (msg_at dc l q') as [m|] eqn:Em; [|done]. destruct (Hs l q' m Hl' Hq' Em) as (m0 & ? & [p1 ->] & Hseq).
    destruct Hm as [p2 ->]. exists m0. split_and!; [done|by exists p2|done].
  - destruct (HasEntry_spec XXH64 dc logid q Hdc Hl Hq) as (dc0 & E0 & Hdc' & _ & Hm). rewrite E in E0. simplify_eq. split; [done|].
    eapply serves_sub; [done|]. intros. left. apply Hm.
  - destruct (DataCache_SetCapacity_spec XXH64 dc cap Hdc Hc) as (dc0 & E0 & Hdc' & _ & _ & Hm). rewrite E in E0. simplify_eq. split; [done|].
    eapply serves_sub; [done|]. apply Hm.
  - destruct (ClearCache_spec XXH64 dc Hdc) as (Hdc' & _ & Hm). split; [done|].
    eapply serves_sub; [done|]. intros. right. apply Hm.
Qed.
End Properties.

(** C30: storing a message into the cache.  [StoreData] never fails on a
    storable message, keeps the invariant and the capacity, and changes nothing
    but the slot of the message and slots that are evicted.  With room for the
    block and the message under the capacity, the message (or the one cached
    for its sequence number before) is there afterwards. *)
Theorem StoreData_correct XXH64 sizeof_MessageData sizeof_CacheEntry dc ns logid msg :
  0 <= sizeof_MessageData /\ 0 <= sizeof_CacheEntry -> DC_inv XXH64 dc ->
  storable sizeof_MessageData sizeof_CacheEntry dc logid msg ->
  exists dc', StoreData XXH64 sizeof_MessageData sizeof_CacheEntry dc ns (data_topic_name_ msg) logid msg = Ok dc' /\
    DC_inv XXH64 dc' /\ GetCapacity dc' = GetCapacity dc /\
    (forall l q, fits 64 l -> fits 64 q ->
      msg_at dc' l q = msg_at dc l q \/ msg_at dc' l q = None \/
      (l = logid /\ q = data_seqno_ msg /\ msg_at dc l q = None /\ msg_at dc' l q = Some msg)) /\
    (stores dc ns = true ->
     GetUsage dc + GetInitialCharge sizeof_CacheEntry dc + GetTotalSize sizeof_MessageData msg <= GetCapacity dc ->
     rs_cache_ dc <> None -> is_Some (msg_at dc' logid (data_seqno_ msg))).
Proof. apply StoreData_total. Qed.

(** C29: a visit of the cache delivers a gapless run.  From any cached state
    [VisitCache] stops at a sequence number such that every one from the start
    up to there is cached, it gives the visitor all of their messages that are
    of the topic looked up (all messages, for the empty topic) in order, and it
    stops only where a message is missing or where the visitor asked it to.
    The cache keeps its messages, but for the stamps of the visitor. *)
Theorem VisitCache_delivers XXH64 {S} (visit : MessageData -> S -> outcome (MessageData * S * bool))
    dc logid start lookup s :
  good_visitor visit -> DC_inv XXH64 dc -> fits 64 logid -> fits 64 start ->
  exists dc' ret s', VisitCache XXH64 visit dc logid start lookup s = Ok (dc', ret, s') /\
    DC_inv XXH64 dc' /\ GetCapacity dc' = GetCapacity dc /\
    (forall l x, same_slot (msg_at dc l x) (msg_at dc' l x)) /\
    exists full vs more, ret = start + Z.of_nat (length full) /\
      (forall i m, full !! i = Some m -> msg_at dc logid (start + Z.of_nat i) = Some m) /\
      vs `sublist_of` full /\
      (forall m, m ∈ full -> m ∈ vs \/ (lookup <> [] /\ data_topic_name_ m <> lookup)) /\
      run_visitor visit vs s = Ok (s', more) /\ (more = false -> vs <> []) /\
      (more = true -> msg_at dc logid ret = None).
Proof. apply VisitCache_total. Qed.

(** C31: the cache serves only what was stored.  In every state reached by
    storing, visiting, probing, resizing and clearing, a message cached for a
    log and a sequence number was stored for that log, carries that sequence
    number, and differs from the stored one at most in the previous sequence
    number a visitor stamped. *)
Theorem DataCache_serves_stored XXH64 sizeof_MessageData sizeof_CacheEntry dc hist :
  0 <= sizeof_MessageData /\ 0 <= sizeof_CacheEntry ->
  reached XXH64 sizeof_MessageData sizeof_CacheEntry dc hist ->
  forall l q m, fits 64 l -> fits 64 q -> msg_at dc l q = Some m ->
    exists m0, (l, m0) ∈ hist /\ same_message m0 m /\ data_seqno_ m = q.
Proof. intros Hsz Hr. by apply (reached_serves XXH64 sizeof_MessageData sizeof_CacheEntry). Qed.

Definition example_message (q : Z) : MessageData :=
  {| data_base := {| type_ := MessageType.mDeliver; tenantid_ := 200 |}; data_seqno_prev_ := 0; data_seqno_ := q;
     msgid_ := []; data_topic_name_ := [Byte.x61]; data_payload_ := [Byte.x70]; data_namespaceid_ := [Byte.x62];
     storage_slice_ := [] |}.

(** A small cache: blocks of two messages, filters of ten bits a message, and
    the length of a topic for its hash. *)
Definition example_hash (s : slice) : Z := Z.of_nat (length s).
Definition example_store := StoreData example_hash 100 200.
Definition example_cache : DataCache :=
  match NewDataCache 100000 false 10 2 with Ok dc => dc | Abort _ => ClearCache {|
    bloom_bits_per_msg_ := 0; block_size_ := 1; StoreUserTopics := false; StoreSystemTopics := false;
    StoreDataRecords := false; StoreGapRecords := false; rs_cache_ := None; bloom_filter_ := None |} end.

Lemma example_block : block_size_ok 2.
Proof. exists 1. lia. Qed.

Lemma example_cache_inv : DC_inv example_hash example_cache.
Proof.
  destruct (NewDataCache_spec example_hash 100000 false 10 2 example_block) as (dc & E & Hdc & _); [lia|lia|].
  unfold example_cache. by rewrite E.
Qed.

Lemma example_storable : storable 100 200 example_cache 7 (example_message 4).
Proof.
  split_and!; try (unfold fits; vm_compute; split; congruence); try (vm_compute; congruence).
Qed.

Lemma example_room : stores example_cache [Byte.x62] = true /\
  GetUsage example_cache + GetInitialCharge 200 example_cache + GetTotalSize 100 (example_message 4) <= GetCapacity example_cache /\
  rs_cache_ example_cache <> None.
Proof. split_and!; [reflexivity| |discriminate]. apply Z.leb_le. vm_compute. reflexivity. Qed.

Lemma StoreData_correct_witness :
  exists dc', example_store example_cache [Byte.x62] [Byte.x61] 7 (example_message 4) = Ok dc' /\
    is_Some (msg_at dc' 7 4).
Proof.
  destruct (StoreData_correct example_hash 100 200 example_cache [Byte.x62] 7 (example_message 4)
    ltac:(lia) example_cache_inv example_storable) as (dc' & E & _ & _ & _ & Hroom).
  exists dc'. split; [exact E|]. apply Hroom; apply example_room.
Defined.

Definition count_visits (m : MessageData) (n : nat) : outcome (MessageData * nat * bool) :=
  Ok (SetPreviousSequenceNumber 3 m, S n, true).

Lemma count_visits_good : good_visitor count_visits.
Proof. intros m n. exists (SetPreviousSequenceNumber 3 m), (S n), true. split; [done|by exists 3]. Qed.

Lemma VisitCache_delivers_witness :
  exists dc' ret n, VisitCache example_hash count_visits example_cache 7 4 [] 0%nat = Ok (dc', ret, n) /\
    DC_inv example_hash dc'.
Proof.
  destruct (VisitCache_delivers example_hash count_visits example_cache 7 4 [] 0%nat count_visits_good
    example_cache_inv) as (dc' & ret & n & E & Hi & _); [vm_compute; split; congruence|vm_compute; split; congruence|].
  by exists dc', ret, n.
Defined.

(** What the visit of a cached message delivers, computed. *)
Example VisitCache_example :
  match example_store example_cache [Byte.x62] [Byte.x61] 7 (example_message 4) with
  | Ok dc => match VisitCache example_hash count_visits dc 7 4 [Byte.x61] 0%nat with
             | Ok (_, ret, n) => Some (ret, n)
             | Abort _ => None
             end
  | Abort _ => None
  end = Some (5, 1%nat).
Proof. vm_compute. reflexivity. Qed.

Lemma DataCache_serves_stored_witness :
  exists dc, example_store example_cache [Byte.x62] [Byte.x61] 7 (example_message 4) = Ok dc /\
    exists m0, (7, m0) ∈ [(7, example_message 4)] /\ same_message m0 (example_message 4) /\ data_seqno_ (example_message 4) = 4.
Proof.
  destruct (StoreData_total example_hash 100 200 example_cache [Byte.x62] 7 (example_message 4)
    ltac:(lia) example_cache_inv example_storable) as (dc & E & _ & _ & Hm & Hroom).
  exists dc. split; [exact E|].
  apply (DataCache_serves_stored example_hash 100 200 dc [(7, example_message 4)]); [lia| |vm_compute; split; congruence..|].
  - apply (reached_store example_hash 100 200 example_cache [] [Byte.x62] 7 (example_message 4) dc); [|exact example_storable|exact E].
    apply (reached_new example_hash 100 200 100000 false 10 2); [exact example_block|lia|lia|reflexivity].
  - destruct example_room as (H1 & H2 & H3). destruct (Hroom H1 H2 H3) as [m Hin].
    destruct (Hm 7 4) as [E1|[E1|(_ & _ & _ & E1)]]; [vm_compute; split; congruence..| | |exact E1].
    + exfalso. assert (msg_at example_cache 7 4 = None) as E2 by (vm_compute; reflexivity).
      change (data_seqno_ (example_message 4)) with 4 in Hin. congruence.
    + exfalso. change (data_seqno_ (example_message 4)) with 4 in Hin. congruence.
Defined.

(** Erasing does not give a slot back.  [CacheEntry::Erase] empties a slot
    and leaves the number of messages of the block as it was, so the block
    counts as full before it is: after a store and an erase, storing the other
    message of a block of two reads the topic of the emptied slot to build the
    filter, which dereferences a null message. *)
Theorem Erase_leaves_count :
  obind (example_store example_cache [Byte.x62] [Byte.x61] 7 (example_message 4)) (fun dc =>
  obind (Erase 100 dc 7 4) (fun dc =>
  example_store dc [Byte.x62] [Byte.x61] 7 (example_message 5))) = Abort "dereference of a null message" /\
  obind (example_store example_cache [Byte.x62] [Byte.x61] 7 (example_message 4)) (fun dc =>
  obind (example_store dc [Byte.x62] [Byte.x61] 7 (example_message 5)) (fun dc =>
  Ok (bool_decide (is_Some (msg_at dc 7 4)), bool_decide (is_Some (msg_at dc 7 5))))) = Ok (true, true).
Proof. split; vm_compute; reflexivity. Qed.
