(* ===== verification/DataCacheVisit.v ===== *)
(** * Reasoning about visits of the data cache

    [VisitCache_total] asks for a visitor that never fails.  The visitors of
    the topic tailer contain assertions that hold only along a visit, so this
    file derives an induction principle: a property of the visitor's state,
    indexed by the position in the log, that the messages of the cache keep. *)

From S2P Require Import Prelude Coding CodingFacts Messages LRUCache Bloom DataCache DataCacheFacts.

#[local] Open Scope outcome_scope.

(** A cached message carries its sequence number, which is not the last one. *)
Lemma msg_at_seqno XXH64 dc l q m : DC_inv XXH64 dc -> fits 64 l -> fits 64 q -> msg_at dc l q = Some m ->
  data_seqno_ m = q /\ q + 1 < 2 ^ 64.
Proof.
  intros Hdc Hl Hq. unfold msg_at, block_at. pose proof (block_offset _ q (d_block _ dc Hdc) Hq) as Ho. cbv zeta in Ho.
  set (b := AlignToBlockStart (block_size_ dc) q) in *. destruct (rs_cache_ dc) as [c|] eqn:Ec; [|done].
  cbn [mbind option_bind]. destruct (LRU.cached c (block_key l b)) as [e|] eqn:Ee; [|done]. cbn [mbind option_bind].
  destruct (d_cache _ dc Hdc c Ec) as (_ & _ & Hwf). destruct (Hwf _ _ Ee) as [He Hk].
  destruct (e_block _ _ _ He) as (Hb0 & Hb1 & _). pose proof (block_size_pos _ (d_block _ dc Hdc)).
  apply block_key_inj in Hk as [-> Hbe]; [|done|apply He|unfold fits in *; lia|unfold fits; lia].
  unfold message_at. destruct (mcache_ e !! _) as [[m'|]|] eqn:Em; cbn; intros [=]; subst m'.
  rewrite (e_seqno _ _ _ He _ _ Em). unfold fits in *. lia.
Qed.

Section Guarded.
Context (XXH64 : slice -> Z) {S : Type} (visit : MessageData -> S -> outcome (MessageData * S * bool)).

(** The visitor made total: a failure is the state [None], which stops. *)
Definition guarded (m : MessageData) (s : option S) : outcome (MessageData * option S * bool) :=
  match s with
  | Some s =>
      match visit m s with
      | Ok (m, s, more) => Ok (m, Some s, more)
      | Abort _ => Ok (m, None, false)
      end
  | None => Ok (m, None, false)
  end.

Lemma visit_all_guarded ms s ms' n stop s' : visit_all guarded ms (Some s) = Ok (ms', n, stop, Some s') ->
  visit_all visit ms s = Ok (ms', n, stop, s').
Proof.
  revert s ms' n stop s'. induction ms as [|[m|] ms IH]; intros s ms' n stop s'; cbn [visit_all guarded]; try by intros [= <- <- <- <-].
  destruct (visit m s) as [[[m1 s1] []]|w]; cbn [obind]; try (by intros; simplify_eq).
  intros ([[[ms1 n1] stop1] s2] & E & E')%obind_Ok. simplify_eq. by rewrite (IH _ _ _ _ _ E).
Qed.

Lemma visit_hashed_guarded h hs ms s ms' n stop s' :
  visit_hashed guarded h hs ms (Some s) = Ok (ms', n, stop, Some s') ->
  visit_hashed visit h hs ms s = Ok (ms', n, stop, s').
Proof.
  revert hs s ms' n stop s'. induction ms as [|m ms IH]; intros [|h' hs] s ms' n stop s'; cbn [visit_hashed];
    try by intros [= <- <- <- <-].
  destruct (h' =? 0); [by intros [= <- <- <- <-]|]. destruct (h' =? h).
  - destruct m as [m|]; [|done]. cbn [guarded].
    destruct (visit m s) as [[[m1 s1] []]|w]; cbn [obind]; try (by intros; simplify_eq).
    intros ([[[ms1 n1] stop1] s2] & E & E')%obind_Ok. simplify_eq. by rewrite (IH _ _ _ _ _ _ E).
  - intros ([[[ms1 n1] stop1] s2] & E & E')%obind_Ok. simplify_eq. by rewrite (IH _ _ _ _ _ _ E).
Qed.

Lemma VisitEntry_guarded dc e logid q lookup s e' nx stop s' :
  VisitEntry XXH64 guarded dc e logid q lookup (Some s) = Ok (e', nx, stop, Some s') ->
  VisitEntry XXH64 visit dc e logid q lookup s = Ok (e', nx, stop, s').
Proof.
  unfold VisitEntry. destruct (assert_that _ _); cbn [obind]; [|done]. destruct (assert_that _ _); cbn [obind]; [|done].
  match goal with |- context [if ?c then Ok _ else _] => destruct c end; [by intros [= <- <- <- <-]|].
  destruct (length lookup =? 0)%nat; intros ([[[ms1 n1] stop1] s2] & E & E')%obind_Ok; simplify_eq.
  - by rewrite (visit_all_guarded _ _ _ _ _ _ E).
  - by rewrite (visit_hashed_guarded _ _ _ _ _ _ _ _ E).
Qed.

(** After a failure nothing is visited any more. *)
Lemma visit_all_None ms ms' n stop s' : visit_all guarded ms None = Ok (ms', n, stop, s') -> s' = None.
Proof. destruct ms as [|[]]; cbn; by intros; simplify_eq. Qed.

Lemma visit_hashed_None h hs ms ms' n stop s' : visit_hashed guarded h hs ms None = Ok (ms', n, stop, s') -> s' = None.
Proof.
  revert hs ms' n stop s'. induction ms as [|m ms IH]; intros [|h' hs] ms' n stop s'; cbn [visit_hashed]; try by intros; simplify_eq.
  destruct (h' =? 0); [by intros; simplify_eq|]. destruct (h' =? h).
  - destruct m as [m|]; cbn; by intros; simplify_eq.
  - intros ([[[ms1 n1] stop1] s2] & E & E')%obind_Ok. simplify_eq. by eapply IH.
Qed.

Lemma VisitEntry_None dc e logid q lookup e' nx stop s' :
  VisitEntry XXH64 guarded dc e logid q lookup None = Ok (e', nx, stop, s') -> s' = None.
Proof.
  unfold VisitEntry. destruct (assert_that _ _); cbn [obind]; [|done]. destruct (assert_that _ _); cbn [obind]; [|done].
  match goal with |- context [if ?c then Ok _ else _] => destruct c end; [by intros [= <- <- <- <-]|].
  destruct (length lookup =? 0)%nat; intros ([[[ms1 n1] stop1] s2] & E & E')%obind_Ok; simplify_eq;
    eauto using visit_all_None, visit_hashed_None.
Qed.

Lemma VisitCache_loop_None fuel dc c logid q b lookup c' ret s' :
  VisitCache_loop XXH64 guarded fuel dc c logid q b lookup None = Ok (c', ret, s') -> s' = None.
Proof.
  revert c q b. induction fuel as [|fuel IH]; intros c q b; cbn [VisitCache_loop]; [done|].
  intros (key & _ & ([c1 [h|]] & _ & E)%obind_Ok)%obind_Ok; [|by simplify_eq].
  apply obind_Ok in E as (e & _ & ([[[e' nx] stop] s1] & Hv & (c2 & _ & E)%obind_Ok)%obind_Ok).
  apply VisitEntry_None in Hv as ->. destruct (_ || _); [by simplify_eq|].
  apply obind_Ok in E as (_ & _ & E). by eapply IH.
Qed.

Lemma VisitCache_loop_guarded fuel dc c logid q b lookup s c' ret s' :
  VisitCache_loop XXH64 guarded fuel dc c logid q b lookup (Some s) = Ok (c', ret, Some s') ->
  VisitCache_loop XXH64 visit fuel dc c logid q b lookup s = Ok (c', ret, s').
Proof.
  revert c q b s. induction fuel as [|fuel IH]; intros c q b s; cbn [VisitCache_loop]; [done|].
  destruct (GenerateKey _ _ _) as [key|]; cbn [obind]; [|done].
  destruct (LRU.Lookup c key) as [[c1 [h|]]|]; cbn [obind]; [|by intros; simplify_eq|done].
  destruct (LRU.Value c1 h) as [e|]; cbn [obind]; [|done].
  intros ([[[e' nx] stop] s1] & Hv & (c2 & Hr & E)%obind_Ok)%obind_Ok. destruct s1 as [s1|].
  - rewrite (VisitEntry_guarded _ _ _ _ _ _ _ _ _ _ Hv). cbn [obind]. rewrite Hr. cbn [obind].
    destruct (_ || _); [by simplify_eq|]. destruct (assert_that _ _); [|done]. by apply IH.
  - destruct (_ || _); [by simplify_eq|]. destruct (assert_that _ _); [|done]. by apply VisitCache_loop_None in E.
Qed.

Lemma VisitCache_guarded dc logid q lookup s dc' ret s' :
  VisitCache XXH64 guarded dc logid q lookup (Some s) = Ok (dc', ret, Some s') ->
  VisitCache XXH64 visit dc logid q lookup s = Ok (dc', ret, s').
Proof.
  unfold VisitCache. destruct (rs_cache_ dc) as [c|]; [|by intros [= <- <- <-]].
  destruct (LRU.GetPinnedUsage c); cbn [obind]; [|done]. destruct (assert_that _ _); cbn [obind]; [|done].
  intros ([[c1 r1] s1] & E & E')%obind_Ok. simplify_eq. by rewrite (VisitCache_loop_guarded _ _ _ _ _ _ _ _ _ _ _ E).
Qed.

(** A visitor that stamps at most the previous sequence number, when it runs. *)
Definition stamping : Prop := forall m s m' s' more, visit m s = Ok (m', s', more) -> same_message m m'.

Lemma guarded_good : stamping -> good_visitor guarded.
Proof.
  intros Hst m [s|]; cbn [guarded]; [|eauto 6 using same_message_refl].
  destruct (visit m s) as [[[m' s'] more]|] eqn:E; eauto 8 using same_message_refl.
Qed.

(** *** The induction principle *)

Context (dc : DataCache) (logid : Z) (lookup : slice) (I : bool -> Z -> S -> Prop).

(** [I more q s]: the visit reached [q] with state [s], and goes on if [more]. *)
Context (I_visit : forall q m s, fits 64 q -> data_seqno_ m = q -> msg_at dc logid q = Some m -> I true q s ->
  exists m' s' more, visit m s = Ok (m', s', more) /\ I more (q + 1) s').
Context (I_skip : forall q m s more, fits 64 q -> data_seqno_ m = q -> msg_at dc logid q = Some m -> lookup <> [] -> data_topic_name_ m <> lookup ->
  I more q s -> I more (q + 1) s).

(** A run of consecutive cached messages from [q] on. *)
Definition cached_run (q : Z) (full : list MessageData) : Prop :=
  forall i m, full !! i = Some m -> fits 64 (q + Z.of_nat i) /\ data_seqno_ m = q + Z.of_nat i /\
    msg_at dc logid (q + Z.of_nat i) = Some m.

Lemma cached_run_cons q m full : cached_run q (m :: full) ->
  fits 64 q /\ data_seqno_ m = q /\ msg_at dc logid q = Some m /\ cached_run (q + 1) full.
Proof.
  intros Hf. pose proof (Hf 0%nat m eq_refl) as H0. rewrite Z.add_0_r in H0. destruct H0 as (? & ? & ?).
  split_and!; [done..|]. intros i x Hx. specialize (Hf (Datatypes.S i) x Hx).
  by replace (q + 1 + Z.of_nat i) with (q + Z.of_nat (Datatypes.S i)) by lia.
Qed.

Lemma cached_run_NoDup q full : cached_run q full -> NoDup full.
Proof.
  intros Hf. apply NoDup_alt. intros i j m Hi Hj. destruct (Hf _ _ Hi) as (_ & ? & _), (Hf _ _ Hj) as (_ & ? & _). lia.
Qed.

Lemma run_length q m (full : list MessageData) : q + Z.of_nat (length (m :: full)) = q + 1 + Z.of_nat (length full).
Proof. simpl. lia. Qed.

Lemma skip_all full q s more : cached_run q full ->
  (forall m, m ∈ full -> lookup <> [] /\ data_topic_name_ m <> lookup) ->
  I more q s -> I more (q + Z.of_nat (length full)) s.
Proof.
  revert q. induction full as [|m full IH]; intros q Hf Hc HI; [by rewrite Z.add_0_r|]. rewrite run_length.
  apply cached_run_cons in Hf as (? & ? & ? & ?). apply IH; [done|set_solver|].
  destruct (Hc m); [set_solver|]. by eapply I_skip.
Qed.

Lemma run_guarded full vs q s : cached_run q full -> vs `sublist_of` full ->
  (forall m, m ∈ full -> m ∈ vs \/ (lookup <> [] /\ data_topic_name_ m <> lookup)) -> I true q s ->
  forall s' more, run_visitor guarded vs (Some s) = Ok (s', more) ->
    exists s1, s' = Some s1 /\ I more (q + Z.of_nat (length full)) s1.
Proof.
  revert vs q s. induction full as [|m full IH]; intros vs q s Hf Hsub Hc HI s' more Hrun.
  { apply sublist_nil_r in Hsub as ->. simpl in *. simplify_eq. exists s. by rewrite Z.add_0_r. }
  rewrite run_length. pose proof (cached_run_NoDup _ _ Hf) as Hnd. apply NoDup_cons in Hnd as [Hnm Hnd].
  apply cached_run_cons in Hf as (Hq & Hmq & Hm & Hf).
  apply sublist_cons_r in Hsub as [Hsub|(vs' & -> & Hsub)].
  - destruct (Hc m) as [Hin|[Hl Hne]]; [set_solver|destruct Hnm; by eapply elem_of_sublist|].
    eapply IH; try done; [set_solver|by eapply I_skip].
  - cbn [run_visitor guarded] in Hrun. destruct (I_visit q m s Hq Hmq Hm HI) as (m' & s1 & more1 & Hv & HI1).
    rewrite Hv in Hrun. assert (forall x, x ∈ full -> x ∈ vs' \/ (lookup <> [] /\ data_topic_name_ x <> lookup)) as Hc'.
    { intros x Hx. destruct (Hc x) as [Hin|]; [set_solver| |by right]. apply elem_of_cons in Hin as [->|]; [done|by left]. }
    destruct more1; [by eapply IH|]. destruct vs' as [|x vs']; [|done]. simplify_eq. eexists. split; [done|].
    apply skip_all; [done| |done]. intros x Hx. destruct (Hc' x Hx) as [[]%elem_of_nil|]; done.
Qed.

Lemma cached_run_intro q full : DC_inv XXH64 dc -> fits 64 logid -> fits 64 q ->
  (forall i m, full !! i = Some m -> msg_at dc logid (q + Z.of_nat i) = Some m) ->
  cached_run q full /\ fits 64 (q + Z.of_nat (length full)).
Proof.
  intros Hdc Hl. revert q. induction full as [|m full IH]; intros q Hq Hf; [by rewrite Z.add_0_r|].
  pose proof (Hf 0%nat m eq_refl) as H0. rewrite Z.add_0_r in H0.
  destruct (msg_at_seqno XXH64 dc logid q m Hdc Hl Hq H0). rewrite run_length.
  destruct (IH (q + 1)) as [Hr Hfit]; [unfold fits in *; lia| |].
  { intros i x Hx. rewrite <-(Hf (Datatypes.S i) x Hx). f_equal. lia. }
  split; [|done]. intros [|i] x Hx; [simpl in *; simplify_eq; by rewrite Z.add_0_r|].
  specialize (Hr i x Hx). by replace (q + Z.of_nat (Datatypes.S i)) with (q + 1 + Z.of_nat i) by lia.
Qed.

Lemma VisitCache_ind start s : stamping -> DC_inv XXH64 dc -> fits 64 logid -> fits 64 start -> I true start s ->
  exists dc' ret s' more, VisitCache XXH64 visit dc logid start lookup s = Ok (dc', ret, s') /\
    DC_inv XXH64 dc' /\ GetCapacity dc' = GetCapacity dc /\ (forall l x, same_slot (msg_at dc l x) (msg_at dc' l x)) /\
    start <= ret /\ fits 64 ret /\ I more ret s' /\ (more = false -> start < ret) /\
    (more = true -> msg_at dc logid ret = None).
Proof.
  intros Hst Hdc Hl Hq HI.
  destruct (VisitCache_total XXH64 guarded dc logid start lookup (Some s) (guarded_good Hst) Hdc Hl Hq)
    as (dc' & ret & s' & Hv & Hdc' & Hcap & Hsl & full & vs & more & -> & Hf & Hsub & Hc & Hrun & Hmf & Hmt).
  destruct (cached_run_intro start full Hdc Hl Hq Hf) as [Hr Hfit].
  destruct (run_guarded full vs start s Hr Hsub Hc HI s' more Hrun) as (s1 & -> & HI1).
  exists dc', (start + Z.of_nat (length full)), s1, more. split_and!; try done; [by apply VisitCache_guarded|lia|].
  intros Hm. destruct full; [|simpl; lia]. apply sublist_nil_r in Hsub. by destruct (Hmf Hm).
Qed.
End Guarded.

(** The position a visit returns is a 64-bit number. *)
Lemma VisitCache_fits {S} XXH64 (visit : MessageData -> S -> outcome (MessageData * S * bool)) dc l q t s dc' ret s' :
  VisitCache XXH64 visit dc l q t s = Ok (dc', ret, s') -> fits 64 q -> fits 64 ret.
Proof.
  unfold VisitCache. destruct (rs_cache_ dc) as [c|]; [|by intros [= _ <- _]].
  intros (pinned & _ & ([] & _ & ([[c1 start1] s1] & E & H)%obind_Ok)%obind_Ok)%obind_Ok. simplify_eq. clear pinned.
  revert E. generalize (Datatypes.S (size (LRU.table_ c))) as fuel. generalize (AlignToBlockStart (block_size_ dc) q) as b.
  intros b fuel. revert c q b s. induction fuel as [|fuel IH]; intros c q b s; cbn [VisitCache_loop]; [done|].
  intros (key & _ & ([c2 [h|]] & _ & H)%obind_Ok)%obind_Ok Hq; [|by simplify_eq].
  apply obind_Ok in H as (entry & _ & ([[[e2 next] stop] s2] & E & (c3 & _ & H)%obind_Ok)%obind_Ok).
  assert (fits 64 next) as Hn.
  { unfold VisitEntry in E. apply obind_Ok in E as ([] & _ & ([] & _ & E)%obind_Ok).
    destruct (match bloom_filter_ dc with Some _ => _ | None => _ end); [injection E as _ <- _ _; by apply wrap_fits|].
    apply obind_Ok in E as ([[[ms n] stop1] s3] & _ & [= _ <- _ _]). by apply wrap_fits. }
  destruct (_ || stop); [by simplify_eq|]. apply obind_Ok in H as ([] & _ & H). by eapply IH.
Qed.

(** What every call of the visitor keeps, a visit keeps. *)
Section Preserves.
Context (XXH64 : slice -> Z) {S : Type} (visit : MessageData -> S -> outcome (MessageData * S * bool)) (P : S -> Prop).
Context (visit_keeps : forall m s m' s' more, visit m s = Ok (m', s', more) -> P s -> P s').

Lemma visit_all_preserves ms s ms' n stop s' : visit_all visit ms s = Ok (ms', n, stop, s') -> P s -> P s'.
Proof using visit_keeps.
  revert s ms' n stop s'. induction ms as [|[m|] ms IH]; intros s ms' n stop s'; cbn [visit_all]; try by intros [= <- <- <- <-].
  intros ([[m1 s1] more] & E & Hr)%obind_Ok Hs. apply visit_keeps in E; [|done]. destruct more; [|by simplify_eq].
  apply obind_Ok in Hr as ([[[ms1 n1] stop1] s2] & E1 & E2). simplify_eq. by eapply IH.
Qed.

Lemma visit_hashed_preserves h hs ms s ms' n stop s' : visit_hashed visit h hs ms s = Ok (ms', n, stop, s') -> P s -> P s'.
Proof using visit_keeps.
  revert hs s ms' n stop s'. induction ms as [|m ms IH]; intros [|h' hs] s ms' n stop s'; cbn [visit_hashed]; try by intros [= <- <- <- <-].
  destruct (h' =? 0); [by intros [= <- <- <- <-]|]. destruct (h' =? h).
  - destruct m as [m|]; [|done]. intros ([[m1 s1] more] & E & Hr)%obind_Ok Hs. apply visit_keeps in E; [|done]. destruct more; [|by simplify_eq].
    apply obind_Ok in Hr as ([[[ms1 n1] stop1] s2] & E1 & E2). simplify_eq. by eapply IH.
  - intros ([[[ms1 n1] stop1] s2] & E1 & E2)%obind_Ok Hs. simplify_eq. by eapply IH.
Qed.

Lemma VisitEntry_preserves dc e l q t s e' next stop s' : VisitEntry XXH64 visit dc e l q t s = Ok (e', next, stop, s') -> P s -> P s'.
Proof using visit_keeps.
  unfold VisitEntry. intros ([] & _ & ([] & _ & H)%obind_Ok)%obind_Ok Hs.
  destruct (match bloom_filter_ dc with Some _ => _ | None => _ end); [by simplify_eq|].
  apply obind_Ok in H as ([[[ms n] stop1] s1] & E & H). simplify_eq. destruct (length t =? 0)%nat; eauto using visit_all_preserves, visit_hashed_preserves.
Qed.

Lemma VisitCache_preserves dc l q t s dc' ret s' : VisitCache XXH64 visit dc l q t s = Ok (dc', ret, s') -> P s -> P s'.
Proof using visit_keeps.
  unfold VisitCache. destruct (rs_cache_ dc) as [c|]; [|by intros [= <- <- <-]].
  intros (pinned & _ & ([] & _ & ([[c1 start1] s1] & E & H)%obind_Ok)%obind_Ok)%obind_Ok. simplify_eq. clear pinned.
  revert E. generalize (Datatypes.S (size (LRU.table_ c))) as fuel. generalize (AlignToBlockStart (block_size_ dc) q) as b.
  intros b fuel. revert c q b s. induction fuel as [|fuel IH]; intros c q b s; cbn [VisitCache_loop]; [done|].
  intros (key & _ & ([c2 [h|]] & _ & H)%obind_Ok)%obind_Ok Hs; [|by simplify_eq].
  apply obind_Ok in H as (entry & _ & ([[[e2 next] stop] s2] & E & (c3 & _ & H)%obind_Ok)%obind_Ok).
  apply VisitEntry_preserves in E; [|done]. destruct (_ || stop); [by simplify_eq|].
  apply obind_Ok in H as ([] & _ & H). by eapply IH.
Qed.
End Preserves.
