(* ===== verification/TopicManager.v ===== *)
(** * Topics and their subscribers

    Models of [TopicUUID] (src/util/topic_uuid.h, .cc), [CopilotSub]
    (src/controltower/tower.h) and [TopicManager]
    (src/controltower/topic.h, .cc), which keeps, for each topic of a log, the
    subscribers and the sequence number each of them expects next. *)

From S2P Require Import Prelude Coding CodingFacts.

#[local] Open Scope outcome_scope.

(** ** Topic IDs *)

(** A [TopicUUID] is the string it wraps; the hash kept beside it is a function
    of the string. *)
Abbreviation TopicUUID := (list byte).

Definition NewTopicUUID (namespace_id topic : slice) : TopicUUID := PutTopicID [] namespace_id topic.

(** [TopicUUID::GetTopicID] *)
Definition UUID_GetTopicID (uuid : TopicUUID) : outcome (slice * slice) :=
  match GetTopicID uuid with
  | (Some r, _) => Ok r
  | (None, _) => Abort "GetTopicID"
  end.

(** [operator==] with a pair of slices. *)
Definition UUID_is_pair (uuid : TopicUUID) (namespace_topic : slice * slice) : outcome bool :=
  r <~ UUID_GetTopicID uuid ;;
  Ok (bool_decide (snd r = snd namespace_topic) && bool_decide (fst r = fst namespace_topic)).

(** A topic of names below 4 GB is read back from its ID, so the ID determines it. *)
Lemma UUID_roundtrip ns topic : topic_ok (ns, topic) -> UUID_GetTopicID (NewTopicUUID ns topic) = Ok (ns, topic).
Proof.
  intros Hok. unfold UUID_GetTopicID, NewTopicUUID. change (PutTopicID [] ns topic) with (wire PutTopicPair (ns, topic)).
  rewrite <-(app_nil_r (wire _ _)). by rewrite (TopicPair_codec (ns, topic) [] Hok).
Qed.

Lemma NewTopicUUID_inj ns topic ns' topic' : topic_ok (ns, topic) -> topic_ok (ns', topic') ->
  NewTopicUUID ns topic = NewTopicUUID ns' topic' -> ns = ns' /\ topic = topic'.
Proof. intros H1 H2 E. apply UUID_roundtrip in H1, H2. rewrite E, H2 in H1. by simplify_eq. Qed.

Lemma UUID_is_pair_spec ns topic ns' topic' : topic_ok (ns, topic) ->
  UUID_is_pair (NewTopicUUID ns topic) (ns', topic') = Ok (bool_decide ((ns, topic) = (ns', topic'))).
Proof.
  intros Hok. unfold UUID_is_pair. rewrite UUID_roundtrip by done. cbn [obind fst snd]. f_equal.
  apply Bool.eq_true_iff_eq. rewrite andb_true_iff, !bool_decide_eq_true. naive_solver.
Qed.

(** ** Subscribers *)

Record CopilotSub := { stream_id : Z; sub_id : Z }.

#[export] Instance CopilotSub_eq_dec : EqDecision CopilotSub.
Proof. solve_decision. Defined.

Record TopicSubscription := { id_ : CopilotSub; seqno_ : Z }.

Definition SetSequenceNumber (seqno : Z) (sub : TopicSubscription) : TopicSubscription :=
  {| id_ := id_ sub; seqno_ := seqno |}.

Abbreviation TopicList := (list TopicSubscription).

Fixpoint UpdateSubscription (subs : TopicList) (id : CopilotSub) (seqno : Z) : TopicList * bool :=
  match subs with
  | [] => ([{| id_ := id; seqno_ := seqno |}], true)
  | sub :: subs =>
      if decide (id_ sub = id) then (SetSequenceNumber seqno sub :: subs, false)
      else let '(subs, b) := UpdateSubscription subs id seqno in (sub :: subs, b)
  end.

Fixpoint erase_subscription (subs : TopicList) (id : CopilotSub) : TopicList :=
  match subs with
  | [] => []
  | sub :: subs => if decide (id_ sub = id) then subs else sub :: erase_subscription subs id
  end.

Definition RemoveSubscription (subs : TopicList) (id : CopilotSub) : TopicList * bool :=
  let subs := erase_subscription subs id in
  (subs, match subs with [] => true | _ => false end).

(** ** The topic manager *)

Module TopicManager.
Abbreviation t := (gmap TopicUUID TopicList).

Definition AddSubscriber (m : t) (topic : TopicUUID) (start : Z) (subscriber : CopilotSub) : t * bool :=
  let '(subs, b) := UpdateSubscription (default [] (m !! topic)) subscriber start in
  (<[topic := subs]> m, b).

Definition RemoveSubscriber (m : t) (topic : TopicUUID) (subscriber : CopilotSub) : t * bool :=
  match m !! topic with
  | Some subs =>
      let '(subs, all_removed) := RemoveSubscription subs subscriber in
      (if all_removed then delete topic m else <[topic := subs]> m, all_removed)
  | None => (m, true)
  end.

(** Every visitor of the program advances the subscriptions it is called with
    and collects their IDs: the loop over the list, with that visitor. *)
Fixpoint visit_list (from to next : Z) (subs : TopicList) : TopicList * list CopilotSub :=
  match subs with
  | [] => ([], [])
  | sub :: subs =>
      let '(subs, ids) := visit_list from to next subs in
      if (from <=? seqno_ sub) && (seqno_ sub <=? to)
      then (SetSequenceNumber next sub :: subs, id_ sub :: ids)
      else (sub :: subs, ids)
  end.

Definition VisitSubscribers (m : t) (topic : TopicUUID) (from to next : Z) : t * list CopilotSub :=
  match m !! topic with
  | Some subs => let '(subs, ids) := visit_list from to next subs in (<[topic := subs]> m, ids)
  | None => (m, [])
  end.

(** The topics a visitor is called with; the order is unspecified. *)
Definition VisitTopics (m : t) : list TopicUUID := map fst (map_to_list m).

(** ** The subscriptions of a manager, as a map *)

Fixpoint sub_in (subs : TopicList) (id : CopilotSub) : option Z :=
  match subs with
  | [] => None
  | sub :: subs => if decide (id_ sub = id) then Some (seqno_ sub) else sub_in subs id
  end.

Definition sub_at (m : t) (topic : TopicUUID) (id : CopilotSub) : option Z :=
  subs ← m !! topic; sub_in subs id.

Definition list_wf (subs : TopicList) : Prop := subs <> [] /\ NoDup (map id_ subs).

(** A topic is listed only while it has subscribers, each of them once. *)
Definition wf (m : t) : Prop := forall topic subs, m !! topic = Some subs -> list_wf subs.

Lemma sub_in_None subs id : sub_in subs id = None <-> id ∉ map id_ subs.
Proof. induction subs as [|sub subs IH]; simpl; [set_solver|]. case_decide; [|rewrite IH]; set_solver. Qed.

Lemma UpdateSubscription_spec subs id seqno list' b : UpdateSubscription subs id seqno = (list', b) ->
  b = bool_decide (sub_in subs id = None) /\
  map id_ list' = (if b then map id_ subs ++ [id] else map id_ subs) /\
  (forall x, sub_in list' x = if decide (x = id) then Some seqno else sub_in subs x).
Proof.
  revert list' b. induction subs as [|sub subs IH]; intros list' b; simpl.
  { intros [= <- <-]. split_and!; try done. intros x. simpl. repeat case_decide; try done; congruence. }
  case_decide as Hd.
  - intros [= <- <-]. split_and!; try done. intros x. simpl. repeat case_decide; try done; congruence.
  - destruct (UpdateSubscription subs id seqno) as [l b0]. intros [= <- <-].
    destruct (IH l b0 eq_refl) as (Hb & Hm & Hx). split_and!; [done|simpl; rewrite Hm; by destruct b0|].
    intros x. simpl. rewrite Hx. repeat case_decide; try done; congruence.
Qed.

Lemma list_wf_update subs id seqno : NoDup (map id_ subs) -> list_wf (fst (UpdateSubscription subs id seqno)).
Proof.
  intros Hn. destruct (UpdateSubscription subs id seqno) as [l b] eqn:E.
  destruct (UpdateSubscription_spec _ _ _ _ _ E) as (Hb & Hm & _). cbn [fst]. split.
  - intros ->. cbn in Hm. destruct b; [by destruct (map id_ subs)|]. destruct subs; [|done]. simpl in E. congruence.
  - rewrite Hm. destruct b; [|done]. apply NoDup_app. split_and!; [done| |apply NoDup_singleton].
    symmetry in Hb. apply bool_decide_eq_true in Hb. apply sub_in_None in Hb. set_solver.
Qed.

Lemma erase_subscription_ids subs id : NoDup (map id_ subs) ->
  map id_ (erase_subscription subs id) = filter (fun x => x <> id) (map id_ subs).
Proof.
  induction subs as [|sub subs IH]; [done|]. cbn [map erase_subscription]. rewrite NoDup_cons. intros [Hn Hl].
  rewrite filter_cons. case_decide as Hd.
  - rewrite decide_False by tauto. symmetry. apply filter_all. intros x Hx ->. by rewrite Hd in Hn.
  - rewrite decide_True by done. cbn [map]. by rewrite IH.
Qed.

Lemma sub_in_erase subs id x : NoDup (map id_ subs) ->
  sub_in (erase_subscription subs id) x = if decide (x = id) then None else sub_in subs x.
Proof.
  induction subs as [|sub subs IH]; [by case_decide|]. cbn [map erase_subscription sub_in]. rewrite NoDup_cons. intros [Hn Hl].
  destruct (decide (id_ sub = id)) as [<-|Hd].
  - case_decide as Hx.
    + rewrite Hx. by apply sub_in_None.
    + rewrite decide_False by congruence. done.
  - cbn [sub_in]. rewrite IH by done. repeat case_decide; try done; congruence.
Qed.

Lemma visit_list_spec from to next subs list' ids : visit_list from to next subs = (list', ids) ->
  map id_ list' = map id_ subs /\
  (NoDup (map id_ subs) -> NoDup ids /\
   forall x, (x ∈ ids <-> exists s, sub_in subs x = Some s /\ from <= s <= to) /\
     sub_in list' x = (s ← sub_in subs x; Some (if (from <=? s) && (s <=? to) then next else s))).
Proof.
  revert list' ids. induction subs as [|sub subs IH]; intros list' ids; cbn [visit_list].
  { intros [= <- <-]. split; [done|]. intros _. split; [constructor|]. intros x. split; [|done]. set_solver. }
  destruct (visit_list from to next subs) as [l ids0]. destruct (IH l ids0 eq_refl) as [Hm Hs].
  intros E. split; [case_match; simplify_eq; cbn [map]; by rewrite Hm|]. cbn [map]. rewrite NoDup_cons. intros [Hn Hl].
  destruct (Hs Hl) as [Hids Hx].
  assert (id_ sub ∉ ids0) as Hni.
  { intros Hi. apply Hx in Hi as (s & Hsi & _). apply Hn. destruct (decide (id_ sub ∈ map id_ subs)); [done|].
    apply sub_in_None in Hn. congruence. }
  split; [case_match; simplify_eq; [by apply NoDup_cons|done]|]. intros x. destruct (Hx x) as [Hx1 Hx2].
  cbn [sub_in]. destruct ((from <=? seqno_ sub) && (seqno_ sub <=? to)) eqn:Ec; simplify_eq; cbn [sub_in id_ SetSequenceNumber seqno_].
  - rewrite elem_of_cons, Hx1. destruct (decide (id_ sub = x)) as [<-|Hne].
    + split; [|cbn; by rewrite Ec]. split; [|by left]. intros _. exists (seqno_ sub). split; [done|]. lia.
    + split; [|done]. split; [intros [?|?]; [congruence|done]|by right].
  - rewrite Hx1. destruct (decide (id_ sub = x)) as [<-|Hne]; [|by split].
    split; [|cbn; by rewrite Ec]. apply sub_in_None in Hn. rewrite Hn. split; [by intros (? & ? & _)|].
    intros (s & [= <-] & ?). lia.
Qed.

Lemma sub_at_None m topic id : m !! topic = None -> sub_at m topic id = None.
Proof. intros Hm. unfold sub_at. by rewrite Hm. Qed.

Lemma AddSubscriber_spec m topic start id : wf m ->
  let '(m', b) := AddSubscriber m topic start id in
  wf m' /\ b = bool_decide (sub_at m topic id = None) /\
  (forall t x, sub_at m' t x = if decide (t = topic /\ x = id) then Some start else sub_at m t x) /\
  (forall t, is_Some (m' !! t) <-> t = topic \/ is_Some (m !! t)).
Proof.
  intros Hwf. unfold AddSubscriber. destruct (UpdateSubscription _ id start) as [l b] eqn:E.
  pose proof (UpdateSubscription_spec _ _ _ _ _ E) as (Hb & _ & Hx).
  assert (forall x, sub_in (default [] (m !! topic)) x = sub_at m topic x) as Hdef.
  { intros x. unfold sub_at. by destruct (m !! topic). }
  split_and!.
  - intros t subs. rewrite lookup_insert_Some. intros [[<- <-]|[Hne Hl]]; [|by apply (Hwf t)].
    change l with (fst (l, b)). rewrite <-E. apply list_wf_update. destruct (m !! topic) eqn:Em; [|constructor].
    by apply (Hwf topic).
  - by rewrite Hb, Hdef.
  - intros t x. unfold sub_at at 1. destruct (decide (t = topic)) as [->|Hne].
    + rewrite lookup_insert_eq. cbn. rewrite Hx, Hdef. repeat case_decide; naive_solver.
    + rewrite lookup_insert_ne by done. rewrite decide_False by tauto. done.
  - intros t. rewrite lookup_insert_is_Some. destruct (decide (topic = t)); naive_solver.
Qed.

Lemma RemoveSubscriber_spec m topic id : wf m ->
  let '(m', all_removed) := RemoveSubscriber m topic id in
  wf m' /\ all_removed = bool_decide (m' !! topic = None) /\
  (forall t x, sub_at m' t x = if decide (t = topic /\ x = id) then None else sub_at m t x) /\
  (forall t, t <> topic -> m' !! t = m !! t).
Proof.
  intros Hwf. unfold RemoveSubscriber. destruct (m !! topic) as [l|] eqn:Hl.
  2: { split_and!; [done|by rewrite bool_decide_eq_true_2| |done].
       intros t x. case_decide as Hd; [|done]. destruct Hd as [-> _]. by apply sub_at_None. }
  destruct (Hwf topic l Hl) as [_ Hnd]. unfold RemoveSubscription.
  pose proof (sub_in_erase l id) as Hx. pose proof (erase_subscription_ids l id Hnd) as Hids.
  destruct (erase_subscription l id) as [|s l'] eqn:E.
  - split_and!.
    + intros t subs. rewrite lookup_delete_Some. intros [_ ?]. by apply (Hwf t).
    + by rewrite lookup_delete_eq.
    + intros t x. unfold sub_at. destruct (decide (t = topic)) as [->|Hne].
      * rewrite lookup_delete_eq, Hl. cbn. specialize (Hx x Hnd). cbn in Hx. repeat case_decide; naive_solver.
      * rewrite lookup_delete_ne by done. rewrite decide_False by tauto. done.
    + intros t Hne. by rewrite lookup_delete_ne.
  - split_and!.
    + intros t subs. rewrite lookup_insert_Some. intros [[<- <-]|[Hne ?]]; [|by apply (Hwf t)].
      split; [done|]. rewrite Hids. by apply NoDup_filter.
    + by rewrite lookup_insert_eq.
    + intros t x. unfold sub_at. destruct (decide (t = topic)) as [->|Hne].
      * rewrite lookup_insert_eq, Hl. cbn [mbind option_bind]. rewrite Hx by done. repeat case_decide; naive_solver.
      * rewrite lookup_insert_ne by done. rewrite decide_False by tauto. done.
    + intros t Hne. by rewrite lookup_insert_ne.
Qed.

Lemma VisitSubscribers_spec m topic from to next : wf m ->
  let '(m', ids) := VisitSubscribers m topic from to next in
  wf m' /\ NoDup ids /\ dom m' = dom m /\
  (forall x, x ∈ ids <-> exists s, sub_at m topic x = Some s /\ from <= s <= to) /\
  (forall t x, sub_at m' t x =
    s ← sub_at m t x; Some (if bool_decide (t = topic) && (from <=? s) && (s <=? to) then next else s)).
Proof.
  intros Hwf. unfold VisitSubscribers. destruct (m !! topic) as [l|] eqn:Hl.
  2: { split_and!; [done|constructor|done| |].
       - intros x. rewrite sub_at_None by done. set_solver.
       - intros t x. destruct (decide (t = topic)) as [->|Hne]; [by rewrite sub_at_None|].
         rewrite bool_decide_eq_false_2 by done. by destruct (sub_at m t x). }
  destruct (Hwf topic l Hl) as [Hne Hnd]. destruct (visit_list from to next l) as [l' ids] eqn:E.
  destruct (visit_list_spec _ _ _ _ _ _ E) as [Hm Hs]. destruct (Hs Hnd) as [Hids Hx]. split_and!; try done.
  - intros t subs. rewrite lookup_insert_Some. intros [[<- <-]|[? ?]]; [|by apply (Hwf t)].
    split; [|by rewrite Hm]. intros ->. simpl in Hm. by destruct l.
  - rewrite dom_insert_L. apply subseteq_union_1_L, singleton_subseteq_l, elem_of_dom. by eexists.
  - intros x. unfold sub_at. rewrite Hl. apply Hx.
  - intros t x. unfold sub_at. destruct (decide (t = topic)) as [->|Hne'].
    + rewrite lookup_insert_eq, Hl, bool_decide_eq_true_2 by done. apply Hx.
    + rewrite lookup_insert_ne, bool_decide_eq_false_2 by done. cbn. destruct (m !! t); [|done]. cbn. by destruct (sub_in _ x).
Qed.

Lemma elem_of_VisitTopics m topic : topic ∈ VisitTopics m <-> is_Some (m !! topic).
Proof.
  unfold VisitTopics. rewrite list_elem_of_fmap. split.
  - intros ([t l] & -> & Hin). apply elem_of_map_to_list in Hin. by eexists.
  - intros [l Hl]. exists (topic, l). split; [done|]. by apply elem_of_map_to_list.
Qed.

Lemma VisitTopics_NoDup m : NoDup (VisitTopics m).
Proof. apply NoDup_fst_map_to_list. Qed.
End TopicManager.

(** ** Properties *)

(** The topic manager is a map from topics and subscribers to the sequence
    number expected next, in which a topic is listed exactly while it has
    subscribers.  [AddSubscriber] sets one entry and says whether it is new,
    [RemoveSubscriber] removes one and says whether the topic is gone, and a
    visit of a range advances exactly the subscribers in the range. *)
Theorem TopicManager_spec m topic id start from to next : TopicManager.wf m ->
  (let '(m', b) := TopicManager.AddSubscriber m topic start id in
   TopicManager.wf m' /\ b = bool_decide (TopicManager.sub_at m topic id = None) /\
   forall t x, TopicManager.sub_at m' t x =
     if decide (t = topic /\ x = id) then Some start else TopicManager.sub_at m t x) /\
  (let '(m', all_removed) := TopicManager.RemoveSubscriber m topic id in
   TopicManager.wf m' /\ all_removed = bool_decide (m' !! topic = None) /\
   forall t x, TopicManager.sub_at m' t x =
     if decide (t = topic /\ x = id) then None else TopicManager.sub_at m t x) /\
  (let '(m', ids) := TopicManager.VisitSubscribers m topic from to next in
   TopicManager.wf m' /\ NoDup ids /\
   (forall x, x ∈ ids <-> exists s, TopicManager.sub_at m topic x = Some s /\ from <= s <= to) /\
   forall t x, TopicManager.sub_at m' t x =
     s ← TopicManager.sub_at m t x;
     Some (if bool_decide (t = topic) && (from <=? s) && (s <=? to) then next else s)).
Proof.
  intros Hwf. pose proof (TopicManager.AddSubscriber_spec m topic start id Hwf) as HA.
  pose proof (TopicManager.RemoveSubscriber_spec m topic id Hwf) as HR.
  pose proof (TopicManager.VisitSubscribers_spec m topic from to next Hwf) as HV.
  destruct (TopicManager.AddSubscriber m topic start id), (TopicManager.RemoveSubscriber m topic id),
    (TopicManager.VisitSubscribers m topic from to next). naive_solver.
Qed.

Lemma TopicManager_spec_witness :
  let m := fst (TopicManager.AddSubscriber ∅ [Byte.x01] 7 {| stream_id := 1; sub_id := 2 |}) in
  TopicManager.wf m /\ snd (TopicManager.VisitSubscribers m [Byte.x01] 5 9 10) = [{| stream_id := 1; sub_id := 2 |}].
Proof.
  assert (TopicManager.wf ∅) as Hwf by (intros t l Hl; by rewrite lookup_empty in Hl).
  destruct (TopicManager_spec ∅ [Byte.x01] {| stream_id := 1; sub_id := 2 |} 7 5 9 10 Hwf) as [HA _].
  split; [exact (proj1 HA)|]. vm_compute. reflexivity.
Defined.
