(* ===== verification/LogReader.v ===== *)
(** * Log readers

    Model of [LogReader] (src/controltower/topic_tailer.cc, lines 25 to 715):
    for each log it reads, the position of the reader and, for each subscribed
    topic, the next sequence number at which a record of the topic may come.

    The topics of a log are a [LinkedMap], used here through the ordered
    association lists it implements ([LinkedBase_refines] in Containers.v).
    Calls to the log tailer are returned as a list; the logging is left out. *)

From S2P Require Import Prelude Containers TopicManager.

#[local] Open Scope outcome_scope.

Definition kSubscriptionCostRewind : Z := 2 ^ 64 - 1.
Definition kSubscriptionCostStart : Z := 1000.

Record LogState := {
  topics : list (TopicUUID * Z);
  last_read : Z;
  is_reading : bool
}.

(** [tailer_ == nullptr] is [IsVirtual]. *)
Record LogReader := {
  IsVirtual : bool;
  reader_id_ : Z;
  log_state_ : gmap Z LogState;
  max_subscription_lag_ : Z
}.

Inductive TailerCall :=
| TailerStartReading (log_id seqno reader_id : Z)
| TailerStopReading (log_id reader_id : Z).

Definition NewLogReader (virtual : bool) (reader_id max_subscription_lag : Z) : LogReader :=
  {| IsVirtual := virtual; reader_id_ := reader_id; log_state_ := ∅; max_subscription_lag_ := max_subscription_lag |}.

Definition set_log_state (m : gmap Z LogState) (r : LogReader) : LogReader :=
  {| IsVirtual := IsVirtual r; reader_id_ := reader_id_ r; log_state_ := m;
     max_subscription_lag_ := max_subscription_lag_ r |}.

Definition set_topics (l : list (TopicUUID * Z)) (st : LogState) : LogState :=
  {| topics := l; last_read := last_read st; is_reading := is_reading st |}.

Definition set_last_read (q : Z) (st : LogState) : LogState :=
  {| topics := topics st; last_read := q; is_reading := is_reading st |}.

Definition set_is_reading (b : bool) (st : LogState) : LogState :=
  {| topics := topics st; last_read := last_read st; is_reading := b |}.

Definition IsLogOpen (r : LogReader) (log_id : Z) : bool := bool_decide (is_Some (log_state_ r !! log_id)).

Definition GetNextSequenceNumber (r : LogReader) (log_id : Z) : Z :=
  match log_state_ r !! log_id with
  | Some st => u64 (last_read st + 1)
  | None => 0
  end.

Definition StartLogReader (r : LogReader) (log_id : Z) (st : LogState) (seqno : Z) : LogState * list TailerCall :=
  if negb (last_read st =? u64 (seqno - 1)) || negb (is_reading st)
  then (set_is_reading true (set_last_read (u64 (seqno - 1)) st),
        if IsVirtual r then [] else [TailerStartReading log_id seqno (reader_id_ r)])
  else (st, []).

Definition StopLogReader (r : LogReader) (log_id : Z) (st : LogState) : LogState * list TailerCall :=
  if is_reading st
  then (set_is_reading false st, if IsVirtual r then [] else [TailerStopReading log_id (reader_id_ r)])
  else (st, []).

Definition RestartLogReader (r : LogReader) (log_id : Z) (st : LogState) : LogState * list TailerCall :=
  (set_is_reading true st,
   if IsVirtual r then [] else [TailerStartReading log_id (u64 (last_read st + 1)) (reader_id_ r)]).

(** The result is the previous sequence number of the topic, 0 for a topic the
    reader does not follow. *)
Definition ProcessRecord (r : LogReader) (log_id seqno : Z) (topic : TopicUUID) : outcome (LogReader * Z) :=
  match log_state_ r !! log_id with
  | None => Abort "log_it != log_state_.end()"
  | Some st =>
      let st := set_last_read seqno st in
      match lm_find topic (topics st) with
      | Some next_seqno =>
          let l := lm_move_to_back topic (lm_set topic (u64 (seqno + 1)) (topics st)) in
          Ok (set_log_state (<[log_id := set_topics l st]> (log_state_ r)) r, next_seqno)
      | None => Ok (set_log_state (<[log_id := st]> (log_state_ r)) r, 0)
      end
  end.

Definition ProcessGap (r : LogReader) (log_id : Z) (topic : TopicUUID) (from to : Z) : outcome (LogReader * Z) :=
  match log_state_ r !! log_id with
  | None => Abort "false"
  | Some st =>
      assert_that (from =? u64 (last_read st + 1)) "from == log_state.last_read + 1" ;;;
      match lm_find topic (topics st) with
      | Some next_seqno =>
          assert_that (negb (next_seqno =? 0)) "*prev_seqno != 0" ;;;
          let l := lm_move_to_back topic (lm_set topic (u64 (to + 1)) (topics st)) in
          Ok (set_log_state (<[log_id := set_topics l st]> (log_state_ r)) r, next_seqno)
      | None => Ok (r, 0)
      end
  end.

Definition FlushHistory (r : LogReader) (log_id seqno : Z) : LogReader :=
  match log_state_ r !! log_id with
  | Some st => set_log_state (<[log_id := set_last_read (u64 (seqno - 1)) st]> (log_state_ r)) r
  | None => r
  end.

Definition ProcessBenignGap (r : LogReader) (log_id from to : Z) : LogReader :=
  match log_state_ r !! log_id with
  | Some st => set_log_state (<[log_id := set_last_read to st]> (log_state_ r)) r
  | None => r
  end.

(** The loop over the topics at the front of the list.  Every iteration moves a
    topic to the back with a sequence number past the bump, so one more
    iteration than there are topics is enough. *)
Fixpoint Bump_loop {S} (on_bump : TopicUUID -> Z -> S -> outcome S) (lag seqno : Z) (fuel : nat)
    (l : list (TopicUUID * Z)) (s : S) : outcome (list (TopicUUID * Z) * S) :=
  match l with
  | [] => Ok (l, s)
  | (topic, tseqno) :: _ =>
      if u64 (tseqno + lag) <? seqno then
        match fuel with
        | O => Abort "fuel"
        | Datatypes.S fuel =>
            s <~ on_bump topic tseqno s ;;
            Bump_loop on_bump lag seqno fuel (lm_set topic (u64 (seqno + 1)) (lm_move_to_back topic l)) s
        end
      else Ok (l, s)
  end.

Definition BumpLaggingSubscriptions {S} (on_bump : TopicUUID -> Z -> S -> outcome S) (r : LogReader)
    (log_id seqno : Z) (s : S) : outcome (LogReader * S) :=
  match log_state_ r !! log_id with
  | None => Ok (r, s)
  | Some st =>
      x <~ Bump_loop on_bump (max_subscription_lag_ r) seqno (Datatypes.S (length (topics st))) (topics st) s ;;
      let '(l, s) := x in
      Ok (set_log_state (<[log_id := set_topics l st]> (log_state_ r)) r, s)
  end.

Definition StartReading (r : LogReader) (topic : TopicUUID) (log_id seqno : Z) : LogReader * list TailerCall :=
  let first_open := negb (IsLogOpen r log_id) in
  let st := default {| topics := []; last_read := u64 (seqno - 1); is_reading := false |} (log_state_ r !! log_id) in
  let '(l, reseek) :=
    match lm_find topic (topics st) with
    | None => (fst (lm_emplace_front topic seqno (topics st)), true)
    | Some next_seqno =>
        (lm_move_to_front topic (lm_set topic (Z.min next_seqno seqno) (topics st)), seqno <? next_seqno)
    end in
  let reseek := if negb first_open && reseek then seqno <=? last_read st else reseek in
  let st := set_topics l st in
  let '(st, calls) := if reseek : bool then StartLogReader r log_id st seqno else (st, []) in
  (set_log_state (<[log_id := st]> (log_state_ r)) r, calls).

Definition StopReading (r : LogReader) (topic : TopicUUID) (log_id : Z) : LogReader * list TailerCall :=
  match log_state_ r !! log_id with
  | None => (r, [])
  | Some st =>
      match lm_find topic (topics st) with
      | None => (r, [])
      | Some _ =>
          let st := set_topics (lm_erase topic (topics st)) st in
          match topics st with
          | [] => (set_log_state (delete log_id (log_state_ r)) r, snd (StopLogReader r log_id st))
          | _ => (set_log_state (<[log_id := st]> (log_state_ r)) r, [])
          end
      end
  end.

Definition PauseReading (r : LogReader) (log_id : Z) : outcome (LogReader * list TailerCall) :=
  assert_that (negb (IsVirtual r)) "!IsVirtual()" ;;;
  match log_state_ r !! log_id with
  | None => Abort "log_it != log_state_.end()"
  | Some st =>
      let '(st, calls) := StopLogReader r log_id st in
      Ok (set_log_state (<[log_id := st]> (log_state_ r)) r, calls)
  end.

Definition RestartReading (r : LogReader) (log_id : Z) : outcome (LogReader * list TailerCall) :=
  assert_that (negb (IsVirtual r)) "!IsVirtual()" ;;;
  match log_state_ r !! log_id with
  | None => Abort "log_it != log_state_.end()"
  | Some st =>
      let '(st, calls) := RestartLogReader r log_id st in
      Ok (set_log_state (<[log_id := st]> (log_state_ r)) r, calls)
  end.

Definition SubscriptionCost (r : LogReader) (topic : TopicUUID) (log_id seqno : Z) : Z :=
  match log_state_ r !! log_id with
  | Some st =>
      if last_read st <? seqno then u64 (seqno - last_read st)
      else match lm_find topic (topics st) with
           | None => kSubscriptionCostRewind
           | Some next_seqno => if seqno <? next_seqno then kSubscriptionCostRewind else 0
           end
  | None => kSubscriptionCostStart
  end.

Definition CanMergeInto (r reader : LogReader) (log_id : Z) : outcome bool :=
  assert_that (negb (IsVirtual r)) "!IsVirtual()" ;;;
  assert_that (negb (IsVirtual reader)) "!reader->IsVirtual()" ;;;
  match log_state_ r !! log_id, log_state_ reader !! log_id with
  | Some src, Some dest => Ok (last_read dest =? last_read src)
  | _, _ => Ok false
  end.

(** Merging the topics: the smaller sequence number for a topic of both. *)
Definition merge_topics (dest src : list (TopicUUID * Z)) : list (TopicUUID * Z) :=
  fold_left (fun dest e =>
    match lm_find (fst e) dest with
    | Some next_seqno => lm_set (fst e) (Z.min next_seqno (snd e)) dest
    | None => fst (lm_emplace_back (fst e) (snd e) dest)
    end) src dest.

(** Returns this reader and the destination. *)
Definition MergeInto (r reader : LogReader) (log_id : Z) : outcome (LogReader * LogReader * list TailerCall) :=
  can <~ CanMergeInto r reader log_id ;;
  assert_that can "CanMergeInto(reader, log_id)" ;;;
  match log_state_ r !! log_id, log_state_ reader !! log_id with
  | Some src, Some dest =>
      assert_that (last_read dest =? last_read src) "dest.last_read == src.last_read" ;;;
      Ok (set_log_state (delete log_id (log_state_ r)) r,
          set_log_state (<[log_id := set_topics (merge_topics (topics dest) (topics src)) dest]> (log_state_ reader)) reader,
          [TailerStopReading log_id (reader_id_ r)])
  | _, _ => Abort "log_it != log_state_.end()"
  end.

Definition ComputeStartSeqno (st : LogState) : outcome Z :=
  assert_that (match topics st with [] => false | _ => true end) "!topics.empty()" ;;;
  Ok (fold_left (fun m e => Z.min m (snd e)) (topics st) (2 ^ 64 - 1)).

(** Returns this reader and the virtual one; [start_ok] is the status the
    tailer returns for its [StartReading]. *)
Definition StealLogSubscriptions (start_ok : bool) (r reader : LogReader) (log_id : Z)
    : outcome (LogReader * LogReader * list TailerCall) :=
  assert_that (IsVirtual reader) "reader->IsVirtual()" ;;;
  assert_that (IsLogOpen reader log_id) "reader->IsLogOpen(log_id)" ;;;
  assert_that (negb (IsVirtual r)) "!IsVirtual()" ;;;
  assert_that (negb (IsLogOpen r log_id)) "!IsLogOpen(log_id)" ;;;
  match log_state_ reader !! log_id with
  | None => Abort "log_it != reader->log_state_.end()"
  | Some st =>
      start_seqno <~ ComputeStartSeqno st ;;
      let calls := [TailerStartReading log_id start_seqno (reader_id_ r)] in
      if start_ok then
        assert_that (match topics st with [] => false | _ => true end) "!log_state.topics.empty()" ;;;
        Ok (set_log_state (<[log_id := st]> (log_state_ r)) r,
            set_log_state (delete log_id (log_state_ reader)) reader, calls)
      else Ok (r, reader, calls)
  end.
