(* ===== verification/LogReaderFacts.v ===== *)
(** * Facts about log readers

    What each operation of [LogReader] does to the two things a reader knows:
    its position in a log, and the next sequence number of each topic. *)

From S2P Require Import Prelude Containers TopicManager LogReader.

(** ** The view of a reader *)

(** The last record read, and the next sequence number of a topic. *)
Definition pos (r : LogReader) (l : Z) : option Z := last_read <$> log_state_ r !! l.
Definition next (r : LogReader) (l : Z) (t : TopicUUID) : option Z := st ← log_state_ r !! l; lm_find t (topics st).

Record state_wf (st : LogState) : Prop := {
  w_topics : lm_wf (topics st);
  w_nonempty : topics st <> [];
  w_last : fits 64 (last_read st);
  w_next : forall t n, lm_find t (topics st) = Some n -> 0 < n < 2 ^ 64
}.

Definition reader_wf (r : LogReader) : Prop := forall l st, log_state_ r !! l = Some st -> state_wf st.

Definition same_reader (r r' : LogReader) : Prop :=
  IsVirtual r' = IsVirtual r /\ reader_id_ r' = reader_id_ r /\ max_subscription_lag_ r' = max_subscription_lag_ r.

Lemma same_reader_refl r : same_reader r r.
Proof. done. Qed.

Lemma same_reader_trans r1 r2 r3 : same_reader r1 r2 -> same_reader r2 r3 -> same_reader r1 r3.
Proof. unfold same_reader. naive_solver congruence. Qed.

Lemma same_reader_set m r : same_reader r (set_log_state m r).
Proof. done. Qed.

#[export] Hint Resolve same_reader_refl same_reader_set : rs.

Lemma reader_wf_insert r l st : reader_wf r -> state_wf st -> reader_wf (set_log_state (<[l := st]> (log_state_ r)) r).
Proof. intros Hr Hst l' st'. simpl. rewrite lookup_insert_Some. intros [[_ <-]|[_ ?]]; [done|by apply (Hr l')]. Qed.

Lemma reader_wf_delete r l : reader_wf r -> reader_wf (set_log_state (delete l (log_state_ r)) r).
Proof. intros Hr l' st'. simpl. rewrite lookup_delete_Some. intros [_ ?]. by apply (Hr l'). Qed.

Lemma reader_wf_new v i lag : reader_wf (NewLogReader v i lag).
Proof. intros l st Hl. simpl in Hl. by rewrite lookup_empty in Hl. Qed.

Lemma pos_insert r l st l' : pos (set_log_state (<[l := st]> (log_state_ r)) r) l' =
  if decide (l' = l) then Some (last_read st) else pos r l'.
Proof.
  unfold pos. simpl. case_decide as Hd; [subst; by rewrite lookup_insert_eq|by rewrite lookup_insert_ne].
Qed.

Lemma next_insert r l st l' t : next (set_log_state (<[l := st]> (log_state_ r)) r) l' t =
  if decide (l' = l) then lm_find t (topics st) else next r l' t.
Proof.
  unfold next. simpl. case_decide as Hd; [subst; by rewrite lookup_insert_eq|by rewrite lookup_insert_ne].
Qed.

Lemma pos_delete r l l' : pos (set_log_state (delete l (log_state_ r)) r) l' =
  if decide (l' = l) then None else pos r l'.
Proof. unfold pos. simpl. case_decide as Hd; [subst; by rewrite lookup_delete_eq|by rewrite lookup_delete_ne]. Qed.

Lemma next_delete r l l' t : next (set_log_state (delete l (log_state_ r)) r) l' t =
  if decide (l' = l) then None else next r l' t.
Proof. unfold next. simpl. case_decide as Hd; [subst; by rewrite lookup_delete_eq|by rewrite lookup_delete_ne]. Qed.

Lemma next_pos r l t n : next r l t = Some n -> is_Some (pos r l).
Proof. unfold next, pos. destruct (log_state_ r !! l); [by eexists|done]. Qed.

Lemma next_bounds r l t n : reader_wf r -> next r l t = Some n -> 0 < n < 2 ^ 64.
Proof.
  intros Hr. unfold next. destruct (log_state_ r !! l) as [st|] eqn:E; [|done]. intros Hn. by apply (w_next st (Hr l st E) t).
Qed.

Lemma pos_bounds r l q : reader_wf r -> pos r l = Some q -> fits 64 q.
Proof.
  intros Hr. unfold pos. destruct (log_state_ r !! l) as [st|] eqn:E; [|done]. intros [= <-]. apply (Hr l st E).
Qed.

Lemma IsLogOpen_pos r l : IsLogOpen r l = bool_decide (is_Some (pos r l)).
Proof. unfold IsLogOpen, pos. apply bool_decide_ext. by rewrite fmap_is_Some. Qed.

Lemma GetNextSequenceNumber_pos r l : GetNextSequenceNumber r l = match pos r l with Some q => u64 (q + 1) | None => 0 end.
Proof. unfold GetNextSequenceNumber, pos. by destruct (log_state_ r !! l). Qed.

(** ** Records and gaps *)

Lemma lm_touch (t : TopicUUID) (n : Z) l : lm_wf l -> is_Some (lm_find t l) ->
  lm_wf (lm_move_to_back t (lm_set t n l)) /\ lm_move_to_back t (lm_set t n l) <> [] /\
  (forall t', lm_find t' (lm_move_to_back t (lm_set t n l)) = if decide (t' = t) then Some n else lm_find t' l).
Proof.
  intros Hl [x Hx]. assert (forall t', lm_find t' (lm_move_to_back t (lm_set t n l)) =
    if decide (t' = t) then Some n else lm_find t' l) as Hf.
  { intros t'. rewrite lm_find_move_back, lm_find_set. case_decide as Hd; [|done]. subst. by rewrite Hx. }
  split_and!; [by auto with rs| |done]. intros E. specialize (Hf t). rewrite E, decide_True in Hf; done.
Qed.

Lemma ProcessRecord_spec r l q t : reader_wf r -> is_Some (pos r l) -> 0 <= q -> q + 1 < 2 ^ 64 ->
  exists r', ProcessRecord r l q t = Ok (r', default 0 (next r l t)) /\ reader_wf r' /\ same_reader r r' /\
    (forall l', pos r' l' = if decide (l' = l) then Some q else pos r l') /\
    (forall l' t', next r' l' t' =
      if decide (l' = l /\ t' = t) then const (q + 1) <$> next r l t else next r l' t').
Proof.
  intros Hr [p Hp] Hq0 Hq1. unfold ProcessRecord. unfold pos in Hp.
  destruct (log_state_ r !! l) as [st|] eqn:El; [|done]. pose proof (Hr l st El) as Hst.
  assert (next r l t = lm_find t (topics st)) as -> by (unfold next; by rewrite El).
  cbn [topics set_last_read]. destruct (lm_find t (topics st)) as [n|] eqn:En.
  - destruct (lm_touch t (u64 (q + 1)) (topics st)) as (Hwf & Hne & Hf); [apply Hst|by eexists|].
    rewrite wrap_small in * by (unfold fits; lia).
    eexists. split; [done|]. split_and!; [|done| |].
    + apply reader_wf_insert; [done|]. split; simpl; try done; [unfold fits; lia|].
      intros t' n'. rewrite Hf. case_decide; [intros [= <-]; lia|apply Hst].
    + intros l'. rewrite pos_insert. done.
    + intros l' t'. rewrite next_insert. cbn [topics set_topics]. destruct (decide (l' = l)) as [->|].
      * rewrite Hf. repeat case_decide; try naive_solver. unfold next. by rewrite El.
      * rewrite decide_False by tauto. done.
  - eexists. split; [done|]. split_and!; [|done| |].
    + apply reader_wf_insert; [done|]. destruct Hst. split; simpl; try done. unfold fits; lia.
    + intros l'. by rewrite pos_insert.
    + intros l' t'. rewrite next_insert. cbn [topics set_last_read]. destruct (decide (l' = l)) as [->|].
      * case_decide as Hd; [by destruct Hd as [_ ->]|]. unfold next. by rewrite El.
      * by rewrite decide_False by tauto.
Qed.

Lemma ProcessGap_spec r l t from to p : reader_wf r -> pos r l = Some p -> from = u64 (p + 1) ->
  0 <= to -> to + 1 < 2 ^ 64 ->
  exists r', ProcessGap r l t from to = Ok (r', default 0 (next r l t)) /\ reader_wf r' /\ same_reader r r' /\
    (forall l', pos r' l' = pos r l') /\
    (forall l' t', next r' l' t' =
      if decide (l' = l /\ t' = t) then const (to + 1) <$> next r l t else next r l' t').
Proof.
  intros Hr Hp -> Ht0 Ht1. unfold ProcessGap. unfold pos in Hp.
  destruct (log_state_ r !! l) as [st|] eqn:El; [|done]. pose proof (Hr l st El) as Hst. injection Hp as <-.
  assert (next r l t = lm_find t (topics st)) as -> by (unfold next; by rewrite El).
  rewrite Z.eqb_refl. cbn [assert_that obind]. destruct (lm_find t (topics st)) as [n|] eqn:En.
  - pose proof (w_next st Hst t n En). rewrite (proj2 (Z.eqb_neq n 0)) by lia. cbn [negb assert_that obind].
    destruct (lm_touch t (u64 (to + 1)) (topics st)) as (Hwf & Hne & Hf); [apply Hst|by eexists|].
    rewrite wrap_small in * by (unfold fits; lia).
    eexists. split; [done|]. split_and!; [|done| |].
    + apply reader_wf_insert; [done|]. split; simpl; try done; [apply Hst|].
      intros t' n'. rewrite Hf. case_decide; [intros [= <-]; lia|apply Hst].
    + intros l'. rewrite pos_insert. case_decide as Hd; [|done]. subst. unfold pos. by rewrite El.
    + intros l' t'. rewrite next_insert. cbn [topics set_topics]. destruct (decide (l' = l)) as [->|].
      * rewrite Hf. repeat case_decide; try naive_solver. unfold next. by rewrite El.
      * by rewrite decide_False by tauto.
  - exists r. split_and!; try done. intros l' t'. case_decide as Hd; [|done]. destruct Hd as [-> ->].
    unfold next. by rewrite El.
Qed.

(** Moving a reader to a position. *)
Definition repositioned (l q : Z) (r r' : LogReader) : Prop :=
  reader_wf r' /\ same_reader r r' /\
  (forall l', pos r' l' = if decide (l' = l) then const q <$> pos r l else pos r l') /\
  (forall l' t', next r' l' t' = next r l' t').

Lemma reposition r l q st : reader_wf r -> fits 64 q -> log_state_ r !! l = Some st ->
  repositioned l q r (set_log_state (<[l := set_last_read q st]> (log_state_ r)) r).
Proof.
  intros Hr Hq El. split_and!; [|done| |].
  - apply reader_wf_insert; [done|]. destruct (Hr l st El). by split.
  - intros l'. rewrite pos_insert. case_decide; [|done]. unfold pos. by rewrite El.
  - intros l' t'. rewrite next_insert. case_decide as Hd; [|done]. subst. unfold next. by rewrite El.
Qed.

Lemma reposition_closed r l q : reader_wf r -> log_state_ r !! l = None -> repositioned l q r r.
Proof.
  intros Hr El. split_and!; try done. intros l'. case_decide as Hd; [|done]. subst. unfold pos. by rewrite El.
Qed.

Lemma FlushHistory_spec r l q : reader_wf r -> 0 <= q -> q + 1 < 2 ^ 64 -> repositioned l q r (FlushHistory r l (q + 1)).
Proof.
  intros Hr Hq0 Hq1. unfold FlushHistory. replace (q + 1 - 1) with q by lia. rewrite wrap_small by (unfold fits; lia).
  destruct (log_state_ r !! l) as [st|] eqn:El; [apply reposition; try done; unfold fits; lia|by apply reposition_closed].
Qed.

Lemma ProcessBenignGap_spec r l from to : reader_wf r -> fits 64 to -> repositioned l to r (ProcessBenignGap r l from to).
Proof.
  intros Hr Hto. unfold ProcessBenignGap.
  destruct (log_state_ r !! l) as [st|] eqn:El; [by apply reposition|by apply reposition_closed].
Qed.

(** Pausing and restarting change neither position nor topics. *)
Definition same_view (r r' : LogReader) : Prop :=
  reader_wf r' /\ same_reader r r' /\ (forall l, pos r' l = pos r l) /\ (forall l t, next r' l t = next r l t).

Lemma same_view_refl r : reader_wf r -> same_view r r.
Proof. done. Qed.

Lemma same_view_insert r l st b : reader_wf r -> log_state_ r !! l = Some st ->
  same_view r (set_log_state (<[l := set_is_reading b st]> (log_state_ r)) r).
Proof.
  intros Hr El. split_and!; [|done| |].
  - apply reader_wf_insert; [done|]. destruct (Hr l st El). by split.
  - intros l'. rewrite pos_insert. case_decide as Hd; [|done]. subst. unfold pos. by rewrite El.
  - intros l' t'. rewrite next_insert. case_decide as Hd; [|done]. subst. unfold next. by rewrite El.
Qed.

Lemma set_is_reading_same st : set_is_reading (is_reading st) st = st.
Proof. by destruct st. Qed.

Lemma PauseReading_spec r l : reader_wf r -> IsVirtual r = false -> is_Some (pos r l) ->
  exists r' calls, PauseReading r l = Ok (r', calls) /\ same_view r r'.
Proof.
  intros Hr Hv [q Hq]. unfold PauseReading. rewrite Hv. cbn [negb assert_that obind]. unfold pos in Hq.
  destruct (log_state_ r !! l) as [st|] eqn:El; [|done]. unfold StopLogReader.
  destruct (is_reading st) eqn:Er; eexists _, _; (split; [done|]); [by apply same_view_insert|].
  rewrite <-(set_is_reading_same st). by apply same_view_insert.
Qed.

Lemma RestartReading_spec r l : reader_wf r -> IsVirtual r = false -> is_Some (pos r l) ->
  exists r' calls, RestartReading r l = Ok (r', calls) /\ same_view r r'.
Proof.
  intros Hr Hv [q Hq]. unfold RestartReading. rewrite Hv. cbn [negb assert_that obind]. unfold pos in Hq.
  destruct (log_state_ r !! l) as [st|] eqn:El; [|done]. eexists _, _. split; [done|]. by apply same_view_insert.
Qed.

(** ** Subscribing and unsubscribing *)

(** Where a reader stands after it took a subscription at [q] on a topic. *)
Definition started_next (n : option Z) (q : Z) : Z := match n with Some n => Z.min n q | None => q end.

Definition started_pos (p n : option Z) (q : Z) : Z :=
  match p with
  | None => q - 1
  | Some p => if match n with Some n => q <? n | None => true end && (q <=? p) then q - 1 else p
  end.

Lemma StartLogReader_spec r l st q : 0 < q < 2 ^ 64 ->
  topics (fst (StartLogReader r l st q)) = topics st /\ last_read (fst (StartLogReader r l st q)) = q - 1.
Proof.
  intros Hq. unfold StartLogReader. rewrite wrap_small by (unfold fits; lia).
  destruct (Z.eqb_spec (last_read st) (q - 1)); [|done]. destruct (is_reading st); done.
Qed.

Lemma lm_start (t : TopicUUID) (q : Z) l : lm_wf l -> 0 < q < 2 ^ 64 ->
  (forall t' n, lm_find t' l = Some n -> 0 < n < 2 ^ 64) ->
  let l' := match lm_find t l with
            | None => fst (lm_emplace_front t q l)
            | Some n => lm_move_to_front t (lm_set t (Z.min n q) l)
            end in
  lm_wf l' /\ l' <> [] /\ (forall t' n, lm_find t' l' = Some n -> 0 < n < 2 ^ 64) /\
  (forall t', lm_find t' l' = if decide (t' = t) then Some (started_next (lm_find t l) q) else lm_find t' l).
Proof.
  intros Hl Hq Hb. cbv zeta.
  assert (forall t', lm_find t' (match lm_find t l with
            | None => fst (lm_emplace_front t q l)
            | Some n => lm_move_to_front t (lm_set t (Z.min n q) l) end) =
    if decide (t' = t) then Some (started_next (lm_find t l) q) else lm_find t' l) as Hf.
  { intros t'. destruct (lm_find t l) as [n|] eqn:En; cbn [started_next].
    - rewrite lm_find_move_front, lm_find_set. case_decide as Hd; [subst; by rewrite En|done].
    - unfold lm_emplace_front, lm_contains. rewrite En, bool_decide_eq_false_2 by (by intros [? ?]). simpl.
      repeat case_decide; try done; congruence. }
  split_and!; [| | |exact Hf].
  - destruct (lm_find t l); auto with rs.
  - intros E. specialize (Hf t). rewrite E, decide_True in Hf; done.
  - intros t' n. rewrite Hf. case_decide; [|apply Hb]. intros [= <-]. unfold started_next.
    destruct (lm_find t l) as [n|] eqn:En; [|done]. pose proof (Hb t n En). lia.
Qed.

Lemma StartReading_spec r t l q : reader_wf r -> 0 < q < 2 ^ 64 ->
  let r' := fst (StartReading r t l q) in
  reader_wf r' /\ same_reader r r' /\
  (forall l', pos r' l' = if decide (l' = l) then Some (started_pos (pos r l) (next r l t) q) else pos r l') /\
  (forall l' t', next r' l' t' =
    if decide (l' = l /\ t' = t) then Some (started_next (next r l t) q) else next r l' t').
Proof.
  intros Hr Hq. cbv zeta. unfold StartReading. rewrite IsLogOpen_pos.
  set (st := default _ (log_state_ r !! l)).
  assert (lm_wf (topics st) /\ fits 64 (last_read st) /\
    (forall t' n, lm_find t' (topics st) = Some n -> 0 < n < 2 ^ 64)) as (Hw & Hlast & Hb).
  { unfold st. destruct (log_state_ r !! l) as [s|] eqn:El; [by destruct (Hr l s El)|]. simpl.
    split_and!; [by apply NoDup_nil| |done]. by apply wrap_fits. }
  assert (forall t', next r l t' = lm_find t' (topics st)) as Hn.
  { intros t'. unfold next, st. by destruct (log_state_ r !! l). }
  assert (started_pos (pos r l) (next r l t) q =
    if (if negb (negb (bool_decide (is_Some (pos r l)))) &&
          match lm_find t (topics st) with Some n => q <? n | None => true end
        then q <=? last_read st else match lm_find t (topics st) with Some n => q <? n | None => true end)
    then q - 1 else last_read st) as Hpos.
  { rewrite Hn. unfold pos, st. destruct (log_state_ r !! l) as [s|]; cbn -[Z.sub].
    - destruct (match lm_find t (topics s) with Some n => q <? n | None => true end); cbn; [|done]. by destruct (q <=? last_read s).
    - done. }
  destruct (lm_start t q (topics st) Hw Hq Hb) as (Hw' & Hne & Hb' & Hf). rewrite Hn.
  set (l1 := match lm_find t (topics st) with None => fst (lm_emplace_front t q (topics st))
    | Some n => lm_move_to_front t (lm_set t (Z.min n q) (topics st)) end) in *.
  replace (match lm_find t (topics st) with
    | Some next_seqno => (lm_move_to_front t (lm_set t (Z.min next_seqno q) (topics st)), q <? next_seqno)
    | None => ((lm_emplace_front t q (topics st)).1, true) end)
    with (l1, match lm_find t (topics st) with Some n => q <? n | None => true end)
    by (unfold l1; by destruct (lm_find t (topics st))).
  set (reseek := if _ && _ then _ else _) in *.
  set (p := if reseek : bool then StartLogReader r l (set_topics l1 st) q else (set_topics l1 st, [])).
  assert (topics (fst p) = l1 /\ last_read (fst p) = started_pos (pos r l) (next r l t) q) as [Ht Hlr].
  { rewrite Hpos. unfold p. destruct reseek; [|done]. by destruct (StartLogReader_spec r l (set_topics l1 st) q Hq). }
  destruct p as [st' calls]. cbn [fst snd] in *. split_and!; [|done| |].
  - apply reader_wf_insert; [done|]. split; rewrite ?Ht; try done. rewrite Hlr, Hpos. destruct reseek; [|done].
    unfold fits; lia.
  - intros l'. rewrite pos_insert. case_decide as Hd; [|done]. by rewrite Hlr, Hn.
  - intros l' t'. rewrite next_insert. destruct (decide (l' = l)) as [->|]; [|by rewrite decide_False by tauto].
    rewrite Ht, Hf. repeat case_decide; try naive_solver.
Qed.

Lemma StopReading_spec r t l : reader_wf r ->
  let r' := fst (StopReading r t l) in
  reader_wf r' /\ same_reader r r' /\
  (forall l', l' <> l -> pos r' l' = pos r l') /\ (pos r' l = pos r l \/ pos r' l = None) /\
  (forall l' t', next r' l' t' = if decide (l' = l /\ t' = t) then None else next r l' t').
Proof.
  intros Hr. cbv zeta. unfold StopReading.
  assert (next r l t = None -> forall l' t', next r l' t' = if decide (l' = l /\ t' = t) then None else next r l' t') as Hsame.
  { intros Hn l' t'. case_decide as Hd; [|done]. by destruct Hd as [-> ->]. }
  destruct (log_state_ r !! l) as [st|] eqn:El.
  2: { split_and!; try done; [by left|]. apply Hsame. unfold next. by rewrite El. }
  assert (next r l t = lm_find t (topics st)) as Hn by (unfold next; by rewrite El).
  destruct (lm_find t (topics st)) as [n|] eqn:En.
  2: { split_and!; try done; [by left|]. by apply Hsame. }
  pose proof (Hr l st El) as Hst. cbn [topics set_topics].
  assert (forall t', lm_find t' (lm_erase t (topics st)) = if decide (t' = t) then None else next r l t') as Hf.
  { intros t'. rewrite lm_find_erase. unfold next. by rewrite El. }
  destruct (lm_erase t (topics st)) as [|e es] eqn:Ee; cbn [fst].
  - split_and!.
    + by apply reader_wf_delete.
    + done.
    + intros l' Hne. rewrite pos_delete. by rewrite decide_False.
    + right. rewrite pos_delete. by rewrite decide_True.
    + intros l' t'. rewrite next_delete. destruct (decide (l' = l)) as [->|]; [|by rewrite decide_False by tauto].
      specialize (Hf t'). cbn in Hf. repeat case_decide; try naive_solver.
  - split_and!.
    + apply reader_wf_insert; [done|]. split; cbn [topics set_topics last_read]; rewrite <-?Ee.
      * apply lm_wf_erase, Hst.
      * by rewrite Ee.
      * apply Hst.
      * intros t' n'. rewrite lm_find_erase. case_decide; [done|]. apply Hst.
    + done.
    + intros l' Hne. rewrite pos_insert. by rewrite decide_False.
    + left. rewrite pos_insert, decide_True by done. unfold pos. by rewrite El.
    + intros l' t'. rewrite next_insert. cbn [topics set_topics].
      destruct (decide (l' = l)) as [->|]; [|by rewrite decide_False by tauto].
      rewrite Hf. repeat case_decide; try naive_solver.
Qed.

(** An open log follows some topic. *)
Lemma open_next r l : reader_wf r -> is_Some (pos r l) -> exists t n, next r l t = Some n.
Proof.
  intros Hr [q Hq]. unfold pos in Hq. destruct (log_state_ r !! l) as [st|] eqn:El; [|done].
  destruct (topics st) as [|[t n] ts] eqn:Et; [by destruct (w_nonempty st (Hr l st El))|].
  exists t, n. unfold next. rewrite El. cbn. rewrite Et. simpl. by rewrite decide_True.
Qed.

(** ** Merging readers *)

Definition merged_next (dest src : option Z) : option Z :=
  match dest, src with
  | Some a, Some b => Some (Z.min a b)
  | Some a, None => Some a
  | None, b => b
  end.

Lemma merge_topics_spec dest src : lm_wf dest -> lm_wf src ->
  lm_wf (merge_topics dest src) /\ (dest <> [] -> merge_topics dest src <> []) /\
  (forall t, lm_find t (merge_topics dest src) = merged_next (lm_find t dest) (lm_find t src)).
Proof.
  revert dest. induction src as [|[k n] src IH]; intros dest Hd Hs.
  { split_and!; try done. intros t. simpl. by destruct (lm_find t dest). }
  apply NoDup_cons in Hs as [Hn Hs]. cbn [map fst] in Hn. apply lm_find_None in Hn. unfold merge_topics. cbn [fold_left fst snd].
  set (d1 := match lm_find k dest with Some m => lm_set k (Z.min m n) dest | None => fst (lm_emplace_back k n dest) end).
  assert (lm_wf d1 /\ (dest <> [] -> d1 <> []) /\
    (forall t, lm_find t d1 = if decide (t = k) then merged_next (lm_find k dest) (Some n) else lm_find t dest)) as (Hw & Hne & Hf).
  { unfold d1. destruct (lm_find k dest) as [m|] eqn:Em.
    - split_and!; [by auto with rs|by destruct dest|]. intros t. rewrite lm_find_set.
      case_decide as Ht; [subst; by rewrite Em|done].
    - split_and!; [by auto with rs| |]; unfold lm_emplace_back, lm_contains;
        rewrite Em, bool_decide_eq_false_2 by (by intros [? ?]); cbn [fst].
      + by destruct dest.
      + intros t. rewrite lm_find_app. simpl. destruct (decide (t = k)) as [->|Hne'].
        * by rewrite Em, decide_True.
        * rewrite decide_False by congruence. by destruct (lm_find t dest). }
  destruct (IH d1 Hw Hs) as (Hw' & Hne' & Hf'). split_and!; [done|by auto|].
  intros t. change (lm_find t (merge_topics d1 src) = merged_next (lm_find t dest) (lm_find t ((k, n) :: src))).
  rewrite Hf', Hf. simpl. repeat case_decide; subst; try done; try congruence.
  rewrite Hn. by destruct (lm_find k dest).
Qed.

Lemma CanMergeInto_spec r d l : IsVirtual r = false -> IsVirtual d = false ->
  CanMergeInto r d l = Ok (bool_decide (is_Some (pos r l) /\ pos d l = pos r l)).
Proof.
  intros Hr Hd. unfold CanMergeInto. rewrite Hr, Hd. cbn [negb assert_that obind]. unfold pos.
  destruct (log_state_ r !! l) as [s1|], (log_state_ d !! l) as [s2|]; cbn; f_equal; symmetry.
  destruct (Z.eqb_spec (last_read s2) (last_read s1)) as [->|Hne].
  - apply bool_decide_eq_true. split; [by eexists|done].
  - apply bool_decide_eq_false. intros [_ [= ?]]. done.
Qed.

Lemma MergeInto_spec r d l p : reader_wf r -> reader_wf d -> IsVirtual r = false -> IsVirtual d = false ->
  pos r l = Some p -> pos d l = Some p ->
  exists r' d' calls, MergeInto r d l = Ok (r', d', calls) /\
    reader_wf r' /\ same_reader r r' /\ reader_wf d' /\ same_reader d d' /\
    (forall l', pos r' l' = if decide (l' = l) then None else pos r l') /\
    (forall l' t, next r' l' t = if decide (l' = l) then None else next r l' t) /\
    (forall l', pos d' l' = pos d l') /\
    (forall l' t, next d' l' t = if decide (l' = l) then merged_next (next d l t) (next r l t) else next d l' t).
Proof.
  intros Hwr Hwd Hr Hd Hpr Hpd. unfold MergeInto. rewrite CanMergeInto_spec by done.
  rewrite bool_decide_eq_true_2 by (split; [by eexists|congruence]). cbn [assert_that obind].
  unfold pos in Hpr, Hpd. destruct (log_state_ r !! l) as [s1|] eqn:E1, (log_state_ d !! l) as [s2|] eqn:E2; try done.
  injection Hpr as Hp1. injection Hpd as Hp2. rewrite (proj2 (Z.eqb_eq (last_read s2) (last_read s1))) by congruence.
  cbn [assert_that obind]. pose proof (Hwr l s1 E1) as W1. pose proof (Hwd l s2 E2) as W2.
  destruct (merge_topics_spec (topics s2) (topics s1)) as (Hw & Hne & Hf); [apply W2|apply W1|].
  eexists _, _, _. split; [done|]. split_and!.
  - by apply reader_wf_delete.
  - done.
  - apply reader_wf_insert; [done|]. split; cbn [topics set_topics last_read]; [done|apply Hne, W2|apply W2|].
    intros t n. rewrite Hf. unfold merged_next. destruct (lm_find t (topics s2)) as [a|] eqn:Ea, (lm_find t (topics s1)) as [b|] eqn:Eb; intros [= <-];
      try (by apply (w_next s2 W2 t)); try (by apply (w_next s1 W1 t)).
    pose proof (w_next s2 W2 t a Ea). pose proof (w_next s1 W1 t b Eb). lia.
  - done.
  - intros l'. apply pos_delete.
  - intros l' t. apply next_delete.
  - intros l'. rewrite pos_insert. case_decide as Hl; [|done]. subst. unfold pos. by rewrite E2.
  - intros l' t. rewrite next_insert. case_decide as Hl; [|done]. cbn [topics set_topics]. rewrite Hf. unfold next.
    by rewrite E1, E2.
Qed.

(** ** Taking over the subscriptions of the virtual reader *)

Lemma fold_min_le l (m : Z) : fold_left (fun m e => Z.min m (snd e)) l m <= m /\
  (forall t n, (t, n) ∈ l -> fold_left (fun (m : Z) (e : TopicUUID * Z) => Z.min m (snd e)) l m <= n).
Proof.
  revert m. induction l as [|[t n] l IH]; intros m; cbn [fold_left snd]; [split; [lia|set_solver]|].
  destruct (IH (Z.min m n)) as [H1 H2]. split; [lia|]. intros t' n' [Heq|Hin]%elem_of_cons; [simplify_eq; lia|by apply (H2 t')].
Qed.

Lemma ComputeStartSeqno_spec st : state_wf st ->
  exists q, ComputeStartSeqno st = Ok q /\ (forall t n, lm_find t (topics st) = Some n -> q <= n).
Proof.
  intros Hst. unfold ComputeStartSeqno. destruct (topics st) as [|e ts] eqn:Et; [by destruct (w_nonempty st Hst)|].
  cbn [assert_that obind]. eexists. split; [done|]. intros t n Hn. apply lm_find_in in Hn.
  by apply (proj2 (fold_min_le _ _) t).
Qed.

Lemma StealLogSubscriptions_spec ok r v l : reader_wf r -> reader_wf v -> IsVirtual r = false -> IsVirtual v = true ->
  pos r l = None -> is_Some (pos v l) ->
  exists r' v' calls, StealLogSubscriptions ok r v l = Ok (r', v', calls) /\
    reader_wf r' /\ same_reader r r' /\ reader_wf v' /\ same_reader v v' /\
    (forall l', pos r' l' = if decide (l' = l) then (if ok then pos v l else None) else pos r l') /\
    (forall l' t, next r' l' t = if decide (l' = l) then (if ok then next v l t else None) else next r l' t) /\
    (forall l', pos v' l' = if decide (l' = l) then (if ok then None else pos v l) else pos v l') /\
    (forall l' t, next v' l' t = if decide (l' = l) then (if ok then None else next v l t) else next v l' t).
Proof.
  intros Hwr Hwv Hr Hv Hpr Hpv. unfold StealLogSubscriptions. rewrite Hr, Hv, !IsLogOpen_pos, Hpr.
  rewrite bool_decide_eq_true_2 by done. rewrite bool_decide_eq_false_2 by (by intros [? ?]). cbn [negb assert_that obind].
  destruct Hpv as [p Hp]. pose proof Hp as Hp'. unfold pos in Hp. destruct (log_state_ v !! l) as [st|] eqn:El; [|done].
  pose proof (Hwv l st El) as Hst. destruct (ComputeStartSeqno_spec st Hst) as (q & -> & _). cbn [obind].
  assert (forall t, next r l t = None) as Hnr.
  { intros t. destruct (next r l t) eqn:En; [|done]. apply next_pos in En as [? ?]. congruence. }
  destruct ok.
  - destruct (topics st) as [|e ts] eqn:Et; [by destruct (w_nonempty st Hst)|]. cbn [assert_that obind].
    eexists _, _, _. split; [done|]. split_and!; [|done| |done| | | |].
    + by apply reader_wf_insert.
    + by apply reader_wf_delete.
    + intros l'. rewrite pos_insert. case_decide as Hl; [|done]. subst. unfold pos. by rewrite El.
    + intros l' t. rewrite next_insert. case_decide as Hl; [|done]. subst. unfold next. by rewrite El.
    + intros l'. apply pos_delete.
    + intros l' t. apply next_delete.
  - eexists _, _, _. split; [done|]. split_and!; try done; intros l'; [|intros t| |intros t]; case_decide as Hl; subst; done.
Qed.

(** ** Bumping *)

(** Calling back for a list of topics. *)
Fixpoint run_bumps {S} (on_bump : TopicUUID -> Z -> S -> outcome S) (bs : list (TopicUUID * Z)) (s : S) : outcome S :=
  match bs with
  | [] => Ok s
  | (t, n) :: bs => obind (on_bump t n s) (run_bumps on_bump bs)
  end.

Lemma bump_step (t : TopicUUID) (n v : Z) l : lm_wf ((t, n) :: l) ->
  lm_set t v (lm_move_to_back t ((t, n) :: l)) = l ++ [(t, v)].
Proof.
  intros Hwf. unfold lm_move_to_back. cbn [lm_find]. rewrite decide_True by done. rewrite ObservableMap.lm_erase_head by done.
  apply NoDup_cons in Hwf as [Hn _]. unfold lm_set. rewrite map_app. f_equal.
  - rewrite <-(map_id l) at 2. apply map_ext_in. intros [k x] Hin. cbn [fst]. rewrite decide_False; [done|].
    intros ->. apply Hn. apply list_elem_of_fmap. exists (t, x). split; [done|]. by apply list_elem_of_In.
  - cbn. by rewrite decide_True.
Qed.

Lemma Bump_loop_spec {S} (on_bump : TopicUUID -> Z -> S -> outcome S) (I : S -> Prop) lag q fuel A B s :
  0 <= lag -> 0 <= q -> q + 1 + lag < 2 ^ 64 ->
  (forall t n s, (t, n) ∈ A -> I s -> exists s', on_bump t n s = Ok s' /\ I s') -> I s ->
  lm_wf (A ++ B) -> (forall t n, (t, n) ∈ B -> n = q + 1) -> (length A <= fuel)%nat ->
  exists k s', Bump_loop on_bump lag q fuel (A ++ B) s =
      Ok (drop k A ++ B ++ map (fun e => (fst e, q + 1)) (take k A), s') /\
    run_bumps on_bump (take k A) s = Ok s' /\ I s'.
Proof.
  intros Hlag Hq Hb. revert fuel B s. induction A as [|[t n] A IH]; intros fuel B s Hcb HI Hwf HB Hf.
  - exists 0%nat, s. cbn [app drop take map run_bumps]. rewrite app_nil_r. split_and!; try done.
    destruct fuel, B as [|[t n] B]; try done; cbn [Bump_loop];
      rewrite (HB t n) by set_solver; rewrite wrap_small by (unfold fits; lia);
      rewrite (proj2 (Z.ltb_ge _ _)) by lia; done.
  - destruct fuel as [|fuel]; [simpl in Hf; lia|]. cbn [app Bump_loop]. destruct (u64 (n + lag) <? q).
    2: { exists 0%nat, s. cbn [drop take map run_bumps]. rewrite app_nil_r. done. }
    destruct (Hcb t n s ltac:(set_solver) HI) as (s1 & Hs1 & HI1). rewrite Hs1. cbn [obind].
    rewrite bump_step by exact Hwf. rewrite wrap_small by (unfold fits; lia). rewrite <-app_assoc.
    assert (lm_wf (A ++ B ++ [(t, q + 1)])) as Hwf'.
    { unfold lm_wf in *. rewrite !map_app in *. cbn [map fst app] in Hwf. apply NoDup_cons in Hwf as [Hn Hwf].
      rewrite app_assoc. apply NoDup_app. split_and!; [done| |apply NoDup_singleton]. set_solver. }
    destruct (IH fuel (B ++ [(t, q + 1)]) s1) as (k & s' & HE & Hrun & HI'); [|done|done| |simpl in Hf; lia|].
    { intros t' n' s2 Hin. apply Hcb. set_solver. }
    { intros t' n' [Hin|Hin]%elem_of_app; [by apply (HB t')|set_solver]. }
    exists (Datatypes.S k), s'. cbn [drop take map run_bumps fst]. rewrite Hs1. cbn [obind]. split_and!; try done.
    rewrite HE. by rewrite <-app_assoc.
Qed.

(** What bumping does to the view of a reader, and whom it calls back for. *)
Lemma Bump_spec {S} (on_bump : TopicUUID -> Z -> S -> outcome S) (I : S -> Prop) r l q s :
  reader_wf r -> 0 <= max_subscription_lag_ r -> 0 <= q -> q + 1 + max_subscription_lag_ r < 2 ^ 64 ->
  (forall t n s, next r l t = Some n -> I s -> exists s', on_bump t n s = Ok s' /\ I s') -> I s ->
  exists r' s' bs, BumpLaggingSubscriptions on_bump r l q s = Ok (r', s') /\
    run_bumps on_bump bs s = Ok s' /\ I s' /\ NoDup (map fst bs) /\
    (forall t n, (t, n) ∈ bs -> next r l t = Some n) /\
    reader_wf r' /\ same_reader r r' /\ (forall l', pos r' l' = pos r l') /\
    (forall l' t, next r' l' t = if decide (l' = l /\ t ∈ map fst bs) then Some (q + 1) else next r l' t).
Proof.
  intros Hr Hlag Hq Hb Hcb HI. unfold BumpLaggingSubscriptions. destruct (log_state_ r !! l) as [st|] eqn:El.
  2: { exists r, s, []. split_and!; try done; [constructor|set_solver|]. intros l' t. rewrite decide_False by set_solver. done. }
  pose proof (Hr l st El) as Hst. assert (forall t n, (t, n) ∈ topics st -> next r l t = Some n) as Hin.
  { intros t n Hin. unfold next. rewrite El. cbn. apply lm_find_elem; [apply Hst|done]. }
  destruct (Bump_loop_spec on_bump I (max_subscription_lag_ r) q (Datatypes.S (length (topics st))) (topics st) [] s) as
    (k & s' & HE & Hrun & HI'); try done; [|rewrite app_nil_r; apply Hst|set_solver|lia|].
  { intros t n s0 Hn. apply Hcb. by apply Hin. }
  rewrite app_nil_r in HE. rewrite HE. cbn [obind app]. clear HE.
  set (l' := drop k (topics st) ++ map (fun e => (fst e, q + 1)) (take k (topics st))).
  assert (map fst l' ≡ₚ map fst (topics st)) as Hperm.
  { unfold l'. rewrite map_app, map_map. cbn [fst]. rewrite (Permutation_app_comm _ (map _ (take k _))).
    rewrite <-map_app. by rewrite take_drop. }
  assert (lm_wf l') as Hwf by (unfold lm_wf; rewrite Hperm; apply Hst).
  assert (lm_wf (take k (topics st) ++ drop k (topics st))) as Hsplit by (rewrite take_drop; apply Hst).
  assert (forall t, lm_find t l' = if decide (t ∈ map fst (take k (topics st))) then Some (q + 1) else lm_find t (topics st)) as Hf.
  { intros t. case_decide as Ht.
    - apply lm_find_elem; [done|]. apply list_elem_of_fmap in Ht as ([t' n] & -> & Hin').
      apply elem_of_app. right. apply list_elem_of_fmap. by exists (t', n).
    - assert (lm_find t (topics st) = lm_find t (drop k (topics st))) as ->.
      { rewrite <-(take_drop k (topics st)) at 1. rewrite lm_find_app. by rewrite (proj2 (lm_find_None t (take k (topics st))) Ht). }
      unfold l'. rewrite lm_find_app. destruct (lm_find t (drop k (topics st))); [done|].
      apply lm_find_None. rewrite map_map. done. }
  eexists _, s', (take k (topics st)). split; [done|]. split_and!; try done.
  - unfold lm_wf in Hsplit. rewrite map_app in Hsplit. by apply NoDup_app in Hsplit as [? _].
  - intros t n Ht. apply Hin. rewrite <-(take_drop k (topics st)). set_solver.
  - apply reader_wf_insert; [done|]. split; cbn [topics set_topics last_read]; [done| |apply Hst|].
    + intros E. rewrite E in Hperm. cbn in Hperm. apply Permutation_nil_l in Hperm.
      apply (w_nonempty st Hst). by destruct (topics st).
    + intros t n. rewrite Hf. case_decide; [intros [= <-]; lia|apply Hst].
  - intros l2. rewrite pos_insert. case_decide as Hl; [|done]. subst. unfold pos. by rewrite El.
  - intros l2 t. rewrite next_insert. cbn [topics set_topics]. destruct (decide (l2 = l)) as [->|].
    + rewrite Hf. unfold next. rewrite El. cbn. repeat case_decide; naive_solver.
    + by rewrite decide_False by tauto.
Qed.
