(* ===== verification/TopicTailer.v ===== *)
(** * The topic tailer

    Model of [TopicTailer] (src/controltower/topic_tailer.h and .cc, from line
    717), the core of a control room: it serves subscribers of topics from the
    readers of the logs and from the data cache.

    Calls that leave the component (messages to subscribers, calls to the log
    tailer) are appended to [trace_].  What the environment answers is given by
    functions of the trace: whether a write of the current flow has failed
    ([WriteHasFailed]), and whether the log tailer could start a reader
    ([start_ok]).  The router from topics to logs and the map from subscribers
    to workers are parameters; statistics and logging are left out. *)

From S2P Require Import Prelude Coding CodingFacts Messages Containers LRUCache Bloom DataCache TopicManager.
From S2P Require Import LogReader.

#[local] Open Scope outcome_scope.

Definition GuestTenant : Z := 1.

Inductive event :=
| OnMessage (msg : Message) (recipients : list CopilotSub)
| Tailer (call : TailerCall)
| FindLatestSeqno (log_id : Z).

Record PendingSubscription := { pending_logid : Z; pending_seqno : Z }.

(** A reader is addressed by its index in [log_readers_]; the virtual reader is
    [None]. *)
Record TopicTailer := {
  log_readers_ : list LogReader;
  pending_reader_ : LogReader;
  topic_map_ : gmap Z TopicManager.t;
  tail_seqno_cached_ : gmap Z Z;
  data_cache_ : DataCache;
  stream_subscriptions_ : SubscriptionMap.t TopicUUID;
  pending_find_time_response_ : gmap Z (list CopilotSub);
  pending_find_time_requests_ : list Z;
  cache_readers_ : gmap Z (ObservableMap.t CopilotSub PendingSubscription);
  reentry_cache_readers_ : ObservableMap.t (Z * nat) unit;
  max_find_time_requests : Z;
  trace_ : list event
}.

Definition set_log_readers x self := {| log_readers_ := x; pending_reader_ := pending_reader_ self;
  topic_map_ := topic_map_ self; tail_seqno_cached_ := tail_seqno_cached_ self; data_cache_ := data_cache_ self;
  stream_subscriptions_ := stream_subscriptions_ self; pending_find_time_response_ := pending_find_time_response_ self;
  pending_find_time_requests_ := pending_find_time_requests_ self; cache_readers_ := cache_readers_ self;
  reentry_cache_readers_ := reentry_cache_readers_ self; max_find_time_requests := max_find_time_requests self;
  trace_ := trace_ self |}.

Definition set_pending_reader x self := {| log_readers_ := log_readers_ self; pending_reader_ := x;
  topic_map_ := topic_map_ self; tail_seqno_cached_ := tail_seqno_cached_ self; data_cache_ := data_cache_ self;
  stream_subscriptions_ := stream_subscriptions_ self; pending_find_time_response_ := pending_find_time_response_ self;
  pending_find_time_requests_ := pending_find_time_requests_ self; cache_readers_ := cache_readers_ self;
  reentry_cache_readers_ := reentry_cache_readers_ self; max_find_time_requests := max_find_time_requests self;
  trace_ := trace_ self |}.

Definition set_topic_map x self := {| log_readers_ := log_readers_ self; pending_reader_ := pending_reader_ self;
  topic_map_ := x; tail_seqno_cached_ := tail_seqno_cached_ self; data_cache_ := data_cache_ self;
  stream_subscriptions_ := stream_subscriptions_ self; pending_find_time_response_ := pending_find_time_response_ self;
  pending_find_time_requests_ := pending_find_time_requests_ self; cache_readers_ := cache_readers_ self;
  reentry_cache_readers_ := reentry_cache_readers_ self; max_find_time_requests := max_find_time_requests self;
  trace_ := trace_ self |}.

Definition set_tail_seqno_cached x self := {| log_readers_ := log_readers_ self; pending_reader_ := pending_reader_ self;
  topic_map_ := topic_map_ self; tail_seqno_cached_ := x; data_cache_ := data_cache_ self;
  stream_subscriptions_ := stream_subscriptions_ self; pending_find_time_response_ := pending_find_time_response_ self;
  pending_find_time_requests_ := pending_find_time_requests_ self; cache_readers_ := cache_readers_ self;
  reentry_cache_readers_ := reentry_cache_readers_ self; max_find_time_requests := max_find_time_requests self;
  trace_ := trace_ self |}.

Definition set_data_cache x self := {| log_readers_ := log_readers_ self; pending_reader_ := pending_reader_ self;
  topic_map_ := topic_map_ self; tail_seqno_cached_ := tail_seqno_cached_ self; data_cache_ := x;
  stream_subscriptions_ := stream_subscriptions_ self; pending_find_time_response_ := pending_find_time_response_ self;
  pending_find_time_requests_ := pending_find_time_requests_ self; cache_readers_ := cache_readers_ self;
  reentry_cache_readers_ := reentry_cache_readers_ self; max_find_time_requests := max_find_time_requests self;
  trace_ := trace_ self |}.

Definition set_stream_subscriptions x self := {| log_readers_ := log_readers_ self; pending_reader_ := pending_reader_ self;
  topic_map_ := topic_map_ self; tail_seqno_cached_ := tail_seqno_cached_ self; data_cache_ := data_cache_ self;
  stream_subscriptions_ := x; pending_find_time_response_ := pending_find_time_response_ self;
  pending_find_time_requests_ := pending_find_time_requests_ self; cache_readers_ := cache_readers_ self;
  reentry_cache_readers_ := reentry_cache_readers_ self; max_find_time_requests := max_find_time_requests self;
  trace_ := trace_ self |}.

Definition set_find_time response requests self := {| log_readers_ := log_readers_ self; pending_reader_ := pending_reader_ self;
  topic_map_ := topic_map_ self; tail_seqno_cached_ := tail_seqno_cached_ self; data_cache_ := data_cache_ self;
  stream_subscriptions_ := stream_subscriptions_ self; pending_find_time_response_ := response;
  pending_find_time_requests_ := requests; cache_readers_ := cache_readers_ self;
  reentry_cache_readers_ := reentry_cache_readers_ self; max_find_time_requests := max_find_time_requests self;
  trace_ := trace_ self |}.

Definition set_cache_readers x self := {| log_readers_ := log_readers_ self; pending_reader_ := pending_reader_ self;
  topic_map_ := topic_map_ self; tail_seqno_cached_ := tail_seqno_cached_ self; data_cache_ := data_cache_ self;
  stream_subscriptions_ := stream_subscriptions_ self; pending_find_time_response_ := pending_find_time_response_ self;
  pending_find_time_requests_ := pending_find_time_requests_ self; cache_readers_ := x;
  reentry_cache_readers_ := reentry_cache_readers_ self; max_find_time_requests := max_find_time_requests self;
  trace_ := trace_ self |}.

Definition set_reentry x self := {| log_readers_ := log_readers_ self; pending_reader_ := pending_reader_ self;
  topic_map_ := topic_map_ self; tail_seqno_cached_ := tail_seqno_cached_ self; data_cache_ := data_cache_ self;
  stream_subscriptions_ := stream_subscriptions_ self; pending_find_time_response_ := pending_find_time_response_ self;
  pending_find_time_requests_ := pending_find_time_requests_ self; cache_readers_ := cache_readers_ self;
  reentry_cache_readers_ := x; max_find_time_requests := max_find_time_requests self;
  trace_ := trace_ self |}.

Definition emit (es : list event) self := {| log_readers_ := log_readers_ self; pending_reader_ := pending_reader_ self;
  topic_map_ := topic_map_ self; tail_seqno_cached_ := tail_seqno_cached_ self; data_cache_ := data_cache_ self;
  stream_subscriptions_ := stream_subscriptions_ self; pending_find_time_response_ := pending_find_time_response_ self;
  pending_find_time_requests_ := pending_find_time_requests_ self; cache_readers_ := cache_readers_ self;
  reentry_cache_readers_ := reentry_cache_readers_ self; max_find_time_requests := max_find_time_requests self;
  trace_ := trace_ self ++ es |}.

Definition get_reader (self : TopicTailer) (i : option nat) : outcome LogReader :=
  match i with
  | None => Ok (pending_reader_ self)
  | Some i => match log_readers_ self !! i with Some r => Ok r | None => Abort "invalid reader" end
  end.

Definition set_reader (i : option nat) (r : LogReader) (self : TopicTailer) : TopicTailer :=
  match i with
  | None => set_pending_reader r self
  | Some i => set_log_readers (<[i := r]> (log_readers_ self)) self
  end.

(** [topic_map_[log_id]] *)
Definition manager (self : TopicTailer) (log_id : Z) : TopicManager.t := default ∅ (topic_map_ self !! log_id).
Definition set_manager (log_id : Z) (m : TopicManager.t) (self : TopicTailer) : TopicTailer :=
  set_topic_map (<[log_id := m]> (topic_map_ self)) self.

(** [VisitSubscribers] with the visitor that advances to [next] and collects. *)
Definition advance (self : TopicTailer) (log_id : Z) (topic : TopicUUID) (from to next : Z)
    : TopicTailer * list CopilotSub :=
  let '(m, ids) := TopicManager.VisitSubscribers (manager self log_id) topic from to next in
  (set_manager log_id m self, ids).

Definition NewMessageGap (namespace_id topic_name : slice) (gap_type from to : Z) : Message :=
  Gap {| gap_base := {| type_ := MessageType.mGap; tenantid_ := GuestTenant |};
         gap_namespace_id_ := namespace_id; gap_topic_name_ := topic_name; gap_type_ := gap_type;
         gap_from_ := from; gap_to_ := to |}.

(** A gap message to a list of recipients, if there are any. *)
Definition send_gap (topic : TopicUUID) (gap_type from to : Z) (recipients : list CopilotSub) (self : TopicTailer)
    : outcome TopicTailer :=
  match recipients with
  | [] => Ok self
  | _ =>
      names <~ UUID_GetTopicID topic ;;
      Ok (emit [OnMessage (NewMessageGap (fst names) (snd names) gap_type from to) recipients] self)
  end.

Definition data_uuid (data : MessageData) : TopicUUID := NewTopicUUID (data_namespaceid_ data) (data_topic_name_ data).

Inductive CacheRead := kNoneRead | kReadContinue | kReadBackoff.

Section TopicTailer.
Context (XXH64 : slice -> Z) (sizeof_MessageData sizeof_CacheEntry : Z).
Context (WriteHasFailed start_ok : list event -> bool).
Context (GetLogID : TopicUUID -> option Z) (copilot_worker : CopilotSub -> Z).

(** ** Readers *)

Fixpoint find_reader (reader_id : Z) (i : nat) (rs : list LogReader) : option nat :=
  match rs with
  | [] => None
  | r :: rs => if reader_id_ r =? reader_id then Some i else find_reader reader_id (S i) rs
  end.

Definition FindLogReader (self : TopicTailer) (reader_id : Z) : option nat := find_reader reader_id 0 (log_readers_ self).

Fixpoint best_reader (topic : TopicUUID) (logid seqno : Z) (i : nat) (rs : list LogReader) (best : option nat) (best_cost : Z)
    : option nat :=
  match rs with
  | [] => best
  | r :: rs =>
      let reader_cost := SubscriptionCost r topic logid seqno in
      if reader_cost <? best_cost then best_reader topic logid seqno (S i) rs (Some i) reader_cost
      else best_reader topic logid seqno (S i) rs best best_cost
  end.

Definition ReaderForNewSubscription (self : TopicTailer) (topic : TopicUUID) (logid seqno : Z) : option nat :=
  if (length (log_readers_ self) =? 1)%nat then Some 0%nat
  else best_reader topic logid seqno 0 (log_readers_ self) None kSubscriptionCostRewind.

Definition merge_readers (self : TopicTailer) (src dest : nat) (log_id : Z) : outcome TopicTailer :=
  rs <~ get_reader self (Some src) ;;
  rd <~ get_reader self (Some dest) ;;
  m <~ MergeInto rs rd log_id ;;
  let '(rs, rd, calls) := m in
  let self := emit (map Tailer calls) (set_reader (Some dest) rd (set_reader (Some src) rs self)) in
  if IsLogOpen (pending_reader_ self) log_id then
    m <~ StealLogSubscriptions (start_ok (trace_ self)) rs (pending_reader_ self) log_id ;;
    let '(rs, rp, calls) := m in
    Ok (emit (map Tailer calls) (set_reader None rp (set_reader (Some src) rs self)))
  else Ok self.

(** The loop over the destinations, from index [dest] on. *)
Fixpoint merge_loop (self : TopicTailer) (src : nat) (log_id : Z) (dest : nat) (rs : list LogReader)
    : outcome (TopicTailer * bool) :=
  match rs with
  | [] => Ok (self, false)
  | rd :: rs =>
      if (src =? dest)%nat then merge_loop self src log_id (S dest) rs
      else
        r <~ get_reader self (Some src) ;;
        can <~ CanMergeInto r rd log_id ;;
        if can : bool then self <~ merge_readers self src dest log_id ;; Ok (self, true)
        else merge_loop self src log_id (S dest) rs
  end.

Definition AttemptReaderMerges (self : TopicTailer) (src : nat) (log_id : Z) : outcome (TopicTailer * bool) :=
  merge_loop self src log_id 0 (log_readers_ self).

Definition GetTailSeqnoEstimate (self : TopicTailer) (log_id : Z) : Z := default 0 (tail_seqno_cached_ self !! log_id).

(** The estimate of the tail moves past a record or gap that ends at [seqno]. *)
Definition update_tail (log_id seqno : Z) (self : TopicTailer) : TopicTailer :=
  match tail_seqno_cached_ self !! log_id with
  | Some q => if q <=? seqno then set_tail_seqno_cached (<[log_id := u64 (seqno + 1)]> (tail_seqno_cached_ self)) self else self
  | None => self
  end.

(** ** Records *)

Definition on_bump (log_id next_seqno : Z) (topic : TopicUUID) (bump_seqno : Z) (self : TopicTailer) : outcome TopicTailer :=
  let '(self, bumped_subscriptions) := advance self log_id topic bump_seqno next_seqno (u64 (next_seqno + 1)) in
  send_gap topic kBenign bump_seqno next_seqno bumped_subscriptions self.

(** Distributes a record of a topic the reader follows; returns the message,
    stamped if it was sent. *)
Definition deliver_record (self : TopicTailer) (log_id : Z) (data : MessageData) (prev_seqno : Z)
    : TopicTailer * MessageData * list CopilotSub :=
  let next_seqno := data_seqno_ data in
  let '(self, recipients) := advance self log_id (data_uuid data) prev_seqno next_seqno (u64 (next_seqno + 1)) in
  match recipients with
  | [] => (self, data, [])
  | _ =>
      let data := SetPreviousSequenceNumber prev_seqno data in
      (emit [OnMessage (Data data) recipients] self, data, recipients)
  end.

Definition ReceiveLogRecord (self : TopicTailer) (data : MessageData) (log_id : Z) (i : nat) : outcome TopicTailer :=
  reader <~ get_reader self (Some i) ;;
  let next_seqno := data_seqno_ data in
  assert_that (next_seqno =? GetNextSequenceNumber reader log_id) "next_seqno == reader->GetNextSequenceNumber(log_id)" ;;;
  p <~ ProcessRecord reader log_id next_seqno (data_uuid data) ;;
  let '(reader, prev_seqno) := p in
  let self := update_tail log_id next_seqno (set_reader (Some i) reader self) in
  p <~ (if prev_seqno =? 0 then Ok (self, data)
        else
          let '(self, data, _) := deliver_record self log_id data prev_seqno in
          b <~ BumpLaggingSubscriptions (on_bump log_id next_seqno) reader log_id next_seqno self ;;
          let '(reader, self) := b in
          Ok (set_reader (Some i) reader self, data)) ;;
  let '(self, data) := p in
  dc <~ StoreData XXH64 sizeof_MessageData sizeof_CacheEntry (data_cache_ self) (data_namespaceid_ data)
          (data_topic_name_ data) log_id data ;;
  Ok (set_data_cache dc self).

(** The callback of [AdvanceReaderFromCache]; the flag is [backoff]. *)
Definition on_message_cache (log_id : Z) (i : nat) (data : MessageData) (s : TopicTailer * bool)
    : outcome (MessageData * (TopicTailer * bool) * bool) :=
  let '(self, backoff) := s in
  reader <~ get_reader self (Some i) ;;
  let next_seqno := data_seqno_ data in
  assert_that (GetNextSequenceNumber reader log_id <=? next_seqno) "next_seqno >= reader->GetNextSequenceNumber(log_id)" ;;;
  p <~ ProcessRecord reader log_id next_seqno (data_uuid data) ;;
  let '(reader, prev_seqno) := p in
  let self := set_reader (Some i) reader self in
  let '(self, data) := if prev_seqno =? 0 then (self, data)
                     else let '(self, data, _) := deliver_record self log_id data prev_seqno in (self, data) in
  assert_that (negb backoff) "!backoff" ;;;
  let backoff := WriteHasFailed (trace_ self) in
  Ok (data, (self, backoff), negb backoff).

(** The visitor of the topics: the name of the topic if there is exactly one. *)
Fixpoint single_topic (ts : list TopicUUID) (topic_count : nat) (lookup_topic : slice) : outcome slice :=
  match ts with
  | [] => Ok lookup_topic
  | t :: ts =>
      names <~ UUID_GetTopicID t ;;
      if (1 <? S topic_count)%nat then Ok [] else single_topic ts (S topic_count) (snd names)
  end.

Definition AdvanceReaderFromCache (self : TopicTailer) (log_id : Z) (i : nat) : outcome (TopicTailer * CacheRead) :=
  if GetCapacity (data_cache_ self) =? 0 then Ok (self, kNoneRead)
  else
    reader <~ get_reader self (Some i) ;;
    let seqno := GetNextSequenceNumber reader log_id in
    if seqno =? 0 then Ok (self, kNoneRead)
    else
      let self := set_manager log_id (manager self log_id) self in
      lookup_topic <~ single_topic (TopicManager.VisitTopics (manager self log_id)) 0 [] ;;
      v <~ VisitCache XXH64 (on_message_cache log_id i) (data_cache_ self) log_id seqno lookup_topic (self, false) ;;
      let '(dc, ret, (self, backoff)) := v in
      let self := set_data_cache dc self in
      if negb (seqno =? ret) then Ok (self, if backoff : bool then kReadBackoff else kReadContinue)
      else assert_that (negb backoff) "!backoff" ;;; Ok (self, kNoneRead).

(** Pause a reader, and continue it from the cache later. *)
Definition pause_for_cache (self : TopicTailer) (log_id : Z) (i : nat) : outcome TopicTailer :=
  reader <~ get_reader self (Some i) ;;
  p <~ PauseReading reader log_id ;;
  let '(reader, calls) := p in
  let self := emit (map Tailer calls) (set_reader (Some i) reader self) in
  Ok (set_reentry (ObservableMap.Write (reentry_cache_readers_ self) (log_id, i) tt) self).

Definition SendCacheRecord (self : TopicTailer) (log_id : Z) (i : nat) : outcome TopicTailer :=
  reader <~ get_reader self (Some i) ;;
  if negb (IsLogOpen reader log_id) then Ok self
  else
    a <~ AdvanceReaderFromCache self log_id i ;;
    let '(self, read) := a in
    match read with
    | kReadBackoff => pause_for_cache self log_id i
    | _ =>
        m <~ AttemptReaderMerges self i log_id ;;
        let '(self, merged) := m in
        if merged : bool then Ok self
        else
          reader <~ get_reader self (Some i) ;;
          p <~ RestartReading reader log_id ;;
          let '(reader, calls) := p in
          Ok (emit (map Tailer calls) (set_reader (Some i) reader self))
    end.

Definition SendLogRecord (self : TopicTailer) (msg : MessageData) (log_id reader_id : Z) : outcome TopicTailer :=
  match FindLogReader self reader_id with
  | None => Abort "reader != nullptr"
  | Some i =>
      self <~ ReceiveLogRecord self msg log_id i ;;
      reader <~ get_reader self (Some i) ;;
      let seqno := GetNextSequenceNumber reader log_id in
      assert_that (negb (seqno =? 0)) "seqno != 0" ;;;
      h <~ HasEntry (data_cache_ self) log_id seqno ;;
      let '(dc, has) := h in
      let self := set_data_cache dc self in
      if has : bool then pause_for_cache self log_id i
      else m <~ AttemptReaderMerges self i log_id ;; Ok (fst m)
  end.

(** ** Gaps *)

(** The visitor of one topic. *)
Definition gap_topic (log_id type from to : Z) (i : nat) (topic : TopicUUID) (self : TopicTailer) : outcome TopicTailer :=
  reader <~ get_reader self (Some i) ;;
  p <~ ProcessGap reader log_id topic from to ;;
  let '(reader, prev_seqno) := p in
  let self := update_tail log_id to (set_reader (Some i) reader self) in
  let '(self, recipients) := advance self log_id topic prev_seqno to (u64 (to + 1)) in
  send_gap topic type prev_seqno to recipients self.

Fixpoint gap_topics (log_id type from to : Z) (i : nat) (ts : list TopicUUID) (self : TopicTailer) : outcome TopicTailer :=
  match ts with
  | [] => Ok self
  | t :: ts => self <~ gap_topic log_id type from to i t self ;; gap_topics log_id type from to i ts self
  end.

Definition SendGapRecord (self : TopicTailer) (log_id type from to reader_id : Z) : outcome TopicTailer :=
  match FindLogReader self reader_id with
  | None => Abort "reader != nullptr"
  | Some i =>
      let self := set_manager log_id (manager self log_id) self in
      self <~ gap_topics log_id type from to i (TopicManager.VisitTopics (manager self log_id)) self ;;
      reader <~ get_reader self (Some i) ;;
      let reader := if type =? kBenign then ProcessBenignGap reader log_id from to
                    else FlushHistory reader log_id (u64 (to + 1)) in
      m <~ AttemptReaderMerges (set_reader (Some i) reader self) i log_id ;;
      Ok (fst m)
  end.

(** ** Subscriptions *)

(** [GetPendingReaderQueue]: the worker of a subscriber, whose queue is made on
    first use. *)
Definition GetPendingReaderQueue (self : TopicTailer) (sub : CopilotSub)
    : outcome (Z * ObservableMap.t CopilotSub PendingSubscription) :=
  let worker_id := copilot_worker sub in
  assert_that (negb (worker_id =? -1)) "worker_id != -1" ;;;
  Ok (worker_id, default ObservableMap.empty (cache_readers_ self !! worker_id)).

Definition write_pending (self : TopicTailer) (id : CopilotSub) (logid seqno : Z) : outcome TopicTailer :=
  q <~ GetPendingReaderQueue self id ;;
  let '(worker_id, q) := q in
  Ok (set_cache_readers (<[worker_id := ObservableMap.Write q id {| pending_logid := logid; pending_seqno := seqno |}]>
        (cache_readers_ self)) self).

Definition AddSubscriberInternal (self : TopicTailer) (topic : TopicUUID) (id : CopilotSub) (logid seqno : Z)
    : outcome TopicTailer :=
  assert_that (negb (seqno =? 0)) "seqno != 0" ;;;
  self <~ write_pending self id logid seqno ;;
  Ok (set_stream_subscriptions (SubscriptionMap.Insert (stream_subscriptions_ self) (stream_id id) (sub_id id) topic) self).

Definition AddTailSubscriber (self : TopicTailer) (topic : TopicUUID) (id : CopilotSub) (logid seqno : Z)
    : outcome TopicTailer :=
  names <~ UUID_GetTopicID topic ;;
  let self := emit [OnMessage (NewMessageGap (fst names) (snd names) kBenign 0 (u64 (seqno - 1))) [id]] self in
  AddSubscriberInternal self topic id logid seqno.

(** The callback of [DeliverFromCache]: the state is the tailer, [delivered]
    and [backoff]. *)
Definition on_message_deliver (topic : TopicUUID) (copilot : CopilotSub) (start : Z) (data : MessageData)
    (s : TopicTailer * Z * bool) : outcome (MessageData * (TopicTailer * Z * bool) * bool) :=
  let '(self, delivered, backoff) := s in
  let msg_seqno := data_seqno_ data in
  assert_that (start <=? msg_seqno) "msg_seqno >= *seqno" ;;;
  same <~ UUID_is_pair topic (data_namespaceid_ data, data_topic_name_ data) ;;
  if same : bool then
    let data := SetPreviousSequenceNumber delivered data in
    let self := emit [OnMessage (Data data) [copilot]] self in
    assert_that (negb backoff) "!backoff" ;;;
    let backoff := WriteHasFailed (trace_ self) in
    Ok (data, (self, u64 (msg_seqno + 1), backoff), negb backoff)
  else Ok (data, s, true).

(** Returns whether the cache was delivered to its end, and where to go on. *)
Definition DeliverFromCache (self : TopicTailer) (topic : TopicUUID) (copilot : CopilotSub) (logid seqno : Z)
    : outcome (TopicTailer * bool * Z) :=
  if GetCapacity (data_cache_ self) =? 0 then Ok (self, true, seqno)
  else
    assert_that (negb (seqno =? 0)) "*seqno != 0" ;;;
    names <~ UUID_GetTopicID topic ;;
    v <~ VisitCache XXH64 (on_message_deliver topic copilot seqno) (data_cache_ self) logid seqno (snd names)
           (self, seqno, false) ;;
    let '(dc, ret, (self, delivered, backoff)) := v in
    let self := set_data_cache dc self in
    if backoff : bool then Ok (self, false, ret)
    else
      let self := if delivered <? ret
                then emit [OnMessage (NewMessageGap (fst names) (snd names) kBenign delivered (u64 (ret - 1))) [copilot]] self
                else self in
      Ok (self, true, ret).

Definition ProcessPendingSubscription (self : TopicTailer) (topic : TopicUUID) (id : CopilotSub) (logid seqno : Z)
    : outcome TopicTailer :=
  assert_that (negb (seqno =? 0)) "seqno != 0" ;;;
  d <~ DeliverFromCache self topic id logid seqno ;;
  let '(self, done_, seqno) := d in
  if done_ : bool then
    let i := ReaderForNewSubscription self topic logid seqno in
    reader <~ get_reader self i ;;
    let '(reader, calls) := StartReading reader topic logid seqno in
    let self := emit (map Tailer calls) (set_reader i reader self) in
    Ok (set_manager logid (fst (TopicManager.AddSubscriber (manager self logid) topic seqno id)) self)
  else write_pending self id logid seqno.

(** The source of pending subscriptions: an item is served if its subscription
    still exists. *)
Definition on_pending (self : TopicTailer) (item : CopilotSub * PendingSubscription) : outcome TopicTailer :=
  let '(id, p) := item in
  match SubscriptionMap.Find (stream_subscriptions_ self) (stream_id id) (sub_id id) with
  | Some uuid => ProcessPendingSubscription self uuid id (pending_logid p) (pending_seqno p)
  | None => Ok self
  end.

(** One round of the drain of a worker's queue: the item is erased and handed
    to the source's processor; after the last round the descriptor is read if
    the queue is empty. *)
Definition DrainPending (self : TopicTailer) (worker_id : Z) (id : CopilotSub) (last : bool) : outcome TopicTailer :=
  let q := default ObservableMap.empty (cache_readers_ self !! worker_id) in
  match lm_find id (ObservableMap.map_ q) with
  | None => Abort "dereference of an invalid iterator"
  | Some p =>
      let q := {| ObservableMap.map_ := lm_erase id (ObservableMap.map_ q);
                  ObservableMap.read_ready_fd_ := ObservableMap.read_ready_fd_ q |} in
      self <~ on_pending (set_cache_readers (<[worker_id := q]> (cache_readers_ self)) self) (id, p) ;;
      if last then
        q <~ ObservableMap.clear_if_empty (default ObservableMap.empty (cache_readers_ self !! worker_id)) ;;
        Ok (set_cache_readers (<[worker_id := q]> (cache_readers_ self)) self)
      else Ok self
  end.

(** One round of the drain of the readers that wait to enter the cache. *)
Definition DrainReentry (self : TopicTailer) (log_id : Z) (i : nat) (last : bool) : outcome TopicTailer :=
  let q := reentry_cache_readers_ self in
  match lm_find (log_id, i) (ObservableMap.map_ q) with
  | None => Abort "dereference of an invalid iterator"
  | Some _ =>
      let q := {| ObservableMap.map_ := lm_erase (log_id, i) (ObservableMap.map_ q);
                  ObservableMap.read_ready_fd_ := ObservableMap.read_ready_fd_ q |} in
      self <~ SendCacheRecord (set_reentry q self) log_id i ;;
      if last then
        q <~ ObservableMap.clear_if_empty (reentry_cache_readers_ self) ;; Ok (set_reentry q self)
      else Ok self
  end.

(** *** The latest sequence number *)

Definition InFlightFindLatestSeqnoRequests (self : TopicTailer) : Z :=
  u64 (Z.of_nat (size (pending_find_time_response_ self)) - Z.of_nat (length (pending_find_time_requests_ self))).

Definition SendFindLatestSeqnoRequest (self : TopicTailer) (logid : Z) : outcome TopicTailer :=
  assert_that (InFlightFindLatestSeqnoRequests self <=? max_find_time_requests self)
    "InFlightFindLatestSeqnoRequests() <= options_.max_find_time_requests" ;;;
  Ok (emit [FindLatestSeqno logid] self).

(** The waiting subscribers of a log, those that still exist. *)
Fixpoint answer_waiting (ids : list CopilotSub) (logid seqno : Z) (self : TopicTailer) : outcome TopicTailer :=
  match ids with
  | [] => Ok self
  | id :: ids =>
      self <~ match SubscriptionMap.Find (stream_subscriptions_ self) (stream_id id) (sub_id id) with
            | Some topic => AddTailSubscriber self topic id logid seqno
            | None => Ok self
            end ;;
      answer_waiting ids logid seqno self
  end.

Definition ProcessFindLatestSeqnoResponse (self : TopicTailer) (status_ok : bool) (logid seqno : Z) : outcome TopicTailer :=
  if negb status_ok then SendFindLatestSeqnoRequest self logid
  else
    self <~ answer_waiting (default [] (pending_find_time_response_ self !! logid)) logid seqno self ;;
    let self := set_find_time (delete logid (pending_find_time_response_ self)) (pending_find_time_requests_ self) self in
    let tail := match tail_seqno_cached_ self !! logid with Some q => Z.max q seqno | None => seqno end in
    let self := set_tail_seqno_cached (<[logid := tail]> (tail_seqno_cached_ self)) self in
    match pending_find_time_requests_ self with
    | [] => Ok self
    | next_request_log_id :: rest =>
        self <~ SendFindLatestSeqnoRequest (set_find_time (pending_find_time_response_ self) rest self) next_request_log_id ;;
        assert_that (InFlightFindLatestSeqnoRequests self =? max_find_time_requests self)
          "InFlightFindLatestSeqnoRequests() == options_.max_find_time_requests" ;;;
        Ok self
    end.

(** *** The interface of the room *)

(** The status is [false] when the topic cannot be routed. *)
Definition AddSubscriber (self : TopicTailer) (topic : TopicUUID) (start : Z) (id : CopilotSub) : outcome (TopicTailer * bool) :=
  match GetLogID topic with
  | None => Ok (self, false)
  | Some logid =>
      if start =? 0 then
        let tail_seqno := GetTailSeqnoEstimate self logid in
        if negb (tail_seqno =? 0) then self <~ AddTailSubscriber self topic id logid tail_seqno ;; Ok (self, true)
        else
          let self := set_stream_subscriptions
                      (SubscriptionMap.Insert (stream_subscriptions_ self) (stream_id id) (sub_id id) topic) self in
          let in_flight := InFlightFindLatestSeqnoRequests self in
          let pending := default [] (pending_find_time_response_ self !! logid) ++ [id] in
          let self := set_find_time (<[logid := pending]> (pending_find_time_response_ self)) (pending_find_time_requests_ self) self in
          if (1 <? length pending)%nat then Ok (self, true)
          else if in_flight <? max_find_time_requests self then self <~ SendFindLatestSeqnoRequest self logid ;; Ok (self, true)
          else
            let requests := pending_find_time_requests_ self in
            Ok (set_find_time (pending_find_time_response_ self)
                  (if bool_decide (logid ∈ requests) then requests else requests ++ [logid]) self, true)
      else self <~ AddSubscriberInternal self topic id logid start ;; Ok (self, true)
  end.

(** The readers stop on the topic, one after the other; the flag says whether
    the log is closed at all of them. *)
Fixpoint stop_readers (topic : TopicUUID) (logid : Z) (rs : list LogReader) : list LogReader * list TailerCall * bool :=
  match rs with
  | [] => ([], [], true)
  | r :: rs =>
      let '(r, calls) := StopReading r topic logid in
      let '(rs, calls', closed) := stop_readers topic logid rs in
      (r :: rs, calls ++ calls', negb (IsLogOpen r logid) && closed)
  end.

Definition RemoveSubscriberInternal (self : TopicTailer) (topic : TopicUUID) (id : CopilotSub) (logid : Z)
    : outcome TopicTailer :=
  let '(m, all_removed) := TopicManager.RemoveSubscriber (manager self logid) topic id in
  let self := set_manager logid m self in
  let self :=
    if all_removed : bool then
      let '(rs, calls, closed) := stop_readers topic logid (log_readers_ self) in
      let '(rp, pcalls) := StopReading (pending_reader_ self) topic logid in
      let self := emit (map Tailer (calls ++ pcalls)) (set_pending_reader rp (set_log_readers rs self)) in
      if closed && negb (IsLogOpen rp logid)
      then set_tail_seqno_cached (delete logid (tail_seqno_cached_ self)) self else self
    else self in
  q <~ GetPendingReaderQueue self id ;;
  let '(worker_id, q) := q in
  q <~ ObservableMap.Remove q id ;;
  Ok (set_cache_readers (<[worker_id := q]> (cache_readers_ self)) self).

(** [RemoveSubscriber(CopilotSub)]: the status is [false] for an unknown
    subscription or a topic that cannot be routed. *)
Definition RemoveSubscriber (self : TopicTailer) (id : CopilotSub) : outcome (TopicTailer * bool) :=
  let '(m, topic) := SubscriptionMap.MoveOut (stream_subscriptions_ self) (stream_id id) (sub_id id) in
  let self := set_stream_subscriptions m self in
  match topic with
  | None => Ok (self, false)
  | Some topic =>
      match GetLogID topic with
      | None => Ok (self, false)
      | Some logid => self <~ RemoveSubscriberInternal self topic id logid ;; Ok (self, true)
      end
  end.

Fixpoint remove_all (stream : Z) (subs : list (Z * TopicUUID)) (self : TopicTailer) : outcome TopicTailer :=
  match subs with
  | [] => Ok self
  | (sub, topic) :: subs =>
      self <~ match GetLogID topic with
            | Some logid => RemoveSubscriberInternal self topic {| stream_id := stream; sub_id := sub |} logid
            | None => Ok self
            end ;;
      remove_all stream subs self
  end.

(** [RemoveSubscriber(StreamID)] *)
Definition RemoveStream (self : TopicTailer) (stream : Z) : outcome TopicTailer :=
  self <~ remove_all stream (SubscriptionMap.VisitSubscriptions (stream_subscriptions_ self) stream) self ;;
  Ok (set_stream_subscriptions (SubscriptionMap.RemoveStream (stream_subscriptions_ self) stream) self).

Definition TopicTailer_ClearCache (self : TopicTailer) : TopicTailer := set_data_cache (ClearCache (data_cache_ self)) self.

Definition SetCacheCapacity (self : TopicTailer) (newcapacity : Z) : outcome TopicTailer :=
  dc <~ SetCapacity (data_cache_ self) newcapacity ;; Ok (set_data_cache dc self).

(** The constructor and [Initialize]. *)
Definition NewTopicTailer (dc : DataCache) (max_requests : Z) (reader_ids : list Z) (max_subscription_lag : Z) : TopicTailer :=
  {| log_readers_ := map (fun id => NewLogReader false id max_subscription_lag) reader_ids;
     pending_reader_ := NewLogReader true 0 max_subscription_lag;
     topic_map_ := ∅; tail_seqno_cached_ := ∅; data_cache_ := dc; stream_subscriptions_ := ∅;
     pending_find_time_response_ := ∅; pending_find_time_requests_ := []; cache_readers_ := ∅;
     reentry_cache_readers_ := ObservableMap.empty; max_find_time_requests := max_requests; trace_ := [] |}.
End TopicTailer.
