(* ===== verification/TailerInv.v ===== *)
(** * The invariant of the topic tailer

    The log is a function [log] from logs and sequence numbers to records.  The
    invariant [tailer_ok] relates readers, subscriptions and cache to it: a
    reader that claims to know a topic has not passed a record of it, every
    subscription is covered by a reader, and every cached message is a record
    of the log.  [stepped] says what a step delivers: a subscription that moves
    from one sequence number to another is sent exactly the records of its
    topic in between. *)

From S2P Require Import Prelude Coding CodingFacts Messages Containers LRUCache Bloom DataCache DataCacheFacts.
From S2P Require Import DataCacheVisit TopicManager LogReader LogReaderFacts TopicTailer.

#[local] Open Scope outcome_scope.

(** Sequence numbers, and the lag of a reader, are far from the end of their range. *)
Definition kMaxSeqno : Z := 2 ^ 62.

Definition valid_topic (t : TopicUUID) : Prop := exists ns topic, topic_ok (ns, topic) /\ t = NewTopicUUID ns topic.

(** A message without the previous sequence number, which depends on the recipients. *)
Definition strip (m : MessageData) : MessageData := SetPreviousSequenceNumber 0 m.

Lemma strip_same m m' : same_message m m' -> strip m' = strip m.
Proof. by intros [p ->]. Qed.

Lemma same_message_fields m m' : same_message m m' ->
  data_uuid m' = data_uuid m /\ data_seqno_ m' = data_seqno_ m /\ data_topic_name_ m' = data_topic_name_ m /\
  data_namespaceid_ m' = data_namespaceid_ m.
Proof. by intros [p ->]. Qed.

Lemma same_message_trans m1 m2 m3 : same_message m1 m2 -> same_message m2 m3 -> same_message m1 m3.
Proof. intros [p ->] [q ->]. by exists q. Qed.

Lemma same_message_sym m1 m2 : same_message m1 m2 -> same_message m2 m1.
Proof. intros [p ->]. exists (data_seqno_prev_ m1). by destruct m1. Qed.

(** The messages of a topic sent to a subscriber, in order. *)
Definition sent_by (t : TopicUUID) (id : CopilotSub) (e : event) : option MessageData :=
  match e with
  | OnMessage (Data d) rs => if decide (data_uuid d = t /\ id ∈ rs) then Some (strip d) else None
  | _ => None
  end.

Definition sent (t : TopicUUID) (id : CopilotSub) (es : list event) : list MessageData := omap (sent_by t id) es.

Lemma sent_app t id es es' : sent t id (es ++ es') = sent t id es ++ sent t id es'.
Proof. apply omap_app. Qed.

Lemma sent_calls t id calls : sent t id (map Tailer calls) = [].
Proof. unfold sent. by induction calls. Qed.

(** What is sent is a record or a gap with its sequence numbers in order, to each
    recipient once. *)
Definition polite (e : event) : Prop :=
  match e with
  | OnMessage (Data d) rs => type_ (data_base d) = MessageType.mDeliver /\ data_seqno_prev_ d <= data_seqno_ d /\ NoDup rs
  | OnMessage (Gap g) rs => type_ (gap_base g) = MessageType.mGap /\ gap_from_ g <= gap_to_ g /\ NoDup rs
  | OnMessage _ _ => False
  | _ => True
  end.

Lemma polite_calls calls : Forall polite (map Tailer calls).
Proof. apply Forall_map, Forall_true. done. Qed.

(** The readers, by index. *)
Definition rd (self : TopicTailer) (i : option nat) : option LogReader :=
  match i with None => Some (pending_reader_ self) | Some i => log_readers_ self !! i end.

Lemma rd_get self i r : rd self i = Some r -> get_reader self i = Ok r.
Proof. destruct i; simpl; [by intros ->|by intros [= ->]]. Qed.

Lemma rd_set self i r : is_Some (rd self i) ->
  forall j, rd (set_reader i r self) j = if decide (j = i) then Some r else rd self j.
Proof.
  intros [x Hx] j. destruct i as [i|], j as [j|]; simpl in *; try done.
  destruct (decide (Some j = Some i)) as [[= ->]|Hne].
  - apply list_lookup_insert_eq. by eapply lookup_lt_Some.
  - apply list_lookup_insert_ne. congruence.
Qed.

Lemma find_reader_spec id i rs k : find_reader id i rs = Some k -> exists j r, k = (i + j)%nat /\ rs !! j = Some r /\ reader_id_ r = id.
Proof.
  revert i. induction rs as [|r rs IH]; intros i; simpl; [done|]. case_bool.
  - intros [= <-]. exists 0%nat, r. split_and!; [lia|done|done].
  - intros (j & r' & -> & ? & ?)%IH. exists (S j), r'. split_and!; [lia|done|done].
Qed.

Lemma FindLogReader_spec self id i : FindLogReader self id = Some i ->
  exists r, rd self (Some i) = Some r /\ reader_id_ r = id.
Proof. intros (j & r & -> & ? & ?)%find_reader_spec. by exists r. Qed.

Section Invariant.
Context (XXH64 : slice -> Z) (sizeof_MessageData sizeof_CacheEntry : Z).
Context (GetLogID : TopicUUID -> option Z) (copilot_worker : CopilotSub -> Z).
Context (log : Z -> Z -> option MessageData).

(** ** Records of the log *)

Record log_ok : Prop := {
  l_id : forall l q m, log l q = Some m -> fits 64 l;
  l_seqno : forall l q m, log l q = Some m -> data_seqno_ m = q /\ 0 < q < kMaxSeqno;
  l_topic : forall l q m, log l q = Some m -> topic_ok (data_namespaceid_ m, data_topic_name_ m);
  l_type : forall l q m, log l q = Some m -> type_ (data_base m) = MessageType.mDeliver;
  l_route : forall l q m, log l q = Some m -> GetLogID (data_uuid m) = Some l
}.

Definition record_of (l : Z) (t : TopicUUID) (q : Z) : option MessageData :=
  m ← log l q; if decide (data_uuid m = t) then Some (strip m) else None.

(** The records of a topic from [s] up to, and without, [s']. *)
Definition records (l : Z) (t : TopicUUID) (s s' : Z) : list MessageData := omap (record_of l t) (seqZ s (s' - s)).

(** No record of the topic from [s] up to, and without, [s']. *)
Definition no_record (l : Z) (t : TopicUUID) (s s' : Z) : Prop :=
  forall q m, s <= q < s' -> log l q = Some m -> data_uuid m <> t.

(** What is assumed of the rest of the program: sizes of objects, the log, the
    workers of subscribers, and the router. *)
Record environment_ok : Prop := {
  env_sizes : 0 <= sizeof_MessageData /\ 0 <= sizeof_CacheEntry;
  env_log : log_ok;
  env_workers : forall id, copilot_worker id <> -1;
  env_route : forall t l, GetLogID t = Some l -> fits 64 l
}.

(** ** The invariant *)

(** A reader has not passed a record of a topic since the topic's next sequence number. *)
Definition knows (r : LogReader) : Prop :=
  forall l t n p, next r l t = Some n -> pos r l = Some p -> no_record l t n (p + 1).

Definition reader_ok (r : LogReader) : Prop :=
  reader_wf r /\ knows r /\ 0 <= max_subscription_lag_ r <= kMaxSeqno.

(** The readers and the subscriptions. *)
Record core_ok (rd : option nat -> option LogReader) (mg : Z -> TopicManager.t) : Prop := {
  c_reader : forall i r, rd i = Some r -> reader_ok r /\ IsVirtual r = bool_decide (i = None);
  c_pending : is_Some (rd None);
  c_wf : forall l, TopicManager.wf (mg l);
  c_follow : forall i r l t n, rd i = Some r -> next r l t = Some n -> is_Some (mg l !! t);
  c_cover : forall l t id s, TopicManager.sub_at (mg l) t id = Some s ->
    exists i r n, rd i = Some r /\ next r l t = Some n /\ n <= s;
  c_bounds : forall l t id s, TopicManager.sub_at (mg l) t id = Some s -> 0 < s <= kMaxSeqno;
  c_topic : forall l t, is_Some (mg l !! t) -> valid_topic t
}.

(** Cached messages are records of the log. *)
Definition cache_agrees (dc : DataCache) : Prop :=
  DC_inv XXH64 dc /\
  forall l q m, fits 64 l -> fits 64 q -> msg_at dc l q = Some m -> exists m0, log l q = Some m0 /\ same_message m0 m.

Definition pending_ok (p : PendingSubscription) : Prop := fits 64 (pending_logid p) /\ 0 < pending_seqno p <= kMaxSeqno.

(** The queues of pending work. *)
Definition queues_ok (qs : gmap Z (ObservableMap.t CopilotSub PendingSubscription)) : Prop :=
  forall w q, qs !! w = Some q -> ObservableMap.sound q /\
    forall id p, lm_find id (ObservableMap.map_ q) = Some p -> copilot_worker id = w /\ pending_ok p.

Definition reentry_ok (rd : option nat -> option LogReader) (q : ObservableMap.t (Z * nat) unit) : Prop :=
  ObservableMap.sound q /\ forall l i u, lm_find (l, i) (ObservableMap.map_ q) = Some u -> fits 64 l /\ is_Some (rd (Some i)).

Definition streams_ok (m : SubscriptionMap.t TopicUUID) : Prop :=
  forall s i t, SubscriptionMap.Find m s i = Some t -> valid_topic t.

Definition tails_ok (m : gmap Z Z) : Prop := forall l q, m !! l = Some q -> 0 <= q <= kMaxSeqno.

Record tailer_ok (self : TopicTailer) : Prop := {
  ok_core : core_ok (rd self) (manager self);
  ok_cache : cache_agrees (data_cache_ self);
  ok_queues : queues_ok (cache_readers_ self);
  ok_reentry : reentry_ok (rd self) (reentry_cache_readers_ self);
  ok_streams : streams_ok (stream_subscriptions_ self);
  ok_tails : tails_ok (tail_seqno_cached_ self)
}.

(** ** What a step does *)

Definition subs (self : TopicTailer) (l : Z) (t : TopicUUID) (id : CopilotSub) : option Z :=
  TopicManager.sub_at (manager self l) t id.

(** What a subscription sees of a step. *)
Definition moved (l : Z) (t : TopicUUID) (s s' : option Z) (ms : list MessageData) : Prop :=
  match s with
  | Some s => exists x, s' = Some x /\ s <= x /\ ms = records l t s x
  | None => s' = None /\ ms = []
  end.

Record frame (self self' : TopicTailer) : Prop := {
  f_streams : stream_subscriptions_ self' = stream_subscriptions_ self;
  f_queues : cache_readers_ self' = cache_readers_ self;
  f_response : pending_find_time_response_ self' = pending_find_time_response_ self;
  f_requests : pending_find_time_requests_ self' = pending_find_time_requests_ self;
  f_max : max_find_time_requests self' = max_find_time_requests self;
  f_rd : forall i, is_Some (rd self' i) <-> is_Some (rd self i);
  f_topics : forall l t, is_Some (manager self' l !! t) <-> is_Some (manager self l !! t);
  f_reentry : ObservableMap.read_ready_fd_ (reentry_cache_readers_ self) <= ObservableMap.read_ready_fd_ (reentry_cache_readers_ self')
}.

Record stepped (self self' : TopicTailer) (es : list event) : Prop := {
  s_trace : trace_ self' = trace_ self ++ es;
  s_moved : forall l t id, GetLogID t = Some l -> moved l t (subs self l t id) (subs self' l t id) (sent t id es);
  s_frame : frame self self';
  s_polite : Forall polite es;
  s_subs : forall l t id, is_Some (subs self' l t id) <-> is_Some (subs self l t id);
  s_silent : forall t id, (forall l, subs self l t id = None) -> sent t id es = []
}.

(** Subscriptions move over a stretch without records, and are told by a gap message. *)
Definition gap_move (l : Z) (t : TopicUUID) (type n to : Z) (self : TopicTailer) : outcome TopicTailer :=
  let '(self, rs) := advance self l t n to (u64 (to + 1)) in send_gap t type n to rs self.

Record gap_moved (l : Z) (t : TopicUUID) (n to : Z) (self self' : TopicTailer) : Prop := {
  g_ok : tailer_ok self';
  g_step : exists es, stepped self self' es;
  g_rd : forall i, rd self' i = rd self i;
  g_cache : data_cache_ self' = data_cache_ self;
  g_subs : forall l' t' id, subs self' l' t' id =
    s ← subs self l' t' id; Some (if decide (l' = l /\ t' = t /\ n <= s <= to) then to + 1 else s)
}.

(** Nothing a reader follows was passed between its position and [q]. *)
Definition skips (r : LogReader) (l q : Z) : Prop :=
  forall p x m, pos r l = Some p -> p < x < q -> log l x = Some m -> next r l (data_uuid m) = None.

(** Block and message fit into the range of the cache's counters. *)
Definition cache_room (self : TopicTailer) (data : MessageData) : Prop :=
  block_size_ (data_cache_ self) <= kMaxSeqno /\
  GetCapacity (data_cache_ self) + GetInitialCharge sizeof_CacheEntry (data_cache_ self) +
    GetTotalSize sizeof_MessageData data < 2 ^ 64.

End Invariant.

#[global] Arguments l_id {_} {_} _.
#[global] Arguments l_seqno {_} {_} _.
#[global] Arguments l_topic {_} {_} _.
#[global] Arguments l_type {_} {_} _.
#[global] Arguments l_route {_} {_} _.
#[global] Arguments c_reader {_} {_} {_} _.
#[global] Arguments c_pending {_} {_} {_} _.
#[global] Arguments c_wf {_} {_} {_} _.
#[global] Arguments c_follow {_} {_} {_} _.
#[global] Arguments c_cover {_} {_} {_} _.
#[global] Arguments c_bounds {_} {_} {_} _.
#[global] Arguments c_topic {_} {_} {_} _.
#[global] Arguments ok_core {_} {_} {_} {_} _.
#[global] Arguments ok_cache {_} {_} {_} {_} _.
#[global] Arguments ok_queues {_} {_} {_} {_} _.
#[global] Arguments ok_reentry {_} {_} {_} {_} _.
#[global] Arguments ok_streams {_} {_} {_} {_} _.
#[global] Arguments ok_tails {_} {_} {_} {_} _.
#[global] Arguments f_streams {_} {_} _.
#[global] Arguments f_queues {_} {_} _.
#[global] Arguments f_response {_} {_} _.
#[global] Arguments f_requests {_} {_} _.
#[global] Arguments f_max {_} {_} _.
#[global] Arguments f_rd {_} {_} _.
#[global] Arguments f_topics {_} {_} _.
#[global] Arguments f_reentry {_} {_} _.
#[global] Arguments s_trace {_} {_} {_} {_} {_} _.
#[global] Arguments s_moved {_} {_} {_} {_} {_} _.
#[global] Arguments s_frame {_} {_} {_} {_} {_} _.
#[global] Arguments s_polite {_} {_} {_} {_} {_} _.
#[global] Arguments s_subs {_} {_} {_} {_} {_} _.
#[global] Arguments s_silent {_} {_} {_} {_} {_} _.
#[global] Arguments g_ok {_} {_} {_} {_} {_} {_} {_} {_} {_} {_} _.
#[global] Arguments g_step {_} {_} {_} {_} {_} {_} {_} {_} {_} {_} _.
#[global] Arguments g_rd {_} {_} {_} {_} {_} {_} {_} {_} {_} {_} _.
#[global] Arguments g_cache {_} {_} {_} {_} {_} {_} {_} {_} {_} {_} _.
#[global] Arguments g_subs {_} {_} {_} {_} {_} {_} {_} {_} {_} {_} _.
#[global] Arguments env_sizes {_} {_} {_} {_} {_} _.
#[global] Arguments env_log {_} {_} {_} {_} {_} _.
#[global] Arguments env_workers {_} {_} {_} {_} {_} _.
#[global] Arguments env_route {_} {_} {_} {_} {_} _.
