(* ===== verification/TopicTailerFacts.v ===== *)
(** * Elementary steps of the topic tailer

    The steps the handlers of the topic tailer are made of keep the invariant
    of TailerInv.v: readers that move on, subscriptions that advance over a
    record or a gap, bumps, and storing into the cache. *)

From S2P Require Import Prelude Coding CodingFacts Messages Containers LRUCache Bloom DataCache DataCacheFacts.
From S2P Require Import DataCacheVisit TopicManager LogReader LogReaderFacts TopicTailer TailerInv.

#[local] Open Scope outcome_scope.

Section Facts.
Context {XXH64 : slice -> Z} {sizeof_MessageData sizeof_CacheEntry : Z}.
Context {GetLogID : TopicUUID -> option Z} {copilot_worker : CopilotSub -> Z}.
Context {log : Z -> Z -> option MessageData}.

#[local] Abbreviation log_ok := (log_ok GetLogID log).
#[local] Abbreviation records := (records log).
#[local] Abbreviation no_record := (no_record log).
#[local] Abbreviation knows := (knows log).
#[local] Abbreviation reader_ok := (reader_ok log).
#[local] Abbreviation core_ok := (core_ok log).
#[local] Abbreviation queues_ok := (queues_ok copilot_worker).
#[local] Abbreviation cache_agrees := (cache_agrees XXH64 log).
#[local] Abbreviation tailer_ok := (tailer_ok XXH64 copilot_worker log).
#[local] Abbreviation moved := (moved log).
#[local] Abbreviation stepped := (stepped GetLogID log).
#[local] Abbreviation skips := (skips log).
#[local] Abbreviation gap_moved := (gap_moved XXH64 GetLogID copilot_worker log).
#[local] Abbreviation cache_room := (cache_room sizeof_MessageData sizeof_CacheEntry).

(** ** Records of the log *)

Lemma records_none l t s s' : no_record l t s s' -> records l t s s' = [].
Proof.
  intros Hn. unfold records. apply elem_of_nil_inv. intros m Hin. apply list_elem_of_omap in Hin as (q & Hq & Hm).
  apply elem_of_seqZ in Hq. unfold record_of in Hm. destruct (log l q) as [x|] eqn:E; [|done]. cbn in Hm.
  case_decide; [|done]. by destruct (Hn q x ltac:(lia) E).
Qed.

Lemma records_app l t s s1 s' : s <= s1 <= s' -> records l t s s' = records l t s s1 ++ records l t s1 s'.
Proof.
  intros Hs. unfold records. rewrite <-omap_app. f_equal.
  replace (s' - s) with ((s1 - s) + (s' - s1)) by lia. rewrite seqZ_app by lia. do 2 f_equal. lia.
Qed.

Lemma records_one l t s q m : s <= q -> no_record l t s q -> log l q = Some m -> data_uuid m = t ->
  records l t s (q + 1) = [strip m].
Proof.
  intros Hs Hn Hm Ht. rewrite (records_app _ _ _ q) by lia. rewrite records_none by done. unfold records.
  replace (q + 1 - q) with 1 by lia. rewrite seqZ_cons, (seqZ_nil _ (Z.pred 1)) by lia. cbn.
  unfold record_of. rewrite Hm. cbn. by rewrite decide_True.
Qed.

Lemma records_refl l t s : records l t s s = [].
Proof. apply records_none. intros q m Hq. lia. Qed.

(** ** Composing steps *)

Lemma moved_trans l t a b c ms ms' : moved l t a b ms -> moved l t b c ms' -> moved l t a c (ms ++ ms').
Proof.
  unfold moved. destruct a as [s|].
  - intros (x & -> & Hx & ->) (y & -> & Hy & ->). exists y. split_and!; [done|lia|]. symmetry. by apply records_app.
  - by intros [-> ->] [-> ->].
Qed.

Lemma moved_refl l t a : moved l t a a [].
Proof. destruct a as [s|]; [|done]. exists s. split_and!; [done|lia|]. by rewrite records_refl. Qed.

Lemma frame_refl self : frame self self.
Proof. by split. Qed.

Lemma frame_trans s1 s2 s3 : frame s1 s2 -> frame s2 s3 -> frame s1 s3.
Proof. intros [????? Hr1 Ht1 ?] [????? Hr2 Ht2 ?]. split; intros; try congruence; [by rewrite Hr2, Hr1|by rewrite Ht2, Ht1|lia]. Qed.

Lemma stepped_trans s1 s2 s3 es es' : stepped s1 s2 es -> stepped s2 s3 es' -> stepped s1 s3 (es ++ es').
Proof.
  intros [Ht1 Hm1 Hf1 Hp1 Hb1 Hs1] [Ht2 Hm2 Hf2 Hp2 Hb2 Hs2]. split; [by rewrite Ht2, Ht1, app_assoc| |by eapply frame_trans|by apply Forall_app| |].
  - intros l t id Hl. rewrite sent_app. eapply moved_trans; eauto.
  - intros l t id. by rewrite Hb2, Hb1.
  - intros t id Hno. rewrite sent_app, (Hs1 t id Hno), Hs2; [done|]. intros l. apply eq_None_not_Some. rewrite Hb1, Hno. by intros [].
Qed.

(** A step that touches no subscription and delivers nothing. *)
Lemma stepped_quiet self self' es : trace_ self' = trace_ self ++ es -> (forall t id, sent t id es = []) ->
  (forall l, manager self' l = manager self l) -> frame self self' -> Forall polite es -> stepped self self' es.
Proof.
  intros Ht Hs Hm Hf Hp. split; [done| |done|done| |by intros].
  - intros l t id _. unfold subs. rewrite Hm, Hs. apply moved_refl.
  - intros l t id. unfold subs. by rewrite Hm.
Qed.

Lemma stepped_refl self : stepped self self [].
Proof. apply stepped_quiet; [by rewrite app_nil_r|done|done|apply frame_refl|constructor]. Qed.

(** ** Elementary steps *)

Lemma manager_set self l m l' : manager (set_manager l m self) l' = if decide (l' = l) then m else manager self l'.
Proof.
  unfold manager, set_manager. cbn [topic_map_ set_topic_map]. case_decide as E; [subst|].
  - by rewrite lookup_insert_eq.
  - by rewrite lookup_insert_ne.
Qed.

Lemma manager_set_same self l : forall l', manager (set_manager l (manager self l) self) l' = manager self l'.
Proof. intros l'. rewrite manager_set. by case_decide; subst. Qed.

Lemma manager_set_reader self i r : manager (set_reader i r self) = manager self.
Proof. by destruct i. Qed.

(** The invariant depends on readers, managers, cache and queues only. *)
Lemma tailer_ok_ext self self' : tailer_ok self ->
  (forall i, rd self' i = rd self i) -> (forall l, manager self' l = manager self l) ->
  cache_agrees (data_cache_ self') -> queues_ok (cache_readers_ self') ->
  reentry_ok (rd self) (reentry_cache_readers_ self') -> streams_ok (stream_subscriptions_ self') ->
  tails_ok (tail_seqno_cached_ self') -> tailer_ok self'.
Proof.
  intros [[? ? ? ? Hcov ? ?] _ _ _ _ _] Hr Hm Hc Hq [Hri Hre] Hs Htl. split; try done.
  - split.
    + intros i r. rewrite Hr. auto.
    + by rewrite Hr.
    + intros l. rewrite Hm. auto.
    + intros i r l t n. rewrite Hr, Hm. eauto.
    + intros l t id s. rewrite Hm. intros (i & r & n & ? & ?)%Hcov. exists i, r, n. by rewrite Hr.
    + intros l t id s. rewrite Hm. eauto.
    + intros l t. rewrite Hm. eauto.
  - split; [done|]. intros l i u. rewrite Hr. eauto.
Qed.

Lemma emit_ok es self : tailer_ok self -> tailer_ok (emit es self).
Proof. intros Hok. destruct Hok. by split. Qed.

Lemma emit_stepped es self : (forall t id, sent t id es = []) -> Forall polite es -> stepped self (emit es self) es.
Proof. intros Hs Hp. by apply stepped_quiet. Qed.

Lemma update_tail_ok l q self : tailer_ok self -> 0 <= q < kMaxSeqno -> tailer_ok (update_tail l q self) /\ stepped self (update_tail l q self) [].
Proof.
  intros Hok Hq. unfold update_tail. destruct (tail_seqno_cached_ self !! l) as [x|]; [|split; [done|apply stepped_refl]].
  case_bool; [|split; [done|apply stepped_refl]]. split.
  { apply (tailer_ok_ext self); try done; try apply Hok. intros l' y. cbn. destruct (decide (l' = l)) as [->|].
    - rewrite lookup_insert_eq, wrap_small by (unfold fits, kMaxSeqno in *; lia). intros [= <-]. lia.
    - rewrite lookup_insert_ne by done. apply (ok_tails Hok). }
  apply stepped_quiet; try done. by rewrite app_nil_r.
Qed.

(** A reader moves on, past no subscription. *)
Lemma reader_forward self i r r' : tailer_ok self -> rd self i = Some r -> reader_ok r' -> same_reader r r' ->
  (forall l t n', next r' l t = Some n' -> exists n, next r l t = Some n /\
     (forall id x, subs self l t id = Some x -> n <= x -> n' <= x)) ->
  (forall l t n, next r l t = Some n -> is_Some (next r' l t)) ->
  tailer_ok (set_reader i r' self) /\ stepped self (set_reader i r' self) [].
Proof.
  intros Hok Hi Hr' [Hv _] Hback Hforth. pose proof (rd_set self i r' ltac:(eauto)) as Hrd. pose proof (ok_core Hok) as Hc.
  assert (frame self (set_reader i r' self)) as Hf.
  { split; [by destruct i..| |by intros; rewrite manager_set_reader|by destruct i].
    intros j. rewrite Hrd. case_decide; [subst; split; eauto|done]. }
  split; [|apply stepped_quiet; [by destruct i; rewrite ?app_nil_r|done|by intros; rewrite manager_set_reader|done|constructor]].
  split.
  - split; rewrite ?manager_set_reader.
    + intros j x. rewrite Hrd. case_decide; [intros [= <-]; subst|apply (c_reader Hc)].
      split; [done|]. rewrite Hv. by apply (c_reader Hc).
    + rewrite Hrd. case_decide; [done|apply (c_pending Hc)].
    + apply (c_wf Hc).
    + intros j x l t n. rewrite Hrd. case_decide; [intros [= <-]; subst|apply (c_follow Hc)].
      intros (n0 & Hn0 & _)%Hback. by eapply (c_follow Hc).
    + intros l t id s Hs. destruct (c_cover Hc l t id s Hs) as (j & x & n & Hj & Hn & Hle).
      destruct (decide (j = i)) as [->|Hne].
      * simplify_eq. destruct (Hforth l t n Hn) as [n' Hn']. destruct (Hback l t n' Hn') as (n0 & Hn0 & Hx). simplify_eq.
        exists i, r', n'. rewrite Hrd, decide_True by done. split_and!; eauto.
      * exists j, x, n. rewrite Hrd, decide_False by done. done.
    + apply (c_bounds Hc).
    + apply (c_topic Hc).
  - by destruct i; apply Hok.
  - by destruct i; apply Hok.
  - destruct (ok_reentry Hok) as [Hi1 Hi2]. split; [by destruct i|]. intros l k u Hin.
    destruct (Hi2 l k u) as [? Hk]; [by destruct i|]. split; [done|]. by apply (f_rd Hf).
  - by destruct i; apply Hok.
  - by destruct i; apply Hok.
Qed.

(** Subscriptions of a range move on, and nothing is sent yet. *)
Lemma advance_ok self l t n to self' ids : tailer_ok self -> 0 <= to < kMaxSeqno ->
  advance self l t n to (u64 (to + 1)) = (self', ids) ->
  tailer_ok self' /\ frame self self' /\ trace_ self' = trace_ self /\ (forall i, rd self' i = rd self i) /\
  data_cache_ self' = data_cache_ self /\ reentry_cache_readers_ self' = reentry_cache_readers_ self /\
  (forall id, id ∈ ids <-> exists s, subs self l t id = Some s /\ n <= s <= to) /\
  (forall l' t' id, subs self' l' t' id =
    s ← subs self l' t' id; Some (if decide (l' = l /\ t' = t /\ n <= s <= to) then to + 1 else s)) /\
  NoDup ids /\ (ids <> [] -> n <= to).
Proof.
  intros Hok Hto. unfold advance. rewrite wrap_small by (unfold fits, kMaxSeqno in *; lia).
  pose proof (ok_core Hok) as Hc.
  pose proof (TopicManager.VisitSubscribers_spec (manager self l) t n to (to + 1) (c_wf Hc l)) as Hv.
  destruct (TopicManager.VisitSubscribers _ _ _ _ _) as [m ids']. intros [= <- <-].
  destruct Hv as (Hwf & Hnd & Hdom & Hids & Hsub).
  assert (forall l' t', is_Some (manager (set_manager l m self) l' !! t') <-> is_Some (manager self l' !! t')) as Htop.
  { intros l' t'. rewrite manager_set. case_decide; [subst|done]. by rewrite <-!elem_of_dom, Hdom. }
  assert (forall l' t' id, subs (set_manager l m self) l' t' id =
    s ← subs self l' t' id; Some (if decide (l' = l /\ t' = t /\ n <= s <= to) then to + 1 else s)) as Hsubs.
  { intros l' t' id. unfold subs at 1. rewrite manager_set. case_decide as El.
    - subst l'. rewrite Hsub. unfold subs. destruct (TopicManager.sub_at (manager self l) t' id) as [s|]; [|done].
      cbn. f_equal. case_bool_decide; repeat case_bool; case_decide; cbn; try lia; naive_solver lia.
    - unfold subs. destruct (TopicManager.sub_at (manager self l') t' id) as [s|]; [|done]. cbn.
      by rewrite decide_False by naive_solver. }
  split_and!; try done.
  - split; try apply Hok. split.
    + apply (c_reader Hc).
    + apply (c_pending Hc).
    + intros l'. rewrite manager_set. case_decide; [done|apply (c_wf Hc)].
    + intros i r l' t' x Hi Hx. apply Htop. by eapply (c_follow Hc).
    + intros l' t' id s Hs. change (subs (set_manager l m self) l' t' id = Some s) in Hs. rewrite Hsubs in Hs.
      destruct (subs self l' t' id) as [s0|] eqn:Es; [|done]. cbn in Hs.
      destruct (c_cover Hc l' t' id s0 Es) as (i & r & x & ? & ? & ?). exists i, r, x. split_and!; try done.
      case_decide; simplify_eq; lia.
    + intros l' t' id s Hs. change (subs (set_manager l m self) l' t' id = Some s) in Hs. rewrite Hsubs in Hs.
      destruct (subs self l' t' id) as [s0|] eqn:Es; [|done]. cbn in Hs.
      pose proof (c_bounds Hc l' t' id s0 Es). unfold kMaxSeqno in *. case_decide; simplify_eq; lia.
    + intros l' t' Ht'. apply (c_topic Hc l'). by apply Htop.
  - destruct ids' as [|x ids']; [done|]. intros _. destruct (proj1 (Hids x) ltac:(by left)) as (s & _ & Hs). lia.
Qed.

(** What an advance moves, when the range holds no record the subscriber misses. *)
Lemma moved_advance l t n to s ms :
  (forall x, s = Some x -> n <= x <= to -> ms = records l t x (to + 1)) ->
  (forall x, s = Some x -> ~ (n <= x <= to) -> ms = []) -> (s = None -> ms = []) ->
  moved l t s (x ← s; Some (if decide (n <= x <= to) then to + 1 else x)) ms.
Proof.
  destruct s as [x|]; cbn; [|intros _ _ H; auto]. intros H1 H2 _. case_decide.
  - exists (to + 1). split_and!; [done|lia|auto].
  - exists x. split_and!; [done|lia|]. rewrite records_refl. eauto.
Qed.

Lemma send_gap_emits t type n to ids self : valid_topic t -> NoDup ids -> (ids <> [] -> n <= to) ->
  exists es, send_gap t type n to ids self = Ok (emit es self) /\ (forall t' id, sent t' id es = []) /\ Forall polite es.
Proof.
  intros (ns & topic & Hok & ->) Hnd Hle. unfold send_gap. destruct ids as [|id ids].
  - exists []. split_and!; [|done|constructor]. unfold emit. rewrite app_nil_r. by destruct self.
  - rewrite UUID_roundtrip by done. cbn. eexists. split_and!; [done|done|]. constructor; [|constructor]. cbn. split_and!; [done|by apply Hle|done].
Qed.

Lemma gap_move_spec l t type n to self : tailer_ok self -> 0 <= to < kMaxSeqno -> valid_topic t ->
  (forall id x, subs self l t id = Some x -> n <= x <= to -> no_record l t x (to + 1)) ->
  exists self', gap_move l t type n to self = Ok self' /\ gap_moved l t n to self self'.
Proof.
  intros Hok Hto Ht Hno. unfold gap_move. destruct (advance _ _ _ _ _ _) as [self1 ids] eqn:Ea.
  destruct (advance_ok _ _ _ _ _ _ _ Hok Hto Ea) as (Hok1 & Hf & Htr & Hrd & Hdc & Hre & Hids & Hsub & Hnd & Hle).
  destruct (send_gap_emits t type n to ids self1 Ht Hnd Hle) as (es & -> & Hes & Hpol). eexists. split; [done|].
  split; [by apply emit_ok| |done|done|done].
  exists es. split; [by simpl; rewrite Htr| |destruct Hf; by split|done| |by intros].
  2: { intros l' t' id. change (subs (emit es self1) l' t' id) with (subs self1 l' t' id). rewrite Hsub. by destruct (subs self l' t' id). }
  intros l' t' id Hl'. rewrite Hes. change (subs (emit es self1) l' t' id) with (subs self1 l' t' id). rewrite Hsub.
  destruct (decide (l' = l /\ t' = t)) as [[-> ->]|Hne].
  - erewrite option_bind_ext_fun; [apply (moved_advance l t n to)|]; [|done|done|].
    + intros x Hx Hin. symmetry. apply records_none. eauto.
    + intros x. simpl. f_equal. repeat case_decide; try lia; naive_solver.
  - destruct (subs self l' t' id) as [x|] eqn:Ex; cbn; [|done]. rewrite decide_False by naive_solver.
    exists x. split_and!; [done|lia|]. by rewrite records_refl.
Qed.

(** A record is sent to the subscriptions of its topic that wait for it. *)
Lemma deliver_record_spec l data m0 n self self' data' ids : log_ok -> tailer_ok self ->
  log l (data_seqno_ data) = Some m0 -> same_message m0 data ->
  no_record l (data_uuid data) n (data_seqno_ data) ->
  deliver_record self l data n = (self', data', ids) ->
  same_message data data' /\ exists es, tailer_ok self' /\ stepped self self' es /\ (forall i, rd self' i = rd self i) /\
    data_cache_ self' = data_cache_ self /\
    (forall l' t' id, subs self' l' t' id = s ← subs self l' t' id;
       Some (if decide (l' = l /\ t' = data_uuid data /\ n <= s <= data_seqno_ data) then data_seqno_ data + 1 else s)).
Proof.
  intros Hlog Hok Hm0 Hsame Hno. set (q := data_seqno_ data) in *. set (u := data_uuid data) in *.
  destruct (l_seqno Hlog _ _ _ Hm0) as [_ Hq]. assert (0 <= q < kMaxSeqno) as Hq' by lia. unfold deliver_record. fold q u.
  destruct (advance _ _ _ _ _ _) as [self1 ids1] eqn:Ea.
  destruct (advance_ok _ _ _ _ _ _ _ Hok Hq' Ea) as (Hok1 & Hf & Htr & Hrd & Hdc & Hre & Hids & Hsub & Hnd & Hle).
  set (es := match ids1 with [] => [] | _ => [OnMessage (Data (SetPreviousSequenceNumber n data)) ids1] end).
  assert (forall t id, sent t id es = if decide (t = u /\ id ∈ ids1) then [strip m0] else []) as Hes.
  { intros t id. rewrite <-(strip_same _ _ Hsame). unfold es. destruct ids1 as [|a ids1].
    - rewrite decide_False by set_solver. done.
    - cbn. change (data_uuid (SetPreviousSequenceNumber n data)) with u. repeat case_decide; try done; naive_solver. }
  assert (forall self2, self2 = emit es self1 -> tailer_ok self2 /\ stepped self self2 es /\ (forall i, rd self2 i = rd self i) /\
    data_cache_ self2 = data_cache_ self /\ (forall l' t' id, subs self2 l' t' id = s ← subs self l' t' id;
       Some (if decide (l' = l /\ t' = u /\ n <= s <= q) then q + 1 else s))) as Hgoal.
  { intros self2 ->. split_and!; [by apply emit_ok| |done|done|done].
    split; [by simpl; rewrite Htr| |destruct Hf; by split| | |].
    3: { intros l' t' id. change (subs (emit es self1) l' t' id) with (subs self1 l' t' id). rewrite Hsub. by destruct (subs self l' t' id). }
    3: { intros t' id Hn. rewrite Hes, decide_False; [done|]. intros [-> Hin]. apply Hids in Hin as (x & Hx & _). by rewrite Hn in Hx. }
    2: { unfold es. destruct ids1 as [|a ids1]; [constructor|]. constructor; [|constructor]. cbn. split_and!; [|by apply Hle|done].
         destruct Hsame as [p ->]. by apply (l_type Hlog _ _ _ Hm0). }
    intros l' t' id Hl'. change (subs (emit es self1) l' t' id) with (subs self1 l' t' id). rewrite Hsub, Hes.
    assert (data_uuid m0 = u) as Hu by (symmetry; by apply same_message_fields).
    destruct (decide (l' = l /\ t' = u)) as [[-> ->]|Hne].
    - erewrite option_bind_ext_fun; [apply (moved_advance l u n q)|].
      + intros x Hx Hin. rewrite decide_True by (split; [done|apply Hids; eauto]). symmetry.
        apply records_one; [lia| |done|done]. intros y m Hy. apply Hno. lia.
      + intros x Hx Hin. rewrite decide_False; [done|]. intros [_ Hid]. apply Hids in Hid as (? & ? & ?). naive_solver.
      + intros Hx. rewrite decide_False; [done|]. intros [_ Hid]. apply Hids in Hid as (? & ? & ?). naive_solver.
      + intros x. simpl. f_equal. repeat case_decide; try lia; naive_solver.
    - assert (t' <> u) as Hu'.
      { intros ->. apply Hne. split; [|done]. pose proof (l_route Hlog _ _ _ Hm0). congruence. }
      rewrite decide_False by tauto. destruct (subs self l' t' id) as [x|] eqn:Ex; cbn; [|done].
      rewrite decide_False by naive_solver. exists x. split_and!; [done|lia|]. by rewrite records_refl. }
  destruct ids1 as [|a ids1]; intros [= <- <- <-].
  - split; [apply same_message_refl|]. exists []. apply Hgoal. unfold es, emit. rewrite app_nil_r. by destruct self1.
  - split; [by exists n|]. exists es. by apply Hgoal.
Qed.

(** ** Records *)

Lemma deliver_record_set_reader i r self l data n :
  deliver_record (set_reader i r self) l data n =
    let '(self1, data', ids) := deliver_record self l data n in (set_reader i r self1, data', ids).
Proof.
  unfold deliver_record, advance. rewrite manager_set_reader.
  destruct (TopicManager.VisitSubscribers _ _ _ _ _) as [m [|id ids]]; by destruct i.
Qed.

Lemma ProcessRecord_ok r l q m0 p : log_ok -> reader_ok r -> pos r l = Some p -> log l q = Some m0 -> skips r l q ->
  exists r', ProcessRecord r l q (data_uuid m0) = Ok (r', default 0 (next r l (data_uuid m0))) /\
    reader_ok r' /\ same_reader r r' /\ (forall l', pos r' l' = if decide (l' = l) then Some q else pos r l') /\
    (forall l' t', next r' l' t' =
      if decide (l' = l /\ t' = data_uuid m0) then const (q + 1) <$> next r l (data_uuid m0) else next r l' t').
Proof.
  intros Hlog (Hwf & Hk & Hlag) Hp Hm0 Hs. destruct (l_seqno Hlog _ _ _ Hm0) as [Hq Hb]. unfold kMaxSeqno in Hb.
  destruct (ProcessRecord_spec r l q (data_uuid m0) Hwf ltac:(eauto) ltac:(lia) ltac:(lia)) as (r' & E & Hwf' & Hsr & Hpos & Hnext).
  exists r'. split_and!; try done. split_and!; [done| |destruct Hsr as (_ & _ & ->); lia|destruct Hsr as (_ & _ & ->); lia].
  intros l' t' n p'. rewrite Hpos, Hnext. destruct (decide (l' = l)) as [->|Hl'].
  - intros Hn [= <-]. destruct (decide (t' = data_uuid m0)) as [->|Ht].
    + rewrite decide_True in Hn by done. destruct (next r l (data_uuid m0)); [|done]. cbn in Hn. simplify_eq. intros x m Hx. lia.
    + rewrite decide_False in Hn by tauto. intros x m Hx Hm Hu. subst t'. destruct (decide (x <= p)).
      * by eapply (Hk l _ n p Hn Hp x m); [lia|..].
      * destruct (decide (x = q)) as [->|]; [congruence|]. rewrite (Hs p x m Hp ltac:(lia) Hm) in Hn. done.
  - rewrite decide_False by tauto. apply Hk.
Qed.

(** Reading a record: the reader and the subscriptions of the topic move past it. *)
Lemma record_step self i r l data m0 p : log_ok -> tailer_ok self -> rd self (Some i) = Some r ->
  pos r l = Some p -> log l (data_seqno_ data) = Some m0 -> same_message m0 data -> p < data_seqno_ data ->
  skips r l (data_seqno_ data) ->
  exists r' self' data', ProcessRecord r l (data_seqno_ data) (data_uuid data) = Ok (r', default 0 (next r l (data_uuid data))) /\
    (if default 0 (next r l (data_uuid data)) =? 0 then (set_reader (Some i) r' self, data)
     else let '(self, data, _) := deliver_record (set_reader (Some i) r' self) l data (default 0 (next r l (data_uuid data))) in
          (self, data)) = (self', data') /\
    same_message data data' /\ tailer_ok self' /\ (exists es, stepped self self' es) /\ rd self' (Some i) = Some r' /\
    data_cache_ self' = data_cache_ self /\ reader_ok r' /\ same_reader r r' /\
    (forall l', pos r' l' = if decide (l' = l) then Some (data_seqno_ data) else pos r l').
Proof.
  intros Hlog Hok Hi Hp Hm0 Hsame Hpq Hs. set (q := data_seqno_ data) in *. set (u := data_uuid data) in *.
  destruct (c_reader (ok_core Hok) _ _ Hi) as [Hr _]. pose proof Hr as (Hwf & Hk & _).
  assert (data_uuid m0 = u) as Hu by (symmetry; by apply same_message_fields).
  destruct (ProcessRecord_ok r l q m0 p Hlog Hr Hp Hm0 Hs) as (r' & E & Hr' & Hsr & Hpos & Hnext). rewrite Hu in *.
  rewrite E. exists r'. destruct (next r l u) as [n|] eqn:En.
  - pose proof (next_bounds r l u n Hwf En). change (default 0 (Some n)) with n. rewrite (proj2 (Z.eqb_neq n 0)) by lia.
    rewrite deliver_record_set_reader. destruct (deliver_record self l data n) as [[self1 data'] ids] eqn:Ed.
    eapply deliver_record_spec in Ed as (Hd & es & Hok1 & Hst & Hrd & Hdc & Hsub); try done.
    + fold q u in Hsub. destruct (reader_forward self1 (Some i) r r' Hok1 ltac:(by rewrite Hrd) Hr' Hsr) as [Hok2 Hst2].
      * intros l' t' n'. rewrite Hnext. case_decide as Hd'; [|intros Hn'; exists n'; split; [done|by intros]].
        destruct Hd' as [-> ->]. cbn [fmap option_fmap option_map]. unfold const. intros [= <-]. exists n. split; [done|]. intros id x. rewrite Hsub.
        destruct (subs self l u id) as [x0|]; cbn [mbind option_bind]; [case_decide|]; intros; simplify_eq; [lia|]. apply Z.le_succ_l, Z.nle_gt. naive_solver.
      * intros l' t' n'. rewrite Hnext. case_decide as Hd'; [intros _; by eexists|eauto].
      * eexists _, data'. split_and!; try done; [eexists; by eapply stepped_trans|].
        rewrite rd_set by (rewrite Hrd; eauto). by rewrite decide_True.
    + intros x m Hx Hm. destruct (decide (x <= p)); [exact (Hk l u n p En Hp x m ltac:(lia) Hm)|].
      intros Hux. specialize (Hs p x m Hp ltac:(lia) Hm). fold u in Hux. rewrite Hux, En in Hs. done.
  - change (default 0 None =? 0) with true. destruct (reader_forward self (Some i) r r' Hok Hi Hr' Hsr) as [Hok2 Hst2].
    + intros l' t' n'. rewrite Hnext. case_decide; [done|]. intros Hn'. exists n'. split; [done|by intros].
    + intros l' t' n' Hn'. rewrite Hnext. case_decide as Hd'; [|eauto]. destruct Hd' as [-> ->]. congruence.
    + eexists _, data. split_and!; try done; [apply same_message_refl|by eexists|].
      rewrite rd_set by eauto. by rewrite decide_True.
Qed.

(** *** Bumping *)

Lemma followed_topic self i r l t n : tailer_ok self -> rd self i = Some r -> next r l t = Some n -> valid_topic t.
Proof. intros Hok Hi Hn. apply (c_topic (ok_core Hok) l). by eapply (c_follow (ok_core Hok)). Qed.

Lemma on_bump_ok self i r l t n q : tailer_ok self -> rd self i = Some r -> next r l t = Some n -> pos r l = Some q ->
  0 <= q < kMaxSeqno -> exists self', on_bump l q t n self = Ok self' /\ gap_moved l t n q self self'.
Proof.
  intros Hok Hi Hn Hp Hq. apply (gap_move_spec l t kBenign n q self Hok Hq); [by eapply followed_topic|].
  intros id x _ Hx y m Hy. destruct (c_reader (ok_core Hok) _ _ Hi) as [(_ & Hk & _) _].
  apply (Hk l t n q Hn Hp). lia.
Qed.

Lemma run_bumps_ok i r l q bs : 0 <= q < kMaxSeqno -> pos r l = Some q -> NoDup (map fst bs) ->
  (forall t n, (t, n) ∈ bs -> next r l t = Some n) ->
  forall self self', tailer_ok self -> rd self i = Some r -> run_bumps (on_bump l q) bs self = Ok self' ->
  tailer_ok self' /\ (exists es, stepped self self' es) /\ (forall j, rd self' j = rd self j) /\
  data_cache_ self' = data_cache_ self /\
  (forall t n id x, (t, n) ∈ bs -> subs self' l t id = Some x -> n <= x -> q + 1 <= x) /\
  (forall l' t id, l' <> l \/ t ∉ map fst bs -> subs self' l' t id = subs self l' t id).
Proof.
  intros Hq Hp. induction bs as [|[t n] bs IH]; intros Hnd Hb self self' Hok Hi; cbn [run_bumps].
  - intros [= <-]. split_and!; try done; [eexists; apply stepped_refl|set_solver].
  - cbn [map fst] in Hnd. apply NoDup_cons in Hnd as [Hnt Hnd].
    destruct (on_bump_ok self i r l t n q Hok Hi ltac:(set_solver) Hp Hq) as (self1 & E & [Hok1 [es1 Hst1] Hrd1 Hdc1 Hsub1]).
    rewrite E. cbn [obind]. intros Hrun.
    destruct (IH Hnd ltac:(set_solver) self1 self' Hok1 ltac:(by rewrite Hrd1) Hrun) as (Hok2 & [es2 Hst2] & Hrd2 & Hdc2 & Hs2 & Hframe).
    split_and!; try done.
    + eexists. by eapply stepped_trans.
    + intros j. by rewrite Hrd2.
    + congruence.
    + intros t' n' id x [[= -> ->]|Hin]%elem_of_cons; [|by eapply Hs2].
      rewrite Hframe by auto. rewrite Hsub1. destruct (subs self l t id) as [x0|]; cbn; [case_decide|]; intros; simplify_eq; [lia|].
      apply Z.le_succ_l, Z.nle_gt. naive_solver.
    + intros l' t' id Hne. rewrite Hframe by set_solver. rewrite Hsub1. destruct (subs self l' t' id); [|done]. cbn.
      rewrite decide_False; [done|]. set_solver.
Qed.

Lemma Bump_ok self i r l q : tailer_ok self -> rd self (Some i) = Some r -> pos r l = Some q -> 0 <= q < kMaxSeqno ->
  exists r' self1, BumpLaggingSubscriptions (on_bump l q) r l q self = Ok (r', self1) /\
    tailer_ok (set_reader (Some i) r' self1) /\ (exists es, stepped self (set_reader (Some i) r' self1) es) /\
    rd (set_reader (Some i) r' self1) (Some i) = Some r' /\ (forall l', pos r' l' = pos r l') /\
    data_cache_ (set_reader (Some i) r' self1) = data_cache_ self.
Proof.
  intros Hok Hi Hp Hq. destruct (c_reader (ok_core Hok) _ _ Hi) as [(Hwf & Hk & Hlag) _].
  set (I s := tailer_ok s /\ rd s (Some i) = Some r).
  destruct (Bump_spec (on_bump l q) I r l q self) as (r' & self1 & bs & E & Hrun & [Hok1 Hi1] & Hnd & Hbs & Hwf' & Hsr & Hpos & Hnext);
    try done; try (unfold kMaxSeqno in *; lia).
  { intros t n s Hn [Hs Hsi]. destruct (on_bump_ok s (Some i) r l t n q Hs Hsi Hn Hp Hq) as (s' & Es & Hg).
    exists s'. split; [done|]. split; [apply (g_ok Hg)|]. by rewrite (g_rd Hg). }
  destruct (run_bumps_ok (Some i) r l q bs Hq Hp Hnd Hbs self self1 Hok Hi Hrun) as (_ & [es Hst] & Hrd & Hdc & Hmv & _).
  exists r', self1. split; [done|].
  destruct (reader_forward self1 (Some i) r r' Hok1 Hi1) as [Hok2 Hst2].
  - split_and!; [done| |destruct Hsr as (_ & _ & ->); lia..]. intros l' t n p. rewrite Hpos, Hnext. case_decide as Hd; [|apply Hk].
    destruct Hd as [-> _]. intros [= <-] Hp'. simplify_eq. intros x m Hx. lia.
  - done.
  - intros l' t n'. rewrite Hnext. case_decide as Hd; [|intros Hn; exists n'; split; [done|by intros]].
    destruct Hd as [-> Ht]. intros [= <-]. apply list_elem_of_fmap in Ht as ([t' n] & -> & Hin). simpl.
    exists n. split; [by apply Hbs|]. intros id x. by apply (Hmv t' n).
  - intros l' t n Hn. rewrite Hnext. case_decide; eauto.
  - split_and!; try done; [eexists; by eapply stepped_trans|]. rewrite rd_set by eauto. by rewrite decide_True.
Qed.

(** *** Storing into the cache *)

Context (sizes_nonneg : 0 <= sizeof_MessageData /\ 0 <= sizeof_CacheEntry).

Lemma set_data_cache_ok dc self : tailer_ok self -> cache_agrees dc ->
  tailer_ok (set_data_cache dc self) /\ stepped self (set_data_cache dc self) [].
Proof.
  intros Hok Hdc. split; [by apply (tailer_ok_ext self); try done; apply Hok|].
  apply stepped_quiet; try done. by rewrite app_nil_r.
Qed.

Lemma StoreData_ok self l data m0 : log_ok -> tailer_ok self -> cache_room self data ->
  log l (data_seqno_ data) = Some m0 -> same_message m0 data ->
  exists dc, StoreData XXH64 sizeof_MessageData sizeof_CacheEntry (data_cache_ self) (data_namespaceid_ data)
    (data_topic_name_ data) l data = Ok dc /\ cache_agrees dc.
Proof.
  intros Hlog Hok [Hbs Hroom] Hm0 Hsame. destruct (ok_cache Hok) as [Hdc Hag].
  destruct (l_seqno Hlog _ _ _ Hm0) as [_ Hq]. unfold kMaxSeqno in *. pose proof (l_id Hlog _ _ _ Hm0) as Hl.
  destruct (StoreData_total XXH64 sizeof_MessageData sizeof_CacheEntry (data_cache_ self) (data_namespaceid_ data) l data sizes_nonneg Hdc)
    as (dc & E & Hdc' & _ & Hm & _).
  { split_and!; try done; try lia. intros old Hold. destruct (Hag l (data_seqno_ data) old Hl) as (m1 & Hm1 & [p1 ->]); [unfold fits; lia|done|].
    destruct Hsame as [p0 ->]. simpl in *. by simplify_eq. }
  exists dc. split; [done|]. split; [done|]. intros l' q' m Hl' Hq' Hm'.
  destruct (Hm l' q' Hl' Hq') as [E1|[E1|(-> & -> & _ & E1)]]; rewrite E1 in Hm'; [by apply Hag|done|].
  simplify_eq. by exists m0.
Qed.

Lemma update_tail_set_reader l q i r self : update_tail l q (set_reader i r self) = set_reader i r (update_tail l q self).
Proof. unfold update_tail. destruct i; cbn; destruct (tail_seqno_cached_ self !! l); try done; by case_bool. Qed.

Lemma update_tail_fields l q self : (forall i, rd (update_tail l q self) i = rd self i) /\
  data_cache_ (update_tail l q self) = data_cache_ self /\ manager (update_tail l q self) = manager self.
Proof. unfold update_tail. destruct (tail_seqno_cached_ self !! l); [|done]. by case_bool. Qed.

(** Storing the message is the last part of receiving it. *)
Lemma store_step self l data m0 : log_ok -> tailer_ok self -> cache_room self data ->
  log l (data_seqno_ data) = Some m0 -> same_message m0 data ->
  exists dc, StoreData XXH64 sizeof_MessageData sizeof_CacheEntry (data_cache_ self) (data_namespaceid_ data)
    (data_topic_name_ data) l data = Ok dc /\
    tailer_ok (set_data_cache dc self) /\ stepped self (set_data_cache dc self) [].
Proof.
  intros Hlog Hok Hroom Hm0 Hsame. destruct (StoreData_ok self l data m0 Hlog Hok Hroom Hm0 Hsame) as (dc & E & Hag).
  exists dc. split; [done|]. by apply set_data_cache_ok.
Qed.

Lemma cache_room_same self self' data data' : data_cache_ self' = data_cache_ self -> same_message data data' ->
  cache_room self data -> cache_room self' data'.
Proof. unfold cache_room. intros -> [p ->]. done. Qed.

Lemma ReceiveLogRecord_ok self i r l data m0 p : log_ok -> tailer_ok self -> cache_room self data ->
  rd self (Some i) = Some r -> pos r l = Some p -> data_seqno_ data = u64 (p + 1) ->
  log l (data_seqno_ data) = Some m0 -> same_message m0 data ->
  exists self' r', ReceiveLogRecord XXH64 sizeof_MessageData sizeof_CacheEntry self data l i = Ok self' /\
    tailer_ok self' /\ (exists es, stepped self self' es) /\
    rd self' (Some i) = Some r' /\ pos r' l = Some (data_seqno_ data).
Proof.
  intros Hlog Hok Hroom Hi Hp Hq Hm0 Hsame. pose proof (l_seqno Hlog _ _ _ Hm0) as [_ Hqb].
  destruct (c_reader (ok_core Hok) _ _ Hi) as [(Hwf & _) _]. pose proof (pos_bounds _ _ _ Hwf Hp) as Hpb.
  assert (data_seqno_ data = p + 1) as Hq1.
  { rewrite Hq. apply wrap_small. destruct (decide (p + 1 < 2 ^ 64)); [unfold fits in *; lia|].
    assert (p + 1 = 2 ^ 64) as E by (unfold fits in *; lia). rewrite E in Hq. change (u64 (2 ^ 64)) with 0 in Hq. lia. }
  unfold ReceiveLogRecord. rewrite (rd_get _ _ _ Hi). cbn [obind].
  rewrite GetNextSequenceNumber_pos, Hp, <-Hq, Z.eqb_refl. cbn [assert_that obind].
  destruct (update_tail_ok l (data_seqno_ data) self Hok ltac:(lia)) as [Hok0 Hst0].
  destruct (update_tail_fields l (data_seqno_ data) self) as (Hrd0 & Hdc0 & _).
  destruct (record_step (update_tail l (data_seqno_ data) self) i r l data m0 p Hlog Hok0 ltac:(by rewrite Hrd0) Hp Hm0 Hsame ltac:(lia))
    as (r1 & self1 & data1 & E1 & E2 & Hs1 & Hok1 & [es1 Hst1] & Hi1 & Hdc1 & Hr1 & Hsr1 & Hpos1).
  { intros p' x m Hp' Hx. simplify_eq. lia. }
  rewrite E1. cbn [obind]. rewrite update_tail_set_reader. rewrite Hdc0 in Hdc1.
  pose proof (same_message_trans _ _ _ Hsame Hs1) as Hs01. pose proof (same_message_fields _ _ Hs1) as (_ & Hq1' & _).
  specialize (Hpos1 l). rewrite decide_True in Hpos1 by done. rewrite <-Hq1' in Hm0.
  destruct (_ =? 0) eqn:E0.
  - simplify_eq. cbn [obind]. destruct (store_step _ l data1 m0 Hlog Hok1 (cache_room_same self _ _ _ Hdc1 Hs1 Hroom) Hm0 Hs01) as (dc & Es & Hok2 & Hst2).
    rewrite Es. cbn [obind]. eexists _, r1. split_and!; try done. eexists. eapply stepped_trans; [exact Hst0|]. by eapply stepped_trans.
  - destruct (deliver_record _ _ _ _) as [[self2 data2] ids] eqn:Ed. simplify_eq.
    destruct (Bump_ok self1 i r1 l (data_seqno_ data) Hok1 Hi1 Hpos1 ltac:(lia)) as (r2 & self2 & Eb & Hok2 & [es2 Hst2] & Hi2 & Hpos2 & Hdc2).
    rewrite Eb. cbn [obind].
    destruct (store_step _ l data1 m0 Hlog Hok2 (cache_room_same self _ _ _ (eq_trans Hdc2 Hdc1) Hs1 Hroom) Hm0 Hs01) as (dc & Es & Hok3 & Hst3).
    rewrite Es. cbn [obind]. eexists _, r2. split_and!; try done; [|by rewrite Hpos2]. eexists.
    eapply stepped_trans; [exact Hst0|]. eapply stepped_trans; [exact Hst1|]. by eapply stepped_trans.
Qed.

End Facts.
