(* ===== verification/TailerSteps.v ===== *)
(** * The handlers of the topic tailer keep the invariant

    Records and gaps from the log tailer, and records from the cache: each
    handler runs to completion, keeps the invariant and delivers to every
    subscription exactly the records it moves it past. *)

From S2P Require Import Prelude Coding CodingFacts Messages Containers LRUCache Bloom DataCache DataCacheFacts.
From S2P Require Import DataCacheVisit TopicManager LogReader LogReaderFacts TopicTailer TailerInv TopicTailerFacts.

#[local] Open Scope outcome_scope.

Section Steps.
Context {XXH64 : slice -> Z} {sizeof_MessageData sizeof_CacheEntry : Z}.
Context {GetLogID : TopicUUID -> option Z} {copilot_worker : CopilotSub -> Z}.
Context {log : Z -> Z -> option MessageData}.

#[local] Abbreviation log_ok := (log_ok GetLogID log).
#[local] Abbreviation records := (records log).
#[local] Abbreviation no_record := (no_record log).
#[local] Abbreviation knows := (knows log).
#[local] Abbreviation reader_ok := (reader_ok log).
#[local] Abbreviation core_ok := (core_ok log).
#[local] Abbreviation queues_ok := (queues_ok copilot_worker).
#[local] Abbreviation cache_agrees := (cache_agrees XXH64 log).
#[local] Abbreviation tailer_ok := (tailer_ok XXH64 copilot_worker log).
#[local] Abbreviation moved := (moved log).
#[local] Abbreviation stepped := (stepped GetLogID log).
#[local] Abbreviation skips := (skips log).
#[local] Abbreviation gap_moved := (gap_moved XXH64 GetLogID copilot_worker log).
#[local] Abbreviation cache_room := (cache_room sizeof_MessageData sizeof_CacheEntry).

Context (Henv : environment_ok sizeof_MessageData sizeof_CacheEntry GetLogID copilot_worker log).

(** ** Pausing *)

Lemma reader_ok_view r r' : reader_ok r -> same_view r r' -> reader_ok r'.
Proof.
  intros (Hwf & Hk & Hlag) (Hwf' & (_ & _ & Hl) & Hp & Hn). split_and!; [done| |by rewrite Hl; lia..].
  intros l t n p. rewrite Hp, Hn. apply Hk.
Qed.

Lemma view_step self i r r' : tailer_ok self -> rd self i = Some r -> same_view r r' ->
  tailer_ok (set_reader i r' self) /\ stepped self (set_reader i r' self) [].
Proof.
  intros Hok Hi Hv. destruct (c_reader (ok_core Hok) _ _ Hi) as [Hr _]. pose proof (reader_ok_view _ _ Hr Hv) as Hr'.
  destruct Hv as (_ & Hs & _ & Hn). apply (reader_forward self i r r'); try done.
  - intros l t n'. rewrite Hn. intros. exists n'. split; [done|by intros].
  - intros l t n Hx. rewrite Hn. eauto.
Qed.

(** A step that ends in calls to the log tailer. *)
Lemma calls_step self self' es calls : tailer_ok self' -> stepped self self' es ->
  tailer_ok (emit (map Tailer calls) self') /\ stepped self (emit (map Tailer calls) self') (es ++ map Tailer calls).
Proof.
  intros Hok Hst. split; [by apply emit_ok|]. eapply stepped_trans; [done|]. apply emit_stepped; [|apply polite_calls].
  intros. apply sent_calls.
Qed.

Lemma pause_ok self i r l : tailer_ok self -> rd self (Some i) = Some r -> is_Some (pos r l) -> fits 64 l ->
  exists self', pause_for_cache self l i = Ok self' /\ tailer_ok self' /\ exists es, stepped self self' es.
Proof.
  intros Hok Hi Hp Hl. destruct (c_reader (ok_core Hok) _ _ Hi) as [(Hwf & _) Hv].
  destruct (PauseReading_spec r l Hwf Hv Hp) as (r' & calls & E & Hview).
  unfold pause_for_cache. rewrite (rd_get _ _ _ Hi). cbn [obind]. rewrite E. cbn [obind].
  destruct (view_step self (Some i) r r' Hok Hi Hview) as [Hok1 Hst1].
  destruct (calls_step _ _ _ calls Hok1 Hst1) as [Hok2 Hst2]. eexists. split; [done|].
  set (self2 := emit (map Tailer calls) (set_reader (Some i) r' self)) in *. split.
  - apply (tailer_ok_ext self2); try done; try apply Hok2.
    destruct (ok_reentry Hok2) as [Hinv Hel]. destruct (ObservableMap.Write_sound _ (l, i) tt Hinv) as (Hs & _ & Hfind).
    split; [done|]. intros l' j u. cbn [reentry_cache_readers_ set_reentry]. rewrite Hfind.
    case_decide as Hd; [|apply Hel]. intros _. simplify_eq. split; [done|]. apply (f_rd (s_frame Hst2)). by eexists.
  - eexists. eapply stepped_trans; [exact Hst2|]. apply (stepped_quiet _ _ []); try done; [by rewrite app_nil_r|].
    split; try done. apply ObservableMap.Write_fd.
Qed.

(** ** Merging *)

(** Readers trade topics among themselves: nothing new is followed, and
    everything is still covered. *)
Lemma readers_change self self' : tailer_ok self ->
  (forall i r, rd self' i = Some r -> reader_ok r /\ IsVirtual r = bool_decide (i = None)) ->
  (forall i, is_Some (rd self' i) <-> is_Some (rd self i)) ->
  (forall i r l t n, rd self' i = Some r -> next r l t = Some n -> exists j r0 n0, rd self j = Some r0 /\ next r0 l t = Some n0) ->
  (forall i r l t n, rd self i = Some r -> next r l t = Some n -> exists j r' n', rd self' j = Some r' /\ next r' l t = Some n' /\ n' <= n) ->
  (forall l, manager self' l = manager self l) -> data_cache_ self' = data_cache_ self ->
  cache_readers_ self' = cache_readers_ self -> reentry_cache_readers_ self' = reentry_cache_readers_ self ->
  stream_subscriptions_ self' = stream_subscriptions_ self -> tail_seqno_cached_ self' = tail_seqno_cached_ self -> tailer_ok self'.
Proof.
  intros Hok Hr Hdom Hfol Hcov Hm Hdc Hq Hre Hs Htl. pose proof (ok_core Hok) as Hc. split.
  - split.
    + done.
    + apply Hdom, Hc.
    + intros l. rewrite Hm. apply Hc.
    + intros i r l t n Hi Hn. destruct (Hfol i r l t n Hi Hn) as (j & r0 & n0 & Hj & Hn0). rewrite Hm. by eapply (c_follow Hc).
    + intros l t id s. rewrite Hm. intros (i & r & n & Hi & Hn & Hle)%(c_cover Hc).
      destruct (Hcov i r l t n Hi Hn) as (j & r' & n' & ? & ? & ?). exists j, r', n'. split_and!; [done|done|lia].
    + intros l t id s. rewrite Hm. apply Hc.
    + intros l t. rewrite Hm. apply Hc.
  - rewrite Hdc. apply Hok.
  - rewrite Hq. apply Hok.
  - rewrite Hre. destruct (ok_reentry Hok) as [Hi He]. split; [done|]. intros l i u Hin.
    destruct (He l i u Hin). split; [done|]. by apply Hdom.
  - rewrite Hs. apply Hok.
  - rewrite Htl. apply Hok.
Qed.

(** After moving two readers. *)
Lemma rd_set2 self i j ri rj : i <> j -> is_Some (rd self i) -> is_Some (rd self j) ->
  forall k, rd (set_reader j rj (set_reader i ri self)) k =
    if decide (k = j) then Some rj else if decide (k = i) then Some ri else rd self k.
Proof.
  intros Hij Hi Hj k. rewrite rd_set; [|rewrite rd_set by done; by case_decide]. case_decide; [done|]. by rewrite rd_set.
Qed.

Lemma set_reader_fields i r self : data_cache_ (set_reader i r self) = data_cache_ self /\
  cache_readers_ (set_reader i r self) = cache_readers_ self /\
  reentry_cache_readers_ (set_reader i r self) = reentry_cache_readers_ self /\
  stream_subscriptions_ (set_reader i r self) = stream_subscriptions_ self /\
  pending_find_time_response_ (set_reader i r self) = pending_find_time_response_ self /\
  pending_find_time_requests_ (set_reader i r self) = pending_find_time_requests_ self /\
  max_find_time_requests (set_reader i r self) = max_find_time_requests self /\
  trace_ (set_reader i r self) = trace_ self /\ tail_seqno_cached_ (set_reader i r self) = tail_seqno_cached_ self.
Proof. by destruct i. Qed.

(** Two readers trade the topics of a log. *)
Lemma trade_step self i j ri rj ri' rj' l calls : tailer_ok self -> i <> j -> rd self i = Some ri -> rd self j = Some rj ->
  reader_ok ri' -> reader_ok rj' -> same_reader ri ri' -> same_reader rj rj' ->
  (forall l' t n, l' <> l -> next ri' l' t = Some n <-> next ri l' t = Some n) ->
  (forall l' t n, l' <> l -> next rj' l' t = Some n <-> next rj l' t = Some n) ->
  (forall t n, next ri' l t = Some n \/ next rj' l t = Some n -> is_Some (next ri l t) \/ is_Some (next rj l t)) ->
  (forall t n, next ri l t = Some n \/ next rj l t = Some n ->
     exists n', n' <= n /\ (next ri' l t = Some n' \/ next rj' l t = Some n')) ->
  let self' := emit (map Tailer calls) (set_reader j rj' (set_reader i ri' self)) in
  tailer_ok self' /\ stepped self self' (map Tailer calls).
Proof.
  intros Hok Hij Hi Hj Hri Hrj [Hvi _] [Hvj _] Hoi Hoj Hback Hforth self'.
  pose proof (rd_set2 self i j ri' rj' Hij ltac:(eauto) ltac:(eauto)) as Hrd. pose proof (ok_core Hok) as Hc.
  assert (forall k, is_Some (rd self' k) <-> is_Some (rd self k)) as Hdom.
  { intros k. change (rd self' k) with (rd (set_reader j rj' (set_reader i ri' self)) k). rewrite Hrd.
    repeat case_decide; subst; split; eauto. }
  assert (forall l', manager self' l' = manager self l') as Hm.
  { intros l'. change (manager self' l') with (manager (set_reader j rj' (set_reader i ri' self)) l'). by rewrite !manager_set_reader. }
  assert (rd self' j = Some rj' /\ rd self' i = Some ri') as [Hj' Hi'].
  { split; [change (rd self' j) with (rd (set_reader j rj' (set_reader i ri' self)) j)|
            change (rd self' i) with (rd (set_reader j rj' (set_reader i ri' self)) i)];
      rewrite Hrd; [by rewrite decide_True|by rewrite decide_False, decide_True]. }
  pose proof (set_reader_fields i ri' self) as (? & ? & ? & ? & ? & ? & ? & ? & ?).
  pose proof (set_reader_fields j rj' (set_reader i ri' self)) as (? & ? & ? & ? & ? & ? & ? & ? & ?).
  split.
  - apply (readers_change self); try done; try (cbn; congruence).
    + intros k r. change (rd self' k) with (rd (set_reader j rj' (set_reader i ri' self)) k). rewrite Hrd.
      repeat case_decide; [intros [= <-]; subst; split; [done|]..|apply Hc].
      * rewrite Hvj. by apply Hc.
      * rewrite Hvi. by apply Hc.
    + intros k r l' t n. change (rd self' k) with (rd (set_reader j rj' (set_reader i ri' self)) k). rewrite Hrd.
      assert (forall x, (x = ri' \/ x = rj') -> next x l' t = Some n -> exists k r0 n0, rd self k = Some r0 /\ next r0 l' t = Some n0) as Hx.
      { intros x Hx Hn. destruct (decide (l' = l)) as [->|Hl].
        - destruct (Hback t n) as [[n0 Hn0]|[n0 Hn0]]; [destruct Hx; subst; auto|..]; eauto 6.
        - destruct Hx; subst; [apply Hoi in Hn|apply Hoj in Hn]; eauto 6. }
      repeat case_decide; [intros [= <-]; apply Hx; auto..|]. intros. eauto 6.
    + intros k r l' t n Hk Hn. destruct (decide (k = i \/ k = j)) as [Hkij|Hne].
      * destruct (decide (l' = l)) as [->|Hl].
        -- destruct (Hforth t n) as (n' & Hle & [Hn'|Hn']); [destruct Hkij; subst; simplify_eq; auto|..]; eauto 8.
        -- destruct Hkij; subst; simplify_eq; [apply Hoi in Hn|apply Hoj in Hn]; eauto 8 using Z.le_refl.
      * exists k, r, n. change (rd self' k) with (rd (set_reader j rj' (set_reader i ri' self)) k). rewrite Hrd.
        rewrite !decide_False by tauto. split_and!; [done|done|lia].
  - apply stepped_quiet; [cbn; congruence|intros; apply sent_calls|done| |apply polite_calls].
    split; try done; try (cbn; congruence); [intros l' t; by rewrite Hm|]. cbn. apply Z.eq_le_incl. congruence.
Qed.

Lemma reader_lag r r' : same_reader r r' -> 0 <= max_subscription_lag_ r <= kMaxSeqno -> 0 <= max_subscription_lag_ r' <= kMaxSeqno.
Proof. by intros (_ & _ & ->). Qed.

Lemma merge_step self i j ri rj l p : tailer_ok self -> i <> j -> rd self (Some i) = Some ri -> rd self (Some j) = Some rj ->
  pos ri l = Some p -> pos rj l = Some p ->
  exists ri' rj' calls, MergeInto ri rj l = Ok (ri', rj', calls) /\ pos ri' l = None /\
    let self' := emit (map Tailer calls) (set_reader (Some j) rj' (set_reader (Some i) ri' self)) in
    tailer_ok self' /\ stepped self self' (map Tailer calls) /\ rd self' (Some i) = Some ri'.
Proof.
  intros Hok Hij Hi Hj Hpi Hpj. destruct (c_reader (ok_core Hok) _ _ Hi) as [(Hwi & Hki & Hli) Hvi].
  destruct (c_reader (ok_core Hok) _ _ Hj) as [(Hwj & Hkj & Hlj) Hvj].
  destruct (MergeInto_spec ri rj l p Hwi Hwj Hvi Hvj Hpi Hpj)
    as (ri' & rj' & calls & E & Hwi' & Hsi & Hwj' & Hsj & Hpi' & Hni' & Hpj' & Hnj').
  exists ri', rj', calls. split; [done|]. split; [rewrite Hpi'; by rewrite decide_True|].
  assert (Some i <> Some j) as Hij' by congruence.
  match goal with |- ?G => cut (tailer_ok (emit (map Tailer calls) (set_reader (Some j) rj' (set_reader (Some i) ri' self))) /\
    stepped self (emit (map Tailer calls) (set_reader (Some j) rj' (set_reader (Some i) ri' self))) (map Tailer calls)) end.
  { intros [? ?]. split_and!; try done.
    change (rd (emit (map Tailer calls) ?x) (Some i)) with (rd x (Some i)).
    rewrite (rd_set2 self (Some i) (Some j) ri' rj' Hij' ltac:(eauto) ltac:(eauto)).
    by rewrite decide_False, decide_True by done. }
  apply (trade_step self (Some i) (Some j) ri rj ri' rj' l calls); try done.
  - split_and!; [done| |by eapply reader_lag..]. intros l' t n q. rewrite Hpi', Hni'. case_decide; [done|]. apply Hki.
  - split_and!; [done| |by eapply reader_lag..]. intros l' t n q. rewrite Hpj', Hnj'. case_decide as Hl; [subst l'|apply Hkj].
    intros Hn Hq. rewrite Hpj in Hq. simplify_eq. intros x m Hx Hm.
    destruct (next rj l t) as [a|] eqn:Ea, (next ri l t) as [b|] eqn:Eb; cbn in Hn; simplify_eq.
    + destruct (Z.min_spec a b) as [[? Emin]|[? Emin]]; rewrite Emin in Hx.
      * exact (Hkj l t a q Ea Hpj x m Hx Hm).
      * exact (Hki l t b q Eb Hpi x m Hx Hm).
    + exact (Hkj l t n q Ea Hpj x m Hx Hm).
    + exact (Hki l t n q Eb Hpi x m Hx Hm).
  - intros l' t n Hl. rewrite Hni'. by rewrite decide_False.
  - intros l' t n Hl. rewrite Hnj'. by rewrite decide_False.
  - intros t n. rewrite Hni', Hnj', !decide_True by done. intros [?|Hn]; [done|].
    destruct (next rj l t), (next ri l t); eauto.
  - intros t n. rewrite Hni', Hnj', !decide_True by done.
    destruct (next rj l t) as [a|], (next ri l t) as [b|]; cbn; intros [?|?]; simplify_eq;
      eexists; (split; [|right; reflexivity]); lia.
Qed.

Lemma steal_step self ok i ri l : tailer_ok self -> rd self (Some i) = Some ri -> pos ri l = None ->
  is_Some (pos (pending_reader_ self) l) ->
  exists ri' rp' calls, StealLogSubscriptions ok ri (pending_reader_ self) l = Ok (ri', rp', calls) /\
    let self' := emit (map Tailer calls) (set_reader None rp' (set_reader (Some i) ri' self)) in
    tailer_ok self' /\ stepped self self' (map Tailer calls).
Proof.
  intros Hok Hi Hpi Hpv. set (rv := pending_reader_ self) in *.
  assert (rd self None = Some rv) as Hj by done.
  destruct (c_reader (ok_core Hok) _ _ Hi) as [(Hwi & Hki & Hli) Hvi].
  destruct (c_reader (ok_core Hok) _ _ Hj) as [(Hwj & Hkj & Hlj) Hvj].
  destruct (StealLogSubscriptions_spec ok ri rv l Hwi Hwj Hvi Hvj Hpi Hpv)
    as (ri' & rj' & calls & E & Hwi' & Hsi & Hwj' & Hsj & Hpi' & Hni' & Hpj' & Hnj').
  assert (forall t, next ri l t = None) as Hnone.
  { intros t. destruct (next ri l t) as [n|] eqn:En; [|done]. apply next_pos in En. rewrite Hpi in En. by destruct En. }
  exists ri', rj', calls. split; [done|]. apply (trade_step self (Some i) None ri rv ri' rj' l calls); try done.
  - split_and!; [done| |by eapply reader_lag..]. intros l' t n q. rewrite Hpi', Hni'.
    case_decide; [subst|apply Hki]. destruct ok; [apply Hkj|done].
  - split_and!; [done| |by eapply reader_lag..]. intros l' t n q. rewrite Hpj', Hnj'.
    case_decide; [subst|apply Hkj]. destruct ok; [done|apply Hkj].
  - intros l' t n Hl. rewrite Hni'. by rewrite decide_False.
  - intros l' t n Hl. rewrite Hnj'. by rewrite decide_False.
  - intros t n. rewrite Hni', Hnj', !decide_True by done. destruct ok; intros [?|?]; try done; eauto.
  - intros t n. rewrite Hni', Hnj', !decide_True by done. rewrite Hnone. intros [?|Hn]; [done|].
    exists n. split; [lia|]. destruct ok; auto.
Qed.

Context {start_ok : list event -> bool}.

Lemma merge_readers_ok self i j ri rj l p : tailer_ok self -> i <> j -> rd self (Some i) = Some ri -> rd self (Some j) = Some rj ->
  pos ri l = Some p -> pos rj l = Some p ->
  exists self', merge_readers start_ok self i j l = Ok self' /\ tailer_ok self' /\ exists es, stepped self self' es.
Proof.
  intros Hok Hij Hi Hj Hpi Hpj. unfold merge_readers. rewrite (rd_get _ _ _ Hi), (rd_get _ _ _ Hj). cbn [obind].
  destruct (merge_step self i j ri rj l p Hok Hij Hi Hj Hpi Hpj) as (ri' & rj' & calls & -> & Hpi' & Hok1 & Hst1 & Hi1).
  cbn [obind]. set (self1 := emit (map Tailer calls) (set_reader (Some j) rj' (set_reader (Some i) ri' self))) in *.
  rewrite IsLogOpen_pos. case_bool_decide as Hopen; [|eauto].
  destruct (steal_step self1 (start_ok (trace_ self1)) i ri' l Hok1 Hi1 Hpi' Hopen) as (ri2 & rp2 & calls2 & -> & Hok2 & Hst2).
  cbn [obind]. eexists. split; [done|]. split; [done|]. eexists. by eapply stepped_trans.
Qed.

(** Merging is attempted with every other reader, and at most one merge is made. *)
Lemma AttemptReaderMerges_ok self i ri l : tailer_ok self -> rd self (Some i) = Some ri ->
  exists self' merged, AttemptReaderMerges start_ok self i l = Ok (self', merged) /\ tailer_ok self' /\
    (exists es, stepped self self' es) /\ (merged = false -> self' = self).
Proof.
  intros Hok Hi. unfold AttemptReaderMerges. assert (drop 0 (log_readers_ self) = log_readers_ self) as Hd by done.
  revert Hd. generalize (log_readers_ self) at 2 3 as rs. generalize 0%nat as k. intros k rs. revert k.
  destruct (c_reader (ok_core Hok) _ _ Hi) as [_ Hvi].
  induction rs as [|r rs IH]; intros k Hd; cbn [merge_loop].
  { exists self, false. split_and!; try done. eexists. apply stepped_refl. }
  assert (log_readers_ self !! k = Some r) as Hk.
  { rewrite <-(Nat.add_0_r k), <-lookup_drop, Hd. done. }
  assert (drop (S k) (log_readers_ self) = rs) as Hd' by (rewrite (drop_S _ r) in Hd by done; by simplify_eq).
  destruct (Nat.eqb_spec i k) as [->|Hne]; [by apply IH|].
  rewrite (rd_get _ _ _ Hi). cbn [obind]. destruct (c_reader (ok_core Hok) (Some k) r Hk) as [_ Hvk].
  rewrite (CanMergeInto_spec ri r l Hvi Hvk). cbn [obind]. clear Hvi Hvk. case_bool_decide as Hcan; [|by apply IH].
  destruct Hcan as [[p Hp] Hpk]. rewrite Hp in Hpk.
  destruct (merge_readers_ok self i k ri r l p Hok Hne Hi Hk Hp Hpk) as (self' & E & Hok' & Hst).
  rewrite E. cbn [obind]. exists self', true. by split_and!.
Qed.

(** ** Records from the log *)

Lemma cache_agrees_sub dc dc' : cache_agrees dc -> DC_inv XXH64 dc' ->
  (forall l q m, msg_at dc' l q = Some m -> exists m0, msg_at dc l q = Some m0 /\ same_message m0 m) -> cache_agrees dc'.
Proof.
  intros [_ Hag] Hdc Hsub. split; [done|]. intros l q m Hl Hq (m0 & Hm0 & Hs)%Hsub.
  destruct (Hag l q m0 Hl Hq Hm0) as (m1 & ? & ?). exists m1. split; [done|]. by eapply same_message_trans.
Qed.

Lemma SendLogRecord_ok self l data m0 rid i r p : tailer_ok self -> cache_room self data ->
  FindLogReader self rid = Some i -> rd self (Some i) = Some r -> pos r l = Some p -> data_seqno_ data = u64 (p + 1) ->
  log l (data_seqno_ data) = Some m0 -> same_message m0 data ->
  exists self', SendLogRecord XXH64 sizeof_MessageData sizeof_CacheEntry start_ok self data l rid = Ok self' /\
    tailer_ok self' /\ exists es, stepped self self' es.
Proof.
  intros Hok Hroom Hf Hi Hp Hq Hm0 Hsame. unfold SendLogRecord. rewrite Hf.
  destruct (ReceiveLogRecord_ok (env_sizes Henv) self i r l data m0 p (env_log Henv) Hok Hroom Hi Hp Hq Hm0 Hsame)
    as (self1 & r1 & -> & Hok1 & [es1 Hst1] & Hi1 & Hp1). cbn [obind].
  rewrite (rd_get _ _ _ Hi1). cbn [obind]. pose proof (l_seqno (env_log Henv) _ _ _ Hm0) as [_ Hb]. unfold kMaxSeqno in Hb.
  rewrite GetNextSequenceNumber_pos, Hp1, wrap_small by (unfold fits; lia).
  rewrite (proj2 (Z.eqb_neq _ 0)) by lia. cbn [negb assert_that obind].
  destruct (ok_cache Hok1) as [Hdc Hag].
  destruct (HasEntry_spec XXH64 (data_cache_ self1) l (data_seqno_ data + 1) Hdc (l_id (env_log Henv) _ _ _ Hm0) ltac:(unfold fits; lia))
    as (dc & -> & Hdc' & _ & Hsame'). cbn [obind].
  destruct (set_data_cache_ok (GetLogID:=GetLogID) dc self1 Hok1) as [Hok2 Hst2].
  { eapply cache_agrees_sub; [exact (ok_cache Hok1)|done|]. intros l' q' m. rewrite Hsame'. eauto using same_message_refl. }
  case_bool_decide.
  - destruct (pause_ok (set_data_cache dc self1) i r1 l Hok2 Hi1 ltac:(eauto) (l_id (env_log Henv) _ _ _ Hm0)) as (self' & -> & Hok' & [es Hst]).
    exists self'. split_and!; try done. eexists. eapply stepped_trans; [exact Hst1|]. by eapply stepped_trans.
  - destruct (AttemptReaderMerges_ok (set_data_cache dc self1) i r1 l Hok2 Hi1) as (self' & merged & -> & Hok' & [es Hst] & _).
    cbn [obind]. exists self'. split_and!; try done. eexists. eapply stepped_trans; [exact Hst1|]. by eapply stepped_trans.
Qed.

(** ** Gaps *)

Lemma gap_move_set_reader l t type n to i r self :
  gap_move l t type n to (set_reader i r self) = (self <~ gap_move l t type n to self ;; Ok (set_reader i r self)).
Proof.
  unfold gap_move, advance. rewrite manager_set_reader.
  destruct (TopicManager.VisitSubscribers _ _ _ _ _) as [m [|id ids]]; [by destruct i|].
  unfold send_gap. destruct (UUID_GetTopicID t) as [names|]; [by destruct i|done].
Qed.

(** A gap the log tailer reports to a reader at [p]: the log has no records
    there, and the reader follows the topics of all subscriptions it moves. *)
Record gap_at (self : TopicTailer) (l p to : Z) (r : LogReader) : Prop := {
  gap_pos : pos r l = Some p;
  gap_range : p <= to /\ to < kMaxSeqno;
  gap_empty : forall q, p < q <= to -> log l q = None;
  gap_follows : forall t id x, subs self l t id = Some x -> next r l t = None -> to < x
}.

Lemma gap_no_record self l p to r t n : knows r -> gap_at self l p to r -> next r l t = Some n -> no_record l t n (to + 1).
Proof.
  intros Hk Hg Hn q m Hq Hm. destruct (decide (q <= p)).
  - exact (Hk l t n p Hn (gap_pos _ _ _ _ _ Hg) q m ltac:(lia) Hm).
  - rewrite (gap_empty _ _ _ _ _ Hg q) in Hm by lia. done.
Qed.

Lemma gap_topic_ok self l type p to i r t : tailer_ok self -> rd self (Some i) = Some r -> gap_at self l p to r ->
  is_Some (manager self l !! t) ->
  exists self' r', gap_topic l type (u64 (p + 1)) to i t self = Ok self' /\ tailer_ok self' /\
    (exists es, stepped self self' es) /\ rd self' (Some i) = Some r' /\ gap_at self' l p to r'.
Proof.
  intros Hok Hi Hg Ht. destruct (c_reader (ok_core Hok) _ _ Hi) as [(Hwf & Hk & Hlag) _].
  pose proof (gap_pos _ _ _ _ _ Hg) as Hp. pose proof (pos_bounds _ _ _ Hwf Hp) as Hpb.
  destruct (gap_range _ _ _ _ _ Hg) as [Hpt Hto]. unfold fits in Hpb.
  destruct (ProcessGap_spec r l t (u64 (p + 1)) to p Hwf Hp eq_refl ltac:(lia) ltac:(unfold kMaxSeqno in *; lia))
    as (r' & E & Hwf' & Hsr & Hpos & Hnext).
  unfold gap_topic. rewrite (rd_get _ _ _ Hi). cbn [obind]. rewrite E. cbn [obind]. rewrite update_tail_set_reader.
  set (n := default 0 (next r l t)) in *.
  change (exists self2 r2, gap_move l t type n to (set_reader (Some i) r' (update_tail l to self)) = Ok self2 /\ tailer_ok self2 /\
    (exists es, stepped self self2 es) /\ rd self2 (Some i) = Some r2 /\ gap_at self2 l p to r2).
  destruct (update_tail_ok (GetLogID:=GetLogID) l to self Hok ltac:(lia)) as [Hok0 Hst0]. destruct (update_tail_fields l to self) as (Hrd0 & _ & Hm0).
  assert (forall id x, subs self l t id = Some x -> n <= x <= to -> exists n0, next r l t = Some n0) as Hfol.
  { intros id x Hx Hnx. destruct (next r l t) as [n0|] eqn:En; [eauto|]. pose proof (gap_follows _ _ _ _ _ Hg t id x Hx En). lia. }
  destruct (gap_move_spec (GetLogID:=GetLogID) l t type n to (update_tail l to self) Hok0 ltac:(lia)) as (self1 & E1 & [Hok1 [es1 Hst1] Hrd1 _ Hsub1]).
  { by apply (c_topic (ok_core Hok) l). }
  { intros id x. unfold subs. rewrite Hm0. intros Hx Hnx. destruct (Hfol id x Hx Hnx) as [n0 En].
    intros y m Hy. apply (gap_no_record self l p to r t n0 Hk Hg En). unfold n in *. rewrite En in *. simpl in *. lia. }
  rewrite gap_move_set_reader, E1. cbn [obind]. unfold subs at 2 in Hsub1. rewrite Hm0 in Hsub1.
  assert (forall id x, subs self1 l t id = Some x -> n <= x -> to + 1 <= x) as Hpast.
  { intros id x. rewrite Hsub1. destruct (TopicManager.sub_at (manager self l) t id) as [x0|]; cbn; [case_decide|]; intros; simplify_eq; [lia|].
    apply Z.le_succ_l, Z.nle_gt. naive_solver. }
  destruct (reader_forward (GetLogID:=GetLogID) self1 (Some i) r r' Hok1) as [Hok2 Hst2].
  - by rewrite Hrd1, Hrd0.
  - split_and!; [done| |by eapply reader_lag..]. intros l' t' n' p'. rewrite Hpos, Hnext. case_decide as Hd; [|apply Hk].
    destruct Hd as [-> ->]. destruct (next r l t); cbn; [|done]. unfold const. intros [= <-] Hp'. simplify_eq. intros y m Hy. lia.
  - done.
  - intros l' t' n'. rewrite Hnext. case_decide as Hd; [|intros Hn'; exists n'; split; [done|by intros]].
    destruct Hd as [-> ->]. unfold n in Hpast. destruct (next r l t) as [n0|]; cbn; [|done]. unfold const. intros [= <-]. exists n0. split; [done|].
    intros id x. apply Hpast.
  - intros l' t' n' Hn'. rewrite Hnext. case_decide as Hd; [|eauto]. destruct Hd as [-> ->]. rewrite Hn'. by eexists.
  - eexists _, r'. split_and!; [done|done| |rewrite rd_set by (rewrite Hrd1, Hrd0; eauto); by rewrite decide_True|].
    + eexists. eapply stepped_trans; [exact Hst0|]. by eapply stepped_trans.
    + split; [by rewrite Hpos|done|apply Hg|]. intros t' id x. change (subs (set_reader (Some i) r' self1) l t' id) with (subs self1 l t' id).
      rewrite Hsub1, Hnext. intros Hx Hn'. destruct (TopicManager.sub_at (manager self l) t' id) as [x0|] eqn:Ex; [|done]. cbn in Hx.
      assert (next r l t' = None) as Hn0.
      { case_decide as Hd; [|done]. destruct Hd as [_ ->]. by destruct (next r l t). }
      pose proof (gap_follows _ _ _ _ _ Hg t' id x0 Ex Hn0). rewrite decide_False in Hx by lia. by simplify_eq.
Qed.

Lemma gap_topics_ok l type p to i ts self r : tailer_ok self -> rd self (Some i) = Some r -> gap_at self l p to r ->
  (forall t, t ∈ ts -> is_Some (manager self l !! t)) ->
  exists self' r', gap_topics l type (u64 (p + 1)) to i ts self = Ok self' /\ tailer_ok self' /\
    (exists es, stepped self self' es) /\ rd self' (Some i) = Some r' /\ gap_at self' l p to r'.
Proof.
  revert self r. induction ts as [|t ts IH]; intros self r Hok Hi Hg Hts; cbn [gap_topics].
  { exists self, r. split_and!; try done. eexists. apply stepped_refl. }
  destruct (gap_topic_ok self l type p to i r t Hok Hi Hg) as (self1 & r1 & -> & Hok1 & [es1 Hst1] & Hi1 & Hg1); [set_solver|].
  cbn [obind]. destruct (IH self1 r1 Hok1 Hi1 Hg1) as (self2 & r2 & -> & Hok2 & [es2 Hst2] & Hi2 & Hg2).
  { intros t' Ht'. apply (f_topics (s_frame Hst1)). apply Hts. set_solver. }
  exists self2, r2. split_and!; try done. eexists. by eapply stepped_trans.
Qed.

Lemma reposition_step self l p to i r r' : tailer_ok self -> rd self (Some i) = Some r -> gap_at self l p to r ->
  repositioned l to r r' -> tailer_ok (set_reader (Some i) r' self) /\ stepped self (set_reader (Some i) r' self) [].
Proof.
  intros Hok Hi Hg (Hwf' & Hsr & Hpos & Hnext). destruct (c_reader (ok_core Hok) _ _ Hi) as [(Hwf & Hk & Hlag) _].
  apply (reader_forward self (Some i) r r'); try done.
  - split_and!; [done| |by eapply reader_lag..]. intros l' t n q. rewrite Hpos, Hnext. case_decide as Hd; [|apply Hk].
    subst l'. rewrite (gap_pos _ _ _ _ _ Hg). cbn. unfold const. intros Hn [= <-]. by eapply gap_no_record.
  - intros l' t n'. rewrite Hnext. intros Hn. exists n'. split; [done|by intros].
  - intros l' t n Hn. rewrite Hnext. eauto.
Qed.

Lemma SendGapRecord_ok self l type p to rid i r : tailer_ok self -> FindLogReader self rid = Some i ->
  rd self (Some i) = Some r -> gap_at self l p to r ->
  exists self', SendGapRecord start_ok self l type (u64 (p + 1)) to rid = Ok self' /\ tailer_ok self' /\ exists es, stepped self self' es.
Proof.
  intros Hok Hf Hi Hg. unfold SendGapRecord. rewrite Hf. set (self0 := set_manager l (manager self l) self).
  pose proof (manager_set_same self l) as Hm. fold self0 in Hm.
  assert (tailer_ok self0 /\ stepped self self0 []) as [Hok0 Hst0].
  { split.
    - apply (tailer_ok_ext self); try done; apply Hok.
    - apply (stepped_quiet _ _ []); try done; [by cbn; rewrite app_nil_r|]. split; try done. intros l' t. by rewrite Hm. }
  assert (gap_at self0 l p to r) as Hg0.
  { destruct Hg. split; try done. intros t id x. unfold subs. rewrite Hm. eauto. }
  destruct (gap_topics_ok l type p to i (TopicManager.VisitTopics (manager self0 l)) self0 r Hok0 Hi Hg0)
    as (self1 & r1 & -> & Hok1 & [es1 Hst1] & Hi1 & Hg1).
  { intros t Ht. by apply TopicManager.elem_of_VisitTopics. }
  cbn [obind]. rewrite (rd_get _ _ _ Hi1). cbn [obind]. destruct (gap_range _ _ _ _ _ Hg1) as [Hpt Hto].
  destruct (c_reader (ok_core Hok1) _ _ Hi1) as [(Hwf1 & _) _]. pose proof (pos_bounds _ _ _ Hwf1 (gap_pos _ _ _ _ _ Hg1)) as Hpb.
  assert (fits 64 to /\ fits 64 (to + 1)) as [Hft Hft1] by (unfold fits, kMaxSeqno in *; lia).
  set (r2 := if type =? kBenign then ProcessBenignGap r1 l (u64 (p + 1)) to else FlushHistory r1 l (u64 (to + 1))).
  assert (repositioned l to r1 r2) as Hrep.
  { unfold r2. destruct (type =? kBenign); [by apply ProcessBenignGap_spec|]. rewrite wrap_small by done.
    apply FlushHistory_spec; [done|unfold fits in *; lia..]. }
  destruct (reposition_step self1 l p to i r1 r2 Hok1 Hi1 Hg1 Hrep) as [Hok2 Hst2].
  destruct (AttemptReaderMerges_ok (set_reader (Some i) r2 self1) i r2 l Hok2) as (self' & merged & -> & Hok' & [es Hst] & _).
  { rewrite rd_set by eauto. by rewrite decide_True. }
  cbn [obind]. exists self'. split_and!; try done. eexists. eapply stepped_trans; [exact Hst0|].
  eapply stepped_trans; [exact Hst1|]. by eapply stepped_trans.
Qed.

(** ** Records from the cache *)

Context {WriteHasFailed : list event -> bool}.

Lemma single_topic_spec ts : (forall t, t ∈ ts -> valid_topic t) ->
  exists name, single_topic ts 0 [] = Ok name /\
    (name <> [] -> forall t, t ∈ ts -> exists ns, topic_ok (ns, name) /\ t = NewTopicUUID ns name).
Proof.
  intros Hv. destruct ts as [|t [|t2 ts]].
  - exists []. split; [done|]. set_solver.
  - destruct (Hv t) as (ns & name & Hok & ->); [set_solver|]. exists name. cbn [single_topic]. rewrite UUID_roundtrip by done.
    split; [done|]. intros _ t' Ht'. apply list_elem_of_singleton in Ht' as ->. eauto.
  - destruct (Hv t) as (ns & name & Hok & ->); [set_solver|]. destruct (Hv t2) as (ns2 & name2 & Hok2 & ->); [set_solver|].
    exists []. split; [|done]. cbn [single_topic]. rewrite !UUID_roundtrip by done. done.
Qed.

Lemma deliver_record_stamp self l data n self' data' ids :
  deliver_record self l data n = (self', data', ids) -> same_message data data'.
Proof.
  unfold deliver_record. destruct (advance _ _ _ _ _ _) as [self1 [|id ids1]]; intros [= _ <- _];
    [apply same_message_refl|by exists n].
Qed.

Lemma on_message_cache_stamping l i : stamping (on_message_cache WriteHasFailed l i).
Proof.
  intros m [self b] m' s' more. unfold on_message_cache.
  intros (r & _ & (_ & _ & ([r' prev] & _ & E)%obind_Ok)%obind_Ok)%obind_Ok.
  destruct (prev =? 0).
  - apply obind_Ok in E as (_ & _ & E). simplify_eq. apply same_message_refl.
  - destruct (deliver_record _ _ _ _) as [[self1 data1] ids] eqn:Ed. apply obind_Ok in E as (_ & _ & E). simplify_eq.
    by eapply deliver_record_stamp.
Qed.

(** How far a reader got in the cache. *)
Definition cache_progress (self : TopicTailer) (l : Z) (i : nat) (more : bool) (q : Z) (s : TopicTailer * bool) : Prop :=
  let '(self', backoff) := s in
  backoff = negb more /\ tailer_ok self' /\ (exists es, stepped self self' es) /\ data_cache_ self' = data_cache_ self /\
  exists r p, rd self' (Some i) = Some r /\ pos r l = Some p /\ p < q /\ skips r l q.

Lemma progress_visit self l i q m s : fits 64 l -> fits 64 q -> data_seqno_ m = q -> cache_agrees (data_cache_ self) ->
  msg_at (data_cache_ self) l q = Some m -> cache_progress self l i true q s ->
  exists m' s' more, on_message_cache WriteHasFailed l i m s = Ok (m', s', more) /\ cache_progress self l i more (q + 1) s'.
Proof.
  intros Hl Hq Hmq [_ Hag] Hm. destruct s as [self1 b]. intros (-> & Hok1 & [es1 Hst1] & Hdc1 & r & p & Hi & Hp & Hpq & Hsk).
  destruct (Hag l q m Hl Hq Hm) as (m0 & Hm0 & Hsame). subst q. pose proof (l_seqno (env_log Henv) _ _ _ Hm0) as [_ Hb]. unfold kMaxSeqno in Hb.
  destruct (c_reader (ok_core Hok1) _ _ Hi) as [(Hwf & _) _]. pose proof (pos_bounds _ _ _ Hwf Hp) as Hpb.
  unfold on_message_cache. rewrite (rd_get _ _ _ Hi). cbn [obind].
  rewrite GetNextSequenceNumber_pos, Hp, wrap_small by (unfold fits in *; lia).
  rewrite (proj2 (Z.leb_le _ _)) by lia. cbn [assert_that obind].
  destruct (record_step self1 i r l m m0 p (env_log Henv) Hok1 Hi Hp Hm0 Hsame Hpq Hsk)
    as (r2 & self2 & m2 & -> & E & Hs2 & Hok2 & [es2 Hst2] & Hi2 & Hdc2 & Hr2 & Hsr2 & Hpos2). cbn [obind].
  rewrite E. cbn [negb assert_that obind]. eexists m2, _, _. split; [done|].
  split_and!; [by destruct (WriteHasFailed _)|done|eexists; by eapply stepped_trans|congruence|].
  exists r2, (data_seqno_ m). rewrite Hpos2, decide_True by done. split_and!; [done|done|lia|].
  intros p' x m'. rewrite Hpos2, decide_True by done. intros [= <-]. lia.
Qed.

Lemma progress_skip self l i q m s more lookup : fits 64 l -> fits 64 q -> cache_agrees (data_cache_ self) ->
  (lookup <> [] -> forall t, is_Some (manager self l !! t) -> exists ns, topic_ok (ns, lookup) /\ t = NewTopicUUID ns lookup) ->
  msg_at (data_cache_ self) l q = Some m -> lookup <> [] -> data_topic_name_ m <> lookup ->
  cache_progress self l i more q s -> cache_progress self l i more (q + 1) s.
Proof.
  intros Hl Hq [_ Hag] Hone Hm Hne Hname. destruct s as [self1 b].
  intros (? & Hok1 & [es1 Hst1] & Hdc1 & r & p & Hi & Hp & Hpq & Hsk). split_and!; try done; [by eexists|].
  exists r, p. split_and!; try done; [lia|]. intros p' x m' Hp' Hx Hm'. simplify_eq.
  destruct (decide (x = q)) as [->|]; [|by eapply Hsk; [done| |done]; lia].
  destruct (Hag l q m Hl Hq Hm) as (m0 & Hm0 & Hsame). rewrite Hm' in Hm0. injection Hm0 as <-. rename m' into m0, Hm' into Hm0.
  destruct (same_message_fields _ _ Hsame) as (_ & _ & Hn & _).
  destruct (next r l (data_uuid m0)) as [n|] eqn:En; [|done]. exfalso.
  pose proof (c_follow (ok_core Hok1) _ _ _ _ _ Hi En) as Hin. apply (f_topics (s_frame Hst1)) in Hin.
  destruct (Hone Hne _ Hin) as (ns & Htok & Heq).
  apply NewTopicUUID_inj in Heq as [_ Heq]; [congruence|by apply (l_topic (env_log Henv) _ _ _ Hm0)|done].
Qed.

Lemma AdvanceReaderFromCache_ok self l i r : tailer_ok self -> fits 64 l -> rd self (Some i) = Some r -> is_Some (pos r l) ->
  exists self' read r', AdvanceReaderFromCache XXH64 WriteHasFailed self l i = Ok (self', read) /\ tailer_ok self' /\
    (exists es, stepped self self' es) /\ rd self' (Some i) = Some r' /\ is_Some (pos r' l).
Proof.
  intros Hok Hl Hi [p Hp]. destruct (c_reader (ok_core Hok) _ _ Hi) as [(Hwf & _) _]. pose proof (pos_bounds _ _ _ Hwf Hp) as Hpb.
  assert (exists self' read r', Ok (self, kNoneRead) = Ok (self', read) /\ tailer_ok self' /\
    (exists es, stepped self self' es) /\ rd self' (Some i) = Some r' /\ is_Some (pos r' l)) as Hnone.
  { exists self, kNoneRead, r. split_and!; eauto using stepped_refl. }
  unfold AdvanceReaderFromCache. destruct (GetCapacity _ =? 0); [done|]. rewrite (rd_get _ _ _ Hi). cbn [obind].
  rewrite GetNextSequenceNumber_pos, Hp. destruct (Z.eqb_spec (u64 (p + 1)) 0) as [|Hstart]; [done|]. clear Hnone.
  assert (fits 64 (p + 1)) as Hfit.
  { destruct (decide (p + 1 < 2 ^ 64)); [unfold fits in *; lia|]. assert (p + 1 = 2 ^ 64) as E by (unfold fits in *; lia).
    rewrite E in Hstart. done. }
  rewrite (wrap_small 64 (p + 1)) by done.
  set (self0 := set_manager l (manager self l) self).
  assert (tailer_ok self0 /\ stepped self self0 []) as [Hok0 Hst0].
  { pose proof (manager_set_same self l) as Hm. split.
    - apply (tailer_ok_ext self); try done; apply Hok.
    - apply (stepped_quiet _ _ []); try done; [by cbn; rewrite app_nil_r|]. split; try done. intros l' t. by rewrite Hm. }
  destruct (single_topic_spec (TopicManager.VisitTopics (manager self0 l))) as (lookup & -> & Hlk).
  { intros t Ht. apply (c_topic (ok_core Hok0) l). by apply TopicManager.elem_of_VisitTopics. }
  cbn [obind]. pose proof (ok_cache Hok0) as Hag0.
  assert (cache_progress self0 l i true (p + 1) (self0, false)) as Hinit.
  { split_and!; try done; [eexists; apply stepped_refl|]. exists r, p. split_and!; try done; [lia|].
    intros p' x m Hp' Hx. simplify_eq. lia. }
  destruct (VisitCache_ind XXH64 (on_message_cache WriteHasFailed l i) (data_cache_ self0) l lookup (cache_progress self0 l i)
    (fun q m s Hq Hmq Hm => progress_visit self0 l i q m s Hl Hq Hmq Hag0 Hm)
    (fun q m s more Hq Hmq Hm Hne Hn => progress_skip self0 l i q m s more lookup Hl Hq Hag0
       (fun Hne' t Ht => Hlk Hne' t (proj2 (TopicManager.elem_of_VisitTopics _ _) Ht)) Hm Hne Hn)
    (p + 1) (self0, false) (on_message_cache_stamping l i) (proj1 Hag0) Hl Hfit Hinit)
    as (dc & ret & [self1 b] & more & -> & Hdc & _ & Hslot & Hle & _ & HI & Hmf & _).
  cbn [obind]. destruct HI as (-> & Hok1 & [es1 Hst1] & Hdc1 & r1 & p1 & Hi1 & Hp1 & _).
  destruct (set_data_cache_ok (GetLogID:=GetLogID) dc self1 Hok1) as [Hok2 Hst2].
  { eapply cache_agrees_sub; [exact (ok_cache Hok0)|done|]. intros l' q' m Hm. specialize (Hslot l' q'). rewrite Hm in Hslot.
    destruct (msg_at (data_cache_ self0) l' q') as [m1|]; [|done]. eauto. }
  assert (exists es, stepped self (set_data_cache dc self1) es) as Hst.
  { eexists. eapply stepped_trans; [exact Hst0|]. eapply stepped_trans; [exact Hst1|exact Hst2]. }
  destruct (Z.eqb_spec (p + 1) ret) as [<-|]; cbn [negb].
  - destruct more; [|by specialize (Hmf eq_refl); lia]. cbn. eexists _, _, r1. split_and!; eauto.
  - eexists _, _, r1. split_and!; eauto.
Qed.

Lemma SendCacheRecord_ok self l i : tailer_ok self -> fits 64 l -> is_Some (rd self (Some i)) ->
  exists self', SendCacheRecord XXH64 WriteHasFailed start_ok self l i = Ok self' /\ tailer_ok self' /\ exists es, stepped self self' es.
Proof.
  intros Hok Hl [r Hi]. unfold SendCacheRecord. rewrite (rd_get _ _ _ Hi). cbn [obind]. rewrite IsLogOpen_pos.
  case_bool_decide as Hopen; [|exists self; split_and!; eauto using stepped_refl]. cbn [negb].
  destruct (AdvanceReaderFromCache_ok self l i r Hok Hl Hi Hopen) as (self1 & read & r1 & -> & Hok1 & [es1 Hst1] & Hi1 & Hp1). cbn [obind].
  assert (exists self', (m <~ AttemptReaderMerges start_ok self1 i l ;;
    let '(self, merged) := m in
    if merged : bool then Ok self
    else reader <~ get_reader self (Some i) ;; p <~ RestartReading reader l ;;
         let '(reader, calls) := p in Ok (emit (map Tailer calls) (set_reader (Some i) reader self))) = Ok self' /\
    tailer_ok self' /\ exists es, stepped self self' es) as Hcont.
  { destruct (AttemptReaderMerges_ok self1 i r1 l Hok1 Hi1) as (self2 & merged & -> & Hok2 & [es2 Hst2] & Hm). cbn [obind].
    destruct merged; [exists self2; split_and!; try done; eexists; by eapply stepped_trans|]. rewrite Hm by done.
    rewrite (rd_get _ _ _ Hi1). cbn [obind]. destruct (c_reader (ok_core Hok1) _ _ Hi1) as [(Hwf1 & _) Hv1].
    destruct (RestartReading_spec r1 l Hwf1 Hv1 Hp1) as (r2 & calls & -> & Hview). cbn [obind].
    destruct (view_step self1 (Some i) r1 r2 Hok1 Hi1 Hview) as [Hok3 Hst3]. destruct (calls_step _ _ _ calls Hok3 Hst3) as [Hok4 Hst4].
    eexists. split; [done|]. split; [done|]. eexists. by eapply stepped_trans. }
  destruct read; [exact Hcont|exact Hcont|].
  destruct (pause_ok self1 i r1 l Hok1 Hi1 Hp1 Hl) as (self2 & -> & Hok2 & [es2 Hst2]).
  exists self2. split_and!; try done. eexists. by eapply stepped_trans.
Qed.

End Steps.
