(* ===== verification/TailerSubs.v ===== *)
(** * Subscribing, unsubscribing and serving from the cache

    The operations the room calls, the queues of pending subscriptions and the
    requests for the tail of a log. *)

From S2P Require Import Prelude Coding CodingFacts Messages Containers LRUCache Bloom DataCache DataCacheFacts.
From S2P Require Import DataCacheVisit TopicManager LogReader LogReaderFacts TopicTailer TailerInv TopicTailerFacts.
From S2P Require Import TailerSteps.

#[local] Open Scope outcome_scope.

(** The subscriber waits for the tail of a log. *)
Definition waits (self : TopicTailer) (id : CopilotSub) : Prop :=
  exists l ids, pending_find_time_response_ self !! l = Some ids /\ id ∈ ids.

Definition find_topic (self : TopicTailer) (id : CopilotSub) : option TopicUUID :=
  SubscriptionMap.Find (stream_subscriptions_ self) (stream_id id) (sub_id id).

(** The pending subscription of a subscriber. *)
Definition pending_of (copilot_worker : CopilotSub -> Z) (self : TopicTailer) (id : CopilotSub) : option PendingSubscription :=
  q ← cache_readers_ self !! copilot_worker id; lm_find id (ObservableMap.map_ q).

(** A subscriber sees nothing of a step. *)
Record untouched (copilot_worker : CopilotSub -> Z) (self self' : TopicTailer) (es : list event) (id : CopilotSub) : Prop := {
  u_sent : forall t, sent t id es = [];
  u_subs : forall l t, subs self' l t id = subs self l t id;
  u_pending : pending_of copilot_worker self' id = pending_of copilot_worker self id;
  u_find : find_topic self' id = find_topic self id;
  u_waits : waits self' id -> waits self id
}.

(** Subscriptions known by stream, and requests for tails, are left alone. *)
Record others (self self' : TopicTailer) : Prop := {
  o_streams : stream_subscriptions_ self' = stream_subscriptions_ self;
  o_response : pending_find_time_response_ self' = pending_find_time_response_ self;
  o_requests : pending_find_time_requests_ self' = pending_find_time_requests_ self;
  o_max : max_find_time_requests self' = max_find_time_requests self
}.

Lemma others_refl self : others self self.
Proof. by split. Qed.

Lemma others_trans s1 s2 s3 : others s1 s2 -> others s2 s3 -> others s1 s3.
Proof. intros [] []. split; congruence. Qed.

Lemma frame_others self self' : frame self self' -> others self self'.
Proof. by intros []. Qed.

Lemma others_waits self self' id : others self self' -> waits self' id <-> waits self id.
Proof. intros []. unfold waits. by rewrite o_response0. Qed.

Lemma others_find self self' id : others self self' -> find_topic self' id = find_topic self id.
Proof. intros []. unfold find_topic. by rewrite o_streams0. Qed.

(** The subscriber [id] of topic [t] expects [s] next: it waits in a queue, or
    it is served by the readers. *)
Definition expects (copilot_worker : CopilotSub -> Z) (self : TopicTailer) (l : Z) (t : TopicUUID) (id : CopilotSub) (s : Z) : Prop :=
  ~ waits self id /\ find_topic self id = Some t /\
  ((pending_of copilot_worker self id = Some {| pending_logid := l; pending_seqno := s |} /\ subs self l t id = None) \/
   (pending_of copilot_worker self id = None /\ subs self l t id = Some s)).

Section Subscriptions.
Context {XXH64 : slice -> Z} {sizeof_MessageData sizeof_CacheEntry : Z}.
Context {GetLogID : TopicUUID -> option Z} {copilot_worker : CopilotSub -> Z}.
Context {log : Z -> Z -> option MessageData}.

#[local] Abbreviation log_ok := (log_ok GetLogID log).
#[local] Abbreviation records := (records log).
#[local] Abbreviation no_record := (no_record log).
#[local] Abbreviation knows := (knows log).
#[local] Abbreviation reader_ok := (reader_ok log).
#[local] Abbreviation core_ok := (core_ok log).
#[local] Abbreviation queues_ok := (queues_ok copilot_worker).
#[local] Abbreviation cache_agrees := (cache_agrees XXH64 log).
#[local] Abbreviation tailer_ok := (tailer_ok XXH64 copilot_worker log).
#[local] Abbreviation moved := (moved log).
#[local] Abbreviation stepped := (stepped GetLogID log).
#[local] Abbreviation skips := (skips log).
#[local] Abbreviation gap_moved := (gap_moved XXH64 GetLogID copilot_worker log).
#[local] Abbreviation cache_room := (cache_room sizeof_MessageData sizeof_CacheEntry).

#[local] Abbreviation pending_of := (pending_of copilot_worker).
#[local] Abbreviation untouched := (untouched copilot_worker).
#[local] Abbreviation expects := (expects copilot_worker).
Context (Henv : environment_ok sizeof_MessageData sizeof_CacheEntry GetLogID copilot_worker log).

Lemma untouched_refl self id : untouched self self [] id.
Proof. by split. Qed.

Lemma untouched_trans s1 s2 s3 es es' id : untouched s1 s2 es id -> untouched s2 s3 es' id -> untouched s1 s3 (es ++ es') id.
Proof.
  intros [Hs1 Hb1 Hp1 Hf1 Hw1] [Hs2 Hb2 Hp2 Hf2 Hw2]. split; intros; [by rewrite sent_app, Hs1, Hs2|..]; try congruence; auto.
Qed.

Lemma emit_untouched es self id : (forall t, sent t id es = []) -> untouched self (emit es self) es id.
Proof. by split. Qed.

Lemma sent_other t id es msg rs : es = [OnMessage msg rs] -> id ∉ rs -> sent t id es = [].
Proof. intros -> Hid. cbn. destruct msg; try done. by rewrite decide_False by tauto. Qed.

Lemma sent_data t id d rs : sent t id [OnMessage (Data d) rs] = if decide (data_uuid d = t /\ id ∈ rs) then [strip d] else [].
Proof. unfold sent. cbn [omap list_omap sent_by]. by case_decide. Qed.

(** A record more. *)
Lemma records_snoc l t s q : s <= q -> records l t s (q + 1) = records l t s q ++ option_list (record_of log l t q).
Proof.
  intros Hq. rewrite (records_app l t s q) by lia. f_equal. unfold TailerInv.records. replace (q + 1 - q) with 1 by lia.
  rewrite seqZ_cons, (seqZ_nil _ (Z.pred 1)) by lia. cbn. by destruct (record_of log l t q).
Qed.

Lemma record_of_log l t q m0 : log l q = Some m0 ->
  option_list (record_of log l t q) = if decide (data_uuid m0 = t) then [strip m0] else [].
Proof. intros Hm. unfold record_of. rewrite Hm. cbn [mbind option_bind]. by case_decide. Qed.

(** ** Serving a new subscription from the cache *)

Context {WriteHasFailed : list event -> bool}.

(** How far a subscription got in the cache. *)
Definition deliver_progress (self : TopicTailer) (l : Z) (t : TopicUUID) (id : CopilotSub) (start : Z) (more : bool) (q : Z)
    (s : TopicTailer * Z * bool) : Prop :=
  let '(self', delivered, backoff) := s in
  backoff = negb more /\ start <= delivered <= q /\ q <= kMaxSeqno /\
  exists es, self' = emit es self /\ sent t id es = records l t start q /\
    (forall t' id', ~ (t' = t /\ id' = id) -> sent t' id' es = []) /\ Forall polite es.

Lemma emit_nil self : emit [] self = self.
Proof. unfold emit. rewrite app_nil_r. by destruct self. Qed.

Lemma emit_emit es es' self : emit es' (emit es self) = emit (es ++ es') self.
Proof. unfold emit. cbn. by rewrite app_assoc. Qed.

Lemma deliver_visit self l ns name id start q m s : topic_ok (ns, name) -> fits 64 l -> fits 64 q -> data_seqno_ m = q ->
  cache_agrees (data_cache_ self) -> msg_at (data_cache_ self) l q = Some m ->
  deliver_progress self l (NewTopicUUID ns name) id start true q s ->
  exists m' s' more, on_message_deliver WriteHasFailed (NewTopicUUID ns name) id start m s = Ok (m', s', more) /\
    deliver_progress self l (NewTopicUUID ns name) id start more (q + 1) s'.
Proof.
  intros Htok Hl Hq Hmq [_ Hag] Hm. destruct s as [[self1 d] b]. intros (-> & Hd & Hqk & es & -> & Hs & Ho & Hpol).
  destruct (Hag l q m Hl Hq Hm) as (m0 & Hm0 & Hsame). pose proof (l_seqno (env_log Henv) _ _ _ Hm0) as [_ Hb]. unfold kMaxSeqno in Hb.
  destruct (same_message_fields _ _ Hsame) as (Hu & _ & Hn & Hns). pose proof (l_topic (env_log Henv) _ _ _ Hm0) as Htok0.
  unfold on_message_deliver. rewrite Hmq, (proj2 (Z.leb_le _ _)) by lia. cbn [assert_that obind].
  rewrite UUID_is_pair_spec by done. cbn [obind]. pose proof (record_of_log l (NewTopicUUID ns name) q m0 Hm0) as Hrec.
  assert (bool_decide ((ns, name) = (data_namespaceid_ m, data_topic_name_ m)) = bool_decide (data_uuid m0 = NewTopicUUID ns name)) as ->.
  { apply bool_decide_ext. rewrite Hn, Hns. split; [intros [= -> ->]; done|].
    intros E. symmetry in E. apply NewTopicUUID_inj in E as [-> ->]; done. }
  case_bool_decide as Ht.
  - cbn [negb assert_that obind]. eexists _, _, _. split; [done|]. rewrite wrap_small by (unfold fits; lia).
    rewrite decide_True in Hrec by done. split_and!; [by destruct (WriteHasFailed _)|lia|lia|unfold kMaxSeqno; lia|].
    eexists. split; [apply emit_emit|]. split_and!.
    + rewrite sent_app, Hs, records_snoc, Hrec by lia. f_equal. rewrite sent_data.
      change (data_uuid (SetPreviousSequenceNumber d m)) with (data_uuid m). rewrite Hu, decide_True by set_solver.
      by rewrite <-(strip_same _ _ Hsame).
    + intros t' id' Hne. rewrite sent_app, Ho, sent_data by done. rewrite decide_False; [done|].
      change (data_uuid (SetPreviousSequenceNumber d m)) with (data_uuid m). rewrite Hu, list_elem_of_singleton. intros [? ?]. naive_solver.
    + apply Forall_app. split; [done|]. constructor; [|constructor]. cbn. split_and!; [|lia|apply NoDup_singleton].
      destruct Hsame as [p ->]. by apply (l_type (env_log Henv) _ _ _ Hm0).
  - eexists _, _, _. split; [done|]. rewrite decide_False in Hrec by done. split_and!; [done|lia|lia|unfold kMaxSeqno; lia|].
    exists es. split_and!; try done. rewrite records_snoc, Hrec, app_nil_r by lia. done.
Qed.

Lemma deliver_skip self l ns name id start q m s more : topic_ok (ns, name) -> fits 64 l -> fits 64 q ->
  cache_agrees (data_cache_ self) -> msg_at (data_cache_ self) l q = Some m -> data_topic_name_ m <> name ->
  deliver_progress self l (NewTopicUUID ns name) id start more q s ->
  deliver_progress self l (NewTopicUUID ns name) id start more (q + 1) s.
Proof.
  intros Htok Hl Hq [_ Hag] Hm Hname. destruct s as [[self1 d] b]. intros (-> & Hd & Hqk & es & -> & Hs & Ho & Hpol).
  destruct (Hag l q m Hl Hq Hm) as (m0 & Hm0 & Hsame). pose proof (l_seqno (env_log Henv) _ _ _ Hm0) as [_ Hb]. unfold kMaxSeqno in *.
  destruct (same_message_fields _ _ Hsame) as (_ & _ & Hn & _). split_and!; [done|lia|lia|unfold kMaxSeqno; lia|].
  exists es. split_and!; try done. rewrite records_snoc by lia. rewrite (record_of_log _ _ _ _ Hm0).
  rewrite decide_False; [by rewrite app_nil_r|]. intros E. apply NewTopicUUID_inj in E as [_ E]; [congruence| |done].
  by apply (l_topic (env_log Henv) _ _ _ Hm0).
Qed.

Lemma on_message_deliver_stamping t id start : stamping (on_message_deliver WriteHasFailed t id start).
Proof.
  intros m [[self d] b] m' s' more. unfold on_message_deliver.
  intros (_ & _ & (same & _ & E)%obind_Ok)%obind_Ok. destruct same; [|simplify_eq; apply same_message_refl].
  apply obind_Ok in E as (_ & _ & E). simplify_eq. by exists d.
Qed.

(** The cache gives a subscription every record of its topic it holds in a run
    from the start, and a gap message for the rest. *)
Lemma DeliverFromCache_ok self t id l start : tailer_ok self -> valid_topic t -> fits 64 l -> 0 < start <= kMaxSeqno ->
  exists self' done_ ret es, DeliverFromCache XXH64 WriteHasFailed self t id l start = Ok (self', done_, ret) /\
    tailer_ok self' /\ trace_ self' = trace_ self ++ es /\ start <= ret <= kMaxSeqno /\ sent t id es = records l t start ret /\
    (forall id', id' <> id -> untouched self self' es id') /\
    (forall l' t' id', subs self' l' t' id' = subs self l' t' id') /\
    pending_of self' id = pending_of self id /\ frame self self' /\ log_readers_ self' = log_readers_ self /\ Forall polite es /\
    (forall t', t' <> t -> sent t' id es = []).
Proof.
  intros Hok (ns & name & Htok & ->) Hl Hstart. unfold DeliverFromCache. destruct (GetCapacity _ =? 0).
  { exists self, true, start, []. split_and!; try done; try lia; [by rewrite app_nil_r|by rewrite records_refl]. }
  rewrite (proj2 (Z.eqb_neq _ 0)) by lia. cbn [negb assert_that obind]. rewrite UUID_roundtrip by done. cbn [obind fst snd].
  pose proof (ok_cache Hok) as Hag. assert (fits 64 start) as Hfit by (unfold fits, kMaxSeqno in *; lia).
  set (t := NewTopicUUID ns name).
  assert (deliver_progress self l t id start true start (self, start, false)) as Hinit.
  { split_and!; try done; try lia. exists []. split_and!; [unfold emit; rewrite app_nil_r; by destruct self|by rewrite records_refl|done|constructor]. }
  destruct (VisitCache_ind XXH64 (on_message_deliver WriteHasFailed t id start) (data_cache_ self) l name (deliver_progress self l t id start)
    (fun q m s Hq Hmq Hm => deliver_visit self l ns name id start q m s Htok Hl Hq Hmq Hag Hm)
    (fun q m s more Hq Hmq Hm _ Hn => deliver_skip self l ns name id start q m s more Htok Hl Hq Hag Hm Hn)
    start (self, start, false) (on_message_deliver_stamping t id start) (proj1 Hag) Hl Hfit Hinit)
    as (dc & ret & [[self1 d] b] & more & -> & Hdc & _ & Hslot & Hle & _ & HI & _ & _).
  cbn [obind]. destruct HI as (-> & Hd & Hret & es & -> & Hs & Ho & Hpol).
  assert (cache_agrees dc) as Hag'.
  { eapply cache_agrees_sub; [exact Hag|done|]. intros l' q' m Hm. specialize (Hslot l' q'). rewrite Hm in Hslot.
    destruct (msg_at (data_cache_ self) l' q') as [m1|]; [|done]. eauto. }
  assert (forall es', (forall t' id', sent t' id' es' = []) -> Forall polite es' -> let self' := emit es' (set_data_cache dc (emit es self)) in
    tailer_ok self' /\ trace_ self' = trace_ self ++ (es ++ es') /\ start <= ret <= kMaxSeqno /\ sent t id (es ++ es') = records l t start ret /\
    (forall id', id' <> id -> untouched self self' (es ++ es') id') /\ (forall l' t' id', subs self' l' t' id' = subs self l' t' id') /\
    pending_of self' id = pending_of self id /\ frame self self' /\ log_readers_ self' = log_readers_ self /\ Forall polite (es ++ es') /\
    (forall t', t' <> t -> sent t' id (es ++ es') = [])) as Hall.
  { intros es' Hes' Hp'. cbn zeta. split_and!; try done; try lia.
    - apply emit_ok. apply (tailer_ok_ext self); try done; apply Hok.
    - cbn. by rewrite app_assoc.
    - by rewrite sent_app, Hes', app_nil_r.
    - intros id' Hne. split; try done. intros t'. rewrite sent_app, Hes', Ho by naive_solver. done.
    - by apply Forall_app.
    - intros t' Hne. rewrite sent_app, Hes', Ho by naive_solver. done. }
  destruct more; cbn [negb].
  - destruct (d <? ret) eqn:Hdr; eexists _, _, ret, _; (split; [done|]).
    + apply (Hall [_]); [done|]. constructor; [|constructor]. cbn. split_and!; [done|rewrite wrap_small; unfold fits, kMaxSeqno in *; lia|apply NoDup_singleton].
    + specialize (Hall [] (fun _ _ => eq_refl) (Forall_nil_2 _)). cbn zeta in Hall. rewrite emit_nil in Hall. exact Hall.
  - eexists _, _, ret, _. split; [done|]. specialize (Hall [] (fun _ _ => eq_refl) (Forall_nil_2 _)). cbn zeta in Hall. rewrite emit_nil in Hall. exact Hall.
Qed.

(** ** Pending queues *)

Lemma write_pending_ok self id l q : tailer_ok self -> fits 64 l -> 0 < q <= kMaxSeqno ->
  exists qs, write_pending copilot_worker self id l q = Ok (set_cache_readers qs self) /\ queues_ok qs /\
    (forall id', pending_of (set_cache_readers qs self) id' =
       if decide (id' = id) then Some {| pending_logid := l; pending_seqno := q |} else pending_of self id') /\
    (forall w x, cache_readers_ self !! w = Some x -> exists y, qs !! w = Some y /\
       ObservableMap.read_ready_fd_ x <= ObservableMap.read_ready_fd_ y).
Proof.
  intros Hok Hl Hq. pose proof (ok_queues Hok) as Hqs. unfold write_pending, GetPendingReaderQueue.
  rewrite (proj2 (Z.eqb_neq _ _) (env_workers Henv id)). cbn [negb assert_that obind].
  set (w := copilot_worker id). set (q0 := default ObservableMap.empty (cache_readers_ self !! w)).
  set (p := {| pending_logid := l; pending_seqno := q |}).
  assert (ObservableMap.sound q0 /\ (forall id' p', lm_find id' (ObservableMap.map_ q0) = Some p' -> copilot_worker id' = w /\ pending_ok p')) as [Hs0 Hel0].
  { unfold q0. destruct (cache_readers_ self !! w) as [q1|] eqn:E; [by apply Hqs|]. split; [|done]. split_and!; [apply NoDup_nil; done|done|done]. }
  destruct (ObservableMap.Write_sound q0 id p Hs0) as (Hs1 & _ & Hfind). eexists. split; [done|]. split_and!.
  - intros w' q'. destruct (decide (w' = w)) as [->|Hne]; [rewrite lookup_insert_eq|rewrite lookup_insert_ne by done; apply Hqs].
    intros [= <-]. split; [done|]. intros id' p'. rewrite Hfind. case_decide; [|apply Hel0]. intros [= <-]. by subst.
  - intros id'. unfold TailerSubs.pending_of. cbn [cache_readers_ set_cache_readers].
    destruct (decide (copilot_worker id' = w)) as [E|Hne].
    + rewrite E, lookup_insert_eq. cbn [mbind option_bind]. rewrite Hfind. case_decide; [done|]. unfold q0. by destruct (cache_readers_ self !! w).
    + rewrite lookup_insert_ne by done. rewrite decide_False; [done|]. by intros ->.
  - intros w' x Hx. destruct (decide (w' = w)) as [->|Hne]; [rewrite lookup_insert_eq|rewrite lookup_insert_ne by done; eauto using Z.le_refl].
    eexists. split; [done|]. unfold q0. rewrite Hx. apply ObservableMap.Write_fd.
Qed.

Lemma set_queues_ok qs self : tailer_ok self -> queues_ok qs -> tailer_ok (set_cache_readers qs self).
Proof. intros Hok Hqs. apply (tailer_ok_ext self); try done; apply Hok. Qed.

(** ** Opening a reader for a subscription *)

Lemma best_reader_valid t l q k rs best cost : (forall b, best = Some b -> (b < k + length rs)%nat) ->
  forall b, best_reader t l q k rs best cost = Some b -> (b < k + length rs)%nat.
Proof.
  revert k best cost. induction rs as [|r rs IH]; intros k best cost Hb b; cbn [best_reader]; [apply Hb|].
  replace (k + length (r :: rs))%nat with (S k + length rs)%nat in * by (simpl; lia).
  destruct (_ <? cost); apply IH; [intros ? [= <-]; lia|done].
Qed.

Lemma ReaderForNewSubscription_valid self t l q : is_Some (rd self (ReaderForNewSubscription self t l q)).
Proof.
  unfold ReaderForNewSubscription. destruct (Nat.eqb_spec (length (log_readers_ self)) 1) as [E|].
  - simpl. apply lookup_lt_is_Some. lia.
  - destruct (best_reader _ _ _ _ _ _ _) as [b|] eqn:E; [|by eexists]. simpl. apply lookup_lt_is_Some.
    by apply (best_reader_valid t l q 0 (log_readers_ self) None kSubscriptionCostRewind).
Qed.

Lemma StartReading_ok r t l q : reader_ok r -> 0 < q <= kMaxSeqno ->
  let r' := fst (StartReading r t l q) in
  reader_ok r' /\ same_reader r r' /\
  (forall l' t', next r' l' t' = if decide (l' = l /\ t' = t) then Some (started_next (next r l t) q) else next r l' t').
Proof.
  intros (Hwf & Hk & Hlag) Hq. destruct (StartReading_spec r t l q Hwf ltac:(unfold kMaxSeqno in *; lia)) as (Hwf' & Hsr & Hpos & Hnext).
  cbv zeta. split; [split; [done|split; [|by eapply reader_lag]]|by split].
  intros l' t' n p. rewrite Hpos, Hnext. destruct (decide (l' = l)) as [->|]; [|rewrite decide_False by tauto; apply Hk].
  intros Hn [= <-] x m Hx Hm. unfold started_pos, started_next in *.
  destruct (pos r l) as [p|] eqn:Ep.
  - destruct (decide (t' = t)) as [->|Hne].
    + rewrite decide_True in Hn by done. simplify_eq. destruct (next r l t) as [n0|] eqn:En.
      * repeat case_bool; cbn in Hx; try lia; exact (Hk l t n0 p En Ep x m ltac:(lia) Hm).
      * cbn in Hx. case_bool; lia.
    + rewrite decide_False in Hn by tauto. assert (x < p + 1) as Hxp by (repeat case_bool; destruct (next r l t); repeat case_bool; cbn in Hx; lia).
      exact (Hk l t' n p Hn Ep x m ltac:(lia) Hm).
  - destruct (decide (t' = t)) as [->|Hne]; [rewrite decide_True in Hn by done|rewrite decide_False in Hn by tauto].
    + simplify_eq. destruct (next r l t) as [n0|] eqn:En; [|lia]. apply next_pos in En. rewrite Ep in En. by destruct En.
    + apply next_pos in Hn. rewrite Ep in Hn. by destruct Hn.
Qed.

Lemma subscribe_step self i r t l q id calls r' : tailer_ok self -> rd self i = Some r -> 0 < q <= kMaxSeqno -> valid_topic t ->
  StartReading r t l q = (r', calls) ->
  let self1 := emit (map Tailer calls) (set_reader i r' self) in
  let self' := set_manager l (fst (TopicManager.AddSubscriber (manager self1 l) t q id)) self1 in
  tailer_ok self' /\ trace_ self' = trace_ self ++ map Tailer calls /\
  (forall l' t' id', subs self' l' t' id' = if decide (l' = l /\ t' = t /\ id' = id) then Some q else subs self l' t' id').
Proof.
  intros Hok Hi Hq Ht Hsr self1 self'. pose proof (ok_core Hok) as Hc.
  destruct (StartReading_ok r t l q) as (Hr' & [Hv _] & Hnext); [by apply (c_reader Hc _ _ Hi)|done|]. rewrite Hsr in Hr', Hv, Hnext. cbn [fst] in *.
  pose proof (rd_set self i r' ltac:(eauto)) as Hrd.
  assert (manager self1 = manager self) as Hm1 by (unfold self1; change (manager (emit ?x ?y)) with (manager y); apply manager_set_reader).
  pose proof (TopicManager.AddSubscriber_spec (manager self l) t q id (c_wf Hc l)) as Ha.
  unfold self'. rewrite Hm1. destruct (TopicManager.AddSubscriber (manager self l) t q id) as [m b]. cbn [fst].
  destruct Ha as (Hwf & _ & Hsub & Htop).
  assert (forall l', manager (set_manager l m self1) l' = if decide (l' = l) then m else manager self l') as Hmg.
  { intros l'. rewrite manager_set. by rewrite Hm1. }
  assert (forall l' t', is_Some (manager self l' !! t') -> is_Some (manager (set_manager l m self1) l' !! t')) as Hgrow.
  { intros l' t'. rewrite Hmg. case_decide; [subst|done]. intros. apply Htop. by right. }
  assert (forall l' t' id', subs (set_manager l m self1) l' t' id' =
    if decide (l' = l /\ t' = t /\ id' = id) then Some q else subs self l' t' id') as Hsubs.
  { intros l' t' id'. unfold subs at 1. rewrite Hmg. case_decide as Hl; [subst l'; rewrite Hsub; unfold subs; repeat case_decide; naive_solver|].
    rewrite decide_False by tauto. done. }
  pose proof (set_reader_fields i r' self) as (Hf1 & Hf2 & Hf3 & Hf4 & _ & _ & _ & Htr & Hf9).
  split_and!; [|by cbn; rewrite Htr|done].
  assert (forall j, rd (set_manager l m self1) j = if decide (j = i) then Some r' else rd self j) as Hrd' by exact Hrd.
  split.
  - split.
    + intros j x. rewrite Hrd'. case_decide; [intros [= <-]; subst|apply Hc]. split; [done|]. rewrite Hv. by apply Hc.
    + rewrite Hrd'. case_decide; [done|apply Hc].
    + intros l'. rewrite Hmg. case_decide; [done|apply Hc].
    + intros j x l' t' n. rewrite Hrd'. case_decide as Hj; [intros [= <-]|intros; apply Hgrow; by eapply (c_follow Hc)].
      rewrite Hnext. case_decide as Hd; [|intros; apply Hgrow; by eapply (c_follow Hc)].
      destruct Hd as [-> ->]. intros _. rewrite Hmg, decide_True by done. apply Htop. by left.
    + intros l' t' id' s Hs. change (subs (set_manager l m self1) l' t' id' = Some s) in Hs. rewrite Hsubs in Hs. case_decide as Hd.
      * destruct Hd as (-> & -> & ->). simplify_eq. exists i, r', (started_next (next r l t) s). rewrite Hrd', Hnext, !decide_True by done.
        split_and!; try done. unfold started_next. destruct (next r l t); lia.
      * destruct (c_cover Hc l' t' id' s Hs) as (j & x & n & Hj & Hn & Hle). destruct (decide (j = i)) as [->|Hne].
        -- simplify_eq. exists i, r'. setoid_rewrite Hnext. rewrite Hrd', decide_True by done. case_decide as Hd'; [|eauto].
           destruct Hd' as [-> ->]. eexists. split_and!; try done. rewrite Hn. cbn. lia.
        -- exists j, x, n. by rewrite Hrd', decide_False.
    + intros l' t' id' s Hs. change (subs (set_manager l m self1) l' t' id' = Some s) in Hs. rewrite Hsubs in Hs.
      case_decide; [by simplify_eq|by eapply (c_bounds Hc)].
    + intros l' t'. rewrite Hmg. case_decide; [subst|apply Hc]. intros [->|?]%Htop; [done|by eapply (c_topic Hc)].
  - unfold cache_agrees, self1. cbn. rewrite Hf1. apply Hok.
  - cbn. rewrite Hf2. apply Hok.
  - cbn. rewrite Hf3. destruct (ok_reentry Hok) as [Hi1 Hi2]. split; [done|]. intros l' k u Hin.
    destruct (Hi2 l' k u Hin) as [? Hk]. split; [done|]. rewrite Hrd'. case_decide; [by eexists|done].
  - cbn. rewrite Hf4. apply Hok.
  - cbn. rewrite Hf9. apply Hok.
Qed.

(** ** Serving a pending subscription *)

Lemma ProcessPendingSubscription_ok self t id l q : tailer_ok self -> valid_topic t -> fits 64 l -> 0 < q <= kMaxSeqno ->
  pending_of self id = None ->
  exists self' es ret, ProcessPendingSubscription XXH64 WriteHasFailed copilot_worker self t id l q = Ok self' /\
    tailer_ok self' /\ trace_ self' = trace_ self ++ es /\ others self self' /\ q <= ret /\ sent t id es = records l t q ret /\
    (forall id', id' <> id -> untouched self self' es id') /\
    ((pending_of self' id = None /\ subs self' l t id = Some ret) \/
     (pending_of self' id = Some {| pending_logid := l; pending_seqno := ret |} /\ subs self' l t id = subs self l t id)) /\
    (forall w x, cache_readers_ self !! w = Some x -> exists y, cache_readers_ self' !! w = Some y /\
       ObservableMap.read_ready_fd_ x <= ObservableMap.read_ready_fd_ y) /\
    (forall t', t' <> t -> sent t' id es = []) /\ (forall l' t', is_Some (subs self' l' t' id) -> is_Some (subs self l' t' id) \/ t' = t) /\
    Forall polite es.
Proof.
  intros Hok Ht Hl Hq Hp. unfold ProcessPendingSubscription. rewrite (proj2 (Z.eqb_neq _ 0)) by lia. cbn [negb assert_that obind].
  destruct (DeliverFromCache_ok self t id l q Hok Ht Hl Hq) as (self1 & done_ & ret & es & -> & Hok1 & Htr1 & Hret & Hs & Hun & Hsub1 & Hp1 & Hf1 & _ & Hpol & Hother).
  cbn [obind]. pose proof (f_queues Hf1) as Hqs1. destruct done_.
  - destruct (ReaderForNewSubscription_valid self1 t l ret) as [r Hr]. set (i := ReaderForNewSubscription self1 t l ret) in *.
    rewrite (rd_get _ _ _ Hr). cbn [obind]. destruct (StartReading r t l ret) as [r' calls] eqn:Esr.
    destruct (subscribe_step self1 i r t l ret id calls r' Hok1 Hr ltac:(lia) Ht Esr) as (Hok2 & Htr2 & Hsub2).
    pose proof (set_reader_fields i r' self1) as (_ & Hf2 & _ & Hf4 & Hf5 & Hf6 & Hf7 & _ & _).
    eexists _, (es ++ map Tailer calls), ret. split; [done|]. split; [done|]. split; [by rewrite Htr2, Htr1, app_assoc|]. split_and!.
    + eapply others_trans; [by apply frame_others|]. by split.
    + lia.
    + by rewrite sent_app, sent_calls, app_nil_r.
    + intros id' Hne. eapply untouched_trans; [by apply Hun|]. split.
      * intros t'. apply sent_calls.
      * intros l' t'. rewrite Hsub2. by rewrite decide_False by tauto.
      * unfold TailerSubs.pending_of. cbn. by rewrite Hf2.
      * unfold find_topic. cbn. by rewrite Hf4.
      * unfold waits. cbn. by rewrite Hf5.
    + left. split; [|rewrite Hsub2; by rewrite decide_True]. rewrite <-Hp, <-Hp1. unfold TailerSubs.pending_of. cbn. by rewrite Hf2.
    + intros w x Hx. exists x. split; [|lia]. cbn. by rewrite Hf2, Hqs1.
    + intros t' Hne. by rewrite sent_app, sent_calls, app_nil_r, Hother.
    + intros l' t'. rewrite Hsub2, Hsub1. case_decide; [right; naive_solver|by left].
    + apply Forall_app. split; [done|apply polite_calls].
  - destruct (write_pending_ok self1 id l ret Hok1 Hl ltac:(lia)) as (qs & -> & Hqs & Hpend & Hfd).
    eexists _, es, ret. split; [done|]. split; [by apply set_queues_ok|]. split; [done|]. split_and!.
    + eapply others_trans; [by apply frame_others|]. by split.
    + lia.
    + done.
    + intros id' Hne. rewrite <-(app_nil_r es). eapply untouched_trans; [by apply Hun|]. split; try done.
      rewrite Hpend. by rewrite decide_False.
    + right. split; [rewrite Hpend; by rewrite decide_True|]. rewrite <-Hsub1. done.
    + rewrite <-Hqs1. exact Hfd.
    + exact Hother.
    + intros l' t' Hs'. left. by rewrite <-Hsub1.
    + exact Hpol.
Qed.

(** *** What a step is for a subscription *)

Definition progresses (self self' : TopicTailer) (es : list event) (l : Z) (t : TopicUUID) (id : CopilotSub) : Prop :=
  forall s, expects self l t id s -> exists s', expects self' l t id s' /\ s <= s' /\ sent t id es = records l t s s'.

Lemma untouched_progresses self self' es l t id : untouched self self' es id -> progresses self self' es l t id.
Proof.
  intros [Hs Hb Hp Hf Hw] s (Hnw & Hft & Hcase). exists s. split; [|split; [apply Z.le_refl|by rewrite records_refl, Hs]].
  split; [by intros ?%Hw|]. rewrite Hf, Hp, Hb. by split.
Qed.

Lemma stepped_progresses self self' es l t id : GetLogID t = Some l -> stepped self self' es -> progresses self self' es l t id.
Proof.
  intros Hl [_ Hm Hf] s (Hnw & Hft & Hcase). specialize (Hm l t id Hl).
  assert (pending_of self' id = pending_of self id) as Hp by (unfold TailerSubs.pending_of; by rewrite (f_queues Hf)).
  pose proof (frame_others _ _ Hf) as Ho. unfold TailerSubs.expects. rewrite (others_find _ _ id Ho), Hp.
  assert (~ waits self' id) as Hnw' by (by rewrite others_waits). destruct Hcase as [[Hpd Hsb]|[Hpd Hsb]]; rewrite Hsb in Hm.
  - destruct Hm as [-> ->]. exists s. split; [by auto|]. split; [apply Z.le_refl|]. by rewrite records_refl.
  - destruct Hm as (x & -> & Hx & ->). exists x. split; [by auto|by split].
Qed.

(** ** Draining the queues *)

(** Taking an entry from a queue. *)
Lemma erase_pending_ok self w q id : tailer_ok self -> cache_readers_ self !! w = Some q ->
  tailer_ok (set_cache_readers (<[w := {| ObservableMap.map_ := lm_erase id (ObservableMap.map_ q);
    ObservableMap.read_ready_fd_ := ObservableMap.read_ready_fd_ q |}]> (cache_readers_ self)) self).
Proof.
  intros Hok Eq. destruct (ok_queues Hok w q Eq) as [Hsq Helq]. apply set_queues_ok; [done|]. intros w' q'.
  destruct (decide (w' = w)) as [->|]; [rewrite lookup_insert_eq|rewrite lookup_insert_ne by done; by apply Hok].
  intros [= <-]. split; [by apply ObservableMap.erase_sound|]. intros id' p'. cbn. rewrite lm_find_erase. case_decide; [done|apply Helq].
Qed.

Lemma DrainPending_ok self w id last p : tailer_ok self -> pending_of self id = Some p -> copilot_worker id = w ->
  exists self' es, DrainPending XXH64 WriteHasFailed copilot_worker self w id last = Ok self' /\ tailer_ok self' /\
    trace_ self' = trace_ self ++ es /\ others self self' /\
    (forall l t id', progresses self self' es l t id') /\ (forall id', id' <> id -> untouched self self' es id') /\
    (forall t, find_topic self id <> Some t -> sent t id es = []) /\
    (forall l t, is_Some (subs self' l t id) -> is_Some (subs self l t id) \/ find_topic self id = Some t) /\ Forall polite es.
Proof.
  intros Hok Hp <-. unfold TailerSubs.pending_of in Hp. destruct (cache_readers_ self !! copilot_worker id) as [q|] eqn:Eq; [|done].
  cbn [mbind option_bind] in Hp. unfold DrainPending. rewrite Eq. change (default ObservableMap.empty (Some q)) with q. rewrite Hp. cbv beta iota zeta.
  set (w := copilot_worker id) in *.
  set (q1 := {| ObservableMap.map_ := lm_erase id (ObservableMap.map_ q); ObservableMap.read_ready_fd_ := ObservableMap.read_ready_fd_ q |}).
  set (self1 := set_cache_readers (<[w := q1]> (cache_readers_ self)) self).
  destruct (ok_queues Hok w q Eq) as [Hsq Helq]. pose proof (ObservableMap.erase_sound q id Hsq) as Hsq1. fold q1 in Hsq1.
  assert (0 < ObservableMap.read_ready_fd_ q) as Hfd. { apply Hsq. by destruct (ObservableMap.map_ q). }
  assert (tailer_ok self1) as Hok1 by (by apply erase_pending_ok).
  assert (forall id', pending_of self1 id' = if decide (id' = id) then None else pending_of self id') as Hp1.
  { intros id'. unfold TailerSubs.pending_of. cbn. destruct (decide (copilot_worker id' = w)) as [E|Hne].
    - rewrite E, lookup_insert_eq, Eq. cbn. rewrite lm_find_erase. done.
    - rewrite lookup_insert_ne by done. rewrite decide_False; [done|]. by intros ->. }
  assert (exists self2 es, on_pending XXH64 WriteHasFailed copilot_worker self1 (id, p) = Ok self2 /\ tailer_ok self2 /\
    trace_ self2 = trace_ self1 ++ es /\ others self1 self2 /\ (forall l t id', progresses self self2 es l t id') /\
    (forall id', id' <> id -> untouched self self2 es id') /\
    ((forall t, find_topic self id <> Some t -> sent t id es = []) /\
     (forall l t, is_Some (subs self2 l t id) -> is_Some (subs self l t id) \/ find_topic self id = Some t) /\ Forall polite es) /\
    exists y, cache_readers_ self2 !! w = Some y /\ ObservableMap.read_ready_fd_ q1 <= ObservableMap.read_ready_fd_ y)
    as (self2 & es & -> & Hok2 & Htr2 & Ho2 & Hpr & Hunt & Hown & y & Hy & Hfdy).
  { unfold on_pending. fold (find_topic self1 id). change (find_topic self1 id) with (find_topic self id). destruct (find_topic self id) as [t0|] eqn:Eft.
    - destruct (Helq id p Hp) as [_ [Hpl Hps]].
      destruct (ProcessPendingSubscription_ok self1 t0 id (pending_logid p) (pending_seqno p) Hok1 ltac:(by eapply (ok_streams Hok)) Hpl Hps)
        as (self2 & es & ret & -> & Hok2 & Htr & Ho & Hle & Hs & Hun & Hcase & Hfdm & Hother & Hsubs & Hpol); [rewrite Hp1; by rewrite decide_True|].
      assert (forall id', id' <> id -> untouched self self2 es id') as Hunt.
      { intros id' Hne. destruct (Hun id' Hne) as [Hs' Hb Hp' Hf Hw]. split; try done. rewrite Hp', Hp1. by rewrite decide_False. }
      exists self2, es. split_and!; try done; [| | |by apply Hfdm; cbn; rewrite lookup_insert_eq].
      2: { intros t Hne. apply Hother. congruence. }
      2: { intros l t [?| ->]%Hsubs; [by left|by right]. }
      intros l t id'. destruct (decide (id' = id)) as [->|Hne].
      + intros s (Hnw & Hft & [[Hpd Hsb]|[Hpd _]]); unfold TailerSubs.pending_of in Hpd; fold w in Hpd; rewrite Eq in Hpd;
          cbn [mbind option_bind] in Hpd; rewrite Hp in Hpd; [|done]. injection Hpd as ->. cbn [pending_logid pending_seqno] in *.
        rewrite Hft in Eft. injection Eft as <-. exists ret. split; [|by split]. split; [by rewrite (others_waits _ _ _ Ho)|]. rewrite (others_find _ _ id Ho). split; [done|].
        destruct Hcase as [[? ?]|[? Hsb']]; [by right|left]. split; [done|]. rewrite Hsb'. exact Hsb.
      + by apply untouched_progresses, Hunt.
    - assert (forall id', id' <> id -> untouched self self1 [] id') as Hunt.
      { intros id' Hne. split; try done. rewrite Hp1. by rewrite decide_False. }
      exists self1, []. split_and!; try done; [by rewrite app_nil_r| |by left|exists q1; split; [apply lookup_insert_eq|lia]].
      intros l t id'. destruct (decide (id' = id)) as [->|Hne].
      + intros s (_ & Hft & _). congruence.
      + by apply untouched_progresses, Hunt. }
  assert (others self self2) as Ho by (destruct Ho2; by split). cbn [obind]. destruct last; [|by exists self2, es; destruct Hown as (? & ? & ?)].
  rewrite Hy. destruct (ObservableMap.clear_sound y) as (y' & Ey & Hsy & Hmy); [by apply (ok_queues Hok2 w y Hy)|cbn in Hfdy; lia|].
  change (default ObservableMap.empty (Some y)) with y. rewrite Ey. cbn [obind]. eexists _, es. split; [done|].
  assert (forall id', pending_of (set_cache_readers (<[w := y']> (cache_readers_ self2)) self2) id' = pending_of self2 id') as Hp3.
  { intros id'. unfold TailerSubs.pending_of. cbn. destruct (decide (copilot_worker id' = w)) as [E|Hne].
    - rewrite E, lookup_insert_eq, Hy. cbn. by rewrite Hmy.
    - by rewrite lookup_insert_ne by done. }
  split; [|split; [done|split; [destruct Ho; by split|split; [|split; [|exact Hown]]]]].
  - apply set_queues_ok; [done|]. intros w' q'. destruct (decide (w' = w)) as [->|]; [rewrite lookup_insert_eq|rewrite lookup_insert_ne by done; by apply Hok2].
    intros [= <-]. split; [done|]. rewrite Hmy. by apply (ok_queues Hok2 w y Hy).
  - intros l t id' s Hex. destruct (Hpr l t id' s Hex) as (s' & Hex' & ? & ?). exists s'. split; [|by split].
    destruct Hex' as (? & ? & Hc). split; [done|]. split; [done|]. rewrite Hp3. exact Hc.
  - intros id' Hne. destruct (Hunt id' Hne) as [? ? Hpd ? ?]. split; try done. by rewrite Hp3.
Qed.

(** ** The reader of a new subscription *)

(** A reader that reads the log follows the topic; or there is a choice of
    readers, all of them have the log open past [s] and none has kept the topic
    from [s] or before, so that the subscription waits with the virtual reader
    for one of them to become free. *)
Definition placed (self : TopicTailer) (l : Z) (t : TopicUUID) (s : Z) : Prop :=
  (exists j r n p, log_readers_ self !! j = Some r /\ next r l t = Some n /\ n <= s /\ pos r l = Some p /\ no_record l t s (p + 1)) \/
  (length (log_readers_ self) <> 1%nat /\ forall j r, log_readers_ self !! j = Some r ->
     exists p, pos r l = Some p /\ s <= p /\ forall n, next r l t = Some n -> s < n).

Lemma best_reader_None t l q k rs best cost : best_reader t l q k rs best cost = None ->
  best = None /\ forall r, r ∈ rs -> cost <= SubscriptionCost r t l q.
Proof.
  revert k best cost. induction rs as [|r rs IH]; intros k best cost; cbn [best_reader]; [intros ->; split; [done|set_solver]|].
  destruct (Z.ltb_spec (SubscriptionCost r t l q) cost) as [Hlt|Hge]; intros Hb; destruct (IH _ _ _ Hb) as [Hn Hall]; [done|].
  split; [done|]. intros x [->|Hx]%elem_of_cons; auto.
Qed.

Lemma rewind_cost r t l q : reader_wf r -> 0 < q <= kMaxSeqno -> kSubscriptionCostRewind <= SubscriptionCost r t l q ->
  exists p, pos r l = Some p /\ q <= p /\ forall n, next r l t = Some n -> q < n.
Proof.
  intros Hwf Hq. unfold SubscriptionCost, pos, next, kSubscriptionCostRewind, kSubscriptionCostStart, kMaxSeqno in *.
  destruct (log_state_ r !! l) as [st|] eqn:El; [|lia]. cbn. pose proof (w_last st (Hwf l st El)) as Hf. unfold fits in Hf.
  destruct (Z.ltb_spec (last_read st) q) as [Hlt|Hge]; [rewrite wrap_small by (unfold fits; lia); lia|].
  intros Hc. exists (last_read st). split_and!; [done|done|]. intros n Hn. rewrite Hn in Hc. destruct (Z.ltb_spec q n); [done|lia].
Qed.

Lemma ProcessPendingSubscription_placed self t id l q self' : tailer_ok self -> valid_topic t -> fits 64 l -> 0 < q <= kMaxSeqno ->
  ProcessPendingSubscription XXH64 WriteHasFailed copilot_worker self t id l q = Ok self' -> pending_of self' id = None ->
  exists s, q <= s /\ subs self' l t id = Some s /\ placed self' l t s.
Proof.
  intros Hok Ht Hl Hq. unfold ProcessPendingSubscription. rewrite (proj2 (Z.eqb_neq _ 0)) by lia. cbn [negb assert_that obind].
  destruct (DeliverFromCache_ok self t id l q Hok Ht Hl Hq) as (self1 & done_ & ret & es & -> & Hok1 & _ & Hret & _ & _ & _ & _ & _ & _ & _ & _).
  cbn [obind]. destruct done_.
  2: { destruct (write_pending_ok self1 id l ret Hok1 Hl ltac:(lia)) as (qs & -> & _ & Hpend & _). intros [= <-] Hn. by rewrite Hpend, decide_True in Hn. }
  destruct (ReaderForNewSubscription_valid self1 t l ret) as [r Hr]. set (i := ReaderForNewSubscription self1 t l ret) in *.
  rewrite (rd_get _ _ _ Hr). cbn [obind]. destruct (StartReading r t l ret) as [r' calls] eqn:Esr.
  destruct (subscribe_step self1 i r t l ret id calls r' Hok1 Hr ltac:(lia) Ht Esr) as (Hok2 & _ & Hsub2). intros [= <-] _.
  exists ret. split; [lia|]. split; [rewrite Hsub2; by rewrite decide_True|].
  destruct (StartReading_ok r t l ret) as (Hr' & _ & Hnext); [by apply (c_reader (ok_core Hok1) _ _ Hr)|lia|]. rewrite Esr in Hr', Hnext. cbn [fst] in *.
  pose proof (rd_set self1 i r' ltac:(eauto)) as Hrd. destruct i as [j|] eqn:Ei.
  - left. exists j, r', (started_next (next r l t) ret). assert (next r' l t = Some (started_next (next r l t) ret)) as Hn by (by rewrite Hnext, decide_True).
    destruct (next_pos r' l t _ Hn) as [p Hp]. exists p. specialize (Hrd (Some j)). rewrite decide_True in Hrd by done.
    assert (started_next (next r l t) ret <= ret) as Hle by (unfold started_next; destruct (next r l t); lia).
    split_and!; [exact Hrd|done|done|done|]. intros x m Hx Hm. destruct Hr' as (_ & Hk & _). exact (Hk l t _ p Hn Hp x m ltac:(lia) Hm).
  - right. unfold i, ReaderForNewSubscription in Ei. destruct (Nat.eqb_spec (length (log_readers_ self1)) 1) as [|Hlen]; [done|].
    destruct (best_reader_None _ _ _ _ _ _ _ Ei) as [_ Hall]. split; [exact Hlen|]. intros j x Hj. change (log_readers_ self1 !! j = Some x) in Hj.
    apply (rewind_cost x); [|lia|apply Hall; by eapply list_elem_of_lookup_2]. by apply (c_reader (ok_core Hok1) (Some j) x Hj).
Qed.

Lemma clear_map {K V} `{EqDecision K} (y y' : ObservableMap.t K V) :
  ObservableMap.clear_if_empty y = Ok y' -> ObservableMap.map_ y' = ObservableMap.map_ y.
Proof.
  unfold ObservableMap.clear_if_empty, ObservableMap.read_event. destruct (ObservableMap.map_ y) eqn:E; [|by intros [= <-]].
  intros (? & _ & H)%obind_Ok. by injection H as <-.
Qed.

(** A pending subscription goes on waiting, or it is placed. *)
Lemma DrainPending_placed self w id last t l q self' : tailer_ok self -> pending_of self id = Some {| pending_logid := l; pending_seqno := q |} ->
  find_topic self id = Some t -> copilot_worker id = w -> DrainPending XXH64 WriteHasFailed copilot_worker self w id last = Ok self' ->
  pending_of self' id = None -> exists s, q <= s /\ subs self' l t id = Some s /\ placed self' l t s.
Proof.
  intros Hok Hp Hft <- E Hnone. pose proof Hp as Hp0. unfold TailerSubs.pending_of in Hp.
  destruct (cache_readers_ self !! copilot_worker id) as [x|] eqn:Eq; [|done].
  cbn [mbind option_bind] in Hp. unfold DrainPending in E. rewrite Eq in E. change (default ObservableMap.empty (Some x)) with x in E. rewrite Hp in E.
  cbv beta iota zeta in E. set (self1 := set_cache_readers _ self) in E. destruct (ok_queues Hok _ x Eq) as [Hsq Helq]. destruct (Helq id _ Hp) as [_ [Hpl Hps]].
  assert (tailer_ok self1) as Hok1 by (by apply erase_pending_ok).
  unfold on_pending in E. change (SubscriptionMap.Find (stream_subscriptions_ self1) (stream_id id) (sub_id id)) with (find_topic self id) in E. rewrite Hft in E.
  cbn [pending_logid pending_seqno] in *. apply obind_Ok in E as (self2 & E2 & E).
  assert (exists qs, self' = set_cache_readers qs self2 /\ pending_of self' id = pending_of self2 id) as (qs & -> & Hpe).
  { destruct last; [|apply Ok_inj in E as <-; exists (cache_readers_ self2); by destruct self2]. apply obind_Ok in E as (y & Ey & E). apply Ok_inj in E as <-.
    eexists. split; [done|]. unfold TailerSubs.pending_of. cbn. rewrite lookup_insert_eq. cbn.
    rewrite (clear_map _ _ Ey). by destruct (cache_readers_ self2 !! copilot_worker id). }
  rewrite Hpe in Hnone. destruct (ProcessPendingSubscription_placed self1 t id l q self2 Hok1 ltac:(by eapply (ok_streams Hok)) Hpl Hps E2 Hnone) as (s & Hle & Hs & Hpc).
  by exists s.
Qed.

End Subscriptions.
