(* ===== verification/TailerRoom.v ===== *)
(** * The interface of the room, and requests for tails

    Subscribing and unsubscribing, the answers of the log tailer about the tail
    of a log, and the administration of the cache. *)

From S2P Require Import Prelude Coding CodingFacts Messages Containers LRUCache Bloom DataCache DataCacheFacts.
From S2P Require Import DataCacheVisit TopicManager LogReader LogReaderFacts TopicTailer TailerInv TopicTailerFacts.
From S2P Require Import TailerSteps TailerSubs.

#[local] Open Scope outcome_scope.

(** ** Requests in flight *)

(** The logs whose tail was asked for, without those still waiting to be asked. *)
Definition in_flight (self : TopicTailer) : Z :=
  Z.of_nat (size (pending_find_time_response_ self)) - Z.of_nat (length (pending_find_time_requests_ self)).

(** Requests wait only while as many as allowed are in flight. *)
Record find_ok (self : TopicTailer) : Prop := {
  fo_nodup : NoDup (pending_find_time_requests_ self);
  fo_sub : forall l, l ∈ pending_find_time_requests_ self -> is_Some (pending_find_time_response_ self !! l);
  fo_nonempty : forall l ids, pending_find_time_response_ self !! l = Some ids -> ids <> [];
  fo_limit : in_flight self <= max_find_time_requests self;
  fo_full : pending_find_time_requests_ self <> [] -> in_flight self = max_find_time_requests self;
  fo_max : 0 <= max_find_time_requests self < 2 ^ 64
}.

Lemma find_ok_eq self self' : pending_find_time_response_ self' = pending_find_time_response_ self ->
  pending_find_time_requests_ self' = pending_find_time_requests_ self ->
  max_find_time_requests self' = max_find_time_requests self -> find_ok self -> find_ok self'.
Proof. intros Hr Hq Hm []. split; unfold in_flight in *; rewrite ?Hr, ?Hq, ?Hm; done. Qed.

Lemma find_ok_others self self' : others self self' -> find_ok self -> find_ok self'.
Proof. intros []. by apply find_ok_eq. Qed.

Lemma in_flight_nonneg self : find_ok self -> 0 <= in_flight self.
Proof.
  intros [Hnd Hsub _ _ _ _]. unfold in_flight. apply Z.le_0_sub, Nat2Z.inj_le. rewrite <-size_dom.
  rewrite <-(size_list_to_set (C:=gset Z)) by done. apply subseteq_size. intros l Hl. apply elem_of_dom, Hsub. by apply elem_of_list_to_set in Hl.
Qed.

Lemma InFlight_spec self : find_ok self -> InFlightFindLatestSeqnoRequests self = in_flight self.
Proof.
  intros Hf. pose proof (in_flight_nonneg self Hf). destruct Hf. apply wrap_small. unfold fits, in_flight in *. lia.
Qed.

Lemma SendFindLatestSeqnoRequest_ok self l : find_ok self -> SendFindLatestSeqnoRequest self l = Ok (emit [FindLatestSeqno l] self).
Proof.
  intros Hf. unfold SendFindLatestSeqnoRequest. rewrite InFlight_spec by done. by rewrite (proj2 (Z.leb_le _ _)) by apply Hf.
Qed.

(** Adding a log, in flight or to the waiting ones, and removing an answered one. *)
Lemma find_ok_add self l id : find_ok self -> pending_find_time_response_ self !! l = None ->
  in_flight self < max_find_time_requests self ->
  find_ok (set_find_time (<[l := [id]]> (pending_find_time_response_ self)) (pending_find_time_requests_ self) self).
Proof.
  intros [Hnd Hsub Hne Hlim Hfull Hmax] Hl Hlt.
  assert (pending_find_time_requests_ self = []) as Hnil by (destruct (pending_find_time_requests_ self); [done|]; rewrite Hfull in Hlt; [lia|done]).
  split; cbn; rewrite ?Hnil; try done; [by apply NoDup_nil|intros l' Hin; by apply elem_of_nil in Hin| |].
  - intros l' ids. destruct (decide (l' = l)) as [->|]; [rewrite lookup_insert_eq; by intros [= <-]|rewrite lookup_insert_ne by done; eauto].
  - unfold in_flight in *. cbn. rewrite map_size_insert_None by done. rewrite ?Hnil in *. simpl in *. lia.
Qed.

Lemma find_ok_queue self l id : find_ok self -> pending_find_time_response_ self !! l = None ->
  in_flight self = max_find_time_requests self ->
  find_ok (set_find_time (<[l := [id]]> (pending_find_time_response_ self)) (pending_find_time_requests_ self ++ [l]) self).
Proof.
  intros [Hnd Hsub Hne Hlim Hfull Hmax] Hl Heq.
  assert (l ∉ pending_find_time_requests_ self) as Hnot by (intros Hin; apply Hsub in Hin; rewrite Hl in Hin; by destruct Hin).
  assert (forall x, in_flight (set_find_time (<[l := [id]]> (pending_find_time_response_ self)) (pending_find_time_requests_ self ++ [l]) x) = in_flight self) as Hsame.
  { intros x. unfold in_flight. cbn. rewrite map_size_insert_None, length_app by done. simpl. lia. }
  split; rewrite ?Hsame; cbn; try done; try lia.
  - apply NoDup_app. split_and!; [done|set_solver|apply NoDup_singleton].
  - intros l' [Hin|Hin%list_elem_of_singleton]%elem_of_app; [|subst; rewrite lookup_insert_eq; by eexists].
    destruct (decide (l' = l)) as [->|]; [done|]. rewrite lookup_insert_ne by done. by apply Hsub.
  - intros l' ids. destruct (decide (l' = l)) as [->|]; [rewrite lookup_insert_eq; by intros [= <-]|rewrite lookup_insert_ne by done; eauto].
Qed.

Lemma find_ok_join self l id ids : find_ok self -> pending_find_time_response_ self !! l = Some ids ->
  find_ok (set_find_time (<[l := ids ++ [id]]> (pending_find_time_response_ self)) (pending_find_time_requests_ self) self).
Proof.
  intros [Hnd Hsub Hne Hlim Hfull Hmax] Hl.
  assert (forall x, in_flight (set_find_time (<[l := ids ++ [id]]> (pending_find_time_response_ self)) (pending_find_time_requests_ self) x) = in_flight self) as Hsame.
  { intros x. unfold in_flight. cbn. by rewrite map_size_insert_Some. }
  split; rewrite ?Hsame; cbn; try done.
  - intros l' Hin. destruct (decide (l' = l)) as [->|]; [rewrite lookup_insert_eq; by eexists|]. rewrite lookup_insert_ne by done. by apply Hsub.
  - intros l' x. destruct (decide (l' = l)) as [->|]; [rewrite lookup_insert_eq; intros [= <-]; by destruct ids|rewrite lookup_insert_ne by done; eauto].
Qed.

Lemma find_ok_answer self (l : Z) : find_ok self -> is_Some (pending_find_time_response_ self !! l) ->
  ~ (l ∈ pending_find_time_requests_ self) ->
  find_ok (set_find_time (delete l (pending_find_time_response_ self)) (tail (pending_find_time_requests_ self)) self) /\
  (pending_find_time_requests_ self <> [] ->
   in_flight (set_find_time (delete l (pending_find_time_response_ self)) (tail (pending_find_time_requests_ self)) self) = max_find_time_requests self).
Proof.
  intros [Hnd Hsub Hne Hlim Hfull Hmax] [ids Hl] Hnot.
  assert (size (pending_find_time_response_ self) = S (size (delete l (pending_find_time_response_ self)))) as Hsz.
  { rewrite <-(map_size_insert_None l ids (delete l (pending_find_time_response_ self))) by apply lookup_delete_eq.
    by rewrite insert_delete_id. }
  assert (forall l', l' ∈ tail (pending_find_time_requests_ self) -> l' ∈ pending_find_time_requests_ self) as Htl.
  { destruct (pending_find_time_requests_ self); set_solver. }
  assert (pending_find_time_requests_ self <> [] ->
   in_flight (set_find_time (delete l (pending_find_time_response_ self)) (tail (pending_find_time_requests_ self)) self) = max_find_time_requests self) as Hflight.
  { intros Hne'. rewrite <-(Hfull Hne'). unfold in_flight. cbn. rewrite Hsz. destruct (pending_find_time_requests_ self); [done|]. simpl. lia. }
  split; [|done]. split.
  - cbn. destruct (pending_find_time_requests_ self); [done|]. by apply NoDup_cons in Hnd as [_ ?].
  - cbn. intros l' Hin. rewrite lookup_delete_ne; [by apply Hsub, Htl|]. intros ->. by apply Hnot, Htl.
  - cbn. intros l' x [_ Hx]%lookup_delete_Some. eauto.
  - destruct (pending_find_time_requests_ self) eqn:E; [|by rewrite Hflight]. unfold in_flight in *. cbn. rewrite E in *. simpl in *. lia.
  - intros Hne'. apply Hflight. cbn in Hne'. by destruct (pending_find_time_requests_ self).
  - done.
Qed.

Section Room.
Context {XXH64 : slice -> Z} {sizeof_MessageData sizeof_CacheEntry : Z}.
Context {GetLogID : TopicUUID -> option Z} {copilot_worker : CopilotSub -> Z}.
Context {log : Z -> Z -> option MessageData}.

#[local] Abbreviation log_ok := (log_ok GetLogID log).
#[local] Abbreviation records := (records log).
#[local] Abbreviation no_record := (no_record log).
#[local] Abbreviation knows := (knows log).
#[local] Abbreviation reader_ok := (reader_ok log).
#[local] Abbreviation core_ok := (core_ok log).
#[local] Abbreviation queues_ok := (queues_ok copilot_worker).
#[local] Abbreviation cache_agrees := (cache_agrees XXH64 log).
#[local] Abbreviation tailer_ok := (tailer_ok XXH64 copilot_worker log).
#[local] Abbreviation moved := (moved log).
#[local] Abbreviation stepped := (stepped GetLogID log).
#[local] Abbreviation skips := (skips log).
#[local] Abbreviation gap_moved := (gap_moved XXH64 GetLogID copilot_worker log).
#[local] Abbreviation cache_room := (cache_room sizeof_MessageData sizeof_CacheEntry).

#[local] Abbreviation pending_of := (pending_of copilot_worker).
#[local] Abbreviation untouched := (untouched copilot_worker).
#[local] Abbreviation expects := (expects copilot_worker).
#[local] Abbreviation progresses := (progresses (copilot_worker:=copilot_worker) (log:=log)).
Context (Henv : environment_ok sizeof_MessageData sizeof_CacheEntry GetLogID copilot_worker log).

(** ** Subscribing *)

Lemma AddSubscriberInternal_ok self t id l q : tailer_ok self -> valid_topic t -> fits 64 l -> 0 < q <= kMaxSeqno ->
  exists self', AddSubscriberInternal copilot_worker self t id l q = Ok self' /\ tailer_ok self' /\ trace_ self' = trace_ self /\
    pending_find_time_response_ self' = pending_find_time_response_ self /\
    pending_find_time_requests_ self' = pending_find_time_requests_ self /\
    max_find_time_requests self' = max_find_time_requests self /\
    (forall id', id' <> id -> untouched self self' [] id') /\
    pending_of self' id = Some {| pending_logid := l; pending_seqno := q |} /\
    (forall l' t', subs self' l' t' id = subs self l' t' id) /\ find_topic self' id = Some (default t (find_topic self id)).
Proof.
  intros Hok Ht Hl Hq. unfold AddSubscriberInternal. rewrite (proj2 (Z.eqb_neq _ 0)) by lia. cbn [negb assert_that obind].
  destruct (write_pending_ok Henv self id l q Hok Hl Hq) as (qs & -> & Hqs & Hpend & _). cbn [obind].
  eexists. split; [done|]. split_and!; try done.
  - apply (tailer_ok_ext self); try done; try apply Hok. cbn. intros s i t'. rewrite SubscriptionMap.Find_Insert.
    case_decide; [|apply (ok_streams Hok)]. intros [= <-].
    destruct (SubscriptionMap.Find (stream_subscriptions_ self) (stream_id id) (sub_id id)) eqn:E; [by eapply (ok_streams Hok)|done].
  - intros id' Hne. split; try done.
    + change (pending_of (set_cache_readers qs self) id' = pending_of self id'). rewrite Hpend. by rewrite decide_False.
    + unfold find_topic. cbn. rewrite SubscriptionMap.Find_Insert. rewrite decide_False; [done|]. intros [? ?]. apply Hne. destruct id, id'. naive_solver.
  - change (pending_of (set_cache_readers qs self) id = Some {| pending_logid := l; pending_seqno := q |}). rewrite Hpend. by rewrite decide_True.
  - unfold find_topic. cbn. rewrite SubscriptionMap.Find_Insert. by rewrite decide_True.
Qed.

Lemma AddTailSubscriber_ok self t id l q : tailer_ok self -> valid_topic t -> fits 64 l -> 0 < q <= kMaxSeqno ->
  exists self' es, AddTailSubscriber copilot_worker self t id l q = Ok self' /\ tailer_ok self' /\ trace_ self' = trace_ self ++ es /\
    pending_find_time_response_ self' = pending_find_time_response_ self /\
    pending_find_time_requests_ self' = pending_find_time_requests_ self /\
    max_find_time_requests self' = max_find_time_requests self /\
    (forall id', id' <> id -> untouched self self' es id') /\
    pending_of self' id = Some {| pending_logid := l; pending_seqno := q |} /\
    (forall l' t', subs self' l' t' id = subs self l' t' id) /\ find_topic self' id = Some (default t (find_topic self id)).
Proof.
  intros Hok Ht Hl Hq. unfold AddTailSubscriber. destruct Ht as (ns & name & Htok & ->). rewrite UUID_roundtrip by done. cbn [obind].
  set (es := [OnMessage _ [id]]).
  destruct (AddSubscriberInternal_ok (emit es self) (NewTopicUUID ns name) id l q (emit_ok _ _ Hok) ltac:(by exists ns, name) Hl Hq)
    as (self' & E & Hok' & Htr & Hr1 & Hr2 & Hr3 & Hun & Hp & Hs & Hf).
  exists self', es. split; [exact E|]. split_and!; try done.
  intros id' Hne. destruct (Hun id' Hne) as [_ Hb Hp' Hf' Hw]. by split.
Qed.

(** The subscribers that wait for the tail of a log, when it is known. *)
Lemma answer_waiting_ok l q ids self : tailer_ok self -> fits 64 l -> 0 < q <= kMaxSeqno ->
  exists self' es, answer_waiting copilot_worker ids l q self = Ok self' /\ tailer_ok self' /\ trace_ self' = trace_ self ++ es /\
    pending_find_time_response_ self' = pending_find_time_response_ self /\
    pending_find_time_requests_ self' = pending_find_time_requests_ self /\
    max_find_time_requests self' = max_find_time_requests self /\
    (forall id', id' ∉ ids \/ find_topic self id' = None -> untouched self self' es id').
Proof.
  intros Hok Hl Hq. revert self Hok. induction ids as [|id ids IH]; intros self Hok; cbn [answer_waiting].
  { exists self, []. split_and!; try done. by rewrite app_nil_r. }
  fold (find_topic self id). destruct (find_topic self id) as [t|] eqn:Ef.
  - destruct (AddTailSubscriber_ok self t id l q Hok ltac:(by eapply (ok_streams Hok)) Hl Hq)
      as (self1 & es1 & -> & Hok1 & Htr1 & Hr1 & Hr2 & Hr3 & Hun1 & _). cbn [obind].
    destruct (IH self1 Hok1) as (self2 & es2 & -> & Hok2 & Htr2 & Hr1' & Hr2' & Hr3' & Hun2).
    exists self2, (es1 ++ es2). split_and!; try congruence; try done; [by rewrite Htr2, Htr1, app_assoc|].
    intros id' Hni. assert (id' <> id) as Hne by (destruct Hni; [set_solver|congruence]). pose proof (Hun1 id' Hne) as Hu1.
    eapply untouched_trans; [exact Hu1|]. apply Hun2. destruct Hni; [set_solver|right]. by rewrite (u_find _ _ _ _ _ Hu1).
  - cbn [obind]. destruct (IH self Hok) as (self2 & es2 & -> & Hok2 & Htr2 & Hr1' & Hr2' & Hr3' & Hun2).
    exists self2, es2. split_and!; try done. intros id' Hni. apply Hun2. set_solver.
Qed.

(** What the room's operations do to everybody else. *)
Definition spares (self self' : TopicTailer) (es : list event) (touched : CopilotSub -> Prop) : Prop :=
  trace_ self' = trace_ self ++ es /\ forall id, ~ touched id -> untouched self self' es id.

Lemma set_find_time_ok response requests self : tailer_ok self -> tailer_ok (set_find_time response requests self).
Proof. intros Hok. apply (tailer_ok_ext self); try done; apply Hok. Qed.

(** The subscription is known by its stream from the start. *)
Lemma insert_stream_ok self t id : tailer_ok self -> valid_topic t ->
  let self' := set_stream_subscriptions (SubscriptionMap.Insert (stream_subscriptions_ self) (stream_id id) (sub_id id) t) self in
  tailer_ok self' /\ spares self self' [] (fun x => x = id).
Proof.
  intros Hok Ht. cbv zeta. split; [|split; [by rewrite app_nil_r|]].
  - apply (tailer_ok_ext self); try done; try apply Hok. cbn. intros s i t'. rewrite SubscriptionMap.Find_Insert.
    case_decide; [|apply (ok_streams Hok)]. intros [= <-].
    destruct (SubscriptionMap.Find (stream_subscriptions_ self) (stream_id id) (sub_id id)) eqn:E; [by eapply (ok_streams Hok)|done].
  - intros id' Hne. split; try done. unfold find_topic. cbn. rewrite SubscriptionMap.Find_Insert, decide_False; [done|].
    intros [? ?]. apply Hne. destruct id, id'. naive_solver.
Qed.

Lemma spares_trans s1 s2 s3 es es' P : spares s1 s2 es P -> spares s2 s3 es' P -> spares s1 s3 (es ++ es') P.
Proof.
  intros [Ht1 Hu1] [Ht2 Hu2]. split; [by rewrite Ht2, Ht1, app_assoc|]. intros id Hid. eapply untouched_trans; [by apply Hu1|by apply Hu2].
Qed.

Lemma spares_refl self P : spares self self [] P.
Proof. split; [by rewrite app_nil_r|]. intros. apply untouched_refl. Qed.

(** A subscriber is added to those that wait for a log. *)
Lemma wait_spares self l id ids requests : ids = default [] (pending_find_time_response_ self !! l) ++ [id] ->
  spares self (set_find_time (<[l := ids]> (pending_find_time_response_ self)) requests self) [] (fun x => x = id).
Proof.
  intros ->. split; [by rewrite app_nil_r|]. intros id' Hne. split; try done. intros (l' & ids' & Hl' & Hin). cbn in Hl'.
  destruct (decide (l' = l)) as [->|]; [rewrite lookup_insert_eq in Hl'|rewrite lookup_insert_ne in Hl' by done; by exists l', ids'].
  simplify_eq. apply elem_of_app in Hin as [Hin|Hin%list_elem_of_singleton]; [|done].
  destruct (pending_find_time_response_ self !! l) as [x|] eqn:E; [by exists l, x|]. by apply elem_of_nil in Hin.
Qed.

Lemma AddSubscriber_ok self t start id : tailer_ok self -> find_ok self -> valid_topic t -> 0 <= start <= kMaxSeqno ->
  exists self' ok es, AddSubscriber GetLogID copilot_worker self t start id = Ok (self', ok) /\ tailer_ok self' /\ find_ok self' /\
    spares self self' es (fun x => x = id).
Proof.
  intros Hok Hfo Ht Hstart. unfold AddSubscriber. destruct (GetLogID t) as [l|] eqn:El.
  2: { exists self, false, []. split; [done|]. split; [done|]. split; [done|]. apply spares_refl. }
  pose proof (env_route Henv t l El) as Hl. destruct (Z.eqb_spec start 0) as [->|Hne].
  2: { destruct (AddSubscriberInternal_ok self t id l start Hok Ht Hl ltac:(lia)) as (self' & -> & Hok' & Htr & Hr1 & Hr2 & Hr3 & Hun & _).
       exists self', true, []. split; [done|]. split; [done|]. split; [by apply (find_ok_eq self)|]. split; [by rewrite app_nil_r|done]. }
  unfold GetTailSeqnoEstimate. destruct (Z.eqb_spec (default 0 (tail_seqno_cached_ self !! l)) 0) as [E0|N0]; cbn [negb].
  2: { assert (0 < default 0 (tail_seqno_cached_ self !! l) <= kMaxSeqno) as Hb.
       { destruct (tail_seqno_cached_ self !! l) as [q|] eqn:Eq; [|done]. simpl in *. pose proof (ok_tails Hok l q Eq). lia. }
       destruct (AddTailSubscriber_ok self t id l _ Hok Ht Hl Hb) as (self' & es & -> & Hok' & Htr & Hr1 & Hr2 & Hr3 & Hun & _).
       exists self', true, es. split; [done|]. split; [done|]. split; [by apply (find_ok_eq self)|]. by split. }
  destruct (insert_stream_ok self t id Hok Ht) as [Hok1 Hsp1]. set (self1 := set_stream_subscriptions _ self) in *.
  assert (find_ok self1) as Hfo1 by (by apply (find_ok_eq self)). rewrite InFlight_spec by done.
  set (ids := default [] (pending_find_time_response_ self1 !! l) ++ [id]).
  pose proof (wait_spares self1 l id ids) as Hsp2. change (in_flight self1) with (in_flight self) in *. cbn [max_find_time_requests set_find_time].
  destruct (pending_find_time_response_ self1 !! l) as [x|] eqn:Ex.
  - assert ((1 <? length ids)%nat = true) as ->.
    { apply Nat.ltb_lt. unfold ids. rewrite length_app. pose proof (fo_nonempty self1 Hfo1 l x Ex). destruct x; [done|simpl; lia]. }
    eexists _, _, _. split; [done|]. split; [by apply set_find_time_ok|]. split; [by apply find_ok_join|]. eapply spares_trans; [done|by apply Hsp2].
  - change ids with [id] in *. cbn [length Nat.ltb Nat.leb].
    destruct (Z.ltb_spec (in_flight self) (max_find_time_requests self1)) as [Hlt|Hge].
    + rewrite SendFindLatestSeqnoRequest_ok by (by apply find_ok_add). cbn [obind]. eexists _, _, _. split; [done|].
      split; [by apply emit_ok, set_find_time_ok|]. split; [by eapply find_ok_eq; [| | |exact (find_ok_add self1 l id Hfo1 Ex Hlt)]|].
      eapply spares_trans; [exact Hsp1|]. eapply spares_trans; [by apply Hsp2|]. split; [done|]. intros. by apply emit_untouched.
    + assert (in_flight self1 = max_find_time_requests self1) as Heq by (pose proof (fo_limit self1 Hfo1); change (in_flight self) with (in_flight self1) in Hge; lia).
      rewrite bool_decide_false.
      * eexists _, _, _. split; [done|]. split; [by apply set_find_time_ok, set_find_time_ok|].
        split; [by eapply find_ok_eq; [| | |exact (find_ok_queue self1 l id Hfo1 Ex Heq)]|].
        eapply spares_trans; [exact Hsp1|]. exact (Hsp2 (pending_find_time_requests_ self1 ++ [l]) eq_refl).
      * cbn. intros Hin. apply (fo_sub self1 Hfo1) in Hin. rewrite Ex in Hin. by destruct Hin.
Qed.

(** A fresh subscription starts where it asked to. *)
Lemma AddSubscriber_expects self t start id l : tailer_ok self -> valid_topic t -> 0 < start <= kMaxSeqno -> GetLogID t = Some l ->
  find_topic self id = None -> pending_of self id = None -> subs self l t id = None -> ~ waits self id ->
  exists self', AddSubscriber GetLogID copilot_worker self t start id = Ok (self', true) /\ trace_ self' = trace_ self /\
    expects self' l t id start.
Proof.
  intros Hok Ht Hstart El Hf Hp Hs Hw. unfold AddSubscriber. rewrite El, (proj2 (Z.eqb_neq _ 0)) by lia.
  destruct (AddSubscriberInternal_ok self t id l start Hok Ht (env_route Henv t l El) Hstart)
    as (self' & -> & Hok' & Htr & Hr1 & _ & _ & _ & Hp' & Hs' & Hf'). cbn [obind].
  exists self'. split; [done|]. split; [done|]. split; [unfold waits; by rewrite Hr1|]. rewrite Hf', Hf, Hp', Hs'. split; [done|]. by left.
Qed.

(** ** The tail of a log *)

Lemma ProcessFindLatestSeqnoResponse_ok self ok l q : tailer_ok self -> find_ok self -> fits 64 l ->
  is_Some (pending_find_time_response_ self !! l) -> ~ (l ∈ pending_find_time_requests_ self) -> (ok = true -> 0 < q <= kMaxSeqno) ->
  exists self' es, ProcessFindLatestSeqnoResponse copilot_worker self ok l q = Ok self' /\ tailer_ok self' /\ find_ok self' /\
    spares self self' es (fun x => waits self x /\ find_topic self x <> None).
Proof.
  intros Hok Hfo Hl [ids Hids] Hnot Hq. unfold ProcessFindLatestSeqnoResponse. destruct ok; cbn [negb].
  2: { rewrite SendFindLatestSeqnoRequest_ok by done. eexists _, _. split; [done|]. split; [by apply emit_ok|].
       split; [by apply (find_ok_eq self)|]. split; [done|]. intros. by apply emit_untouched. }
  rewrite Hids. change (default [] (Some ids)) with ids.
  destruct (answer_waiting_ok l q ids self Hok Hl (Hq eq_refl)) as (self1 & es1 & -> & Hok1 & Htr1 & Hr1 & Hr2 & Hr3 & Hun1). cbn [obind].
  assert (find_ok self1) as Hfo1 by (by apply (find_ok_eq self)).
  destruct (find_ok_answer self1 l Hfo1) as [Hfo2 Hfull]; [rewrite Hr1; eauto|by rewrite Hr2|].
  set (tl := match _ with Some _ => _ | None => _ end).
  set (self2 := set_tail_seqno_cached _ _).
  assert (tailer_ok self2) as Hok2.
  { apply (tailer_ok_ext self1); try done; try apply Hok1. intros l' x. cbn. destruct (decide (l' = l)) as [->|].
    - rewrite lookup_insert_eq. intros [= <-]. unfold tl. cbn. specialize (Hq eq_refl).
      destruct (tail_seqno_cached_ self1 !! l) as [y|] eqn:Ey; [pose proof (ok_tails Hok1 l y Ey)|]; lia.
    - rewrite lookup_insert_ne by done. apply (ok_tails Hok1). }
  assert (forall requests, spares self (set_find_time (delete l (pending_find_time_response_ self1)) requests self2) es1 (fun x => waits self x /\ find_topic self x <> None)) as Hsp.
  { intros requests. split; [done|]. intros id Hid. destruct (Hun1 id) as [Hs Hb Hp Hf Hw].
    { destruct (decide (id ∈ ids)) as [Hin|]; [right|by left]. destruct (find_topic self id) eqn:Ef; [|done]. destruct Hid. split; [by exists l, ids|congruence]. }
    split; try done. intros (l' & x & Hx & Hin). cbn in Hx. apply lookup_delete_Some in Hx as [_ Hx]. apply Hw. by exists l', x. }
  change (pending_find_time_requests_ self2) with (pending_find_time_requests_ self1) in *.
  destruct (pending_find_time_requests_ self1) as [|r rest] eqn:Er.
  - exists self2, es1. split; [done|]. split; [done|]. split.
    + apply (find_ok_eq (set_find_time (delete l (pending_find_time_response_ self1)) [] self1)); done.
    + destruct (Hsp []) as [? Hu]. split; [done|]. intros id Hid. destruct (Hu id Hid). by split.
  - set (self3 := set_find_time (pending_find_time_response_ self2) rest self2).
    assert (find_ok self3) as Hfo3 by (by eapply find_ok_eq; [| | |exact Hfo2]).
    rewrite SendFindLatestSeqnoRequest_ok by done. cbn [obind]. rewrite InFlight_spec by (by apply (find_ok_eq self3)).
    change (in_flight (emit [FindLatestSeqno r] self3)) with (in_flight (set_find_time (delete l (pending_find_time_response_ self1)) (tail (r :: rest)) self1)).
    rewrite Hfull by done. change (max_find_time_requests (emit _ self3)) with (max_find_time_requests self1). rewrite Z.eqb_refl. cbn [assert_that obind].
    eexists _, (es1 ++ [FindLatestSeqno r]). split; [done|]. split; [by apply emit_ok, set_find_time_ok|]. split; [by apply (find_ok_eq self3)|].
    eapply spares_trans; [exact (Hsp rest)|]. split; [done|]. intros. by apply emit_untouched.
Qed.

(** ** Unsubscribing *)

Lemma stop_readers_spec t l rs rs' calls closed : stop_readers t l rs = (rs', calls, closed) ->
  forall i, rs' !! i = (fun r => fst (StopReading r t l)) <$> rs !! i.
Proof.
  revert rs' calls closed. induction rs as [|r rs IH]; intros rs' calls closed; cbn [stop_readers]; [by intros [= <- <- <-]|].
  destruct (StopReading r t l) as [r' c] eqn:Es. destruct (stop_readers t l rs) as [[rs1 c1] b1] eqn:Er. intros [= <- <- <-] [|i].
  - cbn. by rewrite Es.
  - by apply (IH rs1 c1 b1).
Qed.

Lemma StopReading_ok r t l : reader_ok r -> let r' := fst (StopReading r t l) in
  reader_ok r' /\ same_reader r r' /\ (forall l' t', next r' l' t' = if decide (l' = l /\ t' = t) then None else next r l' t').
Proof.
  intros (Hwf & Hk & Hlag). destruct (StopReading_spec r t l Hwf) as (Hwf' & Hsr & Hpo & Hpl & Hnext).
  cbv zeta. split; [split; [done|split; [|by eapply reader_lag]]|by split].
  intros l' t' n p Hn Hp. rewrite Hnext in Hn. case_decide; [done|]. apply (Hk l' t' n p Hn).
  destruct (decide (l' = l)) as [->|]; [|by rewrite Hpo in Hp]. destruct Hpl as [E|E]; congruence.
Qed.

(** The topic of a log is given up: no subscriber is left, and no reader follows it. *)
Lemma stop_topic_ok self m t l rs' rp' calls tails : tailer_ok self ->
  TopicManager.wf m -> m !! t = None -> (forall t', t' <> t -> m !! t' = manager self l !! t') ->
  (forall i, rs' !! i = (fun r => fst (StopReading r t l)) <$> log_readers_ self !! i) ->
  rp' = fst (StopReading (pending_reader_ self) t l) -> tails_ok tails ->
  tailer_ok (set_tail_seqno_cached tails (emit calls (set_pending_reader rp' (set_log_readers rs' (set_manager l m self))))).
Proof.
  intros Hok Hwf Hnone Hsame Hrs -> Htl. pose proof (ok_core Hok) as Hc. set (self' := set_tail_seqno_cached _ _).
  assert (forall i, rd self' i = (fun r => fst (StopReading r t l)) <$> rd self i) as Hrd by (intros [i|]; [apply Hrs|done]).
  assert (forall l', manager self' l' = if decide (l' = l) then m else manager self l') as Hmg by (intros l'; apply (manager_set self l m l')).
  assert (forall l' t', ~ (l' = l /\ t' = t) -> manager self' l' !! t' = manager self l' !! t') as Hother.
  { intros l' t' Hne. rewrite Hmg. case_decide; [subst; apply Hsame; tauto|done]. }
  assert (forall l' t' id s, TopicManager.sub_at (manager self' l') t' id = Some s ->
    ~ (l' = l /\ t' = t) /\ TopicManager.sub_at (manager self l') t' id = Some s) as Hsub.
  { intros l' t' id s Hs. assert (~ (l' = l /\ t' = t)) as Hne.
    { intros [-> ->]. rewrite Hmg, decide_True in Hs by done. unfold TopicManager.sub_at in Hs. by rewrite Hnone in Hs. }
    split; [done|]. unfold TopicManager.sub_at in *. by rewrite Hother in Hs. }
  split; try apply Hok; [|by destruct (ok_reentry Hok) as [? He]; split; [done|]; intros l' i u Hin; rewrite Hrd, fmap_is_Some; by apply (He l' i u)|done].
  split.
  - intros i r. rewrite Hrd. intros (r0 & Hi & ->)%fmap_Some. destruct (c_reader Hc _ _ Hi) as [Hr Hv].
    destruct (StopReading_ok r0 t l Hr) as (? & [Hv' _] & _). split; [done|]. by rewrite Hv'.
  - rewrite Hrd, fmap_is_Some. apply Hc.
  - intros l'. rewrite Hmg. case_decide; [done|apply Hc].
  - intros i r l' t' n. rewrite Hrd. intros (r0 & Hi & ->)%fmap_Some Hn. destruct (StopReading_ok r0 t l) as (_ & _ & Hnext); [by apply (c_reader Hc _ _ Hi)|].
    rewrite Hnext in Hn. case_decide as Hd; [done|]. rewrite Hother by done. by eapply (c_follow Hc).
  - intros l' t' id s [Hne Hs]%Hsub. destruct (c_cover Hc l' t' id s Hs) as (i & r & n & Hi & Hn & Hle).
    destruct (StopReading_ok r t l) as (_ & _ & Hnext); [by apply (c_reader Hc _ _ Hi)|].
    exists i, (fst (StopReading r t l)), n. rewrite Hrd, Hi, Hnext, decide_False by done. by split_and!.
  - intros l' t' id s [_ Hs]%Hsub. by eapply (c_bounds Hc).
  - intros l' t' Hin. apply (c_topic Hc l'). destruct (decide (l' = l /\ t' = t)) as [[-> ->]|Hne]; [|by rewrite <-Hother].
    rewrite Hmg, decide_True, Hnone in Hin by done. by destruct Hin.
Qed.

(** One of several subscribers of a topic leaves. *)
Lemma remove_one_ok self m t l id : tailer_ok self -> TopicManager.wf m -> is_Some (m !! t) ->
  (forall t', t' <> t -> m !! t' = manager self l !! t') ->
  (forall t' x, TopicManager.sub_at m t' x = if decide (t' = t /\ x = id) then None else TopicManager.sub_at (manager self l) t' x) ->
  is_Some (manager self l !! t) -> tailer_ok (set_manager l m self).
Proof.
  intros Hok Hwf Hm Hsame Hsub Ht. pose proof (ok_core Hok) as Hc.
  assert (forall l', manager (set_manager l m self) l' = if decide (l' = l) then m else manager self l') as Hmg by apply manager_set.
  assert (forall l' t', is_Some (manager (set_manager l m self) l' !! t') <-> is_Some (manager self l' !! t')) as Htop.
  { intros l' t'. rewrite Hmg. case_decide; [subst|done]. destruct (decide (t' = t)) as [->|]; [done|by rewrite Hsame]. }
  assert (forall l' t' x s, TopicManager.sub_at (manager (set_manager l m self) l') t' x = Some s -> TopicManager.sub_at (manager self l') t' x = Some s) as Hs.
  { intros l' t' x s. rewrite Hmg. case_decide; [subst|done]. rewrite Hsub. by case_decide. }
  split; try apply Hok. split; try apply Hc.
  - intros l'. rewrite Hmg. case_decide; [done|apply Hc].
  - intros i r l' t' n Hi Hn. apply Htop. by eapply (c_follow Hc).
  - intros l' t' x s ?%Hs. by eapply (c_cover Hc).
  - intros l' t' x s ?%Hs. by eapply (c_bounds Hc).
  - intros l' t' ?%Htop. by eapply (c_topic Hc).
Qed.

(** The queue entry of a subscriber is removed. *)
Lemma remove_pending_ok self id : tailer_ok self ->
  exists qs, (q <~ GetPendingReaderQueue copilot_worker self id ;;
    let '(worker_id, q) := q in
    q <~ ObservableMap.Remove q id ;; Ok (set_cache_readers (<[worker_id := q]> (cache_readers_ self)) self)) = Ok (set_cache_readers qs self) /\
    tailer_ok (set_cache_readers qs self) /\
    (forall id', pending_of (set_cache_readers qs self) id' = if decide (id' = id) then None else pending_of self id').
Proof.
  intros Hok. pose proof (ok_queues Hok) as Hqs. unfold GetPendingReaderQueue.
  rewrite (proj2 (Z.eqb_neq _ _) (env_workers Henv id)). cbn [negb assert_that obind].
  set (w := copilot_worker id). set (q0 := default ObservableMap.empty (cache_readers_ self !! w)).
  assert (ObservableMap.sound q0 /\ (forall id' p', lm_find id' (ObservableMap.map_ q0) = Some p' -> copilot_worker id' = w /\ pending_ok p')) as [Hs0 Hel0].
  { unfold q0. destruct (cache_readers_ self !! w) as [q1|] eqn:E; [by apply Hqs|]. split; [|done]. split_and!; [apply NoDup_nil; done|done|done]. }
  destruct (ObservableMap.Remove_sound q0 id Hs0) as (q1 & -> & Hs1 & Hm1). cbn [obind]. eexists. split; [done|]. split.
  - apply set_queues_ok; [done|]. intros w' q'. destruct (decide (w' = w)) as [->|Hne]; [rewrite lookup_insert_eq|rewrite lookup_insert_ne by done; apply Hqs].
    intros [= <-]. split; [done|]. intros id' p'. rewrite Hm1, lm_find_erase. case_decide; [done|apply Hel0].
  - intros id'. unfold TailerSubs.pending_of. cbn [cache_readers_ set_cache_readers]. destruct (decide (copilot_worker id' = w)) as [E|Hne].
    + rewrite E, lookup_insert_eq. cbn [mbind option_bind]. rewrite Hm1, lm_find_erase. case_decide; [done|]. unfold q0. by destruct (cache_readers_ self !! w).
    + rewrite lookup_insert_ne by done. rewrite decide_False; [done|]. by intros ->.
Qed.

Lemma RemoveSubscriberInternal_ok self t id l : tailer_ok self ->
  exists self' es, RemoveSubscriberInternal copilot_worker self t id l = Ok self' /\ tailer_ok self' /\ others self self' /\
    spares self self' es (fun x => x = id) /\ subs self' l t id = None /\ pending_of self' id = None.
Proof.
  intros Hok. unfold RemoveSubscriberInternal. pose proof (ok_core Hok) as Hc.
  pose proof (TopicManager.RemoveSubscriber_spec (manager self l) t id (c_wf Hc l)) as Hrm.
  destruct (TopicManager.RemoveSubscriber (manager self l) t id) as [m all_removed] eqn:Erm. destruct Hrm as (Hwf & -> & Hsub & Hsame).
  cbv zeta. match goal with |- context [if bool_decide (m !! t = None) then ?A else ?B] =>
    set (self1 := if bool_decide (m !! t = None) then A else B) end.
  assert (exists calls, tailer_ok self1 /\ others self self1 /\ cache_readers_ self1 = cache_readers_ self /\
    trace_ self1 = trace_ self ++ map Tailer calls /\ topic_map_ self1 = topic_map_ (set_manager l m self)) as (calls & Hok1 & Ho1 & Hq1 & Htr1 & Htm1).
  { unfold self1. case_bool_decide as Hnone.
    - destruct (stop_readers _ _ _) as [[rs' calls] closed] eqn:Es. destruct (StopReading _ _ _) as [rp' pcalls] eqn:Ep.
      pose proof (stop_topic_ok self m t l rs' rp' (map Tailer (calls ++ pcalls))) as Hstop.
      specialize (fun tails => Hstop tails Hok Hwf Hnone Hsame (stop_readers_spec t l _ _ _ _ Es) (eq_sym (f_equal fst Ep))).
      exists (calls ++ pcalls). destruct (_ && _).
      + split; [|by split_and!]. apply Hstop. intros l' q [_ Hx]%lookup_delete_Some. by eapply (ok_tails Hok).
      + split; [|by split_and!]. exact (Hstop (tail_seqno_cached_ self) (ok_tails Hok)).
    - exists []. split; [|by split_and!; cbn; rewrite ?app_nil_r].
      assert (is_Some (m !! t)) as Hm by (destruct (m !! t); [by eexists|done]).
      apply (remove_one_ok self m t l id); try done. unfold TopicManager.RemoveSubscriber in Erm.
      destruct (manager self l !! t) eqn:Et; [by eexists|]. injection Erm as <- _. rewrite Et in Hm. by destruct Hm. }
  clearbody self1. destruct (remove_pending_ok self1 id Hok1) as (qs & -> & Hok2 & Hp2).
  assert (forall l' t' x, subs (set_cache_readers qs self1) l' t' x = if decide (l' = l /\ t' = t /\ x = id) then None else subs self l' t' x) as Hsubs.
  { intros l' t' x. change (subs (set_cache_readers qs self1) l' t' x) with (subs self1 l' t' x). unfold subs, manager at 1. rewrite Htm1.
    fold (manager (set_manager l m self) l'). rewrite manager_set. case_decide as Hd; [subst|by rewrite decide_False by tauto].
    rewrite Hsub. repeat case_decide; naive_solver. }
  eexists _, (map Tailer calls). split; [done|]. split; [done|]. split; [destruct Ho1; by split|]. split; [split; [done|]|].
  - intros x Hne. split.
    + intros. apply sent_calls.
    + intros l' t'. rewrite Hsubs. by rewrite decide_False by tauto.
    + rewrite Hp2, decide_False by done. unfold TailerSubs.pending_of. by rewrite Hq1.
    + exact (others_find _ _ x Ho1).
    + exact (proj1 (others_waits _ _ x Ho1)).
  - rewrite Hsubs, Hp2, !decide_True by done. done.
Qed.

Lemma spares_weaken self self' es (P Q : CopilotSub -> Prop) : (forall id, P id -> Q id) -> spares self self' es P -> spares self self' es Q.
Proof. intros HPQ [Ht Hu]. split; [done|]. intros id Hid. apply Hu. auto. Qed.

Lemma RemoveSubscriber_ok self id : tailer_ok self -> find_ok self ->
  exists self' ok es, RemoveSubscriber GetLogID copilot_worker self id = Ok (self', ok) /\ tailer_ok self' /\ find_ok self' /\
    spares self self' es (fun x => x = id) /\ find_topic self' id = None /\
    (forall t l, find_topic self id = Some t -> GetLogID t = Some l -> subs self' l t id = None /\ pending_of self' id = None).
Proof.
  intros Hok Hfo. unfold RemoveSubscriber.
  pose proof (SubscriptionMap.Find_MoveOut (stream_subscriptions_ self) (stream_id id) (sub_id id)) as Hfind.
  pose proof (SubscriptionMap.MoveOut_result (stream_subscriptions_ self) (stream_id id) (sub_id id)) as Hres.
  destruct (SubscriptionMap.MoveOut _ _ _) as [m topic] eqn:Em. cbn [fst snd] in Hfind, Hres. cbv zeta.
  set (self1 := set_stream_subscriptions m self).
  assert (tailer_ok self1) as Hok1.
  { apply (tailer_ok_ext self); try done; try apply Hok. intros s i t. cbn. rewrite Hfind. case_decide; [done|apply (ok_streams Hok)]. }
  assert (find_ok self1) as Hfo1 by (by apply (find_ok_eq self)).
  assert (spares self self1 [] (fun x => x = id)) as Hsp1.
  { split; [by rewrite app_nil_r|]. intros x Hne. split; try done. unfold find_topic. cbn. rewrite Hfind.
    rewrite decide_False; [done|]. intros [? ?]. apply Hne. destruct x, id. naive_solver. }
  assert (find_topic self1 id = None) as Hnone by (unfold find_topic; cbn; rewrite Hfind; by rewrite decide_True).
  fold (find_topic self id) in Hres. rewrite <-Hres.
  destruct topic as [t|]; [|by exists self1, false, []].
  destruct (GetLogID t) as [l|] eqn:El; [|exists self1, false, []; split_and!; try done; [apply Hsp1..|]; intros ? ? [= <-]; by rewrite El].
  destruct (RemoveSubscriberInternal_ok self1 t id l Hok1) as (self2 & es & -> & Hok2 & Ho2 & Hsp2 & Hsb & Hpd). cbn [obind].
  exists self2, true, ([] ++ es). split; [done|]. split; [done|]. split; [by apply (find_ok_others self1)|].
  split; [by eapply spares_trans|]. split; [by rewrite (others_find _ _ id Ho2)|].
  intros ? l' [= <-]. rewrite El. by intros [= <-].
Qed.

Lemma remove_all_ok stream sl self : tailer_ok self ->
  exists self' es, remove_all GetLogID copilot_worker stream sl self = Ok self' /\ tailer_ok self' /\ others self self' /\
    spares self self' es (fun x => stream_id x = stream).
Proof.
  revert self. induction sl as [|[i t] sl IH]; intros self Hok; cbn [remove_all].
  { exists self, []. split; [done|]. split; [done|]. split; [apply others_refl|apply spares_refl]. }
  destruct (GetLogID t) as [l|].
  - destruct (RemoveSubscriberInternal_ok self t {| stream_id := stream; sub_id := i |} l Hok) as (self1 & es1 & -> & Hok1 & Ho1 & Hsp1 & _). cbn [obind].
    destruct (IH self1 Hok1) as (self2 & es2 & -> & Hok2 & Ho2 & Hsp2). exists self2, (es1 ++ es2).
    split; [done|]. split; [done|]. split; [by eapply others_trans|]. eapply spares_trans; [|done].
    eapply spares_weaken; [|exact Hsp1]. by intros x ->.
  - cbn [obind]. apply IH. done.
Qed.

Lemma RemoveStream_ok self stream : tailer_ok self -> find_ok self ->
  exists self' es, RemoveStream GetLogID copilot_worker self stream = Ok self' /\ tailer_ok self' /\ find_ok self' /\
    spares self self' es (fun x => stream_id x = stream) /\ forall id, stream_id id = stream -> find_topic self' id = None.
Proof.
  intros Hok Hfo. unfold RemoveStream.
  destruct (remove_all_ok stream (SubscriptionMap.VisitSubscriptions (stream_subscriptions_ self) stream) self Hok)
    as (self1 & es1 & -> & Hok1 & Ho1 & Hsp1). cbn [obind]. eexists _, (es1 ++ []). split; [done|]. split_and!.
  - apply (tailer_ok_ext self1); try done; try apply Hok1. intros s i t. cbn. rewrite SubscriptionMap.Find_RemoveStream.
    case_decide; [done|apply (ok_streams Hok1)].
  - apply (find_ok_eq self1); try done. by apply (find_ok_others self).
  - eapply spares_trans; [exact Hsp1|]. split; [by rewrite app_nil_r|]. intros x Hne. split; try done.
    unfold find_topic. cbn. rewrite SubscriptionMap.Find_RemoveStream. by rewrite decide_False.
  - intros id <-. unfold find_topic. cbn. rewrite SubscriptionMap.Find_RemoveStream. by rewrite decide_True.
Qed.

(** ** Readers that re-enter the cache, and the administration of the cache *)

Context {WriteHasFailed start_ok : list event -> bool}.

Lemma DrainReentry_ok self l i last u : tailer_ok self -> lm_find (l, i) (ObservableMap.map_ (reentry_cache_readers_ self)) = Some u ->
  exists self' es self2 q2, DrainReentry XXH64 WriteHasFailed start_ok self l i last = Ok self' /\ tailer_ok self' /\
    stepped self self2 es /\ self' = set_reentry q2 self2.
Proof.
  intros Hok Hu. unfold DrainReentry. rewrite Hu. cbv zeta. destruct (ok_reentry Hok) as [Hs Hel]. destruct (Hel l i u Hu) as [Hl Hi].
  set (q1 := {| ObservableMap.map_ := _; ObservableMap.read_ready_fd_ := _ |}). set (self1 := set_reentry q1 self).
  assert (0 < ObservableMap.read_ready_fd_ (reentry_cache_readers_ self)) as Hfd. { apply Hs. by destruct (ObservableMap.map_ _). }
  assert (tailer_ok self1) as Hok1.
  { apply (tailer_ok_ext self); try done; try apply Hok. split; [by apply ObservableMap.erase_sound|].
    intros l' i' u'. cbn. rewrite lm_find_erase. case_decide; [done|apply Hel]. }
  assert (stepped self self1 []) as Hst1.
  { apply (stepped_quiet _ _ []); try done. by rewrite app_nil_r. }
  destruct (SendCacheRecord_ok (WriteHasFailed:=WriteHasFailed) (start_ok:=start_ok) Henv self1 l i Hok1 Hl Hi) as (self2 & -> & Hok2 & [es Hst2]). cbn [obind].
  pose proof (stepped_trans _ _ _ _ _ Hst1 Hst2) as Hst. destruct last.
  2: { exists self2, es, self2, (reentry_cache_readers_ self2). split_and!; try done. by destruct self2. }
  destruct (ok_reentry Hok2) as [Hs2 Hel2].
  destruct (ObservableMap.clear_sound _ Hs2) as (q2 & -> & Hs3 & Hm3).
  { pose proof (f_reentry (s_frame Hst2)) as Hmono. cbn in Hmono. lia. }
  cbn [obind]. exists (set_reentry q2 self2), es, self2, q2. split; [done|]. split; [|by split].
  apply (tailer_ok_ext self2); try done; try apply Hok2. split; [done|]. cbn. by rewrite Hm3.
Qed.

Lemma ClearCache_ok self : tailer_ok self -> tailer_ok (TopicTailer_ClearCache self) /\ stepped self (TopicTailer_ClearCache self) [].
Proof.
  intros Hok. apply set_data_cache_ok; [done|]. destruct (ok_cache Hok) as [Hdc _]. destruct (ClearCache_spec XXH64 _ Hdc) as (Hdc' & _ & Hm).
  split; [done|]. intros l q m _ _. by rewrite Hm.
Qed.

Lemma SetCacheCapacity_ok self cap : tailer_ok self -> 0 <= cap ->
  exists self', SetCacheCapacity self cap = Ok self' /\ tailer_ok self' /\ stepped self self' [].
Proof.
  intros Hok Hcap. destruct (ok_cache Hok) as [Hdc _]. destruct (DataCache_SetCapacity_spec XXH64 _ cap Hdc Hcap) as (dc & E & Hdc' & _ & _ & Hm).
  unfold SetCacheCapacity. rewrite E. cbn [obind]. eexists. split; [done|]. apply set_data_cache_ok; [done|].
  apply (cache_agrees_sub (data_cache_ self)); [apply Hok|done|]. intros l q m Hx. destruct (Hm l q) as [E1|E1]; rewrite E1 in Hx; [|done].
  eauto using same_message_refl.
Qed.

End Room.
