(* ===== verification/Delivery.v ===== *)
(** * Delivery through the topic tailer

    The topic tailer as a machine: the handlers it runs, in the order in which
    the event loop happens to call them, and what the environment promises for
    each call.  No handler fails an assertion, and every subscription is sent
    exactly the records of its topic, in order and once each. *)

From S2P Require Import Prelude Coding CodingFacts Messages Containers LRUCache Bloom DataCache DataCacheFacts.
From S2P Require Import DataCacheVisit TopicManager LogReader LogReaderFacts TopicTailer TailerInv TopicTailerFacts.
From S2P Require Import TailerSteps TailerSubs TailerRoom.

#[local] Open Scope outcome_scope.

(** The calls of the topic tailer: records and gaps from the log tailer, rounds
    of the two kinds of queues, the calls of the room, and answers about tails. *)
Inductive action :=
| LogRecord (data : MessageData) (log_id reader_id : Z)
| LogGap (log_id type from to reader_id : Z)
| Reentry (log_id : Z) (reader : nat) (last : bool)
| PendingItem (worker : Z) (id : CopilotSub) (last : bool)
| Subscribe (topic : TopicUUID) (start : Z) (id : CopilotSub)
| Unsubscribe (id : CopilotSub)
| Goodbye (stream : Z)
| LatestSeqno (ok : bool) (log_id seqno : Z)
| ClearTheCache
| ResizeCache (capacity : Z).

(** The calls that change or end a subscription themselves. *)
Definition concerns (a : action) (id : CopilotSub) : Prop :=
  match a with
  | Subscribe _ _ id' | Unsubscribe id' => id = id'
  | Goodbye stream => stream_id id = stream
  | _ => False
  end.

Section Delivery.
Context (XXH64 : slice -> Z) (sizeof_MessageData sizeof_CacheEntry : Z).
Context (WriteHasFailed start_ok : list event -> bool).
Context (GetLogID : TopicUUID -> option Z) (copilot_worker : CopilotSub -> Z).
Context (log : Z -> Z -> option MessageData).

#[local] Abbreviation log_ok := (log_ok GetLogID log).
#[local] Abbreviation records := (records log).
#[local] Abbreviation no_record := (no_record log).
#[local] Abbreviation knows := (knows log).
#[local] Abbreviation reader_ok := (reader_ok log).
#[local] Abbreviation core_ok := (core_ok log).
#[local] Abbreviation queues_ok := (queues_ok copilot_worker).
#[local] Abbreviation cache_agrees := (cache_agrees XXH64 log).
#[local] Abbreviation tailer_ok := (tailer_ok XXH64 copilot_worker log).
#[local] Abbreviation moved := (moved log).
#[local] Abbreviation stepped := (stepped GetLogID log).
#[local] Abbreviation skips := (skips log).
#[local] Abbreviation gap_moved := (gap_moved XXH64 GetLogID copilot_worker log).
#[local] Abbreviation cache_room := (cache_room sizeof_MessageData sizeof_CacheEntry).

#[local] Abbreviation pending_of := (pending_of copilot_worker).
#[local] Abbreviation untouched := (untouched copilot_worker).
#[local] Abbreviation expects := (expects copilot_worker).
#[local] Abbreviation progresses := (progresses (copilot_worker:=copilot_worker) (log:=log)).


Definition run_action (a : action) (self : TopicTailer) : outcome TopicTailer :=
  match a with
  | LogRecord data log_id reader_id =>
      SendLogRecord XXH64 sizeof_MessageData sizeof_CacheEntry start_ok self data log_id reader_id
  | LogGap log_id type from to reader_id => SendGapRecord start_ok self log_id type from to reader_id
  | Reentry log_id reader last => DrainReentry XXH64 WriteHasFailed start_ok self log_id reader last
  | PendingItem worker id last => DrainPending XXH64 WriteHasFailed copilot_worker self worker id last
  | Subscribe topic start id => r <~ AddSubscriber GetLogID copilot_worker self topic start id ;; Ok (fst r)
  | Unsubscribe id => r <~ RemoveSubscriber GetLogID copilot_worker self id ;; Ok (fst r)
  | Goodbye stream => RemoveStream GetLogID copilot_worker self stream
  | LatestSeqno ok log_id seqno => ProcessFindLatestSeqnoResponse copilot_worker self ok log_id seqno
  | ClearTheCache => Ok (TopicTailer_ClearCache self)
  | ResizeCache capacity => SetCacheCapacity self capacity
  end.

(** What the environment promises for a call: the log tailer hands a reader the
    record after its position, or a gap from there on without records (on
    topics the reader follows, see [gap_at]); queues hand out what is in them;
    a room subscribes to topics it can name; an answer is about a request. *)
Definition enabled (self : TopicTailer) (a : action) : Prop :=
  match a with
  | LogRecord data l rid => exists i r p m0, FindLogReader self rid = Some i /\ rd self (Some i) = Some r /\ pos r l = Some p /\
      data_seqno_ data = u64 (p + 1) /\ log l (data_seqno_ data) = Some m0 /\ same_message m0 data /\ cache_room self data
  | LogGap l type from to rid => exists i r p, FindLogReader self rid = Some i /\ rd self (Some i) = Some r /\
      from = u64 (p + 1) /\ gap_at (log:=log) self l p to r
  | Reentry l i last => is_Some (lm_find (l, i) (ObservableMap.map_ (reentry_cache_readers_ self)))
  | PendingItem worker id last => exists q, cache_readers_ self !! worker = Some q /\ is_Some (lm_find id (ObservableMap.map_ q))
  | Subscribe topic start id => valid_topic topic /\ 0 <= start <= kMaxSeqno
  | LatestSeqno ok l q => fits 64 l /\ is_Some (pending_find_time_response_ self !! l) /\
      ~ (l ∈ pending_find_time_requests_ self) /\ (ok = true -> 0 < q <= kMaxSeqno)
  | ResizeCache capacity => 0 <= capacity
  | _ => True
  end.

Inductive runs : TopicTailer -> list action -> TopicTailer -> Prop :=
| runs_nil self : runs self [] self
| runs_cons self a acts self1 self' : enabled self a -> run_action a self = Ok self1 -> runs self1 acts self' ->
    runs self (a :: acts) self'.

Definition healthy (self : TopicTailer) : Prop := tailer_ok self /\ find_ok self.

Lemma spares_progresses self self' es (P : CopilotSub -> Prop) l t id : spares (copilot_worker:=copilot_worker) self self' es P ->
  ~ P id -> progresses self self' es l t id.
Proof. intros [_ Hu] Hid. apply untouched_progresses. by apply Hu. Qed.

(** The subscription was ended: it is served neither from a queue nor by the readers. *)
Definition gone (self : TopicTailer) (l : Z) (t : TopicUUID) (id : CopilotSub) : Prop :=
  find_topic self id = None /\ pending_of self id = None /\ subs self l t id = None.

(** What a step is for a subscription: the records it moves past, or silence. *)
Definition serves (self self' : TopicTailer) (es : list event) (l : Z) (t : TopicUUID) (id : CopilotSub) : Prop :=
  progresses self self' es l t id /\ (gone self l t id -> gone self' l t id /\ sent t id es = []).

Lemma untouched_serves self self' es l t id : untouched self self' es id -> serves self self' es l t id.
Proof.
  intros Hu. split; [by apply untouched_progresses|]. destruct Hu as [Hs Hb Hp Hf _]. intros (? & ? & ?).
  split; [split_and!; congruence|apply Hs].
Qed.

Lemma stepped_serves self self' es l t id : GetLogID t = Some l -> stepped self self' es -> serves self self' es l t id.
Proof.
  intros Hl Hst. split; [by eapply stepped_progresses|]. intros (Hf & Hp & Hs).
  pose proof (s_moved Hst l t id Hl) as Hm. rewrite Hs in Hm. destruct Hm as [Hs' Hsent]. split; [|done]. split_and!; try done.
  - by rewrite (others_find _ _ id (frame_others _ _ (s_frame Hst))).
  - unfold TailerSubs.pending_of. by rewrite (f_queues (s_frame Hst)).
Qed.

(** One call: it completes, keeps the invariant, and serves the subscriptions. *)
Lemma action_step self a : environment_ok sizeof_MessageData sizeof_CacheEntry GetLogID copilot_worker log -> healthy self -> enabled self a ->
  exists self' es, run_action a self = Ok self' /\ healthy self' /\ trace_ self' = trace_ self ++ es /\
    forall l t id, GetLogID t = Some l -> ~ concerns a id -> serves self self' es l t id.
Proof.
  intros Henv [Hok Hfo] Hen.
  set (served := fun self' => exists es, healthy self' /\ trace_ self' = trace_ self ++ es /\
    forall l t id, GetLogID t = Some l -> ~ concerns a id -> serves self self' es l t id).
  assert (forall self', tailer_ok self' -> (exists es, stepped self self' es) -> served self') as Hstepped.
  { intros self' Hok' [es Hst]. exists es. split; [split; [done|]; by apply (find_ok_others self _ (frame_others _ _ (s_frame Hst)))|].
    split; [apply (s_trace Hst)|]. intros l t id Hl _. by apply stepped_serves. }
  assert (forall self' es P, tailer_ok self' -> find_ok self' -> spares (copilot_worker:=copilot_worker) self self' es P ->
    (forall id, P id -> concerns a id \/ (waits self id /\ find_topic self id <> None)) -> served self') as Hspares.
  { intros self' es P Hok' Hfo' [Htr Hsp] HP. exists es. split; [by split|]. split; [done|]. intros l t id _ Hid. split.
    - intros s Hex. apply (untouched_progresses self self' es l t id); [|done]. apply Hsp. intros [?|[? _]]%HP; [done|]. by apply Hex.
    - intros Hg. apply (untouched_serves self self' es l t id); [|done]. apply Hsp. intros [?|[_ Hne]]%HP; [done|]. by apply Hne, Hg. }
  assert (forall (m : outcome TopicTailer) self', m = Ok self' -> served self' -> exists self' es, m = Ok self' /\ healthy self' /\
    trace_ self' = trace_ self ++ es /\ forall l t id, GetLogID t = Some l -> ~ concerns a id -> serves self self' es l t id) as Hdone.
  { intros m self' -> (es & H). by exists self', es. }
  destruct a as [data l rid|l type from to rid|l i last|w id last|t start id|id|stream|ok l q| |cap]; cbn [run_action enabled] in *.
  - destruct Hen as (i & r & p & m0 & Hf & Hi & Hp & Hq & Hm0 & Hs & Hroom).
    destruct (SendLogRecord_ok (start_ok:=start_ok) Henv self l data m0 rid i r p Hok Hroom Hf Hi Hp Hq Hm0 Hs) as (self' & E & Hok' & Hst). eauto.
  - destruct Hen as (i & r & p & Hf & Hi & -> & Hg).
    destruct (SendGapRecord_ok (start_ok:=start_ok) Henv self l type p to rid i r Hok Hf Hi Hg) as (self' & E & Hok' & Hst). eauto.
  - destruct Hen as [u Hu].
    destruct (DrainReentry_ok (start_ok:=start_ok) (WriteHasFailed:=WriteHasFailed) Henv self l i last u Hok Hu)
      as (self' & es & self2 & q2 & E & Hok' & Hst & ->). apply (Hdone _ _ E). exists es.
    split; [split; [done|exact (find_ok_eq self2 (set_reentry q2 self2) eq_refl eq_refl eq_refl (find_ok_others self self2 (frame_others _ _ (s_frame Hst)) Hfo))]|]. split; [exact (s_trace Hst)|].
    intros l' t id Hl _. exact (stepped_serves self self2 es l' t id Hl Hst).
  - destruct Hen as (q & Hq & p & Hp0). destruct (ok_queues Hok w q Hq) as [_ Hw]. destruct (Hw id p Hp0) as [<- _].
    assert (pending_of self id = Some p) as Hp by (unfold TailerSubs.pending_of; by rewrite Hq).
    destruct (DrainPending_ok (WriteHasFailed:=WriteHasFailed) Henv self _ id last p Hok Hp eq_refl)
      as (self' & es & E & Hok' & Htr & Ho & Hpr & Hunt). apply (Hdone _ self' E). exists es.
    split; [split; [done|by apply (find_ok_others self)]|]. split; [done|]. intros l t id' _ _. split; [apply Hpr|].
    intros Hg. apply (untouched_serves self self' es l t id'); [|done]. apply Hunt. intros ->. destruct Hg as (_ & Hg & _). by rewrite Hp in Hg.
  - destruct Hen as [Ht Hstart].
    destruct (AddSubscriber_ok Henv self t start id Hok Hfo Ht Hstart) as (self' & b & es & E & Hok' & Hfo' & Hsp).
    rewrite E. apply (Hdone _ self' eq_refl). eapply Hspares; try done. by left.
  - destruct (RemoveSubscriber_ok Henv self id Hok Hfo) as (self' & b & es & E & Hok' & Hfo' & Hsp & _).
    rewrite E. apply (Hdone _ self' eq_refl). eapply Hspares; try done. by left.
  - destruct (RemoveStream_ok Henv self stream Hok Hfo) as (self' & es & E & Hok' & Hfo' & Hsp & _).
    apply (Hdone _ self' E). eapply Hspares; try done. by left.
  - destruct Hen as (Hl & Hin & Hnot & Hq).
    destruct (ProcessFindLatestSeqnoResponse_ok Henv self ok l q Hok Hfo Hl Hin Hnot Hq) as (self' & es & E & Hok' & Hfo' & Hsp).
    apply (Hdone _ self' E). eapply Hspares; try done. by right.
  - destruct (ClearCache_ok (GetLogID:=GetLogID) self Hok) as [Hok' Hst]. eauto.
  - destruct (SetCacheCapacity_ok (GetLogID:=GetLogID) self cap Hok Hen) as (self' & E & Hok' & Hst). eauto.
Qed.

Lemma runs_serves self acts self' l t id : environment_ok sizeof_MessageData sizeof_CacheEntry GetLogID copilot_worker log ->
  healthy self -> runs self acts self' -> GetLogID t = Some l -> (forall a, a ∈ acts -> ~ concerns a id) ->
  healthy self' /\ exists es, trace_ self' = trace_ self ++ es /\ serves self self' es l t id.
Proof.
  intros Henv Hh Hr Hl. revert Hh. induction Hr as [self|self a acts self1 self' Hen Ha Hr IH]; intros Hh Hno.
  { split; [done|]. exists []. split; [by rewrite app_nil_r|]. apply untouched_serves. by split. }
  destruct (action_step self a Henv Hh Hen) as (self2 & es1 & E & Hh1 & Htr1 & Hsv1). rewrite Ha in E. injection E as <-.
  destruct (IH Hh1 ltac:(set_solver)) as [Hh' (es2 & Htr2 & Hpr2 & Hg2)]. split; [done|]. exists (es1 ++ es2).
  split; [by rewrite Htr2, Htr1, app_assoc|]. destruct (Hsv1 l t id Hl (Hno a ltac:(set_solver))) as [Hpr1 Hg1]. split.
  - intros s Hex. destruct (Hpr1 s Hex) as (s1 & Hex1 & Hle1 & Hs1). destruct (Hpr2 s1 Hex1) as (s2 & Hex2 & Hle2 & Hs2).
    exists s2. split; [done|]. split; [lia|]. by rewrite sent_app, Hs1, Hs2, (records_app l t s s1 s2) by lia.
  - intros Hg. destruct (Hg1 Hg) as [Hg' Hs1]. destruct (Hg2 Hg') as [? Hs2]. by rewrite sent_app, Hs1, Hs2.
Qed.

Lemma runs_healthy self acts self' : environment_ok sizeof_MessageData sizeof_CacheEntry GetLogID copilot_worker log ->
  healthy self -> runs self acts self' -> healthy self'.
Proof.
  intros Henv Hh Hr. revert Hh. induction Hr as [self|self a acts self1 self' Hen Ha Hr IH]; intros Hh; [done|].
  destruct (action_step self a Henv Hh Hen) as (self2 & es1 & E & Hh1 & _). rewrite Ha in E. injection E as <-. by apply IH.
Qed.

(** ** The initial state *)

(** A new tailer: an empty cache, a limit on requests, and readers that lag a bounded way behind. *)
Definition config_ok (dc : DataCache) (max_requests lag : Z) : Prop :=
  (exists size_in_bytes sys bits bs, block_size_ok bs /\ 0 <= size_in_bytes /\ 0 <= bits /\ NewDataCache size_in_bytes sys bits bs = Ok dc) /\
  0 <= max_requests < 2 ^ 64 /\ 0 <= lag <= kMaxSeqno.

Lemma NewTopicTailer_healthy dc max_requests ids lag : config_ok dc max_requests lag -> healthy (NewTopicTailer dc max_requests ids lag).
Proof.
  intros [(n & sys & bits & bs & Hbs & Hn & Hbits & E) [Hmax Hlag]].
  destruct (NewDataCache_spec XXH64 n sys bits bs Hbs Hn Hbits) as (dc' & E' & Hdc & _ & _ & Hm). rewrite E in E'. injection E' as <-.
  assert (forall v i, reader_ok (NewLogReader v i lag)) as Hnew.
  { intros v i. split; [apply reader_wf_new|]. split; [|done]. intros l t x p. unfold next. cbn. by rewrite lookup_empty. }
  assert (forall i r, rd (NewTopicTailer dc max_requests ids lag) i = Some r -> exists id, r = NewLogReader (bool_decide (i = None)) id lag) as Hrd.
  { intros [i|] r; cbn; [|intros [= <-]; by exists 0]. intros (id & -> & _)%list_lookup_fmap_Some. by exists id. }
  assert (forall l, manager (NewTopicTailer dc max_requests ids lag) l = ∅) as Hmg by (intros l; unfold manager; cbn; by rewrite lookup_empty).
  split.
  - split.
    + split.
      * intros i r [id ->]%Hrd. by split.
      * by eexists.
      * intros l t x. by rewrite Hmg, lookup_empty.
      * intros i r l t x [id ->]%Hrd. unfold next. cbn. by rewrite lookup_empty.
      * intros l t id s. unfold TopicManager.sub_at. by rewrite Hmg, lookup_empty.
      * intros l t id s. unfold TopicManager.sub_at. by rewrite Hmg, lookup_empty.
      * intros l t. rewrite Hmg, lookup_empty. by intros [].
    + split; [done|]. intros l q m _ _. by rewrite Hm.
    + intros w q. cbn. by rewrite lookup_empty.
    + split; [|by intros l i u]. split; [apply NoDup_nil; done|by split].
    + intros s i t. cbn. unfold SubscriptionMap.Find. by rewrite lookup_empty.
    + intros l q. cbn. by rewrite lookup_empty.
  - split; cbn; try done; [by apply NoDup_nil|by intros l ?%elem_of_nil|].
    unfold in_flight. cbn. rewrite map_size_empty. lia.
Qed.

(** ** Properties *)

(** C6: no call of the topic tailer fails.  From the initial state, whatever
    sequence of calls led to the current one, a call for which the environment
    keeps its promise runs to completion: no assertion of the tailer, of its
    readers, queues, cache or topic managers fails, and no loop runs out. *)
Theorem tailer_never_aborts dc max_requests ids lag acts self a :
  environment_ok sizeof_MessageData sizeof_CacheEntry GetLogID copilot_worker log -> config_ok dc max_requests lag ->
  runs (NewTopicTailer dc max_requests ids lag) acts self -> enabled self a -> exists self', run_action a self = Ok self'.
Proof.
  intros Henv Hcfg Hr Hen. pose proof (runs_healthy _ _ _ Henv (NewTopicTailer_healthy _ _ ids _ Hcfg) Hr) as Hh.
  destruct (action_step self a Henv Hh Hen) as (self' & es & ? & _). eauto.
Qed.

(** C1: a tailer delivers exactly once and in order, as long as its environment
    keeps the promises of [enabled].  In any reachable state let a subscriber
    expect sequence number s on its topic.  After any further calls other than
    its own subscribe and unsubscribe requests and the goodbye of its stream it
    expects some s', and what it was sent in between is exactly the records of
    its topic from s up to s', in log order and once each, from readers and
    cache alike.  Every call must be one that the environment promises: a record
    handed to a reader is the record of the log right after the reader's
    position, with sizes that the cache can count; a gap starts right after that
    position, covers no record of the log and ends before every subscription on
    a topic of the log that the reader does not follow (without this records are
    lost: [gap_skips_unread_records]); queues hand out what is in them;
    subscriptions name valid topics and places up to 2^62, and answers about the
    tail belong to a request.  The log has its sequence numbers below 2^62 and
    holds each topic in the log it is routed to. *)
Theorem delivery_exactly_once dc max_requests ids lag acts0 self acts self' l t id s :
  environment_ok sizeof_MessageData sizeof_CacheEntry GetLogID copilot_worker log -> config_ok dc max_requests lag ->
  runs (NewTopicTailer dc max_requests ids lag) acts0 self -> runs self acts self' -> GetLogID t = Some l ->
  (forall a, a ∈ acts -> ~ concerns a id) -> expects self l t id s ->
  exists es s', trace_ self' = trace_ self ++ es /\ expects self' l t id s' /\ s <= s' /\ sent t id es = records l t s s'.
Proof.
  intros Henv Hcfg Hr0 Hr Hl Hno Hex. pose proof (runs_healthy _ _ _ Henv (NewTopicTailer_healthy _ _ ids _ Hcfg) Hr0) as Hh.
  destruct (runs_serves self acts self' l t id Henv Hh Hr Hl Hno) as (_ & es & Htr & Hpr & _).
  destruct (Hpr s Hex) as (s' & ? & ? & ?). by exists es, s'.
Qed.

(** C8: no subscription is orphaned.  In every state reached by calls for which
    the environment keeps its promise ([enabled]) a subscriber served by the
    readers at sequence number [s] has a reader that follows its topic from [s]
    or before, and that reader has not passed a record of the topic from [s] on.
    When a pending subscription is taken from its queue it goes on waiting
    there, or it is served from a place not before its own: by a reader of the
    log tailer (a tailer with one reader always uses it) that follows the topic
    from there or before, or else by the virtual reader, and this only if every
    reader has the log open past the place and does not follow the topic from
    there or before. *)
Theorem subscriptions_covered dc max_requests ids lag acts self :
  environment_ok sizeof_MessageData sizeof_CacheEntry GetLogID copilot_worker log -> config_ok dc max_requests lag ->
  runs (NewTopicTailer dc max_requests ids lag) acts self ->
  (forall l t id s, subs self l t id = Some s ->
     exists i r n p, rd self i = Some r /\ next r l t = Some n /\ pos r l = Some p /\ n <= s /\ no_record l t s (p + 1)) /\
  (forall w id last l t q, copilot_worker id = w -> pending_of self id = Some {| pending_logid := l; pending_seqno := q |} ->
     find_topic self id = Some t ->
     exists self', run_action (PendingItem w id last) self = Ok self' /\
       (pending_of self' id = None -> exists s, q <= s /\ subs self' l t id = Some s /\
          ((exists j r n p, log_readers_ self' !! j = Some r /\ next r l t = Some n /\ n <= s /\ pos r l = Some p /\ no_record l t s (p + 1)) \/
           (length (log_readers_ self') <> 1%nat /\ forall j r, log_readers_ self' !! j = Some r ->
              exists p, pos r l = Some p /\ s <= p /\ forall n, next r l t = Some n -> s < n)))).
Proof.
  intros Henv Hcfg Hr. pose proof (runs_healthy _ _ _ Henv (NewTopicTailer_healthy _ _ ids _ Hcfg) Hr) as [Hok _]. split.
  - intros l t id s Hs. destruct (c_cover (ok_core Hok) l t id s Hs) as (i & r & n & Hi & Hn & Hle). destruct (next_pos r l t n Hn) as [p Hp].
    exists i, r, n, p. split_and!; try done. intros q m Hq Hm. destruct (c_reader (ok_core Hok) _ _ Hi) as [(_ & Hk & _) _].
    exact (Hk l t n p Hn Hp q m ltac:(lia) Hm).
  - intros w id last l t q Hw Hp Hft. destruct (DrainPending_ok (XXH64:=XXH64) (WriteHasFailed:=WriteHasFailed) Henv self w id last _ Hok Hp Hw) as (self' & es & E & _).
    exists self'. split; [exact E|]. exact (DrainPending_placed Henv self w id last t l q self' Hok Hp Hft Hw E).
Qed.

(** A new subscription starts where it asked to.  Subscribing an unknown
    subscriber to a routable topic at a non-zero sequence number succeeds,
    sends nothing, and makes the subscriber expect that sequence number. *)
Theorem subscribe_starts dc max_requests ids lag acts self t start id l :
  environment_ok sizeof_MessageData sizeof_CacheEntry GetLogID copilot_worker log -> config_ok dc max_requests lag ->
  runs (NewTopicTailer dc max_requests ids lag) acts self -> valid_topic t -> 0 < start <= kMaxSeqno -> GetLogID t = Some l ->
  gone self l t id -> ~ waits self id ->
  exists self', AddSubscriber GetLogID copilot_worker self t start id = Ok (self', true) /\ trace_ self' = trace_ self /\
    expects self' l t id start.
Proof.
  intros Henv Hcfg Hr Ht Hstart Hl (Hf & Hp & Hs) Hw.
  pose proof (runs_healthy _ _ _ Henv (NewTopicTailer_healthy _ _ ids _ Hcfg) Hr) as [Hok _].
  exact (AddSubscriber_expects Henv self t start id l Hok Ht Hstart Hl Hf Hp Hs Hw).
Qed.

(** C27: after an unsubscribe there is silence.  Once [RemoveSubscriber] has
    ended a subscription, no call but a new subscribe request (or another
    request about the same subscriber) makes the tailer send it a record of the
    topic, even if it was pending, served by a reader, or waiting for the tail. *)
Theorem unsubscribed_silent dc max_requests ids lag acts0 self l t id self1 acts self2 :
  environment_ok sizeof_MessageData sizeof_CacheEntry GetLogID copilot_worker log -> config_ok dc max_requests lag ->
  runs (NewTopicTailer dc max_requests ids lag) acts0 self -> find_topic self id = Some t -> GetLogID t = Some l ->
  run_action (Unsubscribe id) self = Ok self1 -> runs self1 acts self2 -> (forall a, a ∈ acts -> ~ concerns a id) ->
  exists es, trace_ self2 = trace_ self1 ++ es /\ sent t id es = [].
Proof.
  intros Henv Hcfg Hr0 Hf Hl Hu Hr Hno. pose proof (runs_healthy _ _ _ Henv (NewTopicTailer_healthy _ _ ids _ Hcfg) Hr0) as [Hok Hfo].
  destruct (RemoveSubscriber_ok Henv self id Hok Hfo) as (self1' & b & es1 & E & Hok1 & Hfo1 & _ & Hf1 & Hg1).
  cbn [run_action] in Hu. rewrite E in Hu. injection Hu as <-. destruct (Hg1 t l Hf Hl) as [Hs1 Hp1].
  destruct (runs_serves self1' acts self2 l t id Henv (conj Hok1 Hfo1) Hr Hl Hno) as (_ & es & Htr & _ & Hg).
  exists es. split; [done|]. by apply Hg.
Qed.

(** Requests for the tail of a log are bounded.  In every reachable state
    at most [max_find_time_requests] requests are in flight, and a log waits to
    be asked about only while that many are; the answer to a request sends the
    next waiting one. *)
Theorem latest_seqno_bounded dc max_requests ids lag acts self :
  environment_ok sizeof_MessageData sizeof_CacheEntry GetLogID copilot_worker log -> config_ok dc max_requests lag ->
  runs (NewTopicTailer dc max_requests ids lag) acts self ->
  0 <= InFlightFindLatestSeqnoRequests self <= max_find_time_requests self /\
  (pending_find_time_requests_ self <> [] -> InFlightFindLatestSeqnoRequests self = max_find_time_requests self).
Proof.
  intros Henv Hcfg Hr. pose proof (runs_healthy _ _ _ Henv (NewTopicTailer_healthy _ _ ids _ Hcfg) Hr) as [_ Hfo].
  rewrite InFlight_spec by done. split; [split; [by apply in_flight_nonneg|apply Hfo]|apply Hfo].
Qed.

(** C28: the cache of a tailer holds records of the log only: what is cached for
    a sequence number of a log is the record there, but for the stamp of the
    previous sequence number. *)
Theorem tailer_cache_coherent dc max_requests ids lag acts self l q m :
  environment_ok sizeof_MessageData sizeof_CacheEntry GetLogID copilot_worker log -> config_ok dc max_requests lag ->
  runs (NewTopicTailer dc max_requests ids lag) acts self -> fits 64 l -> fits 64 q -> msg_at (data_cache_ self) l q = Some m ->
  exists m0, log l q = Some m0 /\ same_message m0 m.
Proof.
  intros Henv Hcfg Hr Hl Hq Hm. pose proof (runs_healthy _ _ _ Henv (NewTopicTailer_healthy _ _ ids _ Hcfg) Hr) as [Hok _].
  by apply (ok_cache Hok).
Qed.

(** Running a sequence of calls. *)
Fixpoint run_actions (acts : list action) (self : TopicTailer) : outcome TopicTailer :=
  match acts with
  | [] => Ok self
  | a :: acts => self <~ run_action a self ;; run_actions acts self
  end.
End Delivery.

(** ** A small system *)

(** Messages of four topics, and a log that holds two records of the first
    topic and a few of the others. *)
Definition example_data (name : byte) (q : Z) : MessageData :=
  {| data_base := {| type_ := MessageType.mDeliver; tenantid_ := 200 |}; data_seqno_prev_ := 0; data_seqno_ := q;
     msgid_ := []; data_topic_name_ := [name]; data_payload_ := [Byte.x70]; data_namespaceid_ := [Byte.x62];
     storage_slice_ := [] |}.

Definition example_log (l q : Z) : option MessageData :=
  if negb (l =? 7) then None
  else if (q =? 4) || (q =? 5) then Some (example_data Byte.x61 q)
  else if (q =? 60) then Some (example_data Byte.x64 q)
  else if (q =? 98) || (q =? 99) then Some (example_data Byte.x65 q)
  else None.

Definition example_topic (name : byte) : TopicUUID := NewTopicUUID [Byte.x62] [name].
Definition example_route (t : TopicUUID) : option Z := Some 7.
Definition example_worker (id : CopilotSub) : Z := 0.
Definition never (es : list event) : bool := false.
Definition always (es : list event) : bool := true.
Definition client (i : Z) : CopilotSub := {| stream_id := 1; sub_id := i |}.

(** A tailer without cache, with two readers. *)
Definition no_cache : DataCache :=
  {| bloom_bits_per_msg_ := 0; block_size_ := 2; StoreUserTopics := true; StoreSystemTopics := false;
     StoreDataRecords := true; StoreGapRecords := true; rs_cache_ := None;
     bloom_filter_ := None |}.

Definition example_tailer : TopicTailer := NewTopicTailer no_cache 2 [1; 2] 1000.
Definition example_run := run_actions example_hash 100 200 never always example_route example_worker.
Definition state_after (acts : list action) : TopicTailer :=
  match example_run acts example_tailer with Ok self => self | Abort _ => example_tailer end.

Definition example_runs := runs example_hash 100 200 never always example_route example_worker example_log.

Lemma example_environment : environment_ok 100 200 example_route example_worker example_log.
Proof.
  assert (forall l q m, example_log l q = Some m -> l = 7 /\ 0 < q < 100 /\ exists name, m = example_data name q) as Hlog.
  { intros l q m. unfold example_log. destruct (Z.eqb_spec l 7) as [->|]; cbn [negb]; [|done].
    repeat case_bool; cbn [orb]; intros; simplify_eq; split_and!; try lia; eauto. }
  split; [lia| |done|intros t l [= <-]; done]. split.
  - intros l q m (-> & _)%Hlog. done.
  - intros l q m (_ & ? & name & ->)%Hlog. unfold kMaxSeqno. cbn. lia.
  - intros l q m (_ & _ & name & ->)%Hlog. by vm_compute.
  - intros l q m (_ & _ & name & ->)%Hlog. done.
  - intros l q m (-> & _)%Hlog. done.
Qed.

Lemma example_config : config_ok no_cache 2 1000.
Proof.
  split; [|by vm_compute]. exists 0, false, 0, 2. split_and!; try done. apply example_block.
Qed.

(** A subscriber that is served by a reader, and one record of its topic. *)
Definition serve_client : list action :=
  [Subscribe (example_topic Byte.x61) 4 (client 1); PendingItem 0 (client 1) true].

Lemma serve_client_runs : example_runs example_tailer serve_client (state_after serve_client).
Proof.
  unfold serve_client. econstructor; [| |econstructor; [| |constructor]].
  - split; [exists [Byte.x62], [Byte.x61]; by vm_compute|by vm_compute].
  - vm_compute. reflexivity.
  - by eexists.
  - vm_compute. reflexivity.
Qed.

Lemma first_record_enabled : enabled 100 200 example_log (state_after serve_client) (LogRecord (example_data Byte.x61 4) 7 1).
Proof.
  eexists 0%nat, _, 3, (example_data Byte.x61 4). split; [vm_compute; reflexivity|]. split; [vm_compute; reflexivity|].
  split; [vm_compute; reflexivity|]. split; [vm_compute; reflexivity|]. split; [vm_compute; reflexivity|].
  split; [apply same_message_refl|]. split; vm_compute; [discriminate|reflexivity].
Qed.

Lemma serve_client_expects : expects example_worker (state_after serve_client) 7 (example_topic Byte.x61) (client 1) 4.
Proof.
  split; [|split; [vm_compute; reflexivity|right; split; vm_compute; reflexivity]].
  intros (l & ids & Hl & _). assert (pending_find_time_response_ (state_after serve_client) = ∅) as E by (vm_compute; reflexivity).
  by rewrite E, lookup_empty in Hl.
Qed.

Lemma tailer_never_aborts_witness :
  exists self', run_action example_hash 100 200 never always example_route example_worker
    (LogRecord (example_data Byte.x61 4) 7 1) (state_after serve_client) = Ok self'.
Proof.
  exact (tailer_never_aborts example_hash 100 200 never always example_route example_worker example_log no_cache 2 [1; 2] 1000
    serve_client (state_after serve_client) (LogRecord (example_data Byte.x61 4) 7 1) example_environment example_config
    serve_client_runs first_record_enabled).
Defined.

Lemma first_record_runs : example_runs (state_after serve_client) [LogRecord (example_data Byte.x61 4) 7 1]
  (state_after (serve_client ++ [LogRecord (example_data Byte.x61 4) 7 1])).
Proof. econstructor; [exact first_record_enabled| |constructor]. vm_compute. reflexivity. Qed.

Lemma delivery_exactly_once_witness :
  exists es s', trace_ (state_after (serve_client ++ [LogRecord (example_data Byte.x61 4) 7 1])) = trace_ (state_after serve_client) ++ es /\
    sent (example_topic Byte.x61) (client 1) es = records example_log 7 (example_topic Byte.x61) 4 s'.
Proof.
  destruct (delivery_exactly_once example_hash 100 200 never always example_route example_worker example_log no_cache 2 [1; 2] 1000
    serve_client (state_after serve_client) [LogRecord (example_data Byte.x61 4) 7 1] _ 7 (example_topic Byte.x61) (client 1) 4
    example_environment example_config serve_client_runs first_record_runs eq_refl) as (es & s' & H1 & _ & _ & H2).
  - intros a ->%list_elem_of_singleton. exact (fun H => H).
  - exact serve_client_expects.
  - exists es, s'. exact (conj H1 H2).
Defined.

(** What was sent, computed. *)
Example delivery_example :
  sent (example_topic Byte.x61) (client 1) (trace_ (state_after (serve_client ++ [LogRecord (example_data Byte.x61 4) 7 1]))) =
    [strip (example_data Byte.x61 4)].
Proof. vm_compute. reflexivity. Qed.

(** The pending client is placed with a reader of the log tailer. *)
Lemma subscribed_runs : example_runs example_tailer [Subscribe (example_topic Byte.x61) 4 (client 1)]
  (state_after [Subscribe (example_topic Byte.x61) 4 (client 1)]).
Proof.
  econstructor; [| |constructor]; [|vm_compute; reflexivity]. split; [exists [Byte.x62], [Byte.x61]; by vm_compute|by vm_compute].
Qed.

Lemma subscriptions_covered_witness :
  exists s j r n p, subs (state_after serve_client) 7 (example_topic Byte.x61) (client 1) = Some s /\ 4 <= s /\
    log_readers_ (state_after serve_client) !! j = Some r /\ next r 7 (example_topic Byte.x61) = Some n /\ n <= s /\ pos r 7 = Some p /\
    no_record example_log 7 (example_topic Byte.x61) s (p + 1).
Proof.
  destruct (proj2 (subscriptions_covered example_hash 100 200 never always example_route example_worker example_log no_cache 2 [1; 2] 1000
    _ _ example_environment example_config subscribed_runs) 0 (client 1) true 7 (example_topic Byte.x61) 4) as (self' & E & Hplaced);
    [reflexivity|vm_compute; reflexivity|vm_compute; reflexivity|].
  assert (self' = state_after serve_client) as -> by (enough (Ok self' = Ok (state_after serve_client)) as H by (by injection H); rewrite <-E; vm_compute; reflexivity).
  destruct Hplaced as (s & Hle & Hs & [(j & r & n & p & Hj & Hn & Hns & Hp & Hno)|[_ Hall]]); [vm_compute; reflexivity| |].
  - exists s, j, r, n, p. split_and!; [exact Hs|exact Hle|exact Hj|exact Hn|exact Hns|exact Hp|exact Hno].
  - exfalso. destruct (Hall 1%nat (NewLogReader false 2 1000)) as (p & Hp & _); [vm_compute; reflexivity|]. vm_compute in Hp. discriminate Hp.
Defined.

Lemma subscribe_starts_witness :
  exists self', AddSubscriber example_route example_worker example_tailer (example_topic Byte.x61) 4 (client 1) = Ok (self', true) /\
    trace_ self' = [] /\ expects example_worker self' 7 (example_topic Byte.x61) (client 1) 4.
Proof.
  apply (subscribe_starts example_hash 100 200 never always example_route example_worker example_log no_cache 2 [1; 2] 1000
    [] example_tailer (example_topic Byte.x61) 4 (client 1) 7 example_environment example_config).
  - constructor.
  - exists [Byte.x62], [Byte.x61]. by vm_compute.
  - by vm_compute.
  - done.
  - by vm_compute.
  - intros (l & ids & Hl & _). vm_compute in Hl. destruct l; discriminate Hl.
Defined.

Lemma after_unsubscribe_runs : example_runs (state_after (serve_client ++ [Unsubscribe (client 1)])) [ClearTheCache]
  (state_after (serve_client ++ [Unsubscribe (client 1); ClearTheCache])).
Proof. econstructor; [done| |constructor]. vm_compute. reflexivity. Qed.

Lemma unsubscribed_silent_witness :
  exists es, trace_ (state_after (serve_client ++ [Unsubscribe (client 1); ClearTheCache])) =
      trace_ (state_after (serve_client ++ [Unsubscribe (client 1)])) ++ es /\ sent (example_topic Byte.x61) (client 1) es = [].
Proof.
  apply (unsubscribed_silent example_hash 100 200 never always example_route example_worker example_log no_cache 2 [1; 2] 1000
    serve_client (state_after serve_client) 7 (example_topic Byte.x61) (client 1) _ [ClearTheCache] _
    example_environment example_config serve_client_runs); [vm_compute; reflexivity|reflexivity|vm_compute; reflexivity| |].
  - exact after_unsubscribe_runs.
  - intros a ->%list_elem_of_singleton. exact (fun H => H).
Defined.

Lemma latest_seqno_bounded_witness :
  0 <= InFlightFindLatestSeqnoRequests (state_after serve_client) <= 2.
Proof.
  exact (proj1 (latest_seqno_bounded example_hash 100 200 never always example_route example_worker example_log no_cache 2 [1; 2] 1000
    serve_client (state_after serve_client) example_environment example_config serve_client_runs)).
Defined.

(** The same client, and a tailer with a cache: the record is served and cached. *)
Definition with_cache : DataCache := match NewDataCache 100000 false 0 2 with Ok dc => dc | Abort _ => no_cache end.

Definition do (a : action) (self : TopicTailer) : TopicTailer :=
  match run_action example_hash 100 200 never always example_route example_worker a self with Ok self' => self' | Abort _ => self end.

Definition cached1 : TopicTailer := do (Subscribe (example_topic Byte.x61) 4 (client 1)) (NewTopicTailer with_cache 2 [1; 2] 1000).
Definition cached2 : TopicTailer := do (PendingItem 0 (client 1) true) cached1.
Definition cached3 : TopicTailer := do (LogRecord (example_data Byte.x61 4) 7 1) cached2.

Lemma do_Ok a self : match run_action example_hash 100 200 never always example_route example_worker a self with
    Ok _ => true | Abort _ => false end = true ->
  run_action example_hash 100 200 never always example_route example_worker a self = Ok (do a self).
Proof. unfold do. by destruct (run_action _ _ _ _ _ _ _ _ _). Qed.

Lemma cached_config : config_ok with_cache 2 1000.
Proof. split; [|by vm_compute]. exists 100000, false, 0, 2. split_and!; try done. apply example_block. Qed.

Lemma cached_runs : example_runs (NewTopicTailer with_cache 2 [1; 2] 1000)
  (serve_client ++ [LogRecord (example_data Byte.x61 4) 7 1]) cached3.
Proof.
  apply (runs_cons _ _ _ _ _ _ _ _ _ _ _ cached1); [|apply do_Ok; vm_compute; reflexivity|].
  { split; [exists [Byte.x62], [Byte.x61]; by vm_compute|by vm_compute]. }
  apply (runs_cons _ _ _ _ _ _ _ _ _ _ _ cached2); [|apply do_Ok; vm_compute; reflexivity|].
  { by eexists. }
  apply (runs_cons _ _ _ _ _ _ _ _ _ _ _ cached3); [|apply do_Ok; vm_compute; reflexivity|constructor].
  eexists 0%nat, _, 3, (example_data Byte.x61 4). split; [vm_compute; reflexivity|]. split; [vm_compute; reflexivity|].
  split; [vm_compute; reflexivity|]. split; [vm_compute; reflexivity|]. split; [vm_compute; reflexivity|].
  split; [apply same_message_refl|]. split; vm_compute; [discriminate|reflexivity].
Qed.

Lemma tailer_cache_coherent_witness :
  exists m, msg_at (data_cache_ cached3) 7 4 = Some m /\ exists m0, example_log 7 4 = Some m0 /\ same_message m0 m.
Proof.
  exists (SetPreviousSequenceNumber 4 (example_data Byte.x61 4)).
  assert (fits 64 7 /\ fits 64 4) as [H7 H4] by (split; split; vm_compute; (discriminate || reflexivity)).
  assert (msg_at (data_cache_ cached3) 7 4 = Some (SetPreviousSequenceNumber 4 (example_data Byte.x61 4))) as Hm by (vm_compute; reflexivity).
  split; [exact Hm|]. clear -Hm H7 H4.
  exact (tailer_cache_coherent example_hash 100 200 never always example_route example_worker example_log with_cache 2 [1; 2] 1000
    (serve_client ++ [LogRecord (example_data Byte.x61 4) 7 1]) cached3 7 4
    (SetPreviousSequenceNumber 4 (example_data Byte.x61 4)) example_environment cached_config cached_runs H7 H4 Hm).
Defined.

(** ** What the code does not do *)

(** A gap moves subscriptions of other readers.  [SendGapRecord] advances
    the subscribers of every topic of the log, also of topics the reader of the
    gap does not follow, for which the previous sequence number is 0.  A client
    subscribed at 4 is served by the first reader, one at 2000 by the second; a
    gap from 2000 to 2005 on the second reader moves the first client to 2006,
    and the records 4 and 5 of its topic, which the first reader reads next, are
    never sent to it. *)
Theorem gap_skips_unread_records :
  let acts := serve_client ++ [Subscribe (example_topic Byte.x65) 2000 (client 2); PendingItem 0 (client 2) true;
    LogGap 7 kBenign 2000 2005 2; LogRecord (example_data Byte.x61 4) 7 1; LogRecord (example_data Byte.x61 5) 7 1] in
  (self <~ example_run acts example_tailer ;;
   Ok (subs self 7 (example_topic Byte.x61) (client 1), sent (example_topic Byte.x61) (client 1) (trace_ self))) = Ok (Some 2006, []) /\
  records example_log 7 (example_topic Byte.x61) 4 2006 = [strip (example_data Byte.x61 4); strip (example_data Byte.x61 5)].
Proof. split; vm_compute; reflexivity. Qed.

(** Two readers on a log, and two later subscriptions before both of them, which
    wait at the virtual reader. *)
Definition two_readers : list action :=
  [Subscribe (example_topic Byte.x61) 100 (client 1); PendingItem 0 (client 1) true;
   Subscribe (example_topic Byte.x65) 98 (client 2); PendingItem 0 (client 2) true].

(** A reader that takes over the subscriptions of the virtual reader can
    stop the process.  [StealLogSubscriptions] starts reading at the smallest
    sequence number of the topics but keeps the last one read of the virtual
    reader, which is older when the earliest topic was unsubscribed.  Here the
    virtual reader was opened at 50 and holds a topic at 60 when it is taken
    over: the log tailer is told to read from 60, the reader expects 50, and the
    record 60 fails the assertion of [ReceiveLogRecord]. *)
Theorem steal_expects_wrong_seqno :
  let acts := two_readers ++ [Subscribe (example_topic Byte.x63) 50 (client 3); PendingItem 0 (client 3) true;
    Subscribe (example_topic Byte.x64) 60 (client 4); PendingItem 0 (client 4) true; Unsubscribe (client 3);
    LogRecord (example_data Byte.x65 98) 7 2; LogRecord (example_data Byte.x65 99) 7 2] in
  (self <~ example_run acts example_tailer ;; Ok (last (trace_ self))) = Ok (Some (Tailer (TailerStartReading 7 60 2))) /\
  example_run (acts ++ [LogRecord (example_data Byte.x64 60) 7 2]) example_tailer =
    Abort "next_seqno == reader->GetNextSequenceNumber(log_id)".
Proof. split; vm_compute; reflexivity. Qed.

(** A subscription can be left at the virtual reader.  The virtual reader
    is taken over only when two readers merge; when the readers of the log close
    instead, because their clients unsubscribe, the subscription at 60 stays
    with the virtual reader, no reader has the log open, and the log tailer was
    not asked for the records from 60 on. *)
Theorem pending_reader_left_alone :
  let acts := two_readers ++ [Subscribe (example_topic Byte.x64) 60 (client 4); PendingItem 0 (client 4) true;
    Unsubscribe (client 1); Unsubscribe (client 2)] in
  (self <~ example_run acts example_tailer ;;
   Ok (subs self 7 (example_topic Byte.x64) (client 4), pending_of example_worker self (client 4),
       map (fun r => pos r 7) (log_readers_ self), trace_ self)) =
  Ok (Some 60, None, [None; None],
      map Tailer [TailerStartReading 7 100 1; TailerStartReading 7 98 2; TailerStopReading 7 1; TailerStopReading 7 2]).
Proof. vm_compute. reflexivity. Qed.
