(* ===== verification/TailerPolite.v ===== *)
(** * What the topic tailer says to its room

    Every message that a handler of the topic tailer passes to the room is a
    record or a gap with its sequence numbers in order, and names each recipient
    once ([polite]); the room turns it into one message per recipient. *)

From S2P Require Import Prelude Coding CodingFacts Messages Containers LRUCache Bloom DataCache DataCacheFacts.
From S2P Require Import DataCacheVisit TopicManager LogReader LogReaderFacts TopicTailer TailerInv TopicTailerFacts.
From S2P Require Import TailerSteps TailerSubs TailerRoom Delivery.

#[local] Open Scope outcome_scope.

(** A message other than a record. *)
Definition mute (e : event) : Prop := match e with OnMessage (Data _) _ => False | _ => True end.

(** The lists of subscribers name nobody twice. *)
Definition managers_wf (self : TopicTailer) : Prop := forall l, TopicManager.wf (manager self l).

(** A step that sends no records, and puts nobody on a list of subscribers. *)
Definition says (self self' : TopicTailer) : Prop :=
  (managers_wf self -> managers_wf self' /\ forall l t id, is_Some (subs self' l t id) -> is_Some (subs self l t id)) /\
  exists es, trace_ self' = trace_ self ++ es /\ Forall polite es /\ Forall mute es.

Lemma says_trans s1 s2 s3 : says s1 s2 -> says s2 s3 -> says s1 s3.
Proof.
  intros [H1 (es & Ht & Hp & Hm)] [H2 (es' & Ht' & Hp' & Hm')]. split.
  - intros [Hwf2 Hs]%H1. destruct (H2 Hwf2) as [Hwf3 Hs']. auto.
  - exists (es ++ es'). split; [by rewrite Ht', Ht, app_assoc|]. split; by apply Forall_app.
Qed.

(** A field other than the lists of subscribers and the trace is set. *)
Lemma says_field self self' : topic_map_ self' = topic_map_ self -> trace_ self' = trace_ self -> says self self'.
Proof.
  intros Hm Ht. split; [intros Hwf; unfold managers_wf, subs, manager; by rewrite Hm|]. exists []. by rewrite app_nil_r.
Qed.

Lemma says_refl self : says self self.
Proof. by apply says_field. Qed.

Lemma says_emit self es : Forall polite es -> Forall mute es -> says self (emit es self).
Proof. intros Hp Hm. split; [done|]. by exists es. Qed.

Lemma says_calls self calls : says self (emit (map Tailer calls) self).
Proof. apply says_emit; [apply polite_calls|]. apply Forall_map, Forall_true. done. Qed.

Lemma says_manager self l m : (managers_wf self -> TopicManager.wf m /\ forall t id, is_Some (TopicManager.sub_at m t id) -> is_Some (subs self l t id)) ->
  says self (set_manager l m self).
Proof.
  intros Hm. split; [|exists []; by rewrite app_nil_r]. intros Hwf. destruct (Hm Hwf) as [Hm1 Hm2]. split.
  - intros l'. rewrite manager_set. case_decide; [done|apply Hwf].
  - intros l' t id. unfold subs at 1. rewrite manager_set. case_decide as E; [subst l'; apply Hm2|done].
Qed.

Section Polite.
Context (XXH64 : slice -> Z) (sizeof_MessageData sizeof_CacheEntry : Z).
Context (WriteHasFailed start_ok : list event -> bool).
Context (GetLogID : TopicUUID -> option Z) (copilot_worker : CopilotSub -> Z).

(** ** Subscriptions *)

Lemma write_pending_says self id l q self' : write_pending copilot_worker self id l q = Ok self' -> says self self'.
Proof. unfold write_pending. intros ([w qu] & _ & <-%Ok_inj)%obind_Ok. by apply says_field. Qed.

Lemma AddSubscriberInternal_says self t id l q self' : AddSubscriberInternal copilot_worker self t id l q = Ok self' -> says self self'.
Proof.
  unfold AddSubscriberInternal. intros ([] & _ & (self1 & E%write_pending_says & <-%Ok_inj)%obind_Ok)%obind_Ok.
  eapply says_trans; [exact E|]. by apply says_field.
Qed.

Lemma AddTailSubscriber_says self t id l q self' : AddTailSubscriber copilot_worker self t id l q = Ok self' -> says self self'.
Proof.
  unfold AddTailSubscriber. intros (names & _ & H%AddSubscriberInternal_says)%obind_Ok. eapply says_trans; [|exact H]. apply says_emit; [|by repeat constructor].
  constructor; [|constructor]. cbn. split_and!; [done|apply (wrap_fits 64); lia|apply NoDup_singleton].
Qed.

Lemma SendFindLatestSeqnoRequest_says self l self' : SendFindLatestSeqnoRequest self l = Ok self' -> says self self'.
Proof. unfold SendFindLatestSeqnoRequest. intros ([] & _ & <-%Ok_inj)%obind_Ok. apply says_emit; by repeat constructor. Qed.

Lemma answer_waiting_says ids l q self self' : answer_waiting copilot_worker ids l q self = Ok self' -> says self self'.
Proof.
  revert self. induction ids as [|id ids IH]; intros self; cbn [answer_waiting]; [intros <-%Ok_inj; apply says_refl|].
  intros (self1 & E & H%IH)%obind_Ok. eapply says_trans; [|exact H].
  destruct (SubscriptionMap.Find _ _ _); [by eapply AddTailSubscriber_says|apply Ok_inj in E as <-; apply says_refl].
Qed.

Lemma ProcessFindLatestSeqnoResponse_says self ok l q self' : ProcessFindLatestSeqnoResponse copilot_worker self ok l q = Ok self' -> says self self'.
Proof.
  unfold ProcessFindLatestSeqnoResponse. destruct ok; cbn [negb]; [|apply SendFindLatestSeqnoRequest_says].
  intros (self1 & E%answer_waiting_says & H)%obind_Ok. eapply says_trans; [exact E|].
  set (self2 := set_tail_seqno_cached _ _) in H. assert (says self1 self2) as H2 by (by apply says_field).
  destruct (pending_find_time_requests_ self2) as [|next rest]; [by apply Ok_inj in H as <-|].
  apply obind_Ok in H as (self3 & E3%SendFindLatestSeqnoRequest_says & ([] & _ & <-%Ok_inj)%obind_Ok).
  eapply says_trans; [exact H2|]. eapply says_trans; [|exact E3]. by apply says_field.
Qed.

Lemma AddSubscriber_says self t start id self' b : AddSubscriber GetLogID copilot_worker self t start id = Ok (self', b) -> says self self'.
Proof.
  unfold AddSubscriber. destruct (GetLogID t) as [l|]; [|intros [= <- _]; apply says_refl]. destruct (start =? 0).
  - destruct (negb _); [intros (self1 & E & H')%obind_Ok; simplify_eq; by eapply AddTailSubscriber_says|].
    set (self1 := set_find_time _ _ _). assert (says self self1) as H1 by (by apply says_field). clearbody self1.
    destruct (1 <? _)%nat; [intros [= <- _]; done|]. case_bool.
    + intros (self2 & E%SendFindLatestSeqnoRequest_says & H')%obind_Ok. simplify_eq. by eapply says_trans.
    + intros H'. apply Ok_inj in H'. injection H' as <- _. eapply says_trans; [exact H1|]. by apply says_field.
  - intros (self1 & E & H')%obind_Ok. simplify_eq. by eapply AddSubscriberInternal_says.
Qed.

Lemma RemoveSubscriberInternal_says self t id l self' : RemoveSubscriberInternal copilot_worker self t id l = Ok self' -> says self self'.
Proof.
  unfold RemoveSubscriberInternal. pose proof (TopicManager.RemoveSubscriber_spec (manager self l) t id) as Hm.
  destruct (TopicManager.RemoveSubscriber (manager self l) t id) as [m all_removed].
  set (self0 := set_manager l m self). intros ([w q] & _ & (q1 & _ & H)%obind_Ok)%obind_Ok. set (self1 := if all_removed then _ else _) in H.
  assert (says self self0) as H0.
  { apply says_manager. intros Hwf. destruct (Hm (Hwf l)) as (Hm1 & _ & Hm2 & _). split; [done|]. intros t' id'. rewrite Hm2. case_decide; [by intros []|done]. }
  assert (says self0 self1) as H1.
  { unfold self1. destruct all_removed; [|apply says_refl]. destruct (stop_readers t l (log_readers_ self0)) as [[rs calls] closed].
    destruct (StopReading (pending_reader_ self0) t l) as [rp pcalls]. set (self2 := emit _ _).
    assert (says self0 self2) as H2 by (apply says_trans with (set_pending_reader rp (set_log_readers rs self0)); [by apply says_field|apply says_calls]).
    destruct (closed && _); [|exact H2]. eapply says_trans; [exact H2|]. by apply says_field. }
  apply Ok_inj in H as <-. eapply says_trans; [exact H0|]. eapply says_trans; [exact H1|]. by apply says_field.
Qed.

Lemma RemoveSubscriber_says self id self' b : RemoveSubscriber GetLogID copilot_worker self id = Ok (self', b) -> says self self'.
Proof.
  unfold RemoveSubscriber. destruct (SubscriptionMap.MoveOut _ _ _) as [m topic]. set (self0 := set_stream_subscriptions m self).
  assert (says self self0) as H0 by (by apply says_field).
  destruct topic as [t|]; [|by intros [= <- _]]. destruct (GetLogID t) as [l|]; [|by intros [= <- _]].
  intros (self1 & E%RemoveSubscriberInternal_says & H)%obind_Ok. simplify_eq. exact (says_trans _ _ _ H0 E).
Qed.

Lemma RemoveStream_says self stream self' : RemoveStream GetLogID copilot_worker self stream = Ok self' -> says self self'.
Proof.
  unfold RemoveStream. intros (self1 & E & <-%Ok_inj)%obind_Ok. apply says_trans with self1; [|by apply says_field].
  revert E. generalize (SubscriptionMap.VisitSubscriptions (stream_subscriptions_ self) stream) as subs. intros subs. revert self.
  induction subs as [|[sub t] subs IH]; intros self; cbn [remove_all]; [intros <-%Ok_inj; apply says_refl|].
  intros (self2 & E & H%IH)%obind_Ok. eapply says_trans; [|exact H].
  destruct (GetLogID t); [by eapply RemoveSubscriberInternal_says|apply Ok_inj in E as <-; apply says_refl].
Qed.

(** ** Every call *)

Context (log : Z -> Z -> option MessageData).
Context (Henv : environment_ok sizeof_MessageData sizeof_CacheEntry GetLogID copilot_worker log).
(** Every subscription has one topic. *)
Context (topic_of : CopilotSub -> TopicUUID).

(** A record goes to subscriptions on its topic. *)
Definition told (e : event) : Prop :=
  match e with OnMessage (Data d) rs => forall id, id ∈ rs -> data_uuid d = topic_of id | _ => True end.

Lemma told_sent es : (forall t id, t <> topic_of id -> sent t id es = []) -> Forall told es.
Proof.
  intros Hs. apply Forall_forall. intros [[| d | | | | | | | | | | | ] rs| |] Hin; try done. intros id Hid. cbn.
  destruct (decide (data_uuid d = topic_of id)) as [|Hne]; [done|]. exfalso. apply (not_elem_of_nil (strip d)). rewrite <-(Hs _ _ Hne).
  apply list_elem_of_omap. exists (OnMessage (Data d) rs). split; [done|]. cbn. by rewrite decide_True.
Qed.

Lemma mute_told es : Forall mute es -> Forall told es.
Proof. intros Hm. eapply Forall_impl; [exact Hm|]. by intros [[] rs| |]. Qed.

Lemma action_polite self a self' : healthy XXH64 copilot_worker log self -> enabled sizeof_MessageData sizeof_CacheEntry log self a ->
  run_action XXH64 sizeof_MessageData sizeof_CacheEntry WriteHasFailed start_ok GetLogID copilot_worker a self = Ok self' ->
  (forall l t id, is_Some (subs self l t id) -> t = topic_of id) -> (forall id t, find_topic self id = Some t -> t = topic_of id) ->
  (forall l t id, is_Some (subs self' l t id) -> t = topic_of id) /\ exists es, trace_ self' = trace_ self ++ es /\ Forall polite es /\ Forall told es.
Proof using Henv.
  intros [Hok Hfo] Hen Ha HS HF.
  assert (says self self' -> (forall l t id, is_Some (subs self' l t id) -> t = topic_of id) /\
    exists es, trace_ self' = trace_ self ++ es /\ Forall polite es /\ Forall told es) as Hsays.
  { intros [Hs (es & Ht & Hp & Hm)]. destruct Hs as [_ Hs]; [intros l; apply (c_wf (ok_core Hok))|]. split; [eauto|]. exists es. split_and!; [done|done|by apply mute_told]. }
  assert (forall self1 es, stepped GetLogID log self self1 es -> (forall l t id, is_Some (subs self1 l t id) -> t = topic_of id) /\
    exists es, trace_ self1 = trace_ self ++ es /\ Forall polite es /\ Forall told es) as Hst1.
  { intros self1 es Hst. split; [intros l t id Hs; eapply HS; by apply (s_subs Hst)|]. exists es. split_and!; [apply (s_trace Hst)|apply (s_polite Hst)|].
    apply told_sent. intros t id Hne. apply (s_silent Hst). intros l. apply eq_None_not_Some. by intros Hs%HS. }
  assert (forall (r : outcome TopicTailer) self1 es, r = Ok self' -> r = Ok self1 -> stepped GetLogID log self self1 es ->
    (forall l t id, is_Some (subs self' l t id) -> t = topic_of id) /\ exists es, trace_ self' = trace_ self ++ es /\ Forall polite es /\ Forall told es) as Hstep.
  { intros r self1 es -> E Hst. apply Ok_inj in E as <-. by eapply Hst1. }
  destruct a as [data l rid|l type from to rid|l i last|w id last|t start id|id|stream|ok l q| |cap]; cbn [run_action enabled] in *.
  - destruct Hen as (i & r & p & m0 & Hf & Hi & Hp & Hq & Hm0 & Hs & Hroom).
    destruct (SendLogRecord_ok (start_ok:=start_ok) Henv self l data m0 rid i r p Hok Hroom Hf Hi Hp Hq Hm0 Hs) as (self1 & E & _ & es & Hst). by eapply Hstep.
  - destruct Hen as (i & r & p & Hf & Hi & -> & Hg).
    destruct (SendGapRecord_ok (start_ok:=start_ok) Henv self l type p to rid i r Hok Hf Hi Hg) as (self1 & E & _ & es & Hst). by eapply Hstep.
  - destruct Hen as [u Hu]. destruct (DrainReentry_ok (start_ok:=start_ok) (WriteHasFailed:=WriteHasFailed) Henv self l i last u Hok Hu) as (self1 & es & self2 & q2 & E & _ & Hst & ->).
    rewrite E in Ha. apply Ok_inj in Ha as <-. exact (Hst1 self2 es Hst).
  - destruct Hen as (q & Hq & p & Hp0). destruct (ok_queues Hok w q Hq) as [_ Hw]. destruct (Hw id p Hp0) as [<- _].
    assert (pending_of copilot_worker self id = Some p) as Hp by (unfold pending_of; by rewrite Hq).
    destruct (DrainPending_ok (WriteHasFailed:=WriteHasFailed) Henv self _ id last p Hok Hp eq_refl) as (self1 & es & E & _ & Htr & _ & _ & Hunt & Hother & Hsubs & Hpol).
    rewrite E in Ha. apply Ok_inj in Ha as <-. split.
    + intros l t id'. destruct (decide (id' = id)) as [->|Hne]; [intros [?|?]%Hsubs; eauto|]. rewrite (u_subs _ _ _ _ _ (Hunt id' Hne)). apply HS.
    + exists es. split_and!; [done|done|]. apply told_sent. intros t id' Hne. destruct (decide (id' = id)) as [->|Hid]; [|apply (u_sent _ _ _ _ _ (Hunt id' Hid))].
      apply Hother. by intros ?%HF.
  - apply obind_Ok in Ha as ([self1 b] & E & <-%Ok_inj). apply Hsays. by eapply AddSubscriber_says.
  - apply obind_Ok in Ha as ([self1 b] & E & <-%Ok_inj). apply Hsays. by eapply RemoveSubscriber_says.
  - apply Hsays. by eapply RemoveStream_says.
  - apply Hsays. by eapply ProcessFindLatestSeqnoResponse_says.
  - apply Ok_inj in Ha as <-. apply Hsays. by apply says_field.
  - apply obind_Ok in Ha as (dc & _ & <-%Ok_inj). apply Hsays. by apply says_field.
Qed.
End Polite.
