(* ===== verification/LogTailer.v ===== *)
(** * The log tailer

    Model of [LogTailer] (src/controltower/log_tailer.h and .cc): for each
    reader and open log, the sequence number that may be handed on next, and the
    time at which reading is restarted.  Records and gaps come from the threads
    of the log storage, possibly from before a reader was closed or moved; the
    tailer hands on only what the reader expects.

    The storage is an external interface: the calls of its readers are recorded
    in [calls_], and what it answers ([Answer]) is an argument of the operations,
    as is the random time of a restart.  Statistics and logging are left out. *)

From S2P Require Import Prelude Coding CodingFacts Messages MessagesFacts.

#[local] Open Scope outcome_scope.

Module LogTailer.
Record RestartEvent := { restart_time : Z; event_reader_id : Z; event_log_id : Z }.

#[export] Instance RestartEvent_eq_dec : EqDecision RestartEvent.
Proof. solve_decision. Defined.

(** [operator<]: lexicographic. *)
Definition event_ltb (a b : RestartEvent) : bool :=
  (restart_time a <? restart_time b) ||
  ((restart_time a =? restart_time b) &&
   ((event_reader_id a <? event_reader_id b) ||
    ((event_reader_id a =? event_reader_id b) && (event_log_id a <? event_log_id b)))).

(** [std::set<RestartEvent>]: a list in ascending order.  An iterator is the
    element it points to. *)
Abbreviation RestartEvents := (list RestartEvent).

Fixpoint emplace (e : RestartEvent) (s : RestartEvents) : RestartEvents * bool :=
  match s with
  | [] => ([e], true)
  | x :: s' =>
      if event_ltb e x then (e :: s, true)
      else if event_ltb x e then let '(s', b) := emplace e s' in (x :: s', b)
      else (s, false)
  end.

Definition AddEvent (s : RestartEvents) (at_time reader_id log_id : Z) : outcome (RestartEvents * RestartEvent) :=
  let e := {| restart_time := at_time; event_reader_id := reader_id; event_log_id := log_id |} in
  let '(s, inserted) := emplace e s in
  assert_that inserted "result.second" ;;; Ok (s, e).

Definition RemoveEvent (s : RestartEvents) (handle : RestartEvent) : outcome RestartEvents :=
  if bool_decide (handle ∈ s) then Ok (filter (fun e => e <> handle) s) else Abort "erase of an invalid iterator".

Record LogState := { next_seqno : Z; restart_event_handle : RestartEvent }.

(** The states of the open logs; the storage's reader and the callbacks, which
    are the same for all readers, are not part of the state. *)
Abbreviation Reader := (gmap Z LogState).

Inductive StorageCall :=
| Open (reader_id logid start : Z)
| Close (reader_id logid : Z).

Record t := {
  readers_ : list Reader;
  restart_events_ : RestartEvents;
  storage_ : bool;
  calls_ : list StorageCall
}.

Definition New : t := {| readers_ := []; restart_events_ := []; storage_ := true; calls_ := [] |}.

(** What the environment answers: whether the storage opened the log, and the
    time of the next restart. *)
Record Answer := { open_ok : bool; restart_at : Z }.

Definition set_reader (i : nat) (r : Reader) (s : RestartEvents) (m : t) : t :=
  {| readers_ := <[i := r]> (readers_ m); restart_events_ := s; storage_ := storage_ m; calls_ := calls_ m |}.

Definition call (c : StorageCall) (m : t) : t :=
  {| readers_ := readers_ m; restart_events_ := restart_events_ m; storage_ := storage_ m; calls_ := calls_ m ++ [c] |}.

(** [Initialize] with callbacks that are not null; [created] says how many
    readers the storage creates before it fails, if it does. *)
Definition Initialize (m : t) (num_readers : nat) (created : option nat) : outcome (t * bool) :=
  match readers_ m with
  | _ :: _ => Ok (m, true)
  | [] =>
      assert_that (storage_ m || (num_readers =? 0)%nat) "storage_" ;;;
      let with_readers n := {| readers_ := replicate n ∅; restart_events_ := restart_events_ m;
                               storage_ := storage_ m; calls_ := calls_ m |} in
      match created with
      | Some n => if (n <? num_readers)%nat then Ok (with_readers n, false) else Ok (with_readers num_readers, true)
      | None => Ok (with_readers num_readers, true)
      end
  end.

Definition Stop (m : t) : t :=
  {| readers_ := []; restart_events_ := restart_events_ m; storage_ := false; calls_ := calls_ m |}.

(** [RecordCallback] and [GapCallback] return whether the item is handed to
    the callback of the reader, which is the last thing they do. *)
Definition Callback (m : t) (log_id from to : Z) (reader_id : Z) : outcome (t * bool) :=
  match readers_ m !! Z.to_nat reader_id with
  | None => Abort "reader_id < readers_.size()"
  | Some reader =>
      match reader !! log_id with
      | None => Ok (m, false)
      | Some st =>
          if negb (next_seqno st =? from) then Ok (m, false)
          else
            let st := {| next_seqno := u64 (to + 1); restart_event_handle := restart_event_handle st |} in
            Ok (set_reader (Z.to_nat reader_id) (<[log_id := st]> reader) (restart_events_ m) m, true)
      end
  end.

Definition RecordCallback (m : t) (msg : MessageData) (log_id reader_id : Z) : outcome (t * bool) :=
  let seqno := data_seqno_ msg in Callback m log_id seqno seqno reader_id.

Definition GapCallback (m : t) (log_id gap_type from to reader_id : Z) : outcome (t * bool) :=
  Callback m log_id from to reader_id.

(** What a storage thread forwards to the thread of the tailer. *)
Inductive Forward :=
| ForwardRecord (msg : MessageData) (log_id reader_id : Z)
| ForwardGap (log_id gap_type from to reader_id : Z).

(** The callbacks for the storage: a record that cannot be parsed counts as lost. *)
Definition record_cb (log_id seqno : Z) (payload : slice) (reader_id : Z) : Forward :=
  match fst (MessageData_DeSerializeStorage MessageType.mDeliver (u64 (seqno - 1)) seqno [] payload) with
  | inr msg => ForwardRecord msg log_id reader_id
  | inl _ => ForwardGap log_id kDataLoss seqno seqno reader_id
  end.

Definition gap_cb (log_id gap_type from to reader_id : Z) : Forward := ForwardGap log_id gap_type from to reader_id.

(** The command in the thread of the tailer. *)
Definition run_forward (m : t) (f : Forward) : outcome (t * bool) :=
  match f with
  | ForwardRecord msg log_id reader_id => RecordCallback m msg log_id reader_id
  | ForwardGap log_id gap_type from to reader_id => GapCallback m log_id gap_type from to reader_id
  end.

Definition StartReading (m : t) (logid start reader_id : Z) (a : Answer) : outcome (t * bool) :=
  match readers_ m with
  | [] => Ok (m, false)
  | _ =>
      match readers_ m !! Z.to_nat reader_id with
      | None => Abort "reader_id < readers_.size()"
      | Some reader =>
          let m := call (Open reader_id logid start) m in
          if open_ok a then
            s <~ match reader !! logid with
                 | None => Ok (restart_events_ m)
                 | Some st => RemoveEvent (restart_events_ m) (restart_event_handle st)
                 end ;;
            r <~ AddEvent s (restart_at a) reader_id logid ;;
            let '(s, handle) := r in
            let st := {| next_seqno := start; restart_event_handle := handle |} in
            Ok (set_reader (Z.to_nat reader_id) (<[logid := st]> reader) s m, true)
          else Ok (m, false)
      end
  end.

(** [close_ok] is the status of the storage. *)
Definition StopReading (m : t) (logid reader_id : Z) (close_ok : bool) : outcome (t * bool) :=
  match readers_ m with
  | [] => Ok (m, false)
  | _ =>
      match readers_ m !! Z.to_nat reader_id with
      | None => Abort "readers_[reader_id]"
      | Some reader =>
          match reader !! logid with
          | None => Ok (m, true)
          | Some st =>
              s <~ RemoveEvent (restart_events_ m) (restart_event_handle st) ;;
              Ok (call (Close reader_id logid) (set_reader (Z.to_nat reader_id) (delete logid reader) s m), close_ok)
          end
      end
  end.

Definition NumberOpenLogs (m : t) : Z := fold_left (fun count reader => count + Z.of_nat (size reader)) (readers_ m) 0.

(** [Tick]: the loop restarts what is due at [now].  The [n]-th restart gets
    the [n]-th answer. *)
Fixpoint Tick_loop (fuel : nat) (now : Z) (answers : nat -> Answer) (n : nat) (m : t) : outcome t :=
  match restart_events_ m with
  | [] => Ok m
  | ev :: _ =>
      if restart_time ev <? now then
        match fuel with
        | O => Abort "fuel"
        | S fuel =>
            match readers_ m !! Z.to_nat (event_reader_id ev) with
            | None => Abort "reader_id < readers_.size()"
            | Some reader =>
                match reader !! event_log_id ev with
                | None => Abort "it != reader.log_state.end()"
                | Some st =>
                    r <~ StartReading m (event_log_id ev) (next_seqno st) (event_reader_id ev) (answers n) ;;
                    Tick_loop fuel now answers (S n) (fst r)
                end
            end
        end
      else Ok m
  end.

(** A restart that succeeds is due no more, so one round for each event is enough. *)
Definition Tick (now : Z) (answers : nat -> Answer) (m : t) : outcome t :=
  Tick_loop (length (restart_events_ m)) now answers 0 m.
End LogTailer.
