(* ===== verification/LogTailerFacts.v ===== *)
(** * Facts about the log tailer

    The set of restart events and the open logs of the readers describe each
    other, every operation keeps that, and [Tick] terminates when the storage
    opens the logs.  What the readers expect is an abstract map, in terms of
    which the operations are specified. *)

From S2P Require Import Prelude Coding CodingFacts Messages MessagesFacts LogTailer.
From Stdlib Require Import Sorted.

#[local] Open Scope outcome_scope.

Module LogTailerFacts.
Import LogTailer.

(** ** The order of events *)

Definition event_lt (a b : RestartEvent) : Prop := event_ltb a b = true.

Lemma event_lt_spec a b : event_lt a b <->
  restart_time a < restart_time b \/ (restart_time a = restart_time b /\
    (event_reader_id a < event_reader_id b \/ (event_reader_id a = event_reader_id b /\ event_log_id a < event_log_id b))).
Proof. unfold event_lt, event_ltb. lia. Qed.

Lemma event_lt_trans a b c : event_lt a b -> event_lt b c -> event_lt a c.
Proof. rewrite !event_lt_spec. lia. Qed.

Lemma event_lt_total a b : event_ltb a b = false -> event_ltb b a = false -> a = b.
Proof. unfold event_ltb. destruct a as [ta ra la], b as [tb rb lb]. cbn. intros. f_equal; lia. Qed.

Abbreviation ordered := (StronglySorted event_lt).

Lemma ordered_not_in e s : ordered (e :: s) -> e ∉ s.
Proof.
  intros [_ Hall]%StronglySorted_inv Hin. rewrite Forall_forall in Hall. apply Hall, event_lt_spec in Hin. lia.
Qed.

Lemma emplace_elem e s x : x ∈ fst (emplace e s) <-> x = e \/ x ∈ s.
Proof.
  induction s as [|y s IH]; simpl; [set_solver|].
  destruct (event_ltb e y) eqn:E1; [set_solver|]. destruct (event_ltb y e) eqn:E2.
  - destruct (emplace e s) as [s' b]. simpl in *. rewrite !elem_of_cons, IH. tauto.
  - rewrite (event_lt_total _ _ E1 E2). set_solver.
Qed.

Lemma emplace_new e s : e ∉ s -> snd (emplace e s) = true.
Proof.
  induction s as [|y s IH]; simpl; [done|]. intros [Hne Hn]%not_elem_of_cons.
  destruct (event_ltb e y) eqn:E1; [done|]. destruct (event_ltb y e) eqn:E2.
  - destruct (emplace e s). by apply IH.
  - by destruct Hne; apply event_lt_total.
Qed.

Lemma emplace_ordered e s : ordered s -> ordered (fst (emplace e s)).
Proof.
  induction s as [|y s IH]; simpl; intros Hs; [repeat constructor|]. pose proof Hs as [Hs' Hall]%StronglySorted_inv.
  destruct (event_ltb e y) eqn:E1.
  { constructor; [done|]. constructor; [done|]. eapply Forall_impl; [done|]. intros x. by apply event_lt_trans. }
  destruct (event_ltb y e) eqn:E2; [|done].
  pose proof (emplace_elem e s) as Hel. destruct (emplace e s) as [s' b]. simpl in *. constructor; [by apply IH|].
  rewrite Forall_forall in *. intros x [->|Hx]%Hel; [done|by apply Hall].
Qed.

Lemma emplace_filter (P : RestartEvent -> Prop) `{!forall x, Decision (P x)} e s : ~ P e ->
  filter P (fst (emplace e s)) = filter P s.
Proof.
  intros HP. assert (forall l, filter P (e :: l) = filter P l) as Hskip by (intros l; by rewrite filter_cons, decide_False).
  induction s as [|y s IH]; cbn [emplace]; [apply Hskip|]. destruct (event_ltb e y); [apply Hskip|].
  destruct (event_ltb y e); [|done]. destruct (emplace e s). cbn [fst] in *. by rewrite !filter_cons, IH.
Qed.

Lemma filter_ordered (P : RestartEvent -> Prop) `{!forall x, Decision (P x)} s : ordered s -> ordered (filter P s).
Proof.
  induction 1 as [|e s Hs IH Hall]; [constructor|]. rewrite filter_cons. case_decide; [|done]. constructor; [done|].
  rewrite Forall_forall in *. intros x [_ Hx]%list_elem_of_filter. by apply Hall.
Qed.

(** ** The invariant *)

Record inv (m : t) : Prop := {
  inv_ordered : ordered (restart_events_ m);
  inv_event : forall e, e ∈ restart_events_ m -> 0 <= event_reader_id e /\ exists reader st,
    readers_ m !! Z.to_nat (event_reader_id e) = Some reader /\ reader !! event_log_id e = Some st /\ restart_event_handle st = e;
  inv_state : forall i reader l st, readers_ m !! i = Some reader -> reader !! l = Some st ->
    restart_event_handle st ∈ restart_events_ m /\ event_reader_id (restart_event_handle st) = Z.of_nat i /\
    event_log_id (restart_event_handle st) = l
}.

(** The sequence number a reader expects next on a log, if the log is open. *)
Definition expected (m : t) (reader_id logid : Z) : option Z :=
  reader ← readers_ m !! Z.to_nat reader_id; st ← reader !! logid; Some (next_seqno st).

Definition in_range (m : t) (reader_id : Z) : Prop := 0 <= reader_id < Z.of_nat (length (readers_ m)).

Definition num_readers (m : t) : nat := length (readers_ m).

(** What an operation does: [E] is the new map of expected sequence numbers. *)
Record became (m m' : t) (E : Z -> Z -> option Z) : Prop := {
  b_inv : inv m';
  b_readers : num_readers m' = num_readers m;
  b_expected : forall r l, in_range m r -> expected m' r l = E r l
}.

Lemma in_range_lookup m r : in_range m r -> exists reader, readers_ m !! Z.to_nat r = Some reader.
Proof. intros Hr. apply lookup_lt_is_Some. unfold in_range in Hr. lia. Qed.

Lemma in_range_not_empty m r : in_range m r -> readers_ m <> [].
Proof. intros Hr E. unfold in_range in Hr. rewrite E in Hr. cbn in Hr. lia. Qed.

Lemma became_trans m1 m2 m3 E2 E3 : became m1 m2 E2 -> became m2 m3 E3 -> became m1 m3 E3.
Proof.
  intros [_ Hn2 _] [Hi Hn He]. split; [done|congruence|]. intros r l Hr. apply He. unfold in_range, num_readers in *. by rewrite Hn2.
Qed.

Lemma Z_to_nat_inj x y : 0 <= x -> 0 <= y -> Z.to_nat x = Z.to_nat y -> x = y.
Proof. lia. Qed.

(** The shape shared by the operations: one log of one reader gets the state
    [o], and the events change to [s]. *)
Lemma update_became m r l reader (o : option LogState) s cs :
  inv m -> in_range m r -> readers_ m !! Z.to_nat r = Some reader -> ordered s ->
  (forall e, e ∈ s <-> (e ∈ restart_events_ m /\ (restart_event_handle <$> reader !! l) <> Some e) \/
                      Some e = (restart_event_handle <$> o)) ->
  (forall st, o = Some st -> event_reader_id (restart_event_handle st) = r /\ event_log_id (restart_event_handle st) = l) ->
  became m {| readers_ := <[Z.to_nat r := partial_alter (fun _ => o) l reader]> (readers_ m); restart_events_ := s;
              storage_ := storage_ m; calls_ := cs |}
    (fun r' l' => if decide (r' = r /\ l' = l) then next_seqno <$> o else expected m r' l').
Proof.
  intros Hm Hr Hreader Hs Hel Ho. assert (Z.to_nat r < length (readers_ m))%nat as Hlt by (by eapply lookup_lt_Some). split.
  - split; cbn [restart_events_ readers_].
    + done.
    + intros e [[He Hne]|He]%Hel.
      * destruct (inv_event m Hm e He) as (H0 & reader' & st & Hl & Hst & Hh). split; [done|].
        destruct (decide (event_reader_id e = r)) as [Er|Hner].
        -- rewrite Er in *. rewrite list_lookup_insert_eq by done. rewrite Hl in Hreader. injection Hreader as <-.
           exists (partial_alter (fun _ => o) l reader'), st. split; [done|]. rewrite lookup_partial_alter_ne; [done|].
           intros ->. rewrite Hst in Hne. cbn in Hne. congruence.
        -- rewrite list_lookup_insert_ne; [by exists reader', st|]. intros Eq. apply Hner.
           symmetry. apply Z_to_nat_inj; [apply Hr|done|done].
      * destruct o as [st|]; [|done]. injection He as ->. destruct (Ho st eq_refl) as [-> ->]. split; [apply Hr|].
        rewrite list_lookup_insert_eq by done. eexists _, st. split; [done|]. by rewrite lookup_partial_alter_eq.
    + intros i reader' l' st. destruct (decide (i = Z.to_nat r)) as [->|Hne].
      * rewrite list_lookup_insert_eq by done. intros [= <-]. destruct (decide (l' = l)) as [->|Hnl].
        -- rewrite lookup_partial_alter_eq. intros ->. destruct (Ho st eq_refl) as [Er El].
           split_and!; [|rewrite Er; unfold in_range in Hr; lia|done]. apply Hel. by right.
        -- rewrite lookup_partial_alter_ne by done. intros Hst. destruct (inv_state m Hm _ _ _ _ Hreader Hst) as (Hin & Er & El).
           split_and!; [|done|done]. apply Hel. left. split; [done|]. intros Eq. destruct (reader !! l) as [st0|] eqn:E0; [|done].
           injection Eq as Eq. destruct (inv_state m Hm _ _ _ _ Hreader E0) as (_ & _ & El0). congruence.
      * rewrite list_lookup_insert_ne by done. intros Hi Hst. destruct (inv_state m Hm _ _ _ _ Hi Hst) as (Hin & Er & El).
        split_and!; [|done|done]. apply Hel. left. split; [done|]. intros Eq. destruct (reader !! l) as [st0|] eqn:E0; [|done].
        injection Eq as Eq. destruct (inv_state m Hm _ _ _ _ Hreader E0) as (_ & Er0 & _). rewrite Eq, Er in Er0. unfold in_range in Hr. lia.
  - unfold num_readers. cbn. by rewrite length_insert.
  - intros r' l' Hr'. unfold expected at 1. cbn [readers_]. destruct (decide (r' = r)) as [->|Hne].
    + rewrite list_lookup_insert_eq by done. cbn [mbind option_bind]. destruct (decide (l' = l)) as [->|Hnl].
      * rewrite lookup_partial_alter_eq. rewrite decide_True by done. by destruct o.
      * rewrite lookup_partial_alter_ne by done. rewrite decide_False by tauto. unfold expected. by rewrite Hreader.
    + rewrite decide_False by tauto. rewrite list_lookup_insert_ne; [done|]. intros Eq. apply Hne. symmetry.
      apply Z_to_nat_inj; [apply Hr|apply Hr'|done].
Qed.

Lemma became_refl m : inv m -> became m m (expected m).
Proof. by split. Qed.

Lemma became_call m m' E c : became m m' E -> became m (call c m') E.
Proof. intros [[? ? ?] ? ?]. by split. Qed.

(** A log that is set or closed, by reader and log. *)
Definition expect (r l : Z) (o : option Z) (E : Z -> Z -> option Z) : Z -> Z -> option Z :=
  fun r' l' => if decide (r' = r /\ l' = l) then o else E r' l'.

(** ** The operations *)

Lemma Callback_spec m l from to r : inv m -> in_range m r ->
  exists m', Callback m l from to r = Ok (m', bool_decide (expected m r l = Some from)) /\
    became m m' (if bool_decide (expected m r l = Some from) then expect r l (Some (u64 (to + 1))) (expected m) else expected m) /\
    restart_events_ m' = restart_events_ m /\ calls_ m' = calls_ m.
Proof.
  intros Hm Hr. destruct (in_range_lookup m r Hr) as [reader Hreader]. unfold Callback.
  assert (expected m r l = st ← reader !! l; Some (next_seqno st)) as Hexp by (unfold expected; by rewrite Hreader).
  rewrite Hexp, Hreader. clear Hexp. destruct (reader !! l) as [st|] eqn:Hst; cbn [mbind option_bind].
  2: { exists m. by split_and!; [|apply became_refl| |]. }
  case_bool; cbn [negb].
  2: { rewrite bool_decide_eq_false_2 by congruence. exists m. by split_and!; [|apply became_refl| |]. }
  rewrite bool_decide_eq_true_2 by congruence. eexists. split_and!; [done| |done|done].
  destruct (inv_state m Hm _ _ _ _ Hreader Hst) as (Hin & Er & El).
  apply (update_became m r l reader (Some {| next_seqno := u64 (to + 1); restart_event_handle := restart_event_handle st |})); try done.
  - apply Hm.
  - intros x. rewrite Hst. cbn. destruct (decide (x = restart_event_handle st)) as [->|]; naive_solver.
  - intros ? [= <-]. cbn. unfold in_range in Hr. split; [lia|done].
Qed.

Lemma RemoveEvent_spec s e : e ∈ s -> RemoveEvent s e = Ok (filter (fun x => x <> e) s).
Proof. intros He. unfold RemoveEvent. by rewrite bool_decide_eq_true_2. Qed.

Lemma AddEvent_spec s at_time r l : (forall e, e ∈ s -> ~ (event_reader_id e = r /\ event_log_id e = l)) ->
  let e := {| restart_time := at_time; event_reader_id := r; event_log_id := l |} in
  AddEvent s at_time r l = Ok (fst (emplace e s), e).
Proof.
  intros Hs e. assert (e ∉ s) as Hn by (intros He; by apply (Hs e He)). unfold AddEvent.
  apply emplace_new in Hn. fold e. destruct (emplace e s). cbn in *. by rewrite Hn.
Qed.

(** The events left when a log is closed or started anew. *)
Definition without (m : t) (r l : Z) : RestartEvents :=
  filter (fun e => ~ (event_reader_id e = r /\ event_log_id e = l)) (restart_events_ m).

Lemma without_elem m r l e reader : inv m -> in_range m r -> readers_ m !! Z.to_nat r = Some reader ->
  e ∈ without m r l <-> e ∈ restart_events_ m /\ (restart_event_handle <$> reader !! l) <> Some e.
Proof.
  intros Hm Hr Hreader. unfold without. rewrite list_elem_of_filter. split.
  - intros [Hne He]. split; [done|]. intros Eq. destruct (reader !! l) as [st|] eqn:Hst; [|done]. injection Eq as <-.
    destruct (inv_state m Hm _ _ _ _ Hreader Hst) as (_ & Er & El). apply Hne. unfold in_range in Hr. split; [lia|done].
  - intros [He Hne]. split; [|done]. intros [<- <-]. destruct (inv_event m Hm e He) as (_ & reader' & st & Hl & Hst & Hh).
    rewrite Hl in Hreader. injection Hreader as <-. rewrite Hst in Hne. cbn in Hne. congruence.
Qed.

Lemma without_spec m r l reader : inv m -> in_range m r -> readers_ m !! Z.to_nat r = Some reader ->
  match reader !! l with
  | None => Ok (restart_events_ m)
  | Some st => RemoveEvent (restart_events_ m) (restart_event_handle st)
  end = Ok (without m r l).
Proof.
  intros Hm Hr Hreader. pose proof (fun e => without_elem m r l e reader Hm Hr Hreader) as Hel.
  destruct (reader !! l) as [st|] eqn:Hst.
  - rewrite RemoveEvent_spec by apply (inv_state m Hm _ _ _ _ Hreader Hst). f_equal. unfold without.
    apply filter_ext_in. intros e He. specialize (Hel e). cbn in Hel. unfold without in Hel.
    rewrite list_elem_of_filter in Hel. naive_solver.
  - f_equal. unfold without. symmetry. apply filter_all. intros e He. specialize (Hel e). cbn in Hel. unfold without in Hel.
    rewrite list_elem_of_filter in Hel. naive_solver.
Qed.

Lemma LogTailer_StartReading_spec m l start r a : inv m -> in_range m r ->
  exists m', StartReading m l start r a = Ok (m', open_ok a) /\
    became m m' (if open_ok a then expect r l (Some start) (expected m) else expected m) /\
    restart_events_ m' = (if open_ok a then fst (emplace {| restart_time := restart_at a; event_reader_id := r; event_log_id := l |} (without m r l))
                          else restart_events_ m) /\
    calls_ m' = calls_ m ++ [Open r l start].
Proof.
  intros Hm Hr. destruct (in_range_lookup m r Hr) as [reader Hreader]. unfold StartReading.
  destruct (readers_ m) as [|r0 rs] eqn:Hne; [by destruct (in_range_not_empty m r Hr)|]. rewrite <-Hne in *. clear Hne.
  rewrite Hreader. destruct (open_ok a).
  2: { eexists. split_and!; [done|by apply became_call, became_refl|done|done]. }
  cbn [restart_events_ call]. rewrite (without_spec m r l reader) by done. cbn [obind].
  rewrite AddEvent_spec; [|intros e; unfold without; rewrite list_elem_of_filter; naive_solver].
  cbn [obind]. set (e := {| restart_time := _ |}). eexists. split_and!; [done| |done|done].
  apply (update_became m r l reader (Some {| next_seqno := start; restart_event_handle := e |})); try done.
  - apply emplace_ordered, filter_ordered, Hm.
  - intros x. rewrite emplace_elem, (without_elem m r l x reader Hm Hr Hreader). cbn. naive_solver.
  - by intros ? [= <-].
Qed.

Lemma LogTailer_StopReading_spec m l r close_ok : inv m -> in_range m r ->
  exists m' b, StopReading m l r close_ok = Ok (m', b) /\ became m m' (expect r l None (expected m)) /\
    restart_events_ m' = without m r l.
Proof.
  intros Hm Hr. destruct (in_range_lookup m r Hr) as [reader Hreader]. unfold StopReading.
  destruct (readers_ m) as [|r0 rs] eqn:Hne; [by destruct (in_range_not_empty m r Hr)|]. rewrite <-Hne in *. clear Hne.
  rewrite Hreader. pose proof (without_spec m r l reader Hm Hr Hreader) as Hw. destruct (reader !! l) as [st|] eqn:Hst.
  - rewrite Hw. cbn [obind]. eexists _, _. split_and!; [done| |done]. apply became_call.
    apply (update_became m r l reader None); try done; [apply filter_ordered, Hm|].
    intros x. rewrite (without_elem m r l x reader Hm Hr Hreader). cbn. naive_solver.
  - injection Hw as Hw. exists m, true. split_and!; [done| |done]. split; [done|done|]. intros r' l' _. unfold expect.
    case_decide as Hd; [|done]. destruct Hd as [-> ->]. unfold expected. rewrite Hreader. cbn [mbind option_bind]. by rewrite Hst.
Qed.

(** ** Restarts *)

Definition due (now : Z) (m : t) : list RestartEvent := filter (fun e => restart_time e < now) (restart_events_ m).

(** The call that restarts the log of an event where its reader is. *)
Definition reopen (m : t) (e : RestartEvent) : StorageCall :=
  Open (event_reader_id e) (event_log_id e) (default 0 (expected m (event_reader_id e) (event_log_id e))).

Lemma event_in_range m e : inv m -> e ∈ restart_events_ m -> in_range m (event_reader_id e).
Proof.
  intros Hm He. destruct (inv_event m Hm e He) as (H0 & reader & st & Hl & _). apply lookup_lt_Some in Hl. unfold in_range. lia.
Qed.

Lemma event_unique m e e' : inv m -> e ∈ restart_events_ m -> e' ∈ restart_events_ m ->
  event_reader_id e = event_reader_id e' -> event_log_id e = event_log_id e' -> e = e'.
Proof.
  intros Hm He He' Hr Hl. destruct (inv_event m Hm e He) as (_ & reader & st & H1 & H2 & <-).
  destruct (inv_event m Hm e' He') as (_ & reader' & st' & H1' & H2' & <-). rewrite Hr in H1. rewrite Hl in H2. congruence.
Qed.

Lemma without_head m ev rest : inv m -> restart_events_ m = ev :: rest -> without m (event_reader_id ev) (event_log_id ev) = rest.
Proof.
  intros Hm Hev. unfold without. rewrite Hev, filter_cons, decide_False by naive_solver. apply filter_all.
  intros e He [Hr Hl]. pose proof (inv_ordered m Hm) as Ho. rewrite Hev in Ho. apply (ordered_not_in _ _ Ho).
  rewrite (event_unique m ev e Hm) by (rewrite ?Hev; set_solver). done.
Qed.

Lemma not_due_rest now ev rest : ordered (ev :: rest) -> now <= restart_time ev -> filter (fun e => restart_time e < now) (ev :: rest) = [].
Proof.
  intros [_ Hall]%StronglySorted_inv Hle. rewrite Forall_forall in Hall.
  apply elem_of_nil_inv. intros e [Hlt [->|He]%elem_of_cons]%list_elem_of_filter; [lia|].
  apply Hall, event_lt_spec in He. lia.
Qed.

Lemma Tick_loop_spec now answers fuel n m : inv m -> (forall k, open_ok (answers k) = true /\ now <= restart_at (answers k)) ->
  (length (due now m) <= fuel)%nat ->
  exists m', Tick_loop fuel now answers n m = Ok m' /\ became m m' (expected m) /\ due now m' = [] /\
    calls_ m' = calls_ m ++ map (reopen m) (due now m).
Proof.
  revert n m. induction fuel as [fuel IH] using lt_wf_ind. intros n m Hm Ha Hfuel.
  destruct (restart_events_ m) as [|ev rest] eqn:Hev.
  { exists m. unfold due in *. rewrite Hev. split_and!; [by destruct fuel; simpl; rewrite Hev|by apply became_refl|done|by rewrite app_nil_r]. }
  destruct (Z.ltb_spec (restart_time ev) now) as [Hdue|Hle].
  2: { assert (due now m = []) as Hd by (unfold due; rewrite Hev; apply not_due_rest; [rewrite <-Hev; apply Hm|done]).
       exists m. rewrite Hd. split_and!; [|by apply became_refl|done|by rewrite app_nil_r].
       destruct fuel; simpl; rewrite Hev; by rewrite (proj2 (Z.ltb_ge _ _)). }
  assert (due now m = ev :: filter (fun e => restart_time e < now) rest) as Hd by (unfold due; by rewrite Hev, filter_cons, decide_True).
  rewrite Hd in Hfuel. destruct fuel as [|fuel]; [simpl in Hfuel; lia|]. simpl. rewrite Hev, (proj2 (Z.ltb_lt _ _) Hdue).
  assert (ev ∈ restart_events_ m) as Hin by (rewrite Hev; set_solver).
  pose proof (event_in_range m ev Hm Hin) as Hr. destruct (inv_event m Hm ev Hin) as (_ & reader & st & Hreader & Hst & Hh).
  rewrite Hreader, Hst. destruct (Ha n) as [Hok Hat].
  assert (expected m (event_reader_id ev) (event_log_id ev) = Some (next_seqno st)) as Hexp.
  { unfold expected. rewrite Hreader. cbn [mbind option_bind]. by rewrite Hst. }
  destruct (LogTailer_StartReading_spec m (event_log_id ev) (next_seqno st) (event_reader_id ev) (answers n) Hm Hr) as (m1 & E1 & Hb & He1 & Hc1).
  rewrite E1, Hok in *. cbn [obind fst]. rewrite (without_head m ev rest Hm Hev) in He1.
  assert (forall r l, in_range m r -> expected m1 r l = expected m r l) as Hsame.
  { intros r l Hrl. rewrite (b_expected _ _ _ Hb r l Hrl). unfold expect. case_decide as Hx; [|done]. by destruct Hx as [-> ->]. }
  assert (due now m1 = filter (fun e => restart_time e < now) rest) as Hd1.
  { unfold due. rewrite He1. apply emplace_filter. cbn. lia. }
  destruct (IH fuel ltac:(lia) (S n) m1 (b_inv _ _ _ Hb) Ha ltac:(rewrite Hd1; simpl in Hfuel; lia)) as (m2 & E2 & Hb2 & Hd2 & Hc2).
  exists m2. split; [done|]. split; [|split; [done|]].
  - destruct (became_trans _ _ _ _ _ Hb Hb2) as [? ? Hx]. split; [done|done|]. intros r l Hrl. rewrite Hx by done. by apply Hsame.
  - rewrite Hc2, Hc1, Hd, Hd1. cbn [map]. rewrite <-app_assoc. f_equal. cbn [app]. f_equal.
    + unfold reopen. by rewrite Hexp.
    + apply map_ext_in. intros e He%list_elem_of_In. unfold reopen. rewrite Hsame; [done|].
      apply event_in_range; [done|]. rewrite Hev. apply list_elem_of_filter in He. set_solver.
Qed.

(** ** Sequences of forwarded items *)

Fixpoint run_forwards (m : t) (fs : list Forward) : outcome (t * list Forward) :=
  match fs with
  | [] => Ok (m, [])
  | f :: fs =>
      r <~ run_forward m f ;;
      let '(m, handed) := r in
      r <~ run_forwards m fs ;;
      let '(m, out) := r in
      Ok (m, if handed : bool then f :: out else out)
  end.

Definition forward_reader (f : Forward) : Z :=
  match f with ForwardRecord _ _ r => r | ForwardGap _ _ _ _ r => r end.

(** The range of sequence numbers of an item of a reader and log. *)
Definition range_of (r l : Z) (f : Forward) : option (Z * Z) :=
  match f with
  | ForwardRecord msg l' r' => if decide (r' = r /\ l' = l) then Some (data_seqno_ msg, data_seqno_ msg) else None
  | ForwardGap l' _ from to r' => if decide (r' = r /\ l' = l) then Some (from, to) else None
  end.

Definition ranges (r l : Z) (fs : list Forward) : list (Z * Z) := omap (range_of r l) fs.

(** Ranges that follow each other without holes or overlaps, from where the
    first is expected to where the next one is. *)
Inductive chain : option Z -> list (Z * Z) -> option Z -> Prop :=
| chain_nil o : chain o [] o
| chain_cons from to rs o : chain (Some (u64 (to + 1))) rs o -> chain (Some from) ((from, to) :: rs) o.

Lemma run_forward_spec m f : inv m -> in_range m (forward_reader f) ->
  exists m' b, run_forward m f = Ok (m', b) /\ inv m' /\ num_readers m' = num_readers m /\
    forall r l, in_range m r ->
      match range_of r l f with
      | Some (from, to) => b = bool_decide (expected m r l = Some from) /\
          expected m' r l = if b then Some (u64 (to + 1)) else expected m r l
      | None => expected m' r l = expected m r l
      end.
Proof.
  intros Hm Hr. set (F := match f with ForwardRecord d l _ => (l, data_seqno_ d, data_seqno_ d) | ForwardGap l _ from to _ => (l, from, to) end).
  assert (run_forward m f = Callback m (F.1.1) (F.1.2) (F.2) (forward_reader f)) as -> by (by destruct f).
  assert (forall r l, range_of r l f = if decide (forward_reader f = r /\ F.1.1 = l) then Some (F.1.2, F.2) else None) as Hrange by (by destruct f).
  destruct (Callback_spec m F.1.1 F.1.2 F.2 (forward_reader f) Hm Hr) as (m' & E & Hb & _). exists m', (bool_decide (expected m (forward_reader f) F.1.1 = Some F.1.2)).
  split; [done|]. destruct Hb as [Hi Hn He]. split; [done|]. split; [done|]. intros r l Hrl. rewrite Hrange, (He r l Hrl). unfold expect.
  case_bool_decide; repeat case_decide; naive_solver.
Qed.

Lemma run_forwards_spec m fs : inv m -> (forall f, f ∈ fs -> in_range m (forward_reader f)) ->
  exists m' out, run_forwards m fs = Ok (m', out) /\ inv m' /\ out `sublist_of` fs /\
    forall r l, in_range m r -> chain (expected m r l) (ranges r l out) (expected m' r l) /\
      forall o, chain (expected m r l) (ranges r l fs) o -> ranges r l out = ranges r l fs /\ expected m' r l = o.
Proof.
  revert m. induction fs as [|f fs IH]; intros m Hm Hfs.
  { exists m, []. split_and!; try done. intros r l _. split; [constructor|]. intros o Hc. by inversion Hc. }
  destruct (run_forward_spec m f Hm ltac:(set_solver)) as (m1 & b & E & Hm1 & Hn & Hr1).
  assert (forall r, in_range m1 r <-> in_range m r) as Hin by (intros r; unfold in_range, num_readers in *; by rewrite Hn).
  destruct (IH m1 Hm1 ltac:(intros f' Hf'; apply Hin; set_solver)) as (m2 & out & E2 & Hm2 & Hsub & Hr2).
  exists m2, (if b then f :: out else out). cbn [run_forwards]. rewrite E. cbn [obind]. rewrite E2. split_and!; [done|done|by destruct b; constructor|].
  intros r l Hrl. specialize (Hr1 r l Hrl). destruct (Hr2 r l ltac:(by apply Hin)) as [Hc Hall].
  assert (forall k, ranges r l (f :: k) = match range_of r l f with Some x => x :: ranges r l k | None => ranges r l k end) as Hcons by done.
  rewrite Hcons. destruct (range_of r l f) as [[from to]|] eqn:Hf.
  - destruct Hr1 as [-> He]. case_bool_decide as Hx.
    + rewrite Hcons, Hx. rewrite He in Hc, Hall. split; [by constructor|]. intros o Ho. inversion Ho as [|? ? ? ? Ho' ]; subst.
      destruct (Hall o Ho') as [-> ->]. done.
    + rewrite He in Hc, Hall. split; [done|]. intros o Ho. inversion Ho. congruence.
  - rewrite Hr1 in Hc, Hall. assert (ranges r l (if b then f :: out else out) = ranges r l out) as -> by (destruct b; [by rewrite Hcons|done]).
    split; [done|]. exact Hall.
Qed.

(** ** Reachable states *)

(** What a tailer of [n] readers gets to by any sequence of operations,
    whatever the storage answers. *)
Inductive reachable (n : nat) : t -> Prop :=
| reach_init m : Initialize New n None = Ok (m, true) -> reachable n m
| reach_start m l start r a m' b : reachable n m -> 0 <= r < Z.of_nat n -> StartReading m l start r a = Ok (m', b) -> reachable n m'
| reach_stop m l r c m' b : reachable n m -> 0 <= r < Z.of_nat n -> StopReading m l r c = Ok (m', b) -> reachable n m'
| reach_forward m f m' b : reachable n m -> 0 <= forward_reader f < Z.of_nat n -> run_forward m f = Ok (m', b) -> reachable n m'
| reach_tick m now answers m' : reachable n m -> Tick now answers m = Ok m' -> reachable n m'.

Lemma Tick_loop_inv fuel now answers n m m' : inv m -> Tick_loop fuel now answers n m = Ok m' ->
  inv m' /\ num_readers m' = num_readers m.
Proof.
  revert n m. induction fuel as [|fuel IH]; intros n m Hm; simpl; destruct (restart_events_ m) as [|ev rest] eqn:Hev;
    try (by intros [= <-]); case_bool; try done; try (by intros [= <-]).
  destruct (readers_ m !! Z.to_nat (event_reader_id ev)) as [reader|]; [|done]. destruct (reader !! event_log_id ev) as [st|]; [|done].
  assert (ev ∈ restart_events_ m) as Hin by (rewrite Hev; set_solver).
  destruct (LogTailer_StartReading_spec m (event_log_id ev) (next_seqno st) (event_reader_id ev) (answers n) Hm (event_in_range m ev Hm Hin))
    as (m1 & E1 & [Hm1 Hn1 _] & _). rewrite E1. cbn [obind fst]. intros [? Hn]%IH; [|done]. split; [done|congruence].
Qed.

Lemma reachable_inv n m : reachable n m -> inv m /\ num_readers m = n.
Proof.
  induction 1 as [m E|m l start r a m' b _ [Hm Hn] Hr E|m l r c m' b _ [Hm Hn] Hr E|m f m' b _ [Hm Hn] Hr E|m now answers m' _ [Hm Hn] E].
  - injection E as <-. unfold num_readers. cbn. rewrite length_replicate. split; [|done]. split; cbn.
    + constructor.
    + by intros e ?%elem_of_nil.
    + intros i reader l st [-> _]%lookup_replicate. by rewrite lookup_empty.
  - destruct (LogTailer_StartReading_spec m l start r a Hm ltac:(unfold in_range, num_readers in *; lia)) as (m1 & E1 & [Hm1 Hn1 _] & _).
    rewrite E in E1. injection E1 as -> _. split; [done|congruence].
  - destruct (LogTailer_StopReading_spec m l r c Hm ltac:(unfold in_range, num_readers in *; lia)) as (m1 & b1 & E1 & [Hm1 Hn1 _] & _).
    rewrite E in E1. injection E1 as -> _. split; [done|congruence].
  - destruct (run_forward_spec m f Hm ltac:(unfold in_range, num_readers in *; lia)) as (m1 & b1 & E1 & Hm1 & Hn1 & _).
    rewrite E in E1. injection E1 as -> _. split; [done|congruence].
  - apply Tick_loop_inv in E; [|done]. destruct E. split; [done|congruence].
Qed.

Lemma reachable_in_range n m r : reachable n m -> 0 <= r < Z.of_nat n -> in_range m r.
Proof. intros [_ Hn]%reachable_inv Hr. unfold in_range, num_readers in *. lia. Qed.

(** ** Properties *)

(** C34: the log tailer repairs the order of what the storage delivers.
    Whatever items the threads of the storage forward, in any order, to readers
    that were opened, moved and closed in any way: the items handed to a reader
    for a log are contiguous, without holes, repetitions or overlaps, from the
    sequence number at which the reader stands; and when the items come in order
    already, none is held back. *)
Theorem LogTailer_in_order n m fs : reachable n m -> (forall f, f ∈ fs -> 0 <= forward_reader f < Z.of_nat n) ->
  exists m' out, run_forwards m fs = Ok (m', out) /\ out `sublist_of` fs /\
    forall r l, 0 <= r < Z.of_nat n -> chain (expected m r l) (ranges r l out) (expected m' r l) /\
      forall o, chain (expected m r l) (ranges r l fs) o -> ranges r l out = ranges r l fs /\ expected m' r l = o.
Proof.
  intros Hm Hfs. destruct (reachable_inv n m Hm) as [Hi _].
  destruct (run_forwards_spec m fs Hi ltac:(eauto using reachable_in_range)) as (m' & out & E & _ & Hs & Hc).
  exists m', out. split; [done|]. split; [done|]. intros r l Hr. apply Hc. by eapply reachable_in_range.
Qed.

(** C35: [Tick] terminates and restarts what is due.  In every reachable state,
    when the storage opens the logs and restarts are scheduled from now on, the
    loop ends, the assertions about readers and events hold, each log that was
    due is opened again where its reader stands, exactly once and in the order
    of the times, no reader moves, and nothing is left that is due. *)
Theorem Tick_restarts_due n m now answers : reachable n m ->
  (forall k, open_ok (answers k) = true /\ now <= restart_at (answers k)) ->
  exists m', Tick now answers m = Ok m' /\ due now m' = [] /\ calls_ m' = calls_ m ++ map (reopen m) (due now m) /\
    forall r l, 0 <= r < Z.of_nat n -> expected m' r l = expected m r l.
Proof.
  intros Hm Ha. destruct (reachable_inv n m Hm) as [Hi _].
  destruct (Tick_loop_spec now answers (length (restart_events_ m)) 0 m Hi Ha ltac:(apply length_filter)) as (m' & E & [_ _ He] & Hd & Hc).
  exists m'. split_and!; [done..|]. intros r l Hr. apply He. by eapply reachable_in_range.
Qed.

(** [Tick] does not end while the storage fails.  When a restart is due
    and opening its log fails, the event stays where it is and is taken again:
    the loop exceeds any number of rounds for as long as the storage fails, and
    blocks the thread of the room. *)
Theorem Tick_spins n m now answers ev rest fuel : reachable n m -> restart_events_ m = ev :: rest -> restart_time ev < now ->
  (forall k, open_ok (answers k) = false) -> Tick_loop fuel now answers 0 m = Abort "fuel".
Proof.
  intros Hm Hev Hdue Ha. destruct (reachable_inv n m Hm) as [Hi _]. clear Hm. generalize 0%nat as k.
  revert m Hev Hi. induction fuel as [|fuel IH]; intros m Hev Hi k; simpl; rewrite Hev, (proj2 (Z.ltb_lt _ _) Hdue); [done|].
  assert (ev ∈ restart_events_ m) as Hin by (rewrite Hev; set_solver).
  destruct (inv_event m Hi ev Hin) as (_ & reader & st & Hreader & Hst & _). rewrite Hreader, Hst.
  destruct (LogTailer_StartReading_spec m (event_log_id ev) (next_seqno st) (event_reader_id ev) (answers k) Hi (event_in_range m ev Hi Hin))
    as (m1 & E1 & [Hm1 _ _] & He1 & _). rewrite E1, Ha in *. cbn [obind fst]. apply IH; [congruence|done].
Qed.

(** Two readers; the first reads log 7 from 5 and is due at 10. *)
Definition start_first : outcome (t * bool) :=
  r <~ Initialize New 2 None ;; StartReading (fst r) 7 5 0 {| open_ok := true; restart_at := 10 |}.
Definition small_tailer : t := match start_first with Ok (m, _) => m | Abort _ => New end.

Lemma example_reachable : reachable 2 small_tailer.
Proof. eapply (reach_start 2 _ 7 5 0 {| open_ok := true; restart_at := 10 |}); [by apply reach_init|lia|vm_compute; reflexivity]. Qed.

(** A stale gap, the expected one, and another reader's. *)
Definition example_forwards : list Forward :=
  [ForwardGap 7 kBenign 3 4 0; ForwardGap 7 kBenign 5 8 0; ForwardGap 7 kBenign 5 8 1].

Lemma LogTailer_in_order_witness : exists m' out, run_forwards small_tailer example_forwards = Ok (m', out) /\
  ranges 0 7 out = [(5, 8)] /\ chain (Some 5) (ranges 0 7 out) (expected m' 0 7).
Proof.
  destruct (LogTailer_in_order 2 small_tailer example_forwards example_reachable) as (m' & out & E & _ & Hc).
  { intros f. unfold example_forwards. rewrite !elem_of_cons, elem_of_nil. intros [->|[->|[->|[]]]]; cbn; lia. }
  exists m', out. split; [done|]. split; [|exact (proj1 (Hc 0 7 ltac:(lia)))].
  vm_compute in E. injection E as _ <-. reflexivity.
Defined.

Lemma Tick_restarts_due_witness : exists m', Tick 20 (fun _ => {| open_ok := true; restart_at := 30 |}) small_tailer = Ok m' /\
  due 20 m' = [] /\ calls_ m' = [Open 0 7 5; Open 0 7 5].
Proof.
  destruct (Tick_restarts_due 2 small_tailer 20 (fun _ => {| open_ok := true; restart_at := 30 |}) example_reachable) as (m' & E & Hd & Hc & _).
  { intros k. cbn. split; [done|lia]. }
  exists m'. split; [done|]. split; [done|]. rewrite Hc. vm_compute. reflexivity.
Defined.

Lemma Tick_spins_witness : Tick_loop 1000 20 (fun _ => {| open_ok := false; restart_at := 0 |}) 0 small_tailer = Abort "fuel".
Proof.
  apply (Tick_spins 2 small_tailer 20 (fun _ => {| open_ok := false; restart_at := 0 |})
    {| restart_time := 10; event_reader_id := 0; event_log_id := 7 |} [] 1000 example_reachable); [reflexivity|cbn; lia|done].
Defined.
End LogTailerFacts.
