(* ===== verification/TailerLink.v ===== *)
(** * Readers and the log tailer, in step

    The log tailer keeps, for each reader and open log, the sequence number it
    will hand on next; the topic tailer keeps the position of the reader.  This
    file relates the two: [linked self E] says that [E], what the log tailer
    expects, is what the readers of [self] say; and each handler of the topic
    tailer keeps the relation, when [E] follows the calls the handler makes. *)

From S2P Require Import Prelude Coding CodingFacts Messages Containers LRUCache Bloom DataCache DataCacheVisit.
From S2P Require Import TopicManager LogReader LogReaderFacts TopicTailer LogTailer LogTailerFacts.

#[local] Open Scope outcome_scope.

(** What the log tailer should expect for a reader: the sequence number after
    its position, while it is reading. *)
Definition view (r : LogReader) (l : Z) : option Z :=
  st ← log_state_ r !! l; if is_reading st then Some (u64 (last_read st + 1)) else None.

Abbreviation expectation := (Z -> Z -> option Z).

Abbreviation expect := LogTailerFacts.expect.

Definition call_effect (c : TailerCall) (E : expectation) : expectation :=
  match c with
  | TailerStartReading l q r => expect r l (Some q) E
  | TailerStopReading l r => expect r l None E
  end.

Definition event_effect (E : expectation) (e : event) : expectation :=
  match e with Tailer c => call_effect c E | _ => E end.

Definition effects (es : list event) (E : expectation) : expectation := fold_left event_effect es E.

Lemma effects_app es es' E : effects (es ++ es') E = effects es' (effects es E).
Proof. apply fold_left_app. Qed.

Definition quiet (e : event) : Prop := match e with Tailer _ => False | _ => True end.

Lemma effects_quiet es E : Forall quiet es -> effects es E = E.
Proof. intros H. revert E. induction H as [|[] es He _ IH]; intros E; cbn in *; auto. done. Qed.

(** The relation, at all readers and logs but [W]: there only whether the log
    is being read agrees. *)
Record linked (W : option (nat * Z)) (self : TopicTailer) (E : expectation) : Prop := {
  lk_id : forall i r, log_readers_ self !! i = Some r -> reader_id_ r = Z.of_nat i /\ IsVirtual r = false;
  lk_view : forall i r l, log_readers_ self !! i = Some r -> W <> Some (i, l) -> E (Z.of_nat i) l = view r l;
  lk_weak : forall i r l, log_readers_ self !! i = Some r -> is_Some (E (Z.of_nat i) l) <-> is_Some (view r l);
  lk_pending : IsVirtual (pending_reader_ self) = true /\
    forall l st, log_state_ (pending_reader_ self) !! l = Some st -> is_reading st = true
}.

(** The calls among the events are for one of [n] readers. *)
Definition call_reader (c : TailerCall) : Z :=
  match c with TailerStartReading _ _ r => r | TailerStopReading _ r => r end.

Definition addressed (n : nat) (e : event) : Prop :=
  match e with Tailer c => 0 <= call_reader c < Z.of_nat n | _ => True end.

Definition count (self : TopicTailer) : nat := length (log_readers_ self).

(** A step keeps the relation, and where the virtual reader stays as it is. *)
Definition leads (W W' : option (nat * Z)) (self self' : TopicTailer) : Prop :=
  exists es, trace_ self' = trace_ self ++ es /\ count self' = count self /\
    forall E, linked W self E -> linked W' self' (effects es E) /\ Forall (addressed (count self)) es.

Definition steady (W W' : option (nat * Z)) (self self' : TopicTailer) : Prop :=
  leads W W' self self' /\ pending_reader_ self' = pending_reader_ self.

Lemma leads_refl W self : leads W W self self.
Proof. exists []. split; [by rewrite app_nil_r|]. auto. Qed.

Lemma leads_trans W1 W2 W3 s1 s2 s3 : leads W1 W2 s1 s2 -> leads W2 W3 s2 s3 -> leads W1 W3 s1 s3.
Proof.
  intros (es & Ht & Hn & H) (es' & Ht' & Hn' & H'). exists (es ++ es'). split; [by rewrite Ht', Ht, app_assoc|]. split; [congruence|].
  intros E HE. destruct (H E HE) as [HE1 Ha]. destruct (H' _ HE1) as [HE2 Ha']. rewrite effects_app. split; [done|].
  apply Forall_app. by rewrite <-Hn at 2.
Qed.

Lemma steady_refl W self : steady W W self self.
Proof. split; [apply leads_refl|done]. Qed.

Lemma steady_trans W1 W2 W3 s1 s2 s3 : steady W1 W2 s1 s2 -> steady W2 W3 s2 s3 -> steady W1 W3 s1 s3.
Proof. intros [H E] [H' E']. split; [by eapply leads_trans|congruence]. Qed.

(** Steps that touch neither the readers nor the log tailer. *)
Definition silent (self self' : TopicTailer) : Prop :=
  log_readers_ self' = log_readers_ self /\ pending_reader_ self' = pending_reader_ self /\
  exists es, trace_ self' = trace_ self ++ es /\ Forall quiet es.

Lemma silent_steady W self self' : silent self self' -> steady W W self self'.
Proof.
  intros (Hr & Hp & es & Ht & Hq). split; [|done]. exists es. split; [done|]. split; [unfold count; by rewrite Hr|].
  intros E [? ? ? ?]. rewrite effects_quiet by done. split; [split; rewrite ?Hr, ?Hp; done|].
  eapply Forall_impl; [exact Hq|]. by intros [].
Qed.

Lemma silent_refl self : silent self self.
Proof. split_and!; try done. exists []. by rewrite app_nil_r. Qed.

Lemma silent_trans s1 s2 s3 : silent s1 s2 -> silent s2 s3 -> silent s1 s3.
Proof.
  intros (Hr & Hp & es & Ht & Hq) (Hr' & Hp' & es' & Ht' & Hq'). split_and!; [congruence..|]. exists (es ++ es').
  split; [by rewrite Ht', Ht, app_assoc|by apply Forall_app].
Qed.

(** A field other than the readers and the trace is set. *)
Lemma silent_field self self' : log_readers_ self' = log_readers_ self -> pending_reader_ self' = pending_reader_ self ->
  trace_ self' = trace_ self -> silent self self'.
Proof. intros. split_and!; [done..|]. exists []. by rewrite app_nil_r. Qed.

Lemma silent_emit self es : Forall quiet es -> silent self (emit es self).
Proof. intros. split_and!; [done..|]. by exists es. Qed.

Create HintDb link.
#[export] Hint Resolve silent_refl silent_emit Forall_nil_2 Forall_cons_2 : link.
#[export] Hint Extern 2 (quiet _) => exact I : link.
#[export] Hint Extern 3 (silent _ _) => (apply silent_field; reflexivity) : link.

(** ** Steps of a reader *)

Lemma emit_no_events self : emit [] self = self.
Proof. destruct self. unfold emit. cbn. by rewrite app_nil_r. Qed.

(** A step of a reader at a log: without calls nothing changes, and otherwise
    the one call says what is to be expected. *)
Definition turned (l : Z) (r r' : LogReader) (calls : list TailerCall) : Prop :=
  reader_id_ r' = reader_id_ r /\ IsVirtual r' = IsVirtual r /\ (forall l', l' <> l -> view r' l' = view r l') /\
  ((calls = [] /\ view r' l = view r l) \/
   (exists c, calls = [c] /\ call_reader c = reader_id_ r /\ forall E, call_effect c E = expect (reader_id_ r) l (view r' l) E)).

Lemma linked_reader W self E i r r' (o : option Z) W' es l :
  linked W self E -> log_readers_ self !! i = Some r -> reader_id_ r' = reader_id_ r -> IsVirtual r' = IsVirtual r ->
  (forall l', l' <> l -> view r' l' = view r l') -> (W' <> Some (i, l) -> o = view r' l) -> (is_Some o <-> is_Some (view r' l)) ->
  (forall x, W' <> Some x -> x <> (i, l) -> W <> Some x) ->
  linked W' (emit es (set_reader (Some i) r' self)) (expect (Z.of_nat i) l o E).
Proof.
  intros [Hid Hv Hw Hp] Hi Eid Evirt Hother Ho Hsome HW. destruct (Hid i r Hi) as [Hri Hvirt].
  assert (i < length (log_readers_ self))%nat as Hlt by (by eapply lookup_lt_Some).
  assert (forall j x, log_readers_ (emit es (set_reader (Some i) r' self)) !! j = Some x ->
    (j = i /\ x = r') \/ (j <> i /\ log_readers_ self !! j = Some x)) as Hlook.
  { intros j x. cbn. destruct (decide (j = i)) as [->|Hne]; [rewrite list_lookup_insert_eq by done; intros [= <-]; by left|].
    rewrite list_lookup_insert_ne by done. by right. }
  split; [| | |done].
  - intros j x [[-> ->]|[_ Hx]]%Hlook; [split; congruence|eauto].
  - intros j x l' Hx HWx. unfold LogTailerFacts.expect. destruct (decide (Z.of_nat j = Z.of_nat i /\ l' = l)) as [[Hj ->]|Hne].
    + apply Nat2Z.inj in Hj as ->. apply Hlook in Hx as [[_ ->]|[? _]]; [by apply Ho|done].
    + assert ((j, l') <> (i, l)) as Hne' by (intros [= -> ->]; by apply Hne).
      apply Hlook in Hx as [[-> ->]|[Hj Hx]]; [|by apply Hv; [|apply HW]].
      rewrite Hother by (intros ->; by apply Hne'). apply Hv; [done|by apply HW].
  - intros j x l' Hx. unfold LogTailerFacts.expect. destruct (decide (Z.of_nat j = Z.of_nat i /\ l' = l)) as [[Hj ->]|Hne].
    + apply Nat2Z.inj in Hj as ->. by apply Hlook in Hx as [[_ ->]|[? _]].
    + apply Hlook in Hx as [[-> ->]|[Hj Hx]]; [|by apply Hw]. rewrite Hother by (intros ->; by apply Hne). by apply Hw.
Qed.

Lemma expect_same (E : expectation) r l : forall r' l', expect r l (E r l) E r' l' = E r' l'.
Proof. intros r' l'. unfold LogTailerFacts.expect. case_decide as Hd; [|done]. by destruct Hd as [-> ->]. Qed.

Lemma linked_ext W self E E' : (forall r l, E r l = E' r l) -> linked W self E -> linked W self E'.
Proof. intros Heq [? ? Hw ?]. split; try done; intros; rewrite <-Heq; eauto. Qed.

Lemma turned_addressed W self E i r r' calls l : linked W self E -> log_readers_ self !! i = Some r -> turned l r r' calls ->
  Forall (addressed (count self)) (map Tailer calls).
Proof.
  intros HE Hi (_ & _ & _ & Hc). destruct (lk_id _ _ _ HE i r Hi) as [Hri _]. apply lookup_lt_Some in Hi.
  destruct Hc as [[-> _]|(c & -> & Hr & _)]; cbn; [constructor|]. constructor; [|constructor]. cbn. unfold count. lia.
Qed.

Lemma turned_leads W self i r r' calls l : log_readers_ self !! i = Some r -> turned l r r' calls ->
  steady W W self (emit (map Tailer calls) (set_reader (Some i) r' self)).
Proof.
  intros Hi Ht. pose proof Ht as (Eid & Evirt & Hother & Hc). split; [|done]. exists (map Tailer calls). split; [done|].
  split; [apply length_insert|]. intros E HE. split; [|by eapply turned_addressed].
  destruct (lk_id _ _ _ HE i r Hi) as [Hri _]. destruct Hc as [[-> Hl]|(c & -> & _ & Hc)].
  - cbn. eapply linked_ext; [apply (expect_same E (Z.of_nat i) l)|]. eapply linked_reader; try done.
    + intros HW. rewrite Hl. by eapply lk_view.
    + rewrite Hl. by eapply lk_weak.
  - cbn. rewrite Hc, Hri. by eapply linked_reader.
Qed.

(** A reader that was out of step is in step again, by a call or because it is
    not reading. *)
Lemma turned_fixes self i r r' calls l : log_readers_ self !! i = Some r -> turned l r r' calls ->
  (calls <> [] \/ view r' l = None) -> steady (Some (i, l)) None self (emit (map Tailer calls) (set_reader (Some i) r' self)).
Proof.
  intros Hi Ht Hfix. pose proof Ht as (Eid & Evirt & Hother & Hc). split; [|done]. exists (map Tailer calls). split; [done|].
  split; [apply length_insert|]. intros E HE. split; [|by eapply turned_addressed].
  destruct (lk_id _ _ _ HE i r Hi) as [Hri _]. destruct Hc as [[-> Hl]|(c & -> & _ & Hc)].
  - destruct Hfix as [?|Hn]; [done|]. cbn. eapply linked_ext; [apply (expect_same E (Z.of_nat i) l)|].
    pose proof (lk_weak _ _ _ HE i r l Hi) as Hw. rewrite <-Hl, Hn in Hw.
    eapply linked_reader; try done; [|by rewrite Hn|naive_solver].
    intros _. rewrite Hn. destruct (E (Z.of_nat i) l); [|done]. destruct (proj1 Hw ltac:(eauto)). done.
  - cbn. rewrite Hc, Hri. eapply linked_reader; try done; naive_solver.
Qed.

(** A reader moves without a call: it is out of step at the log. *)
Lemma moved_leads W self i r r' l : log_readers_ self !! i = Some r -> W = None \/ W = Some (i, l) ->
  reader_id_ r' = reader_id_ r -> IsVirtual r' = IsVirtual r ->
  (forall l', l' <> l -> view r' l' = view r l') -> (is_Some (view r' l) <-> is_Some (view r l)) ->
  steady W (Some (i, l)) self (set_reader (Some i) r' self).
Proof.
  intros Hi HW Eid Evirt Hother Hl. split; [|done]. exists []. split; [by rewrite app_nil_r|]. split; [apply length_insert|].
  intros E HE. split; [|constructor]. change (effects [] E) with E.
  rewrite <-(emit_no_events (set_reader (Some i) r' self)).
  eapply linked_ext; [apply (expect_same E (Z.of_nat i) l)|]. eapply linked_reader; try done.
  - rewrite Hl. by eapply lk_weak.
  - destruct HW as [->| ->]; naive_solver.
Qed.

Lemma turned_quiet W self i r r' l : log_readers_ self !! i = Some r -> turned l r r' [] ->
  steady W W self (set_reader (Some i) r' self).
Proof.
  intros Hi Ht. pose proof (turned_leads W self i r r' [] l Hi Ht) as H. cbn [map] in H.
  by rewrite emit_no_events in H.
Qed.

(** The virtual reader changes. *)
Lemma pending_leads W self rp : (IsVirtual (pending_reader_ self) = true ->
    (forall l st, log_state_ (pending_reader_ self) !! l = Some st -> is_reading st = true) ->
    IsVirtual rp = true /\ forall l st, log_state_ rp !! l = Some st -> is_reading st = true) ->
  leads W W self (set_pending_reader rp self).
Proof.
  intros H. exists []. split; [by rewrite app_nil_r|]. split; [done|]. intros E [? ? ? [? ?]]. split; [|constructor]. split; cbn; auto.
Qed.

(** ** The operations of a reader *)

Definition state_view (st : LogState) : option Z := if is_reading st then Some (u64 (last_read st + 1)) else None.

Lemma view_insert r l st l' : view (set_log_state (<[l := st]> (log_state_ r)) r) l' =
  if decide (l' = l) then state_view st else view r l'.
Proof.
  unfold view. cbn. case_decide as Hd; [subst; by rewrite lookup_insert_eq|by rewrite lookup_insert_ne].
Qed.

Lemma view_delete r l l' : view (set_log_state (delete l (log_state_ r)) r) l' = if decide (l' = l) then None else view r l'.
Proof. unfold view. cbn. case_decide as Hd; [subst; by rewrite lookup_delete_eq|by rewrite lookup_delete_ne]. Qed.

Lemma view_state r l st : log_state_ r !! l = Some st -> view r l = state_view st.
Proof. intros E. unfold view. by rewrite E. Qed.

Lemma view_closed r l : log_state_ r !! l = None -> view r l = None.
Proof. intros E. unfold view. by rewrite E. Qed.

(** A state that is replaced by one with the same view. *)
Lemma turned_insert r l st st' : log_state_ r !! l = Some st -> state_view st' = state_view st ->
  turned l r (set_log_state (<[l := st']> (log_state_ r)) r) [].
Proof.
  intros El Hv. split_and!; [done|done| |left; split; [done|]].
  - intros l' Hne. by rewrite view_insert, decide_False.
  - by rewrite view_insert, decide_True, (view_state r l st).
Qed.

Lemma turned_refl l r : turned l r r [].
Proof. split_and!; [done..|]. by left. Qed.

(** A reader that is placed at a sequence number. *)
Definition placed (l q : Z) (r r' : LogReader) : Prop :=
  reader_id_ r' = reader_id_ r /\ IsVirtual r' = IsVirtual r /\ (forall l', l' <> l -> view r' l' = view r l') /\
  view r' l = const (u64 (q + 1)) <$> view r l.

Lemma reader_placed_insert r l st st' q : log_state_ r !! l = Some st -> last_read st' = q -> is_reading st' = is_reading st ->
  placed l q r (set_log_state (<[l := st']> (log_state_ r)) r).
Proof.
  intros El Hq Hr. split_and!; [done|done| |].
  - intros l' Hne. by rewrite view_insert, decide_False.
  - rewrite view_insert, decide_True, (view_state r l st) by done. unfold state_view. rewrite Hr, Hq. by destruct (is_reading st).
Qed.

Lemma ProcessRecord_placed r l q t r' n : ProcessRecord r l q t = Ok (r', n) -> placed l q r r'.
Proof.
  unfold ProcessRecord. destruct (log_state_ r !! l) as [st|] eqn:El; [|done].
  destruct (lm_find t _); intros [= <- _]; by eapply reader_placed_insert.
Qed.

Lemma ProcessGap_turned r l t from to r' n : ProcessGap r l t from to = Ok (r', n) -> turned l r r' [].
Proof.
  unfold ProcessGap. destruct (log_state_ r !! l) as [st|] eqn:El; [|done]. intros ([] & _ & H)%obind_Ok.
  destruct (lm_find t (topics st)); [|injection H as <- _; apply turned_refl].
  apply obind_Ok in H as ([] & _ & [= <- _]). by eapply turned_insert.
Qed.

Lemma ProcessBenignGap_placed r l from to : placed l to r (ProcessBenignGap r l from to).
Proof.
  unfold ProcessBenignGap. destruct (log_state_ r !! l) as [st|] eqn:El; [by eapply reader_placed_insert|].
  split_and!; try done. by rewrite (view_closed r l El).
Qed.

Lemma FlushHistory_placed r l to : fits 64 to -> placed l to r (FlushHistory r l (u64 (to + 1))).
Proof.
  intros Hto. unfold FlushHistory. destruct (log_state_ r !! l) as [st|] eqn:El.
  - eapply reader_placed_insert; [done| |done]. cbn. unfold wrap. rewrite Zminus_mod_idemp_l, Z.add_simpl_r. by apply Z.mod_small.
  - split_and!; try done. by rewrite (view_closed r l El).
Qed.

Lemma Bump_turned {S} (on_bump : TopicUUID -> Z -> S -> outcome S) r l q s r' s' :
  BumpLaggingSubscriptions on_bump r l q s = Ok (r', s') -> turned l r r' [].
Proof.
  unfold BumpLaggingSubscriptions. destruct (log_state_ r !! l) as [st|] eqn:El; [|intros [= <- _]; apply turned_refl].
  intros ([l1 s1] & _ & [= <- _])%obind_Ok. by eapply turned_insert.
Qed.

Lemma Bump_keeps {S} (on_bump : TopicUUID -> Z -> S -> outcome S) (P : S -> Prop) r l q s r' s' :
  (forall t n s s', on_bump t n s = Ok s' -> P s -> P s') ->
  BumpLaggingSubscriptions on_bump r l q s = Ok (r', s') -> P s -> P s'.
Proof.
  intros Hb. unfold BumpLaggingSubscriptions. destruct (log_state_ r !! l) as [st|]; [|by intros [= _ <-]].
  intros ([l1 s1] & E & [= _ <-])%obind_Ok. revert E. generalize (Datatypes.S (length (topics st))) as fuel. generalize (topics st) as ts.
  intros ts fuel. revert ts s. induction fuel as [|fuel IH]; intros [|[t n] ts] s; cbn [Bump_loop]; try (by intros [= _ <-]);
    case_bool; try done; try (by intros [= _ <-]).
  intros (s2 & E2 & E)%obind_Ok Hs. eapply IH; [done|]. by eapply Hb.
Qed.

Lemma call_start l q r E : call_effect (TailerStartReading l q r) E = expect r l (Some q) E.
Proof. done. Qed.

Lemma u64_pred_succ q : fits 64 q -> u64 (u64 (q - 1) + 1) = q.
Proof. intros Hq. unfold wrap. rewrite Zplus_mod_idemp_l, Z.sub_add. by apply Z.mod_small. Qed.

Lemma StartReading_turned r t l q : IsVirtual r = false -> fits 64 q ->
  let '(r', calls) := StartReading r t l q in turned l r r' calls.
Proof.
  intros Hv Hq. unfold StartReading.
  set (st0 := {| topics := []; last_read := u64 (q - 1); is_reading := false |}).
  assert (state_view (default st0 (log_state_ r !! l)) = view r l) as Hview.
  { unfold view. by destruct (log_state_ r !! l). }
  set (st := default st0 (log_state_ r !! l)) in *.
  destruct (match lm_find t (topics st) with None => _ | Some _ => _ end) as [ts reseek].
  set (b := if negb (negb (IsLogOpen r l)) && reseek then q <=? last_read st else reseek).
  assert (forall st', state_view st' = view r l -> turned l r (set_log_state (<[l := st']> (log_state_ r)) r) []) as Hsame.
  { intros st' Hst'. split_and!; [done|done| |left; split; [done|]].
    - intros l' Hne. by rewrite view_insert, decide_False.
    - by rewrite view_insert, decide_True. }
  destruct b; [|by apply Hsame]. unfold StartLogReader. rewrite Hv.
  destruct (negb (last_read (set_topics ts st) =? u64 (q - 1)) || negb (is_reading (set_topics ts st))); [|by apply Hsame].
  split_and!; [done|done| |right].
  - intros l' Hne. by rewrite view_insert, decide_False.
  - eexists. split_and!; [done|done|]. intros E. rewrite call_start, view_insert, decide_True by done. cbn. by rewrite u64_pred_succ.
Qed.

(** The virtual reader only has logs that it pretends to read. *)
Definition pretends (r : LogReader) : Prop :=
  IsVirtual r = true /\ forall l st, log_state_ r !! l = Some st -> is_reading st = true.

Lemma pretends_insert r l st : pretends r -> is_reading st = true -> pretends (set_log_state (<[l := st]> (log_state_ r)) r).
Proof.
  intros [Hv Hr] Hst. split; [done|]. intros l' st'. cbn. destruct (decide (l' = l)) as [->|];
    [rewrite lookup_insert_eq; by intros [= <-]|rewrite lookup_insert_ne by done; apply Hr].
Qed.

Lemma pretends_delete r l : pretends r -> pretends (set_log_state (delete l (log_state_ r)) r).
Proof. intros [Hv Hr]. split; [done|]. cbn. intros l' st' [_ ?]%lookup_delete_Some. eauto. Qed.

Lemma StartReading_pretends r t l q : pretends r -> let '(r', calls) := StartReading r t l q in pretends r' /\ calls = [].
Proof.
  intros Hp. pose proof Hp as [Hv Hr]. unfold StartReading, StartLogReader, IsLogOpen. rewrite Hv.
  destruct (log_state_ r !! l) as [st|] eqn:El; cbn [default].
  - destruct (match lm_find t (topics st) with None => _ | Some _ => _ end) as [ts reseek].
    pose proof (Hr l st El). match goal with |- context [if ?b then (if ?c then _ else _) else _] => destruct b, c end;
      (split; [|done]); by apply pretends_insert.
  - rewrite bool_decide_eq_false_2 by (by intros []). cbn. rewrite orb_true_r. split; [by apply pretends_insert|done].
Qed.

Lemma StopReading_turned r t l : IsVirtual r = false -> let '(r', calls) := StopReading r t l in turned l r r' calls.
Proof.
  intros Hv. unfold StopReading. destruct (log_state_ r !! l) as [st|] eqn:El; [|apply turned_refl].
  destruct (lm_find t (topics st)); [|apply turned_refl]. cbn [topics set_topics].
  destruct (lm_erase t (topics st)); [|by eapply turned_insert]. unfold StopLogReader. cbn [is_reading set_topics]. rewrite Hv.
  pose proof (view_state r l st El) as Hview. unfold state_view in Hview. destruct (is_reading st); cbn [snd].
  - split_and!; [done|done| |right; eexists; split_and!; [done|done|]].
    + intros l' Hne. by rewrite view_delete, decide_False.
    + intros E. by rewrite view_delete, decide_True.
  - split_and!; [done|done| |left; split; [done|]].
    + intros l' Hne. by rewrite view_delete, decide_False.
    + by rewrite view_delete, decide_True.
Qed.

Lemma StopReading_pretends r t l : pretends r -> let '(r', calls) := StopReading r t l in pretends r' /\ calls = [].
Proof.
  intros Hp. pose proof Hp as [Hv Hr]. unfold StopReading. destruct (log_state_ r !! l) as [st|] eqn:El; [|done].
  destruct (lm_find t (topics st)); [|done]. cbn [topics set_topics]. destruct (lm_erase t (topics st)).
  - split; [by apply pretends_delete|]. unfold StopLogReader. rewrite Hv. cbn. by destruct (is_reading st).
  - split; [|done]. apply pretends_insert; [done|]. exact (Hr l st El).
Qed.

Lemma PauseReading_turned r l r' calls : PauseReading r l = Ok (r', calls) ->
  turned l r r' calls /\ (calls <> [] \/ view r' l = None).
Proof.
  unfold PauseReading. intros ([] & Hv & H)%obind_Ok. apply assert_that_Ok, negb_true_iff in Hv.
  destruct (log_state_ r !! l) as [st|] eqn:El; [|done]. unfold StopLogReader in H.
  destruct (is_reading st) eqn:Er; injection H as <- <-.
  - rewrite Hv. split; [|by left]. split_and!; [done|done| |right; eexists; split_and!; [done|done|]].
    + intros l' Hne. by rewrite view_insert, decide_False.
    + intros E. by rewrite view_insert, decide_True.
  - split; [by eapply turned_insert|]. right. rewrite view_insert, decide_True by done. unfold state_view. by rewrite Er.
Qed.

Lemma RestartReading_turned r l r' calls : RestartReading r l = Ok (r', calls) -> turned l r r' calls /\ calls <> [].
Proof.
  unfold RestartReading, RestartLogReader. intros ([] & Hv & H)%obind_Ok. apply assert_that_Ok, negb_true_iff in Hv. rewrite Hv in H.
  destruct (log_state_ r !! l) as [st|] eqn:El; [|done]. injection H as <- <-. split; [|done].
  split_and!; [done|done| |right; eexists; split_and!; [done|done|]].
  - intros l' Hne. by rewrite view_insert, decide_False.
  - intros E. by rewrite view_insert, decide_True.
Qed.

Lemma MergeInto_turned r d l r' d' calls : MergeInto r d l = Ok (r', d', calls) ->
  turned l r r' calls /\ calls <> [] /\ turned l d d' [] /\ log_state_ r' !! l = None.
Proof.
  unfold MergeInto. intros (can & _ & ([] & _ & H)%obind_Ok)%obind_Ok.
  destruct (log_state_ r !! l) as [src|] eqn:El; [|done]. destruct (log_state_ d !! l) as [dest|] eqn:Ed; [|done].
  apply obind_Ok in H as ([] & _ & [= <- <- <-]). split_and!; [| |by eapply turned_insert|cbn; by rewrite lookup_delete_eq].
  - split_and!; [done|done| |right; eexists; split_and!; [done|done|]].
    + intros l' Hne. by rewrite view_delete, decide_False.
    + intros E. by rewrite view_delete, decide_True.
  - done.
Qed.

(** The virtual reader of a log stands where its topics are first needed. *)
Definition steal_safe (rp : LogReader) (l : Z) : Prop :=
  forall st, log_state_ rp !! l = Some st -> ComputeStartSeqno st = Ok (u64 (last_read st + 1)).

Lemma Steal_turned r v l r' v' calls : steal_safe v l -> pretends v -> StealLogSubscriptions true r v l = Ok (r', v', calls) ->
  turned l r r' calls /\ pretends v'.
Proof.
  intros Hsafe Hp. unfold StealLogSubscriptions.
  intros ([] & _ & ([] & _ & ([] & _ & ([] & _ & H)%obind_Ok)%obind_Ok)%obind_Ok)%obind_Ok.
  destruct (log_state_ v !! l) as [st|] eqn:El; [|done]. rewrite (Hsafe st El) in H. cbn [obind] in H.
  apply obind_Ok in H as ([] & _ & [= <- <- <-]). split; [|by apply pretends_delete].
  split_and!; [done|done| |right; eexists; split_and!; [done|done|]].
  - intros l' Hne. by rewrite view_insert, decide_False.
  - intros E. rewrite call_start, view_insert, decide_True by done. unfold state_view. by rewrite (proj2 Hp l st El).
Qed.
