(* ===== verification/TailerCalls.v ===== *)
(** * The calls of the topic tailer

    Each handler of the topic tailer keeps the readers and the log tailer in
    step (see TailerLink.v), provided the log tailer starts readers when told to,
    and a reader that takes over from the virtual reader starts where that one
    stands. *)

From S2P Require Import Prelude Coding CodingFacts Messages Containers LRUCache Bloom DataCache DataCacheVisit.
From S2P Require Import TopicManager LogReader LogReaderFacts TopicTailer LogTailer LogTailerFacts TailerLink.

#[local] Open Scope outcome_scope.

(** Take a computation that succeeded apart. *)
Ltac bind_inv H := let E := fresh "E" in apply obind_Ok in H as (? & E & H).

Lemma get_reader_lookup self i r : get_reader self (Some i) = Ok r -> log_readers_ self !! i = Some r.
Proof. cbn. destruct (log_readers_ self !! i); naive_solver. Qed.

(** ** Silent steps *)

Lemma advance_silent self l t a b c self' ids : advance self l t a b c = (self', ids) -> silent self self'.
Proof. unfold advance. destruct (TopicManager.VisitSubscribers _ _ _ _ _). intros [= <- _]. auto with link. Qed.

Lemma send_gap_silent t type from to rs self self' : send_gap t type from to rs self = Ok self' -> silent self self'.
Proof.
  unfold send_gap. destruct rs; [intros [= <-]; auto with link|]. intros H. bind_inv H. injection H as <-. auto with link.
Qed.

Lemma update_tail_silent l q self : silent self (update_tail l q self).
Proof. unfold update_tail. destruct (tail_seqno_cached_ self !! l); [case_bool|]; auto with link. Qed.

Lemma on_bump_silent l q t n self self' : on_bump l q t n self = Ok self' -> silent self self'.
Proof.
  unfold on_bump. destruct (advance _ _ _ _ _ _) as [self1 ids] eqn:E. intros H.
  eapply silent_trans; [by eapply advance_silent|by eapply send_gap_silent].
Qed.

Lemma deliver_record_silent self l data p self' data' ids : deliver_record self l data p = (self', data', ids) -> silent self self'.
Proof.
  unfold deliver_record. destruct (advance _ _ _ _ _ _) as [self1 rs] eqn:E. intros H. apply advance_silent in E.
  destruct rs; injection H as <- _ _; [done|]. eapply silent_trans; [done|]. auto with link.
Qed.

Section Calls.
Context (XXH64 : slice -> Z) (sizeof_MessageData sizeof_CacheEntry : Z).
Context (WriteHasFailed start_ok : list event -> bool).
Context (GetLogID : TopicUUID -> option Z) (copilot_worker : CopilotSub -> Z).

(** ** Merging *)

Lemma merge_readers_leads self src dest l self' : (forall es, start_ok es = true) -> steal_safe (pending_reader_ self) l ->
  pretends (pending_reader_ self) -> src <> dest -> merge_readers start_ok self src dest l = Ok self' ->
  leads (Some (src, l)) None self self'.
Proof.
  intros Hstart Hsafe Hp Hne H. unfold merge_readers in H. bind_inv H. bind_inv H. bind_inv H.
  destruct x1 as [[rs rd] calls]. apply get_reader_lookup in E, E0. apply MergeInto_turned in E1 as (Hs & Hc & Hd & Hl).
  set (self1 := emit (map Tailer calls) (set_reader (Some src) rs self)).
  assert (steady (Some (src, l)) None self self1) as H1 by (eapply turned_fixes; eauto).
  set (self2 := set_reader (Some dest) rd self1).
  assert (steady None None self1 self2) as H2.
  { eapply (turned_quiet None self1 dest x0 rd l); [|done]. cbn. by rewrite list_lookup_insert_ne. }
  change (emit (map Tailer calls) (set_reader (Some dest) rd (set_reader (Some src) rs self))) with self2 in H.
  pose proof (steady_trans _ _ _ _ _ _ H1 H2) as [H12 Epend].
  destruct (IsLogOpen (pending_reader_ self2) l); [|by injection H as <-].
  bind_inv H. destruct x1 as [[rs' rp] calls']. apply Ok_inj in H as <-. rewrite Hstart, Epend in E1.
  apply (Steal_turned rs _ l) in E1 as [Ht Hp']; [|done..]. eapply leads_trans; [exact H12|].
  change (emit (map Tailer calls') (set_reader None rp (set_reader (Some src) rs' self2)))
    with (set_pending_reader rp (emit (map Tailer calls') (set_reader (Some src) rs' self2))).
  eapply leads_trans; [|apply pending_leads; intros _ _; exact Hp'].
  eapply (turned_leads None self2 src rs rs' calls' l); [|done]. cbn. rewrite list_lookup_insert_ne by done.
  apply list_lookup_insert_eq. by eapply lookup_lt_Some.
Qed.

Lemma weaken_leads self x : leads None (Some x) self self.
Proof.
  exists []. split; [by rewrite app_nil_r|]. split; [done|]. intros E [? Hv ? ?]. split; [|constructor]. by split; auto.
Qed.

Lemma AttemptReaderMerges_leads W self src l self' merged : (forall es, start_ok es = true) -> steal_safe (pending_reader_ self) l ->
  pretends (pending_reader_ self) -> W = None \/ W = Some (src, l) ->
  AttemptReaderMerges start_ok self src l = Ok (self', merged) ->
  if merged then leads W None self self' else self' = self.
Proof.
  intros Hstart Hsafe Hp HW. unfold AttemptReaderMerges. generalize 0%nat as dest. generalize (log_readers_ self) as rs.
  induction rs as [|rd rs IH]; intros dest H; cbn [merge_loop] in H; [by injection H as <- <-|].
  destruct (Nat.eqb_spec src dest); [by eapply IH|]. bind_inv H. bind_inv H. destruct x0; [|by eapply IH].
  bind_inv H. injection H as <- <-. eapply merge_readers_leads in E1; try done.
  destruct HW as [->| ->]; [|done]. eapply leads_trans; [apply weaken_leads|done].
Qed.

(** ** Records *)

Lemma pause_for_cache_leads W self l i self' : W = None \/ W = Some (i, l) -> pause_for_cache self l i = Ok self' ->
  steady W None self self'.
Proof.
  intros HW H. unfold pause_for_cache in H. bind_inv H. bind_inv H. destruct x0 as [r' calls]. apply Ok_inj in H as <-.
  apply get_reader_lookup in E. apply PauseReading_turned in E0 as [Ht Hf].
  apply (steady_trans _ None _ _ (emit (map Tailer calls) (set_reader (Some i) r' self))); [|apply silent_steady; auto with link].
  destruct HW as [->| ->]; [by eapply turned_leads|by eapply turned_fixes].
Qed.

(** A record: the reader moves to where the log tailer already is. *)
Lemma placed_fixes self i r r' l q E : log_readers_ self !! i = Some r -> placed l q r r' -> linked (Some (i, l)) self E ->
  E (Z.of_nat i) l = Some (u64 (q + 1)) -> linked None (set_reader (Some i) r' self) E.
Proof.
  intros Hi (Eid & Evirt & Hother & Hl) HE Hq. rewrite <-(emit_no_events (set_reader (Some i) r' self)).
  eapply linked_ext; [apply (expect_same E (Z.of_nat i) l)|].
  pose proof (lk_weak _ _ _ HE i r l Hi) as Hw. rewrite Hq in Hw.
  assert (view r' l = Some (u64 (q + 1))) as Hv.
  { destruct (proj1 Hw) as [x Hx]; [eauto|]. by rewrite Hl, Hx. }
  eapply linked_reader; try done; rewrite ?Hq, ?Hv; try done. naive_solver.
Qed.

Lemma placed_moves W self i r r' l q : log_readers_ self !! i = Some r -> placed l q r r' -> W = None \/ W = Some (i, l) ->
  steady W (Some (i, l)) self (set_reader (Some i) r' self).
Proof.
  intros Hi (Eid & Evirt & Hother & Hl) HW. eapply moved_leads; try done. rewrite Hl. by rewrite fmap_is_Some.
Qed.

Lemma ReceiveLogRecord_linked self data l i self' E :
  ReceiveLogRecord XXH64 sizeof_MessageData sizeof_CacheEntry self data l i = Ok self' ->
  linked (Some (i, l)) self E -> E (Z.of_nat i) l = Some (u64 (data_seqno_ data + 1)) ->
  exists self1, linked None self1 E /\ trace_ self1 = trace_ self /\ count self1 = count self /\ pending_reader_ self1 = pending_reader_ self /\ steady None None self1 self'.
Proof.
  intros H HE Hq. unfold ReceiveLogRecord in H. bind_inv H. bind_inv H. bind_inv H. destruct x1 as [r1 prev].
  apply get_reader_lookup in E0. apply ProcessRecord_placed in E2. exists (set_reader (Some i) r1 self).
  split; [by eapply placed_fixes|]. split; [done|]. split; [apply length_insert|]. split; [done|]. set (self1 := set_reader (Some i) r1 self) in *.
  bind_inv H. destruct x1 as [self2 data2]. bind_inv H. apply Ok_inj in H as <-.
  eapply steady_trans; [apply silent_steady, (update_tail_silent l (data_seqno_ data))|].
  apply (steady_trans _ None _ _ self2); [|apply silent_steady; auto with link]. clear E4.
  destruct (prev =? 0); [injection E3 as <- _; apply steady_refl|].
  destruct (deliver_record _ _ _ _) as [[self3 data3] ids] eqn:Ed in E3. apply deliver_record_silent in Ed.
  apply obind_Ok in E3 as ([r2 self4] & E4 & E3). assert (self2 = set_reader (Some i) r2 self4) as -> by congruence.
  assert (silent (update_tail l (data_seqno_ data) self1) self4) as Hs.
  { apply (Bump_keeps _ (silent _) _ _ _ _ _ _ (fun t n s s' Hb Hs => silent_trans _ _ _ Hs (on_bump_silent _ _ _ _ _ _ Hb)) E4).
    exact Ed. }
  eapply steady_trans; [apply silent_steady; exact Hs|]. apply Bump_turned in E4. eapply turned_quiet; [|done].
  destruct Hs as [-> _]. destruct (update_tail_silent l (data_seqno_ data) self1) as [-> _]. cbn.
  apply list_lookup_insert_eq. by eapply lookup_lt_Some.
Qed.

Definition goes (self self' : TopicTailer) (E : expectation) : Prop :=
  exists es, trace_ self' = trace_ self ++ es /\ count self' = count self /\ linked None self' (effects es E) /\
    Forall (addressed (count self)) es.

Lemma leads_goes W self self' E : leads W None self self' -> linked W self E -> goes self self' E.
Proof. intros (es & Ht & Hn & H) HE. exists es. auto. Qed.

Lemma goes_leads self self1 self' E : linked None self1 E -> trace_ self1 = trace_ self -> count self1 = count self ->
  leads None None self1 self' -> goes self self' E.
Proof.
  intros HE Ht Hn (es & Ht' & Hn' & H). exists es. rewrite <-Hn. split; [congruence|]. split; [done|]. by apply H.
Qed.

Lemma SendLogRecord_goes self data l rid i self' E : (forall es, start_ok es = true) -> steal_safe (pending_reader_ self) l ->
  SendLogRecord XXH64 sizeof_MessageData sizeof_CacheEntry start_ok self data l rid = Ok self' ->
  FindLogReader self rid = Some i -> linked (Some (i, l)) self E -> E (Z.of_nat i) l = Some (u64 (data_seqno_ data + 1)) ->
  goes self self' E.
Proof.
  intros Hstart Hsafe H Hf HE Hq. unfold SendLogRecord in H. rewrite Hf in H. apply obind_Ok in H as (self2 & E2 & H).
  eapply ReceiveLogRecord_linked in E2 as (self1 & HE1 & Ht1 & Hn1 & Hp1 & Hst); try done.
  apply (goes_leads self self1); [done..|]. destruct Hst as [Hl Hp2]. eapply leads_trans; [exact Hl|].
  apply obind_Ok in H as (reader & _ & ([] & _ & ([dc has] & _ & H)%obind_Ok)%obind_Ok).
  apply (leads_trans _ None _ _ (set_data_cache dc self2)); [apply silent_steady; auto with link|].
  destruct has; [eapply pause_for_cache_leads in H; [apply H|by left]|].
  apply obind_Ok in H as ([self3 merged] & E3 & <-%Ok_inj). cbn [fst].
  apply (AttemptReaderMerges_leads None) in E3; [|done|cbn; by rewrite Hp2, Hp1|cbn; rewrite Hp2; apply (lk_pending _ _ _ HE1)|by left].
  destruct merged; [done|]. rewrite E3. apply leads_refl.
Qed.

(** ** The cache *)

Lemma on_message_cache_steady self0 l i data self b data' self' b' more : steady None (Some (i, l)) self0 self ->
  on_message_cache WriteHasFailed l i data (self, b) = Ok (data', (self', b'), more) -> steady None (Some (i, l)) self0 self'.
Proof.
  intros H0 H. unfold on_message_cache in H.
  apply obind_Ok in H as (r & E1 & ([] & _ & ([r' prev] & E2 & H)%obind_Ok)%obind_Ok).
  apply get_reader_lookup in E1. apply ProcessRecord_placed in E2.
  eapply steady_trans; [exact H0|]. eapply steady_trans; [by eapply placed_moves; eauto|].
  destruct (prev =? 0).
  - apply obind_Ok in H as ([] & _ & H). simplify_eq. apply steady_refl.
  - destruct (deliver_record _ _ _ _) as [[self3 data3] ids] eqn:Ed in H. apply obind_Ok in H as ([] & _ & H). simplify_eq.
    apply silent_steady. by eapply deliver_record_silent.
Qed.

Lemma AdvanceReaderFromCache_steady self l i self' read : AdvanceReaderFromCache XXH64 WriteHasFailed self l i = Ok (self', read) ->
  steady None (Some (i, l)) self self'.
Proof.
  assert (forall self, steady None (Some (i, l)) self self) as Hrefl by (intros; split; [apply weaken_leads|done]).
  unfold AdvanceReaderFromCache. case_bool; [by intros [= <- _]|]. intros (r & _ & H')%obind_Ok. revert H'.
  case_bool; [by intros [= <- _]|]. intros (t & _ & ([[dc ret] [self2 b]] & E & H')%obind_Ok)%obind_Ok.
  eapply (VisitCache_preserves _ _ (fun s => steady None (Some (i, l)) self (fst s))) in E.
  - cbn [fst] in E. eapply steady_trans; [exact E|]. apply silent_steady.
    revert H'. case_bool; cbn [negb]; [intros ([] & _ & H')%obind_Ok|intros H']; apply Ok_inj in H'; simplify_eq; auto with link.
  - intros m [s bs] m' [s' bs'] more Hm Hs. by eapply on_message_cache_steady.
  - cbn [fst]. eapply steady_trans; [apply Hrefl|]. apply silent_steady; auto with link.
Qed.

Lemma SendCacheRecord_leads self l i self' : (forall es, start_ok es = true) -> steal_safe (pending_reader_ self) l ->
  pretends (pending_reader_ self) -> SendCacheRecord XXH64 WriteHasFailed start_ok self l i = Ok self' -> leads None None self self'.
Proof.
  intros Hstart Hsafe Hp. unfold SendCacheRecord. intros (r & _ & H)%obind_Ok.
  destruct (negb _); [apply Ok_inj in H as <-; apply leads_refl|].
  apply obind_Ok in H as ([self1 read] & E & H). apply AdvanceReaderFromCache_steady in E as [Hl Ep].
  eapply leads_trans; [exact Hl|].
  assert ((m <~ AttemptReaderMerges start_ok self1 i l ;;
    (let '(self, merged) := m in if merged : bool then Ok self else
      reader <~ get_reader self (Some i) ;; p <~ RestartReading reader l ;;
      let '(reader, calls) := p in Ok (emit (map Tailer calls) (set_reader (Some i) reader self)))) = Ok self' ->
    leads (Some (i, l)) None self1 self') as Hgo.
  { clear H. intros ([self2 merged] & E & H)%obind_Ok.
    apply (AttemptReaderMerges_leads (Some (i, l))) in E; [|done|by rewrite Ep|by rewrite Ep|by right].
    destruct merged; [by apply Ok_inj in H as <-|]. subst self2.
    apply obind_Ok in H as (r1 & E1 & ([r2 calls] & E2 & <-%Ok_inj)%obind_Ok). apply get_reader_lookup in E1.
    apply RestartReading_turned in E2 as [Ht Hc]. eapply turned_fixes; eauto. }
  destruct read; [by apply Hgo..|]. eapply pause_for_cache_leads in H; [apply H|by right].
Qed.

Lemma DrainReentry_leads self l i last self' : (forall es, start_ok es = true) -> steal_safe (pending_reader_ self) l ->
  pretends (pending_reader_ self) -> DrainReentry XXH64 WriteHasFailed start_ok self l i last = Ok self' -> leads None None self self'.
Proof.
  intros Hstart Hsafe Hp. unfold DrainReentry. destruct (lm_find _ _); [|done]. set (q := {| ObservableMap.map_ := _ |}).
  intros (self1 & E & H)%obind_Ok. apply SendCacheRecord_leads in E; [|done..].
  apply (leads_trans _ None _ _ (set_reentry q self)); [apply silent_steady; auto with link|]. eapply leads_trans; [exact E|].
  destruct last; [|apply Ok_inj in H as <-; apply leads_refl]. apply obind_Ok in H as (q1 & _ & <-%Ok_inj).
  apply silent_steady. auto with link.
Qed.

(** ** Gaps *)

Definition hushed (self self' : TopicTailer) : Prop := exists es, trace_ self' = trace_ self ++ es /\ Forall quiet es.

Lemma gap_topics_steady l type from to i ts self self' : gap_topics l type from to i ts self = Ok self' ->
  steady (Some (i, l)) (Some (i, l)) self self' /\ hushed self self'.
Proof.
  revert self. induction ts as [|t ts IH]; intros self; cbn [gap_topics].
  { intros <-%Ok_inj. split; [apply steady_refl|exists []; by rewrite app_nil_r]. }
  intros (self1 & E & H)%obind_Ok. apply IH in H as [Hst (es & Ht & Hq)]. unfold gap_topic in E.
  apply obind_Ok in E as (r & E1 & ([r' prev] & E2 & E)%obind_Ok). apply get_reader_lookup in E1. apply ProcessGap_turned in E2.
  destruct (advance _ _ _ _ _ _) as [self2 ids] eqn:Ea in E.
  assert (silent (set_reader (Some i) r' self) self1) as Hs.
  { eapply silent_trans; [apply (update_tail_silent l to)|]. eapply silent_trans; [by eapply advance_silent|by eapply send_gap_silent]. }
  split.
  - eapply steady_trans; [by eapply turned_quiet|]. eapply steady_trans; [by apply silent_steady|done].
  - destruct Hs as (_ & _ & es1 & Ht1 & Hq1). exists (es1 ++ es). rewrite Ht, Ht1. cbn. split; [by rewrite app_assoc|by apply Forall_app].
Qed.

Lemma SendGapRecord_goes self l type from to rid i self' E : (forall es, start_ok es = true) -> steal_safe (pending_reader_ self) l ->
  fits 64 to -> SendGapRecord start_ok self l type from to rid = Ok self' -> FindLogReader self rid = Some i ->
  linked (Some (i, l)) self E -> E (Z.of_nat i) l = Some (u64 (to + 1)) -> goes self self' E.
Proof.
  intros Hstart Hsafe Hto H Hf HE Hq. unfold SendGapRecord in H. rewrite Hf in H. cbn zeta in H. apply obind_Ok in H as (self1 & E1 & H).
  apply gap_topics_steady in E1 as [[(es & Ht & Hn & Hlk) Hp] (es' & Ht' & Hquiet)]. cbn in Ht, Ht', Hp.
  rewrite Ht in Ht'. apply app_inv_head in Ht' as <-.
  apply obind_Ok in H as (r & E2 & ([self2 merged] & E3 & <-%Ok_inj)%obind_Ok). apply get_reader_lookup in E2.
  set (r' := if type =? kBenign then _ else _) in *.
  assert (placed l to r r') as Hr by (unfold r'; case_bool; [apply ProcessBenignGap_placed|by apply FlushHistory_placed]).
  assert (linked (Some (i, l)) self1 E) as HE1.
  { rewrite <-(effects_quiet es E Hquiet). apply Hlk. destruct HE. by split. }
  pose proof (placed_fixes self1 i r r' l to E E2 Hr HE1 Hq) as HE2.
  apply (AttemptReaderMerges_leads None) in E3; [|done|cbn; by rewrite Hp|cbn; rewrite Hp; apply (lk_pending _ _ _ HE)|by left].
  assert (leads None None (set_reader (Some i) r' self1) self2) as (es2 & Ht2 & Hn2 & Hl2).
  { destruct merged; [done|]. rewrite E3. apply leads_refl. }
  exists (es ++ es2). cbn [fst]. rewrite Ht2. cbn. rewrite Ht, app_assoc. split; [done|].
  assert (count (set_reader (Some i) r' self1) = count self) as Hn3 by (unfold count in *; cbn in *; by rewrite length_insert).
  split; [congruence|]. destruct (Hl2 E HE2) as [HE3 Ha]. rewrite effects_app, (effects_quiet es E Hquiet). split; [done|].
  apply Forall_app. split; [|by rewrite <-Hn3]. eapply Forall_impl; [exact Hquiet|]. by intros [].
Qed.

(** ** Subscriptions *)

Lemma write_pending_silent self id l q self' : write_pending copilot_worker self id l q = Ok self' -> silent self self'.
Proof. unfold write_pending. intros ([w qu] & _ & <-%Ok_inj)%obind_Ok. auto with link. Qed.

Lemma AddSubscriberInternal_silent self t id l q self' : AddSubscriberInternal copilot_worker self t id l q = Ok self' -> silent self self'.
Proof.
  unfold AddSubscriberInternal. intros ([] & _ & (self1 & E%write_pending_silent & <-%Ok_inj)%obind_Ok)%obind_Ok.
  eapply silent_trans; [exact E|]. auto with link.
Qed.

Lemma AddTailSubscriber_silent self t id l q self' : AddTailSubscriber copilot_worker self t id l q = Ok self' -> silent self self'.
Proof.
  unfold AddTailSubscriber. intros (names & _ & H%AddSubscriberInternal_silent)%obind_Ok.
  eapply silent_trans; [|exact H]. auto with link.
Qed.

Lemma DeliverFromCache_silent self t c l q self' b q' : DeliverFromCache XXH64 WriteHasFailed self t c l q = Ok (self', b, q') ->
  silent self self' /\ (fits 64 q -> fits 64 q').
Proof.
  unfold DeliverFromCache. case_bool; [intros [= <- _ <-]; auto with link|].
  intros ([] & _ & (names & _ & ([[dc ret] [[self1 delivered] backoff]] & E & H')%obind_Ok)%obind_Ok)%obind_Ok.
  pose proof (VisitCache_fits _ _ _ _ _ _ _ _ _ _ E) as Hfits.
  apply (VisitCache_preserves _ _ (fun s => silent self (fst (fst s)))) in E; [|clear|apply silent_refl].
  - cbn [fst] in E. assert (silent self (set_data_cache dc self1)) as Hs by (eapply silent_trans; [exact E|]; auto with link).
    destruct backoff; apply Ok_inj in H'; injection H' as <- _ <-; [done|]. split; [|done].
    case_bool; [|done]. eapply silent_trans; [exact Hs|]. auto with link.
  - intros m [[s d] bk] m' [[s' d'] bk'] more H Hs. cbn [fst] in *. unfold on_message_deliver in H.
    apply obind_Ok in H as ([] & _ & (same & _ & H)%obind_Ok). destruct same; [|by simplify_eq].
    apply obind_Ok in H as ([] & _ & H). simplify_eq. eapply silent_trans; [exact Hs|]. auto with link.
Qed.

(** Real readers and the virtual one are what they are named. *)
Definition sorts (self : TopicTailer) : Prop :=
  pretends (pending_reader_ self) /\ forall i r, log_readers_ self !! i = Some r -> IsVirtual r = false.

Lemma linked_sorts W self E : linked W self E -> sorts self.
Proof. intros [Hid _ _ Hp]. split; [done|]. intros i r Hr. by destruct (Hid i r Hr). Qed.

Lemma silent_sorts self self' : silent self self' -> sorts self -> sorts self'.
Proof. intros (Hr & Hp & _). unfold sorts. by rewrite Hr, Hp. Qed.

Lemma ProcessPendingSubscription_leads self t id l q self' : sorts self -> fits 64 q ->
  ProcessPendingSubscription XXH64 WriteHasFailed copilot_worker self t id l q = Ok self' -> leads None None self self'.
Proof.
  intros Hso Hq. unfold ProcessPendingSubscription. intros ([] & _ & ([[self1 b] q1] & E & H)%obind_Ok)%obind_Ok.
  apply DeliverFromCache_silent in E as [Hs Hq1]. eapply leads_trans; [apply silent_steady; exact Hs|].
  destruct b; [|by eapply silent_steady, write_pending_silent]. apply obind_Ok in H as (r & E & H).
  destruct (silent_sorts _ _ Hs Hso) as [Hp Hreal]. specialize (Hq1 Hq).
  destruct (ReaderForNewSubscription self1 t l q1) as [i|].
  - apply get_reader_lookup in E. pose proof (StartReading_turned r t l q1 (Hreal i r E) Hq1) as Ht.
    destruct (StartReading r t l q1) as [r' calls]. apply Ok_inj in H as <-.
    eapply leads_trans; [by eapply (turned_leads None self1 i r r' calls l)|]. apply silent_steady. auto with link.
  - cbn in E. apply Ok_inj in E as <-. pose proof (StartReading_pretends (pending_reader_ self1) t l q1 Hp) as Ht.
    destruct (StartReading (pending_reader_ self1) t l q1) as [r' calls]. destruct Ht as [Hr' ->]. apply Ok_inj in H as <-.
    eapply leads_trans; [apply (pending_leads None self1 r'); by intros|]. apply silent_steady.
    change (map Tailer []) with (@nil event). rewrite emit_no_events. auto with link.
Qed.

Lemma DrainPending_leads self w id last self' :
  sorts self -> (forall p, lm_find id (ObservableMap.map_ (default ObservableMap.empty (cache_readers_ self !! w))) = Some p -> fits 64 (pending_seqno p)) ->
  DrainPending XXH64 WriteHasFailed copilot_worker self w id last = Ok self' -> leads None None self self'.
Proof.
  intros Hso Hfits. unfold DrainPending. destruct (lm_find _ _) as [p|] eqn:Ep; [|done]. set (q := {| ObservableMap.map_ := _ |}).
  intros (self1 & E & H)%obind_Ok. set (self0 := set_cache_readers (<[w := q]> (cache_readers_ self)) self) in *.
  apply (leads_trans _ None _ _ self0); [apply silent_steady; auto with link|].
  apply (leads_trans _ None _ _ self1).
  - unfold on_pending in E. destruct (SubscriptionMap.Find _ _ _); [|apply Ok_inj in E as <-; apply leads_refl].
    eapply ProcessPendingSubscription_leads; [|by apply Hfits|exact E]. exact Hso.
  - destruct last; [|apply Ok_inj in H as <-; apply leads_refl]. apply obind_Ok in H as (q1 & _ & <-%Ok_inj).
    apply silent_steady. auto with link.
Qed.

Lemma answer_waiting_silent ids l q self self' : answer_waiting copilot_worker ids l q self = Ok self' -> silent self self'.
Proof.
  revert self. induction ids as [|id ids IH]; intros self; cbn [answer_waiting]; [intros <-%Ok_inj; auto with link|].
  intros (self1 & E & H%IH)%obind_Ok. eapply silent_trans; [|exact H].
  destruct (SubscriptionMap.Find _ _ _); [by eapply AddTailSubscriber_silent|apply Ok_inj in E as <-; auto with link].
Qed.

Lemma SendFindLatestSeqnoRequest_silent self l self' : SendFindLatestSeqnoRequest self l = Ok self' -> silent self self'.
Proof. unfold SendFindLatestSeqnoRequest. intros ([] & _ & <-%Ok_inj)%obind_Ok. auto with link. Qed.

Lemma ProcessFindLatestSeqnoResponse_silent self ok l q self' :
  ProcessFindLatestSeqnoResponse copilot_worker self ok l q = Ok self' -> silent self self'.
Proof.
  unfold ProcessFindLatestSeqnoResponse. destruct ok; cbn [negb]; [|apply SendFindLatestSeqnoRequest_silent].
  intros (self1 & E%answer_waiting_silent & H)%obind_Ok. eapply silent_trans; [exact E|].
  set (self2 := set_tail_seqno_cached _ _) in H. assert (silent self1 self2) as H2 by auto with link.
  destruct (pending_find_time_requests_ self2) as [|next rest]; [by apply Ok_inj in H as <-|].
  apply obind_Ok in H as (self3 & E3%SendFindLatestSeqnoRequest_silent & ([] & _ & <-%Ok_inj)%obind_Ok).
  eapply silent_trans; [exact H2|]. eapply silent_trans; [|exact E3]. auto with link.
Qed.

Lemma AddSubscriber_silent self t start id self' b : AddSubscriber GetLogID copilot_worker self t start id = Ok (self', b) -> silent self self'.
Proof.
  unfold AddSubscriber. destruct (GetLogID t) as [l|]; [|intros [= <- _]; auto with link]. destruct (start =? 0).
  - destruct (negb _); [intros (self1 & E & H')%obind_Ok; simplify_eq; by eapply AddTailSubscriber_silent|].
    set (self1 := set_find_time _ _ _). assert (silent self self1) as H1 by auto with link. clearbody self1.
    destruct (1 <? _)%nat; [intros [= <- _]; done|]. case_bool.
    + intros (self2 & E%SendFindLatestSeqnoRequest_silent & H')%obind_Ok. simplify_eq. by eapply silent_trans.
    + intros H'. apply Ok_inj in H'. injection H' as <- _. eapply silent_trans; [exact H1|]. auto with link.
  - intros (self1 & E & H')%obind_Ok. simplify_eq. by eapply AddSubscriberInternal_silent.
Qed.

(** ** Unsubscribing *)

Lemma stop_readers_in_step t l rs k rs' calls closed E : stop_readers t l rs = (rs', calls, closed) ->
  (forall j r, rs !! j = Some r -> reader_id_ r = Z.of_nat (k + j) /\ IsVirtual r = false) ->
  (forall j r l', rs !! j = Some r -> E (Z.of_nat (k + j)) l' = view r l') ->
  (forall j r, rs' !! j = Some r -> reader_id_ r = Z.of_nat (k + j) /\ IsVirtual r = false) /\
  (forall j r l', rs' !! j = Some r -> effects (map Tailer calls) E (Z.of_nat (k + j)) l' = view r l') /\
  (forall x l', x < Z.of_nat k -> effects (map Tailer calls) E x l' = E x l') /\
  Forall (fun c => Z.of_nat k <= call_reader c < Z.of_nat (k + length rs)) calls.
Proof.
  revert k rs' calls closed E. induction rs as [|r rs IH]; intros k rs' calls closed E; cbn [stop_readers].
  { intros [= <- <- _] _ _. by split_and!. }
  intros H Hid Hv. destruct (Hid 0%nat r eq_refl) as [Hr Hvirt]. pose proof (StopReading_turned r t l Hvirt) as Ht.
  destruct (StopReading r t l) as [r' c1]. destruct Ht as (Eid & Evirt & Hother & Hc).
  destruct (stop_readers t l rs) as [[rs1 c2] closed1] eqn:E1. injection H as <- <- _.
  rewrite Nat.add_0_r in Hr. set (E' := effects (map Tailer c1) E).
  assert ((forall l', E' (Z.of_nat k) l' = view r' l') /\ (forall x l', x <> Z.of_nat k -> E' x l' = E x l')) as [Hk Hx].
  { unfold E'. specialize (Hv 0%nat r). rewrite Nat.add_0_r in Hv. destruct Hc as [[-> Hl]|(c & -> & _ & Hc)]; cbn.
    - split; [|done]. intros l'. rewrite Hv by done. destruct (decide (l' = l)) as [->|]; [done|by rewrite Hother].
    - rewrite Hc, Hr. unfold LogTailerFacts.expect. split.
      + intros l'. case_decide as Hd; [by destruct Hd as [_ ->]|]. rewrite Hv, Hother by naive_solver. done.
      + intros x l' Hne. by rewrite decide_False by naive_solver. }
  destruct (IH (S k) rs1 c2 closed1 E' eq_refl) as (H1 & H2 & H3 & H5).
  - intros j x Hj. replace (S k + j)%nat with (k + S j)%nat by lia. by apply Hid.
  - intros j x l' Hj. replace (S k + j)%nat with (k + S j)%nat by lia. rewrite Hx by lia. by apply Hv.
  - rewrite map_app, effects_app. fold E'. split_and!.
    + intros [|j] x; cbn; [intros [= <-]; rewrite Nat.add_0_r; split; congruence|].
      replace (k + S j)%nat with (S k + j)%nat by lia. apply H1.
    + intros [|j] x l'; cbn; [intros [= <-]; rewrite Nat.add_0_r, H3 by lia; apply Hk|].
      replace (k + S j)%nat with (S k + j)%nat by lia. apply H2.
    + intros x l' Hlt. rewrite H3 by lia. apply Hx. lia.
    + cbn [length]. apply Forall_app. split; [|eapply Forall_impl; [exact H5|]; cbn; lia].
      destruct Hc as [[-> _]|(c & -> & Hcr & _)]; constructor; [lia|constructor].
Qed.

Lemma stop_readers_length t l rs rs' calls closed : stop_readers t l rs = (rs', calls, closed) -> length rs' = length rs.
Proof.
  revert rs' calls closed. induction rs as [|r rs IH]; intros rs' calls closed; cbn [stop_readers]; [by intros [= <- _ _]|].
  destruct (StopReading r t l). destruct (stop_readers t l rs) as [[rs1 c1] b1] eqn:E. intros [= <- _ _]. cbn. by erewrite IH.
Qed.

Lemma stop_all_leads self t l rs calls closed rp pcalls : stop_readers t l (log_readers_ self) = (rs, calls, closed) ->
  StopReading (pending_reader_ self) t l = (rp, pcalls) ->
  leads None None self (emit (map Tailer (calls ++ pcalls)) (set_pending_reader rp (set_log_readers rs self))).
Proof.
  intros E1 E2. exists (map Tailer (calls ++ pcalls)). split; [done|].
  split; [unfold count; cbn; by eapply stop_readers_length|]. intros E [Hid Hv _ Hp].
  pose proof (StopReading_pretends (pending_reader_ self) t l Hp) as Hrp. rewrite E2 in Hrp. destruct Hrp as [Hrp ->]. rewrite app_nil_r.
  destruct (stop_readers_in_step t l _ 0 rs calls closed E E1 Hid ltac:(intros; by apply Hv)) as (Hid' & Hv' & _ & Ha).
  split; [|apply Forall_map; eapply Forall_impl; [exact Ha|]; cbn; unfold count; lia]. split; [exact Hid'|intros; by apply Hv'| |exact Hrp]. intros i r l' Hi. specialize (Hv' i r l' Hi). cbn in Hv'. by rewrite Hv'.
Qed.

Lemma RemoveSubscriberInternal_leads self t id l self' : RemoveSubscriberInternal copilot_worker self t id l = Ok self' ->
  leads None None self self'.
Proof.
  unfold RemoveSubscriberInternal. destruct (TopicManager.RemoveSubscriber (manager self l) t id) as [m all_removed].
  set (self0 := set_manager l m self). intros ([w q] & _ & (q1 & _ & H)%obind_Ok)%obind_Ok.
  set (self1 := if all_removed then _ else _) in H.
  assert (leads None None self self1) as H1.
  { apply (leads_trans _ None _ _ self0); [apply silent_steady; auto with link|]. unfold self1. destruct all_removed; [|apply leads_refl].
    destruct (stop_readers t l (log_readers_ self0)) as [[rs calls] closed] eqn:E1.
    destruct (StopReading (pending_reader_ self0) t l) as [rp pcalls] eqn:E2.
    pose proof (stop_all_leads self0 t l rs calls closed rp pcalls E1 E2) as H2.
    destruct (closed && _); [|exact H2]. eapply leads_trans; [exact H2|]. apply silent_steady. auto with link. }
  apply Ok_inj in H as <-. eapply leads_trans; [exact H1|]. apply silent_steady. auto with link.
Qed.

Lemma RemoveSubscriber_leads self id self' b : RemoveSubscriber GetLogID copilot_worker self id = Ok (self', b) -> leads None None self self'.
Proof.
  unfold RemoveSubscriber. destruct (SubscriptionMap.MoveOut _ _ _) as [m topic]. set (self0 := set_stream_subscriptions m self).
  assert (leads None None self self0) as H0 by (apply silent_steady; auto with link).
  destruct topic as [t|]; [|by intros [= <- _]]. destruct (GetLogID t) as [l|]; [|by intros [= <- _]].
  intros (self1 & E%RemoveSubscriberInternal_leads & H)%obind_Ok. simplify_eq. by eapply leads_trans.
Qed.

Lemma RemoveStream_leads self stream self' : RemoveStream GetLogID copilot_worker self stream = Ok self' -> leads None None self self'.
Proof.
  unfold RemoveStream. intros (self1 & E & <-%Ok_inj)%obind_Ok.
  apply (leads_trans _ None _ _ self1); [|apply silent_steady; auto with link].
  revert E. generalize (SubscriptionMap.VisitSubscriptions (stream_subscriptions_ self) stream) as subs. intros subs. revert self.
  induction subs as [|[sub t] subs IH]; intros self; cbn [remove_all]; [intros <-%Ok_inj; apply leads_refl|].
  intros (self2 & E & H%IH)%obind_Ok. eapply leads_trans; [|exact H].
  destruct (GetLogID t); [by eapply RemoveSubscriberInternal_leads|apply Ok_inj in E as <-; apply leads_refl].
Qed.
End Calls.
