(* ===== verification/Tower.v ===== *)
(** * A room of the tower: log tailer and topic tailer together

    The wiring of [ControlTower::Initialize] (src/controltower/tower.cc): what
    the log tailer hands on goes to the topic tailer, and the calls the topic
    tailer makes go to the log tailer.  The storage may deliver any record of a
    log to any reader at any time; the log tailer keeps what the reader expects,
    and so the promise on which Delivery.v relies is kept. *)

From S2P Require Import Prelude Coding CodingFacts Messages Containers LRUCache Bloom DataCache DataCacheFacts.
From S2P Require Import DataCacheVisit TopicManager LogReader LogReaderFacts TopicTailer TailerInv TopicTailerFacts.
From S2P Require Import TailerSteps TailerSubs TailerRoom Delivery LogTailer LogTailerFacts TailerLink TailerCalls.

#[local] Open Scope outcome_scope.
Import LogTailer LogTailerFacts.

Record tower := { tower_topics : TopicTailer; tower_logs : LogTailer.t }.

Inductive tower_action :=
| FromStorage (f : Forward)
| InRoom (a : action)
| TickLogs (now : Z) (answers : nat -> Answer).

(** The callbacks [on_record] and [on_gap]. *)
Definition handled (f : Forward) : action :=
  match f with
  | ForwardRecord msg log_id reader_id => LogRecord msg log_id reader_id
  | ForwardGap log_id type from to reader_id => LogGap log_id type from to reader_id
  end.

(** The calls that do not come from the log tailer. *)
Definition from_room (a : action) : Prop :=
  match a with LogRecord _ _ _ | LogGap _ _ _ _ _ => False | _ => True end.

Definition tower_concerns (a : tower_action) (id : CopilotSub) : Prop :=
  match a with InRoom a => concerns a id | _ => False end.

Section Tower.
Context (XXH64 : slice -> Z) (sizeof_MessageData sizeof_CacheEntry : Z).
Context (WriteHasFailed : list event -> bool).
Context (GetLogID : TopicUUID -> option Z) (copilot_worker : CopilotSub -> Z).
Context (log : Z -> Z -> option MessageData).
(** The time of the next restart, whenever one is scheduled. *)
Context (restart_time_of : LogTailer.t -> Z).

(** The storage opens every log. *)
#[local] Abbreviation start_ok := (fun _ : list event => true).
#[local] Abbreviation run_action := (run_action XXH64 sizeof_MessageData sizeof_CacheEntry WriteHasFailed start_ok GetLogID copilot_worker).
#[local] Abbreviation runs := (runs XXH64 sizeof_MessageData sizeof_CacheEntry WriteHasFailed start_ok GetLogID copilot_worker log).
#[local] Abbreviation enabled := (enabled sizeof_MessageData sizeof_CacheEntry log).
#[local] Abbreviation healthy := (healthy XXH64 copilot_worker log).
#[local] Abbreviation environment_ok := (environment_ok sizeof_MessageData sizeof_CacheEntry GetLogID copilot_worker log).
#[local] Abbreviation expects := (expects copilot_worker).
#[local] Abbreviation records := (records log).

(** The calls of the topic tailer, made on the log tailer. *)
Fixpoint run_calls (es : list event) (m : LogTailer.t) : outcome LogTailer.t :=
  match es with
  | [] => Ok m
  | e :: es =>
      m <~ match e with
           | Tailer (TailerStartReading l q r) =>
               x <~ LogTailer.StartReading m l q r {| open_ok := true; restart_at := restart_time_of m |} ;; Ok (fst x)
           | Tailer (TailerStopReading l r) => x <~ LogTailer.StopReading m l r true ;; Ok (fst x)
           | _ => Ok m
           end ;;
      run_calls es m
  end.

(** A handler of the topic tailer with its calls. *)
Definition run_room (a : action) (s : tower) : outcome tower :=
  self <~ run_action a (tower_topics s) ;;
  m <~ run_calls (drop (length (trace_ (tower_topics s))) (trace_ self)) (tower_logs s) ;;
  Ok {| tower_topics := self; tower_logs := m |}.

Definition run_tower (a : tower_action) (s : tower) : outcome tower :=
  match a with
  | FromStorage f =>
      r <~ run_forward (tower_logs s) f ;;
      let '(m, handed) := r in
      let s := {| tower_topics := tower_topics s; tower_logs := m |} in
      if handed : bool then run_room (handled f) s else Ok s
  | InRoom a => run_room a s
  | TickLogs now answers =>
      m <~ Tick now answers (tower_logs s) ;; Ok {| tower_topics := tower_topics s; tower_logs := m |}
  end.

(** What is promised for a step.  The storage delivers records of the log, to
    an existing reader, in any order; a gap that the reader expects covers no
    records (see [gap_at]).  A reader may take over from the virtual reader only
    where that one stands (see the finding about [StealLogSubscriptions]). *)
Definition tower_enabled (s : tower) (a : tower_action) : Prop :=
  let self := tower_topics s in
  match a with
  | FromStorage (ForwardRecord data l r) => 0 <= r < Z.of_nat (count self) /\ steal_safe (pending_reader_ self) l /\
      (exists m0, log l (data_seqno_ data) = Some m0 /\ same_message m0 data) /\
      cache_room sizeof_MessageData sizeof_CacheEntry self data
  | FromStorage (ForwardGap l type from to r) => 0 <= r < Z.of_nat (count self) /\ steal_safe (pending_reader_ self) l /\
      (expected (tower_logs s) r l = Some from -> exists reader p,
        log_readers_ self !! Z.to_nat r = Some reader /\ from = u64 (p + 1) /\ gap_at (log:=log) self l p to reader)
  | InRoom a => from_room a /\ enabled self a /\
      match a with Reentry l _ _ => steal_safe (pending_reader_ self) l | _ => True end
  | TickLogs now answers => forall k, open_ok (answers k) = true /\ now <= restart_at (answers k)
  end.

Inductive tower_runs : tower -> list tower_action -> tower -> Prop :=
| tower_runs_nil s : tower_runs s [] s
| tower_runs_cons s a acts s1 s' : tower_enabled s a -> run_tower a s = Ok s1 -> tower_runs s1 acts s' -> tower_runs s (a :: acts) s'.

(** The invariant: both components are sound, and they are in step. *)
Record tower_ok (s : tower) : Prop := {
  tw_healthy : healthy (tower_topics s);
  tw_inv : inv (tower_logs s);
  tw_count : num_readers (tower_logs s) = count (tower_topics s);
  tw_linked : linked None (tower_topics s) (expected (tower_logs s))
}.

(** ** Calls *)

Lemma effects_ext n es E E' : (forall r l, 0 <= r < Z.of_nat n -> E r l = E' r l) ->
  forall r l, 0 <= r < Z.of_nat n -> effects es E r l = effects es E' r l.
Proof.
  revert E E'. induction es as [|e es IH]; intros E E' HE r l Hr; [by apply HE|]. apply IH; [|done].
  intros r' l' Hr'. destruct e as [| [] |]; cbn; try (by apply HE); unfold expect; case_decide; auto.
Qed.

Lemma linked_in W self E E' : (forall r l, 0 <= r < Z.of_nat (count self) -> E r l = E' r l) -> linked W self E -> linked W self E'.
Proof.
  intros Heq [Hid Hv Hw Hp]. assert (forall i r l, log_readers_ self !! i = Some r -> E (Z.of_nat i) l = E' (Z.of_nat i) l) as Hi.
  { intros i r l Hr. apply Heq. apply lookup_lt_Some in Hr. unfold count. lia. }
  split; [done| | |done]; intros i r l Hr; rewrite <-(Hi i r l Hr); eauto.
Qed.

Lemma run_calls_spec es m : inv m -> Forall (addressed (num_readers m)) es ->
  exists m', run_calls es m = Ok m' /\ inv m' /\ num_readers m' = num_readers m /\
    forall r l, 0 <= r < Z.of_nat (num_readers m) -> expected m' r l = effects es (expected m) r l.
Proof.
  revert m. induction es as [|e es IH]; intros m Hm Ha; [by exists m|]. apply Forall_cons in Ha as [He Ha].
  assert (forall m1 E1, became m m1 E1 -> E1 = event_effect (expected m) e -> exists m', run_calls es m1 = Ok m' /\ inv m' /\
    num_readers m' = num_readers m /\ forall r l, 0 <= r < Z.of_nat (num_readers m) -> expected m' r l = effects (e :: es) (expected m) r l) as Hgo.
  { intros m1 E1 [Hm1 Hn He1] ->. destruct (IH m1 Hm1 ltac:(by rewrite Hn)) as (m' & E & Hm' & Hn' & He').
    exists m'. split_and!; [done|done|congruence|]. intros r l Hr. rewrite He' by (by rewrite Hn). cbn.
    apply (effects_ext (num_readers m)); [|done]. intros r' l' Hr'. by apply He1. }
  cbn [run_calls]. destruct e as [msg rs|[l q r|l r]|l]; cbn [obind].
  - apply (Hgo m (expected m)); [by apply became_refl|done].
  - destruct (LogTailer_StartReading_spec m l q r {| open_ok := true; restart_at := restart_time_of m |} Hm) as (m1 & E & Hb & _); [exact He|].
    rewrite E. cbn [obind fst]. by eapply Hgo.
  - destruct (LogTailer_StopReading_spec m l r true Hm) as (m1 & b & E & Hb & _); [exact He|]. rewrite E. cbn [obind fst]. by eapply Hgo.
  - apply (Hgo m (expected m)); [by apply became_refl|done].
Qed.

(** After a handler that keeps the readers in step with [expected m]. *)
Lemma run_room_spec a self m self' : run_action a self = Ok self' -> healthy self' -> inv m -> num_readers m = count self ->
  goes self self' (expected m) ->
  exists s', run_room a {| tower_topics := self; tower_logs := m |} = Ok s' /\ tower_topics s' = self' /\ tower_ok s'.
Proof.
  intros Ha Hh Hm Hn (es & Ht & Hc & Hl & Had). unfold run_room. cbn [tower_topics tower_logs]. rewrite Ha. cbn [obind].
  rewrite Ht, drop_app_length. destruct (run_calls_spec es m Hm ltac:(by rewrite Hn)) as (m' & E & Hm' & Hn' & He').
  rewrite E. cbn [obind]. eexists. split; [done|]. split; [done|]. split; cbn; [done|done|congruence|].
  eapply linked_in; [|exact Hl]. intros r l Hr. symmetry. apply He'. by rewrite Hn, <-Hc.
Qed.

(** ** Steps *)

Lemma find_reader_by_id rs k i r : (forall j x, rs !! j = Some x -> reader_id_ x = Z.of_nat (k + j)) -> rs !! i = Some r ->
  find_reader (Z.of_nat (k + i)) k rs = Some (k + i)%nat.
Proof.
  revert k i. induction rs as [|x rs IH]; intros k i Hid; [done|]. cbn [find_reader]. rewrite (Hid 0%nat x eq_refl). destruct i as [|i]; cbn.
  - intros _. by rewrite Z.eqb_refl, Nat.add_0_r.
  - intros Hi. rewrite (proj2 (Z.eqb_neq _ _)) by lia. replace (k + S i)%nat with (S k + i)%nat by lia. apply IH; [|done].
    intros j y Hj. replace (S k + j)%nat with (k + S j)%nat by lia. by apply Hid.
Qed.

Lemma linked_find W self E i r : linked W self E -> log_readers_ self !! i = Some r -> FindLogReader self (Z.of_nat i) = Some i.
Proof. intros HE Hi. apply (find_reader_by_id (log_readers_ self) 0 i r); [|done]. intros j x Hj. by apply (lk_id _ _ _ HE). Qed.

Lemma view_pos r l q : view r l = Some q -> exists p, pos r l = Some p /\ q = u64 (p + 1).
Proof.
  unfold view, pos. destruct (log_state_ r !! l) as [st|]; [|done]. cbn. destruct (is_reading st); [|done]. intros [= <-]. eauto.
Qed.

(** When the log tailer has moved on at a reader and log. *)
Lemma linked_moves self E E' i l q : linked None self E -> E (Z.of_nat i) l = Some q -> is_Some (E' (Z.of_nat i) l) ->
  (forall i' l', (i', l') <> (i, l) -> (i' < count self)%nat -> E' (Z.of_nat i') l' = E (Z.of_nat i') l') -> linked (Some (i, l)) self E'.
Proof.
  intros [Hid Hv Hw Hp] Hq Hq' Hother. split; [done| | |done].
  - intros j r l' Hj Hne. rewrite Hother; [by apply Hv|congruence|by eapply lookup_lt_Some].
  - intros j r l' Hj. destruct (decide ((j, l') = (i, l))) as [[= -> ->]|Hne].
    + split; [|done]. intros _. rewrite <-(Hv i r l Hj) by done. by exists q.
    + rewrite Hother; [by apply Hw|done|by eapply lookup_lt_Some].
Qed.

(** The actions of the topic tailer that a step of the tower amounts to. *)
Definition projected (s : tower) (a : tower_action) : list action :=
  match a with
  | FromStorage f =>
      match run_forward (tower_logs s) f with Ok (_, true) => [handled f] | _ => [] end
  | InRoom a => [a]
  | TickLogs _ _ => []
  end.

Lemma room_goes s a self' : tower_ok s -> from_room a -> match a with Reentry l _ _ => steal_safe (pending_reader_ (tower_topics s)) l | _ => True end ->
  run_action a (tower_topics s) = Ok self' -> goes (tower_topics s) self' (expected (tower_logs s)).
Proof.
  intros [Hh _ _ Hl] Hroom Hsafe Ha. apply (leads_goes None); [|exact Hl]. pose proof (lk_pending _ _ _ Hl) as Hp.
  destruct a as [data l rid|l type from to rid|l i last|w id last|t start id|id|stream|ok l q| |cap]; try done; cbn [Delivery.run_action] in Ha.
  - revert Ha. by apply DrainReentry_leads.
  - eapply DrainPending_leads; [by eapply linked_sorts| |exact Ha]. intros p Hf.
    destruct (cache_readers_ (tower_topics s) !! w) as [q|] eqn:Eq; cbn in Hf; [|done].
    destruct (ok_queues (proj1 Hh) _ _ Eq) as [_ Hq]. destruct (Hq id p Hf) as [_ [_ Hb]].
    unfold kMaxSeqno in Hb. unfold fits. lia.
  - apply obind_Ok in Ha as ([self1 b] & E%AddSubscriber_silent & <-%Ok_inj). by apply silent_steady.
  - apply obind_Ok in Ha as ([self1 b] & E & <-%Ok_inj). by eapply (RemoveSubscriber_leads XXH64).
  - by eapply (RemoveStream_leads XXH64).
  - by eapply silent_steady, ProcessFindLatestSeqnoResponse_silent.
  - apply Ok_inj in Ha as <-. apply silent_steady. auto with link.
  - apply obind_Ok in Ha as (dc & _ & <-%Ok_inj). apply silent_steady. auto with link.
Qed.

Lemma gap_at_fits self i l p to r : healthy self -> log_readers_ self !! i = Some r -> gap_at (log:=log) self l p to r -> fits 64 to.
Proof.
  intros [Hok _] Hi Hg. pose proof (gap_range _ _ _ _ _ Hg) as [Hp1 Hp2]. unfold kMaxSeqno in Hp2.
  assert (fits 64 p) as [Hp _]; [|split; lia].
  eapply pos_bounds; [|apply Hg]. apply (c_reader (ok_core Hok) (Some i) r Hi).
Qed.

Lemma handed_goes s f m1 self' : tower_ok s -> tower_enabled s (FromStorage f) -> run_forward (tower_logs s) f = Ok (m1, true) ->
  enabled (tower_topics s) (handled f) /\ inv m1 /\ num_readers m1 = num_readers (tower_logs s) /\
  (run_action (handled f) (tower_topics s) = Ok self' -> goes (tower_topics s) self' (expected m1)).
Proof.
  intros [Hh Hi Hn Hl] Hen Hf. set (self := tower_topics s) in *. set (m := tower_logs s) in *.
  assert (0 <= forward_reader f < Z.of_nat (count self)) as Hr by (destruct f; apply Hen).
  destruct (run_forward_spec m f Hi ltac:(unfold in_range, num_readers in *; lia)) as (m1' & b & E & Hi1 & Hn1 & He).
  rewrite Hf in E. injection E as <- <-. set (i := Z.to_nat (forward_reader f)).
  assert (forward_reader f = Z.of_nat i) as Hri by (unfold i; lia). clearbody i.
  destruct (lookup_lt_is_Some_2 (log_readers_ self) i ltac:(unfold count in Hr; lia)) as [r Hir].
  pose proof (linked_find _ _ _ _ _ Hl Hir) as Hfind.
  assert (forall l from to, (forall r' l', range_of r' l' f = if decide (forward_reader f = r' /\ l = l') then Some (from, to) else None) ->
    expected m (Z.of_nat i) l = Some from /\ expected m1 (Z.of_nat i) l = Some (u64 (to + 1)) /\ view r l = Some from /\
    linked (Some (i, l)) self (expected m1)) as Hmove.
  { intros l from to Hrange. pose proof (He (Z.of_nat i) l ltac:(unfold in_range, num_readers in *; lia)) as Hil.
    rewrite Hrange, decide_True in Hil by done. destruct Hil as [Hb Hnew]. symmetry in Hb. apply bool_decide_eq_true in Hb.
    split; [done|]. split; [done|]. split; [by rewrite <-(lk_view _ _ _ Hl i r l Hir)|].
    eapply linked_moves; [exact Hl|exact Hb|by rewrite Hnew|]. intros i' l' Hne Hlt.
    specialize (He (Z.of_nat i') l' ltac:(unfold in_range, num_readers in *; lia)). rewrite Hrange in He.
    rewrite decide_False in He; [done|]. intros [Hri' <-]. apply Hne. f_equal. lia. }
  split; [|split; [done|split; [done|]]].
  - destruct f as [data l rid|l type from to rid]; cbn [forward_reader] in *; subst rid; cbn [handled Delivery.enabled].
    + destruct Hen as (_ & _ & (m0 & Hm0 & Hs) & Hroom). destruct (Hmove l (data_seqno_ data) (data_seqno_ data)) as (_ & _ & Hv & _); [done|].
      destruct (view_pos r l _ Hv) as (p & Hp & Hq). by exists i, r, p, m0.
    + destruct Hen as (_ & _ & Hg). destruct (Hmove l from to) as (Hx & _); [done|].
      destruct (Hg Hx) as (reader & p & Hread & Hfrom & Hgap). rewrite Nat2Z.id in Hread. exists i, r, p. split_and!; [done|done|done|].
      assert (Some reader = Some r) as [= ->]; [by etrans; [symmetry; exact Hread|]|done].
  - intros Ha. destruct f as [data l rid|l type from to rid]; cbn [forward_reader] in *; subst rid; cbn [handled Delivery.run_action] in Ha.
    + destruct Hen as (_ & Hsafe & _). destruct (Hmove l (data_seqno_ data) (data_seqno_ data)) as (_ & Hnew & _ & Hlk); [done|].
      by eapply (SendLogRecord_goes XXH64 sizeof_MessageData sizeof_CacheEntry start_ok) in Ha.
    + destruct Hen as (_ & Hsafe & Hg). destruct (Hmove l from to) as (Hx & Hnew & _ & Hlk); [done|].
      destruct (Hg Hx) as (reader & p & Hread & _ & Hgap). eapply (SendGapRecord_goes start_ok) in Ha; try done. by eapply gap_at_fits.
Qed.
(** One step: it completes, keeps both components in step, and is for the topic
    tailer the calls it is projected to. *)
Lemma tower_step s a : environment_ok -> tower_ok s -> tower_enabled s a ->
  exists s', run_tower a s = Ok s' /\ tower_ok s' /\ runs (tower_topics s) (projected s a) (tower_topics s').
Proof.
  intros Henv Hs Hen. pose proof Hs as [Hh Hi Hn Hl].
  assert (forall a m, enabled (tower_topics s) a -> inv m -> num_readers m = count (tower_topics s) ->
    (forall self', run_action a (tower_topics s) = Ok self' -> goes (tower_topics s) self' (expected m)) ->
    exists s', run_room a {| tower_topics := tower_topics s; tower_logs := m |} = Ok s' /\ tower_ok s' /\ runs (tower_topics s) [a] (tower_topics s')) as Hroom.
  { intros b m Hb Hm Hc Hg.
    destruct (action_step XXH64 sizeof_MessageData sizeof_CacheEntry WriteHasFailed start_ok GetLogID copilot_worker log
      (tower_topics s) b Henv Hh Hb) as (self' & es & E & Hh' & _).
    destruct (run_room_spec b _ m self' E Hh' Hm Hc (Hg self' E)) as (s' & Er & <- & Hs').
    exists s'. split; [done|]. split; [done|]. econstructor; [done|exact E|constructor]. }
  destruct a as [f|a|now answers]; cbn [run_tower projected].
  - assert (0 <= forward_reader f < Z.of_nat (count (tower_topics s))) as Hr by (destruct f; apply Hen).
    destruct (run_forward_spec (tower_logs s) f Hi ltac:(unfold in_range, num_readers in *; lia)) as (m1 & b & E & Hi1 & Hn1 & He).
    rewrite E. cbn [obind]. destruct b; cbn [tower_topics].
    + destruct (handed_goes s f m1 (tower_topics s) Hs Hen E) as (Hb & _). apply Hroom; [done|done|congruence|].
      intros self' Ha. by eapply handed_goes.
    + eexists. split; [done|]. split; [|constructor]. split; cbn; [done|done|congruence|].
      eapply linked_in; [|exact Hl]. intros r l Hrl. specialize (He r l ltac:(unfold in_range, num_readers in *; lia)).
      destruct (range_of r l f) as [[from to]|]; [by destruct He|done].
  - destruct Hen as (Hfrom & Hb & Hsafe). destruct s as [self m]. apply Hroom; [done..|]. intros self' Ha. by eapply room_goes in Ha.
  - destruct (Tick_loop_spec now answers (length (restart_events_ (tower_logs s))) 0 (tower_logs s) Hi Hen ltac:(apply length_filter))
      as (m' & E & [Hi' Hn' He] & _). unfold Tick. rewrite E. cbn [obind]. eexists. split; [done|]. split; [|constructor].
    split; cbn; [done|done|congruence|]. eapply linked_in; [|exact Hl]. intros r l Hrl. symmetry. apply He.
    unfold in_range, num_readers in *. lia.
Qed.

(** [ControlTower::Initialize], for one room: the readers are numbered from 0. *)
Definition NewTower (dc : DataCache) (max_requests : Z) (readers_per_room : nat) (lag : Z) : outcome tower :=
  r <~ Initialize New readers_per_room None ;;
  Ok {| tower_topics := NewTopicTailer dc max_requests (map Z.of_nat (seq 0 readers_per_room)) lag; tower_logs := fst r |}.

Lemma NewTower_ok dc max_requests n lag : config_ok dc max_requests lag ->
  exists s, NewTower dc max_requests n lag = Ok s /\ tower_ok s.
Proof.
  intros Hcfg. eexists. split; [reflexivity|].
  destruct (reachable_inv n _ (reach_init n _ eq_refl)) as [Hi Hn]. split; cbn [tower_topics tower_logs fst].
  - by apply NewTopicTailer_healthy.
  - exact Hi.
  - rewrite Hn. unfold count. cbn. by rewrite !length_map, length_seq.
  - assert (forall i r, map (fun id => NewLogReader false id lag) (map Z.of_nat (seq 0 n)) !! i = Some r ->
      r = NewLogReader false (Z.of_nat i) lag) as Hr.
    { intros i r. rewrite !list_lookup_fmap, fmap_Some. intros (x & (j & Hj & ->)%fmap_Some & ->). apply lookup_seq in Hj as [-> _]. done. }
    assert (forall i l, LogTailerFacts.expected (fst ({| readers_ := replicate n ∅; restart_events_ := []; storage_ := true; calls_ := [] |}, true)) i l = None) as He.
    { intros i l. unfold expected. cbn. destruct (replicate n ∅ !! Z.to_nat i) as [x|] eqn:E; [|done].
      apply lookup_replicate in E as [-> _]. cbn. by rewrite lookup_empty. }
    split; cbn [log_readers_ pending_reader_ NewTopicTailer].
    + intros i r ->%Hr. done.
    + intros i r l ->%Hr _. apply He.
    + intros i r l ->%Hr. rewrite He. done.
    + split; [done|]. intros l st. cbn. by rewrite lookup_empty.
Qed.

Lemma projected_concerns s a id : ~ tower_concerns a id -> forall b, b ∈ projected s a -> ~ concerns b id.
Proof.
  intros Ha b Hb. destruct a as [f|a|now answers]; cbn in Ha, Hb; [|by apply list_elem_of_singleton in Hb as ->|by apply elem_of_nil in Hb].
  destruct (run_forward (tower_logs s) f) as [[m []]|]; try (by apply elem_of_nil in Hb).
  apply list_elem_of_singleton in Hb as ->. by destruct f.
Qed.

Lemma runs_append s1 acts1 s2 acts2 s3 : runs s1 acts1 s2 -> runs s2 acts2 s3 -> runs s1 (acts1 ++ acts2) s3.
Proof. induction 1; [done|]. intros. cbn. econstructor; eauto. Qed.

Lemma tower_runs_projected s acts s' : environment_ok -> tower_ok s -> tower_runs s acts s' ->
  tower_ok s' /\ exists acts', runs (tower_topics s) acts' (tower_topics s') /\
    forall id, (forall a, a ∈ acts -> ~ tower_concerns a id) -> forall b, b ∈ acts' -> ~ concerns b id.
Proof.
  intros Henv Hs Hr. revert Hs. induction Hr as [s|s a acts s1 s' Hen Ha Hr IH]; intros Hs.
  { split; [done|]. exists []. split; [constructor|]. by intros id _ b ?%elem_of_nil. }
  destruct (tower_step s a Henv Hs Hen) as (s2 & E & Hs2 & Hp). rewrite Ha in E. apply Ok_inj in E as <-.
  destruct (IH Hs2) as [Hs' (acts' & Hr' & Hc)]. split; [done|]. exists (projected s a ++ acts'). split; [by eapply runs_append|].
  intros id Hno b [Hb|Hb]%elem_of_app.
  - eapply projected_concerns; [|exact Hb]. apply Hno. by left.
  - apply (Hc id); [|done]. intros c Hin. apply Hno. by right.
Qed.

(** ** Properties *)

(** C7: no step of a room within the promises of [tower_enabled] fails an
    assertion.  The storage may deliver any record of the log to any existing
    reader, at any time and in any order, and the other calls come in any order
    as well: the log tailer holds back what a reader does not expect, so that
    neither its own assertions nor those of the topic tailer fail, and
    afterwards the log tailer expects for each reader and log exactly what the
    reader expects.  It is assumed that the storage opens every log it is asked
    to open and that a tick sets restart times that are not past
    ([failed_open_aborts] and [Tick_spins] are what happens otherwise), that a
    gap which a reader expects covers no record and passes no subscription on a
    topic of the log the reader does not follow, that a reader takes over from
    the virtual reader only where that one stands ([steal_safe]; otherwise
    [steal_expects_wrong_seqno]), and that records fit the counters of the
    cache. *)
Theorem tower_never_aborts dc max_requests n lag s0 acts s a : environment_ok -> config_ok dc max_requests lag ->
  NewTower dc max_requests n lag = Ok s0 -> tower_runs s0 acts s -> tower_enabled s a ->
  exists s', run_tower a s = Ok s' /\
    forall i r l, log_readers_ (tower_topics s') !! i = Some r -> expected (tower_logs s') (Z.of_nat i) l = view r l.
Proof.
  intros Henv Hcfg H0 Hr Hen. destruct (NewTower_ok dc max_requests n lag Hcfg) as (s1 & E & Hs1). rewrite H0 in E. apply Ok_inj in E as <-.
  destruct (tower_runs_projected _ _ _ Henv Hs1 Hr) as [Hs _]. destruct (tower_step s a Henv Hs Hen) as (s' & E & Hs' & _).
  exists s'. split; [done|]. intros i r l Hi. by apply (lk_view _ _ _ (tw_linked _ Hs') i r l Hi).
Qed.

(** C2: exactly-once delivery from the storage to the subscribers, under the
    promises of [tower_enabled].  The two tailers together implement the
    delivery contract of the topic tailer on a storage that hands any record of
    the log to any reader in any order and any number of times: while a
    subscriber sends no request about its subscription, it is sent exactly the
    records of its topic from the sequence number it expects on, in order and
    once each.  It is assumed that the storage opens every log it is asked to
    open, also at a tick ([failed_open_aborts] is what happens otherwise); that
    a gap which a reader expects covers no record and ends before the
    subscriptions on topics of the log which the reader does not follow
    ([gap_skips_unread_records]); that a reader takes over from the virtual
    reader only where that one stands ([steal_safe]; otherwise
    [steal_expects_wrong_seqno]); and, for the other calls, the promises of
    [delivery_exactly_once]. *)
Theorem tower_delivers dc max_requests n lag s0 acts0 s acts s' l t id q : environment_ok -> config_ok dc max_requests lag ->
  NewTower dc max_requests n lag = Ok s0 -> tower_runs s0 acts0 s -> tower_runs s acts s' -> GetLogID t = Some l ->
  (forall a, a ∈ acts -> ~ tower_concerns a id) -> expects (tower_topics s) l t id q ->
  exists es q', trace_ (tower_topics s') = trace_ (tower_topics s) ++ es /\ expects (tower_topics s') l t id q' /\ q <= q' /\
    sent t id es = records l t q q'.
Proof.
  intros Henv Hcfg H0 Hr0 Hr Hl Hno Hex. destruct (NewTower_ok dc max_requests n lag Hcfg) as (s1 & E & Hs1).
  rewrite H0 in E. apply Ok_inj in E as <-. destruct (tower_runs_projected _ _ _ Henv Hs1 Hr0) as [Hs _].
  destruct (tower_runs_projected _ _ _ Henv Hs Hr) as [_ (acts' & Hp & Hc)].
  destruct (runs_serves _ _ _ _ _ _ _ _ _ _ _ l t id Henv (tw_healthy _ Hs) Hp Hl (Hc id Hno)) as (_ & es & Htr & Hpr & _).
  destruct (Hpr q Hex) as (q' & ? & ? & ?). by exists es, q'.
Qed.
End Tower.

(** ** A run *)

Definition example_step := run_tower example_hash 100 200 never example_route example_worker (fun _ => 1000).

Fixpoint example_steps (acts : list tower_action) (s : outcome tower) : outcome tower :=
  match acts with [] => s | a :: acts => s <~ s ;; example_steps acts (example_step a s) end.

(** A client is served at 4; the storage delivers 5, which is held back, 4, and
    4 once more. *)
Definition example_serve : list tower_action :=
  [InRoom (Subscribe (example_topic Byte.x61) 4 (client 1)); InRoom (PendingItem 0 (client 1) true)].
Definition example_disorder : list tower_action :=
  [FromStorage (ForwardRecord (example_data Byte.x61 5) 7 0); FromStorage (ForwardRecord (example_data Byte.x61 4) 7 0);
   FromStorage (ForwardRecord (example_data Byte.x61 4) 7 0); TickLogs 10 (fun _ => {| open_ok := true; restart_at := 20 |})].

Definition new_tower : outcome tower := NewTower no_cache 2 2 1000.
Definition tower_after (acts : list tower_action) : tower :=
  match example_steps acts new_tower with
  | Ok s => s
  | Abort _ => {| tower_topics := example_tailer; tower_logs := LogTailer.New |}
  end.

Definition example_tower_runs := tower_runs example_hash 100 200 never example_route example_worker example_log (fun _ => 1000).


Lemma example_serve_runs : example_tower_runs (tower_after []) example_serve (tower_after example_serve).
Proof.
  econstructor; [|vm_compute; reflexivity|].
  { split; [done|]. split; [|done]. split; [exists [Byte.x62], [Byte.x61]; by vm_compute|by vm_compute]. }
  econstructor; [|vm_compute; reflexivity|constructor]. split; [done|]. split; [by eexists|done].
Qed.

(** The run of the storage, from each of its states. *)
Lemma example_record_enabled acts q : example_log 7 q = Some (example_data Byte.x61 q) ->
  log_state_ (pending_reader_ (tower_topics (tower_after acts))) !! 7 = None -> count (tower_topics (tower_after acts)) = 2%nat ->
  data_cache_ (tower_topics (tower_after acts)) = no_cache ->
  tower_enabled 100 200 example_log (tower_after acts) (FromStorage (ForwardRecord (example_data Byte.x61 q) 7 0)).
Proof.
  intros Hq Hp Hn Hc. cbn [tower_enabled]. rewrite Hn. split; [lia|]. split; [intros st Hst; congruence|].
  split; [exists (example_data Byte.x61 q); split; [exact Hq|apply same_message_refl]|].
  unfold cache_room. rewrite Hc. split; vm_compute; [discriminate|reflexivity].
Qed.

Lemma example_disorder_runs : example_tower_runs (tower_after example_serve) example_disorder (tower_after (example_serve ++ example_disorder)).
Proof.
  apply (tower_runs_cons _ _ _ _ _ _ _ _ _ _ _ (tower_after (example_serve ++ take 1 example_disorder)));
    [apply example_record_enabled; by vm_compute|vm_compute; reflexivity|].
  apply (tower_runs_cons _ _ _ _ _ _ _ _ _ _ _ (tower_after (example_serve ++ take 2 example_disorder)));
    [apply example_record_enabled; by vm_compute|vm_compute; reflexivity|].
  apply (tower_runs_cons _ _ _ _ _ _ _ _ _ _ _ (tower_after (example_serve ++ take 3 example_disorder)));
    [apply example_record_enabled; by vm_compute|vm_compute; reflexivity|].
  econstructor; [|vm_compute; reflexivity|constructor]. intros k. cbn. split; [done|lia].
Qed.

Lemma tower_never_aborts_witness :
  exists s', example_step (FromStorage (ForwardRecord (example_data Byte.x61 5) 7 0)) (tower_after example_serve) = Ok s'.
Proof.
  destruct (tower_never_aborts example_hash 100 200 never example_route example_worker example_log (fun _ => 1000) no_cache 2 2 1000
    (tower_after []) example_serve (tower_after example_serve) (FromStorage (ForwardRecord (example_data Byte.x61 5) 7 0))
    example_environment example_config ltac:(vm_compute; reflexivity) example_serve_runs) as (s' & E & _).
  - apply example_record_enabled; vm_compute; reflexivity.
  - exists s'. exact E.
Defined.

Lemma tower_delivers_witness :
  exists es q', trace_ (tower_topics (tower_after (example_serve ++ example_disorder))) = trace_ (tower_topics (tower_after example_serve)) ++ es /\
    sent (example_topic Byte.x61) (client 1) es = records example_log 7 (example_topic Byte.x61) 4 q'.
Proof.
  destruct (tower_delivers example_hash 100 200 never example_route example_worker example_log (fun _ => 1000) no_cache 2 2 1000
    (tower_after []) example_serve (tower_after example_serve) example_disorder _ 7 (example_topic Byte.x61) (client 1) 4
    example_environment example_config ltac:(vm_compute; reflexivity) example_serve_runs example_disorder_runs eq_refl)
    as (es & q' & H1 & _ & _ & H2).
  - intros a Ha. repeat (apply elem_of_cons in Ha as [->|Ha]; [exact (fun H => H)|]). by apply elem_of_nil in Ha.
  - exact serve_client_expects.
  - exists es, q'. exact (conj H1 H2).
Defined.

(** What was sent, computed. *)
Example tower_example :
  sent (example_topic Byte.x61) (client 1) (trace_ (tower_topics (tower_after (example_serve ++ example_disorder)))) =
    [strip (example_data Byte.x61 4)].
Proof. vm_compute. reflexivity. Qed.

(** ** What the code does not do *)

(** The calls of the topic tailer on a log tailer whose storage does not open
    logs any more. *)
Fixpoint run_calls_closed (es : list event) (m : LogTailer.t) : outcome LogTailer.t :=
  match es with
  | [] => Ok m
  | e :: es =>
      m <~ match e with
           | Tailer (TailerStartReading l q r) =>
               x <~ LogTailer.StartReading m l q r {| open_ok := false; restart_at := 0 |} ;; Ok (fst x)
           | Tailer (TailerStopReading l r) => x <~ LogTailer.StopReading m l r true ;; Ok (fst x)
           | _ => Ok m
           end ;;
      run_calls_closed es m
  end.

(** A failed open stops the process.  [StartLogReader] ignores the status of
    [LogTailer::StartReading].  The only reader stands at 100; a client subscribes at
    90, the reader goes back, and the storage fails to open the log there.  The
    log tailer still hands on the record 100, for which the reader, which
    expects 90, fails the assertion of [ReceiveLogRecord]. *)
Theorem failed_open_aborts :
  let served := example_steps [InRoom (Subscribe (example_topic Byte.x61) 100 (client 1)); InRoom (PendingItem 0 (client 1) true);
    InRoom (Subscribe (example_topic Byte.x65) 90 (client 2))] (NewTower no_cache 2 1 1000) in
  let step := run_action example_hash 100 200 never always example_route example_worker in
  let record := ForwardRecord (example_data Byte.x61 100) 7 0 in
  (s <~ served ;; self <~ step (PendingItem 0 (client 2) true) (tower_topics s) ;;
   m <~ run_calls_closed (drop (length (trace_ (tower_topics s))) (trace_ self)) (tower_logs s) ;;
   r <~ run_forward m record ;;
   Ok (map (fun r => view r 7) (log_readers_ self), expected m 0 7, snd r, step (handled record) self)) =
  Ok ([Some 90], Some 100, true, Abort "next_seqno == reader->GetNextSequenceNumber(log_id)").
Proof. vm_compute. reflexivity. Qed.
