(* ===== verification/ControlRoom.v ===== *)
(** * The control room

    controltower/room.cc: a room executes the commands that the control tower
    sends it, keeps for each subscription the event loop of its stream, and turns
    the messages of the topic tailer into one message per recipient on the queue
    of the recipient's event loop.  The topic tailer asks the room for the event
    loop of a subscription ([CopilotWorker]), so that here the tailer runs with
    the answers of the room. *)

From S2P Require Import Prelude Coding CodingFacts Messages Containers LRUCache Bloom DataCache DataCacheFacts.
From S2P Require Import DataCacheVisit TopicManager LogReader LogReaderFacts TopicTailer TailerInv TopicTailerFacts.
From S2P Require Import TailerSteps TailerSubs TailerRoom Delivery TailerPolite LogTailer LogTailerFacts TailerLink TailerCalls Tower.

#[local] Open Scope outcome_scope.

(** ** Model *)

(** What was written to the queues: event loop, stream and message. *)
Record written := { to_worker : Z; to_stream : Z; to_message : Message }.

Record ControlRoom := {
  room_tower : tower;
  sub_worker_ : SubscriptionMap.t Z;
  room_to_client_queues_ : list written
}.

Definition CopilotWorker (r : ControlRoom) (id : CopilotSub) : Z := default (-1) (SubscriptionMap.Find (sub_worker_ r) (stream_id id) (sub_id id)).

Definition with_tower (s : tower) (r : ControlRoom) : ControlRoom :=
  {| room_tower := s; sub_worker_ := sub_worker_ r; room_to_client_queues_ := room_to_client_queues_ r |}.

Definition with_workers (m : SubscriptionMap.t Z) (r : ControlRoom) : ControlRoom :=
  {| room_tower := room_tower r; sub_worker_ := m; room_to_client_queues_ := room_to_client_queues_ r |}.

Section ControlRoom.
Context (num_workers : Z).

(** [MsgLoop::ResponseCommand], which serialises the message, and the write to
    the queue, which always takes it: the flow only tells whether it is full. *)
Definition write_response (r : ControlRoom) (worker stream : Z) (m : Message) : outcome ControlRoom :=
  Serialize m [] ;;;
  assert_that ((0 <=? worker) && (worker <? num_workers)) "room_to_client_queues_[worker_id]" ;;;
  Ok {| room_tower := room_tower r; sub_worker_ := sub_worker_ r;
        room_to_client_queues_ := room_to_client_queues_ r ++ [{| to_worker := worker; to_stream := stream; to_message := m |}] |}.

(** The loop over the recipients, which leaves out those whose event loop is not
    known. *)
Fixpoint respond (r : ControlRoom) (make : Z -> outcome Message) (recipients : list CopilotSub) : outcome ControlRoom :=
  match recipients with
  | [] => Ok r
  | recipient :: recipients =>
      let worker_id := CopilotWorker r recipient in
      if worker_id =? -1 then respond r make recipients
      else
        m <~ make (sub_id recipient) ;;
        r <~ write_response r worker_id (stream_id recipient) m ;;
        respond r make recipients
  end.

Definition Room_ProcessDeliver (r : ControlRoom) (request : MessageData) (recipients : list CopilotSub) : outcome ControlRoom :=
  respond r (fun sub => NewDeliverData (tenantid_ (data_base request)) sub (msgid_ request) (data_payload_ request)
               (data_seqno_prev_ request) (data_seqno_ request)) recipients.

Definition Room_ProcessGap (r : ControlRoom) (gap : MessageGap) (recipients : list CopilotSub) : outcome ControlRoom :=
  respond r (fun sub => NewDeliverGap (tenantid_ (gap_base gap)) sub (gap_type_ gap) (gap_from_ gap) (gap_to_ gap)) recipients.

Definition OnTailerMessage (r : ControlRoom) (msg : Message) (recipients : list CopilotSub) : outcome ControlRoom :=
  match msg with
  | Data request =>
      if type_ (data_base request) =? MessageType.mDeliver then Room_ProcessDeliver r request recipients else Abort "false"
  | Gap gap => if type_ (gap_base gap) =? MessageType.mGap then Room_ProcessGap r gap recipients else Abort "false"
  | _ => Abort "false"
  end.

Fixpoint on_messages (r : ControlRoom) (es : list event) : outcome ControlRoom :=
  match es with
  | [] => Ok r
  | OnMessage msg recipients :: es => r <~ OnTailerMessage r msg recipients ;; on_messages r es
  | _ :: es => on_messages r es
  end.

Context (XXH64 : slice -> Z) (sizeof_MessageData sizeof_CacheEntry : Z).
Context (WriteHasFailed : list event -> bool) (GetLogID : TopicUUID -> option Z).
Context (restart_time_of : LogTailer.t -> Z).

(** A call of the tailers.  The room does not change while a handler of the topic
    tailer runs, so that the messages can be passed to it afterwards. *)
Definition run_tailers (r : ControlRoom) (a : tower_action) : outcome ControlRoom :=
  s <~ run_tower XXH64 sizeof_MessageData sizeof_CacheEntry WriteHasFailed GetLogID (CopilotWorker r) restart_time_of a (room_tower r) ;;
  on_messages (with_tower s r) (drop (length (trace_ (tower_topics (room_tower r)))) (trace_ (tower_topics s))).

Definition Room_ProcessSubscribe (r : ControlRoom) (subscribe : MessageSubscribe) (worker_id origin : Z) : outcome ControlRoom :=
  let id := {| stream_id := origin; sub_id := sub_sub_id_ subscribe |} in
  let uuid := NewTopicUUID (sub_namespace_id_ subscribe) (sub_topic_name_ subscribe) in
  let seqno := start_seqno_ subscribe in
  let r := with_workers (SubscriptionMap.Insert (sub_worker_ r) (stream_id id) (sub_id id) worker_id) r in
  run_tailers r (InRoom (Delivery.Subscribe uuid seqno id)).

Definition Room_ProcessUnsubscribe (r : ControlRoom) (unsubscribe : MessageUnsubscribe) (origin : Z) : outcome ControlRoom :=
  let id := {| stream_id := origin; sub_id := unsub_sub_id_ unsubscribe |} in
  r <~ run_tailers r (InRoom (Delivery.Unsubscribe id)) ;;
  Ok (with_workers (SubscriptionMap.Remove (sub_worker_ r) (stream_id id) (sub_id id)) r).

Definition Room_ProcessGoodbye (r : ControlRoom) (origin : Z) : outcome ControlRoom :=
  r <~ run_tailers r (InRoom (Delivery.Goodbye origin)) ;;
  Ok (with_workers (SubscriptionMap.RemoveStream (sub_worker_ r) origin) r).

(** The command that the tower sends, when it is executed. *)
Definition MsgCommand (r : ControlRoom) (msg : Message) (worker_id origin : Z) : outcome ControlRoom :=
  match msg with
  | Messages.Subscribe m => assert_that (negb (worker_id =? -1)) "worker_id != -1" ;;; Room_ProcessSubscribe r m worker_id origin
  | Messages.Unsubscribe m => assert_that (negb (worker_id =? -1)) "worker_id != -1" ;;; Room_ProcessUnsubscribe r m origin
  | Messages.Goodbye m => assert_that (worker_id =? -1) "worker_id == -1" ;;; Room_ProcessGoodbye r origin
  | _ => Abort "false"
  end.
End ControlRoom.
