(* ===== verification/RoomWorkers.v ===== *)
(** * The event loops of subscriptions

    The topic tailer asks for the event loop of a subscription only while it
    knows the subscription, or when it is told of it: two answers that agree
    there give the same run ([run_action_agree]).  And how a call changes the
    subscriptions the tailer knows ([action_streams]). *)

From S2P Require Import Prelude Coding CodingFacts Messages Containers LRUCache Bloom DataCache DataCacheFacts.
From S2P Require Import DataCacheVisit TopicManager LogReader LogReaderFacts TopicTailer TailerInv TopicTailerFacts.
From S2P Require Import TailerSteps TailerSubs TailerRoom Delivery.

#[local] Open Scope outcome_scope.

Section Agree.
Context (XXH64 : slice -> Z) (sizeof_MessageData sizeof_CacheEntry : Z).
Context (WriteHasFailed start_ok : list event -> bool) (GetLogID : TopicUUID -> option Z).
Context (f g : CopilotSub -> Z).

Lemma write_pending_agree self id l q : f id = g id -> write_pending f self id l q = write_pending g self id l q.
Proof. intros E. unfold write_pending, GetPendingReaderQueue. by rewrite E. Qed.

Lemma AddSubscriberInternal_agree self t id l q : f id = g id -> AddSubscriberInternal f self t id l q = AddSubscriberInternal g self t id l q.
Proof. intros E. unfold AddSubscriberInternal. by rewrite (write_pending_agree self id l q E). Qed.

Lemma AddTailSubscriber_agree self t id l q : f id = g id -> AddTailSubscriber f self t id l q = AddTailSubscriber g self t id l q.
Proof. intros E. unfold AddTailSubscriber. destruct (UUID_GetTopicID t); [|done]. cbn [obind]. by apply AddSubscriberInternal_agree. Qed.

Lemma AddSubscriber_agree self t q id : f id = g id -> AddSubscriber GetLogID f self t q id = AddSubscriber GetLogID g self t q id.
Proof.
  intros E. unfold AddSubscriber. destruct (GetLogID t) as [l|]; [|done]. by rewrite (AddTailSubscriber_agree _ _ _ _ _ E), (AddSubscriberInternal_agree _ _ _ _ _ E).
Qed.

Lemma RemoveSubscriberInternal_agree self t id l : f id = g id -> RemoveSubscriberInternal f self t id l = RemoveSubscriberInternal g self t id l.
Proof. intros E. unfold RemoveSubscriberInternal, GetPendingReaderQueue. by rewrite E. Qed.

(** They agree on the subscriptions that the tailer knows. *)
Definition agree (self : TopicTailer) : Prop := forall id, is_Some (find_topic self id) -> f id = g id.

Lemma RemoveSubscriber_agree self id : agree self -> RemoveSubscriber GetLogID f self id = RemoveSubscriber GetLogID g self id.
Proof.
  intros Ha. unfold RemoveSubscriber. pose proof (SubscriptionMap.MoveOut_result (stream_subscriptions_ self) (stream_id id) (sub_id id)) as Hm.
  destruct (SubscriptionMap.MoveOut _ _ _) as [m [t|]]; [|done]. cbn in Hm. destruct (GetLogID t) as [l|]; [|done].
  rewrite RemoveSubscriberInternal_agree; [done|]. apply Ha. unfold find_topic. by rewrite <-Hm.
Qed.

Lemma remove_all_agree stream subs self : (forall sub t, (sub, t) ∈ subs -> f {| stream_id := stream; sub_id := sub |} = g {| stream_id := stream; sub_id := sub |}) ->
  remove_all GetLogID f stream subs self = remove_all GetLogID g stream subs self.
Proof.
  revert self. induction subs as [|[sub t] subs IH]; intros self Hs; [done|]. cbn [remove_all].
  assert (match GetLogID t with Some l => RemoveSubscriberInternal f self t {| stream_id := stream; sub_id := sub |} l | None => Ok self end =
    match GetLogID t with Some l => RemoveSubscriberInternal g self t {| stream_id := stream; sub_id := sub |} l | None => Ok self end) as ->.
  { destruct (GetLogID t); [|done]. apply RemoveSubscriberInternal_agree. eapply Hs. by left. }
  destruct (match GetLogID t with Some _ => _ | None => _ end) as [self1|]; [|done]. cbn [obind]. apply IH. intros sub' t' Hin. eapply Hs. by right.
Qed.

Lemma RemoveStream_agree self stream : agree self -> RemoveStream GetLogID f self stream = RemoveStream GetLogID g self stream.
Proof.
  intros Ha. unfold RemoveStream. rewrite remove_all_agree; [done|]. intros sub t Hin. apply Ha. unfold find_topic, SubscriptionMap.Find. cbn.
  unfold SubscriptionMap.VisitSubscriptions in Hin. destruct (stream_subscriptions_ self !! stream) as [subs|]; [|by apply elem_of_nil in Hin].
  apply elem_of_map_to_list in Hin. by rewrite Hin.
Qed.

(** Adding a subscription that is known leaves the known ones as they are. *)
Lemma AddTailSubscriber_find self t id l q self' : AddTailSubscriber g self t id l q = Ok self' -> is_Some (find_topic self id) ->
  forall id', find_topic self' id' = find_topic self id'.
Proof.
  unfold AddTailSubscriber, AddSubscriberInternal, write_pending. intros (names & _ & ([] & _ & (self1 & ([w qu] & _ & <-%Ok_inj)%obind_Ok & <-%Ok_inj)%obind_Ok)%obind_Ok)%obind_Ok.
  intros [t' Ht'] id'. unfold find_topic in *. cbn [stream_subscriptions_ set_stream_subscriptions set_cache_readers emit]. rewrite SubscriptionMap.Find_Insert.
  case_decide as Hd; [|done]. destruct Hd as [-> ->]. by rewrite Ht'.
Qed.

Lemma answer_waiting_find ids l q self self' : answer_waiting g ids l q self = Ok self' -> forall id, find_topic self' id = find_topic self id.
Proof.
  revert self. induction ids as [|id ids IH]; intros self; cbn [answer_waiting]; [by intros <-%Ok_inj|].
  intros (self1 & E & H)%obind_Ok id'. rewrite (IH self1 H id'). fold (find_topic self id) in E. destruct (find_topic self id) as [t|] eqn:Ef.
  - by apply (AddTailSubscriber_find _ _ _ _ _ _ E).
  - by apply Ok_inj in E as <-.
Qed.

Lemma answer_waiting_agree ids l q self : agree self -> answer_waiting f ids l q self = answer_waiting g ids l q self.
Proof.
  revert self. induction ids as [|id ids IH]; intros self Ha; [done|]. cbn [answer_waiting]. fold (find_topic self id). destruct (find_topic self id) as [t|] eqn:Ef.
  - rewrite (AddTailSubscriber_agree self t id l q) by (apply Ha; by rewrite Ef). destruct (AddTailSubscriber g self t id l q) as [self1|] eqn:E; [|done]. cbn [obind].
    apply IH. intros id' Hid'. apply Ha. by rewrite (AddTailSubscriber_find _ _ _ _ _ _ E) in Hid' by (by rewrite Ef).
  - cbn [obind]. by apply IH.
Qed.

Lemma DrainPending_agree self w id last : agree self ->
  DrainPending XXH64 WriteHasFailed f self w id last = DrainPending XXH64 WriteHasFailed g self w id last.
Proof.
  intros Ha. unfold DrainPending. destruct (lm_find id _) as [p|]; [|done]. set (self1 := set_cache_readers _ self).
  assert (on_pending XXH64 WriteHasFailed f self1 (id, p) = on_pending XXH64 WriteHasFailed g self1 (id, p)) as ->; [|done].
  unfold on_pending. fold (find_topic self1 id). destruct (find_topic self1 id) as [t|] eqn:Ef; [|done]. unfold ProcessPendingSubscription.
  destruct (negb _); [|done]. cbn [assert_that obind]. destruct (DeliverFromCache _ _ _ _ _ _ _) as [[[self2 [|]] q]|]; [done| |done]. cbn [obind].
  apply write_pending_agree, Ha. change (find_topic self id) with (find_topic self1 id). by rewrite Ef.
Qed.

(** The same run. *)
Lemma run_action_agree a self : agree self -> (forall t q id, a = Delivery.Subscribe t q id -> f id = g id) ->
  run_action XXH64 sizeof_MessageData sizeof_CacheEntry WriteHasFailed start_ok GetLogID f a self =
  run_action XXH64 sizeof_MessageData sizeof_CacheEntry WriteHasFailed start_ok GetLogID g a self.
Proof.
  intros Ha Hs. destruct a as [data l rid|l type from to rid|l i last|w id last|t start id|id|stream|ok l q| |cap]; cbn [run_action]; try done.
  - by apply DrainPending_agree.
  - by rewrite (AddSubscriber_agree self t start id (Hs _ _ _ eq_refl)).
  - by rewrite RemoveSubscriber_agree.
  - by apply RemoveStream_agree.
  - unfold ProcessFindLatestSeqnoResponse. by rewrite answer_waiting_agree.
Qed.
End Agree.

(** ** The subscriptions that the tailer knows *)

Section Streams.
Context (XXH64 : slice -> Z) (sizeof_MessageData sizeof_CacheEntry : Z).
Context (WriteHasFailed start_ok : list event -> bool) (GetLogID : TopicUUID -> option Z) (copilot_worker : CopilotSub -> Z).

Lemma find_insert self t id id' t' : find_topic (set_stream_subscriptions (SubscriptionMap.Insert (stream_subscriptions_ self) (stream_id id) (sub_id id) t) self) id' = Some t' ->
  find_topic self id' = Some t' \/ (id' = id /\ t' = t).
Proof.
  unfold find_topic. cbn. rewrite SubscriptionMap.Find_Insert. case_decide as Hd; [|by left]. destruct id, id', Hd. cbn in *. subst.
  intros [= <-]. destruct (SubscriptionMap.Find _ _ _); cbn; [by left|by right].
Qed.

Lemma AddSubscriberInternal_knows self t id l q self' id' t' : AddSubscriberInternal copilot_worker self t id l q = Ok self' ->
  find_topic self' id' = Some t' -> find_topic self id' = Some t' \/ (id' = id /\ t' = t).
Proof.
  unfold AddSubscriberInternal, write_pending. intros ([] & _ & (self1 & ([w qu] & _ & <-%Ok_inj)%obind_Ok & <-%Ok_inj)%obind_Ok)%obind_Ok. exact (find_insert self t id id' t').
Qed.

Lemma AddSubscriber_knows self t q id self' b id' t' : AddSubscriber GetLogID copilot_worker self t q id = Ok (self', b) ->
  find_topic self' id' = Some t' -> find_topic self id' = Some t' \/ (id' = id /\ t' = t).
Proof.
  unfold AddSubscriber. destruct (GetLogID t) as [l|]; [|intros [= <- _]; by left]. destruct (q =? 0).
  - destruct (negb _).
    + unfold AddTailSubscriber. intros (self1 & (names & _ & E)%obind_Ok & [= <- _]%Ok_inj)%obind_Ok. exact (AddSubscriberInternal_knows _ _ _ _ _ _ id' t' E).
    + unfold SendFindLatestSeqnoRequest. intros H Hid. apply (find_insert self t id id' t'). revert H Hid. set (self1 := set_stream_subscriptions _ _).
      destruct (1 <? _)%nat; [by intros [= <- _]|]. case_bool; [intros (self2 & ([] & _ & <-%Ok_inj)%obind_Ok & [= <- _]%Ok_inj)%obind_Ok|intros [= <- _]%Ok_inj]; done.
  - intros (self1 & E & [= <- _]%Ok_inj)%obind_Ok. exact (AddSubscriberInternal_knows _ _ _ _ _ _ id' t' E).
Qed.

Lemma RemoveSubscriberInternal_streams self t id l self' : RemoveSubscriberInternal copilot_worker self t id l = Ok self' ->
  stream_subscriptions_ self' = stream_subscriptions_ self.
Proof.
  unfold RemoveSubscriberInternal. destruct (TopicManager.RemoveSubscriber _ _ _) as [m all_removed].
  intros ([w q] & _ & (q1 & _ & <-%Ok_inj)%obind_Ok)%obind_Ok. destruct all_removed; [|done].
  destruct (stop_readers _ _ _) as [[rs calls] closed], (StopReading _ _ _) as [rp pcalls]. cbn. by destruct (closed && _).
Qed.

Lemma remove_all_streams stream subs self self' : remove_all GetLogID copilot_worker stream subs self = Ok self' -> stream_subscriptions_ self' = stream_subscriptions_ self.
Proof.
  revert self. induction subs as [|[sub t] subs IH]; intros self; cbn [remove_all]; [by intros <-%Ok_inj|].
  intros (self1 & E & H%IH)%obind_Ok. rewrite H. destruct (GetLogID t); [by eapply RemoveSubscriberInternal_streams|by apply Ok_inj in E as <-].
Qed.

Lemma RemoveSubscriber_find self id self' b id' : RemoveSubscriber GetLogID copilot_worker self id = Ok (self', b) ->
  find_topic self' id' = if decide (id' = id) then None else find_topic self id'.
Proof.
  intros H. assert (stream_subscriptions_ self' = fst (SubscriptionMap.MoveOut (stream_subscriptions_ self) (stream_id id) (sub_id id))) as Hs.
  { unfold RemoveSubscriber in H. destruct (SubscriptionMap.MoveOut _ _ _) as [m [t|]]; [|by injection H as <- _]. destruct (GetLogID t) as [l|]; [|by injection H as <- _].
    apply obind_Ok in H as (self1 & E%RemoveSubscriberInternal_streams & [= <- _]%Ok_inj). exact E. }
  unfold find_topic. rewrite Hs, SubscriptionMap.Find_MoveOut. destruct id, id'. cbn. repeat case_decide; naive_solver.
Qed.

Lemma RemoveStream_find self stream self' id' : RemoveStream GetLogID copilot_worker self stream = Ok self' ->
  find_topic self' id' = if decide (stream_id id' = stream) then None else find_topic self id'.
Proof.
  unfold RemoveStream. intros (self1 & E%remove_all_streams & <-%Ok_inj)%obind_Ok. unfold find_topic, SubscriptionMap.Find, SubscriptionMap.RemoveStream. cbn. rewrite E.
  case_decide as Hd; [rewrite Hd, lookup_delete_eq; done|by rewrite lookup_delete_ne].
Qed.

Context (log : Z -> Z -> option MessageData).
Context (Henv : environment_ok sizeof_MessageData sizeof_CacheEntry GetLogID copilot_worker log).

(** What a call makes of the known subscriptions. *)
Definition known_after (a : action) (id : CopilotSub) (t : TopicUUID) (known : Prop) : Prop :=
  match a with
  | Delivery.Subscribe t' _ id' => known \/ (id = id' /\ t = t')
  | Delivery.Unsubscribe id' => known /\ id <> id'
  | Delivery.Goodbye stream => known /\ stream_id id <> stream
  | _ => known
  end.

Lemma action_streams self a self' id t : healthy XXH64 copilot_worker log self -> enabled sizeof_MessageData sizeof_CacheEntry log self a ->
  run_action XXH64 sizeof_MessageData sizeof_CacheEntry WriteHasFailed start_ok GetLogID copilot_worker a self = Ok self' ->
  find_topic self' id = Some t -> known_after a id t (find_topic self id = Some t).
Proof using All.
  intros [Hok Hfo] Hen Ha.
  assert (forall (r : outcome TopicTailer) self1 es, r = Ok self' -> r = Ok self1 -> stepped GetLogID log self self1 es ->
    find_topic self' id = find_topic self id) as Hstep.
  { intros r self1 es -> E Hst. apply Ok_inj in E as <-. unfold find_topic. by rewrite (f_streams (s_frame Hst)). }
  destruct a as [data l rid|l type from to rid|l i last|w id' last|t' start id'|id'|stream|ok l q| |cap]; cbn [run_action enabled known_after] in *.
  - destruct Hen as (i & r & p & m0 & Hf & Hi & Hp & Hq & Hm0 & Hs & Hroom).
    destruct (SendLogRecord_ok (start_ok:=start_ok) Henv self l data m0 rid i r p Hok Hroom Hf Hi Hp Hq Hm0 Hs) as (self1 & E & _ & es & Hst). by rewrite (Hstep _ _ _ Ha E Hst).
  - destruct Hen as (i & r & p & Hf & Hi & -> & Hg).
    destruct (SendGapRecord_ok (start_ok:=start_ok) Henv self l type p to rid i r Hok Hf Hi Hg) as (self1 & E & _ & es & Hst). by rewrite (Hstep _ _ _ Ha E Hst).
  - destruct Hen as [u Hu]. destruct (DrainReentry_ok (start_ok:=start_ok) (WriteHasFailed:=WriteHasFailed) Henv self l i last u Hok Hu) as (self1 & es & self2 & q2 & E & _ & Hst & ->).
    rewrite E in Ha. apply Ok_inj in Ha as <-. change (find_topic (set_reentry q2 self2) id) with (find_topic self2 id). unfold find_topic. by rewrite (f_streams (s_frame Hst)).
  - destruct Hen as (q & Hq & p & Hp0). destruct (ok_queues Hok w q Hq) as [_ Hw]. destruct (Hw id' p Hp0) as [<- _].
    assert (pending_of copilot_worker self id' = Some p) as Hp by (unfold pending_of; by rewrite Hq).
    destruct (DrainPending_ok (WriteHasFailed:=WriteHasFailed) Henv self _ id' last p Hok Hp eq_refl) as (self1 & es & E & _ & _ & Ho & _).
    rewrite E in Ha. apply Ok_inj in Ha as <-. by rewrite (others_find _ _ id Ho).
  - apply obind_Ok in Ha as ([self1 b] & E & <-%Ok_inj). exact (AddSubscriber_knows _ _ _ _ _ _ id t E).
  - apply obind_Ok in Ha as ([self1 b] & E & <-%Ok_inj). cbn [fst]. rewrite (RemoveSubscriber_find _ _ _ _ id E). by case_decide.
  - rewrite (RemoveStream_find _ _ _ id Ha). by case_decide.
  - unfold ProcessFindLatestSeqnoResponse, SendFindLatestSeqnoRequest in Ha. destruct ok; cbn [negb] in Ha; [|by apply obind_Ok in Ha as ([] & _ & <-%Ok_inj)].
    apply obind_Ok in Ha as (self1 & E & Ha). rewrite <-(answer_waiting_find _ _ _ _ _ _ E id). set (self2 := set_tail_seqno_cached _ _) in Ha.
    change (find_topic self1 id) with (find_topic self2 id). destruct (pending_find_time_requests_ self2); [by apply Ok_inj in Ha as <-|].
    by apply obind_Ok in Ha as (self3 & ([] & _ & <-%Ok_inj)%obind_Ok & ([] & _ & <-%Ok_inj)%obind_Ok).
  - by apply Ok_inj in Ha as <-.
  - by apply obind_Ok in Ha as (dc & _ & <-%Ok_inj).
Qed.
End Streams.
