(* ===== verification/RoomFacts.v ===== *)
(** * Delivery through the control room

    The room as a machine: the commands of the tower, and the calls of its
    tailers.  The room always knows the event loop of a subscription that the
    topic tailer knows, so that the promise on event loops, on which Delivery.v
    and Tower.v rely, is kept by the room; and what the tailer says to a
    subscription is written to the queue of its event loop, message by message. *)

From S2P Require Import Prelude Coding CodingFacts Messages Containers LRUCache Bloom DataCache DataCacheFacts.
From S2P Require Import DataCacheVisit TopicManager LogReader LogReaderFacts TopicTailer TailerInv TopicTailerFacts.
From S2P Require Import TailerSteps TailerSubs TailerRoom Delivery TailerPolite LogTailer LogTailerFacts TailerLink TailerCalls Tower.
From S2P Require Import ControlRoom RoomWorkers.
Import LogTailer LogTailerFacts.

#[local] Open Scope outcome_scope.

(** ** Messages to the recipients *)

(** A record as it is delivered to a subscription. *)
Definition delivered_as (sub : Z) (d : MessageData) : MessageDeliverData :=
  {| ddata_deliver := {| deliver_base := {| type_ := MessageType.mDeliverData; tenantid_ := tenantid_ (data_base d) |};
       deliver_sub_id_ := sub; deliver_seqno_prev_ := data_seqno_prev_ d; deliver_seqno_ := data_seqno_ d |};
     message_id_ := msgid_ d; ddata_payload_ := data_payload_ d |}.

Definition data_message (d : MessageData) (sub : Z) : Message := DeliverData (delivered_as sub d).

Definition gap_message (g : MessageGap) (sub : Z) : Message :=
  DeliverGap {| dgap_deliver := {| deliver_base := {| type_ := MessageType.mDeliverGap; tenantid_ := tenantid_ (gap_base g) |};
                  deliver_sub_id_ := sub; deliver_seqno_prev_ := gap_from_ g; deliver_seqno_ := gap_to_ g |};
                dgap_gap_type_ := gap_type_ g |}.

(** What a recipient is written. *)
Definition answer (m : SubscriptionMap.t Z) (make : Z -> Message) (id : CopilotSub) : option written :=
  w ← SubscriptionMap.Find m (stream_id id) (sub_id id);
  Some {| to_worker := w; to_stream := stream_id id; to_message := make (sub_id id) |}.

Definition answers (m : SubscriptionMap.t Z) (e : event) : list written :=
  match e with
  | OnMessage (Data d) rs => omap (answer m (data_message d)) rs
  | OnMessage (Gap g) rs => omap (answer m (gap_message g)) rs
  | _ => []
  end.

Definition append (ws : list written) (r : ControlRoom) : ControlRoom :=
  {| room_tower := room_tower r; sub_worker_ := sub_worker_ r; room_to_client_queues_ := room_to_client_queues_ r ++ ws |}.

Lemma append_append ws ws' r : append ws' (append ws r) = append (ws ++ ws') r.
Proof. unfold append. cbn. by rewrite app_assoc. Qed.

Lemma append_nil r : append [] r = r.
Proof. destruct r. unfold append. cbn. by rewrite app_nil_r. Qed.

Section Messages.
Context (num_workers : Z).

Definition workers_in_range (m : SubscriptionMap.t Z) : Prop := forall s i w, SubscriptionMap.Find m s i = Some w -> 0 <= w < num_workers.

Lemma respond_spec r make pure rs : (forall sub, make sub = Ok (pure sub) /\ exists bytes, Serialize (pure sub) [] = Ok bytes) ->
  workers_in_range (sub_worker_ r) -> respond num_workers r make rs = Ok (append (omap (answer (sub_worker_ r) pure) rs) r).
Proof.
  intros Hm Hw. revert r Hw. induction rs as [|c rs IH]; intros r Hw; cbn [respond omap list_omap]; [by rewrite append_nil|].
  unfold CopilotWorker, answer at 1. specialize (Hw (stream_id c) (sub_id c)) as Hid. destruct (SubscriptionMap.Find _ _ _) as [w|] eqn:E; cbn [default mbind option_bind].
  - specialize (Hid w eq_refl). cbn [from_option]. unfold Datatypes.id. destruct (Z.eqb_spec w (-1)); [lia|]. destruct (Hm (sub_id c)) as [-> [bytes Hb]]. cbn [obind].
    unfold write_response. rewrite Hb. cbn [obind]. rewrite (proj2 (Z.leb_le _ _)), (proj2 (Z.ltb_lt _ _)) by lia. cbn [andb assert_that obind].
    etrans; [exact (IH (append [{| to_worker := w; to_stream := stream_id c; to_message := pure (sub_id c) |}] r) Hw)|]. by rewrite append_append.
  - cbn. by apply IH.
Qed.

Lemma on_messages_spec es r : Forall polite es -> workers_in_range (sub_worker_ r) ->
  on_messages num_workers r es = Ok (append (concat (map (answers (sub_worker_ r)) es)) r).
Proof.
  revert r. induction es as [|e es IH]; intros r Hp Hw; cbn [on_messages map concat]; [by rewrite append_nil|].
  apply Forall_cons in Hp as [He Hp].
  assert (forall ws, on_messages num_workers (append ws r) es = Ok (append (ws ++ concat (map (answers (sub_worker_ r)) es)) r)) as Hgo.
  { intros ws. rewrite (IH (append ws r)) by done. by rewrite append_append. }
  destruct e as [[| d | |g| | | | | | | | | ] rs|c|l]; cbn [polite] in He; try done; cbn [answers OnTailerMessage].
  - destruct He as (-> & Hle & _). rewrite Z.eqb_refl. unfold Room_ProcessDeliver. rewrite (respond_spec r _ (data_message d)); [apply Hgo| |done].
    intros sub. destruct (NewDeliverData_ok (tenantid_ (data_base d)) sub (msgid_ d) (data_payload_ d) _ _ Hle) as (m & bytes & Em & Hb).
    rewrite Em. unfold NewDeliverData, deliver_header in Em. rewrite (proj2 (Z.leb_le _ _) Hle) in Em. cbn in Em. injection Em as <-. split; [done|by exists bytes].
  - destruct He as (-> & Hle & _). rewrite Z.eqb_refl. unfold Room_ProcessGap. rewrite (respond_spec r _ (gap_message g)); [apply Hgo| |done].
    intros sub. destruct (NewDeliverGap_ok (tenantid_ (gap_base g)) sub (gap_type_ g) _ _ Hle) as (m & bytes & Em & Hb).
    rewrite Em. unfold NewDeliverGap, deliver_header in Em. rewrite (proj2 (Z.leb_le _ _) Hle) in Em. cbn in Em. injection Em as <-. split; [done|by exists bytes].
  - by apply IH.
  - by apply IH.
Qed.
End Messages.

(** ** The room as a machine *)

(** The commands of the tower, and the calls that the room's own thread makes on
    the tailers. *)
Inductive room_action :=
| RoomSubscribe (m : MessageSubscribe) (worker_id origin : Z)
| RoomUnsubscribe (m : MessageUnsubscribe) (worker_id origin : Z)
| RoomGoodbye (m : MessageGoodbye) (worker_id origin : Z)
| RoomTailers (a : tower_action).

Definition subscribed_id (m : MessageSubscribe) (origin : Z) : CopilotSub := {| stream_id := origin; sub_id := sub_sub_id_ m |}.
Definition unsubscribed_id (m : MessageUnsubscribe) (origin : Z) : CopilotSub := {| stream_id := origin; sub_id := unsub_sub_id_ m |}.
Definition subscribed_topic (m : MessageSubscribe) : TopicUUID := NewTopicUUID (sub_namespace_id_ m) (sub_topic_name_ m).

(** The call of the tailers in an action. *)
Definition tailer_call (a : room_action) : tower_action :=
  match a with
  | RoomSubscribe m _ origin => InRoom (Delivery.Subscribe (subscribed_topic m) (start_seqno_ m) (subscribed_id m origin))
  | RoomUnsubscribe m _ origin => InRoom (Delivery.Unsubscribe (unsubscribed_id m origin))
  | RoomGoodbye _ _ origin => InRoom (Delivery.Goodbye origin)
  | RoomTailers a => a
  end.

(** A command that begins a subscription. *)
Definition subscribes (a : room_action) (id : CopilotSub) : Prop := match a with RoomSubscribe m _ origin => id = subscribed_id m origin | _ => False end.

Definition room_concerns (a : room_action) (id : CopilotSub) : Prop := tower_concerns (tailer_call a) id.

(** The calls that are not made for a command. *)
Definition own_call (a : tower_action) : Prop :=
  match a with InRoom (Delivery.Subscribe _ _ _) | InRoom (Delivery.Unsubscribe _) | InRoom (Delivery.Goodbye _) => False | _ => True end.

#[export] Instance concerns_dec a id : Decision (concerns a id).
Proof. destruct a; cbn; apply _. Defined.

(** Maps by subscription. *)
Lemma decide_id (id id' : CopilotSub) : (stream_id id' = stream_id id /\ sub_id id' = sub_id id) <-> id' = id.
Proof. destruct id, id'. cbn. naive_solver. Qed.

Lemma find_insert_id (m : SubscriptionMap.t Z) id w id' : SubscriptionMap.Find (SubscriptionMap.Insert m (stream_id id) (sub_id id) w) (stream_id id') (sub_id id') =
  if decide (id' = id) then Some (default w (SubscriptionMap.Find m (stream_id id) (sub_id id))) else SubscriptionMap.Find m (stream_id id') (sub_id id').
Proof. rewrite SubscriptionMap.Find_Insert. by rewrite (decide_ext _ _ _ _ (decide_id id id')). Qed.

Lemma find_remove_id (m : SubscriptionMap.t Z) id id' : SubscriptionMap.Find (SubscriptionMap.Remove m (stream_id id) (sub_id id)) (stream_id id') (sub_id id') =
  if decide (id' = id) then None else SubscriptionMap.Find m (stream_id id') (sub_id id').
Proof. rewrite SubscriptionMap.Find_Remove. by rewrite (decide_ext _ _ _ _ (decide_id id id')). Qed.

Section Room.
Context (num_workers : Z) (XXH64 : slice -> Z) (sizeof_MessageData sizeof_CacheEntry : Z).
Context (WriteHasFailed : list event -> bool) (GetLogID : TopicUUID -> option Z).
Context (log : Z -> Z -> option MessageData) (restart_time_of : LogTailer.t -> Z).
(** The event loop of a stream, and the topic for which a subscription ID is used. *)
Context (worker_of : Z -> Z) (topic_of : CopilotSub -> TopicUUID).

#[local] Abbreviation cw := (fun id : CopilotSub => worker_of (stream_id id)).
#[local] Abbreviation environment_ok := (environment_ok sizeof_MessageData sizeof_CacheEntry GetLogID cw log).
#[local] Abbreviation tower_ok := (tower_ok XXH64 cw log).
#[local] Abbreviation tower_enabled := (tower_enabled sizeof_MessageData sizeof_CacheEntry log).
#[local] Abbreviation run_tower := (run_tower XXH64 sizeof_MessageData sizeof_CacheEntry WriteHasFailed GetLogID).
#[local] Abbreviation run_tailers := (run_tailers num_workers XXH64 sizeof_MessageData sizeof_CacheEntry WriteHasFailed GetLogID restart_time_of).
#[local] Abbreviation MsgCommand := (MsgCommand num_workers XXH64 sizeof_MessageData sizeof_CacheEntry WriteHasFailed GetLogID restart_time_of).
#[local] Abbreviation runs := (runs XXH64 sizeof_MessageData sizeof_CacheEntry WriteHasFailed (fun _ => true) GetLogID cw log).

Definition run_room_action (a : room_action) (r : ControlRoom) : outcome ControlRoom :=
  match a with
  | RoomSubscribe m worker_id origin => MsgCommand r (Messages.Subscribe m) worker_id origin
  | RoomUnsubscribe m worker_id origin => MsgCommand r (Messages.Unsubscribe m) worker_id origin
  | RoomGoodbye m worker_id origin => MsgCommand r (Messages.Goodbye m) worker_id origin
  | RoomTailers a => run_tailers r a
  end.

(** What is promised for an action: a command names the event loop of the stream,
    an ID is used for one topic, and the tailers are called as in [Tower]. *)
Definition room_enabled (r : ControlRoom) (a : room_action) : Prop :=
  match a with
  | RoomSubscribe m worker_id origin => topic_ok (sub_namespace_id_ m, sub_topic_name_ m) /\ 0 <= start_seqno_ m <= kMaxSeqno /\
      subscribed_topic m = topic_of (subscribed_id m origin) /\ worker_id = worker_of origin
  | RoomUnsubscribe _ worker_id origin => worker_id = worker_of origin
  | RoomGoodbye _ worker_id _ => worker_id = -1
  | RoomTailers a => own_call a /\ tower_enabled (room_tower r) a
  end.

Inductive room_runs : ControlRoom -> list room_action -> ControlRoom -> Prop :=
| room_runs_nil r : room_runs r [] r
| room_runs_cons r a acts r1 r' : room_enabled r a -> run_room_action a r = Ok r1 -> room_runs r1 acts r' -> room_runs r (a :: acts) r'.

#[local] Abbreviation topics r := (tower_topics (room_tower r)).
#[local] Abbreviation worker_at m id := (SubscriptionMap.Find m (stream_id id) (sub_id id)).

(** The tailers are sound, the room knows the event loop of every subscription
    that the topic tailer knows, and these are on their topics. *)
Record room_ok (r : ControlRoom) : Prop := {
  ro_tower : tower_ok (room_tower r);
  ro_workers : forall id w, worker_at (sub_worker_ r) id = Some w -> w = cw id;
  ro_known : forall id t, find_topic (topics r) id = Some t -> t = topic_of id /\ is_Some (worker_at (sub_worker_ r) id);
  ro_subs : forall l t id, is_Some (subs (topics r) l t id) -> t = topic_of id
}.

Lemma run_tower_agree f g a s : agree f g (tower_topics s) -> (forall t q id, a = InRoom (Delivery.Subscribe t q id) -> f id = g id) ->
  run_tower f restart_time_of a s = run_tower g restart_time_of a s.
Proof.
  intros Ha Hs. destruct a as [fw|b|now answers]; cbn [Tower.run_tower]; [|unfold run_room; by rewrite (run_action_agree _ _ _ _ _ _ f g) by naive_solver|done].
  destruct (run_forward (tower_logs s) fw) as [[m []]|]; cbn [obind]; [|done|done]. unfold run_room. cbn [tower_topics]. by destruct fw.
Qed.

(** What a call of the tailers makes of the known subscriptions. *)
Definition tower_known_after (a : tower_action) (id : CopilotSub) (t : TopicUUID) (known : Prop) : Prop :=
  match a with InRoom b => known_after b id t known | _ => known end.

(** A call of the tailers: what it says, and whom it knows afterwards. *)
Lemma tower_says s a : environment_ok -> tower_ok s -> tower_enabled s a ->
  (forall l t id, is_Some (subs (tower_topics s) l t id) -> t = topic_of id) -> (forall id t, find_topic (tower_topics s) id = Some t -> t = topic_of id) ->
  exists s' es, run_tower cw restart_time_of a s = Ok s' /\ tower_ok s' /\ runs (tower_topics s) (projected s a) (tower_topics s') /\
    trace_ (tower_topics s') = trace_ (tower_topics s) ++ es /\ Forall polite es /\ Forall (told topic_of) es /\
    (forall l t id, is_Some (subs (tower_topics s') l t id) -> t = topic_of id) /\
    (forall id t, find_topic (tower_topics s') id = Some t -> tower_known_after a id t (find_topic (tower_topics s) id = Some t)).
Proof.
  intros Henv Hs Hen HS HF. destruct (tower_step _ _ _ WriteHasFailed _ _ _ restart_time_of s a Henv Hs Hen) as (s' & E & Hs' & Hr). exists s'.
  assert (forall b, runs (tower_topics s) [b] (tower_topics s') -> exists es,
    trace_ (tower_topics s') = trace_ (tower_topics s) ++ es /\ Forall polite es /\ Forall (told topic_of) es /\
    (forall l t id, is_Some (subs (tower_topics s') l t id) -> t = topic_of id) /\
    (forall id t, find_topic (tower_topics s') id = Some t -> known_after b id t (find_topic (tower_topics s) id = Some t))) as Hone.
  { intros b Hb. inversion Hb as [|? ? ? self1 ? Hbe Hbr Hnil]; subst. inversion Hnil; subst.
    destruct (action_polite _ _ _ _ _ _ _ _ Henv topic_of _ _ _ (tw_healthy _ _ _ _ Hs) Hbe Hbr HS HF) as [HS' (es & Ht & Hp & Htold)]. exists es. split_and!; try done.
    intros id t. exact (action_streams _ _ _ _ _ _ _ _ Henv _ b _ id t (tw_healthy _ _ _ _ Hs) Hbe Hbr). }
  assert (tower_topics s' = tower_topics s -> exists es,
    trace_ (tower_topics s') = trace_ (tower_topics s) ++ es /\ Forall polite es /\ Forall (told topic_of) es /\
    (forall l t id, is_Some (subs (tower_topics s') l t id) -> t = topic_of id) /\
    (forall id t, find_topic (tower_topics s') id = Some t -> find_topic (tower_topics s) id = Some t)) as Hnone.
  { intros ->. exists []. split_and!; try done. by rewrite app_nil_r. }
  destruct a as [fw|b|now answers]; cbn [projected tower_known_after] in *.
  - destruct (run_forward (tower_logs s) fw) as [[m []]|].
    + destruct (Hone (handled fw) Hr) as (es & H1 & H2 & H3 & H4 & H5). exists es. split_and!; try done. intros id t Hf. specialize (H5 id t Hf). by destruct fw.
    + destruct (Hnone ltac:(by inversion Hr)) as (es & H1 & H2 & H3 & H4 & H5). exists es. split_and!; assumption.
    + destruct (Hnone ltac:(by inversion Hr)) as (es & H1 & H2 & H3 & H4 & H5). exists es. split_and!; assumption.
  - destruct (Hone b Hr) as (es & H1 & H2 & H3 & H4 & H5). exists es. split_and!; assumption.
  - destruct (Hnone ltac:(by inversion Hr)) as (es & H1 & H2 & H3 & H4 & H5). exists es. split_and!; assumption.
Qed.

(** Event loops exist. *)
Definition loops_ok : Prop := forall stream, 0 <= worker_of stream < num_workers.

(** A call of the tailers in a room that knows the event loops it needs. *)
Lemma run_tailers_spec r a : environment_ok -> loops_ok -> room_ok r -> tower_enabled (room_tower r) a ->
  (forall t q id, a = InRoom (Delivery.Subscribe t q id) -> is_Some (worker_at (sub_worker_ r) id)) ->
  exists s' es, run_tailers r a = Ok (append (concat (map (answers (sub_worker_ r)) es)) (with_tower s' r)) /\ tower_ok s' /\
    runs (topics r) (projected (room_tower r) a) (tower_topics s') /\
    trace_ (tower_topics s') = trace_ (topics r) ++ es /\ Forall polite es /\ Forall (told topic_of) es /\
    (forall l t id, is_Some (subs (tower_topics s') l t id) -> t = topic_of id) /\
    (forall id t, find_topic (tower_topics s') id = Some t -> tower_known_after a id t (find_topic (topics r) id = Some t)).
Proof.
  intros Henv Hloops [Hs Hw Hk HS] Hen Hsub.
  destruct (tower_says (room_tower r) a Henv Hs Hen HS (fun id t Hf => proj1 (Hk id t Hf))) as (s' & es & E & Hs' & Hr & Ht & Hp & Htold & HS' & HF'). exists s', es.
  split; [|split_and!; assumption]. unfold ControlRoom.run_tailers.
  assert (forall id, is_Some (worker_at (sub_worker_ r) id) -> CopilotWorker r id = cw id) as Hcw.
  { intros id [w Hid]. unfold CopilotWorker. rewrite Hid. exact (Hw id w Hid). }
  rewrite (run_tower_agree (CopilotWorker r) cw), E.
  - cbn [obind]. rewrite Ht, drop_app_length. apply (on_messages_spec num_workers es (with_tower s' r) Hp). intros st i w Hid.
    rewrite (Hw {| stream_id := st; sub_id := i |} w Hid). apply Hloops.
  - intros id [t Hf]. apply Hcw. by apply (Hk id t).
  - intros t q id Ha. by eapply Hcw, Hsub.
Qed.

(** What an action does: the tailers run, and what they say is written with the
    event loops that the room knows. *)
Definition room_did (a : room_action) (r r' : ControlRoom) : Prop := exists es m, room_ok r' /\
  runs (topics r) (projected (room_tower r) (tailer_call a)) (topics r') /\
  trace_ (topics r') = trace_ (topics r) ++ es /\ Forall polite es /\ Forall (told topic_of) es /\
  room_to_client_queues_ r' = room_to_client_queues_ r ++ concat (map (answers m) es) /\ (forall id w, worker_at m id = Some w -> w = cw id) /\
  (forall id, ~ room_concerns a id -> worker_at m id = worker_at (sub_worker_ r) id /\ worker_at (sub_worker_ r') id = worker_at (sub_worker_ r) id) /\
  (forall id, ~ subscribes a id -> worker_at m id = worker_at (sub_worker_ r) id /\
     (worker_at (sub_worker_ r') id = worker_at (sub_worker_ r) id \/ worker_at (sub_worker_ r') id = None)).

Lemma subscribe_command r m w origin : environment_ok -> loops_ok -> room_ok r -> room_enabled r (RoomSubscribe m w origin) ->
  exists r', run_room_action (RoomSubscribe m w origin) r = Ok r' /\ room_did (RoomSubscribe m w origin) r r'.
Proof.
  intros Henv Hloops Hok Hen. pose proof Hok as [Hs Hw Hk HS]. destruct Hen as (Htok & Hstart & Htop & ->). set (id := subscribed_id m origin) in *.
  set (r1 := with_workers (SubscriptionMap.Insert (sub_worker_ r) (stream_id id) (sub_id id) (worker_of origin)) r).
  assert (forall id', worker_at (sub_worker_ r1) id' = if decide (id' = id) then Some (default (worker_of origin) (worker_at (sub_worker_ r) id)) else worker_at (sub_worker_ r) id') as Hr1.
  { intros id'. apply find_insert_id. }
  assert (forall id' w, worker_at (sub_worker_ r1) id' = Some w -> w = cw id') as Hw1.
  { intros id' w. rewrite Hr1. case_decide as Hd; [|apply Hw]. subst id'. destruct (worker_at (sub_worker_ r) id) as [w0|] eqn:E0; intros [= <-]; [by apply Hw|done]. }
  assert (room_ok r1) as Hok1.
  { split; [done|done| |done]. intros id' t Hf. destruct (Hk id' t Hf) as [-> Hi]. split; [done|]. rewrite Hr1. case_decide; [done|exact Hi]. }
  destruct (run_tailers_spec r1 (InRoom (Delivery.Subscribe (subscribed_topic m) (start_seqno_ m) id)) Henv Hloops Hok1) as (s' & es & E & Hs' & Hr & Ht & Hp & Htold & HS' & HF').
  { split; [done|]. split; [|done]. split; [exists (sub_namespace_id_ m), (sub_topic_name_ m); by split|done]. }
  { intros t q id' [= <- <- <-]. rewrite Hr1, decide_True by done. by eexists. }
  exists (append (concat (map (answers (sub_worker_ r1)) es)) (with_tower s' r1)). split.
  { cbn [run_room_action]. unfold ControlRoom.MsgCommand. rewrite (proj2 (Z.eqb_neq _ _)) by (specialize (Hloops origin); lia). exact E. }
  exists es, (sub_worker_ r1). split_and!; try done.
  - split; cbn; [done|done| |done]. intros id' t Hf. destruct (HF' id' t Hf) as [Hf'|[-> ->]]; [by apply (ro_known _ Hok1)|].
    split; [done|]. change (is_Some (worker_at (sub_worker_ r1) id)). rewrite Hr1, decide_True by done. by eexists.
  - intros id' Hc. cbn [append with_tower sub_worker_]. rewrite Hr1, decide_False by (intros ->; by apply Hc). done.
  - intros id' Hc. cbn [append with_tower sub_worker_]. rewrite Hr1, decide_False by (intros ->; by apply Hc). split; [done|by left].
Qed.

(** A command that ends subscriptions: the tailers are called first, and then the
    event loops are forgotten. *)
Lemma end_command r a b (f : SubscriptionMap.t Z -> SubscriptionMap.t Z) : environment_ok -> loops_ok -> room_ok r -> tailer_call a = InRoom b -> tower_enabled (room_tower r) (InRoom b) ->
  (forall t q id, b <> Delivery.Subscribe t q id) ->
  (forall id, worker_at (f (sub_worker_ r)) id = if decide (concerns b id) then None else worker_at (sub_worker_ r) id) ->
  (forall id t known, known_after b id t known -> known /\ ~ concerns b id) ->
  exists r', (r <~ run_tailers r (InRoom b) ;; Ok (with_workers (f (sub_worker_ r)) r)) = Ok r' /\ room_did a r r'.
Proof.
  intros Henv Hloops Hok Ha Hen Hnot Hm' Hkn. pose proof Hok as [Hs Hw Hk HS].
  destruct (run_tailers_spec r (InRoom b) Henv Hloops Hok) as (s' & es & E & Hs' & Hr & Ht & Hp & Htold & HS' & HF'); [done|intros t q id [= ->]; exfalso; by eapply Hnot|].
  rewrite E. cbn [obind]. eexists. split; [reflexivity|]. exists es, (sub_worker_ r). rewrite Ha. split_and!; try done.
  - split; cbn; [done| | |done].
    + intros id w. rewrite Hm'. case_decide; [done|apply Hw].
    + intros id t Hf. destruct (Hkn id t _ (HF' id t Hf)) as [Hf' Hn]. destruct (Hk id t Hf') as [-> Hi]. split; [done|]. by rewrite Hm', decide_False.
  - intros id Hc. split; [done|]. cbn [with_workers sub_worker_]. unfold room_concerns in Hc. rewrite Ha in Hc. by rewrite Hm', decide_False.
  - intros id _. split; [done|]. cbn [with_workers sub_worker_]. rewrite Hm'. case_decide; [by right|by left].
Qed.

(** One action of the room. *)
Lemma room_step r a : environment_ok -> loops_ok -> room_ok r -> room_enabled r a -> exists r', run_room_action a r = Ok r' /\ room_did a r r'.
Proof.
  intros Henv Hloops Hok Hen. destruct a as [m w origin|m w origin|m w origin|a].
  - by apply subscribe_command.
  - cbn in Hen. subst w. cbn [run_room_action]. unfold ControlRoom.MsgCommand. rewrite (proj2 (Z.eqb_neq _ _)) by (specialize (Hloops origin); lia). cbn [negb assert_that obind].
    apply (end_command r (RoomUnsubscribe m (worker_of origin) origin) (Delivery.Unsubscribe (unsubscribed_id m origin))
      (fun m' => SubscriptionMap.Remove m' origin (unsub_sub_id_ m))); try done.
    intros id. exact (find_remove_id (sub_worker_ r) (unsubscribed_id m origin) id).
  - cbn in Hen. subst w. cbn [run_room_action]. unfold ControlRoom.MsgCommand. cbn [assert_that Z.eqb obind].
    apply (end_command r (RoomGoodbye m (-1) origin) (Delivery.Goodbye origin) (fun m' => SubscriptionMap.RemoveStream m' origin)); try done. intros id. by rewrite SubscriptionMap.Find_RemoveStream.
  - destruct Hen as [Hown Hen]. destruct (run_tailers_spec r a Henv Hloops Hok Hen) as (s' & es & E & Hs' & Hr & Ht & Hp & Htold & HS' & HF').
    { intros t q id ->. done. }
    eexists. split; [exact E|]. exists es, (sub_worker_ r). split_and!; try done; [|apply Hok|by intros id _; split; [|left]]. split; cbn; [done|apply Hok| |done]. intros id t Hf. specialize (HF' id t Hf).
    assert (find_topic (topics r) id = Some t) as Hf' by (destruct a as [fw|[]|now ans]; try done). by apply (ro_known _ Hok).
Qed.

(** ** What a subscription is written *)

(** A message without the previous sequence number, as [strip] for records. *)
Definition strip_delivered (m : MessageDeliverData) : MessageDeliverData :=
  {| ddata_deliver := {| deliver_base := deliver_base (ddata_deliver m); deliver_sub_id_ := deliver_sub_id_ (ddata_deliver m);
       deliver_seqno_prev_ := 0; deliver_seqno_ := deliver_seqno_ (ddata_deliver m) |};
     message_id_ := message_id_ m; ddata_payload_ := ddata_payload_ m |}.

Definition update_id (m : Message) : option Z := match m with DeliverData d => Some (deliver_sub_id_ (ddata_deliver d)) | _ => None end.

(** The records among what was written for a subscription. *)
Definition written_for (id : CopilotSub) (w : written) : option MessageDeliverData :=
  match to_message w with
  | DeliverData m => if decide (to_stream w = stream_id id /\ deliver_sub_id_ (ddata_deliver m) = sub_id id) then Some (strip_delivered m) else None
  | _ => None
  end.

Lemma written_answers m d rs id w : NoDup rs -> worker_at m id = Some w ->
  omap (written_for id) (omap (answer m (data_message d)) rs) = if decide (id ∈ rs) then [delivered_as (sub_id id) (strip d)] else [].
Proof using Type.
  intros Hnd Hw. induction Hnd as [|x rs Hx Hnd IH]; [by rewrite decide_False by apply not_elem_of_nil|]. cbn [omap list_omap]. unfold answer at 1.
  destruct (decide (x = id)) as [->|Hne].
  - rewrite Hw. cbn [mbind option_bind omap list_omap]. unfold written_for at 1. cbn [to_message data_message to_stream]. rewrite decide_True by done.
    rewrite IH, decide_False by done. rewrite decide_True by (by left). done.
  - rewrite (decide_ext (id ∈ x :: rs) (id ∈ rs)) by (rewrite elem_of_cons; split; [intros [->|Hin]; done|by right]). rewrite <-IH.
    destruct (worker_at m x) as [w'|]; [|done]. cbn [mbind option_bind omap list_omap]. unfold written_for at 1. cbn [to_message data_message to_stream].
    rewrite decide_False; [done|]. cbn. intros Heq%decide_id. by apply Hne.
Qed.

Lemma written_gap m g rs id : omap (written_for id) (omap (answer m (gap_message g)) rs) = [].
Proof using Type.
  induction rs as [|x rs IH]; [done|]. cbn [omap list_omap]. unfold answer at 1. destruct (worker_at m x); [|done]. cbn [mbind option_bind omap list_omap]. exact IH.
Qed.

(** What is written for a subscription is what the tailer says to it. *)
Lemma written_sent m es id w : worker_at m id = Some w -> Forall polite es -> Forall (told topic_of) es ->
  omap (written_for id) (concat (map (answers m) es)) = map (delivered_as (sub_id id)) (sent (topic_of id) id es).
Proof using Type.
  intros Hw. induction es as [|e es IH]; intros Hp Ht; [done|]. apply Forall_cons in Hp as [He Hp], Ht as [Hte Ht].
  cbn [map concat]. rewrite omap_app, (IH Hp Ht). unfold sent. cbn [omap list_omap].
  destruct e as [[| d | |g| | | | | | | | | ] rs|c|l]; cbn [polite told answers sent_by] in *; try done.
  - destruct He as (_ & _ & Hnd). rewrite (written_answers m d rs id w Hnd Hw). destruct (decide (id ∈ rs)) as [Hin|Hin].
    + rewrite decide_True by (split; [by apply Hte|done]). done.
    + rewrite decide_False by (by intros [_ ?]). done.
  - by rewrite written_gap.
Qed.

Lemma answers_loops m es : (forall id w, worker_at m id = Some w -> w = cw id) -> Forall (fun w => to_worker w = worker_of (to_stream w)) (concat (map (answers m) es)).
Proof using Type.
  intros Hm. assert (forall make rs, Forall (fun w => to_worker w = worker_of (to_stream w)) (omap (answer m make) rs)) as Hrs.
  { intros make rs. apply Forall_forall. intros x (id & _ & Hx)%list_elem_of_omap. unfold answer in Hx. destruct (worker_at m id) as [w|] eqn:E; [|done].
    cbn in Hx. injection Hx as <-. exact (Hm id w E). }
  apply Forall_concat, Forall_map, Forall_true. intros [[] rs| |]; cbn; try constructor; apply Hrs.
Qed.

(** Nothing is written for a subscription whose event loop is not known. *)
Lemma unknown_silent m es id : worker_at m id = None -> omap (written_for id) (concat (map (answers m) es)) = [].
Proof using Type.
  intros Hm. assert (forall (make : Z -> Message) rs, (forall i w, update_id (make i) = Some w -> w = i) -> omap (written_for id) (omap (answer m make) rs) = []) as Hrs.
  { intros make rs Hmake. induction rs as [|x rs IH]; [done|]. cbn [omap list_omap]. unfold answer at 1. destruct (worker_at m x) as [w|] eqn:E; [|done].
    cbn [mbind option_bind omap list_omap]. unfold written_for at 1. cbn [to_message to_stream]. specialize (Hmake (sub_id x)). destruct (make (sub_id x)); try exact IH.
    rewrite decide_False; [exact IH|]. cbn in Hmake. rewrite (Hmake _ eq_refl). intros Heq%decide_id. congruence. }
  induction es as [|e es IH]; [done|]. cbn [map concat]. rewrite omap_app, IH, app_nil_r. destruct e as [[] rs| |]; cbn [answers]; try done; apply Hrs; by intros i w [= <-].
Qed.

(** A run: how a subscription that it does not concern fares. *)
Lemma room_runs_serve r acts r' : environment_ok -> loops_ok -> room_ok r -> room_runs r acts r' ->
  room_ok r' /\ exists acts' ws, runs (topics r) acts' (topics r') /\ room_to_client_queues_ r' = room_to_client_queues_ r ++ ws /\
    Forall (fun w => to_worker w = worker_of (to_stream w)) ws /\
    (forall id, (forall a, a ∈ acts -> ~ room_concerns a id) -> (forall b, b ∈ acts' -> ~ concerns b id) /\
      (is_Some (worker_at (sub_worker_ r) id) -> exists es, trace_ (topics r') = trace_ (topics r) ++ es /\
         omap (written_for id) ws = map (delivered_as (sub_id id)) (sent (topic_of id) id es))) /\
    (forall id, (forall a, a ∈ acts -> ~ subscribes a id) -> worker_at (sub_worker_ r) id = None -> worker_at (sub_worker_ r') id = None /\ omap (written_for id) ws = []).
Proof.
  intros Henv Hloops Hok Hr. revert Hok. induction Hr as [r|r a acts r1 r' Hen Ha Hr IH]; intros Hok.
  { split; [done|]. exists [], []. split_and!; [constructor|by rewrite app_nil_r|constructor| |done]. intros id _. split; [by intros b ?%elem_of_nil|]. intros _. exists []. by rewrite app_nil_r. }
  destruct (room_step r a Henv Hloops Hok Hen) as (r2 & E & es & m & Hok1 & Hrun & Ht & Hp & Htold & Hq & Hm & Hkeep & Hfree). rewrite Ha in E. apply Ok_inj in E as <-.
  destruct (IH Hok1) as [Hok' (acts' & ws & Hrun' & Hq' & Hl' & Hid' & Hun')]. split; [done|]. exists (projected (room_tower r) (tailer_call a) ++ acts'), (concat (map (answers m) es) ++ ws).
  split_and!; [by eapply runs_append|by rewrite Hq', Hq, app_assoc|apply Forall_app; split; [by apply answers_loops|done]| |].
  2: { intros id Hno Hnone. destruct (Hfree id ltac:(apply Hno; by left)) as [Hm1 Hr1]. rewrite Hnone in Hm1, Hr1. destruct (Hun' id) as [Hn' Hws]; [intros b Hb; apply Hno; by right|by destruct Hr1|].
       split; [done|]. rewrite omap_app, Hws, unknown_silent by done. done. }
  intros id Hno. destruct (Hid' id) as [Hno' Hw']; [intros b Hb; apply Hno; by right|]. assert (~ room_concerns a id) as Hc by (apply Hno; by left). split.
  - intros b [Hb|Hb]%elem_of_app; [by eapply projected_concerns|by apply Hno'].
  - intros Hw. destruct (Hkeep id Hc) as [Hm1 Hr1]. destruct (Hw' ltac:(by rewrite Hr1)) as (es' & Ht' & Hws). exists (es ++ es').
    split; [by rewrite Ht', Ht, app_assoc|]. rewrite omap_app, Hws, sent_app, map_app. f_equal. destruct Hw as [w Hw]. eapply written_sent; [by rewrite Hm1|done|done].
Qed.

(** The constructor. *)
Definition NewControlRoom (s : tower) : ControlRoom := {| room_tower := s; sub_worker_ := ∅; room_to_client_queues_ := [] |}.

Lemma NewControlRoom_ok dc max_requests n lag s : config_ok dc max_requests lag -> NewTower dc max_requests n lag = Ok s -> room_ok (NewControlRoom s).
Proof.
  intros Hcfg Hs. destruct (NewTower_ok XXH64 cw log dc max_requests n lag Hcfg) as (s1 & E & Hok). rewrite Hs in E. apply Ok_inj in E as <-.
  unfold NewTower in Hs. apply obind_Ok in Hs as (r & _ & <-%Ok_inj). split; [exact Hok| | |].
  - intros id w. cbn. unfold SubscriptionMap.Find. by rewrite lookup_empty.
  - intros id t. cbn. unfold find_topic, SubscriptionMap.Find. cbn. by rewrite lookup_empty.
  - intros l t id. cbn. unfold subs, manager. cbn. rewrite lookup_empty. cbn. unfold TopicManager.sub_at. rewrite lookup_empty. by intros [].
Qed.

(** ** Properties *)

(** No action of a room fails an assertion.  Whatever commands the tower
    sends and whatever the storage does within [room_enabled], the room knows the event loop of every
    subscription that the topic tailer asks about or writes to, so that neither
    the assertion of the topic tailer on event loops, nor the index of a queue,
    nor a sequence number of a message is wrong. *)
Theorem room_never_aborts dc max_requests n lag s0 acts r a : environment_ok -> loops_ok -> config_ok dc max_requests lag ->
  NewTower dc max_requests n lag = Ok s0 -> room_runs (NewControlRoom s0) acts r -> room_enabled r a ->
  exists r', run_room_action a r = Ok r' /\
    forall id, is_Some (find_topic (topics r') id) -> CopilotWorker r' id = worker_of (stream_id id).
Proof.
  intros Henv Hloops Hcfg H0 Hr Hen. destruct (room_runs_serve _ _ _ Henv Hloops (NewControlRoom_ok _ _ _ _ _ Hcfg H0) Hr) as [Hok _].
  destruct (room_step r a Henv Hloops Hok Hen) as (r' & E & es & m & Hok' & _). exists r'. split; [done|]. intros id [t Ht].
  destruct (ro_known _ Hok' id t Ht) as [_ [w Hw]]. unfold CopilotWorker. rewrite Hw. exact (ro_workers _ Hok' id w Hw).
Qed.

(** C5: exactly-once delivery from the storage to the queues of the clients,
    under the promises of [room_enabled].  While a subscription is not the
    subject of a command, what the room writes for it are exactly the records of
    its topic from the sequence number it expects on, in order and once each, as
    messages for its ID on its stream, on the queue of the event loop of its
    stream.  Commands come from the event loop of their stream, an ID of a
    stream is used for one topic, at a place up to 2^62; the steps of the
    tailers are those for which [tower_enabled] holds: the storage opens the
    logs it is asked to open, a gap that a reader expects covers no record and
    passes no subscription on a topic the reader does not follow, and a reader
    takes over from the virtual reader only where that one stands
    ([failed_open_aborts], [gap_skips_unread_records] and
    [steal_expects_wrong_seqno] are what happens otherwise). *)
Theorem room_delivers dc max_requests n lag s0 acts0 r acts r' l t id q : environment_ok -> loops_ok -> config_ok dc max_requests lag ->
  NewTower dc max_requests n lag = Ok s0 -> room_runs (NewControlRoom s0) acts0 r -> room_runs r acts r' -> GetLogID t = Some l ->
  (forall a, a ∈ acts -> ~ room_concerns a id) -> expects cw (topics r) l t id q ->
  exists ws q', room_to_client_queues_ r' = room_to_client_queues_ r ++ ws /\ expects cw (topics r') l t id q' /\ q <= q' /\
    omap (written_for id) ws = map (delivered_as (sub_id id)) (records log l t q q') /\ Forall (fun w => to_worker w = worker_of (to_stream w)) ws.
Proof.
  intros Henv Hloops Hcfg H0 Hr0 Hr Hl Hno Hex. destruct (room_runs_serve _ _ _ Henv Hloops (NewControlRoom_ok _ _ _ _ _ Hcfg H0) Hr0) as [Hok _].
  destruct (room_runs_serve _ _ _ Henv Hloops Hok Hr) as [_ (acts' & ws & Hrun & Hq & Hlo & Hid & _)]. destruct (Hid id Hno) as [Hno' Hw].
  pose proof Hex as (_ & Hft & _). destruct (ro_known _ Hok id t Hft) as [-> Hk]. destruct (Hw Hk) as (es & Ht & Hws).
  destruct (runs_serves _ _ _ _ _ _ _ _ _ _ _ l (topic_of id) id Henv (tw_healthy _ _ _ _ (ro_tower _ Hok)) Hrun Hl Hno') as (_ & es' & Ht' & Hpr & _).
  rewrite Ht in Ht'. apply app_inv_head in Ht' as <-. destruct (Hpr q Hex) as (q' & Hex' & Hle & Hs). exists ws, q'. split_and!; [done|done|done| |done]. by rewrite Hws, Hs.
Qed.
End Room.

(** ** A run *)

Definition example_subscribe : MessageSubscribe :=
  {| sub_base := {| type_ := MessageType.mSubscribe; tenantid_ := 200 |}; sub_namespace_id_ := [Byte.x62]; sub_topic_name_ := [Byte.x61];
     start_seqno_ := 4; sub_sub_id_ := 1 |}.

(** One event loop, and one topic. *)
Definition example_loop (stream : Z) : Z := 0.
Definition example_topic_of (id : CopilotSub) : TopicUUID := example_topic Byte.x61.

Definition example_room_step := run_room_action 1 example_hash 100 200 never example_route (fun _ => 1000).
Definition example_room_runs := room_runs 1 example_hash 100 200 never example_route example_log (fun _ => 1000) example_loop example_topic_of.

Fixpoint room_steps (acts : list room_action) (r : ControlRoom) : outcome ControlRoom :=
  match acts with [] => Ok r | a :: acts => r <~ example_room_step a r ;; room_steps acts r end.

Definition new_room : ControlRoom := NewControlRoom (tower_after []).
Definition room_after (acts : list room_action) : ControlRoom := match room_steps acts new_room with Ok r => r | Abort _ => new_room end.

Definition room_serve : list room_action := [RoomSubscribe example_subscribe 0 1; RoomTailers (InRoom (PendingItem 0 (client 1) true))].
Definition room_record : room_action := RoomTailers (FromStorage (ForwardRecord (example_data Byte.x61 4) 7 0)).

Lemma room_serve_runs : example_room_runs new_room room_serve (room_after room_serve).
Proof.
  econstructor; [|vm_compute; reflexivity|].
  { split; [by vm_compute|]. split; [by vm_compute|]. split; [by vm_compute|done]. }
  econstructor; [|vm_compute; reflexivity|constructor]. split; [done|]. split; [done|]. split; [|done]. eexists. split; [reflexivity|]. by eexists.
Qed.

Lemma room_record_enabled : room_enabled 100 200 example_log example_loop example_topic_of (room_after room_serve) room_record.
Proof.
  split; [done|]. split; [vm_compute; split; [discriminate|reflexivity]|]. split; [intros st Hst; vm_compute in Hst; discriminate|].
  split; [exists (example_data Byte.x61 4); split; [reflexivity|apply same_message_refl]|]. split; vm_compute; [discriminate|reflexivity].
Qed.

Lemma example_loops : loops_ok 1 example_loop.
Proof. intros stream. unfold example_loop. lia. Qed.

Lemma room_never_aborts_witness : exists r', example_room_step room_record (room_after room_serve) = Ok r'.
Proof.
  destruct (room_never_aborts 1 example_hash 100 200 never example_route example_log (fun _ => 1000) example_loop example_topic_of no_cache 2 2 1000
    (tower_after []) room_serve (room_after room_serve) room_record example_environment example_loops example_config ltac:(vm_compute; reflexivity) room_serve_runs room_record_enabled) as (r' & E & _).
  exists r'. exact E.
Defined.

Lemma room_delivers_witness : exists ws q', room_to_client_queues_ (room_after (room_serve ++ [room_record])) = room_to_client_queues_ (room_after room_serve) ++ ws /\
  omap (written_for (client 1)) ws = map (delivered_as 1) (records example_log 7 (example_topic Byte.x61) 4 q').
Proof.
  assert (example_room_runs (room_after room_serve) [room_record] (room_after (room_serve ++ [room_record]))) as Hr.
  { econstructor; [exact room_record_enabled|vm_compute; reflexivity|constructor]. }
  destruct (room_delivers 1 example_hash 100 200 never example_route example_log (fun _ => 1000) example_loop example_topic_of no_cache 2 2 1000
    (tower_after []) room_serve (room_after room_serve) [room_record] _ 7 (example_topic Byte.x61) (client 1) 4
    example_environment example_loops example_config ltac:(vm_compute; reflexivity) room_serve_runs Hr eq_refl) as (ws & q' & H1 & _ & _ & H2 & _).
  - intros a Ha. apply list_elem_of_singleton in Ha as ->. exact (fun H => H).
  - exact serve_client_expects.
  - exists ws, q'. exact (conj H1 H2).
Defined.

(** What was written, computed. *)
Example room_example : omap (written_for (client 1)) (room_to_client_queues_ (room_after (room_serve ++ [room_record]))) =
  [delivered_as 1 (strip (example_data Byte.x61 4))].
Proof. vm_compute. reflexivity. Qed.
