(* ===== verification/ControlTower.v ===== *)
(** * The control tower

    controltower/tower.cc: the message callbacks of the tower, which run on the
    event loop of the stream a message comes from, and pass it to the room of the
    log of its topic on a queue from the event loop to the room.  A room runs the
    commands of such a queue in their order; between the queues there is no order.
    Every event loop has one room. *)

From S2P Require Import Prelude Coding CodingFacts Messages Containers LRUCache Bloom DataCache DataCacheFacts.
From S2P Require Import DataCacheVisit TopicManager LogReader LogReaderFacts TopicTailer TailerInv TopicTailerFacts.
From S2P Require Import TailerSteps TailerSubs TailerRoom Delivery TailerPolite LogTailer LogTailerFacts TailerLink TailerCalls Tower.
From S2P Require Import ControlRoom RoomWorkers RoomFacts.

#[local] Open Scope outcome_scope.

(** ** Model *)

Definition InvalidNamespace : slice := [].

(** A command on a queue from an event loop to a room: a message for the room
    ([ControlRoom::MsgCommand]), or the question for the tail of a log. *)
Inductive room_command :=
| Forwarded (msg : Message) (worker_id origin : Z)
| FindTail (request : MessageFindTailSeqno) (log_id worker_id origin : Z).

(** A question for the tail that the storage has not answered: what the callback
    has captured. *)
Record tail_request := { asked_by : MessageFindTailSeqno; asked_worker : Z; asked_origin : Z }.

(** The queues are indexed by event loop and room; [responses_] is what the tower
    itself sends to clients. *)
Record ControlTower := {
  rooms_ : list ControlRoom;
  tower_to_room_queues_ : gmap (Z * Z) (list room_command);
  sub_to_room_ : gmap Z (SubscriptionMap.t Z);
  tail_requests_ : list tail_request;
  responses_ : list written
}.

Definition set_rooms (rs : list ControlRoom) (t : ControlTower) : ControlTower :=
  {| rooms_ := rs; tower_to_room_queues_ := tower_to_room_queues_ t; sub_to_room_ := sub_to_room_ t; tail_requests_ := tail_requests_ t; responses_ := responses_ t |}.
Definition set_queues (q : gmap (Z * Z) (list room_command)) (t : ControlTower) : ControlTower :=
  {| rooms_ := rooms_ t; tower_to_room_queues_ := q; sub_to_room_ := sub_to_room_ t; tail_requests_ := tail_requests_ t; responses_ := responses_ t |}.
Definition set_sub_to_room (m : gmap Z (SubscriptionMap.t Z)) (t : ControlTower) : ControlTower :=
  {| rooms_ := rooms_ t; tower_to_room_queues_ := tower_to_room_queues_ t; sub_to_room_ := m; tail_requests_ := tail_requests_ t; responses_ := responses_ t |}.
Definition set_tail_requests (l : list tail_request) (t : ControlTower) : ControlTower :=
  {| rooms_ := rooms_ t; tower_to_room_queues_ := tower_to_room_queues_ t; sub_to_room_ := sub_to_room_ t; tail_requests_ := l; responses_ := responses_ t |}.
Definition push_response (w : written) (t : ControlTower) : ControlTower :=
  {| rooms_ := rooms_ t; tower_to_room_queues_ := tower_to_room_queues_ t; sub_to_room_ := sub_to_room_ t; tail_requests_ := tail_requests_ t; responses_ := responses_ t ++ [w] |}.

(** [msg_loop->GetNumWorkers()], which is the number of rooms. *)
Definition num_rooms (t : ControlTower) : Z := Z.of_nat (length (rooms_ t)).

Definition queue (t : ControlTower) (worker room : Z) : list room_command := default [] (tower_to_room_queues_ t !! (worker, room)).
Definition room_map (t : ControlTower) (worker : Z) : SubscriptionMap.t Z := default ∅ (sub_to_room_ t !! worker).

Definition LogIDToRoom (t : ControlTower) (log_id : Z) : outcome Z :=
  assert_that (negb (num_rooms t =? 0)) "log_id % 0" ;;; Ok (log_id mod num_rooms t).

(** [queue->Write(command)], which always takes the command. *)
Definition write_queue (t : ControlTower) (worker room : Z) (c : room_command) : outcome ControlTower :=
  assert_that ((0 <=? worker) && (worker <? num_rooms t)) "tower_to_room_queues_[worker_id]" ;;;
  assert_that ((0 <=? room) && (room <? num_rooms t)) "tower_to_room_queues_[worker_id][room_number]" ;;;
  Ok (set_queues (<[(worker, room) := queue t worker room ++ [c]]> (tower_to_room_queues_ t)) t).

Definition write_to_client (t : ControlTower) (worker stream : Z) (m : Message) : outcome ControlTower :=
  Serialize m [] ;;; Ok (push_response {| to_worker := worker; to_stream := stream; to_message := m |} t).

Section ControlTower.
Context (XXH64 : slice -> Z) (sizeof_MessageData sizeof_CacheEntry : Z).
Context (WriteHasFailed : list event -> bool) (GetLogID : TopicUUID -> option Z).
Context (restart_time_of : LogTailer.t -> Z).

Definition Tower_ProcessSubscribe (t : ControlTower) (subscribe : MessageSubscribe) (worker_id origin : Z) : outcome ControlTower :=
  let sub_id := sub_sub_id_ subscribe in
  if bool_decide (sub_namespace_id_ subscribe = InvalidNamespace) then
    write_to_client t worker_id origin (NewUnsubscribe (tenantid_ (sub_base subscribe)) sub_id kInvalid)
  else
    match GetLogID (NewTopicUUID (sub_namespace_id_ subscribe) (sub_topic_name_ subscribe)) with
    | None => Ok t
    | Some log_id =>
        room_number <~ LogIDToRoom t log_id ;;
        t <~ write_queue t worker_id room_number (Forwarded (Messages.Subscribe subscribe) worker_id origin) ;;
        Ok (set_sub_to_room (<[worker_id := SubscriptionMap.Insert (room_map t worker_id) origin sub_id room_number]> (sub_to_room_ t)) t)
    end.

Definition Tower_ProcessUnsubscribe (t : ControlTower) (unsubscribe : MessageUnsubscribe) (worker_id origin : Z) : outcome ControlTower :=
  let '(m, out) := SubscriptionMap.MoveOut (room_map t worker_id) origin (unsub_sub_id_ unsubscribe) in
  match out with
  | None => Ok t
  | Some room_number =>
      let t := set_sub_to_room (<[worker_id := m]> (sub_to_room_ t)) t in
      write_queue t worker_id room_number (Forwarded (Messages.Unsubscribe unsubscribe) worker_id origin)
  end.

Definition Tower_ProcessFindTailSeqno (t : ControlTower) (request : MessageFindTailSeqno) (worker_id origin : Z) : outcome ControlTower :=
  match GetLogID (NewTopicUUID (find_namespace_id_ request) (find_topic_name_ request)) with
  | None => Ok t
  | Some log_id =>
      room <~ LogIDToRoom t log_id ;;
      write_queue t worker_id room (FindTail request log_id worker_id origin)
  end.

Fixpoint goodbye_rooms (t : ControlTower) (goodbye : MessageGoodbye) (worker_id origin : Z) (rooms : list nat) : outcome ControlTower :=
  match rooms with
  | [] => Ok t
  | i :: rooms =>
      let new_msg := {| goodbye_base := {| type_ := MessageType.mGoodbye; tenantid_ := tenantid_ (goodbye_base goodbye) |};
                        code_ := code_ goodbye; origin_type_ := origin_type_ goodbye |} in
      t <~ write_queue t worker_id (Z.of_nat i) (Forwarded (Messages.Goodbye new_msg) (-1) origin) ;;
      goodbye_rooms t goodbye worker_id origin rooms
  end.

Definition Tower_ProcessGoodbye (t : ControlTower) (goodbye : MessageGoodbye) (worker_id origin : Z) : outcome ControlTower :=
  t <~ goodbye_rooms t goodbye worker_id origin (seq 0 (length (rooms_ t))) ;;
  Ok (set_sub_to_room (<[worker_id := SubscriptionMap.RemoveStream (room_map t worker_id) origin]> (sub_to_room_ t)) t).

(** The callbacks of the tower, as the message loop calls them ([EventCallback];
    it has callbacks of its own for pings and heartbeats). *)
Definition Tower_Callback (t : ControlTower) (msg : Message) (worker_id origin : Z) : outcome ControlTower :=
  match msg with
  | Messages.Subscribe m => Tower_ProcessSubscribe t m worker_id origin
  | Messages.Unsubscribe m => Tower_ProcessUnsubscribe t m worker_id origin
  | Messages.FindTailSeqno m => Tower_ProcessFindTailSeqno t m worker_id origin
  | Messages.Goodbye m => Tower_ProcessGoodbye t m worker_id origin
  | _ => Abort "0"
  end.

(** The callback with the tail of a log. *)
Definition tail_callback (t : ControlTower) (r : tail_request) (status_ok : bool) (seqno : Z) : outcome ControlTower :=
  if status_ok then
    write_to_client t (asked_worker r) (asked_origin r)
      (TailSeqno {| tail_base := {| type_ := MessageType.mTailSeqno; tenantid_ := tenantid_ (find_base (asked_by r)) |};
                    tail_namespace_id_ := find_namespace_id_ (asked_by r); tail_topic_name_ := find_topic_name_ (asked_by r); tail_seqno_ := seqno |})
  else Ok t.

Definition get_room (t : ControlTower) (room : Z) : outcome ControlRoom :=
  match (if 0 <=? room then rooms_ t !! Z.to_nat room else None) with Some r => Ok r | None => Abort "rooms_[room]" end.

Definition put_room (t : ControlTower) (room : Z) (r : ControlRoom) : ControlTower := set_rooms (<[Z.to_nat room := r]> (rooms_ t)) t.

(** A command, when the room runs it; the storage may refuse a question. *)
Definition run_command (t : ControlTower) (room : Z) (c : room_command) (storage_ok : bool) : outcome ControlTower :=
  r <~ get_room t room ;;
  match c with
  | Forwarded msg worker_id origin =>
      r <~ MsgCommand (num_rooms t) XXH64 sizeof_MessageData sizeof_CacheEntry WriteHasFailed GetLogID restart_time_of r msg worker_id origin ;;
      Ok (put_room t room r)
  | FindTail request log_id worker_id origin =>
      let asked := {| asked_by := request; asked_worker := worker_id; asked_origin := origin |} in
      let seqno := GetTailSeqnoEstimate (tower_topics (room_tower r)) log_id in
      if negb (seqno =? 0) then tail_callback t asked true seqno
      else if storage_ok then Ok (set_tail_requests (tail_requests_ t ++ [asked]) t)
      else Ok t
  end.

(** A room takes the next command of the queue from an event loop. *)
Definition run_next (t : ControlTower) (worker room : Z) (storage_ok : bool) : outcome ControlTower :=
  match queue t worker room with
  | [] => Ok t
  | c :: cs => run_command (set_queues (<[(worker, room) := cs]> (tower_to_room_queues_ t)) t) room c storage_ok
  end.

(** The storage answers a question. *)
Definition answer_tail (t : ControlTower) (k : nat) (status_ok : bool) (seqno : Z) : outcome ControlTower :=
  match tail_requests_ t !! k with
  | None => Ok t
  | Some r => tail_callback (set_tail_requests (delete k (tail_requests_ t)) t) r status_ok seqno
  end.

(** A call of the tailers of a room. *)
Definition run_room_tailers (t : ControlTower) (room : Z) (a : tower_action) : outcome ControlTower :=
  r <~ get_room t room ;;
  r <~ run_tailers (num_rooms t) XXH64 sizeof_MessageData sizeof_CacheEntry WriteHasFailed GetLogID restart_time_of r a ;;
  Ok (put_room t room r).
End ControlTower.

(** ** Construction *)

(** The part of the cache that each room gets. *)
Definition cache_size_per_room (cache_size num_rooms : Z) : Z := if 0 <? cache_size then Z.max (cache_size / num_rooms) 1024 else 0.

(** [ControlTower::Initialize]: the same for every room. *)
Definition NewControlTower (num_rooms : nat) (cache_size : Z) (cache_data_from_system_namespaces : bool) (bloom_bits_per_msg cache_block_size : Z)
    (max_find_time_requests : Z) (readers_per_room : nat) (max_subscription_lag : Z) : outcome ControlTower :=
  dc <~ NewDataCache (cache_size_per_room cache_size (Z.of_nat num_rooms)) cache_data_from_system_namespaces bloom_bits_per_msg cache_block_size ;;
  s <~ NewTower dc max_find_time_requests readers_per_room max_subscription_lag ;;
  Ok {| rooms_ := replicate num_rooms (NewControlRoom s); tower_to_room_queues_ := ∅; sub_to_room_ := ∅; tail_requests_ := []; responses_ := [] |}.
