(* ===== verification/TowerFacts.v ===== *)
(** * The control tower: its rooms together

    The tower as a machine: messages of clients on their event loops, the commands
    that rooms take from the queues, answers of the storage, and the calls of the
    tailers.  A subscription is known in one room only, that of the log of its
    topic; what the rooms rely on ([room_enabled]) is true of the commands on the
    queues; so the delivery of a room is that of the tower. *)

From S2P Require Import Prelude Coding CodingFacts Messages Containers LRUCache Bloom DataCache DataCacheFacts.
From S2P Require Import DataCacheVisit TopicManager LogReader LogReaderFacts TopicTailer TailerInv TopicTailerFacts.
From S2P Require Import TailerSteps TailerSubs TailerRoom Delivery TailerPolite LogTailer LogTailerFacts TailerLink TailerCalls Tower.
From S2P Require Import ControlRoom RoomWorkers RoomFacts ControlTower.
Import LogTailer LogTailerFacts.

#[local] Open Scope outcome_scope.

(** ** The machine *)

Inductive control_action :=
| FromClient (msg : Message) (worker origin : Z)
| RunNext (worker room : Z) (storage_ok : bool)
| TailAnswer (k : nat) (status_ok : bool) (seqno : Z)
| RoomCalls (room : Z) (a : tower_action).

(** The action of a room that a command is. *)
Definition command_action (c : room_command) : option room_action :=
  match c with
  | Forwarded (Messages.Subscribe m) w o => Some (RoomSubscribe m w o)
  | Forwarded (Messages.Unsubscribe m) w o => Some (RoomUnsubscribe m w o)
  | Forwarded (Messages.Goodbye m) w o => Some (RoomGoodbye m w o)
  | _ => None
  end.

Definition command_concerns (c : room_command) (id : CopilotSub) : Prop := exists a, command_action c = Some a /\ room_concerns a id.

(** The messages that change or end a subscription. *)
Definition message_concerns (a : control_action) (id : CopilotSub) : Prop :=
  match a with
  | FromClient (Messages.Subscribe m) _ o => id = subscribed_id m o
  | FromClient (Messages.Unsubscribe m) _ o => id = unsubscribed_id m o
  | FromClient (Messages.Goodbye _) _ o => stream_id id = o
  | _ => False
  end.

(** ** Queues *)

Lemma queue_set t w i q w' i' : queue (set_queues (<[(w, i) := q]> (tower_to_room_queues_ t)) t) w' i' = if decide ((w', i') = (w, i)) then q else queue t w' i'.
Proof.
  unfold queue. cbn. destruct (decide ((w', i') = (w, i))) as [E|Hne]; [by rewrite E, lookup_insert_eq|]. by rewrite lookup_insert_ne by congruence.
Qed.

Lemma write_queue_ok t w i c : 0 <= w < num_rooms t -> 0 <= i < num_rooms t ->
  exists t', write_queue t w i c = Ok t' /\ t' = set_queues (<[(w, i) := queue t w i ++ [c]]> (tower_to_room_queues_ t)) t /\
    forall w' i' c', c' ∈ queue t' w' i' -> c' ∈ queue t w' i' \/ c' = c /\ i' = i.
Proof.
  intros Hw Hi. unfold write_queue. rewrite !(proj2 (Z.leb_le _ _)), !(proj2 (Z.ltb_lt _ _)) by lia. cbn [andb assert_that obind].
  eexists. split; [reflexivity|]. split; [reflexivity|]. intros w' i' c'. rewrite queue_set. case_decide as E; [|by left]. injection E as -> ->.
  intros [Hc|Hc]%elem_of_app; [by left|right]. by apply list_elem_of_singleton in Hc.
Qed.

Lemma room_map_set t w m w' : room_map (set_sub_to_room (<[w := m]> (sub_to_room_ t)) t) w' = if decide (w' = w) then m else room_map t w'.
Proof. unfold room_map. cbn. case_decide as E; [by rewrite E, lookup_insert_eq|]. by rewrite lookup_insert_ne by congruence. Qed.

Lemma get_room_ok t i r : rooms_ t !! Z.to_nat i = Some r -> 0 <= i -> get_room t i = Ok r.
Proof. intros Hr Hi. unfold get_room. by rewrite (proj2 (Z.leb_le 0 i)), Hr by lia. Qed.

Section Facts.
Context (n : nat) (XXH64 : slice -> Z) (sizeof_MessageData sizeof_CacheEntry : Z).
Context (WriteHasFailed : list event -> bool) (GetLogID : TopicUUID -> option Z).
Context (log : Z -> Z -> option MessageData) (restart_time_of : LogTailer.t -> Z).
Context (worker_of : Z -> Z) (topic_of : CopilotSub -> TopicUUID).

#[local] Abbreviation cw := (fun id : CopilotSub => worker_of (stream_id id)).
#[local] Abbreviation environment_ok := (environment_ok sizeof_MessageData sizeof_CacheEntry GetLogID cw log).
#[local] Abbreviation tower_enabled := (tower_enabled sizeof_MessageData sizeof_CacheEntry log).
#[local] Abbreviation loops_ok := (loops_ok (Z.of_nat n) worker_of).
#[local] Abbreviation room_ok := (room_ok XXH64 log worker_of topic_of).
#[local] Abbreviation room_runs := (room_runs (Z.of_nat n) XXH64 sizeof_MessageData sizeof_CacheEntry WriteHasFailed GetLogID log restart_time_of worker_of topic_of).
#[local] Abbreviation room_enabled := (room_enabled sizeof_MessageData sizeof_CacheEntry log worker_of topic_of).
#[local] Abbreviation run_room_action := (run_room_action (Z.of_nat n) XXH64 sizeof_MessageData sizeof_CacheEntry WriteHasFailed GetLogID restart_time_of).
#[local] Abbreviation worker_at m id := (SubscriptionMap.Find m (stream_id id) (sub_id id)).
#[local] Abbreviation topics r := (tower_topics (room_tower r)).

Definition run_control (a : control_action) (t : ControlTower) : outcome ControlTower :=
  match a with
  | FromClient msg worker origin => Tower_Callback GetLogID t msg worker origin
  | RunNext worker room ok => run_next XXH64 sizeof_MessageData sizeof_CacheEntry WriteHasFailed GetLogID restart_time_of t worker room ok
  | TailAnswer k ok seqno => answer_tail t k ok seqno
  | RoomCalls room a => run_room_tailers XXH64 sizeof_MessageData sizeof_CacheEntry WriteHasFailed GetLogID restart_time_of t room a
  end.

(** What is promised: a message comes from the event loop of its stream and has a
    callback, and an ID is used for one topic. *)
Definition control_enabled (t : ControlTower) (a : control_action) : Prop :=
  match a with
  | FromClient msg worker origin => worker = worker_of origin /\
      match msg with
      | Messages.Subscribe m => topic_ok (sub_namespace_id_ m, sub_topic_name_ m) /\ 0 <= start_seqno_ m <= kMaxSeqno /\
          subscribed_topic m = topic_of (subscribed_id m origin)
      | Messages.Unsubscribe _ | Messages.FindTailSeqno _ | Messages.Goodbye _ => True
      | _ => False
      end
  | RunNext _ room _ => 0 <= room < Z.of_nat n
  | TailAnswer _ _ _ => True
  | RoomCalls room a => exists r, 0 <= room /\ rooms_ t !! Z.to_nat room = Some r /\ own_call a /\ tower_enabled (room_tower r) a
  end.

Inductive control_runs : ControlTower -> list control_action -> ControlTower -> Prop :=
| control_stop t : control_runs t [] t
| control_more t a acts t1 t' : control_enabled t a -> run_control a t = Ok t1 -> control_runs t1 acts t' -> control_runs t (a :: acts) t'.

(** The room of a subscription. *)
Definition room_of (id : CopilotSub) : option Z := l ← GetLogID (topic_of id); Some (l mod Z.of_nat n).

Definition command_ok (room : Z) (c : room_command) : Prop :=
  match c with
  | Forwarded msg w o =>
      match msg with
      | Messages.Subscribe m => topic_ok (sub_namespace_id_ m, sub_topic_name_ m) /\ 0 <= start_seqno_ m <= kMaxSeqno /\
          subscribed_topic m = topic_of (subscribed_id m o) /\ w = worker_of o /\ room_of (subscribed_id m o) = Some room
      | Messages.Unsubscribe _ => w = worker_of o
      | Messages.Goodbye _ => w = -1
      | _ => False
      end
  | FindTail _ _ w o => w = worker_of o
  end.

(** The invariant. *)
Record control_ok (t : ControlTower) : Prop := {
  co_rooms : length (rooms_ t) = n;
  co_room : forall i r, rooms_ t !! i = Some r -> room_ok r /\ forall id, is_Some (worker_at (sub_worker_ r) id) -> room_of id = Some (Z.of_nat i);
  co_queues : forall w i c, c ∈ queue t w i -> command_ok i c;
  co_map : forall w id i, worker_at (room_map t w) id = Some i -> room_of id = Some i;
  co_tails : Forall (fun r => asked_worker r = worker_of (asked_origin r)) (tail_requests_ t);
  co_responses : Forall (fun w => to_worker w = worker_of (to_stream w)) (responses_ t)
}.

(** How a step moves the rooms and the queues. *)
Record moved (a : control_action) (t t' : ControlTower) : Prop := {
  mv_room : forall i r, rooms_ t !! i = Some r -> exists r' acts, rooms_ t' !! i = Some r' /\ room_runs r acts r' /\
    forall x id, x ∈ acts -> (room_concerns x id -> exists w c, c ∈ queue t w (Z.of_nat i) /\ command_concerns c id) /\
                             (subscribes x id -> room_of id = Some (Z.of_nat i));
  mv_queue : forall w i c id, c ∈ queue t' w i -> command_concerns c id -> c ∈ queue t w i \/ message_concerns a id
}.

Definition stepped_to (a : control_action) (t : ControlTower) (r : outcome ControlTower) : Prop := exists t', r = Ok t' /\ control_ok t' /\ moved a t t'.

Lemma num_rooms_ok t : control_ok t -> num_rooms t = Z.of_nat n.
Proof. intros H. unfold num_rooms. by rewrite (co_rooms t H). Qed.

(** The rooms are as they were. *)
Lemma moved_still a t t' : rooms_ t' = rooms_ t -> (forall w i c id, c ∈ queue t' w i -> command_concerns c id -> c ∈ queue t w i \/ message_concerns a id) -> moved a t t'.
Proof.
  intros Hr Hq. split; [|exact Hq]. intros i r Hi. exists r, []. rewrite Hr. split_and!; [done|constructor|]. by intros x id ?%elem_of_nil.
Qed.

Lemma stepped_same a t : control_ok t -> stepped_to a t (Ok t).
Proof. intros H. exists t. split_and!; [done|done|]. apply moved_still; [done|]. by left. Qed.

Lemma room_of_range id i : loops_ok -> room_of id = Some i -> 0 <= i < Z.of_nat n.
Proof.
  intros Hl. unfold room_of. destruct (GetLogID (topic_of id)) as [l|]; [|done]. cbn. intros [= <-]. specialize (Hl 0). apply Z.mod_pos_bound. lia.
Qed.

(** ** Messages of clients *)

Lemma write_to_client_ok a t w o m : control_ok t -> w = worker_of o -> (exists bytes, Serialize m [] = Ok bytes) -> stepped_to a t (write_to_client t w o m).
Proof.
  intros [H1 H2 H3 H4 H5 H6] Hw [bytes Hb]. unfold write_to_client. rewrite Hb. cbn [obind]. eexists. split; [reflexivity|]. split.
  - split; [done|done|done|done|done|]. cbn. apply Forall_app. split; [done|]. by constructor.
  - apply moved_still; [done|]. by left.
Qed.

Lemma subscribe_steps t m w o : loops_ok -> control_ok t -> control_enabled t (FromClient (Messages.Subscribe m) w o) ->
  stepped_to (FromClient (Messages.Subscribe m) w o) t (Tower_ProcessSubscribe GetLogID t m w o).
Proof.
  intros Hl Hok (-> & Htok & Hs & Htop). unfold Tower_ProcessSubscribe. case_bool_decide; [by apply write_to_client_ok; [..|eexists]|].
  change (NewTopicUUID _ _) with (subscribed_topic m). destruct (GetLogID (subscribed_topic m)) as [l|] eqn:El; [|by apply stepped_same].
  unfold LogIDToRoom. rewrite (num_rooms_ok t Hok). pose proof (Hl 0) as Hn0. rewrite (proj2 (Z.eqb_neq _ _)) by lia. cbn [negb assert_that obind].
  set (i := l mod Z.of_nat n). assert (room_of (subscribed_id m o) = Some i) as Hroom by (unfold room_of; by rewrite <-Htop, El).
  destruct (write_queue_ok t (worker_of o) i (Forwarded (Messages.Subscribe m) (worker_of o) o)) as (t1 & -> & E & Hq);
    [rewrite (num_rooms_ok t Hok); apply Hl|rewrite (num_rooms_ok t Hok); by eapply room_of_range|]. cbn [obind]. eexists. split; [reflexivity|].
  destruct Hok as [H1 H2 H3 H4 H5 H6]. split.
  - split; [by rewrite E|rewrite E; exact H2| | |by rewrite E|by rewrite E].
    + intros w i' c [Hc|[-> ->]]%Hq; [by apply (H3 w)|done].
    + intros w id j. rewrite room_map_set. assert (forall x, room_map t1 x = room_map t x) as Em by (by rewrite E). case_decide as Ew; [|rewrite Em; apply H4].
      rewrite (find_insert_id _ (subscribed_id m o)), !Em. case_decide as Ei; [|apply H4]. subst.
      destruct (worker_at (room_map t (worker_of o)) (subscribed_id m o)) as [j0|] eqn:Ej; intros [= <-]; [by apply (H4 _ _ _ Ej)|done].
  - apply moved_still; [by rewrite E|]. intros w i' c id [Hc|[-> ->]]%Hq Hid; [by left|right]. destruct Hid as (a & [= <-] & Ha). exact Ha.
Qed.

(** A command is put on a queue. *)
Lemma queued_steps a t w i c : loops_ok -> control_ok t -> 0 <= w < Z.of_nat n -> 0 <= i < Z.of_nat n -> command_ok i c ->
  (forall id, command_concerns c id -> message_concerns a id) -> stepped_to a t (write_queue t w i c).
Proof.
  intros Hl Hok Hw Hi Hc Hm. destruct (write_queue_ok t w i c) as (t1 & -> & E & Hq); [rewrite (num_rooms_ok t Hok); lia..|].
  exists t1. split; [done|]. destruct Hok as [H1 H2 H3 H4 H5 H6]. split; [|apply moved_still; [by rewrite E|]].
  - split; try (by rewrite E). intros w' i' c' [Hc'|[-> ->]]%Hq; [by apply (H3 w')|done].
  - intros w' i' c' id [Hc'|[-> ->]]%Hq Hid; [by left|right]. by apply Hm.
Qed.

Lemma unsubscribe_steps t m w o : loops_ok -> control_ok t -> control_enabled t (FromClient (Messages.Unsubscribe m) w o) ->
  stepped_to (FromClient (Messages.Unsubscribe m) w o) t (Tower_ProcessUnsubscribe t m w o).
Proof.
  intros Hl Hok [-> _]. unfold Tower_ProcessUnsubscribe. pose proof (SubscriptionMap.Find_MoveOut (room_map t (worker_of o)) o (unsub_sub_id_ m)) as Hf.
  pose proof (SubscriptionMap.MoveOut_result (room_map t (worker_of o)) o (unsub_sub_id_ m)) as Hr.
  destruct (SubscriptionMap.MoveOut _ _ _) as [m' out]. cbn [fst snd] in Hf, Hr. destruct out as [i|]; [|by apply stepped_same].
  set (t1 := set_sub_to_room _ t). assert (control_ok t1) as Hok1.
  { destruct Hok as [H1 H2 H3 H4 H5 H6]. split; try done. intros w id j. unfold t1. rewrite room_map_set. case_decide as Ew; [|apply H4].
    rewrite Hf. case_decide; [done|]. rewrite <-Ew. apply H4. }
  destruct (queued_steps (FromClient (Messages.Unsubscribe m) (worker_of o) o) t1 (worker_of o) i (Forwarded (Messages.Unsubscribe m) (worker_of o) o)) as (t2 & E & Hok2 & Hmv); try done.
  - eapply room_of_range; [done|]. by apply (co_map t Hok (worker_of o) (unsubscribed_id m o)).
  - intros id (a & [= <-] & Ha). exact Ha.
  - exists t2. split_and!; [done|done|]. destruct Hmv as [Hm1 Hm2]. by split.
Qed.

Lemma findtail_steps t m w o : loops_ok -> control_ok t -> control_enabled t (FromClient (Messages.FindTailSeqno m) w o) ->
  stepped_to (FromClient (Messages.FindTailSeqno m) w o) t (Tower_ProcessFindTailSeqno GetLogID t m w o).
Proof.
  intros Hl Hok [-> _]. unfold Tower_ProcessFindTailSeqno. destruct (GetLogID _) as [l|]; [|by apply stepped_same].
  unfold LogIDToRoom. rewrite (num_rooms_ok t Hok). pose proof (Hl 0) as Hn0. rewrite (proj2 (Z.eqb_neq _ _)) by lia. cbn [negb assert_that obind].
  apply queued_steps; try done; [apply Z.mod_pos_bound; lia|]. by intros id (a & [=] & _).
Qed.

Lemma goodbye_rooms_step t g w o js : loops_ok -> control_ok t -> 0 <= w < Z.of_nat n -> (forall i, i ∈ js -> (i < n)%nat) ->
  exists t', goodbye_rooms t g w o js = Ok t' /\ control_ok t' /\ rooms_ t' = rooms_ t /\ sub_to_room_ t' = sub_to_room_ t /\
    forall w' i c id, c ∈ queue t' w' i -> command_concerns c id -> c ∈ queue t w' i \/ stream_id id = o.
Proof.
  intros Hl Hok Hw. revert t Hok. induction js as [|i js IH]; intros t Hok His; cbn [goodbye_rooms]; [exists t; by split_and!; [..|left]|].
  set (c := Forwarded _ _ _). assert ((i < n)%nat) as Hi by (apply His; by left).
  destruct (write_queue_ok t w (Z.of_nat i) c) as (t1 & -> & E & Hq); [rewrite (num_rooms_ok t Hok); lia..|]. cbn [obind].
  destruct (IH t1) as (t' & -> & Hok' & Hr & Hs & Hq').
  { destruct Hok as [H1 H2 H3 H4 H5 H6]. split; try (by rewrite E). intros w' i' c' [Hc'|[-> ->]]%Hq; [by apply (H3 w')|done]. }
  { intros j Hj. apply His. by right. }
  exists t'. split_and!; [done|done|by rewrite Hr, E|by rewrite Hs, E|]. intros w' i' c' id Hc' Hid. destruct (Hq' w' i' c' id Hc' Hid) as [Hc1|]; [|by right].
  apply Hq in Hc1 as [Hc1|[-> _]]; [by left|right]. destruct Hid as (a & [= <-] & Ha). exact Ha.
Qed.

Lemma goodbye_steps t g w o : loops_ok -> control_ok t -> control_enabled t (FromClient (Messages.Goodbye g) w o) ->
  stepped_to (FromClient (Messages.Goodbye g) w o) t (Tower_ProcessGoodbye t g w o).
Proof.
  intros Hl Hok [-> _]. unfold Tower_ProcessGoodbye.
  destruct (goodbye_rooms_step t g (worker_of o) o (seq 0 (length (rooms_ t))) Hl Hok (Hl o)) as (t1 & -> & Hok1 & Hr & Hs & Hq).
  { intros i Hi%elem_of_seq. rewrite (co_rooms t Hok) in Hi. lia. }
  cbn [obind]. eexists. split; [reflexivity|]. split.
  - destruct Hok1 as [H1 H2 H3 H4 H5 H6]. split; try done. intros w id j. rewrite room_map_set. case_decide as Ew; [|apply H4].
    rewrite SubscriptionMap.Find_RemoveStream. case_decide; [done|]. rewrite <-Ew. apply H4.
  - by apply moved_still.
Qed.

(** ** Rooms *)

(** A room acts. *)
Lemma room_moves a t t0 i r x : environment_ok -> loops_ok -> control_ok t0 -> rooms_ t0 = rooms_ t -> (forall w i c, c ∈ queue t0 w i -> c ∈ queue t w i) ->
  rooms_ t !! Z.to_nat i = Some r -> 0 <= i -> room_enabled r x ->
  (forall id, room_concerns x id -> exists w c, c ∈ queue t w i /\ command_concerns c id) -> (forall id, subscribes x id -> room_of id = Some i) ->
  exists r', run_room_action x r = Ok r' /\ control_ok (put_room t0 i r') /\ moved a t (put_room t0 i r').
Proof.
  intros Henv Hl [H1 H2 H3 H4 H5 H6] Hrs Hq Hr Hi Hen Hc Hs. pose proof Hr as Hr0. rewrite <-Hrs in Hr0. destruct (H2 _ _ Hr0) as [Hrok Hloc].
  destruct (room_step (Z.of_nat n) XXH64 sizeof_MessageData sizeof_CacheEntry WriteHasFailed GetLogID log restart_time_of worker_of topic_of r x Henv Hl Hrok Hen)
    as (r' & E & es & m & Hrok' & _ & _ & _ & _ & _ & _ & _ & Hfree).
  assert (forall j r1, rooms_ (put_room t0 i r') !! j = Some r1 -> (j = Z.to_nat i /\ r1 = r') \/ (j <> Z.to_nat i /\ rooms_ t !! j = Some r1)) as Hput.
  { intros j r1. unfold put_room. cbn. rewrite Hrs. intros [(-> & -> & _)|[Hne Hj]]%list_lookup_insert_Some; [by left|right]. split; [by intros ->|done]. }
  exists r'. split; [done|]. split.
  - split; try done.
    + cbn. by rewrite length_insert.
    + intros j r1 [[-> ->]|[_ Hj]]%Hput; [|apply H2; by rewrite Hrs]. split; [done|]. rewrite Z2Nat.id by lia. intros id [w Hw].
      assert (subscribes x id \/ ~ subscribes x id) as [Hx|Hx].
      { destruct x as [m0 w0 origin| | |]; cbn; [destruct (decide (id = subscribed_id m0 origin)); [by left|by right]|right; by intros []..]. }
      * by apply Hs.
      * rewrite <-(Z2Nat.id i) by lia. apply Hloc. destruct (Hfree id Hx) as [_ [Hk|Hk]]; [rewrite <-Hk; by eexists|congruence].
  - split.
    + intros j r1 Hj. destruct (decide (j = Z.to_nat i)) as [->|Hne].
      * rewrite Hr in Hj. injection Hj as <-. exists r', [x]. split_and!.
        -- unfold put_room. cbn. apply list_lookup_insert_eq. rewrite Hrs. by eapply lookup_lt_Some.
        -- econstructor; [exact Hen|exact E|constructor].
        -- intros y id ->%list_elem_of_singleton. rewrite Z2Nat.id by lia. by split; [apply Hc|apply Hs].
      * exists r1, []. split_and!; [|constructor|by intros y id ?%elem_of_nil]. unfold put_room. cbn. by rewrite list_lookup_insert_ne, Hrs by done.
    + intros w j c id Hcq _. left. by apply Hq.
Qed.

(** The answer to a question for the tail. *)
Lemma tail_callback_steps a t r ok q : control_ok t -> asked_worker r = worker_of (asked_origin r) -> stepped_to a t (tail_callback t r ok q).
Proof. intros Hok Hr. unfold tail_callback. destruct ok; [|by apply stepped_same]. by apply write_to_client_ok; [..|eexists]. Qed.

(** A step from a tower that differs from [t] in that queues are shorter. *)
Lemma stepped_from a t t0 r : rooms_ t0 = rooms_ t -> (forall w i c, c ∈ queue t0 w i -> c ∈ queue t w i) -> stepped_to a t0 r -> stepped_to a t r.
Proof.
  intros Hr Hq (t' & -> & Hok & [H1 H2]). exists t'. split_and!; [done|done|]. split.
  - intros i r Hi. rewrite <-Hr in Hi. destruct (H1 i r Hi) as (r' & acts & ? & ? & Hx). exists r', acts. split_and!; [done|done|].
    intros x id Hin. destruct (Hx x id Hin) as [Hx1 Hx2]. split; [|done]. intros (w & c & Hc & ?)%Hx1. exists w, c. split; [by apply Hq|done].
  - intros w i c id Hc Hid. destruct (H2 w i c id Hc Hid) as [|]; [left; by apply Hq|by right].
Qed.

Lemma run_next_steps t w i ok : environment_ok -> loops_ok -> control_ok t -> 0 <= i < Z.of_nat n ->
  stepped_to (RunNext w i ok) t (run_control (RunNext w i ok) t).
Proof.
  intros Henv Hl Hok Hi. cbn [run_control]. unfold run_next. destruct (queue t w i) as [|c cs] eqn:Eq; [by apply stepped_same|].
  set (t0 := set_queues _ t). assert (forall w' i' c', c' ∈ queue t0 w' i' -> c' ∈ queue t w' i') as Hsub.
  { intros w' i' c'. unfold t0. rewrite queue_set. case_decide as E; [|done]. injection E as -> ->. rewrite Eq. by right. }
  assert (control_ok t0) as Hok0 by (destruct Hok as [H1 H2 H3 H4 H5 H6]; split; try done; intros w' i' c' Hc'%Hsub; by apply (H3 w')).
  assert (c ∈ queue t w i) as Hin by (rewrite Eq; by left). pose proof (co_queues t Hok w i c Hin) as Hc.
  assert (exists r, rooms_ t !! Z.to_nat i = Some r) as [r Hr] by (apply lookup_lt_is_Some; rewrite (co_rooms t Hok); lia).
  unfold run_command. rewrite (get_room_ok t0 i r Hr) by lia. cbn [obind]. rewrite (num_rooms_ok t0 Hok0).
  destruct c as [msg w' o|request l w' o].
  - assert (exists x, command_action (Forwarded msg w' o) = Some x /\ room_enabled r x /\ (forall id, subscribes x id -> room_of id = Some i) /\
      MsgCommand (Z.of_nat n) XXH64 sizeof_MessageData sizeof_CacheEntry WriteHasFailed GetLogID restart_time_of r msg w' o = run_room_action x r) as (x & Hx & Hen & Hsu & ->).
    { destruct msg; try done; eexists; (split; [reflexivity|]); (split; [|split; [|reflexivity]]); try done; cbn in Hc |- *; [tauto|]. intros id ->. tauto. }
    destruct (room_moves (RunNext w i ok) t t0 i r x Henv Hl Hok0 eq_refl Hsub Hr ltac:(lia) Hen) as (r' & -> & Hok' & Hmv); [|done|].
    { intros id Hid. exists w, (Forwarded msg w' o). split; [done|]. by exists x. }
    cbn [obind]. by exists (put_room t0 i r').
  - apply (stepped_from _ t t0 _ eq_refl Hsub). destruct (negb _); [by apply tail_callback_steps|]. destruct ok; [|by apply stepped_same].
    eexists. split; [reflexivity|]. destruct Hok0 as [H1 H2 H3 H4 H5 H6]. split; [|by apply moved_still; [|left]].
    split; try done. cbn. apply Forall_app. split; [done|]. by constructor.
Qed.

Lemma answer_tail_steps t k ok q : control_ok t -> stepped_to (TailAnswer k ok q) t (answer_tail t k ok q).
Proof.
  intros Hok. unfold answer_tail. destruct (tail_requests_ t !! k) as [r|] eqn:E; [|by apply stepped_same].
  set (t0 := set_tail_requests _ t). apply (stepped_from _ t t0 _ eq_refl ltac:(done)). pose proof (co_tails t Hok) as Ht. apply tail_callback_steps.
  - destruct Hok as [H1 H2 H3 H4 H5 H6]. split; try done. cbn. apply Forall_delete. done.
  - exact (Forall_lookup_1 _ _ _ _ Ht E).
Qed.

(** One step of the tower. *)
Lemma control_step t a : environment_ok -> loops_ok -> control_ok t -> control_enabled t a -> stepped_to a t (run_control a t).
Proof.
  intros Henv Hl Hok Hen. destruct a as [msg w o|w i ok|k ok q|i a].
  - destruct msg; try (by destruct Hen as [_ []]); cbn [run_control Tower_Callback]; first [by apply goodbye_steps|by apply subscribe_steps|by apply unsubscribe_steps|by apply findtail_steps].
  - by apply run_next_steps.
  - by apply answer_tail_steps.
  - destruct Hen as (r & Hi & Hr & Hown & Hen). cbn [run_control]. unfold run_room_tailers. rewrite (get_room_ok t i r Hr Hi), (num_rooms_ok t Hok). cbn [obind].
    destruct (room_moves (RoomCalls i a) t t i r (RoomTailers a) Henv Hl Hok eq_refl ltac:(done) Hr Hi) as (r' & E & Hok' & Hmv); [by split| |done|].
    { intros id Hid. exfalso. destruct a as [|b|]; [done| |done]. by destruct b. }
    cbn [RoomFacts.run_room_action] in E. rewrite E. cbn [obind]. by exists (put_room t i r').
Qed.

(** ** Runs *)

Lemma room_runs_append r acts r1 acts' r' : room_runs r acts r1 -> room_runs r1 acts' r' -> room_runs r (acts ++ acts') r'.
Proof. induction 1; [done|]. intros Hr. econstructor; [done|done|auto]. Qed.

Lemma control_runs_ok t acts t' : environment_ok -> loops_ok -> control_ok t -> control_runs t acts t' -> control_ok t'.
Proof.
  intros Henv Hl Hok Hr. induction Hr as [|t a acts t1 t' Hen Ha Hr IH]; [done|]. destruct (control_step t a Henv Hl Hok Hen) as (t2 & E & Hok2 & _).
  rewrite Ha in E. apply Ok_inj in E as <-. by apply IH.
Qed.

(** A run of the tower is one of each of its rooms. *)
Lemma control_runs_room t acts t' i r : environment_ok -> loops_ok -> control_ok t -> control_runs t acts t' -> rooms_ t !! i = Some r ->
  exists r' racts, rooms_ t' !! i = Some r' /\ room_runs r racts r' /\ (forall x id, x ∈ racts -> subscribes x id -> room_of id = Some (Z.of_nat i)) /\
    forall id, (forall a, a ∈ acts -> ~ message_concerns a id) -> (forall w c, c ∈ queue t w (Z.of_nat i) -> ~ command_concerns c id) ->
      forall x, x ∈ racts -> ~ room_concerns x id.
Proof.
  intros Henv Hl Hok Hr. revert r Hok. induction Hr as [t|t a acts t1 t' Hen Ha Hr IH]; intros r Hok Hi.
  { exists r, []. split_and!; [done|constructor|by intros x id ?%elem_of_nil|]. by intros id _ _ x ?%elem_of_nil. }
  destruct (control_step t a Henv Hl Hok Hen) as (t2 & E & Hok2 & [Hm Hq]). rewrite Ha in E. apply Ok_inj in E as <-.
  destruct (Hm i r Hi) as (r1 & racts1 & Hi1 & Hr1 & Hx1). destruct (IH r1 Hok2 Hi1) as (r' & racts & Hi' & Hr' & Hsub & Hno).
  exists r', (racts1 ++ racts). split_and!; [done|by eapply room_runs_append| |].
  - intros x id [Hx|Hx]%elem_of_app Hs; [by apply (Hx1 x id Hx)|by eapply Hsub].
  - intros id Hmsg Hque x [Hx|Hx]%elem_of_app Hc.
    + apply (Hx1 x id Hx) in Hc as (w & c & Hcq & Hcc). by apply (Hque w c).
    + revert x Hx Hc. apply Hno; [intros b Hb; apply Hmsg; by right|]. intros w c Hcq Hcc. destruct (Hq w _ c id Hcq Hcc) as [Hc0|Hc0]; [by apply (Hque w c)|].
      apply (Hmsg a); [by left|done].
Qed.

Lemma NewControlTower_ok cache_size sys bits bs max_requests readers lag t : block_size_ok bs -> 0 <= bits -> 0 <= max_requests < 2 ^ 64 -> 0 <= lag <= kMaxSeqno ->
  NewControlTower n cache_size sys bits bs max_requests readers lag = Ok t -> control_ok t.
Proof.
  intros Hbs Hbits Hmax Hlag E. unfold NewControlTower in E. apply obind_Ok in E as (dc & Edc & E). apply obind_Ok in E as (s & Es & E). apply Ok_inj in E as <-.
  assert (config_ok dc max_requests lag) as Hcfg.
  { split; [|done]. exists (cache_size_per_room cache_size (Z.of_nat n)), sys, bits, bs. split_and!; [done| |done|done]. unfold cache_size_per_room. destruct (0 <? cache_size); lia. }
  split; cbn; [apply length_replicate| | | |constructor|constructor].
  - intros i r [-> _]%lookup_replicate. split; [by eapply NewControlRoom_ok|]. intros id. cbn. unfold SubscriptionMap.Find. rewrite lookup_empty. by intros [].
  - intros w i c. unfold queue. cbn. rewrite lookup_empty. by intros ?%elem_of_nil.
  - intros w id i. unfold room_map. cbn. rewrite lookup_empty. cbn. unfold SubscriptionMap.Find. by rewrite lookup_empty.
Qed.

(** ** Properties *)

(** C4: no step of the control tower within the promises of [control_enabled]
    fails, and a log is served by one room.  From a new tower, after any steps,
    the next one is completed: a message of one of the four types that have a
    callback (an ID of a stream used for one topic, at a place up to 2^62, on
    the event loop of its stream), a command at the head of a queue, any answer
    about the tail, or a step of the tailers of a room for which [tower_enabled]
    holds.  The latter means that the storage opens the logs it is asked to
    open, that a gap which a reader expects covers no record and passes no
    subscription on a topic the reader does not follow, and that a reader takes
    over from the virtual reader only where that one stands; the runs
    [failed_open_aborts], [gap_skips_unread_records] and
    [steal_expects_wrong_seqno] are outside of this.  Every index of a room or
    queue is in range, a subscription is known only to the room of the log of
    its topic, and the answers of the tower go to the event loop of their
    stream. *)
Theorem control_tower_never_aborts cache_size sys bits bs max_requests readers lag t0 acts t a : environment_ok -> loops_ok ->
  block_size_ok bs -> 0 <= bits -> 0 <= max_requests < 2 ^ 64 -> 0 <= lag <= kMaxSeqno ->
  NewControlTower n cache_size sys bits bs max_requests readers lag = Ok t0 -> control_runs t0 acts t -> control_enabled t a ->
  exists t', run_control a t = Ok t' /\ length (rooms_ t') = n /\
    (forall i r id, rooms_ t' !! i = Some r -> is_Some (find_topic (topics r) id) -> exists l, GetLogID (topic_of id) = Some l /\ LogIDToRoom t' l = Ok (Z.of_nat i)) /\
    (forall w, w ∈ responses_ t' -> to_worker w = worker_of (to_stream w)).
Proof.
  intros Henv Hl Hbs Hbits Hmax Hlag H0 Hr Hen. pose proof (NewControlTower_ok _ _ _ _ _ _ _ _ Hbs Hbits Hmax Hlag H0) as Hok0.
  pose proof (control_runs_ok _ _ _ Henv Hl Hok0 Hr) as Hok. destruct (control_step t a Henv Hl Hok Hen) as (t' & E & Hok' & _). exists t'.
  split_and!; [done|apply Hok'| |].
  - intros i r id Hi [tp Hf]. destruct (co_room t' Hok' i r Hi) as [Hrok Hloc]. destruct (ro_known _ _ _ _ _ Hrok id tp Hf) as [_ Hw].
    pose proof (Hloc id Hw) as Hro. unfold room_of in Hro. destruct (GetLogID (topic_of id)) as [l|]; [|done]. cbn in Hro. injection Hro as Hro. exists l. split; [done|].
    unfold LogIDToRoom. rewrite (num_rooms_ok t' Hok'), Hro. pose proof (Hl 0). rewrite (proj2 (Z.eqb_neq _ _)) by lia. done.
  - intros w Hw. pose proof (co_responses t' Hok') as Hf. rewrite Forall_forall in Hf. by apply Hf.
Qed.

(** C3: exactly-once delivery by the whole tower, under the promises of
    [control_enabled].  Let a subscription expect a sequence number in the room
    of the log of its topic, with no command about it on the queues.  While the
    client sends nothing about it, and whatever other clients send and in
    whatever order rooms take their commands, that room writes for it exactly
    the records of the topic from there on, in order and once each, and no other
    room writes any.  It is assumed that clients send the four messages that
    have a callback, that one subscription ID of a stream is used for one topic,
    at a place up to 2^62, and that a stream stays on its event loop; and of the
    storage and the tailers of each room what [tower_delivers] assumes: logs are
    opened when asked, a gap that is expected covers no record and passes no
    subscription on a topic the reader does not follow, and a reader takes over
    from the virtual reader only where that one stands. *)
Theorem control_tower_delivers cache_size sys bits bs max_requests readers lag t0 acts0 t acts t' l id q i r : environment_ok -> loops_ok ->
  block_size_ok bs -> 0 <= bits -> 0 <= max_requests < 2 ^ 64 -> 0 <= lag <= kMaxSeqno ->
  NewControlTower n cache_size sys bits bs max_requests readers lag = Ok t0 -> control_runs t0 acts0 t -> control_runs t acts t' ->
  GetLogID (topic_of id) = Some l -> LogIDToRoom t l = Ok (Z.of_nat i) -> rooms_ t !! i = Some r -> expects cw (topics r) l (topic_of id) id q ->
  (forall a, a ∈ acts -> ~ message_concerns a id) -> (forall w j c, c ∈ queue t w j -> ~ command_concerns c id) ->
  exists r' ws q', rooms_ t' !! i = Some r' /\ room_to_client_queues_ r' = room_to_client_queues_ r ++ ws /\ expects cw (topics r') l (topic_of id) id q' /\ q <= q' /\
    omap (written_for id) ws = map (delivered_as (sub_id id)) (records log l (topic_of id) q q') /\
    forall j rj rj', j <> i -> rooms_ t !! j = Some rj -> rooms_ t' !! j = Some rj' ->
      exists ws', room_to_client_queues_ rj' = room_to_client_queues_ rj ++ ws' /\ omap (written_for id) ws' = [].
Proof.
  intros Henv Hl Hbs Hbits Hmax Hlag H0 Hr0 Hr Hlog Hroom Hi Hex Hmsg Hque. pose proof (NewControlTower_ok _ _ _ _ _ _ _ _ Hbs Hbits Hmax Hlag H0) as Hok0.
  pose proof (control_runs_ok _ _ _ Henv Hl Hok0 Hr0) as Hok. destruct (co_room t Hok i r Hi) as [Hrok _].
  destruct (control_runs_room t acts t' i r Henv Hl Hok Hr Hi) as (r' & racts & Hi' & Hrr & _ & Hno). specialize (Hno id Hmsg ltac:(intros w c; apply Hque)).
  destruct (room_runs_serve _ _ _ _ _ _ _ _ _ _ r racts r' Henv Hl Hrok Hrr) as [_ (acts' & ws & Hrun & Hq & _ & Hid & _)]. destruct (Hid id Hno) as [Hno' Hw].
  pose proof Hex as (_ & Hft & _). destruct (ro_known _ _ _ _ _ Hrok id (topic_of id) Hft) as [_ Hk]. destruct (Hw Hk) as (es & Ht & Hws).
  destruct (runs_serves _ _ _ _ _ _ _ _ _ _ _ l (topic_of id) id Henv (tw_healthy _ _ _ _ (ro_tower _ _ _ _ _ Hrok)) Hrun Hlog Hno') as (_ & es' & Ht' & Hpr & _).
  rewrite Ht in Ht'. apply app_inv_head in Ht' as <-. destruct (Hpr q Hex) as (q' & Hex' & Hle & Hs). exists r', ws, q'. split_and!; [done|done|done|done|by rewrite Hws, Hs|].
  intros j rj rj' Hne Hj Hj'. assert (room_of id = Some (Z.of_nat i)) as Hro.
  { unfold room_of. rewrite Hlog. cbn. unfold LogIDToRoom in Hroom. rewrite (num_rooms_ok t Hok) in Hroom. destruct (negb _); [|done]. cbn in Hroom. congruence. }
  destruct (control_runs_room t acts t' j rj Henv Hl Hok Hr Hj) as (rj2 & rjacts & Hj2 & Hrrj & Hsub & _). rewrite Hj' in Hj2. injection Hj2 as <-.
  destruct (co_room t Hok j rj Hj) as [Hrokj Hlocj].
  destruct (room_runs_serve _ _ _ _ _ _ _ _ _ _ rj rjacts rj' Henv Hl Hrokj Hrrj) as [_ (actsj & wsj & _ & Hqj & _ & _ & Hun)].
  exists wsj. split; [done|]. apply Hun.
  - intros x Hx Hs'. pose proof (Hsub x id Hx Hs'). apply Hne. rewrite Hro in *. apply Nat2Z.inj. congruence.
  - destruct (worker_at (sub_worker_ rj) id) as [w|] eqn:E; [|done]. pose proof (Hlocj id ltac:(by rewrite E)) as Hl2. exfalso. apply Hne. apply Nat2Z.inj. congruence.
Qed.
End Facts.

(** ** A run *)

(** Two rooms on two event loops; the log of the topic is in the second room, and
    the client is on the first event loop. *)
Definition tower_of_two : ControlTower :=
  match NewControlTower 2 0 false 0 2 2 2 1000 with
  | Ok t => t
  | Abort _ => {| rooms_ := []; tower_to_room_queues_ := ∅; sub_to_room_ := ∅; tail_requests_ := []; responses_ := [] |}
  end.

Definition example_control_step := run_control example_hash 100 200 never example_route (fun _ => 1000).
Definition example_control_runs := control_runs 2 example_hash 100 200 never example_route example_log (fun _ => 1000) example_loop example_topic_of.

Fixpoint control_steps (acts : list control_action) (t : ControlTower) : outcome ControlTower :=
  match acts with [] => Ok t | a :: acts => t <~ example_control_step a t ;; control_steps acts t end.

Definition tower_at (acts : list control_action) : ControlTower := match control_steps acts tower_of_two with Ok t => t | Abort _ => tower_of_two end.

Definition control_serve : list control_action :=
  [FromClient (Messages.Subscribe example_subscribe) 0 1; RunNext 0 1 true; RoomCalls 1 (InRoom (PendingItem 0 (client 1) true))].
Definition control_record : control_action := RoomCalls 1 (FromStorage (ForwardRecord (example_data Byte.x61 4) 7 0)).

Lemma control_serve_runs : example_control_runs tower_of_two control_serve (tower_at control_serve).
Proof.
  econstructor; [|vm_compute; reflexivity|]. { split; [done|]. split; [by vm_compute|]. split; by vm_compute. }
  econstructor; [|vm_compute; reflexivity|]. { by vm_compute. }
  econstructor; [|vm_compute; reflexivity|constructor]. eexists. split; [done|]. split; [vm_compute; reflexivity|]. split; [done|].
  split; [done|]. split; [|done]. eexists. split; [reflexivity|]. by eexists.
Qed.

Definition second_room : ControlRoom := match rooms_ (tower_at control_serve) with [_; r] => r | _ => new_room end.

Lemma second_room_served : second_room = room_after room_serve.
Proof. vm_compute. reflexivity. Qed.

Lemma second_room_at : rooms_ (tower_at control_serve) !! 1%nat = Some second_room.
Proof. vm_compute. reflexivity. Qed.

Lemma control_record_enabled : control_enabled 2 100 200 example_log example_loop example_topic_of (tower_at control_serve) control_record.
Proof.
  exists second_room. split; [done|]. split; [exact second_room_at|]. rewrite second_room_served. exact room_record_enabled.
Qed.

Lemma example_loops_two : loops_ok 2 example_loop.
Proof. intros stream. unfold example_loop. lia. Qed.

Lemma control_tower_never_aborts_witness : exists t', example_control_step control_record (tower_at control_serve) = Ok t'.
Proof.
  destruct (control_tower_never_aborts 2 example_hash 100 200 never example_route example_log (fun _ => 1000) example_loop example_topic_of 0 false 0 2 2 2 1000
    tower_of_two control_serve (tower_at control_serve) control_record example_environment example_loops_two) as (t' & E & _);
    [by exists 1|lia|lia|done|vm_compute; reflexivity|exact control_serve_runs|exact control_record_enabled|]. exists t'. exact E.
Defined.

Lemma control_serve_queues w j : queue (tower_at control_serve) w j = [].
Proof.
  unfold queue. assert (tower_to_room_queues_ (tower_at control_serve) = {[(0, 1) := []]}) as -> by (vm_compute; reflexivity).
  destruct (decide ((0, 1) = (w, j))) as [<-|Hne]; [by rewrite lookup_singleton_eq|by rewrite lookup_singleton_ne].
Qed.

Lemma control_tower_delivers_witness : exists r' ws q', rooms_ (tower_at (control_serve ++ [control_record])) !! 1%nat = Some r' /\
  room_to_client_queues_ r' = room_to_client_queues_ second_room ++ ws /\ omap (written_for (client 1)) ws = map (delivered_as 1) (records example_log 7 (example_topic Byte.x61) 4 q').
Proof.
  destruct (control_tower_delivers 2 example_hash 100 200 never example_route example_log (fun _ => 1000) example_loop example_topic_of 0 false 0 2 2 2 1000
    tower_of_two control_serve (tower_at control_serve) [control_record] (tower_at (control_serve ++ [control_record])) 7 (client 1) 4 1 second_room
    example_environment example_loops_two) as (r' & ws & q' & H1 & H2 & _ & _ & H3 & _).
  - by exists 1.
  - lia.
  - lia.
  - done.
  - vm_compute. reflexivity.
  - exact control_serve_runs.
  - econstructor; [exact control_record_enabled|vm_compute; reflexivity|constructor].
  - reflexivity.
  - vm_compute. reflexivity.
  - exact second_room_at.
  - rewrite second_room_served. exact serve_client_expects.
  - intros a Ha. apply list_elem_of_singleton in Ha as ->. exact (fun H => H).
  - intros w j c Hc. rewrite control_serve_queues in Hc. by apply elem_of_nil in Hc.
  - exists r', ws, q'. exact (conj H1 (conj H2 H3)).
Defined.

(** A message that the tower has no callback for stops it: a client that sends a
    record, say. *)
Lemma unregistered_message_aborts GetLogID t data worker origin : Tower_Callback GetLogID t (Data data) worker origin = Abort "0".
Proof. done. Qed.

(** What the tower of two rooms writes for the client, computed. *)
Example control_tower_example : map (fun r => omap (written_for (client 1)) (room_to_client_queues_ r)) (rooms_ (tower_at (control_serve ++ [control_record]))) =
  [[]; [delivered_as 1 (strip (example_data Byte.x61 4))]].
Proof. vm_compute. reflexivity. Qed.
