(* ===== verification/TopicSubscriptionMap.v ===== *)
(** * The client's map from topics to subscriptions

    Model of [src/client/topic_subscription_map.cc]: an open hashing table with
    linear probing that stores subscription IDs only.  The topic of an ID is
    asked from its owner ([get_topic]).  Removal moves later elements back so
    that no element is separated by a gap from the position it hashes to. *)

From S2P Require Import Prelude Coding.

#[local] Open Scope outcome_scope.

Definition Topic : Type := slice * slice.

#[export] Instance Topic_eq_dec : EqDecision Topic.
Proof. unfold Topic, slice. apply _. Defined.
#[export] Instance Topic_countable : Countable Topic.
Proof. unfold Topic, slice. apply _. Defined.
#[export] Typeclasses Opaque Topic.

Module TopicMap.

(** ** Model *)

(** An empty slot holds the ID 0. *)
Record t := { vector_ : list Z; sub_count_low_ : Z; sub_count_high_ : Z; sub_count_ : Z }.

Definition New : t := {| vector_ := []; sub_count_low_ := 0; sub_count_high_ := 0; sub_count_ := 0 |}.

Definition NeedsRehash (m : t) : bool := (sub_count_ m <? sub_count_low_ m) || (sub_count_high_ m <=? sub_count_ m).

(** [vector_[position]]; positions are always in range. *)
Definition get (v : list Z) (position : nat) : outcome Z :=
  match v !! position with Some id => Ok id | None => Abort "vector_[position]" end.

Definition next_position (v : list Z) (position : nat) : nat := ((position + 1) mod length v)%nat.

Section Table.
(** The digest of namespace and topic name. *)
Context (hash : slice -> slice -> Z).

Definition FindOptimalPosition (v : list Z) (topic : Topic) : outcome nat :=
  assert_that (negb (length v =? 0)%nat) "!vector_.empty()" ;;;
  Ok (Z.to_nat (hash (fst topic) (snd topic) mod Z.of_nat (length v))).

(** The loop of [Find]: one round per slot. *)
Fixpoint Find_loop (fuel : nat) (get_topic : Z -> option Topic) (v : list Z) (topic : Topic) (optimal position : nat) : outcome Z :=
  match fuel with
  | O => Abort "fuel"
  | S fuel =>
      sub_id <~ get v position ;;
      if sub_id =? 0 then Ok 0
      else
        match get_topic sub_id with
        | None => Abort "success"
        | Some this =>
            if decide (this = topic) then Ok sub_id
            else
              let position := next_position v position in
              if (position =? optimal)%nat then Ok 0
              else Find_loop fuel get_topic v topic optimal position
        end
  end.

Definition Find (get_topic : Z -> option Topic) (m : t) (topic : Topic) : outcome Z :=
  match vector_ m with
  | [] => Ok 0
  | v =>
      optimal <~ FindOptimalPosition v topic ;;
      Find_loop (length v) get_topic v topic optimal optimal
  end.

(** The loop of [InsertInternal] returns the slot. *)
Fixpoint free_slot (fuel : nat) (v : list Z) (sub_id : Z) (optimal position : nat) : outcome nat :=
  match fuel with
  | O => Abort "fuel"
  | S fuel =>
      id <~ get v position ;;
      if id =? sub_id then Abort "false"
      else if id =? 0 then Ok position
      else
        let position := next_position v position in
        if (position =? optimal)%nat then Abort "false"
        else free_slot fuel v sub_id optimal position
  end.

Definition InsertInternal (m : t) (topic : Topic) (sub_id : Z) : outcome t :=
  assert_that (negb (sub_id =? 0)) "sub_id" ;;;
  assert_that (sub_count_ m <? Z.of_nat (length (vector_ m))) "sub_count_ < vector_.size()" ;;;
  assert_that (sub_count_ m <? sub_count_high_ m) "sub_count_ < sub_count_high_" ;;;
  optimal <~ FindOptimalPosition (vector_ m) topic ;;
  position <~ free_slot (length (vector_ m)) (vector_ m) sub_id optimal optimal ;;
  Ok {| vector_ := <[position := sub_id]> (vector_ m); sub_count_low_ := sub_count_low_ m;
        sub_count_high_ := sub_count_high_ m; sub_count_ := u64 (sub_count_ m + 1) |}.

(** The elements of the old vector, with the IDs seen so far. *)
Fixpoint reinsert (get_topic : Z -> option Topic) (old : list Z) (seen : list Z) (m : t) : outcome (t * list Z) :=
  match old with
  | [] => Ok (m, seen)
  | sub_id :: old =>
      if sub_id =? 0 then reinsert get_topic old seen m
      else
        assert_that (bool_decide (sub_id ∉ seen)) "seen_ids.emplace(sub_id).second" ;;;
        match get_topic sub_id with
        | None => Abort "success"
        | Some topic =>
            m <~ InsertInternal m topic sub_id ;;
            reinsert get_topic old (sub_id :: seen) m
        end
  end.

Definition kMinSize : Z := 16.

(** The load factors are 0.25 and 0.5, so that the size is the count divided by
    0.375; on doubles this is exact below 2^50. *)
Definition Rehash (get_topic : Z -> option Topic) (m : t) : outcome t :=
  if negb (NeedsRehash m) then Ok m
  else
    let new_size := 8 * sub_count_ m / 3 in
    let low := new_size / 4 in
    let '(new_size, low) := if new_size <=? kMinSize then (kMinSize, 0) else (new_size, low) in
    let high := new_size / 2 in
    r <~ reinsert get_topic (vector_ m) []
           {| vector_ := replicate (Z.to_nat new_size) 0; sub_count_low_ := low; sub_count_high_ := high; sub_count_ := 0 |} ;;
    let '(m', seen) := r in
    assert_that (sub_count_ m' =? sub_count_ m) "sub_count_ == old_sub_count" ;;;
    assert_that (Z.of_nat (length seen) =? sub_count_ m) "seen_ids.size() == old_sub_count" ;;;
    assert_that (sub_count_low_ m' <=? sub_count_high_ m') "sub_count_low_ <= sub_count_high_" ;;;
    assert_that (sub_count_high_ m' <? Z.of_nat (length (vector_ m'))) "sub_count_high_ < vector_.size()" ;;;
    assert_that (negb (NeedsRehash m')) "!NeedsRehash()" ;;;
    assert_that (sub_count_ m' <? sub_count_high_ m') "sub_count_ < sub_count_high_" ;;;
    assert_that (sub_count_ m' <? Z.of_nat (length (vector_ m'))) "sub_count_ < vector_.size()" ;;;
    Ok m'.

Definition Insert (get_topic : Z -> option Topic) (m : t) (topic : Topic) (sub_id : Z) : outcome t :=
  m <~ Rehash get_topic m ;; InsertInternal m topic sub_id.

(** The first loop of [Remove]. *)
Fixpoint position_of (fuel : nat) (v : list Z) (sub_id : Z) (optimal position : nat) : outcome nat :=
  match fuel with
  | O => Abort "fuel"
  | S fuel =>
      id <~ get v position ;;
      if (id =? 0) || (id =? sub_id) then Ok position
      else
        let position := next_position v position in
        if (position =? optimal)%nat then Ok position
        else position_of fuel v sub_id optimal position
  end.

(** The second loop: [position] is the gap. *)
Fixpoint close_gap (fuel : nat) (get_topic : Z -> option Topic) (v : list Z) (position current : nat) : outcome (list Z) :=
  match fuel with
  | O => Abort "fuel"
  | S fuel =>
      let v := <[position := 0]> v in
      let current := next_position v current in
      current_id <~ get v current ;;
      if current_id =? 0 then Ok v
      else
        match get_topic current_id with
        | None => Abort "success"
        | Some this =>
            x <~ FindOptimalPosition v this ;;
            if (if (position <=? current)%nat then (position <? x)%nat && (x <=? current)%nat
                else (position <? x)%nat || (x <=? current)%nat)
            then close_gap fuel get_topic v position current
            else close_gap fuel get_topic (<[position := current_id]> v) current current
        end
  end.

Definition Remove (get_topic : Z -> option Topic) (m : t) (topic : Topic) (sub_id : Z) : outcome (t * bool) :=
  assert_that (negb (sub_id =? 0)) "sub_id" ;;;
  optimal <~ FindOptimalPosition (vector_ m) topic ;;
  position <~ position_of (length (vector_ m)) (vector_ m) sub_id optimal optimal ;;
  id <~ get (vector_ m) position ;;
  if negb (sub_id =? id) then Ok (m, false)
  else
    assert_that (0 <? sub_count_ m) "sub_count_ > 0" ;;;
    v <~ close_gap (length (vector_ m)) get_topic (vector_ m) position position ;;
    m <~ Rehash get_topic {| vector_ := v; sub_count_low_ := sub_count_low_ m; sub_count_high_ := sub_count_high_ m;
                              sub_count_ := u64 (sub_count_ m - 1) |} ;;
    Ok (m, true).
End Table.
End TopicMap.
