(* ===== verification/TopicMapFacts.v ===== *)
(** * Proofs about the map from topics to subscriptions

    The table of TopicSubscriptionMap.v implements a finite map from topics to
    IDs: [table] is the invariant, [before] the part of the circle a probe walks. *)

From S2P Require Import Prelude Coding TopicSubscriptionMap.

#[local] Open Scope outcome_scope.
Import TopicMap.

Ltac case_nat :=
  match goal with
  | |- context [Nat.leb ?a ?b] => destruct (Nat.leb_spec a b)
  | |- context [Nat.eqb ?a ?b] => destruct (Nat.eqb_spec a b)
  | |- context [Nat.ltb ?a ?b] => destruct (Nat.ltb_spec a b)
  | H : context [Nat.leb ?a ?b] |- _ => destruct (Nat.leb_spec a b)
  | H : context [Nat.eqb ?a ?b] |- _ => destruct (Nat.eqb_spec a b)
  | H : context [Nat.ltb ?a ?b] |- _ => destruct (Nat.ltb_spec a b)
  end.

(** [q] is passed on the way from [a] to [p]. *)
Definition before (a q p : nat) : Prop := (a <= q /\ q < p \/ p < a /\ (a <= q \/ q < p))%nat.

(** Positions a probe at [p] has left, from [a]. *)
Definition left_over (n a p : nat) : nat := if (a <=? p)%nat then (n - (p - a))%nat else (a - p)%nat.

Lemma next_position_eq v p : (p < length v)%nat -> next_position v p = if (p + 1 =? length v)%nat then O else (p + 1)%nat.
Proof.
  intros Hp. unfold next_position. destruct (Nat.eqb_spec (p + 1) (length v)) as [->|Hne]; [apply Nat.Div0.mod_same|].
  apply Nat.mod_small. lia.
Qed.

Lemma get_lookup v p id : v !! p = Some id -> get v p = Ok id.
Proof. unfold get. by intros ->. Qed.

(** ** Probing *)

(** The three loops walk from slot to slot until [stop]. *)
Fixpoint probe (fuel : nat) (v : list Z) (stop : Z -> bool) (optimal position : nat) : option nat :=
  match fuel with
  | O => None
  | S fuel =>
      if stop (default 0 (v !! position)) then Some position
      else
        let position := next_position v position in
        if (position =? optimal)%nat then None else probe fuel v stop optimal position
  end.

Lemma probe_spec v stop o fuel p : (o < length v)%nat -> (p < length v)%nat -> (left_over (length v) o p <= fuel)%nat ->
  (forall q id, before o q p -> v !! q = Some id -> stop id = false) ->
  match probe fuel v stop o p with
  | Some q => exists id, v !! q = Some id /\ stop id = true /\ forall x y, before o x q -> v !! x = Some y -> stop y = false
  | None => forall q id, v !! q = Some id -> stop id = false
  end.
Proof.
  revert p. induction fuel as [|fuel IH]; intros p Ho Hp Hf Hb; [unfold left_over in Hf; case_nat; lia|]. cbn [probe].
  destruct (lookup_lt_is_Some_2 v p Hp) as [id Hid]. rewrite Hid. change (default 0 (Some id)) with id. destruct (stop id) eqn:Hs; [by exists id|].
  rewrite next_position_eq by done.
  assert (forall q y, before o q p \/ q = p -> v !! q = Some y -> stop y = false) as Hb'.
  { intros q y [Hq| ->]; [by apply Hb|]. rewrite Hid. by intros [= <-]. }
  destruct (Nat.eqb_spec (if (p + 1 =? length v)%nat then O else (p + 1)%nat) o) as [He|He].
  - intros q y Hq. apply (Hb' q y); [|done]. apply lookup_lt_Some in Hq. revert He. unfold before. case_nat; lia.
  - apply IH; [done|case_nat; lia|revert Hf He; unfold left_over; repeat case_nat; lia|].
    intros q y Hq Hy. apply (Hb' q y); [|done]. pose proof (lookup_lt_Some _ _ _ Hy). revert Hq He. unfold before. case_nat; lia.
Qed.

Lemma probe_from v stop o : (o < length v)%nat ->
  match probe (length v) v stop o o with
  | Some q => exists id, v !! q = Some id /\ stop id = true /\ forall x y, before o x q -> v !! x = Some y -> stop y = false
  | None => forall q id, v !! q = Some id -> stop id = false
  end.
Proof. intros Ho. apply probe_spec; [done|done|unfold left_over; case_nat; lia|unfold before; lia]. Qed.

(** A loop that agrees with the probe in one round agrees with it. *)
Lemma probe_loop {A : Type} (loop : nat -> nat -> outcome A) (v : list Z) (stop : Z -> bool) (o : nat) (found : nat -> Z -> outcome A) (nothing : outcome A) :
  (forall (fuel p : nat) (id : Z), v !! p = Some id -> loop (S fuel) p =
    if stop id then found p id else if (next_position v p =? o)%nat then nothing else loop fuel (next_position v p)) ->
  forall (fuel p : nat), (o < length v)%nat -> (p < length v)%nat -> (left_over (length v) o p <= fuel)%nat ->
  loop fuel p = match probe fuel v stop o p with Some q => found q (default 0 (v !! q)) | None => nothing end.
Proof.
  intros Hloop fuel. induction fuel as [|fuel IH]; intros p Ho Hp Hf; [unfold left_over in Hf; case_nat; lia|].
  destruct (lookup_lt_is_Some_2 v p Hp) as [id Hid]. rewrite (Hloop _ _ _ Hid). cbn [probe]. rewrite Hid. change (default 0 (Some id)) with id.
  destruct (stop id) eqn:Hs; [by rewrite Hid|]. rewrite next_position_eq by done.
  destruct (Nat.eqb_spec (if (p + 1 =? length v)%nat then O else (p + 1)%nat) o) as [He|He]; [done|].
  apply IH; [done|case_nat; lia|revert Hf He; unfold left_over; repeat case_nat; lia].
Qed.

Section Facts.
Context (hash : slice -> slice -> Z).

Definition optimal (n : nat) (k : Topic) : nat := Z.to_nat (hash (fst k) (snd k) mod Z.of_nat n).

Lemma optimal_lt n k : (0 < n)%nat -> (optimal n k < n)%nat.
Proof. intros. unfold optimal. pose proof (Z.mod_pos_bound (hash (fst k) (snd k)) (Z.of_nat n)). lia. Qed.

Lemma FindOptimalPosition_eq v k : (0 < length v)%nat -> FindOptimalPosition hash v k = Ok (optimal (length v) k).
Proof. intros. unfold FindOptimalPosition. by rewrite (proj2 (Nat.eqb_neq _ _)) by lia. Qed.

(** The way from where the topic belongs to [p] has no gap. *)
Definition connected (v : list Z) (k : Topic) (p : nat) : Prop :=
  forall q, before (optimal (length v) k) q p -> v !! q <> Some 0.

(** The vector stores the map [M]. *)
Record table (v : list Z) (M : gmap Topic Z) : Prop := {
  tb_slot : forall p id, v !! p = Some id -> id <> 0 -> exists k, M !! k = Some id /\ connected v k p;
  tb_in : forall k id, M !! k = Some id -> id <> 0 /\ exists p, v !! p = Some id;
  tb_once : forall p q id, id <> 0 -> v !! p = Some id -> v !! q = Some id -> p = q;
  tb_inj : forall k k' id, M !! k = Some id -> M !! k' = Some id -> k = k'
}.

Lemma table_connected v M k p id : table v M -> M !! k = Some id -> v !! p = Some id -> connected v k p.
Proof.
  intros Ht Hk Hp. destruct (tb_in _ _ Ht k id Hk) as [H0 _]. destruct (tb_slot _ _ Ht p id Hp H0) as (k' & Hk' & Hc).
  by rewrite (tb_inj _ _ Ht k k' id Hk Hk').
Qed.

(** The owner knows the topics of the stored IDs. *)
Definition knows_topics (get_topic : Z -> option Topic) (M : gmap Topic Z) : Prop := forall k id, M !! k = Some id -> get_topic id = Some k.

Lemma table_room v M : table v M -> (size M < length v)%nat -> exists p, v !! p = Some 0.
Proof.
  intros Ht Hn. destruct (decide (0 ∈ v)) as [[p Hp]%list_elem_of_lookup_1|Hno]; [eauto|]. exfalso.
  assert (forall p id, v !! p = Some id -> id <> 0) as H0 by (intros p id Hp ->; by apply Hno, list_elem_of_lookup; eauto).
  assert (NoDup v) as Hnd by (apply NoDup_alt; intros; eapply (tb_once _ _ Ht); eauto).
  assert (v ⊆+ (map_to_list M).*2) as Hsub%submseteq_length.
  { apply NoDup_submseteq; [done|]. intros id [p Hp]%list_elem_of_lookup_1. destruct (tb_slot _ _ Ht p id Hp (H0 _ _ Hp)) as (k & Hk & _).
    apply list_elem_of_fmap. exists (k, id). split; [done|]. by apply elem_of_map_to_list. }
  rewrite length_fmap, length_map_to_list in Hsub. lia.
Qed.

(** ** Find *)

Lemma table_Find get_topic v M k : table v M -> knows_topics get_topic M -> (0 < length v)%nat ->
  Find_loop (length v) get_topic v k (optimal (length v) k) (optimal (length v) k) = Ok (default 0 (M !! k)).
Proof.
  intros Ht Hg Hn. set (o := optimal (length v) k). pose proof (optimal_lt _ k Hn) as Ho. fold o in Ho.
  set (stop := fun id => (id =? 0) || bool_decide (get_topic id = None \/ get_topic id = Some k)).
  rewrite (probe_loop (fun fuel p => Find_loop fuel get_topic v k o p) v stop o
    (fun _ id => if id =? 0 then Ok 0 else match get_topic id with None => Abort "success" | Some _ => Ok id end) (Ok 0));
    [|intros fuel p id Hp; cbn [Find_loop]; rewrite (get_lookup _ _ _ Hp); cbn [obind]; unfold stop|done|done|unfold left_over; case_nat; lia].
  2:{ destruct (id =? 0); [done|]. cbn [orb]. destruct (get_topic id) as [k'|] eqn:E.
      - destruct (decide (k' = k)) as [->|Hne]; [by rewrite bool_decide_eq_true_2 by auto|]. by rewrite bool_decide_eq_false_2 by naive_solver.
      - by rewrite bool_decide_eq_true_2 by auto. }
  pose proof (probe_from v stop o Ho) as Hp. destruct (probe _ _ _ _ _) as [q|].
  - destruct Hp as (id & Hq & Hs & Hb). rewrite Hq. change (default 0 (Some id)) with id. destruct (Z.eqb_spec id 0) as [->|H0].
    + destruct (M !! k) as [id'|] eqn:Hk; [|done]. exfalso. destruct (tb_in _ _ Ht k id' Hk) as [H0 [p Hp]].
      pose proof (table_connected _ _ _ _ _ Ht Hk Hp q) as Hc. fold o in Hc.
      assert (stop id' = true) as Hs' by (unfold stop; rewrite (Hg k id' Hk), bool_decide_eq_true_2 by auto; apply orb_true_r).
      destruct (decide (before o p q)) as [Hpq|Hpq]; [rewrite (Hb p id' Hpq Hp) in Hs'; done|].
      destruct (decide (p = q)) as [->|Hne]; [congruence|]. apply Hc; [|done].
      apply lookup_lt_Some in Hp, Hq. revert Hpq. unfold before. lia.
    + destruct (tb_slot _ _ Ht q id Hq H0) as (k' & Hk' & _). rewrite (Hg k' id Hk'). unfold stop in Hs.
      rewrite (Hg k' id Hk'), (proj2 (Z.eqb_neq _ _) H0) in Hs. cbn in Hs. apply bool_decide_eq_true in Hs as [?|[= ->]]; [done|].
      by rewrite Hk'.
  - destruct (M !! k) as [id'|] eqn:Hk; [|done]. exfalso. destruct (tb_in _ _ Ht k id' Hk) as [H0 [p Hp']].
    specialize (Hp p id' Hp'). unfold stop in Hp. rewrite (Hg k id' Hk), bool_decide_eq_true_2 in Hp by auto. by rewrite orb_true_r in Hp.
Qed.

(** ** Insertion *)

Lemma table_insert v M k id p : table v M -> M !! k = None -> id <> 0 -> (forall k', M !! k' <> Some id) ->
  v !! p = Some 0 -> connected v k p -> table (<[p := id]> v) (<[k := id]> M).
Proof.
  intros Ht Hk H0 Hnew Hp Hc. assert (p < length v)%nat as Hlt by (by eapply lookup_lt_Some).
  assert (forall q x, <[p := id]> v !! q = Some x -> (q = p /\ x = id) \/ (q <> p /\ v !! q = Some x)) as Hlook.
  { intros q x. destruct (decide (q = p)) as [->|Hne].
    - rewrite list_lookup_insert_eq by done. intros [= <-]. by left.
    - rewrite list_lookup_insert_ne by done. by right. }
  assert (forall k' q, connected v k' q -> connected (<[p := id]> v) k' q) as Hgrow.
  { intros k' q Hcq x Hx. rewrite length_insert in Hx. intros [[_ ?]|[_ E]]%Hlook; [done|]. by apply (Hcq x Hx). }
  assert (forall q, v !! q = Some id -> False) as Hno.
  { intros q Hq. destruct (tb_slot _ _ Ht q id Hq H0) as (k' & Hk' & _). by apply (Hnew k'). }
  split.
  - intros q x [[-> ->]|[Hne Hq]]%Hlook Hx.
    + exists k. split; [by rewrite lookup_insert_eq|by apply Hgrow].
    + destruct (tb_slot _ _ Ht q x Hq Hx) as (k' & Hk' & Hc'). exists k'. split; [|by apply Hgrow].
      by rewrite lookup_insert_ne by congruence.
  - intros k' x. destruct (decide (k' = k)) as [->|Hne].
    + rewrite lookup_insert_eq. intros [= <-]. split; [done|]. exists p. by apply list_lookup_insert_eq.
    + rewrite lookup_insert_ne by done. intros Hk'. destruct (tb_in _ _ Ht k' x Hk') as [Hx [q Hq]]. split; [done|]. exists q.
      rewrite list_lookup_insert_ne; [done|]. intros ->. congruence.
  - intros q q' x Hx [[-> ->]|[Hne Hq]]%Hlook [[-> Hx']|[Hne' Hq']]%Hlook; subst; try done; try (exfalso; by eapply Hno).
    by apply (tb_once _ _ Ht q q' x).
  - intros k1 k2 x. rewrite !lookup_insert_Some. intros [[<- <-]|[? H1]] [[<- E]|[? H2]]; subst; try done.
    + by apply Hnew in H2.
    + by apply Hnew in H1.
    + by apply (tb_inj _ _ Ht k1 k2 x).
Qed.

Lemma free_slot_spec v M k id : table v M -> id <> 0 -> (forall k', M !! k' <> Some id) -> (size M < length v)%nat ->
  exists p, free_slot (length v) v id (optimal (length v) k) (optimal (length v) k) = Ok p /\ v !! p = Some 0 /\ connected v k p.
Proof.
  intros Ht H0 Hnew Hn. set (o := optimal (length v) k). assert (o < length v)%nat as Ho by (apply optimal_lt; lia).
  set (stop := fun x => (x =? id) || (x =? 0)).
  rewrite (probe_loop (fun fuel p => free_slot fuel v id o p) v stop o (fun p x => if x =? id then Abort "false" else Ok p) (Abort "false"));
    [|intros fuel p x Hp; cbn [free_slot]; rewrite (get_lookup _ _ _ Hp); cbn [obind]; unfold stop;
      by destruct (x =? id), (x =? 0)|done|done|unfold left_over; case_nat; lia].
  pose proof (probe_from v stop o Ho) as Hp. destruct (probe _ _ _ _ _) as [q|].
  - destruct Hp as (x & Hq & Hs & Hb). rewrite Hq. change (default 0 (Some x)) with x. destruct (Z.eqb_spec x id) as [->|Hne].
    { exfalso. destruct (tb_slot _ _ Ht q id Hq H0) as (k' & Hk' & _). by apply (Hnew k'). }
    unfold stop in Hs. destruct (Z.eqb_spec x 0) as [->|]; [|by rewrite (proj2 (Z.eqb_neq x id) Hne) in Hs].
    exists q. split; [done|]. split; [done|]. intros y Hy Hz. specialize (Hb y 0 Hy Hz). unfold stop in Hb. by rewrite orb_true_r in Hb.
  - destruct (table_room v M Ht Hn) as [p Hz]. specialize (Hp p 0 Hz). unfold stop in Hp. by rewrite orb_true_r in Hp.
Qed.

(** A map as a whole; [New] has no vector. *)
Record holds (m : t) (M : gmap Topic Z) : Prop := {
  h_table : table (vector_ m) M;
  h_count : sub_count_ m = Z.of_nat (size M);
  h_small : Z.of_nat (size M) < 2 ^ 50;
  h_low : 0 <= sub_count_low_ m <= sub_count_ m;
  h_high : sub_count_ m <= sub_count_high_ m;
  h_size : sub_count_high_ m < Z.of_nat (length (vector_ m)) \/ (vector_ m = [] /\ sub_count_high_ m = 0)
}.

Lemma InsertInternal_spec m M k id : table (vector_ m) M -> sub_count_ m = Z.of_nat (size M) ->
  sub_count_ m < sub_count_high_ m -> sub_count_high_ m < Z.of_nat (length (vector_ m)) -> sub_count_ m + 1 < 2 ^ 64 ->
  M !! k = None -> id <> 0 -> (forall k', M !! k' <> Some id) ->
  exists m', InsertInternal hash m k id = Ok m' /\ table (vector_ m') (<[k := id]> M) /\ sub_count_ m' = sub_count_ m + 1 /\
    sub_count_low_ m' = sub_count_low_ m /\ sub_count_high_ m' = sub_count_high_ m /\ length (vector_ m') = length (vector_ m).
Proof.
  intros Ht Hc Hh Hn Hw Hk H0 Hnew. unfold InsertInternal. rewrite (proj2 (Z.eqb_neq _ _) H0), (proj2 (Z.ltb_lt _ _)) by lia.
  rewrite (proj2 (Z.ltb_lt _ _) Hh). cbn [negb assert_that obind]. rewrite FindOptimalPosition_eq by lia. cbn [obind].
  destruct (free_slot_spec _ M k id Ht H0 Hnew ltac:(lia)) as (p & -> & Hp & Hcon). cbn [obind]. eexists. split; [done|]. cbn.
  split; [by apply table_insert|]. split; [|by rewrite length_insert]. apply wrap_small. split; lia.
Qed.

(** ** Rehashing *)

Definition used (v : list Z) : list Z := filter (fun id => id <> 0) v.

Lemma table_used v M : table v M -> NoDup (used v) /\ length (used v) = size M.
Proof.
  intros Ht. assert (NoDup (used v)) as Hnd.
  { assert (forall w, (forall p q id, id <> 0 -> w !! p = Some id -> w !! q = Some id -> p = q) -> NoDup (used w)) as Hgen.
    { clear. induction w as [|x w IH]; intros Ho; [constructor|]. unfold used. rewrite filter_cons.
      assert (NoDup (used w)) as Hw by (apply IH; intros p q id H0 Hp Hq; by apply Nat.succ_inj, (Ho (S p) (S q) id)).
      case_decide as Hx; [|done]. constructor; [|done]. intros [_ [p Hp]%list_elem_of_lookup_1]%list_elem_of_filter.
      by specialize (Ho 0%nat (S p) x Hx eq_refl Hp). }
    apply Hgen, Ht. }
  split; [done|]. rewrite <-length_map_to_list, <-(length_fmap snd). apply Permutation_length, NoDup_Permutation; [done| |].
  - apply NoDup_fmap_2_strong; [|apply NoDup_map_to_list]. intros [k x] [k' x'] Hk%elem_of_map_to_list Hk'%elem_of_map_to_list E. cbn in E. subst.
    by rewrite (tb_inj _ _ Ht k k' x' Hk Hk').
  - intros id. unfold used. rewrite list_elem_of_filter, list_elem_of_fmap. split.
    + intros [H0 [p Hp]%list_elem_of_lookup_1]. destruct (tb_slot _ _ Ht p id Hp H0) as (k & Hk & _). exists (k, id).
      split; [done|by apply elem_of_map_to_list].
    + intros ([k x] & -> & Hk%elem_of_map_to_list). destruct (tb_in _ _ Ht k x Hk) as [H0 [p Hp]]. split; [done|].
      apply list_elem_of_lookup. eauto.
Qed.

Lemma reinsert_spec get_topic M old seen m M1 : knows_topics get_topic M -> (forall k k' id, M !! k = Some id -> M !! k' = Some id -> k = k') ->
  table (vector_ m) M1 -> M1 ⊆ M -> sub_count_ m = Z.of_nat (size M1) -> length seen = size M1 ->
  (forall id, id ∈ seen <-> exists k, M1 !! k = Some id) ->
  NoDup (used old) -> (forall id, id ∈ used old -> exists k, M !! k = Some id /\ M1 !! k = None) ->
  Z.of_nat (size M1 + length (used old)) < sub_count_high_ m -> sub_count_high_ m < Z.of_nat (length (vector_ m)) ->
  Z.of_nat (size M1 + length (used old)) < 2 ^ 64 ->
  exists m' seen' M', reinsert hash get_topic old seen m = Ok (m', seen') /\ table (vector_ m') M' /\ M' ⊆ M /\
    size M' = (size M1 + length (used old))%nat /\ sub_count_ m' = Z.of_nat (size M') /\ length seen' = size M' /\
    sub_count_low_ m' = sub_count_low_ m /\ sub_count_high_ m' = sub_count_high_ m /\ length (vector_ m') = length (vector_ m).
Proof.
  intros Hg Hinj. revert seen m M1. induction old as [|x old IH]; intros seen m M1 Ht Hsub Hc Hls Hseen Hnd Hold Hh Hn Hw.
  { exists m, seen, M1. cbn. rewrite Nat.add_0_r. by split_and!. }
  cbn [reinsert]. destruct (Z.eqb_spec x 0) as [->|H0].
  { unfold used in *. rewrite filter_cons_False in * by auto. by apply IH. }
  unfold used in *. rewrite filter_cons_True in * by done. fold (used old) in *. cbn [length] in Hh, Hw.
  destruct (Hold x ltac:(by left)) as (k & Hk & Hk1). apply NoDup_cons in Hnd as [Hx Hnd].
  assert (forall k', M1 !! k' <> Some x) as Hnew.
  { intros k' Hk'. rewrite (Hinj k k' x Hk (lookup_weaken _ _ _ _ Hk' Hsub)) in Hk1. congruence. }
  rewrite bool_decide_eq_true_2 by (rewrite Hseen; naive_solver). cbn [assert_that obind]. rewrite (Hg k x Hk).
  destruct (InsertInternal_spec m M1 k x Ht Hc ltac:(lia) Hn ltac:(lia) Hk1 H0 Hnew) as (m2 & -> & Ht2 & Hc2 & Hl2 & Hh2 & Hn2). cbn [obind].
  assert (size (<[k := x]> M1) = S (size M1)) as Hs2 by (by apply map_size_insert_None).
  edestruct (IH (x :: seen) m2 (<[k := x]> M1)) as (m' & seen' & M' & E & Ht' & Hsub' & Hs' & Hc' & Hls' & Hl' & Hh' & Hn').
  - done.
  - by apply insert_subseteq_l.
  - lia.
  - cbn. lia.
  - intros id. rewrite elem_of_cons, Hseen. split.
    + intros [->|[k' Hk']]; [exists k; by rewrite lookup_insert_eq|]. exists k'. rewrite lookup_insert_ne; [done|]. congruence.
    + intros [k' Hk']. apply lookup_insert_Some in Hk' as [[_ ->]|[_ Hk']]; [by left|right; eauto].
  - done.
  - intros id Hid. destruct (Hold id ltac:(by right)) as (k' & Hk' & Hk1'). exists k'. split; [done|].
    rewrite lookup_insert_ne; [done|]. intros ->. assert (id = x) as -> by congruence. done.
  - rewrite Hs2, Hh2. lia.
  - by rewrite Hh2, Hn2.
  - lia.
  - exists m', seen', M'. split_and!; try done; try congruence. rewrite Hs', Hs2. cbn. lia.
Qed.

Lemma table_nil : table [] ∅.
Proof. by split. Qed.

Lemma table_zeros n : table (replicate n 0) ∅.
Proof. split; [by intros p id [-> _]%lookup_replicate|done|by intros p q id ? [-> _]%lookup_replicate|done]. Qed.

Lemma Rehash_spec get_topic m M : table (vector_ m) M -> knows_topics get_topic M -> sub_count_ m = Z.of_nat (size M) ->
  Z.of_nat (size M) < 2 ^ 50 -> 0 <= sub_count_low_ m ->
  sub_count_high_ m < Z.of_nat (length (vector_ m)) \/ (vector_ m = [] /\ sub_count_high_ m = 0) ->
  exists m', Rehash hash get_topic m = Ok m' /\ holds m' M /\ sub_count_ m' < sub_count_high_ m' /\
    sub_count_high_ m' < Z.of_nat (length (vector_ m')).
Proof.
  intros Ht Hg Hc Hs Hl Hn. unfold Rehash, NeedsRehash.
  destruct (Z.ltb_spec (sub_count_ m) (sub_count_low_ m)) as [Hlow|Hlow], (Z.leb_spec (sub_count_high_ m) (sub_count_ m)) as [Hhigh|Hhigh];
    cbn [orb negb]; try (exists m; split; [done|]; split; [split; [done|done|done|lia|lia|lia]|lia]).
  all: set (c := sub_count_ m) in *; assert (exists size low, (if 8 * c / 3 <=? kMinSize then (kMinSize, 0) else (8 * c / 3, 8 * c / 3 / 4)) = (size, low) /\
    0 <= low <= c /\ c < size / 2 /\ size / 2 < size) as (sz & low & E & Hlo & Hhi & Hsz)
    by (unfold kMinSize; destruct (Z.leb_spec (8 * c / 3) 16); eexists _, _; (split; [done|]); Z.to_euclidean_division_equations; lia).
  all: rewrite E; destruct (table_used _ _ Ht) as [Hnd Hlen];
    destruct (reinsert_spec get_topic M (vector_ m) [] {| vector_ := replicate (Z.to_nat sz) 0; sub_count_low_ := low; sub_count_high_ := sz / 2;
      sub_count_ := 0 |} ∅ Hg (tb_inj _ _ Ht)) as (m' & seen & M' & E2 & Ht' & Hsub & Hs' & Hc' & Hls & Hl' & Hh' & Hn');
    [apply table_zeros|apply map_empty_subseteq|by rewrite map_size_empty|by rewrite map_size_empty| |done| |cbn..|].
  all: try (rewrite ?length_replicate, ?Hlen, map_size_empty; lia).
  all: try (rewrite length_replicate; lia).
  all: try (intros id; split; [by intros ?%elem_of_nil|intros [k Hk]; by rewrite lookup_empty in Hk]).
  all: try (intros id Hid; apply list_elem_of_filter in Hid as [H0 [p Hp]%list_elem_of_lookup_1];
    destruct (tb_slot _ _ Ht p id Hp H0) as (k & Hk & _); exists k; by rewrite lookup_empty).
  all: rewrite map_size_empty, Hlen in Hs'; cbn in Hs';
    assert (M' = M) as -> by (apply map_subseteq_size_eq; [done|lia]);
    cbn in Hl', Hh', Hn'; rewrite length_replicate in Hn'; rewrite E2; cbn [obind]; rewrite Hc', Hls, Hl', Hh', Hn', <-Hc; fold c;
    rewrite Z.eqb_refl, (proj2 (Z.leb_le low (sz / 2))), (proj2 (Z.ltb_lt (sz / 2) _)), (proj2 (Z.ltb_ge c low)),
      (proj2 (Z.leb_gt (sz / 2) c)), (proj2 (Z.ltb_lt c (sz / 2))), (proj2 (Z.ltb_lt c (Z.of_nat _))) by lia;
    cbn [assert_that orb negb obind]; exists m'; split; [done|]; split; [split; [done|lia|done|lia|lia|lia]|lia].
Qed.

(** ** Removal *)

(** The way from after the gap up to [cur]. *)
Definition inside (hole q cur : nat) : Prop := q <> hole /\ (before hole q cur \/ q = cur).

(** The vector while the gap at [hole] is open: [cur] was inspected last. *)
Record gapped (v : list Z) (M : gmap Topic Z) (hole cur : nat) : Prop := {
  gp_slot : forall p id, p <> hole -> v !! p = Some id -> id <> 0 -> exists k, M !! k = Some id /\
    forall q, q <> hole -> before (optimal (length v) k) q p -> v !! q <> Some 0;
  gp_full : forall q id, inside hole q cur -> v !! q = Some id ->
    id <> 0 /\ forall k, M !! k = Some id -> ~ before (optimal (length v) k) hole q;
  gp_in : forall k id, M !! k = Some id -> id <> 0 /\ exists p, p <> hole /\ v !! p = Some id;
  gp_once : forall p q id, p <> hole -> q <> hole -> id <> 0 -> v !! p = Some id -> v !! q = Some id -> p = q;
  gp_inj : forall k k' id, M !! k = Some id -> M !! k' = Some id -> k = k'
}.

Lemma lookup_clear v hole q x : (hole < length v)%nat -> <[hole := 0]> v !! q = Some x -> (q = hole /\ x = 0) \/ (q <> hole /\ v !! q = Some x).
Proof.
  intros Hh. destruct (decide (q = hole)) as [->|Hne].
  - rewrite list_lookup_insert_eq by done. intros [= <-]. by left.
  - rewrite list_lookup_insert_ne by done. by right.
Qed.

(** The next slot is empty: the gap may stay. *)
Lemma gapped_done v M hole cur : (hole < length v)%nat -> (cur < length v)%nat -> gapped v M hole cur ->
  <[hole := 0]> v !! next_position v cur = Some 0 -> table (<[hole := 0]> v) M.
Proof.
  intros Hh Hcur Hg Hz. rewrite next_position_eq in Hz by done. set (nxt := if (cur + 1 =? length v)%nat then O else (cur + 1)%nat) in Hz. split.
  - intros p id [[_ ->]|[Hne Hp]]%lookup_clear H0; [done| |done]. destruct (gp_slot _ _ _ _ Hg p id Hne Hp H0) as (k & Hk & Hc).
    exists k. split; [done|]. intros q. rewrite length_insert. intros Hq Hq0.
    apply lookup_clear in Hq0 as [[-> _]|[Hqne Hq0]]; [|by apply (Hc q Hqne Hq)|done].
    destruct (decide (inside hole p cur)) as [Hin|Hin].
    { destruct (gp_full _ _ _ _ Hg p id Hin Hp) as [_ Hf]. by apply (Hf k Hk). }
    pose proof (lookup_lt_Some _ _ _ Hp) as Hpl. pose proof (optimal_lt (length v) k ltac:(lia)) as Ho.
    apply lookup_clear in Hz as [[Hn _]|[Hn Hz]]; [| |done].
    + apply Hin. revert Hn. unfold nxt, inside, before. case_nat; lia.
    + apply (Hc nxt Hn); [|done]. assert (p <> nxt) as Hpn by congruence. revert Hn Hin Hq Hpn.
      unfold nxt, inside, before. case_nat; lia.
  - intros k id Hk. destruct (gp_in _ _ _ _ Hg k id Hk) as [H0 (p & Hne & Hp)]. split; [done|]. exists p. by rewrite list_lookup_insert_ne.
  - intros p q id H0 Hp Hq. apply lookup_clear in Hp as [[_ ?]|[Hp1 Hp2]], Hq as [[_ ?]|[Hq1 Hq2]]; try done. by eapply (gp_once _ _ _ _ Hg).
  - apply Hg.
Qed.

(** The next slot belongs where it is: it is inspected. *)
Lemma gapped_keep v M hole cur id k : (hole < length v)%nat -> (cur < length v)%nat -> gapped v M hole cur ->
  v !! next_position v cur = Some id -> id <> 0 -> next_position v cur <> hole -> M !! k = Some id ->
  ~ before (optimal (length v) k) hole (next_position v cur) -> gapped v M hole (next_position v cur).
Proof.
  intros Hh Hcur Hg Hid H0 Hne Hk Hb. destruct Hg as [Hslot Hfull Hin Honce Hinj]. split; try done.
  intros q x Hq Hx. destruct (decide (q = next_position v cur)) as [->|Hqn].
  - rewrite Hid in Hx. injection Hx as <-. split; [done|]. intros k' Hk'. by rewrite (Hinj k' k id Hk' Hk).
  - apply (Hfull q x); [|done]. pose proof (lookup_lt_Some _ _ _ Hx). revert Hq Hqn Hne. rewrite next_position_eq by done.
    unfold inside, before. case_nat; lia.
Qed.

(** The next slot belongs before the gap: it is moved there, and leaves one. *)
Lemma gapped_move v M hole cur id k : (hole < length v)%nat -> (cur < length v)%nat -> gapped v M hole cur ->
  v !! next_position v cur = Some id -> id <> 0 -> next_position v cur <> hole -> M !! k = Some id ->
  before (optimal (length v) k) hole (next_position v cur) ->
  gapped (<[hole := id]> v) M (next_position v cur) (next_position v cur).
Proof.
  intros Hh Hcur Hg Hid H0 Hne Hk Hb. destruct Hg as [Hslot Hfull Hin Honce Hinj]. set (nxt := next_position v cur) in *.
  pose proof (lookup_lt_Some _ _ _ Hid) as Hnl.
  assert (forall q x, <[hole := id]> v !! q = Some x -> (q = hole /\ x = id) \/ (q <> hole /\ v !! q = Some x)) as Hlook.
  { intros q x. destruct (decide (q = hole)) as [->|Hqh].
    - rewrite list_lookup_insert_eq by done. intros [= <-]. by left.
    - rewrite list_lookup_insert_ne by done. by right. }
  split.
  - intros p x Hpn Hp Hx. rewrite length_insert. apply Hlook in Hp as [[-> ->]|[Hph Hp]].
    + exists k. split; [done|]. intros q Hqn Hq Hq0. apply Hlook in Hq0 as [[-> ?]|[Hqh Hq0]]; [congruence|].
      destruct (Hslot nxt id Hne Hid H0) as (k' & Hk' & Hc). rewrite <-(Hinj k k' id Hk Hk') in Hc. apply (Hc q Hqh); [|done].
      pose proof (lookup_lt_Some _ _ _ Hq0). pose proof (optimal_lt (length v) k ltac:(lia)). revert Hb Hq. unfold before. lia.
    + destruct (Hslot p x Hph Hp Hx) as (k' & Hk' & Hc). exists k'. split; [done|]. intros q Hqn Hq Hq0.
      apply Hlook in Hq0 as [[-> ?]|[Hqh Hq0]]; [congruence|]. by apply (Hc q).
  - intros q x [Hq1 [Hq2|Hq2]]; [|done]. revert Hq2. unfold before. lia.
  - intros k' x Hk'. destruct (Hin k' x Hk') as [Hx (p & Hp1 & Hp2)]. split; [done|]. destruct (decide (p = nxt)) as [->|Hpn].
    + exists hole. split; [done|]. rewrite list_lookup_insert_eq by done. congruence.
    + exists p. split; [done|]. by rewrite list_lookup_insert_ne.
  - intros p q x Hp Hq Hx Hpx Hqx. apply Hlook in Hpx as [[-> ->]|[Hp1 Hp2]], Hqx as [[-> Hxx]|[Hq1 Hq2]]; try done.
    + exfalso. apply Hq. by apply (Honce q nxt id).
    + subst x. exfalso. apply Hp. by apply (Honce p nxt id).
    + by apply (Honce p q x).
  - done.
Qed.

(** The test of the loop. *)
Lemma in_range_before hole x cur : hole <> cur ->
  (if (hole <=? cur)%nat then (hole <? x)%nat && (x <=? cur)%nat else (hole <? x)%nat || (x <=? cur)%nat) = false <-> before x hole cur.
Proof. intros. unfold before. repeat case_nat; cbn; split; try done; try lia. Qed.

(** Slots to go until the empty slot [z]. *)
Definition ahead (n cur z : nat) : nat := if (cur <? z)%nat then (z - cur)%nat else (z + n - cur)%nat.

Lemma close_gap_spec get_topic M z fuel v hole cur : knows_topics get_topic M -> (hole < length v)%nat -> (cur < length v)%nat ->
  gapped v M hole cur -> v !! z = Some 0 -> z <> hole -> z <> cur -> (ahead (length v) cur z <= fuel)%nat ->
  exists v', close_gap hash fuel get_topic v hole cur = Ok v' /\ table v' M /\ length v' = length v.
Proof.
  intros Hg. revert v hole cur. induction fuel as [|fuel IH]; intros v hole cur Hh Hcur Hgap Hz Hzh Hzc Hf;
    pose proof (lookup_lt_Some _ _ _ Hz) as Hzl; [unfold ahead in Hf; case_nat; lia|].
  cbn [close_gap]. set (w := <[hole := 0]> v). assert (length w = length v) as Hw by apply length_insert.
  assert (next_position w cur = next_position v cur) as Hnw by (unfold next_position; by rewrite Hw). rewrite Hnw.
  set (nxt := next_position v cur). assert (nxt < length v)%nat as Hnl by (unfold nxt; rewrite next_position_eq by done; case_nat; lia).
  destruct (lookup_lt_is_Some_2 w nxt ltac:(lia)) as [id Hid]. rewrite (get_lookup _ _ _ Hid). cbn [obind].
  destruct (Z.eqb_spec id 0) as [->|H0]; [exists w; split; [done|]; split; [by apply (gapped_done v M hole cur)|done]|].
  apply lookup_clear in Hid as [[_ ?]|[Hnh Hid]]; [done| |done].
  destruct (gp_slot _ _ _ _ Hgap nxt id Hnh Hid H0) as (k & Hk & _). rewrite (Hg k id Hk). rewrite FindOptimalPosition_eq by lia. cbn [obind].
  rewrite Hw. set (x := optimal (length v) k).
  assert (z <> nxt) as Hzn by congruence.
  assert (ahead (length v) nxt z <= fuel)%nat as Hf'.
  { revert Hf Hzn. unfold nxt. rewrite next_position_eq by done. unfold ahead. repeat case_nat; lia. }
  assert (forall u hole', length u = length v -> u !! z = Some 0 -> (hole' < length v)%nat -> z <> hole' -> gapped u M hole' nxt ->
    exists v', close_gap hash fuel get_topic u hole' nxt = Ok v' /\ table v' M /\ length v' = length v) as Hgo.
  { intros u hole' Hu Huz Hlt Hne Hgu. destruct (IH u hole' nxt) as (v' & E & Ht & Hl); [lia|lia|done|done|done|done|by rewrite Hu|].
    exists v'. split; [done|]. split; [done|congruence]. }
  assert (forall u, gapped v M hole u -> gapped w M hole u) as Hclear.
  { intros u [Hslot Hfull Hin Honce Hinj]. unfold w. split; rewrite ?length_insert.
    - intros p y Hp Hpy Hy. rewrite list_lookup_insert_ne in Hpy by done. destruct (Hslot p y Hp Hpy Hy) as (k' & Hk' & Hc). exists k'.
      split; [done|]. intros q Hq Hqb. rewrite list_lookup_insert_ne by done. by apply Hc.
    - intros q y Hq. rewrite list_lookup_insert_ne by (intros ->; by destruct Hq). by apply Hfull.
    - intros k' y Hk'. destruct (Hin k' y Hk') as [Hy (p & Hp & Hpy)]. split; [done|]. exists p. by rewrite list_lookup_insert_ne.
    - intros p q y Hp Hq. rewrite !list_lookup_insert_ne by done. by apply Honce.
    - done. }
  assert (w !! z = Some 0) as Hwz by (unfold w; by rewrite list_lookup_insert_ne).
  destruct (if (hole <=? nxt)%nat then _ else _) eqn:E.
  - apply Hgo; try done. apply Hclear, (gapped_keep v M hole cur id k); try done.
    intros Hb%in_range_before; [|done]. unfold x, nxt in E. congruence.
  - apply in_range_before in E; [|done]. apply Hgo; try done.
    + unfold w. by rewrite !length_insert.
    + by rewrite list_lookup_insert_ne.
    + unfold w. rewrite list_insert_insert_eq. by apply (gapped_move v M hole cur id k).
Qed.

Lemma position_of_spec v M k id : table v M -> (0 < length v)%nat -> id <> 0 ->
  exists p, position_of (length v) v id (optimal (length v) k) (optimal (length v) k) = Ok p /\ (p < length v)%nat /\
    (M !! k = Some id -> v !! p = Some id).
Proof.
  intros Ht Hn H0. set (o := optimal (length v) k). pose proof (optimal_lt _ k Hn : (o < length v)%nat) as Ho.
  set (stop := fun x => (x =? 0) || (x =? id)).
  rewrite (probe_loop (fun fuel p => position_of fuel v id o p) v stop o (fun p _ => Ok p) (Ok o));
    [|intros fuel p x Hp; cbn [position_of]; rewrite (get_lookup _ _ _ Hp); cbn [obind]; unfold stop; destruct (_ || _); [done|];
      destruct (Nat.eqb_spec (next_position v p) o) as [->|]; done|done|done|unfold left_over; case_nat; lia].
  pose proof (probe_from v stop o Ho) as Hp. assert (stop id = true) as Hs by (unfold stop; by rewrite Z.eqb_refl, orb_true_r).
  destruct (probe _ _ _ _ _) as [q|].
  - destruct Hp as (x & Hq & Hx & Hb). exists q. split; [done|]. split; [by eapply lookup_lt_Some|]. intros Hk.
    destruct (tb_in _ _ Ht k id Hk) as [_ [p Hp]]. pose proof (table_connected _ _ _ _ _ Ht Hk Hp q) as Hc. fold o in Hc.
    destruct (decide (before o p q)) as [Hpq|Hpq]; [rewrite (Hb p id Hpq Hp) in Hs; done|].
    destruct (decide (p = q)) as [->|Hne]; [done|]. unfold stop in Hx. destruct (Z.eqb_spec x 0) as [->|Hx0].
    + exfalso. apply Hc; [|done]. apply lookup_lt_Some in Hp, Hq. revert Hpq. unfold before. lia.
    + cbn in Hx. apply Z.eqb_eq in Hx as ->. done.
  - exists o. split; [done|]. split; [done|]. intros Hk. destruct (tb_in _ _ Ht k id Hk) as [_ [p Hp']]. by rewrite (Hp p id Hp') in Hs.
Qed.

(** The slot of an ID is emptied. *)
Lemma table_gapped v M k id p : table v M -> M !! k = Some id -> v !! p = Some id -> gapped v (delete k M) p p.
Proof.
  intros Ht Hk Hp. split.
  - intros q x Hqp Hq Hx. destruct (tb_slot _ _ Ht q x Hq Hx) as (k' & Hk' & Hc). exists k'. split; [|intros y _; apply Hc].
    apply lookup_delete_Some. split; [|done]. intros ->. apply Hqp, (tb_once _ _ Ht q p x); congruence.
  - intros q x [Hq1 [Hq2|Hq2]]; [|done]. revert Hq2. unfold before. lia.
  - intros k' x [Hne Hk']%lookup_delete_Some. destruct (tb_in _ _ Ht k' x Hk') as [Hx [q Hq]]. split; [done|]. exists q. split; [|done].
    intros ->. apply Hne, (tb_inj _ _ Ht k k' x); congruence.
  - intros q q' x _ _. apply (tb_once _ _ Ht).
  - intros k1 k2 x [_ H1]%lookup_delete_Some [_ H2]%lookup_delete_Some. by apply (tb_inj _ _ Ht k1 k2 x).
Qed.

(** ** The operations *)

Lemma New_holds : holds New ∅.
Proof. split; rewrite ?map_size_empty; cbn; try done; try apply table_nil. by right. Qed.

Lemma Find_spec get_topic m M k : holds m M -> knows_topics get_topic M -> Find hash get_topic m k = Ok (default 0 (M !! k)).
Proof.
  intros [Ht _ _ _ _ _] Hg. unfold Find. destruct (vector_ m) as [|x v] eqn:Ev.
  - destruct (M !! k) as [id|] eqn:Hk; [|done]. destruct (tb_in _ _ Ht k id Hk) as [_ [p Hp]]. done.
  - rewrite FindOptimalPosition_eq by (cbn; lia). cbn [obind]. apply table_Find; [done|done|cbn; lia].
Qed.

Lemma TopicMap_Insert get_topic m M k id : holds m M -> knows_topics get_topic M -> M !! k = None -> id <> 0 ->
  (forall k', M !! k' <> Some id) -> Z.of_nat (size M) + 1 < 2 ^ 50 ->
  exists m', Insert hash get_topic m k id = Ok m' /\ holds m' (<[k := id]> M).
Proof.
  intros [Ht Hc Hs Hl Hh Hn] Hg Hk H0 Hnew Hb. unfold Insert.
  destruct (Rehash_spec get_topic m M Ht Hg Hc Hs ltac:(lia) Hn) as (m1 & -> & [Ht1 Hc1 _ Hl1 Hh1 _] & Hlt & Hn1). cbn [obind].
  destruct (InsertInternal_spec m1 M k id Ht1 Hc1 Hlt Hn1 ltac:(lia) Hk H0 Hnew) as (m2 & -> & Ht2 & Hc2 & Hl2 & Hh2 & Hn2).
  exists m2. split; [done|]. assert (size (<[k := id]> M) = S (size M)) as Hsz by (by apply map_size_insert_None).
  split; rewrite ?Hsz, ?Hl2, ?Hh2, ?Hc2, ?Hn2; [done|lia|lia|lia|lia|lia].
Qed.

Lemma TopicMap_Remove get_topic m M k id : holds m M -> knows_topics get_topic M -> M !! k = Some id ->
  exists m', Remove hash get_topic m k id = Ok (m', true) /\ holds m' (delete k M).
Proof.
  intros [Ht Hc Hs Hl Hh Hn] Hg Hk. destruct (tb_in _ _ Ht k id Hk) as [H0 [p0 Hp0]]. pose proof (lookup_lt_Some _ _ _ Hp0) as Hp0l.
  unfold Remove. rewrite (proj2 (Z.eqb_neq _ _) H0). cbn [negb assert_that obind]. rewrite FindOptimalPosition_eq by lia. cbn [obind].
  destruct (position_of_spec _ M k id Ht ltac:(lia) H0) as (p & -> & Hpl & Hp). specialize (Hp Hk). cbn [obind].
  rewrite (get_lookup _ _ _ Hp). cbn [obind]. rewrite Z.eqb_refl. cbn [negb].
  assert (size M = S (size (delete k M))) as Hsz.
  { rewrite <-(insert_delete_id M k id Hk) at 1. by apply map_size_insert_None, lookup_delete_eq. }
  rewrite (proj2 (Z.ltb_lt 0 _)) by lia. cbn [assert_that obind].
  assert (Z.of_nat (size M) < Z.of_nat (length (vector_ m))) as Hroom by (destruct Hn as [?|[E _]]; [lia|rewrite E in Hp0; done]).
  destruct (table_room _ _ Ht ltac:(lia)) as [z Hz].
  assert (z <> p) as Hzp by congruence. pose proof (lookup_lt_Some _ _ _ Hz) as Hzl.
  assert (knows_topics get_topic (delete k M)) as Hg' by (intros k' id' [_ Hk']%lookup_delete_Some; by apply Hg).
  destruct (close_gap_spec get_topic (delete k M) z (length (vector_ m)) (vector_ m) p p Hg' Hpl Hpl
    (table_gapped _ _ _ _ _ Ht Hk Hp) Hz Hzp Hzp ltac:(unfold ahead; case_nat; lia)) as (v' & -> & Ht' & Hv'). cbn [obind].
  assert (u64 (sub_count_ m - 1) = Z.of_nat (size (delete k M))) as Hc' by (rewrite wrap_small; [lia|unfold fits; lia]).
  destruct (Rehash_spec get_topic {| vector_ := v'; sub_count_low_ := sub_count_low_ m; sub_count_high_ := sub_count_high_ m;
    sub_count_ := u64 (sub_count_ m - 1) |} (delete k M) Ht' Hg' Hc' ltac:(lia) ltac:(cbn; lia)) as (m' & -> & Hm' & _); [|by exists m'].
  cbn. destruct Hn as [?|[E _]]; [left; by rewrite Hv'|rewrite E in Hp0; done].
Qed.

(** An ID that is not stored is not removed. *)
Lemma Remove_absent get_topic m M k id : holds m M -> id <> 0 -> (forall k', M !! k' <> Some id) -> vector_ m <> [] ->
  Remove hash get_topic m k id = Ok (m, false).
Proof.
  intros [Ht _ _ _ _ _] H0 Hno Hne. assert (0 < length (vector_ m))%nat as Hn by (destruct (vector_ m); cbn; [done|lia]).
  unfold Remove. rewrite (proj2 (Z.eqb_neq _ _) H0). cbn [negb assert_that obind]. rewrite FindOptimalPosition_eq by lia. cbn [obind].
  destruct (position_of_spec _ M k id Ht Hn H0) as (p & -> & Hpl & _). cbn [obind].
  destruct (lookup_lt_is_Some_2 _ _ Hpl) as [x Hx]. rewrite (get_lookup _ _ _ Hx). cbn [obind].
  destruct (Z.eqb_spec id x) as [->|]; [|done]. destruct (tb_slot _ _ Ht p x Hx H0) as (k' & Hk' & _). by apply Hno in Hk'.
Qed.
End Facts.

(** ** Property *)

(** C26: the table of the client implements a finite map from topics to
    subscription IDs.  Starting from the empty table, [Find] returns the ID of a
    topic or 0; [Insert] of a new topic and ID, with all the rehashing it may
    do, and [Remove], with the elements it moves back, lead to a table for the
    updated map, and none of the assertions of the class fails; an ID that is
    not stored is not removed. *)
Theorem TopicMap_refines hash get_topic m M : holds hash m M -> knows_topics get_topic M ->
  holds hash New ∅ /\
  (forall k, Find hash get_topic m k = Ok (default 0 (M !! k))) /\
  (forall k id, M !! k = None -> id <> 0 -> (forall k', M !! k' <> Some id) -> Z.of_nat (size M) + 1 < 2 ^ 50 ->
     exists m', Insert hash get_topic m k id = Ok m' /\ holds hash m' (<[k := id]> M)) /\
  (forall k id, M !! k = Some id -> exists m', Remove hash get_topic m k id = Ok (m', true) /\ holds hash m' (delete k M)) /\
  (forall k id, id <> 0 -> (forall k', M !! k' <> Some id) -> vector_ m <> [] -> Remove hash get_topic m k id = Ok (m, false)).
Proof.
  intros Hm Hg. split_and!.
  - apply New_holds.
  - intros k. by apply Find_spec.
  - intros k id. by apply TopicMap_Insert.
  - intros k id. by apply TopicMap_Remove.
  - intros k id. by apply Remove_absent.
Qed.

(** Two topics that hash to the same slot. *)
Definition topic_a : Topic := ([Byte.x62], [Byte.x61]).
Definition topic_b : Topic := ([Byte.x62], [Byte.x62]).
Definition last_slot (ns topic : slice) : Z := 15.
Definition two_topics (id : Z) : option Topic := if id =? 1 then Some topic_a else if id =? 2 then Some topic_b else None.

Lemma TopicMap_refines_witness : exists m1 m2 m3,
  Insert last_slot two_topics New topic_a 1 = Ok m1 /\ Insert last_slot two_topics m1 topic_b 2 = Ok m2 /\
  Find last_slot two_topics m2 topic_b = Ok 2 /\ Remove last_slot two_topics m2 topic_a 1 = Ok (m3, true) /\
  Find last_slot two_topics m3 topic_b = Ok 2 /\ Find last_slot two_topics m3 topic_a = Ok 0.
Proof.
  assert (forall M, (forall k id, M !! k = Some id -> two_topics id = Some k) -> knows_topics two_topics M) as Hg by (intros M H; exact H).
  destruct (TopicMap_refines last_slot two_topics New ∅ (New_holds last_slot)) as (_ & _ & Hins & _); [by apply Hg; intros k id ?%lookup_empty_Some|].
  destruct (Hins topic_a 1 eq_refl) as (m1 & E1 & H1); [done|by intros k ?%lookup_empty_Some|by rewrite map_size_empty|].
  destruct (TopicMap_refines last_slot two_topics m1 (<[topic_a := 1]> ∅) H1) as (_ & _ & Hins1 & _).
  { apply Hg. intros k id. rewrite lookup_insert_Some, lookup_empty. naive_solver. }
  destruct (Hins1 topic_b 2) as (m2 & E2 & H2); [by vm_compute|done| |by vm_compute|].
  { intros k. rewrite lookup_insert_Some, lookup_empty. naive_solver. }
  assert (knows_topics two_topics (<[topic_b := 2]> (<[topic_a := 1]> ∅))) as Hg2.
  { apply Hg. intros k id. rewrite !lookup_insert_Some, lookup_empty. naive_solver. }
  destruct (TopicMap_refines last_slot two_topics m2 (<[topic_b := 2]> (<[topic_a := 1]> ∅)) H2 Hg2) as (_ & Hf2 & _ & Hr2 & _).
  destruct (Hr2 topic_a 1) as (m3 & E3 & H3); [by vm_compute|].
  destruct (TopicMap_refines last_slot two_topics m3 _ H3) as (_ & Hf3 & _); [intros k id [_ Hk]%lookup_delete_Some; by apply Hg2|].
  exists m1, m2, m3. split_and!; [exact E1|exact E2| |exact E3| |].
  - rewrite Hf2. reflexivity.
  - rewrite Hf3. reflexivity.
  - rewrite Hf3. reflexivity.
Defined.
