(* ===== verification/SubscriptionsMap.v ===== *)
(** * The client's subscriptions

    Model of [src/client/subscriptions_map.cc] and [subscriptions_map.h]: the
    active subscriptions of one shard, which the class replicates to the server
    over the current stream, and the sequence number each one expects.  The
    table that stores them is [include/KeylessHashMMap.h], a multi-map: several
    values can have one key. *)

From S2P Require Import Prelude Coding Messages.

#[local] Open Scope outcome_scope.

(** ** Subscriptions *)

(** The user data is an address, 0 for the null pointer.  Tenant and namespace
    are shared between subscriptions in the code. *)
Record SubscriptionBase := {
  tenant_id : Z;
  namespace_id : slice;
  topic_name_ : slice;
  sub_id_ : Z;
  expected_seqno_ : Z;
  user_data_ : Z
}.

Definition set_expected (seqno : Z) (s : SubscriptionBase) : SubscriptionBase :=
  {| tenant_id := tenant_id s; namespace_id := namespace_id s; topic_name_ := topic_name_ s; sub_id_ := sub_id_ s;
     expected_seqno_ := seqno; user_data_ := user_data_ s |}.

Definition SubscriptionBase_SetUserData (user_data : Z) (s : SubscriptionBase) : SubscriptionBase :=
  {| tenant_id := tenant_id s; namespace_id := namespace_id s; topic_name_ := topic_name_ s; sub_id_ := sub_id_ s;
     expected_seqno_ := expected_seqno_ s; user_data_ := user_data |}.

Definition SubscriptionBase_Rewind (sub_id expected_seqno : Z) (s : SubscriptionBase) : outcome SubscriptionBase :=
  assert_that (negb (sub_id_ s =? sub_id)) "sub_id_ != sub_id" ;;;
  Ok {| tenant_id := tenant_id s; namespace_id := namespace_id s; topic_name_ := topic_name_ s; sub_id_ := sub_id;
        expected_seqno_ := expected_seqno; user_data_ := user_data_ s |}.

Definition ProcessUpdate (previous current : Z) (s : SubscriptionBase) : outcome (SubscriptionBase * bool) :=
  assert_that (previous <=? current) "current >= previous" ;;;
  if (current <? previous) || ((expected_seqno_ s =? 0) && negb (previous =? 0)) ||
     (current <? expected_seqno_ s) || (expected_seqno_ s <? previous)
  then Ok (s, false)
  else Ok (set_expected (u64 (current + 1)) s, true).

(** ** The table *)

Module Keyless.
Abbreviation t := (gmap Z (list SubscriptionBase)).

Definition MaxSize : Z := 2 ^ 32 - 1.

Definition Insert (value : SubscriptionBase) (m : t) : t * bool :=
  match m !! sub_id_ value with
  | None => (<[sub_id_ value := [value]]> m, true)
  | Some values =>
      if Z.of_nat (length values) =? MaxSize then (m, false)
      else (<[sub_id_ value := values ++ [value]]> m, true)
  end.

(** The value the iterator of [Find] points to. *)
Definition Find (key : Z) (m : t) : option SubscriptionBase := values ← m !! key; head values.

(** [Erase] of that iterator: the last value takes the place of the first. *)
Definition Erase (key : Z) (m : t) : t :=
  match m !! key with
  | None | Some [] => m
  | Some (_ :: rest) =>
      match last rest with
      | None => delete key m
      | Some x => <[key := x :: removelast rest]> m
      end
  end.

(** An update of the object the iterator points to. *)
Definition Update (key : Z) (value : SubscriptionBase) (m : t) : t :=
  match m !! key with
  | Some (_ :: rest) => <[key := value :: rest]> m
  | _ => m
  end.

Definition values (m : t) : list SubscriptionBase := concat (map_to_list m).*2.

Definition Size (m : t) : nat := length (values m).

Definition emplace (key : Z) (value : SubscriptionBase) (m : t) : outcome (t * bool) :=
  assert_that (key =? sub_id_ value) "key == ValueToKey().ExtractKey(value)" ;;; Ok (Insert value m).
End Keyless.

(** ** The class *)

(** What leaves the class: messages written to the sink, user data handed to
    the clean-up callback (its subscription is deleted), updates and ends of
    subscriptions passed to the two other callbacks, and the streams.
    [EndIgnored] is no output: it marks that the server ended a subscription
    the client has ended already, for which no callback runs.  The list is so
    also the history of what the server knows. *)
Inductive ClientEvent :=
| Write (m : Message)
| Cleaned (user_data : Z)
| NewStream
| StreamClosed
| Delivered (sub_id previous current : Z)
| Terminated (sub_id : Z)
| EndIgnored (sub_id : Z).

Record SubscriptionsMap := {
  pending_subscriptions_ : Keyless.t;
  synced_subscriptions_ : Keyless.t;
  pending_unsubscribes_ : gset Z;
  sink_ : bool;
  (** Whether the two sources are enabled. *)
  read_enabled : bool;
  events : list ClientEvent
}.

Definition NewSubscriptionsMap : SubscriptionsMap :=
  {| pending_subscriptions_ := ∅; synced_subscriptions_ := ∅; pending_unsubscribes_ := ∅; sink_ := false;
     read_enabled := false; events := [] |}.

Definition with_maps (pending synced : Keyless.t) (unsubscribes : gset Z) (es : list ClientEvent) (m : SubscriptionsMap) : SubscriptionsMap :=
  {| pending_subscriptions_ := pending; synced_subscriptions_ := synced; pending_unsubscribes_ := unsubscribes;
     sink_ := sink_ m; read_enabled := read_enabled m; events := events m ++ es |}.

Definition Subscribe (m : SubscriptionsMap) (sub_id tenant : Z) (ns topic : slice) (initial_seqno user_data : Z) : outcome SubscriptionsMap :=
  let state := {| tenant_id := tenant; namespace_id := ns; topic_name_ := topic; sub_id_ := sub_id;
                  expected_seqno_ := initial_seqno; user_data_ := user_data |} in
  r <~ Keyless.emplace sub_id state (pending_subscriptions_ m) ;;
  let '(pending, inserted) := r in
  assert_that inserted "inserted" ;;;
  Ok (with_maps pending (synced_subscriptions_ m) (pending_unsubscribes_ m) [] m).

Definition Find (m : SubscriptionsMap) (sub_id : Z) : option SubscriptionBase :=
  match Keyless.Find sub_id (synced_subscriptions_ m) with
  | Some s => Some s
  | None => Keyless.Find sub_id (pending_subscriptions_ m)
  end.

Definition Exists (m : SubscriptionsMap) (sub_id : Z) : bool := bool_decide (is_Some (Find m sub_id)).

Definition Empty (m : SubscriptionsMap) : bool :=
  (Keyless.Size (synced_subscriptions_ m) =? 0)%nat && (Keyless.Size (pending_subscriptions_ m) =? 0)%nat.

Definition Rewind (m : SubscriptionsMap) (old_sub_id new_sub_id new_seqno : Z) : outcome SubscriptionsMap :=
  match Find m old_sub_id with
  | None => Abort "ptr"
  | Some _ =>
      assert_that (negb (new_sub_id =? old_sub_id)) "new_sub_id != old_sub_id" ;;;
      let unsubscribes := {[ old_sub_id ]} ∪ pending_unsubscribes_ m in
      r <~ match Keyless.Find old_sub_id (synced_subscriptions_ m) with
           | Some state => Ok (pending_subscriptions_ m, Keyless.Erase old_sub_id (synced_subscriptions_ m), state)
           | None =>
               match Keyless.Find old_sub_id (pending_subscriptions_ m) with
               | Some state => Ok (Keyless.Erase old_sub_id (pending_subscriptions_ m), synced_subscriptions_ m, state)
               | None => Abort "pend_it != pending_subscriptions.End()"
               end
           end ;;
      let '(pending, synced, state) := r in
      state <~ SubscriptionBase_Rewind new_sub_id new_seqno state ;;
      r <~ Keyless.emplace new_sub_id state pending ;;
      let '(pending, inserted) := r in
      assert_that inserted "inserted" ;;;
      Ok (with_maps pending synced ({[ old_sub_id ]} ∪ unsubscribes) [] m)
  end.

(** [CleanupSubscription] calls back with the user data and deletes the object. *)
Definition CleanupSubscription (s : SubscriptionBase) : list ClientEvent := [Cleaned (user_data_ s)].

Definition Unsubscribe (m : SubscriptionsMap) (sub_id : Z) : outcome SubscriptionsMap :=
  match Keyless.Find sub_id (synced_subscriptions_ m) with
  | Some s =>
      Ok (with_maps (pending_subscriptions_ m) (Keyless.Erase sub_id (synced_subscriptions_ m))
            ({[ sub_id ]} ∪ pending_unsubscribes_ m) (CleanupSubscription s) m)
  | None =>
      match Keyless.Find sub_id (pending_subscriptions_ m) with
      | Some s =>
          Ok (with_maps (Keyless.Erase sub_id (pending_subscriptions_ m)) (synced_subscriptions_ m)
                (pending_unsubscribes_ m) (CleanupSubscription s) m)
      | None => Abort "pend_it != pending_subscriptions.End()"
      end
  end.

Definition SetUserData (m : SubscriptionsMap) (sub_id user_data : Z) : outcome SubscriptionsMap :=
  match Keyless.Find sub_id (synced_subscriptions_ m) with
  | Some s => Ok (with_maps (pending_subscriptions_ m) (Keyless.Update sub_id (SubscriptionBase_SetUserData user_data s) (synced_subscriptions_ m))
                    (pending_unsubscribes_ m) [] m)
  | None =>
      match Keyless.Find sub_id (pending_subscriptions_ m) with
      | Some s => Ok (with_maps (Keyless.Update sub_id (SubscriptionBase_SetUserData user_data s) (pending_subscriptions_ m))
                        (synced_subscriptions_ m) (pending_unsubscribes_ m) [] m)
      | None => Abort "sub"
      end
  end.

(** ** Sources *)

Definition GuestTenant : Z := 1.

Definition HandlePendingSubscription (m : SubscriptionsMap) (state : SubscriptionBase) : outcome SubscriptionsMap :=
  assert_that (sink_ m) "sink_" ;;;
  let subscribe := {| sub_base := {| type_ := MessageType.mSubscribe; tenantid_ := tenant_id state |};
                      sub_namespace_id_ := namespace_id state; sub_topic_name_ := topic_name_ state;
                      start_seqno_ := expected_seqno_ state; sub_sub_id_ := sub_id_ state |} in
  let '(synced, inserted) := Keyless.Insert state (synced_subscriptions_ m) in
  assert_that inserted "inserted" ;;;
  Ok (with_maps (pending_subscriptions_ m) synced (pending_unsubscribes_ m) [Write (Messages.Subscribe subscribe)] m).

Definition HandlePendingUnsubscription (m : SubscriptionsMap) (sub_id : Z) : outcome SubscriptionsMap :=
  assert_that (sink_ m) "sink_" ;;;
  let unsubscribe := {| unsub_base := {| type_ := MessageType.mUnsubscribe; tenantid_ := GuestTenant |};
                        unsub_sub_id_ := sub_id; reason_ := kRequested |} in
  Ok (with_maps (pending_subscriptions_ m) (synced_subscriptions_ m) (pending_unsubscribes_ m) [Write (Messages.Unsubscribe unsubscribe)] m).

(** One round of [ObservableContainer::Drain], on the element with the ID. *)
Definition DrainSubscription (m : SubscriptionsMap) (sub_id : Z) : outcome SubscriptionsMap :=
  match Keyless.Find sub_id (pending_subscriptions_ m) with
  | None => Ok m
  | Some state =>
      HandlePendingSubscription
        (with_maps (Keyless.Erase sub_id (pending_subscriptions_ m)) (synced_subscriptions_ m) (pending_unsubscribes_ m) [] m) state
  end.

Definition DrainUnsubscription (m : SubscriptionsMap) (sub_id : Z) : outcome SubscriptionsMap :=
  if decide (sub_id ∈ pending_unsubscribes_ m) then
    HandlePendingUnsubscription
      (with_maps (pending_subscriptions_ m) (synced_subscriptions_ m) (pending_unsubscribes_ m ∖ {[ sub_id ]}) [] m) sub_id
  else Ok m.

(** ** The stream *)

(** Every value of one table is emplaced in the other. *)
Fixpoint emplace_all (subs : list SubscriptionBase) (m : Keyless.t) : outcome Keyless.t :=
  match subs with
  | [] => Ok m
  | s :: subs => r <~ Keyless.emplace (sub_id_ s) s m ;; emplace_all subs (fst r)
  end.

Definition ConnectionCreated (m : SubscriptionsMap) : outcome SubscriptionsMap :=
  let '(pending, synced) :=
    if (Keyless.Size (pending_subscriptions_ m) <? Keyless.Size (synced_subscriptions_ m))%nat
    then (synced_subscriptions_ m, pending_subscriptions_ m)
    else (pending_subscriptions_ m, synced_subscriptions_ m) in
  pending <~ emplace_all (Keyless.values synced) pending ;;
  Ok {| pending_subscriptions_ := pending; synced_subscriptions_ := ∅; pending_unsubscribes_ := ∅; sink_ := true;
        read_enabled := true; events := events m ++ [NewStream] |}.

Definition ConnectionDropped (m : SubscriptionsMap) : SubscriptionsMap :=
  {| pending_subscriptions_ := pending_subscriptions_ m; synced_subscriptions_ := synced_subscriptions_ m;
     pending_unsubscribes_ := pending_unsubscribes_ m; sink_ := false; read_enabled := false;
     events := events m ++ [StreamClosed] |}.

(** [terminate_cb_] runs before the subscription is erased, on a state of its own. *)
Definition ReceiveUnsubscribe {S} (terminate_cb : S -> SubscriptionsMap -> outcome S) (s : S)
    (m : SubscriptionsMap) (sub_id reason : Z) : outcome (SubscriptionsMap * S) :=
  if (reason =? kInvalid) || (reason =? kRequested) then
    assert_that (bool_decide (Keyless.Find sub_id (pending_subscriptions_ m) = None))
      "pending_subscriptions_->Find(sub_id) == pending_subscriptions_->End()" ;;;
    match Keyless.Find sub_id (synced_subscriptions_ m) with
    | Some _ =>
        s <~ terminate_cb s m ;;
        Ok (with_maps (pending_subscriptions_ m) (Keyless.Erase sub_id (synced_subscriptions_ m)) (pending_unsubscribes_ m)
              [Terminated sub_id] m, s)
    | None => Ok (with_maps (pending_subscriptions_ m) (synced_subscriptions_ m) (pending_unsubscribes_ m) [EndIgnored sub_id] m, s)
    end
  else Ok (m, s).

(** Returns whether [deliver_cb_] is called, which is the last thing it does. *)
Definition ReceiveDeliver (m : SubscriptionsMap) (sub_id previous current : Z) : outcome (SubscriptionsMap * bool) :=
  assert_that (bool_decide (Keyless.Find sub_id (pending_subscriptions_ m) = None))
    "pending_subscriptions_->Find(sub_id) == pending_subscriptions_->End()" ;;;
  match Keyless.Find sub_id (synced_subscriptions_ m) with
  | None => Ok (m, false)
  | Some state =>
      r <~ ProcessUpdate previous current state ;;
      let '(state, accepted) := r in
      if accepted : bool then
        Ok (with_maps (pending_subscriptions_ m) (Keyless.Update sub_id state (synced_subscriptions_ m)) (pending_unsubscribes_ m)
              [Delivered sub_id previous current] m, true)
      else Ok (m, false)
  end.

(** [Iterate] visits the pending subscriptions, then the others. *)
Definition Iterate (m : SubscriptionsMap) : list SubscriptionBase :=
  Keyless.values (pending_subscriptions_ m) ++ Keyless.values (synced_subscriptions_ m).

(** The destructor. *)
Definition Destroy (m : SubscriptionsMap) : list ClientEvent := concat (map CleanupSubscription (Iterate m)).
