(* ===== verification/ClientFacts.v ===== *)
(** * Replication of the client's subscriptions

    The map of SubscriptionsMap.v as a machine, with the server's view of it:
    [remote] is what a server knows that heard the messages of the current
    stream.  Nothing fails, the server's view catches up with the map, and a
    subscription follows the updates it is sent without holes. *)

From S2P Require Import Prelude Coding Messages SubscriptionsMap.

#[local] Open Scope outcome_scope.

(** ** The server's view *)

Definition hears (e : ClientEvent) (r : gmap Z MessageSubscribe) : gmap Z MessageSubscribe :=
  match e with
  | NewStream => ∅
  | Write (Messages.Subscribe m) => <[sub_sub_id_ m := m]> r
  | Write (Messages.Unsubscribe m) => delete (unsub_sub_id_ m) r
  | Terminated sub_id | EndIgnored sub_id => delete sub_id r
  | _ => r
  end.

Definition remote (es : list ClientEvent) : gmap Z MessageSubscribe := fold_left (fun r e => hears e r) es ∅.

(** The IDs the server has heard of on the current stream. *)
Definition learns (e : ClientEvent) (k : gset Z) : gset Z :=
  match e with
  | NewStream => ∅
  | Write (Messages.Subscribe m) => {[ sub_sub_id_ m ]} ∪ k
  | _ => k
  end.

Definition known (es : list ClientEvent) : gset Z := fold_left (fun k e => learns e k) es ∅.

#[local] Arguments remote : simpl never.
#[local] Arguments known : simpl never.

Lemma remote_snoc es e : remote (es ++ [e]) = hears e (remote es).
Proof. apply fold_left_app. Qed.

Lemma known_snoc es e : known (es ++ [e]) = learns e (known es).
Proof. apply fold_left_app. Qed.

(** ** Tables with one value per key *)

Definition unique (m : Keyless.t) : Prop := forall k l, m !! k = Some l -> exists s, l = [s] /\ sub_id_ s = k.

Lemma unique_empty : unique ∅.
Proof. by intros k l ?%lookup_empty_Some. Qed.

Lemma unique_Find m k s : unique m -> Keyless.Find k m = Some s <-> m !! k = Some [s].
Proof.
  intros Hu. unfold Keyless.Find. split.
  - destruct (m !! k) as [l|] eqn:E; [|done]. destruct (Hu k l E) as (s' & -> & _). cbn. by intros [= ->].
  - by intros ->.
Qed.

Lemma unique_Find_None m k : unique m -> Keyless.Find k m = None <-> m !! k = None.
Proof.
  intros Hu. unfold Keyless.Find. split.
  - destruct (m !! k) as [l|] eqn:E; [|done]. by destruct (Hu k l E) as (s' & -> & _).
  - by intros ->.
Qed.

Lemma unique_id m k s : unique m -> Keyless.Find k m = Some s -> sub_id_ s = k.
Proof. intros Hu H%unique_Find; [|done]. destruct (Hu k _ H) as (s' & [= <-] & ?). done. Qed.

Lemma unique_insert m s : unique m -> unique (<[sub_id_ s := [s]]> m).
Proof. intros Hu k l. rewrite lookup_insert_Some. intros [[<- <-]|[_ H]]; [by exists s|by apply Hu]. Qed.

Lemma unique_delete m k : unique m -> unique (delete k m).
Proof. intros Hu k' l [_ H]%lookup_delete_Some. by apply Hu. Qed.

Lemma Insert_fresh m s : m !! sub_id_ s = None -> Keyless.Insert s m = (<[sub_id_ s := [s]]> m, true).
Proof. unfold Keyless.Insert. by intros ->. Qed.

Lemma Erase_unique m k s : unique m -> Keyless.Find k m = Some s -> Keyless.Erase k m = delete k m.
Proof. intros Hu H%unique_Find; [|done]. unfold Keyless.Erase. by rewrite H. Qed.

Lemma Update_unique m k s s' : unique m -> Keyless.Find k m = Some s -> Keyless.Update k s' m = <[k := [s']]> m.
Proof. intros Hu H%unique_Find; [|done]. unfold Keyless.Update. by rewrite H. Qed.

Lemma values_elem m s : unique m -> s ∈ Keyless.values m <-> m !! sub_id_ s = Some [s].
Proof.
  intros Hu. unfold Keyless.values. rewrite elem_of_concat. split.
  - intros (l & Hs & ([k l'] & -> & Hk%elem_of_map_to_list)%list_elem_of_fmap). destruct (Hu k l' Hk) as (s' & -> & <-).
    apply list_elem_of_singleton in Hs as ->. done.
  - intros H. exists [s]. split; [by apply list_elem_of_singleton|]. apply list_elem_of_fmap. exists (sub_id_ s, [s]).
    split; [done|by apply elem_of_map_to_list].
Qed.

Lemma values_ids_NoDup m : unique m -> NoDup (map sub_id_ (Keyless.values m)).
Proof.
  intros Hu. unfold Keyless.values. assert (map sub_id_ (concat (map_to_list m).*2) = (map_to_list m).*1) as ->; [|apply NoDup_fst_map_to_list].
  assert (forall L : list (Z * list SubscriptionBase), (forall k l, (k, l) ∈ L -> exists s, l = [s] /\ sub_id_ s = k) ->
    map sub_id_ (concat L.*2) = L.*1) as Hgen.
  { induction L as [|[k l] L IH]; intros HL; [done|]. destruct (HL k l ltac:(by left)) as (s & -> & <-). cbn. f_equal. apply IH.
    intros k' l' H. apply HL. by right. }
  apply Hgen. intros k l Hk%elem_of_map_to_list. by apply Hu.
Qed.

Lemma values_Size m : unique m -> Keyless.Size m = size m.
Proof.
  intros Hu. unfold Keyless.Size. rewrite <-(length_map sub_id_). unfold Keyless.values.
  rewrite <-length_map_to_list.
  assert (forall L : list (Z * list SubscriptionBase), (forall k l, (k, l) ∈ L -> exists s, l = [s]) ->
    length (map sub_id_ (concat L.*2)) = length L) as Hgen.
  { induction L as [|[k l] L IH]; intros HL; [done|]. destruct (HL k l ltac:(by left)) as (s & ->). cbn. f_equal. apply IH.
    intros k' l' H. apply (HL k'). by right. }
  apply Hgen. intros k l Hk%elem_of_map_to_list. destruct (Hu k l Hk) as (s & -> & _). by exists s.
Qed.

Lemma emplace_all_spec subs m : NoDup (map sub_id_ subs) -> (forall s, s ∈ subs -> m !! sub_id_ s = None) -> unique m ->
  exists m', emplace_all subs m = Ok m' /\ unique m' /\
    forall k s, m' !! k = Some [s] <-> m !! k = Some [s] \/ (s ∈ subs /\ sub_id_ s = k).
Proof.
  revert m. induction subs as [|x subs IH]; intros m Hnd Hfresh Hu.
  { exists m. split; [done|]. split; [done|]. intros k s. split; [by left|]. intros [?|[?%elem_of_nil _]]; done. }
  cbn [emplace_all map] in *. apply NoDup_cons in Hnd as [Hx Hnd]. unfold Keyless.emplace. rewrite Z.eqb_refl. cbn [assert_that obind].
  rewrite Insert_fresh by (apply Hfresh; by left). cbn [fst].
  destruct (IH (<[sub_id_ x := [x]]> m) Hnd) as (m' & E & Hu' & Hm').
  - intros s Hs. rewrite lookup_insert_ne; [apply Hfresh; by right|]. intros Hid. apply Hx. rewrite Hid. by apply list_elem_of_fmap_2.
  - by apply unique_insert.
  - exists m'. split; [done|]. split; [done|]. intros k s. rewrite Hm', elem_of_cons, lookup_insert_Some. split.
    + intros [[[<- [= <-]]|[_ ?]]|[? ?]]; auto.
    + intros [H|[[->|?] <-]]; [|left; by left|by right]. left. right. split; [|done]. intros <-.
      rewrite (Hfresh x ltac:(by left)) in H. done.
Qed.

(** ** The machine *)

Inductive client_action :=
| DoSubscribe (sub_id tenant : Z) (ns topic : slice) (seqno user_data : Z)
| DoRewind (old_sub_id new_sub_id seqno : Z)
| DoUnsubscribe (sub_id : Z)
| DoSetUserData (sub_id user_data : Z)
| SendSubscribe (sub_id : Z)
| SendUnsubscribe (sub_id : Z)
| Connected
| Disconnected
| HearUnsubscribe (sub_id reason : Z)
| HearDeliver (sub_id previous current : Z).

Definition run_client (a : client_action) (m : SubscriptionsMap) : outcome SubscriptionsMap :=
  match a with
  | DoSubscribe id tenant ns topic seqno user => Subscribe m id tenant ns topic seqno user
  | DoRewind old new seqno => Rewind m old new seqno
  | DoUnsubscribe id => Unsubscribe m id
  | DoSetUserData id user => SetUserData m id user
  | SendSubscribe id => DrainSubscription m id
  | SendUnsubscribe id => DrainUnsubscription m id
  | Connected => ConnectionCreated m
  | Disconnected => Ok (ConnectionDropped m)
  | HearUnsubscribe id reason => r <~ ReceiveUnsubscribe (fun s _ => Ok s) tt m id reason ;; Ok (fst r)
  | HearDeliver id previous current => r <~ ReceiveDeliver m id previous current ;; Ok (fst r)
  end.

(** An ID that was not used before: the allocator never repeats one. *)
Definition fresh (m : SubscriptionsMap) (id : Z) : Prop :=
  Find m id = None /\ (id ∉ pending_unsubscribes_ m) /\ (id ∉ known (events m)).

(** What the callers promise: new subscriptions have new IDs, others exist, the
    sources are drained while enabled, and the server speaks on the stream about
    subscriptions it was told of, with ordered sequence numbers. *)
Definition client_enabled (m : SubscriptionsMap) (a : client_action) : Prop :=
  match a with
  | DoSubscribe id _ _ _ _ _ => fresh m id
  | DoRewind old new _ => is_Some (Find m old) /\ fresh m new
  | DoUnsubscribe id | DoSetUserData id _ => is_Some (Find m id)
  | SendSubscribe id => read_enabled m = true /\ is_Some (Keyless.Find id (pending_subscriptions_ m))
  | SendUnsubscribe id => read_enabled m = true /\ id ∈ pending_unsubscribes_ m
  | Connected | Disconnected => True
  | HearUnsubscribe id _ => sink_ m = true /\ id ∈ known (events m)
  | HearDeliver id previous current => sink_ m = true /\ id ∈ known (events m) /\ previous <= current
  end.

Inductive client_runs : SubscriptionsMap -> list client_action -> SubscriptionsMap -> Prop :=
| client_runs_nil m : client_runs m [] m
| client_runs_cons m a acts m1 m' : client_enabled m a -> run_client a m = Ok m1 -> client_runs m1 acts m' -> client_runs m (a :: acts) m'.

(** A subscription as the server was told of it. *)
Definition told (m : MessageSubscribe) (s : SubscriptionBase) : Prop :=
  tenantid_ (sub_base m) = tenant_id s /\ sub_namespace_id_ m = namespace_id s /\ sub_topic_name_ m = topic_name_ s /\ sub_sub_id_ m = sub_id_ s.

Record client_ok (m : SubscriptionsMap) : Prop := {
  ck_pending : unique (pending_subscriptions_ m);
  ck_synced : unique (synced_subscriptions_ m);
  ck_apart : forall id s, Keyless.Find id (pending_subscriptions_ m) = Some s -> Keyless.Find id (synced_subscriptions_ m) = None;
  ck_sink : read_enabled m = true -> sink_ m = true;
  ck_unsent : forall id, id ∈ known (events m) -> Keyless.Find id (pending_subscriptions_ m) = None;
  ck_unsubscribes : forall id, id ∈ pending_unsubscribes_ m -> Find m id = None;
  ck_told : forall id s, Keyless.Find id (synced_subscriptions_ m) = Some s -> exists q, remote (events m) !! id = Some q /\ told q s;
  ck_remote : forall id q, remote (events m) !! id = Some q ->
    id ∈ known (events m) /\ (is_Some (Keyless.Find id (synced_subscriptions_ m)) \/ id ∈ pending_unsubscribes_ m)
}.

Lemma Find_insert m s k : Keyless.Find k (<[sub_id_ s := [s]]> m) = if decide (k = sub_id_ s) then Some s else Keyless.Find k m.
Proof.
  unfold Keyless.Find. case_decide as Hk; [subst; by rewrite lookup_insert_eq|by rewrite lookup_insert_ne by congruence].
Qed.

Lemma Find_update m id s k : sub_id_ s = id -> Keyless.Find k (<[id := [s]]> m) = if decide (k = id) then Some s else Keyless.Find k m.
Proof. intros <-. apply Find_insert. Qed.

Lemma Find_delete m i k : Keyless.Find k (delete i m) = if decide (k = i) then None else Keyless.Find k m.
Proof.
  unfold Keyless.Find. case_decide as Hk; [subst; by rewrite lookup_delete_eq|by rewrite lookup_delete_ne by congruence].
Qed.

Lemma Find_None m id : Find m id = None <-> Keyless.Find id (synced_subscriptions_ m) = None /\ Keyless.Find id (pending_subscriptions_ m) = None.
Proof. unfold Find. destruct (Keyless.Find id (synced_subscriptions_ m)); naive_solver. Qed.

Lemma New_client_ok : client_ok NewSubscriptionsMap.
Proof. split; try apply unique_empty; try done. Qed.

(** Updates of one subscription keep the relation when nothing but its user
    data and sequence number change. *)
Lemma client_ok_update m id s s' es : client_ok m -> sub_id_ s' = sub_id_ s -> (forall q, told q s -> told q s') ->
  Keyless.Find id (synced_subscriptions_ m) = Some s -> remote (events m ++ es) = remote (events m) -> known (events m ++ es) = known (events m) ->
  client_ok (with_maps (pending_subscriptions_ m) (Keyless.Update id s' (synced_subscriptions_ m)) (pending_unsubscribes_ m) es m).
Proof.
  intros [Hp Hs Ha Hsink Hun Hub Ht Hr] Hid Htold Hf Er Ek. rewrite (Update_unique _ id s s' Hs Hf).
  assert (sub_id_ s = id) as Hsid by (by eapply unique_id). rewrite <-Hsid, <-Hid.
  split; cbn; rewrite ?Er, ?Ek; try done.
  - by apply unique_insert.
  - intros k x Hk. rewrite Find_insert. case_decide as Hd; [|by eapply Ha]. subst k. specialize (Ha _ _ Hk). congruence.
  - intros k Hk. specialize (Hub k Hk). apply Find_None in Hub as [H1 H2]. apply Find_None. cbn. rewrite Find_insert.
    case_decide as Hd; [|done]. subst k. congruence.
  - intros k x. rewrite Find_insert. case_decide as Hd; [|apply Ht]. intros [= <-]. subst k.
    destruct (Ht (sub_id_ s') s ltac:(congruence)) as (q & Hq & Hq'). eauto.
  - intros k q Hk. destruct (Hr k q Hk) as [Hkn Hor]. split; [done|]. rewrite Find_insert. case_decide; [left; eauto|done].
Qed.

(** ** Steps *)

(** What the events mean for a subscription that expects [e]: updates start at
    or before [e] and end at or after it, and a request to the server, at first
    or on a new stream, asks for [e]. *)
Fixpoint track (id : Z) (es : list ClientEvent) (e : Z) : option Z :=
  match es with
  | [] => Some e
  | Delivered i previous current :: es =>
      if i =? id then
        if (previous <=? e) && (e <=? current) && (negb (e =? 0) || (previous =? 0)) then track id es (u64 (current + 1)) else None
      else track id es e
  | Write (Messages.Subscribe m) :: es =>
      if sub_sub_id_ m =? id then if start_seqno_ m =? e then track id es e else None else track id es e
  | _ :: es => track id es e
  end.

Lemma track_app id es es' e : track id (es ++ es') e = (e' ← track id es e; track id es' e').
Proof.
  revert e. induction es as [|x es IH]; intros e; [done|]. destruct x as [[]| | | |i p c|i|i]; cbn; auto; repeat (case_match; try done); auto.
Qed.

Definition keeps (m m' : SubscriptionsMap) (es : list ClientEvent) (id : Z) : Prop :=
  forall s, Find m id = Some s -> exists s', Find m' id = Some s' /\ track id es (expected_seqno_ s) = Some (expected_seqno_ s').

Definition client_concerns (a : client_action) (id : Z) : Prop :=
  match a with
  | DoRewind old _ _ => id = old
  | DoUnsubscribe i | HearUnsubscribe i _ => id = i
  | _ => False
  end.

Ltac solve_fields :=
  cbn; rewrite ?app_nil_r, ?remote_snoc, ?known_snoc; try done; cbn [hears learns]; try done.

Lemma add_pending_ok m s : client_ok m -> fresh m (sub_id_ s) ->
  client_ok (with_maps (<[sub_id_ s := [s]]> (pending_subscriptions_ m)) (synced_subscriptions_ m) (pending_unsubscribes_ m) [] m).
Proof.
  intros [Hp Hs Ha Hsink Hun Hub Ht Hr] ([Hf1 Hf2]%Find_None & Hu & Hk). split; solve_fields.
  - by apply unique_insert.
  - intros id x. rewrite Find_insert. case_decide as Hd; [by subst|]. apply Ha.
  - intros id Hid. rewrite Find_insert, decide_False by congruence. by apply Hun.
  - intros id Hid. specialize (Hub id Hid). apply Find_None in Hub as [H1 H2]. apply Find_None. cbn.
    by rewrite Find_insert, decide_False by congruence.
Qed.

Lemma drop_synced_ok m id s es : client_ok m -> Keyless.Find id (synced_subscriptions_ m) = Some s ->
  es = [] \/ (exists u, es = [Cleaned u]) ->
  client_ok (with_maps (pending_subscriptions_ m) (delete id (synced_subscriptions_ m)) ({[id]} ∪ pending_unsubscribes_ m) es m).
Proof.
  intros [Hp Hs Ha Hsink Hun Hub Ht Hr] Hf Hes.
  assert (remote (events m ++ es) = remote (events m) /\ known (events m ++ es) = known (events m)) as [Er Ek].
  { destruct Hes as [->|[u ->]]; [by rewrite app_nil_r|by rewrite remote_snoc, known_snoc]. }
  split; cbn; rewrite ?Er, ?Ek; try done.
  - by apply unique_delete.
  - intros k x Hk. rewrite Find_delete. case_decide; [done|]. by eapply Ha.
  - intros k Hk. apply Find_None. cbn. rewrite Find_delete. apply elem_of_union in Hk as [Hk|Hk].
    + apply elem_of_singleton in Hk as ->. rewrite decide_True by done. split; [done|].
      destruct (Keyless.Find id (pending_subscriptions_ m)) as [x|] eqn:E; [|done]. apply Ha in E. congruence.
    + specialize (Hub k Hk). apply Find_None in Hub as [H1 H2]. case_decide; done.
  - intros k x. rewrite Find_delete. case_decide; [done|]. apply Ht.
  - intros k q Hk. destruct (Hr k q Hk) as [Hkn Hor]. split; [done|]. rewrite Find_delete. case_decide as Hd; [right; set_solver|].
    destruct Hor; [by left|right; set_solver].
Qed.

Lemma drop_pending_ok m id s U es : client_ok m -> Keyless.Find id (pending_subscriptions_ m) = Some s ->
  U = pending_unsubscribes_ m \/ U = {[id]} ∪ pending_unsubscribes_ m -> es = [] \/ (exists u, es = [Cleaned u]) ->
  client_ok (with_maps (delete id (pending_subscriptions_ m)) (synced_subscriptions_ m) U es m).
Proof.
  intros [Hp Hs Ha Hsink Hun Hub Ht Hr] Hf HU Hes.
  assert (remote (events m ++ es) = remote (events m) /\ known (events m ++ es) = known (events m)) as [Er Ek].
  { destruct Hes as [->|[u ->]]; [by rewrite app_nil_r|by rewrite remote_snoc, known_snoc]. }
  split; cbn; rewrite ?Er, ?Ek; try done.
  - by apply unique_delete.
  - intros k x. rewrite Find_delete. case_decide; [done|]. apply Ha.
  - intros k Hk. rewrite Find_delete. case_decide; [done|]. by apply Hun.
  - intros k Hk. apply Find_None. cbn. rewrite Find_delete.
    assert (k = id \/ k ∈ pending_unsubscribes_ m) as [->|Hk'] by (destruct HU as [->| ->]; set_solver).
    + rewrite decide_True by done. split; [by eapply Ha|done].
    + specialize (Hub k Hk'). apply Find_None in Hub as [H1 H2]. case_decide; done.
  - intros k q Hk. destruct (Hr k q Hk) as [Hkn Hor]. split; [done|]. destruct Hor; [by left|right]. destruct HU as [->| ->]; set_solver.
Qed.

Lemma keeps_Find m m' es id : (forall e, track id es e = Some e) -> Find m' id = Find m id -> keeps m m' es id.
Proof. intros Ht Hf s Hs. exists s. by rewrite Hf, Ht. Qed.

Lemma Subscribe_ok m id tenant ns topic seqno user : client_ok m -> fresh m id ->
  exists m', Subscribe m id tenant ns topic seqno user = Ok m' /\ client_ok m' /\ events m' = events m /\
    Find m' id = Some {| tenant_id := tenant; namespace_id := ns; topic_name_ := topic; sub_id_ := id; expected_seqno_ := seqno; user_data_ := user |} /\
    forall id', id' <> id -> Find m' id' = Find m id'.
Proof.
  intros Hm Hf. unfold Subscribe. set (s := {| tenant_id := tenant |}). unfold Keyless.emplace. cbn [sub_id_]. rewrite Z.eqb_refl. cbn [assert_that obind].
  pose proof Hf as ([Hf1 Hf2]%Find_None & _). apply (unique_Find_None _ _ (ck_pending _ Hm)) in Hf2.
  rewrite (Insert_fresh _ s) by exact Hf2. cbn [assert_that obind]. eexists. split; [done|]. split; [by apply (add_pending_ok m s)|].
  split; [cbn; by rewrite app_nil_r|]. unfold Find. cbn. rewrite Hf1. split.
  - by rewrite (Find_insert _ s), decide_True.
  - intros id' Hne. by rewrite (Find_insert _ s), decide_False.
Qed.

Lemma Unsubscribe_ok m id x : client_ok m -> Find m id = Some x ->
  exists m', Unsubscribe m id = Ok m' /\ client_ok m' /\ events m' = events m ++ [Cleaned (user_data_ x)] /\ Find m' id = None /\
    forall id', id' <> id -> Find m' id' = Find m id'.
Proof.
  intros Hm Hx. unfold Unsubscribe. destruct (Keyless.Find id (synced_subscriptions_ m)) as [s|] eqn:Es.
  - assert (s = x) as -> by (unfold Find in Hx; rewrite Es in Hx; congruence). rewrite (Erase_unique _ _ _ (ck_synced _ Hm) Es). eexists _. split; [done|].
    split; [apply (drop_synced_ok m id x _ Hm Es); right; by exists (user_data_ x)|]. split; [done|].
    unfold Find. cbn. rewrite Find_delete, decide_True by done. split.
    + destruct (Keyless.Find id (pending_subscriptions_ m)) as [y|] eqn:Ep; [|done]. apply (ck_apart _ Hm) in Ep. congruence.
    + intros id' Hne. by rewrite Find_delete, decide_False.
  - unfold Find in Hx. rewrite Es in Hx. rewrite Hx, (Erase_unique _ _ _ (ck_pending _ Hm) Hx). eexists _. split; [done|].
    split; [apply (drop_pending_ok m id x _ _ Hm Hx); [by left|right; by exists (user_data_ x)]|]. split; [done|].
    unfold Find. cbn. rewrite Es, Find_delete, decide_True by done. split; [done|]. intros id' Hne. by rewrite Find_delete, decide_False.
Qed.

Lemma with_maps_twice p1 s1 u1 p2 s2 u2 m : with_maps p2 s2 u2 [] (with_maps p1 s1 u1 [] m) = with_maps p2 s2 u2 [] m.
Proof. unfold with_maps. cbn. by rewrite !app_nil_r. Qed.

Definition rewound (new seqno : Z) (s : SubscriptionBase) : SubscriptionBase :=
  {| tenant_id := tenant_id s; namespace_id := namespace_id s; topic_name_ := topic_name_ s; sub_id_ := new; expected_seqno_ := seqno; user_data_ := user_data_ s |}.

Lemma Rewind_ok m old new seqno s : client_ok m -> Find m old = Some s -> fresh m new ->
  exists m', Rewind m old new seqno = Ok m' /\ client_ok m' /\ events m' = events m /\ Find m' old = None /\
    Find m' new = Some (rewound new seqno s) /\ old ∈ pending_unsubscribes_ m' /\
    forall id, id <> old -> id <> new -> Find m' id = Find m id.
Proof.
  intros Hm Hx Hf. assert (new <> old) as Hne by (intros ->; destruct Hf; congruence).
  unfold Rewind. rewrite Hx, (proj2 (Z.eqb_neq _ _) Hne). cbn [negb assert_that obind].
  set (U := {[old]} ∪ ({[old]} ∪ pending_unsubscribes_ m)).
  assert (U = {[old]} ∪ pending_unsubscribes_ m) as HU by (unfold U; set_solver).
  pose proof Hf as ([Hn1 Hn2]%Find_None & Hnu & Hnk).
  assert (forall pending synced x, client_ok (with_maps pending synced U [] m) -> Keyless.Find new pending = None -> Keyless.Find new synced = None ->
    x = rewound new seqno s -> Keyless.Find old pending = None -> Keyless.Find old synced = None ->
    (forall id, id <> old -> id <> new -> match Keyless.Find id synced with Some y => Some y | None => Keyless.Find id pending end = Find m id) ->
    exists m', (r <~ Keyless.emplace new x pending ;; let '(pending, inserted) := r in assert_that inserted "inserted" ;;;
      Ok (with_maps pending synced U [] m)) = Ok m' /\ client_ok m' /\ events m' = events m /\ Find m' old = None /\
      Find m' new = Some (rewound new seqno s) /\ old ∈ pending_unsubscribes_ m' /\
      forall id, id <> old -> id <> new -> Find m' id = Find m id) as Hgo.
  { intros pending synced x Hok Hp1 Hs1 Hx' Hp2 Hs2 Hothers. assert (sub_id_ x = new) as Hid by (by subst x). unfold Keyless.emplace. rewrite Hid, Z.eqb_refl. cbn [assert_that obind].
    rewrite (Insert_fresh pending x) by (rewrite Hid; by apply (unique_Find_None _ _ (ck_pending _ Hok))). cbn [assert_that obind].
    eexists. split; [done|]. split.
    { rewrite <-(with_maps_twice pending synced U). apply (add_pending_ok _ x Hok). split; [by apply Find_None; rewrite Hid|].
      cbn. rewrite app_nil_r, Hid, HU. split; [set_solver|done]. }
    split; [cbn; by rewrite app_nil_r|]. unfold Find. cbn. rewrite Hs1, Hs2, !Find_insert, Hid. rewrite decide_False, decide_True by congruence.
    split; [done|]. split; [by rewrite Hx'|]. split; [unfold U; set_solver|]. intros id H1 H2.
    rewrite Find_update, decide_False by done. by apply Hothers. }
  destruct (Keyless.Find old (synced_subscriptions_ m)) as [y|] eqn:Es.
  - assert (y = s) as -> by (unfold Find in Hx; rewrite Es in Hx; congruence). cbn [obind]. unfold SubscriptionBase_Rewind. rewrite (unique_id _ _ _ (ck_synced _ Hm) Es), (proj2 (Z.eqb_neq old new)) by congruence.
    cbn [negb assert_that obind]. rewrite (Erase_unique _ _ _ (ck_synced _ Hm) Es). apply Hgo; try done.
    + rewrite HU. apply (drop_synced_ok m old s [] Hm Es). by left.
    + by rewrite Find_delete, decide_False.
    + destruct (Keyless.Find old (pending_subscriptions_ m)) as [z|] eqn:Ep; [|done]. apply (ck_apart _ Hm) in Ep. congruence.
    + by rewrite Find_delete, decide_True.
    + intros id H1 _. by rewrite Find_delete, decide_False.
  - unfold Find in Hx. rewrite Es in Hx. rewrite Hx. cbn [obind]. unfold SubscriptionBase_Rewind.
    rewrite (unique_id _ _ _ (ck_pending _ Hm) Hx), (proj2 (Z.eqb_neq old new)) by congruence. cbn [negb assert_that obind].
    rewrite (Erase_unique _ _ _ (ck_pending _ Hm) Hx). apply Hgo; try done.
    + apply (drop_pending_ok m old s U [] Hm Hx); [by right|by left].
    + by rewrite Find_delete, decide_False.
    + by rewrite Find_delete, decide_True.
    + intros id H1 _. rewrite Find_delete, decide_False by done. done.
Qed.

(** An object that is changed in place. *)
Lemma client_ok_update_pending m id s s' : client_ok m -> sub_id_ s' = sub_id_ s -> Keyless.Find id (pending_subscriptions_ m) = Some s ->
  client_ok (with_maps (Keyless.Update id s' (pending_subscriptions_ m)) (synced_subscriptions_ m) (pending_unsubscribes_ m) [] m).
Proof.
  intros [Hp Hs Ha Hsink Hun Hub Ht Hr] Hid Hf. rewrite (Update_unique _ id s s' Hp Hf).
  assert (sub_id_ s' = id) as Hsid by (rewrite Hid; by apply (unique_id _ _ _ Hp Hf)). split; solve_fields.
  - rewrite <-Hsid. by apply unique_insert.
  - intros k x. rewrite (Find_update _ id s') by done. case_decide as Hd; [subst k; intros _; by eapply Ha|apply Ha].
  - intros k Hk. specialize (Hun k Hk). rewrite (Find_update _ id s') by done. case_decide; [congruence|done].
  - intros k Hk. specialize (Hub k Hk). apply Find_None in Hub as [H1 H2]. apply Find_None. cbn.
    rewrite (Find_update _ id s') by done. case_decide; [congruence|done].
Qed.

Lemma SetUserData_ok m id u s : client_ok m -> Find m id = Some s ->
  exists m', SetUserData m id u = Ok m' /\ client_ok m' /\ events m' = events m /\
    Find m' id = Some (SubscriptionBase_SetUserData u s) /\ forall id', id' <> id -> Find m' id' = Find m id'.
Proof.
  intros Hm Hx. unfold SetUserData, Find in *. destruct (Keyless.Find id (synced_subscriptions_ m)) as [y|] eqn:Es.
  - injection Hx as ->. eexists. split; [done|].
    split; [apply (client_ok_update m id s _ []); rewrite ?app_nil_r; try done; by intros q|].
    split; [cbn; by rewrite app_nil_r|]. cbn. rewrite (Update_unique _ _ _ _ (ck_synced _ Hm) Es).
    assert (sub_id_ (SubscriptionBase_SetUserData u s) = id) as Hid by (by apply (unique_id _ _ _ (ck_synced _ Hm) Es)).
    split; [by rewrite Find_update, decide_True|]. intros id' Hne. by rewrite Find_update, decide_False.
  - rewrite Hx. eexists. split; [done|]. split; [by apply (client_ok_update_pending m id s)|].
    split; [cbn; by rewrite app_nil_r|]. cbn. rewrite (Update_unique _ _ _ _ (ck_pending _ Hm) Hx), Es.
    assert (sub_id_ (SubscriptionBase_SetUserData u s) = id) as Hid by (by apply (unique_id _ _ _ (ck_pending _ Hm) Hx)).
    split; [by rewrite Find_update, decide_True|]. intros id' Hne. by rewrite Find_update, decide_False.
Qed.

Lemma DrainSubscription_ok m id s : client_ok m -> sink_ m = true -> Keyless.Find id (pending_subscriptions_ m) = Some s ->
  exists m' q, DrainSubscription m id = Ok m' /\ client_ok m' /\ events m' = events m ++ [Write (Messages.Subscribe q)] /\
    sub_sub_id_ q = id /\ start_seqno_ q = expected_seqno_ s /\ read_enabled m' = read_enabled m /\
    pending_subscriptions_ m' = delete id (pending_subscriptions_ m) /\ pending_unsubscribes_ m' = pending_unsubscribes_ m /\
    forall id', Find m' id' = Find m id'.
Proof.
  intros Hm Hk Hx. pose proof Hm as [Hp Hs Ha Hsink Hun Hub Ht Hr]. pose proof (unique_id _ _ _ Hp Hx) as Hid.
  pose proof (Ha id s Hx) as Hns. unfold DrainSubscription, HandlePendingSubscription. rewrite Hx. cbn [with_maps sink_ synced_subscriptions_]. rewrite Hk.
  cbn [assert_that obind]. rewrite (Insert_fresh _ s) by (rewrite Hid; by apply unique_Find_None). cbn [assert_that obind].
  rewrite (Erase_unique _ _ _ Hp Hx), Hid. eexists _, _. split; [done|]. split; [|cbn; rewrite app_nil_r; split_and!; try done].
  - split; cbn; rewrite ?app_nil_r, ?remote_snoc, ?known_snoc; cbn [hears learns sub_sub_id_]; try done.
    + by apply unique_delete.
    + rewrite <-Hid. by apply unique_insert.
    + intros k x. rewrite Find_delete. case_decide as Hd; [done|]. intros Hk'. rewrite (Find_update _ id s), decide_False by done. by eapply Ha.
    + intros k Hk'. rewrite Find_delete. case_decide as Hd; [done|]. apply Hun. set_solver.
    + intros k Hk'. specialize (Hub k Hk'). apply Find_None in Hub as [H1 H2]. apply Find_None. cbn.
      rewrite Find_delete, (Find_update _ id s) by done. case_decide as Hd; [subst; congruence|done].
    + intros k x. rewrite (Find_update _ id s) by done. case_decide as Hd.
      * intros [= <-]. subst k. eexists. rewrite lookup_insert_eq. split; [done|]. done.
      * intros Hk'. rewrite lookup_insert_ne by done. by apply Ht.
    + intros k q. rewrite (Find_update _ id s) by done. rewrite lookup_insert_Some. intros [[<- _]|[Hne Hq]].
      * rewrite decide_True by done. split; [set_solver|left; eauto].
      * rewrite decide_False by done. destruct (Hr k q Hq) as [? ?]. split; [set_solver|done].
  - intros id'. unfold Find. cbn. rewrite Find_delete, (Find_update _ id s) by done. case_decide as Hd; [|done]. subst id'. by rewrite Hns.
Qed.

Lemma DrainUnsubscription_ok m id : client_ok m -> sink_ m = true -> id ∈ pending_unsubscribes_ m ->
  exists m' q, DrainUnsubscription m id = Ok m' /\ client_ok m' /\ events m' = events m ++ [Write (Messages.Unsubscribe q)] /\
    read_enabled m' = read_enabled m /\ pending_subscriptions_ m' = pending_subscriptions_ m /\
    pending_unsubscribes_ m' = pending_unsubscribes_ m ∖ {[id]} /\ forall id', Find m' id' = Find m id'.
Proof.
  intros Hm Hk Hx. pose proof Hm as [Hp Hs Ha Hsink Hun Hub Ht Hr].
  unfold DrainUnsubscription, HandlePendingUnsubscription. rewrite decide_True by done. cbn [with_maps sink_]. rewrite Hk.
  cbn [assert_that obind]. eexists _, _. split; [done|]. split; [|cbn; by rewrite app_nil_r].
  split; cbn; rewrite ?app_nil_r, ?remote_snoc, ?known_snoc; cbn [hears learns unsub_sub_id_]; try done.
  - intros k Hk'. apply Hub. set_solver.
  - intros k x Hk'. rewrite lookup_delete_ne; [by apply Ht|]. intros <-. specialize (Hub id Hx). apply Find_None in Hub as [H1 _]. congruence.
  - intros k q [Hne Hq]%lookup_delete_Some. destruct (Hr k q Hq) as [? [?|?]]; split; auto. right. set_solver.
Qed.

Lemma ConnectionCreated_ok m : client_ok m -> exists m', ConnectionCreated m = Ok m' /\ client_ok m' /\
  events m' = events m ++ [NewStream] /\ forall id, Find m' id = Find m id.
Proof.
  intros [Hp Hs Ha Hsink Hun Hub Ht Hr]. unfold ConnectionCreated.
  assert (forall A B, unique A -> unique B -> (forall id s, Keyless.Find id A = Some s -> Keyless.Find id B = None) ->
    (forall id, Find m id = match Keyless.Find id A with Some s => Some s | None => Keyless.Find id B end) ->
    exists m', (pending <~ emplace_all (Keyless.values B) A ;;
      Ok {| pending_subscriptions_ := pending; synced_subscriptions_ := ∅; pending_unsubscribes_ := ∅; sink_ := true;
            read_enabled := true; events := events m ++ [NewStream] |}) = Ok m' /\ client_ok m' /\
      events m' = events m ++ [NewStream] /\ forall id, Find m' id = Find m id) as Hgo.
  { intros A B HA HB Hab Hf. destruct (emplace_all_spec (Keyless.values B) A) as (C & -> & HC & Hin); [by apply values_ids_NoDup| |done|].
    { intros s Hv%(values_elem B s HB). apply (unique_Find_None _ _ HA). apply (unique_Find _ _ _ HB) in Hv.
      destruct (Keyless.Find (sub_id_ s) A) as [x|] eqn:E; [|done]. apply Hab in E. congruence. }
    cbn [obind]. eexists. split; [done|]. split; [|split; [done|]].
    - split; cbn; rewrite ?remote_snoc, ?known_snoc; cbn [hears learns]; try done.
    - intros id. rewrite Hf. unfold Find. cbn.
      assert (forall s, Keyless.Find id C = Some s <-> Keyless.Find id A = Some s \/ Keyless.Find id B = Some s) as HCf.
      { intros s. rewrite (unique_Find C), (unique_Find A), (unique_Find B), Hin, values_elem by done. split.
        - intros [?|[Hv <-]]; auto.
        - intros [?|Hv]; [by left|right]. destruct (HB _ _ Hv) as (s' & [= <-] & Hid). by rewrite Hid. }
      destruct (Keyless.Find id A) as [x|] eqn:EA; [by apply HCf; left|].
      destruct (Keyless.Find id B) as [x|] eqn:EB; [by apply HCf; right|].
      destruct (Keyless.Find id C) as [x|]; [|done]. by destruct (proj1 (HCf x) eq_refl). }
  destruct (_ <? _)%nat; apply Hgo; try done.
  - intros id s Hid. destruct (Keyless.Find id (pending_subscriptions_ m)) as [x|] eqn:E; [|done]. apply Ha in E. congruence.
  - intros id. unfold Find. destruct (Keyless.Find id (pending_subscriptions_ m)) as [x|] eqn:E; [by rewrite (Ha _ _ E)|].
    by destruct (Keyless.Find id (synced_subscriptions_ m)).
Qed.

Lemma ConnectionDropped_ok m : client_ok m -> client_ok (ConnectionDropped m).
Proof. intros [Hp Hs Ha Hsink Hun Hub Ht Hr]. split; cbn; rewrite ?remote_snoc, ?known_snoc; done. Qed.

Lemma ReceiveUnsubscribe_ok m id reason : client_ok m -> id ∈ known (events m) ->
  exists m' es, ReceiveUnsubscribe (fun s _ => Ok s) tt m id reason = Ok (m', tt) /\ client_ok m' /\ events m' = events m ++ es /\
    (es = [] \/ es = [Terminated id] \/ es = [EndIgnored id]) /\ forall id', id' <> id -> Find m' id' = Find m id'.
Proof.
  intros Hm Hk. pose proof Hm as [Hp Hs Ha Hsink Hun Hub Ht Hr]. unfold ReceiveUnsubscribe.
  destruct (_ || _); [|exists m, []; rewrite app_nil_r; split_and!; by auto]. rewrite bool_decide_eq_true_2 by (by apply Hun). cbn [assert_that obind].
  destruct (Keyless.Find id (synced_subscriptions_ m)) as [s|] eqn:Es; cbn [obind]; eexists _, _; (split; [done|]).
  - rewrite (Erase_unique _ _ _ Hs Es). split; [|split; [done|split; [by right; left|]]].
    + split; cbn; rewrite ?remote_snoc, ?known_snoc; cbn [hears learns]; try done.
      * by apply unique_delete.
      * intros k x Hk'. rewrite Find_delete. case_decide; [done|]. by eapply Ha.
      * intros k Hk'. specialize (Hub k Hk'). apply Find_None in Hub as [H1 H2]. apply Find_None. cbn. rewrite Find_delete. by case_decide.
      * intros k x. rewrite Find_delete. case_decide as Hd; [done|]. rewrite lookup_delete_ne by done. apply Ht.
      * intros k q [Hne Hq]%lookup_delete_Some. rewrite Find_delete, decide_False by done. by apply (Hr k q).
    + intros id' Hne. unfold Find. cbn. by rewrite Find_delete, decide_False.
  - split; [|split; [done|split; [by right; right|done]]]. split; cbn; rewrite ?remote_snoc, ?known_snoc; cbn [hears learns]; try done.
    + intros k x Hk'. rewrite lookup_delete_ne by congruence. by apply Ht.
    + intros k q [Hne Hq]%lookup_delete_Some. by apply (Hr k q).
Qed.

Lemma ReceiveDeliver_ok m id previous current : client_ok m -> id ∈ known (events m) -> previous <= current ->
  exists m' b es, ReceiveDeliver m id previous current = Ok (m', b) /\ client_ok m' /\ events m' = events m ++ es /\
    (forall id', id' <> id -> Find m' id' = Find m id' /\ forall e, track id' es e = Some e) /\ keeps m m' es id.
Proof.
  intros Hm Hk Hle. pose proof Hm as [Hp Hs Ha Hsink Hun Hub Ht Hr]. unfold ReceiveDeliver.
  rewrite bool_decide_eq_true_2 by (by apply Hun). cbn [assert_that obind].
  assert (exists m' b es, Ok (m, false) = Ok (m', b) /\ client_ok m' /\ events m' = events m ++ es /\
    (forall id', id' <> id -> Find m' id' = Find m id' /\ forall e, track id' es e = Some e) /\ keeps m m' es id) as Hsame.
  { exists m, false, []. rewrite app_nil_r. split_and!; try done. by apply keeps_Find. }
  destruct (Keyless.Find id (synced_subscriptions_ m)) as [s|] eqn:Es; [|done].
  unfold ProcessUpdate. rewrite (proj2 (Z.leb_le _ _) Hle). cbn [assert_that obind]. destruct (_ || _) eqn:Et; cbn [obind]; [done|]. clear Hsame.
  repeat (apply orb_false_iff in Et as [Et ?]). assert (sub_id_ s = id) as Hid by (by apply (unique_id _ _ _ Hs Es)).
  eexists _, true, [Delivered id previous current]. split; [done|].
  split; [apply (client_ok_update m id s); rewrite ?remote_snoc, ?known_snoc; try done; by intros q|]. split; [done|].
  set (s' := set_expected (u64 (current + 1)) s). assert (sub_id_ s' = id) as Hid' by done.
  assert (forall k, Find (with_maps (pending_subscriptions_ m) (Keyless.Update id s' (synced_subscriptions_ m)) (pending_unsubscribes_ m)
    [Delivered id previous current] m) k = if decide (k = id) then Some s' else Find m k) as Hfind.
  { intros k. unfold Find. cbn. rewrite (Update_unique _ _ _ _ Hs Es), (Find_update _ id s') by done. by case_decide. }
  split.
  - intros id' Hne. rewrite Hfind, decide_False by done. split; [done|]. intros e. cbn. by rewrite (proj2 (Z.eqb_neq id id')) by congruence.
  - intros x Hx. unfold Find in Hx. rewrite Es in Hx. injection Hx as <-. exists s'. rewrite Hfind, decide_True by done. split; [done|].
    cbn. rewrite Z.eqb_refl. apply Z.ltb_ge in H, H0. rewrite (proj2 (Z.leb_le _ _) H), (proj2 (Z.leb_le _ _) H0).
    cbn [andb]. destruct (expected_seqno_ s =? 0); [|done]. cbn in *. destruct (previous =? 0); done.
Qed.

Lemma ReceiveUnsubscribe_cases m id reason : client_ok m -> id ∈ known (events m) ->
  exists m' es, client_ok m' /\ events m' = events m ++ es /\ (forall id', id' <> id -> Find m' id' = Find m id') /\
    ((is_Some (Find m id) /\ Find m' id = None /\ forall S (cb : S -> SubscriptionsMap -> outcome S) s,
        ReceiveUnsubscribe cb s m id reason = (s' <~ cb s m ;; Ok (m', s'))) \/
     (Find m' id = Find m id /\ forall S (cb : S -> SubscriptionsMap -> outcome S) s, ReceiveUnsubscribe cb s m id reason = Ok (m', s))).
Proof.
  intros Hm Hk. destruct (ReceiveUnsubscribe_ok m id reason Hm Hk) as (m' & es & E & Hm' & He & _ & Hf). exists m', es. split_and!; try done.
  pose proof (ck_unsent _ Hm id Hk) as Hp. unfold ReceiveUnsubscribe in *. destruct (_ || _); [|right; split; [by simplify_eq|by intros; simplify_eq]].
  rewrite bool_decide_eq_true_2 in * by done. cbn [assert_that obind] in *.
  destruct (Keyless.Find id (synced_subscriptions_ m)) as [b|] eqn:Es; cbn [obind] in E; injection E as <-.
  - left. unfold Find. cbn. rewrite Es. split; [by eexists|]. split; [|done].
    by rewrite (Erase_unique _ _ _ (ck_synced _ Hm) Es), Find_delete, decide_True.
  - right. done.
Qed.

(** An update is dropped, or the subscription takes it. *)
Lemma ReceiveDeliver_cases m id previous current : client_ok m -> id ∈ known (events m) -> previous <= current ->
  ReceiveDeliver m id previous current = Ok (m, false) \/
  exists m' s, ReceiveDeliver m id previous current = Ok (m', true) /\ client_ok m' /\ Find m id = Some s /\
    (expected_seqno_ s = 0 -> previous = 0) /\ previous <= expected_seqno_ s <= current /\
    events m' = events m ++ [Delivered id previous current] /\ pending_unsubscribes_ m' = pending_unsubscribes_ m /\
    Find m' id = Some (set_expected (u64 (current + 1)) s) /\ forall id', id' <> id -> Find m' id' = Find m id'.
Proof.
  intros Hm Hk Hle. pose proof Hm as [Hp Hs Ha Hsink Hun Hub Ht Hr]. unfold ReceiveDeliver.
  rewrite bool_decide_eq_true_2 by (by apply Hun). cbn [assert_that obind]. destruct (Keyless.Find id (synced_subscriptions_ m)) as [s|] eqn:Es; [|by left].
  unfold ProcessUpdate. rewrite (proj2 (Z.leb_le _ _) Hle). cbn [assert_that obind]. destruct (_ || _) eqn:Et; cbn [obind]; [by left|right].
  repeat (apply orb_false_iff in Et as [Et ?]). assert (sub_id_ s = id) as Hid by (by apply (unique_id _ _ _ Hs Es)).
  set (s' := set_expected (u64 (current + 1)) s). eexists _, s. split; [done|].
  split; [apply (client_ok_update m id s); rewrite ?remote_snoc, ?known_snoc; try done; by intros q|].
  split; [unfold Find; by rewrite Es|]. split; [lia|]. split; [lia|]. split; [done|]. split; [done|].
  unfold Find. cbn. rewrite (Update_unique _ _ _ _ Hs Es), (Find_update _ id s') by done. rewrite decide_True by done. split; [done|].
  intros id' Hne. by rewrite (Find_update _ id s'), decide_False by done.
Qed.

(** One action: it completes, keeps the invariant, and every subscription it
    does not replace or end is kept, with the sequence number it expects. *)
Lemma client_step m a : client_ok m -> client_enabled m a ->
  exists m' es, run_client a m = Ok m' /\ client_ok m' /\ events m' = events m ++ es /\
    forall id, ~ client_concerns a id -> keeps m m' es id.
Proof.
  intros Hm Hen.
  assert (forall m', events m' = events m -> (forall id, ~ client_concerns a id -> Find m id <> None -> Find m' id = Find m id) ->
    exists es, events m' = events m ++ es /\ forall id, ~ client_concerns a id -> keeps m m' es id) as Hquiet.
  { intros m' He Hf. exists []. rewrite app_nil_r. split; [done|]. intros id Hid s Hs. exists s. by rewrite Hf by congruence. }
  destruct a as [id tenant ns topic seqno user|old new seqno|id|id user|id|id| | |id reason|id previous current];
    cbn [run_client client_enabled client_concerns] in *.
  - destruct (Subscribe_ok m id tenant ns topic seqno user Hm Hen) as (m' & E & Hm' & He & _ & Hf).
    destruct (Hquiet m' He) as (es & He' & Hk); [intros k _ Hk; apply Hf; destruct Hen; congruence|]. by exists m', es.
  - destruct Hen as [[s Hs] Hfr]. destruct (Rewind_ok m old new seqno s Hm Hs Hfr) as (m' & E & Hm' & He & _ & _ & _ & Hf).
    destruct (Hquiet m' He) as (es & He' & Hk); [intros k Hk Hk'; apply Hf; [done|destruct Hfr; congruence]|]. by exists m', es.
  - destruct Hen as [x Hx]. destruct (Unsubscribe_ok m id x Hm Hx) as (m' & E & Hm' & He & _ & Hf). exists m', [Cleaned (user_data_ x)]. split_and!; try done.
    intros k Hk. by apply keeps_Find; [|apply Hf].
  - destruct Hen as [s Hs]. destruct (SetUserData_ok m id user s Hm Hs) as (m' & E & Hm' & He & Hid & Hf). exists m', []. rewrite app_nil_r.
    split_and!; try done. intros k _ x Hx. destruct (decide (k = id)) as [->|Hne]; [|exists x; by rewrite Hf].
    rewrite Hs in Hx. injection Hx as <-. by eexists.
  - destruct Hen as [Hr [s Hs]]. destruct (DrainSubscription_ok m id s Hm (ck_sink _ Hm Hr) Hs) as (m' & q & E & Hm' & He & Hq & Hseq & _ & _ & _ & Hf).
    exists m', [Write (Messages.Subscribe q)]. split_and!; try done. intros k _ x Hx. exists x. rewrite Hf. split; [done|]. cbn. rewrite Hq.
    case_bool; [|done]. subst k. unfold Find in Hx. rewrite (ck_apart _ Hm _ _ Hs) in Hx. rewrite Hs in Hx. injection Hx as <-.
    by rewrite Hseq, Z.eqb_refl.
  - destruct Hen as [Hr Hu]. destruct (DrainUnsubscription_ok m id Hm (ck_sink _ Hm Hr) Hu) as (m' & q & E & Hm' & He & _ & _ & _ & Hf).
    exists m', [Write (Messages.Unsubscribe q)]. split_and!; try done. intros k _. by apply keeps_Find.
  - destruct (ConnectionCreated_ok m Hm) as (m' & E & Hm' & He & Hf). exists m', [NewStream]. split_and!; try done. intros k _. by apply keeps_Find.
  - exists (ConnectionDropped m), [StreamClosed]. split_and!; try done; [by apply ConnectionDropped_ok|]. intros k _. by apply keeps_Find.
  - destruct Hen as [_ Hk]. destruct (ReceiveUnsubscribe_ok m id reason Hm Hk) as (m' & es & -> & Hm' & He & Hes & Hf). cbn [obind fst].
    exists m', es. split_and!; try done. intros k Hne. apply keeps_Find; [|by apply Hf]. by destruct Hes as [->|[->| ->]].
  - destruct Hen as (_ & Hk & Hle). destruct (ReceiveDeliver_ok m id previous current Hm Hk Hle) as (m' & b & es & -> & Hm' & He & Hf & Hkeep).
    cbn [obind fst]. exists m', es. split_and!; try done. intros k _. destruct (decide (k = id)) as [->|Hne]; [done|].
    destruct (Hf k Hne). by apply keeps_Find.
Qed.

Definition stream_action (a : client_action) : Prop :=
  match a with SendSubscribe _ | SendUnsubscribe _ | Connected | Disconnected => True | _ => False end.

(** IDs that an action does not bring in stay fresh. *)
Definition brings (a : client_action) (id : Z) : Prop :=
  match a with
  | DoSubscribe i _ _ _ _ _ | DoRewind _ i _ => id = i
  | _ => False
  end.

Lemma fresh_kept m m' es i : fresh m i -> Find m' i = Find m i -> events m' = events m ++ es -> (i ∉ known (events m ++ es)) ->
  (i ∉ pending_unsubscribes_ m') -> fresh m' i.
Proof. intros (Hf & _ & _) Hfind He Hk Hu. unfold fresh. by rewrite Hfind, He. Qed.

Lemma brings_fresh m a m' i : client_ok m -> client_enabled m a -> run_client a m = Ok m' -> ~ brings a i -> fresh m i -> fresh m' i.
Proof.
  intros Hm Hen E Hb Hi. pose proof Hi as (Hif & Hiu & Hik).
  destruct a as [id tenant ns topic seqno user|old new seqno|id|id user|id|id| | |id reason|id previous current]; cbn [run_client client_enabled brings] in *.
  - destruct (Subscribe_ok m id tenant ns topic seqno user Hm Hen) as (m2 & E2 & _ & He & _ & Hf). rewrite E in E2. injection E2 as <-.
    apply (fresh_kept m m' []); [done|by apply Hf|by rewrite He, app_nil_r|by rewrite app_nil_r|].
    revert E. unfold Subscribe, Keyless.emplace. destruct (_ =? _); [|done]. cbn [assert_that obind]. destruct (Keyless.Insert _ _) as [p []]; [|done].
    cbn. by intros [= <-].
  - destruct Hen as [[s Hs] Hfr]. destruct (Rewind_ok m old new seqno s Hm Hs Hfr) as (m2 & E2 & _ & He & _ & _ & _ & Hf). rewrite E in E2. injection E2 as <-.
    assert (i <> old) as Hne by (intros ->; congruence). apply (fresh_kept m m' []); [done|by apply Hf|by rewrite He, app_nil_r|by rewrite app_nil_r|].
    revert E. unfold Rewind. rewrite Hs. destruct (negb _); [|done]. cbn [assert_that obind].
    destruct (match Keyless.Find old (synced_subscriptions_ m) with Some _ => _ | None => _ end) as [[[p q] st]|]; [|done]. cbn [obind].
    destruct (SubscriptionBase_Rewind _ _ _); [|done]. cbn [obind]. destruct (Keyless.emplace _ _ _) as [[p2 []]|]; [| |done]; cbn; [|done]. intros [= <-]. cbn. set_solver.
  - destruct Hen as [x Hx]. destruct (Unsubscribe_ok m id x Hm Hx) as (m2 & E2 & _ & He & _ & Hf). rewrite E in E2. injection E2 as <-.
    assert (i <> id) as Hne by (intros ->; congruence). apply (fresh_kept m m' [Cleaned (user_data_ x)]); [done|by apply Hf|done|by rewrite known_snoc|].
    revert E. unfold Unsubscribe. repeat case_match; intros [= <-]; cbn; set_solver.
  - destruct Hen as [s Hs]. destruct (SetUserData_ok m id user s Hm Hs) as (m2 & E2 & _ & He & _ & Hf). rewrite E in E2. injection E2 as <-.
    assert (i <> id) as Hne by (intros ->; congruence). apply (fresh_kept m m' []); [done|by apply Hf|by rewrite He, app_nil_r|by rewrite app_nil_r|].
    revert E. unfold SetUserData. repeat case_match; by intros [= <-].
  - destruct Hen as [Hr [s Hs]]. destruct (DrainSubscription_ok m id s Hm (ck_sink _ Hm Hr) Hs) as (m2 & q & E2 & _ & He & Hq & _ & _ & _ & Hu & Hf).
    rewrite E in E2. injection E2 as <-. assert (i <> id) as Hne by (intros ->; apply Find_None in Hif; destruct Hif; congruence).
    apply (fresh_kept m m' [Write (Messages.Subscribe q)]); [done|by apply Hf|done|rewrite known_snoc; cbn; set_solver|by rewrite Hu].
  - destruct Hen as [Hr Hu]. destruct (DrainUnsubscription_ok m id Hm (ck_sink _ Hm Hr) Hu) as (m2 & q & E2 & _ & He & _ & _ & Hu2 & Hf).
    rewrite E in E2. injection E2 as <-. apply (fresh_kept m m' [Write (Messages.Unsubscribe q)]); [done|by apply Hf|done|by rewrite known_snoc|rewrite Hu2; set_solver].
  - destruct (ConnectionCreated_ok m Hm) as (m2 & E2 & _ & He & Hf). rewrite E in E2. injection E2 as <-.
    apply (fresh_kept m m' [NewStream]); [done|by apply Hf|done|rewrite known_snoc; cbn; set_solver|].
    revert E. unfold ConnectionCreated. destruct (_ <? _)%nat; destruct (emplace_all _ _); intros [= <-]; cbn; set_solver.
  - injection E as <-. apply (fresh_kept m _ [StreamClosed]); [done|done|done|by rewrite known_snoc|done].
  - destruct Hen as [_ Hk]. assert (i <> id) as Hne by (intros ->; done).
    destruct (ReceiveUnsubscribe_ok m id reason Hm Hk) as (m2 & es & E2 & _ & He & Hes & Hf). rewrite E2 in E. injection E as <-.
    apply (fresh_kept m _ es); [done|by apply Hf|done|destruct Hes as [->|[->| ->]]; [by rewrite app_nil_r|by rewrite known_snoc|by rewrite known_snoc]|].
    revert E2. unfold ReceiveUnsubscribe. destruct (_ || _); [|by intros [= <-]]. destruct (bool_decide _); [|done]. cbn.
    destruct (Keyless.Find _ _); by intros [= <-].
  - destruct Hen as (_ & Hk & Hle). assert (i <> id) as Hne by (intros ->; done).
    destruct (ReceiveDeliver_cases m id previous current Hm Hk Hle) as [E2|(m2 & s & E2 & _ & _ & _ & _ & He & Hu & _ & Hf)]; rewrite E2 in E; injection E as <-; [done|].
    apply (fresh_kept m _ [Delivered id previous current]); [done|by apply Hf|done|by rewrite known_snoc|by rewrite Hu].
Qed.

Lemma client_runs_ok m acts m' : client_ok m -> client_runs m acts m' -> client_ok m' /\ exists es, events m' = events m ++ es /\
  forall id, (forall a, a ∈ acts -> ~ client_concerns a id) -> keeps m m' es id.
Proof.
  intros Hm Hr. revert Hm. induction Hr as [m|m a acts m1 m' Hen Ha Hr IH]; intros Hm.
  { split; [done|]. exists []. rewrite app_nil_r. split; [done|]. intros id _. by apply keeps_Find. }
  destruct (client_step m a Hm Hen) as (m2 & es1 & E & Hm2 & He1 & Hk1). rewrite Ha in E. injection E as <-.
  destruct (IH Hm2) as [Hm' (es2 & He2 & Hk2)]. split; [done|]. exists (es1 ++ es2). split; [by rewrite He2, He1, app_assoc|].
  intros id Hno s Hs. destruct (Hk1 id (Hno a ltac:(by left)) s Hs) as (s1 & Hs1 & Ht1).
  destruct (Hk2 id (fun b Hb => Hno b ltac:(by right)) s1 Hs1) as (s2 & Hs2 & Ht2). exists s2. split; [done|]. rewrite track_app, Ht1. exact Ht2.
Qed.

(** ** Catching up *)

Definition is_drain (a : client_action) : Prop :=
  match a with SendSubscribe _ | SendUnsubscribe _ => True | _ => False end.

(** Messages the client has still to send. *)
Definition backlog (m : SubscriptionsMap) : nat := (size (pending_subscriptions_ m) + size (pending_unsubscribes_ m))%nat.

(** The server knows exactly the subscriptions of the client. *)
Definition in_sync (m : SubscriptionsMap) : Prop :=
  forall id, match remote (events m) !! id, Find m id with
    | Some q, Some s => told q s
    | None, None => True
    | _, _ => False
    end.

Lemma backlog_zero m : client_ok m -> backlog m = 0%nat -> in_sync m.
Proof.
  intros [Hp Hs Ha Hsink Hun Hub Ht Hr] Hb. unfold backlog in Hb.
  assert (pending_subscriptions_ m = ∅) as Ep by (apply map_size_empty_inv; lia).
  assert (pending_unsubscribes_ m = ∅) as Eu by (apply leibniz_equiv, size_empty_inv; lia).
  intros id. unfold Find. rewrite Ep. destruct (Keyless.Find id (synced_subscriptions_ m)) as [s|] eqn:Es.
  - destruct (Ht id s Es) as (q & -> & Hq). done.
  - destruct (remote (events m) !! id) as [q|] eqn:Eq; [|done]. destruct (Hr id q Eq) as [_ [[x Hx]|Hx]]; [congruence|].
    rewrite Eu in Hx. by apply elem_of_empty in Hx.
Qed.

Lemma drain_backlog m a m' : client_ok m -> is_drain a -> client_enabled m a -> run_client a m = Ok m' ->
  client_ok m' /\ read_enabled m' = true /\ S (backlog m') = backlog m /\ forall id, Find m' id = Find m id.
Proof.
  intros Hm Hd Hen E. destruct a as [| | | |id|id| | | |]; try done; cbn [run_client client_enabled] in *.
  - destruct Hen as [Hr [s Hs]]. destruct (DrainSubscription_ok m id s Hm (ck_sink _ Hm Hr) Hs) as (m1 & q & E1 & Hm1 & _ & _ & _ & Hre & Hp & Hu & Hf).
    rewrite E in E1. injection E1 as <-. split; [done|]. split; [congruence|]. split; [|done]. unfold backlog. rewrite Hp, Hu.
    apply (unique_Find _ _ _ (ck_pending _ Hm)) in Hs. rewrite <-(insert_delete_id _ _ _ Hs) at 2.
    rewrite map_size_insert_None by apply lookup_delete_eq. lia.
  - destruct Hen as [Hr Hu]. destruct (DrainUnsubscription_ok m id Hm (ck_sink _ Hm Hr) Hu) as (m1 & q & E1 & Hm1 & _ & Hre & Hp & Hu1 & Hf).
    rewrite E in E1. injection E1 as <-. split; [done|]. split; [congruence|]. split; [|done]. unfold backlog. rewrite Hp, Hu1.
    rewrite size_difference by set_solver. rewrite size_singleton. assert (size (pending_unsubscribes_ m) <> 0)%nat; [|lia].
    apply size_non_empty_iff. set_solver.
Qed.

Lemma drains_backlog m acts m' : client_ok m -> read_enabled m = true -> (forall a, a ∈ acts -> is_drain a) -> client_runs m acts m' ->
  client_ok m' /\ read_enabled m' = true /\ (backlog m' + length acts = backlog m)%nat /\ forall id, Find m' id = Find m id.
Proof.
  intros Hm Hre Hd Hr. revert Hm Hre. induction Hr as [m|m a acts m1 m' Hen Ha Hr IH]; intros Hm Hre.
  { split_and!; auto. }
  destruct (drain_backlog m a m1 Hm (Hd a ltac:(by left)) Hen Ha) as (Hm1 & Hre1 & Hb1 & Hf1).
  destruct (IH (fun b Hb => Hd b ltac:(by right)) Hm1 Hre1) as (Hm' & Hre' & Hb' & Hf'). split_and!; [done|done|cbn; lia|].
  intros id. by rewrite Hf'.
Qed.

Lemma drain_exists m : client_ok m -> read_enabled m = true -> backlog m <> 0%nat -> exists a, is_drain a /\ client_enabled m a.
Proof.
  intros Hm Hre Hb. destruct (decide (pending_subscriptions_ m = ∅)) as [Ep|Ep].
  - assert (size (pending_unsubscribes_ m) <> 0%nat) as Hu by (unfold backlog in Hb; rewrite Ep, map_size_empty in Hb; lia).
    destruct (size_pos_elem_of (pending_unsubscribes_ m)) as [id Hid]; [lia|]. by exists (SendUnsubscribe id).
  - apply map_choose in Ep as (id & l & Hl). destruct (ck_pending _ Hm id l Hl) as (s & -> & _). exists (SendSubscribe id). split; [done|].
    split; [done|]. exists s. by apply (unique_Find _ _ _ (ck_pending _ Hm)).
Qed.

(** ** Properties *)

(** C10: the client's subscriptions reach the server.  Take any state the map
    can get into, with any subscriptions, rewinds, unsubscribes, deliveries and
    broken streams, and a stream to the server: then draining the two sources,
    in whichever order the event loop does it, never fails, sends each pending
    message once, is over after exactly as many rounds as there are pending
    messages, cannot get stuck before, and ends with the server knowing exactly
    the client's subscriptions and their topics. *)
Theorem client_catches_up acts0 m acts m' : client_runs NewSubscriptionsMap acts0 m -> read_enabled m = true ->
  (forall a, a ∈ acts -> is_drain a) -> client_runs m acts m' ->
  (backlog m' + length acts = backlog m)%nat /\ (forall id, Find m' id = Find m id) /\
  (backlog m' = 0%nat -> in_sync m') /\
  (backlog m' <> 0%nat -> exists a m2, is_drain a /\ client_enabled m' a /\ run_client a m' = Ok m2).
Proof.
  intros Hr0 Hre Hd Hr. destruct (client_runs_ok _ _ _ New_client_ok Hr0) as [Hm _].
  destruct (drains_backlog m acts m' Hm Hre Hd Hr) as (Hm' & Hre' & Hb & Hf). split_and!; [done|done|by apply backlog_zero|].
  intros Hnz. destruct (drain_exists m' Hm' Hre' Hnz) as (a & Ha & Hen). destruct (client_step m' a Hm' Hen) as (m2 & es & E & _). by exists a, m2.
Qed.

(** C9: a subscription follows its topic without holes, as long as application
    and server keep to [client_enabled].  From any reachable state on, while a
    subscription is not rewound or ended, no action fails and it is kept; the
    updates delivered to the application each begin at or before the sequence
    number it expects and end at or after it, and leave it at the one after
    their end; and whenever the server is asked for the subscription, at first
    or on a new stream, it is asked for exactly the next sequence number.  The
    actions are those the contracts allow: the application uses a new ID for a
    subscription or rewind and names only active subscriptions; the server
    speaks only on an open stream, only about IDs it was told of on that stream,
    so not about one whose request is pending, and sends no update whose
    previous sequence number is after its own.  The code asserts these. *)
Theorem client_follows acts0 m acts m' id s : client_runs NewSubscriptionsMap acts0 m -> client_runs m acts m' ->
  (forall a, a ∈ acts -> ~ client_concerns a id) -> Find m id = Some s ->
  (forall a, client_enabled m' a -> exists m2, run_client a m' = Ok m2) /\
  exists es s', events m' = events m ++ es /\ Find m' id = Some s' /\ track id es (expected_seqno_ s) = Some (expected_seqno_ s').
Proof.
  intros Hr0 Hr Hno Hs. destruct (client_runs_ok _ _ _ New_client_ok Hr0) as [Hm _].
  destruct (client_runs_ok _ _ _ Hm Hr) as [Hm' (es & He & Hk)]. split.
  - intros a Hen. destruct (client_step m' a Hm' Hen) as (m2 & es2 & E & _). by exists m2.
  - destruct (Hk id Hno s Hs) as (s' & Hs' & Ht). by exists es, s'.
Qed.

(** A subscription at 5 that is sent, gets an update over [5, 7], and survives a
    broken stream. *)
Fixpoint client_after (acts : list client_action) (m : SubscriptionsMap) : SubscriptionsMap :=
  match acts with
  | [] => m
  | a :: acts => client_after acts (match run_client a m with Ok m' => m' | Abort _ => m end)
  end.

Definition example_before : list client_action :=
  [Connected; DoSubscribe 9 1 [Byte.x62] [Byte.x61] 5 1000; DoSubscribe 11 1 [Byte.x62] [Byte.x65] 0 1001].
Definition example_after : list client_action :=
  [SendSubscribe 9; HearDeliver 9 3 7; HearDeliver 9 3 7; Disconnected; DoUnsubscribe 11; Connected].

Lemma client_before_runs : client_runs NewSubscriptionsMap example_before (client_after example_before NewSubscriptionsMap).
Proof.
  econstructor; [done|vm_compute; reflexivity|].
  econstructor; [split; [done|split; by vm_compute]|vm_compute; reflexivity|].
  econstructor; [split; [done|split; by vm_compute]|vm_compute; reflexivity|constructor].
Qed.

Lemma client_after_runs : client_runs (client_after example_before NewSubscriptionsMap) example_after
  (client_after (example_before ++ example_after) NewSubscriptionsMap).
Proof.
  econstructor; [split; [done|by eexists]|vm_compute; reflexivity|].
  econstructor; [split; [done|split; [by vm_compute|lia]]|vm_compute; reflexivity|].
  econstructor; [split; [done|split; [by vm_compute|lia]]|vm_compute; reflexivity|].
  econstructor; [done|vm_compute; reflexivity|].
  econstructor; [by eexists|vm_compute; reflexivity|].
  econstructor; [done|vm_compute; reflexivity|constructor].
Qed.

Lemma client_follows_witness : exists es s',
  events (client_after (example_before ++ example_after) NewSubscriptionsMap) = events (client_after example_before NewSubscriptionsMap) ++ es /\
  Find (client_after (example_before ++ example_after) NewSubscriptionsMap) 9 = Some s' /\ track 9 es 5 = Some (expected_seqno_ s').
Proof.
  exact (proj2 (client_follows example_before _ example_after _ 9
    {| tenant_id := 1; namespace_id := [Byte.x62]; topic_name_ := [Byte.x61]; sub_id_ := 9; expected_seqno_ := 5; user_data_ := 1000 |}
    client_before_runs client_after_runs
    ltac:(intros a Ha; repeat (apply elem_of_cons in Ha as [->|Ha]; [cbn; lia|]); by apply elem_of_nil in Ha) ltac:(vm_compute; reflexivity))).
Defined.

Definition example_drain : list client_action := [SendSubscribe 11; SendSubscribe 9].

Lemma client_drain_runs : client_runs (client_after example_before NewSubscriptionsMap) example_drain
  (client_after (example_before ++ example_drain) NewSubscriptionsMap).
Proof.
  econstructor; [split; [done|by eexists]|vm_compute; reflexivity|].
  econstructor; [split; [done|by eexists]|vm_compute; reflexivity|constructor].
Qed.

Lemma client_catches_up_witness : in_sync (client_after (example_before ++ example_drain) NewSubscriptionsMap).
Proof.
  apply (client_catches_up example_before (client_after example_before NewSubscriptionsMap) example_drain _ client_before_runs).
  - vm_compute. reflexivity.
  - intros a Ha. repeat (apply elem_of_cons in Ha as [->|Ha]; [exact I|]). by apply elem_of_nil in Ha.
  - exact client_drain_runs.
  - vm_compute. reflexivity.
Defined.
