(* ===== verification/ResilientReceiver.v ===== *)
(** * The supervisor of a stream

    Model of [src/client/resilient_receiver.cc] and of the interfaces of
    [src/messages/types.h] it works with: it opens a stream to a host, hands it
    to the receiver it decorates, and tries again after a while when the stream
    cannot be opened or ends.  What it requires of the receiver is a class, of
    which the subscriptions of a client are an instance. *)

From S2P Require Import Prelude Coding Messages SubscriptionsMap ClientFacts.

#[local] Open Scope outcome_scope.

(** ** The decorated receiver *)

Class ConnectionAwareReceiver (D : Type) := {
  connection_dropped : D -> D;
  connection_created : D -> outcome D;
  receive : Message -> D -> outcome D;
  notify_healthy : bool -> D -> D
}.

(** The dispatch on the type of a message; what a class does not override does
    nothing. *)
Definition StreamReceiver_dispatch {D} (on_unsubscribe : MessageUnsubscribe -> D -> outcome D)
    (on_deliver : MessageDeliver -> D -> outcome D) (m : Message) (d : D) : outcome D :=
  match m with
  | Messages.Unsubscribe m => on_unsubscribe m d
  | DeliverData m => on_deliver (ddata_deliver m) d
  | DeliverGap m => on_deliver (dgap_deliver m) d
  | Gap _ | Heartbeat _ => Abort "false"
  | Data m => if type_ (data_base m) =? MessageType.mPublish then Ok d else Abort "false"
  | _ => Ok d
  end.

(** The subscriptions of a client, with callbacks that keep no state. *)
#[export] Instance SubscriptionsMap_receiver : ConnectionAwareReceiver SubscriptionsMap := {|
  connection_dropped := ConnectionDropped;
  connection_created := ConnectionCreated;
  receive := StreamReceiver_dispatch
    (fun m d => r <~ ReceiveUnsubscribe (fun s _ => Ok s) tt d (unsub_sub_id_ m) (reason_ m) ;; Ok (fst r))
    (fun m d => r <~ ReceiveDeliver d (deliver_sub_id_ m) (deliver_seqno_prev_ m) (deliver_seqno_ m) ;; Ok (fst r));
  notify_healthy := fun _ d => d
|}.

(** ** The class *)

(** A host is a number, [None] the unknown host.  The timer holds its delay and
    the host that its callback captured; [health] are the calls of
    [health_status_cb_]. *)
Record ResilientStreamReceiver (D : Type) := {
  receiver_ : D;
  max_silent_reconnects_ : Z;
  current_host_ : option Z;
  backoff_timer_ : option (Z * Z);
  sequential_conn_failures_ : Z;
  health : list bool
}.
#[global] Arguments receiver_ {D}.
#[global] Arguments max_silent_reconnects_ {D}.
#[global] Arguments current_host_ {D}.
#[global] Arguments backoff_timer_ {D}.
#[global] Arguments sequential_conn_failures_ {D}.
#[global] Arguments health {D}.

(** Whether the event loop opens the stream that it is asked for, and the
    backoff strategy with the next draw of the random generator. *)
Record LoopAnswers := { OpenStream : bool; backoff_strategy : Z -> Z }.

Section Receiver.
Context {D : Type} `{ConnectionAwareReceiver D}.
Implicit Types r : ResilientStreamReceiver D.

Definition NewResilientStreamReceiver (d : D) (max_silent_reconnects : Z) : ResilientStreamReceiver D :=
  {| receiver_ := d; max_silent_reconnects_ := max_silent_reconnects; current_host_ := None; backoff_timer_ := None;
     sequential_conn_failures_ := 0; health := [] |}.

Definition set_receiver (d : D) (timer : option (Z * Z)) r : ResilientStreamReceiver D :=
  {| receiver_ := d; max_silent_reconnects_ := max_silent_reconnects_ r; current_host_ := current_host_ r; backoff_timer_ := timer;
     sequential_conn_failures_ := sequential_conn_failures_ r; health := health r |}.

Definition set_failures (n : Z) r : ResilientStreamReceiver D :=
  {| receiver_ := receiver_ r; max_silent_reconnects_ := max_silent_reconnects_ r; current_host_ := current_host_ r;
     backoff_timer_ := backoff_timer_ r; sequential_conn_failures_ := n; health := health r |}.

Definition set_host (host : option Z) r : ResilientStreamReceiver D :=
  {| receiver_ := receiver_ r; max_silent_reconnects_ := max_silent_reconnects_ r; current_host_ := host;
     backoff_timer_ := backoff_timer_ r; sequential_conn_failures_ := sequential_conn_failures_ r; health := health r |}.

Definition NotifyConnectionHealthy (currentState : bool) r : ResilientStreamReceiver D :=
  {| receiver_ := receiver_ r; max_silent_reconnects_ := max_silent_reconnects_ r; current_host_ := current_host_ r;
     backoff_timer_ := backoff_timer_ r; sequential_conn_failures_ := sequential_conn_failures_ r; health := health r ++ [currentState] |}.

Definition UpdateConnectionState (isNowHealthy : bool) r : outcome (ResilientStreamReceiver D * Z) :=
  let r := if isNowHealthy then NotifyConnectionHealthy isNowHealthy r else r in
  let failures := if isNowHealthy then 0 else u64 (sequential_conn_failures_ r + 1) in
  let r := set_failures failures r in
  let notify_after := u64 (max_silent_reconnects_ r + 1) in
  if failures =? notify_after then
    assert_that (negb isNowHealthy) "!isNowHealthy" ;;; Ok (NotifyConnectionHealthy isNowHealthy r, failures)
  else Ok (r, failures).

(** The callback [reconnect], with the function it calls when no stream can be
    opened. *)
Definition reconnect_with (Reconnect : ResilientStreamReceiver D -> Z -> option Z -> outcome (ResilientStreamReceiver D))
    (answers : LoopAnswers) r (host : Z) : outcome (ResilientStreamReceiver D) :=
  if OpenStream answers then
    d <~ connection_created (receiver_ r) ;; Ok (set_receiver d None r)
  else
    u <~ UpdateConnectionState false r ;;
    let '(r, failures) := u in Reconnect r failures (Some host).

Fixpoint Reconnect_loop (fuel : nat) (answers : LoopAnswers) r (conn_failures : Z) (host : option Z) : outcome (ResilientStreamReceiver D) :=
  let r := set_receiver (connection_dropped (receiver_ r)) None r in
  match host with
  | None => Ok r
  | Some h =>
      if conn_failures =? 0 then
        match fuel with
        | O => Abort "fuel"
        | S fuel => reconnect_with (Reconnect_loop fuel answers) answers r h
        end
      else
        assert_that (0 <? conn_failures) "conn_failures > 0" ;;;
        let backoff_duration := backoff_strategy answers (u64 (conn_failures - 1)) in
        assert_that (bool_decide (backoff_timer_ r = None)) "!backoff_timer_" ;;;
        Ok (set_receiver (receiver_ r) (Some (backoff_duration, h)) r)
  end.

Definition Reconnect (answers : LoopAnswers) r (conn_failures : Z) (host : option Z) : outcome (ResilientStreamReceiver D) :=
  Reconnect_loop 1 answers r conn_failures host.

Definition ConnectTo (answers : LoopAnswers) (host : option Z) r : outcome (ResilientStreamReceiver D) :=
  if bool_decide (current_host_ r = host) then Ok r
  else Reconnect answers (set_host host r) 0 host.

Definition is_goodbye (m : Message) : bool := match m with Goodbye _ => true | _ => false end.

Definition ReceiveMessage (answers : LoopAnswers) (m : Message) r : outcome (ResilientStreamReceiver D) :=
  u <~ UpdateConnectionState (negb (is_goodbye m)) r ;;
  let '(r, sequential_failures) := u in
  r <~ (if 0 <? sequential_failures then Reconnect answers r sequential_failures (current_host_ r) else Ok r) ;;
  d <~ receive m (receiver_ r) ;;
  Ok (set_receiver d (backoff_timer_ r) r).

Definition NotifyHealthy (isHealthy : bool) r : ResilientStreamReceiver D :=
  NotifyConnectionHealthy isHealthy (set_receiver (notify_healthy isHealthy (receiver_ r)) (backoff_timer_ r) r).

(** The event loop calls the callback of the timer. *)
Definition TimerFires (answers : LoopAnswers) r : outcome (ResilientStreamReceiver D) :=
  match backoff_timer_ r with
  | None => Ok r
  | Some (_, host) => reconnect_with (Reconnect answers) answers r host
  end.
End Receiver.

(** ** What is required of the receiver *)

(** [expects d m] is what the other end of the stream promises about messages;
    a message is received while there is a stream, or is the goodbye that ended
    it. *)
Class ConnectionAwareLaws (D : Type) `{ConnectionAwareReceiver D} := {
  delegate_ok : D -> Prop;
  connected : D -> bool;
  expects : D -> Message -> Prop;
  dropped_ok : forall d, delegate_ok d -> delegate_ok (connection_dropped d) /\ connected (connection_dropped d) = false;
  created_ok : forall d, delegate_ok d -> exists d', connection_created d = Ok d' /\ delegate_ok d' /\ connected d' = true;
  receive_ok : forall d m, delegate_ok d -> connected d = true -> is_goodbye m = false -> expects d m ->
    exists d', receive m d = Ok d' /\ delegate_ok d' /\ connected d' = connected d;
  goodbye_ok : forall d m, delegate_ok d -> is_goodbye m = true -> exists d', receive m d = Ok d' /\ delegate_ok d' /\ connected d' = connected d;
  healthy_ok : forall d b, delegate_ok d -> delegate_ok (notify_healthy b d) /\ connected (notify_healthy b d) = connected d
}.

(** Messages that a server sends to a client: about subscriptions it was told of,
    and of the types that a receiver knows. *)
Definition server_message (d : SubscriptionsMap) (m : Message) : Prop :=
  match m with
  | Messages.Unsubscribe m => unsub_sub_id_ m ∈ known (events d)
  | DeliverData m => deliver_sub_id_ (ddata_deliver m) ∈ known (events d) /\ deliver_seqno_prev_ (ddata_deliver m) <= deliver_seqno_ (ddata_deliver m)
  | DeliverGap m => deliver_sub_id_ (dgap_deliver m) ∈ known (events d) /\ deliver_seqno_prev_ (dgap_deliver m) <= deliver_seqno_ (dgap_deliver m)
  | Gap _ | Heartbeat _ => False
  | Data m => type_ (data_base m) = MessageType.mPublish
  | _ => True
  end.

Lemma ReceiveUnsubscribe_sink {S} cb (s : S) m id reason m' s' : ReceiveUnsubscribe cb s m id reason = Ok (m', s') -> sink_ m' = sink_ m.
Proof.
  unfold ReceiveUnsubscribe. destruct (_ || _); [|by intros [= <- _]]. destruct (bool_decide _); [|done]. cbn [assert_that obind].
  destruct (Keyless.Find id _); [|by intros [= <- _]]. destruct (cb s m); [|done]. by intros [= <- _].
Qed.

Lemma ReceiveDeliver_sink m id previous current m' b : ReceiveDeliver m id previous current = Ok (m', b) -> sink_ m' = sink_ m.
Proof.
  unfold ReceiveDeliver. destruct (bool_decide _); [|done]. cbn [assert_that obind]. destruct (Keyless.Find id _) as [s|]; [|by intros [= <- _]].
  destruct (ProcessUpdate previous current s) as [[x []]|]; [| |done]; by intros [= <- _].
Qed.

Lemma hears_deliver d m : client_ok d -> deliver_sub_id_ m ∈ known (events d) -> deliver_seqno_prev_ m <= deliver_seqno_ m ->
  exists d', (r <~ ReceiveDeliver d (deliver_sub_id_ m) (deliver_seqno_prev_ m) (deliver_seqno_ m) ;; Ok (fst r)) = Ok d' /\
    client_ok d' /\ sink_ d' = sink_ d.
Proof.
  intros Hd Hk Hle. destruct (ReceiveDeliver_ok d _ _ _ Hd Hk Hle) as (d' & b & es & E & Hd' & _). exists d'. rewrite E.
  split_and!; [done|done|]. by apply ReceiveDeliver_sink in E.
Qed.

#[export] Instance SubscriptionsMap_laws : ConnectionAwareLaws SubscriptionsMap.
Proof.
  refine {| delegate_ok := client_ok; connected := sink_; expects := server_message |}.
  - intros d Hd. split; [by apply ConnectionDropped_ok|done].
  - intros d Hd. destruct (ConnectionCreated_ok d Hd) as (d' & E & Hd' & _). exists d'. split_and!; [done|done|].
    revert E. cbn. unfold ConnectionCreated. destruct (_ <? _)%nat; destruct (emplace_all _ _); by intros [= <-].
  - intros d m Hd Hc Hg Hm. destruct m; cbn in Hm |- *; try done; try (by exists d).
    + rewrite Hm. by exists d.
    + destruct (ReceiveUnsubscribe_ok d _ (reason_ m) Hd Hm) as (d' & es & E & Hd' & _). exists d'. rewrite E. split_and!; [done|done|].
      by apply ReceiveUnsubscribe_sink in E.
    + destruct Hm as [Hk Hle]. by apply hears_deliver.
    + destruct Hm as [Hk Hle]. by apply hears_deliver.
  - intros d m Hd Hg. destruct m; try done. by exists d.
  - done.
Defined.

(** ** The machine *)

Inductive supervisor_action :=
| DoConnectTo (host : option Z)
| DoReceive (m : Message)
| DoNotifyHealthy (isHealthy : bool)
| DoTimer.

Section Supervisor.
Context {D : Type} `{ConnectionAwareLaws D}.
Implicit Types r : ResilientStreamReceiver D.

Definition run_supervisor (a : supervisor_action) (answers : LoopAnswers) r : outcome (ResilientStreamReceiver D) :=
  match a with
  | DoConnectTo host => ConnectTo answers host r
  | DoReceive m => ReceiveMessage answers m r
  | DoNotifyHealthy b => Ok (NotifyHealthy b r)
  | DoTimer => TimerFires answers r
  end.

(** Messages come on the stream that the receiver has, and failures do not reach
    the end of the counter. *)
Definition supervisor_enabled r (a : supervisor_action) : Prop :=
  sequential_conn_failures_ r < 2 ^ 64 - 1 /\
  match a with
  | DoReceive m => connected (receiver_ r) = true /\ (is_goodbye m = true \/ expects (receiver_ r) m)
  | _ => True
  end.

Inductive supervisor_runs : ResilientStreamReceiver D -> list (supervisor_action * LoopAnswers) -> ResilientStreamReceiver D -> Prop :=
| supervisor_runs_nil r : supervisor_runs r [] r
| supervisor_runs_cons r a answers acts r1 r' : supervisor_enabled r a -> run_supervisor a answers r = Ok r1 ->
    supervisor_runs r1 acts r' -> supervisor_runs r ((a, answers) :: acts) r'.

(** The receiver has a stream, or a timer that will open one, but never both, and
    neither only while no host is known. *)
Definition supervised r : Prop :=
  match current_host_ r with
  | None => connected (receiver_ r) = false /\ backoff_timer_ r = None
  | Some h => connected (receiver_ r) = true /\ backoff_timer_ r = None \/
              connected (receiver_ r) = false /\ exists delay, backoff_timer_ r = Some (delay, h)
  end.

Record supervisor_ok r : Prop := {
  so_delegate : delegate_ok (receiver_ r);
  so_supervised : supervised r;
  so_failures : 0 <= sequential_conn_failures_ r < 2 ^ 64;
  so_max : 0 <= max_silent_reconnects_ r < 2 ^ 64 - 1
}.

(** What a failure, a sign of health, or neither does to the counter and to what
    the client is told. *)
Definition counts (fails healthy : bool) (told : list bool) r r' : Prop :=
  max_silent_reconnects_ r' = max_silent_reconnects_ r /\
  sequential_conn_failures_ r' = (if healthy then 0 else if fails then sequential_conn_failures_ r + 1 else sequential_conn_failures_ r) /\
  health r' = health r ++ told ++ (if fails && (sequential_conn_failures_ r =? max_silent_reconnects_ r) then [false] else []).

Lemma UpdateConnectionState_ok b r : 0 <= sequential_conn_failures_ r < 2 ^ 64 - 1 -> 0 <= max_silent_reconnects_ r < 2 ^ 64 - 1 ->
  exists r', UpdateConnectionState b r = Ok (r', sequential_conn_failures_ r') /\ receiver_ r' = receiver_ r /\ current_host_ r' = current_host_ r /\
    backoff_timer_ r' = backoff_timer_ r /\ counts (negb b) b (if b then [true] else []) r r'.
Proof.
  intros Hf Hm. unfold UpdateConnectionState. destruct b.
  - cbn [max_silent_reconnects_ NotifyConnectionHealthy set_failures]. rewrite wrap_small by (unfold fits; lia).
    rewrite (proj2 (Z.eqb_neq 0 _)) by lia. exists (set_failures 0 (NotifyConnectionHealthy true r)). split; [reflexivity|]. done.
  - cbn [max_silent_reconnects_ set_failures]. rewrite !wrap_small by (unfold fits; lia).
    replace (_ + 1 =? _ + 1) with (sequential_conn_failures_ r =? max_silent_reconnects_ r) by lia.
    set (r1 := set_failures (sequential_conn_failures_ r + 1) r). destruct (_ =? _) eqn:E; cbn [negb assert_that obind];
      [exists (NotifyConnectionHealthy false r1)|exists r1]; (split; [reflexivity|]); unfold counts; cbn; rewrite ?E, ?app_nil_r; done.
Qed.

(** Starting the timer. *)
Lemma Reconnect_loop_backoff fuel answers r n h : delegate_ok (receiver_ r) -> 0 < n ->
  exists r', Reconnect_loop fuel answers r n (Some h) = Ok r' /\ delegate_ok (receiver_ r') /\ connected (receiver_ r') = false /\
    (exists delay, backoff_timer_ r' = Some (delay, h)) /\ current_host_ r' = current_host_ r /\ counts false false [] r r'.
Proof.
  intros Hd Hn. destruct (dropped_ok _ Hd) as [Hd' Hc]. destruct fuel; cbn [Reconnect_loop]; rewrite (proj2 (Z.eqb_neq n 0)) by lia;
    rewrite (proj2 (Z.ltb_lt 0 n)) by lia; cbn [assert_that obind]; (eexists; split; [reflexivity|]; split_and!; try done; [by eexists|]);
    unfold counts; cbn; by rewrite app_nil_r.
Qed.

(** The callback opens a stream or starts the timer. *)
Lemma reconnect_ok fuel answers r h : supervisor_enabled r DoTimer -> delegate_ok (receiver_ r) -> 0 <= sequential_conn_failures_ r ->
  0 <= max_silent_reconnects_ r < 2 ^ 64 - 1 ->
  exists r', reconnect_with (Reconnect_loop fuel answers) answers r h = Ok r' /\ delegate_ok (receiver_ r') /\
    connected (receiver_ r') = OpenStream answers /\
    (if OpenStream answers then backoff_timer_ r' = None else exists delay, backoff_timer_ r' = Some (delay, h)) /\
    current_host_ r' = current_host_ r /\ counts (negb (OpenStream answers)) false [] r r'.
Proof.
  intros [Hlt _] Hd Hf Hm. unfold reconnect_with. destruct (OpenStream answers).
  - destruct (created_ok _ Hd) as (d' & -> & Hd' & Hc). cbn [obind]. eexists. split; [reflexivity|]. unfold counts. cbn. rewrite app_nil_r. by split_and!.
  - destruct (UpdateConnectionState_ok false r ltac:(lia) Hm) as (r1 & -> & Hr & Hh & Ht & Hc). cbn [obind].
    assert (0 < sequential_conn_failures_ r1) as Hn by (destruct Hc as (_ & -> & _); cbn; lia).
    destruct (Reconnect_loop_backoff fuel answers r1 (sequential_conn_failures_ r1) h) as (r2 & -> & Hd2 & Hc2 & Ht2 & Hh2 & Hs2); [by rewrite Hr|done|].
    eexists. split; [reflexivity|]. split_and!; [done|done|done|congruence|]. destruct Hc as (Ha & Hb & He), Hs2 as (Ha2 & Hb2 & He2).
    unfold counts. rewrite Ha2, Ha, Hb2, Hb, He2, He, !app_nil_r. done.
Qed.

(** Whether a stream ends or cannot be opened. *)
Definition supervisor_fails (a : supervisor_action) (answers : LoopAnswers) r : bool :=
  match a with
  | DoConnectTo (Some h) => negb (bool_decide (current_host_ r = Some h)) && negb (OpenStream answers)
  | DoConnectTo None => false
  | DoReceive m => is_goodbye m
  | DoNotifyHealthy _ => false
  | DoTimer => match backoff_timer_ r with None => false | Some _ => negb (OpenStream answers) end
  end.

(** Whether the action shows that the stream is alive. *)
Definition supervisor_heard (a : supervisor_action) : bool := match a with DoReceive m => negb (is_goodbye m) | _ => false end.

Definition supervisor_told (a : supervisor_action) : list bool :=
  match a with
  | DoReceive m => if is_goodbye m then [] else [true]
  | DoNotifyHealthy b => [b]
  | _ => []
  end.

Lemma counts_supervised fails healthy told r r' : supervisor_ok r -> sequential_conn_failures_ r < 2 ^ 64 - 1 -> counts fails healthy told r r' ->
  delegate_ok (receiver_ r') -> supervised r' -> supervisor_ok r'.
Proof. intros [] Hlt (Hm & Hf & _) Hd Hs. split; [done|done| |by rewrite Hm]. rewrite Hf. destruct healthy, fails; lia. Qed.

(** Every action succeeds. *)
Lemma supervisor_step a answers r : supervisor_ok r -> supervisor_enabled r a ->
  exists r', run_supervisor a answers r = Ok r' /\ supervisor_ok r' /\ counts (supervisor_fails a answers r) (supervisor_heard a) (supervisor_told a) r r' /\
    (a = DoTimer -> backoff_timer_ r <> None -> connected (receiver_ r') = OpenStream answers).
Proof.
  intros Hr Hen. pose proof Hr as [Hd Hs Hf Hm]. pose proof Hen as [Hlt Hen'].
  destruct a as [host|m|b|]; cbn [run_supervisor supervisor_fails supervisor_heard supervisor_told].
  - unfold ConnectTo. destruct (decide (current_host_ r = host)) as [<-|Hne].
    { rewrite bool_decide_eq_true_2 by done. exists r. split_and!; try done. unfold counts. destruct (current_host_ r); cbn; rewrite ?bool_decide_eq_true_2, ?app_nil_r by done; done. }
    rewrite bool_decide_eq_false_2 by done. unfold Reconnect. cbn [Reconnect_loop]. destruct (dropped_ok _ Hd) as [Hd' Hc]. destruct host as [h|].
    + set (r1 := set_receiver _ None (set_host (Some h) r)). destruct (reconnect_ok 0 answers r1 h) as (r' & E & Hd2 & Hc2 & Ht2 & Hh2 & Hs2); [done|done|cbn; lia|done|].
      change (counts (negb (OpenStream answers)) false [] r r') in Hs2. exists r'. split; [exact E|]. rewrite bool_decide_eq_false_2 by done. cbn [negb andb]. split_and!; [|done|done].
      apply (counts_supervised _ _ _ r r' Hr Hlt Hs2 Hd2). unfold supervised. rewrite Hh2. cbn. destruct (OpenStream answers); auto.
    + exists (set_receiver (connection_dropped (receiver_ r)) None (set_host None r)).
      assert (counts false false [] r (set_receiver (connection_dropped (receiver_ r)) None (set_host None r))) as Hcs by (unfold counts; cbn; by rewrite app_nil_r).
      split_and!; try done.
  - destruct Hen' as [Hcon Hm']. unfold ReceiveMessage. destruct (UpdateConnectionState_ok (negb (is_goodbye m)) r ltac:(lia) Hm) as (r1 & -> & Hr1 & Hh1 & Ht1 & Hc1).
    cbn [obind]. unfold supervised in Hs. destruct (is_goodbye m) eqn:Eg; cbn [negb] in Hc1 |- *.
    + pose proof Hc1 as (_ & Hn & _). rewrite (proj2 (Z.ltb_lt 0 _)) by lia. destruct (current_host_ r) as [h|] eqn:Eh; [|destruct Hs; congruence]. rewrite Hh1.
      destruct (Reconnect_loop_backoff 1 answers r1 (sequential_conn_failures_ r1) h) as (r2 & E & Hd2 & Hc2 & Ht2 & Hh2 & Hs2); [by rewrite Hr1|lia|].
      unfold Reconnect. rewrite E. cbn [obind]. destruct (goodbye_ok _ m Hd2 Eg) as (d' & -> & Hd' & Hc'). cbn [obind]. eexists. split; [reflexivity|].
      assert (counts true false [] r (set_receiver d' (backoff_timer_ r2) r2)) as Hcs.
      { destruct Hc1 as (Ha & Hb & He), Hs2 as (Ha2 & Hb2 & He2). unfold counts. cbn. rewrite Ha2, Ha, Hb2, Hb, He2, He, !app_nil_r. done. }
      split_and!; [|done|done]. apply (counts_supervised _ _ _ r _ Hr Hlt Hcs); [done|]. unfold supervised. cbn. rewrite Hh2, Hh1. right. split; [congruence|done].
    + pose proof Hc1 as (_ & -> & _). cbn [obind Z.ltb Z.compare]. destruct Hm' as [|Hexp]; [congruence|]. rewrite Hr1.
      destruct (receive_ok _ m Hd Hcon Eg Hexp) as (d' & -> & Hd' & Hc'). cbn [obind]. eexists. split; [reflexivity|]. split_and!; [|exact Hc1|done].
      refine (counts_supervised false true [true] r (set_receiver d' (backoff_timer_ r1) r1) Hr Hlt Hc1 _ _); [done|]. unfold supervised. cbn. rewrite Hh1, Ht1, Hc'. done.
  - eexists. split; [reflexivity|]. destruct (healthy_ok _ b Hd) as [Hd' Hc']. assert (counts false false [b] r (NotifyHealthy b r)) as Hcs by done.
    split_and!; [|done|done]. apply (counts_supervised _ _ _ r _ Hr Hlt Hcs); [done|]. unfold supervised. cbn. by rewrite Hc'.
  - unfold TimerFires. destruct (backoff_timer_ r) as [[delay h]|] eqn:Et.
    + destruct (reconnect_ok 1 answers r h) as (r' & E & Hd2 & Hc2 & Ht2 & Hh2 & Hs2); [done|done|lia|done|].
      exists r'. split_and!; [exact E| |done|done]. apply (counts_supervised _ _ _ r r' Hr Hlt Hs2 Hd2).
      unfold supervised in Hs |- *. rewrite Hh2. destruct (current_host_ r) as [h'|]; [|destruct Hs; congruence].
      destruct Hs as [[_ ?]|[_ [delay' Hd']]]; [congruence|]. assert (h' = h) as -> by congruence. destruct (OpenStream answers); auto.
    + exists r. split_and!; try done. unfold counts. by rewrite app_nil_r.
Qed.

Lemma supervisor_runs_ok r acts r' : supervisor_ok r -> supervisor_runs r acts r' -> supervisor_ok r'.
Proof.
  intros Hr Hrun. induction Hrun as [|r a answers acts r1 r' Hen E Hrun IH]; [done|]. apply IH.
  destruct (supervisor_step a answers r Hr Hen) as (r2 & E2 & Hr2 & _). rewrite E in E2. by apply Ok_inj in E2 as ->.
Qed.

(** Nothing is heard on the stream. *)
Definition quiet (a : supervisor_action) : Prop := supervisor_heard a = false /\ supervisor_told a = [].

Lemma quiet_runs r acts r' : supervisor_ok r -> supervisor_runs r acts r' -> (forall a answers, (a, answers) ∈ acts -> quiet a) ->
  max_silent_reconnects_ r' = max_silent_reconnects_ r /\ sequential_conn_failures_ r <= sequential_conn_failures_ r' /\
  health r' = health r ++ (if (sequential_conn_failures_ r <=? max_silent_reconnects_ r) && (max_silent_reconnects_ r <? sequential_conn_failures_ r')
                           then [false] else []).
Proof.
  intros Hr Hrun. induction Hrun as [r|r a answers acts r1 r' Hen E Hrun IH]; intros Hq.
  { split_and!; [done|lia|]. assert ((sequential_conn_failures_ r <=? max_silent_reconnects_ r) && (max_silent_reconnects_ r <? sequential_conn_failures_ r) = false) as -> by lia. by rewrite app_nil_r. }
  destruct (supervisor_step a answers r Hr Hen) as (r2 & E2 & Hr2 & (Hm & Hf & Hh) & _). rewrite E in E2. apply Ok_inj in E2 as <-.
  destruct (Hq a answers ltac:(by left)) as [Hheard Htold]. rewrite Hheard in Hf. rewrite Htold in Hh.
  destruct (IH Hr2) as (Hm' & Hle & Hh'); [intros a' answers' Hin; apply (Hq a' answers'); by right|].
  split_and!; [congruence|destruct (supervisor_fails _ _ _); lia|]. rewrite Hh', Hh, Hm, <-!app_assoc. f_equal.
  destruct (supervisor_fails a answers r); cbn [andb app].
  - destruct (Z.eqb_spec (sequential_conn_failures_ r) (max_silent_reconnects_ r)) as [Heq|Hne].
    + rewrite (proj2 (Z.leb_gt (sequential_conn_failures_ r1) _)), (proj2 (Z.leb_le (sequential_conn_failures_ r) _)) by lia.
      by rewrite (proj2 (Z.ltb_lt _ (sequential_conn_failures_ r'))) by lia.
    + cbn [app]. assert ((sequential_conn_failures_ r1 <=? max_silent_reconnects_ r) = (sequential_conn_failures_ r <=? max_silent_reconnects_ r)) as -> by lia. done.
  - by rewrite Hf.
Qed.

(** ** Properties *)

(** C20: the stream of a client is looked after.  Whatever hosts the supervisor is
    told to connect to, whether streams open, and whenever they end, no action
    fails an assertion; while a host is known the receiver has a stream to it or,
    and never both, a timer runs that opens one, and when the timer fires and the
    stream opens the receiver has it; and after the last message that was heard the
    client is told that the connection is not healthy exactly once, when the number
    of failures in a row passes the number of silent reconnects. *)
Theorem stream_supervised d max acts r : delegate_ok d -> connected d = false -> 0 <= max < 2 ^ 64 - 1 ->
  supervisor_runs (NewResilientStreamReceiver d max) acts r ->
  supervised r /\
  (forall a answers, supervisor_enabled r a -> exists r', run_supervisor a answers r = Ok r' /\
     counts (supervisor_fails a answers r) (supervisor_heard a) (supervisor_told a) r r' /\
     (a = DoTimer -> backoff_timer_ r <> None -> connected (receiver_ r') = OpenStream answers)) /\
  (forall acts' r', supervisor_runs r acts' r' -> sequential_conn_failures_ r = 0 -> (forall a answers, (a, answers) ∈ acts' -> quiet a) ->
     health r' = health r ++ (if max <? sequential_conn_failures_ r' then [false] else [])).
Proof.
  intros Hd Hc Hmax Hrun. assert (supervisor_ok (NewResilientStreamReceiver d max)) as Hnew by (by split).
  pose proof (supervisor_runs_ok _ _ _ Hnew Hrun) as Hr. split_and!; [by apply so_supervised| |].
  - intros a answers Hen. destruct (supervisor_step a answers r Hr Hen) as (r' & E & _ & Hcs & Ht). by exists r'.
  - intros acts' r' Hrun' H0' Hq. destruct (quiet_runs r acts' r' Hr Hrun' Hq) as (_ & _ & ->). rewrite H0'.
    assert (max_silent_reconnects_ r = max) as ->; [|by rewrite (proj2 (Z.leb_le 0 max)) by lia].
    clear -Hrun Hnew. remember (NewResilientStreamReceiver d max) as r0 eqn:E0. assert (max_silent_reconnects_ r0 = max) as Hm by (by subst). clear E0.
    induction Hrun as [|r a answers acts r1 r' Hen E Hrun IH]; [done|]. destruct (supervisor_step a answers r Hnew Hen) as (r2 & E2 & Hr2 & (Hm2 & _) & _).
    rewrite E in E2. apply Ok_inj in E2 as <-. apply IH; [done|congruence].
Qed.
End Supervisor.

(** A client whose first host cannot be reached twice, with one silent reconnect. *)
Definition opens : LoopAnswers := {| OpenStream := true; backoff_strategy := fun n => 100 * 2 ^ n |}.
Definition refuses : LoopAnswers := {| OpenStream := false; backoff_strategy := fun n => 100 * 2 ^ n |}.

Definition example_run : list (supervisor_action * LoopAnswers) := [(DoConnectTo (Some 7), refuses); (DoTimer, refuses)].

Fixpoint supervised_after (acts : list (supervisor_action * LoopAnswers)) (r : ResilientStreamReceiver SubscriptionsMap) : ResilientStreamReceiver SubscriptionsMap :=
  match acts with
  | [] => r
  | (a, answers) :: acts => supervised_after acts (match run_supervisor a answers r with Ok r' => r' | Abort _ => r end)
  end.

Definition example_supervisor : ResilientStreamReceiver SubscriptionsMap := NewResilientStreamReceiver NewSubscriptionsMap 1.

Lemma stream_supervised_witness :
  health (supervised_after example_run example_supervisor) = [false] /\
  backoff_timer_ (supervised_after example_run example_supervisor) = Some (200, 7) /\
  exists r', run_supervisor DoTimer opens (supervised_after example_run example_supervisor) = Ok r' /\ connected (receiver_ r') = true.
Proof.
  split; [reflexivity|]. split; [reflexivity|].
  assert (supervisor_runs example_supervisor example_run (supervised_after example_run example_supervisor)) as Hrun.
  { econstructor; [done|vm_compute; reflexivity|]. econstructor; [done|vm_compute; reflexivity|constructor]. }
  destruct (stream_supervised (H0 := SubscriptionsMap_laws) NewSubscriptionsMap 1 example_run _ New_client_ok eq_refl ltac:(lia) Hrun) as (_ & Hstep & _).
  destruct (Hstep DoTimer opens ltac:(done)) as (r' & E & _ & Hc). exists r'. split; [exact E|]. by apply Hc.
Defined.

(** With the largest number of silent reconnects the number of failures after
    which to tell wraps around to 0, and the first message that is heard fails the
    assertion that the connection is not healthy. *)
Lemma never_notify_aborts :
  (r <~ ConnectTo opens (Some 7) (NewResilientStreamReceiver NewSubscriptionsMap (2 ^ 64 - 1)) ;;
   ReceiveMessage opens (Messages.Ping {| ping_base := {| type_ := MessageType.mPing; tenantid_ := 1 |}; pingtype_ := PingResponse; cookie_ := [] |}) r) =
  Abort "!isNowHealthy".
Proof. vm_compute. reflexivity. Qed.

(** [ConnectTo] with the host of the current stream changes nothing. *)
Lemma ConnectTo_same_host {D} `{ConnectionAwareReceiver D} answers (r : ResilientStreamReceiver D) : ConnectTo answers (current_host_ r) r = Ok r.
Proof. unfold ConnectTo. by rewrite bool_decide_eq_true_2. Qed.
