(* ===== verification/Subscriber.v ===== *)
(** * The subscriber of a shard

    Model of [src/client/single_shard_subscriber.cc]: subscriptions with their
    observers and acknowledgements on top of SubscriptionsMap.v.  Observers are
    objects of the application or of an adaptor; [ObserverIf] is the interface
    through which they are called, with the state they act on. *)

From S2P Require Import Prelude Coding Messages SubscriptionsMap.

#[local] Open Scope outcome_scope.

Inductive StatusCode := StatusOK | StatusInvalidArgument | StatusShardUnhealthy.

Record SubscriptionStatus := {
  status_sub_id : Z;
  status_tenant : Z;
  status_namespace : slice;
  status_topic : slice;
  status_seqno : Z;
  status_ : StatusCode
}.

Record MessageReceived := { received_sub_id : Z; received_seqno : Z; received_contents : slice }.

Record DataLossInfo := { loss_sub_id : Z; loss_type : Z; loss_first : Z; loss_last : Z }.

(** An observer is known by its address.  The callbacks see the subscriptions
    of the subscriber that calls, and change the state [C]. *)
Class ObserverIf (C : Type) := {
  OnMessageReceived : SubscriptionsMap -> Z -> MessageReceived -> C -> outcome C;
  OnSubscriptionStatusChange : SubscriptionsMap -> Z -> SubscriptionStatus -> C -> outcome C;
  OnDataLoss : SubscriptionsMap -> Z -> DataLossInfo -> C -> outcome C
}.

(** Observers of the application: the calls are recorded. *)
Inductive UserCall :=
| UserMessage (observer : Z) (m : MessageReceived)
| UserStatus (observer : Z) (s : SubscriptionStatus)
| UserLoss (observer : Z) (d : DataLossInfo).

#[export] Instance application : ObserverIf (list UserCall) := {
  OnMessageReceived _ observer m c := Ok (c ++ [UserMessage observer m]);
  OnSubscriptionStatusChange _ observer s c := Ok (c ++ [UserStatus observer s]);
  OnDataLoss _ observer d c := Ok (c ++ [UserLoss observer d])
}.

(** [num_active_subscriptions_] points to a counter that the subscribers of a
    thread share; the field is what it holds during a call.  The owner of the
    subscribers, MultiShard.v, keeps the one counter, puts its value here
    before it calls a subscriber, and takes it back after the call. *)
Record Subscriber := {
  subscriptions_map_ : SubscriptionsMap;
  currently_healthy_ : bool;
  last_acks_map_ : gmap Z Z;
  num_active_subscriptions_ : Z;
  max_active_subscriptions_ : Z;
  should_notify_health : bool
}.

Definition NewSubscriber (max_active num_active : Z) (notify : bool) : Subscriber :=
  {| subscriptions_map_ := NewSubscriptionsMap; currently_healthy_ := true; last_acks_map_ := ∅;
     num_active_subscriptions_ := num_active; max_active_subscriptions_ := max_active; should_notify_health := notify |}.

Definition set_map (m : SubscriptionsMap) (s : Subscriber) : Subscriber :=
  {| subscriptions_map_ := m; currently_healthy_ := currently_healthy_ s; last_acks_map_ := last_acks_map_ s;
     num_active_subscriptions_ := num_active_subscriptions_ s; max_active_subscriptions_ := max_active_subscriptions_ s;
     should_notify_health := should_notify_health s |}.

Definition set_acks (acks : gmap Z Z) (s : Subscriber) : Subscriber :=
  {| subscriptions_map_ := subscriptions_map_ s; currently_healthy_ := currently_healthy_ s; last_acks_map_ := acks;
     num_active_subscriptions_ := num_active_subscriptions_ s; max_active_subscriptions_ := max_active_subscriptions_ s;
     should_notify_health := should_notify_health s |}.

Definition set_num_active (n : Z) (s : Subscriber) : Subscriber :=
  {| subscriptions_map_ := subscriptions_map_ s; currently_healthy_ := currently_healthy_ s; last_acks_map_ := last_acks_map_ s;
     num_active_subscriptions_ := n; max_active_subscriptions_ := max_active_subscriptions_ s;
     should_notify_health := should_notify_health s |}.

Definition set_healthy (b : bool) (s : Subscriber) : Subscriber :=
  {| subscriptions_map_ := subscriptions_map_ s; currently_healthy_ := b; last_acks_map_ := last_acks_map_ s;
     num_active_subscriptions_ := num_active_subscriptions_ s; max_active_subscriptions_ := max_active_subscriptions_ s;
     should_notify_health := should_notify_health s |}.

(** [Select] with all flags. *)
Definition Select (s : Subscriber) (sub_id : Z) : option SubscriptionBase := Find (subscriptions_map_ s) sub_id.

Definition status_of (b : SubscriptionBase) (sub_id : Z) (code : StatusCode) : SubscriptionStatus :=
  {| status_sub_id := sub_id; status_tenant := tenant_id b; status_namespace := namespace_id b; status_topic := topic_name_ b;
     status_seqno := expected_seqno_ b; status_ := code |}.

Section Subscriber.
Context {C : Type} `{!ObserverIf C}.

Record SubscriptionParameters := { param_tenant : Z; param_namespace : slice; param_topic : slice; param_start_seqno : Z }.

Definition StartSubscription (s : Subscriber) (c : C) (sub_id : Z) (p : SubscriptionParameters) (observer : Z) : outcome (Subscriber * C) :=
  let status code := {| status_sub_id := sub_id; status_tenant := param_tenant p; status_namespace := param_namespace p;
                        status_topic := param_topic p; status_seqno := param_start_seqno p; status_ := code |} in
  if max_active_subscriptions_ s <=? num_active_subscriptions_ s then
    c <~ OnSubscriptionStatusChange (subscriptions_map_ s) observer (status StatusInvalidArgument) c ;; Ok (s, c)
  else
    c <~ (if currently_healthy_ s then Ok c
          else OnSubscriptionStatusChange (subscriptions_map_ s) observer (status StatusShardUnhealthy) c) ;;
    m <~ Subscribe (subscriptions_map_ s) sub_id (param_tenant p) (param_namespace p) (param_topic p) (param_start_seqno p) observer ;;
    Ok (set_num_active (u64 (num_active_subscriptions_ s + 1)) (set_map m s), c).

Definition Acknowledge (s : Subscriber) (sub_id acked_seqno : Z) : Subscriber :=
  if Exists (subscriptions_map_ s) sub_id then set_acks (<[sub_id := acked_seqno]> (last_acks_map_ s)) s else s.

Definition ReceiveTerminate (s : Subscriber) (c : C) (sub_id reason : Z) : outcome (Subscriber * C) :=
  match Select s sub_id with
  | None => Abort "success"
  | Some b =>
      let code := if reason =? kInvalid then StatusInvalidArgument else StatusOK in
      assert_that (negb (user_data_ b =? 0)) "info.GetObserver()" ;;;
      c <~ OnSubscriptionStatusChange (subscriptions_map_ s) (user_data_ b) (status_of b sub_id code) c ;;
      Ok (set_num_active (u64 (num_active_subscriptions_ s - 1)) (set_acks (delete sub_id (last_acks_map_ s)) s), c)
  end.

Definition TerminateSubscription (s : Subscriber) (c : C) (sub_id : Z) : outcome (Subscriber * C) :=
  r <~ match Select s sub_id with
       | Some _ =>
           r <~ ReceiveTerminate s c sub_id kRequested ;;
           let '(s, c) := r in
           m <~ Unsubscribe (subscriptions_map_ s) sub_id ;;
           Ok (set_map m s, c)
       | None => Ok (s, c)
       end ;;
  let '(s, c) := r in
  Ok (set_acks (delete sub_id (last_acks_map_ s)) s, c).

(** A message of the server that ends a subscription. *)
Definition Subscriber_ReceiveUnsubscribe (s : Subscriber) (c : C) (sub_id reason : Z) : outcome (Subscriber * C) :=
  r <~ ReceiveUnsubscribe (fun sc _ => ReceiveTerminate (fst sc) (snd sc) sub_id reason) (s, c) (subscriptions_map_ s) sub_id reason ;;
  let '(m, sc) := r in Ok (set_map m (fst sc), snd sc).

(** An update of the server. *)
Inductive Update := UpdateData (seqno : Z) (payload : slice) | UpdateGap (type first last : Z).

Definition GetLossType (type : Z) : outcome Z :=
  assert_that ((type =? kDataLoss) || (type =? kRetention)) "false" ;;; Ok type.

(** The callback of the map, after it accepted the update. *)
Definition Subscriber_ReceiveDeliver (s : Subscriber) (c : C) (sub_id : Z) (u : Update) : outcome C :=
  match Select s sub_id with
  | None => Abort "success"
  | Some b =>
      match u with
      | UpdateData seqno payload =>
          OnMessageReceived (subscriptions_map_ s) (user_data_ b)
            {| received_sub_id := sub_id; received_seqno := seqno; received_contents := payload |} c
      | UpdateGap type first last =>
          if type =? kBenign then Ok c
          else
            loss <~ GetLossType type ;;
            OnDataLoss (subscriptions_map_ s) (user_data_ b)
              {| loss_sub_id := sub_id; loss_type := loss; loss_first := first; loss_last := last |} c
      end
  end.

Definition Subscriber_Deliver (s : Subscriber) (c : C) (sub_id previous current : Z) (u : Update) : outcome (Subscriber * C) :=
  r <~ ReceiveDeliver (subscriptions_map_ s) sub_id previous current ;;
  let '(m, delivered) := r in
  let s := set_map m s in
  if delivered : bool then c <~ Subscriber_ReceiveDeliver s c sub_id u ;; Ok (s, c) else Ok (s, c).

Definition GetLastAcknowledged (s : Subscriber) (sub_id : Z) : Z := default 0 (last_acks_map_ s !! sub_id).

(** The entries appended to the snapshot, which may fail. *)
Fixpoint save_all (s : Subscriber) (append : nat -> bool) (n : nat) (subs : list SubscriptionBase) : list (Z * slice * slice * Z) * bool :=
  match subs with
  | [] => ([], true)
  | b :: subs =>
      let start_seqno := GetLastAcknowledged s (sub_id_ b) in
      let start_seqno := if 0 <? start_seqno then u64 (start_seqno + 1) else start_seqno in
      if append n then
        let '(entries, ok) := save_all s append (Datatypes.S n) subs in
        ((tenant_id b, namespace_id b, topic_name_ b, start_seqno) :: entries, ok)
      else ([], false)
  end.

Definition SaveState (s : Subscriber) (append : nat -> bool) : list (Z * slice * slice * Z) * bool :=
  save_all s append 0 (Iterate (subscriptions_map_ s)).

Fixpoint notify_all (s : Subscriber) (code : StatusCode) (subs : list SubscriptionBase) (c : C) : outcome C :=
  match subs with
  | [] => Ok c
  | data :: subs =>
      match Select s (sub_id_ data) with
      | None => Abort "success"
      | Some b =>
          c <~ OnSubscriptionStatusChange (subscriptions_map_ s) (user_data_ b) (status_of b (sub_id_ data) code) c ;;
          notify_all s code subs c
      end
  end.

Definition NotifyHealthy (s : Subscriber) (c : C) (isHealthy : bool) : outcome (Subscriber * C) :=
  if Bool.eqb (currently_healthy_ s) isHealthy then Ok (s, c)
  else
    let s := set_healthy isHealthy s in
    if negb (should_notify_health s) then Ok (s, c)
    else
      c <~ notify_all s (if isHealthy then StatusOK else StatusShardUnhealthy) (Iterate (subscriptions_map_ s)) c ;;
      Ok (s, c).
End Subscriber.
