(* ===== verification/SubscriberFacts.v ===== *)
(** * Proofs about the subscriber of a shard

    The subscriber of Subscriber.v as a machine, with observers of the
    application: it keeps count of its subscriptions and of what they have
    acknowledged.  The counter is shared with the subscribers of other shards,
    which have a given number of subscriptions; MultiShard.v puts them
    together. *)

From S2P Require Import Prelude Coding Messages SubscriptionsMap ClientFacts Subscriber.

#[local] Open Scope outcome_scope.

(** The IDs of the active subscriptions. *)
Definition ids (m : SubscriptionsMap) : gset Z := dom (pending_subscriptions_ m) ∪ dom (synced_subscriptions_ m).

Lemma ids_Find m id : client_ok m -> id ∈ ids m <-> is_Some (Find m id).
Proof.
  intros Hm. unfold ids. rewrite elem_of_union, !elem_of_dom.
  pose proof (unique_Find_None _ id (ck_pending _ Hm)) as Hp. pose proof (unique_Find_None _ id (ck_synced _ Hm)) as Hs.
  pose proof (Find_None m id) as Hn. destruct (pending_subscriptions_ m !! id), (synced_subscriptions_ m !! id), (Find m id);
    rewrite ?is_Some_alt; naive_solver.
Qed.

Lemma ids_eq m m' : client_ok m -> client_ok m' -> (forall id, is_Some (Find m' id) <-> is_Some (Find m id)) -> ids m' = ids m.
Proof. intros Hm Hm' H. apply set_eq. intros id. by rewrite !ids_Find. Qed.

Lemma ids_added m m' id : client_ok m -> client_ok m' -> Find m id = None -> is_Some (Find m' id) ->
  (forall id', id' <> id -> Find m' id' = Find m id') -> ids m' = {[id]} ∪ ids m /\ size (ids m') = S (size (ids m)).
Proof.
  intros Hm Hm' Hn Hs Ho. assert (ids m' = {[id]} ∪ ids m) as E.
  { apply set_eq. intros k. rewrite elem_of_union, elem_of_singleton, !ids_Find by done. destruct (decide (k = id)) as [->|Hne]; [naive_solver|].
    rewrite Ho by done. naive_solver. }
  split; [done|]. rewrite E, size_union, size_singleton; [done|]. intros k ->%elem_of_singleton Hk. apply ids_Find in Hk; [|done].
  rewrite Hn in Hk. by destruct Hk.
Qed.

Lemma ids_removed m m' id : client_ok m -> client_ok m' -> is_Some (Find m id) -> Find m' id = None ->
  (forall id', id' <> id -> Find m' id' = Find m id') -> ids m = {[id]} ∪ ids m' /\ size (ids m) = S (size (ids m')).
Proof. intros Hm Hm' Hs Hn Ho. apply ids_added; try done. intros id' Hne. by rewrite Ho. Qed.

(** The counter is shared with other subscribers, which have [others] active
    subscriptions among them. *)
Record subscriber_ok_at (others : Z) (s : Subscriber) : Prop := {
  so_map : client_ok (subscriptions_map_ s);
  so_others : 0 <= others;
  so_count : num_active_subscriptions_ s = others + Z.of_nat (size (ids (subscriptions_map_ s)));
  so_max : num_active_subscriptions_ s <= max_active_subscriptions_ s < 2 ^ 64;
  so_observers : forall id b, Select s id = Some b -> user_data_ b <> 0;
  so_acks : forall id q, last_acks_map_ s !! id = Some q -> is_Some (Select s id)
}.

(** A subscriber that has the counter for itself. *)
Abbreviation subscriber_ok := (subscriber_ok_at 0).

Lemma NewSubscriber_ok others max notify : 0 <= others <= max -> max < 2 ^ 64 -> subscriber_ok_at others (NewSubscriber max others notify).
Proof.
  intros Hmax Hlt. split; [apply New_client_ok|apply Hmax|cbn; by rewrite Z.add_0_r|split; [apply Hmax|done]|done|].
  intros id q. cbn. by rewrite lookup_empty.
Qed.

(** The map changes and its subscriptions stay, but for what they expect. *)
Lemma set_map_ok others s m : subscriber_ok_at others s -> client_ok m ->
  (forall id, option_map user_data_ (Find m id) = option_map user_data_ (Select s id)) -> subscriber_ok_at others (set_map m s).
Proof.
  intros [Hm Hoth Hc Hmax Ho Ha] Hm' Hf.
  assert (forall id, is_Some (Find m id) <-> is_Some (Select s id)) as Hs.
  { intros id. specialize (Hf id). unfold is_Some. destruct (Find m id), (Select s id); naive_solver. }
  split; cbn; try done.
  - by rewrite (ids_eq (subscriptions_map_ s) m).
  - intros id b Hb. specialize (Hf id). unfold Select in *. cbn in Hb. rewrite Hb in Hf. cbn in Hf.
    destruct (Find (subscriptions_map_ s) id) as [b'|] eqn:E; [|done]. injection Hf as ->. by apply (Ho id).
  - intros id q Hq. apply Hs. by apply (Ha id q).
Qed.

Section Generic.
Context {C : Type} `{!ObserverIf C}.

Lemma StartSubscription_refused s (c c' : C) id p observer : max_active_subscriptions_ s <= num_active_subscriptions_ s ->
  OnSubscriptionStatusChange (subscriptions_map_ s) observer
    {| status_sub_id := id; status_tenant := param_tenant p; status_namespace := param_namespace p; status_topic := param_topic p;
       status_seqno := param_start_seqno p; status_ := StatusInvalidArgument |} c = Ok c' ->
  StartSubscription s c id p observer = Ok (s, c').
Proof. intros H E. unfold StartSubscription. rewrite (proj2 (Z.leb_le _ _) H), E. done. Qed.

Lemma StartSubscription_ok others s (c c' : C) id p observer : subscriber_ok_at others s -> num_active_subscriptions_ s < max_active_subscriptions_ s ->
  fresh (subscriptions_map_ s) id -> observer <> 0 ->
  (if currently_healthy_ s then Ok c else OnSubscriptionStatusChange (subscriptions_map_ s) observer
    {| status_sub_id := id; status_tenant := param_tenant p; status_namespace := param_namespace p; status_topic := param_topic p;
       status_seqno := param_start_seqno p; status_ := StatusShardUnhealthy |} c) = Ok c' ->
  exists s', StartSubscription s c id p observer = Ok (s', c') /\ subscriber_ok_at others s' /\
    num_active_subscriptions_ s' = num_active_subscriptions_ s + 1 /\ max_active_subscriptions_ s' = max_active_subscriptions_ s /\
    currently_healthy_ s' = currently_healthy_ s /\ events (subscriptions_map_ s') = events (subscriptions_map_ s) /\
    Select s' id = Some {| tenant_id := param_tenant p; namespace_id := param_namespace p; topic_name_ := param_topic p; sub_id_ := id;
                           expected_seqno_ := param_start_seqno p; user_data_ := observer |} /\
    forall id', id' <> id -> Select s' id' = Select s id'.
Proof.
  intros [Hm Hoth Hc Hmax Ho Ha] Hlt Hf Hobs Hcb. unfold StartSubscription. rewrite (proj2 (Z.leb_gt _ _) Hlt), Hcb. cbn [obind].
  destruct (Subscribe_ok _ id (param_tenant p) (param_namespace p) (param_topic p) (param_start_seqno p) observer Hm Hf)
    as (m' & -> & Hm' & He & Hid & Hother). cbn [obind]. eexists. split; [done|].
  assert (u64 (num_active_subscriptions_ s + 1) = num_active_subscriptions_ s + 1) as Hw by (apply wrap_small; split; lia).
  destruct (ids_added _ m' id Hm Hm' (proj1 Hf)) as [Hi Hsz]; [by eexists|done|]. split; [|split_and!; try done].
  split; cbn; rewrite ?Hw; [done|done|lia|lia| |].
  - intros k b. unfold Select. cbn. destruct (decide (k = id)) as [->|Hne]; [rewrite Hid; by intros [= <-]|rewrite Hother by done; by apply Ho].
  - intros k q Hq. unfold Select. cbn. destruct (decide (k = id)) as [->|Hne]; [by eexists|]. rewrite Hother by done. by apply (Ha k q).
Qed.

Lemma subscriber_ended others s m' id n : subscriber_ok_at others s -> client_ok m' -> is_Some (Select s id) -> Find m' id = None ->
  (forall id', id' <> id -> Find m' id' = Select s id') -> n = u64 (num_active_subscriptions_ s - 1) ->
  subscriber_ok_at others (set_map m' (set_num_active n (set_acks (delete id (last_acks_map_ s)) s))) /\ n = num_active_subscriptions_ s - 1.
Proof.
  intros [Hm Hoth Hc Hmax Ho Ha] Hm' Hs Hn Hother ->. destruct (ids_removed _ m' id Hm Hm' Hs Hn Hother) as [_ Hsz].
  assert (u64 (num_active_subscriptions_ s - 1) = num_active_subscriptions_ s - 1) as -> by (apply wrap_small; split; lia).
  split; [|done]. split; cbn; [done|done|lia|lia| |].
  - intros k b. unfold Select. cbn. destruct (decide (k = id)) as [->|Hne]; [by rewrite Hn|rewrite Hother by done; by apply Ho].
  - intros k q [Hne Hq]%lookup_delete_Some. unfold Select. cbn. rewrite Hother by done. by apply (Ha k q).
Qed.

Lemma TerminateSubscription_ok others s (c c' : C) id b : subscriber_ok_at others s -> Select s id = Some b ->
  OnSubscriptionStatusChange (subscriptions_map_ s) (user_data_ b) (status_of b id StatusOK) c = Ok c' ->
  exists s' u, TerminateSubscription s c id = Ok (s', c') /\ subscriber_ok_at others s' /\
    num_active_subscriptions_ s' = num_active_subscriptions_ s - 1 /\ max_active_subscriptions_ s' = max_active_subscriptions_ s /\
    currently_healthy_ s' = currently_healthy_ s /\ events (subscriptions_map_ s') = events (subscriptions_map_ s) ++ [Cleaned u] /\
    Select s' id = None /\ forall id', id' <> id -> Select s' id' = Select s id'.
Proof.
  intros Hs Hb Hcb. pose proof Hs as [Hm Hoth Hc Hmax Ho Ha]. unfold TerminateSubscription, ReceiveTerminate. rewrite Hb. cbn [Z.eqb kRequested kInvalid].
  rewrite (proj2 (Z.eqb_neq _ _) (Ho id b Hb)). cbn [negb assert_that obind]. rewrite Hcb. cbn [obind subscriptions_map_ set_num_active set_acks].
  destruct (Unsubscribe_ok _ id b Hm Hb) as (m' & -> & Hm' & He & Hn & Hother). cbn [obind].
  destruct (subscriber_ended others s m' id _ Hs Hm' ltac:(by eexists) Hn Hother eq_refl) as [Hs' Hw].
  eexists _, (user_data_ b). split; [done|]. split; [|split_and!; try done].
  cbn. destruct Hs' as [H1 H2 H3 H4 H5 H6]. split; cbn in *; try done. intros k q [_ Hq]%lookup_delete_Some. by apply (H6 k q).
Qed.
End Generic.

(** ** Messages of the server *)

Lemma ReceiveTerminate_ok {C : Type} `{!ObserverIf C} others s (c c' : C) id b reason : subscriber_ok_at others s -> Select s id = Some b ->
  OnSubscriptionStatusChange (subscriptions_map_ s) (user_data_ b)
    (status_of b id (if reason =? kInvalid then StatusInvalidArgument else StatusOK)) c = Ok c' ->
  ReceiveTerminate s c id reason = Ok (set_num_active (u64 (num_active_subscriptions_ s - 1)) (set_acks (delete id (last_acks_map_ s)) s), c').
Proof.
  intros [_ _ _ _ Ho _] Hb Hcb. unfold ReceiveTerminate. rewrite Hb, (proj2 (Z.eqb_neq _ _) (Ho id b Hb)). cbn [negb assert_that obind].
  by rewrite Hcb.
Qed.

(** ** The machine *)

Inductive sub_action :=
| SubStart (id : Z) (p : SubscriptionParameters) (observer : Z)
| SubAcknowledge (id seqno : Z)
| SubTerminate (id : Z)
| SubHearUnsubscribe (id reason : Z)
| SubHearDeliver (id previous current : Z) (u : Update)
| SubHealthy (b : bool)
| SubStream (a : client_action).

Definition sub_state : Type := Subscriber * list UserCall.

Definition run_sub (a : sub_action) (sc : sub_state) : outcome sub_state :=
  let '(s, c) := sc in
  match a with
  | SubStart id p observer => StartSubscription s c id p observer
  | SubAcknowledge id seqno => Ok (Acknowledge s id seqno, c)
  | SubTerminate id => TerminateSubscription s c id
  | SubHearUnsubscribe id reason => Subscriber_ReceiveUnsubscribe s c id reason
  | SubHearDeliver id previous current u => Subscriber_Deliver s c id previous current u
  | SubHealthy b => NotifyHealthy s c b
  | SubStream a => m <~ run_client a (subscriptions_map_ s) ;; Ok (set_map m s, c)
  end.

Definition valid_update (u : Update) : Prop :=
  match u with UpdateGap type _ _ => ValidateGapType type = true | _ => True end.

Definition sub_enabled (sc : sub_state) (a : sub_action) : Prop :=
  let m := subscriptions_map_ (fst sc) in
  match a with
  | SubStart id _ observer => fresh m id /\ observer <> 0
  | SubHearUnsubscribe id _ => sink_ m = true /\ id ∈ known (events m)
  | SubHearDeliver id previous current u => sink_ m = true /\ id ∈ known (events m) /\ previous <= current /\ valid_update u
  | SubStream a => stream_action a /\ client_enabled m a
  | _ => True
  end.

Inductive sub_runs : sub_state -> list sub_action -> sub_state -> Prop :=
| sub_runs_nil sc : sub_runs sc [] sc
| sub_runs_cons sc a acts sc1 sc' : sub_enabled sc a -> run_sub a sc = Ok sc1 -> sub_runs sc1 acts sc' -> sub_runs sc (a :: acts) sc'.

Lemma Iterate_elem m b : client_ok m -> b ∈ Iterate m <-> Find m (sub_id_ b) = Some b.
Proof.
  intros Hm. unfold Iterate. rewrite elem_of_app, (values_elem _ b (ck_pending _ Hm)), (values_elem _ b (ck_synced _ Hm)).
  rewrite <-(unique_Find _ _ _ (ck_pending _ Hm)), <-(unique_Find _ _ _ (ck_synced _ Hm)). unfold Find. split.
  - intros [H| ->]; [|done]. by rewrite (ck_apart _ Hm _ _ H).
  - destruct (Keyless.Find (sub_id_ b) (synced_subscriptions_ m)); auto.
Qed.

Lemma Find_id m id b : client_ok m -> Find m id = Some b -> sub_id_ b = id.
Proof.
  intros Hm. unfold Find. destruct (Keyless.Find id (synced_subscriptions_ m)) as [x|] eqn:E.
  - intros [= <-]. by apply (unique_id _ _ _ (ck_synced _ Hm) E).
  - apply (unique_id _ _ _ (ck_pending _ Hm)).
Qed.

Lemma notify_all_ok s code subs c : (forall b, b ∈ subs -> is_Some (Select s (sub_id_ b))) ->
  exists c', notify_all s code subs c = Ok (c' : list UserCall).
Proof.
  revert c. induction subs as [|b subs IH]; intros c Hin; [by eexists|]. cbn.
  destruct (Hin b ltac:(by left)) as [x Hx]. rewrite Hx. apply IH. intros y Hy. apply Hin. by right.
Qed.

Lemma ReceiveDeliver_users m id previous current m' b : client_ok m -> id ∈ known (events m) -> previous <= current ->
  ReceiveDeliver m id previous current = Ok (m', b) ->
  (forall k, option_map user_data_ (Find m' k) = option_map user_data_ (Find m k)) /\ (b = true -> is_Some (Find m' id)).
Proof.
  intros Hm Hk Hle. unfold ReceiveDeliver. rewrite bool_decide_eq_true_2 by (by apply (ck_unsent _ Hm)). cbn [assert_that obind].
  destruct (Keyless.Find id (synced_subscriptions_ m)) as [x|] eqn:Es; [|by intros [= <- <-]].
  unfold ProcessUpdate. rewrite (proj2 (Z.leb_le _ _) Hle). cbn [assert_that obind]. destruct (_ || _); cbn [obind]; [by intros [= <- <-]|].
  intros [= <- <-]. set (y := set_expected (u64 (current + 1)) x).
  assert (sub_id_ y = id) as Hy by (by apply (unique_id _ _ _ (ck_synced _ Hm) Es)).
  unfold Find. cbn. rewrite (Update_unique _ _ _ _ (ck_synced _ Hm) Es). split.
  - intros k. rewrite (Find_update _ id y) by done. case_decide as Hd; [|done]. subst k. by rewrite Es.
  - intros _. rewrite (Find_update _ id y), decide_True by done. by eexists.
Qed.

Lemma stream_Find m a m' : client_ok m -> stream_action a -> client_enabled m a -> run_client a m = Ok m' -> forall k, Find m' k = Find m k.
Proof.
  intros Hm Hst Hen E k. destruct a as [| | | |i|i| | | |]; try done; cbn [run_client client_enabled] in *.
  - destruct Hen as [Hr [x Hx]]. destruct (DrainSubscription_ok _ i x Hm (ck_sink _ Hm Hr) Hx) as (m1 & q & E1 & _ & _ & _ & _ & _ & _ & _ & Hf). congruence.
  - destruct Hen as [Hr Hx]. destruct (DrainUnsubscription_ok _ i Hm (ck_sink _ Hm Hr) Hx) as (m1 & q & E1 & _ & _ & _ & _ & _ & Hf). congruence.
  - destruct (ConnectionCreated_ok _ Hm) as (m1 & E1 & _ & _ & Hf). congruence.
  - by injection E as <-.
Qed.

(** The subscription that an action may bring. *)
Definition sub_brings (a : sub_action) (id : Z) : Prop := match a with SubStart i _ _ => id = i | _ => False end.

Lemma sub_step others sc a : subscriber_ok_at others (fst sc) -> sub_enabled sc a ->
  exists sc', run_sub a sc = Ok sc' /\ subscriber_ok_at others (fst sc') /\
    max_active_subscriptions_ (fst sc') = max_active_subscriptions_ (fst sc) /\
    (forall k, is_Some (Select (fst sc') k) -> is_Some (Select (fst sc) k) \/ sub_brings a k).
Proof.
  destruct sc as [s c]. cbn [fst]. intros Hs Hen. pose proof Hs as [Hm Hoth Hc Hmax Ho Ha].
  destruct a as [id p observer|id seqno|id|id reason|id previous current u|b|a]; cbn [run_sub sub_enabled fst] in *.
  - destruct Hen as [Hf Hobs]. destruct (Z.leb_spec (max_active_subscriptions_ s) (num_active_subscriptions_ s)) as [Hle|Hlt].
    + rewrite (@StartSubscription_refused _ application s c _ id p observer Hle eq_refl). eexists. split_and!; auto.
    + assert (exists c', (if currently_healthy_ s then Ok c else OnSubscriptionStatusChange (subscriptions_map_ s) observer
        {| status_sub_id := id; status_tenant := param_tenant p; status_namespace := param_namespace p; status_topic := param_topic p;
           status_seqno := param_start_seqno p; status_ := StatusShardUnhealthy |} c) = Ok c') as [c' Hc'] by (destruct (currently_healthy_ s); by eexists).
      destruct (StartSubscription_ok others s c c' id p observer Hs Hlt Hf Hobs Hc') as (s' & E & Hs' & _ & Hmx & _ & _ & _ & Hsel). rewrite E.
      eexists. split_and!; try done. intros k. cbn. destruct (decide (k = id)) as [->|Hne]; [by right|]. rewrite Hsel by done. by left.
  - eexists. split; [done|]. cbn. unfold Acknowledge, Exists. destruct (bool_decide_reflect (is_Some (Find (subscriptions_map_ s) id))) as [Hex|]; [|by split_and!; auto].
    split_and!; [|done|by left]. split; cbn; try done. intros k q. rewrite lookup_insert_Some. intros [[<- _]|[_ Hq]]; [done|]. by apply (Ha k q).
  - destruct (Select s id) as [b|] eqn:Eb.
    + destruct (@TerminateSubscription_ok _ application others s c (c ++ [UserStatus (user_data_ b) (status_of b id StatusOK)]) id b Hs Eb eq_refl)
        as (s' & u & E & Hs' & _ & Hmx & _ & _ & Hn & Hsel). rewrite E. eexists. split_and!; try done.
      intros k. cbn. destruct (decide (k = id)) as [->|Hne]; [rewrite Hn; by intros [? ?]|]. rewrite Hsel by done. by left.
    + unfold TerminateSubscription. rewrite Eb. cbn [obind]. eexists. split; [done|]. split_and!; [|done|by left]. split; cbn; try done.
      intros k q [_ Hq]%lookup_delete_Some. by apply (Ha k q).
  - destruct Hen as [_ Hk]. destruct (ReceiveUnsubscribe_cases _ id reason Hm Hk) as (m' & es & Hm' & He & Hf & [(Hid & Hn & E)|(Hid & E)]);
      unfold Subscriber_ReceiveUnsubscribe; rewrite E; cbn [obind fst snd].
    + destruct Hid as [b Hb]. rewrite (@ReceiveTerminate_ok _ application others s c _ id b reason Hs Hb eq_refl). cbn [obind fst snd]. eexists. split; [done|].
      split_and!; [by apply (subscriber_ended others s m' id _ Hs Hm' ltac:(by eexists) Hn Hf eq_refl)|done|].
      intros k. unfold Select. cbn. destruct (decide (k = id)) as [->|Hne]; [rewrite Hn; by intros [? ?]|]. rewrite Hf by done. by left.
    + assert (forall k, Find m' k = Select s k) as Hsame by (intros k; unfold Select; destruct (decide (k = id)) as [->|Hne]; [by rewrite Hid|by rewrite Hf]).
      eexists. split; [done|]. split_and!; [cbn; apply set_map_ok; try done; intros k; by rewrite Hsame|done|].
      intros k Hk'. left. by rewrite <-Hsame.
  - destruct Hen as (_ & Hk & Hle & Hu). destruct (ReceiveDeliver_ok _ id previous current Hm Hk Hle) as (m' & b & es & E & Hm' & He & Hf & Hkeep).
    unfold Subscriber_Deliver. rewrite E. cbn [obind].
    destruct (ReceiveDeliver_users _ id previous current m' b Hm Hk Hle E) as [Hud Hid].
    assert (subscriber_ok_at others (set_map m' s)) as Hs' by (by apply set_map_ok).
    assert (forall k, is_Some (Select (set_map m' s) k) -> is_Some (Select s k) \/ False) as Hsel.
    { intros k. specialize (Hud k). unfold Select. cbn. destruct (Find m' k), (Find (subscriptions_map_ s) k); cbn in *; try discriminate; intros [? ?]; try discriminate; left; by eexists. }
    assert (forall c', exists sc', Ok (set_map m' s, c' : list UserCall) = Ok sc' /\ subscriber_ok_at others (fst sc') /\
      max_active_subscriptions_ (fst sc') = max_active_subscriptions_ s /\ (forall k, is_Some (Select (fst sc') k) -> is_Some (Select s k) \/ False)) as Hdone
      by (intros c'; eexists; split_and!; done).
    destruct b; [|apply Hdone]. destruct (Hid eq_refl) as [x Hx]. unfold Subscriber_ReceiveDeliver, Select. cbn [set_map subscriptions_map_].
    rewrite Hx. destruct u as [seqno payload|type first last]; cbn [OnMessageReceived OnDataLoss application obind]; [apply Hdone|].
    destruct (Z.eqb_spec type kBenign) as [|Hnb]; [apply Hdone|]. unfold GetLossType. cbn in Hu. unfold ValidateGapType, kBenign, kRetention in *. rewrite (proj2 (orb_true_iff _ _)); [apply Hdone|].
    unfold kDataLoss, kRetention in *. prop_bools. destruct (Z.eq_dec type 1) as [->|]; [by left|right; apply Z.eqb_eq; lia].
  - unfold NotifyHealthy. destruct (Bool.eqb _ _); [eexists; split_and!; auto|].
    assert (subscriber_ok_at others (set_healthy b s)) as Hs' by (by split). destruct (negb _); [eexists; split_and!; try done; by left|].
    destruct (notify_all_ok (set_healthy b s) (if b then StatusOK else StatusShardUnhealthy) (Iterate (subscriptions_map_ (set_healthy b s))) c) as (c' & E).
    { intros x Hx. apply Iterate_elem in Hx; [|done]. by eexists. }
    rewrite E. eexists. split_and!; try done. by left.
  - destruct Hen as [Hst Hen]. destruct (client_step _ a Hm Hen) as (m' & es & E & Hm' & He & Hk). rewrite E. cbn [obind]. eexists. split; [done|].
    pose proof (stream_Find _ a m' Hm Hst Hen E) as Hsame. split_and!; [cbn; apply set_map_ok; try done; intros k; unfold Select; by rewrite Hsame|done|].
    intros k. unfold Select. cbn. rewrite Hsame. by left.
Qed.

(** ** Snapshots *)

(** Where a restored subscription starts: after what was acknowledged. *)
Definition resume_at (s : Subscriber) (id : Z) : Z :=
  match last_acks_map_ s !! id with Some q => if 0 <? q then u64 (q + 1) else q | None => 0 end.

Definition snapshot_entry (s : Subscriber) (b : SubscriptionBase) : Z * slice * slice * Z :=
  (tenant_id b, namespace_id b, topic_name_ b, resume_at s (sub_id_ b)).

Lemma save_all_eq s n subs : save_all s (fun _ => true) n subs = (map (snapshot_entry s) subs, true).
Proof.
  revert n. induction subs as [|b subs IH]; intros n; [done|]. cbn. rewrite IH. f_equal. f_equal. unfold snapshot_entry, resume_at, GetLastAcknowledged.
  by destruct (last_acks_map_ s !! sub_id_ b).
Qed.

Lemma Iterate_NoDup m : client_ok m -> NoDup (map sub_id_ (Iterate m)).
Proof.
  intros Hm. unfold Iterate. rewrite map_app. apply NoDup_app. split; [by apply values_ids_NoDup, (ck_pending _ Hm)|].
  split; [|by apply values_ids_NoDup, (ck_synced _ Hm)]. intros k (b & -> & Hb)%list_elem_of_fmap (b' & Hid & Hb')%list_elem_of_fmap.
  apply (values_elem _ _ (ck_pending _ Hm)), (unique_Find _ _ _ (ck_pending _ Hm)) in Hb.
  apply (values_elem _ _ (ck_synced _ Hm)), (unique_Find _ _ _ (ck_synced _ Hm)) in Hb'.
  rewrite Hid in Hb. apply (ck_apart _ Hm) in Hb. congruence.
Qed.

Lemma Iterate_length m : client_ok m -> length (Iterate m) = size (ids m).
Proof.
  intros Hm. rewrite <-(length_map sub_id_). change (size (ids m)) with (length (elements (ids m))). apply Permutation_length, NoDup_Permutation.
  - by apply Iterate_NoDup.
  - apply NoDup_elements.
  - intros id. rewrite elem_of_elements, ids_Find by done. rewrite list_elem_of_fmap. split.
    + intros (b & -> & Hb%Iterate_elem); [|done]. by eexists.
    + intros [b Hb]. pose proof (Find_id _ _ _ Hm Hb) as Hid. exists b. split; [done|]. apply Iterate_elem; [done|]. by rewrite Hid.
Qed.

(** ** Example *)

(** A subscriber for one subscription, which is acknowledged at 7. *)
Definition example_params : SubscriptionParameters :=
  {| param_tenant := 1; param_namespace := [Byte.x62]; param_topic := [Byte.x61]; param_start_seqno := 5 |}.
Definition example_sub_acts : list sub_action :=
  [SubStart 9 example_params 1000; SubStream Connected; SubStream (SendSubscribe 9);
   SubHearDeliver 9 5 7 (UpdateData 7 [Byte.x70]); SubAcknowledge 9 7].
Fixpoint sub_after (acts : list sub_action) (sc : sub_state) : sub_state :=
  match acts with [] => sc | a :: acts => sub_after acts (match run_sub a sc with Ok sc' => sc' | Abort _ => sc end) end.
Definition example_sub : sub_state := sub_after example_sub_acts (NewSubscriber 1 0 true, []).

Lemma example_sub_runs : sub_runs (NewSubscriber 1 0 true, []) example_sub_acts (fst example_sub, snd example_sub).
Proof.
  econstructor; [split; [split; [done|split; by vm_compute]|done]|vm_compute; reflexivity|].
  econstructor; [done|vm_compute; reflexivity|].
  econstructor; [split; [done|split; [done|by eexists]]|vm_compute; reflexivity|].
  econstructor; [split; [done|split; [by vm_compute|split; [lia|done]]]|vm_compute; reflexivity|].
  econstructor; [done|vm_compute; reflexivity|]. constructor.
Qed.

(** ** What the code does not do *)

(** A subscription the server ends is leaked.  [ReceiveUnsubscribe] takes
    the subscription out of the map without [CleanupSubscription], whose caller
    owns the object: neither then nor when the map is destroyed is the observer
    1000 handed to the clean-up callback. *)
Theorem server_unsubscribe_leaks :
  let '(s, c) := sub_after [SubHearUnsubscribe 9 kInvalid] example_sub in
  Select s 9 = None /\ ~ (Cleaned 1000 ∈ events (subscriptions_map_ s) ++ Destroy (subscriptions_map_ s)) /\
  (exists b, Select (fst example_sub) 9 = Some b /\ user_data_ b = 1000).
Proof.
  vm_compute. split; [reflexivity|]. split; [|by eexists].
  intros H. repeat (apply elem_of_cons in H as [H|H]; [discriminate H|]). by apply elem_of_nil in H.
Qed.

(** A subscription with the ID of another one is accepted, since the table is a
    multi-map: the check of the ID never fails. *)
Theorem duplicate_id_accepted :
  (m <~ Subscribe NewSubscriptionsMap 9 1 [Byte.x62] [Byte.x61] 5 1000 ;;
   m <~ Subscribe m 9 1 [Byte.x62] [Byte.x65] 0 1001 ;;
   Ok (map (fun b => (sub_id_ b, user_data_ b)) (Iterate m))) = Ok [(9, 1000); (9, 1001)].
Proof. vm_compute. reflexivity. Qed.
