(* ===== verification/MultiShard.v ===== *)
(** * The subscriber of a thread

    Model of [src/client/multi_shard_subscriber.cc]: the subscribers of the
    shards that a thread of the client serves, created when a shard gets its
    first subscription and destroyed when it loses the last one.  They share
    one counter of active subscriptions, and with it the limit of the thread.

    The router is an argument.  The subscribers are those of Subscriber.v (the
    option that collapses subscriptions to the tail is off), and that they ask
    the router for hosts again is left out. *)

From S2P Require Import Prelude Coding Messages SubscriptionId SubscriptionsMap ClientFacts Subscriber SubscriberFacts.

#[local] Open Scope outcome_scope.

(** [shared_num_active] is the counter behind [num_active_subscriptions_]; the
    fields of that name in the subscribers are not read. *)
Record MultiShardSubscriber := {
  subscribers_ : gmap Z Subscriber;
  shared_num_active : Z;
  multi_max_active : Z;
  multi_notify_health : bool
}.

Definition NewMultiShardSubscriber (max_active : Z) (notify : bool) : MultiShardSubscriber :=
  {| subscribers_ := ∅; shared_num_active := 0; multi_max_active := max_active; multi_notify_health := notify |}.

(** A subscriber as it is when it is called, and the state after the call. *)
Definition load (self : MultiShardSubscriber) (s : Subscriber) : Subscriber := set_num_active (shared_num_active self) s.

Definition store (shard_id : Z) (s : Subscriber) (self : MultiShardSubscriber) : MultiShardSubscriber :=
  {| subscribers_ := <[shard_id := s]> (subscribers_ self); shared_num_active := num_active_subscriptions_ s;
     multi_max_active := multi_max_active self; multi_notify_health := multi_notify_health self |}.

Definition erase_shard (shard_id : Z) (self : MultiShardSubscriber) : MultiShardSubscriber :=
  {| subscribers_ := delete shard_id (subscribers_ self); shared_num_active := shared_num_active self;
     multi_max_active := multi_max_active self; multi_notify_health := multi_notify_health self |}.

Definition GetSubscriberForSubscription (self : MultiShardSubscriber) (sub_id : Z) : outcome (option (Z * Subscriber)) :=
  shard_id <~ GetShardID sub_id ;;
  Ok (pair shard_id <$> subscribers_ self !! shard_id).

Definition Multi_Acknowledge (self : MultiShardSubscriber) (sub_id seqno : Z) : outcome MultiShardSubscriber :=
  r <~ GetSubscriberForSubscription self sub_id ;;
  match r with
  | Some (shard_id, s) => Ok (store shard_id (Acknowledge (load self s) sub_id seqno) self)
  | None => Ok self
  end.

(** The subscribers append to one snapshot, in the order of the table, until
    one fails. *)
Fixpoint Multi_SaveState (self : MultiShardSubscriber) (append : nat -> bool) (order : list Z) : list (Z * slice * slice * Z) * bool :=
  match order with
  | [] => ([], true)
  | shard_id :: order =>
      match subscribers_ self !! shard_id with
      | None => Multi_SaveState self append order
      | Some s =>
          let '(entries, ok) := SaveState s append in
          if ok : bool then
            let '(more, ok) := Multi_SaveState self (fun n => append (length entries + n)%nat) order in (entries ++ more, ok)
          else (entries, false)
      end
  end.

Definition Multi_Empty (self : MultiShardSubscriber) : bool := bool_decide (subscribers_ self = ∅).

Section MultiShard.
Context {C : Type} `{!ObserverIf C}.
Context (GetShard : slice -> slice -> Z).

Definition Multi_StartSubscription (self : MultiShardSubscriber) (c : C) (sub_id : Z) (p : SubscriptionParameters) (observer : Z)
    : outcome (MultiShardSubscriber * C) :=
  shard_id <~ GetShardID sub_id ;;
  assert_that (shard_id =? GetShard (param_namespace p) (param_topic p)) "shard_id == options_.sharding->GetShard()" ;;;
  let s := default (NewSubscriber (multi_max_active self) (shared_num_active self) (multi_notify_health self)) (subscribers_ self !! shard_id) in
  r <~ StartSubscription (load self s) c sub_id p observer ;;
  Ok (store shard_id (fst r) self, snd r).

Definition Multi_TerminateSubscription (self : MultiShardSubscriber) (c : C) (sub_id : Z) : outcome (MultiShardSubscriber * C) :=
  r <~ GetSubscriberForSubscription self sub_id ;;
  match r with
  | Some (shard_id, s) =>
      r <~ TerminateSubscription (load self s) c sub_id ;;
      let self := store shard_id (fst r) self in
      Ok (if Empty (subscriptions_map_ (fst r)) then erase_shard shard_id self else self, snd r)
  | None => Ok (self, c)
  end.

(** [order] is the order of the entries of the table. *)
Fixpoint Multi_NotifyHealthy (self : MultiShardSubscriber) (c : C) (isHealthy : bool) (order : list Z) : outcome (MultiShardSubscriber * C) :=
  match order with
  | [] => Ok (self, c)
  | shard_id :: order =>
      match subscribers_ self !! shard_id with
      | None => Abort "invalid iterator"
      | Some s =>
          r <~ NotifyHealthy (load self s) c isHealthy ;;
          Multi_NotifyHealthy (store shard_id (fst r) self) (snd r) isHealthy order
      end
  end.
End MultiShard.

(** ** The machine *)

(** What the application asks for, and what happens to the subscriber of a
    shard: its stream, the messages of its server, the health of its shard. *)
Inductive multi_action :=
| MultiStart (id : Z) (p : SubscriptionParameters) (observer : Z)
| MultiAcknowledge (id seqno : Z)
| MultiTerminate (id : Z)
| MultiHealthy (b : bool) (order : list Z)
| OnShard (shard_id : Z) (a : sub_action).

Definition multi_state : Type := MultiShardSubscriber * list UserCall.

Section Machine.
Context (GetShard : slice -> slice -> Z).

Definition run_multi (a : multi_action) (sc : multi_state) : outcome multi_state :=
  let '(self, c) := sc in
  match a with
  | MultiStart id p observer => Multi_StartSubscription GetShard self c id p observer
  | MultiAcknowledge id seqno => self <~ Multi_Acknowledge self id seqno ;; Ok (self, c)
  | MultiTerminate id => Multi_TerminateSubscription self c id
  | MultiHealthy b order => Multi_NotifyHealthy self c b order
  | OnShard shard_id a =>
      match subscribers_ self !! shard_id with
      | None => Abort "no subscriber"
      | Some s => r <~ run_sub a (load self s, c) ;; Ok (store shard_id (fst r) self, snd r)
      end
  end.

(** An ID names its shard, the shard of the topic for a new subscription, and is
    new to the subscriber of the shard; the environment of a shard keeps the
    promises of [sub_enabled]. *)
Definition multi_enabled (sc : multi_state) (a : multi_action) : Prop :=
  let '(self, c) := sc in
  match a with
  | MultiStart id p observer => exists shard_id, GetShardID id = Ok shard_id /\ shard_id = GetShard (param_namespace p) (param_topic p) /\ observer <> 0 /\
      forall s, subscribers_ self !! shard_id = Some s -> fresh (subscriptions_map_ s) id
  | MultiAcknowledge id _ | MultiTerminate id => exists shard_id, GetShardID id = Ok shard_id
  | MultiHealthy _ order => order ≡ₚ elements (dom (subscribers_ self))
  | OnShard shard_id a => exists s, subscribers_ self !! shard_id = Some s /\ sub_enabled (s, c) a /\
      match a with SubHearUnsubscribe _ _ | SubHearDeliver _ _ _ _ | SubHealthy _ | SubStream _ => True | _ => False end
  end.

Inductive multi_runs : multi_state -> list multi_action -> multi_state -> Prop :=
| multi_runs_nil sc : multi_runs sc [] sc
| multi_runs_cons sc a acts sc1 sc' : multi_enabled sc a -> run_multi a sc = Ok sc1 -> multi_runs sc1 acts sc' -> multi_runs sc (a :: acts) sc'.
End Machine.

(** ** Counting *)

Definition count (s : Subscriber) : Z := Z.of_nat (size (ids (subscriptions_map_ s))).
Definition active (m : gmap Z Subscriber) : Z := map_fold (fun _ s n => count s + n) 0 m.
Definition count_at (m : gmap Z Subscriber) (shard : Z) : Z := match m !! shard with Some s => count s | None => 0 end.

Lemma active_delete m k s : m !! k = Some s -> active m = count s + active (delete k m).
Proof. intros Hk. unfold active. apply (map_fold_delete_L (fun _ s n => count s + n)); [intros; lia|done]. Qed.

Lemma active_insert m k s : active (<[k := s]> m) = active m - count_at m k + count s.
Proof.
  unfold count_at. rewrite <-insert_delete_eq. unfold active at 1.
  rewrite (map_fold_insert_L (fun _ s n => count s + n)) by (try apply lookup_delete_eq; intros; lia).
  fold (active (delete k m)). destruct (m !! k) as [s0|] eqn:E; [rewrite (active_delete m k s0 E); lia|]. rewrite delete_id by done. lia.
Qed.

Lemma active_nonneg m : 0 <= active m.
Proof. unfold active. apply (map_fold_weak_ind (fun n _ => 0 <= n)); [done|]. intros k s m' n _ Hn. unfold count. lia. Qed.

Lemma count_at_le m k s : m !! k = Some s -> count s <= active m.
Proof. intros Hk. rewrite (active_delete m k s Hk). pose proof (active_nonneg (delete k m)). lia. Qed.

(** All active subscriptions of the thread. *)
Definition all_subscriptions (self : MultiShardSubscriber) : list SubscriptionBase :=
  concat (map (fun e => Iterate (subscriptions_map_ (snd e))) (map_to_list (subscribers_ self))).

(** ** Invariant *)

Record shard_ok (self : MultiShardSubscriber) (shard : Z) (s : Subscriber) : Prop := {
  sh_ok : subscriber_ok_at (shared_num_active self - count s) (load self s);
  sh_max : max_active_subscriptions_ s = multi_max_active self;
  sh_ids : forall id, is_Some (Select s id) -> GetShardID id = Ok shard
}.

Record multi_ok (self : MultiShardSubscriber) : Prop := {
  mo_count : shared_num_active self = active (subscribers_ self);
  mo_max : shared_num_active self <= multi_max_active self < 2 ^ 64;
  mo_shard : forall shard s, subscribers_ self !! shard = Some s -> shard_ok self shard s
}.

Lemma NewMultiShard_ok max notify : 0 <= max < 2 ^ 64 -> multi_ok (NewMultiShardSubscriber max notify).
Proof. intros Hmax. split; cbn; [done|done|]. intros shard s. by rewrite lookup_empty. Qed.

(** The value of the counter does not matter to a subscriber. *)
Lemma recount others s n0 n : subscriber_ok_at others (set_num_active n0 s) -> count s <= n <= max_active_subscriptions_ s ->
  subscriber_ok_at (n - count s) (set_num_active n s).
Proof. intros [Hm Hoth Hc Hmax Ho Ha] Hn. cbn in *. split; cbn; try done; unfold count in *; lia. Qed.

Lemma set_num_same s : set_num_active (num_active_subscriptions_ s) s = s.
Proof. by destruct s. Qed.

(** A call of the subscriber of a shard. *)
Lemma store_ok self shard s' : multi_ok self ->
  subscriber_ok_at (shared_num_active self - count_at (subscribers_ self) shard) s' -> max_active_subscriptions_ s' = multi_max_active self ->
  (forall id, is_Some (Select s' id) -> GetShardID id = Ok shard) -> multi_ok (store shard s' self).
Proof.
  intros Hself Hs' Hmax Hids. pose proof Hs' as [_ _ Hc Hm _ _]. rewrite (mo_count _ Hself) in Hc. fold (count s') in Hc.
  assert (num_active_subscriptions_ s' = active (<[shard := s']> (subscribers_ self))) as Hn by (rewrite active_insert; lia).
  split; cbn; [done|lia|]. intros k s Hk. pose proof (count_at_le _ _ _ Hk) as Hle. rewrite <-Hn in Hle.
  assert (exists o n0, subscriber_ok_at o (set_num_active n0 s) /\ max_active_subscriptions_ s = multi_max_active self /\
    (forall id, is_Some (Select s id) -> GetShardID id = Ok k)) as (o & n0 & Hs & Hmx & Hid).
  { apply lookup_insert_Some in Hk as [[<- <-]|[_ Hk]].
    - eexists _, (num_active_subscriptions_ s'). rewrite set_num_same. by split_and!.
    - destruct (mo_shard _ Hself k s Hk) as [Hok Hmx Hid]. by eexists _, _. }
  split; cbn; [|done|done]. apply (recount o s n0 (num_active_subscriptions_ s') Hs). lia.
Qed.

Lemma erase_ok self shard s : multi_ok self -> subscribers_ self !! shard = Some s -> ids (subscriptions_map_ s) = ∅ -> multi_ok (erase_shard shard self).
Proof.
  intros Hself Hk He. assert (count s = 0) as Hz by (unfold count; by rewrite He). split; cbn.
  - rewrite (mo_count _ Hself). rewrite (active_delete _ _ _ Hk). lia.
  - apply Hself.
  - intros k s2 [_ Hk2]%lookup_delete_Some. destruct (mo_shard _ Hself k s2 Hk2). by split.
Qed.

(** The subscriber that a shard has, or that it gets. *)
Definition shard_subscriber (self : MultiShardSubscriber) (shard : Z) : Subscriber :=
  default (NewSubscriber (multi_max_active self) (shared_num_active self) (multi_notify_health self)) (subscribers_ self !! shard).

Lemma shard_subscriber_ok self shard : multi_ok self ->
  subscriber_ok_at (shared_num_active self - count_at (subscribers_ self) shard) (load self (shard_subscriber self shard)) /\
  max_active_subscriptions_ (shard_subscriber self shard) = multi_max_active self /\
  (forall id, is_Some (Select (shard_subscriber self shard) id) -> GetShardID id = Ok shard).
Proof.
  intros Hself. unfold shard_subscriber, count_at. destruct (subscribers_ self !! shard) as [s|] eqn:E; cbn [default from_option id].
  - by destruct (mo_shard _ Hself shard s E).
  - rewrite Z.sub_0_r. split_and!; [|done|by intros ? [? ?]]. pose proof (mo_max _ Hself) as Hmax. pose proof (active_nonneg (subscribers_ self)) as Hn.
    rewrite <-(mo_count _ Hself) in Hn. apply (NewSubscriber_ok (shared_num_active self)); cbn; lia.
Qed.

Lemma Empty_ids m : client_ok m -> Empty m = true <-> Iterate m = [].
Proof.
  intros Hm. unfold Empty, Iterate, Keyless.Size. rewrite andb_true_iff, !Nat.eqb_eq, !length_zero_iff_nil. split; [by intros [-> ->]|].
  intros [? ?]%app_eq_nil. done.
Qed.

Lemma Iterate_ids m : client_ok m -> Iterate m = [] -> ids m = ∅.
Proof. intros Hm E. apply leibniz_equiv, size_empty_inv. by rewrite <-Iterate_length, E. Qed.

(** *** Each action *)

Lemma start_step GetShard self c id p observer : multi_ok self -> multi_enabled GetShard (self, c) (MultiStart id p observer) ->
  exists shard s' c', GetShardID id = Ok shard /\ run_multi GetShard (MultiStart id p observer) (self, c) = Ok (store shard s' self, c') /\
    multi_ok (store shard s' self) /\
    ((shared_num_active self = multi_max_active self /\ s' = load self (shard_subscriber self shard) /\
      exists status, status_ status = StatusInvalidArgument /\ c' = c ++ [UserStatus observer status]) \/
     (shared_num_active self < multi_max_active self /\ num_active_subscriptions_ s' = shared_num_active self + 1 /\
      Select s' id = Some {| tenant_id := param_tenant p; namespace_id := param_namespace p; topic_name_ := param_topic p; sub_id_ := id;
                             expected_seqno_ := param_start_seqno p; user_data_ := observer |} /\
      forall id', id' <> id -> Select s' id' = Select (shard_subscriber self shard) id')).
Proof.
  intros Hself (shard & Hsh & Hg & Hobs & Hfresh). cbn [run_multi]. unfold Multi_StartSubscription. rewrite Hsh. cbn [obind].
  rewrite (proj2 (Z.eqb_eq _ _) Hg). cbn [assert_that obind]. fold (shard_subscriber self shard).
  destruct (shard_subscriber_ok self shard Hself) as (Hs & Hmx & Hids). set (s := shard_subscriber self shard) in *.
  assert (fresh (subscriptions_map_ (load self s)) id) as Hf.
  { cbn. unfold s, shard_subscriber. destruct (subscribers_ self !! shard) as [s0|] eqn:E; [exact (Hfresh s0 eq_refl)|]. split; [done|]. split; apply not_elem_of_empty. }
  pose proof (mo_max _ Hself) as Hmax. destruct (Z.leb_spec (multi_max_active self) (shared_num_active self)) as [Hle|Hlt].
  - rewrite (@StartSubscription_refused _ application (load self s) c _ id p observer ltac:(cbn; lia) eq_refl). cbn [obind fst snd].
    eexists shard, (load self s), _. split_and!; [done|done| |left; split_and!; [lia|done|eexists; split; [|reflexivity]; reflexivity]]. by apply store_ok.
  - assert (exists c', (if currently_healthy_ (load self s) then Ok c else OnSubscriptionStatusChange (subscriptions_map_ (load self s)) observer
      {| status_sub_id := id; status_tenant := param_tenant p; status_namespace := param_namespace p; status_topic := param_topic p;
         status_seqno := param_start_seqno p; status_ := StatusShardUnhealthy |} c) = Ok c') as [c' Hc'] by (destruct (currently_healthy_ _); by eexists).
    destruct (StartSubscription_ok _ (load self s) c c' id p observer Hs ltac:(cbn; lia) Hf Hobs Hc') as (s' & -> & Hs' & Hn & Hmx' & _ & _ & Hid & Hother).
    cbn [obind fst snd]. exists shard, s', c'. split_and!; [done|done| |right; by split_and!]. apply store_ok; [done|done|cbn in *; lia|].
    intros k. destruct (decide (k = id)) as [->|Hne]; [done|]. rewrite Hother by done. apply Hids.
Qed.

Lemma shard_step self c shard s a : multi_ok self -> subscribers_ self !! shard = Some s -> sub_enabled (load self s, c) a ->
  (forall id, sub_brings a id -> GetShardID id = Ok shard) ->
  exists s' c', run_sub a (load self s, c) = Ok (s', c') /\ multi_ok (store shard s' self).
Proof.
  intros Hself Hk Hen Hbr. destruct (mo_shard _ Hself shard s Hk) as [Hs Hmx Hids].
  destruct (sub_step _ (load self s, c) a Hs Hen) as ([s' c'] & E & Hs' & Hmx' & Hsel). cbn [fst] in *. exists s', c'. split; [done|].
  apply store_ok; [done| |cbn in *; congruence|]; [unfold count_at; by rewrite Hk|]. intros id [Hid|Hb]%Hsel; [by apply Hids|by apply Hbr].
Qed.

Lemma terminate_step GetShard self c id shard : multi_ok self -> GetShardID id = Ok shard ->
  exists self' c', run_multi GetShard (MultiTerminate id) (self, c) = Ok (self', c') /\ multi_ok self' /\
    forall s b, subscribers_ self !! shard = Some s -> Select s id = Some b ->
      c' = c ++ [UserStatus (user_data_ b) (status_of b id StatusOK)] /\ shared_num_active self' = shared_num_active self - 1 /\
      exists s', Select s' id = None /\ (forall id', id' <> id -> Select s' id' = Select s id') /\ client_ok (subscriptions_map_ s') /\
        (subscribers_ self' = <[shard := s']> (subscribers_ self) \/ subscribers_ self' = delete shard (subscribers_ self) /\ Iterate (subscriptions_map_ s') = []).
Proof.
  intros Hself Hsh. cbn [run_multi]. unfold Multi_TerminateSubscription, GetSubscriberForSubscription. rewrite Hsh. cbn [obind].
  destruct (subscribers_ self !! shard) as [s|] eqn:Hk; cbn [fmap option_fmap option_map obind]; [|by exists self, c].
  destruct (shard_step self c shard s (SubTerminate id) Hself Hk I ltac:(done)) as (s' & c' & E & Hok). cbn [run_sub] in E. rewrite E. cbn [obind fst snd].
  assert (client_ok (subscriptions_map_ s')) as Hm'.
  { destruct (mo_shard _ Hok shard s') as [[] _ _]; [apply lookup_insert_eq|done]. }
  pose proof (Empty_ids _ Hm') as Hempty. eexists _, c'. split; [done|]. split.
  - destruct (Empty (subscriptions_map_ s')); [|done]. apply (erase_ok _ shard s'); [done|apply lookup_insert_eq|]. apply Iterate_ids; [done|]. by apply Hempty.
  - intros s0 b [= <-] Hb. destruct (mo_shard _ Hself shard s Hk) as [Hs _ _].
    destruct (@TerminateSubscription_ok _ application _ (load self s) c (c ++ [UserStatus (user_data_ b) (status_of b id StatusOK)]) id b Hs Hb eq_refl)
      as (s2 & u & E2 & Hs2 & Hn & _ & _ & _ & Hnone & Hother). rewrite E2 in E. injection E as <- <-. cbn in Hn. split; [done|]. split; [by destruct (Empty _)|].
    exists s2. split_and!; [done|done|done|]. destruct (Empty (subscriptions_map_ s2)); cbn; [right|by left]. rewrite delete_insert_eq. split; [done|by apply Hempty].
Qed.

Lemma health_step self c b order : multi_ok self -> (forall k, k ∈ order -> is_Some (subscribers_ self !! k)) ->
  exists self' c', Multi_NotifyHealthy self c b order = Ok (self', c') /\ multi_ok self' /\ multi_max_active self' = multi_max_active self.
Proof.
  revert self c. induction order as [|k order IH]; intros self c Hself Hin; [by eexists _, _|]. cbn [Multi_NotifyHealthy].
  destruct (Hin k ltac:(by left)) as [s Hk]. rewrite Hk. destruct (shard_step self c k s (SubHealthy b) Hself Hk I ltac:(done)) as (s' & c' & E & Hok).
  cbn [run_sub] in E. rewrite E. cbn [obind fst snd]. destruct (IH (store k s' self) c' Hok) as (self' & c2 & E2 & Hok2 & Hmx); [|by exists self', c2].
  intros x Hx. cbn. destruct (decide (x = k)) as [->|]; [rewrite lookup_insert_eq; by eexists|]. rewrite lookup_insert_ne by done. apply Hin. by right.
Qed.

Lemma acknowledge_step self id seqno shard : multi_ok self -> GetShardID id = Ok shard ->
  exists self', Multi_Acknowledge self id seqno = Ok self' /\ multi_ok self' /\ multi_max_active self' = multi_max_active self.
Proof.
  intros Hself Hsh. unfold Multi_Acknowledge, GetSubscriberForSubscription. rewrite Hsh. cbn [obind].
  destruct (subscribers_ self !! shard) as [s|] eqn:Hk; cbn [fmap option_fmap option_map obind]; [|by exists self]. eexists. split; [done|]. split; [|done].
  destruct (shard_step self [] shard s (SubAcknowledge id seqno) Hself Hk I ltac:(done)) as (s' & c' & E & Hok). by injection E as <- <-.
Qed.

Lemma multi_step GetShard self c a : multi_ok self -> multi_enabled GetShard (self, c) a ->
  exists self' c', run_multi GetShard a (self, c) = Ok (self', c') /\ multi_ok self' /\ multi_max_active self' = multi_max_active self.
Proof.
  intros Hself Hen. destruct a as [id p observer|id seqno|id|b order|shard a].
  - destruct (start_step GetShard self c id p observer Hself Hen) as (shard & s' & c' & _ & E & Hok & _). by eexists _, _.
  - destruct Hen as [shard Hsh]. cbn [run_multi]. destruct (acknowledge_step self id seqno shard Hself Hsh) as (self' & -> & Hok). by exists self', c.
  - destruct Hen as [shard Hsh]. destruct (terminate_step GetShard self c id shard Hself Hsh) as (self' & c' & E & Hok & _). exists self', c'. split_and!; [done|done|].
    revert E. cbn [run_multi]. unfold Multi_TerminateSubscription, GetSubscriberForSubscription. rewrite Hsh. cbn [obind].
    destruct (subscribers_ self !! shard); cbn [fmap option_fmap option_map obind]; [|by intros [= <- _]].
    intros (r & _ & E)%obind_Ok. injection E as <- _. by destruct (Empty _).
  - cbn [run_multi multi_enabled] in *. apply health_step; [done|]. intros k. rewrite Hen, elem_of_elements. apply elem_of_dom.
  - destruct Hen as (s & Hk & Hen & Ha). cbn [run_multi]. rewrite Hk.
    destruct (shard_step self c shard s a Hself Hk) as (s' & c' & -> & Hok); [by destruct a|by destruct a|]. by eexists _, _.
Qed.

Lemma multi_runs_ok GetShard sc acts sc' : multi_ok (fst sc) -> multi_runs GetShard sc acts sc' ->
  multi_ok (fst sc') /\ multi_max_active (fst sc') = multi_max_active (fst sc).
Proof.
  intros Hs Hr. revert Hs. induction Hr as [sc|[self c] a acts sc1 sc' Hen Ha Hr IH]; intros Hs; [done|].
  destruct (multi_step GetShard self c a Hs Hen) as (self' & c' & E & Hok & Hmx). rewrite E in Ha. injection Ha as <-. destruct (IH Hok) as [? Hm]. cbn in *.
  split; [done|congruence].
Qed.

(** ** The subscriptions of the thread *)

Lemma shard_client_ok self k s : multi_ok self -> subscribers_ self !! k = Some s -> client_ok (subscriptions_map_ s).
Proof. intros Hself Hk. exact (so_map _ _ (sh_ok _ _ _ (mo_shard _ Hself k s Hk))). Qed.

Lemma all_elem self b : multi_ok self ->
  b ∈ all_subscriptions self <-> exists k s, subscribers_ self !! k = Some s /\ Select s (sub_id_ b) = Some b.
Proof.
  intros Hself. unfold all_subscriptions. rewrite elem_of_concat. split.
  - intros (l & Hb & ([k s] & -> & Hin)%list_elem_of_fmap). apply elem_of_map_to_list in Hin. exists k, s. split; [done|].
    apply Iterate_elem; [by eapply shard_client_ok|done].
  - intros (k & s & Hk & Hb). exists (Iterate (subscriptions_map_ s)). split; [apply Iterate_elem; [by eapply shard_client_ok|done]|].
    apply list_elem_of_fmap. exists (k, s). split; [done|]. by apply elem_of_map_to_list.
Qed.

Lemma all_length self : multi_ok self -> shared_num_active self = Z.of_nat (length (all_subscriptions self)).
Proof.
  intros Hself. rewrite (mo_count _ Hself). unfold active, all_subscriptions. rewrite map_fold_foldr.
  assert (forall e, e ∈ map_to_list (subscribers_ self) -> client_ok (subscriptions_map_ (snd e))) as Hall.
  { intros [k s] Hin%elem_of_map_to_list. by eapply shard_client_ok. }
  induction (map_to_list (subscribers_ self)) as [|[k s] l IH]; [done|]. cbn [foldr map concat uncurry snd] in *.
  rewrite length_app, Nat2Z.inj_add, Iterate_length by (apply (Hall (k, s)); by left). rewrite IH by (intros e He; apply Hall; by right). done.
Qed.

Lemma all_NoDup self : multi_ok self -> NoDup (map sub_id_ (all_subscriptions self)).
Proof.
  intros Hself. unfold all_subscriptions. pose proof (NoDup_fst_map_to_list (subscribers_ self)) as Hnd.
  assert (forall e, e ∈ map_to_list (subscribers_ self) -> client_ok (subscriptions_map_ (snd e)) /\
    forall b, b ∈ Iterate (subscriptions_map_ (snd e)) -> GetShardID (sub_id_ b) = Ok (fst e)) as Hall.
  { intros [k s] Hin%elem_of_map_to_list. pose proof (shard_client_ok _ _ _ Hself Hin) as Hm. split; [done|]. intros b Hb%Iterate_elem; [|done].
    apply (sh_ids _ _ _ (mo_shard _ Hself k s Hin)). by eexists. }
  induction (map_to_list (subscribers_ self)) as [|[k s] l IH]; [constructor|]. cbn [map concat snd fmap list_fmap fst] in *.
  apply NoDup_cons in Hnd as [Hn Hnd]. rewrite map_app. apply NoDup_app. split_and!.
  - apply Iterate_NoDup. by apply (Hall (k, s)); left.
  - intros x (b & -> & Hb)%list_elem_of_fmap (b' & E & (l' & Hb' & ([k' s'] & -> & Hin)%list_elem_of_fmap)%elem_of_concat)%list_elem_of_fmap.
    pose proof (proj2 (Hall (k, s) ltac:(by left)) b Hb) as H1. pose proof (proj2 (Hall (k', s') ltac:(by right)) b' Hb') as H2. rewrite E, H2 in H1.
    injection H1 as ->. apply Hn. apply list_elem_of_fmap. by exists (k, s').
  - apply IH; [done|]. intros e He. apply Hall. by right.
Qed.

(** The entries of a snapshot, shard by shard. *)
Lemma save_shards self order : Multi_SaveState self (fun _ => true) order =
  (concat (map (fun k => match subscribers_ self !! k with Some s => map (snapshot_entry s) (Iterate (subscriptions_map_ s)) | None => [] end) order), true).
Proof.
  induction order as [|k order IH]; [done|]. cbn [Multi_SaveState map concat]. destruct (subscribers_ self !! k) as [s|]; [|by rewrite IH].
  unfold SaveState. rewrite save_all_eq. by rewrite IH.
Qed.

(** One entry for each active subscription of the thread. *)
Definition snapshot (self : MultiShardSubscriber) : list (Z * slice * slice * Z) :=
  concat (map (fun e => map (snapshot_entry (snd e)) (Iterate (subscriptions_map_ (snd e)))) (map_to_list (subscribers_ self))).

Lemma snapshot_length self : length (snapshot self) = length (all_subscriptions self).
Proof.
  unfold snapshot, all_subscriptions. induction (map_to_list (subscribers_ self)) as [|e l IH]; [done|]. cbn. by rewrite !length_app, length_map, IH.
Qed.

Lemma save_snapshot self order : order ≡ₚ elements (dom (subscribers_ self)) ->
  exists entries, Multi_SaveState self (fun _ => true) order = (entries, true) /\ entries ≡ₚ snapshot self.
Proof.
  intros Ho. rewrite save_shards. eexists. split; [done|]. rewrite <-flat_map_concat_map. unfold snapshot.
  assert (order ≡ₚ (map_to_list (subscribers_ self)).*1) as Hperm.
  { rewrite Ho. apply NoDup_Permutation; [apply NoDup_elements|apply NoDup_fst_map_to_list|]. intros k. rewrite elem_of_elements, elem_of_dom, list_elem_of_fmap. split.
    - intros [s Hs]. exists (k, s). split; [done|]. by apply elem_of_map_to_list.
    - intros ([k' s] & -> & Hin%elem_of_map_to_list). by eexists. }
  etransitivity; [apply (Permutation_flat_map _ Hperm)|]. apply Permutation_refl'.
  assert (forall e, e ∈ map_to_list (subscribers_ self) -> subscribers_ self !! fst e = Some (snd e)) as Hall by (by intros [k s] ?%elem_of_map_to_list).
  clear Hperm. induction (map_to_list (subscribers_ self)) as [|[k s] l IH]; [done|]. cbn [fmap list_fmap flat_map map concat fst snd].
  pose proof (Hall (k, s) ltac:(by left)) as Hk. cbn in Hk. rewrite Hk. f_equal. apply IH. intros e He. apply Hall. by right.
Qed.

Lemma shard_elem self b shard : multi_ok self -> GetShardID (sub_id_ b) = Ok shard ->
  b ∈ all_subscriptions self <-> Select (shard_subscriber self shard) (sub_id_ b) = Some b.
Proof.
  intros Hself Hsh. rewrite all_elem by done. unfold shard_subscriber. split.
  - intros (k & s & Hk & Hb). pose proof (sh_ids _ _ _ (mo_shard _ Hself k s Hk) (sub_id_ b) ltac:(by eexists)) as Hk'. rewrite Hsh in Hk'.
    injection Hk' as ->. by rewrite Hk.
  - destruct (subscribers_ self !! shard) as [s|] eqn:E; [|done]. intros Hb. by exists shard, s.
Qed.

#[local] Instance outcome_eq_dec {A} `{EqDecision A} : EqDecision (outcome A).
Proof. solve_decision. Defined.

Lemma all_store self shard s' b : multi_ok self -> multi_ok (store shard s' self) ->
  b ∈ all_subscriptions (store shard s' self) <->
    (if decide (GetShardID (sub_id_ b) = Ok shard) then Select s' (sub_id_ b) = Some b else b ∈ all_subscriptions self).
Proof.
  intros Hself Hself'. case_decide as Hsh.
  - rewrite (shard_elem _ b shard Hself' Hsh). unfold shard_subscriber. cbn. by rewrite lookup_insert_eq.
  - rewrite !all_elem by done. cbn. split.
    + intros (k & s & Hk & Hb). apply lookup_insert_Some in Hk as [[<- <-]|[_ Hk]]; [|by exists k, s]. exfalso. apply Hsh.
      apply (sh_ids _ _ _ (mo_shard _ Hself' shard s' ltac:(apply lookup_insert_eq))). by eexists.
    + intros (k & s & Hk & Hb). exists k, s. rewrite lookup_insert_ne; [done|]. intros ->. apply Hsh.
      apply (sh_ids _ _ _ (mo_shard _ Hself k s Hk)). by eexists.
Qed.

Lemma terminate_ends GetShard self c b : multi_ok self -> b ∈ all_subscriptions self ->
  exists self', run_multi GetShard (MultiTerminate (sub_id_ b)) (self, c) =
      Ok (self', c ++ [UserStatus (user_data_ b) (status_of b (sub_id_ b) StatusOK)]) /\
    shared_num_active self' = shared_num_active self - 1 /\
    forall b', b' ∈ all_subscriptions self' <-> b' ∈ all_subscriptions self /\ sub_id_ b' <> sub_id_ b.
Proof.
  intros Hself Hb. pose proof Hb as (shard & s & Hk & Hsel)%all_elem; [|done].
  assert (GetShardID (sub_id_ b) = Ok shard) as Hsh by (apply (sh_ids _ _ _ (mo_shard _ Hself shard s Hk)); by eexists).
  destruct (terminate_step GetShard self c (sub_id_ b) shard Hself Hsh) as (self' & c' & E & Hok & Hst).
  destruct (Hst s b Hk Hsel) as (-> & Hn & s' & Hnone & Hother & Hm' & Hsubs). exists self'. split; [done|]. split; [done|].
  assert (forall b', b' ∈ all_subscriptions self' <-> exists k x, <[shard := s']> (subscribers_ self) !! k = Some x /\ Select x (sub_id_ b') = Some b') as Hall.
  { intros b'. rewrite all_elem by done. destruct Hsubs as [->|[-> Hnil]]; [done|]. split; intros (k & x & Hkx & Hx); exists k, x; (split; [|done]).
    - apply lookup_delete_Some in Hkx as [Hne Hkx]. by rewrite lookup_insert_ne.
    - apply lookup_insert_Some in Hkx as [[<- <-]|[Hne Hkx]]; [|by apply lookup_delete_Some]. exfalso.
      apply Iterate_elem in Hx; [|done]. rewrite Hnil in Hx. by apply elem_of_nil in Hx. }
  intros b'. rewrite Hall, all_elem by done. split.
  - intros (k & x & Hkx & Hx). apply lookup_insert_Some in Hkx as [[<- <-]|[Hne Hkx]].
    + assert (sub_id_ b' <> sub_id_ b) as Hid by (intros E2; rewrite E2, Hnone in Hx; done). split; [|done]. exists shard, s. by rewrite <-Hother.
    + split; [by exists k, x|]. intros E2. assert (GetShardID (sub_id_ b') = Ok k) as Hsk by (apply (sh_ids _ _ _ (mo_shard _ Hself k x Hkx)); by eexists).
      rewrite E2, Hsh in Hsk. congruence.
  - intros [(k & x & Hkx & Hx) Hid]. destruct (decide (k = shard)) as [->|Hne]; [|exists k, x; by rewrite lookup_insert_ne].
    exists shard, s'. rewrite lookup_insert_eq. rewrite Hk in Hkx. injection Hkx as <-. by rewrite Hother.
Qed.

Lemma start_counts GetShard self c id p observer : multi_ok self -> multi_enabled GetShard (self, c) (MultiStart id p observer) ->
  exists self' c', run_multi GetShard (MultiStart id p observer) (self, c) = Ok (self', c') /\
    if shared_num_active self <? multi_max_active self then
      shared_num_active self' = shared_num_active self + 1 /\
      forall b, b ∈ all_subscriptions self' <-> b = {| tenant_id := param_tenant p; namespace_id := param_namespace p; topic_name_ := param_topic p;
        sub_id_ := id; expected_seqno_ := param_start_seqno p; user_data_ := observer |} \/ b ∈ all_subscriptions self
    else
      (exists status, status_ status = StatusInvalidArgument /\ c' = c ++ [UserStatus observer status]) /\
      shared_num_active self' = shared_num_active self /\ forall b, b ∈ all_subscriptions self' <-> b ∈ all_subscriptions self.
Proof.
  intros Hself Hen. destruct (start_step GetShard self c id p observer Hself Hen) as (shard & s' & c' & Hsh & E & Hok & Hcase). eexists _, c'. split; [done|].
  destruct Hcase as [(Hfull & -> & Hst)|(Hlt & Hn & Hid & Hother)].
  - rewrite (proj2 (Z.ltb_ge _ _)) by lia. split_and!; [done|done|]. intros b. rewrite all_store by done. case_decide as Hd; [|done].
    by rewrite (shard_elem self b shard Hself Hd).
  - rewrite (proj2 (Z.ltb_lt _ _)) by lia. split; [done|]. intros b. rewrite all_store by done.
    assert (Select (shard_subscriber self shard) id = None) as Hnew.
    { destruct Hen as (shard2 & Hsh2 & _ & _ & Hfr). rewrite Hsh in Hsh2. injection Hsh2 as <-. unfold shard_subscriber.
      destruct (subscribers_ self !! shard) as [s|] eqn:Hk; [|done]. exact (proj1 (Hfr s eq_refl)). }
    case_decide as Hd.
    + rewrite (shard_elem self b shard Hself Hd). destruct (decide (sub_id_ b = id)) as [Eid|Hne].
      * rewrite Eid, Hid, Hnew. split; [intros [= <-]; by left|]. intros [->|?]; done.
      * rewrite Hother by done. split; [by right|]. intros [->|?]; [done|done].
    + split; [by right|]. intros [->|?]; [|done]. cbn in Hd. by rewrite Hsh in Hd.
Qed.

(** ** Property *)


(** Two shards with one subscription each, and a limit of two: a third one is
    refused although its shard has only one. *)
Definition shard_of (namespace_id topic : slice) : Z := if bool_decide (topic = [Byte.x61]) then 1 else 2.
Definition params_for (topic : byte) : SubscriptionParameters :=
  {| param_tenant := 1; param_namespace := [Byte.x62]; param_topic := [topic]; param_start_seqno := 5 |}.
Definition example_multi_acts : list multi_action :=
  [MultiStart (1 + 256) (params_for Byte.x61) 1000; MultiStart (2 + 256) (params_for Byte.x65) 1001; OnShard 1 (SubStream Connected);
   OnShard 1 (SubStream (SendSubscribe (1 + 256))); OnShard 1 (SubHearDeliver (1 + 256) 5 7 (UpdateData 7 [Byte.x70])); MultiAcknowledge (1 + 256) 7].
Fixpoint multi_after (acts : list multi_action) (sc : multi_state) : multi_state :=
  match acts with [] => sc | a :: acts => multi_after acts (match run_multi shard_of a sc with Ok sc' => sc' | Abort _ => sc end) end.
Definition example_multi : multi_state := multi_after example_multi_acts (NewMultiShardSubscriber 2 true, []).

Lemma new_id_enabled self c id p observer shard : GetShardID id = Ok shard -> shard = shard_of (param_namespace p) (param_topic p) -> observer <> 0 ->
  match subscribers_ self !! shard with
  | Some s => bool_decide (Find (subscriptions_map_ s) id = None) && bool_decide (id ∉ pending_unsubscribes_ (subscriptions_map_ s)) &&
      bool_decide (id ∉ known (events (subscriptions_map_ s)))
  | None => true
  end = true -> multi_enabled shard_of (self, c) (MultiStart id p observer).
Proof.
  intros H1 H2 H3 H4. exists shard. split_and!; try done. intros s Hs. rewrite Hs in H4. rewrite !andb_true_iff, !bool_decide_eq_true in H4. unfold fresh. tauto.
Qed.

Lemma example_multi_runs : multi_runs shard_of (NewMultiShardSubscriber 2 true, []) example_multi_acts (fst example_multi, snd example_multi).
Proof.
  econstructor; [apply (new_id_enabled _ _ _ _ _ 1); vm_compute; done|vm_compute; reflexivity|].
  econstructor; [apply (new_id_enabled _ _ _ _ _ 2); vm_compute; done|vm_compute; reflexivity|].
  econstructor; [eexists; split; [vm_compute; reflexivity|done]|vm_compute; reflexivity|].
  econstructor; [eexists; split; [vm_compute; reflexivity|split; [split; [done|split; [done|by eexists]]|done]]|vm_compute; reflexivity|].
  econstructor; [eexists; split; [vm_compute; reflexivity|split; [split; [done|split; [by vm_compute|split; [lia|done]]]|done]]|vm_compute; reflexivity|].
  econstructor; [by eexists|vm_compute; reflexivity|]. constructor.
Qed.


(** The snapshot of the example, computed. *)
Example snapshot_example : Multi_SaveState (fst example_multi) (fun _ => true) [1; 2] =
  ([(1, [Byte.x62], [Byte.x61], 8); (1, [Byte.x62], [Byte.x65], 0)], true).
Proof. vm_compute. reflexivity. Qed.
