(* ===== verification/TailCollapsing.v ===== *)
(** * Collapsing of subscriptions

    Model of [src/client/tail_collapsing_subscriber.cc]: all subscriptions of
    the application on one topic are served by a single subscription of the
    underlying subscriber (Subscriber.v), which is found through the table of
    TopicSubscriptionMap.v.  Such a subscription has a [TailCollapsingObserver],
    which passes on what it hears to the observers it stands for. *)

From S2P Require Import Prelude Coding Messages SubscriptionsMap Subscriber TopicSubscriptionMap.

#[local] Open Scope outcome_scope.

(** [observers] are the objects of the class [TailCollapsingObserver], by
    address, with the observers of the application they stand for. *)
Record Collapsing := {
  downstream_to_upstream_ : gmap Z Z;
  special_observers_ : gset Z;
  observers : gmap Z (gmap Z Z);
  upstream_subscriptions_ : TopicMap.t;
  user_calls : list UserCall
}.

Definition NewCollapsing : Collapsing :=
  {| downstream_to_upstream_ := ∅; special_observers_ := ∅; observers := ∅; upstream_subscriptions_ := TopicMap.New; user_calls := [] |}.

Definition call_user (calls : list UserCall) (c : Collapsing) : Collapsing :=
  {| downstream_to_upstream_ := downstream_to_upstream_ c; special_observers_ := special_observers_ c; observers := observers c;
     upstream_subscriptions_ := upstream_subscriptions_ c; user_calls := user_calls c ++ calls |}.

Definition set_upstream (m : TopicMap.t) (c : Collapsing) : Collapsing :=
  {| downstream_to_upstream_ := downstream_to_upstream_ c; special_observers_ := special_observers_ c; observers := observers c;
     upstream_subscriptions_ := m; user_calls := user_calls c |}.

Definition set_routes (routes : gmap Z Z) (special : gset Z) (c : Collapsing) : Collapsing :=
  {| downstream_to_upstream_ := routes; special_observers_ := special; observers := observers c;
     upstream_subscriptions_ := upstream_subscriptions_ c; user_calls := user_calls c |}.

Definition set_downstream (address : Z) (downs : gmap Z Z) (c : Collapsing) : Collapsing :=
  {| downstream_to_upstream_ := downstream_to_upstream_ c; special_observers_ := special_observers_ c;
     observers := <[address := downs]> (observers c); upstream_subscriptions_ := upstream_subscriptions_ c; user_calls := user_calls c |}.

(** The callback of the table: the topic of a subscription. *)
Definition topic_of (b : SubscriptionBase) : Topic := (namespace_id b, topic_name_ b).
Definition get_topic (m : SubscriptionsMap) (id : Z) : option Topic := topic_of <$> Find m id.

Definition with_id (id : Z) (s : SubscriptionStatus) : SubscriptionStatus :=
  {| status_sub_id := id; status_tenant := status_tenant s; status_namespace := status_namespace s; status_topic := status_topic s;
     status_seqno := status_seqno s; status_ := status_ s |}.

Section Collapsing.
Context (hash : slice -> slice -> Z).

(** An observer is one of the application unless it is a collapsing one. *)
Definition Collapsing_OnMessageReceived (_ : SubscriptionsMap) (observer : Z) (up : MessageReceived) (c : Collapsing) : outcome Collapsing :=
  match observers c !! observer with
  | None => Ok (call_user [UserMessage observer up] c)
  | Some downs =>
      Ok (call_user (map (fun '(id, o) => UserMessage o
            {| received_sub_id := id; received_seqno := received_seqno up; received_contents := received_contents up |}) (map_to_list downs)) c)
  end.

Definition Collapsing_OnDataLoss (_ : SubscriptionsMap) (observer : Z) (up : DataLossInfo) (c : Collapsing) : outcome Collapsing :=
  match observers c !! observer with
  | None => Ok (call_user [UserLoss observer up] c)
  | Some downs =>
      Ok (call_user (map (fun '(id, o) => UserLoss o
            {| loss_sub_id := id; loss_type := loss_type up; loss_first := loss_first up; loss_last := loss_last up |}) (map_to_list downs)) c)
  end.

(** After the notifications the state of the subscriptions is removed. *)
Definition Collapsing_OnSubscriptionStatusChange (m : SubscriptionsMap) (observer : Z) (up : SubscriptionStatus) (c : Collapsing) : outcome Collapsing :=
  match observers c !! observer with
  | None => Ok (call_user [UserStatus observer up] c)
  | Some downs =>
      let c := call_user (map (fun '(id, o) => UserStatus o (with_id id up)) (map_to_list downs)) c in
      let c := set_routes (foldr (fun e routes => delete (fst e) routes) (downstream_to_upstream_ c) (map_to_list downs))
                          (if decide (downs = ∅) then special_observers_ c else special_observers_ c ∖ {[observer]}) c in
      r <~ TopicMap.Remove hash (get_topic m) (upstream_subscriptions_ c) (status_namespace up, status_topic up) (status_sub_id up) ;;
      Ok (set_upstream (fst r) c)
  end.

#[local] Instance collapsing : ObserverIf Collapsing := {
  OnMessageReceived := Collapsing_OnMessageReceived;
  OnSubscriptionStatusChange := Collapsing_OnSubscriptionStatusChange;
  OnDataLoss := Collapsing_OnDataLoss
}.

(** [address] is where a new [TailCollapsingObserver] is allocated, if any. *)
Definition Collapsing_StartSubscription (s : Subscriber) (c : Collapsing) (downstream_id : Z) (p : SubscriptionParameters)
    (new_observer address : Z) : outcome (Subscriber * Collapsing) :=
  let topic := (param_namespace p, param_topic p) in
  upstream_id <~ TopicMap.Find hash (get_topic (subscriptions_map_ s)) (upstream_subscriptions_ c) topic ;;
  match Select s upstream_id with
  | Some b =>
      assert_that (bool_decide (namespace_id b = param_namespace p)) "info.GetNamespace() == parameters.namespace_id" ;;;
      assert_that (bool_decide (topic_name_ b = param_topic p)) "info.GetTopic() == parameters.topic_name" ;;;
      r <~ (if decide (user_data_ b ∈ special_observers_ c) then
              Ok (s, c, user_data_ b)
            else
              assert_that (bool_decide (address ∉ special_observers_ c)) "result.second" ;;;
              m <~ SetUserData (subscriptions_map_ s) upstream_id address ;;
              Ok (set_map m s,
                  set_downstream address {[ upstream_id := user_data_ b ]}
                    (set_routes (downstream_to_upstream_ c) ({[address]} ∪ special_observers_ c) c), address)) ;;
      let '(s, c, collapsing_observer) := r in
      match observers c !! collapsing_observer with
      | None => Abort "static_cast<TailCollapsingObserver*>"
      | Some downs =>
          assert_that (bool_decide (downs !! downstream_id = None)) "result.second" ;;;
          let c := set_downstream collapsing_observer (<[downstream_id := new_observer]> downs) c in
          assert_that (bool_decide (downstream_to_upstream_ c !! downstream_id = None)) "result.second" ;;;
          Ok (s, set_routes (<[downstream_id := upstream_id]> (downstream_to_upstream_ c)) (special_observers_ c) c)
      end
  | None =>
      m <~ TopicMap.Insert hash (get_topic (subscriptions_map_ s)) (upstream_subscriptions_ c) topic downstream_id ;;
      StartSubscription s (set_upstream m c) downstream_id p new_observer
  end.

Definition Collapsing_TerminateSubscription (s : Subscriber) (c : Collapsing) (downstream_id : Z) : outcome (Subscriber * Collapsing) :=
  let '(upstream_id, c) :=
    match downstream_to_upstream_ c !! downstream_id with
    | None => (downstream_id, c)
    | Some u => (u, set_routes (delete downstream_id (downstream_to_upstream_ c)) (special_observers_ c) c)
    end in
  match Select s upstream_id with
  | None => assert_that (upstream_id =? downstream_id) "upstream_id == downstream_id" ;;; Ok (s, c)
  | Some b =>
      if decide (user_data_ b ∈ special_observers_ c) then
        match observers c !! user_data_ b with
        | None => Abort "static_cast<TailCollapsingObserver*>"
        | Some downs =>
            if (1 <? size downs)%nat then
              assert_that (bool_decide (is_Some (downs !! downstream_id))) "result == 1" ;;;
              Ok (s, set_downstream (user_data_ b) (delete downstream_id downs) c)
            else
              assert_that (size downs =? 1)%nat "downstream_observers.size() == 1" ;;;
              assert_that (bool_decide (is_Some (downs !! downstream_id))) "downstream_observers.count(downstream_id) == 1" ;;;
              TerminateSubscription s (set_routes (downstream_to_upstream_ c) (special_observers_ c ∖ {[user_data_ b]}) c) upstream_id
        end
      else
        r <~ TopicMap.Remove hash (get_topic (subscriptions_map_ s)) (upstream_subscriptions_ c) (topic_of b) upstream_id ;;
        TerminateSubscription s (set_upstream (fst r) c) upstream_id
  end.
End Collapsing.
