(* ===== verification/CollapsingFacts.v ===== *)
(** * Collapsed subscriptions serve every subscriber

    The adaptor of TailCollapsing.v gives the application the subscriptions it
    asked for ([A], from IDs to topics and observers), with one subscription of
    the underlying subscriber per topic. *)

From S2P Require Import Prelude Coding Messages SubscriptionsMap ClientFacts Subscriber SubscriberFacts.
From S2P Require Import TopicSubscriptionMap TopicMapFacts TailCollapsing.

#[local] Open Scope outcome_scope.

(** [b] serves the subscription [d] of the application, with observer [o]. *)
Definition serves_user (c : Collapsing) (b : SubscriptionBase) (d o : Z) : Prop :=
  if decide (user_data_ b ∈ special_observers_ c) then exists downs, observers c !! user_data_ b = Some downs /\ downs !! d = Some o
  else d = sub_id_ b /\ o = user_data_ b.

Section Facts.
Context (hash : slice -> slice -> Z).


Record collapsed (s : Subscriber) (c : Collapsing) (M : gmap Topic Z) (A : gmap Z (Topic * Z)) : Prop := {
  cl_sub : subscriber_ok s;
  cl_healthy : currently_healthy_ s = true;
  cl_table : holds hash (upstream_subscriptions_ c) M;
  (** One subscription per topic. *)
  cl_topic : forall id b, Select s id = Some b -> M !! topic_of b = Some id;
  cl_map : forall k id, M !! k = Some id -> exists b, Select s id = Some b /\ topic_of b = k;
  cl_active : forall d k o, A !! d = Some (k, o) <-> exists u b, M !! k = Some u /\ Select s u = Some b /\ serves_user c b d o;
  cl_routes : forall d u, downstream_to_upstream_ c !! d = Some u <-> d <> u /\ exists k o, A !! d = Some (k, o) /\ M !! k = Some u;
  cl_ids : forall d k o b, A !! d = Some (k, o) -> Select s d = Some b -> topic_of b = k;
  cl_shared : forall id b, Select s id = Some b -> user_data_ b ∈ special_observers_ c ->
    exists downs, observers c !! user_data_ b = Some downs /\ downs <> ∅;
  cl_plain : forall id b, Select s id = Some b -> (user_data_ b ∉ special_observers_ c) -> observers c !! user_data_ b = None;
  cl_owner : forall id id' b b', Select s id = Some b -> Select s id' = Some b' -> user_data_ b = user_data_ b' ->
    user_data_ b ∈ special_observers_ c -> id = id';
  cl_special : forall a, a ∈ special_observers_ c -> is_Some (observers c !! a)
}.

Lemma collapsed_knows s c M A : collapsed s c M A -> knows_topics (get_topic (subscriptions_map_ s)) M.
Proof. intros H k id Hk. destruct (cl_map _ _ _ _ H k id Hk) as (b & Hb & <-). unfold get_topic, Select in *. by rewrite Hb. Qed.

Lemma collapsed_id s c M A id b : collapsed s c M A -> Select s id = Some b -> sub_id_ b = id /\ id <> 0.
Proof.
  intros H Hb. split; [apply (Find_id _ _ _ (so_map _ _ (cl_sub _ _ _ _ H)) Hb)|].
  apply (tb_in _ _ _ (h_table _ _ _ (cl_table _ _ _ _ H)) (topic_of b)). by eapply cl_topic.
Qed.

Lemma collapsed_zero s c M A : collapsed s c M A -> Select s 0 = None.
Proof. intros H. destruct (Select s 0) as [b|] eqn:E; [|done]. by destruct (collapsed_id _ _ _ _ _ _ H E). Qed.

Lemma NewCollapsing_ok max notify : 0 <= max < 2 ^ 64 -> collapsed (NewSubscriber max 0 notify) NewCollapsing ∅ ∅.
Proof.
  intros Hmax. split; cbn; try done.
  - apply New_holds.
  - intros d k o. rewrite lookup_empty. split; [done|]. intros (u & b & Hu & _). by rewrite lookup_empty in Hu.
  - intros d u. rewrite lookup_empty. split; [done|]. intros [_ (k & o & Hk & _)]. by rewrite lookup_empty in Hk.
Qed.

(** ** Start *)

(** A topic without a subscription. *)
Lemma Start_first s c M A d p o address (k : Topic) : collapsed s c M A -> k = (param_namespace p, param_topic p) ->
  M !! k = None -> num_active_subscriptions_ s < max_active_subscriptions_ s -> Z.of_nat (size M) + 1 < 2 ^ 50 ->
  fresh (subscriptions_map_ s) d -> d <> 0 -> A !! d = None -> o <> 0 -> observers c !! o = None -> (o ∉ special_observers_ c) ->
  exists s' c', Collapsing_StartSubscription hash s c d p o address = Ok (s', c') /\
    collapsed s' c' (<[k := d]> M) (<[d := (k, o)]> A) /\ user_calls c' = user_calls c.
Proof.
  intros H Hkp Hk Hlt Hsz Hf H0 Hd Ho0 Hoo Hos. pose proof H as [Hs Hh Ht Htop Hmap Hact Hrt Hids Hsh Hpl Hown Hsp].
  pose proof (collapsed_knows _ _ _ _ H) as Hg. pose proof (proj1 Hf) as Hsel.
  assert (forall k', M !! k' <> Some d) as Hnew.
  { intros k' Hk'. destruct (Hmap k' d Hk') as (b & Hb & _). unfold Select in Hb. congruence. }
  unfold Collapsing_StartSubscription. rewrite <-Hkp. rewrite (Find_spec hash _ _ M k Ht Hg). rewrite Hk. cbn [obind].
  change (default 0 None) with 0. rewrite (collapsed_zero _ _ _ _ H).
  destruct (TopicMap_Insert hash _ _ M k d Ht Hg Hk H0 Hnew Hsz) as (m' & -> & Ht'). cbn [obind].
  destruct (@StartSubscription_ok _ (collapsing hash) 0 s (set_upstream m' c) (set_upstream m' c) d p o Hs Hlt Hf Ho0) as (s' & -> & Hs' & _ & _ & Hh' & _ & Hid & Hother);
    [by rewrite Hh|]. set (b := {| tenant_id := param_tenant p |}) in Hid.
  assert (topic_of b = k) as Hbk by (by rewrite Hkp). eexists _, _. split; [done|]. split; [|done].
  assert (forall id x, Select s' id = Some x -> (id = d /\ x = b) \/ (id <> d /\ Select s id = Some x)) as Hcase.
  { intros id x Hx. destruct (decide (id = d)) as [->|Hne]; [left; split; congruence|right; split; [done|by rewrite <-Hother]]. }
  split; cbn; try done.
  - congruence.
  - intros id x [[-> ->]|[Hne Hx]]%Hcase; [by rewrite Hbk, lookup_insert_eq|]. rewrite lookup_insert_ne; [by apply Htop|].
    intros Hkk. specialize (Htop id x Hx). rewrite <-Hkk in Htop. congruence.
  - intros k' id. rewrite lookup_insert_Some. intros [[<- <-]|[Hne Hk']]; [by exists b|]. destruct (Hmap k' id Hk') as (x & Hx & Hkx).
    exists x. split; [|done]. rewrite Hother; [done|]. intros ->. by apply (Hnew k').
  - intros d' k' o'. rewrite lookup_insert_Some. split.
    + intros [[<- [= <- <-]]|[Hne Hd']].
      * exists d, b. rewrite lookup_insert_eq. split; [done|]. split; [done|]. unfold serves_user. by rewrite decide_False.
      * apply Hact in Hd' as (u & x & Hu & Hx & Hsv). exists u, x. rewrite lookup_insert_ne by congruence. split; [done|].
        split; [|done]. rewrite Hother; [done|]. intros ->. by apply (Hnew k').
    + intros (u & x & Hu & [[-> ->]|[Hne Hx]]%Hcase & Hsv).
      * left. unfold serves_user in Hsv. rewrite decide_False in Hsv by done. destruct Hsv as [-> ->]. split; [done|].
        apply lookup_insert_Some in Hu as [[<- _]|[_ Hu]]; [done|]. by apply Hnew in Hu.
      * right. apply lookup_insert_Some in Hu as [[_ ?]|[Hkne Hu]]; [congruence|].
        assert (A !! d' = Some (k', o')) as Hd' by (apply Hact; eauto). split; [congruence|done].
  - intros d' u. rewrite Hrt. split.
    + intros [Hne (k' & o' & Hd' & Hk')]. split; [done|]. exists k', o'. rewrite !lookup_insert_ne by congruence. done.
    + intros [Hne (k' & o' & Hd' & Hk')]. split; [done|]. apply lookup_insert_Some in Hd' as [[<- [= <- <-]]|[Hned Hd']].
      * rewrite lookup_insert_eq in Hk'. congruence.
      * exists k', o'. split; [done|]. apply lookup_insert_Some in Hk' as [[<- <-]|[_ Hk']]; [|done]. exfalso.
        apply Hact in Hd' as (u' & x & Hu & _). congruence.
  - intros d' k' o' x Hd' [[-> ->]|[Hne Hx]]%Hcase; apply lookup_insert_Some in Hd' as [[? E]|[Hned Hd']]; subst; try done.
    + by injection E as <- _.
    + by apply (Hids d' k' o').
  - intros id x [[-> ->]|[Hne Hx]]%Hcase Hin; [by apply Hos in Hin|by apply (Hsh id x)].
  - intros id x [[-> ->]|[Hne Hx]]%Hcase Hnin; [done|by apply (Hpl id x)].
  - intros id id' x x' [[-> ->]|[Hne Hx]]%Hcase [[-> ->]|[Hne' Hx']]%Hcase Hu Hin; try done.
    + rewrite Hu in Hin. by apply Hos in Hin.
    + by apply (Hown id id' x x').
Qed.

(** An address no observer has. *)
Definition unused_address (s : Subscriber) (c : Collapsing) (a : Z) : Prop :=
  a <> 0 /\ observers c !! a = None /\ (a ∉ special_observers_ c) /\ forall id b, Select s id = Some b -> user_data_ b <> a.

Lemma SetUserData_subscriber s id u b : subscriber_ok s -> Select s id = Some b -> u <> 0 ->
  exists m', SetUserData (subscriptions_map_ s) id u = Ok m' /\ subscriber_ok (set_map m' s) /\
    Find m' id = Some (SubscriptionBase_SetUserData u b) /\ forall id', id' <> id -> Find m' id' = Select s id'.
Proof.
  intros [Hm Hoth Hc Hmax Ho Ha] Hb Hu. destruct (SetUserData_ok _ id u b Hm Hb) as (m' & E & Hm' & _ & Hid & Hother). exists m'. split_and!; try done.
  assert (forall k, is_Some (Find m' k) <-> is_Some (Select s k)) as Hsome.
  { intros k. destruct (decide (k = id)) as [->|Hne]; [rewrite Hid, Hb; split; by eexists|by rewrite Hother]. }
  split; cbn; try done.
  - by rewrite (ids_eq (subscriptions_map_ s) m').
  - intros k x. unfold Select. cbn. destruct (decide (k = id)) as [->|Hne]; [rewrite Hid; by intros [= <-]|rewrite Hother by done; by apply Ho].
  - intros k q Hq. apply Hsome. by apply (Ha k q).
Qed.

(** The observer of a subscription is replaced by one that stands for it. *)
Lemma collapse_plain s c M A u b a : collapsed s c M A -> Select s u = Some b -> (user_data_ b ∉ special_observers_ c) -> unused_address s c a ->
  exists m', SetUserData (subscriptions_map_ s) u a = Ok m' /\
    collapsed (set_map m' s) (set_downstream a {[ u := user_data_ b ]}
      (set_routes (downstream_to_upstream_ c) ({[a]} ∪ special_observers_ c) c)) M A /\
    Select (set_map m' s) u = Some (SubscriptionBase_SetUserData a b) /\ forall id, id <> u -> Select (set_map m' s) id = Select s id.
Proof.
  intros H Hb Hplain (Ha0 & Hao & Has & Hau). pose proof H as [Hs Hh Ht Htop Hmap Hact Hrt Hids Hsh Hpl Hown Hsp].
  destruct (SetUserData_subscriber s u a b Hs Hb Ha0) as (m' & -> & Hs' & Hid & Hother). exists m'. split; [done|]. split; [|done].
  set (b' := SubscriptionBase_SetUserData a b) in *. set (c' := set_downstream _ _ _). pose proof (collapsed_id _ _ _ _ _ _ H Hb) as [Hbid Hu0].
  assert (forall id x, Select (set_map m' s) id = Some x -> (id = u /\ x = b') \/ (id <> u /\ Select s id = Some x)) as Hcase.
  { intros id x Hx. unfold Select in Hx. cbn in Hx. destruct (decide (id = u)) as [->|Hne]; [left; split; congruence|right; split; [done|by rewrite <-Hother]]. }
  assert (forall id x d o, id <> u -> Select s id = Some x -> serves_user c' x d o <-> serves_user c x d o) as Hsv.
  { intros id x d o Hne Hx. unfold serves_user, c'. cbn. specialize (Hau id x Hx). rewrite lookup_insert_ne by congruence.
    destruct (decide (user_data_ x ∈ special_observers_ c)); [rewrite decide_True by set_solver|rewrite decide_False by set_solver]; done. }
  assert (forall d o, serves_user c' b' d o <-> serves_user c b d o) as Hsvb.
  { intros d o. unfold serves_user, c'. cbn. rewrite decide_True by set_solver. rewrite decide_False by done. rewrite lookup_insert_eq, Hbid. split.
    - intros (downs & [= <-] & [<- <-]%lookup_singleton_Some). done.
    - intros [-> ->]. eexists. split; [done|]. by apply lookup_singleton_eq. }
  split; cbn; try done.
  - intros id x [[-> ->]|[Hne Hx]]%Hcase; [by apply (Htop u b)|by apply Htop].
  - intros k id Hk. destruct (Hmap k id Hk) as (x & Hx & Hkx). destruct (decide (id = u)) as [->|Hne].
    + exists b'. split; [done|]. rewrite Hb in Hx. injection Hx as <-. done.
    + exists x. split; [|done]. unfold Select. cbn. by rewrite Hother.
  - intros d k o. rewrite Hact. split.
    + intros (v & x & Hv & Hx & Hs1). destruct (decide (v = u)) as [->|Hne].
      * exists u, b'. split; [done|]. split; [done|]. apply Hsvb. rewrite Hb in Hx. by injection Hx as <-.
      * exists v, x. split; [done|]. split; [unfold Select; cbn; by rewrite Hother|]. by apply (Hsv v).
    + intros (v & x & Hv & [[-> ->]|[Hne Hx]]%Hcase & Hs1).
      * exists u, b. split; [done|]. split; [done|]. by apply Hsvb.
      * exists v, x. split; [done|]. split; [done|]. by apply (Hsv v).
  - intros d k o x Hd [[-> ->]|[Hne Hx]]%Hcase; [by apply (Hids u k o b)|by apply (Hids d k o)].
  - intros id x [[-> ->]|[Hne Hx]]%Hcase Hin; cbn.
    + exists {[ u := user_data_ b ]}. rewrite lookup_insert_eq. split; [done|]. apply map_non_empty_singleton.
    + specialize (Hau id x Hx). rewrite lookup_insert_ne by congruence. apply (Hsh id x Hx). set_solver.
  - intros id x [[-> ->]|[Hne Hx]]%Hcase Hnin; cbn; [set_solver|]. specialize (Hau id x Hx). rewrite lookup_insert_ne by congruence.
    apply (Hpl id x Hx). set_solver.
  - intros id id' x x' [[-> ->]|[Hne Hx]]%Hcase [[-> ->]|[Hne' Hx']]%Hcase Hu Hin; try done.
    + cbn in Hu. exfalso. by apply (Hau id' x' Hx').
    + cbn in Hu. exfalso. by apply (Hau id x Hx).
    + apply (Hown id id' x x' Hx Hx' Hu). specialize (Hau id x Hx). set_solver.
  - intros x Hx. destruct (decide (x = a)) as [->|Hne]; [rewrite lookup_insert_eq; by eexists|]. rewrite lookup_insert_ne by congruence.
    apply Hsp. set_solver.
Qed.

(** A subscription more. *)
Lemma add_down s c M A u b k downs d o : collapsed s c M A -> Select s u = Some b -> topic_of b = k ->
  user_data_ b ∈ special_observers_ c -> observers c !! user_data_ b = Some downs -> A !! d = None -> Select s d = None ->
  downs !! d = None /\ downstream_to_upstream_ c !! d = None /\
  collapsed s (set_routes (<[d := u]> (downstream_to_upstream_ c)) (special_observers_ c) (set_downstream (user_data_ b) (<[d := o]> downs) c))
    M (<[d := (k, o)]> A).
Proof.
  intros H Hb Hk Hspecial Hdowns Hd Hsd. pose proof H as [Hs Hh Ht Htop Hmap Hact Hrt Hids Hsh Hpl Hown Hsp].
  pose proof (Htop u b Hb) as Hku. rewrite Hk in Hku.
  assert (downs !! d = None) as Hdd.
  { destruct (downs !! d) as [x|] eqn:E; [|done]. exfalso. assert (A !! d = Some (k, x)); [|congruence]. apply Hact. exists u, b. split_and!; try done.
    unfold serves_user. rewrite decide_True by done. eauto. }
  split; [done|]. split.
  { destruct (downstream_to_upstream_ c !! d) as [x|] eqn:E; [|done]. apply Hrt in E as [_ (k' & o' & E & _)]. congruence. }
  set (c' := set_routes _ _ _).
  assert (forall id x e y, id <> u -> Select s id = Some x -> serves_user c' x e y <-> serves_user c x e y) as Hsv.
  { intros id x e y Hne Hx. unfold serves_user, c'. cbn. destruct (decide (user_data_ x ∈ special_observers_ c)) as [Hin|Hin]; [|done].
    rewrite lookup_insert_ne; [done|]. intros E. apply Hne. by apply (Hown id u x b). }
  assert (forall e y, serves_user c' b e y <-> (e = d /\ y = o) \/ serves_user c b e y) as Hsvb.
  { intros e y. unfold serves_user, c'. cbn. rewrite !decide_True by done. rewrite lookup_insert_eq. split.
    - intros (w & [= <-] & [[<- <-]|[Hne Hw]]%lookup_insert_Some); [by left|right]. by exists downs.
    - intros [[-> ->]|(w & Hw & He)]; eexists; (split; [done|]); [by rewrite lookup_insert_eq|]. rewrite lookup_insert_ne; [congruence|]. congruence. }
  split; cbn; try done.
  - intros e k' y. rewrite lookup_insert_Some. split.
    + intros [[<- [= <- <-]]|[Hne He]].
      * exists u, b. split; [done|]. split; [done|]. apply Hsvb. by left.
      * apply Hact in He as (v & x & Hv & Hx & Hs1). exists v, x. split; [done|]. split; [done|]. destruct (decide (v = u)) as [->|Hvu].
        -- rewrite Hb in Hx. injection Hx as <-. apply Hsvb. by right.
        -- by apply (Hsv v).
    + intros (v & x & Hv & Hx & Hs1). destruct (decide (v = u)) as [->|Hvu].
      * rewrite Hb in Hx. injection Hx as <-. assert (k' = k) as -> by (apply (tb_inj _ _ _ (h_table _ _ _ Ht) k' k u); done).
        apply Hsvb in Hs1 as [[-> ->]|Hs1]; [by left|]. right. assert (A !! e = Some (k, y)) as He by (apply Hact; eauto). split; [congruence|done].
      * right. assert (A !! e = Some (k', y)) as He by (apply Hact; exists v, x; split_and!; try done; by apply (Hsv v)). split; [congruence|done].
  - intros e v. rewrite lookup_insert_Some, Hrt. split.
    + intros [[<- <-]|[Hne [Hev (k' & y & He & Hk')]]].
      * split; [intros ->; congruence|]. exists k, o. by rewrite lookup_insert_eq.
      * split; [done|]. exists k', y. by rewrite lookup_insert_ne.
    + intros [Hev (k' & y & He & Hk')]. apply lookup_insert_Some in He as [[<- [= <- <-]]|[Hne He]]; [left; split; congruence|right]. split; [congruence|]. split; [done|]. by exists k', y.
  - intros e k' y x He Hx. apply lookup_insert_Some in He as [[<- _]|[Hne He]]; [congruence|]. by apply (Hids e k' y).
  - intros id x Hx Hin. destruct (Hsh id x Hx Hin) as (w & Hw & Hne). destruct (decide (user_data_ x = user_data_ b)) as [E|E].
    + rewrite E, lookup_insert_eq. eexists. split; [done|]. apply insert_non_empty.
    + rewrite lookup_insert_ne by congruence. eauto.
  - intros id x Hx Hnin. rewrite lookup_insert_ne; [by apply (Hpl id x)|]. congruence.
  - intros x Hx. destruct (decide (x = user_data_ b)) as [->|Hne]; [rewrite lookup_insert_eq; by eexists|]. rewrite lookup_insert_ne by congruence.
    by apply Hsp.
Qed.

(** A topic with a subscription: no new one is made. *)
Lemma Start_more s c M A d p o address (k : Topic) u : collapsed s c M A -> k = (param_namespace p, param_topic p) -> M !! k = Some u ->
  A !! d = None -> Select s d = None -> unused_address s c address ->
  exists s' c', Collapsing_StartSubscription hash s c d p o address = Ok (s', c') /\
    collapsed s' c' M (<[d := (k, o)]> A) /\ user_calls c' = user_calls c /\ num_active_subscriptions_ s' = num_active_subscriptions_ s.
Proof.
  intros H Hkp Hk Hd Hsd Hadr. pose proof H as [Hs Hh Ht Htop Hmap Hact Hrt Hids Hsh Hpl Hown Hsp].
  unfold Collapsing_StartSubscription. rewrite <-Hkp. rewrite (Find_spec hash _ _ M k Ht (collapsed_knows _ _ _ _ H)), Hk. cbn [obind].
  change (default 0 (Some u)) with u. destruct (Hmap k u Hk) as (b & Hb & Hbk). rewrite Hb.
  pose proof Hbk as Hbk'. rewrite Hkp in Hbk'. injection Hbk' as Hns Htp. rewrite !bool_decide_eq_true_2 by done. cbn [assert_that obind].
  destruct (decide (user_data_ b ∈ special_observers_ c)) as [Hin|Hin].
  - cbn [obind]. destruct (Hsh u b Hb Hin) as (downs & Hdo & _). rewrite Hdo.
    destruct (add_down s c M A u b k downs d o H Hb Hbk Hin Hdo Hd Hsd) as (H1 & H2 & H3).
    rewrite bool_decide_eq_true_2 by done. cbn [assert_that obind downstream_to_upstream_ set_downstream].
    rewrite bool_decide_eq_true_2 by done. cbn [assert_that obind]. eexists _, _. split; [done|]. by split.
  - destruct (collapse_plain s c M A u b address H Hb Hin Hadr) as (m' & E & H' & Hb' & Hother).
    rewrite bool_decide_eq_true_2 by apply Hadr. cbn [assert_that obind]. rewrite E. cbn [obind].
    set (c1 := set_downstream address _ _) in *. assert (observers c1 !! address = Some {[u := user_data_ b]}) as Hdo by (cbn; by rewrite lookup_insert_eq).
    rewrite Hdo. assert (Select (set_map m' s) d = None) as Hsd' by (rewrite Hother; [done|congruence]).
    destruct (add_down _ c1 M A u _ k _ d o H' Hb' Hbk ltac:(cbn; set_solver) Hdo Hd Hsd') as (H1 & H2 & H3).
    rewrite bool_decide_eq_true_2 by done. cbn [assert_that obind downstream_to_upstream_ set_downstream].
    rewrite bool_decide_eq_true_2 by done. cbn [assert_that obind]. eexists _, _. split; [done|]. by split.
Qed.

(** ** Terminate *)

(** The subscription of a topic ends, with the last one it served. *)
Lemma drop_topic s c M A u b (k : Topic) d o s' c' : collapsed s c M A -> Select s u = Some b -> topic_of b = k ->
  A !! d = Some (k, o) -> (forall e y, A !! e = Some (k, y) -> e = d) ->
  subscriber_ok s' -> currently_healthy_ s' = true -> Select s' u = None -> (forall id, id <> u -> Select s' id = Select s id) ->
  observers c' = observers c -> special_observers_ c' = special_observers_ c ∖ {[user_data_ b]} ->
  downstream_to_upstream_ c' = delete d (downstream_to_upstream_ c) -> holds hash (upstream_subscriptions_ c') (delete k M) ->
  collapsed s' c' (delete k M) (delete d A).
Proof.
  intros H Hb Hbk Hd Honly Hs' Hh' Hu' Hother Eo Es Ed Ht'. pose proof H as [Hs Hh Ht Htop Hmap Hact Hrt Hids Hsh Hpl Hown Hsp].
  pose proof (Htop u b Hb) as Hku. rewrite Hbk in Hku.
  assert (forall id x, Select s' id = Some x -> id <> u /\ Select s id = Some x) as Hcase.
  { intros id x Hx. assert (id <> u) by congruence. split; [done|]. by rewrite <-Hother. }
  assert (forall id x, id <> u -> Select s id = Some x -> user_data_ x ∈ special_observers_ c' <-> user_data_ x ∈ special_observers_ c) as Hin.
  { intros id x Hne Hx. rewrite Es. split; [set_solver|]. intros Hin. apply elem_of_difference. split; [done|].
    intros E%elem_of_singleton. apply Hne. by apply (Hown id u x b). }
  assert (forall id x e y, id <> u -> Select s id = Some x -> serves_user c' x e y <-> serves_user c x e y) as Hsv.
  { intros id x e y Hne Hx. unfold serves_user. rewrite Eo. pose proof (Hin id x Hne Hx).
    destruct (decide (user_data_ x ∈ special_observers_ c')), (decide (user_data_ x ∈ special_observers_ c)); naive_solver. }
  assert (forall id x, id <> u -> Select s id = Some x -> topic_of x <> k) as Hk.
  { intros id x Hne Hx E. apply Hne. specialize (Htop id x Hx). rewrite E in Htop. congruence. }
  split; try done.
  - intros id x [Hne Hx]%Hcase. rewrite lookup_delete_ne; [by apply Htop|]. by apply not_eq_sym, (Hk id).
  - intros k' id [Hne Hk']%lookup_delete_Some. destruct (Hmap k' id Hk') as (x & Hx & Hkx). exists x. split; [|done].
    rewrite Hother; [done|]. intros ->. congruence.
  - intros e k' y. rewrite lookup_delete_Some, Hact. split.
    + intros [Hne (v & x & Hv & Hx & Hs1)]. destruct (decide (v = u)) as [->|Hvu].
      { exfalso. apply Hne. symmetry. apply (Honly e y). apply Hact. exists u, x. split_and!; try done. }
      exists v, x. rewrite lookup_delete_ne by (intros ->; congruence). split; [done|]. rewrite Hother by done. split; [done|]. by apply (Hsv v).
    + intros (v & x & [Hkne Hv]%lookup_delete_Some & [Hvu Hx]%Hcase & Hs1). assert (A !! e = Some (k', y)) as He.
      { apply Hact. exists v, x. split_and!; try done. by apply (Hsv v). }
      split; [intros <-; congruence|]. by apply Hact.
  - intros e v. rewrite Ed, lookup_delete_Some, Hrt. split.
    + intros [Hne [Hev (k' & y & He & Hk')]]. split; [done|]. exists k', y. rewrite lookup_delete_ne by done. split; [done|].
      rewrite lookup_delete_ne; [done|]. intros <-. apply Hne. symmetry. by apply (Honly e y).
    + intros [Hev (k' & y & [Hne He]%lookup_delete_Some & [Hkne Hk']%lookup_delete_Some)]. split; [done|]. split; [done|]. by exists k', y.
  - intros e k' y x [_ He]%lookup_delete_Some [_ Hx]%Hcase. by apply (Hids e k' y).
  - intros id x [Hne Hx]%Hcase Hi. rewrite Eo. apply (Hsh id x Hx). by apply (Hin id).
  - intros id x [Hne Hx]%Hcase Hi. rewrite Eo. apply (Hpl id x Hx). by rewrite <-(Hin id x).
  - intros id id' x x' [Hne Hx]%Hcase [Hne' Hx']%Hcase E Hi. apply (Hown id id' x x' Hx Hx' E). by apply (Hin id).
  - intros a Ha. rewrite Eo. apply Hsp. rewrite Es in Ha. set_solver.
Qed.

(** One of several subscriptions on a topic ends. *)
Lemma drop_down s c M A u b k downs d o : collapsed s c M A -> Select s u = Some b -> topic_of b = k ->
  user_data_ b ∈ special_observers_ c -> observers c !! user_data_ b = Some downs -> A !! d = Some (k, o) -> (1 < size downs)%nat ->
  is_Some (downs !! d) /\
  collapsed s (set_downstream (user_data_ b) (delete d downs) (set_routes (delete d (downstream_to_upstream_ c)) (special_observers_ c) c)) M (delete d A).
Proof.
  intros H Hb Hk Hspecial Hdowns Hd Hsz. pose proof H as [Hs Hh Ht Htop Hmap Hact Hrt Hids Hsh Hpl Hown Hsp].
  pose proof (Htop u b Hb) as Hku. rewrite Hk in Hku.
  assert (downs !! d = Some o) as Hdd.
  { apply Hact in Hd as (v & x & Hv & Hx & Hs1). assert (v = u) as -> by congruence. rewrite Hb in Hx. injection Hx as <-.
    unfold serves_user in Hs1. rewrite decide_True in Hs1 by done. destruct Hs1 as (w & Hw & He). congruence. }
  split; [by eexists|]. set (c' := set_downstream _ _ _).
  assert (forall id x e y, id <> u -> Select s id = Some x -> serves_user c' x e y <-> serves_user c x e y) as Hsv.
  { intros id x e y Hne Hx. unfold serves_user, c'. cbn. destruct (decide (user_data_ x ∈ special_observers_ c)) as [Hin|Hin]; [|done].
    rewrite lookup_insert_ne; [done|]. intros E. apply Hne. by apply (Hown id u x b). }
  assert (forall e y, serves_user c' b e y <-> e <> d /\ serves_user c b e y) as Hsvb.
  { intros e y. unfold serves_user, c'. cbn. rewrite !decide_True by done. rewrite lookup_insert_eq. split.
    - intros (w & [= <-] & [Hne Hw]%lookup_delete_Some). split; [done|]. by exists downs.
    - intros [Hne (w & Hw & He)]. eexists. split; [done|]. rewrite lookup_delete_ne by done. congruence. }
  split; cbn; try done.
  - intros e k' y. rewrite lookup_delete_Some. split.
    + intros [Hne (v & x & Hv & Hx & Hs1)%Hact]. exists v, x. split; [done|]. split; [done|]. destruct (decide (v = u)) as [->|Hvu].
      * rewrite Hb in Hx. injection Hx as <-. by apply Hsvb.
      * by apply (Hsv v).
    + intros (v & x & Hv & Hx & Hs1). destruct (decide (v = u)) as [->|Hvu].
      * rewrite Hb in Hx. injection Hx as <-. apply Hsvb in Hs1 as [Hne Hs1]. split; [done|]. apply Hact. by exists u, b.
      * assert (A !! e = Some (k', y)) as He by (apply Hact; exists v, x; split_and!; try done; by apply (Hsv v)). split; [|done].
        intros <-. assert (k' = k) as -> by congruence. congruence.
  - intros e v. rewrite lookup_delete_Some, Hrt. split.
    + intros [Hne [Hev (k' & y & He & Hk')]]. split; [done|]. exists k', y. by rewrite lookup_delete_ne.
    + intros [Hev (k' & y & [Hne He]%lookup_delete_Some & Hk')]. split; [done|]. split; [done|]. by exists k', y.
  - intros e k' y x [_ He]%lookup_delete_Some Hx. by apply (Hids e k' y).
  - intros id x Hx Hin. destruct (Hsh id x Hx Hin) as (w & Hw & Hne). destruct (decide (user_data_ x = user_data_ b)) as [E|E].
    + rewrite E, lookup_insert_eq. eexists. split; [done|]. intros Hemp. rewrite <-(insert_delete_id downs d o Hdd), Hemp in Hsz.
      rewrite map_size_insert_None in Hsz by apply lookup_empty. rewrite map_size_empty in Hsz. lia.
    + rewrite lookup_insert_ne by congruence. by exists w.
  - intros id x Hx Hnin. rewrite lookup_insert_ne; [by apply (Hpl id x)|]. congruence.
  - intros x Hx. destruct (decide (x = user_data_ b)) as [->|Hne]; [rewrite lookup_insert_eq; by eexists|]. rewrite lookup_insert_ne by congruence.
    by apply Hsp.
Qed.

(** The route of a subscription leads to the subscription of its topic. *)
Lemma route_found s c M A d k o u : collapsed s c M A -> A !! d = Some (k, o) -> M !! k = Some u ->
  downstream_to_upstream_ c !! d = if decide (d = u) then None else Some u.
Proof.
  intros H Hd Hk. case_decide as Hdu.
  - destruct (downstream_to_upstream_ c !! d) as [v|] eqn:E; [|done]. apply (cl_routes _ _ _ _ H) in E as [Hne (k' & o' & E1 & E2)]. congruence.
  - apply (cl_routes _ _ _ _ H). split; [done|]. by exists k, o.
Qed.

Lemma size_one (downs : gmap Z Z) d o : downs !! d = Some o -> size downs = 1%nat -> downs = {[d := o]}.
Proof.
  intros Hd Hsz. rewrite <-(insert_delete_id downs d o Hd) in *. rewrite map_size_insert_None in Hsz by apply lookup_delete_eq.
  assert (delete d downs = ∅) as -> by (apply map_size_empty_inv; lia). done.
Qed.

Lemma Terminate_ok s c M A d k o : collapsed s c M A -> A !! d = Some (k, o) ->
  exists s' c' M', Collapsing_TerminateSubscription hash s c d = Ok (s', c') /\ collapsed s' c' M' (delete d A).
Proof.
  intros H Hd. pose proof H as [Hs Hh Ht Htop Hmap Hact Hrt Hids Hsh Hpl Hown Hsp].
  pose proof (proj1 (Hact d k o) Hd) as (u & b & Hk & Hb & Hsv). destruct (collapsed_id _ _ _ _ _ _ H Hb) as [Hbid Hu0].
  assert (topic_of b = k) as Hbk by (destruct (Hmap k u Hk) as (x & Hx & <-); congruence).
  set (c1 := set_routes (delete d (downstream_to_upstream_ c)) (special_observers_ c) c).
  assert (Collapsing_TerminateSubscription hash s c d = match Select s u with
    | None => assert_that (u =? d) "upstream_id == downstream_id" ;;; Ok (s, c1)
    | Some b =>
        if decide (user_data_ b ∈ special_observers_ c1) then
          match observers c1 !! user_data_ b with
          | None => Abort "static_cast<TailCollapsingObserver*>"
          | Some downs =>
              if (1 <? size downs)%nat then
                assert_that (bool_decide (is_Some (downs !! d))) "result == 1" ;;;
                Ok (s, set_downstream (user_data_ b) (delete d downs) c1)
              else
                assert_that (size downs =? 1)%nat "downstream_observers.size() == 1" ;;;
                assert_that (bool_decide (is_Some (downs !! d))) "downstream_observers.count(downstream_id) == 1" ;;;
                @TerminateSubscription _ (collapsing hash) s (set_routes (downstream_to_upstream_ c1) (special_observers_ c1 ∖ {[user_data_ b]}) c1) u
          end
        else
          r <~ TopicMap.Remove hash (get_topic (subscriptions_map_ s)) (upstream_subscriptions_ c1) (topic_of b) u ;;
          @TerminateSubscription _ (collapsing hash) s (set_upstream (fst r) c1) u
    end) as ->.
  { unfold Collapsing_TerminateSubscription. rewrite (route_found _ _ _ _ _ _ _ _ H Hd Hk). case_decide as Hdu; [|done]. subst d.
    assert (c1 = c) as ->; [|done]. pose proof (route_found _ _ _ _ _ _ _ _ H Hd Hk) as Hn. rewrite decide_True in Hn by done.
    unfold c1, set_routes. rewrite delete_id by done. by destruct c. }
  rewrite Hb. change (special_observers_ c1) with (special_observers_ c). change (observers c1) with (observers c).
  change (upstream_subscriptions_ c1) with (upstream_subscriptions_ c). pose proof (collapsed_knows _ _ _ _ H) as Hg.
  destruct (TopicMap_Remove hash (get_topic (subscriptions_map_ s)) (upstream_subscriptions_ c) M k u Ht Hg Hk) as (t' & Erem & Ht').
  unfold serves_user in Hsv. destruct (decide (user_data_ b ∈ special_observers_ c)) as [Hin|Hin].
  - destruct Hsv as (downs & Hdo & Hdd). rewrite Hdo. destruct (Nat.ltb_spec 1 (size downs)) as [Hsz|Hsz].
    + destruct (drop_down s c M A u b k downs d o H Hb Hbk Hin Hdo Hd Hsz) as [_ H']. rewrite bool_decide_eq_true_2 by (by eexists).
      cbn [assert_that obind]. by eexists _, _, M.
    + assert (size downs = 1%nat) as Hsz1.
      { destruct (size downs) as [|[|n]] eqn:E; [|done|lia]. apply map_size_empty_inv in E as ->. by rewrite lookup_empty in Hdd. }
      rewrite Hsz1, bool_decide_eq_true_2 by (by eexists). cbn [Nat.eqb assert_that obind].
      pose proof (size_one downs d o Hdd Hsz1) as ->.
      set (c2 := set_routes (downstream_to_upstream_ c1) (special_observers_ c ∖ {[user_data_ b]}) c1).
      edestruct (@TerminateSubscription_ok _ (collapsing hash) 0 s c2) as (s' & e & E & Hs' & _ & _ & Hh' & _ & Hn & Hother); [done|exact Hb| |].
      { cbn [OnSubscriptionStatusChange collapsing]. unfold Collapsing_OnSubscriptionStatusChange. change (observers c2) with (observers c). rewrite Hdo.
        cbn [upstream_subscriptions_ set_routes call_user status_namespace status_topic status_sub_id status_of c2 c1].
        change (namespace_id b, topic_name_ b) with (topic_of b). rewrite Hbk, Erem. cbn [obind]. reflexivity. }
      rewrite E. eexists _, _, (delete k M). split; [done|]. eapply (drop_topic s c M A u b k d o); try done.
      * intros x y Hx. apply Hact in Hx as (v & z & Hv & Hz & Hs1). assert (v = u) as -> by congruence. rewrite Hb in Hz. injection Hz as <-.
        unfold serves_user in Hs1. rewrite decide_True in Hs1 by done. destruct Hs1 as (w & Hw & Hx). rewrite Hdo in Hw. injection Hw as <-.
        by apply lookup_singleton_Some in Hx as [<- _].
      * congruence.
      * cbn. rewrite decide_False by apply map_non_empty_singleton. apply leibniz_equiv. set_solver.
      * cbn. rewrite map_to_list_singleton. cbn. apply map_eq. intros x. destruct (decide (x = d)) as [->|Hne]; [by rewrite !lookup_delete_eq|by rewrite !lookup_delete_ne].
  - destruct Hsv as [Hd1 Ho1]. rewrite Hbid in Hd1. subst d o. rewrite Hbk.
    rewrite Erem. cbn [obind fst].
    edestruct (@TerminateSubscription_ok _ (collapsing hash) 0 s (set_upstream t' c1)) as (s' & e & E & Hs' & _ & _ & Hh' & _ & Hn & Hother); [done|exact Hb| |].
    { cbn [OnSubscriptionStatusChange collapsing]. unfold Collapsing_OnSubscriptionStatusChange. change (observers (set_upstream t' c1)) with (observers c).
      rewrite (Hpl u b Hb Hin). reflexivity. }
    rewrite E. eexists _, _, (delete k M). split; [done|]. eapply (drop_topic s c M A u b k u (user_data_ b)); try done.
    + intros x y Hx. apply Hact in Hx as (v & z & Hv & Hz & Hs1). assert (v = u) as -> by congruence. rewrite Hb in Hz. injection Hz as <-.
      unfold serves_user in Hs1. rewrite decide_False in Hs1 by done. destruct Hs1. congruence.
    + congruence.
    + cbn. apply leibniz_equiv. set_solver.
Qed.

Lemma Terminate_unknown s c M A d : collapsed s c M A -> A !! d = None -> Select s d = None ->
  Collapsing_TerminateSubscription hash s c d = Ok (s, c).
Proof.
  intros H Hd Hs. unfold Collapsing_TerminateSubscription. destruct (downstream_to_upstream_ c !! d) as [v|] eqn:E.
  - apply (cl_routes _ _ _ _ H) in E as [_ (k & o & E & _)]. congruence.
  - by rewrite Hs, Z.eqb_refl.
Qed.

(** ** Streams and updates *)

(** The same subscriptions, but for what they expect. *)
Definition same_subs (m m' : SubscriptionsMap) : Prop :=
  forall id, match Find m id, Find m' id with
    | Some b, Some b' => topic_of b' = topic_of b /\ user_data_ b' = user_data_ b /\ sub_id_ b' = sub_id_ b
    | None, None => True
    | _, _ => False
    end.

Lemma collapsed_same s c M A m' calls : collapsed s c M A -> client_ok m' -> same_subs (subscriptions_map_ s) m' ->
  collapsed (set_map m' s) (call_user calls c) M A.
Proof.
  intros [Hs Hh Ht Htop Hmap Hact Hrt Hids Hsh Hpl Hown Hsp] Hm' Hsame.
  assert (forall id b', Find m' id = Some b' -> exists b, Select s id = Some b /\ topic_of b' = topic_of b /\ user_data_ b' = user_data_ b /\ sub_id_ b' = sub_id_ b) as Hback.
  { intros id b' Hb'. specialize (Hsame id). unfold Select. rewrite Hb' in Hsame. destruct (Find _ id) as [b|]; [by exists b|done]. }
  assert (forall id b, Select s id = Some b -> exists b', Find m' id = Some b' /\ topic_of b' = topic_of b /\ user_data_ b' = user_data_ b /\ sub_id_ b' = sub_id_ b) as Hforth.
  { intros id b Hb. specialize (Hsame id). unfold Select in Hb. rewrite Hb in Hsame. destruct (Find m' id) as [b'|]; [by exists b'|done]. }
  assert (forall b b' d o, user_data_ b' = user_data_ b -> sub_id_ b' = sub_id_ b -> serves_user (call_user calls c) b' d o <-> serves_user c b d o) as Hsv.
  { intros b b' d o E1 E2. unfold serves_user. cbn. by rewrite E1, E2. }
  split; try done.
  - apply set_map_ok; [done|done|]. intros id. specialize (Hsame id). unfold Select. destruct (Find (subscriptions_map_ s) id), (Find m' id); try done.
    cbn. destruct Hsame as (_ & -> & _). done.
  - intros id b' (b & Hb & E & _)%Hback. rewrite E. by apply Htop.
  - intros k id Hk. destruct (Hmap k id Hk) as (b & Hb & <-). destruct (Hforth id b Hb) as (b' & Hb' & E & _). by exists b'.
  - intros d k o. rewrite Hact. split; intros (u & b & Hu & Hb & Hs1).
    + destruct (Hforth u b Hb) as (b' & Hb' & _ & E1 & E2). exists u, b'. split; [done|]. split; [done|]. by apply (Hsv b b').
    + destruct (Hback u b Hb) as (b' & Hb' & _ & E1 & E2). exists u, b'. split; [done|]. split; [done|]. by apply (Hsv b' b).
  - intros d k o b' Hd (b & Hb & E & _)%Hback. rewrite E. by apply (Hids d k o).
  - intros id b' (b & Hb & _ & E & _)%Hback. rewrite E. by apply (Hsh id).
  - intros id b' (b & Hb & _ & E & _)%Hback. rewrite E. by apply (Hpl id).
  - intros id id' x x' (b & Hb & _ & E & _)%Hback (b' & Hb' & _ & E' & _)%Hback. rewrite E, E'. by apply (Hown id id' b b').
Qed.

(** The subscriptions of the application on a topic. *)
Definition on_topic (A : gmap Z (Topic * Z)) (k : Topic) (R : list (Z * Z)) : Prop :=
  NoDup R /\ forall d o, (d, o) ∈ R <-> A !! d = Some (k, o).

(** What they are told of an update. *)
Definition told_update (up : Update) (R : list (Z * Z)) : list UserCall :=
  match up with
  | UpdateData seqno payload =>
      map (fun '(d, o) => UserMessage o {| received_sub_id := d; received_seqno := seqno; received_contents := payload |}) R
  | UpdateGap type first last =>
      if type =? kBenign then []
      else map (fun '(d, o) => UserLoss o {| loss_sub_id := d; loss_type := type; loss_first := first; loss_last := last |}) R
  end.

Lemma recipients s c M A u b k : collapsed s c M A -> Select s u = Some b -> topic_of b = k ->
  on_topic A k (match observers c !! user_data_ b with Some downs => map_to_list downs | None => [(u, user_data_ b)] end).
Proof.
  intros H Hb Hk. pose proof (cl_topic _ _ _ _ H u b Hb) as Hku. rewrite Hk in Hku. destruct (collapsed_id _ _ _ _ _ _ H Hb) as [Hid _].
  assert (forall d o, A !! d = Some (k, o) <-> serves_user c b d o) as Hact.
  { intros d o. rewrite (cl_active _ _ _ _ H). split; [|by exists u, b]. intros (v & x & Hv & Hx & Hs). assert (v = u) as -> by congruence. congruence. }
  unfold serves_user in Hact. destruct (decide (user_data_ b ∈ special_observers_ c)) as [Hin|Hin].
  - destruct (cl_shared _ _ _ _ H u b Hb Hin) as (downs & Hdo & _). rewrite Hdo. split; [apply NoDup_map_to_list|]. intros d o.
    rewrite elem_of_map_to_list, Hact. split; [by exists downs|]. intros (w & Hw & ?). congruence.
  - rewrite (cl_plain _ _ _ _ H u b Hb Hin). split; [apply NoDup_singleton|]. intros d o. rewrite list_elem_of_singleton, Hact, Hid. naive_solver.
Qed.

Lemma Deliver_ok s c M A u previous current up : collapsed s c M A -> u ∈ known (events (subscriptions_map_ s)) -> previous <= current ->
  valid_update up -> exists m' delivered c', ReceiveDeliver (subscriptions_map_ s) u previous current = Ok (m', delivered) /\
    @Subscriber_Deliver _ (collapsing hash) s c u previous current up = Ok (set_map m' s, c') /\ collapsed (set_map m' s) c' M A /\
    if delivered : bool then exists b R, Select s u = Some b /\ on_topic A (topic_of b) R /\ user_calls c' = user_calls c ++ told_update up R
    else user_calls c' = user_calls c.
Proof.
  intros H Hk Hle Hv. pose proof H as [Hs Hh Ht Htop Hmap Hact Hrt Hids Hsh Hpl Hown Hsp]. pose proof (so_map _ _ Hs) as Hm.
  destruct (ReceiveDeliver_ok _ u previous current Hm Hk Hle) as (m' & delivered & es & E & Hm' & _ & Hf & Hkeep).
  exists m', delivered. unfold Subscriber_Deliver. rewrite E. cbn [obind].
  destruct (ReceiveDeliver_users _ u previous current m' delivered Hm Hk Hle E) as [Hud Hdel].
  assert (same_subs (subscriptions_map_ s) m') as Hsame.
  { revert E. unfold ReceiveDeliver. rewrite bool_decide_eq_true_2 by (by apply (ck_unsent _ Hm)). cbn [assert_that obind].
    assert (same_subs (subscriptions_map_ s) (subscriptions_map_ s)) as Hrefl by (intros id; by destruct (Find _ id)).
    destruct (Keyless.Find u (synced_subscriptions_ (subscriptions_map_ s))) as [x|] eqn:Es; [|by intros [= <- _]].
    unfold ProcessUpdate. rewrite (proj2 (Z.leb_le _ _) Hle). cbn [assert_that obind]. destruct (_ || _); cbn [obind]; [by intros [= <- _]|].
    intros [= <- _] id. destruct (decide (id = u)) as [->|Hne].
    - unfold Find. cbn. rewrite Es, (Update_unique _ _ _ _ (ck_synced _ Hm) Es). set (y := set_expected (u64 (current + 1)) x).
      assert (sub_id_ y = u) as Hy by (by apply (unique_id _ _ _ (ck_synced _ Hm) Es)). rewrite (Find_update _ u y), decide_True by done. done.
    - destruct (Hf id Hne) as [Hid _]. rewrite Hid. destruct (Find (subscriptions_map_ s) id); by split_and?. }
  assert (forall calls, collapsed (set_map m' s) (call_user calls c) M A) as Hcol by (intros; by apply collapsed_same).
  assert (call_user [] c = c) as Hnil by (destruct c; unfold call_user; cbn; by rewrite app_nil_r).
  destruct delivered; [|exists c; split_and!; try done; rewrite <-Hnil; apply Hcol].
  destruct (Hdel eq_refl) as [b' Hb']. unfold Subscriber_ReceiveDeliver, Select. cbn [set_map subscriptions_map_]. rewrite Hb'.
  pose proof (Hsame u) as Hsu. rewrite Hb' in Hsu. destruct (Find (subscriptions_map_ s) u) as [b|] eqn:Eb; [|done].
  destruct Hsu as (Etop & Eud & Eid). pose proof (recipients s c M A u b _ H Eb eq_refl) as HR. rewrite Eud.
  set (R := match observers c !! user_data_ b with Some downs => map_to_list downs | None => [(u, user_data_ b)] end) in HR.
  assert (forall c', (exists calls, c' = call_user calls c /\ calls = told_update up R) ->
    collapsed (set_map m' s) c' M A /\ exists x R, Some b = Some x /\ on_topic A (topic_of x) R /\ user_calls c' = user_calls c ++ told_update up R) as Hfin.
  { intros c' (calls & -> & ->). split; [apply Hcol|]. by exists b, R. }
  destruct up as [seqno payload|type first last].
  - assert (OnMessageReceived (ObserverIf := collapsing hash) m' (user_data_ b) {| received_sub_id := u; received_seqno := seqno; received_contents := payload |} c =
      Ok (call_user (told_update (UpdateData seqno payload) R) c)) as ->.
    { cbn. unfold Collapsing_OnMessageReceived, R. by destruct (observers c !! user_data_ b). }
    cbn [obind]. eexists. split; [done|]. split; [done|]. apply Hfin. eauto.
  - destruct (Z.eqb_spec type kBenign) as [->|Hnb]; cbn [obind].
    + exists c. split; [done|]. split; [done|]. apply Hfin. exists []. split; [done|]. cbn. done.
    + assert (GetLossType type = Ok type) as ->.
      { unfold GetLossType. rewrite (proj2 (orb_true_iff _ _)); [done|]. cbn in Hv. unfold ValidateGapType, kBenign, kRetention, kDataLoss in *.
        prop_bools. destruct (Z.eq_dec type 1) as [->|]; [by left|right; apply Z.eqb_eq; lia]. }
      cbn [obind]. assert (OnDataLoss (ObserverIf := collapsing hash) m' (user_data_ b) {| loss_sub_id := u; loss_type := type; loss_first := first; loss_last := last |} c =
        Ok (call_user (told_update (UpdateGap type first last) R) c)) as ->.
      { cbn. unfold Collapsing_OnDataLoss, R. rewrite (proj2 (Z.eqb_neq _ _) Hnb). by destruct (observers c !! user_data_ b). }
      cbn [obind]. eexists. split; [done|]. split; [done|]. apply Hfin. eauto.
Qed.

(** ** The machine *)

Inductive collapse_action :=
| CollapseStart (d : Z) (p : SubscriptionParameters) (o address : Z)
| CollapseTerminate (d : Z)
| CollapseUpdate (u previous current : Z) (up : Update)
| CollapseStream (a : client_action).

Definition run_collapse (a : collapse_action) (sc : Subscriber * Collapsing) : outcome (Subscriber * Collapsing) :=
  let '(s, c) := sc in
  match a with
  | CollapseStart d p o address => Collapsing_StartSubscription hash s c d p o address
  | CollapseTerminate d => Collapsing_TerminateSubscription hash s c d
  | CollapseUpdate u previous current up => @Subscriber_Deliver _ (collapsing hash) s c u previous current up
  | CollapseStream a => m <~ run_client a (subscriptions_map_ s) ;; Ok (set_map m s, c)
  end.

Definition asks_for (p : SubscriptionParameters) : Topic := (param_namespace p, param_topic p).

(** What the application has asked for. *)
Definition asked (a : collapse_action) (A : gmap Z (Topic * Z)) : gmap Z (Topic * Z) :=
  match a with
  | CollapseStart d p o _ => <[d := (asks_for p, o)]> A
  | CollapseTerminate d => delete d A
  | _ => A
  end.

(** New subscriptions have new IDs and observers, and are within the limit or
    on a topic that is subscribed; one that is ended is active or unknown. *)
Definition collapse_enabled (sc : Subscriber * Collapsing) (A : gmap Z (Topic * Z)) (a : collapse_action) : Prop :=
  let '(s, c) := sc in
  match a with
  | CollapseStart d p o address => fresh (subscriptions_map_ s) d /\ d <> 0 /\ A !! d = None /\ o <> 0 /\ observers c !! o = None /\
      (o ∉ special_observers_ c) /\ unused_address s c address /\
      (num_active_subscriptions_ s < max_active_subscriptions_ s \/ exists d' o', A !! d' = Some (asks_for p, o'))
  | CollapseTerminate d => is_Some (A !! d) \/ Select s d = None
  | CollapseUpdate u previous current up => u ∈ known (events (subscriptions_map_ s)) /\ previous <= current /\ valid_update up
  | CollapseStream a => stream_action a /\ client_enabled (subscriptions_map_ s) a
  end.

Inductive collapse_runs : Subscriber * Collapsing -> gmap Z (Topic * Z) -> list collapse_action -> Subscriber * Collapsing -> gmap Z (Topic * Z) -> Prop :=
| collapse_runs_nil sc A : collapse_runs sc A [] sc A
| collapse_runs_cons sc A a acts sc1 sc' A' : collapse_enabled sc A a -> run_collapse a sc = Ok sc1 ->
    collapse_runs sc1 (asked a A) acts sc' A' -> collapse_runs sc A (a :: acts) sc' A'.

Lemma collapsed_size s c M A : collapsed s c M A -> Z.of_nat (size M) <= num_active_subscriptions_ s.
Proof.
  intros H. pose proof (cl_sub _ _ _ _ H) as Hs. rewrite (so_count _ _ Hs). apply inj_le.
  rewrite <-length_map_to_list, <-(length_fmap snd). change (size (ids (subscriptions_map_ s))) with (length (elements (ids (subscriptions_map_ s)))).
  apply submseteq_length, NoDup_submseteq.
  - apply NoDup_fmap_2_strong; [|apply NoDup_map_to_list]. intros [k x] [k' x'] Hk%elem_of_map_to_list Hk'%elem_of_map_to_list E. cbn in E. subst.
    by rewrite (tb_inj _ _ _ (h_table _ _ _ (cl_table _ _ _ _ H)) k k' x' Hk Hk').
  - intros id ([k x] & -> & Hk%elem_of_map_to_list)%list_elem_of_fmap. apply elem_of_elements, ids_Find; [apply Hs|].
    destruct (cl_map _ _ _ _ H k x Hk) as (b & Hb & _). by exists b.
Qed.

Lemma StartSubscription_max {C : Type} `{!ObserverIf C} s (c c' : C) id p o s' : StartSubscription s c id p o = Ok (s', c') ->
  max_active_subscriptions_ s' = max_active_subscriptions_ s.
Proof.
  unfold StartSubscription. case_bool; [intros (c1 & _ & [= <- _])%obind_Ok; done|].
  intros (c1 & _ & (m & _ & [= <- _])%obind_Ok)%obind_Ok. done.
Qed.

Lemma TerminateSubscription_max {C : Type} `{!ObserverIf C} s (c c' : C) id s' : TerminateSubscription s c id = Ok (s', c') ->
  max_active_subscriptions_ s' = max_active_subscriptions_ s.
Proof.
  unfold TerminateSubscription. intros ([s1 c1] & E & [= <- _])%obind_Ok. cbn. revert E. destruct (Select s id); [|by intros [= <- _]].
  unfold ReceiveTerminate. intros ([s2 c2] & E & (m & _ & [= <- _])%obind_Ok)%obind_Ok. cbn. destruct (Select s id); [|done].
  apply obind_Ok in E as ([] & _ & (c3 & _ & [= <- _])%obind_Ok). done.
Qed.

Lemma run_collapse_max a s c s' c' : run_collapse a (s, c) = Ok (s', c') -> max_active_subscriptions_ s' = max_active_subscriptions_ s.
Proof.
  destruct a as [d p o address|d|u previous current up|a]; cbn [run_collapse].
  - unfold Collapsing_StartSubscription. intros (u & _ & H)%obind_Ok. destruct (Select s u) as [b|].
    + apply obind_Ok in H as ([] & _ & ([] & _ & ([[s1 c1] co] & E & H)%obind_Ok)%obind_Ok). destruct (observers c1 !! co); [|done].
      apply obind_Ok in H as ([] & _ & ([] & _ & H)%obind_Ok). injection H as <- _. case_decide; [by injection E as <- _ _|].
      apply obind_Ok in E as ([] & _ & (m & _ & [= <- _ _])%obind_Ok). done.
    + apply obind_Ok in H as (m & _ & H). by apply (@StartSubscription_max _ (collapsing hash)) in H.
  - unfold Collapsing_TerminateSubscription. destruct (match downstream_to_upstream_ c !! d with None => _ | Some _ => _ end) as [u c1].
    destruct (Select s u) as [b|]; [|by intros ([] & _ & [= <- _])%obind_Ok]. case_decide as Hin.
    + destruct (observers c1 !! user_data_ b) as [downs|]; [|done]. destruct (_ <? _)%nat; [by intros ([] & _ & [= <- _])%obind_Ok|].
      intros ([] & _ & ([] & _ & H)%obind_Ok)%obind_Ok. by apply (@TerminateSubscription_max _ (collapsing hash)) in H.
    + intros (r & _ & H)%obind_Ok. by apply (@TerminateSubscription_max _ (collapsing hash)) in H.
  - unfold Subscriber_Deliver. intros ([m delivered] & _ & H)%obind_Ok. destruct delivered; [|by injection H as <- _].
    apply obind_Ok in H as (c2 & _ & [= <- _]). done.
  - intros (m & _ & [= <- _])%obind_Ok. done.
Qed.

Lemma collapse_step s c M A a : collapsed s c M A -> max_active_subscriptions_ s < 2 ^ 50 - 1 -> collapse_enabled (s, c) A a ->
  exists s' c' M', run_collapse a (s, c) = Ok (s', c') /\ collapsed s' c' M' (asked a A).
Proof.
  intros H Hmax Hen. pose proof (cl_sub _ _ _ _ H) as Hs. destruct a as [d p o address|d|u previous current up|a]; cbn [run_collapse collapse_enabled asked] in *.
  - destruct Hen as (Hf & H0 & Hd & Ho0 & Hoo & Hos & Hadr & Hor). set (k := asks_for p) in *.
    destruct (M !! k) as [u|] eqn:Hk.
    + destruct (Start_more s c M A d p o address k u H eq_refl Hk Hd (proj1 Hf) Hadr) as (s' & c' & E & H' & _). by exists s', c', M.
    + assert (num_active_subscriptions_ s < max_active_subscriptions_ s) as Hlt.
      { destruct Hor as [?|(d' & o' & Hd')]; [done|]. apply (cl_active _ _ _ _ H) in Hd' as (u & b & Hu & _). congruence. }
      pose proof (collapsed_size _ _ _ _ H).
      destruct (Start_first s c M A d p o address k H eq_refl Hk Hlt ltac:(lia) Hf H0 Hd Ho0 Hoo Hos) as (s' & c' & E & H' & _). by eexists _, _, _.
  - destruct (A !! d) as [[k o]|] eqn:Hd.
    + destruct (Terminate_ok s c M A d k o H Hd) as (s' & c' & M' & E & H'). by exists s', c', M'.
    + destruct Hen as [[? ?]|Hsel]; [done|]. exists s, c, M. rewrite (Terminate_unknown s c M A d H Hd Hsel). split; [done|]. by rewrite delete_id.
  - destruct Hen as (Hk & Hle & Hv). destruct (Deliver_ok s c M A u previous current up H Hk Hle Hv) as (m' & dl & c' & _ & E & H' & _). by exists (set_map m' s), c', M.
  - destruct Hen as [Hst Hen]. destruct (client_step _ a (so_map _ _ Hs) Hen) as (m' & es & E & Hm' & _). rewrite E. cbn [obind].
    exists (set_map m' s), c, M. split; [done|]. replace c with (call_user [] c) by (destruct c; unfold call_user; cbn; by rewrite app_nil_r).
    apply collapsed_same; [done|done|]. intros id. rewrite (stream_Find _ a m' (so_map _ _ Hs) Hst Hen E). by destruct (Find _ id).
Qed.

Lemma collapse_runs_ok sc A acts sc' A' M : collapsed (fst sc) (snd sc) M A -> max_active_subscriptions_ (fst sc) < 2 ^ 50 - 1 ->
  collapse_runs sc A acts sc' A' -> (exists M', collapsed (fst sc') (snd sc') M' A') /\
    max_active_subscriptions_ (fst sc') = max_active_subscriptions_ (fst sc).
Proof.
  intros H Hmax Hr. revert M H Hmax. induction Hr as [sc A|sc A a acts sc1 sc' A' Hen Ha Hr IH]; intros M H Hmax; [by split; [exists M|]|].
  destruct sc as [s c], sc1 as [s1 c1]. destruct (collapse_step s c M A a H Hmax Hen) as (s2 & c2 & M2 & E & H2). rewrite Ha in E. injection E as <- <-.
  pose proof (run_collapse_max a s c s1 c1 Ha) as Emax. cbn [fst snd] in *. destruct (IH M2 H2 ltac:(lia)) as [? ?]. split; [done|congruence].
Qed.

(** ** Property *)

(** C11: collapsed subscriptions serve every subscriber, within the limits of
    [collapse_enabled].  Whatever the application subscribes to and unsubscribes
    from and however the stream breaks, the next action is completed without a
    failed assertion of the adaptor, the table, the subscriber or its map; there
    is one subscription at the server for each topic the application is
    subscribed to and none else; and an update of a topic that the subscription
    accepts is passed on once to each subscription of the application on that
    topic, under its own ID, and to no other.  It is assumed that the limit on
    active subscriptions, which is below 2^50, is not reached and the server
    ends no subscription (otherwise [stale_topic_aborts]); that the health of
    the shard is not reported ([health_report_forgets]); that the application
    ends only subscriptions it has, or IDs that nothing knows
    ([second_terminate_aborts]); that each subscription has a new ID and an
    observer of its own; that the server speaks only about IDs it was told of on
    the stream, with updates that do not go backwards; and that the subscriber
    is the only one that uses its counter of active subscriptions. *)
Theorem collapsing_serves max notify acts s c A a : 0 <= max < 2 ^ 50 - 1 ->
  collapse_runs (NewSubscriber max 0 notify, NewCollapsing) ∅ acts (s, c) A -> collapse_enabled (s, c) A a ->
  (exists sc', run_collapse a (s, c) = Ok sc') /\
  (forall id id' b b', Select s id = Some b -> Select s id' = Some b' -> topic_of b = topic_of b' -> id = id') /\
  (forall k, (exists u b, Select s u = Some b /\ topic_of b = k) <-> exists d o, A !! d = Some (k, o)) /\
  (forall u previous current up, a = CollapseUpdate u previous current up ->
     exists m' delivered c', ReceiveDeliver (subscriptions_map_ s) u previous current = Ok (m', delivered) /\
       run_collapse a (s, c) = Ok (set_map m' s, c') /\
       if delivered : bool then exists b R, Select s u = Some b /\ on_topic A (topic_of b) R /\ user_calls c' = user_calls c ++ told_update up R
       else user_calls c' = user_calls c).
Proof.
  intros Hmax Hr Hen. destruct (collapse_runs_ok (NewSubscriber max 0 notify, NewCollapsing) ∅ acts (s, c) A ∅) as [[M H] Hmx];
    [apply NewCollapsing_ok; lia|cbn; lia|done|]. cbn [fst snd] in *. split_and!.
  - destruct (collapse_step s c M A a H ltac:(cbn in Hmx; lia) Hen) as (s' & c' & M' & E & _). by exists (s', c').
  - intros id id' b b' Hb Hb' Hk. pose proof (cl_topic _ _ _ _ H id b Hb) as H1. pose proof (cl_topic _ _ _ _ H id' b' Hb') as H2. congruence.
  - intros k. split.
    + intros (u & b & Hb & <-). destruct (recipients s c M A u b _ H Hb eq_refl) as [_ HR].
      assert (exists e, e ∈ match observers c !! user_data_ b with Some downs => map_to_list downs | None => [(u, user_data_ b)] end) as [[d o] He].
      { destruct (decide (user_data_ b ∈ special_observers_ c)) as [Hin|Hin].
        - destruct (cl_shared _ _ _ _ H u b Hb Hin) as (downs & Hdo & Hne). rewrite Hdo. apply map_choose in Hne as (d & o & Hd). exists (d, o).
          by apply elem_of_map_to_list.
        - rewrite (cl_plain _ _ _ _ H u b Hb Hin). eexists. by apply list_elem_of_singleton. }
      exists d, o. by apply HR.
    + intros (d & o & (u & b & Hu & Hb & _)%(cl_active _ _ _ _ H)). exists u, b. split; [done|].
      destruct (cl_map _ _ _ _ H k u Hu) as (x & Hx & <-). congruence.
  - intros u previous current up ->. destruct Hen as (Hk & Hle & Hv).
    destruct (Deliver_ok s c M A u previous current up H Hk Hle Hv) as (m' & dl & c' & E1 & E2 & _ & E3). by exists m', dl, c'.
Qed.
End Facts.

(** ** Runs *)

Definition params (topic : byte) : SubscriptionParameters :=
  {| param_tenant := 1; param_namespace := [Byte.x62]; param_topic := [topic]; param_start_seqno := 0 |}.

Fixpoint collapse_after (acts : list collapse_action) (sc : outcome (Subscriber * Collapsing)) : outcome (Subscriber * Collapsing) :=
  match acts with [] => sc | a :: acts => sc <~ sc ;; collapse_after acts (run_collapse last_slot a sc) end.

Definition collapse_state (acts : list collapse_action) : Subscriber * Collapsing :=
  match collapse_after acts (Ok (NewSubscriber 1 0 true, NewCollapsing)) with Ok sc => sc | Abort _ => (NewSubscriber 0 0 true, NewCollapsing) end.

(** Two subscriptions on one topic, with a limit of one. *)
Definition share_topic : list collapse_action :=
  [CollapseStart 9 (params Byte.x61) 1000 5000; CollapseStream Connected; CollapseStream (SendSubscribe 9);
   CollapseStart 11 (params Byte.x61) 1001 5000].
Definition shared_asked : gmap Z (Topic * Z) := foldl (fun A a => asked a A) ∅ share_topic.

Lemma share_topic_runs : collapse_runs last_slot (NewSubscriber 1 0 true, NewCollapsing) ∅ share_topic
  (fst (collapse_state share_topic), snd (collapse_state share_topic)) shared_asked.
Proof.
  econstructor; [|vm_compute; reflexivity|].
  { split; [split; [done|split; by vm_compute]|]. do 5 (split; [done|]). split; [|by left]. by split_and!. }
  econstructor; [done|vm_compute; reflexivity|].
  econstructor; [split; [done|split; [done|by eexists]]|vm_compute; reflexivity|].
  econstructor; [|vm_compute; reflexivity|constructor].
  split; [split; [by vm_compute|split; by vm_compute]|]. do 5 (split; [done|]). split; [|right; by exists 9, 1000].
  split; [done|]. split; [done|]. split; [by vm_compute|]. intros id b Hb. destruct (decide (id = 9)) as [->|Hne]; [by injection Hb as <-|].
  exfalso. revert Hb. unfold Select, Find. set (m := subscriptions_map_ _).
  assert (synced_subscriptions_ m = {[ 9 := [{| tenant_id := 1; namespace_id := [Byte.x62]; topic_name_ := [Byte.x61]; sub_id_ := 9;
    expected_seqno_ := 0; user_data_ := 1000 |}] ]}) as -> by (vm_compute; reflexivity).
  assert (pending_subscriptions_ m = ∅) as -> by (vm_compute; reflexivity).
  unfold Keyless.Find. by rewrite lookup_singleton_ne, lookup_empty by done.
Qed.

Lemma collapsing_serves_witness : exists b R, Select (fst (collapse_state share_topic)) 9 = Some b /\ on_topic shared_asked (topic_of b) R /\
  (sc <~ collapse_after [CollapseUpdate 9 0 7 (UpdateData 7 [Byte.x70])] (Ok (collapse_state share_topic)) ;; Ok (user_calls (snd sc))) =
    Ok (told_update (UpdateData 7 [Byte.x70]) R).
Proof.
  destruct (collapsing_serves last_slot 1 true share_topic (fst (collapse_state share_topic)) (snd (collapse_state share_topic)) shared_asked
    (CollapseUpdate 9 0 7 (UpdateData 7 [Byte.x70])) ltac:(lia) share_topic_runs) as (_ & _ & _ & H).
  { split; [by vm_compute|]. split; [lia|exact I]. }
  destruct (H 9 0 7 (UpdateData 7 [Byte.x70]) eq_refl) as (m' & delivered & c' & E1 & E2 & E3).
  assert (delivered = true) as -> by (vm_compute in E1; congruence).
  destruct E3 as (b & R & Hb & HR & Hc). exists b, R. split; [exact Hb|]. split; [exact HR|].
  cbn [collapse_after obind]. rewrite (surjective_pairing (collapse_state share_topic)). rewrite E2. cbn [obind snd]. rewrite Hc. reflexivity.
Defined.

(** ** What the code does not do *)

(** An ID that is not active stays in the table of topics and stops the
    process.  [StartSubscription] enters the new ID before the subscriber
    refuses it because of the limit (first run), and a subscription with an
    observer of its own that the server ends is not taken out (second run); the
    next subscription on the topic asks the owner for the topic of the ID,
    which it does not know, and the assertion on the answer fails. *)
Theorem stale_topic_aborts :
  collapse_after [CollapseStart 9 (params Byte.x61) 1000 5000; CollapseStart 11 (params Byte.x65) 1001 5000;
    CollapseStart 13 (params Byte.x65) 1002 5000] (Ok (NewSubscriber 1 0 true, NewCollapsing)) = Abort "success" /\
  (sc <~ collapse_after [CollapseStart 9 (params Byte.x61) 1000 5000; CollapseStream Connected; CollapseStream (SendSubscribe 9)]
           (Ok (NewSubscriber 1 0 true, NewCollapsing)) ;;
   sc <~ @Subscriber_ReceiveUnsubscribe _ (collapsing last_slot) (fst sc) (snd sc) 9 kInvalid ;;
   collapse_after [CollapseStart 11 (params Byte.x61) 1001 5000] (Ok sc)) = Abort "success".
Proof. split; vm_compute; reflexivity. Qed.

(** A report about the health of the shard ends collapsed subscriptions.
    The observer of a collapsed subscription takes every change of status for
    the end of the subscription.  After the shard is reported unhealthy, the
    subscription 11 can no longer be ended, a new one on the topic makes a
    second subscription at the server, and an update is still passed to 11. *)
Theorem health_report_forgets :
  (sc <~ @NotifyHealthy _ (collapsing last_slot) (fst (collapse_state share_topic)) (snd (collapse_state share_topic)) false ;;
   sc <~ collapse_after [CollapseTerminate 11; CollapseUpdate 9 0 7 (UpdateData 7 [Byte.x70])] (Ok sc) ;;
   Ok (map_to_list (downstream_to_upstream_ (snd sc)), special_observers_ (snd sc), drop 2 (user_calls (snd sc)))) =
  Ok ([], ∅, [UserMessage 1001 {| received_sub_id := 11; received_seqno := 7; received_contents := [Byte.x70] |};
              UserMessage 1000 {| received_sub_id := 9; received_seqno := 7; received_contents := [Byte.x70] |}]).
Proof. vm_compute. reflexivity. Qed.

(** Ending a subscription twice can end another one.  When the subscription
    whose ID the server knows is ended while others on its topic remain, its ID
    still names the subscription at the server; ending it again fails an
    assertion, without which the remaining one would be ended. *)
Theorem second_terminate_aborts :
  collapse_after [CollapseTerminate 9; CollapseTerminate 9] (Ok (collapse_state share_topic)) =
    Abort "downstream_observers.count(downstream_id) == 1".
Proof. vm_compute. reflexivity. Qed.
