(* ===== verification/TimeoutList.v ===== *)
(** * Timeout list

    util/timeout_list.h: items in the order in which they were added or renewed,
    with the time of that.  The list is the linked map of [Containers], here as
    the association list it implements ([LinkedBase_refines]); the clock is an
    argument. *)

From Stdlib Require Import Sorting.Sorted.
From S2P Require Import Prelude Containers.

Module TimeoutList.
Section TimeoutList.
Context {T : Type} `{Countable T}.

(** Items with their time points. *)
#[local] Abbreviation t := (list (T * Z)).

Implicit Types (l : t) (now timeout batch_limit : Z) (x : T).

Definition Contains l x : bool := lm_contains x l.

Definition Add now x l : t :=
  match lm_find x l with
  | None => fst (lm_emplace_back x now l)
  | Some _ => lm_move_to_back x (lm_set x now l)
  end.

Definition Erase x l : t := lm_erase x l.

(** The items handed to the callback, in order, and what is left; the key of a
    node is copied before the node is erased. *)
Fixpoint ProcessExpired now timeout batch_limit l : list T * t :=
  match l with
  | [] => ([], [])
  | (x, time) :: rest =>
      if (batch_limit <? 0) || (0 <? batch_limit) then
        if now - time <=? timeout then ([], l)
        else
          let '(out, remaining) := ProcessExpired now timeout (if batch_limit <? 0 then batch_limit else batch_limit - 1) rest in
          (x :: out, remaining)
      else ([], l)
  end.

Definition GetExpired now timeout batch_limit l : list T * t := ProcessExpired now timeout batch_limit l.

(** ** Facts *)

Definition expired now timeout (e : T * Z) : bool := timeout <? now - snd e.

(** No item has a time after [now], and times do not decrease along the list. *)
Definition ordered now l : Prop := lm_wf l /\ StronglySorted Z.le (map snd l) /\ Forall (fun e => snd e <= now) l.

Lemma ordered_cons now x time l : ordered now ((x, time) :: l) -> (x ∉ map fst l) /\ Forall (fun e => time <= snd e) l /\ time <= now /\ ordered now l.
Proof.
  intros (Hwf & Hs & Hn). unfold lm_wf in Hwf. cbn in Hwf. apply NoDup_cons in Hwf as [Hx Hwf]. cbn [map fst snd] in Hs.
  inversion Hs as [|? ? Hs' Hf]; subst. apply Forall_cons in Hn as [Ht Hn]. split_and!; [done| |done|by split_and!].
  by rewrite List.Forall_map in Hf.
Qed.

Lemma ordered_mono now now' l : now <= now' -> ordered now l -> ordered now' l.
Proof. intros Hle (Hwf & Hs & Hn). split_and!; [done|done|]. eapply Forall_impl; [exact Hn|]. intros e He. cbn in *. lia. Qed.

Lemma ordered_nil now : ordered now [].
Proof. split_and!; [apply NoDup_nil_2|constructor|constructor]. Qed.

Lemma ordered_erase now x l : ordered now l -> ordered now (lm_erase x l).
Proof.
  intros (Hwf & Hs & Hn). split; [by apply lm_wf_erase|]. unfold lm_erase. clear Hwf. induction l as [|[y time] l IH]; [by split; constructor|].
  cbn [map snd] in Hs. inversion Hs as [|? ? Hs' Hf]; subst. apply Forall_cons in Hn as [Ht Hn]. destruct (IH Hs' Hn) as [IH1 IH2].
  rewrite filter_cons. cbn [fst]. case_decide; [|done]. split; [|by constructor]. cbn [map snd]. constructor; [done|].
  rewrite List.Forall_map in *. rewrite Forall_forall in *. intros e He. apply list_elem_of_filter in He as [_ He]. by apply Hf.
Qed.

Lemma ordered_push now x l : ordered now l -> x ∉ map fst l -> ordered now (l ++ [(x, now)]).
Proof.
  intros (Hwf & Hs & Hn) Hx. split_and!.
  - unfold lm_wf. rewrite map_app. apply NoDup_app. split; [done|]. split; [|apply NoDup_singleton]. intros y Hy ->%list_elem_of_singleton. done.
  - rewrite map_app. clear Hwf Hx. induction l as [|[y time] l IH]; [by repeat constructor|]. cbn [map snd app] in *.
    inversion Hs as [|? ? Hs' Hf]; subst. apply Forall_cons in Hn as [Ht Hn]. constructor; [by apply IH|]. apply Forall_app. split; [done|]. by constructor.
  - apply Forall_app. split; [done|]. by constructor.
Qed.

Lemma lm_erase_absent x l : x ∉ map fst l -> lm_erase x l = l.
Proof.
  intros Hx. unfold lm_erase. induction l as [|[y time] l IH]; [done|]. cbn [map fst] in Hx. apply not_elem_of_cons in Hx as [Hne Hx].
  rewrite filter_cons. cbn [fst]. rewrite decide_True by done. by rewrite IH.
Qed.

(** [Add] puts the item at the end, with the present time. *)
Lemma Add_spec now x l : lm_wf l -> Add now x l = lm_erase x l ++ [(x, now)].
Proof.
  intros Hwf. unfold Add. destruct (lm_find x l) as [time|] eqn:E.
  - unfold lm_move_to_back. rewrite lm_find_set, E, decide_True by done. cbn. f_equal. unfold lm_erase, lm_set.
    clear E Hwf. induction l as [|[y tm] l IH]; [done|]. cbn [map]. rewrite !filter_cons. cbn [fst]. destruct (decide (y = x)) as [->|Hne].
    + cbn [fst]. rewrite !decide_False by (intros Hn; by apply Hn). done.
    + cbn [fst]. rewrite !decide_True by done. by rewrite IH.
  - unfold lm_emplace_back, lm_contains. rewrite E. rewrite bool_decide_eq_false_2 by (by intros []). cbn. f_equal.
    symmetry. apply lm_erase_absent. by apply lm_find_None.
Qed.

Lemma Add_ordered now x l : ordered now l -> ordered now (Add now x l).
Proof.
  intros H0. rewrite Add_spec by apply H0. apply ordered_push; [by apply ordered_erase|]. unfold lm_erase. intros Hx.
  apply list_elem_of_fmap in Hx as (e & -> & [Hne _]%list_elem_of_filter). done.
Qed.

(** In an ordered list the expired items are a prefix: the loop that stops at
    the first item that is not expired misses none. *)
Lemma ProcessExpired_spec now timeout batch_limit l : ordered now l ->
  exists n, ProcessExpired now timeout batch_limit l = (map fst (take n l), drop n l) /\ Forall (fun e => expired now timeout e = true) (take n l) /\
    (if batch_limit <? 0 then Forall (fun e => expired now timeout e = false) (drop n l)
     else n = Nat.min (Z.to_nat batch_limit) (length (filter (fun e => expired now timeout e = true) l))).
Proof.
  revert batch_limit. induction l as [|[x time] l IH]; intros b Ho.
  { exists 0%nat. cbn. split_and!; [done|constructor|]. destruct (b <? 0); [constructor|]. lia. }
  apply ordered_cons in Ho as (_ & Hf & Ht & Ho). cbn [ProcessExpired].
  assert (timeout >= now - time -> Forall (fun e => expired now timeout e = false) ((x, time) :: l)) as Hnone.
  { intros Hle. constructor; [unfold expired; cbn; lia|]. eapply Forall_impl; [exact Hf|]. intros e He. unfold expired. cbn in *. lia. }
  destruct ((b <? 0) || (0 <? b)) eqn:Eb.
  - destruct (Z.leb_spec (now - time) timeout) as [Hle|Hgt].
    + exists 0%nat. split_and!; [done|constructor|]. destruct (b <? 0); [by apply Hnone; lia|].
      assert (filter (fun e => expired now timeout e = true) ((x, time) :: l) = []) as ->; [|cbn; lia].
      apply elem_of_nil_inv. intros e [He Hin]%list_elem_of_filter. specialize (Hnone ltac:(lia)). rewrite Forall_forall in Hnone.
      by rewrite (Hnone e Hin) in He.
    + destruct (IH (if b <? 0 then b else b - 1) Ho) as (n & -> & Hex & Hn). exists (S n). cbn [take drop map fst].
      assert (expired now timeout (x, time) = true) as Hx by (unfold expired; cbn; lia). split_and!; [done|by constructor|].
      destruct (Z.ltb_spec b 0) as [Hb|Hb]; [by destruct (Z.ltb_spec b 0); [|lia]|].
      rewrite filter_cons, decide_True by done. cbn [length]. destruct (Z.ltb_spec (b - 1) 0); lia.
  - exists 0%nat. assert (b = 0) as -> by lia. by split_and!.
Qed.
End TimeoutList.
End TimeoutList.
