(* ===== verification/CopilotWorker.v ===== *)
(** * Copilot worker

    copilot/worker.cc and worker.h: a worker of the copilot keeps the
    subscriptions of clients on the topics of some logs, subscribes at control
    towers on their behalf, and passes what the towers send on to the clients.

    A handler takes the worker and returns the new one.  What leaves the worker
    is appended to [events]; whether a queue has room left, which ID a new stream
    gets, whether the roll call accepts an entry and the time are answers
    of the environment ([CopilotEnv]), which may depend on all events so far.
    Statistics, logging and reports are left out.  A host is a number; a pointer
    to a [StreamSocket] is the pair of host and worker under which the socket is
    stored. *)

From S2P Require Import Prelude Coding Messages Containers TopicManager TimeoutList.

#[local] Open Scope outcome_scope.

Abbreviation HostId := Z (only parsing).

(** ** Data *)

(** The subscription of a client. *)
Record Subscription := {
  client_stream : Z;
  client_seqno : Z;
  client_worker : Z;
  client_tenant : Z;
  client_sub_id : Z
}.

Definition set_client_seqno (seqno : Z) (s : Subscription) : Subscription :=
  {| client_stream := client_stream s; client_seqno := seqno; client_worker := client_worker s;
     client_tenant := client_tenant s; client_sub_id := client_sub_id s |}.

Definition kDefault : Z := 0.
Definition kIsAtTail : Z := 1.

(** A subscription at a control tower. *)
Record Tower := {
  tower_stream : HostId * Z;
  tower_sub_id : Z;
  tower_next_seqno : Z;
  tower_worker : Z;
  tower_flags : Z
}.

Definition set_tower_seqno (seqno : Z) (t : Tower) : Tower :=
  {| tower_stream := tower_stream t; tower_sub_id := tower_sub_id t; tower_next_seqno := seqno;
     tower_worker := tower_worker t; tower_flags := tower_flags t |}.

Record TopicState := {
  log_id : Z;
  subscriptions : list Subscription;
  towers : list Tower;
  records_sent : Z;
  gaps_sent : Z
}.

Definition NewTopicState (logid : Z) : TopicState :=
  {| log_id := logid; subscriptions := []; towers := []; records_sent := 0; gaps_sent := 0 |}.

Definition set_subs (subs : list Subscription) (t : TopicState) : TopicState :=
  {| log_id := log_id t; subscriptions := subs; towers := towers t; records_sent := records_sent t; gaps_sent := gaps_sent t |}.
Definition set_towers (ts : list Tower) (t : TopicState) : TopicState :=
  {| log_id := log_id t; subscriptions := subscriptions t; towers := ts; records_sent := records_sent t; gaps_sent := gaps_sent t |}.
Definition set_sent (records gaps : Z) (t : TopicState) : TopicState :=
  {| log_id := log_id t; subscriptions := subscriptions t; towers := towers t; records_sent := records; gaps_sent := gaps |}.

Record TopicInfo := { info_topic_name : slice; info_namespace_id : slice; info_logid : Z }.

Record ResubscribeRequest := {
  request_topic : TopicUUID;
  request_seqno : Z;
  request_have_zero_sub : bool;
  cancelled : bool
}.

(** A priority queue of requests, each with the address where it is allocated. *)
Abbreviation RequestQueue := (list (Z * ResubscribeRequest)).

Inductive CopilotEvent :=
| ClientWrite (worker stream : Z) (m : Message)
| TowerWrite (worker stream : Z) (m : Message)
| OpenStream (tower : HostId) (worker stream : Z)
| RollcallEntry (tenant : Z) (topic : TopicUUID) (logid : Z) (is_subscribe : bool)
| RollcallError (worker origin tenant sub_id : Z).

Record CopilotEnv := {
  client_has_room : list CopilotEvent -> bool;
  tower_has_room : list CopilotEvent -> bool;
  outbound_stream : list CopilotEvent -> Z;
  rollcall_accepts : list CopilotEvent -> bool;
  steady_now : Z
}.

Record CopilotOptions := {
  num_workers : Z;
  rollcall_enabled : bool;
  control_tower_connections : Z;
  tower_subscriptions_check_period : Z;
  resubscriptions_per_second : Z;
  rebalances_per_second : Z;
  timer_interval_micros : Z
}.

Record CopilotWorker := {
  topics_ : gmap TopicUUID TopicState;
  client_subscriptions_ : gmap Z (gmap Z TopicInfo);
  control_tower_router_ : Z -> option (list HostId);
  control_tower_cache_ : gmap Z (list HostId);
  control_tower_sockets_ : gmap (HostId * Z) Z;
  topic_checkup_list_ : list (TopicUUID * Z);
  next_sub_id_state_ : Z;
  current_queue_ : RequestQueue;
  pending_queue_ : RequestQueue;
  active_requests_ : gmap TopicUUID Z;
  next_request : Z;
  sub_to_topic_ : SubscriptionMap.t TopicUUID;
  events : list CopilotEvent
}.

Definition set_topics topics w : CopilotWorker :=
  {| topics_ := topics; client_subscriptions_ := client_subscriptions_ w; control_tower_router_ := control_tower_router_ w;
     control_tower_cache_ := control_tower_cache_ w; control_tower_sockets_ := control_tower_sockets_ w;
     topic_checkup_list_ := topic_checkup_list_ w; next_sub_id_state_ := next_sub_id_state_ w;
     current_queue_ := current_queue_ w; pending_queue_ := pending_queue_ w; active_requests_ := active_requests_ w;
     next_request := next_request w; sub_to_topic_ := sub_to_topic_ w; events := events w |}.
Definition set_client_subscriptions subs w : CopilotWorker :=
  {| topics_ := topics_ w; client_subscriptions_ := subs; control_tower_router_ := control_tower_router_ w;
     control_tower_cache_ := control_tower_cache_ w; control_tower_sockets_ := control_tower_sockets_ w;
     topic_checkup_list_ := topic_checkup_list_ w; next_sub_id_state_ := next_sub_id_state_ w;
     current_queue_ := current_queue_ w; pending_queue_ := pending_queue_ w; active_requests_ := active_requests_ w;
     next_request := next_request w; sub_to_topic_ := sub_to_topic_ w; events := events w |}.
Definition set_routing router cache w : CopilotWorker :=
  {| topics_ := topics_ w; client_subscriptions_ := client_subscriptions_ w; control_tower_router_ := router;
     control_tower_cache_ := cache; control_tower_sockets_ := control_tower_sockets_ w;
     topic_checkup_list_ := topic_checkup_list_ w; next_sub_id_state_ := next_sub_id_state_ w;
     current_queue_ := current_queue_ w; pending_queue_ := pending_queue_ w; active_requests_ := active_requests_ w;
     next_request := next_request w; sub_to_topic_ := sub_to_topic_ w; events := events w |}.
Definition set_sockets sockets w : CopilotWorker :=
  {| topics_ := topics_ w; client_subscriptions_ := client_subscriptions_ w; control_tower_router_ := control_tower_router_ w;
     control_tower_cache_ := control_tower_cache_ w; control_tower_sockets_ := sockets;
     topic_checkup_list_ := topic_checkup_list_ w; next_sub_id_state_ := next_sub_id_state_ w;
     current_queue_ := current_queue_ w; pending_queue_ := pending_queue_ w; active_requests_ := active_requests_ w;
     next_request := next_request w; sub_to_topic_ := sub_to_topic_ w; events := events w |}.
Definition set_checkup checkup w : CopilotWorker :=
  {| topics_ := topics_ w; client_subscriptions_ := client_subscriptions_ w; control_tower_router_ := control_tower_router_ w;
     control_tower_cache_ := control_tower_cache_ w; control_tower_sockets_ := control_tower_sockets_ w;
     topic_checkup_list_ := checkup; next_sub_id_state_ := next_sub_id_state_ w;
     current_queue_ := current_queue_ w; pending_queue_ := pending_queue_ w; active_requests_ := active_requests_ w;
     next_request := next_request w; sub_to_topic_ := sub_to_topic_ w; events := events w |}.
Definition set_next_sub_id state w : CopilotWorker :=
  {| topics_ := topics_ w; client_subscriptions_ := client_subscriptions_ w; control_tower_router_ := control_tower_router_ w;
     control_tower_cache_ := control_tower_cache_ w; control_tower_sockets_ := control_tower_sockets_ w;
     topic_checkup_list_ := topic_checkup_list_ w; next_sub_id_state_ := state;
     current_queue_ := current_queue_ w; pending_queue_ := pending_queue_ w; active_requests_ := active_requests_ w;
     next_request := next_request w; sub_to_topic_ := sub_to_topic_ w; events := events w |}.
Definition set_requests current pending active next w : CopilotWorker :=
  {| topics_ := topics_ w; client_subscriptions_ := client_subscriptions_ w; control_tower_router_ := control_tower_router_ w;
     control_tower_cache_ := control_tower_cache_ w; control_tower_sockets_ := control_tower_sockets_ w;
     topic_checkup_list_ := topic_checkup_list_ w; next_sub_id_state_ := next_sub_id_state_ w;
     current_queue_ := current; pending_queue_ := pending; active_requests_ := active;
     next_request := next; sub_to_topic_ := sub_to_topic_ w; events := events w |}.
Definition set_sub_to_topic subs w : CopilotWorker :=
  {| topics_ := topics_ w; client_subscriptions_ := client_subscriptions_ w; control_tower_router_ := control_tower_router_ w;
     control_tower_cache_ := control_tower_cache_ w; control_tower_sockets_ := control_tower_sockets_ w;
     topic_checkup_list_ := topic_checkup_list_ w; next_sub_id_state_ := next_sub_id_state_ w;
     current_queue_ := current_queue_ w; pending_queue_ := pending_queue_ w; active_requests_ := active_requests_ w;
     next_request := next_request w; sub_to_topic_ := subs; events := events w |}.
Definition push_event (e : CopilotEvent) w : CopilotWorker :=
  {| topics_ := topics_ w; client_subscriptions_ := client_subscriptions_ w; control_tower_router_ := control_tower_router_ w;
     control_tower_cache_ := control_tower_cache_ w; control_tower_sockets_ := control_tower_sockets_ w;
     topic_checkup_list_ := topic_checkup_list_ w; next_sub_id_state_ := next_sub_id_state_ w;
     current_queue_ := current_queue_ w; pending_queue_ := pending_queue_ w; active_requests_ := active_requests_ w;
     next_request := next_request w; sub_to_topic_ := sub_to_topic_ w; events := events w ++ [e] |}.

Definition NewCopilotWorker (router : Z -> option (list HostId)) : CopilotWorker :=
  {| topics_ := ∅; client_subscriptions_ := ∅; control_tower_router_ := router; control_tower_cache_ := ∅;
     control_tower_sockets_ := ∅; topic_checkup_list_ := []; next_sub_id_state_ := 0; current_queue_ := [];
     pending_queue_ := []; active_requests_ := ∅; next_request := 0; sub_to_topic_ := ∅; events := [] |}.

(** ** Subscription IDs *)

Definition GenerateSubscriptionID (state worker_id num_workers : Z) : Z * Z :=
  (u64 (worker_id + u64 (state * num_workers)), u64 (state + 1)).

Definition SubscriptionIDWorker (sub_id num_workers : Z) : Z := sub_id mod num_workers.

(** ** Requests to resubscribe *)

(** The order of the queues: [true] if [x] comes after [y]. *)
Definition GreaterResubscribeRequest (x y : ResubscribeRequest) : bool :=
  ((request_seqno x =? 0) && negb (request_seqno y =? 0)) ||
  (negb (request_seqno y =? 0) && (request_seqno y <? request_seqno x)).

Fixpoint top_of (best : Z * ResubscribeRequest) (q : RequestQueue) : Z * ResubscribeRequest :=
  match q with
  | [] => best
  | e :: q => top_of (if GreaterResubscribeRequest (snd best) (snd e) then e else best) q
  end.

(** [std::priority_queue::top] and [pop]; of several requests at one place, the
    standard leaves open which is on top, here it is the oldest. *)
Definition top (q : RequestQueue) : option (Z * ResubscribeRequest) :=
  match q with
  | [] => None
  | e :: q => Some (top_of e q)
  end.

Definition pop (q : RequestQueue) : RequestQueue :=
  match top q with
  | None => q
  | Some e => filter (fun e' => fst e' <> fst e) q
  end.

Fixpoint clean_loop (fuel : nat) (q : RequestQueue) : RequestQueue :=
  match fuel with
  | O => q
  | S fuel =>
      match top q with
      | None => q
      | Some e => if cancelled (snd e) then clean_loop fuel (pop q) else q
      end
  end.

Definition CleanRequestQueue (q : RequestQueue) : RequestQueue := clean_loop (length q) q.

Definition CleanRequestQueues (w : CopilotWorker) : CopilotWorker :=
  let current := CleanRequestQueue (current_queue_ w) in
  let pending := CleanRequestQueue (pending_queue_ w) in
  if (length current =? 0)%nat && (0 <? length pending)%nat
  then set_requests pending current (active_requests_ w) (next_request w) w
  else set_requests current pending (active_requests_ w) (next_request w) w.

Definition HasActiveResubscribeRequests (w : CopilotWorker) : bool := bool_decide (active_requests_ w <> ∅).

Definition HasActiveResubscribeRequest (w : CopilotWorker) (uuid : TopicUUID) : bool :=
  bool_decide (is_Some (active_requests_ w !! uuid)).

(** [request->cancelled = true] through a pointer; [None] if it dangles. *)
Definition cancel_in (address : Z) (q : RequestQueue) : RequestQueue :=
  map (fun e => if fst e =? address
                then (fst e, {| request_topic := request_topic (snd e); request_seqno := request_seqno (snd e);
                                request_have_zero_sub := request_have_zero_sub (snd e); cancelled := true |})
                else e) q.

Definition is_allocated (address : Z) (w : CopilotWorker) : bool :=
  bool_decide (address ∈ map fst (current_queue_ w) ++ map fst (pending_queue_ w)).

Definition CancelResubscribeRequest (w : CopilotWorker) (uuid : TopicUUID) : outcome CopilotWorker :=
  match active_requests_ w !! uuid with
  | None => Ok w
  | Some address =>
      assert_that (is_allocated address w) "dangling ResubscribeRequest" ;;;
      Ok (set_requests (cancel_in address (current_queue_ w)) (cancel_in address (pending_queue_ w))
            (delete uuid (active_requests_ w)) (next_request w) w)
  end.

(** [top()] of an empty queue is undefined. *)
Definition PopNextResubscribeRequest (w : CopilotWorker) : outcome (CopilotWorker * ResubscribeRequest) :=
  let w := CleanRequestQueues w in
  match top (current_queue_ w) with
  | None => Abort "top() of an empty queue"
  | Some e =>
      Ok (set_requests (pop (current_queue_ w)) (pending_queue_ w)
            (delete (request_topic (snd e)) (active_requests_ w)) (next_request w) w, snd e)
  end.

Definition ScheduleRequest (w : CopilotWorker) (uuid : TopicUUID) (new_seqno : Z) (have_zero_sub into_pending : bool) : CopilotWorker :=
  if HasActiveResubscribeRequest w uuid then w
  else
    let request := (next_request w, {| request_topic := uuid; request_seqno := new_seqno;
                                       request_have_zero_sub := have_zero_sub; cancelled := false |}) in
    set_requests (if into_pending : bool then current_queue_ w else current_queue_ w ++ [request])
                 (if into_pending : bool then pending_queue_ w ++ [request] else pending_queue_ w)
                 (<[uuid := next_request w]> (active_requests_ w)) (next_request w + 1) w.

Definition ReScheduleResubscribeRequest (w : CopilotWorker) (uuid : TopicUUID) (new_seqno : Z) (have_zero_sub : bool) : CopilotWorker :=
  ScheduleRequest w uuid new_seqno have_zero_sub true.

(** The earliest non-zero subscription, or 0, and whether there is one at 0. *)
Fixpoint FindLowest_loop (subs : list Subscription) (new_seqno : Z) (have_zero_sub : bool) : Z * bool :=
  match subs with
  | [] => (new_seqno, have_zero_sub)
  | sub :: subs =>
      if negb (client_seqno sub =? 0) then
        FindLowest_loop subs (if (new_seqno =? 0) || (client_seqno sub <? new_seqno) then client_seqno sub else new_seqno) have_zero_sub
      else FindLowest_loop subs new_seqno true
  end.

Definition FindLowestSequenceNumber (topic : TopicState) : Z * bool := FindLowest_loop (subscriptions topic) 0 false.

Definition ScheduleResubscribeRequest (w : CopilotWorker) (uuid : TopicUUID) (topic : TopicState) : CopilotWorker :=
  let '(new_seqno, have_zero_sub) := FindLowestSequenceNumber topic in
  ScheduleRequest w uuid new_seqno have_zero_sub (0 <? length (pending_queue_ w))%nat.

Definition GuestTenant : Z := 1.

Section CopilotWorker.
Context (options : CopilotOptions) (myid : Z) (hash : HostId -> Z) (env : CopilotEnv).

(** [MsgLoop::ResponseCommand], which serialises the message, and
    [client_queues_[worker]->Write].  A queue takes every command; the result is
    whether it has room for more ([SinkWithOverflow::Write]). *)
Definition write_client (w : CopilotWorker) (worker stream : Z) (m : Message) : outcome (CopilotWorker * bool) :=
  Serialize m [] ;;;
  assert_that ((0 <=? worker) && (worker <? num_workers options)) "client_queues_[worker_id]" ;;;
  Ok (push_event (ClientWrite worker stream m) w, client_has_room env (events w)).

(** [MsgLoop::RequestCommand] and [tower_queues_[worker]->Write]. *)
Definition write_tower (w : CopilotWorker) (worker stream : Z) (m : Message) : outcome (CopilotWorker * bool) :=
  Serialize m [] ;;;
  assert_that ((0 <=? worker) && (worker <? num_workers options)) "tower_queues_[worker_id]" ;;;
  Ok (push_event (TowerWrite worker stream m) w, tower_has_room env (events w)).

(** ** Towers *)

(** [stream->GetStreamID()] *)
Definition GetStreamID (w : CopilotWorker) (stream : HostId * Z) : outcome Z :=
  match control_tower_sockets_ w !! stream with
  | Some id => Ok id
  | None => Abort "dangling StreamSocket"
  end.

Definition SendSubscribe (w : CopilotWorker) (tenant : Z) (uuid : TopicUUID) (seqno : Z) (stream : HostId * Z) (sub_id worker : Z)
    : outcome (CopilotWorker * bool) :=
  r <~ UUID_GetTopicID uuid ;;
  let '(namespace_id, topic_name) := r in
  let message := Subscribe {| sub_base := {| type_ := MessageType.mSubscribe; tenantid_ := tenant |};
                              sub_namespace_id_ := namespace_id; sub_topic_name_ := topic_name;
                              start_seqno_ := seqno; sub_sub_id_ := sub_id |} in
  stream_id <~ GetStreamID w stream ;;
  r <~ write_tower w worker stream_id message ;;
  let '(w, written) := r in
  if written : bool then Ok (set_sub_to_topic (SubscriptionMap.Insert (sub_to_topic_ w) stream_id sub_id uuid) w, true)
  else Ok (w, false).

Definition SendUnsubscribe (w : CopilotWorker) (tenant : Z) (stream : HostId * Z) (sub_id worker : Z) : outcome (CopilotWorker * bool) :=
  stream_id <~ GetStreamID w stream ;;
  r <~ write_tower w worker stream_id (NewUnsubscribe tenant sub_id kRequested) ;;
  let '(w, written) := r in
  if written : bool then Ok (set_sub_to_topic (SubscriptionMap.Remove (sub_to_topic_ w) stream_id sub_id) w, true)
  else Ok (w, false).

Fixpoint unsubscribe_all (w : CopilotWorker) (ts : list Tower) : outcome CopilotWorker :=
  match ts with
  | [] => Ok w
  | t :: ts =>
      r <~ SendUnsubscribe w GuestTenant (tower_stream t) (tower_sub_id t) (tower_worker t) ;;
      unsubscribe_all (fst r) ts
  end.

Definition UnsubscribeControlTowers (w : CopilotWorker) (topic : TopicState) : outcome CopilotWorker := unsubscribe_all w (towers topic).

Definition GetControlTowers (w : CopilotWorker) (logid : Z) : CopilotWorker * option (list HostId) :=
  match control_tower_cache_ w !! logid with
  | Some out => (w, Some out)
  | None =>
      match control_tower_router_ w logid with
      | Some out => (set_routing (control_tower_router_ w) (<[logid := out]> (control_tower_cache_ w)) w, Some out)
      | None => (w, None)
      end
  end.

(** [Copilot::GetTowerWorker] *)
Definition GetTowerWorker (logid : Z) (tower : HostId) : Z :=
  u64 (hash tower + logid mod control_tower_connections options) mod num_workers options.

Definition GetControlTowerSocket (w : CopilotWorker) (tower : HostId) (worker : Z) : CopilotWorker :=
  match control_tower_sockets_ w !! (tower, worker) with
  | Some _ => w
  | None =>
      let id := outbound_stream env (events w) in
      push_event (OpenStream tower worker id) (set_sockets (<[(tower, worker) := id]> (control_tower_sockets_ w)) w)
  end.

Fixpoint open_towers (w : CopilotWorker) (logid : Z) (recipients : list HostId) : CopilotWorker * list ((HostId * Z) * Z) :=
  match recipients with
  | [] => (w, [])
  | tower :: recipients =>
      let worker := GetTowerWorker logid tower in
      let w := GetControlTowerSocket w tower worker in
      let '(w, conns) := open_towers w logid recipients in
      (w, ((tower, worker), worker) :: conns)
  end.

Definition FindTower (topic : TopicState) (stream : HostId * Z) : option Tower :=
  list_find (fun t => tower_stream t = stream) (towers topic) ≫= fun r => Some (snd r).

Fixpoint subscribe_all (w : CopilotWorker) (uuid : TopicUUID) (topic : TopicState) (new_seqno : Z) (conns : list ((HostId * Z) * Z))
    : outcome (CopilotWorker * TopicState) :=
  match conns with
  | [] => Ok (w, topic)
  | (socket, worker) :: conns =>
      let '(sub_id, state) := GenerateSubscriptionID (next_sub_id_state_ w) myid (num_workers options) in
      let w := set_next_sub_id state w in
      r <~ SendSubscribe w GuestTenant uuid new_seqno socket sub_id worker ;;
      let '(w, success) := r in
      if success : bool then
        assert_that (bool_decide (FindTower topic socket = None)) "!topic.FindTower(socket)" ;;;
        let flags := if new_seqno =? 0 then Z.lor kDefault kIsAtTail else kDefault in
        let tower := {| tower_stream := socket; tower_sub_id := sub_id; tower_next_seqno := new_seqno;
                        tower_worker := worker; tower_flags := flags |} in
        subscribe_all w uuid (set_towers (towers topic ++ [tower]) topic) new_seqno conns
      else subscribe_all w uuid topic new_seqno conns
  end.

Fixpoint request_tail (w : CopilotWorker) (message : Message) (conns : list ((HostId * Z) * Z)) : outcome CopilotWorker :=
  match conns with
  | [] => Ok w
  | (socket, worker) :: conns =>
      stream_id <~ GetStreamID w socket ;;
      r <~ write_tower w worker stream_id message ;;
      request_tail (fst r) message conns
  end.

(** A tower subscription that does not serve subscriptions from [new_seqno]. *)
Definition unsuitable (new_seqno : Z) (t : Tower) : bool :=
  (new_seqno <? tower_next_seqno t) || (negb (tower_next_seqno t =? 0) && (new_seqno =? 0)) ||
  ((tower_next_seqno t =? 0) && negb (new_seqno =? 0)).

Definition UpdateTowerSubscriptionsAt (w : CopilotWorker) (uuid : TopicUUID) (topic : TopicState) (new_seqno : Z)
    (have_zero_sub force_resub : bool) : outcome (CopilotWorker * TopicState) :=
  let logid := log_id topic in
  let '(w, found) := GetControlTowers w logid in
  let recipients := default [] found in
  let expected_towers_per_log := length recipients in
  let new_seqno := if (expected_towers_per_log =? 1)%nat && have_zero_sub then 0 else new_seqno in
  let send_latest_request := have_zero_sub && negb (new_seqno =? 0) in
  let resub_needed := (length (towers topic) <? expected_towers_per_log)%nat || existsb (unsuitable new_seqno) (towers topic) || force_resub in
  let '(w, tower_conns) := if resub_needed || send_latest_request then open_towers w logid recipients else (w, []) in
  r <~ (if resub_needed then
          w <~ unsubscribe_all w (towers topic) ;;
          subscribe_all w uuid (set_towers [] topic) new_seqno tower_conns
        else Ok (w, topic)) ;;
  let '(w, topic) := r in
  w <~ (if send_latest_request then
          r <~ UUID_GetTopicID uuid ;;
          request_tail w (FindTailSeqno {| find_base := {| type_ := MessageType.mFindTailSeqno; tenantid_ := GuestTenant |};
                                           find_namespace_id_ := fst r; find_topic_name_ := snd r |}) tower_conns
        else Ok w) ;;
  if (length (towers topic) <? expected_towers_per_log)%nat then
    Ok (ReScheduleResubscribeRequest w uuid new_seqno have_zero_sub, topic)
  else if resub_needed then
    Ok (set_checkup (TimeoutList.Add (steady_now env) uuid (topic_checkup_list_ w)) w, topic)
  else Ok (w, topic).

Definition UpdateTowerSubscriptions (w : CopilotWorker) (uuid : TopicUUID) (topic : TopicState) (force_resub : bool)
    : outcome (CopilotWorker * TopicState) :=
  let '(new_seqno, have_zero_sub) := FindLowestSequenceNumber topic in
  UpdateTowerSubscriptionsAt w uuid topic new_seqno have_zero_sub force_resub.

Definition put_topic (uuid : TopicUUID) (r : CopilotWorker * TopicState) : CopilotWorker :=
  set_topics (<[uuid := snd r]> (topics_ (fst r))) (fst r).

(** ** Updates from the towers *)

Fixpoint AdvanceTowers_loop (w : CopilotWorker) (ts : list Tower) (prev next origin sub_id : Z) : outcome (list Tower) :=
  match ts with
  | [] => Ok []
  | t :: ts =>
      id <~ GetStreamID w (tower_stream t) ;;
      if (id =? origin) && (tower_sub_id t =? sub_id) then
        if (prev <=? tower_next_seqno t) && (tower_next_seqno t <=? next) &&
           negb ((prev =? 0) && negb (tower_next_seqno t =? 0)) && negb (negb (prev =? 0) && (tower_next_seqno t =? 0))
        then Ok (set_tower_seqno (u64 (next + 1)) t :: ts)
        else Ok (t :: ts)
      else ts <~ AdvanceTowers_loop w ts prev next origin sub_id ;; Ok (t :: ts)
  end.

Definition AdvanceTowers (w : CopilotWorker) (topic : TopicState) (prev next origin sub_id : Z) : outcome TopicState :=
  ts <~ AdvanceTowers_loop w (towers topic) prev next origin sub_id ;;
  Ok (set_towers ts topic).

(** Whether an update over [[prev, seqno]] is for a subscription at [at_seqno]. *)
Definition takes (at_seqno prev seqno : Z) : bool :=
  negb (seqno <? at_seqno) && negb (at_seqno <? prev) &&
  negb (((at_seqno =? 0) && negb (prev =? 0)) || (negb (at_seqno =? 0) && (prev =? 0))).

(** The loop over the subscriptions of a topic; returns how many were sent. *)
Fixpoint deliver_loop (w : CopilotWorker) (subs : list Subscription) (prev seqno : Z) (make : Subscription -> outcome Message)
    : outcome (CopilotWorker * list Subscription * Z) :=
  match subs with
  | [] => Ok (w, [], 0)
  | sub :: subs =>
      if takes (client_seqno sub) prev seqno then
        m <~ make sub ;;
        r <~ write_client w (client_worker sub) (client_stream sub) m ;;
        let '(w, written) := r in
        r <~ deliver_loop w subs prev seqno make ;;
        let '(w, subs, sent) := r in
        Ok (w, (if written : bool then set_client_seqno (u64 (seqno + 1)) sub else sub) :: subs, if written : bool then sent + 1 else sent)
      else
        r <~ deliver_loop w subs prev seqno make ;;
        let '(w, subs, sent) := r in
        Ok (w, sub :: subs, sent)
  end.

Definition ProcessData (w : CopilotWorker) (msg : MessageDeliverData) (origin : Z) : outcome CopilotWorker :=
  let sub_id := deliver_sub_id_ (ddata_deliver msg) in
  match SubscriptionMap.Find (sub_to_topic_ w) origin sub_id with
  | None => Ok w
  | Some uuid =>
      match topics_ w !! uuid with
      | None => Ok w
      | Some topic =>
          let seqno := deliver_seqno_ (ddata_deliver msg) in
          let prev_seqno := deliver_seqno_prev_ (ddata_deliver msg) in
          topic <~ AdvanceTowers w topic prev_seqno seqno origin sub_id ;;
          r <~ deliver_loop w (subscriptions topic) prev_seqno seqno
                 (fun sub => NewDeliverData (client_tenant sub) (client_sub_id sub) (message_id_ msg) (ddata_payload_ msg) prev_seqno seqno) ;;
          let '(w, subs, sent) := r in
          Ok (put_topic uuid (w, set_sent (u32 (records_sent topic + sent)) (gaps_sent topic) (set_subs subs topic)))
      end
  end.

Definition ProcessGap (w : CopilotWorker) (msg : MessageDeliverGap) (origin : Z) : outcome CopilotWorker :=
  let sub_id := deliver_sub_id_ (dgap_deliver msg) in
  match SubscriptionMap.Find (sub_to_topic_ w) origin sub_id with
  | None => Ok w
  | Some uuid =>
      match topics_ w !! uuid with
      | None => Ok w
      | Some topic =>
          let prev_seqno := deliver_seqno_prev_ (dgap_deliver msg) in
          let next_seqno := deliver_seqno_ (dgap_deliver msg) in
          topic <~ AdvanceTowers w topic prev_seqno next_seqno origin sub_id ;;
          r <~ deliver_loop w (subscriptions topic) prev_seqno next_seqno
                 (fun sub => NewDeliverGap (client_tenant sub) (client_sub_id sub) (dgap_gap_type_ msg) prev_seqno next_seqno) ;;
          let '(w, subs, sent) := r in
          let topic := set_sent (records_sent topic) (u32 (gaps_sent topic + sent)) (set_subs subs topic) in
          r <~ (if prev_seqno =? 0 then UpdateTowerSubscriptions w uuid topic false else Ok (w, topic)) ;;
          Ok (put_topic uuid r)
      end
  end.

Fixpoint advance_zero_towers (w : CopilotWorker) (ts : list Tower) (next_seqno origin : Z) : outcome (list Tower) :=
  match ts with
  | [] => Ok []
  | t :: ts =>
      id <~ GetStreamID w (tower_stream t) ;;
      ts <~ advance_zero_towers w ts next_seqno origin ;;
      Ok ((if (id =? origin) && (tower_next_seqno t =? 0) then set_tower_seqno next_seqno t else t) :: ts)
  end.

(** The loop over the subscriptions at 0. *)
Fixpoint tail_loop (w : CopilotWorker) (subs : list Subscription) (next_seqno : Z) : outcome (CopilotWorker * list Subscription * Z) :=
  match subs with
  | [] => Ok (w, [], 0)
  | sub :: subs =>
      if client_seqno sub =? 0 then
        m <~ NewDeliverGap (client_tenant sub) (client_sub_id sub) kBenign 0 (u64 (next_seqno - 1)) ;;
        r <~ write_client w (client_worker sub) (client_stream sub) m ;;
        let '(w, written) := r in
        r <~ tail_loop w subs next_seqno ;;
        let '(w, subs, sent) := r in
        Ok (w, (if written : bool then set_client_seqno next_seqno sub else sub) :: subs, if written : bool then sent + 1 else sent)
      else
        r <~ tail_loop w subs next_seqno ;;
        let '(w, subs, sent) := r in
        Ok (w, sub :: subs, sent)
  end.

Definition ProcessTailSeqno (w : CopilotWorker) (msg : MessageTailSeqno) (origin : Z) : outcome CopilotWorker :=
  let uuid := NewTopicUUID (tail_namespace_id_ msg) (tail_topic_name_ msg) in
  match topics_ w !! uuid with
  | None => Ok w
  | Some topic =>
      let next_seqno := tail_seqno_ msg in
      ts <~ advance_zero_towers w (towers topic) next_seqno origin ;;
      r <~ tail_loop w (subscriptions topic) next_seqno ;;
      let '(w, subs, sent) := r in
      let topic := set_sent (records_sent topic) (u32 (gaps_sent topic + sent)) (set_subs subs (set_towers ts topic)) in
      r <~ UpdateTowerSubscriptions w uuid topic false ;;
      Ok (put_topic uuid r)
  end.

(** ** Roll call *)

(** A failed entry of a subscription is reported on a queue ([RollcallFailed]
    is what the command does); the roll call may also fail later. *)
Definition RollcallWrite (w : CopilotWorker) (sub_id tenant : Z) (topic : TopicUUID) (is_subscribe : bool) (logid worker origin : Z) : CopilotWorker :=
  if rollcall_enabled options then
    let accepted := rollcall_accepts env (events w) in
    let w := push_event (RollcallEntry tenant topic logid is_subscribe) w in
    if negb accepted && is_subscribe then push_event (RollcallError worker origin tenant sub_id) w else w
  else w.

(** ** Requests of clients *)

(** The tower whose position is used for a subscription at the tail. *)
Definition known_tail (topic : TopicState) : option Tower :=
  list_find (fun t => Z.land (tower_flags t) kIsAtTail <> 0 /\ tower_next_seqno t <> 0) (towers topic) ≫= fun r => Some (snd r).

(** The first subscription of the stream with the ID gets the sequence number. *)
Fixpoint update_existing (subs : list Subscription) (stream sub_id seqno worker : Z) : outcome (option (list Subscription)) :=
  match subs with
  | [] => Ok None
  | sub :: subs =>
      if (client_stream sub =? stream) && (client_sub_id sub =? sub_id) then
        assert_that (client_worker sub =? worker) "sub->worker_id == worker_id" ;;;
        Ok (Some (set_client_seqno seqno sub :: subs))
      else r <~ update_existing subs stream sub_id seqno worker ;; Ok (cons sub <$> r)
  end.

Definition ProcessSubscribe (w : CopilotWorker) (tenant : Z) (namespace_id topic_name : slice) (start_seqno sub_id logid worker subscriber : Z)
    : outcome CopilotWorker :=
  let uuid := NewTopicUUID namespace_id topic_name in
  let w := set_client_subscriptions
             (SubscriptionMap.Insert (client_subscriptions_ w) subscriber sub_id
                {| info_topic_name := topic_name; info_namespace_id := namespace_id; info_logid := logid |}) w in
  let topic := default (NewTopicState logid) (topics_ w !! uuid) in
  r <~ match (if start_seqno =? 0 then known_tail topic else None) with
       | Some tower =>
           let start_seqno := tower_next_seqno tower in
           m <~ NewDeliverGap tenant sub_id kBenign 0 (u64 (start_seqno - 1)) ;;
           r <~ write_client w worker subscriber m ;;
           Ok (fst r, set_sent (records_sent topic) (u32 (gaps_sent topic + 1)) topic, start_seqno, true)
       | None => Ok (w, topic, start_seqno, false)
       end ;;
  let '(w, topic, start_seqno, skip_update) := r in
  found <~ update_existing (subscriptions topic) subscriber sub_id start_seqno worker ;;
  let new := {| client_stream := subscriber; client_seqno := start_seqno; client_worker := worker;
                client_tenant := tenant; client_sub_id := sub_id |} in
  let topic := set_subs (default (subscriptions topic ++ [new]) found) topic in
  r <~ (if skip_update : bool then Ok (w, topic) else UpdateTowerSubscriptions w uuid topic false) ;;
  Ok (RollcallWrite (put_topic uuid r) sub_id tenant uuid true logid worker subscriber).

Definition RemoveSubscription (w : CopilotWorker) (tenant sub_id subscriber worker : Z) : outcome CopilotWorker :=
  let subs := default ∅ (client_subscriptions_ w !! subscriber) in
  match subs !! sub_id with
  | None => Ok (set_client_subscriptions (<[subscriber := subs]> (client_subscriptions_ w)) w)
  | Some info =>
      let w := set_client_subscriptions (<[subscriber := delete sub_id subs]> (client_subscriptions_ w)) w in
      let uuid := NewTopicUUID (info_namespace_id info) (info_topic_name info) in
      match topics_ w !! uuid with
      | None => Ok w
      | Some topic =>
          let topic := set_subs (filter (fun s => ~ (client_stream s = subscriber /\ client_sub_id s = sub_id)) (subscriptions topic)) topic in
          match subscriptions topic with
          | [] =>
              w <~ UnsubscribeControlTowers w topic ;;
              let w := RollcallWrite w sub_id tenant uuid false (info_logid info) worker subscriber in
              w <~ CancelResubscribeRequest (set_topics (delete uuid (topics_ w)) w) uuid ;;
              Ok (set_checkup (TimeoutList.Erase uuid (topic_checkup_list_ w)) w)
          | _ :: _ => Ok (RollcallWrite (put_topic uuid (w, topic)) sub_id tenant uuid false (info_logid info) worker subscriber)
          end
      end
  end.

(** The loop that passes the rejection of a topic on to its clients. *)
Fixpoint reject_loop (w : CopilotWorker) (uuid : TopicUUID) (logid : Z) (subs : list Subscription) : outcome CopilotWorker :=
  match subs with
  | [] => Ok w
  | sub :: subs =>
      let w := RollcallWrite w (client_sub_id sub) (client_tenant sub) uuid false logid (client_worker sub) (client_stream sub) in
      r <~ write_client w (client_worker sub) (client_stream sub) (NewUnsubscribe (client_tenant sub) (client_sub_id sub) kInvalid) ;;
      reject_loop (fst r) uuid logid subs
  end.

Definition HandleInvalidSubscription (w : CopilotWorker) (origin sub_id : Z) : outcome CopilotWorker :=
  match SubscriptionMap.Find (sub_to_topic_ w) origin sub_id with
  | None => Ok w
  | Some uuid =>
      match topics_ w !! uuid with
      | None => Ok w
      | Some topic =>
          w <~ reject_loop w uuid (log_id topic) (subscriptions topic) ;;
          w <~ UnsubscribeControlTowers w topic ;;
          w <~ CancelResubscribeRequest (set_topics (delete uuid (topics_ w)) w) uuid ;;
          Ok (set_checkup (TimeoutList.Erase uuid (topic_checkup_list_ w)) w)
      end
  end.

Definition ProcessUnsubscribe (w : CopilotWorker) (tenant sub_id reason worker subscriber : Z) : outcome CopilotWorker :=
  if reason =? kRequested then RemoveSubscription w tenant sub_id subscriber worker
  else if reason =? kInvalid then HandleInvalidSubscription w subscriber sub_id
  else Ok w.

(** The command that a failed roll call entry puts on the queue of the worker. *)
Definition RollcallFailed (w : CopilotWorker) (worker origin tenant sub_id : Z) : outcome CopilotWorker :=
  w <~ ProcessUnsubscribe w tenant sub_id kRequested worker origin ;;
  r <~ write_client w worker origin (NewUnsubscribe tenant sub_id kRequested) ;;
  Ok (fst r).

(** ** Streams that end *)

Fixpoint remove_all (w : CopilotWorker) (tenant origin : Z) (ids : list Z) : outcome CopilotWorker :=
  match ids with
  | [] => Ok w
  | sub_id :: ids => w <~ RemoveSubscription w tenant sub_id origin 0 ;; remove_all w tenant origin ids
  end.

Fixpoint close_towers (w : CopilotWorker) (uuid : TopicUUID) (topic : TopicState) (stream : Z) (ts : list Tower)
    : outcome (CopilotWorker * list Tower) :=
  match ts with
  | [] => Ok (w, [])
  | t :: ts =>
      id <~ GetStreamID w (tower_stream t) ;;
      if id =? stream then close_towers (ScheduleResubscribeRequest w uuid topic) uuid topic stream ts
      else r <~ close_towers w uuid topic stream ts ;; Ok (fst r, t :: snd r)
  end.

Fixpoint close_topics (w : CopilotWorker) (stream : Z) (topics : list (TopicUUID * TopicState)) : outcome CopilotWorker :=
  match topics with
  | [] => Ok w
  | (uuid, topic) :: topics =>
      r <~ close_towers w uuid topic stream (towers topic) ;;
      close_topics (put_topic uuid (fst r, set_towers (snd r) topic)) stream topics
  end.

Definition CloseControlTowerStream (w : CopilotWorker) (stream : Z) : outcome CopilotWorker :=
  let w := set_sub_to_topic (SubscriptionMap.RemoveStream (sub_to_topic_ w) stream) w in
  w <~ close_topics w stream (map_to_list (topics_ w)) ;;
  Ok (set_sockets (filter (fun e => snd e <> stream) (control_tower_sockets_ w)) w).

Definition ProcessGoodbye (w : CopilotWorker) (goodbye : MessageGoodbye) (origin : Z) : outcome CopilotWorker :=
  if origin_type_ goodbye =? OriginClient then
    match client_subscriptions_ w !! origin with
    | None => Ok w
    | Some subs =>
        w <~ remove_all w (tenantid_ (goodbye_base goodbye)) origin (map_to_list subs).*1 ;;
        Ok (set_client_subscriptions (delete origin (client_subscriptions_ w)) w)
    end
  else if origin_type_ goodbye =? OriginServer then CloseControlTowerStream w origin
  else Ok w.

(** ** Commands and the timer *)

Definition WorkerCommand (w : CopilotWorker) (logid : Z) (message : Message) (worker origin : Z) : outcome CopilotWorker :=
  match message with
  | DeliverData m => ProcessData w m origin
  | DeliverGap m => ProcessGap w m origin
  | TailSeqno m => ProcessTailSeqno w m origin
  | Subscribe m =>
      ProcessSubscribe w (tenantid_ (sub_base m)) (sub_namespace_id_ m) (sub_topic_name_ m) (start_seqno_ m) (sub_sub_id_ m) logid worker origin
  | Unsubscribe m => ProcessUnsubscribe w (tenantid_ (unsub_base m)) (unsub_sub_id_ m) (reason_ m) worker origin
  | Goodbye m => ProcessGoodbye w m origin
  | _ => Ok w
  end.

Definition ProcessRouterUpdate (w : CopilotWorker) (router : Z -> option (list HostId)) : CopilotWorker := set_routing router ∅ w.

(** [x_per_second * interval / 1000000 / workers], at least 1. *)
Definition per_tick (per_second : Z) : Z :=
  Z.max 1 (u64 (per_second * timer_interval_micros options) / 1000000 / num_workers options).

Fixpoint resubscribe_loop (count : nat) (w : CopilotWorker) : outcome CopilotWorker :=
  match count with
  | O => Ok w
  | S count =>
      if HasActiveResubscribeRequests w then
        r <~ PopNextResubscribeRequest w ;;
        let '(w, request) := r in
        match topics_ w !! request_topic request with
        | None => Abort "topic_valid"
        | Some topic =>
            r <~ UpdateTowerSubscriptionsAt w (request_topic request) topic (request_seqno request) (request_have_zero_sub request) false ;;
            resubscribe_loop count (put_topic (request_topic request) r)
        end
      else Ok w
  end.

Fixpoint correct_loop (w : CopilotWorker) (topic : TopicState) (recipients : list HostId) : CopilotWorker * bool :=
  match recipients with
  | [] => (w, true)
  | tower :: recipients =>
      let worker := GetTowerWorker (log_id topic) tower in
      let w := GetControlTowerSocket w tower worker in
      match FindTower topic (tower, worker) with
      | None => (w, false)
      | Some _ => correct_loop w topic recipients
      end
  end.

Definition CorrectTopicTowers (w : CopilotWorker) (topic : TopicState) : CopilotWorker * bool :=
  match GetControlTowers w (log_id topic) with
  | (w, Some recipients) => correct_loop w topic recipients
  | (w, None) => (w, true)
  end.

Fixpoint checkup_loop (w : CopilotWorker) (updates : list TopicUUID) : outcome CopilotWorker :=
  match updates with
  | [] => Ok w
  | uuid :: updates =>
      match topics_ w !! uuid with
      | None => checkup_loop w updates
      | Some topic =>
          let '(w, correct) := CorrectTopicTowers w topic in
          r <~ (if correct : bool then Ok (w, topic) else UpdateTowerSubscriptions w uuid topic true) ;;
          let w := put_topic uuid r in
          checkup_loop (set_checkup (TimeoutList.Add (steady_now env) uuid (topic_checkup_list_ w)) w) updates
      end
  end.

(** [static_cast<int>] *)
Definition as_int (z : Z) : Z := if u32 z <? 2 ^ 31 then u32 z else u32 z - 2 ^ 32.

Definition ProcessTimerTick (w : CopilotWorker) : outcome CopilotWorker :=
  w <~ resubscribe_loop (Z.to_nat (per_tick (resubscriptions_per_second options))) w ;;
  let '(updates, checkup) :=
    TimeoutList.GetExpired (steady_now env) (tower_subscriptions_check_period options)
      (as_int (per_tick (rebalances_per_second options))) (topic_checkup_list_ w) in
  checkup_loop (set_checkup checkup w) updates.
End CopilotWorker.
