(* ===== verification/CopilotRequests.v ===== *)
(** * Copilot worker: requests to resubscribe

    The two priority queues own the requests, and [active_requests_] points into
    them: the pointers never dangle, each topic has at most one request that
    counts, and one is found whenever there is one. *)

From S2P Require Import Prelude Coding Messages Containers TopicManager TimeoutList CopilotWorker.

#[local] Open Scope outcome_scope.

Implicit Types (w : CopilotWorker) (q : RequestQueue) (e : Z * ResubscribeRequest) (u uuid : TopicUUID).

(** ** Priority queue *)

Lemma top_of_in best q : top_of best q ∈ best :: q.
Proof.
  revert best. induction q as [|e q IH]; intros best; [by left|]. cbn [top_of]. specialize (IH (if GreaterResubscribeRequest best.2 e.2 then e else best)).
  apply elem_of_cons in IH as [->|Hin]; [|by do 2 right]. destruct (GreaterResubscribeRequest _ _); [by right; left|by left].
Qed.

Lemma top_in q e : top q = Some e -> e ∈ q.
Proof. destruct q as [|e' q]; [done|]. intros [= <-]. apply top_of_in. Qed.

Lemma top_None q : top q = None <-> q = [].
Proof. by destruct q. Qed.

(** The order of the requests: earliest first, the tail last. *)
Definition comes_before (x y : ResubscribeRequest) : Prop :=
  request_seqno y = 0 \/ (request_seqno x <> 0 /\ request_seqno x <= request_seqno y).

Lemma not_greater x y : GreaterResubscribeRequest x y = false <-> comes_before x y.
Proof. unfold GreaterResubscribeRequest, comes_before. lia. Qed.

Lemma comes_before_trans x y z : comes_before x y -> comes_before y z -> comes_before x z.
Proof. unfold comes_before. lia. Qed.

Lemma top_of_first best q e : e ∈ best :: q -> comes_before (snd (top_of best q)) (snd e).
Proof.
  revert best e. induction q as [|e0 q IH]; intros best e He; cbn [top_of].
  { apply list_elem_of_singleton in He as ->. unfold comes_before. lia. }
  set (b := if GreaterResubscribeRequest best.2 e0.2 then e0 else best).
  assert (comes_before b.2 best.2 /\ comes_before b.2 e0.2) as [H1 H2].
  { unfold b. destruct (GreaterResubscribeRequest best.2 e0.2) eqn:E; [|apply not_greater in E; split; [unfold comes_before; lia|done]].
    split; [|unfold comes_before; lia]. apply not_greater. destruct (GreaterResubscribeRequest e0.2 best.2) eqn:E2; [|done].
    unfold GreaterResubscribeRequest in *. lia. }
  apply elem_of_cons in He as [->|He]; [eapply comes_before_trans; [apply (IH b b); by left|done]|].
  apply elem_of_cons in He as [->|He]; [eapply comes_before_trans; [apply (IH b b); by left|done]|]. apply IH. by right.
Qed.

Lemma top_first q e e' : top q = Some e -> e' ∈ q -> comes_before (snd e) (snd e').
Proof. destruct q as [|e0 q]; [done|]. intros [= <-] He'. by apply top_of_first. Qed.

Lemma elem_of_pop q e e' : NoDup (map fst q) -> top q = Some e -> e' ∈ pop q <-> e' ∈ q /\ e' <> e.
Proof.
  intros Hnd Ht. unfold pop. rewrite Ht, list_elem_of_filter. pose proof (top_in q e Ht) as He. split.
  - intros [Hne Hin]. split; [done|]. by intros ->.
  - intros [Hin Hne]. split; [|done]. intros Heq. apply Hne. clear Ht Hne. induction q as [|e0 q IH]; [by apply elem_of_nil in He|].
    cbn [map] in Hnd. apply NoDup_cons in Hnd as [Hx Hnd]. apply elem_of_cons in He, Hin. destruct He as [->|He], Hin as [->|Hin]; [done| | |by apply IH].
    + destruct Hx. apply list_elem_of_fmap. by exists e'.
    + destruct Hx. apply list_elem_of_fmap. by exists e.
Qed.

Lemma pop_shorter q e : top q = Some e -> (length (pop q) < length q)%nat.
Proof.
  intros Ht. unfold pop. rewrite Ht. apply top_in in Ht as He. clear Ht. induction q as [|e0 q IH]; [by apply elem_of_nil in He|].
  rewrite filter_cons. apply elem_of_cons in He as [->|He].
  - rewrite decide_False by (intros Hn; by apply Hn). cbn. pose proof (length_filter (fun e' => e'.1 <> e0.1) q). lia.
  - specialize (IH He). case_decide; cbn; [lia|]. pose proof (length_filter (fun e' => e'.1 <> e.1) q). lia.
Qed.

Lemma filter_keys_NoDup (P : Z * ResubscribeRequest -> Prop) `{!forall e, Decision (P e)} q : NoDup (map fst q) -> NoDup (map fst (filter P q)).
Proof. intros Hnd. eapply sublist_NoDup; [exact Hnd|]. apply fmap_sublist, sublist_filter. Qed.

(** Cleaning a queue takes cancelled requests off it until one that counts is on
    top. *)
Lemma clean_loop_spec fuel q : (length q <= fuel)%nat -> NoDup (map fst q) ->
  clean_loop fuel q `sublist_of` q /\ (forall e, e ∈ q -> cancelled (snd e) = false -> e ∈ clean_loop fuel q) /\
  (forall e, top (clean_loop fuel q) = Some e -> cancelled (snd e) = false).
Proof.
  revert q. induction fuel as [|fuel IH]; intros q Hl Hnd; cbn [clean_loop].
  { destruct q; [|cbn in Hl; lia]. split; [done|]. by split. }
  destruct (top q) as [e|] eqn:Et; [|apply top_None in Et as ->; by split_and!].
  destruct (cancelled e.2) eqn:Ec.
  - pose proof (pop_shorter q e Et) as Hs. assert (pop q `sublist_of` q) as Hsub by (unfold pop; rewrite Et; apply sublist_filter).
    destruct (IH (pop q) ltac:(lia)) as (H1 & H2 & H3); [eapply sublist_NoDup; [exact Hnd|by apply fmap_sublist]|].
    split_and!; [by etrans| |done]. intros e' He' Hc'. apply H2; [|done]. apply (elem_of_pop q e e' Hnd Et). split; [done|]. intros ->. congruence.
  - split_and!; [done|done|]. intros e' He'. congruence.
Qed.

Lemma CleanRequestQueue_spec q : NoDup (map fst q) ->
  CleanRequestQueue q `sublist_of` q /\ (forall e, e ∈ q -> cancelled (snd e) = false -> e ∈ CleanRequestQueue q) /\
  (forall e, top (CleanRequestQueue q) = Some e -> cancelled (snd e) = false).
Proof. intros Hnd. by apply clean_loop_spec. Qed.

(** ** Invariant *)

Definition requests w : RequestQueue := current_queue_ w ++ pending_queue_ w.

Record requests_ok w : Prop := {
  rq_nodup : NoDup (map fst (requests w));
  rq_fresh : forall e, e ∈ requests w -> fst e < next_request w;
  rq_active : forall u a, active_requests_ w !! u = Some a -> exists r, (a, r) ∈ requests w /\ request_topic r = u /\ cancelled r = false;
  rq_live : forall e, e ∈ requests w -> cancelled (snd e) = false -> active_requests_ w !! request_topic (snd e) = Some (fst e)
}.

Lemma requests_perm w w' : requests w' ≡ₚ requests w -> active_requests_ w' = active_requests_ w -> next_request w' = next_request w ->
  requests_ok w -> requests_ok w'.
Proof.
  intros Hp Ha Hn [H1 H2 H3 H4]. split; rewrite ?Ha, ?Hn.
  - by rewrite Hp.
  - intros e. rewrite Hp. apply H2.
  - intros u a Hu. destruct (H3 u a Hu) as (r & Hr & ?). exists r. by rewrite Hp.
  - intros e. rewrite Hp. apply H4.
Qed.

(** A worker whose requests are a part that includes those that count. *)
Lemma requests_shrink w w' : requests w' `sublist_of` requests w -> (forall e, e ∈ requests w -> cancelled (snd e) = false -> e ∈ requests w') ->
  active_requests_ w' = active_requests_ w -> next_request w' = next_request w -> requests_ok w -> requests_ok w'.
Proof.
  intros Hs Hk Ha Hn [H1 H2 H3 H4]. assert (forall e, e ∈ requests w' -> e ∈ requests w) as Hin by (intros e He; by eapply elem_of_sublist).
  split; rewrite ?Ha, ?Hn.
  - eapply sublist_NoDup; [exact H1|by apply fmap_sublist].
  - intros e He. by apply H2, Hin.
  - intros u a Hu. destruct (H3 u a Hu) as (r & Hr & Hu' & Hc). exists r. split; [by apply Hk|done].
  - intros e He Hc. apply H4; [by apply Hin|done].
Qed.

Lemma NoDup_parts w : requests_ok w -> NoDup (map fst (current_queue_ w)) /\ NoDup (map fst (pending_queue_ w)).
Proof. intros [H1 _ _ _]. unfold requests in H1. rewrite map_app in H1. apply NoDup_app in H1 as (? & _ & ?). done. Qed.

Lemma CleanRequestQueues_ok w : requests_ok w ->
  requests_ok (CleanRequestQueues w) /\ (forall e, top (current_queue_ (CleanRequestQueues w)) = Some e -> cancelled (snd e) = false) /\
  (active_requests_ w <> ∅ -> current_queue_ (CleanRequestQueues w) <> []).
Proof.
  intros Hok. destruct (NoDup_parts w Hok) as [Hc Hp].
  destruct (CleanRequestQueue_spec _ Hc) as (C1 & C2 & C3), (CleanRequestQueue_spec _ Hp) as (P1 & P2 & P3).
  set (w1 := set_requests (CleanRequestQueue (current_queue_ w)) (CleanRequestQueue (pending_queue_ w)) (active_requests_ w) (next_request w) w).
  assert (requests_ok w1) as Hok1.
  { apply (requests_shrink w); [by apply sublist_app| |done|done|done]. intros e He Hn. unfold requests in *.
    apply elem_of_app in He as [He|He]; apply elem_of_app; [left; by apply C2|right; by apply P2]. }
  assert (active_requests_ w <> ∅ -> exists e, e ∈ requests w1) as Hex.
  { intros Hne. apply map_choose in Hne as (u & a & Hu). destruct (rq_active w1 Hok1 u a Hu) as (r & Hr & _). by exists (a, r). }
  unfold CleanRequestQueues. fold w1. destruct (CleanRequestQueue (current_queue_ w)) as [|e0 cur] eqn:Ecur; cbn [length Nat.eqb].
  - destruct (CleanRequestQueue (pending_queue_ w)) as [|e1 pend] eqn:Epend; cbn [length Nat.eqb Nat.ltb Nat.leb andb].
    + split_and!; [exact Hok1|done|]. intros Hne. destruct (Hex Hne) as (e & He). unfold requests, w1 in He. cbn in He. by apply elem_of_nil in He.
    + split_and!; [|exact P3|done]. eapply (requests_perm w1); [|done|done|exact Hok1]. unfold requests, w1. cbn. by rewrite app_nil_r.
  - cbn [andb]. split_and!; [exact Hok1|exact C3|done].
Qed.

(** [PopNextResubscribeRequest] finds the request of an active topic, which is
    then no longer active, and no earlier one is in the queue. *)
Lemma PopNextResubscribeRequest_ok w : requests_ok w -> active_requests_ w <> ∅ ->
  exists w' r, PopNextResubscribeRequest w = Ok (w', r) /\ requests_ok w' /\
    is_Some (active_requests_ w !! request_topic r) /\ active_requests_ w' = delete (request_topic r) (active_requests_ w) /\
    w' = set_requests (current_queue_ w') (pending_queue_ w') (active_requests_ w') (next_request w) w.
Proof.
  intros Hok Hne. destruct (CleanRequestQueues_ok w Hok) as (Hok1 & Htop & Hcur). specialize (Hcur Hne). unfold PopNextResubscribeRequest.
  assert (exists c p, CleanRequestQueues w = set_requests c p (active_requests_ w) (next_request w) w) as (c & p & Ew).
  { unfold CleanRequestQueues. destruct (_ && _); by eauto. }
  rewrite Ew in *. cbn [current_queue_ pending_queue_ active_requests_ next_request set_requests] in *.
  destruct (top c) as [e|] eqn:Et; [|by apply top_None in Et]. specialize (Htop e eq_refl).
  pose proof (top_in c e Et) as He. destruct (NoDup_parts _ Hok1) as [Hnc _]. cbn in Hnc.
  assert (active_requests_ w !! request_topic e.2 = Some e.1) as Hact.
  { apply (rq_live _ Hok1); [|done]. unfold requests. cbn. apply elem_of_app. by left. }
  eexists _, (snd e). split; [reflexivity|]. cbn [active_requests_ current_queue_ pending_queue_ set_requests]. split_and!; [|by eexists|done|done].
  destruct Hok1 as [H1 H2 H3 H4]. unfold requests in *. cbn in *.
  assert (pop c `sublist_of` c) as Hsub by (unfold pop; rewrite Et; apply sublist_filter).
  assert (forall e', e' ∈ pop c ++ p -> e' ∈ c ++ p /\ e' <> e) as Hin.
  { intros e' He'. apply elem_of_app in He' as [He'|He'].
    - apply (elem_of_pop c e e' Hnc Et) in He' as [? ?]. split; [apply elem_of_app; by left|done].
    - split; [apply elem_of_app; by right|]. intros ->. rewrite map_app in H1. apply NoDup_app in H1 as (_ & Hd & _).
      apply (Hd (fst e)); apply list_elem_of_fmap; by exists e. }
  split; cbn.
  - eapply sublist_NoDup; [exact H1|]. apply fmap_sublist. by apply sublist_app.
  - intros e' He'. by apply H2, Hin.
  - intros u a Hu. apply lookup_delete_Some in Hu as [Hne' Hu]. destruct (H3 u a Hu) as (r & Hr & Htr & Hc). exists r. split_and!; [|done|done].
    apply elem_of_app in Hr as [Hr|Hr]; apply elem_of_app; [left|by right]. apply (elem_of_pop c e _ Hnc Et). split; [done|]. intros <-. done.
  - intros e' He' Hc'. apply Hin in He' as [He' Hne']. pose proof (H4 e' He' Hc') as Ha. apply lookup_delete_Some. split; [|done].
    intros Heq. apply Hne'. rewrite <-Heq, Hact in Ha. injection Ha as Ha. assert (e ∈ c ++ p) as [l Hl]%elem_of_Permutation by (apply elem_of_app; by left).
    rewrite Hl in He', H1. cbn in H1. apply NoDup_cons in H1 as [Hx _]. apply elem_of_cons in He' as [->|He']; [done|].
    destruct Hx. apply list_elem_of_fmap. exists e'. by split.
Qed.

Lemma cancel_in_keys a q : map fst (cancel_in a q) = map fst q.
Proof. unfold cancel_in. rewrite map_map. apply map_ext. intros e. by destruct (fst e =? a). Qed.

Lemma elem_of_cancel_in a q e : e ∈ cancel_in a q -> exists e0, e0 ∈ q /\ fst e0 = fst e /\
  ((fst e <> a /\ e0 = e) \/ (fst e = a /\ cancelled (snd e) = true)).
Proof.
  intros He. apply list_elem_of_fmap in He as (e0 & -> & He0). exists e0. split; [done|]. destruct (Z.eqb_spec (fst e0) a) as [->|Hne]; cbn; [|by split; [|left]].
  split; [done|]. by right.
Qed.

Lemma cancel_in_other a q e : e ∈ q -> fst e <> a -> e ∈ cancel_in a q.
Proof. intros He Hne. apply list_elem_of_fmap. exists e. split; [|done]. by destruct (Z.eqb_spec (fst e) a). Qed.

(** Cancelling never touches freed memory, and the topic has no request then. *)
Lemma CancelResubscribeRequest_ok w uuid : requests_ok w ->
  exists w', CancelResubscribeRequest w uuid = Ok w' /\ requests_ok w' /\ active_requests_ w' = delete uuid (active_requests_ w) /\
    w' = set_requests (current_queue_ w') (pending_queue_ w') (active_requests_ w') (next_request w) w.
Proof.
  intros Hok. unfold CancelResubscribeRequest. destruct (active_requests_ w !! uuid) as [a|] eqn:Ea.
  2: { exists w. split_and!; [done|done|by rewrite delete_id|by destruct w]. }
  destruct (rq_active w Hok uuid a Ea) as (r & Hr & Htr & Hc). unfold is_allocated. rewrite <-map_app. fold (requests w).
  rewrite bool_decide_eq_true_2 by (apply list_elem_of_fmap; by exists (a, r)). cbn [assert_that obind]. eexists. split; [reflexivity|].
  cbn [active_requests_ current_queue_ pending_queue_ set_requests]. split_and!; [|done|done].
  destruct Hok as [H1 H2 H3 H4]. unfold requests in *.
  assert (cancel_in a (current_queue_ w) ++ cancel_in a (pending_queue_ w) = cancel_in a (current_queue_ w ++ pending_queue_ w)) as Eq.
  { unfold cancel_in. by rewrite map_app. }
  split; unfold requests; cbn; rewrite Eq.
  - by rewrite cancel_in_keys.
  - intros e He. apply elem_of_cancel_in in He as (e0 & He0 & <- & _). by apply H2.
  - intros u b Hu. apply lookup_delete_Some in Hu as [Hne Hu]. destruct (H3 u b Hu) as (r' & Hr' & Htr' & Hc'). exists r'. split_and!; [|done|done].
    apply cancel_in_other; [done|]. cbn. intros ->. pose proof (H4 (a, r') Hr' Hc') as Hx. pose proof (H4 (a, r) Hr Hc) as Hy. cbn in Hx, Hy.
    assert (r' = r) as ->; [|congruence]. clear -H1 Hr Hr'. apply elem_of_Permutation in Hr as [l Hl]. rewrite Hl in H1, Hr'. cbn in H1.
    apply NoDup_cons in H1 as [Hx _]. apply elem_of_cons in Hr' as [Heq|Hr']; [congruence|]. destruct Hx. apply list_elem_of_fmap. by exists (a, r').
  - intros e He Hce. apply elem_of_cancel_in in He as (e0 & He0 & _ & [[Hne ->]|[_ Ht]]); [|congruence]. apply lookup_delete_Some.
    split; [|by apply H4]. intros Heq. pose proof (H4 e He0 Hce) as Hx. rewrite <-Heq, Ea in Hx. congruence.
Qed.

Lemma ScheduleRequest_ok w uuid seqno zero pending : requests_ok w ->
  requests_ok (ScheduleRequest w uuid seqno zero pending) /\ is_Some (active_requests_ (ScheduleRequest w uuid seqno zero pending) !! uuid) /\
  (forall u, u <> uuid -> active_requests_ (ScheduleRequest w uuid seqno zero pending) !! u = active_requests_ w !! u).
Proof.
  intros Hok. unfold ScheduleRequest, HasActiveResubscribeRequest. case_bool_decide as Ha; [by split_and!|].
  cbn [active_requests_ set_requests]. split_and!; [|rewrite lookup_insert_eq; by eexists|intros u Hu; by rewrite lookup_insert_ne].
  destruct Hok as [H1 H2 H3 H4]. set (r := {| request_topic := uuid; request_seqno := seqno; request_have_zero_sub := zero; cancelled := false |}).
  assert (requests (set_requests (if pending then current_queue_ w else current_queue_ w ++ [(next_request w, r)])
    (if pending then pending_queue_ w ++ [(next_request w, r)] else pending_queue_ w) (<[uuid:=next_request w]> (active_requests_ w)) (next_request w + 1) w)
    ≡ₚ (next_request w, r) :: requests w) as Hp.
  { unfold requests. cbn. destruct pending; [|rewrite <-app_assoc]; cbn; by rewrite ?app_assoc, <-?Permutation_cons_append, <-?Permutation_middle. }
  split; cbn [active_requests_ next_request set_requests].
  - rewrite Hp. cbn. apply NoDup_cons. split; [|done]. intros Hin. apply list_elem_of_fmap in Hin as (e & He & Hin). specialize (H2 e Hin). lia.
  - intros e. rewrite Hp. intros He. apply elem_of_cons in He as [->|He]; [cbn; lia|]. specialize (H2 e He). lia.
  - intros u a Hu. apply lookup_insert_Some in Hu as [[<- <-]|[Hne Hu]]; [exists r; rewrite Hp; split; [by left|done]|].
    destruct (H3 u a Hu) as (r' & Hr' & ?). exists r'. rewrite Hp. split; [by right|done].
  - intros e. rewrite Hp. intros He Hc. apply elem_of_cons in He as [->|He]; [cbn; by rewrite lookup_insert_eq|].
    rewrite lookup_insert_ne; [by apply H4|]. intros Heq. apply Ha. rewrite Heq, (H4 e He Hc). by eexists.
Qed.

Lemma NewCopilotWorker_requests router : requests_ok (NewCopilotWorker router).
Proof. split; unfold requests; cbn; [apply NoDup_nil_2|by intros e He%elem_of_nil|by intros u a Hu|by intros e He%elem_of_nil]. Qed.
