(* ===== verification/CopilotTowers.v ===== *)
(** * Copilot worker: subscriptions at control towers

    [quiet] relates a worker to the one after steps that send nothing to clients
    and leave their subscriptions alone; the functions that keep the
    subscriptions at the towers up to date are such steps, and never fail. *)

From S2P Require Import Prelude Coding CodingFacts Messages Containers TopicManager TimeoutList CopilotWorker CopilotRequests.

#[local] Open Scope outcome_scope.

Implicit Types (w : CopilotWorker) (u uuid : TopicUUID) (topic : TopicState) (t : Tower).

(** ** Definitions *)

(** Subscription, previous and current sequence number, and payload of an
    update. *)
Definition update_of (m : Message) : option (Z * Z * Z * option slice) :=
  match m with
  | DeliverData d => Some (deliver_sub_id_ (ddata_deliver d), deliver_seqno_prev_ (ddata_deliver d), deliver_seqno_ (ddata_deliver d), Some (ddata_payload_ d))
  | DeliverGap d => Some (deliver_sub_id_ (dgap_deliver d), deliver_seqno_prev_ (dgap_deliver d), deliver_seqno_ (dgap_deliver d), None)
  | _ => None
  end.

(** No update is written to a client. *)
Definition silent (e : CopilotEvent) : Prop := match e with ClientWrite _ _ m => update_of m = None | _ => True end.

(** The ID of a topic with names below 4 GB. *)
Definition valid_uuid uuid : Prop := exists ns name, topic_ok (ns, name) /\ uuid = NewTopicUUID ns name.

(** A router names each tower once. *)
Definition router_ok (router : Z -> option (list HostId)) : Prop := forall logid out, router logid = Some out -> NoDup out.

Definition routing_ok w : Prop :=
  router_ok (control_tower_router_ w) /\ forall logid out, control_tower_cache_ w !! logid = Some out -> NoDup out.

(** Every log has a tower. *)
Definition router_total (router : Z -> option (list HostId)) : Prop := forall logid, exists out, router logid = Some out /\ out <> [].

Definition routing_total w : Prop :=
  router_total (control_tower_router_ w) /\ forall logid out, control_tower_cache_ w !! logid = Some out -> out <> [].

(** A subscription of the worker at a tower has the topic that was asked for. *)
Definition names_ok w : Prop := forall stream id uuid, SubscriptionMap.Find (sub_to_topic_ w) stream id = Some uuid ->
  exists worker m, TowerWrite worker stream (Subscribe m) ∈ events w /\ sub_sub_id_ m = id /\
    uuid = NewTopicUUID (sub_namespace_id_ m) (sub_topic_name_ m).

(** The requests to resubscribe are the same. *)
Definition same_requests w w' : Prop :=
  current_queue_ w' = current_queue_ w /\ pending_queue_ w' = pending_queue_ w /\ active_requests_ w' = active_requests_ w /\ next_request w' = next_request w.

Record quiet (U : TopicUUID -> Prop) w w' : Prop := {
  q_topics : topics_ w' = topics_ w;
  q_clients : client_subscriptions_ w' = client_subscriptions_ w;
  q_sockets : control_tower_sockets_ w ⊆ control_tower_sockets_ w';
  q_events : exists es, events w' = events w ++ es /\ Forall silent es;
  q_names : names_ok w -> names_ok w';
  q_routing : routing_ok w -> routing_ok w';
  q_requests : requests_ok w -> requests_ok w';
  q_active : requests_ok w -> forall u, is_Some (active_requests_ w' !! u) -> is_Some (active_requests_ w !! u) \/ U u;
  q_same : (forall u, ~ U u) -> same_requests w w';
  q_total : routing_total w -> routing_total w'
}.

Definition nowhere : TopicUUID -> Prop := fun _ => False.

Lemma quiet_refl U w : quiet U w w.
Proof. split; try done. - exists []. by rewrite app_nil_r. - by left. Qed.

Lemma quiet_trans U w1 w2 w3 : quiet U w1 w2 -> quiet U w2 w3 -> quiet U w1 w3.
Proof.
  intros [A1 A2 A3 (es1 & A4 & A4') A5 A6 A7 A8 A9 A10] [B1 B2 B3 (es2 & B4 & B4') B5 B6 B7 B8 B9 B10]. split.
  - congruence.
  - congruence.
  - by etrans.
  - exists (es1 ++ es2). rewrite B4, A4, app_assoc. split; [done|]. by apply Forall_app.
  - auto.
  - auto.
  - auto.
  - intros Hok u Hu. destruct (B8 (A7 Hok) u Hu) as [Hu'|]; [|by right]. by apply A8.
  - intros Hn. destruct (A9 Hn) as (? & ? & ? & ?), (B9 Hn) as (? & ? & ? & ?). split_and!; congruence.
  - auto.
Qed.

Lemma quiet_mono (U U' : TopicUUID -> Prop) w w' : (forall u, U u -> U' u) -> quiet U w w' -> quiet U' w w'.
Proof.
  intros HU [H1 H2 H3 H4 H5 H6 H7 H8 H9 H10]. split; try done.
  - intros Hok u Hu. destruct (H8 Hok u Hu); [by left|right; by apply HU].
  - intros Hn. apply H9. intros u Hu. by apply (Hn u), HU.
Qed.

Lemma quiet_nowhere U w w' : quiet nowhere w w' -> quiet U w w'.
Proof. by apply quiet_mono. Qed.

Lemma names_ok_more w w' es : sub_to_topic_ w' = sub_to_topic_ w -> events w' = events w ++ es -> names_ok w -> names_ok w'.
Proof.
  intros Hs He Hn stream id uuid Hf. rewrite Hs in Hf. destruct (Hn _ _ _ Hf) as (k & m & Hin & ?). exists k, m. split; [|done].
  rewrite He. apply elem_of_app. by left.
Qed.

Lemma requests_ok_same w w' : current_queue_ w' = current_queue_ w -> pending_queue_ w' = pending_queue_ w ->
  active_requests_ w' = active_requests_ w -> next_request w' = next_request w -> requests_ok w -> requests_ok w'.
Proof. intros Hc Hp Ha Hn. apply requests_perm; [|done|done]. unfold requests. by rewrite Hc, Hp. Qed.

Lemma push_event_quiet w e : silent e -> quiet nowhere w (push_event e w).
Proof.
  intros He. split; try done.
  - exists [e]. by repeat constructor.
  - by apply (names_ok_more _ _ [e]).
  - by apply requests_ok_same.
  - by left.
Qed.

Lemma set_checkup_quiet w l : quiet nowhere w (set_checkup l w).
Proof.
  split; try done.
  - exists []. by rewrite app_nil_r.
  - by apply requests_ok_same.
  - by left.
Qed.

Lemma set_next_sub_id_quiet w n : quiet nowhere w (set_next_sub_id n w).
Proof.
  split; try done.
  - exists []. by rewrite app_nil_r.
  - by apply requests_ok_same.
  - by left.
Qed.

Lemma ScheduleRequest_quiet w uuid seqno zero pending : quiet (fun u => u = uuid) w (ScheduleRequest w uuid seqno zero pending).
Proof.
  assert (exists c p a n, ScheduleRequest w uuid seqno zero pending = set_requests c p a n w) as (c & p & a & n & E).
  { unfold ScheduleRequest. destruct (HasActiveResubscribeRequest w uuid); [|by eauto]. exists (current_queue_ w), (pending_queue_ w), (active_requests_ w), (next_request w). by destruct w. }
  split.
  1-3: by rewrite E.
  - exists []. by rewrite E, app_nil_r.
  - by rewrite E.
  - by rewrite E.
  - intros Hok. by apply ScheduleRequest_ok.
  - intros Hok u Hu. destruct (ScheduleRequest_ok w uuid seqno zero pending Hok) as (_ & _ & Hs).
    destruct (decide (u = uuid)) as [->|Hne]; [by right|]. left. by rewrite <-Hs.
  - intros Hn. by destruct (Hn uuid).
  - by rewrite E.
Qed.

Section Towers.
Context (options : CopilotOptions) (myid : Z) (hash : HostId -> Z).
Hypothesis Hworkers : 0 < num_workers options.

Definition worker_ok (worker : Z) : Prop := 0 <= worker < num_workers options.

Lemma worker_okb worker : worker_ok worker -> (0 <=? worker) && (worker <? num_workers options) = true.
Proof. unfold worker_ok. lia. Qed.

Lemma GetTowerWorker_ok logid tower : worker_ok (GetTowerWorker options hash logid tower).
Proof. unfold worker_ok, GetTowerWorker. apply Z.mod_pos_bound. lia. Qed.

(** The towers of a topic: their sockets exist, and are different. *)
Record towers_ok (sockets : gmap (HostId * Z) Z) (ts : list Tower) : Prop := {
  tw_nodup : NoDup (map tower_stream ts);
  tw_open : forall t, t ∈ ts -> is_Some (sockets !! tower_stream t);
  tw_worker : forall t, t ∈ ts -> worker_ok (tower_worker t)
}.

Lemma towers_ok_more sockets sockets' ts : sockets ⊆ sockets' -> towers_ok sockets ts -> towers_ok sockets' ts.
Proof. intros Hs [H1 H2 H3]. split; [done| |done]. intros t Ht. destruct (H2 t Ht) as [id Hid]. exists id. by eapply lookup_weaken. Qed.

Lemma towers_ok_nil sockets : towers_ok sockets [].
Proof. split; [apply NoDup_nil_2|by intros t Ht%elem_of_nil|by intros t Ht%elem_of_nil]. Qed.

Lemma towers_ok_same sockets ts ts' : map tower_stream ts' = map tower_stream ts -> map tower_worker ts' = map tower_worker ts ->
  towers_ok sockets ts -> towers_ok sockets ts'.
Proof.
  intros Hs Hw [H1 H2 H3]. split.
  - by rewrite Hs.
  - intros t Ht. assert (tower_stream t ∈ map tower_stream ts) as (t' & -> & Ht')%list_elem_of_fmap by (rewrite <-Hs; by apply list_elem_of_fmap_2). by apply H2.
  - intros t Ht. assert (tower_worker t ∈ map tower_worker ts) as (t' & -> & Ht')%list_elem_of_fmap by (rewrite <-Hw; by apply list_elem_of_fmap_2). by apply H3.
Qed.

Section Env.
Context (env : CopilotEnv).

Lemma write_tower_quiet w worker stream m bytes : worker_ok worker -> Serialize m [] = Ok bytes ->
  exists w' b, write_tower options env w worker stream m = Ok (w', b) /\ quiet nowhere w w' /\
    w' = push_event (TowerWrite worker stream m) w /\
    b = tower_has_room env (events w).
Proof.
  intros Hw Hs. unfold write_tower. rewrite Hs, (worker_okb _ Hw). cbn [obind assert_that].
  eexists _, _. split; [reflexivity|]. split; [by apply push_event_quiet|done].
Qed.

Lemma GetStreamID_open w stream : is_Some (control_tower_sockets_ w !! stream) -> exists id, GetStreamID w stream = Ok id.
Proof. intros [id Hid]. exists id. unfold GetStreamID. by rewrite Hid. Qed.

Lemma Serialize_plain m : match m with Subscribe _ | Unsubscribe _ | FindTailSeqno _ => True | _ => False end ->
  exists bytes, Serialize m [] = Ok bytes.
Proof. destruct m; try done; intros _; by eexists. Qed.

Lemma SendSubscribe_quiet w uuid seqno stream sub_id worker : worker_ok worker -> valid_uuid uuid -> is_Some (control_tower_sockets_ w !! stream) ->
  exists w' b, SendSubscribe options env w GuestTenant uuid seqno stream sub_id worker = Ok (w', b) /\ quiet nowhere w w' /\
    b = tower_has_room env (events w).
Proof.
  intros Hw (ns & name & Hok & ->) Hs. unfold SendSubscribe. rewrite UUID_roundtrip by done. cbn [obind].
  destruct (GetStreamID_open w stream Hs) as [id ->]. cbn [obind].
  set (m := Subscribe _). destruct (write_tower_quiet w worker id m _ Hw eq_refl) as (w1 & b & -> & Hq & E & Hb). cbn [obind].
  destruct b; eexists _, _; (split; [reflexivity|]); (split; [|done]); [|done].
  eapply quiet_trans; [exact Hq|]. split; try done.
  - exists []. by rewrite app_nil_r.
  - intros Hn s i u Hf. cbn [sub_to_topic_ set_sub_to_topic events] in *. rewrite SubscriptionMap.Find_Insert in Hf. case_decide as Hd; [|by apply Hn].
    destruct Hd as [-> ->]. destruct (SubscriptionMap.Find (sub_to_topic_ w1) id sub_id) as [u'|] eqn:Ef; cbn in Hf; injection Hf as <-; [by apply Hn|].
    eexists worker, _. split; [rewrite E; cbn [events push_event]; apply elem_of_app; right; apply elem_of_cons; left; reflexivity|]. done.
  - by apply requests_ok_same.
  - by left.
Qed.

Lemma Find_Remove_Some (m : SubscriptionMap.t TopicUUID) s i s' i' u : SubscriptionMap.Find (SubscriptionMap.Remove m s i) s' i' = Some u ->
  SubscriptionMap.Find m s' i' = Some u.
Proof.
  unfold SubscriptionMap.Remove, SubscriptionMap.Find. destruct (m !! s) as [subs|] eqn:E; [|done].
  destruct (decide (s' = s)) as [->|Hne]; [|by rewrite lookup_insert_ne]. rewrite lookup_insert_eq, E. intros Hu. by apply lookup_delete_Some in Hu as [_ Hu].
Qed.

Lemma set_sub_to_topic_quiet w subs : (forall s i u, SubscriptionMap.Find subs s i = Some u -> SubscriptionMap.Find (sub_to_topic_ w) s i = Some u) ->
  quiet nowhere w (set_sub_to_topic subs w).
Proof.
  intros Hs. split; try done.
  - exists []. by rewrite app_nil_r.
  - intros Hn s i u Hf. apply Hn. by apply Hs.
  - by apply requests_ok_same.
  - by left.
Qed.

Lemma SendUnsubscribe_quiet w stream sub_id worker : worker_ok worker -> is_Some (control_tower_sockets_ w !! stream) ->
  exists w' b, SendUnsubscribe options env w GuestTenant stream sub_id worker = Ok (w', b) /\ quiet nowhere w w'.
Proof.
  intros Hw Hs. unfold SendUnsubscribe. destruct (GetStreamID_open w stream Hs) as [id ->]. cbn [obind].
  destruct (write_tower_quiet w worker id (NewUnsubscribe GuestTenant sub_id kRequested) _ Hw eq_refl) as (w1 & b & -> & Hq & _). cbn [obind].
  destruct b; eexists _, _; (split; [reflexivity|]); [|done]. eapply quiet_trans; [exact Hq|].
  apply set_sub_to_topic_quiet. intros s i u. apply Find_Remove_Some.
Qed.

Lemma unsubscribe_all_quiet w ts : towers_ok (control_tower_sockets_ w) ts ->
  exists w', unsubscribe_all options env w ts = Ok w' /\ quiet nowhere w w'.
Proof.
  intros [_ Ho Hw]. revert w Ho. induction ts as [|t ts IH]; intros w Ho; cbn [unsubscribe_all]; [exists w; split; [done|apply quiet_refl]|].
  destruct (SendUnsubscribe_quiet w (tower_stream t) (tower_sub_id t) (tower_worker t)) as (w1 & b & -> & Hq); [apply Hw; by left|apply Ho; by left|].
  cbn [obind fst]. destruct (IH ltac:(intros t' Ht'; apply Hw; by right) w1) as (w2 & -> & Hq2).
  { intros t' Ht'. destruct (Ho t' ltac:(by right)) as [id Hid]. exists id. eapply lookup_weaken; [exact Hid|apply Hq]. }
  exists w2. split; [done|]. by eapply quiet_trans.
Qed.

Lemma GetControlTowers_quiet w logid : let r := GetControlTowers w logid in
  quiet nowhere w (fst r) /\ (routing_ok w -> forall out, snd r = Some out -> NoDup out).
Proof.
  unfold GetControlTowers. destruct (control_tower_cache_ w !! logid) as [out|] eqn:Ec; cbn.
  { split; [apply quiet_refl|]. intros [_ Hc] ? [= <-]. by apply (Hc logid). }
  destruct (control_tower_router_ w logid) as [out|] eqn:Er; cbn; [|split; [apply quiet_refl|done]]. split.
  - split; try done.
    + exists []. by rewrite app_nil_r.
    + intros [Hr Hc]. split; [done|]. cbn. intros l o Ho. apply lookup_insert_Some in Ho as [[_ <-]|[_ Ho]]; [by apply (Hr logid)|by apply (Hc l)].
    + by apply requests_ok_same.
    + by left.
    + intros [Hr Hc]. split; [done|]. cbn. intros l o Ho. apply lookup_insert_Some in Ho as [[_ <-]|[_ Ho]]; [|by apply (Hc l)].
      destruct (Hr logid) as (out' & Er' & Hne). congruence.
  - intros [Hr _] ? [= <-]. by apply (Hr logid).
Qed.

Lemma GetControlTowers_total w logid : routing_total w -> exists out, snd (GetControlTowers w logid) = Some out /\ out <> [].
Proof.
  intros [Hr Hc]. unfold GetControlTowers. destruct (control_tower_cache_ w !! logid) as [out|] eqn:Ec; [exists out; split; [done|by eapply Hc]|].
  destruct (Hr logid) as (out & -> & Hne). by exists out.
Qed.

Lemma GetControlTowerSocket_quiet w tower worker :
  quiet nowhere w (GetControlTowerSocket env w tower worker) /\ is_Some (control_tower_sockets_ (GetControlTowerSocket env w tower worker) !! (tower, worker)).
Proof.
  unfold GetControlTowerSocket. destruct (control_tower_sockets_ w !! (tower, worker)) as [id|] eqn:E; [split; [apply quiet_refl|by eexists]|].
  split; [|cbn; rewrite lookup_insert_eq; by eexists]. split; try done.
  - cbn. by apply insert_subseteq.
  - eexists. split; [reflexivity|]. by repeat constructor.
  - by eapply names_ok_more.
  - by apply requests_ok_same.
  - by left.
Qed.

Definition connection logid (tower : HostId) : (HostId * Z) * Z := ((tower, GetTowerWorker options hash logid tower), GetTowerWorker options hash logid tower).

Lemma open_towers_quiet w logid recipients :
  quiet nowhere w (fst (open_towers options hash env w logid recipients)) /\
  snd (open_towers options hash env w logid recipients) = map (connection logid) recipients /\
  forall tower, tower ∈ recipients ->
    is_Some (control_tower_sockets_ (fst (open_towers options hash env w logid recipients)) !! fst (connection logid tower)).
Proof.
  revert w. induction recipients as [|tower recipients IH]; intros w; cbn [open_towers map].
  { split_and!; [apply quiet_refl|done|by intros ? ?%elem_of_nil]. }
  destruct (GetControlTowerSocket_quiet w tower (GetTowerWorker options hash logid tower)) as [Hq Ho].
  destruct (IH (GetControlTowerSocket env w tower (GetTowerWorker options hash logid tower))) as (Hq2 & Ec & Ho2).
  destruct (open_towers options hash env _ logid recipients) as [w2 conns] eqn:E. cbn [fst snd] in *. split_and!.
  - by eapply quiet_trans.
  - by rewrite Ec.
  - intros t Ht. apply elem_of_cons in Ht as [->|Ht]; [|by apply Ho2]. destruct Ho as [id Hid]. exists id. eapply lookup_weaken; [exact Hid|apply Hq2].
Qed.

Lemma FindTower_None topic stream : FindTower topic stream = None <-> stream ∉ map tower_stream (towers topic).
Proof.
  unfold FindTower. destruct (list_find _ _) as [[i t]|] eqn:E; cbn.
  - apply list_find_Some in E as (Hl & <- & _). split; [done|]. intros Hn. destruct Hn. apply list_elem_of_fmap. exists t. split; [done|by eapply list_elem_of_lookup_2].
  - apply list_find_None in E. split; [|done]. intros _ Hin. apply list_elem_of_fmap in Hin as (t & -> & Ht). rewrite Forall_forall in E. by apply (E t Ht).
Qed.

Definition tower_at (new_seqno : Z) t : Prop := tower_next_seqno t = new_seqno /\ tower_flags t = if new_seqno =? 0 then kIsAtTail else kDefault.

Lemma subscribe_all_quiet w uuid topic new_seqno conns : valid_uuid uuid -> towers_ok (control_tower_sockets_ w) (towers topic) ->
  NoDup (map tower_stream (towers topic) ++ map fst conns) ->
  (forall c, c ∈ conns -> is_Some (control_tower_sockets_ w !! fst c) /\ worker_ok (snd c)) ->
  exists w' ts, subscribe_all options myid env w uuid topic new_seqno conns = Ok (w', set_towers (towers topic ++ ts) topic) /\ quiet nowhere w w' /\
    towers_ok (control_tower_sockets_ w') (towers topic ++ ts) /\ Forall (tower_at new_seqno) ts /\ (length ts <= length conns)%nat /\
    ((forall es, tower_has_room env es = true) -> map tower_stream ts = map fst conns).
Proof.
  intros Hu. revert w topic. induction conns as [|[socket worker] conns IH]; intros w topic Ht Hnd Hc; cbn [subscribe_all].
  { exists w, []. rewrite app_nil_r. split_and!; [by destruct topic|apply quiet_refl|done|constructor|done|done]. }
  cbn [map fst] in *. destruct (GenerateSubscriptionID (next_sub_id_state_ w) myid (num_workers options)) as [sub_id state] eqn:Eid.
  pose proof (set_next_sub_id_quiet w state) as Hq0.
  destruct (Hc (socket, worker) ltac:(by left)) as [Hso Hwo]. cbn [fst snd] in Hso, Hwo.
  destruct (SendSubscribe_quiet (set_next_sub_id state w) uuid new_seqno socket sub_id worker Hwo Hu Hso) as (w1 & b & -> & Hq1 & Hb). cbn [obind].
  assert (quiet nowhere w w1) as Hq by (by eapply quiet_trans). pose proof (q_sockets _ _ _ Hq) as Hsub.
  assert (socket ∉ map tower_stream (towers topic)) as Hnew.
  { apply NoDup_app in Hnd as (_ & Hd & _). intros Hin. apply (Hd socket Hin). by left. }
  assert (forall c, c ∈ conns -> is_Some (control_tower_sockets_ w1 !! fst c) /\ worker_ok (snd c)) as Hc1.
  { intros c Hin. destruct (Hc c ltac:(by right)) as [[id Hid] Hw']. split; [|done]. exists id. by eapply lookup_weaken. }
  apply (towers_ok_more _ _ _ Hsub) in Ht as Ht1. destruct b.
  - rewrite bool_decide_eq_true_2 by (by apply FindTower_None). cbn [assert_that obind].
    set (flags := if new_seqno =? 0 then Z.lor kDefault kIsAtTail else kDefault).
    set (tower := {| tower_stream := socket; tower_sub_id := sub_id; tower_next_seqno := new_seqno; tower_worker := worker; tower_flags := flags |}).
    destruct (IH w1 (set_towers (towers topic ++ [tower]) topic)) as (w2 & ts & -> & Hq2 & Ht2 & Hat & Hl & Hall).
    + cbn. destruct Ht1 as [T1 T2 T3]. split.
      * rewrite map_app. cbn. apply NoDup_app. split; [done|]. split; [|apply NoDup_singleton]. by intros x Hx ->%list_elem_of_singleton.
      * intros t [Hin| ->%list_elem_of_singleton]%elem_of_app; [by apply T2|]. destruct Hso as [id Hid]. exists id. by eapply lookup_weaken.
      * intros t [Hin| ->%list_elem_of_singleton]%elem_of_app; [by apply T3|done].
    + cbn. rewrite map_app, <-app_assoc. done.
    + done.
    + cbn [towers set_towers] in *. rewrite <-app_assoc in *. exists w2, (tower :: ts). split_and!; [done|by eapply quiet_trans|done| |cbn; lia|].
      * constructor; [|done]. split; [done|]. unfold tower, flags. cbn. by destruct (new_seqno =? 0).
      * intros Ha. cbn. by rewrite Hall.
  - destruct (IH w1 topic Ht1) as (w2 & ts & -> & Hq2 & Ht2 & Hat & Hl & Hall); [|done|].
    { apply NoDup_app in Hnd as (H1 & H2 & H3). apply NoDup_cons in H3 as [_ H3]. apply NoDup_app. split_and!; [done| |done].
      intros x Hx Hin. apply (H2 x Hx). by right. }
    exists w2, ts. split_and!; [done|by eapply quiet_trans|done|done|cbn; lia|]. intros Ha. rewrite Ha in Hb. done.
Qed.

Lemma request_tail_quiet w m conns : (exists f, m = FindTailSeqno f) ->
  (forall c, c ∈ conns -> is_Some (control_tower_sockets_ w !! fst c) /\ worker_ok (snd c)) ->
  exists w', request_tail options env w m conns = Ok w' /\ quiet nowhere w w'.
Proof.
  intros [f ->]. revert w. induction conns as [|[socket worker] conns IH]; intros w Hc; cbn [request_tail]; [exists w; split; [done|apply quiet_refl]|].
  destruct (Hc (socket, worker) ltac:(by left)) as [Hso Hwo]. cbn [fst snd] in *. destruct (GetStreamID_open w socket Hso) as [id ->]. cbn [obind].
  destruct (write_tower_quiet w worker id (FindTailSeqno f) _ Hwo eq_refl) as (w1 & b & -> & Hq & _). cbn [obind fst].
  destruct (IH w1) as (w2 & -> & Hq2).
  { intros c Hin. destruct (Hc c ltac:(by right)) as [[i Hi] ?]. split; [|done]. exists i. eapply lookup_weaken; [exact Hi|apply Hq]. }
  exists w2. split; [done|]. by eapply quiet_trans.
Qed.

Lemma connection_keys logid recipients : NoDup recipients -> NoDup (map fst (map (connection logid) recipients)).
Proof. intros Hnd. rewrite map_map. apply NoDup_fmap_2_strong; [|done]. intros x y _ _ [=]. done. Qed.

(** Bringing the tower subscriptions of a topic up to date never fails.  The
    towers are kept if they suit, and else replaced by subscriptions at
    [new_seqno], or at 0 when the only tower is asked for the tail. *)
Lemma UpdateTowerSubscriptionsAt_quiet w uuid topic new_seqno zero force : valid_uuid uuid -> routing_ok w ->
  towers_ok (control_tower_sockets_ w) (towers topic) ->
  exists w' ts, UpdateTowerSubscriptionsAt options myid hash env w uuid topic new_seqno zero force = Ok (w', set_towers ts topic) /\
    quiet (fun u => u = uuid) w w' /\ towers_ok (control_tower_sockets_ w') ts /\
    (let recipients := default [] (snd (GetControlTowers w (log_id topic))) in
     let seqno := if (length recipients =? 1)%nat && zero then 0 else new_seqno in
     (ts = towers topic /\ Forall (fun t => unsuitable seqno t = false) ts /\ (length recipients <= length ts)%nat) \/
     (Forall (tower_at seqno) ts /\
      ((forall es, tower_has_room env es = true) -> map tower_stream ts = map fst (map (connection (log_id topic)) recipients)))) /\
    (let recipients := default [] (snd (GetControlTowers w (log_id topic))) in
     let seqno := if (length recipients =? 1)%nat && zero then 0 else new_seqno in
     (same_requests w w' /\ (length recipients <= length ts)%nat) \/
     ((length ts < length recipients)%nat /\ exists wm, same_requests w wm /\ w' = ScheduleRequest wm uuid seqno zero true)).
Proof.
  intros Hu Hr Ht. unfold UpdateTowerSubscriptionsAt. destruct (GetControlTowers_quiet w (log_id topic)) as [Hq1 Hnd].
  destruct (GetControlTowers w (log_id topic)) as [w1 found] eqn:Eg. cbn [fst snd] in *.
  set (recipients := default [] found). assert (NoDup recipients) as Hrec.
  { unfold recipients. destruct found as [out|]; [by apply Hnd|apply NoDup_nil_2]. }
  set (seqno := if (length recipients =? 1)%nat && zero then 0 else new_seqno).
  set (latest := zero && negb (seqno =? 0)).
  set (resub := (length (towers topic) <? length recipients)%nat || existsb (unsuitable seqno) (towers topic) || force).
  destruct (open_towers_quiet w1 (log_id topic) recipients) as (Hq2 & Ec & Ho).
  destruct (if resub || latest then open_towers options hash env w1 (log_id topic) recipients else (w1, [])) as [w2 conns] eqn:E2.
  assert (quiet nowhere w w2 /\ (resub || latest = true -> conns = map (connection (log_id topic)) recipients) /\
    (forall c, c ∈ conns -> is_Some (control_tower_sockets_ w2 !! fst c) /\ worker_ok (snd c))) as (Hq & Econn & Hconn).
  { destruct (resub || latest).
    - rewrite E2 in *. cbn [fst snd] in *. split_and!; [by eapply quiet_trans|by intros _|]. intros c Hin. subst conns.
      apply list_elem_of_fmap in Hin as (tower & -> & Hin). split; [by apply Ho|]. apply GetTowerWorker_ok.
    - injection E2 as <- <-. split_and!; [done|done|by intros c ?%elem_of_nil]. }
  apply (towers_ok_more _ _ _ (q_sockets _ _ _ Hq)) in Ht as Ht2.
  assert (exists w3 ts, (if resub then w <~ unsubscribe_all options env w2 (towers topic);; subscribe_all options myid env w uuid (set_towers [] topic) seqno conns
    else Ok (w2, topic)) = Ok (w3, set_towers ts topic) /\ quiet nowhere w2 w3 /\ towers_ok (control_tower_sockets_ w3) ts /\
    (if resub then Forall (tower_at seqno) ts /\ ((forall es, tower_has_room env es = true) -> map tower_stream ts = map fst conns) else ts = towers topic))
    as (w3 & ts & E3 & Hq3 & Ht3 & Hts).
  { destruct resub eqn:Er; [|exists w2, (towers topic); split_and!; [by destruct topic|apply quiet_refl|done|done]].
    destruct (unsubscribe_all_quiet w2 (towers topic) Ht2) as (w2' & -> & Hqu). cbn [obind]. specialize (Econn eq_refl).
    destruct (subscribe_all_quiet w2' uuid (set_towers [] topic) seqno conns Hu) as (w3 & ts & -> & Hq3 & Ht3 & Hat & _ & Hall).
    - apply towers_ok_nil.
    - cbn. rewrite Econn. by apply connection_keys.
    - intros c Hin. destruct (Hconn c Hin) as [[i Hi] ?]. split; [|done]. exists i. eapply lookup_weaken; [exact Hi|apply Hqu].
    - cbn in *. exists w3, ts. split_and!; [by destruct topic|by eapply quiet_trans|done|done|done]. }
  rewrite E3. cbn [obind].
  assert (exists w4, (if latest then r <~ UUID_GetTopicID uuid;; request_tail options env w3
    (FindTailSeqno {| find_base := {| type_ := MessageType.mFindTailSeqno; tenantid_ := GuestTenant |}; find_namespace_id_ := fst r; find_topic_name_ := snd r |}) conns
    else Ok w3) = Ok w4 /\ quiet nowhere w3 w4) as (w4 & E4 & Hq4).
  { destruct latest; [|exists w3; split; [done|apply quiet_refl]]. destruct Hu as (ns & name & Hok & ->). rewrite UUID_roundtrip by done. cbn [obind fst snd].
    apply request_tail_quiet; [by eexists|]. intros c Hin. destruct (Hconn c Hin) as [[i Hi] ?]. split; [|done]. exists i. eapply lookup_weaken; [exact Hi|apply Hq3]. }
  rewrite E4. cbn [obind]. cbn [towers set_towers].
  assert (quiet nowhere w w4) as Hqw by (eapply quiet_trans; [exact Hq|by eapply quiet_trans]).
  assert (towers_ok (control_tower_sockets_ w4) ts) as Ht4 by (eapply towers_ok_more; [apply Hq4|done]).
  assert ((ts = towers topic /\ Forall (fun t => unsuitable seqno t = false) ts /\ (length recipients <= length ts)%nat) \/
     (Forall (tower_at seqno) ts /\
      ((forall es, tower_has_room env es = true) -> map tower_stream ts = map fst (map (connection (log_id topic)) recipients)))) as Hres.
  { destruct resub eqn:Er; [right; split; [apply Hts|]; intros Ha; rewrite <-(Econn eq_refl); by apply Hts|]. left. subst ts.
    unfold resub in Er. apply orb_false_iff in Er as [Er _]. apply orb_false_iff in Er as [Er1 Er2].
    split_and!; [done| |apply Nat.ltb_ge in Er1; lia]. apply Forall_forall. intros t Hin. destruct (unsuitable seqno t) eqn:Eu; [|done].
    exfalso. assert (existsb (unsuitable seqno) (towers topic) = true) as Hex; [|congruence]. apply existsb_exists. exists t. split; [by apply list_elem_of_In|done]. }
  pose proof (q_same _ _ _ Hqw (fun u (H : nowhere u) => H)) as Hsame.
  destruct (Nat.ltb_spec (length ts) (length recipients)) as [Hlt|Hge]; [|destruct resub].
  - eexists _, ts. split; [reflexivity|]. split_and!; [eapply quiet_trans; [by apply quiet_nowhere|apply ScheduleRequest_quiet]| |done|right; split; [done|by exists w4]].
    eapply towers_ok_more; [|exact Ht4]. apply (ScheduleRequest_quiet w4 uuid seqno zero true).
  - eexists _, ts. split; [reflexivity|]. split_and!; [eapply quiet_trans; apply quiet_nowhere; [exact Hqw|apply set_checkup_quiet]|done|done|left; by split].
  - exists w4, ts. split_and!; [done|by apply quiet_nowhere|done|done|left; by split].
Qed.
End Env.
End Towers.
