(* ===== verification/CopilotSteps.v ===== *)
(** * Copilot worker: what a step does to the subscriptions of clients

    [step_spec]: each subscription that a step does not concern is kept, and is
    sent updates that continue it without a hole; nobody else is sent anything.
    The lemmas show this of the loops that send to clients, and that steps
    compose. *)

From S2P Require Import Prelude Coding CodingFacts Messages Containers TopicManager TimeoutList CopilotWorker CopilotRequests CopilotTowers.

#[local] Open Scope outcome_scope.

Implicit Types (w : CopilotWorker) (u uuid : TopicUUID) (topic : TopicState) (s : Subscription) (es : list CopilotEvent).

(** ** Definitions *)

Definition key s : Z * Z := (client_stream s, client_sub_id s).

Definition is_update_to (k : Z * Z) (e : CopilotEvent) : option Message :=
  match e with
  | ClientWrite _ stream m =>
      match update_of m with
      | Some (id, _, _, _) => if decide (k = (stream, id)) then Some m else None
      | None => None
      end
  | _ => None
  end.

(** The updates that are sent to a subscription of a client. *)
Definition updates_to (k : Z * Z) es : list Message := omap (is_update_to k) es.

Lemma updates_to_app k es es' : updates_to k (es ++ es') = updates_to k es ++ updates_to k es'.
Proof. apply omap_app. Qed.

Lemma updates_to_silent k es : Forall silent es -> updates_to k es = [].
Proof. unfold updates_to. induction 1 as [|e es He _ IH]; [done|]. cbn. rewrite IH. destruct e; cbn in *; try done. by rewrite He. Qed.

Definition holds w u s : Prop := exists topic, topics_ w !! u = Some topic /\ s ∈ subscriptions topic.

(** Every update is for a subscription at the present place, and moves it to the
    place after it.  The subscription may stay where it is ([F]), when the queue
    that took the update was full. *)
Fixpoint chain (F : Prop) (P : option slice -> Z -> Z -> Prop) (ms : list Message) (from to : Z) : Prop :=
  match ms with
  | [] => to = from
  | m :: ms =>
      exists id prev cur p next, update_of m = Some (id, prev, cur, p) /\ takes from prev cur = true /\ P p prev cur /\
        (next = u64 (cur + 1) \/ F /\ next = from) /\ chain F P ms next to
  end.

Lemma chain_app F P ms ms' a b c : chain F P ms a b -> chain F P ms' b c -> chain F P (ms ++ ms') a c.
Proof.
  revert a. induction ms as [|m ms IH]; intros a Ha Hb; [cbn in Ha; by subst b|]. destruct Ha as (id & prev & cur & p & next & ? & ? & ? & ? & Hr).
  exists id, prev, cur, p, next. split_and!; [done|done|done|done|]. by apply IH.
Qed.

Section Spec.
Context (F : Prop) (P : TopicUUID -> option slice -> Z -> Z -> Prop).
Implicit Type (C D : Z * Z -> Prop).

(** A step may end the subscriptions in [C], and may begin those in [D]. *)
Record step_spec C D w w' es : Prop := {
  st_events : events w' = events w ++ es;
  st_kept : forall u s, holds w u s -> ~ C (key s) ->
    exists s', holds w' u s' /\ key s' = key s /\ chain F (P u) (updates_to (key s) es) (client_seqno s) (client_seqno s');
  st_old : forall u s, holds w' u s -> ~ D (key s) -> exists s', holds w u s' /\ key s' = key s;
  st_silent : forall k, ~ D k -> (forall u s, holds w u s -> key s <> k) -> updates_to k es = []
}.

Lemma step_refl C D w : step_spec C D w w [].
Proof. split; [by rewrite app_nil_r|intros u s Hs _; by exists s|intros u s Hs _; by exists s|done]. Qed.

Lemma step_trans C D w1 w2 w3 es es' : step_spec C D w1 w2 es -> step_spec C D w2 w3 es' -> step_spec C D w1 w3 (es ++ es').
Proof.
  intros [A1 A2 A3 A4] [B1 B2 B3 B4]. split.
  - by rewrite B1, A1, app_assoc.
  - intros u s Hs Hc. destruct (A2 u s Hs Hc) as (s2 & H2 & K2 & C2). destruct (B2 u s2 H2 ltac:(by rewrite K2)) as (s3 & H3 & K3 & C3).
    exists s3. split_and!; [done|congruence|]. rewrite updates_to_app. eapply chain_app; [done|]. by rewrite <-K2.
  - intros u s Hs Hc. destruct (B3 u s Hs Hc) as (s2 & H2 & K2). destruct (A3 u s2 H2 ltac:(by rewrite K2)) as (s1 & H1 & K1). exists s1. split; [done|congruence].
  - intros k Hk Hno. rewrite updates_to_app, (A4 k Hk Hno). cbn. apply B4; [done|]. intros u s Hs Hks.
    destruct (A3 u s Hs ltac:(by rewrite Hks)) as (s1 & H1 & K1). apply (Hno u s1 H1). congruence.
Qed.

(** No update is sent to the others, and the subscriptions are the same ones. *)
Lemma step_still C D w w' es : events w' = events w ++ es -> (forall k, ~ C k \/ ~ D k -> updates_to k es = []) ->
  (forall u s, ~ C (key s) -> holds w u s -> holds w' u s) -> (forall u s, ~ D (key s) -> holds w' u s -> holds w u s) -> step_spec C D w w' es.
Proof.
  intros He Hs Hh Hd. split; [done| | |].
  - intros u s Hus Hc. exists s. split_and!; [by apply Hh|done|]. rewrite Hs; [done|by left].
  - intros u s Hus Hc. exists s. split; [by apply Hd|done].
  - intros k Hk _. apply Hs. by right.
Qed.

Lemma step_silent C D w w' es : events w' = events w ++ es -> Forall silent es ->
  (forall u s, ~ C (key s) -> holds w u s -> holds w' u s) -> (forall u s, ~ D (key s) -> holds w' u s -> holds w u s) -> step_spec C D w w' es.
Proof. intros He Hs. apply step_still; [done|]. intros k _. by apply updates_to_silent. Qed.

Lemma step_same C D w w' es : events w' = events w ++ es -> Forall silent es -> (forall u s, holds w' u s <-> holds w u s) -> step_spec C D w w' es.
Proof. intros He Hs Hh. apply step_silent; [done|done|..]; intros u s _; apply Hh. Qed.

Lemma step_quiet C D U w w' : quiet U w w' -> exists es, step_spec C D w w' es.
Proof.
  intros Hq. destruct (q_events _ _ _ Hq) as (es & He & Hs). exists es. apply step_same; [done|done|]. intros u s. unfold holds. by rewrite (q_topics _ _ _ Hq).
Qed.
End Spec.

(** ** Sending to the subscriptions of a topic *)

Definition set_events es w : CopilotWorker :=
  {| topics_ := topics_ w; client_subscriptions_ := client_subscriptions_ w; control_tower_router_ := control_tower_router_ w;
     control_tower_cache_ := control_tower_cache_ w; control_tower_sockets_ := control_tower_sockets_ w;
     topic_checkup_list_ := topic_checkup_list_ w; next_sub_id_state_ := next_sub_id_state_ w;
     current_queue_ := current_queue_ w; pending_queue_ := pending_queue_ w; active_requests_ := active_requests_ w;
     next_request := next_request w; sub_to_topic_ := sub_to_topic_ w; events := es |}.

Lemma set_events_same w : set_events (events w) w = w.
Proof. by destruct w. Qed.

(** The subscriptions that satisfy [cond] are sent what [make] says, and are then
    at [next], unless the queue is full. *)
Inductive fanned (full : Prop) (cond : Subscription -> bool) (make : Subscription -> outcome Message) (next : Z) :
    list Subscription -> list Subscription -> list CopilotEvent -> Prop :=
| fanned_nil : fanned full cond make next [] [] []
| fanned_skip s subs subs' es : cond s = false -> fanned full cond make next subs subs' es -> fanned full cond make next (s :: subs) (s :: subs') es
| fanned_sent s subs subs' es m : cond s = true -> make s = Ok m -> fanned full cond make next subs subs' es ->
    fanned full cond make next (s :: subs) (set_client_seqno next s :: subs') (ClientWrite (client_worker s) (client_stream s) m :: es)
| fanned_full s subs subs' es m : full -> cond s = true -> make s = Ok m -> fanned full cond make next subs subs' es ->
    fanned full cond make next (s :: subs) (s :: subs') (ClientWrite (client_worker s) (client_stream s) m :: es).

Lemma fanned_keys {full} cond make next subs subs' es : fanned full cond make next subs subs' es -> map key subs' = map key subs.
Proof. induction 1; cbn [map]; [done|..]; by f_equal. Qed.

(** [make] addresses the subscription it is given. *)
Definition addressed (make : Subscription -> outcome Message) (prev cur : Z) (p : option slice) : Prop :=
  forall s m, make s = Ok m -> update_of m = Some (client_sub_id s, prev, cur, p).

Lemma fanned_other {full} cond make next prev cur p subs subs' es k : addressed make prev cur p -> fanned full cond make next subs subs' es ->
  k ∉ map key subs -> updates_to k es = [].
Proof.
  intros Ha. induction 1 as [|s subs subs' es _ _ IH|s subs subs' es m _ Hm _ IH|s subs subs' es m _ _ Hm _ IH]; [done|..]; cbn [map];
    intros [Hne Hk]%not_elem_of_cons; [by apply IH|..];
    unfold updates_to in *; cbn [omap list_omap is_update_to]; rewrite (Ha s m Hm), decide_False by done; by apply IH.
Qed.

Lemma fanned_member {full} cond make next prev cur p subs subs' es s : addressed make prev cur p -> fanned full cond make next subs subs' es ->
  NoDup (map key subs) -> s ∈ subs ->
  exists s', s' ∈ subs' /\ key s' = key s /\
    ((updates_to (key s) es = [] /\ client_seqno s' = client_seqno s) \/
     (exists m, updates_to (key s) es = [m] /\ cond s = true /\ make s = Ok m /\ (client_seqno s' = next \/ full /\ client_seqno s' = client_seqno s))).
Proof.
  assert (forall s0 m (es : list CopilotEvent), addressed make prev cur p -> make s0 = Ok m ->
    updates_to (key s0) es = [] -> updates_to (key s0) (ClientWrite (client_worker s0) (client_stream s0) m :: es) = [m]) as Hhead.
  { intros s0 m es0 Ha Hm He. unfold updates_to in *. cbn [omap list_omap is_update_to]. rewrite (Ha s0 m Hm), decide_True by done. by rewrite He. }
  assert (forall s0 m (es : list CopilotEvent) k, addressed make prev cur p -> make s0 = Ok m -> key s0 <> k ->
    updates_to k (ClientWrite (client_worker s0) (client_stream s0) m :: es) = updates_to k es) as Htail.
  { intros s0 m es0 k Ha Hm Hk. unfold updates_to. cbn [omap list_omap is_update_to]. rewrite (Ha s0 m Hm), decide_False by (by intros ->). done. }
  intros Ha. induction 1 as [|s0 subs subs' es Hc Hf IH|s0 subs subs' es m Hc Hm Hf IH|s0 subs subs' es m Hfull Hc Hm Hf IH]; intros Hnd Hin; [by apply elem_of_nil in Hin|..];
    cbn [map] in Hnd; apply NoDup_cons in Hnd as [Hx Hnd]; (apply elem_of_cons in Hin as [->|Hin];
      [|destruct (IH Hnd Hin) as (s' & Hs' & Hk & Hr); exists s'; split_and!; [by right|done|];
        try (rewrite Htail by (done || (intros Heq; apply Hx; rewrite Heq; by apply list_elem_of_fmap_2))); exact Hr]).
  - exists s0. split_and!; [by left|done|]. left. split; [|done]. by eapply fanned_other.
  - exists (set_client_seqno next s0). split_and!; [by left|done|]. right. exists m. split_and!; [|done|done|by left]. apply Hhead; [done|done|]. by eapply fanned_other.
  - exists s0. split_and!; [by left|done|]. right. exists m. split_and!; [|done|done|by right]. apply Hhead; [done|done|]. by eapply fanned_other.
Qed.

Lemma fanned_old {full} cond make next subs subs' es s' : fanned full cond make next subs subs' es -> s' ∈ subs' ->
  exists s, s ∈ subs /\ key s = key s' /\ client_worker s = client_worker s'.
Proof.
  induction 1 as [|s0 subs subs' es _ Hf IH|s0 subs subs' es m _ _ Hf IH|s0 subs subs' es m _ _ _ Hf IH]; intros Hin; [by apply elem_of_nil in Hin|..];
    (apply elem_of_cons in Hin as [->|Hin]; [exists s0; split; [by left|done]|destruct (IH Hin) as (s & ? & ?); exists s; split; [by right|done]]).
Qed.

Section Loops.
Context (options : CopilotOptions) (env : CopilotEnv).

(** A queue to a client may be full. *)
Definition client_full : Prop := exists es, client_has_room env es = false.

Lemma write_client_spec w worker stream m bytes : worker_ok options worker -> Serialize m [] = Ok bytes ->
  write_client options env w worker stream m = Ok (set_events (events w ++ [ClientWrite worker stream m]) w, client_has_room env (events w)).
Proof. intros Hw Hs. unfold write_client. rewrite Hs, (worker_okb _ _ Hw). done. Qed.

Definition ready (cond : Subscription -> bool) (make : Subscription -> outcome Message) s : Prop :=
  worker_ok options (client_worker s) /\ (cond s = true -> exists m bytes, make s = Ok m /\ Serialize m [] = Ok bytes).

Lemma deliver_loop_fanned w subs prev seqno make : Forall (ready (fun s => takes (client_seqno s) prev seqno) make) subs ->
  exists subs' sent es, deliver_loop options env w subs prev seqno make = Ok (set_events (events w ++ es) w, subs', sent) /\
    fanned client_full (fun s => takes (client_seqno s) prev seqno) make (u64 (seqno + 1)) subs subs' es.
Proof.
  intros H. revert w. induction H as [|s subs [Hw Hm] _ IH]; intros w; cbn [deliver_loop].
  { exists [], 0, []. rewrite app_nil_r, set_events_same. split; [done|constructor]. }
  destruct (takes (client_seqno s) prev seqno) eqn:Et.
  - destruct (Hm eq_refl) as (m & bytes & Em & Hb). rewrite Em. cbn [obind]. rewrite (write_client_spec w _ _ _ _ Hw Hb). cbn [obind].
    destruct (IH (set_events (events w ++ [ClientWrite (client_worker s) (client_stream s) m]) w)) as (subs' & sent & es & -> & Hf). cbn [obind events set_events].
    rewrite <-app_assoc. destruct (client_has_room env (events w)) eqn:Ea; eexists _, _, (_ :: es); (split; [reflexivity|]); [by econstructor|]. apply fanned_full; [by eexists|done|done|done].
  - destruct (IH w) as (subs' & sent & es & -> & Hf). cbn [obind]. exists (s :: subs'), sent, es. split; [done|by constructor].
Qed.

Lemma tail_loop_fanned w subs next_seqno :
  Forall (ready (fun s => client_seqno s =? 0) (fun s => NewDeliverGap (client_tenant s) (client_sub_id s) kBenign 0 (u64 (next_seqno - 1)))) subs ->
  exists subs' sent es, tail_loop options env w subs next_seqno = Ok (set_events (events w ++ es) w, subs', sent) /\
    fanned client_full (fun s => client_seqno s =? 0) (fun s => NewDeliverGap (client_tenant s) (client_sub_id s) kBenign 0 (u64 (next_seqno - 1)))
      next_seqno subs subs' es.
Proof.
  intros H. revert w. induction H as [|s subs [Hw Hm] _ IH]; intros w; cbn [tail_loop].
  { exists [], 0, []. rewrite app_nil_r, set_events_same. split; [done|constructor]. }
  destruct (client_seqno s =? 0) eqn:Et.
  - destruct (Hm eq_refl) as (m & bytes & Em & Hb). rewrite Em. cbn [obind]. rewrite (write_client_spec w _ _ _ _ Hw Hb). cbn [obind].
    destruct (IH (set_events (events w ++ [ClientWrite (client_worker s) (client_stream s) m]) w)) as (subs' & sent & es & -> & Hf). cbn [obind events set_events].
    rewrite <-app_assoc. destruct (client_has_room env (events w)) eqn:Ea; eexists _, _, (_ :: es); (split; [reflexivity|]); [by econstructor|]. apply fanned_full; [by eexists|done|done|done].
  - destruct (IH w) as (subs' & sent & es & -> & Hf). cbn [obind]. exists (s :: subs'), sent, es. split; [done|by constructor].
Qed.
End Loops.
