(* ===== verification/CopilotHandlers.v ===== *)
(** * Copilot worker: the handlers

    The invariant of a worker, and for each handler that it does not fail, keeps
    the invariant, and is a step as [step_spec] says. *)

From S2P Require Import Prelude Coding CodingFacts Messages Containers TopicManager TimeoutList CopilotWorker CopilotRequests CopilotTowers CopilotSteps.

#[local] Open Scope outcome_scope.

Implicit Types (w : CopilotWorker) (u uuid : TopicUUID) (topic : TopicState) (s : Subscription) (es : list CopilotEvent).

(** The topic that a client subscribed to under an ID. *)
Definition owner (clients : gmap Z (gmap Z TopicInfo)) (k : Z * Z) : option TopicUUID :=
  (fun i => NewTopicUUID (info_namespace_id i) (info_topic_name i)) <$> SubscriptionMap.Find clients (fst k) (snd k).

Section Handlers.
Context (options : CopilotOptions) (myid : Z) (hash : Z -> Z).
(** The event loop each stream of a client belongs to. *)
Context (worker_of : Z -> Z).
(** What is known of the updates that towers send. *)
Context (F : Prop) (P : TopicUUID -> option slice -> Z -> Z -> Prop).
Hypothesis Hworkers : 0 < num_workers options.
Hypothesis HP0 : forall u cur, P u None 0 cur.

Record topic_state_ok (sockets : gmap (Z * Z) Z) (clients : gmap Z (gmap Z TopicInfo)) uuid topic : Prop := {
  ts_uuid : valid_uuid uuid;
  ts_towers : towers_ok options sockets (towers topic);
  ts_keys : NoDup (map key (subscriptions topic));
  ts_worker : forall s, s ∈ subscriptions topic -> worker_ok options (client_worker s) /\ client_worker s = worker_of (client_stream s);
  ts_owner : forall s, s ∈ subscriptions topic -> owner clients (key s) = Some uuid;
  ts_some : subscriptions topic <> []
}.

Record copilot_ok w : Prop := {
  ok_requests : requests_ok w;
  ok_routing : routing_ok w;
  ok_names : names_ok w;
  ok_active : forall u, is_Some (active_requests_ w !! u) -> is_Some (topics_ w !! u);
  ok_topic : forall u topic, topics_ w !! u = Some topic -> topic_state_ok (control_tower_sockets_ w) (client_subscriptions_ w) u topic
}.

Lemma topic_ok_more sockets sockets' clients u topic : sockets ⊆ sockets' -> topic_state_ok sockets clients u topic -> topic_state_ok sockets' clients u topic.
Proof. intros Hs [H1 H2 H3 H4 H5 H6]. split; try done. by eapply towers_ok_more. Qed.

Lemma topic_ok_set sockets clients u topic topic' : subscriptions topic' = subscriptions topic -> towers_ok options sockets (towers topic') ->
  topic_state_ok sockets clients u topic -> topic_state_ok sockets clients u topic'.
Proof. intros Hs Ht [H1 H2 H3 H4 H5 H6]. by split; rewrite ?Hs. Qed.

Lemma topic_ok_fanned sockets clients u topic topic' {full} cond make next es : fanned full cond make next (subscriptions topic) (subscriptions topic') es ->
  towers_ok options sockets (towers topic') -> topic_state_ok sockets clients u topic -> topic_state_ok sockets clients u topic'.
Proof.
  intros Hf Ht [H1 H2 H3 H4 H5 H6]. split; [done|done| | | |].
  - by rewrite (fanned_keys _ _ _ _ _ _ Hf).
  - intros s Hs. destruct (fanned_old _ _ _ _ _ _ _ Hf Hs) as (s0 & Hs0 & [= Hk1 Hk2] & <-). rewrite <-Hk1. by apply H4.
  - intros s Hs. destruct (fanned_old _ _ _ _ _ _ _ Hf Hs) as (s0 & Hs0 & <- & _). by apply H5.
  - intros Hn. apply H6. pose proof (fanned_keys _ _ _ _ _ _ Hf) as Hk. rewrite Hn in Hk. cbn in Hk. by destruct (subscriptions topic).
Qed.

(** Storing a topic after steps on its behalf. *)
Lemma put_ok w w' u topic : copilot_ok w -> quiet (fun x => x = u) w w' -> topic_state_ok (control_tower_sockets_ w') (client_subscriptions_ w') u topic ->
  copilot_ok (put_topic u (w', topic)).
Proof.
  intros [H1 H2 H3 H4 H5] [Q1 Q2 Q3 Q4 Q5 Q6 Q7 Q8 _ _] Ht. unfold put_topic. cbn [fst snd]. split; cbn [active_requests_ set_topics topics_ control_tower_sockets_ client_subscriptions_].
  - apply (requests_ok_same w'); [done..|]. auto.
  - apply Q6 in H2. exact H2.
  - apply Q5 in H3. exact H3.
  - intros x Hx. rewrite lookup_insert_is_Some. destruct (decide (u = x)) as [|Hne]; [by left|right]. split; [done|].
    destruct (Q8 H1 x Hx) as [Hx'|Hx']; [|congruence]. rewrite Q1. by apply H4.
  - intros x tp Hx. apply lookup_insert_Some in Hx as [[<- <-]|[Hne Hx]]; [done|]. rewrite Q1 in Hx. rewrite Q2. eapply topic_ok_more; [exact Q3|by apply H5].
Qed.

Lemma quiet_ok w w' : copilot_ok w -> quiet nowhere w w' -> copilot_ok w'.
Proof.
  intros [H1 H2 H3 H4 H5] [Q1 Q2 Q3 Q4 Q5 Q6 Q7 Q8 _ _]. split; [auto|auto|auto| |].
  - intros x Hx. destruct (Q8 H1 x Hx) as [Hx'|[]]. rewrite Q1. by apply H4.
  - intros x tp Hx. rewrite Q1 in Hx. rewrite Q2. eapply topic_ok_more; [exact Q3|by apply H5].
Qed.

Lemma events_ok w es : copilot_ok w -> copilot_ok (set_events (events w ++ es) w).
Proof. intros [H1 H2 H3 H4 H5]. split; try done; [by apply (requests_ok_same w)|]. by apply (names_ok_more w _ es). Qed.

Lemma owner_unique w u u' s s' : copilot_ok w -> holds w u s -> holds w u' s' -> key s = key s' -> u = u'.
Proof.
  intros Hok (t & Ht & Hs) (t' & Ht' & Hs') Hk. pose proof (ts_owner _ _ _ _ (ok_topic w Hok _ _ Ht) s Hs) as H1.
  pose proof (ts_owner _ _ _ _ (ok_topic w Hok _ _ Ht') s' Hs') as H2. congruence.
Qed.

Definition result (C D : Z * Z -> Prop) w (r : outcome CopilotWorker) : Prop :=
  exists w' es, r = Ok w' /\ copilot_ok w' /\ step_spec F P C D w w' es.

Lemma result_same (C D : Z * Z -> Prop) w : copilot_ok w -> result C D w (Ok w).
Proof. intros H. exists w, []. split_and!; [done|done|apply step_refl]. Qed.

Lemma result_quiet (C D : Z * Z -> Prop) w w' : copilot_ok w -> quiet nowhere w w' -> result C D w (Ok w').
Proof. intros H Hq. destruct (step_quiet F P C D _ _ _ Hq) as [es Hes]. exists w', es. split_and!; [done|by eapply quiet_ok|done]. Qed.

Lemma result_bind (C D : Z * Z -> Prop) w (m : outcome CopilotWorker) (f : CopilotWorker -> outcome CopilotWorker) : result C D w m ->
  (forall w', copilot_ok w' -> result C D w' (f w')) -> result C D w (obind m f).
Proof.
  intros (w1 & es1 & -> & H1 & S1) Hf. cbn. destruct (Hf w1 H1) as (w2 & es2 & -> & H2 & S2). exists w2, (es1 ++ es2). split_and!; [done|done|by eapply step_trans].
Qed.

(** Sending to the subscriptions of a topic, then quiet steps, then storing it. *)
Lemma fan_result C D w w' u topic topic' {full} cond make next prev cur p es : (full -> F) -> copilot_ok w -> topics_ w !! u = Some topic ->
  addressed make prev cur p -> fanned full cond make next (subscriptions topic) (subscriptions topic') es ->
  (forall s, s ∈ subscriptions topic -> cond s = true -> takes (client_seqno s) prev cur = true) -> next = u64 (cur + 1) -> P u p prev cur ->
  quiet (fun x => x = u) (set_events (events w ++ es) w) w' -> towers_ok options (control_tower_sockets_ w') (towers topic') ->
  result C D w (Ok (put_topic u (w', topic'))).
Proof.
  intros Hfull Hok Ht Ha Hf Hc Hn HP Hq Htw. destruct (q_events _ _ _ Hq) as (es' & He' & Hs'). pose proof (q_topics _ _ _ Hq) as Hto. cbn in He', Hto.
  pose proof (ok_topic w Hok u topic Ht) as Hts. eexists _, (es ++ es'). split; [reflexivity|]. split.
  { eapply put_ok; [by apply (events_ok w es)|exact Hq|]. rewrite (q_clients _ _ _ Hq). cbn. eapply topic_ok_fanned; [exact Hf|done|].
    eapply topic_ok_more; [|exact Hts]. exact (q_sockets _ _ _ Hq). }
  assert (forall x s, holds (put_topic u (w', topic')) x s <-> if decide (x = u) then s ∈ subscriptions topic' else holds w x s) as Hh.
  { intros x s. unfold holds, put_topic. cbn. rewrite Hto. destruct (decide (x = u)) as [->|Hne].
    - rewrite lookup_insert_eq. split; [by intros (? & [= <-] & ?)|by eauto].
    - by rewrite lookup_insert_ne. }
  split; [unfold put_topic; cbn; by rewrite He', app_assoc| | |].
  - intros x s Hs _. rewrite updates_to_app, (updates_to_silent _ es') by done. rewrite app_nil_r. destruct (decide (x = u)) as [->|Hne].
    + destruct Hs as (tp & Htp & Hs). rewrite Ht in Htp. injection Htp as <-.
      destruct (fanned_member _ _ _ _ _ _ _ _ _ s Ha Hf (ts_keys _ _ _ _ Hts) Hs) as (s' & Hs1 & Hk & [[-> Hq1]|(m & -> & Hcs & Hm & Hn1)]);
        exists s'; (split_and!; [apply Hh; by rewrite decide_True|done|]); [by cbn|].
      cbn. exists (client_sub_id s), prev, cur, p, (client_seqno s'). split_and!; [by apply Ha|by apply Hc|done| |done].
      rewrite <-Hn. destruct Hn1 as [|[Hfl ?]]; [by left|right; by split; [apply Hfull|]].
    + exists s. split_and!; [apply Hh; by rewrite decide_False|done|]. rewrite (fanned_other _ _ _ _ _ _ _ _ _ (key s) Ha Hf); [done|].
      intros Hin. apply list_elem_of_fmap in Hin as (s0 & Hk & Hs0). apply Hne. eapply (owner_unique w); [done|exact Hs| |exact Hk]. by exists topic.
  - intros x s Hs _. apply Hh in Hs. destruct (decide (x = u)) as [->|Hne]; [|by exists s].
    destruct (fanned_old _ _ _ _ _ _ _ Hf Hs) as (s0 & Hs0 & Hk & _). exists s0. split; [by exists topic|done].
  - intros k _ Hno. rewrite updates_to_app, (updates_to_silent _ es') by done. rewrite app_nil_r. apply (fanned_other _ _ _ _ _ _ _ _ _ k Ha Hf).
    intros Hin. apply list_elem_of_fmap in Hin as (s0 & -> & Hs0). apply (Hno u s0); [by exists topic|done].
Qed.

Section Env.
Context (env : CopilotEnv).
Hypothesis HF : client_full env -> F.

(** ** Updates from the towers *)

(** A tower moves past an update that it was due to send. *)
Definition advanced (prev next : Z) (t t' : Tower) : Prop :=
  t' = t \/ (prev <= tower_next_seqno t <= next /\ (prev = 0 <-> tower_next_seqno t = 0) /\ t' = set_tower_seqno (u64 (next + 1)) t).

Lemma AdvanceTowers_ok w topic prev next origin sub_id : towers_ok options (control_tower_sockets_ w) (towers topic) ->
  exists ts, AdvanceTowers w topic prev next origin sub_id = Ok (set_towers ts topic) /\ towers_ok options (control_tower_sockets_ w) ts /\
    Forall2 (advanced prev next) (towers topic) ts.
Proof.
  intros Ht. unfold AdvanceTowers.
  assert (exists ts, AdvanceTowers_loop w (towers topic) prev next origin sub_id = Ok ts /\ Forall2 (advanced prev next) (towers topic) ts) as (ts & -> & Hadv).
  { destruct Ht as [_ Ho _]. induction (towers topic) as [|t l IH]; cbn [AdvanceTowers_loop]; [exists []; by split|].
    destruct (GetStreamID_open w (tower_stream t) ltac:(apply Ho; by left)) as [id ->]. cbn [obind].
    assert (forall l, Forall2 (advanced prev next) l l) as Hrefl by (intros l'; induction l'; constructor; [by left|done]). destruct (_ && _).
    - destruct (_ && _ && _ && _) eqn:E; eexists; (split; [reflexivity|]); [|apply Hrefl]. constructor; [|apply Hrefl]. right. split_and!; [lia|lia|lia|done].
    - destruct IH as (ts & -> & Hs); [intros t' Ht'; apply Ho; by right|]. cbn [obind]. eexists. split; [reflexivity|]. constructor; [by left|done]. }
  cbn [obind]. exists ts. split_and!; [done| |done]. eapply towers_ok_same; [..|exact Ht].
  - clear Ht. induction Hadv as [|t t' l l' Ha _ IH]; [done|]. cbn [map]. rewrite IH. by destruct Ha as [->|(_ & _ & ->)].
  - clear Ht. induction Hadv as [|t t' l l' Ha _ IH]; [done|]. cbn [map]. rewrite IH. by destruct Ha as [->|(_ & _ & ->)].
Qed.

Lemma takes_le at_seqno prev seqno : takes at_seqno prev seqno = true -> prev <= at_seqno <= seqno.
Proof. unfold takes. lia. Qed.

Lemma addressed_gap type prev cur : addressed (fun s => NewDeliverGap (client_tenant s) (client_sub_id s) type prev cur) prev cur None.
Proof.
  intros s m Hm. unfold NewDeliverGap, deliver_header in Hm. destruct (prev <=? cur); [|done]. cbn in Hm. by injection Hm as <-.
Qed.

Lemma addressed_data id payload prev cur : addressed (fun s => NewDeliverData (client_tenant s) (client_sub_id s) id payload prev cur) prev cur (Some payload).
Proof.
  intros s m Hm. unfold NewDeliverData, deliver_header in Hm. destruct (prev <=? cur); [|done]. cbn in Hm. by injection Hm as <-.
Qed.

(** What a tower sends is true of the topic it was asked for. *)
Definition tower_honest w origin sub_id (p : option slice) (prev cur : Z) : Prop := forall worker m,
  TowerWrite worker origin (Subscribe m) ∈ events w -> sub_sub_id_ m = sub_id -> P (NewTopicUUID (sub_namespace_id_ m) (sub_topic_name_ m)) p prev cur.

Lemma tower_honest_P w origin sub_id p prev cur u : names_ok w -> tower_honest w origin sub_id p prev cur ->
  SubscriptionMap.Find (sub_to_topic_ w) origin sub_id = Some u -> P u p prev cur.
Proof. intros Hn Hh Hf. destruct (Hn _ _ _ Hf) as (k & m & Hin & Hid & ->). by eapply Hh. Qed.

Lemma ProcessData_result C D w msg origin : copilot_ok w ->
  tower_honest w origin (deliver_sub_id_ (ddata_deliver msg)) (Some (ddata_payload_ msg)) (deliver_seqno_prev_ (ddata_deliver msg)) (deliver_seqno_ (ddata_deliver msg)) ->
  result C D w (ProcessData options env w msg origin).
Proof.
  intros Hok Hh. unfold ProcessData. set (sub_id := deliver_sub_id_ _) in *. set (prev := deliver_seqno_prev_ _) in *. set (cur := deliver_seqno_ _) in *.
  destruct (SubscriptionMap.Find _ origin sub_id) as [u|] eqn:Ef; [|by apply result_same]. destruct (topics_ w !! u) as [topic|] eqn:Et; [|by apply result_same].
  pose proof (ok_topic w Hok u topic Et) as Hts. destruct (AdvanceTowers_ok w topic prev cur origin sub_id (ts_towers _ _ _ _ Hts)) as (ts & -> & Htw & _).
  cbn [obind subscriptions set_towers]. set (make := fun s => _).
  destruct (deliver_loop_fanned options env w (subscriptions topic) prev cur make) as (subs' & sent & es & -> & Hf).
  { apply Forall_forall. intros s Hs. split; [by apply (ts_worker _ _ _ _ Hts)|]. intros Htk%takes_le. apply NewDeliverData_ok. lia. }
  cbn [obind]. eapply (fan_result C D w _ u topic); [exact HF|done|done|apply addressed_data|exact Hf|done|done|by eapply tower_honest_P; [apply Hok|exact Hh|]|apply quiet_refl|done].
Qed.

Lemma UpdateTowerSubscriptions_quiet w u topic force : valid_uuid u -> routing_ok w -> towers_ok options (control_tower_sockets_ w) (towers topic) ->
  exists w' ts, UpdateTowerSubscriptions options myid hash env w u topic force = Ok (w', set_towers ts topic) /\ quiet (fun x => x = u) w w' /\
    towers_ok options (control_tower_sockets_ w') ts.
Proof.
  intros Hu Hr Ht. unfold UpdateTowerSubscriptions. destruct (FindLowestSequenceNumber topic) as [seqno zero].
  destruct (UpdateTowerSubscriptionsAt_quiet options myid hash Hworkers env w u topic seqno zero force Hu Hr Ht) as (w' & ts & ? & ? & ? & _). by exists w', ts.
Qed.

Lemma ProcessGap_result C D w msg origin : copilot_ok w ->
  tower_honest w origin (deliver_sub_id_ (dgap_deliver msg)) None (deliver_seqno_prev_ (dgap_deliver msg)) (deliver_seqno_ (dgap_deliver msg)) ->
  result C D w (ProcessGap options myid hash env w msg origin).
Proof.
  intros Hok Hh. unfold ProcessGap. set (sub_id := deliver_sub_id_ _) in *. set (prev := deliver_seqno_prev_ _) in *. set (cur := deliver_seqno_ _) in *.
  destruct (SubscriptionMap.Find _ origin sub_id) as [u|] eqn:Ef; [|by apply result_same]. destruct (topics_ w !! u) as [topic|] eqn:Et; [|by apply result_same].
  pose proof (ok_topic w Hok u topic Et) as Hts. destruct (AdvanceTowers_ok w topic prev cur origin sub_id (ts_towers _ _ _ _ Hts)) as (ts & -> & Htw & _).
  cbn [obind subscriptions set_towers]. set (make := fun s => _).
  destruct (deliver_loop_fanned options env w (subscriptions topic) prev cur make) as (subs' & sent & es & -> & Hf).
  { apply Forall_forall. intros s Hs. split; [by apply (ts_worker _ _ _ _ Hts)|]. intros Htk%takes_le. apply NewDeliverGap_ok. lia. }
  cbn [obind]. set (w1 := set_events _ w). set (tp := set_sent _ _ _).
  assert (exists w' ts', (if prev =? 0 then UpdateTowerSubscriptions options myid hash env w1 u tp false else Ok (w1, tp)) = Ok (w', set_towers ts' tp) /\
    quiet (fun x => x = u) w1 w' /\ towers_ok options (control_tower_sockets_ w') ts') as (w' & ts' & -> & Hq & Htw').
  { destruct (prev =? 0); [|exists w1, ts; split_and!; [done|apply quiet_refl|done]]. apply UpdateTowerSubscriptions_quiet; [by apply Hts|apply Hok|done]. }
  cbn [obind]. eapply (fan_result C D w _ u topic); [exact HF|done|done|apply addressed_gap|exact Hf|done|done|by eapply tower_honest_P; [apply Hok|exact Hh|]|exact Hq|done].
Qed.

Lemma advance_zero_towers_ok w ts next origin : towers_ok options (control_tower_sockets_ w) ts ->
  exists ts', advance_zero_towers w ts next origin = Ok ts' /\ towers_ok options (control_tower_sockets_ w) ts'.
Proof.
  intros Ht. assert (exists ts', advance_zero_towers w ts next origin = Ok ts' /\ map tower_stream ts' = map tower_stream ts /\ map tower_worker ts' = map tower_worker ts)
    as (ts' & -> & Hs & Hw); [|exists ts'; split; [done|by eapply towers_ok_same]].
  destruct Ht as [_ Ho _]. induction ts as [|t l IH]; cbn [advance_zero_towers]; [by exists []|].
  destruct (GetStreamID_open w (tower_stream t) ltac:(apply Ho; by left)) as [id ->]. cbn [obind].
  destruct IH as (ts' & -> & Hs & Hw); [intros t' Ht'; apply Ho; by right|]. cbn [obind]. eexists. split; [reflexivity|]. cbn [map]. rewrite Hs, Hw. by destruct (_ && _).
Qed.

Lemma ProcessTailSeqno_result C D w msg origin : copilot_ok w -> fits 64 (tail_seqno_ msg) -> result C D w (ProcessTailSeqno options myid hash env w msg origin).
Proof.
  intros Hok Hfit. unfold ProcessTailSeqno. set (u := NewTopicUUID _ _). destruct (topics_ w !! u) as [topic|] eqn:Et; [|by apply result_same].
  pose proof (ok_topic w Hok u topic Et) as Hts. set (next := tail_seqno_ msg) in *.
  destruct (advance_zero_towers_ok w (towers topic) next origin (ts_towers _ _ _ _ Hts)) as (ts & -> & Htw). cbn [obind].
  assert (0 <= u64 (next - 1)) as Hpos by (apply (wrap_fits 64); lia).
  destruct (tail_loop_fanned options env w (subscriptions topic) next) as (subs' & sent & es & -> & Hf).
  { apply Forall_forall. intros s Hs. split; [by apply (ts_worker _ _ _ _ Hts)|]. intros _. by apply NewDeliverGap_ok. }
  cbn [obind]. set (w1 := set_events _ w). set (tp := set_sent _ _ _).
  destruct (UpdateTowerSubscriptions_quiet w1 u tp false) as (w' & ts' & -> & Hq & Htw'); [by apply Hts|apply Hok|done|].
  cbn [obind]. eapply (fan_result C D w _ u topic); [exact HF|done|done|apply addressed_gap|exact Hf| | |apply HP0|exact Hq|done].
  - intros s _ Hz. unfold takes. lia.
  - unfold wrap, fits in *. change (2 ^ 64) with 18446744073709551616 in *. Z.to_euclidean_division_equations; lia.
Qed.
End Env.
End Handlers.
