(* ===== verification/CopilotClients.v ===== *)
(** * Copilot worker: requests of clients

    Subscribing and unsubscribing, rejected topics, and streams that end. *)

From S2P Require Import Prelude Coding CodingFacts Messages Containers TopicManager TimeoutList CopilotWorker CopilotRequests CopilotTowers CopilotSteps CopilotHandlers.

#[local] Open Scope outcome_scope.

Implicit Types (w : CopilotWorker) (u uuid : TopicUUID) (topic : TopicState) (s : Subscription) (es : list CopilotEvent) (k : Z * Z).

(** ** The topics of clients *)

Lemma owner_same clients stream k : owner (<[stream := default ∅ (clients !! stream)]> clients) k = owner clients k.
Proof.
  unfold owner, SubscriptionMap.Find. f_equal. destruct (decide (stream = fst k)) as [->|Hne]; [|by rewrite lookup_insert_ne].
  rewrite lookup_insert_eq. by destruct (clients !! fst k).
Qed.

Lemma owner_delete clients stream sub_id k :
  owner (<[stream := delete sub_id (default ∅ (clients !! stream))]> clients) k = if decide (k = (stream, sub_id)) then None else owner clients k.
Proof.
  destruct k as [st id]. unfold owner, SubscriptionMap.Find. cbn [fst snd]. destruct (decide (stream = st)) as [->|Hne].
  - rewrite lookup_insert_eq. destruct (decide (id = sub_id)) as [->|Hi].
    + by rewrite lookup_delete_eq, decide_True.
    + rewrite lookup_delete_ne by done. rewrite decide_False by congruence. by destruct (clients !! st).
  - rewrite lookup_insert_ne by done. rewrite decide_False by congruence. done.
Qed.

Lemma owner_Insert clients stream sub_id info k : owner (SubscriptionMap.Insert clients stream sub_id info) k =
  if decide (k = (stream, sub_id)) then Some (default (NewTopicUUID (info_namespace_id info) (info_topic_name info)) (owner clients k)) else owner clients k.
Proof.
  destruct k as [st id]. unfold owner. cbn [fst snd]. rewrite SubscriptionMap.Find_Insert. destruct (decide ((st, id) = (stream, sub_id))) as [[= -> ->]|Hne].
  - rewrite decide_True by done. cbn. by destruct (SubscriptionMap.Find clients stream sub_id).
  - by rewrite decide_False by naive_solver.
Qed.

Definition nobody : Z * Z -> Prop := fun _ => False.

Section Clients.
Context (options : CopilotOptions) (myid : Z) (hash : Z -> Z) (worker_of : Z -> Z).
Context (F : Prop) (P : TopicUUID -> option slice -> Z -> Z -> Prop).
Hypothesis Hworkers : 0 < num_workers options.
Hypothesis HP0 : forall u cur, P u None 0 cur.

#[local] Abbreviation ok := (copilot_ok options worker_of).
#[local] Abbreviation result := (result options worker_of F P).
#[local] Abbreviation topic_state_ok := (topic_state_ok options worker_of).

Section Env.
Context (env : CopilotEnv).

Lemma RollcallWrite_quiet w sub_id tenant uuid b logid worker origin : quiet nowhere w (RollcallWrite options env w sub_id tenant uuid b logid worker origin).
Proof.
  unfold RollcallWrite. destruct (rollcall_enabled options); [|apply quiet_refl].
  destruct (_ && _); [eapply quiet_trans|]; by apply push_event_quiet.
Qed.

Lemma result_then_quiet C D w w1 w2 : result C D w (Ok w1) -> quiet nowhere w1 w2 -> result C D w (Ok w2).
Proof.
  intros (w' & es & [= <-] & Hok & Hs) Hq. destruct (step_quiet F P C D _ _ _ Hq) as [es' Hs']. exists w2, (es ++ es').
  split_and!; [done|by eapply quiet_ok|by eapply step_trans].
Qed.

Lemma other_owner w u s k uuid : ok w -> holds w u s -> owner (client_subscriptions_ w) k = Some uuid -> u <> uuid -> key s <> k.
Proof.
  intros Hok (tp & Ht & Hs) Ho Hne <-. apply Hne. pose proof (ts_owner _ _ _ _ _ _ (ok_topic _ _ w Hok _ _ Ht) s Hs). congruence.
Qed.

(** ** Subscribing *)

Lemma update_existing_spec subs stream sub_id seqno worker : (forall s, s ∈ subs -> client_worker s = worker_of (client_stream s)) -> worker = worker_of stream ->
  exists r, update_existing subs stream sub_id seqno worker = Ok r /\
    match r with
    | None => (stream, sub_id) ∉ map key subs
    | Some subs' => (stream, sub_id) ∈ map key subs /\ map key subs' = map key subs /\ map client_worker subs' = map client_worker subs /\ (NoDup (map key subs) -> forall s, key s <> (stream, sub_id) -> s ∈ subs' <-> s ∈ subs)
    end.
Proof.
  intros Hw ->. induction subs as [|s subs IH]; cbn [update_existing]; [exists None; split; [done|apply not_elem_of_nil]|].
  destruct ((client_stream s =? stream) && (client_sub_id s =? sub_id)) eqn:E.
  - assert (key s = (stream, sub_id)) as Hk by (unfold key; f_equal; lia).
    rewrite (Hw s ltac:(by left)). assert (client_stream s = stream) as -> by lia. rewrite Z.eqb_refl. cbn [assert_that obind]. eexists. split; [reflexivity|].
    split_and!; [cbn [map]; rewrite <-Hk; by left|done|done|]. intros _ s' Hne. rewrite !elem_of_cons. split; (intros [->|Hin]; [|by right]); [|by destruct Hne]. by destruct Hne.
  - destruct IH as (r & -> & Hr); [intros s' Hs'; apply Hw; by right|]. cbn [obind]. eexists. split; [reflexivity|]. destruct r as [subs'|]; cbn [fmap option_fmap option_map].
    + destruct Hr as (H0 & H1 & H2 & H3). split_and!; [cbn [map]; by right|cbn [map]; by rewrite H1|cbn [map]; by rewrite H2|]. intros [_ Hnd]%NoDup_cons s' Hne. rewrite !elem_of_cons, H3 by done. done.
    + cbn [map]. apply not_elem_of_cons. split; [|done]. unfold key. intros [= -> ->]. lia.
Qed.

Lemma subscribe_topic_ok sockets clients uuid topic sub subs' : valid_uuid uuid -> towers_ok options sockets (towers topic) ->
  (subscriptions topic = [] \/ topic_state_ok sockets clients uuid topic) -> owner clients (key sub) = Some uuid ->
  worker_ok options (client_worker sub) -> client_worker sub = worker_of (client_stream sub) ->
  (exists r, subs' = default (subscriptions topic ++ [sub]) r /\
    match r with
    | None => key sub ∉ map key (subscriptions topic)
    | Some l => key sub ∈ map key (subscriptions topic) /\ map key l = map key (subscriptions topic) /\ map client_worker l = map client_worker (subscriptions topic) /\
        (NoDup (map key (subscriptions topic)) -> forall s, key s <> key sub -> s ∈ l <-> s ∈ subscriptions topic)
    end) ->
  topic_state_ok sockets clients uuid (set_subs subs' topic) /\ (forall s, key s <> key sub -> s ∈ subs' <-> s ∈ subscriptions topic).
Proof.
  intros Hu Ht Hts Ho Hwo Hwk (r & -> & Hr).
  assert (NoDup (map key (subscriptions topic)) /\ (forall s, s ∈ subscriptions topic -> (worker_ok options (client_worker s) /\ client_worker s = worker_of (client_stream s)) /\
    owner clients (key s) = Some uuid)) as [Hnd Hall].
  { destruct Hts as [->|[H1 H2 H3 H4 H5 H6]]; [split; [apply NoDup_nil_2|by intros s ?%elem_of_nil]|]. split; [done|]. intros s Hs. split; [by apply H4|by apply H5]. }
  destruct r as [l|]; cbn [default from_option id].
  - destruct Hr as (Hex & Hk & Hw & Hm). specialize (Hm Hnd). split; [|done].
    assert (forall s, s ∈ l -> exists s0, s0 ∈ subscriptions topic /\ key s0 = key s /\ client_worker s0 = client_worker s) as Hold.
    { intros s (i & Hi)%list_elem_of_lookup. assert (map key l !! i = Some (key s)) as Hki by (rewrite list_lookup_fmap, Hi; done).
      assert (map client_worker l !! i = Some (client_worker s)) as Hwi by (rewrite list_lookup_fmap, Hi; done).
      rewrite Hk in Hki. rewrite Hw in Hwi. rewrite list_lookup_fmap in Hki. rewrite list_lookup_fmap in Hwi. destruct (subscriptions topic !! i) as [s0|] eqn:Es; [|done].
      cbn in Hki, Hwi. injection Hki as Hk1 Hk2. injection Hwi as Hwi. exists s0. split_and!; [by eapply list_elem_of_lookup_2|by unfold key; rewrite Hk1, Hk2|done]. }
    split; cbn [subscriptions towers set_subs]; [done|done|by rewrite Hk| | |].
    + intros s Hs. destruct (Hold s Hs) as (s0 & Hs0 & [= Hk1 _] & <-). rewrite <-Hk1. by apply Hall.
    + intros s Hs. destruct (Hold s Hs) as (s0 & Hs0 & <- & _). by apply Hall.
    + intros ->. rewrite <-Hk in Hex. by apply elem_of_nil in Hex.
  - split.
    + split; cbn [subscriptions towers set_subs]; [done|done| | | |by intros []%app_nil].
      * rewrite map_app. apply NoDup_app. split_and!; [done| |apply NoDup_singleton]. by intros x Hx ->%list_elem_of_singleton.
      * intros s [Hs| ->%list_elem_of_singleton]%elem_of_app; [by apply Hall|done].
      * intros s [Hs| ->%list_elem_of_singleton]%elem_of_app; [by apply Hall|done].
    + intros s Hne. rewrite elem_of_app, list_elem_of_singleton. split; [|by left]. by intros [Hin| ->].
Qed.

Lemma clients_ok w clients : ok w -> (forall u s, holds w u s -> owner clients (key s) = owner (client_subscriptions_ w) (key s)) ->
  ok (set_client_subscriptions clients w).
Proof.
  intros [H1 H2 H3 H4 H5] Ho. split; try done; [by apply (requests_ok_same w)|]. cbn. intros u topic Ht. destruct (H5 u topic Ht) as [T1 T2 T3 T4 T5 T6].
  split; try done. intros s Hs. rewrite (Ho u s); [by apply T5|]. by exists topic.
Qed.

(** A client may use an ID again only for the same topic, and stays on its
    event loop. *)
Definition subscribe_ok w (ns name : slice) (sub_id worker subscriber : Z) : Prop :=
  topic_ok (ns, name) /\ worker_ok options worker /\ worker = worker_of subscriber /\
  forall u, owner (client_subscriptions_ w) (subscriber, sub_id) = Some u -> u = NewTopicUUID ns name.

Lemma ProcessSubscribe_result w tenant ns name start_seqno sub_id logid worker subscriber : ok w -> subscribe_ok w ns name sub_id worker subscriber ->
  result (fun k => k = (subscriber, sub_id)) (fun k => k = (subscriber, sub_id)) w (ProcessSubscribe options myid hash env w tenant ns name start_seqno sub_id logid worker subscriber).
Proof.
  intros Hok (Hn & Hwo & Hwk & Hown). unfold ProcessSubscribe. set (u := NewTopicUUID ns name) in *.
  set (clients := SubscriptionMap.Insert _ _ _ _). set (w0 := set_client_subscriptions clients w).
  assert (forall k, owner clients k = if decide (k = (subscriber, sub_id)) then Some u else owner (client_subscriptions_ w) k) as Ho.
  { intros k. unfold clients. rewrite owner_Insert. destruct (decide (k = (subscriber, sub_id))) as [->|]; [|done]. cbn [info_namespace_id info_topic_name]. fold u.
    destruct (owner (client_subscriptions_ w) (subscriber, sub_id)) as [u'|] eqn:E; cbn; [|done]. by rewrite (Hown u' eq_refl). }
  assert (ok w0) as Hok0.
  { apply clients_ok; [done|]. intros x s Hs. rewrite Ho. destruct (decide (key s = (subscriber, sub_id))) as [Hk|]; [|done]. rewrite Hk.
    destruct Hs as (tp & Htp & Hs). pose proof (ts_owner _ _ _ _ _ _ (ok_topic _ _ w Hok _ _ Htp) s Hs) as Hos. rewrite Hk in Hos. by rewrite (Hown x Hos) in Hos. }
  assert (valid_uuid u) as Hu by (by exists ns, name).
  set (topic := default (NewTopicState logid) (topics_ w0 !! u)).
  assert (towers_ok options (control_tower_sockets_ w) (towers topic) /\ (subscriptions topic = [] \/ topic_state_ok (control_tower_sockets_ w) clients u topic) /\
    (forall s, s ∈ subscriptions topic <-> holds w u s)) as (Htw & Hts & Hsub).
  { unfold topic, holds. cbn [topics_ w0 set_client_subscriptions]. destruct (topics_ w !! u) as [tp|] eqn:Et; cbn.
    - pose proof (ok_topic _ _ w0 Hok0 u tp Et) as Hts. split_and!; [apply Hts|by right|]. intros s. split; [by eauto|by intros (? & [= <-] & ?)].
    - split_and!; [apply towers_ok_nil|by left|]. intros s. split; [by intros ?%elem_of_nil|by intros (? & ? & _)]. }
  assert (exists w1 tp seqno skip es, match (if start_seqno =? 0 then known_tail topic else None) with
       | Some tower =>
           m <~ NewDeliverGap tenant sub_id kBenign 0 (u64 (tower_next_seqno tower - 1)) ;;
           r <~ write_client options env w0 worker subscriber m ;;
           Ok (fst r, set_sent (records_sent topic) (u32 (gaps_sent topic + 1)) topic, tower_next_seqno tower, true)
       | None => Ok (w0, topic, start_seqno, false)
       end = Ok (w1, tp, seqno, skip) /\ w1 = set_events (events w0 ++ es) w0 /\ (forall k, k <> (subscriber, sub_id) -> updates_to k es = []) /\
       towers tp = towers topic /\ subscriptions tp = subscriptions topic) as (w1 & tp & seqno & skip & es & -> & Ew1 & Hes & Etw & Esub).
  { destruct (if start_seqno =? 0 then known_tail topic else None) as [tower|].
    2: { exists w0, topic, start_seqno, false, []. rewrite app_nil_r, set_events_same. by split_and!. }
    destruct (NewDeliverGap_ok tenant sub_id kBenign 0 (u64 (tower_next_seqno tower - 1))) as (m & bytes & Em & Hb); [apply (wrap_fits 64); lia|].
    rewrite Em. cbn [obind]. rewrite (write_client_spec options env w0 worker subscriber m bytes Hwo Hb). cbn [obind fst].
    eexists _, _, _, _, _. split; [reflexivity|]. split_and!; [reflexivity| |done|done]. intros k Hk. unfold updates_to. cbn.
    assert (update_of m = Some (sub_id, 0, u64 (tower_next_seqno tower - 1), None)) as ->.
    { unfold NewDeliverGap, deliver_header in Em. destruct (0 <=? _); [|done]. cbn in Em. by injection Em as <-. }
    by rewrite decide_False. }
  cbn [obind]. rewrite Esub.
  destruct (update_existing_spec (subscriptions topic) subscriber sub_id seqno worker) as (r & -> & Hr); [|done|].
  { intros s Hs. destruct Hts as [Hnil|Hts]; [rewrite Hnil in Hs; by apply elem_of_nil in Hs|]. by apply (ts_worker _ _ _ _ _ _ Hts). }
  cbn [obind]. set (new := {| client_stream := subscriber; client_seqno := seqno; client_worker := worker; client_tenant := tenant; client_sub_id := sub_id |}).
  set (tp' := set_subs _ tp).
  assert (topic_state_ok (control_tower_sockets_ w) clients u tp' /\ (forall s, key s <> (subscriber, sub_id) -> s ∈ subscriptions tp' <-> s ∈ subscriptions topic)) as [Htp Hmem].
  { destruct (subscribe_topic_ok (control_tower_sockets_ w) clients u topic new (default (subscriptions topic ++ [new]) r) Hu Htw Hts) as [H1 H2];
      [rewrite Ho; by rewrite decide_True|done|done|by exists r|]. split; [|exact H2]. eapply topic_ok_set; [|unfold tp'; cbn [towers set_subs]; rewrite Etw; exact Htw|exact H1]. done. }
  assert (ok w1) as Hok1 by (rewrite Ew1; by apply events_ok).
  assert (exists w2 ts, (if skip then Ok (w1, tp') else UpdateTowerSubscriptions options myid hash env w1 u tp' false) = Ok (w2, set_towers ts tp') /\
    quiet (fun x => x = u) w1 w2 /\ towers_ok options (control_tower_sockets_ w2) ts) as (w2 & ts & -> & Hq & Htw2).
  { destruct skip; [exists w1, (towers tp'); split_and!; [by destruct tp'|apply quiet_refl|]; rewrite Ew1; apply Htp|].
    apply UpdateTowerSubscriptions_quiet; [done|done|apply Hok1|]. rewrite Ew1. apply Htp. }
  cbn [obind]. eapply result_then_quiet; [|apply RollcallWrite_quiet]. pose proof (q_topics _ _ _ Hq) as Qt. pose proof (q_clients _ _ _ Hq) as Qc.
  destruct (q_events _ _ _ Hq) as (es' & Qe & Qs). rewrite Ew1 in Qt, Qc, Qe. cbn in Qt, Qc, Qe.
  assert (forall x s, key s <> (subscriber, sub_id) -> holds (put_topic u (w2, set_towers ts tp')) x s <-> holds w x s) as Hh.
  { intros x s Hne. unfold holds at 1, put_topic. cbn. rewrite Qt. destruct (decide (x = u)) as [->|Hxu].
    - rewrite lookup_insert_eq. rewrite <-Hsub, <-Hmem by done. split; [by intros (? & [= <-] & ?)|by eauto].
    - by rewrite lookup_insert_ne. }
  eexists _, (es ++ es'). split; [reflexivity|]. split.
  - eapply put_ok; [exact Hok1|exact Hq|]. rewrite Qc. eapply topic_ok_set; [|exact Htw2|eapply topic_ok_more; [|exact Htp]]; [done|].
    pose proof (q_sockets _ _ _ Hq) as Hsk. by rewrite Ew1 in Hsk.
  - apply step_still.
    + unfold put_topic. cbn. by rewrite Qe, app_assoc.
    + intros k Hk. rewrite updates_to_app, Hes, updates_to_silent; [done|done|]. by destruct Hk.
    + intros x s Hne. by apply Hh.
    + intros x s Hne. by apply Hh.
Qed.

(** ** Unsubscribing *)

(** Dropping a topic: its request is cancelled, its check-ups end. *)
Lemma drop_topic_ok w uuid clients : requests_ok w -> routing_ok w -> names_ok w ->
  (forall x, is_Some (active_requests_ w !! x) -> is_Some (topics_ w !! x)) -> clients = client_subscriptions_ w ->
  (forall x topic, x <> uuid -> topics_ w !! x = Some topic -> topic_state_ok (control_tower_sockets_ w) clients x topic) ->
  exists w', (w <~ CancelResubscribeRequest (set_topics (delete uuid (topics_ w)) w) uuid ;;
              Ok (set_checkup (TimeoutList.Erase uuid (topic_checkup_list_ w)) w)) = Ok w' /\ ok w' /\ events w' = events w /\
    topics_ w' = delete uuid (topics_ w) /\ client_subscriptions_ w' = clients.
Proof.
  intros H1 H2 H3 H4 -> H5. destruct (CancelResubscribeRequest_ok (set_topics (delete uuid (topics_ w)) w) uuid) as (w' & -> & Hr & Ha & Ew); [by apply (requests_ok_same w)|].
  cbn [obind]. eexists. split; [reflexivity|]. rewrite Ew in Hr, Ha |- *. cbn in *. split_and!; [|done|done|done]. split; cbn.
  - by eapply requests_ok_same; [..|exact Hr].
  - done.
  - done.
  - intros x Hx. rewrite Ha in Hx. apply lookup_delete_is_Some in Hx as [Hne Hx]. apply lookup_delete_is_Some. split; [done|by apply H4].
  - intros x topic Hx. apply lookup_delete_Some in Hx as [Hne Hx]. by apply H5.
Qed.

Lemma RemoveSubscription_spec w tenant sub_id subscriber worker : ok w ->
  exists w' es, RemoveSubscription options env w tenant sub_id subscriber worker = Ok w' /\ ok w' /\ events w' = events w ++ es /\ Forall silent es /\
    (forall u s, holds w' u s <-> holds w u s /\ key s <> (subscriber, sub_id)) /\
    (forall k, owner (client_subscriptions_ w') k = if decide (k = (subscriber, sub_id)) then None else owner (client_subscriptions_ w) k).
Proof.
  intros Hok. unfold RemoveSubscription. set (subs := default ∅ _).
  assert (SubscriptionMap.Find (client_subscriptions_ w) subscriber sub_id = subs !! sub_id) as Ef.
  { unfold SubscriptionMap.Find, subs. by destruct (client_subscriptions_ w !! subscriber). }
  destruct (subs !! sub_id) as [info|] eqn:Ei.
  2: { assert (forall u s, holds w u s -> key s <> (subscriber, sub_id)) as Hno.
       { intros u s (tp & Htp & Hs) Hk. pose proof (ts_owner _ _ _ _ _ _ (ok_topic _ _ w Hok _ _ Htp) s Hs) as Hos. rewrite Hk in Hos. unfold owner in Hos. cbn in Hos. by rewrite Ef in Hos. }
       eexists _, []. split; [reflexivity|]. rewrite app_nil_r. split_and!; [|done|constructor| |].
       - apply clients_ok; [done|]. intros u s _. apply owner_same.
       - intros u s. split; [|by intros []]. intros Hs. split; [done|by eapply Hno].
       - intros k. cbn. unfold subs. rewrite owner_same. destruct (decide (k = (subscriber, sub_id))) as [->|]; [|done]. unfold owner. cbn. by rewrite Ef. }
  set (u := NewTopicUUID (info_namespace_id info) (info_topic_name info)). set (clients := <[subscriber := _]> _). set (w1 := set_client_subscriptions clients w).
  assert (owner (client_subscriptions_ w) (subscriber, sub_id) = Some u) as Hown by (unfold owner; cbn; by rewrite Ef).
  assert (forall k, owner clients k = if decide (k = (subscriber, sub_id)) then None else owner (client_subscriptions_ w) k) as Ho by (intros k; apply owner_delete).
  assert (forall x topic, x <> u -> topics_ w !! x = Some topic -> topic_state_ok (control_tower_sockets_ w) clients x topic) as Hothers.
  { intros x tp Hne Htp. destruct (ok_topic _ _ w Hok _ _ Htp) as [T1 T2 T3 T4 T5 T6]. split; try done. intros s Hs. rewrite Ho, decide_False; [by apply T5|].
    eapply other_owner; [done| |exact Hown|done]. by exists tp. }
  cbn [topics_ w1 set_client_subscriptions]. destruct (topics_ w !! u) as [topic|] eqn:Et.
  2: { assert (forall x s, holds w x s -> key s <> (subscriber, sub_id)) as Hno.
       { intros x s Hs. eapply other_owner; [done|exact Hs|exact Hown|]. intros ->. destruct Hs as (tp & Htp & _). congruence. }
       exists w1, []. rewrite app_nil_r. split_and!; [done| |done|constructor| |done].
       - apply clients_ok; [done|]. intros x s Hs. rewrite Ho, decide_False; [done|by eapply Hno].
       - intros x s. split; [|by intros []]. intros Hs. split; [done|by eapply Hno]. }
  pose proof (ok_topic _ _ w Hok _ _ Et) as Hts. set (rest := filter _ (subscriptions topic)). cbn [subscriptions set_subs].
  assert (forall s, s ∈ rest <-> s ∈ subscriptions topic /\ key s <> (subscriber, sub_id)) as Hrest.
  { intros s. unfold rest. rewrite list_elem_of_filter. unfold key. naive_solver. }
  assert (forall x s, x <> u -> holds w x s <-> holds w x s /\ key s <> (subscriber, sub_id)) as Hoth.
  { intros x s Hne. split; [|by intros []]. intros Hs. split; [done|]. by eapply other_owner. }
  destruct rest as [|s0 rest'] eqn:Erest.
  - destruct (unsubscribe_all_quiet options env w1 (towers topic)) as (w2 & E2 & Hq2); [apply Hts|]. unfold UnsubscribeControlTowers. cbn [towers set_subs].
    rewrite E2. cbn [obind]. set (w3 := RollcallWrite options env w2 sub_id tenant u false (info_logid info) worker subscriber).
    assert (quiet nowhere w1 w3) as Hq by (eapply quiet_trans; [exact Hq2|apply RollcallWrite_quiet]). destruct Hq as [Q1 Q2 Q3 (es & Q4 & Q4') Q5 Q6 Q7 Q8 _ _].
    destruct Hok as [H1 H2 H3 H4 H5]. assert (requests_ok w1) as Hr1 by (by apply (requests_ok_same w)).
    destruct (drop_topic_ok w3 u clients) as (w' & -> & Hok' & He & Htp & Hc); [by apply Q7|by apply Q6|by apply Q5| |by rewrite Q2| |].
    + intros x Hx. destruct (Q8 Hr1 x Hx) as [Hx'|[]]. rewrite Q1. by apply H4.
    + intros x tp Hne Hx. rewrite Q1 in Hx. eapply topic_ok_more; [exact Q3|by apply Hothers].
    + exists w', es. split_and!; [done|done|by rewrite He, Q4|done| |by rewrite Hc].
      intros x s. unfold holds at 1. rewrite Htp, Q1. cbn. destruct (decide (x = u)) as [->|Hne].
      * rewrite lookup_delete_eq. split; [by intros (? & ? & _)|]. intros [(tp & Htp' & Hs) Hk]. rewrite Et in Htp'. injection Htp' as <-.
        assert (s ∈ []) as Hnil by (by apply Hrest). by apply elem_of_nil in Hnil.
      * rewrite lookup_delete_ne by done. by apply Hoth.
  - assert (ok (put_topic u (w1, set_subs (s0 :: rest') topic))) as Hokp.
    { destruct Hok as [H1 H2 H3 H4 H5]. destruct Hts as [T1 T2 T3 T4 T5 T6]. unfold put_topic. cbn. split; [by apply (requests_ok_same w)|done|done| |]; cbn.
      - intros x Hx. rewrite lookup_insert_is_Some. destruct (decide (u = x)); [by left|right]. split; [done|by apply H4].
      - intros x tp Hx. apply lookup_insert_Some in Hx as [[<- <-]|[Hne Hx]]; [|by apply Hothers]. split; cbn; [done|done| | | |done].
        + change (NoDup (map key (s0 :: rest'))). rewrite <-Erest. eapply sublist_NoDup; [exact T3|]. apply fmap_sublist, sublist_filter.
        + intros s Hs. apply T4. by apply Hrest.
        + intros s Hs. apply Hrest in Hs as [Hs Hk]. rewrite Ho, decide_False by done. by apply T5. }
    pose proof (RollcallWrite_quiet (put_topic u (w1, set_subs (s0 :: rest') topic)) sub_id tenant u false (info_logid info) worker subscriber) as Hq.
    destruct (q_events _ _ _ Hq) as (es & Qe & Qs). eexists _, es. split; [reflexivity|]. split_and!; [by eapply quiet_ok|done|done| |].
    + intros x s. unfold holds at 1. rewrite (q_topics _ _ _ Hq). cbn. destruct (decide (x = u)) as [->|Hne].
      * rewrite lookup_insert_eq. split.
        -- intros (? & [= <-] & Hs). cbn in Hs. apply Hrest in Hs as [Hs Hk]. split; [by exists topic|done].
        -- intros [(tp & Htp & Hs) Hk]. rewrite Et in Htp. injection Htp as <-. eexists. split; [done|]. by apply Hrest.
      * rewrite lookup_insert_ne by done. by apply Hoth.
    + intros k. rewrite (q_clients _ _ _ Hq). cbn. apply Ho.
Qed.

Lemma RemoveSubscription_result w tenant sub_id subscriber worker : ok w ->
  result (fun k => k = (subscriber, sub_id)) nobody w (RemoveSubscription options env w tenant sub_id subscriber worker).
Proof.
  intros Hok. destruct (RemoveSubscription_spec w tenant sub_id subscriber worker Hok) as (w' & es & E & Hok' & He & Hs & Hh & _). exists w', es.
  split_and!; [done|done|]. apply step_silent; [done|done|..]; intros u s Hk; rewrite Hh; tauto.
Qed.

(** ** Rejected topics *)

Lemma write_unsubscribe w worker stream tenant sub_id reason : worker_ok options worker ->
  exists w' b, write_client options env w worker stream (NewUnsubscribe tenant sub_id reason) = Ok (w', b) /\ quiet nowhere w w'.
Proof.
  intros Hw. rewrite (write_client_spec options env w worker stream (NewUnsubscribe tenant sub_id reason) _ Hw eq_refl).
  eexists _, _. split; [reflexivity|]. by apply push_event_quiet.
Qed.

Lemma reject_loop_quiet w uuid logid subs : (forall s, s ∈ subs -> worker_ok options (client_worker s)) ->
  exists w', reject_loop options env w uuid logid subs = Ok w' /\ quiet nowhere w w'.
Proof.
  revert w. induction subs as [|s subs IH]; intros w Hw; cbn [reject_loop]; [exists w; split; [done|apply quiet_refl]|]. set (w1 := RollcallWrite _ _ _ _ _ _ _ _ _ _).
  destruct (write_unsubscribe w1 (client_worker s) (client_stream s) (client_tenant s) (client_sub_id s) kInvalid) as (w2 & b & -> & Hq2); [apply Hw; by left|].
  cbn [obind fst]. destruct (IH w2) as (w3 & -> & Hq3); [intros s' Hs'; apply Hw; by right|]. exists w3. split; [done|].
  eapply quiet_trans; [apply RollcallWrite_quiet|]. by eapply quiet_trans.
Qed.

(** The clients of the topic that a tower subscription is for. *)
Definition on_topic_of w (origin sub_id : Z) k : Prop :=
  exists u s, SubscriptionMap.Find (sub_to_topic_ w) origin sub_id = Some u /\ holds w u s /\ key s = k.

Lemma HandleInvalidSubscription_result w origin sub_id : ok w ->
  result (on_topic_of w origin sub_id) nobody w (HandleInvalidSubscription options env w origin sub_id).
Proof.
  intros Hok. unfold HandleInvalidSubscription. destruct (SubscriptionMap.Find _ origin sub_id) as [u|] eqn:Ef; [|by apply result_same].
  destruct (topics_ w !! u) as [topic|] eqn:Et; [|by apply result_same]. pose proof (ok_topic _ _ w Hok _ _ Et) as Hts.
  destruct (reject_loop_quiet w u (log_id topic) (subscriptions topic)) as (w1 & -> & Hq1); [intros s Hs; by apply Hts|]. cbn [obind].
  destruct (unsubscribe_all_quiet options env w1 (towers topic)) as (w2 & E2 & Hq2); [eapply towers_ok_more; [apply Hq1|apply Hts]|].
  unfold UnsubscribeControlTowers. rewrite E2. cbn [obind]. assert (quiet nowhere w w2) as Hq by (by eapply quiet_trans).
  destruct (quiet_ok options worker_of w w2 Hok Hq) as [H1 H2 H3 H4 H5]. destruct (drop_topic_ok w2 u (client_subscriptions_ w2)) as (w' & -> & Hok' & He & Htp & _);
    [done|done|done|done|done|by intros x tp _; apply H5|].
  destruct (q_events _ _ _ Hq) as (es & Qe & Qs). exists w', es. split_and!; [done|done|]. apply step_silent; [by rewrite He, Qe|done|..]; intros x s Hn (tp & Htp' & Hs).
  - exists tp. rewrite Htp, (q_topics _ _ _ Hq). split; [|done]. apply lookup_delete_Some. split; [|done]. intros <-. destruct Hn. exists u, s.
    split_and!; [done|by exists tp|done].
  - exists tp. rewrite Htp, (q_topics _ _ _ Hq) in Htp'. by apply lookup_delete_Some in Htp' as [_ Htp'].
Qed.

(** ** Clients that leave *)

Lemma remove_all_spec w tenant origin ids : ok w ->
  exists w' es, remove_all options env w tenant origin ids = Ok w' /\ ok w' /\ events w' = events w ++ es /\ Forall silent es /\
    (forall u s, holds w' u s <-> holds w u s /\ ~ (client_stream s = origin /\ client_sub_id s ∈ ids)).
Proof.
  revert w. induction ids as [|id ids IH]; intros w Hok; cbn [remove_all].
  { exists w, []. rewrite app_nil_r. split_and!; [done|done|done|constructor|]. intros u s. split; [|by intros []]. intros Hs. split; [done|]. by intros [_ ?%elem_of_nil]. }
  destruct (RemoveSubscription_spec w tenant id origin 0 Hok) as (w1 & es1 & -> & Hok1 & He1 & Hs1 & Hh1 & _). cbn [obind].
  destruct (IH w1 Hok1) as (w2 & es2 & -> & Hok2 & He2 & Hs2 & Hh2). exists w2, (es1 ++ es2). split_and!; [done|done|by rewrite He2, He1, app_assoc|by apply Forall_app|].
  intros u s. rewrite Hh2, Hh1, elem_of_cons. unfold key. naive_solver.
Qed.

Lemma client_goodbye_result w goodbye origin : ok w -> origin_type_ goodbye = OriginClient ->
  result (fun k => fst k = origin) nobody w (ProcessGoodbye options env w goodbye origin) /\
  forall w' u s, ProcessGoodbye options env w goodbye origin = Ok w' -> holds w' u s -> client_stream s <> origin.
Proof.
  intros Hok Ho. unfold ProcessGoodbye. rewrite Ho. change (OriginClient =? OriginClient) with true. cbn iota.
  destruct (client_subscriptions_ w !! origin) as [subs|] eqn:Ec.
  2: { split; [by apply result_same|]. intros w' u s [= <-] (tp & Htp & Hs) Hst. pose proof (ts_owner _ _ _ _ _ _ (ok_topic _ _ w Hok _ _ Htp) s Hs) as Hos.
       unfold owner, SubscriptionMap.Find in Hos. cbn in Hos. by rewrite Hst, Ec in Hos. }
  destruct (remove_all_spec w (tenantid_ (goodbye_base goodbye)) origin (map_to_list subs).*1 Hok) as (w1 & es & -> & Hok1 & He & Hs & Hh). cbn [obind].
  assert (forall u s, holds w1 u s -> client_stream s <> origin) as Hgone.
  { intros u s [(tp & Htp & Hin) Hn]%Hh Hst. apply Hn. split; [done|]. pose proof (ts_owner _ _ _ _ _ _ (ok_topic _ _ w Hok _ _ Htp) s Hin) as Hos.
    unfold owner, SubscriptionMap.Find in Hos. cbn in Hos. rewrite Hst, Ec in Hos. destruct (subs !! client_sub_id s) as [info|] eqn:Ei; [|done].
    apply list_elem_of_fmap. exists (client_sub_id s, info). split; [done|]. by apply elem_of_map_to_list. }
  split.
  - eexists _, es. split; [reflexivity|]. split.
    + apply clients_ok; [done|]. intros u s Hs'. unfold owner, SubscriptionMap.Find. cbn. rewrite lookup_delete_ne; [done|]. intros Heq. by apply (Hgone u s Hs').
    + apply step_silent; [done|done|..]; intros u s Hk Hs'; [|by apply Hh in Hs' as [Hs' _]]. apply Hh. split; [done|]. by intros [].
  - intros w' u s [= <-] Hs'. exact (Hgone u s Hs').
Qed.

Lemma ProcessUnsubscribe_result w tenant sub_id reason worker subscriber : ok w ->
  result (fun k => if reason =? kRequested then k = (subscriber, sub_id) else on_topic_of w subscriber sub_id k) nobody w
    (ProcessUnsubscribe options env w tenant sub_id reason worker subscriber).
Proof.
  intros Hok. unfold ProcessUnsubscribe. destruct (reason =? kRequested); [by apply RemoveSubscription_result|].
  destruct (reason =? kInvalid); [by apply HandleInvalidSubscription_result|by apply result_same].
Qed.

Lemma RollcallFailed_result w worker origin tenant sub_id : ok w -> worker_ok options worker ->
  result (fun k => k = (origin, sub_id)) nobody w (RollcallFailed options env w worker origin tenant sub_id).
Proof.
  intros Hok Hw. unfold RollcallFailed. destruct (ProcessUnsubscribe_result w tenant sub_id kRequested worker origin Hok) as (w1 & es & -> & Hok1 & Hs). cbn [obind].
  destruct (write_unsubscribe w1 worker origin tenant sub_id kRequested Hw) as (w2 & b & -> & Hq). cbn [obind fst].
  apply (result_then_quiet _ _ w w1); [|done]. by exists w1, es.
Qed.
End Env.
End Clients.
