(* ===== verification/CopilotTimer.v ===== *)
(** * Copilot worker: towers that leave, and the timer *)

From S2P Require Import Prelude Coding CodingFacts Messages Containers TopicManager TimeoutList CopilotWorker CopilotRequests CopilotTowers CopilotSteps CopilotHandlers CopilotClients.

#[local] Open Scope outcome_scope.

Implicit Types (w : CopilotWorker) (u uuid : TopicUUID) (topic : TopicState) (s : Subscription) (es : list CopilotEvent) (t : Tower).

Lemma ScheduleResubscribeRequest_quiet w u topic :
  quiet (fun x => x = u) w (ScheduleResubscribeRequest w u topic) /\
  control_tower_sockets_ (ScheduleResubscribeRequest w u topic) = control_tower_sockets_ w /\ events (ScheduleResubscribeRequest w u topic) = events w /\
  sub_to_topic_ (ScheduleResubscribeRequest w u topic) = sub_to_topic_ w.
Proof.
  unfold ScheduleResubscribeRequest. destruct (FindLowestSequenceNumber topic) as [seqno zero]. split; [apply ScheduleRequest_quiet|].
  unfold ScheduleRequest. by destruct (HasActiveResubscribeRequest w u).
Qed.

Lemma forget_stream_quiet w stream : quiet nowhere w (set_sub_to_topic (SubscriptionMap.RemoveStream (sub_to_topic_ w) stream) w).
Proof. apply set_sub_to_topic_quiet. intros st i u Hf. rewrite SubscriptionMap.Find_RemoveStream in Hf. by destruct (decide (st = stream)). Qed.

Section Timer.
Context (options : CopilotOptions) (myid : Z) (hash : Z -> Z) (worker_of : Z -> Z).
Context (F : Prop) (P : TopicUUID -> option slice -> Z -> Z -> Prop).
Hypothesis Hworkers : 0 < num_workers options.

#[local] Abbreviation ok := (copilot_ok options worker_of).
#[local] Abbreviation result := (result options worker_of F P).

Lemma holds_put w w' u topic topic' x s : topics_ w' = topics_ w -> topics_ w !! u = Some topic -> subscriptions topic' = subscriptions topic ->
  holds (put_topic u (w', topic')) x s <-> holds w x s.
Proof.
  intros Ht Hu Hs. unfold holds, put_topic. cbn. rewrite Ht. destruct (decide (x = u)) as [->|Hne]; [|by rewrite lookup_insert_ne].
  rewrite lookup_insert_eq, Hu. split; intros (? & [= <-] & Hin); eexists; (split; [done|]); congruence.
Qed.

(** A topic whose towers alone have changed. *)
Lemma put_towers_result C D w w' u topic ts : ok w -> topics_ w !! u = Some topic -> quiet (fun x => x = u) w w' ->
  towers_ok options (control_tower_sockets_ w') ts -> result C D w (Ok (put_topic u (w', set_towers ts topic))).
Proof.
  intros Hok Ht Hq Htw. destruct (q_events _ _ _ Hq) as (es & Qe & Qs). eexists _, es. split; [reflexivity|]. split.
  - eapply put_ok; [exact Hok|exact Hq|]. rewrite (q_clients _ _ _ Hq). eapply topic_ok_set; [|exact Htw|eapply topic_ok_more; [apply Hq|by apply Hok]]. done.
  - apply step_same; [done|done|]. intros x s. by apply (holds_put w w' u topic); [apply Hq|..].
Qed.

(** ** Towers that leave *)

Lemma close_towers_spec w u topic stream ts : (forall t, t ∈ ts -> is_Some (control_tower_sockets_ w !! tower_stream t)) ->
  exists w' ts', close_towers w u topic stream ts = Ok (w', ts') /\ quiet (fun x => x = u) w w' /\
    control_tower_sockets_ w' = control_tower_sockets_ w /\ events w' = events w /\ ts' `sublist_of` ts /\
    (forall t, t ∈ ts' -> control_tower_sockets_ w !! tower_stream t <> Some stream) /\
    (forall t, t ∈ ts -> control_tower_sockets_ w !! tower_stream t <> Some stream -> t ∈ ts').
Proof.
  revert w. induction ts as [|t ts IH]; intros w Ho; cbn [close_towers].
  { exists w, []. split_and!; [done|apply quiet_refl|done|done|done|by intros ? ?%elem_of_nil|by intros ? ?%elem_of_nil]. }
  destruct (Ho t ltac:(by left)) as [id Hid]. unfold GetStreamID. rewrite Hid. cbn [obind]. destruct (Z.eqb_spec id stream) as [->|Hne].
  - destruct (ScheduleResubscribeRequest_quiet w u topic) as (Hq1 & Hs1 & He1 & _).
    destruct (IH (ScheduleResubscribeRequest w u topic)) as (w' & ts' & -> & Hq & Hs & He & Hsub & Hk & Hkeep); [intros t' Ht'; rewrite Hs1; apply Ho; by right|].
    rewrite Hs1 in *. exists w', ts'. split_and!; [done|by eapply quiet_trans|done|congruence|by apply sublist_cons|done|].
    intros t' [->|Ht']%elem_of_cons Hn; [done|by apply Hkeep].
  - destruct (IH w) as (w' & ts' & -> & Hq & Hs & He & Hsub & Hk & Hkeep); [intros t' Ht'; apply Ho; by right|]. cbn [obind fst snd].
    exists w', (t :: ts'). split_and!; [done|done|done|done|by apply sublist_skip| |].
    + intros t' [->|Ht']%elem_of_cons; [congruence|by apply Hk].
    + intros t' [->|Ht']%elem_of_cons Hn; [by left|right; by apply Hkeep].
Qed.

Lemma towers_ok_sublist sockets ts ts' : ts' `sublist_of` ts -> towers_ok options sockets ts -> towers_ok options sockets ts'.
Proof.
  intros Hs [H1 H2 H3]. split.
  - eapply sublist_NoDup; [exact H1|by apply fmap_sublist].
  - intros t Ht. apply H2. by eapply elem_of_sublist.
  - intros t Ht. apply H3. by eapply elem_of_sublist.
Qed.

Definition without_stream (sockets : gmap (Z * Z) Z) (stream : Z) (ts : list Tower) : Prop := forall t, t ∈ ts -> sockets !! tower_stream t <> Some stream.

Lemma close_topics_spec w stream l : ok w -> NoDup l.*1 -> (forall u topic, (u, topic) ∈ l -> topics_ w !! u = Some topic) ->
  (forall u topic, topics_ w !! u = Some topic -> u ∉ l.*1 -> without_stream (control_tower_sockets_ w) stream (towers topic)) ->
  exists w', close_topics w stream l = Ok w' /\ ok w' /\ events w' = events w /\ control_tower_sockets_ w' = control_tower_sockets_ w /\
    (forall u s, holds w' u s <-> holds w u s) /\
    (forall u topic, topics_ w' !! u = Some topic -> without_stream (control_tower_sockets_ w) stream (towers topic)).
Proof.
  revert w. induction l as [|[u topic] l IH]; intros w Hok Hnd Hl Hdone; cbn [close_topics].
  { exists w. split_and!; try done. intros u topic Ht. apply (Hdone u topic Ht). apply not_elem_of_nil. }
  assert (topics_ w !! u = Some topic) as Ht by (apply Hl; by left). pose proof (ok_topic _ _ w Hok _ _ Ht) as Hts. cbn in Hnd. apply NoDup_cons in Hnd as [Hx Hnd].
  destruct (close_towers_spec w u topic stream (towers topic)) as (w1 & ts & -> & Hq & Hs & He & Hsub & Hk & _); [apply Hts|]. cbn [obind fst snd].
  set (w2 := put_topic u (w1, set_towers ts topic)).
  destruct (put_towers_result (fun _ => False) (fun _ => False) w w1 u topic ts Hok Ht Hq) as (w2' & es & E & Hok2 & _); [rewrite Hs; eapply towers_ok_sublist; [exact Hsub|apply Hts]|].
  injection E as <-. destruct (IH w2 Hok2 Hnd) as (w' & -> & Hok' & He' & Hs' & Hh' & Hd').
  - intros x tp Hin. unfold w2, put_topic. cbn. rewrite (q_topics _ _ _ Hq). rewrite lookup_insert_ne; [apply Hl; by right|]. intros ->. apply Hx.
    apply list_elem_of_fmap. by exists (x, tp).
  - intros x tp Hxt Hni. unfold w2, put_topic in Hxt |- *. cbn in *. rewrite Hs. rewrite (q_topics _ _ _ Hq) in Hxt.
    apply lookup_insert_Some in Hxt as [[<- <-]|[Hne Hxt]]; [done|]. apply (Hdone x tp Hxt). cbn. apply not_elem_of_cons. by split.
  - exists w'. unfold w2, put_topic in *. cbn in *. split_and!; [done|done|congruence|congruence| |by rewrite <-Hs].
    intros x s. rewrite Hh'. by apply (holds_put w w1 u topic); [apply Hq|..].
Qed.

Lemma CloseControlTowerStream_result C D w stream : ok w -> result C D w (CloseControlTowerStream w stream).
Proof.
  intros Hok. unfold CloseControlTowerStream. set (w1 := set_sub_to_topic _ w).
  pose proof (forget_stream_quiet w stream) as Hq1.
  assert (ok w1) as Hok1 by (by eapply quiet_ok). cbn [topics_ w1 set_sub_to_topic].
  destruct (close_topics_spec w1 stream (map_to_list (topics_ w)) Hok1) as (w2 & -> & Hok2 & He & Hs & Hh & Hd).
  - apply NoDup_fst_map_to_list.
  - intros u topic Hin. by apply elem_of_map_to_list.
  - intros u topic Ht Hni. destruct Hni. apply list_elem_of_fmap. exists (u, topic). split; [done|]. by apply elem_of_map_to_list.
  - cbn [obind]. eexists _, []. split; [reflexivity|]. split.
    + destruct Hok2 as [H1 H2 H3 H4 H5]. split; try done; [by apply (requests_ok_same w2)|]. cbn. intros u topic Ht. destruct (H5 u topic Ht) as [T1 [T2 T2' T2''] T3 T4 T5 T6].
      split; try done. split; [done| |done]. intros t Hin. destruct (T2' t Hin) as [id Hid]. exists id. apply map_lookup_filter_Some. split; [done|]. cbn.
      intros ->. apply (Hd u topic Ht t Hin). by rewrite <-Hs.
    + apply step_same; [cbn; by rewrite He, app_nil_r|constructor|]. intros u s. exact (Hh u s).
Qed.

Section Env.
Context (env : CopilotEnv).

(** ** The timer *)

Lemma resubscribe_loop_result C D count w : ok w -> result C D w (resubscribe_loop options myid hash env count w).
Proof.
  revert w. induction count as [|count IH]; intros w Hok; cbn [resubscribe_loop]; [by apply result_same|].
  unfold HasActiveResubscribeRequests. case_bool_decide as Hne; [|by apply result_same].
  destruct (PopNextResubscribeRequest_ok w (ok_requests _ _ w Hok) Hne) as (w1 & r & -> & Hr & Hact & Ha & Ew). cbn [obind].
  assert (topics_ w1 = topics_ w) as Hto by (by rewrite Ew). assert (ok w1) as Hok1.
  { destruct Hok as [H1 H2 H3 H4 H5]. split; [done|by rewrite Ew|by rewrite Ew| |by rewrite Ew]. rewrite Ha, Hto. intros x Hx. apply H4. by apply lookup_delete_is_Some in Hx as [_ Hx]. }
  rewrite Hto. destruct (ok_active _ _ w Hok _ Hact) as [topic Ht]. rewrite Ht.
  assert (topics_ w1 !! request_topic r = Some topic) as Ht1 by (by rewrite Hto). pose proof (ok_topic _ _ w1 Hok1 _ _ Ht1) as Hts.
  destruct (UpdateTowerSubscriptionsAt_quiet options myid hash Hworkers env w1 (request_topic r) topic (request_seqno r) (request_have_zero_sub r) false)
    as (w2 & ts & -> & Hq2 & Htw & _); [apply Hts|apply Hok1|apply Hts|]. cbn [obind].
  destruct (put_towers_result C D w1 w2 (request_topic r) topic ts Hok1 Ht1 Hq2 Htw) as (w3 & es3 & E3 & Hok3 & Hs3). injection E3 as <-.
  destruct (IH _ Hok3) as (w4 & es4 & -> & Hok4 & Hs4).
  assert (step_spec F P C D w w1 []) as Hs1.
  { apply step_same; [by rewrite Ew, app_nil_r|constructor|]. intros x s. unfold holds. by rewrite Hto. }
  exists w4, ([] ++ (es3 ++ es4)). split_and!; [done|done|]. eapply step_trans; [exact Hs1|by eapply step_trans].
Qed.

Lemma correct_loop_quiet w topic recipients : quiet nowhere w (fst (correct_loop options hash env w topic recipients)).
Proof.
  revert w. induction recipients as [|tower recipients IH]; intros w; cbn [correct_loop]; [apply quiet_refl|].
  destruct (GetControlTowerSocket_quiet env w tower (GetTowerWorker options hash (log_id topic) tower)) as [Hq _]. destruct (FindTower topic _); [|done].
  eapply quiet_trans; [exact Hq|apply IH].
Qed.

Lemma CorrectTopicTowers_quiet w topic : quiet nowhere w (fst (CorrectTopicTowers options hash env w topic)).
Proof.
  unfold CorrectTopicTowers. destruct (GetControlTowers_quiet w (log_id topic)) as [Hq _]. destruct (GetControlTowers w (log_id topic)) as [w1 [recipients|]]; [|done].
  eapply quiet_trans; [exact Hq|apply correct_loop_quiet].
Qed.

Lemma checkup_loop_result C D w updates : ok w -> result C D w (checkup_loop options myid hash env w updates).
Proof.
  revert w. induction updates as [|u updates IH]; intros w Hok; cbn [checkup_loop]; [by apply result_same|].
  destruct (topics_ w !! u) as [topic|] eqn:Et; [|by apply IH]. pose proof (CorrectTopicTowers_quiet w topic) as Hq1.
  destruct (CorrectTopicTowers options hash env w topic) as [w1 correct]. cbn [fst] in Hq1. assert (ok w1) as Hok1 by (by eapply quiet_ok).
  assert (topics_ w1 !! u = Some topic) as Ht1 by (by rewrite (q_topics _ _ _ Hq1)). pose proof (ok_topic _ _ w1 Hok1 _ _ Ht1) as Hts.
  assert (exists w2 ts, (if correct then Ok (w1, topic) else UpdateTowerSubscriptions options myid hash env w1 u topic true) = Ok (w2, set_towers ts topic) /\
    quiet (fun x => x = u) w1 w2 /\ towers_ok options (control_tower_sockets_ w2) ts) as (w2 & ts & -> & Hq2 & Htw).
  { destruct correct; [exists w1, (towers topic); split_and!; [by destruct topic|apply quiet_refl|apply Hts]|]. apply UpdateTowerSubscriptions_quiet; [done|apply Hts|apply Hok1|apply Hts]. }
  cbn [obind]. destruct (put_towers_result C D w1 w2 u topic ts Hok1 Ht1 Hq2 Htw) as (w3 & es3 & E3 & Hok3 & Hs3). injection E3 as <-.
  set (w3 := put_topic u (w2, set_towers ts topic)) in *. pose proof (set_checkup_quiet w3 (TimeoutList.Add (steady_now env) u (topic_checkup_list_ w3))) as Hq4.
  destruct (step_quiet F P C D _ _ _ Hq1) as [es1 Hs1]. destruct (step_quiet F P C D _ _ _ Hq4) as [es4 Hs4].
  destruct (IH _ (quiet_ok _ _ _ _ Hok3 Hq4)) as (w5 & es5 & -> & Hok5 & Hs5). exists w5, (es1 ++ (es3 ++ (es4 ++ es5))). split_and!; [done|done|].
  eapply step_trans; [exact Hs1|]. eapply step_trans; [exact Hs3|]. by eapply step_trans.
Qed.

Lemma ProcessTimerTick_result C D w : ok w -> result C D w (ProcessTimerTick options myid hash env w).
Proof.
  intros Hok. unfold ProcessTimerTick. apply result_bind; [by apply resubscribe_loop_result|]. intros w1 Hok1.
  destruct (TimeoutList.GetExpired _ _ _ _) as [updates checkup]. pose proof (set_checkup_quiet w1 checkup) as Hq.
  destruct (step_quiet F P C D _ _ _ Hq) as [es1 Hs1]. destruct (checkup_loop_result C D (set_checkup checkup w1) updates (quiet_ok _ _ _ _ Hok1 Hq)) as (w2 & es2 & -> & Hok2 & Hs2).
  exists w2, (es1 ++ es2). split_and!; [done|done|by eapply step_trans].
Qed.
End Env.
End Timer.
