(* ===== verification/CopilotDelivery.v ===== *)
(** * Copilot worker: delivery

    A worker of the copilot as a machine, whose steps are the commands the event
    loops put on its queues and the timer, and its main theorems. *)

From S2P Require Import Prelude Coding CodingFacts Messages Containers SubscriptionsMap TopicManager TimeoutList CopilotWorker CopilotRequests CopilotTowers CopilotSteps CopilotHandlers CopilotClients CopilotTimer.

#[local] Open Scope outcome_scope.

Implicit Types (w : CopilotWorker) (u uuid : TopicUUID) (topic : TopicState) (s : Subscription) (es : list CopilotEvent) (k : Z * Z).

(** ** The machine *)

Inductive copilot_action :=
| Command (logid : Z) (m : Message) (worker origin : Z)
| RouterUpdate (router : Z -> option (list Z))
| TimerTick
| RollcallFails (worker origin tenant sub_id : Z).

Section Machine.
Context (options : CopilotOptions) (myid : Z) (hash : Z -> Z) (worker_of : Z -> Z).
Context (F : Prop) (P : TopicUUID -> option slice -> Z -> Z -> Prop).

Definition run_copilot (env : CopilotEnv) (a : copilot_action) w : outcome CopilotWorker :=
  match a with
  | Command logid m worker origin => WorkerCommand options myid hash env w logid m worker origin
  | RouterUpdate router => Ok (ProcessRouterUpdate w router)
  | TimerTick => ProcessTimerTick options myid hash env w
  | RollcallFails worker origin tenant sub_id => RollcallFailed options env w worker origin tenant sub_id
  end.

(** What the environment of the worker keeps to: commands come from event loops
    that exist, towers send updates of the topic they were asked for, clients
    use an ID for one topic, and routers name a tower once. *)
Definition copilot_enabled w (a : copilot_action) : Prop :=
  match a with
  | Command _ m worker origin =>
      match m with
      | DeliverData d => tower_honest P w origin (deliver_sub_id_ (ddata_deliver d)) (Some (ddata_payload_ d)) (deliver_seqno_prev_ (ddata_deliver d)) (deliver_seqno_ (ddata_deliver d))
      | DeliverGap d => tower_honest P w origin (deliver_sub_id_ (dgap_deliver d)) None (deliver_seqno_prev_ (dgap_deliver d)) (deliver_seqno_ (dgap_deliver d))
      | TailSeqno d => fits 64 (tail_seqno_ d)
      | Messages.Subscribe d => subscribe_ok options worker_of w (sub_namespace_id_ d) (sub_topic_name_ d) (sub_sub_id_ d) worker origin
      | _ => True
      end
  | RouterUpdate router => router_ok router
  | TimerTick => True
  | RollcallFails worker _ _ _ => worker_ok options worker
  end.

(** The subscriptions of clients that an action may end, or begin. *)
Definition ends w (a : copilot_action) k : Prop :=
  match a with
  | Command _ (Messages.Subscribe d) _ origin => k = (origin, sub_sub_id_ d)
  | Command _ (Messages.Unsubscribe d) _ origin =>
      if reason_ d =? kRequested then k = (origin, unsub_sub_id_ d) else on_topic_of w origin (unsub_sub_id_ d) k
  | Command _ (Goodbye d) _ origin => origin_type_ d = OriginClient /\ fst k = origin
  | RollcallFails _ origin _ sub_id => k = (origin, sub_id)
  | _ => False
  end.

Definition begins (a : copilot_action) k : Prop :=
  match a with
  | Command _ (Messages.Subscribe d) _ origin => k = (origin, sub_sub_id_ d)
  | _ => False
  end.

(** Runs in which every step, with what the environment answers in it,
    satisfies [Q]. *)
Inductive copilot_runs (Q : CopilotEnv -> CopilotWorker -> copilot_action -> Prop) : CopilotWorker -> list copilot_action -> CopilotWorker -> Prop :=
| copilot_stop w : copilot_runs Q w [] w
| copilot_more w env a acts w1 w' : copilot_enabled w a -> Q env w a -> run_copilot env a w = Ok w1 -> copilot_runs Q w1 acts w' ->
    copilot_runs Q w (a :: acts) w'.

Hypothesis Hworkers : 0 < num_workers options.
Hypothesis HP0 : forall u cur, P u None 0 cur.

Lemma result_weaken (C D C' D' : Z * Z -> Prop) w r : (forall k, C k -> C' k) -> (forall k, D k -> D' k) ->
  result options worker_of F P C D w r -> result options worker_of F P C' D' w r.
Proof.
  intros HC HD (w' & es & E & Hok & [H1 H2 H3 H4]). exists w', es. split_and!; [done|done|]. split; [done|..].
  - intros u s Hs Hn. apply H2; [done|]. intros Hc. by apply Hn, HC.
  - intros u s Hs Hn. apply H3; [done|]. intros Hc. by apply Hn, HD.
  - intros k Hn. apply H4. intros Hc. by apply Hn, HD.
Qed.

Lemma copilot_step w env a : (client_full env -> F) -> copilot_ok options worker_of w -> copilot_enabled w a ->
  result options worker_of F P (ends w a) (begins a) w (run_copilot env a w).
Proof.
  intros HF Hok Hen. destruct a as [logid m worker origin|router| |worker origin tenant sub_id]; cbn [run_copilot copilot_enabled] in *.
  - destruct m as [| | | |g|d|d|d|d| |d| |]; cbn [WorkerCommand]; try by apply result_same.
    + unfold ProcessGoodbye. destruct (Z.eqb_spec (origin_type_ g) OriginClient) as [Ho|Hn].
      * destruct (client_goodbye_result options hash worker_of F P env w g origin Hok Ho) as [Hr _]. unfold ProcessGoodbye in Hr. rewrite Ho in Hr.
        eapply result_weaken; [..|exact Hr]; [|done]. intros k Hk. by split.
      * destruct (origin_type_ g =? OriginServer); [by apply CloseControlTowerStream_result|by apply result_same].
    + by apply ProcessSubscribe_result.
    + eapply result_weaken; [..|by apply ProcessUnsubscribe_result]; [done|done].
    + by apply ProcessGap_result.
    + by apply ProcessData_result.
    + by apply ProcessTailSeqno_result.
  - exists (ProcessRouterUpdate w router), []. split_and!; [done| |].
    + destruct Hok as [H1 H2 H3 H4 H5]. split; [by apply (requests_ok_same w)| |done|done|done]. split; [done|]. cbn. intros l out Hl. by rewrite lookup_empty in Hl.
    + apply step_same; [by rewrite app_nil_r|constructor|done].
  - by apply ProcessTimerTick_result.
  - eapply result_weaken; [..|by apply RollcallFailed_result]; done.
Qed.

Lemma NewCopilotWorker_ok router : router_ok router -> copilot_ok options worker_of (NewCopilotWorker router).
Proof.
  intros Hr. split; [apply NewCopilotWorker_requests| | | |]; cbn.
  - split; [done|]. intros l out Hl. cbn in Hl. by rewrite lookup_empty in Hl.
  - intros stream id u Hf. unfold SubscriptionMap.Find in Hf. cbn in Hf. by rewrite lookup_empty in Hf.
  - intros u [a Ha]. by rewrite lookup_empty in Ha.
  - intros u topic Ht. by rewrite lookup_empty in Ht.
Qed.

(** While a subscription is not ended, it is kept and its updates form a chain. *)
Lemma kept_chain Q w acts w' u s : (forall env w a, Q env w a -> (client_full env -> F) /\ ~ ends w a (key s)) -> copilot_ok options worker_of w ->
  copilot_runs Q w acts w' -> holds w u s ->
  exists es s', events w' = events w ++ es /\ holds w' u s' /\ key s' = key s /\ chain F (P u) (updates_to (key s) es) (client_seqno s) (client_seqno s').
Proof.
  intros HQ Hok Hr Hs. remember (key s) as k eqn:Ek in HQ. revert s Ek Hs. induction Hr as [w|w env a acts w1 w' Hen HQa Ha Hr IH]; intros s -> Hs.
  { exists [], s. rewrite app_nil_r. by split_and!. }
  destruct (HQ _ _ _ HQa) as [HF Hends]. destruct (copilot_step w env a HF Hok Hen) as (w2 & es & E & Hok2 & Hst). rewrite Ha in E. injection E as <-.
  destruct (st_kept _ _ _ _ _ _ _ Hst u s Hs Hends) as (s1 & Hs1 & Hk1 & Hc1). destruct (IH Hok2 s1 (eq_sym Hk1) Hs1) as (es2 & s2 & He2 & Hs2 & Hk2 & Hc2).
  exists (es ++ es2), s2. split_and!; [by rewrite He2, (st_events _ _ _ _ _ _ _ Hst), app_assoc|done|congruence|].
  rewrite updates_to_app. eapply chain_app; [exact Hc1|]. by rewrite <-Hk1.
Qed.
End Machine.

(** ** What holds whether queues are full or not *)
Section Anyway.
Context (options : CopilotOptions) (myid : Z) (hash : Z -> Z) (worker_of : Z -> Z).
Context (P : TopicUUID -> option slice -> Z -> Z -> Prop).
Hypothesis Hworkers : 0 < num_workers options.
Hypothesis HP0 : forall u cur, P u None 0 cur.

#[local] Abbreviation copilot_runs := (copilot_runs options myid hash worker_of P).

Lemma copilot_step_any w env a : copilot_ok options worker_of w -> copilot_enabled options worker_of P w a ->
  result options worker_of True P (ends w a) (begins a) w (run_copilot options myid hash env a w).
Proof using All. by apply copilot_step. Qed.

Lemma copilot_runs_ok Q w acts w' : copilot_ok options worker_of w -> copilot_runs Q w acts w' -> copilot_ok options worker_of w'.
Proof using All.
  intros Hok Hr. induction Hr as [|w env a acts w1 w' Hen _ Ha _ IH]; [done|]. destruct (copilot_step_any w env a Hok Hen) as (w2 & es & E & Hok2 & _).
  rewrite Ha in E. injection E as <-. by apply IH.
Qed.

(** Nobody is sent updates of a subscription that is not there and does not
    begin. *)
Lemma absent_silent w acts w' k : copilot_ok options worker_of w -> copilot_runs (fun _ _ a => ~ begins a k) w acts w' -> (forall u s, holds w u s -> key s <> k) ->
  exists es, events w' = events w ++ es /\ updates_to k es = [] /\ forall u s, holds w' u s -> key s <> k.
Proof using All.
  intros Hok Hr. induction Hr as [w|w env a acts w1 w' Hen HQ Ha Hr IH]; intros Hno.
  { exists []. rewrite app_nil_r. by split_and!. }
  destruct (copilot_step_any w env a Hok Hen) as (w2 & es & E & Hok2 & Hst). rewrite Ha in E. injection E as <-.
  destruct IH as (es2 & He2 & Hs2 & Hn2); [done| |].
  - intros u s Hs Hk. destruct (st_old _ _ _ _ _ _ _ Hst u s Hs ltac:(by rewrite Hk)) as (s0 & Hs0 & Hk0). apply (Hno u s0 Hs0). congruence.
  - exists (es ++ es2). split_and!; [by rewrite He2, (st_events _ _ _ _ _ _ _ Hst), app_assoc| |done].
    by rewrite updates_to_app, Hs2, (st_silent _ _ _ _ _ _ _ Hst k HQ Hno).
Qed.
End Anyway.

(** ** Updates and the log *)

(** An update of a tower: data is the record at its end, and between its ends
    there is no other record; an update from 0 tells where a subscription at the
    tail begins. *)
Definition honest (log : TopicUUID -> Z -> option slice) u (p : option slice) (prev cur : Z) : Prop :=
  match p with Some payload => log u cur = Some payload | None => prev <> 0 -> log u cur = None end /\
  (prev <> 0 -> 0 < prev <= cur /\ cur < 2 ^ 64 - 1 /\ forall i, prev <= i < cur -> log u i = None).

(** The records of a topic from [a] up to [b]. *)
Definition records_between (log : Z -> option slice) (a b : Z) : list slice := omap log (seqZ a (b - a)).

Definition payloads (ms : list Message) : list slice :=
  omap (fun m => match update_of m with Some (_, _, _, p) => p | None => None end) ms.

Lemma omap_seqZ_none (log : Z -> option slice) a n : (forall i, a <= i < a + n -> log i = None) -> omap log (seqZ a n) = [].
Proof.
  intros Hn. assert (forall l, Forall (fun i => log i = None) l -> omap log l = []) as Hl by (induction 1 as [|i l Hi _ IH]; [done|]; cbn; by rewrite Hi).
  apply Hl, Forall_forall. intros i Hi%elem_of_seqZ. by apply Hn.
Qed.

Lemma records_step (log : Z -> option slice) a cur b : a <= cur < b -> (forall i, a <= i < cur -> log i = None) ->
  records_between log a b = option_list (log cur) ++ records_between log (cur + 1) b.
Proof.
  intros Hab Hn. unfold records_between. replace (b - a) with ((cur - a) + (1 + (b - (cur + 1)))) by lia. rewrite seqZ_app by lia.
  rewrite omap_app, omap_seqZ_none by (intros i Hi; apply Hn; lia). cbn [app]. rewrite seqZ_app by lia. replace (a + (cur - a)) with cur by lia.
  rewrite omap_app. f_equal.
Qed.

(** ** The client *)

(** What a client does with updates, the code of [ProcessUpdate]: the state it
    reaches, and the updates that it accepts. *)
Fixpoint client_run (ms : list Message) (b : SubscriptionBase) : SubscriptionBase * list Message :=
  match ms with
  | [] => (b, [])
  | m :: ms =>
      match update_of m with
      | Some (_, prev, cur, _) =>
          match ProcessUpdate prev cur b with
          | Ok (b, true) => let r := client_run ms b in (fst r, m :: snd r)
          | Ok (b, false) => client_run ms b
          | Abort _ => (b, [])
          end
      | None => client_run ms b
      end
  end.

(** A client at or after the place of the subscription takes an update unless it
    ends before the client. *)
Lemma ProcessUpdate_taken b from prev cur : takes from prev cur = true -> from <= expected_seqno_ b -> (expected_seqno_ b = 0 -> from = 0) ->
  exists b', ProcessUpdate prev cur b = Ok (b', expected_seqno_ b <=? cur) /\
    expected_seqno_ b' = if expected_seqno_ b <=? cur then u64 (cur + 1) else expected_seqno_ b.
Proof.
  unfold takes. intros Ht Hle Hz. unfold ProcessUpdate. rewrite (proj2 (Z.leb_le prev cur)) by lia. cbn [assert_that obind].
  destruct (Z.leb_spec (expected_seqno_ b) cur);
    destruct ((cur <? prev) || ((expected_seqno_ b =? 0) && negb (prev =? 0)) || (cur <? expected_seqno_ b) || (expected_seqno_ b <? prev)) eqn:E;
    first [lia|eexists; split; reflexivity].
Qed.

(** What a client accepts of the updates of a subscription, whichever queues were
    full: exactly the records from its place on. *)
Lemma chain_accepted F log u ms from to b : chain F (honest log u) ms from to -> from <> 0 -> from <= expected_seqno_ b ->
  exists b' ms', client_run ms b = (b', ms') /\ to <= expected_seqno_ b' /\ expected_seqno_ b <= expected_seqno_ b' /\
    payloads ms' = records_between (log u) (expected_seqno_ b) (expected_seqno_ b').
Proof.
  revert from b. induction ms as [|m ms IH]; intros from b Hc Hf Hb; cbn [chain client_run] in *.
  { subst to. exists b, []. split_and!; [done|done|done|]. unfold records_between. by rewrite Z.sub_diag. }
  destruct Hc as (id & prev & cur & p & next & Hu & Ht & [Hp Hh] & Hn & Hc). rewrite Hu. assert (prev <> 0 /\ prev <= from <= cur) as (Hpn & Hle) by (unfold takes in Ht; lia).
  destruct (Hh Hpn) as (H0 & Hmax & Hnone). assert (u64 (cur + 1) = cur + 1) as E by (apply wrap_small; unfold fits; lia). rewrite E in Hn.
  destruct (ProcessUpdate_taken b from prev cur Ht Hb ltac:(lia)) as (b1 & -> & Hb1). rewrite E in Hb1.
  assert (next <> 0 /\ next <= expected_seqno_ b1) as [Hn0 Hnb].
  { destruct (Z.leb_spec (expected_seqno_ b) cur); rewrite Hb1; destruct Hn as [->|[_ ->]]; lia. }
  destruct (IH next b1 Hc Hn0 Hnb) as (b' & ms' & Hrun & Hto & Hup & Hpay). rewrite Hrun. cbn [fst snd].
  destruct (Z.leb_spec (expected_seqno_ b) cur) as [Hin|Hout]; rewrite Hb1 in Hup, Hpay; [|by exists b', ms'].
  exists b', (m :: ms'). split_and!; [done|done|lia|]. rewrite (records_step (log u) (expected_seqno_ b) cur) by (lia || (intros i Hi; apply Hnone; lia)).
  rewrite <-Hpay. unfold payloads. cbn [omap list_omap]. rewrite Hu.
  destruct p as [payload|]; [by rewrite Hp|by rewrite (Hp Hpn)].
Qed.

(** With room in the queues the client accepts everything. *)
Lemma chain_in_step Q ms from to b : chain False Q ms from to -> expected_seqno_ b = from ->
  exists b', client_run ms b = (b', ms) /\ expected_seqno_ b' = to.
Proof.
  revert from b. induction ms as [|m ms IH]; intros from b Hc Hb; cbn [chain client_run] in *; [exists b; by split; [|subst]|].
  destruct Hc as (id & prev & cur & p & next & -> & Ht & _ & [->|[[] _]] & Hc).
  destruct (ProcessUpdate_taken b from prev cur Ht ltac:(lia) ltac:(lia)) as (b1 & -> & Hb1). unfold takes in Ht.
  rewrite (proj2 (Z.leb_le _ _)) in * by lia. destruct (IH _ b1 Hc Hb1) as (b' & -> & Hb'). by exists b'.
Qed.

(** ** Properties *)

(** Nothing is known of what the towers send. *)
Definition anything : TopicUUID -> option slice -> Z -> Z -> Prop := fun _ _ _ _ => True.

(** C14: a copilot worker never fails.  Whatever clients ask for, whatever the
    towers send, whichever queues are full, streams break and towers come and
    go, no assertion of the worker fails, no request or socket is used after it
    is freed, and no request is taken from an empty queue; and each topic has at
    most one request to resubscribe that counts, which is in a queue. *)
Theorem copilot_never_aborts options myid hash worker_of router acts w env a : 0 < num_workers options -> router_ok router ->
  copilot_runs options myid hash worker_of anything (fun _ _ _ => True) (NewCopilotWorker router) acts w -> copilot_enabled options worker_of anything w a ->
  (exists w', run_copilot options myid hash env a w = Ok w') /\
  (forall u topic t, topics_ w !! u = Some topic -> t ∈ towers topic -> is_Some (control_tower_sockets_ w !! tower_stream t)) /\
  (forall u address, active_requests_ w !! u = Some address ->
     is_Some (topics_ w !! u) /\ exists r, (address, r) ∈ requests w /\ request_topic r = u /\ cancelled r = false) /\
  (forall e, e ∈ requests w -> cancelled (snd e) = false -> active_requests_ w !! request_topic (snd e) = Some (fst e)).
Proof.
  intros Hn Hr Hruns Hen. assert (forall u cur, anything u None 0 cur) as HP by done.
  pose proof (copilot_runs_ok options myid hash worker_of anything Hn HP _ _ _ _ (NewCopilotWorker_ok options worker_of router Hr) Hruns) as Hok. split_and!.
  - destruct (copilot_step_any options myid hash worker_of anything Hn HP w env a Hok Hen) as (w' & _ & E & _). by exists w'.
  - intros u topic t Ht Hin. by apply (ok_topic _ _ w Hok u topic Ht).
  - intros u address Hu. split; [apply (ok_active _ _ w Hok); by eexists|]. by apply (ok_requests _ _ w Hok).
  - apply (ok_requests _ _ w Hok).
Qed.

(** C13: the copilot passes a topic on to its subscribers exactly once, if the
    towers are honest.  Let the towers send only what is true of the log
    ([honest]: data is the record at its end, a gap or update covers no other
    record, ranges are in order), in any order, any number of times and several
    towers at once, and let any queue be full at any time.  Take a subscription
    that is at a place of the log, not at the tail (place 0), with a client at
    that place or after it.  As long as the subscription is not ended, the
    client is again at its place or after it at the end, and what it accepts of
    the updates that were sent to it are exactly the records of the topic
    between its two places, in order and once each; nothing is said about how
    far it gets, and a full queue can stop it ([full_queue_strands]).  If the
    queues to the clients have room throughout, then a client that begins where
    the copilot takes it to be, at the tail as well, accepts every update and is
    where the copilot takes it to be at the end; without room a client at the
    tail may pass over records ([full_queue_skips]).  A worker serves the
    streams assigned to it, an ID of a stream is used for one topic, and a
    router names a tower once for a log. *)
Theorem copilot_delivers options myid hash worker_of log router acts0 w acts w' u s b : 0 < num_workers options -> router_ok router ->
  copilot_runs options myid hash worker_of (honest log) (fun _ _ _ => True) (NewCopilotWorker router) acts0 w -> holds w u s ->
  copilot_runs options myid hash worker_of (honest log) (fun _ w a => ~ ends w a (key s)) w acts w' ->
  exists es, events w' = events w ++ es /\
    (client_seqno s <> 0 -> client_seqno s <= expected_seqno_ b ->
     exists s' b' accepted, holds w' u s' /\ key s' = key s /\ client_run (updates_to (key s) es) b = (b', accepted) /\
       client_seqno s' <= expected_seqno_ b' /\ expected_seqno_ b <= expected_seqno_ b' /\
       payloads accepted = records_between (log u) (expected_seqno_ b) (expected_seqno_ b')) /\
    (copilot_runs options myid hash worker_of (honest log) (fun env w a => ~ client_full env /\ ~ ends w a (key s)) w acts w' ->
     client_seqno s = expected_seqno_ b ->
     exists s' b', holds w' u s' /\ key s' = key s /\ client_run (updates_to (key s) es) b = (b', updates_to (key s) es) /\
       client_seqno s' = expected_seqno_ b').
Proof.
  intros Hn Hr H0 Hs Hruns. assert (forall u cur, honest log u None 0 cur) as HP by done.
  pose proof (copilot_runs_ok options myid hash worker_of _ Hn HP _ _ _ _ (NewCopilotWorker_ok options worker_of router Hr) H0) as Hok.
  destruct (kept_chain options myid hash worker_of True _ Hn HP _ w acts w' u s (fun _ _ _ H => conj (fun _ => I) H) Hok Hruns Hs) as (es & s' & He & Hs' & Hk & Hc).
  exists es. split_and!; [done| |].
  - intros Hne Hle. destruct (chain_accepted _ _ _ _ _ _ b Hc Hne Hle) as (b' & ms & ? & ? & ? & ?). by exists s', b', ms.
  - intros Hroom Hb. destruct (kept_chain options myid hash worker_of False _ Hn HP _ w acts w' u s (fun _ _ _ H => conj (fun Hf => proj1 H Hf) (proj2 H)) Hok Hroom Hs) as (es2 & s2 & He2 & Hs2 & Hk2 & Hc2).
    rewrite He in He2. apply app_inv_head in He2 as <-. destruct (chain_in_step _ _ _ _ b Hc2 (eq_sym Hb)) as (b' & Hrun & Hb'). by exists s2, b'.
Qed.

(** C17: a client that left is not sent anything.  After the goodbye of a client
    the worker has no subscription of it, and unless the client subscribes with
    an ID again, no update for that ID is ever sent to it. *)
Theorem goodbye_silences options myid hash worker_of router acts0 w env logid g worker stream w1 acts w' id : 0 < num_workers options -> router_ok router ->
  copilot_runs options myid hash worker_of anything (fun _ _ _ => True) (NewCopilotWorker router) acts0 w -> origin_type_ g = OriginClient ->
  run_copilot options myid hash env (Command logid (Goodbye g) worker stream) w = Ok w1 ->
  copilot_runs options myid hash worker_of anything (fun _ _ a => ~ begins a (stream, id)) w1 acts w' ->
  (forall u s, holds w1 u s -> client_stream s <> stream) /\
  exists es, events w' = events w1 ++ es /\ updates_to (stream, id) es = [].
Proof.
  intros Hn Hr H0 Ho Ha Hruns. assert (forall u cur, anything u None 0 cur) as HP by done.
  pose proof (copilot_runs_ok options myid hash worker_of _ Hn HP _ _ _ _ (NewCopilotWorker_ok options worker_of router Hr) H0) as Hok.
  destruct (client_goodbye_result options hash worker_of True anything env w g stream Hok Ho) as [(w2 & es & E & Hok1 & _) Hgone].
  cbn in Ha. rewrite Ha in E. injection E as <-. split; [intros u s; by apply Hgone|].
  destruct (absent_silent options myid hash worker_of _ Hn HP w1 acts w' (stream, id) Hok1 Hruns) as (es' & He & Hu & _).
  - intros u s Hs [= Hk _]. by apply (Hgone w1 u s).
  - by exists es'.
Qed.

(** ** Examples *)

Definition one_worker : CopilotOptions :=
  {| num_workers := 1; rollcall_enabled := true; control_tower_connections := 1; tower_subscriptions_check_period := 60;
     resubscriptions_per_second := 10; rebalances_per_second := 10; timer_interval_micros := 1000000 |}.
Definition two_towers : Z -> option (list Z) := fun _ => Some [100; 200].
Definition one_tower : Z -> option (list Z) := fun _ => Some [100].
Definition open_env : CopilotEnv :=
  {| client_has_room := fun _ => true; tower_has_room := fun _ => true; outbound_stream := fun es => 1000 + Z.of_nat (length es); rollcall_accepts := fun _ => true; steady_now := 0 |}.

Lemma two_towers_ok : router_ok two_towers.
Proof. intros logid out [= <-]. by vm_compute; repeat constructor; set_solver. Qed.

Definition client_subscribe (seqno sub_id stream : Z) : copilot_action :=
  Command 5 (Messages.Subscribe {| sub_base := {| type_ := MessageType.mSubscribe; tenantid_ := 1 |}; sub_namespace_id_ := [Byte.x62];
    sub_topic_name_ := [Byte.x61]; start_seqno_ := seqno; sub_sub_id_ := sub_id |}) 0 stream.
Definition tower_deliver (type sub_id prev cur : Z) : MessageDeliver :=
  {| deliver_base := {| type_ := type; tenantid_ := 1 |}; deliver_sub_id_ := sub_id; deliver_seqno_prev_ := prev; deliver_seqno_ := cur |}.
Definition tower_data (sub_id prev cur : Z) (payload : slice) (stream : Z) : copilot_action :=
  Command 0 (DeliverData {| ddata_deliver := tower_deliver MessageType.mDeliverData sub_id prev cur; message_id_ := []; ddata_payload_ := payload |}) 0 stream.
Definition tower_gap (sub_id prev cur : Z) (stream : Z) : copilot_action :=
  Command 0 (DeliverGap {| dgap_deliver := tower_deliver MessageType.mDeliverGap sub_id prev cur; dgap_gap_type_ := kBenign |}) 0 stream.
Definition goodbye_message (origin_type : Z) : MessageGoodbye :=
  {| goodbye_base := {| type_ := MessageType.mGoodbye; tenantid_ := 1 |}; code_ := Graceful; origin_type_ := origin_type |}.
Definition goodbye_from (origin_type : Z) (stream : Z) : copilot_action := Command 0 (Goodbye (goodbye_message origin_type)) 0 stream.

Fixpoint copilot_after (env : CopilotEnv) (acts : list copilot_action) (r : outcome CopilotWorker) : outcome CopilotWorker :=
  match acts with
  | [] => r
  | a :: acts => copilot_after env acts (w <~ r ;; run_copilot one_worker 0 (fun host => host) env a w)
  end.

Definition topic_ba : TopicUUID := NewTopicUUID [Byte.x62] [Byte.x61].
Definition started : CopilotWorker :=
  match copilot_after open_env [client_subscribe 5 9 7] (Ok (NewCopilotWorker two_towers)) with Ok w => w | Abort _ => NewCopilotWorker two_towers end.
Definition sub_at_5 : Subscription := {| client_stream := 7; client_seqno := 5; client_worker := 0; client_tenant := 1; client_sub_id := 9 |}.

Lemma started_runs P : copilot_runs one_worker 0 (fun host => host) (fun _ => 0) P (fun _ _ _ => True) (NewCopilotWorker two_towers) [client_subscribe 5 9 7] started.
Proof.
  apply (copilot_more _ _ _ _ _ _ _ open_env _ _ started); [|done|vm_compute; reflexivity|constructor]. split_and!; [done|done|done|]. intros u Hu. discriminate Hu.
Qed.

Lemma started_holds : holds started topic_ba sub_at_5.
Proof. eexists. split; [vm_compute; reflexivity|]. by left. Qed.

Lemma copilot_never_aborts_witness :
  exists w', run_copilot one_worker 0 (fun host => host) open_env (tower_data 0 5 7 [Byte.x70] 1000) started = Ok w' .
Proof.
  by apply (copilot_never_aborts one_worker 0 (fun host => host) (fun _ => 0) two_towers [client_subscribe 5 9 7] started open_env
    (tower_data 0 5 7 [Byte.x70] 1000) ltac:(done) two_towers_ok (started_runs _)).
Defined.

(** The record at 7 comes from both towers and is passed on once. *)
Definition example_log : TopicUUID -> Z -> option slice := fun _ i => if i =? 7 then Some [Byte.x70] else None.
Definition from_both : list copilot_action := [tower_data 0 5 7 [Byte.x70] 1000; tower_data 1 4 7 [Byte.x70] 1001].
Definition delivered_once : CopilotWorker := match copilot_after open_env (take 1 from_both) (Ok started) with Ok w => w | Abort _ => started end.
Definition delivered : CopilotWorker := match copilot_after open_env from_both (Ok started) with Ok w => w | Abort _ => started end.
Definition client_at_5 : SubscriptionBase :=
  {| tenant_id := 1; namespace_id := [Byte.x62]; topic_name_ := [Byte.x61]; sub_id_ := 9; expected_seqno_ := 5; user_data_ := 1000 |}.

Lemma honest_7 u prev : 0 < prev <= 7 -> honest example_log u (Some [Byte.x70]) prev 7.
Proof. intros Hp. split; [done|]. intros _. split_and!; [lia|lia|lia|]. intros i Hi. unfold example_log. by destruct (Z.eqb_spec i 7); [lia|]. Qed.

Lemma from_both_runs (Q : CopilotEnv -> CopilotWorker -> copilot_action -> Prop) : (forall w a, a ∈ from_both -> Q open_env w a) ->
  copilot_runs one_worker 0 (fun host => host) (fun _ => 0) (honest example_log) Q started from_both delivered.
Proof.
  intros HQ. apply (copilot_more _ _ _ _ _ _ _ open_env _ _ delivered_once); [|apply HQ; by left|vm_compute; reflexivity|].
  { intros worker m _ _. by apply honest_7. }
  apply (copilot_more _ _ _ _ _ _ _ open_env _ _ delivered); [|apply HQ; right; by left|vm_compute; reflexivity|constructor]. intros worker m _ _. by apply honest_7.
Qed.

Lemma from_both_keeps w a : a ∈ from_both -> ~ ends w a (key sub_at_5).
Proof. intros [->|[->|Ha]%elem_of_cons]%elem_of_cons; [by intros []|by intros []|by apply elem_of_nil in Ha]. Qed.

Lemma copilot_delivers_witness : exists es b' accepted, events delivered = events started ++ es /\
  client_run (updates_to (7, 9) es) client_at_5 = (b', accepted) /\ payloads accepted = [[Byte.x70]] /\ expected_seqno_ b' = 8.
Proof.
  destruct (copilot_delivers one_worker 0 (fun host => host) (fun _ => 0) example_log two_towers [client_subscribe 5 9 7] started from_both delivered topic_ba sub_at_5
    client_at_5 ltac:(done) two_towers_ok (started_runs _) started_holds (from_both_runs _ from_both_keeps)) as (es & He & Hany & Hroom).
  destruct (Hany ltac:(done) ltac:(done)) as (s1 & b1 & acc & Hs1 & Hk1 & Hrun1 & _ & _ & Hp).
  destruct Hroom as (s' & b' & Hs' & Hk & Hrun & Hb); [|done|].
  { apply from_both_runs. intros w a Ha. split; [|by apply from_both_keeps]. by intros [es0 Hes]. }
  assert (client_seqno s' = 8) as E.
  { destruct Hs' as (tp & Htp & Hin). vm_compute in Htp. injection Htp as <-. by apply list_elem_of_singleton in Hin as ->. }
  change (key sub_at_5) with (7, 9) in *. rewrite Hrun in Hrun1. injection Hrun1 as <- <-. rewrite <-Hb, E in Hp. exists es, b', (updates_to (7, 9) es).
  split_and!; [done|exact Hrun| |congruence]. etrans; [exact Hp|]. by vm_compute.
Defined.

Lemma goodbye_silences_witness : exists w1, run_copilot one_worker 0 (fun host => host) open_env (goodbye_from OriginClient 7) started = Ok w1 /\
  forall u s, holds w1 u s -> client_stream s <> 7.
Proof.
  eexists. split; [vm_compute; reflexivity|].
  eapply (goodbye_silences one_worker 0 (fun host => host) (fun _ => 0) two_towers [client_subscribe 5 9 7] started open_env 0 (goodbye_message OriginClient) 0 7 _ [] _ 9
    ltac:(done) two_towers_ok (started_runs _) eq_refl); [vm_compute; reflexivity|constructor].
Defined.
