(* ===== verification/CopilotCover.v ===== *)
(** * Copilot worker: no subscription is left behind

    The invariant that relates the subscriptions of clients to those of the
    worker at the towers: a subscription that is not at the tail has a tower
    that follows the topic from its place or before, or a request to
    resubscribe that does not pass it, or the topic waits for the answer of a
    tower that was asked for the tail.  The last happens only for a topic
    whose tail some client has asked for.
    This file shows that the invariant is kept by the parts of the handlers;
    [CopilotRecovery] has the handlers and the theorems. *)

From S2P Require Import Prelude Coding CodingFacts Messages Containers TopicManager TimeoutList CopilotWorker CopilotRequests CopilotTowers CopilotSteps CopilotHandlers CopilotClients CopilotTimer.

#[local] Open Scope outcome_scope.

Implicit Types (w : CopilotWorker) (u uuid : TopicUUID) (topic : TopicState) (s : Subscription) (t : Tower) (es : list CopilotEvent).
Implicit Types (subs : list Subscription) (ts : list Tower) (r : ResubscribeRequest).

(** ** Requests seen from the topics *)

Definition requested w u r : Prop := exists address, active_requests_ w !! u = Some address /\ (address, r) ∈ requests w.

(** The requests of the topics other than those in [U] are the same. *)
Definition others_requests (U : TopicUUID -> Prop) w w' : Prop := forall x, ~ U x ->
  active_requests_ w' !! x = active_requests_ w !! x /\ forall r, requested w' x r -> requested w x r.

Lemma others_requests_same U w w' : same_requests w w' -> others_requests U w w'.
Proof. intros (Hc & Hp & Ha & _) x _. split; [by rewrite Ha|]. unfold requested, requests. by rewrite Ha, Hc, Hp. Qed.

Lemma requested_same w w' u r : same_requests w w' -> requested w' u r <-> requested w u r.
Proof. intros (Hc & Hp & Ha & _). unfold requested, requests. by rewrite Ha, Hc, Hp. Qed.

Lemma others_requests_trans U w1 w2 w3 : others_requests U w1 w2 -> others_requests U w2 w3 -> others_requests U w1 w3.
Proof. intros H1 H2 x Hx. destruct (H1 x Hx) as [A1 R1], (H2 x Hx) as [A2 R2]. split; [congruence|auto]. Qed.

Lemma requested_active w u r : requested w u r -> is_Some (active_requests_ w !! u).
Proof. intros (a & Ha & _). by eexists. Qed.

(** A request is scheduled unless there is one. *)
Lemma ScheduleRequest_requested w u seqno zero pending : requests_ok w -> let w' := ScheduleRequest w u seqno zero pending in
  others_requests (fun x => x = u) w w' /\ is_Some (active_requests_ w' !! u) /\
  (forall r, requested w' u r -> requested w u r \/ (active_requests_ w !! u = None /\ request_seqno r = seqno /\ request_have_zero_sub r = zero)).
Proof.
  intros Hok. cbn. unfold ScheduleRequest. destruct (HasActiveResubscribeRequest w u) eqn:E; unfold HasActiveResubscribeRequest in E.
  { apply bool_decide_eq_true in E. split_and!; [by apply others_requests_same|done|by left]. }
  apply bool_decide_eq_false in E. assert (active_requests_ w !! u = None) as Hno by (by apply eq_None_not_Some).
  set (new := (next_request w, _)). set (w' := set_requests _ _ _ _ w).
  assert (forall e, e ∈ requests w' -> e ∈ requests w \/ e = new) as Hnew.
  { unfold w', requests. cbn. intros e. destruct pending; rewrite !elem_of_app, ?list_elem_of_singleton; tauto. }
  split_and!.
  - intros x Hx. unfold w'. cbn. split; [by rewrite lookup_insert_ne|]. intros r (a & Ha & Hin). cbn in Ha. rewrite lookup_insert_ne in Ha by done.
    exists a. split; [done|]. destruct (Hnew _ Hin) as [|[= -> _]]; [done|]. destruct (rq_active w Hok _ _ Ha) as (r' & Hr' & _).
    pose proof (rq_fresh w Hok _ Hr'). cbn in *. lia.
  - unfold w'. cbn. rewrite lookup_insert_eq. by eexists.
  - intros r (a & Ha & Hin). unfold w' in Ha. cbn in Ha. rewrite lookup_insert_eq in Ha. injection Ha as <-. right. split; [done|].
    destruct (Hnew _ Hin) as [Hin'|[= ->]]; [|done]. pose proof (rq_fresh w Hok _ Hin'). cbn in *. lia.
Qed.

(** Cancelled requests leave the others alone. *)
Lemma CancelResubscribeRequest_requested w u w' : requests_ok w -> CancelResubscribeRequest w u = Ok w' ->
  others_requests (fun x => x = u) w w' /\ active_requests_ w' !! u = None.
Proof.
  intros Hok. unfold CancelResubscribeRequest. destruct (active_requests_ w !! u) as [a|] eqn:Ea; [|intros [= <-]; split; [by apply others_requests_same|done]].
  destruct (is_allocated a w); [|done]. cbn. intros E%Ok_inj. subst w'. split; [|cbn; by rewrite lookup_delete_eq].
  intros x Hx. cbn. rewrite lookup_delete_ne by done. split; [done|]. intros r (b & Hb & Hin). cbn in Hb. rewrite lookup_delete_ne in Hb by done.
  exists b. split; [done|]. destruct (rq_active w Hok _ _ Hb) as (rb & Hrb & Ht & _). destruct (rq_active w Hok _ _ Ea) as (ra & Hra & Ht' & _).
  assert (b <> a) as Hne.
  { intros ->. assert (rb = ra) as ->; [|congruence]. by eapply (NoDup_fst_inj (requests w)); [apply Hok|..]. }
  unfold requests in Hin |- *. cbn in Hin. apply elem_of_app in Hin. apply elem_of_app.
  destruct Hin as [Hin|Hin]; apply elem_of_cancel_in in Hin as (e0 & Hin & _ & [[_ ->]|[Hfa _]]); cbn in *; [by left|done|by right|done].
Qed.

Lemma PopNextResubscribeRequest_requested w w' r : requests_ok w -> PopNextResubscribeRequest w = Ok (w', r) ->
  others_requests (fun x => x = request_topic r) w w' /\ requested w (request_topic r) r /\ active_requests_ w' !! request_topic r = None.
Proof.
  intros Hok. unfold PopNextResubscribeRequest. destruct (CleanRequestQueues_ok w Hok) as (Hok1 & Htop & _).
  assert (active_requests_ (CleanRequestQueues w) = active_requests_ w) as Ha.
  { unfold CleanRequestQueues. by destruct (_ && _). }
  assert (forall e, e ∈ requests (CleanRequestQueues w) -> e ∈ requests w) as Hsub.
  { destruct (NoDup_parts w Hok) as [Hc Hp]. intros e He. assert (e ∈ CleanRequestQueue (current_queue_ w) \/ e ∈ CleanRequestQueue (pending_queue_ w)) as Hin.
    { unfold CleanRequestQueues, requests in He. destruct (_ && _); cbn in He; apply elem_of_app in He; tauto. }
    apply elem_of_app. destruct Hin as [Hin|Hin]; [left|right]; (eapply elem_of_sublist; [exact Hin|by apply CleanRequestQueue_spec]). }
  remember (CleanRequestQueues w) as w1 eqn:Ew1. clear Ew1. destruct (top (current_queue_ w1)) as [[a e]|] eqn:Et; [|done]. cbn [snd]. intros [= <- <-].
  assert ((a, e) ∈ requests w1) as Hin by (apply elem_of_app; left; by apply top_in).
  pose proof (rq_live _ Hok1 _ Hin (Htop _ eq_refl)) as Hlive. cbn in Hlive. rewrite Ha in Hlive. split_and!.
  - intros x Hx. cbn. rewrite lookup_delete_ne, Ha by done. split; [done|]. intros r (b & Hb & Hr). cbn in Hb. rewrite lookup_delete_ne in Hb by done.
    exists b. split; [done|]. apply Hsub. unfold requests in Hr |- *. cbn in Hr. apply elem_of_app in Hr. apply elem_of_app. destruct Hr as [Hr|Hr]; [left|by right].
    unfold pop in Hr. rewrite Et in Hr. by apply list_elem_of_filter in Hr as [_ Hr].
  - exists a. split; [done|by apply Hsub].
  - cbn. by rewrite lookup_delete_eq.
Qed.

(** ** Subscriptions that have a tower *)

Definition from_start subs : Prop := forall s, s ∈ subs -> 0 <= client_seqno s.

(** Nobody expects a record before [seqno]. *)
Definition below (seqno : Z) subs : Prop := 0 <= seqno /\ forall s, s ∈ subs -> client_seqno s <> 0 -> seqno <= client_seqno s.

(** A tower subscription that serves [s]: it is at a place of the log, which is
    not after the one [s] is at.  A tower at 0 was asked for the tail and will
    tell where that is before anything is passed on ([ProcessGap_heals]). *)
Definition follows ts s : Prop := exists t, t ∈ ts /\ 0 < tower_next_seqno t <= client_seqno s.

Definition awaits_tail ts : Prop := exists t, t ∈ ts /\ tower_next_seqno t = 0.

Definition covered ts subs : Prop := forall s, s ∈ subs -> client_seqno s <> 0 -> follows ts s \/ awaits_tail ts.

Lemma covered_intro ts subs : (forall s, s ∈ subs -> client_seqno s <> 0 -> exists t, t ∈ ts /\ 0 <= tower_next_seqno t <= client_seqno s) -> covered ts subs.
Proof.
  intros H s Hs Hnz. destruct (H s Hs Hnz) as (t & Ht & Hle). destruct (decide (tower_next_seqno t = 0)); [right|left]; exists t; (split; [done|]); [done|lia].
Qed.

Lemma covered_elim ts subs s : from_start subs -> covered ts subs -> s ∈ subs -> client_seqno s <> 0 ->
  exists t, t ∈ ts /\ 0 <= tower_next_seqno t <= client_seqno s.
Proof. intros Hst Hc Hs Hnz. specialize (Hst s Hs). destruct (Hc s Hs Hnz) as [(t & Ht & ?)|(t & Ht & ?)]; exists t; (split; [done|lia]). Qed.

(** Nothing of the topic is at the tail. *)
Record tail_free w u topic : Prop := {
  tf_subs : forall s, s ∈ subscriptions topic -> client_seqno s <> 0;
  tf_towers : forall t, t ∈ towers topic -> tower_next_seqno t <> 0;
  tf_requests : forall r, requested w u r -> request_seqno r <> 0 /\ request_have_zero_sub r = false
}.

Section Asked.
(** The topics whose tail was asked for. *)
Context (tail_asked : TopicUUID -> Prop).

Record topic_cover w u topic : Prop := {
  cv_start : from_start (subscriptions topic);
  cv_next : forall t, t ∈ towers topic -> 0 <= tower_next_seqno t;
  cv_request : forall r, requested w u r -> below (request_seqno r) (subscriptions topic);
  cv_towers : active_requests_ w !! u = None -> covered (towers topic) (subscriptions topic);
  cv_tail : ~ tail_asked u -> tail_free w u topic
}.

Definition cover w : Prop := routing_total w /\ forall u topic, topics_ w !! u = Some topic -> topic_cover w u topic.

Lemma topic_cover_others U w w' x topic : others_requests U w w' -> ~ U x -> topic_cover w x topic -> topic_cover w' x topic.
Proof.
  intros Ho Hx [H1 H2 H3 H4 H5]. destruct (Ho x Hx) as [Ha Hr]. split; [done|done|auto|rewrite Ha; done|].
  intros Hn. destruct (H5 Hn) as [F1 F2 F3]. split; auto.
Qed.

Lemma tail_free_ext w w' u topic topic' : (forall r, requested w' u r -> requested w u r) -> subscriptions topic' = subscriptions topic ->
  towers topic' = towers topic -> tail_free w u topic -> tail_free w' u topic'.
Proof. intros Hr Hs Ht [F1 F2 F3]. split; rewrite ?Hs, ?Ht; auto. Qed.

Lemma cover_put w w' u topic : cover w -> topics_ w' = topics_ w -> routing_total w' -> others_requests (fun x => x = u) w w' ->
  topic_cover w' u topic -> cover (put_topic u (w', topic)).
Proof.
  intros [_ Hc] Ht Hr Ho Hu. split; [done|]. unfold put_topic. cbn. rewrite Ht. intros x tp Hx. apply lookup_insert_Some in Hx as [[<- <-]|[Hne Hx]].
  - destruct Hu as [H1 H2 H3 H4 H5]. split; [done..|]. intros Hn. destruct (H5 Hn). by split.
  - destruct (topic_cover_others _ w w' x tp Ho) as [H1 H2 H3 H4 H5]; [congruence|by apply Hc|]. split; [done..|]. intros Hn. destruct (H5 Hn). by split.
Qed.

Lemma cover_same w w' : cover w -> topics_ w' = topics_ w -> routing_total w' -> same_requests w w' -> cover w'.
Proof.
  intros [_ Hc] Ht Hr Hs. split; [done|]. rewrite Ht. intros x tp Hx. eapply (topic_cover_others nowhere); [by apply others_requests_same|by intros []|by apply Hc].
Qed.

Lemma cover_quiet w w' : cover w -> quiet nowhere w w' -> cover w'.
Proof. intros Hc Hq. apply (cover_same w); [done|apply Hq|apply Hq, Hc|]. apply Hq. by intros u []. Qed.

(** Fewer subscriptions. *)
Lemma topic_cover_subset w u topic topic' : (forall s, s ∈ subscriptions topic' -> s ∈ subscriptions topic) -> towers topic' = towers topic ->
  topic_cover w u topic -> topic_cover w u topic'.
Proof.
  intros Hs Ht [H1 H2 H3 H4 H5]. split.
  - intros s Hin. by apply H1, Hs.
  - by rewrite Ht.
  - intros r Hr. destruct (H3 r Hr) as [H0 Hb]. split; [done|]. intros s Hin. by apply Hb, Hs.
  - intros Ha. rewrite Ht. intros s Hin. apply (H4 Ha). by apply Hs.
  - intros Hn. destruct (H5 Hn) as [F1 F2 F3]. split; [intros s Hin; by apply F1, Hs|by rewrite Ht|done].
Qed.

(** ** The earliest subscription *)

Lemma FindLowest_loop_below subs n zero m z : from_start subs -> 0 <= n -> FindLowest_loop subs n zero = (m, z) -> below m subs /\ (n <> 0 -> m <= n).
Proof.
  intros Hst. revert n zero. induction subs as [|s subs IH]; intros n zero H0; cbn [FindLowest_loop].
  { intros [= -> ->]. split; [|lia]. split; [done|by intros s ?%elem_of_nil]. }
  pose proof (Hst s ltac:(by left)) as Hs0.
  destruct (Z.eqb_spec (client_seqno s) 0) as [Hz|Hz]; cbn [negb]; intros E; (apply IH in E as [[H0m Hb] Hm]; [|intros s' Hs'; apply Hst; by right|]).
  - split; [|done]. split; [done|]. intros s' [->|Hs']%elem_of_cons; [done|by apply Hb].
  - done.
  - assert (m <= client_seqno s /\ (n <> 0 -> m <= n)) as [Hs Hn] by (destruct (n =? 0) eqn:?, (client_seqno s <? n) eqn:?; cbn in Hm; lia).
    split; [|done]. split; [done|]. intros s' [->|Hs']%elem_of_cons; [done|by apply Hb].
  - destruct (_ || _); lia.
Qed.

Lemma FindLowest_below topic m z : from_start (subscriptions topic) -> FindLowestSequenceNumber topic = (m, z) -> below m (subscriptions topic).
Proof. intros Hst E. by apply FindLowest_loop_below in E as [Hb _]. Qed.

Lemma FindLowest_loop_free subs n zero m z : (forall s, s ∈ subs -> client_seqno s <> 0) -> FindLowest_loop subs n zero = (m, z) ->
  z = zero /\ (n <> 0 \/ subs <> [] -> m <> 0).
Proof.
  revert n. induction subs as [|s subs IH]; intros n Hnz; cbn [FindLowest_loop]; [intros [= -> ->]; split; [done|by intros [?|?]]|].
  pose proof (Hnz s ltac:(by left)) as Hs. rewrite (proj2 (Z.eqb_neq _ _) Hs). cbn [negb]. intros E. apply IH in E as [-> Hm]; [|intros s' Hs'; apply Hnz; by right].
  split; [done|]. intros _. apply Hm. left. destruct (_ || _) eqn:Eb; [done|]. apply orb_false_iff in Eb as [Eb _]. by apply Z.eqb_neq.
Qed.

Lemma FindLowest_free topic m z : FindLowestSequenceNumber topic = (m, z) -> (forall s, s ∈ subscriptions topic -> client_seqno s <> 0) ->
  subscriptions topic <> [] -> m <> 0 /\ z = false.
Proof. intros E Hnz Hne. apply FindLowest_loop_free in E as [-> Hm]; [|done]. split; [|done]. apply Hm. by right. Qed.

(** What a request is that is made for the subscriptions of a topic. *)
Definition request_for topic r : Prop := below (request_seqno r) (subscriptions topic) /\
  ((forall s, s ∈ subscriptions topic -> client_seqno s <> 0) -> subscriptions topic <> [] -> request_seqno r <> 0 /\ request_have_zero_sub r = false).

Lemma ScheduleResubscribeRequest_requested w u topic : requests_ok w -> from_start (subscriptions topic) -> let w' := ScheduleResubscribeRequest w u topic in
  others_requests (fun x => x = u) w w' /\ is_Some (active_requests_ w' !! u) /\
  (forall r, requested w' u r -> requested w u r \/ request_for topic r).
Proof.
  intros Hok Hst. unfold ScheduleResubscribeRequest. destruct (FindLowestSequenceNumber topic) as [m z] eqn:E.
  pose proof (FindLowest_free topic m z E) as Hfree. apply FindLowest_below in E; [|done].
  destruct (ScheduleRequest_requested w u m z (0 <? length (pending_queue_ w))%nat Hok) as (Ho & Ha & Hr). split_and!; [done|done|].
  intros r Hq. destruct (Hr r Hq) as [|(_ & E1 & E2)]; [by left|right]. unfold request_for. by rewrite E1, E2.
Qed.

Section Cover.
Context (options : CopilotOptions) (myid : Z) (hash : Z -> Z) (worker_of : Z -> Z).
Hypothesis Hworkers : 0 < num_workers options.

Section Env.
Context (env : CopilotEnv).

(** ** Subscribing at the towers *)

Lemma UpdateTowerSubscriptionsAt_cover w u topic seqno zero force : valid_uuid u -> requests_ok w -> routing_ok w -> routing_total w ->
  towers_ok options (control_tower_sockets_ w) (towers topic) -> from_start (subscriptions topic) ->
  (forall t, t ∈ towers topic -> 0 <= tower_next_seqno t) -> below seqno (subscriptions topic) ->
  (forall r, requested w u r -> below (request_seqno r) (subscriptions topic)) ->
  (~ tail_asked u -> tail_free w u topic /\ seqno <> 0 /\ zero = false) ->
  exists w' ts, UpdateTowerSubscriptionsAt options myid hash env w u topic seqno zero force = Ok (w', set_towers ts topic) /\
    quiet (fun x => x = u) w w' /\ towers_ok options (control_tower_sockets_ w') ts /\ others_requests (fun x => x = u) w w' /\
    topic_cover w' u (set_towers ts topic) /\ ((forall es, tower_has_room env es = true) -> same_requests w w') /\
    (seqno <> 0 -> zero = false -> forall t, t ∈ ts -> tower_next_seqno t <> 0).
Proof.
  intros Hu Hrq Hro Htot Ht Hst Hnext Hb Hreq Htail.
  destruct (UpdateTowerSubscriptionsAt_quiet options myid hash Hworkers env w u topic seqno zero force Hu Hro Ht) as (w' & ts & E & Hq & Htw & Hts & Hrs).
  destruct (GetControlTowers_total w (log_id topic) Htot) as (out & Eo & Hne). rewrite Eo in Hts, Hrs. cbn [default from_option id] in Hts, Hrs.
  set (at_seqno := if (length out =? 1)%nat && zero then 0 else seqno) in *.
  assert (below at_seqno (subscriptions topic)) as Hb'.
  { unfold at_seqno. destruct (_ && _); [|done]. split; [done|]. intros s Hs _. by apply Hst. }
  assert (forall t, t ∈ ts -> 0 <= tower_next_seqno t) as Hpos.
  { intros t Hin. destruct Hts as [(-> & _ & _)|[Hf _]]; [by apply Hnext|]. rewrite Forall_forall in Hf. destruct (Hf t Hin) as [-> _]. apply Hb'. }
  assert ((length out <= length ts)%nat -> covered ts (subscriptions topic)) as Hcov.
  { intros Hlen. apply covered_intro. intros s Hs Hnz. destruct ts as [|t ts']; [destruct out; [done|cbn in Hlen; lia]|]. exists t. split; [by left|].
    split; [apply Hpos; by left|]. apply Hb' in Hnz as Hle; [|done].
    destruct Hts as [(_ & Hf & _)|[Hf _]]; apply Forall_cons in Hf as [Hf _]; [unfold unsuitable in Hf; lia|destruct Hf as [-> _]; lia]. }
  assert (seqno <> 0 -> zero = false -> at_seqno <> 0 /\ forall t, t ∈ ts -> tower_next_seqno t <> 0) as Hnz.
  { intros Hs0 Hz. assert (at_seqno = seqno) as Ea by (unfold at_seqno; by rewrite Hz, andb_false_r). rewrite Ea. split; [done|]. intros t Hin.
    rewrite Ea in Hts. destruct Hts as [(_ & Hf & _)|[Hf _]]; rewrite Forall_forall in Hf; specialize (Hf t Hin); [unfold unsuitable in Hf; lia|destruct Hf as [-> _]; done]. }
  exists w', ts. split_and!; [done|done|done|..].
  - destruct Hrs as [[Hs _]|(_ & wm & Hs & ->)]; [by apply others_requests_same|]. eapply others_requests_trans; [by apply others_requests_same|].
    apply ScheduleRequest_requested. destruct Hs as (? & ? & ? & ?). by apply (requests_ok_same w).
  - destruct Hrs as [[Hs Hlen]|(_ & wm & Hs & ->)].
    + split; cbn [subscriptions towers set_towers]; [done|done| |by intros _; apply Hcov|].
      * intros r Hr. apply Hreq. by apply (requested_same w w').
      * intros Hn. destruct (Htail Hn) as ([F1 F2 F3] & Hs0 & Hz). split; [done|by apply Hnz|]. intros r Hr. apply F3. by apply (requested_same w w').
    + assert (requests_ok wm) as Hrm by (destruct Hs as (? & ? & ? & ?); by apply (requests_ok_same w)).
      destruct (ScheduleRequest_requested wm u at_seqno zero true Hrm) as (_ & [a Ha] & Hr). split; cbn [subscriptions towers set_towers]; [done|done| |congruence|].
      * intros r Hq'. destruct (Hr r Hq') as [Hr'|(_ & -> & _)]; [|done]. apply Hreq. by apply (requested_same w wm).
      * intros Hn. destruct (Htail Hn) as ([F1 F2 F3] & Hs0 & Hz). split; [done|by apply Hnz|]. intros r Hq'.
        destruct (Hr r Hq') as [Hr'|(_ & -> & ->)]; [apply F3; by apply (requested_same w wm)|]. split; [by apply Hnz|done].
  - intros Hacc. destruct Hrs as [[Hs _]|(Hlt & _)]; [done|]. exfalso. destruct Hts as [(_ & _ & Hge)|[_ Hm]]; [lia|].
    specialize (Hm Hacc). apply (f_equal length) in Hm. rewrite !length_map in Hm. lia.
  - intros Hs0 Hz. by apply Hnz.
Qed.

Lemma UpdateTowerSubscriptions_cover w u topic force : valid_uuid u -> requests_ok w -> routing_ok w -> routing_total w ->
  towers_ok options (control_tower_sockets_ w) (towers topic) -> from_start (subscriptions topic) -> (forall t, t ∈ towers topic -> 0 <= tower_next_seqno t) ->
  (forall r, requested w u r -> below (request_seqno r) (subscriptions topic)) -> subscriptions topic <> [] -> (~ tail_asked u -> tail_free w u topic) ->
  exists w' ts, UpdateTowerSubscriptions options myid hash env w u topic force = Ok (w', set_towers ts topic) /\
    quiet (fun x => x = u) w w' /\ towers_ok options (control_tower_sockets_ w') ts /\ others_requests (fun x => x = u) w w' /\
    topic_cover w' u (set_towers ts topic) /\ ((forall es, tower_has_room env es = true) -> same_requests w w') /\
    ((forall s, s ∈ subscriptions topic -> client_seqno s <> 0) -> forall t, t ∈ ts -> tower_next_seqno t <> 0).
Proof.
  intros Hu Hrq Hro Htot Ht Hst Hnext Hreq Hne Htail. unfold UpdateTowerSubscriptions. destruct (FindLowestSequenceNumber topic) as [m z] eqn:E.
  pose proof (FindLowest_free topic m z E) as Hfree. apply FindLowest_below in E; [|done].
  destruct (UpdateTowerSubscriptionsAt_cover w u topic m z force) as (w' & ts & E' & Hq & Htw & Ho & Hcv & Hs & Hnz); try done.
  { intros Hn. pose proof (Htail Hn) as Hf. split; [done|]. apply Hfree; [apply Hf|done]. }
  exists w', ts. split_and!; try done. intros Hall. apply Hnz; by apply Hfree.
Qed.
End Env.
End Cover.
End Asked.
