(* ===== verification/CopilotRecovery.v ===== *)
(** * Copilot worker: towers for every subscription

    Each handler keeps the invariant of [CopilotCover]; the theorems about it;
    and closed runs that show where it fails without their hypotheses. *)

From S2P Require Import Prelude Coding CodingFacts Messages Containers SubscriptionsMap TopicManager TimeoutList CopilotWorker CopilotRequests CopilotTowers CopilotSteps CopilotHandlers CopilotClients CopilotTimer CopilotDelivery CopilotCover.

#[local] Open Scope outcome_scope.

Implicit Types (w : CopilotWorker) (u uuid : TopicUUID) (topic : TopicState) (s : Subscription) (t : Tower) (es : list CopilotEvent).
Implicit Types (subs : list Subscription) (ts : list Tower) (r : ResubscribeRequest).

(** What towers send: updates with a range of sequence numbers, and gaps from 0
    that tell where the tail is. *)
Definition sends (u : TopicUUID) (p : option slice) (prev cur : Z) : Prop := (prev = 0 /\ p = None) \/ (0 < prev <= cur /\ cur < 2 ^ 64 - 1).

(** ** Sending to clients *)

(** Where the subscriptions are after an update was sent to those at which
    [cond] holds. *)
Definition sent_to (cond : Subscription -> bool) (next : Z) subs subs' : Prop := forall s', s' ∈ subs' ->
  exists s, s ∈ subs /\ ((cond s = false /\ s' = s) \/ (cond s = true /\ client_seqno s' = next)).

Lemma fanned_sent_to full cond make next subs subs' es : fanned full cond make next subs subs' es -> ~ full -> sent_to cond next subs subs'.
Proof.
  intros Hf Hn. induction Hf as [|s subs subs' es Hc Hf IH|s subs subs' es m Hc _ Hf IH|]; [by intros s' ?%elem_of_nil|..|done];
    intros s' [->|Hs']%elem_of_cons.
  - exists s. split; [by left|by left].
  - destruct (IH s' Hs') as (s0 & ? & ?). exists s0. split; [by right|done].
  - exists s. split; [by left|by right].
  - destruct (IH s' Hs') as (s0 & ? & ?). exists s0. split; [by right|done].
Qed.

Lemma sent_to_start cond next subs subs' : sent_to cond next subs subs' -> 0 <= next -> from_start subs -> from_start subs'.
Proof. intros Hs Hn Hf s' Hs'. destruct (Hs s' Hs') as (s & Hin & [[_ ->]|[_ ->]]); [by apply Hf|done]. Qed.

Lemma sent_to_below cond next subs subs' q : sent_to cond next subs subs' -> below q subs -> (next <> 0 -> q <= next) -> below q subs'.
Proof.
  intros Hs [H0 Hb] Hn. split; [done|]. intros s' Hs' Hnz. destruct (Hs s' Hs') as (s & Hin & [[_ ->]|[_ E]]); [by apply Hb|]. rewrite E in *. auto.
Qed.

Lemma sent_to_nonzero cond next subs subs' : sent_to cond next subs subs' -> (forall s, s ∈ subs -> client_seqno s <> 0) ->
  (forall s, s ∈ subs -> cond s = true -> next <> 0) -> forall s, s ∈ subs' -> client_seqno s <> 0.
Proof. intros Hs Hz Hn s' Hs'. destruct (Hs s' Hs') as (s & Hin & [[_ ->]|[Hc ->]]); [by apply Hz|by apply (Hn s)]. Qed.

Lemma fanned_some {full} cond make next subs subs' es : fanned full cond make next subs subs' es -> subs <> [] -> subs' <> [].
Proof. intros Hf Hn ->. apply fanned_keys in Hf. by destruct subs. Qed.

(** Towers that have moved. *)
Lemma advanced_all prev cur ts ts' (P : Z -> Prop) : Forall2 (advanced prev cur) ts ts' -> (forall t, t ∈ ts -> P (tower_next_seqno t)) ->
  (forall t, t ∈ ts -> prev <= tower_next_seqno t <= cur -> (prev = 0 <-> tower_next_seqno t = 0) -> P (u64 (cur + 1))) -> forall t, t ∈ ts' -> P (tower_next_seqno t).
Proof.
  intros Ha Hp Hn t' Ht'. apply list_elem_of_lookup in Ht' as [i Hi]. destruct (Forall2_lookup_r _ _ _ _ _ Ha Hi) as (t & Hi' & Hadv).
  apply list_elem_of_lookup_2 in Hi'. destruct Hadv as [->|(Hr & Hz & ->)]; [by apply Hp|]. cbn. by apply (Hn t).
Qed.

Section Updates.
Context (prev cur : Z).
Hypothesis Hprev : 0 < prev <= cur.
Hypothesis Hcur : cur < 2 ^ 64 - 1.

Lemma after_cur : u64 (cur + 1) = cur + 1.
Proof. apply wrap_small. unfold fits. lia. Qed.

Lemma sent_below subs subs' q : sent_to (fun s => takes (client_seqno s) prev cur) (u64 (cur + 1)) subs subs' -> below q subs -> below q subs'.
Proof.
  intros Hs [H0 Hb]. split; [done|]. intros s' Hs' Hnz. destruct (Hs s' Hs') as (s & Hin & [[_ ->]|[Ht ->]]); [by apply Hb|].
  rewrite after_cur. unfold takes in Ht. specialize (Hb s Hin ltac:(lia)). lia.
Qed.

(** A tower that moves past an update moves past no subscription that does not
    get it. *)
Lemma advance_covered ts ts' subs subs' : Forall2 (advanced prev cur) ts ts' -> from_start subs -> covered ts subs ->
  sent_to (fun s => takes (client_seqno s) prev cur) (u64 (cur + 1)) subs subs' -> covered ts' subs'.
Proof.
  intros Ha Hst Hc Hs. apply covered_intro. intros s' Hs' Hnz. destruct (Hs s' Hs') as (s & Hin & Hcase).
  assert (client_seqno s <> 0) as Hsz by (destruct Hcase as [[_ <-]|[Ht _]]; [done|unfold takes in Ht; lia]).
  destruct (covered_elim ts subs s Hst Hc Hin Hsz) as (t & Ht & Hle). apply list_elem_of_lookup in Ht as [i Hi]. destruct (Forall2_lookup_l _ _ _ _ _ Ha Hi) as (t' & Hi' & Hadv).
  exists t'. split; [by eapply list_elem_of_lookup_2|]. rewrite after_cur in Hcase.
  destruct Hadv as [->|(Hr & Hz & ->)], Hcase as [[Hn ->]|[Ht ->]]; cbn [tower_next_seqno set_tower_seqno]; rewrite ?after_cur; unfold takes in *; lia.
Qed.
End Updates.

(** A place for a subscription that no request passes. *)
Definition place_ok w u (place : Z) : Prop := place <> 0 -> forall r, requested w u r -> request_seqno r <= place.

(** The topic whose tail an action asks for, and those of a run. *)
Definition asks (a : copilot_action) u : Prop :=
  match a with
  | Command _ (Messages.Subscribe d) _ _ => start_seqno_ d = 0 /\ u = NewTopicUUID (sub_namespace_id_ d) (sub_topic_name_ d)
  | _ => False
  end.

#[global] Instance asks_dec a u : Decision (asks a u).
Proof. unfold asks. destruct a as [? []| | |]; apply _. Defined.

Definition asks_tail (acts : list copilot_action) u : Prop := List.Exists (fun a => asks a u) acts.

(** [s] has a tower, with an open stream, that follows the topic from a place
    of the log that is not after the one [s] is at. *)
Definition followed w u s : Prop := exists topic t, topics_ w !! u = Some topic /\ t ∈ towers topic /\
  0 < tower_next_seqno t <= client_seqno s /\ is_Some (control_tower_sockets_ w !! tower_stream t).

(** The topic has a request to resubscribe at a place that does not pass [s];
    the place is the tail only if [at_tail]. *)
Definition resubscribes (at_tail : Prop) w u s : Prop := exists r, requested w u r /\ request_topic r = u /\ cancelled r = false /\
  0 <= request_seqno r <= client_seqno s /\ (request_seqno r = 0 -> at_tail).

(** A tower with an open stream was asked for the tail and has not answered. *)
Definition tail_awaited w u : Prop := exists topic t, topics_ w !! u = Some topic /\ t ∈ towers topic /\ tower_next_seqno t = 0 /\
  is_Some (control_tower_sockets_ w !! tower_stream t).

Section Recovery.
Context (options : CopilotOptions) (myid : Z) (hash : Z -> Z) (worker_of : Z -> Z).
Hypothesis Hworkers : 0 < num_workers options.
(** The topics whose tail some client has asked for. *)
Context (tail_asked : TopicUUID -> Prop).

#[local] Abbreviation ok := (copilot_ok options worker_of).
#[local] Abbreviation cover := (CopilotCover.cover tail_asked).
#[local] Abbreviation topic_cover := (CopilotCover.topic_cover tail_asked).

Section Env.
Context (env : CopilotEnv).
Hypothesis Hclients : forall es, client_has_room env es = true.

Lemma clients_not_full : ~ client_full env.
Proof. intros [es He]. by rewrite Hclients in He. Qed.

(** ** Updates from the towers *)

Lemma data_cover w u topic ts subs es records gaps prev cur : cover w -> topics_ w !! u = Some topic -> 0 < prev <= cur -> cur < 2 ^ 64 - 1 ->
  Forall2 (advanced prev cur) (towers topic) ts ->
  sent_to (fun s => takes (client_seqno s) prev cur) (u64 (cur + 1)) (subscriptions topic) subs ->
  cover (put_topic u (set_events es w, set_sent records gaps (set_subs subs (set_towers ts topic)))).
Proof.
  intros Hc Ht Hp Hcur Ha Hs. destruct (proj2 Hc u topic Ht) as [H1 H2 H3 H4 H5]. apply (cover_put _ w); [done|done|apply Hc|by apply others_requests_same|].
  split; cbn [subscriptions towers set_sent set_subs set_towers].
  - eapply sent_to_start; [exact Hs| |done]. apply (wrap_fits 64). lia.
  - eapply (advanced_all prev cur _ _ (fun n => 0 <= n)); [exact Ha|exact H2|]. intros _ _ _ _. apply (wrap_fits 64). lia.
  - intros r Hr. eapply sent_below; [exact Hp|exact Hcur|exact Hs|]. by apply H3.
  - intros Hno. eapply advance_covered; [exact Hp|exact Hcur|exact Ha|exact H1| |exact Hs]. by apply H4.
  - intros Hn. destruct (H5 Hn) as [F1 F2 F3]. assert (u64 (cur + 1) <> 0) as Hnz by (rewrite (after_cur prev cur Hp Hcur); lia). split; [|..|done].
    + eapply sent_to_nonzero; [exact Hs|exact F1|done].
    + eapply (advanced_all prev cur _ _ (fun n => n <> 0)); [exact Ha|exact F2|done].
Qed.

Lemma ProcessData_cover w msg origin w' : ok w -> cover w ->
  tower_honest sends w origin (deliver_sub_id_ (ddata_deliver msg)) (Some (ddata_payload_ msg)) (deliver_seqno_prev_ (ddata_deliver msg)) (deliver_seqno_ (ddata_deliver msg)) ->
  ProcessData options env w msg origin = Ok w' -> cover w'.
Proof.
  intros Hok Hc Hh. unfold ProcessData. set (sub_id := deliver_sub_id_ _) in *. set (prev := deliver_seqno_prev_ _) in *. set (cur := deliver_seqno_ _) in *.
  destruct (SubscriptionMap.Find _ origin sub_id) as [u|] eqn:Ef; [|by intros [= <-]]. destruct (topics_ w !! u) as [topic|] eqn:Et; [|by intros [= <-]].
  pose proof (ok_topic _ _ w Hok u topic Et) as Hts. destruct (AdvanceTowers_ok options w topic prev cur origin sub_id (ts_towers _ _ _ _ _ _ Hts)) as (ts & -> & _ & Hadv).
  cbn [obind subscriptions set_towers]. set (make := fun s => _).
  destruct (deliver_loop_fanned options env w (subscriptions topic) prev cur make) as (subs' & sent & es & -> & Hf).
  { apply Forall_forall. intros s Hs. split; [by apply (ts_worker _ _ _ _ _ _ Hts)|]. intros Htk%takes_le. apply NewDeliverData_ok. lia. }
  cbn [obind]. intros <-%Ok_inj. apply fanned_sent_to in Hf; [|exact clients_not_full].
  assert (sends u (Some (ddata_payload_ msg)) prev cur) as [[_ [=]]|[Hp Hcur]] by (eapply tower_honest_P; [apply Hok|exact Hh|done]).
  by apply (data_cover w u topic ts subs' _ _ _ prev cur).
Qed.

(** After towers or subscriptions have been placed anew, the towers are asked
    again where needed. *)
Lemma update_cover w w1 u topic force : requests_ok w1 -> routing_ok w1 -> cover w -> topics_ w1 = topics_ w -> valid_uuid u -> routing_total w1 ->
  others_requests (fun x => x = u) w w1 ->
  towers_ok options (control_tower_sockets_ w1) (towers topic) -> from_start (subscriptions topic) -> (forall t, t ∈ towers topic -> 0 <= tower_next_seqno t) ->
  (forall r, requested w1 u r -> below (request_seqno r) (subscriptions topic)) -> subscriptions topic <> [] -> (~ tail_asked u -> tail_free w1 u topic) ->
  exists res, UpdateTowerSubscriptions options myid hash env w1 u topic force = Ok res /\ cover (put_topic u res) /\
    ((forall s, s ∈ subscriptions topic -> client_seqno s <> 0) -> forall t, t ∈ towers (snd res) -> tower_next_seqno t <> 0).
Proof.
  intros Hrq Hro Hc Ht Hu Htot Hoth Htw Hst Hpos Hreq Hne Htail.
  destruct (UpdateTowerSubscriptions_cover tail_asked options myid hash Hworkers env w1 u topic force) as (w' & ts & -> & Hq & _ & Ho & Hcv & _ & Hnz); [done..|].
  eexists. split_and!; [reflexivity| |exact Hnz]. apply (cover_put _ w); [done|rewrite (q_topics _ _ _ Hq); done|by apply Hq|by eapply others_requests_trans|done].
Qed.

(** A tower tells where the tail is: no tower of the topic is at 0 after that,
    unless the place is beyond the last sequence number. *)
Lemma ProcessGap_tail w msg origin u topic : ok w -> cover w ->
  SubscriptionMap.Find (sub_to_topic_ w) origin (deliver_sub_id_ (dgap_deliver msg)) = Some u -> topics_ w !! u = Some topic ->
  deliver_seqno_prev_ (dgap_deliver msg) = 0 -> place_ok w u (u64 (deliver_seqno_ (dgap_deliver msg) + 1)) ->
  exists res, ProcessGap options myid hash env w msg origin = Ok (put_topic u res) /\ cover (put_topic u res) /\
    (0 <= deliver_seqno_ (dgap_deliver msg) < 2 ^ 64 - 1 -> forall t, t ∈ towers (snd res) -> tower_next_seqno t <> 0).
Proof.
  intros Hok Hc Ef Et Hz Hpl. unfold ProcessGap. rewrite Ef, Et, Hz. set (sub_id := deliver_sub_id_ _) in *. set (cur := deliver_seqno_ _) in *.
  pose proof (ok_topic _ _ w Hok u topic Et) as Hts. destruct (AdvanceTowers_ok options w topic 0 cur origin sub_id (ts_towers _ _ _ _ _ _ Hts)) as (ts & -> & Htw & Hadv).
  cbn [obind subscriptions set_towers]. set (make := fun s => _).
  destruct (deliver_loop_fanned options env w (subscriptions topic) 0 cur make) as (subs' & sent & es & -> & Hf).
  { apply Forall_forall. intros s Hs. split; [by apply (ts_worker _ _ _ _ _ _ Hts)|]. intros Htk%takes_le. apply NewDeliverGap_ok. lia. }
  cbn [obind Z.eqb]. pose proof (fanned_some _ _ _ _ _ _ Hf (ts_some _ _ _ _ _ _ Hts)) as Hne.
  apply fanned_sent_to in Hf; [|exact clients_not_full]. destruct (proj2 Hc u topic Et) as [H1 H2 H3 H4 H5].
  set (w1 := set_events _ w). set (tp := set_sent _ _ _). assert (0 <= u64 (cur + 1)) as H0 by (apply (wrap_fits 64); lia).
  destruct (update_cover w w1 u tp false) as (res & -> & Hr & Hnz); [by apply (requests_ok_same w), Hok|apply Hok|done|done|apply Hts|apply Hc|by apply others_requests_same|exact Htw|..].
  - by eapply sent_to_start.
  - by eapply (advanced_all 0 cur _ _ (fun n => 0 <= n)).
  - intros r Hr. eapply sent_to_below; [exact Hf|by apply H3|exact (fun Hnz => Hpl Hnz r Hr)].
  - done.
  - intros Hn. destruct (H5 Hn) as [F1 F2 F3]. split; [|..|done].
    + eapply sent_to_nonzero; [exact Hf|exact F1|]. intros s Hs Htk. exfalso. specialize (F1 s Hs). unfold takes in Htk. lia.
    + eapply (advanced_all 0 cur _ _ (fun n => n <> 0)); [exact Hadv|exact F2|]. intros t Hin _ [Hz0 _]. exfalso. exact (F2 t Hin (Hz0 eq_refl)).
  - exists res. split_and!; [done|done|]. intros Hcur. apply Hnz. intros s' Hs'. specialize (Hf s' Hs') as (s & Hin & [[Htk ->]|[_ ->]]).
    + intros Hs0. unfold takes in Htk. rewrite Hs0 in Htk. lia.
    + rewrite (wrap_small 64) by (unfold fits; lia). lia.
Qed.

Lemma ProcessGap_cover w msg origin w' : ok w -> cover w ->
  tower_honest sends w origin (deliver_sub_id_ (dgap_deliver msg)) None (deliver_seqno_prev_ (dgap_deliver msg)) (deliver_seqno_ (dgap_deliver msg)) ->
  (deliver_seqno_prev_ (dgap_deliver msg) = 0 -> forall u, SubscriptionMap.Find (sub_to_topic_ w) origin (deliver_sub_id_ (dgap_deliver msg)) = Some u ->
     place_ok w u (u64 (deliver_seqno_ (dgap_deliver msg) + 1))) ->
  ProcessGap options myid hash env w msg origin = Ok w' -> cover w'.
Proof.
  intros Hok Hc Hh Hpl E. destruct (SubscriptionMap.Find (sub_to_topic_ w) origin (deliver_sub_id_ (dgap_deliver msg))) as [u|] eqn:Ef;
    [|unfold ProcessGap in E; rewrite Ef in E; by injection E as <-].
  destruct (topics_ w !! u) as [topic|] eqn:Et; [|unfold ProcessGap in E; rewrite Ef, Et in E; by injection E as <-].
  assert (sends u None (deliver_seqno_prev_ (dgap_deliver msg)) (deliver_seqno_ (dgap_deliver msg))) as [[Hz _]|[Hp Hcur]] by (eapply tower_honest_P; [apply Hok|exact Hh|done]).
  { destruct (ProcessGap_tail w msg origin u topic Hok Hc Ef Et Hz (Hpl Hz u eq_refl)) as (res & Er & Hr & _). rewrite E in Er. by apply Ok_inj in Er as ->. }
  revert E. unfold ProcessGap. rewrite Ef, Et. set (sub_id := deliver_sub_id_ _) in *. set (prev := deliver_seqno_prev_ _) in *. set (cur := deliver_seqno_ _) in *.
  pose proof (ok_topic _ _ w Hok u topic Et) as Hts. destruct (AdvanceTowers_ok options w topic prev cur origin sub_id (ts_towers _ _ _ _ _ _ Hts)) as (ts & -> & Htw & Hadv).
  cbn [obind subscriptions set_towers]. set (make := fun s => _).
  destruct (deliver_loop_fanned options env w (subscriptions topic) prev cur make) as (subs' & sent & es & -> & Hf).
  { apply Forall_forall. intros s Hs. split; [by apply (ts_worker _ _ _ _ _ _ Hts)|]. intros Htk%takes_le. apply NewDeliverGap_ok. lia. }
  cbn [obind]. apply fanned_sent_to in Hf; [|exact clients_not_full].
  destruct (Z.eqb_spec prev 0) as [|_]; [lia|]. cbn [obind]. intros <-%Ok_inj. by apply (data_cover w u topic ts subs' _ _ _ prev cur).
Qed.

Lemma advance_zero_towers_all w ts next origin ts' (P : Z -> Prop) : advance_zero_towers w ts next origin = Ok ts' ->
  (forall t, t ∈ ts -> P (tower_next_seqno t)) -> (forall t, t ∈ ts -> tower_next_seqno t = 0 -> P next) -> forall t, t ∈ ts' -> P (tower_next_seqno t).
Proof.
  revert ts'. induction ts as [|t ts IH]; intros ts'; cbn [advance_zero_towers]; [intros [= <-]; done|].
  intros (id & _ & (l & El & <-%Ok_inj)%obind_Ok)%obind_Ok Hp Hn t' [->|Ht']%elem_of_cons.
  - destruct ((id =? origin) && (tower_next_seqno t =? 0)) eqn:Eb; [|apply Hp; by left]. apply andb_true_iff in Eb as [_ Ez%Z.eqb_eq].
    cbn. apply (Hn t); [by left|done].
  - apply (IH l El); [| |done]; intros t0 Ht0; [apply Hp|apply Hn]; by right.
Qed.

Lemma ProcessTailSeqno_cover w msg origin w' : ok w -> cover w -> fits 64 (tail_seqno_ msg) ->
  place_ok w (NewTopicUUID (tail_namespace_id_ msg) (tail_topic_name_ msg)) (tail_seqno_ msg) ->
  ProcessTailSeqno options myid hash env w msg origin = Ok w' -> cover w'.
Proof.
  intros Hok Hc Hfit Hpl. unfold ProcessTailSeqno. set (u := NewTopicUUID _ _) in *. destruct (topics_ w !! u) as [topic|] eqn:Et; [|by intros [= <-]].
  pose proof (ok_topic _ _ w Hok u topic Et) as Hts. set (next := tail_seqno_ msg) in *. assert (0 <= next) as H0 by apply Hfit.
  destruct (advance_zero_towers_ok options w (towers topic) next origin (ts_towers _ _ _ _ _ _ Hts)) as (ts & Ets & Htw). rewrite Ets. cbn [obind].
  assert (0 <= u64 (next - 1)) as Hpos by (apply (wrap_fits 64); lia).
  destruct (tail_loop_fanned options env w (subscriptions topic) next) as (subs' & sent & es & -> & Hf).
  { apply Forall_forall. intros s Hs. split; [by apply (ts_worker _ _ _ _ _ _ Hts)|]. intros _. by apply NewDeliverGap_ok. }
  cbn [obind]. pose proof (fanned_some _ _ _ _ _ _ Hf (ts_some _ _ _ _ _ _ Hts)) as Hne.
  apply fanned_sent_to in Hf; [|exact clients_not_full]. destruct (proj2 Hc u topic Et) as [H1 H2 H3 H4 H5].
  set (w1 := set_events _ w). set (tp := set_sent _ _ _). intros E.
  destruct (update_cover w w1 u tp false) as (res & Er & Hr & _); [by apply (requests_ok_same w), Hok|apply Hok|done|done|apply Hts|apply Hc|by apply others_requests_same|exact Htw|..].
  - by eapply sent_to_start.
  - by eapply (advance_zero_towers_all w _ _ _ _ (fun n => 0 <= n)).
  - intros r Hr. eapply sent_to_below; [exact Hf|by apply H3|exact (fun Hnz => Hpl Hnz r Hr)].
  - done.
  - intros Hn. destruct (H5 Hn) as [F1 F2 F3]. split; [|..|done].
    + eapply sent_to_nonzero; [exact Hf|exact F1|]. intros s Hs Htk. exfalso. specialize (F1 s Hs). lia.
    + eapply (advance_zero_towers_all w _ _ _ _ (fun n => n <> 0)); [exact Ets|exact F2|]. intros t Hin Hz0. exfalso. exact (F2 t Hin Hz0).
  - rewrite Er in E. apply Ok_inj in E as <-. done.
Qed.

(** ** Subscribing *)

(** Where a subscription is placed that asks for [start]. *)
Definition starts_at w u (start : Z) : Z := if start =? 0 then default 0 (tower_next_seqno <$> (topics_ w !! u ≫= known_tail)) else start.

Lemma known_tail_in topic t : known_tail topic = Some t -> t ∈ towers topic.
Proof.
  unfold known_tail. destruct (list_find _ _) as [[i t']|] eqn:E; [|done]. intros [= <-]. apply list_find_Some in E as (Hi & _). by eapply list_elem_of_lookup_2.
Qed.

Lemma update_existing_places subs stream sub_id seqno worker subs' : update_existing subs stream sub_id seqno worker = Ok (Some subs') ->
  forall s, s ∈ subs' -> s ∈ subs \/ client_seqno s = seqno.
Proof.
  revert subs'. induction subs as [|s0 subs IH]; intros subs'; cbn [update_existing]; [done|]. destruct (_ && _).
  - destruct (_ =? _); [|done]. cbn. intros [= <-] s [->|Hs]%elem_of_cons; [by right|left; by right].
  - intros (res & Er & E%Ok_inj)%obind_Ok. destruct res as [l|]; cbn in E; [|done]. injection E as <-. intros s [->|Hs]%elem_of_cons; [left; by left|].
    destruct (IH l Er s Hs) as [|]; [left; by right|by right].
Qed.

Lemma update_existing_some subs stream sub_id seqno worker subs' : update_existing subs stream sub_id seqno worker = Ok (Some subs') -> subs' <> [].
Proof.
  destruct subs as [|s subs]; cbn [update_existing]; [done|]. destruct (_ && _).
  - destruct (_ =? _); [|done]. cbn. by intros [= <-].
  - intros (res & _ & E%Ok_inj)%obind_Ok. destruct res; cbn in E; [|done]. by injection E as <-.
Qed.

Lemma write_client_events w worker stream m w1 b : write_client options env w worker stream m = Ok (w1, b) -> exists es, w1 = set_events es w.
Proof.
  unfold write_client. destruct (Serialize m []); [|done]. destruct (_ && _); [|done]. cbn.
  destruct (client_has_room env (events w)); intros [= <- _]; eexists; reflexivity.
Qed.

Lemma place_below subs subs' place q : below q subs -> (forall s, s ∈ subs' -> s ∈ subs \/ client_seqno s = place) -> (place <> 0 -> q <= place) -> below q subs'.
Proof. intros [H0 Hb] Hs Hp. split; [done|]. intros s Hin Hnz. destruct (Hs s Hin) as [|E]; [by apply Hb|]. rewrite E in *. auto. Qed.

(** A subscription at a place where there is a tower. *)
Lemma place_covered ts subs subs' place : covered ts subs -> (forall s, s ∈ subs' -> s ∈ subs \/ client_seqno s = place) -> 0 <= place ->
  (exists t, t ∈ ts /\ tower_next_seqno t = place) -> covered ts subs'.
Proof. intros Hc Hs H0 (t & Ht & E) s Hin Hnz. destruct (Hs s Hin) as [|Es]; [by apply Hc|]. left. exists t. split; [done|lia]. Qed.

Lemma ProcessSubscribe_cover w tenant ns name start sub_id logid worker subscriber w' : ok w -> cover w -> topic_ok (ns, name) -> 0 <= start -> (start = 0 -> tail_asked (NewTopicUUID ns name)) ->
  place_ok w (NewTopicUUID ns name) (starts_at w (NewTopicUUID ns name) start) ->
  ProcessSubscribe options myid hash env w tenant ns name start sub_id logid worker subscriber = Ok w' -> cover w'.
Proof.
  intros Hok Hc Hn H0 Hask Hpl. unfold ProcessSubscribe. set (u := NewTopicUUID ns name) in *. set (clients := SubscriptionMap.Insert _ _ _ _).
  set (w0 := set_client_subscriptions clients w). set (topic := default (NewTopicState logid) (topics_ w0 !! u)).
  assert (towers_ok options (control_tower_sockets_ w) (towers topic) /\ topic_cover w u topic /\
    starts_at w u start = if start =? 0 then default 0 (tower_next_seqno <$> known_tail topic) else start) as (Htw & [H1 H2 H3 H4 H5] & Estart).
  { unfold topic, starts_at. cbn [topics_ w0 set_client_subscriptions]. destruct (topics_ w !! u) as [tp|] eqn:Et; cbn.
    - split_and!; [eapply ts_towers, (ok_topic _ _ w Hok), Et|by apply Hc|done].
    - assert (forall r, ~ requested w u r) as Hnone by (intros r Hr%requested_active; destruct (ok_active _ _ w Hok u Hr) as [? ?]; congruence).
      split_and!; [apply towers_ok_nil| |done]. split; cbn; [by intros s ?%elem_of_nil|by intros t ?%elem_of_nil|by intros r ?%Hnone|by intros _ s ?%elem_of_nil|].
      intros _. split; cbn; [by intros s ?%elem_of_nil|by intros t ?%elem_of_nil|by intros r ?%Hnone]. }
  intros ([[[w1 tp] place] skip] & E1 & (found & E2 & E)%obind_Ok)%obind_Ok.
  assert ((exists es, w1 = set_events es w0) /\ towers tp = towers topic /\ subscriptions tp = subscriptions topic /\ log_id tp = log_id topic /\
    place = starts_at w u start /\ (skip = true -> exists t, t ∈ towers topic /\ tower_next_seqno t = place)) as ((es & ->) & Etw & Esub & _ & Ep & Hskip).
  { rewrite Estart. destruct (start =? 0) eqn:Ez; [|injection E1 as <- <- <- <-; split_and!; try done; by exists (events w)].
    destruct (known_tail topic) as [t|] eqn:Ek; [|injection E1 as <- <- <- <-; split_and!; try done; [by exists (events w)|cbn; lia]].
    apply obind_Ok in E1 as (m & _ & ([w2 b] & E1 & E3)%obind_Ok). apply write_client_events in E1 as [es ->]. injection E3 as <- <- <- <-.
    split_and!; [by exists es|done|done|done|done|]. intros _. exists t. split; [by apply known_tail_in|done]. }
  assert (0 <= place) as Hp0.
  { rewrite Ep, Estart. destruct (start =? 0); [|done]. destruct (known_tail topic) as [t|] eqn:Ek; [|done]. cbn. by apply H2, known_tail_in. }
  rewrite Esub in E. rewrite Esub in E2. set (subs' := default _ found) in E.
  assert (forall s, s ∈ subs' -> s ∈ subscriptions topic \/ client_seqno s = place) as Hsubs.
  { unfold subs'. destruct found as [l|]; cbn [default from_option id]; [by eapply update_existing_places|].
    intros s [Hs| ->%list_elem_of_singleton]%elem_of_app; [by left|by right]. }
  assert (from_start subs') as Hst by (intros s Hs; destruct (Hsubs s Hs) as [| ->]; [by apply H1|done]).
  assert (forall r, requested w u r -> below (request_seqno r) subs') as Hreq.
  { intros r Hr. eapply place_below; [by apply H3|exact Hsubs|]. intros Hnz. rewrite Ep in Hnz |- *. by apply (Hpl Hnz). }
  assert (subs' <> []) as Hne.
  { unfold subs'. destruct found as [l|]; cbn [default from_option id]; [|by destruct (subscriptions topic)]. intros ->. by apply update_existing_some in E2. }
  assert (~ tail_asked u -> forall w2, (forall r, requested w2 u r -> requested w u r) -> tail_free w2 u (set_subs subs' tp)) as Hfree.
  { intros Hna w2 Hw2. destruct (H5 Hna) as [F1 F2 F3]. split; cbn; [|by rewrite Etw|auto]. intros s Hs. destruct (Hsubs s Hs) as [| ->]; [by apply F1|].
    rewrite Ep. unfold starts_at. destruct (Z.eqb_spec start 0) as [|]; [by destruct Hna; apply Hask|done]. }
  apply obind_Ok in E as (res & E & <-%Ok_inj). eapply cover_quiet; [|apply RollcallWrite_quiet]. destruct skip.
  - apply Ok_inj in E as <-. apply (cover_put _ w); [done|done|apply Hc|by apply others_requests_same|]. split; cbn [towers subscriptions set_subs]; rewrite ?Etw; [done|done|done| |by intros Hna; apply Hfree].
    intros Ha. eapply place_covered; [by apply H4|exact Hsubs|done|by apply Hskip].
  - destruct (update_cover w (set_events es w0) u (set_subs subs' tp) false) as (res' & Er & Hr & _);
      [by apply (requests_ok_same w), Hok|apply Hok|done|done|by exists ns, name|apply Hc|by apply others_requests_same|cbn; by rewrite Etw|done|cbn; by rewrite Etw|done|done|
       by intros Hna; apply Hfree|].
    rewrite Er in E. apply Ok_inj in E as <-. done.
Qed.

(** ** Ending subscriptions *)

Lemma drop_topic_cover w u w' : requests_ok w -> cover w ->
  (w <~ CancelResubscribeRequest (set_topics (delete u (topics_ w)) w) u ;; Ok (set_checkup (TimeoutList.Erase u (topic_checkup_list_ w)) w)) = Ok w' -> cover w'.
Proof.
  intros Hrq [Htot Hc] (w1 & E & <-%Ok_inj)%obind_Ok. eapply cover_quiet; [|apply set_checkup_quiet].
  assert (requests_ok (set_topics (delete u (topics_ w)) w)) as Hrq' by (by apply (requests_ok_same w)).
  destruct (CancelResubscribeRequest_ok _ u Hrq') as (w2 & E2 & _ & _ & Ew). rewrite E in E2. injection E2 as <-.
  destruct (CancelResubscribeRequest_requested _ u w1 Hrq' E) as [Ho _]. split; [by rewrite Ew|].
  assert (topics_ w1 = delete u (topics_ w)) as -> by (by rewrite Ew). intros x tp Hx. apply lookup_delete_Some in Hx as [Hne Hx].
  eapply topic_cover_others; [exact Ho|by intros ->|]. destruct (Hc x tp Hx) as [H1 H2 H3 H4 H5]. split; [done..|]. intros Hn. destruct (H5 Hn). by split.
Qed.

Lemma RemoveSubscription_cover w tenant sub_id subscriber worker w' : ok w -> cover w ->
  RemoveSubscription options env w tenant sub_id subscriber worker = Ok w' -> cover w'.
Proof.
  intros Hok Hc. unfold RemoveSubscription. set (subs := default ∅ _). destruct (subs !! sub_id) as [info|]; [|intros <-%Ok_inj; by apply (cover_same _ w); [..|apply Hc|]].
  set (w1 := set_client_subscriptions _ w). set (u := NewTopicUUID _ _). assert (cover w1) as Hc1 by (by apply (cover_same _ w); [..|apply Hc|]).
  cbn [topics_ w1 set_client_subscriptions]. destruct (topics_ w !! u) as [topic|] eqn:Et; [|by intros <-%Ok_inj].
  pose proof (ok_topic _ _ w Hok _ _ Et) as Hts. set (rest := filter _ (subscriptions topic)). cbn [subscriptions set_subs].
  assert (forall s, s ∈ rest -> s ∈ subscriptions topic) as Hrest by (intros s Hs; by apply list_elem_of_filter in Hs as [_ Hs]).
  destruct rest as [|s0 rest'].
  - destruct (unsubscribe_all_quiet options env w1 (towers topic)) as (w2 & E2 & Hq2); [apply Hts|]. unfold UnsubscribeControlTowers. cbn [towers set_subs]. rewrite E2. cbn [obind].
    set (w3 := RollcallWrite options env w2 sub_id tenant u false (info_logid info) worker subscriber).
    assert (quiet nowhere w1 w3) as Hq by (eapply quiet_trans; [exact Hq2|apply RollcallWrite_quiet]). apply drop_topic_cover; [|by eapply cover_quiet].
    apply Hq. by apply (requests_ok_same w), Hok.
  - intros <-%Ok_inj. eapply cover_quiet; [|apply RollcallWrite_quiet]. apply (cover_put _ w1); [done|done|apply Hc1|by apply others_requests_same|].
    apply (topic_cover_subset _ w1 u topic); [done|done|]. by apply Hc1.
Qed.

Lemma remove_all_cover w tenant origin ids w' : ok w -> cover w -> remove_all options env w tenant origin ids = Ok w' -> cover w'.
Proof.
  revert w. induction ids as [|id ids IH]; intros w Hok Hc; cbn [remove_all]; [by intros [= <-]|].
  destruct (RemoveSubscription_spec options hash worker_of env w tenant id origin 0 Hok) as (w1 & es & E & Hok1 & _). rewrite E. cbn [obind].
  apply IH; [done|]. exact (RemoveSubscription_cover w _ _ _ _ _ Hok Hc E).
Qed.

Lemma HandleInvalidSubscription_cover w origin sub_id w' : ok w -> cover w -> HandleInvalidSubscription options env w origin sub_id = Ok w' -> cover w'.
Proof.
  intros Hok Hc. unfold HandleInvalidSubscription. destruct (SubscriptionMap.Find _ origin sub_id) as [u|]; [|by intros [= <-]].
  destruct (topics_ w !! u) as [topic|] eqn:Et; [|by intros [= <-]]. pose proof (ok_topic _ _ w Hok _ _ Et) as Hts.
  destruct (reject_loop_quiet options env w u (log_id topic) (subscriptions topic)) as (w1 & -> & Hq1); [intros s Hs; by apply Hts|]. cbn [obind].
  destruct (unsubscribe_all_quiet options env w1 (towers topic)) as (w2 & E2 & Hq2); [eapply towers_ok_more; [apply Hq1|apply Hts]|].
  unfold UnsubscribeControlTowers. rewrite E2. cbn [obind]. assert (quiet nowhere w w2) as Hq by (by eapply quiet_trans).
  apply drop_topic_cover; [|by eapply cover_quiet]. apply Hq, Hok.
Qed.

Lemma ProcessUnsubscribe_cover w tenant sub_id reason worker subscriber w' : ok w -> cover w ->
  ProcessUnsubscribe options env w tenant sub_id reason worker subscriber = Ok w' -> cover w'.
Proof.
  intros Hok Hc. unfold ProcessUnsubscribe. destruct (reason =? kRequested); [by apply RemoveSubscription_cover|].
  destruct (reason =? kInvalid); [by apply HandleInvalidSubscription_cover|by intros [= <-]].
Qed.

Lemma RollcallFailed_cover w worker origin tenant sub_id w' : ok w -> cover w -> worker_ok options worker ->
  RollcallFailed options env w worker origin tenant sub_id = Ok w' -> cover w'.
Proof.
  intros Hok Hc Hw. unfold RollcallFailed. intros (w1 & E1 & ([w2 b] & E2 & <-%Ok_inj)%obind_Ok)%obind_Ok. apply ProcessUnsubscribe_cover in E1; [|done|done].
  destruct (write_unsubscribe options env w1 worker origin tenant sub_id kRequested Hw) as (w3 & b' & E3 & Hq). rewrite E3 in E2. injection E2 as -> ->. by eapply cover_quiet.
Qed.

(** ** Towers that leave *)

Lemma close_towers_requested w u topic stream ts w' ts' : requests_ok w -> from_start (subscriptions topic) -> close_towers w u topic stream ts = Ok (w', ts') ->
  others_requests (fun x => x = u) w w' /\ ((ts' = ts /\ same_requests w w') \/ is_Some (active_requests_ w' !! u)) /\
  (forall r, requested w' u r -> requested w u r \/ request_for topic r).
Proof.
  intros Hrq Hst. revert w Hrq ts'. induction ts as [|t ts IH]; intros w Hrq ts'; cbn [close_towers].
  { intros [= <- <-]. split_and!; [by apply others_requests_same|by left|by left]. }
  intros (id & _ & E)%obind_Ok. destruct (id =? stream).
  - destruct (ScheduleResubscribeRequest_quiet w u topic) as (Hq & _). destruct (ScheduleResubscribeRequest_requested w u topic Hrq Hst) as (Ho1 & Ha1 & Hr1).
    destruct (IH _ (q_requests _ _ _ Hq Hrq) ts' E) as (Ho & Ha & Hr). split_and!; [by eapply others_requests_trans| |].
    + right. destruct Ha as [[_ (_ & _ & -> & _)]|Ha]; done.
    + intros r [Hr'|]%Hr; [by apply Hr1|by right].
  - apply obind_Ok in E as ([w2 ts2] & E & [= <- <-]). destruct (IH w Hrq ts2 E) as (Ho & Ha & Hr). split_and!; [done| |done].
    destruct Ha as [[-> Hs]|Ha]; [by left|by right].
Qed.

Lemma close_topics_cover w stream l w' : ok w -> cover w -> NoDup l.*1 -> (forall u topic, (u, topic) ∈ l -> topics_ w !! u = Some topic) ->
  close_topics w stream l = Ok w' -> cover w'.
Proof.
  revert w. induction l as [|[u topic] l IH]; intros w Hok Hc Hnd Hl; cbn [close_topics]; [by intros [= <-]|].
  cbn [fmap list_fmap] in Hnd. apply NoDup_cons in Hnd as [Hnu Hnd]. pose proof (Hl u topic ltac:(by left)) as Ht. pose proof (ok_topic _ _ w Hok _ _ Ht) as Hts.
  destruct (close_towers_spec w u topic stream (towers topic)) as (w1 & ts & E & Hq & Hs & He & Hsub & _); [by apply Hts|]. rewrite E. cbn [obind fst snd].
  destruct (proj2 Hc u topic Ht) as [H1 H2 H3 H4 H5]. destruct (close_towers_requested w u topic stream (towers topic) w1 ts (ok_requests _ _ w Hok) H1 E) as (Ho & Ha & Hr).
  assert (ok (put_topic u (w1, set_towers ts topic))) as Hok1.
  { destruct (put_towers_result options worker_of True anything nobody nobody w w1 u topic ts Hok Ht Hq) as (w2 & es & E2 & Hok2 & _); [|by injection E2 as <-].
    rewrite Hs. eapply towers_ok_sublist; [exact Hsub|apply Hts]. }
  apply IH; [done| |done|].
  - apply (cover_put _ w); [done|apply Hq|apply Hq, Hc|done|]. split; cbn [subscriptions towers set_towers]; [done| | | |].
    + intros t Hin. apply H2. by eapply elem_of_sublist.
    + intros r [Hr'|[Hb _]]%Hr; [by apply H3|done].
    + intros Hno. destruct Ha as [[-> (_ & _ & Ha & _)]|[a Ha]]; [|congruence]. apply H4. congruence.
    + intros Hn. destruct (H5 Hn) as [F1 F2 F3]. split; cbn; [done|intros t Hin; apply F2; by eapply elem_of_sublist|].
      intros r [Hr'|[_ Hf]]%Hr; [by apply F3|by apply Hf, Hts].
  - intros x tp Hin. unfold put_topic. cbn. rewrite (q_topics _ _ _ Hq), lookup_insert_ne; [apply Hl; by right|].
    intros <-. apply Hnu. apply list_elem_of_fmap. by exists (u, tp).
Qed.

Lemma CloseControlTowerStream_cover w stream w' : ok w -> cover w -> CloseControlTowerStream w stream = Ok w' -> cover w'.
Proof.
  intros Hok Hc. unfold CloseControlTowerStream. set (w1 := set_sub_to_topic _ w).
  pose proof (forget_stream_quiet w stream) as Hq. fold w1 in Hq.
  assert (ok w1) as Hok1 by (by eapply quiet_ok). intros (w2 & E & <-%Ok_inj)%obind_Ok.
  assert (cover w2) as Hc2.
  { eapply close_topics_cover; [exact Hok1|by eapply cover_quiet| | |exact E]; [apply NoDup_fst_map_to_list|]. intros u topic Hin. by apply elem_of_map_to_list in Hin. }
  by apply (cover_same _ w2); [..|apply Hc2|].
Qed.

Lemma ProcessGoodbye_cover w goodbye origin w' : ok w -> cover w -> ProcessGoodbye options env w goodbye origin = Ok w' -> cover w'.
Proof.
  intros Hok Hc. unfold ProcessGoodbye. destruct (_ =? OriginClient).
  - destruct (client_subscriptions_ w !! origin) as [subs|]; [|by intros [= <-]]. intros (w1 & E & <-%Ok_inj)%obind_Ok. apply remove_all_cover in E; [|done|done].
    by apply (cover_same _ w1); [..|apply E|].
  - destruct (_ =? OriginServer); [by apply CloseControlTowerStream_cover|by intros [= <-]].
Qed.

(** ** The timer *)

Definition towers_accept : Prop := forall es, tower_has_room env es = true.

Lemma resubscribe_loop_cover count w w' : ok w -> cover w -> resubscribe_loop options myid hash env count w = Ok w' ->
  ok w' /\ cover w' /\ (towers_accept -> (size (active_requests_ w) <= count)%nat -> active_requests_ w' = ∅).
Proof.
  revert w. induction count as [|count IH]; intros w Hok Hc; cbn [resubscribe_loop].
  { intros [= <-]. split_and!; [done|done|]. intros _ Hs. apply map_size_empty_inv. lia. }
  unfold HasActiveResubscribeRequests. case_bool_decide as Hne; [|intros [= <-]; split_and!; [done|done|]; intros _ _; by destruct (decide (active_requests_ w = ∅))].
  destruct (PopNextResubscribeRequest_ok w (ok_requests _ _ w Hok) Hne) as (w1 & r & E1 & Hr1 & Hact & Ha & Ew). rewrite E1. cbn [obind].
  destruct (PopNextResubscribeRequest_requested w w1 r (ok_requests _ _ w Hok) E1) as (Ho1 & Hreq & Hnone).
  assert (topics_ w1 = topics_ w) as Hto by (by rewrite Ew). assert (ok w1) as Hok1.
  { destruct Hok as [O1 O2 O3 O4 O5]. split; [done|by rewrite Ew|by rewrite Ew| |by rewrite Ew]. rewrite Ha, Hto. intros x Hx. apply O4. by apply lookup_delete_is_Some in Hx as [_ Hx]. }
  rewrite Hto. destruct (ok_active _ _ w Hok _ Hact) as [topic Ht]. rewrite Ht.
  assert (topics_ w1 !! request_topic r = Some topic) as Ht1 by (by rewrite Hto). pose proof (ok_topic _ _ w1 Hok1 _ _ Ht1) as Hts.
  destruct (proj2 Hc _ topic Ht) as [H1 H2 H3 H4 H5].
  destruct (UpdateTowerSubscriptionsAt_cover tail_asked options myid hash Hworkers env w1 (request_topic r) topic (request_seqno r) (request_have_zero_sub r) false)
    as (w2 & ts & E2 & Hq2 & Htw & Ho2 & Hcv & Hsame & _); [apply Hts|done|apply Hok1|rewrite Ew; apply Hc|apply Hts|done|done|by apply H3| | |].
  { intros r' Hr'%requested_active. rewrite Hnone in Hr'. by destruct Hr'. }
  { intros Hn. destruct (H5 Hn) as [F1 F2 F3]. split; [|by apply F3]. split; [done|done|]. intros r' Hr'%requested_active. rewrite Hnone in Hr'. by destruct Hr'. }
  rewrite E2. cbn [obind]. destruct (put_towers_result options worker_of True anything nobody nobody w1 w2 (request_topic r) topic ts Hok1 Ht1 Hq2 Htw) as (w3 & es3 & E3 & Hok3 & _).
  injection E3 as <-. intros E. assert (cover (put_topic (request_topic r) (w2, set_towers ts topic))) as Hc3.
  { apply (cover_put _ w); [done|rewrite (q_topics _ _ _ Hq2); done|apply Hq2; rewrite Ew; apply Hc|by eapply others_requests_trans|done]. }
  destruct (IH _ Hok3 Hc3 E) as (Hok' & Hc' & Hs'). split_and!; [done|done|]. intros Hacc Hsz. apply Hs'; [done|]. unfold put_topic. cbn.
  destruct (Hsame Hacc) as (_ & _ & -> & _). rewrite Ha, map_size_delete. destruct Hact as [a ->]. lia.
Qed.

Lemma checkup_loop_cover w updates w' : ok w -> cover w -> checkup_loop options myid hash env w updates = Ok w' ->
  cover w' /\ (towers_accept -> active_requests_ w' = active_requests_ w).
Proof.
  revert w. induction updates as [|u updates IH]; intros w Hok Hc; cbn [checkup_loop]; [by intros [= <-]|].
  destruct (topics_ w !! u) as [topic|] eqn:Et; [|by apply IH]. pose proof (CorrectTopicTowers_quiet options hash env w topic) as Hq1.
  destruct (CorrectTopicTowers options hash env w topic) as [w1 correct]. cbn [fst] in Hq1. assert (ok w1) as Hok1 by (by eapply quiet_ok).
  assert (cover w1) as Hc1 by (by eapply cover_quiet).
  assert (topics_ w1 !! u = Some topic) as Ht1 by (by rewrite (q_topics _ _ _ Hq1)). pose proof (ok_topic _ _ w1 Hok1 _ _ Ht1) as Hts.
  destruct (proj2 Hc1 u topic Ht1) as [H1 H2 H3 H4 H5].
  assert (exists w2 ts, (if correct then Ok (w1, topic) else UpdateTowerSubscriptions options myid hash env w1 u topic true) = Ok (w2, set_towers ts topic) /\
    quiet (fun x => x = u) w1 w2 /\ towers_ok options (control_tower_sockets_ w2) ts /\ others_requests (fun x => x = u) w1 w2 /\
    topic_cover w2 u (set_towers ts topic) /\ (towers_accept -> same_requests w1 w2)) as (w2 & ts & -> & Hq2 & Htw & Ho2 & Hcv & Hsame).
  { destruct correct.
    2:{ destruct (UpdateTowerSubscriptions_cover tail_asked options myid hash Hworkers env w1 u topic true) as (w2 & ts & ? & ? & ? & ? & ? & ? & _);
          [apply Hts|apply Hok1|apply Hok1|apply Hc1|apply Hts|done|done|done|apply Hts|done|]. by exists w2, ts. }
    exists w1, (towers topic). split_and!; [by destruct topic|apply quiet_refl|apply Hts|by apply others_requests_same| |done]. by destruct topic. }
  cbn [obind]. destruct (put_towers_result options worker_of True anything nobody nobody w1 w2 u topic ts Hok1 Ht1 Hq2 Htw) as (w3 & es3 & E3 & Hok3 & _). injection E3 as <-.
  set (w3 := put_topic u (w2, set_towers ts topic)) in *. pose proof (set_checkup_quiet w3 (TimeoutList.Add (steady_now env) u (topic_checkup_list_ w3))) as Hq4.
  assert (cover w3) as Hc3 by (apply (cover_put _ w1); [done|apply Hq2|by apply Hq2, Hc1|done|done]).
  intros E. destruct (IH _ (quiet_ok _ _ _ _ Hok3 Hq4) (cover_quiet _ _ _ Hc3 Hq4) E) as [Hc' Ha]. split; [done|]. intros Hacc. rewrite (Ha Hacc). cbn.
  destruct (Hsame Hacc) as (_ & _ & -> & _). by destruct (q_same _ _ _ Hq1 (fun u (H : nowhere u) => H)) as (_ & _ & -> & _).
Qed.

Lemma ProcessTimerTick_cover w w' : ok w -> cover w -> ProcessTimerTick options myid hash env w = Ok w' ->
  cover w' /\ (towers_accept -> Z.of_nat (size (active_requests_ w)) <= per_tick options (resubscriptions_per_second options) -> active_requests_ w' = ∅).
Proof.
  intros Hok Hc. unfold ProcessTimerTick. intros (w1 & E1 & E2)%obind_Ok. destruct (resubscribe_loop_cover _ w w1 Hok Hc E1) as (Hok1 & Hc1 & Ha1).
  destruct (TimeoutList.GetExpired _ _ _ _) as [updates checkup]. pose proof (set_checkup_quiet w1 checkup) as Hq.
  destruct (checkup_loop_cover _ updates w' (quiet_ok _ _ _ _ Hok1 Hq) (cover_quiet _ _ _ Hc1 Hq) E2) as [Hc' Ha']. split; [done|].
  intros Hacc Hsz. rewrite (Ha' Hacc). cbn. apply Ha1; [done|lia].
Qed.
End Env.

(** ** The machine *)

(** What the theorems ask of the environment: the queues to the clients have
    room, every log has a tower, and no subscription is placed before a request
    to resubscribe that is under way (the closed runs below show what happens
    then). *)
Definition places_well (env : CopilotEnv) w (a : copilot_action) : Prop :=
  (forall es, client_has_room env es = true) /\
  match a with
  | Command _ m _ origin =>
      match m with
      | DeliverGap d => deliver_seqno_prev_ (dgap_deliver d) = 0 ->
          forall u, SubscriptionMap.Find (sub_to_topic_ w) origin (deliver_sub_id_ (dgap_deliver d)) = Some u -> place_ok w u (u64 (deliver_seqno_ (dgap_deliver d) + 1))
      | TailSeqno d => place_ok w (NewTopicUUID (tail_namespace_id_ d) (tail_topic_name_ d)) (tail_seqno_ d)
      | Messages.Subscribe d => 0 <= start_seqno_ d /\
          let u := NewTopicUUID (sub_namespace_id_ d) (sub_topic_name_ d) in place_ok w u (starts_at w u (start_seqno_ d))
      | _ => True
      end
  | RouterUpdate router => router_total router
  | _ => True
  end.

Lemma copilot_step_cover env w a w' : ok w -> cover w -> copilot_enabled options worker_of sends w a -> places_well env w a -> (forall u, asks a u -> tail_asked u) ->
  run_copilot options myid hash env a w = Ok w' -> cover w'.
Proof.
  intros Hok Hc Hen [Hcl Hpl] Hask. destruct a as [logid m worker origin|router| |worker origin tenant sub_id]; cbn [run_copilot copilot_enabled] in *.
  - destruct m as [| | | |g|d|d|d|d| |d| |]; cbn [WorkerCommand]; try by intros [= <-].
    + by apply ProcessGoodbye_cover.
    + destruct Hpl as [H0 Hpl]. apply ProcessSubscribe_cover; [done|done|apply Hen|done| |done]. intros Hz. by apply Hask.
    + by apply ProcessUnsubscribe_cover.
    + by apply ProcessGap_cover.
    + by apply ProcessData_cover.
    + by apply ProcessTailSeqno_cover.
  - intros [= <-]. destruct Hc as [Htot Hc]. split; [split; [done|by intros l out Hl; cbn in Hl; rewrite lookup_empty in Hl]|].
    cbn. intros u topic Ht. destruct (Hc u topic Ht) as [H1 H2 H3 H4 H5]. split; [done..|]. intros Hn. destruct (H5 Hn). by split.
  - intros E. by apply ProcessTimerTick_cover in E as [Hc' _].
  - by apply RollcallFailed_cover.
Qed.

Lemma copilot_runs_cover w acts w' : ok w -> cover w -> (forall u, asks_tail acts u -> tail_asked u) ->
  copilot_runs options myid hash worker_of sends places_well w acts w' -> ok w' /\ cover w'.
Proof.
  intros Hok Hc Hask Hr. induction Hr as [|w env a acts w1 w' Hen HQ Ha _ IH]; [done|].
  assert (forall u cur, sends u None 0 cur) as HP0 by (intros; by left).
  destruct (copilot_step_any options myid hash worker_of sends Hworkers HP0 w env a Hok Hen) as (w2 & es & E & Hok2 & _). rewrite Ha in E. injection E as <-.
  apply IH; [done| |]; [|intros u Hu; apply Hask; by right].
  apply (copilot_step_cover env w a w1 Hok Hc Hen HQ); [|done]. intros u Hu. apply Hask. by left.
Qed.

Lemma NewCopilotWorker_cover router : router_total router -> cover (NewCopilotWorker router).
Proof.
  intros Hr. split; [split; [done|]|]; cbn; [intros l out Hl|intros u topic Ht]; by rewrite lookup_empty in *.
Qed.

(** ** What the invariant says *)

Lemma cover_waits w u topic : ok w -> cover w -> topics_ w !! u = Some topic -> is_Some (active_requests_ w !! u) ->
  Decision (tail_asked u) -> forall s, s ∈ subscriptions topic -> client_seqno s <> 0 -> resubscribes (tail_asked u) w u s.
Proof.
  intros Hok [_ Hc] Ht [a Ea] Hdec s Hs Hnz. destruct (Hc u topic Ht) as [_ _ H3 _ H5].
  destruct (rq_active w (ok_requests _ _ w Hok) _ _ Ea) as (r & Hin & Hu & Hca). assert (requested w u r) as Hrq by (by exists a).
  destruct (H3 r Hrq) as [H0 Hb]. exists r. split_and!; [done|done|done|done|by apply Hb|]. intros Hz. destruct Hdec as [|Hn]; [done|]. by destruct (tf_requests _ _ _ (H5 Hn) r Hrq).
Qed.

Lemma cover_towers w u topic : ok w -> cover w -> topics_ w !! u = Some topic -> active_requests_ w !! u = None ->
  Decision (tail_asked u) -> forall s, s ∈ subscriptions topic -> client_seqno s <> 0 -> followed w u s \/ (tail_asked u /\ tail_awaited w u).
Proof.
  intros Hok [_ Hc] Ht Ea Hdec s Hs Hnz. destruct (Hc u topic Ht) as [_ _ _ H4 H5].
  pose proof (ts_towers _ _ _ _ _ _ (ok_topic _ _ w Hok _ _ Ht)) as Htw. destruct (H4 Ea s Hs Hnz) as [(t & Hin & Hle)|(t & Hin & Hz)].
  - left. exists topic, t. split_and!; [done|done|lia|lia|by apply Htw].
  - right. split; [|exists topic, t; split_and!; [done|done|done|by apply Htw]]. destruct Hdec as [|Hn]; [done|]. by destruct (tf_towers _ _ _ (H5 Hn) t Hin).
Qed.

(** The answer of a tower that was asked for the tail. *)
Lemma gap_heals env w logid d worker origin u : ok w -> cover w -> copilot_enabled options worker_of sends w (Command logid (DeliverGap d) worker origin) ->
  places_well env w (Command logid (DeliverGap d) worker origin) -> Decision (tail_asked u) ->
  SubscriptionMap.Find (sub_to_topic_ w) origin (deliver_sub_id_ (dgap_deliver d)) = Some u ->
  deliver_seqno_prev_ (dgap_deliver d) = 0 -> 0 <= deliver_seqno_ (dgap_deliver d) < 2 ^ 64 - 1 ->
  exists w', run_copilot options myid hash env (Command logid (DeliverGap d) worker origin) w = Ok w' /\
    forall s, holds w' u s -> client_seqno s <> 0 -> followed w' u s \/ resubscribes (tail_asked u) w' u s.
Proof.
  intros Hok Hc Hen HQ Hdec Hf Hz Hcur. assert (forall x cur, sends x None 0 cur) as HP0 by (intros; by left).
  destruct (copilot_step_any options myid hash worker_of sends Hworkers HP0 w env _ Hok Hen) as (w' & es & E & Hok' & Hst). exists w'. split; [done|].
  assert (cover w') as Hc' by (by apply (copilot_step_cover env w _ w' Hok Hc Hen HQ)).
  intros s (topic' & Ht' & Hs) Hnz. destruct (active_requests_ w' !! u) as [a|] eqn:Ea; [right; by eapply cover_waits|left].
  destruct (cover_towers w' u topic' Hok' Hc' Ht' Ea Hdec s Hs Hnz) as [|[_ (tp & t & Htp & Hin & Hz0 & _)]]; [done|exfalso].
  cbn [run_copilot WorkerCommand] in E. destruct HQ as [Hcl Hpl]. destruct (topics_ w !! u) as [topic|] eqn:Et.
  - destruct (ProcessGap_tail env Hcl w d origin u topic Hok Hc Hf Et Hz (Hpl Hz u Hf)) as (res & Er & _ & Hnot). rewrite E in Er. apply Ok_inj in Er as ->.
    unfold put_topic in Htp. cbn in Htp. rewrite lookup_insert_eq in Htp. injection Htp as <-. by apply (Hnot Hcur t).
  - unfold ProcessGap in E. rewrite Hf, Et in E. apply Ok_inj in E as <-. congruence.
Qed.
End Recovery.

(** ** Properties *)

(** C15: no subscription is left behind, within the limits of [places_well].
    For a worker that starts afresh, whatever clients do, whatever streams to
    towers break and whether or not the queues to the towers have room: a
    subscription that is not at the tail has a tower, with an open stream, that
    follows the topic from a place of the log, not the tail, that is not after
    its own; or its topic has a request to resubscribe, not cancelled, at a
    place that does not pass it and that is the tail only if some client asked
    for the tail of the topic; or some client asked for the tail of the topic
    and the answer of a tower that was asked for it is outstanding.  When that
    answer comes, the step is completed and only the first two cases remain for
    the topic.  It is assumed that towers send updates with a range of positive
    sequence numbers in order, or gaps from 0 that tell the tail, that the
    queues to the clients have room ([full_queue_strands]), that every log has a
    tower ([no_tower_no_request]), and that nothing is placed before a request
    to resubscribe that is under way ([stale_request_strands]). *)
Theorem no_subscription_left_behind options myid hash worker_of router acts w : 0 < num_workers options -> router_ok router -> router_total router ->
  copilot_runs options myid hash worker_of sends places_well (NewCopilotWorker router) acts w ->
  (forall u s, holds w u s -> client_seqno s <> 0 ->
     followed w u s \/ resubscribes (asks_tail acts u) w u s \/ (asks_tail acts u /\ tail_awaited w u)) /\
  (forall env logid d worker origin u, let gap := Command logid (DeliverGap d) worker origin in
     copilot_enabled options worker_of sends w gap -> places_well env w gap ->
     SubscriptionMap.Find (sub_to_topic_ w) origin (deliver_sub_id_ (dgap_deliver d)) = Some u ->
     deliver_seqno_prev_ (dgap_deliver d) = 0 -> 0 <= deliver_seqno_ (dgap_deliver d) < 2 ^ 64 - 1 ->
     exists w', run_copilot options myid hash env gap w = Ok w' /\
       forall s, holds w' u s -> client_seqno s <> 0 -> followed w' u s \/ resubscribes (asks_tail acts u) w' u s).
Proof.
  intros Hn Hr Ht Hruns. destruct (copilot_runs_cover options myid hash worker_of Hn (asks_tail acts) _ _ _ (NewCopilotWorker_ok options worker_of router Hr)
    (NewCopilotWorker_cover _ router Ht) (fun _ H => H) Hruns) as [Hok Hc]. split.
  - intros u s (topic & Htp & Hs) Hnz. destruct (active_requests_ w !! u) as [a|] eqn:Ea.
    + right. left. by eapply (cover_waits options worker_of); [..|apply _|exact Hs|].
    + destruct (cover_towers options worker_of (asks_tail acts) w u topic Hok Hc Htp Ea _ s Hs Hnz); auto.
  - intros env logid d worker origin u gap Hen HQ Hf Hz Hcur. by apply (gap_heals options myid hash worker_of Hn (asks_tail acts) env w logid d worker origin u Hok Hc Hen HQ _).
Qed.

(** C16: the timer brings the towers back.  Under the assumptions of
    [no_subscription_left_behind] (towers send ranges in order or gaps from 0,
    queues to clients have room, every log has a tower, nothing is placed before
    a request that is under way), a tick in which the queues to the clients and
    to the towers have room and whose budget is at least the number of topics
    that wait leaves no request and every subscription where it was, and
    afterwards every subscription that is not at the tail has a tower, with an
    open stream, that follows the topic from a place of the log, not the tail,
    that is not after its own, unless some client asked for the tail of the
    topic and the answer of a tower is outstanding. *)
Theorem tick_recovers options myid hash worker_of router acts w env : 0 < num_workers options -> router_ok router -> router_total router ->
  copilot_runs options myid hash worker_of sends places_well (NewCopilotWorker router) acts w ->
  (forall es, client_has_room env es = true) -> (forall es, tower_has_room env es = true) ->
  Z.of_nat (size (active_requests_ w)) <= per_tick options (resubscriptions_per_second options) ->
  exists w', ProcessTimerTick options myid hash env w = Ok w' /\ active_requests_ w' = ∅ /\
    (forall u s, holds w u s -> exists s', holds w' u s' /\ key s' = key s /\ client_seqno s' = client_seqno s) /\
    (forall u s, holds w' u s -> client_seqno s <> 0 -> followed w' u s \/ (asks_tail acts u /\ tail_awaited w' u)).
Proof.
  intros Hn Hr Ht Hruns Hcl Htw Hsz. destruct (copilot_runs_cover options myid hash worker_of Hn (asks_tail acts) _ _ _ (NewCopilotWorker_ok options worker_of router Hr)
    (NewCopilotWorker_cover _ router Ht) (fun _ H => H) Hruns) as [Hok Hc].
  destruct (ProcessTimerTick_result options myid hash worker_of True (fun _ _ _ _ => False) Hn env nobody nobody w Hok) as (w' & es & E & Hok' & Hst).
  destruct (ProcessTimerTick_cover options myid hash worker_of Hn (asks_tail acts) env w w' Hok Hc E) as [Hc' Ha]. specialize (Ha Htw Hsz).
  exists w'. split_and!; [done|done| |].
  { intros u s Hs. destruct (st_kept _ _ _ _ _ _ _ Hst u s Hs ltac:(by intros [])) as (s' & Hs' & Hk & Hch). exists s'. split_and!; [done|done|].
    destruct (updates_to (key s) es) as [|m ms]; [done|]. destruct Hch as (? & ? & ? & ? & ? & _ & _ & [] & _). }
  intros u s (topic & Htp & Hs) Hnz. by apply (cover_towers options worker_of (asks_tail acts) w' u topic); [..|rewrite Ha, lookup_empty|apply _| |].
Qed.

(** ** Examples and closed runs *)

Lemma two_towers_total : router_total two_towers.
Proof. intros logid. by exists [100; 200]. Qed.

(** A tower leaves after the first subscription. *)
Definition tower_left : CopilotWorker := match copilot_after open_env [goodbye_from OriginServer 1000] (Ok started) with Ok w => w | Abort _ => started end.

Lemma tower_left_runs : copilot_runs one_worker 0 (fun host => host) (fun _ => 0) sends places_well (NewCopilotWorker two_towers)
  [client_subscribe 5 9 7; goodbye_from OriginServer 1000] tower_left.
Proof.
  apply (copilot_more _ _ _ _ _ _ _ open_env _ _ started).
  - split_and!; [done|done|done|]. intros u Hu. discriminate Hu.
  - split; [done|]. split; [done|]. intros u _ r Hr%requested_active. vm_compute in Hr. by destruct Hr.
  - vm_compute. reflexivity.
  - apply (copilot_more _ _ _ _ _ _ _ open_env _ _ tower_left); [done|by split|vm_compute; reflexivity|constructor].
Qed.

Lemma tower_left_holds : holds tower_left topic_ba sub_at_5.
Proof. eexists. split; [vm_compute; reflexivity|]. by left. Qed.

Lemma tower_left_unasked u : ~ asks_tail [client_subscribe 5 9 7; goodbye_from OriginServer 1000] u.
Proof. unfold asks_tail. rewrite !Exists_cons, Exists_nil. by intros [[Hz _]|[[]|[]]]. Qed.

(** With one tower, the tail is asked for beside a subscription at 5. *)
Lemma one_tower_ok : router_ok one_tower.
Proof. intros logid out [= <-]. by vm_compute; repeat constructor; set_solver. Qed.

Lemma one_tower_total : router_total one_tower.
Proof. intros logid. by exists [100]. Qed.

Definition at_5 : CopilotWorker := match copilot_after open_env [client_subscribe 5 9 7] (Ok (NewCopilotWorker one_tower)) with Ok w => w | Abort _ => started end.
Definition tail_too : CopilotWorker := match copilot_after open_env [client_subscribe 0 10 8] (Ok at_5) with Ok w => w | Abort _ => started end.

Lemma tail_too_runs : copilot_runs one_worker 0 (fun host => host) (fun _ => 0) sends places_well (NewCopilotWorker one_tower)
  [client_subscribe 5 9 7; client_subscribe 0 10 8] tail_too.
Proof.
  apply (copilot_more _ _ _ _ _ _ _ open_env _ _ at_5).
  - split_and!; [done|done|done|]. intros u Hu. discriminate Hu.
  - split; [done|]. split; [done|]. intros u _ r Hr%requested_active. vm_compute in Hr. by destruct Hr.
  - vm_compute. reflexivity.
  - apply (copilot_more _ _ _ _ _ _ _ open_env _ _ tail_too).
    + split_and!; [done|done|done|]. intros u Hu. discriminate Hu.
    + split; [done|]. split; [done|]. intros u _ r Hr%requested_active. vm_compute in Hr. by destruct Hr.
    + vm_compute. reflexivity.
    + constructor.
Qed.

Lemma no_subscription_left_behind_witness :
  (followed tower_left topic_ba sub_at_5 \/ resubscribes False tower_left topic_ba sub_at_5) /\
  exists w', run_copilot one_worker 0 (fun host => host) open_env (tower_gap 1 0 8 1000) tail_too = Ok w' /\
    forall s, holds w' topic_ba s -> client_seqno s <> 0 ->
      followed w' topic_ba s \/ resubscribes (asks_tail [client_subscribe 5 9 7; client_subscribe 0 10 8] topic_ba) w' topic_ba s.
Proof.
  split.
  - destruct (proj1 (no_subscription_left_behind one_worker 0 (fun host => host) (fun _ => 0) two_towers _ tower_left eq_refl two_towers_ok two_towers_total
      tower_left_runs) topic_ba sub_at_5 tower_left_holds ltac:(done)) as [H|[(r & H1 & H2 & H3 & H4 & H5)|[H _]]]; [by left| |by destruct (tower_left_unasked _ H)].
    right. exists r. split_and!; [done|done|done|apply H4|apply H4|]. intros Hz. exact (tower_left_unasked _ (H5 Hz)).
  - apply (proj2 (no_subscription_left_behind one_worker 0 (fun host => host) (fun _ => 0) one_tower _ tail_too eq_refl one_tower_ok one_tower_total tail_too_runs)).
    + intros worker m _ _. by left.
    + split; [done|]. intros _ u _ _ r Hr%requested_active. vm_compute in Hr. by destruct Hr.
    + vm_compute. reflexivity.
    + reflexivity.
    + by split.
Defined.

Lemma tower_left_waits : size (active_requests_ tower_left) = 1%nat.
Proof. by vm_compute. Qed.

Lemma tick_recovers_witness : size (active_requests_ tower_left) = 1%nat /\
  exists w', ProcessTimerTick one_worker 0 (fun host => host) open_env tower_left = Ok w' /\ active_requests_ w' = ∅ /\
    forall u s, holds w' u s -> client_seqno s <> 0 -> followed w' u s.
Proof.
  split; [exact tower_left_waits|].
  assert (Z.of_nat (size (active_requests_ tower_left)) <= per_tick one_worker (resubscriptions_per_second one_worker)) as Hsz.
  { rewrite tower_left_waits. apply Z.leb_le. reflexivity. }
  destruct (tick_recovers one_worker 0 (fun host => host) (fun _ => 0) two_towers _ tower_left open_env eq_refl two_towers_ok two_towers_total
    tower_left_runs (fun _ => eq_refl) (fun _ => eq_refl) Hsz) as (w' & E & Ha & _ & Hf). exists w'. split_and!; [exact E|exact Ha|].
  intros u s Hs Hnz. destruct (Hf u s Hs Hnz) as [|[H _]]; [done|]. by destruct (tower_left_unasked _ H).
Defined.

(** The subscriptions of the topic, with their sequence numbers, those of its
    towers, and whether it waits for the timer. *)
Definition standing (res : outcome CopilotWorker) : option (list (Z * Z) * list Z * bool) :=
  match res with
  | Ok w => topic ← topics_ w !! topic_ba; Some (map (fun s => (client_sub_id s, client_seqno s)) (subscriptions topic), map tower_next_seqno (towers topic),
                                                HasActiveResubscribeRequest w topic_ba)
  | Abort _ => None
  end.

(** A request to resubscribe is not brought up to date.  The request made
    when a tower leaves, for a subscription at 10, is not replaced when a client
    subscribes at 5; a second tower leaves, and the timer subscribes both towers
    at 10.  The subscription at 5 then has no tower and no request, and no update
    that a tower sends from 10 on is for it. *)
Lemma stale_request_strands :
  standing (copilot_after open_env [client_subscribe 10 9 7; goodbye_from OriginServer 1000; client_subscribe 5 10 8; goodbye_from OriginServer 1001; TimerTick]
              (Ok (NewCopilotWorker two_towers))) = Some ([(9, 10); (10, 5)], [10; 10], false) /\
  (forall prev cur, 10 <= prev -> takes 5 prev cur = false).
Proof. split; [by vm_compute|]. intros prev cur Hp. unfold takes. lia. Qed.

(** While no tower is available a topic does not wait for the timer, and it has
    no tower after towers come back and the timer ticks. *)
Lemma no_tower_no_request :
  standing (copilot_after open_env [client_subscribe 5 9 7; RouterUpdate two_towers; TimerTick] (Ok (NewCopilotWorker (fun _ => None)))) = Some ([(9, 5)], [], false).
Proof. by vm_compute. Qed.

Definition no_tower_room : CopilotEnv :=
  {| client_has_room := fun _ => true; tower_has_room := fun _ => false; outbound_stream := fun es => 1000 + Z.of_nat (length es); rollcall_accepts := fun _ => true; steady_now := 0 |}.

Definition no_client_room : CopilotEnv :=
  {| client_has_room := fun _ => false; tower_has_room := fun _ => true; outbound_stream := fun es => 1000 + Z.of_nat (length es); rollcall_accepts := fun _ => true; steady_now := 0 |}.

(** The requests to the towers: stream, whether it is a subscription, and ID. *)
Definition asked (res : outcome CopilotWorker) : list (Z * bool * Z) :=
  match res with
  | Ok w => omap (fun e => match e with
                           | TowerWrite _ stream (Messages.Subscribe m) => Some (stream, true, sub_sub_id_ m)
                           | TowerWrite _ stream (Messages.Unsubscribe m) => Some (stream, false, unsub_sub_id_ m)
                           | _ => None
                           end) (events w)
  | Abort _ => []
  end.

(** The updates sent to a subscription. *)
Definition sent_updates (k : Z * Z) (res : outcome CopilotWorker) : list Message := match res with Ok w => updates_to k (events w) | Abort _ => [] end.
Definition spans (ms : list Message) : list (Z * Z) := omap (fun m => '(_, prev, cur, _) ← update_of m; Some (prev, cur)) ms.

(** A subscription at a tower that was asked for on a full queue is taken for
    refused, although the queue took the command: the timer asks for another one,
    and nothing ends the first, whose updates are for an unknown ID. *)
Lemma full_tower_queue_leaks :
  let res := copilot_after open_env [TimerTick] (copilot_after no_tower_room [client_subscribe 5 9 7] (Ok (NewCopilotWorker one_tower))) in
  standing res = Some ([(9, 5)], [5], false) /\ asked res = [(1000, true, 0); (1000, true, 1)] /\
  (w ← match res with Ok w => Some w | Abort _ => None end; SubscriptionMap.Find (sub_to_topic_ w) 1000 0) = None.
Proof. by vm_compute. Qed.

(** An update that is sent to a client on a full queue is taken for not sent.  The
    subscription stays where it is, so that the update is sent again when it comes
    from the other tower; the towers move on, so that what comes after it is for
    no place of the subscription, and no request is made. *)
Lemma full_queue_strands :
  let res := copilot_after open_env [TimerTick; tower_data 0 8 9 [] 1000; tower_data 1 8 9 [] 1001]
    (copilot_after no_client_room [tower_data 0 5 7 [] 1000; tower_data 1 5 7 [] 1001] (Ok started)) in
  standing res = Some ([(9, 5)], [10; 10], false) /\ spans (sent_updates (7, 9) res) = [(5, 7); (5, 7)].
Proof. by vm_compute. Qed.

(** The place of the tail is told to a client on a full queue: the subscription
    stays at 0, the towers are asked again, and the later answer is accepted by
    the client, which passes over the records in between. *)
Lemma full_queue_skips :
  let res := copilot_after open_env [tower_gap 1 0 8 1000]
    (copilot_after no_client_room [tower_gap 0 0 6 1000] (copilot_after open_env [client_subscribe 0 9 7] (Ok (NewCopilotWorker one_tower)))) in
  spans (sent_updates (7, 9) res) = [(0, 6); (0, 8)] /\
  forall b, expected_seqno_ b = 0 -> spans (snd (client_run (sent_updates (7, 9) res) b)) = [(0, 6); (0, 8)] /\
    expected_seqno_ (fst (client_run (sent_updates (7, 9) res) b)) = 9.
Proof. split; [by vm_compute|]. intros [] Hb. cbn in Hb. subst. by vm_compute. Qed.
