(* ===== verification/ConsistentHash.v ===== *)
(** * Consistent hashing

    util/consistent_hash.h: slots on a ring of hashes, each as several replicas;
    a key goes to the slots that follow its hash.  The ring is the
    [std::multimap] of the code, as the list of its entries in order; an
    iterator is an index, [end()] is the length.  The hash functions of keys and
    slots are arguments, as they are of the template. *)

From Stdlib Require Import Sorting.Sorted.
From S2P Require Import Prelude Coding CodingFacts SubscriptionId.

#[local] Open Scope outcome_scope.

Lemma filter_none {A} (P : A -> Prop) `{!forall x, Decision (P x)} (l : list A) : (forall x, x ∈ l -> ~ P x) -> filter P l = [].
Proof. induction l as [|x l IH]; intros Hl; [done|]. rewrite filter_cons, decide_False by (apply Hl; by left). apply IH. intros y Hy. apply Hl. by right. Qed.

(** ** Model *)

Module ConsistentHash.
Section ConsistentHash.
Context {Key Slot : Type} `{Countable Slot} (keyHash : Key -> Z) (slotHash : Slot -> Z).

Implicit Types (slot : Slot) (hash : Z) (ring : list (Z * Slot)).

Record t := { ring_ : list (Z * Slot); slotCount_ : Z }.

Definition NewConsistentHash : t := {| ring_ := []; slotCount_ := 0 |}.

(** [multimap::insert] puts an entry behind those with the same key. *)
Fixpoint insert_entry (e : Z * Slot) ring : list (Z * Slot) :=
  match ring with
  | [] => [e]
  | e' :: ring' => if fst e <? fst e' then e :: ring else e' :: insert_entry e ring'
  end.

Fixpoint Add_loop (replicas : nat) hash slot ring : list (Z * Slot) :=
  match replicas with
  | O => ring
  | S replicas => Add_loop replicas (MurmurHash2_u64 hash) slot (insert_entry (hash, slot) ring)
  end.

Definition Add (c : t) slot (replicas : nat) : t :=
  {| ring_ := Add_loop replicas (slotHash slot) slot (ring_ c); slotCount_ := u64 (slotCount_ c + 1) |}.

(** The entries with the hash are searched for the slot, and the first is
    erased. *)
Fixpoint erase_entry hash slot ring : option (list (Z * Slot)) :=
  match ring with
  | [] => None
  | e :: ring => if (fst e =? hash) && bool_decide (snd e = slot) then Some ring else cons e <$> erase_entry hash slot ring
  end.

Fixpoint Remove_loop (fuel : nat) hash slot ring (foundOne : bool) : outcome (list (Z * Slot) * bool) :=
  match fuel with
  | O => Abort "Remove"
  | S fuel =>
      match erase_entry hash slot ring with
      | None => Ok (ring, foundOne)
      | Some ring => Remove_loop fuel (MurmurHash2_u64 hash) slot ring true
      end
  end.

(** A round of the loop erases an entry. *)
Definition Remove (c : t) slot : outcome t :=
  r <~ Remove_loop (S (length (ring_ c))) (slotHash slot) slot (ring_ c) false ;;
  let '(ring, foundOne) := r in
  Ok {| ring_ := ring; slotCount_ := if foundOne : bool then u64 (slotCount_ c - 1) else slotCount_ c |}.

Fixpoint lower_bound hash ring : nat :=
  match ring with
  | [] => O
  | e :: ring => if fst e <? hash then S (lower_bound hash ring) else O
  end.

Definition Get (c : t) (key : Key) : outcome Slot :=
  assert_that (negb (length (ring_ c) =? 0)%nat) "!ring_.empty()" ;;;
  let it := lower_bound (keyHash key) (ring_ c) in
  let it := if (it =? length (ring_ c))%nat then O else it in
  match ring_ c !! it with
  | Some e => Ok (snd e)
  | None => Abort "end() dereferenced"
  end.

(** The output has room for [count] slots.  More rounds than there are entries
    are not needed to see all of them. *)
Fixpoint MultiGet_loop (fuel : nat) ring (it initial_it : nat) (out : list Slot) (count : nat) : outcome (list Slot) :=
  match fuel with
  | O => Abort "MultiGet"
  | S fuel =>
      let it := if (it =? length ring)%nat then O else it in
      match ring !! it with
      | None => Abort "end() dereferenced"
      | Some e =>
          let seen := bool_decide (snd e ∈ out) in
          assert_that (seen || (length out <? count)%nat) "out_begin[out_size]" ;;;
          let out := if seen then out else out ++ [snd e] in
          let it := S it in
          if negb (it =? initial_it)%nat && (length out <? count)%nat then MultiGet_loop fuel ring it initial_it out count else Ok out
      end
  end.

Definition MultiGet (c : t) (key : Key) (count : nat) : outcome (list Slot) :=
  assert_that (Z.of_nat count <=? slotCount_ c) "slotCount_ >= count" ;;;
  let it := lower_bound (keyHash key) (ring_ c) in
  out <~ MultiGet_loop (S (length (ring_ c))) (ring_ c) it it [] count ;;
  assert_that (length out =? count)%nat "out_size == count" ;;;
  Ok out.

Definition SlotCount (c : t) : Z := slotCount_ c.

Definition VirtualSlotCount (c : t) : Z := Z.of_nat (length (ring_ c)).

Fixpoint SlotRatio_loop ring slot (prevHash count : Z) (found : bool) : Z * bool :=
  match ring with
  | [] => (count, found)
  | e :: ring =>
      let mine := bool_decide (snd e = slot) in
      SlotRatio_loop ring slot (fst e) (if mine then u64 (count + u64 (fst e - prevHash)) else count) (mine || found)
  end.

(** In units of 2^-64; the code divides in doubles. *)
Definition SlotRatio (c : t) slot : Z :=
  match last (ring_ c) with
  | None => 0
  | Some e =>
      let '(count, found) := SlotRatio_loop (ring_ c) slot (fst e) 0 false in
      if count =? 0 then (if found : bool then 2 ^ 64 else 0) else count
  end.

Definition Clear (c : t) : t := {| ring_ := []; slotCount_ := 0 |}.

Definition Empty (c : t) : bool := (length (ring_ c) =? 0)%nat.

(** ** The slots that follow a hash *)

(** The different elements of a list, in the order of their first occurrence. *)
Fixpoint distinct (l : list Slot) : list Slot :=
  match l with
  | [] => []
  | x :: l => x :: filter (fun y => y <> x) (distinct l)
  end.

(** The entries in the order in which they follow the hash. *)
Definition walk hash ring : list (Z * Slot) := filter (fun e => hash <= fst e) ring ++ filter (fun e => fst e < hash) ring.

(** The slots that follow the hash, the nearest first. *)
Definition followers hash ring : list Slot := distinct (map snd (walk hash ring)).

Definition sorted ring : Prop := StronglySorted (fun e e' => fst e <= fst e') ring.

Lemma elem_of_distinct l x : x ∈ distinct l <-> x ∈ l.
Proof using Type.
  induction l as [|y l IH]; [done|]. cbn [distinct]. rewrite !elem_of_cons, list_elem_of_filter, IH. split; [intros [->|[_ Hx]]; [by left|by right]|].
  intros [->|Hx]; [by left|]. destruct (decide (x = y)); [by left|by right].
Qed.

Lemma NoDup_distinct l : NoDup (distinct l).
Proof using Type.
  induction l as [|x l IH]; cbn [distinct]; [constructor|]. apply NoDup_cons. split; [|by apply NoDup_filter]. rewrite list_elem_of_filter. by intros [Hne _].
Qed.

Lemma distinct_filter (P : Slot -> Prop) `{!forall x, Decision (P x)} l : filter P (distinct l) = distinct (filter P l).
Proof.
  induction l as [|x l IH]; [done|]. cbn [distinct]. rewrite !filter_cons. destruct (decide (P x)) as [Hp|Hp]; cbn [distinct].
  - f_equal. rewrite <-IH, !list_filter_filter. apply list_filter_iff. naive_solver.
  - rewrite <-IH, list_filter_filter. apply list_filter_iff. intros y. split; [by intros []|]. intros Hy. split; [done|]. by intros ->.
Qed.

Lemma lower_bound_le hash ring : (lower_bound hash ring <= length ring)%nat.
Proof. induction ring as [|e ring IH]; cbn; [lia|]. destruct (fst e <? hash); lia. Qed.

Lemma lower_bound_split hash ring : sorted ring ->
  take (lower_bound hash ring) ring = filter (fun e => fst e < hash) ring /\ drop (lower_bound hash ring) ring = filter (fun e => hash <= fst e) ring.
Proof.
  induction ring as [|e ring IH]; intros Hs; [done|]. inversion Hs as [|? ? Hs' Hf]; subst. cbn [lower_bound]. rewrite !filter_cons.
  destruct (Z.ltb_spec (fst e) hash) as [Hlt|Hge].
  - destruct (IH Hs') as [IH1 IH2]. cbn [take drop]. rewrite decide_True, decide_False by lia. by rewrite IH1, IH2.
  - cbn [take drop]. rewrite decide_False, decide_True by lia. rewrite Forall_forall in Hf. split.
    + symmetry. apply filter_none. intros e' He'. specialize (Hf e' He'). cbn in Hf. lia.
    + f_equal. symmetry. apply filter_all. intros e' He'. specialize (Hf e' He'). cbn in Hf. lia.
Qed.

Lemma walk_filter (P : Z * Slot -> Prop) `{!forall e, Decision (P e)} hash ring : filter P (walk hash ring) = walk hash (filter P ring).
Proof.
  unfold walk. rewrite filter_app, !list_filter_filter. f_equal; apply list_filter_iff; tauto.
Qed.

Lemma followers_without slot hash ring : followers hash (filter (fun e => snd e <> slot) ring) = filter (fun x => x <> slot) (followers hash ring).
Proof.
  unfold followers. rewrite <-walk_filter, distinct_filter. f_equal. induction (walk hash ring) as [|e l IH]; [done|].
  cbn [map]. rewrite !filter_cons. destruct (decide (snd e <> slot)); cbn [map]; by rewrite IH.
Qed.

(** ** The ring as a map from slots to replicas *)

Fixpoint orbit (n : nat) hash : list Z :=
  match n with
  | O => []
  | S n => hash :: orbit n (MurmurHash2_u64 hash)
  end.

(** The hashes at which a slot is. *)
Definition places slot ring : list Z := map fst (filter (fun e => snd e = slot) ring).

Record represents (c : t) (m : gmap Slot nat) : Prop := {
  rp_sorted : sorted (ring_ c);
  rp_places : forall slot, places slot (ring_ c) ≡ₚ orbit (default O (m !! slot)) (slotHash slot);
  rp_positive : forall slot n, m !! slot = Some n -> n <> O;
  rp_count : slotCount_ c = Z.of_nat (size m)
}.

Lemma insert_entry_perm e ring : insert_entry e ring ≡ₚ e :: ring.
Proof. induction ring as [|e' ring IH]; [done|]. cbn [insert_entry]. destruct (fst e <? fst e'); [done|]. rewrite IH. apply perm_swap. Qed.

Lemma insert_entry_sorted e ring : sorted ring -> sorted (insert_entry e ring).
Proof.
  induction ring as [|e' ring IH]; intros Hs; cbn [insert_entry]; [by repeat constructor|]. inversion Hs as [|? ? Hs' Hf]; subst.
  destruct (Z.ltb_spec (fst e) (fst e')) as [Hlt|Hge].
  - constructor; [done|]. constructor; [lia|]. eapply Forall_impl; [exact Hf|]. cbn. lia.
  - constructor; [by apply IH|]. rewrite insert_entry_perm. by constructor.
Qed.

Lemma insert_entry_other e ring slot : snd e = slot -> filter (fun e => snd e <> slot) (insert_entry e ring) = filter (fun e => snd e <> slot) ring.
Proof.
  intros He. induction ring as [|e' ring IH]; cbn [insert_entry]; [by rewrite filter_cons, decide_False by tauto|]. destruct (fst e <? fst e').
  - rewrite (filter_cons _ e). by rewrite decide_False by tauto.
  - rewrite !(filter_cons _ e'). by rewrite IH.
Qed.

Lemma places_cons slot e ring : places slot (e :: ring) = if decide (snd e = slot) then fst e :: places slot ring else places slot ring.
Proof. unfold places. rewrite filter_cons. by destruct (decide (snd e = slot)). Qed.

#[local] Instance places_Permutation slot : Proper (Permutation ==> Permutation) (places slot).
Proof. intros l l' Hl. unfold places. by rewrite Hl. Qed.

Lemma Add_loop_spec n hash slot ring : sorted ring -> let ring' := Add_loop n hash slot ring in
  sorted ring' /\ places slot ring' ≡ₚ orbit n hash ++ places slot ring /\ filter (fun e => snd e <> slot) ring' = filter (fun e => snd e <> slot) ring.
Proof.
  cbn. revert hash ring. induction n as [|n IH]; intros hash ring Hs; cbn [Add_loop orbit]; [by split_and!|].
  destruct (IH (MurmurHash2_u64 hash) (insert_entry (hash, slot) ring) (insert_entry_sorted _ _ Hs)) as (H1 & H2 & H3). split_and!; [done| |].
  - rewrite H2, insert_entry_perm, places_cons, decide_True by done. cbn [fst]. symmetry. apply Permutation_middle.
  - rewrite H3. by apply insert_entry_other.
Qed.

Lemma places_other slot slot' ring ring' : filter (fun e => snd e <> slot) ring' = filter (fun e => snd e <> slot) ring -> slot' <> slot ->
  places slot' ring' = places slot' ring.
Proof.
  intros Hf Hne. assert (forall l : list (Z * Slot), filter (fun e => snd e = slot') l = filter (fun e => snd e = slot') (filter (fun e => snd e <> slot) l)) as Hl.
  { intros l. rewrite list_filter_filter. apply list_filter_iff. naive_solver. }
  unfold places. by rewrite (Hl ring'), (Hl ring), Hf.
Qed.

Lemma Add_represents c m slot n : represents c m -> m !! slot = None -> n <> O -> Z.of_nat (size m) + 1 < 2 ^ 64 ->
  represents (Add c slot n) (<[slot := n]> m) /\ filter (fun e => snd e <> slot) (ring_ (Add c slot n)) = ring_ c.
Proof.
  intros [H1 H2 H3 H4] Hno Hn Hsz. destruct (Add_loop_spec n (slotHash slot) slot (ring_ c) H1) as (A1 & A2 & A3).
  assert (places slot (ring_ c) = []) as Hnil by (apply Permutation_nil; specialize (H2 slot); by rewrite Hno in H2). split; [split|]; cbn [ring_ slotCount_ Add].
  - done.
  - intros slot'. destruct (decide (slot' = slot)) as [->|Hne].
    + rewrite lookup_insert_eq. cbn. by rewrite A2, Hnil, app_nil_r.
    + rewrite lookup_insert_ne by done. by rewrite (places_other slot slot' _ _ A3 Hne).
  - intros slot' n' Hl. apply lookup_insert_Some in Hl as [[_ <-]|[_ Hl]]; [done|by eapply H3].
  - rewrite map_size_insert_None, H4 by done. unfold wrap. rewrite Z.mod_small by lia. lia.
  - rewrite A3. apply filter_all. intros e He Hs. assert (fst e ∈ places slot (ring_ c)) as Hin; [|rewrite Hnil in Hin; by apply elem_of_nil in Hin].
    apply list_elem_of_fmap. exists e. split; [done|]. by apply list_elem_of_filter.
Qed.

Lemma erase_entry_None hash slot ring : erase_entry hash slot ring = None <-> hash ∉ places slot ring.
Proof.
  induction ring as [|e ring IH]; cbn [erase_entry]; [split; [intros _; apply not_elem_of_nil|done]|]. rewrite places_cons.
  destruct (decide (snd e = slot)) as [Hs|Hs]; [rewrite bool_decide_true by done|rewrite bool_decide_false by done; rewrite andb_false_r].
  - rewrite andb_true_r, not_elem_of_cons. destruct (Z.eqb_spec (fst e) hash) as [->|Hne]; [split; [done|by intros []]|].
    rewrite fmap_None, IH. split; [intros Hni; split; [congruence|done]|by intros []].
  - by rewrite fmap_None.
Qed.

Lemma erase_entry_Some hash slot ring ring' : erase_entry hash slot ring = Some ring' ->
  ring' `sublist_of` ring /\ places slot ring ≡ₚ hash :: places slot ring' /\ filter (fun e => snd e <> slot) ring' = filter (fun e => snd e <> slot) ring /\
  length ring = S (length ring').
Proof.
  revert ring'. induction ring as [|e ring IH]; intros ring'; cbn [erase_entry]; [done|]. destruct ((fst e =? hash) && bool_decide (snd e = slot)) eqn:E.
  - apply andb_prop in E as [Eh%Z.eqb_eq Es%bool_decide_eq_true]. intros [= <-]. split_and!; [by apply sublist_cons| |by rewrite filter_cons, decide_False by tauto|done].
    by rewrite places_cons, decide_True, Eh by done.
  - intros (r & Er & ->)%fmap_Some. destruct (IH r Er) as (H1 & H2 & H3 & H4). split_and!; [by apply sublist_skip| |by rewrite !filter_cons, H3|cbn; lia].
    rewrite !places_cons. destruct (decide (snd e = slot)); [|done]. rewrite H2. apply perm_swap.
Qed.

Lemma Remove_loop_spec n hash slot ring found fuel : places slot ring ≡ₚ orbit n hash -> (n < fuel)%nat ->
  Remove_loop fuel hash slot ring found = Ok (filter (fun e => snd e <> slot) ring, found || negb (n =? 0)%nat).
Proof.
  revert hash ring found fuel. induction n as [|n IH]; intros hash ring found fuel Hp Hf; (destruct fuel as [|fuel]; [lia|]); cbn [Remove_loop].
  - symmetry in Hp. apply Permutation_nil in Hp. rewrite (proj2 (erase_entry_None hash slot ring)) by (rewrite Hp; apply not_elem_of_nil). rewrite orb_false_r.
    rewrite filter_all; [done|]. intros e He Hs. assert (fst e ∈ places slot ring) as Hin; [|rewrite Hp in Hin; by apply elem_of_nil in Hin].
    apply list_elem_of_fmap. exists e. split; [done|]. by apply list_elem_of_filter.
  - destruct (erase_entry hash slot ring) as [ring'|] eqn:E.
    2: { apply erase_entry_None in E. destruct E. rewrite Hp. cbn. by left. }
    apply erase_entry_Some in E as (_ & Hp' & Hf' & _). rewrite (IH _ ring'); [|apply (Permutation_cons_inv (a:=hash)); by rewrite <-Hp', Hp|lia]. by rewrite Hf', orb_true_r.
Qed.

Lemma Remove_represents c m slot : represents c m -> Z.of_nat (size m) < 2 ^ 64 ->
  exists c', Remove c slot = Ok c' /\ represents c' (delete slot m) /\ ring_ c' = filter (fun e => snd e <> slot) (ring_ c).
Proof.
  intros [H1 H2 H3 H4] Hsz. unfold Remove. rewrite (Remove_loop_spec (default O (m !! slot))); [|done|].
  2: { assert (length (orbit (default O (m !! slot)) (slotHash slot)) <= length (ring_ c))%nat as Hle.
       { rewrite <-(H2 slot). unfold places. rewrite length_map. apply length_filter. }
       assert (forall n h, length (orbit n h) = n) as Hlen by (intros n; induction n; intros h; cbn; [done|by f_equal]). rewrite Hlen in Hle. lia. }
  cbn [obind orb]. eexists. split; [reflexivity|]. split; [|done]. set (ring' := filter (fun e => snd e <> slot) (ring_ c)).
  assert (filter (fun e => snd e <> slot) ring' = filter (fun e => snd e <> slot) (ring_ c)) as Hf.
  { unfold ring'. rewrite list_filter_filter. apply list_filter_iff. tauto. }
  split; cbn [ring_ slotCount_].
  - unfold ring'. clear -H1. induction H1 as [|e ring Hs IH Hall]; [constructor|]. rewrite filter_cons. destruct (decide _); [|done]. constructor; [done|].
    rewrite Forall_forall in *. intros e' He'. apply list_elem_of_filter in He' as [_ He']. by apply Hall.
  - intros slot'. destruct (decide (slot' = slot)) as [->|Hne].
    + rewrite lookup_delete_eq. cbn. unfold places, ring'. rewrite list_filter_filter, filter_none; [done|]. intros e _ []. done.
    + rewrite lookup_delete_ne by done. by rewrite (places_other slot slot' _ _ Hf Hne).
  - intros slot' n Hl. apply lookup_delete_Some in Hl as [_ Hl]. by eapply H3.
  - destruct (m !! slot) as [n|] eqn:Em; cbn [default from_option id].
    + destruct n as [|n]; [by apply H3 in Em|]. cbn. rewrite map_size_delete_Some, H4 by (by eexists). unfold wrap.
      assert (0 < size m)%nat by (destruct (size m) eqn:E; [apply map_size_empty_inv in E; subst m; by rewrite lookup_empty in Em|lia]). rewrite Z.mod_small; lia.
    + cbn. by rewrite delete_id.
Qed.

Lemma elem_of_walk hash ring e : e ∈ walk hash ring <-> e ∈ ring.
Proof. unfold walk. rewrite elem_of_app, !list_elem_of_filter. destruct (Z.lt_ge_cases (fst e) hash); naive_solver lia. Qed.

Lemma elem_of_followers c m hash x : represents c m -> x ∈ followers hash (ring_ c) <-> is_Some (m !! x).
Proof.
  intros [H1 H2 H3 H4]. unfold followers. rewrite elem_of_distinct, list_elem_of_fmap. setoid_rewrite elem_of_walk. specialize (H2 x). destruct (m !! x) as [n|] eqn:Em.
  - split; [by eexists|]. intros _. destruct n as [|n]; [by apply H3 in Em|]. cbn in H2.
    assert (slotHash x ∈ places x (ring_ c)) as Hin by (rewrite H2; by left). apply list_elem_of_fmap in Hin as (e & _ & Hin).
    apply list_elem_of_filter in Hin as [Hs Hin]. by exists e.
  - cbn in H2. symmetry in H2. apply Permutation_nil in H2. split; [|by intros []]. intros (e & -> & He). exfalso.
    assert (fst e ∈ places (snd e) (ring_ c)) as Hin; [|rewrite H2 in Hin; by apply elem_of_nil in Hin]. apply list_elem_of_fmap. exists e. split; [done|]. by apply list_elem_of_filter.
Qed.

Lemma length_followers c m hash : represents c m -> length (followers hash (ring_ c)) = size m.
Proof.
  intros Hr. rewrite <-(size_list_to_set (C:=gset Slot) (followers hash (ring_ c))) by apply NoDup_distinct. rewrite <-(size_dom (D:=gset Slot)). f_equal.
  apply set_eq. intros x. rewrite elem_of_list_to_set, elem_of_dom. by apply elem_of_followers.
Qed.

(** ** Looking up *)

(** The index of the entry that is [k] steps after index [i]. *)
Definition step_index (ring : list (Z * Slot)) (i k : nat) : nat := if (i + k <? length ring)%nat then (i + k)%nat else (i + k - length ring)%nat.

Lemma walk_lookup hash ring k : sorted ring -> (k < length ring)%nat -> walk hash ring !! k = ring !! step_index ring (lower_bound hash ring) k.
Proof.
  intros Hs Hk. destruct (lower_bound_split hash ring Hs) as [Ht Hd]. unfold walk. rewrite <-Ht, <-Hd. set (i := lower_bound hash ring).
  pose proof (lower_bound_le hash ring) as Hi. fold i in Hi.
  unfold step_index. destruct (Nat.ltb_spec (i + k) (length ring)).
  - rewrite lookup_app_l by (rewrite length_drop; lia). by rewrite lookup_drop.
  - rewrite lookup_app_r by (rewrite length_drop; lia). rewrite length_drop, lookup_take_lt by lia. f_equal. lia.
Qed.

Lemma length_walk hash ring : length (walk hash ring) = length ring.
Proof.
  unfold walk. rewrite length_app. induction ring as [|e ring IH]; [done|]. rewrite !filter_cons.
  destruct (decide (hash <= fst e)), (decide (fst e < hash)); cbn [length]; lia.
Qed.

(** What is still to come when [out] has been collected. *)
Definition unseen (out : list Slot) (l : list (Z * Slot)) : list Slot := out ++ filter (fun x => x ∉ out) (distinct (map snd l)).

Lemma unseen_cons out e l : unseen out (e :: l) = unseen (if bool_decide (snd e ∈ out) then out else out ++ [snd e]) l.
Proof.
  unfold unseen. cbn [map distinct]. rewrite filter_cons. destruct (decide (snd e ∉ out)) as [Hn|Hn].
  - rewrite bool_decide_false, <-app_assoc by done. cbn [app]. do 2 f_equal. rewrite list_filter_filter. apply list_filter_iff.
    intros x. rewrite not_elem_of_app, list_elem_of_singleton. done.
  - rewrite bool_decide_true by (by apply dec_stable). f_equal. rewrite list_filter_filter. apply list_filter_iff. intros x. split; [by intros []|].
    intros Hx. split; [done|]. intros ->. by apply Hn.
Qed.

Lemma MultiGet_loop_spec hash ring count m k fuel it out : sorted ring -> (k + m = length ring)%nat -> (m <= fuel)%nat -> (0 < m)%nat ->
  (if (it =? length ring)%nat then O else it) = step_index ring (lower_bound hash ring) k ->
  (length out < count)%nat -> (count <= length (unseen out (drop k (walk hash ring))))%nat ->
  MultiGet_loop fuel ring it (lower_bound hash ring) out count = Ok (take count (unseen out (drop k (walk hash ring)))).
Proof.
  intros Hs. revert k fuel it out. induction m as [|m IH]; intros k fuel it out Hk Hf Hm Hit Hlen Hcount; [lia|]. destruct fuel as [|fuel]; [lia|].
  destruct (lookup_lt_is_Some_2 (walk hash ring) k) as [e He]; [rewrite length_walk; lia|]. cbn [MultiGet_loop]. rewrite Hit, <-walk_lookup, He by (done || lia).
  rewrite (drop_S _ _ _ He) in Hcount |- *. rewrite unseen_cons in Hcount |- *. set (seen := bool_decide (snd e ∈ out)) in *.
  rewrite (proj2 (Nat.ltb_lt _ _) Hlen), orb_true_r. cbn [assert_that obind]. set (out' := if seen then out else out ++ [snd e]) in *.
  assert (length out' <= count)%nat as Hle by (unfold out'; destruct seen; [lia|rewrite length_app; cbn; lia]).
  destruct (Nat.ltb_spec (length out') count) as [Hlt|Hge].
  - assert (0 < m)%nat as Hm'.
    { destruct m as [|m]; [|lia]. rewrite drop_ge in Hcount by (rewrite length_walk; lia). unfold unseen in Hcount. cbn in Hcount. rewrite app_nil_r in Hcount. lia. }
    assert (S (step_index ring (lower_bound hash ring) k) <> lower_bound hash ring) as Hne by (unfold step_index; destruct (Nat.ltb_spec (lower_bound hash ring + k) (length ring)); lia).
    rewrite (proj2 (Nat.eqb_neq _ _) Hne). cbn [negb andb]. apply IH; [lia|lia|done| |done|done].
    pose proof (lower_bound_le hash ring) as Hi. unfold step_index.
    destruct (Nat.ltb_spec (lower_bound hash ring + k) (length ring)), (Nat.ltb_spec (lower_bound hash ring + S k) (length ring));
      (match goal with |- context [(?a =? ?b)%nat] => destruct (Nat.eqb_spec a b) end); lia.
  - rewrite andb_false_r. f_equal. unfold unseen. rewrite take_app_le, take_ge by lia. done.
Qed.

Lemma unseen_nil l : unseen [] l = distinct (map snd l).
Proof. unfold unseen. cbn [app]. apply filter_all. intros x _. apply not_elem_of_nil. Qed.

Lemma MultiGet_spec c m key count : represents c m -> (0 < count <= size m)%nat ->
  MultiGet c key count = Ok (take count (followers (keyHash key) (ring_ c))).
Proof.
  intros Hr Hcount. pose proof (length_followers c m (keyHash key) Hr) as Hlen. unfold MultiGet. rewrite (rp_count c m Hr), (proj2 (Z.leb_le _ _)) by lia. cbn [assert_that obind].
  assert (length (ring_ c) <> O) as Hne.
  { intros E. apply nil_length_inv in E. unfold followers, walk in Hlen. rewrite E in Hlen. cbn in Hlen. lia. }
  rewrite (MultiGet_loop_spec (keyHash key) (ring_ c) count (length (ring_ c)) O); [|apply Hr|lia|lia|lia| |cbn; lia|].
  - cbn [obind]. rewrite drop_0, unseen_nil. change (distinct _) with (followers (keyHash key) (ring_ c)). rewrite length_take, Hlen, Nat.min_l by lia. by rewrite Nat.eqb_refl.
  - unfold step_index. rewrite Nat.add_0_r. pose proof (lower_bound_le (keyHash key) (ring_ c)) as Hi.
    destruct (Nat.eqb_spec (lower_bound (keyHash key) (ring_ c)) (length (ring_ c))), (Nat.ltb_spec (lower_bound (keyHash key) (ring_ c)) (length (ring_ c))); lia.
  - rewrite drop_0, unseen_nil. change (distinct _) with (followers (keyHash key) (ring_ c)). lia.
Qed.

Lemma Get_spec c m key : represents c m -> m <> ∅ -> exists x l, followers (keyHash key) (ring_ c) = x :: l /\ Get c key = Ok x.
Proof.
  intros Hr Hne. pose proof (length_followers c m (keyHash key) Hr) as Hlen. assert (0 < size m)%nat as Hpos.
  { destruct (size m) eqn:E; [by apply map_size_empty_inv in E|lia]. }
  destruct (ring_ c) as [|e0 ring0] eqn:Er; [unfold followers, walk in Hlen; cbn in Hlen; lia|]. rewrite <-Er in *.
  assert (0 < length (ring_ c))%nat as Hl by (rewrite Er; cbn; lia).
  destruct (walk (keyHash key) (ring_ c)) as [|e l] eqn:Ew; [apply (f_equal length) in Ew; rewrite length_walk in Ew; cbn in Ew; lia|].
  exists (snd e), (filter (fun y => y <> snd e) (distinct (map snd l))). unfold followers. rewrite Ew. split; [done|]. unfold Get.
  destruct (Nat.eqb_spec (length (ring_ c)) 0) as [|_]; [lia|]. cbn [negb assert_that obind].
  pose proof (walk_lookup (keyHash key) (ring_ c) O (rp_sorted c m Hr) Hl) as Hw. rewrite Ew in Hw. cbn in Hw. unfold step_index in Hw. rewrite Nat.add_0_r in Hw.
  pose proof (lower_bound_le (keyHash key) (ring_ c)) as Hi.
  destruct (Nat.eqb_spec (lower_bound (keyHash key) (ring_ c)) (length (ring_ c))) as [E|E].
  - rewrite E, Nat.ltb_irrefl, Nat.sub_diag in Hw. by rewrite <-Hw.
  - rewrite (proj2 (Nat.ltb_lt _ _)) in Hw by lia. by rewrite <-Hw.
Qed.

Lemma New_represents : represents NewConsistentHash ∅.
Proof. split; cbn; [constructor|intros slot; by rewrite lookup_empty|intros slot n; by rewrite lookup_empty|done]. Qed.

(** ** Slots that come and go *)

(** Taking an element out of a list changes a prefix at most by what follows. *)
Lemma take_without (x : Slot) l k : NoDup l ->
  ((x ∉ take k l) /\ take k (filter (fun y => y <> x) l) = take k l) \/
  (x ∈ take k l /\ filter (fun y => y <> x) (take k l) = take (k - 1) (filter (fun y => y <> x) l)).
Proof.
  intros Hnd. revert k. induction Hnd as [|y l Hy Hnd IH]; intros k; [left; rewrite take_nil; split; [apply not_elem_of_nil|by rewrite filter_nil, take_nil]|].
  destruct k as [|k]; [left; split; [apply not_elem_of_nil|done]|]. cbn [take]. rewrite !filter_cons. destruct (decide (y <> x)) as [Hne|He].
  - destruct (IH k) as [[H1 H2]|[H1 H2]].
    + left. split; [by apply not_elem_of_cons|]. cbn. by rewrite H2.
    + right. split; [by right|]. destruct k as [|k]; [by apply elem_of_nil in H1|]. rewrite H2. cbn. by rewrite Nat.sub_0_r.
  - apply dec_stable in He as ->. right. split; [by left|]. cbn. rewrite Nat.sub_0_r.
    assert (forall l' : list Slot, (forall z, z ∈ l' -> z ∈ l) -> filter (fun z => z <> x) l' = l') as Hf.
    { intros l' Hl'. apply filter_all. intros z Hz ->. by apply Hy, Hl'. }
    rewrite !Hf; [done|done|]. intros z. apply subseteq_take.
Qed.

(** Where a ring without a slot and one with it send a key. *)
Definition only_for (slot : Slot) (count : nat) (without with_slot : list Slot) : Prop :=
  ((slot ∉ with_slot) /\ with_slot = without) \/ (slot ∈ with_slot /\ filter (fun x => x <> slot) with_slot = take (count - 1) without).

Lemma MultiGet_without c c' m m' slot key count : represents c m -> represents c' m' -> ring_ c = filter (fun e => snd e <> slot) (ring_ c') ->
  (0 < count <= size m)%nat -> (count <= size m')%nat ->
  exists out out', MultiGet c key count = Ok out /\ MultiGet c' key count = Ok out' /\ only_for slot count out out'.
Proof.
  intros Hr Hr' Hring Hc Hc'. eexists _, _. rewrite (MultiGet_spec c m), (MultiGet_spec c' m') by (done || lia). split_and!; [reflexivity..|].
  rewrite Hring, followers_without. unfold only_for. destruct (take_without slot (followers (keyHash key) (ring_ c')) count (NoDup_distinct _)) as [[H1 H2]|[H1 H2]].
  - left. by rewrite H2.
  - right. split; [done|]. rewrite H2, take_take. by rewrite Nat.min_l by lia.
Qed.
End ConsistentHash.
End ConsistentHash.

Import ConsistentHash.

(** ** Properties *)

(** C23: the ring is a map from slots to replicas.  Starting from the empty ring,
    adding a slot that is not there, with some replicas, and removing a slot
    insert into and delete from the map, whatever the hash functions are and
    whichever hashes collide; the loop of [Remove] ends; removing what was added
    gives the old ring back; and [SlotCount] is the number of slots. *)
Theorem ConsistentHash_refines {Key Slot} `{Countable Slot} (keyHash : Key -> Z) (slotHash : Slot -> Z) :
  represents slotHash NewConsistentHash ∅ /\
  (forall c m slot n, represents slotHash c m -> m !! slot = None -> n <> O -> Z.of_nat (size m) + 1 < 2 ^ 64 ->
     represents slotHash (Add slotHash c slot n) (<[slot := n]> m) /\ Remove slotHash (Add slotHash c slot n) slot = Ok c) /\
  (forall c m slot, represents slotHash c m -> Z.of_nat (size m) < 2 ^ 64 -> exists c', Remove slotHash c slot = Ok c' /\ represents slotHash c' (delete slot m)) /\
  (forall c m, represents slotHash c m -> SlotCount c = Z.of_nat (size m) /\ represents slotHash (Clear c) ∅).
Proof.
  split_and!; [apply New_represents| | |].
  - intros c m slot n Hr Hno Hn Hsz. destruct (Add_represents slotHash c m slot n Hr Hno Hn Hsz) as [Ha Hf]. split; [done|].
    destruct (Remove_represents slotHash _ _ slot Ha) as (c' & E & Hr' & Hring); [rewrite map_size_insert_None by done; lia|]. rewrite E. f_equal.
    rewrite Hf in Hring. destruct c as [ring count], c' as [ring' count']. cbn in *. subst ring'. f_equal.
    rewrite delete_insert_id in Hr' by done. pose proof (rp_count _ _ _ Hr') as H1. pose proof (rp_count _ _ _ Hr) as H2. cbn in *. congruence.
  - intros c m slot Hr Hsz. destruct (Remove_represents slotHash c m slot Hr Hsz) as (c' & E & Hr' & _). by exists c'.
  - intros c m Hr. split; [by apply Hr|]. apply New_represents.
Qed.

(** C22: looking up several slots gives the nearest ones.  For as many slots as
    there are at most, [MultiGet] ends, fails no assertion, and gives different
    slots of the ring: the first ones met on the ring from the hash of the key
    on; the first of them is what [Get] gives. *)
Theorem MultiGet_nearest {Key Slot} `{Countable Slot} (keyHash : Key -> Z) (slotHash : Slot -> Z) c m key count : represents slotHash c m -> (0 < count <= size m)%nat ->
  exists out, MultiGet keyHash c key count = Ok out /\ out = take count (followers (keyHash key) (ring_ c)) /\ length out = count /\ NoDup out /\
    (forall x, x ∈ out -> is_Some (m !! x)) /\ exists x l, out = x :: l /\ Get keyHash c key = Ok x.
Proof.
  intros Hr Hc. exists (take count (followers (keyHash key) (ring_ c))). rewrite (MultiGet_spec keyHash slotHash c m) by done. pose proof (length_followers slotHash c m (keyHash key) Hr) as Hlen. split_and!; [done|done|..].
  - rewrite length_take. lia.
  - apply (sublist_NoDup _ (followers (keyHash key) (ring_ c))); [apply NoDup_distinct|apply sublist_take].
  - intros x Hx. eapply (elem_of_followers slotHash c m (keyHash key)); [done|]. by eapply subseteq_take.
  - destruct (Get_spec keyHash slotHash c m key Hr) as (x & l & El & Eg); [intros ->; rewrite map_size_empty in Hc; lia|].
    exists x, (take (count - 1) l). rewrite El. destruct count as [|count]; [lia|]. cbn. by rewrite Nat.sub_0_r.
Qed.

(** C40: the mapping changes as little as possible.  When a slot is added, a key
    keeps its slots, or gets the new one in place of its last one; when a slot is
    removed, a key that did not have it keeps its slots, and one that had it
    keeps the others and gets one more. *)
Theorem ConsistentHash_consistent {Key Slot} `{Countable Slot} (keyHash : Key -> Z) (slotHash : Slot -> Z) c m slot n key count :
  represents slotHash c m -> Z.of_nat (size m) + 1 < 2 ^ 64 -> (0 < count)%nat ->
  (m !! slot = None -> n <> O -> (count <= size m)%nat ->
     exists out out', MultiGet keyHash c key count = Ok out /\ MultiGet keyHash (Add slotHash c slot n) key count = Ok out' /\ only_for slot count out out') /\
  ((count <= size (delete slot m))%nat ->
     exists c' out out', Remove slotHash c slot = Ok c' /\ MultiGet keyHash c key count = Ok out /\ MultiGet keyHash c' key count = Ok out' /\ only_for slot count out' out).
Proof.
  intros Hr Hsz Hc. split.
  - intros Hno Hn Hle. destruct (Add_represents slotHash c m slot n Hr Hno Hn Hsz) as [Ha Hf].
    apply (MultiGet_without keyHash slotHash c (Add slotHash c slot n) m (<[slot := n]> m)); [done|done|done|done|]. rewrite map_size_insert_None by done. lia.
  - intros Hle. destruct (Remove_represents slotHash c m slot Hr ltac:(lia)) as (c' & E & Hr' & Hring). exists c'.
    destruct (MultiGet_without keyHash slotHash c' c (delete slot m) m slot key count) as (out & out' & E1 & E2 & Ho); [done|done|done|done|by etrans; [exact Hle|apply map_subseteq_size, delete_subseteq]|].
    by exists out', out.
Qed.

(** ** Examples *)

(** Towers 1, 2 and 3, with two replicas each. *)
Definition example_ring : t := Add MurmurHash2_u64 (Add MurmurHash2_u64 (Add MurmurHash2_u64 NewConsistentHash 1 2) 2 2) 3 2.

Lemma example_ring_represents : represents MurmurHash2_u64 example_ring (<[3 := 2%nat]> (<[2 := 2%nat]> (<[1 := 2%nat]> ∅))).
Proof.
  unfold example_ring. repeat (apply Add_represents; [|by rewrite ?lookup_insert_ne, ?lookup_empty by done|done|by vm_compute]). apply New_represents.
Qed.

Lemma ConsistentHash_refines_witness :
  Remove MurmurHash2_u64 (Add MurmurHash2_u64 example_ring 4 3) 4 = Ok example_ring.
Proof.
  apply (proj1 (proj2 (ConsistentHash_refines (Key:=Z) MurmurHash2_u64 MurmurHash2_u64)) example_ring _ 4 3%nat example_ring_represents); by vm_compute.
Defined.

Lemma MultiGet_nearest_witness : exists out, MultiGet MurmurHash2_u64 example_ring 77 2 = Ok out /\ length out = 2%nat /\ NoDup out.
Proof.
  destruct (MultiGet_nearest MurmurHash2_u64 MurmurHash2_u64 example_ring _ 77 2 example_ring_represents ltac:(vm_compute; lia)) as (out & E & _ & Hl & Hnd & _).
  exists out. split; [exact E|]. split; [exact Hl|exact Hnd].
Defined.

Lemma ConsistentHash_consistent_witness : exists out out', MultiGet MurmurHash2_u64 example_ring 77 2 = Ok out /\
  MultiGet MurmurHash2_u64 (Add MurmurHash2_u64 example_ring 4 2) 77 2 = Ok out' /\ only_for 4 2 out out'.
Proof.
  apply (ConsistentHash_consistent MurmurHash2_u64 MurmurHash2_u64 example_ring _ 4 2 77 2 example_ring_represents); [by vm_compute|lia|by vm_compute|done|vm_compute; lia].
Defined.

(** A slot that is added twice counts twice; asked for two slots, [MultiGet] goes
    round the ring without end when the key is before the first entry, since the
    iterator it compares with is then never met. *)
Lemma same_slot_twice : let c := Add (fun slot : Z => slot) (Add (fun slot : Z => slot) NewConsistentHash 5 1) 5 1 in
  SlotCount c = 2 /\ forall fuel, MultiGet_loop fuel (ring_ c) (lower_bound 3 (ring_ c)) (lower_bound 3 (ring_ c)) [] 2 = Abort "MultiGet".
Proof.
  cbn zeta. split; [done|]. intros fuel.
  change (MultiGet_loop fuel [(5, 5); (5, 5)] O O [] 2 = Abort "MultiGet"). destruct fuel as [|fuel]; [done|]. cbn.
  assert (forall fuel, MultiGet_loop fuel [(5, 5); (5, 5)] 1 0 [5] 2 = Abort "MultiGet" /\ MultiGet_loop fuel [(5, 5); (5, 5)] 2 0 [5] 2 = Abort "MultiGet") as Hl; [|apply Hl].
  clear. intros fuel. induction fuel as [|fuel [IH1 IH2]]; [done|]. split; cbn; [exact IH2|exact IH1].
Qed.

(** A slot whose entries have the hash of another one is never given, but its
    ratio is that of the whole ring. *)
Lemma hidden_slot_ratio : let c := Add (fun _ : Z => 9) (Add (fun _ : Z => 9) NewConsistentHash 1 1) 2 1 in
  (forall key, Get (fun key : Z => key) c key = Ok 1) /\ SlotRatio c 2 = 2 ^ 64.
Proof.
  cbn zeta. split; [|done]. intros key. unfold Get. cbn. destruct (9 <? key) eqn:E; cbn; by rewrite ?E.
Qed.
