(* ===== verification/TowerRouters.v ===== *)
(** * Routers to the control towers

    util/control_tower_router.cc: which control towers serve a log, by a ring of
    hashes ([ConsistentHashTowerRouter]) or by the weights of the towers for the
    log ([RendezvousHashTowerRouter]).  The class [TowerRouter] is what the
    copilot requires of a router (copilot/control_tower_router.h); both are
    instances.  A host is a number, as in [CopilotWorker]. *)

From Stdlib Require Import Sorting.Sorted.
From stdpp Require Import sorting.
From S2P Require Import Prelude Coding CodingFacts SubscriptionId ConsistentHash CopilotWorker CopilotTowers.

#[local] Open Scope Z_scope.
#[local] Open Scope outcome_scope.

(** ** Ring of hashes *)

Record ConsistentHashTowerRouter := {
  ring_host_ids_ : gmap Z HostId;
  mapping_ : @ConsistentHash.t Z;
  ring_towers_per_log_ : Z
}.

Definition NewConsistentHashTowerRouter (control_towers : gmap Z HostId) (replicas : nat) (control_towers_per_log : Z) : ConsistentHashTowerRouter :=
  {| ring_host_ids_ := control_towers;
     mapping_ := foldl (fun mapping node_host => ConsistentHash.Add MurmurHash2_u64 mapping (fst node_host) replicas)
                   ConsistentHash.NewConsistentHash (map_to_list control_towers);
     ring_towers_per_log_ := control_towers_per_log |}.

(** The hosts of the towers; [None] if one is not known. *)
Fixpoint hosts_of (host_ids : gmap Z HostId) (node_ids : list Z) : option (list HostId) :=
  match node_ids with
  | [] => Some []
  | id :: node_ids => host ← host_ids !! id; hosts ← hosts_of host_ids node_ids; Some (host :: hosts)
  end.

(** [None] is [Status::NotFound]. *)
Definition ConsistentHash_GetControlTowers (r : ConsistentHashTowerRouter) (logID : Z) : outcome (option (list HostId)) :=
  let count := Z.min (ring_towers_per_log_ r) (ConsistentHash.SlotCount (mapping_ r)) in
  if count =? 0 then Ok None
  else
    node_ids <~ ConsistentHash.MultiGet MurmurHash2_u64 (mapping_ r) logID (Z.to_nat count) ;;
    Ok (hosts_of (ring_host_ids_ r) node_ids).

(** ** Weights *)

Record RendezvousHashTowerRouter := { rv_host_ids_ : gmap Z HostId; rv_towers_per_log_ : Z }.

(** Weights are compared as pairs of a hash and a pointer: where the entries of
    the map are allocated decides between equal hashes. *)
Definition weight_le (address : Z -> Z) (p q : Z * Z) : Prop := fst p < fst q \/ (fst p = fst q /\ address (snd p) <= address (snd q)).

#[export] Instance weight_le_dec address : RelDecision (weight_le address).
Proof. intros p q. unfold weight_le. apply _. Defined.

Section Rendezvous.
(** XXH64 of the log and the tower, and [std::nth_element], which leaves the
    order on both sides of the place open. *)
Context (xxh64 : Z -> Z -> Z) (nth_element : nat -> list (Z * Z) -> list (Z * Z)).

(** A tower with its hash, in the place of the pointer to its entry. *)
Definition weights (host_ids : gmap Z HostId) (log_id : Z) : list (Z * Z) := map (fun entry => (xxh64 log_id (fst entry), fst entry)) (map_to_list host_ids).

Definition chosen (r : RendezvousHashTowerRouter) (log_id : Z) (count : nat) : list Z :=
  map snd (take count (nth_element count (weights (rv_host_ids_ r) log_id))).

Definition Rendezvous_GetControlTowers (r : RendezvousHashTowerRouter) (log_id : Z) : outcome (option (list HostId)) :=
  let count := Z.min (rv_towers_per_log_ r) (Z.of_nat (size (rv_host_ids_ r))) in
  if count =? 0 then Ok None else Ok (hosts_of (rv_host_ids_ r) (chosen r log_id (Z.to_nat count))).
End Rendezvous.

(** What the standard says of [std::nth_element]: it permutes the elements, and
    none before the place is greater than one from the place on. *)
Definition is_nth_element (address : Z -> Z) (nth_element : nat -> list (Z * Z) -> list (Z * Z)) : Prop :=
  forall n l, nth_element n l ≡ₚ l /\ forall p q, p ∈ take n (nth_element n l) -> q ∈ drop n (nth_element n l) -> weight_le address p q.

(** ** What the copilot asks of a router *)

Class TowerRouter (R : Type) := {
  router_valid : R -> Prop;
  GetControlTowers_of : R -> Z -> outcome (option (list HostId));
  router_spec : forall r logid, router_valid r -> exists out, GetControlTowers_of r logid = Ok (Some out) /\ NoDup out /\ out <> []
}.

(** The router as the copilot worker calls it. *)
Definition as_router {R} `{TowerRouter R} (r : R) (logid : Z) : option (list HostId) :=
  match GetControlTowers_of r logid with
  | Ok out => out
  | Abort _ => None
  end.

Lemma as_router_ok {R} `{TowerRouter R} (r : R) : router_valid r -> router_ok (as_router r) /\ router_total (as_router r).
Proof.
  intros Hv. split.
  - intros logid out. unfold as_router. destruct (router_spec r logid Hv) as (out' & -> & Hnd & _). by intros [= <-].
  - intros logid. unfold as_router. destruct (router_spec r logid Hv) as (out & -> & _ & Hne). by exists out.
Qed.

(** Towers with hosts of their own, and at least one of them to be used. *)
Definition towers_valid (host_ids : gmap Z HostId) (per_log : Z) : Prop :=
  (forall id id' host, host_ids !! id = Some host -> host_ids !! id' = Some host -> id = id') /\ host_ids <> ∅ /\ 0 < per_log /\ Z.of_nat (size host_ids) < 2 ^ 64.

Lemma hosts_of_spec host_ids per_log ids : towers_valid host_ids per_log -> NoDup ids -> (forall id, id ∈ ids -> is_Some (host_ids !! id)) ->
  exists hosts, hosts_of host_ids ids = Some hosts /\ length hosts = length ids /\ NoDup hosts /\ Forall2 (fun id host => host_ids !! id = Some host) ids hosts.
Proof.
  intros (Hinj & _). induction ids as [|id ids IH]; intros Hnd Hin; cbn [hosts_of].
  { exists []. split_and!; [done|done|constructor|constructor]. }
  apply NoDup_cons in Hnd as [Hni Hnd]. destruct (Hin id ltac:(by left)) as [host Hh]. rewrite Hh. cbn.
  destruct IH as (hosts & -> & Hl & Hn & Hf); [done|intros x Hx; apply Hin; by right|]. cbn. exists (host :: hosts). split_and!; [done|cbn; by rewrite Hl| |by constructor].
  apply NoDup_cons. split; [|done]. intros Hx. apply list_elem_of_lookup in Hx as [i Hi]. destruct (Forall2_lookup_r _ _ _ _ _ Hf Hi) as (id' & Hi' & Hh').
  apply Hni. rewrite (Hinj id id' host Hh Hh'). by eapply list_elem_of_lookup_2.
Qed.

Lemma towers_some host_ids per_log : towers_valid host_ids per_log -> 0 < Z.min per_log (Z.of_nat (size host_ids)).
Proof. intros (_ & Hne & Hp & _). destruct (size host_ids) eqn:E; [by apply map_size_empty_inv in E|lia]. Qed.

(** ** The ring *)

Lemma ring_built (l : list (Z * HostId)) replicas c m : replicas <> O -> ConsistentHash.represents MurmurHash2_u64 c m -> NoDup l.*1 -> (forall id, id ∈ l.*1 -> m !! id = None) ->
  Z.of_nat (size m) + Z.of_nat (length l) < 2 ^ 64 ->
  exists m', ConsistentHash.represents MurmurHash2_u64 (foldl (fun mapping node_host => ConsistentHash.Add MurmurHash2_u64 mapping (fst node_host) replicas) c l) m' /\
    size m' = (size m + length l)%nat /\ (forall id, is_Some (m' !! id) <-> is_Some (m !! id) \/ id ∈ l.*1).
Proof.
  intros Hrep. revert c m. induction l as [|[id host] l IH]; intros c m Hr Hnd Hno Hsz; cbn [foldl length] in *.
  { exists m. split_and!; [done|lia|]. intros id. rewrite elem_of_nil. tauto. }
  cbn [fmap list_fmap fst] in Hnd, Hno |- *. apply NoDup_cons in Hnd as [Hni Hnd]. assert (m !! id = None) as Hid by (apply Hno; by left).
  destruct (ConsistentHash.Add_represents MurmurHash2_u64 c m id replicas Hr Hid Hrep) as [Hr' _]; [lia|].
  destruct (IH _ (<[id := replicas]> m) Hr' Hnd) as (m' & H1 & H2 & H3).
  - intros x Hx. rewrite lookup_insert_ne by (by intros ->). apply Hno. by right.
  - rewrite map_size_insert_None by done. lia.
  - exists m'. split_and!; [done|rewrite H2, map_size_insert_None by done; lia|]. intros x. rewrite H3, lookup_insert_is_Some', elem_of_cons. split; [intros [[<-|]|]; auto|intros [|[->|]]; auto].
Qed.

Lemma ring_represents host_ids replicas per_log : replicas <> O -> Z.of_nat (size host_ids) < 2 ^ 64 ->
  exists m, ConsistentHash.represents MurmurHash2_u64 (mapping_ (NewConsistentHashTowerRouter host_ids replicas per_log)) m /\
    size m = size host_ids /\ forall id, is_Some (m !! id) <-> is_Some (host_ids !! id).
Proof.
  intros Hrep Hsz. destruct (ring_built (map_to_list host_ids) replicas ConsistentHash.NewConsistentHash ∅ Hrep) as (m & H1 & H2 & H3).
  - apply ConsistentHash.New_represents.
  - apply NoDup_fst_map_to_list.
  - intros id _. apply lookup_empty.
  - rewrite length_map_to_list, map_size_empty. lia.
  - exists m. rewrite map_size_empty, length_map_to_list in H2. split_and!; [done|lia|]. intros id. rewrite H3, lookup_empty. split.
    + intros [[? ?]|Hin]; [done|]. apply list_elem_of_fmap in Hin as ([id' host] & -> & Hin%elem_of_map_to_list). by eexists.
    + intros [host Hh]. right. apply list_elem_of_fmap. exists (id, host). split; [done|]. by apply elem_of_map_to_list.
Qed.

Definition ring_valid (r : ConsistentHashTowerRouter) : Prop := exists host_ids replicas per_log, r = NewConsistentHashTowerRouter host_ids replicas per_log /\
  replicas <> O /\ towers_valid host_ids per_log.

(** What both routers give for a log. *)
Definition gives_towers (host_ids : gmap Z HostId) (per_log : Z) (res : outcome (option (list HostId))) : Prop :=
  exists ids hosts, res = Ok (Some hosts) /\ NoDup ids /\ NoDup hosts /\ Forall2 (fun id host => host_ids !! id = Some host) ids hosts /\
    Z.of_nat (length hosts) = Z.min per_log (Z.of_nat (size host_ids)).

Lemma gives_towers_distinct host_ids per_log res : towers_valid host_ids per_log -> gives_towers host_ids per_log res ->
  exists out, res = Ok (Some out) /\ NoDup out /\ out <> [].
Proof.
  intros Hv (ids & hosts & -> & _ & Hnd & _ & Hl). exists hosts. split_and!; [done|done|]. intros ->. pose proof (towers_some _ _ Hv). cbn in Hl. lia.
Qed.

Lemma ring_gives host_ids replicas per_log logID : replicas <> O -> towers_valid host_ids per_log ->
  gives_towers host_ids per_log (ConsistentHash_GetControlTowers (NewConsistentHashTowerRouter host_ids replicas per_log) logID).
Proof.
  intros Hrep Hv. pose proof (towers_some _ _ Hv) as Hpos. destruct (ring_represents host_ids replicas per_log Hrep) as (m & Hm & Hsz & Hdom); [apply Hv|].
  unfold ConsistentHash_GetControlTowers. set (r := NewConsistentHashTowerRouter host_ids replicas per_log) in *.
  assert (ConsistentHash.SlotCount (mapping_ r) = Z.of_nat (size host_ids)) as -> by (rewrite <-Hsz; apply Hm).
  change (ring_towers_per_log_ r) with per_log. destruct (Z.eqb_spec (Z.min per_log (Z.of_nat (size host_ids))) 0) as [|_]; [lia|].
  set (count := Z.to_nat _). rewrite (ConsistentHash.MultiGet_spec MurmurHash2_u64 MurmurHash2_u64 (mapping_ r) m logID count Hm) by (unfold count; lia). cbn [obind].
  set (ids := take count _). assert (NoDup ids) as Hnd by (eapply sublist_NoDup; [|apply sublist_take]; apply ConsistentHash.NoDup_distinct).
  assert (length ids = count) as Hlen by (unfold ids; rewrite length_take, (ConsistentHash.length_followers MurmurHash2_u64 (mapping_ r) m _ Hm); unfold count; lia).
  destruct (hosts_of_spec host_ids per_log ids Hv Hnd) as (hosts & Eh & Hl & Hn & Hf).
  { intros id Hin. apply Hdom, (ConsistentHash.elem_of_followers MurmurHash2_u64 (mapping_ r) m (MurmurHash2_u64 logID) id Hm). by eapply subseteq_take. }
  change (ring_host_ids_ r) with host_ids. rewrite Eh. exists ids, hosts. split_and!; [done|done|done|done|]. rewrite Hl, Hlen. unfold count. lia.
Qed.

#[export] Program Instance ConsistentHash_TowerRouter : TowerRouter ConsistentHashTowerRouter := {|
  router_valid := ring_valid;
  GetControlTowers_of := ConsistentHash_GetControlTowers
|}.
Next Obligation.
  intros r logid (host_ids & replicas & per_log & -> & Hrep & Hv). by eapply gives_towers_distinct, ring_gives.
Qed.

(** ** The weights *)

Section RendezvousFacts.
Context (xxh64 : Z -> Z -> Z) (nth_element : nat -> list (Z * Z) -> list (Z * Z)) (address : Z -> Z).
(** Entries are allocated at different places. *)
Context `{!Inj (=) (=) address} (Hnth : is_nth_element address nth_element).

#[local] Abbreviation le := (weight_le address).

#[local] Instance weight_le_total : Total le.
Proof. intros p q. unfold weight_le. lia. Qed.

#[local] Instance weight_le_trans : Transitive le.
Proof. intros p q r. unfold weight_le. lia. Qed.

#[local] Instance weight_le_antisymm : AntiSymm (=) le.
Proof.
  intros [h id] [h' id']. unfold weight_le. cbn. intros H1 H2. assert (h = h' /\ address id = address id') as [-> Ha] by lia. by rewrite (inj address _ _ Ha).
Qed.

#[local] Abbreviation sort l := (merge_sort le l).

Lemma sort_sorted l : StronglySorted le (sort l).
Proof. apply StronglySorted_merge_sort; apply _. Qed.

(** The elements before the place are the lowest ones. *)
Lemma nth_element_lowest n l : take n (nth_element n l) ≡ₚ take n (sort l).
Proof.
  destruct (Hnth n l) as [Hp Hle]. set (A := take n _) in *. set (B := drop n _) in *.
  assert (sort l = sort A ++ sort B) as ->.
  { apply (StronglySorted_unique le); [apply sort_sorted| |].
    - apply StronglySorted_app. split_and!; [|apply sort_sorted..]. intros p q. rewrite !merge_sort_Permutation. apply Hle.
    - rewrite !merge_sort_Permutation. rewrite <-Hp. unfold A, B. by rewrite take_drop. }
  assert (length (sort A) = length A) as Hl by by rewrite merge_sort_Permutation.
  destruct (decide (n <= length (nth_element n l))%nat) as [Hn|Hn].
  - rewrite take_app_length' by (rewrite Hl; unfold A; rewrite length_take; lia). by rewrite merge_sort_Permutation.
  - assert (B = []) as -> by (apply drop_ge; lia). cbn. rewrite app_nil_r, take_ge; [by rewrite merge_sort_Permutation|]. rewrite Hl. unfold A. rewrite length_take. lia.
Qed.

(** Sorting commutes with leaving elements out. *)
Lemma sort_filter (P : Z * Z -> Prop) `{!forall p, Decision (P p)} l : sort (filter P l) = filter P (sort l).
Proof.
  apply (StronglySorted_unique le).
  - apply sort_sorted.
  - pose proof (sort_sorted l) as Hs. induction Hs as [|p l' Hs IH Hf]; [constructor|]. rewrite filter_cons. destruct (decide (P p)); [|done].
    constructor; [done|]. rewrite Forall_forall in *. intros q Hq. apply list_elem_of_filter in Hq as [_ Hq]. by apply Hf.
  - by rewrite !merge_sort_Permutation.
Qed.

Lemma weights_ids host_ids log_id : map snd (weights xxh64 host_ids log_id) = (map_to_list host_ids).*1.
Proof. unfold weights. rewrite map_map. done. Qed.

Lemma weights_delete host_ids log_id id : weights xxh64 (delete id host_ids) log_id ≡ₚ filter (fun p => snd p <> id) (weights xxh64 host_ids log_id).
Proof.
  apply NoDup_Permutation.
  - apply (NoDup_fmap_1 snd). change (NoDup (map snd (weights xxh64 (delete id host_ids) log_id))). rewrite weights_ids. apply NoDup_fst_map_to_list.
  - apply NoDup_filter, (NoDup_fmap_1 snd). change (NoDup (map snd (weights xxh64 host_ids log_id))). rewrite weights_ids. apply NoDup_fst_map_to_list.
  - intros p. rewrite list_elem_of_filter. unfold weights. rewrite !list_elem_of_fmap. split.
    + intros ([i host] & -> & Hin%elem_of_map_to_list). apply lookup_delete_Some in Hin as [Hne Hin]. cbn. split; [done|]. exists (i, host). split; [done|]. by apply elem_of_map_to_list.
    + intros [Hne ([i host] & -> & Hin%elem_of_map_to_list)]. cbn in Hne. exists (i, host). split; [done|]. apply elem_of_map_to_list, lookup_delete_Some. done.
Qed.

(** All towers, the one with the lowest weight first. *)
Definition ranking host_ids log_id : list Z := map snd (sort (weights xxh64 host_ids log_id)).

Lemma chosen_ranking r log_id count : chosen xxh64 nth_element r log_id count ≡ₚ take count (ranking (rv_host_ids_ r) log_id).
Proof using All.
  unfold chosen, ranking. change (map snd (take count ?l)) with (snd <$> take count l). rewrite nth_element_lowest. by rewrite fmap_take.
Qed.

Lemma ranking_perm host_ids log_id : ranking host_ids log_id ≡ₚ (map_to_list host_ids).*1.
Proof. unfold ranking. rewrite merge_sort_Permutation. by rewrite weights_ids. Qed.

Lemma ranking_NoDup host_ids log_id : NoDup (ranking host_ids log_id).
Proof. rewrite ranking_perm. apply NoDup_fst_map_to_list. Qed.

Lemma ranking_delete host_ids log_id id : ranking (delete id host_ids) log_id = filter (fun x => x <> id) (ranking host_ids log_id).
Proof.
  unfold ranking. assert (sort (weights xxh64 (delete id host_ids) log_id) = sort (filter (fun p => snd p <> id) (weights xxh64 host_ids log_id))) as ->.
  { apply (StronglySorted_unique le); [apply sort_sorted|apply sort_sorted|]. by rewrite !merge_sort_Permutation, weights_delete. }
  rewrite sort_filter. induction (sort (weights xxh64 host_ids log_id)) as [|p l IH]; [done|]. cbn [map]. rewrite !filter_cons.
  destruct (decide (snd p <> id)); cbn [map]; by rewrite IH.
Qed.

Lemma rendezvous_gives r logID : towers_valid (rv_host_ids_ r) (rv_towers_per_log_ r) ->
  gives_towers (rv_host_ids_ r) (rv_towers_per_log_ r) (Rendezvous_GetControlTowers xxh64 nth_element r logID).
Proof using All.
  intros Hv. pose proof (towers_some _ _ Hv) as Hpos. unfold Rendezvous_GetControlTowers. set (n := Z.min _ _) in *. destruct (Z.eqb_spec n 0) as [|_]; [lia|].
  set (ids := chosen _ _ _ _ _). pose proof (chosen_ranking r logID (Z.to_nat n)) as Hids. fold ids in Hids.
  assert (NoDup ids) as Hnd by (rewrite Hids; eapply sublist_NoDup; [apply ranking_NoDup|apply sublist_take]).
  assert (length ids = Z.to_nat n) as Hlen.
  { rewrite Hids, length_take, ranking_perm. rewrite length_fmap, length_map_to_list. lia. }
  destruct (hosts_of_spec (rv_host_ids_ r) (rv_towers_per_log_ r) ids Hv Hnd) as (hosts & -> & Hl & Hn & Hf).
  { intros id. rewrite Hids. intros Hin%subseteq_take. rewrite ranking_perm in Hin. apply list_elem_of_fmap in Hin as ([i host] & -> & Hin%elem_of_map_to_list). by eexists. }
  exists ids, hosts. split_and!; [done|done|done|done|]. rewrite Hl, Hlen. unfold n. lia.
Qed.

#[export] Program Instance Rendezvous_TowerRouter : TowerRouter RendezvousHashTowerRouter := {|
  router_valid r := towers_valid (rv_host_ids_ r) (rv_towers_per_log_ r);
  GetControlTowers_of := Rendezvous_GetControlTowers xxh64 nth_element
|}.
Next Obligation. intros r logid Hv. by eapply gives_towers_distinct, rendezvous_gives. Qed.
End RendezvousFacts.

(** No two towers have the same hash for the log. *)
Definition hashes_differ (xxh64 : Z -> Z -> Z) (host_ids : gmap Z HostId) (log_id : Z) : Prop :=
  forall x y, is_Some (host_ids !! x) -> is_Some (host_ids !! y) -> xxh64 log_id x = xxh64 log_id y -> x = y.

Lemma elem_of_weights xxh64 host_ids log_id p : p ∈ weights xxh64 host_ids log_id <-> fst p = xxh64 log_id (snd p) /\ is_Some (host_ids !! snd p).
Proof.
  unfold weights. rewrite list_elem_of_fmap. split.
  - intros ([i host] & -> & Hin%elem_of_map_to_list). by split; [|eexists].
  - destruct p as [h i]. cbn. intros [-> [host Hi]]. exists (i, host). split; [done|]. by apply elem_of_map_to_list.
Qed.

(** Where the entries are allocated then does not matter. *)
Lemma ranking_address xxh64 address address' `{!Inj (=) (=) address, !Inj (=) (=) address'} host_ids log_id : hashes_differ xxh64 host_ids log_id ->
  ranking xxh64 address host_ids log_id = ranking xxh64 address' host_ids log_id.
Proof.
  intros Hd. unfold ranking. f_equal. apply (StronglySorted_unique_strong (weight_le address')).
  - intros p q _ _. apply (weight_le_antisymm address').
  - assert (forall p, p ∈ merge_sort (weight_le address) (weights xxh64 host_ids log_id) -> p ∈ weights xxh64 host_ids log_id) as Hin by (intros p; by rewrite merge_sort_Permutation).
    pose proof (sort_sorted address (weights xxh64 host_ids log_id)) as Hs. induction Hs as [|p l Hs IH Hf]; [constructor|]. constructor.
    + apply IH. intros q Hq. apply Hin. by right.
    + rewrite Forall_forall in *. intros q Hq. specialize (Hf q Hq).
      pose proof (proj1 (elem_of_weights _ _ _ _) (Hin p ltac:(by left))) as [Hp1 Hp2]. pose proof (proj1 (elem_of_weights _ _ _ _) (Hin q ltac:(by right))) as [Hq1 Hq2].
      unfold weight_le in *. destruct Hf as [Hf|[Hf _]]; [by left|]. right. split; [done|]. rewrite (Hd (snd p) (snd q)); [lia|done|done|congruence].
  - apply sort_sorted.
  - by rewrite !merge_sort_Permutation.
Qed.

(** The towers in front have the lowest hashes. *)
Lemma lowest_first xxh64 nth_element address (Hnth : is_nth_element address nth_element) r log_id count x y :
  x ∈ chosen xxh64 nth_element r log_id count -> is_Some (rv_host_ids_ r !! y) -> (y ∉ chosen xxh64 nth_element r log_id count) -> xxh64 log_id x <= xxh64 log_id y.
Proof.
  unfold chosen. set (w := weights xxh64 (rv_host_ids_ r) log_id). destruct (Hnth count w) as [Hp Hle]. intros Hx Hy Hny.
  assert ((xxh64 log_id y, y) ∈ w) as Hyw by (apply elem_of_weights; by split). apply list_elem_of_fmap in Hx as (p & -> & Hpx).
  assert (p ∈ w) as Hpw by (rewrite <-Hp; by eapply subseteq_take). apply elem_of_weights in Hpw as [Hpf _].
  rewrite <-Hp, <-(take_drop count (nth_element count w)), elem_of_app in Hyw. destruct Hyw as [Hyw|Hyw]; [destruct Hny; apply list_elem_of_fmap; by exists (xxh64 log_id y, y)|].
  specialize (Hle p _ Hpx Hyw). unfold weight_le in Hle. cbn in Hle. lia.
Qed.

(** ** Properties *)

(** C25: both routers give a log its towers.  With at least one tower, hosts that
    differ, and replicas on the ring, no assertion of the ring fails, the loop
    over it ends, and a log gets as many different towers as it should have, or
    all there are, with their hosts; so the copilot finds what it requires of a
    router: every log has a tower, and none is named twice. *)
Theorem routers_give_towers xxh64 nth_element address (Hinj : Inj (=) (=) address) (Hnth : is_nth_element address nth_element) host_ids replicas per_log logid :
  replicas <> O -> towers_valid host_ids per_log ->
  gives_towers host_ids per_log (ConsistentHash_GetControlTowers (NewConsistentHashTowerRouter host_ids replicas per_log) logid) /\
  gives_towers host_ids per_log (Rendezvous_GetControlTowers xxh64 nth_element {| rv_host_ids_ := host_ids; rv_towers_per_log_ := per_log |} logid) /\
  (forall {R} `{TowerRouter R} (r : R), router_valid r -> router_ok (as_router r) /\ router_total (as_router r)).
Proof.
  intros Hrep Hv. split_and!; [by apply ring_gives| |intros; by apply as_router_ok].
  exact (rendezvous_gives xxh64 nth_element address Hnth {| rv_host_ids_ := host_ids; rv_towers_per_log_ := per_log |} logid Hv).
Qed.

(** Weights choose the lowest and change little.  The towers that a log gets
    are those with the lowest weights; when a tower goes and the router is built
    again without it, a log that did not use it keeps its towers, and one that
    used it keeps the others, unless two towers have the same hash for it. *)
Theorem rendezvous_consistent xxh64 nth_element nth_element' address address' (Hinj : Inj (=) (=) address) (Hinj' : Inj (=) (=) address')
  (Hnth : is_nth_element address nth_element) (Hnth' : is_nth_element address' nth_element') host_ids per_log log_id count id :
  hashes_differ xxh64 host_ids log_id ->
  let out := chosen xxh64 nth_element {| rv_host_ids_ := host_ids; rv_towers_per_log_ := per_log |} log_id count in
  let out' := chosen xxh64 nth_element' {| rv_host_ids_ := delete id host_ids; rv_towers_per_log_ := per_log |} log_id count in
  (if decide (id ∈ out) then forall x, x ∈ out -> x <> id -> x ∈ out' else out' ≡ₚ out) /\
  (forall x y, x ∈ out -> is_Some (host_ids !! y) -> (y ∉ out) -> xxh64 log_id x < xxh64 log_id y).
Proof.
  intros Hd out out'. assert (out ≡ₚ take count (ranking xxh64 address host_ids log_id)) as Ho by exact (chosen_ranking xxh64 nth_element address Hnth _ log_id count).
  assert (out' ≡ₚ take count (filter (fun x => x <> id) (ranking xxh64 address host_ids log_id))) as Ho'.
  { rewrite <-ranking_delete by done. rewrite (ranking_address xxh64 address address'); [exact (chosen_ranking xxh64 nth_element' address' Hnth' _ log_id count)|].
    intros x y Hx Hy. apply Hd; [revert Hx|revert Hy]; intros [? [_ ?]%lookup_delete_Some]; by eexists. }
  split.
  - pose proof (ConsistentHash.take_without id (ranking xxh64 address host_ids log_id) count (ranking_NoDup xxh64 address host_ids log_id)) as Hw.
    destruct (decide (id ∈ out)) as [Hin|Hin]; rewrite Ho in Hin; destruct Hw as [[H1 H2]|[H1 H2]]; [done| | |done].
    + intros x Hx Hne. rewrite Ho'. rewrite Ho in Hx. apply (subseteq_take (count - 1)). rewrite take_take, Nat.min_l by lia. rewrite <-H2. by apply list_elem_of_filter.
    + rewrite Ho', Ho. by rewrite H2.
  - intros x y Hx Hy Hny. pose proof (lowest_first xxh64 nth_element address Hnth _ log_id count x y Hx Hy Hny) as Hle. destruct (Z.eq_dec (xxh64 log_id x) (xxh64 log_id y)) as [He|]; [|lia].
    assert (is_Some (host_ids !! x)) as Hxs; [|by rewrite (Hd x y Hxs Hy He) in Hx].
    rewrite Ho in Hx. apply subseteq_take in Hx. rewrite ranking_perm in Hx. apply list_elem_of_fmap in Hx as ([i host] & -> & Hin%elem_of_map_to_list). by eexists.
Qed.

(** ** Examples *)

Definition three_hosts : gmap Z HostId := <[1 := 100]> (<[2 := 200]> (<[3 := 300]> ∅)).

Lemma three_hosts_valid : towers_valid three_hosts 2.
Proof.
  split_and!; [|done|done|by vm_compute]. intros id id' host H1 H2. unfold three_hosts in *.
  repeat (apply lookup_insert_Some in H1 as [[? ?]|[_ H1]]; [|]); try by rewrite lookup_empty in H1.
  all: repeat (apply lookup_insert_Some in H2 as [[? ?]|[_ H2]]; [|]); try (by rewrite lookup_empty in H2); lia.
Qed.

(** Sorting is a way to implement [std::nth_element]. *)
Definition sort_weights (n : nat) (l : list (Z * Z)) : list (Z * Z) := merge_sort (weight_le (fun id => id)) l.

Lemma sort_weights_ok : is_nth_element (fun id => id) sort_weights.
Proof.
  intros n l. unfold sort_weights. split; [apply merge_sort_Permutation|]. intros p q Hp Hq. pose proof (sort_sorted (fun id => id) l) as Hs.
  rewrite <-(take_drop n (merge_sort _ l)) in Hs. by apply StronglySorted_app in Hs as (Hle & _ & _); apply Hle.
Qed.

Lemma routers_give_towers_witness :
  gives_towers three_hosts 2 (ConsistentHash_GetControlTowers (NewConsistentHashTowerRouter three_hosts 20 2) 7) /\
  gives_towers three_hosts 2 (Rendezvous_GetControlTowers (fun log id => MurmurHash2_u64 (log + id)) sort_weights {| rv_host_ids_ := three_hosts; rv_towers_per_log_ := 2 |} 7).
Proof.
  destruct (routers_give_towers (fun log id => MurmurHash2_u64 (log + id)) sort_weights (fun id => id) _ sort_weights_ok three_hosts 20 2 7 ltac:(done) three_hosts_valid) as (H1 & H2 & _).
  split; [exact H1|exact H2].
Defined.

Lemma rendezvous_consistent_witness :
  2 ∈ chosen (fun log id => log - id) sort_weights {| rv_host_ids_ := three_hosts; rv_towers_per_log_ := 2 |} 7 2 /\
  2 ∈ chosen (fun log id => log - id) sort_weights {| rv_host_ids_ := delete 3 three_hosts; rv_towers_per_log_ := 2 |} 7 2.
Proof.
  assert (hashes_differ (fun log id => log - id) three_hosts 7) as Hd by (intros x y _ _ He; lia).
  pose proof (proj1 (rendezvous_consistent (fun log id => log - id) sort_weights sort_weights (fun id => id) (fun id => id) _ _ sort_weights_ok sort_weights_ok three_hosts 2 7 2 3 Hd)) as H1.
  assert (2 ∈ chosen (fun log id => log - id) sort_weights {| rv_host_ids_ := three_hosts; rv_towers_per_log_ := 2 |} 7 2) as H2 by (vm_compute; right; by left).
  split; [exact H2|]. apply H1; [exact H2|lia].
Defined.

(** Without replicas the ring is empty although it counts the towers: the router
    dereferences its end. *)
Lemma no_replicas_aborts : ConsistentHash_GetControlTowers (NewConsistentHashTowerRouter three_hosts 0 2) 7 = Abort "end() dereferenced".
Proof. by vm_compute. Qed.

(** Two towers of one host are named as two, which the copilot worker does not
    allow ([router_ok]): it fails its assertion that the socket is new. *)
Lemma same_host_named_twice : exists out,
  Rendezvous_GetControlTowers (fun log id => log + id) sort_weights {| rv_host_ids_ := <[1 := 100]> (<[2 := 100]> ∅); rv_towers_per_log_ := 2 |} 7 = Ok (Some out) /\ ~ NoDup out.
Proof. eexists. split; [by vm_compute|]. intros [Hn _]%NoDup_cons. apply Hn. by left. Qed.
