(* ===== verification/ProxyWorker.v ===== *)
(** * The workers of the proxy

    Model of [src/proxy2]: [updates_accumulator.cc], [multiplexer.cc],
    [upstream_worker.cc] and [downstream_worker.cc].  A downstream worker passes
    the messages of a client's stream to the upstream worker of its shard.  There
    subscriptions on hot topics share one subscription at the server per topic,
    which the multiplexer of the shard keeps; the other messages go to the server
    on a stream of their own. *)

From S2P Require Import Prelude Coding SubscriptionId IdAllocator Messages SubscriptionsMap.

#[local] Open Scope outcome_scope.

(** ** Accumulators of updates *)

Record Update := { contents : slice; prev_seqno : Z; current_seqno : Z }.

Inductive AccumulatorAction := kNoOp | kResubscribeUpstream.

(** The interface of [include/ProxyServer.h].  The callback of
    [BootstrapSubscription] accepts every update, so that the calls it gets are
    a list; bootstrapping leaves the accumulator as it is. *)
Class UpdatesAccumulator (A : Type) := {
  ConsumeUpdate : A -> slice -> Z -> Z -> outcome (A * AccumulatorAction);
  BootstrapSubscription : A -> Z -> list Update * Z
}.

Record DefaultAccumulator := { count_limit_ : Z; updates_ : list Update }.

Definition CreateDefault (count_limit : Z) : DefaultAccumulator := {| count_limit_ := count_limit; updates_ := [] |}.

Definition Default_ConsumeUpdate (a : DefaultAccumulator) (contents : slice) (prev_seqno current_seqno : Z) : outcome (DefaultAccumulator * AccumulatorAction) :=
  let updates := if prev_seqno =? 0 then [] else updates_ a in
  assert_that (Z.of_nat (length updates) <? count_limit_ a) "updates_.size() < count_limit_" ;;;
  let updates := updates ++ [{| contents := contents; prev_seqno := prev_seqno; current_seqno := current_seqno |}] in
  Ok ({| count_limit_ := count_limit_ a; updates_ := updates |},
      if count_limit_ a <=? Z.of_nat (length updates) then kResubscribeUpstream else kNoOp).

Definition Default_BootstrapSubscription (a : DefaultAccumulator) (initial_seqno : Z) : list Update * Z :=
  (updates_ a, match last (updates_ a) with None => 0 | Some u => u64 (current_seqno u + 1) end).

#[export] Instance Default_updates : UpdatesAccumulator DefaultAccumulator :=
  {| ConsumeUpdate := Default_ConsumeUpdate; BootstrapSubscription := Default_BootstrapSubscription |}.

(** ** State *)

Section State.
Context (A : Type).

(** A downstream subscription is the stream of its [PerStream], which owns that
    object, and its ID. *)
Record UpstreamSubscription := {
  us_sub_id_ : Z;
  accumulator_ : A;
  us_expected_seqno_ : Z;
  downstream_subscriptions_ : gset (Z * Z)
}.

(** The objects [UpstreamSubscription] are on a heap; their addresses are the
    user data of the subscriptions map and the values of the index. *)
Record Multiplexer := {
  upstream_allocator_ : IDAllocator;
  subscriptions_map_ : SubscriptionsMap;
  topic_index_ : gmap (slice * slice) Z;
  objects : gmap Z UpstreamSubscription;
  next_address : Z
}.

(** A host is a number, [None] if it is not known. *)
Record PerShard := {
  router_version_ : Z;
  host_ : option Z;
  streams_on_shard_ : gset Z;
  multiplexer_ : Multiplexer
}.

(** [upstream_] says whether there is a stream to the server. *)
Record PerStream := {
  per_shard_ : Z;
  upstream_ : bool;
  downstream_to_upstream_ : gmap Z Z
}.

(** What leaves the worker: messages to the downstream worker with a number, or to
    the server on the stream that belongs to a stream of a client; streams opened
    and closed; hosts that the supervisor of a multiplexer is told to connect to. *)
Inductive ProxyEvent :=
| ToDownstream (worker stream : Z) (m : Message)
| ToServer (stream : Z) (m : Message)
| Opened (stream host : Z)
| Closed (stream : Z)
| ConnectsTo (shard : Z) (host : option Z).

Record UpstreamWorker := {
  streams_ : gmap Z PerStream;
  shard_cache_ : gmap Z PerShard;
  out : list ProxyEvent
}.

(** The options, and the mapping from streams to downstream workers. *)
Record ProxyOptions := {
  GetShard : slice -> slice -> Z;
  accumulator : slice -> slice -> A;
  stream_to_id_ : DivisionMapping;
  num_downstream_threads : Z;
  num_upstream_threads : Z
}.
End State.

#[global] Arguments us_sub_id_ {A}.
#[global] Arguments accumulator_ {A}.
#[global] Arguments us_expected_seqno_ {A}.
#[global] Arguments downstream_subscriptions_ {A}.
#[global] Arguments upstream_allocator_ {A}.
#[global] Arguments subscriptions_map_ {A}.
#[global] Arguments topic_index_ {A}.
#[global] Arguments objects {A}.
#[global] Arguments next_address {A}.
#[global] Arguments router_version_ {A}.
#[global] Arguments host_ {A}.
#[global] Arguments streams_on_shard_ {A}.
#[global] Arguments multiplexer_ {A}.
#[global] Arguments streams_ {A}.
#[global] Arguments shard_cache_ {A}.
#[global] Arguments out {A}.
#[global] Arguments GetShard {A}.
#[global] Arguments accumulator {A}.
#[global] Arguments stream_to_id_ {A}.
#[global] Arguments num_downstream_threads {A}.
#[global] Arguments num_upstream_threads {A}.

(** What the environment answers while a message is handled: whether the topic is
    hot, the version and the host of the router for the shard, and whether the
    event loop opens a stream. *)
Record Answers := { IsHotTopic : bool; GetVersion : Z; GetHost : option Z; OpensStream : bool }.

Definition set_sub_id (sub_id : Z) (m : Message) : Message :=
  let set d := {| deliver_base := deliver_base d; deliver_sub_id_ := sub_id; deliver_seqno_prev_ := deliver_seqno_prev_ d; deliver_seqno_ := deliver_seqno_ d |} in
  match m with
  | DeliverData m => DeliverData {| ddata_deliver := set (ddata_deliver m); message_id_ := message_id_ m; ddata_payload_ := ddata_payload_ m |}
  | DeliverGap m => DeliverGap {| dgap_deliver := set (dgap_deliver m); dgap_gap_type_ := dgap_gap_type_ m |}
  | Messages.Unsubscribe m => Messages.Unsubscribe {| unsub_base := unsub_base m; unsub_sub_id_ := sub_id; reason_ := reason_ m |}
  | m => m
  end.

(** [Message::Copy]; the null pointer of a message that cannot be parsed is used. *)
Definition copied (m : Message) : outcome Message :=
  r <~ Copy m ;;
  match r with
  | inr (Some m) => Ok m
  | _ => Abort "nullptr"
  end.

Section Worker.
Context {A : Type} `{UpdatesAccumulator A} (options : ProxyOptions A).
Abbreviation worker := (UpstreamWorker A).
Implicit Types w : UpstreamWorker A.

Definition set_streams (streams : gmap Z PerStream) w : worker :=
  {| streams_ := streams; shard_cache_ := shard_cache_ w; out := out w |}.

Definition set_shards (shards : gmap Z (PerShard A)) w : worker :=
  {| streams_ := streams_ w; shard_cache_ := shards; out := out w |}.

Definition emit (e : ProxyEvent) w : worker :=
  {| streams_ := streams_ w; shard_cache_ := shard_cache_ w; out := out w ++ [e] |}.

Definition the_shard w (shard : Z) : outcome (PerShard A) :=
  match shard_cache_ w !! shard with Some s => Ok s | None => Abort "use after free" end.

Definition the_stream w (stream : Z) : outcome PerStream :=
  match streams_ w !! stream with Some s => Ok s | None => Abort "use after free" end.

Definition put_multiplexer w (shard : Z) (x : Multiplexer A) : outcome worker :=
  s <~ the_shard w shard ;;
  Ok (set_shards (<[shard := {| router_version_ := router_version_ s; host_ := host_ s; streams_on_shard_ := streams_on_shard_ s; multiplexer_ := x |}]> (shard_cache_ w)) w).

Definition the_object (x : Multiplexer A) (address : Z) : outcome (UpstreamSubscription A) :=
  match objects x !! address with Some u => Ok u | None => Abort "use after free" end.

Definition set_objects (o : gmap Z (UpstreamSubscription A)) (x : Multiplexer A) : Multiplexer A :=
  {| upstream_allocator_ := upstream_allocator_ x; subscriptions_map_ := subscriptions_map_ x; topic_index_ := topic_index_ x; objects := o;
     next_address := next_address x |}.

Definition set_map (m : SubscriptionsMap) (x : Multiplexer A) : Multiplexer A :=
  {| upstream_allocator_ := upstream_allocator_ x; subscriptions_map_ := m; topic_index_ := topic_index_ x; objects := objects x;
     next_address := next_address x |}.

Definition set_index (i : gmap (slice * slice) Z) (x : Multiplexer A) : Multiplexer A :=
  {| upstream_allocator_ := upstream_allocator_ x; subscriptions_map_ := subscriptions_map_ x; topic_index_ := i; objects := objects x;
     next_address := next_address x |}.

Definition set_allocator (al : IDAllocator) (x : Multiplexer A) : Multiplexer A :=
  {| upstream_allocator_ := al; subscriptions_map_ := subscriptions_map_ x; topic_index_ := topic_index_ x; objects := objects x;
     next_address := next_address x |}.

Definition set_downstream (d : gset (Z * Z)) (u : UpstreamSubscription A) : UpstreamSubscription A :=
  {| us_sub_id_ := us_sub_id_ u; accumulator_ := accumulator_ u; us_expected_seqno_ := us_expected_seqno_ u; downstream_subscriptions_ := d |}.

Definition set_us_expected (seqno : Z) (u : UpstreamSubscription A) : UpstreamSubscription A :=
  {| us_sub_id_ := us_sub_id_ u; accumulator_ := accumulator_ u; us_expected_seqno_ := seqno; downstream_subscriptions_ := downstream_subscriptions_ u |}.

Definition set_subscriptions (subs : gmap Z Z) (s : PerStream) : PerStream :=
  {| per_shard_ := per_shard_ s; upstream_ := upstream_ s; downstream_to_upstream_ := subs |}.

Definition set_upstream_ (open : bool) (s : PerStream) : PerStream :=
  {| per_shard_ := per_shard_ s; upstream_ := open; downstream_to_upstream_ := downstream_to_upstream_ s |}.

(** ** The worker, downwards *)

(** Erasing a stream destroys its [PerStream], which leaves its shard; a shard
    without streams is taken from the cache, and destroyed in a task of its own. *)
Definition CleanupState w (stream : Z) : outcome worker :=
  ps <~ the_stream w stream ;;
  let shard := per_shard_ ps in
  s <~ the_shard w shard ;;
  assert_that (bool_decide (stream ∈ streams_on_shard_ s)) "result > 0" ;;;
  let w := set_streams (delete stream (streams_ w)) w in
  let s := {| router_version_ := router_version_ s; host_ := host_ s; streams_on_shard_ := streams_on_shard_ s ∖ {[ stream ]}; multiplexer_ := multiplexer_ s |} in
  if decide (streams_on_shard_ s = ∅) then Ok (set_shards (delete shard (shard_cache_ w)) w)
  else Ok (set_shards (<[shard := s]> (shard_cache_ w)) w).

Definition UpstreamWorker_ReceiveFromStream w (stream : Z) (m : Message) : outcome worker :=
  id <~ map_id (stream_to_id_ options) stream ;;
  assert_that (id <? num_downstream_threads options) "outbound_id < outbound_queues_.size()" ;;;
  let w := emit (ToDownstream id stream m) w in
  match m with
  | Goodbye _ => CleanupState w stream
  | _ => Ok w
  end.

Definition ReceiveFromMultiplexer w (stream : Z) (m : Message) : outcome worker :=
  ps <~ the_stream w stream ;;
  assert_that (match m with DeliverGap _ | DeliverData _ | DeliverBatch _ | Messages.Unsubscribe _ => true | _ => false end) "type == mDeliverGap || ..." ;;;
  w <~ match m with
       | Messages.Unsubscribe u =>
           assert_that (bool_decide (is_Some (downstream_to_upstream_ ps !! unsub_sub_id_ u))) "result == 1" ;;;
           Ok (set_streams (<[stream := set_subscriptions (delete (unsub_sub_id_ u) (downstream_to_upstream_ ps)) ps]> (streams_ w)) w)
       | _ => Ok w
       end ;;
  UpstreamWorker_ReceiveFromStream w stream m.

(** ** Upstream subscriptions *)

Definition MsgId0 : list byte := repeat Byte.x00 16.

Fixpoint bootstrap_loop w (stream sub tenant : Z) (ups : list Update) : outcome worker :=
  match ups with
  | [] => Ok w
  | u :: ups =>
      m <~ NewDeliverData tenant sub MsgId0 (contents u) (prev_seqno u) (current_seqno u) ;;
      m <~ copied m ;;
      w <~ ReceiveFromMultiplexer w stream m ;;
      bootstrap_loop w stream sub tenant ups
  end.

Definition AddDownstream w (shard address stream sub initial_seqno tenant expected_seqno_check : Z) : outcome worker :=
  s <~ the_shard w shard ;;
  u <~ the_object (multiplexer_ s) address ;;
  let '(ups, bootstrapped_to) := BootstrapSubscription (accumulator_ u) initial_seqno in
  w <~ bootstrap_loop w stream sub tenant ups ;;
  assert_that ((bootstrapped_to =? 0) || (expected_seqno_check =? 0) || (bootstrapped_to =? expected_seqno_check))
    "bootstrapped_to == 0 || expected_seqno_check == 0 || bootstrapped_to == expected_seqno_check" ;;;
  assert_that (bool_decide ((stream, sub) ∉ downstream_subscriptions_ u)) "result.second" ;;;
  s <~ the_shard w shard ;;
  let x := multiplexer_ s in
  put_multiplexer w shard (set_objects (<[address := set_downstream ({[ (stream, sub) ]} ∪ downstream_subscriptions_ u) u]> (objects x)) x).

Definition RemoveDownstream (u : UpstreamSubscription A) (stream sub : Z) : outcome (UpstreamSubscription A * nat) :=
  assert_that (bool_decide ((stream, sub) ∈ downstream_subscriptions_ u)) "result == 1" ;;;
  let rest := downstream_subscriptions_ u ∖ {[ (stream, sub) ]} in
  Ok (set_downstream rest u, size rest).

(** Passes a copy of the message to each downstream subscription, under its ID. *)
Fixpoint broadcast w (entries : list (Z * Z)) (m : Message) : outcome worker :=
  match entries with
  | [] => Ok w
  | (stream, sub) :: entries =>
      c <~ copied (set_sub_id sub m) ;;
      w <~ ReceiveFromMultiplexer w stream c ;;
      broadcast w entries m
  end.

Definition deliver_of (m : Message) : option MessageDeliver :=
  match m with
  | DeliverData m => Some (ddata_deliver m)
  | DeliverGap m => Some (dgap_deliver m)
  | _ => None
  end.

Definition UpstreamSubscription_ReceiveDeliver w (shard address : Z) (m : Message) (received_seqno : Z) : outcome worker :=
  s <~ the_shard w shard ;;
  u <~ the_object (multiplexer_ s) address ;;
  if negb (us_expected_seqno_ u =? 0) && (received_seqno <? us_expected_seqno_ u) then Ok w
  else
    let x := multiplexer_ s in
    w <~ put_multiplexer w shard (set_objects (<[address := set_us_expected (u64 (received_seqno + 1)) u]> (objects x)) x) ;;
    broadcast w (elements (downstream_subscriptions_ u)) m.

(** ** The multiplexer *)

Definition kMaxShardID : Z := 2 ^ 32 - 1.

(** A new ID of the shard. *)
Definition NextUpstreamID (shard : Z) (x : Multiplexer A) : outcome (Z * Multiplexer A) :=
  assert_that (shard <=? kMaxShardID) "per_shard_->GetShardID() <= std::numeric_limits<ShardID>::max()" ;;;
  r <~ IdAllocator.Next (upstream_allocator_ x) ;;
  id <~ ForShard shard (fst r) ;;
  assert_that (negb (id =? 0)) "upstream_id" ;;;
  Ok (id, set_allocator (snd r) x).

Definition NewMultiplexer : outcome (Multiplexer A) :=
  r <~ IdAllocator.Next NewIDAllocator ;;
  assert_that (fst r =? 0) "null_id == 0" ;;;
  Ok {| upstream_allocator_ := snd r; subscriptions_map_ := NewSubscriptionsMap; topic_index_ := ∅; objects := ∅; next_address := 1 |}.

Definition InsertIntoIndex (key : slice * slice) (address : Z) (x : Multiplexer A) : outcome (Multiplexer A) :=
  assert_that (bool_decide (topic_index_ x !! key = None)) "result.second" ;;; Ok (set_index (<[key := address]> (topic_index_ x)) x).

Definition RemoveFromIndex (key : slice * slice) (x : Multiplexer A) : outcome (Multiplexer A) :=
  assert_that (bool_decide (is_Some (topic_index_ x !! key))) "it != topic_index_.end()" ;;; Ok (set_index (delete key (topic_index_ x)) x).

(** The subscription on the topic, created if there is none. *)
Definition FindOrCreate (shard tenant : Z) (ns topic : slice) (x : Multiplexer A) : outcome (Z * Multiplexer A) :=
  match topic_index_ x !! (ns, topic) with
  | Some address => Ok (address, x)
  | None =>
      r <~ NextUpstreamID shard x ;;
      let '(upstream_id, x) := r in
      let address := next_address x in
      let u := {| us_sub_id_ := upstream_id; accumulator_ := accumulator options ns topic; us_expected_seqno_ := 0; downstream_subscriptions_ := ∅ |} in
      m <~ Subscribe (subscriptions_map_ x) upstream_id tenant ns topic 0 address ;;
      x <~ InsertIntoIndex (ns, topic) address
             {| upstream_allocator_ := upstream_allocator_ x; subscriptions_map_ := m; topic_index_ := topic_index_ x;
                objects := <[address := u]> (objects x); next_address := address + 1 |} ;;
      Ok (address, x)
  end.

Definition Multiplexer_Subscribe w (shard tenant : Z) (ns topic : slice) (initial_seqno stream sub : Z) : outcome (worker * Z) :=
  s <~ the_shard w shard ;;
  r <~ FindOrCreate shard tenant ns topic (multiplexer_ s) ;;
  let '(address, x) := r in
  w <~ put_multiplexer w shard x ;;
  u <~ the_object x address ;;
  w <~ AddDownstream w shard address stream sub initial_seqno tenant (us_expected_seqno_ u) ;;
  Ok (w, address).

(** [UserDataCleanup], for what the subscriptions map cleaned up since [before]. *)
Definition cleanup (before : SubscriptionsMap) (after : SubscriptionsMap) (o : gmap Z (UpstreamSubscription A)) : gmap Z (UpstreamSubscription A) :=
  fold_left (fun o e => match e with Cleaned user_data => delete user_data o | _ => o end) (drop (length (events before)) (events after)) o.

(** Removes a downstream subscription, and with the last one the subscription at
    the server. *)
Definition drop_downstream (x : Multiplexer A) (address stream sub : Z) : outcome (Multiplexer A) :=
  u <~ the_object x address ;;
  let sub_id := us_sub_id_ u in
  r <~ RemoveDownstream u stream sub ;;
  let '(u, remaining_downstream) := r in
  let x := set_objects (<[address := u]> (objects x)) x in
  if (remaining_downstream =? 0)%nat then
    match Find (subscriptions_map_ x) sub_id with
    | None => Abort "success"
    | Some info =>
        x <~ RemoveFromIndex (namespace_id info, topic_name_ info) x ;;
        m <~ Unsubscribe (subscriptions_map_ x) sub_id ;;
        Ok (set_objects (cleanup (subscriptions_map_ x) m (objects x)) (set_map m x))
    end
  else Ok x.

Definition Multiplexer_Unsubscribe w (shard address stream sub : Z) : outcome worker :=
  s <~ the_shard w shard ;;
  x <~ drop_downstream (multiplexer_ s) address stream sub ;;
  put_multiplexer w shard x.

(** Gives data to the accumulator, which may ask to subscribe again from 0. *)
Definition accumulate (shard : Z) (x : Multiplexer A) (upstream_sub address : Z) (m : Message) (previous current : Z) : outcome (Multiplexer A) :=
  u <~ the_object x address ;;
  match m with
  | DeliverData data =>
      r <~ ConsumeUpdate (accumulator_ u) (ddata_payload_ data) previous current ;;
      let '(a, action) := r in
      match action with
      | kResubscribeUpstream =>
          r <~ NextUpstreamID shard x ;;
          let '(new_upstream_id, x) := r in
          map <~ Rewind (subscriptions_map_ x) upstream_sub new_upstream_id 0 ;;
          let u := {| us_sub_id_ := new_upstream_id; accumulator_ := a; us_expected_seqno_ := us_expected_seqno_ u; downstream_subscriptions_ := downstream_subscriptions_ u |} in
          Ok (set_objects (<[address := u]> (objects x)) (set_map map x))
      | kNoOp =>
          let u := {| us_sub_id_ := us_sub_id_ u; accumulator_ := a; us_expected_seqno_ := us_expected_seqno_ u; downstream_subscriptions_ := downstream_subscriptions_ u |} in
          Ok (set_objects (<[address := u]> (objects x)) x)
      end
  | _ => Ok x
  end.

(** [deliver_cb_] of the subscriptions map. *)
Definition Multiplexer_ReceiveDeliver w (shard upstream_sub : Z) (m : Message) (previous current : Z) : outcome worker :=
  assert_that (bool_decide (is_Some (deliver_of m))) "type == mDeliverGap || type == mDeliverData" ;;;
  s <~ the_shard w shard ;;
  match Find (subscriptions_map_ (multiplexer_ s)) upstream_sub with
  | None => Abort "success"
  | Some info =>
      x <~ accumulate shard (multiplexer_ s) upstream_sub (user_data_ info) m previous current ;;
      w <~ put_multiplexer w shard x ;;
      UpstreamSubscription_ReceiveDeliver w shard (user_data_ info) m current
  end.

(** [terminate_cb_] of the subscriptions map, before it erases the subscription. *)
Definition Multiplexer_ReceiveTerminate w (shard upstream_sub : Z) (m : Message) : outcome worker :=
  s <~ the_shard w shard ;;
  match Find (subscriptions_map_ (multiplexer_ s)) upstream_sub with
  | None => Abort "success"
  | Some info =>
      x <~ RemoveFromIndex (namespace_id info, topic_name_ info) (multiplexer_ s) ;;
      w <~ put_multiplexer w shard x ;;
      u <~ the_object x (user_data_ info) ;;
      broadcast w (elements (downstream_subscriptions_ u)) m
  end.

(** ** Streams of clients *)

Fixpoint unsubscribe_all w (shard stream : Z) (subs : list (Z * Z)) : outcome worker :=
  match subs with
  | [] => Ok w
  | (sub, address) :: subs => w <~ Multiplexer_Unsubscribe w shard address stream sub ;; unsubscribe_all w shard stream subs
  end.

Definition PerStream_CleanupState w (stream : Z) : outcome worker :=
  ps <~ the_stream w stream ;;
  let w := if upstream_ ps then emit (Closed stream) w else w in
  let w := set_streams (<[stream := {| per_shard_ := per_shard_ ps; upstream_ := false; downstream_to_upstream_ := ∅ |}]> (streams_ w)) w in
  unsubscribe_all w (per_shard_ ps) stream (map_to_list (downstream_to_upstream_ ps)).

(** A message on the stream to the server, or the goodbye of the worker. *)
Definition PerStream_ReceiveFromStream w (stream : Z) (m : Message) : outcome worker :=
  w <~ match m with
       | Goodbye _ => PerStream_CleanupState w stream
       | _ => Ok w
       end ;;
  UpstreamWorker_ReceiveFromStream w stream m.

Definition server_goodbye : Message :=
  Goodbye {| goodbye_base := {| type_ := MessageType.mGoodbye; tenantid_ := GuestTenant |}; code_ := SocketError; origin_type_ := OriginServer |}.

Definition ForceCloseStream w (stream : Z) : outcome worker := PerStream_ReceiveFromStream w stream server_goodbye.

(** Opens the stream to the server if there is none.  The result says whether
    there is one; if not, the stream of the client was closed. *)
Definition open_upstream w (stream : Z) (answers : Answers) : outcome (worker * bool) :=
  ps <~ the_stream w stream ;;
  if upstream_ ps then Ok (w, true)
  else
    s <~ the_shard w (per_shard_ ps) ;;
    match host_ s with
    | None => w <~ ForceCloseStream w stream ;; Ok (w, false)
    | Some host =>
        if OpensStream answers then
          Ok (emit (Opened stream host) (set_streams (<[stream := set_upstream_ true ps]> (streams_ w)) w), true)
        else w <~ ForceCloseStream w stream ;; Ok (w, false)
    end.

(** Stream-level proxying. *)
Definition forward_upstream w (stream : Z) (m : Message) (answers : Answers) : outcome worker :=
  r <~ open_upstream w stream answers ;;
  let '(w, is_open) := r in
  if is_open : bool then
    let w := emit (ToServer stream m) w in
    match m with
    | Goodbye _ => PerStream_CleanupState w stream
    | _ => Ok w
    end
  else Ok w.

Definition ReceiveFromWorker w (stream : Z) (m : Message) (answers : Answers) : outcome worker :=
  ps <~ the_stream w stream ;;
  match m with
  | Messages.Subscribe subscribe =>
      if IsHotTopic answers then
        r <~ Multiplexer_Subscribe w (per_shard_ ps) (tenantid_ (sub_base subscribe)) (sub_namespace_id_ subscribe) (sub_topic_name_ subscribe)
               (start_seqno_ subscribe) stream (sub_sub_id_ subscribe) ;;
        let '(w, address) := r in
        ps <~ the_stream w stream ;;
        assert_that (bool_decide (downstream_to_upstream_ ps !! sub_sub_id_ subscribe = None)) "result.second" ;;;
        Ok (set_streams (<[stream := set_subscriptions (<[sub_sub_id_ subscribe := address]> (downstream_to_upstream_ ps)) ps]> (streams_ w)) w)
      else forward_upstream w stream m answers
  | Messages.Unsubscribe unsubscribe =>
      match downstream_to_upstream_ ps !! unsub_sub_id_ unsubscribe with
      | Some address =>
          w <~ Multiplexer_Unsubscribe w (per_shard_ ps) address stream (unsub_sub_id_ unsubscribe) ;;
          ps <~ the_stream w stream ;;
          Ok (set_streams (<[stream := set_subscriptions (delete (unsub_sub_id_ unsubscribe) (downstream_to_upstream_ ps)) ps]> (streams_ w)) w)
      | None => forward_upstream w stream m answers
      end
  | _ => forward_upstream w stream m answers
  end.

(** ** The worker, upwards *)

(** The constructors of [PerShard] and of its multiplexer. *)
Definition NewPerShard w (shard : Z) (answers : Answers) : outcome worker :=
  x <~ NewMultiplexer ;;
  Ok (emit (ConnectsTo shard (GetHost answers))
        (set_shards (<[shard := {| router_version_ := GetVersion answers; host_ := GetHost answers; streams_on_shard_ := ∅; multiplexer_ := x |}]> (shard_cache_ w)) w)).

(** The constructor of [PerStream], which joins its shard. *)
Definition NewPerStream w (stream shard : Z) : outcome worker :=
  s <~ the_shard w shard ;;
  assert_that (bool_decide (stream ∉ streams_on_shard_ s)) "result.second" ;;;
  let s := {| router_version_ := router_version_ s; host_ := host_ s; streams_on_shard_ := {[ stream ]} ∪ streams_on_shard_ s; multiplexer_ := multiplexer_ s |} in
  Ok (set_streams (<[stream := {| per_shard_ := shard; upstream_ := false; downstream_to_upstream_ := ∅ |}]> (streams_ w))
        (set_shards (<[shard := s]> (shard_cache_ w)) w)).

(** The stream of a message; none if it is unknown and the message does not say
    which shard it belongs to. *)
Definition find_stream w (stream : Z) (m : Message) (answers : Answers) : outcome (option worker) :=
  match streams_ w !! stream with
  | Some _ => Ok (Some w)
  | None =>
      match m with
      | Messages.Subscribe subscribe =>
          let shard := GetShard options (sub_namespace_id_ subscribe) (sub_topic_name_ subscribe) in
          w <~ match shard_cache_ w !! shard with
               | Some _ => Ok w
               | None => NewPerShard w shard answers
               end ;;
          w <~ NewPerStream w stream shard ;;
          Ok (Some w)
      | _ => Ok None
      end
  end.

Definition ReceiveFromQueue w (stream : Z) (m : Message) (answers : Answers) : outcome worker :=
  r <~ find_stream w stream m answers ;;
  match r with
  | None => Ok w
  | Some w =>
      w <~ ReceiveFromWorker w stream m answers ;;
      match m with
      | Goodbye _ => CleanupState w stream
      | _ => Ok w
      end
  end.

(** The streams of the shard at the start; one that is gone is skipped.  A shard
    that lost its last stream has none. *)
Fixpoint change_routes w (shard : Z) (streams : list Z) : outcome worker :=
  match streams with
  | [] => Ok w
  | stream :: streams =>
      w <~ (if bool_decide (stream ∈ default ∅ (streams_on_shard_ <$> shard_cache_ w !! shard)) then ForceCloseStream w stream else Ok w) ;;
      change_routes w shard streams
  end.

Definition CheckRoutes w (shard : Z) (answers : Answers) : outcome worker :=
  s <~ the_shard w shard ;;
  if GetVersion answers =? router_version_ s then Ok w
  else if bool_decide (host_ s = GetHost answers) then
    Ok (set_shards (<[shard := {| router_version_ := GetVersion answers; host_ := host_ s; streams_on_shard_ := streams_on_shard_ s; multiplexer_ := multiplexer_ s |}]> (shard_cache_ w)) w)
  else
    let w := set_shards (<[shard := {| router_version_ := GetVersion answers; host_ := GetHost answers; streams_on_shard_ := streams_on_shard_ s; multiplexer_ := multiplexer_ s |}]> (shard_cache_ w)) w in
    w <~ change_routes w shard (elements (streams_on_shard_ s)) ;;
    Ok (emit (ConnectsTo shard (GetHost answers)) w).

(** ** The stream of a multiplexer *)

(** A message from the server, which the subscriptions map receives first. *)
Definition ShardReceive w (shard : Z) (m : Message) : outcome worker :=
  s <~ the_shard w shard ;;
  let x := multiplexer_ s in
  match m with
  | Messages.Unsubscribe u =>
      r <~ ReceiveUnsubscribe (fun w _ => Multiplexer_ReceiveTerminate w shard (unsub_sub_id_ u) m) w (subscriptions_map_ x) (unsub_sub_id_ u) (reason_ u) ;;
      let '(map, w) := r in
      s <~ the_shard w shard ;;
      put_multiplexer w shard (set_map map (multiplexer_ s))
  | DeliverData _ | DeliverGap _ =>
      match deliver_of m with
      | None => Ok w
      | Some d =>
          r <~ ReceiveDeliver (subscriptions_map_ x) (deliver_sub_id_ d) (deliver_seqno_prev_ d) (deliver_seqno_ d) ;;
          let '(map, called) := r in
          w <~ put_multiplexer w shard (set_map map x) ;;
          if called : bool then Multiplexer_ReceiveDeliver w shard (deliver_sub_id_ d) m (deliver_seqno_prev_ d) (deliver_seqno_ d)
          else Ok w
      end
  | Gap _ | Heartbeat _ => Abort "false"
  | Data m => if type_ (data_base m) =? MessageType.mPublish then Ok w else Abort "false"
  | _ => Ok w
  end.

(** What else happens to the subscriptions map: streams, and requests sent. *)
Definition ShardMap w (shard : Z) (f : SubscriptionsMap -> outcome SubscriptionsMap) : outcome worker :=
  s <~ the_shard w shard ;;
  map <~ f (subscriptions_map_ (multiplexer_ s)) ;;
  put_multiplexer w shard (set_map map (multiplexer_ s)).
End Worker.

Definition NewUpstreamWorker {A} : UpstreamWorker A := {| streams_ := ∅; shard_cache_ := ∅; out := [] |}.

(** ** Downstream workers *)

(** Messages to upstream workers, and to streams of clients. *)
Inductive DownstreamEvent :=
| ToUpstream (worker stream : Z) (m : Message)
| ToClient (stream : Z) (m : Message).

Record DownstreamWorker := { stream_to_upstream_worker_ : gmap Z Z; down_out : list DownstreamEvent }.

Definition NewDownstreamWorker : DownstreamWorker := {| stream_to_upstream_worker_ := ∅; down_out := [] |}.

Definition Downstream_CleanupState (w : DownstreamWorker) (stream : Z) : outcome DownstreamWorker :=
  assert_that (bool_decide (is_Some (stream_to_upstream_worker_ w !! stream))) "erased == 1" ;;;
  Ok {| stream_to_upstream_worker_ := delete stream (stream_to_upstream_worker_ w); down_out := down_out w |}.

(** [known] says whether the event loop has the stream. *)
Definition Downstream_ReceiveFromQueue (w : DownstreamWorker) (stream : Z) (m : Message) (known : bool) : outcome DownstreamWorker :=
  if known then
    let w := {| stream_to_upstream_worker_ := stream_to_upstream_worker_ w; down_out := down_out w ++ [ToClient stream m] |} in
    match m with
    | Goodbye _ => Downstream_CleanupState w stream
    | _ => Ok w
    end
  else Ok w.

Definition Downstream_forward {A} (options : ProxyOptions A) (w : DownstreamWorker) (stream : Z) (m : Message) (id : Z) : outcome DownstreamWorker :=
  assert_that (id <? num_downstream_threads options) "outbound_id < outbound_queues_.size()" ;;;
  let w := {| stream_to_upstream_worker_ := stream_to_upstream_worker_ w; down_out := down_out w ++ [ToUpstream id stream m] |} in
  match m with
  | Goodbye _ => Downstream_CleanupState w stream
  | _ => Ok w
  end.

(** A message on the stream of a client. *)
Definition Downstream_Receive {A} (options : ProxyOptions A) (w : DownstreamWorker) (stream : Z) (m : Message) : outcome DownstreamWorker :=
  match stream_to_upstream_worker_ w !! stream with
  | Some id => Downstream_forward options w stream m id
  | None =>
      match m with
      | Messages.Subscribe subscribe =>
          let shard := GetShard options (sub_namespace_id_ subscribe) (sub_topic_name_ subscribe) in
          let id := MurmurHash2_u64 shard mod num_upstream_threads options in
          Downstream_forward options
            {| stream_to_upstream_worker_ := <[stream := id]> (stream_to_upstream_worker_ w); down_out := down_out w |} stream m id
      | _ => Ok w
      end
  end.
