(* ===== verification/ProxyMux.v ===== *)
(** * The multiplexer of a shard

    What the multiplexer requires of an accumulator of updates, as a class with
    the default accumulator as its instance, the invariant of a multiplexer, and
    a lemma for each of its operations. *)

From S2P Require Import Prelude Coding CodingFacts SubscriptionId IdAllocator Messages MessagesFacts SubscriptionsMap ClientFacts ProxyWorker.

#[local] Open Scope outcome_scope.

(** ** What a client makes of updates *)

Fixpoint feed (ups : list Update) (s : SubscriptionBase) : outcome SubscriptionBase :=
  match ups with
  | [] => Ok s
  | u :: ups => r <~ ProcessUpdate (prev_seqno u) (current_seqno u) s ;; feed ups (fst r)
  end.

Lemma feed_app ups ups' s : feed (ups ++ ups') s = (s' <~ feed ups s ;; feed ups' s').
Proof. revert s. induction ups as [|u ups IH]; intros s; [done|]. cbn. destruct (ProcessUpdate _ _ s) as [[s' b]|]; [|done]. apply IH. Qed.

(** The place of a client that started at [initial], when updates were passed to it
    up to [place]; 0 is the place before the first update. *)
Definition bring (initial place : Z) : Z := if place =? 0 then initial else Z.max initial place.

(** The updates bring a client, wherever it started, from one place to another. *)
Definition brings_from (ups : list Update) (place place' : Z) : Prop :=
  forall initial s, 0 <= initial -> expected_seqno_ s = bring initial place -> exists s', feed ups s = Ok s' /\ expected_seqno_ s' = bring initial place'.

Lemma brings_from_nil place : brings_from [] place place.
Proof. intros initial s _ Hs. by exists s. Qed.

Lemma brings_from_app ups ups' p p' p'' : brings_from ups p p' -> brings_from ups' p' p'' -> brings_from (ups ++ ups') p p''.
Proof.
  intros H1 H2 initial s Hi Hs. destruct (H1 initial s Hi Hs) as (s1 & E1 & Hs1). destruct (H2 initial s1 Hi Hs1) as (s2 & E2 & Hs2).
  exists s2. by rewrite feed_app, E1.
Qed.

(** An update that overlaps the place, or is a snapshot that is not older. *)
Definition extends (place : Z) (u : Update) : Prop :=
  (place = 0 -> prev_seqno u = 0) /\ prev_seqno u <= place <= current_seqno u + 1.

Definition update_ok (u : Update) : Prop := slice_ok (contents u) /\ 0 <= prev_seqno u <= current_seqno u /\ current_seqno u < 2 ^ 64 - 1.

Lemma brings_from_one place u : update_ok u -> 0 <= place -> extends place u -> brings_from [u] place (current_seqno u + 1).
Proof.
  intros (_ & Hpc & Hc) Hpl (H0 & Hle) initial s Hi Hs. cbn [feed]. unfold ProcessUpdate. rewrite (proj2 (Z.leb_le _ _)) by lia. cbn [assert_that obind].
  unfold bring in *. rewrite (proj2 (Z.eqb_neq (current_seqno u + 1) 0)) by lia.
  destruct (Z.eqb_spec place 0) as [->|Hne].
  - specialize (H0 eq_refl). destruct (_ || _) eqn:E; cbn [obind fst].
    + exists s. split; [done|]. rewrite H0 in E. cbn in E. lia.
    + eexists. split; [done|]. cbn. rewrite wrap_small by (unfold fits; lia). lia.
  - destruct (_ || _) eqn:E; cbn [obind fst].
    + exists s. split; [done|]. lia.
    + eexists. split; [done|]. cbn. rewrite wrap_small by (unfold fits; lia). lia.
Qed.

(** ** What is required of an accumulator *)

(** [accumulates P a place resubscribed]: [a] got updates with the property [P] up
    to [place], and if [resubscribed] it has asked for a new snapshot, so that the
    next update starts at 0.  Bootstrapping brings a client to the same place, as
    [include/ProxyServer.h] requires. *)
Class AccumulatorLaws (A : Type) `{UpdatesAccumulator A} := {
  accumulates : (Update -> Prop) -> A -> Z -> bool -> Prop;
  bootstrap_ok : forall P a place resubscribed initial ups to, accumulates P a place resubscribed ->
    BootstrapSubscription a initial = (ups, to) -> to = place /\ Forall P ups /\ brings_from ups 0 place;
  consume_ok : forall (P : Update -> Prop) a place resubscribed u, accumulates P a place resubscribed -> 0 <= place -> P u -> update_ok u -> extends place u ->
    (resubscribed = true -> prev_seqno u = 0) ->
    exists a' action, ConsumeUpdate a (contents u) (prev_seqno u) (current_seqno u) = Ok (a', action) /\
      accumulates P a' (current_seqno u + 1) (match action with kResubscribeUpstream => true | kNoOp => false end)
}.

(** The default accumulator holds the updates since the last snapshot, and asks for
    a new one when it is full. *)
Fixpoint chain (place : Z) (ups : list Update) : Z :=
  match ups with
  | [] => place
  | u :: ups => chain (current_seqno u + 1) ups
  end.

Lemma chain_snoc place ups u : chain place (ups ++ [u]) = current_seqno u + 1.
Proof. revert place. by induction ups as [|x ups IH]; intros place; [|apply IH]. Qed.

Record default_accumulates (P : Update -> Prop) (a : DefaultAccumulator) (place : Z) (resubscribed : bool) : Prop := {
  da_place : chain 0 (updates_ a) = place;
  da_updates : Forall P (updates_ a);
  da_ok : Forall update_ok (updates_ a);
  da_brings : brings_from (updates_ a) 0 place;
  da_limit : 0 < count_limit_ a;
  da_room : resubscribed = false -> Z.of_nat (length (updates_ a)) < count_limit_ a
}.

Lemma chain_last place ups : Forall update_ok ups -> chain place ups = match last ups with None => place | Some u => u64 (current_seqno u + 1) end.
Proof.
  intros Hok. destruct ups as [|u ups _] using rev_ind; [done|]. rewrite chain_snoc, last_snoc. apply Forall_app in Hok as [_ (_ & H1 & H2)%Forall_singleton].
  by rewrite wrap_small by (unfold fits; lia).
Qed.

#[export] Instance Default_laws : AccumulatorLaws DefaultAccumulator.
Proof.
  refine {| accumulates := default_accumulates |}.
  - intros P a place resub initial ups to [Hp Hu Hok Hb _ _] [= <- <-]. split; [|done]. rewrite <-Hp. by rewrite (chain_last 0) by done.
  - intros P a place resub u [Hp Hu Hok Hb Hl Hr] Hpl HP Huok Hext Hre. cbn. unfold Default_ConsumeUpdate.
    assert (exists ups, ups = (if prev_seqno u =? 0 then [] else updates_ a) /\ Forall P ups /\ Forall update_ok ups /\
      Z.of_nat (length ups) < count_limit_ a /\ brings_from (ups ++ [u]) 0 (current_seqno u + 1)) as (ups & <- & HU & HO & HL & HB).
    { destruct (Z.eqb_spec (prev_seqno u) 0) as [H0|H0].
      - exists []. split_and!; [done|done|done|done|]. apply brings_from_one; [done|lia|]. split; [done|]. destruct Huok as (_ & ? & ?). lia.
      - exists (updates_ a). split_and!; [done|done|done|apply Hr; destruct resub; naive_solver|].
        apply (brings_from_app _ _ 0 place); [done|by apply brings_from_one]. }
    rewrite (proj2 (Z.ltb_lt _ _) HL). cbn [assert_that obind]. destruct u as [c p q]. cbn [contents prev_seqno current_seqno] in *.
    eexists _, _. split; [reflexivity|]. split; cbn [updates_ count_limit_]; try done.
    + by rewrite chain_snoc.
    + apply Forall_app. split; [done|by apply Forall_singleton].
    + apply Forall_app. split; [done|by apply Forall_singleton].
    + destruct (Z.leb_spec (count_limit_ a) (Z.of_nat (length (ups ++ [{| contents := c; prev_seqno := p; current_seqno := q |}])))); [done|lia].
Defined.

Lemma CreateDefault_ok P limit : 0 < limit -> accumulates P (CreateDefault limit) 0 false.
Proof. intros Hl. split; cbn; try done. apply brings_from_nil. Qed.

(** ** The invariant of a multiplexer *)

Section Mux.
Context {A : Type} `{AccumulatorLaws A} (options : ProxyOptions A).

(** [P topic] is what is true of the updates of a topic. *)
Context (P : slice * slice -> Update -> Prop).
Hypothesis P_ok : forall k u, P k u -> update_ok u.
Hypothesis accumulator_new : forall ns topic, accumulates (P (ns, topic)) (accumulator options ns topic) 0 false.
Implicit Types x : Multiplexer A.
Implicit Types u : UpstreamSubscription A.

Definition sub_topic (s : SubscriptionBase) : slice * slice := (namespace_id s, topic_name_ s).

Definition allocated (shard : Z) (al : IDAllocator) (id : Z) : Prop := exists k, 0 < k < next_ al /\ ForShard shard k = Ok id.

(** A subscription and its object: the accumulator is at the place of the
    downstream subscriptions, and so is the subscription, unless it was sent back
    to 0. *)
Definition sub_ok (s : SubscriptionBase) u : Prop := exists resubscribed,
  accumulates (P (sub_topic s)) (accumulator_ u) (us_expected_seqno_ u) resubscribed /\ 0 <= us_expected_seqno_ u < 2 ^ 64 /\
  expected_seqno_ s = if resubscribed then 0 else us_expected_seqno_ u.

(** [d] gives the object of a downstream subscription. *)
Record mux_ok (shard : Z) (d : Z -> Z -> option Z) x : Prop := {
  mk_map : client_ok (subscriptions_map_ x);
  mk_step : step_ (upstream_allocator_ x) = 1;
  mk_next : 0 < next_ (upstream_allocator_ x) < 2 ^ 64;
  mk_ids : forall id, ~ allocated shard (upstream_allocator_ x) id -> fresh (subscriptions_map_ x) id;
  mk_sub : forall id s, Find (subscriptions_map_ x) id = Some s -> exists u, objects x !! user_data_ s = Some u /\ us_sub_id_ u = id /\
    topic_index_ x !! sub_topic s = Some (user_data_ s) /\ sub_ok s u;
  mk_index : forall k address, topic_index_ x !! k = Some address -> exists id s, Find (subscriptions_map_ x) id = Some s /\ user_data_ s = address /\ sub_topic s = k;
  mk_addresses : forall address, next_address x <= address -> objects x !! address = None;
  mk_down : forall st sub address, d st sub = Some address <->
    exists id s u, Find (subscriptions_map_ x) id = Some s /\ user_data_ s = address /\ objects x !! address = Some u /\ (st, sub) ∈ downstream_subscriptions_ u
}.

(** Every subscription at the server serves a downstream subscription. *)
Definition all_used (d : Z -> Z -> option Z) x : Prop :=
  forall id s, Find (subscriptions_map_ x) id = Some s -> exists st sub, d st sub = Some (user_data_ s).

(** IDs of the shard do not run out. *)
Definition id_room (shard : Z) x : Prop :=
  next_ (upstream_allocator_ x) + 1 < 2 ^ 64 /\ exists id, ForShard shard (next_ (upstream_allocator_ x)) = Ok id /\ id <> 0.

Lemma ForShard_inj shard k k' id : fits 32 shard -> 0 < k < 2 ^ 64 -> 0 < k' < 2 ^ 64 -> id <> 0 -> ForShard shard k = Ok id -> ForShard shard k' = Ok id -> k = k'.
Proof.
  intros Hs Hk Hk' Hid E E'. destruct (ForShard_spec shard k) as (i & Ei & Hi); [done|unfold fits; lia|lia|].
  destruct (ForShard_spec shard k') as (j & Ej & Hj); [done|unfold fits; lia|lia|]. rewrite E in Ei. rewrite E' in Ej. injection Ei as <-. injection Ej as <-.
  destruct Hi as [|(_ & Hi & _)], Hj as [|(_ & Hj & _)]; congruence.
Qed.

Lemma same_object shard d x id s id' s' : mux_ok shard d x -> Find (subscriptions_map_ x) id = Some s -> Find (subscriptions_map_ x) id' = Some s' ->
  user_data_ s = user_data_ s' -> id = id' /\ s = s'.
Proof.
  intros Hx Hs Hs' Hu. destruct (mk_sub _ _ _ Hx id s Hs) as (u & Ho & Hid & _). destruct (mk_sub _ _ _ Hx id' s' Hs') as (u' & Ho' & Hid' & _).
  assert (id = id') as -> by congruence. split; [done|]. congruence.
Qed.

Lemma same_topic shard d x id s id' s' : mux_ok shard d x -> Find (subscriptions_map_ x) id = Some s -> Find (subscriptions_map_ x) id' = Some s' ->
  sub_topic s = sub_topic s' -> id = id' /\ s = s'.
Proof.
  intros Hx Hs Hs' Hk. destruct (mk_sub _ _ _ Hx id s Hs) as (u & _ & _ & Hi & _). destruct (mk_sub _ _ _ Hx id' s' Hs') as (u' & _ & _ & Hi' & _).
  apply (same_object shard d x id s id' s' Hx Hs Hs'). congruence.
Qed.

Lemma NextUpstreamID_core shard x : step_ (upstream_allocator_ x) = 1 -> 0 < next_ (upstream_allocator_ x) -> fits 32 shard -> id_room shard x ->
  exists id al, NextUpstreamID shard x = Ok (id, set_allocator al x) /\ al = {| step_ := 1; next_ := next_ (upstream_allocator_ x) + 1 |} /\
    ~ allocated shard (upstream_allocator_ x) id /\ allocated shard al id.
Proof.
  intros Hstep Hnext Hs (Hn & id & Hid & Hne). unfold NextUpstreamID.
  rewrite (proj2 (Z.leb_le shard kMaxShardID)) by (unfold kMaxShardID, fits in *; lia). cbn [assert_that obind].
  set (al := {| step_ := 1; next_ := next_ (upstream_allocator_ x) + 1 |}).
  assert (Next (upstream_allocator_ x) = Ok (next_ (upstream_allocator_ x), al)) as ->.
  { unfold Next. rewrite (CheckValid_ok 0) by (split_and!; [lia|lia|done|unfold fits; lia]). cbn [obind]. rewrite Hstep, wrap_small by (unfold fits; lia). done. }
  cbn [obind fst snd]. rewrite Hid. cbn [obind]. rewrite (proj2 (Z.eqb_neq _ _) Hne). cbn [negb assert_that obind].
  exists id, al. split_and!; [done|done| |].
  - intros (k & Hk & Ek). assert (k = next_ (upstream_allocator_ x)); [|lia]. eapply (ForShard_inj shard _ _ id); try done; lia.
  - exists (next_ (upstream_allocator_ x)). split; [cbn; lia|done].
Qed.

Lemma set_allocator_ok shard d x n : mux_ok shard d x -> next_ (upstream_allocator_ x) <= n < 2 ^ 64 -> mux_ok shard d (set_allocator {| step_ := 1; next_ := n |} x).
Proof.
  intros [Hm Hstep Hnext Hids Hsub Hidx Haddr Hdown] Hn. split; cbn; try done; [lia|]. intros i Hi. apply Hids. intros (k & Hk & Ek). apply Hi.
  exists k. split; [cbn; lia|done].
Qed.

Lemma NextUpstreamID_ok shard d x : mux_ok shard d x -> fits 32 shard -> id_room shard x ->
  exists id x', NextUpstreamID shard x = Ok (id, x') /\ mux_ok shard d x' /\ fresh (subscriptions_map_ x') id /\ allocated shard (upstream_allocator_ x') id /\
    x' = set_allocator (upstream_allocator_ x') x.
Proof.
  intros Hx Hs Hroom. destruct (NextUpstreamID_core shard x (mk_step _ _ _ Hx) (proj1 (mk_next _ _ _ Hx)) Hs Hroom) as (id & al & E & -> & Hna & Hal).
  eexists id, _. split; [exact E|]. split_and!; try done; [apply set_allocator_ok; [done|destruct Hroom; lia]|]. by apply (mk_ids _ _ _ Hx).
Qed.

(** An object in use, with the topic and the place of its subscription. *)
Definition lives x (address : Z) (k : slice * slice) (place : Z) : Prop := exists id s u,
  Find (subscriptions_map_ x) id = Some s /\ user_data_ s = address /\ sub_topic s = k /\ objects x !! address = Some u /\ us_expected_seqno_ u = place.

Lemma lives_unique shard d x address k place k' place' : mux_ok shard d x -> lives x address k place -> lives x address k' place' -> k = k' /\ place = place'.
Proof.
  intros Hx (id & s & u & Hs & Hu & <- & Ho & <-) (id' & s' & u' & Hs' & Hu' & <- & Ho' & <-).
  destruct (same_object _ _ _ _ _ _ _ Hx Hs Hs' ltac:(congruence)) as [-> ->]. split; [done|congruence].
Qed.

Lemma down_lives shard d x st sub address : mux_ok shard d x -> d st sub = Some address -> exists k place, lives x address k place.
Proof. intros Hx (id & s & u & Hs & Hu & Ho & _)%(mk_down _ _ _ Hx). exists (sub_topic s), (us_expected_seqno_ u), id, s, u. done. Qed.

Definition upd (d : Z -> Z -> option Z) (st sub : Z) (v : option Z) : Z -> Z -> option Z :=
  fun st' sub' => if decide ((st', sub') = (st, sub)) then v else d st' sub'.

(** Another table of downstream subscriptions with the same entries. *)
Lemma mux_ok_ext shard d d' x : (forall st sub, d st sub = d' st sub) -> mux_ok shard d x -> mux_ok shard d' x.
Proof. intros He [Hm Hstep Hnext Hids Hsub Hidx Haddr Hdown]. split; try done. intros st sub a. rewrite <-He. apply Hdown. Qed.

Lemma FindOrCreate_ok shard tenant ns topic d x : mux_ok shard d x -> fits 32 shard -> id_room shard x ->
  exists address x' u, FindOrCreate options shard tenant ns topic x = Ok (address, x') /\ mux_ok shard d x' /\
    objects x' !! address = Some u /\ lives x' address (ns, topic) (us_expected_seqno_ u) /\
    (forall a k place, lives x a k place -> lives x' a k place) /\
    (all_used d x -> forall id s, Find (subscriptions_map_ x') id = Some s -> user_data_ s = address \/ exists st sub, d st sub = Some (user_data_ s)).
Proof.
  intros Hx Hs Hroom. unfold FindOrCreate. destruct (topic_index_ x !! (ns, topic)) as [address|] eqn:Ei.
  - destruct (mk_index _ _ _ Hx _ _ Ei) as (id & s & Hf & Hu & Hk). destruct (mk_sub _ _ _ Hx id s Hf) as (u & Ho & _). exists address, x, u.
    split_and!; try done; [congruence|exists id, s, u; split_and!; congruence|]. intros Hused id' s' Hs'. right. by apply Hused in Hs'.
  - destruct (NextUpstreamID_ok shard d x Hx Hs Hroom) as (id & x1 & -> & Hx1 & Hfr & Hal & E1). cbn [obind]. rewrite E1 in Hx1, Hfr, Hal |- *.
    set (al := upstream_allocator_ x1) in *. clearbody al. clear x1 E1. cbn [set_allocator subscriptions_map_ upstream_allocator_ topic_index_ objects next_address] in *.
    pose proof Hx1 as [Hm Hstep Hnext Hids Hsub Hidx Haddr Hdown]. cbn in Hm, Hstep, Hnext, Hids, Hsub, Hidx, Haddr, Hdown.
    destruct (Subscribe_ok _ id tenant ns topic 0 (next_address x) Hm Hfr) as (m' & E & Hm' & He & Hid & Hf). rewrite E. cbn [obind].
    unfold InsertIntoIndex. cbn [topic_index_]. rewrite bool_decide_eq_true_2 by done. cbn [assert_that obind].
    set (s0 := {| tenant_id := tenant |}) in Hid. set (u0 := {| us_sub_id_ := id |}). eexists (next_address x), _, u0. split; [reflexivity|].
    assert (Find (subscriptions_map_ x) id = None) as Hnone by apply Hfr.
    assert (forall i s, Find m' i = Some s -> (i = id /\ s = s0) \/ (i <> id /\ Find (subscriptions_map_ x) i = Some s)) as Hcases.
    { intros i s Hi. destruct (decide (i = id)) as [->|Hne]; [left; split; congruence|right; split; [done|]]. by rewrite <-Hf. }
    assert (forall i s, Find (subscriptions_map_ x) i = Some s -> i <> id /\ user_data_ s <> next_address x /\ Find m' i = Some s) as Hold.
    { intros i s Hi. split; [intros ->; congruence|]. destruct (Hsub i s Hi) as (u & Ho & _). split; [|rewrite Hf; [done|intros ->; congruence]].
      intros Heq. rewrite Heq, (Haddr (next_address x)) in Ho by lia. done. }
    split; [split; cbn|split_and!].
    + done.
    + done.
    + done.
    + intros i Hi. apply (brings_fresh _ (DoSubscribe id tenant ns topic 0 (next_address x)) _ _ Hm Hfr E); [|by apply Hids]. intros ->. by apply Hi.
    + intros i s Hi. destruct (Hcases i s Hi) as [[-> ->]|[Hne Hi']].
      * exists u0. cbn. rewrite !lookup_insert_eq. split_and!; try done. exists false. split_and!; [apply accumulator_new|done|done|done].
      * destruct (Hsub i s Hi') as (u & Ho & Hu & Ht & Hok). destruct (Hold i s Hi') as (_ & Hna & _). exists u. rewrite lookup_insert_ne by done.
        split_and!; [done|done| |done]. rewrite lookup_insert_ne; [done|]. intros Heq. congruence.
    + intros k a. rewrite lookup_insert_Some. intros [[<- <-]|[_ Hk]]; [by exists id, s0|]. destruct (Hidx k a Hk) as (i & s & Hi & Hu & Ht).
      exists i, s. split_and!; try done. by apply Hold.
    + intros a Ha. rewrite lookup_insert_ne by lia. apply Haddr. lia.
    + intros st sub a. rewrite Hdown. split.
      * intros (i & s & u & Hi & <- & Ho & Hin). destruct (Hold i s Hi) as (_ & Hna & Hi'). exists i, s, u. rewrite lookup_insert_ne by done. done.
      * intros (i & s & u & Hi & <- & Ho & Hin). destruct (Hcases i s Hi) as [[-> ->]|[Hne Hi']].
        { cbn in Ho. rewrite lookup_insert_eq in Ho. injection Ho as <-. set_solver. }
        destruct (Hold i s Hi') as (_ & Hna & _). rewrite lookup_insert_ne in Ho by done. by exists i, s, u.
    + cbn. apply lookup_insert_eq.
    + exists id, s0, u0. cbn. by rewrite lookup_insert_eq.
    + intros a k place (i & s & u & Hi & <- & Hk & Ho & Hp). destruct (Hold i s Hi) as (_ & Hna & Hi'). exists i, s, u. cbn. by rewrite lookup_insert_ne.
    + intros Hused i s Hi. cbn in Hi. destruct (Hcases i s Hi) as [[-> ->]|[Hne Hi']]; [by left|right]. by apply (Hused i s).
Qed.

(** An object in use that is replaced by one with the same ID. *)
Lemma replace_object_ok shard d d' x id s u u' : mux_ok shard d x -> Find (subscriptions_map_ x) id = Some s -> objects x !! user_data_ s = Some u ->
  us_sub_id_ u' = us_sub_id_ u -> sub_ok s u' ->
  (forall st sub a, a <> user_data_ s -> d' st sub = Some a <-> d st sub = Some a) ->
  (forall st sub, d' st sub = Some (user_data_ s) <-> (st, sub) ∈ downstream_subscriptions_ u') ->
  mux_ok shard d' (set_objects (<[user_data_ s := u']> (objects x)) x).
Proof.
  intros Hx Hs Ho Hid Hok Hd Hd'. pose proof Hx as [Hm Hstep Hnext Hids Hsub Hidx Haddr Hdown]. split; cbn; try done.
  - intros i s1 Hi. destruct (Hsub i s1 Hi) as (u1 & Ho1 & Hid1 & Ht1 & Hok1). destruct (decide (user_data_ s1 = user_data_ s)) as [Heq|Hne].
    + destruct (same_object _ _ _ _ _ _ _ Hx Hi Hs Heq) as [-> ->]. exists u'. rewrite lookup_insert_eq. split_and!; [done|congruence|done|done].
    + exists u1. rewrite lookup_insert_ne by done. done.
  - intros a Ha. rewrite lookup_insert_ne; [by apply Haddr|]. intros <-. rewrite (Haddr _ Ha) in Ho. done.
  - intros st sub a. destruct (decide (a = user_data_ s)) as [->|Hne].
    + rewrite Hd'. split.
      * intros Hin. exists id, s, u'. by rewrite lookup_insert_eq.
      * intros (i & s1 & u1 & Hi & Hu1 & Ho1 & Hin). rewrite lookup_insert_eq in Ho1. by injection Ho1 as <-.
    + rewrite (Hd st sub a Hne), Hdown. split; intros (i & s1 & u1 & Hi & Hu1 & Ho1 & Hin); exists i, s1, u1.
      * by rewrite lookup_insert_ne.
      * by rewrite lookup_insert_ne in Ho1.
Qed.

Lemma add_downstream_ok shard d x id s u st sub : mux_ok shard d x -> Find (subscriptions_map_ x) id = Some s -> objects x !! user_data_ s = Some u ->
  d st sub = None ->
  mux_ok shard (upd d st sub (Some (user_data_ s))) (set_objects (<[user_data_ s := set_downstream ({[ (st, sub) ]} ∪ downstream_subscriptions_ u) u]> (objects x)) x).
Proof.
  intros Hx Hs Ho Hd. destruct (mk_sub _ _ _ Hx id s Hs) as (u1 & Ho1 & Hid & _ & Hok). assert (u1 = u) as -> by congruence.
  apply (replace_object_ok shard d _ x id s u); try done; unfold upd.
  - intros st' sub' a Hne. case_decide as Hk; [|done]. injection Hk as -> ->. rewrite Hd. split; congruence.
  - intros st' sub'. cbn. rewrite elem_of_union, elem_of_singleton. case_decide as Hk; [naive_solver|]. rewrite (mk_down _ _ _ Hx). split.
    + intros (i & s1 & u1 & _ & _ & Ho2 & Hin). right. by assert (u1 = u) as <- by congruence.
    + intros [?|Hin]; [done|]. by exists id, s, u.
Qed.

Lemma lives_replaced x id s u u' a k place : Find (subscriptions_map_ x) id = Some s -> objects x !! user_data_ s = Some u ->
  us_expected_seqno_ u' = us_expected_seqno_ u -> lives x a k place -> lives (set_objects (<[user_data_ s := u']> (objects x)) x) a k place.
Proof.
  intros Hs Ho He (i & s1 & u1 & Hi & <- & Hk & Ho1 & Hp). destruct (decide (user_data_ s1 = user_data_ s)) as [Heq|Hne].
  - exists i, s1, u'. cbn. rewrite Heq, lookup_insert_eq. rewrite Heq in Ho1. split_and!; try done. congruence.
  - exists i, s1, u1. cbn. by rewrite lookup_insert_ne.
Qed.

Lemma cleanup_snoc (m m' : SubscriptionsMap) user (o : gmap Z (UpstreamSubscription A)) : events m' = events m ++ [Cleaned user] -> cleanup m m' o = delete user o.
Proof. intros He. unfold cleanup. rewrite He, drop_app_length. done. Qed.

Lemma RemoveDownstream_ok u st sub : (st, sub) ∈ downstream_subscriptions_ u ->
  RemoveDownstream u st sub = Ok (set_downstream (downstream_subscriptions_ u ∖ {[ (st, sub) ]}) u, size (downstream_subscriptions_ u ∖ {[ (st, sub) ]})).
Proof. intros Hin. unfold RemoveDownstream. by rewrite bool_decide_eq_true_2. Qed.

Lemma RemoveFromIndex_ok s x address : topic_index_ x !! sub_topic s = Some address ->
  RemoveFromIndex (namespace_id s, topic_name_ s) x = Ok (set_index (delete (sub_topic s) (topic_index_ x)) x).
Proof. intros Hi. unfold RemoveFromIndex. by rewrite bool_decide_eq_true_2 by (exists address; exact Hi). Qed.

(** A subscription that leaves the map, with its object or without. *)
Lemma end_subscription_ok shard d d' x m' o' id s : mux_ok shard d x -> Find (subscriptions_map_ x) id = Some s ->
  client_ok m' -> Find m' id = None -> (forall id', id' <> id -> Find m' id' = Find (subscriptions_map_ x) id') ->
  (forall i, fresh (subscriptions_map_ x) i -> fresh m' i) ->
  (forall a, a <> user_data_ s -> o' !! a = objects x !! a) -> (forall a, next_address x <= a -> o' !! a = None) ->
  (forall st sub a, d' st sub = Some a <-> d st sub = Some a /\ a <> user_data_ s) ->
  mux_ok shard d' (set_objects o' (set_map m' (set_index (delete (sub_topic s) (topic_index_ x)) x))).
Proof.
  intros Hx Hs Hm' Hnone Hf Hfr Ho Hoa Hd. pose proof Hx as [Hm Hstep Hnext Hids Hsub Hidx Haddr Hdown].
  assert (forall i s1, Find m' i = Some s1 -> i <> id /\ Find (subscriptions_map_ x) i = Some s1 /\ user_data_ s1 <> user_data_ s /\ sub_topic s1 <> sub_topic s) as Hold.
  { intros i s1 Hi. assert (i <> id) as Hne by (intros ->; congruence). rewrite Hf in Hi by done. split_and!; [done|done| |].
    - intros Heq. by destruct (same_object _ _ _ _ _ _ _ Hx Hi Hs Heq).
    - intros Heq. by destruct (same_topic _ _ _ _ _ _ _ Hx Hi Hs Heq). }
  split; cbn; try done.
  - intros i Hi. by apply Hfr, Hids.
  - intros i s1 Hi. destruct (Hold i s1 Hi) as (Hne & Hi' & Hu & Ht). destruct (Hsub i s1 Hi') as (u1 & Ho1 & Hid1 & Ht1 & Hok1).
    exists u1. rewrite Ho, lookup_delete_ne by congruence. done.
  - intros k a [Hne Hk]%lookup_delete_Some. destruct (Hidx k a Hk) as (i & s1 & Hi & Hu & Ht). exists i, s1. split_and!; try done.
    rewrite Hf; [done|]. intros ->. assert (s1 = s) as -> by congruence. done.
  - intros st sub a. rewrite Hd, Hdown. split.
    + intros [(i & s1 & u1 & Hi & <- & Ho1 & Hin) Hne]. exists i, s1, u1. rewrite Hf, Ho; [done|done|]. intros ->. congruence.
    + intros (i & s1 & u1 & Hi & <- & Ho1 & Hin). destruct (Hold i s1 Hi) as (Hne & Hi' & Hu & Ht). split; [|done]. exists i, s1, u1. by rewrite <-Ho.
Qed.

Lemma drop_downstream_ok shard d x st sub address : mux_ok shard d x -> d st sub = Some address ->
  exists x', drop_downstream x address st sub = Ok x' /\ mux_ok shard (upd d st sub None) x' /\
    (all_used d x -> all_used (upd d st sub None) x') /\ upstream_allocator_ x' = upstream_allocator_ x /\
    (forall a k place st' sub', lives x a k place -> upd d st sub None st' sub' = Some a -> lives x' a k place).
Proof.
  intros Hx Hd. pose proof Hx as [Hm Hstep Hnext Hids Hsub Hidx Haddr Hdown]. destruct (proj1 (Hdown _ _ _) Hd) as (id & s & u & Hs & <- & Ho & Hin).
  destruct (Hsub id s Hs) as (u1 & Ho1 & Hid & Ht & Hok). assert (u1 = u) as -> by congruence. clear Ho1.
  unfold drop_downstream, the_object. rewrite Ho. cbn [obind]. rewrite (RemoveDownstream_ok u st sub Hin). cbn [obind].
  set (rest := downstream_subscriptions_ u ∖ {[ (st, sub) ]}). set (x1 := set_objects (<[user_data_ s := set_downstream rest u]> (objects x)) x).
  assert (mux_ok shard (upd d st sub None) x1) as Hx1.
  { apply (replace_object_ok shard d _ x id s u); try done; unfold upd.
    - intros st' sub' a Hne. case_decide as Hk; [|done]. injection Hk as -> ->. rewrite Hd. split; congruence.
    - intros st' sub'. cbn. unfold rest. rewrite elem_of_difference, elem_of_singleton. case_decide as Hk; [naive_solver|]. rewrite Hdown. split.
      + intros (i & s1 & u2 & _ & _ & Ho2 & Hin2). split; [|done]. by assert (u2 = u) as <- by congruence.
      + intros [Hin2 _]. by exists id, s, u. }
  assert (forall st' sub', upd d st sub None st' sub' = Some (user_data_ s) <-> (st', sub') ∈ rest) as Hrest.
  { intros st' sub'. rewrite (mk_down _ _ _ Hx1). split.
    - intros (i & s1 & u2 & _ & _ & Ho2 & Hin2). cbn in Ho2. rewrite lookup_insert_eq in Ho2. injection Ho2 as <-. done.
    - intros Hin2. exists id, s, (set_downstream rest u). cbn. by rewrite lookup_insert_eq. }
  assert (forall a k place, lives x a k place -> lives x1 a k place) as Hlives by (intros a k place; by apply (lives_replaced x id s u)).
  destruct (Nat.eqb_spec (size rest) 0) as [Hz|Hz].
  - change (subscriptions_map_ x1) with (subscriptions_map_ x). rewrite Hid, Hs, (RemoveFromIndex_ok s x1 (user_data_ s) Ht).
    cbn [obind set_index subscriptions_map_ x1 set_objects].
    destruct (Unsubscribe_ok _ id s Hm Hs) as (m' & E & Hm' & He & Hn & Hf). rewrite E. cbn [obind]. eexists. split; [reflexivity|].
    rewrite (cleanup_snoc _ _ _ _ He). apply size_empty_inv in Hz. fold_leibniz.
    assert (forall st' sub' a, upd d st sub None st' sub' = Some a <-> upd d st sub None st' sub' = Some a /\ a <> user_data_ s) as Hd'.
    { intros st' sub' a. split; [|tauto]. intros Hq. split; [done|]. intros ->. apply Hrest in Hq. rewrite Hz in Hq. set_solver. }
    split_and!; [| |done|].
    + apply (end_subscription_ok shard (upd d st sub None) _ x1 m' _ id s); try done.
      * intros i Hi. exact (brings_fresh _ (DoUnsubscribe id) _ i Hm (ex_intro _ s Hs) E (fun f => f) Hi).
      * intros a Ha. cbn. by rewrite lookup_delete_ne.
      * intros a Ha. cbn. apply lookup_delete_None. right. by apply (mk_addresses _ _ _ Hx1).
    + intros Hused i s1 Hi. cbn in Hi. assert (i <> id) as Hne by (intros ->; congruence). rewrite Hf in Hi by done.
      destruct (Hused i s1 Hi) as (st' & sub' & Hq). exists st', sub'. unfold upd. rewrite decide_False; [done|]. intros [= -> ->].
      rewrite Hd in Hq. injection Hq as Hq. by destruct (same_object _ _ _ _ _ _ _ Hx Hi Hs ltac:(done)).
    + intros a k place st' sub' Hl Hq. apply Hd' in Hq as [_ Hne]. destruct (Hlives _ _ _ Hl) as (i & s1 & u2 & Hi & Hu & Hk & Ho2 & Hp).
      exists i, s1, u2. cbn in *. rewrite lookup_delete_ne by done. split_and!; try done. rewrite Hf; [done|]. intros ->. congruence.
  - exists x1. split; [done|]. split_and!; [done| |done|by intros; apply Hlives]. intros Hused i s1 Hi. cbn in Hi.
    destruct (decide (user_data_ s1 = user_data_ s)) as [->|Hne].
    + destruct (set_choose_or_empty rest) as [[[st' sub'] Hr]|Hr]; [by exists st', sub'; apply Hrest|]. exfalso. apply Hz. by apply size_empty_iff.
    + destruct (Hused i s1 Hi) as (st' & sub' & Hq). exists st', sub'. unfold upd. rewrite decide_False; [done|]. intros [= -> ->]. congruence.
Qed.

(** ** The stream of the multiplexer *)

Lemma stream_action_Find m a m' : client_ok m -> client_enabled m a -> stream_action a -> run_client a m = Ok m' -> client_ok m' /\ forall id, Find m' id = Find m id.
Proof.
  intros Hm Hen Ha E. destruct a as [| | | |id|id| | | |]; try done; cbn [run_client client_enabled] in *.
  - destruct Hen as [Hr [s Hs]]. destruct (DrainSubscription_ok m id s Hm (ck_sink _ Hm Hr) Hs) as (m2 & q & E2 & Hm2 & _ & _ & _ & _ & _ & _ & Hf).
    rewrite E in E2. by apply Ok_inj in E2 as <-.
  - destruct Hen as [Hr Hu]. destruct (DrainUnsubscription_ok m id Hm (ck_sink _ Hm Hr) Hu) as (m2 & q & E2 & Hm2 & _ & _ & _ & _ & Hf).
    rewrite E in E2. by apply Ok_inj in E2 as <-.
  - destruct (ConnectionCreated_ok m Hm) as (m2 & E2 & Hm2 & _ & Hf). rewrite E in E2. by apply Ok_inj in E2 as <-.
  - apply Ok_inj in E as <-. split; [by apply ConnectionDropped_ok|done].
Qed.

(** A map with the same subscriptions. *)
Lemma mux_set_map_ok shard d x m' : mux_ok shard d x -> client_ok m' -> (forall id, Find m' id = Find (subscriptions_map_ x) id) ->
  (forall i, fresh (subscriptions_map_ x) i -> fresh m' i) -> mux_ok shard d (set_map m' x).
Proof.
  intros [Hm Hstep Hnext Hids Hsub Hidx Haddr Hdown] Hm' Hf Hfr. split; cbn; try done.
  - intros i Hi. by apply Hfr, Hids.
  - intros id s. rewrite Hf. apply Hsub.
  - intros k a Hk. destruct (Hidx k a Hk) as (id & s & Hs & ?). exists id, s. by rewrite Hf.
  - intros st sub a. rewrite Hdown. split; intros (id & s & u & Hs & ?); exists id, s, u; [by rewrite Hf|by rewrite <-Hf].
Qed.

Lemma lives_set_map x m' a k place : (forall id, Find m' id = Find (subscriptions_map_ x) id) -> lives x a k place -> lives (set_map m' x) a k place.
Proof. intros Hf (id & s & u & Hs & ?). exists id, s, u. cbn. by rewrite Hf. Qed.

Lemma stream_step_ok shard d x a : mux_ok shard d x -> client_enabled (subscriptions_map_ x) a -> stream_action a ->
  exists m', run_client a (subscriptions_map_ x) = Ok m' /\ mux_ok shard d (set_map m' x) /\ forall id, Find m' id = Find (subscriptions_map_ x) id.
Proof.
  intros Hx Hen Ha. destruct (client_step _ a (mk_map _ _ _ Hx) Hen) as (m' & es & E & _). exists m'.
  destruct (stream_action_Find _ a m' (mk_map _ _ _ Hx) Hen Ha E) as [Hm' Hf]. split_and!; [done| |done]. apply mux_set_map_ok; try done.
  intros i Hi. apply (brings_fresh _ a _ i (mk_map _ _ _ Hx) Hen E); [by destruct a; cbn in Ha |- *; [done|done|intros []..]|done].
Qed.

(** The end of a subscription by the server. *)
Lemma terminate_ok shard d x id reason : mux_ok shard d x -> sink_ (subscriptions_map_ x) = true -> id ∈ known (events (subscriptions_map_ x)) ->
  exists m', (exists s u, Find (subscriptions_map_ x) id = Some s /\ objects x !! user_data_ s = Some u /\ topic_index_ x !! sub_topic s = Some (user_data_ s) /\
      (forall C (cb : C -> SubscriptionsMap -> outcome C) c, ReceiveUnsubscribe cb c (subscriptions_map_ x) id reason = (c' <~ cb c (subscriptions_map_ x) ;; Ok (m', c'))) /\
      (forall d', (forall st sub a, d' st sub = Some a <-> d st sub = Some a /\ a <> user_data_ s) ->
         mux_ok shard d' (set_map m' (set_index (delete (sub_topic s) (topic_index_ x)) x))) /\
      (forall id', id' <> id -> Find m' id' = Find (subscriptions_map_ x) id') /\ Find m' id = None) \/
    (forall C (cb : C -> SubscriptionsMap -> outcome C) c, ReceiveUnsubscribe cb c (subscriptions_map_ x) id reason = Ok (m', c)) /\ mux_ok shard d (set_map m' x) /\
      forall id, Find m' id = Find (subscriptions_map_ x) id.
Proof.
  intros Hx Hsink Hk. destruct (ReceiveUnsubscribe_cases _ id reason (mk_map _ _ _ Hx) Hk) as (m' & es & Hm' & _ & Hf & Hcases). exists m'.
  assert (run_client (HearUnsubscribe id reason) (subscriptions_map_ x) = Ok m' -> forall i, fresh (subscriptions_map_ x) i -> fresh m' i) as Hfr.
  { intros E i Hi. exact (brings_fresh _ (HearUnsubscribe id reason) _ i (mk_map _ _ _ Hx) (conj Hsink Hk) E (fun f => f) Hi). }
  destruct Hcases as [([s Hs] & Hn & Hcb)|[Hid Hcb]].
  - left. destruct (mk_sub _ _ _ Hx id s Hs) as (u & Ho & _ & Ht & _). exists s, u. split_and!; try done. intros d' Hd'.
    apply (end_subscription_ok shard d d' x m' (objects x) id s); try done; [|apply (mk_addresses _ _ _ Hx)]. apply Hfr. cbn. by rewrite Hcb.
  - right. assert (forall i, Find m' i = Find (subscriptions_map_ x) i) as Hf'.
    { intros i. destruct (decide (i = id)) as [->|Hne]; [done|by apply Hf]. }
    split_and!; [done| |done]. apply mux_set_map_ok; try done. apply Hfr. cbn. by rewrite Hcb.
Qed.

(** ** Updates *)

(** Sets the place, as [UpstreamSubscription::ReceiveDeliver] does unless the update
    is dropped. *)
Definition placed (address : Z) u current x : Multiplexer A :=
  if negb (us_expected_seqno_ u =? 0) && (current <? us_expected_seqno_ u) then x
  else set_objects (<[address := set_us_expected (u64 (current + 1)) u]> (objects x)) x.

Definition data_update (data : MessageDeliverData) : Update :=
  {| contents := ddata_payload_ data; prev_seqno := deliver_seqno_prev_ (ddata_deliver data); current_seqno := deliver_seqno_ (ddata_deliver data) |}.

(** The map after a subscription changed, perhaps with a new ID. *)
Lemma moved_ok shard d x m' id s id' s' u u' : mux_ok shard d x -> Find (subscriptions_map_ x) id = Some s -> objects x !! user_data_ s = Some u ->
  client_ok m' -> (forall i, ~ allocated shard (upstream_allocator_ x) i -> fresh m' i) ->
  Find m' id' = Some s' -> (id' <> id -> Find (subscriptions_map_ x) id' = None /\ Find m' id = None) ->
  (forall i, i <> id -> i <> id' -> Find m' i = Find (subscriptions_map_ x) i) ->
  user_data_ s' = user_data_ s -> sub_topic s' = sub_topic s -> us_sub_id_ u' = id' -> downstream_subscriptions_ u' = downstream_subscriptions_ u -> sub_ok s' u' ->
  mux_ok shard d (set_objects (<[user_data_ s := u']> (objects x)) (set_map m' x)).
Proof.
  intros Hx Hs Ho Hm' Hfr Hs' Hne Hf Hud Htop Hid Hdown' Hok. pose proof Hx as [Hm Hstep Hnext Hids Hsub Hidx Haddr Hdown].
  assert (forall i s1, Find m' i = Some s1 -> (i = id' /\ s1 = s') \/ (i <> id /\ i <> id' /\ Find (subscriptions_map_ x) i = Some s1 /\ user_data_ s1 <> user_data_ s)) as Hcases.
  { intros i s1 Hi. destruct (decide (i = id')) as [->|Hi']; [left; split; congruence|right]. assert (i <> id) as Hi2.
    { intros ->. destruct (Hne ltac:(congruence)). congruence. }
    rewrite Hf in Hi by done. split_and!; try done. intros Heq. by destruct (same_object _ _ _ _ _ _ _ Hx Hi Hs Heq). }
  assert (forall i s1, Find (subscriptions_map_ x) i = Some s1 -> (i = id /\ s1 = s) \/ (i <> id /\ user_data_ s1 <> user_data_ s /\ Find m' i = Some s1)) as Hold.
  { intros i s1 Hi. destruct (decide (i = id)) as [->|Hi']; [left; split; congruence|right]. split_and!; [done| |].
    - intros Heq. by destruct (same_object _ _ _ _ _ _ _ Hx Hi Hs Heq).
    - rewrite Hf; [done|done|]. intros ->. destruct (decide (id' = id)) as [->|Hx2]; [done|]. destruct (Hne Hx2). congruence. }
  destruct (Hsub id s Hs) as (u0 & Ho0 & _ & Ht0 & _). assert (u0 = u) as -> by congruence.
  split; cbn; try done.
  - intros i s1 Hi. destruct (Hcases i s1 Hi) as [[-> ->]|(_ & _ & Hi' & Hu1)].
    + exists u'. rewrite Hud, lookup_insert_eq, Htop. done.
    + destruct (Hsub i s1 Hi') as (u1 & Ho1 & Hr). exists u1. by rewrite lookup_insert_ne.
  - intros k a Hk. destruct (Hidx k a Hk) as (i & s1 & Hi & Hu & Ht). destruct (Hold i s1 Hi) as [[-> ->]|(_ & _ & Hi')].
    + exists id', s'. split_and!; congruence.
    + by exists i, s1.
  - intros a Ha. rewrite lookup_insert_ne; [by apply Haddr|]. intros <-. rewrite (Haddr _ Ha) in Ho. done.
  - intros st sub a. rewrite Hdown. split.
    + intros (i & s1 & u1 & Hi & <- & Ho1 & Hin). destruct (Hold i s1 Hi) as [[-> ->]|(_ & Hu1 & Hi')].
      * exists id', s', u'. rewrite lookup_insert_eq, Hdown'. split_and!; try done. by assert (u1 = u) as <- by congruence.
      * exists i, s1, u1. by rewrite lookup_insert_ne.
    + intros (i & s1 & u1 & Hi & <- & Ho1 & Hin). destruct (Hcases i s1 Hi) as [[-> ->]|(_ & _ & Hi' & Hu1)].
      * exists id, s, u. rewrite Hud in *. rewrite lookup_insert_eq in Ho1. injection Ho1 as <-. rewrite Hdown' in Hin. done.
      * exists i, s1, u1. by rewrite lookup_insert_ne in Ho1.
Qed.

Definition accumulated (id : Z) (a : A) (place : Z) u : UpstreamSubscription A :=
  {| us_sub_id_ := id; accumulator_ := a; us_expected_seqno_ := place; downstream_subscriptions_ := downstream_subscriptions_ u |}.

(** Setting the place after the accumulator got the update. *)
Lemma placed_accumulated address id a u current x place : 0 <= current < 2 ^ 64 - 1 -> place <= current + 1 -> us_expected_seqno_ u = place ->
  placed address (accumulated id a place u) current (set_objects (<[address := accumulated id a place u]> (objects x)) x) =
    set_objects (<[address := accumulated id a (current + 1) u]> (objects x)) x.
Proof.
  intros Hc Hp Hu. unfold placed. cbn [us_expected_seqno_ accumulated]. destruct (_ && _) eqn:E.
  - assert (place = current + 1) as -> by lia. done.
  - unfold set_objects, set_us_expected. cbn. rewrite insert_insert_eq, wrap_small by (unfold fits; lia). done.
Qed.

Lemma accumulate_ok shard d x id s u data m' : mux_ok shard d x -> fits 32 shard -> id_room shard x ->
  Find (subscriptions_map_ x) id = Some s -> objects x !! user_data_ s = Some u -> P (sub_topic s) (data_update data) ->
  (expected_seqno_ s = 0 -> prev_seqno (data_update data) = 0) ->
  prev_seqno (data_update data) <= expected_seqno_ s <= current_seqno (data_update data) ->
  (expected_seqno_ s = 0 -> us_expected_seqno_ u <= current_seqno (data_update data) + 1) ->
  client_ok m' -> (forall i, fresh (subscriptions_map_ x) i -> fresh m' i) ->
  Find m' id = Some (set_expected (u64 (current_seqno (data_update data) + 1)) s) -> (forall i, i <> id -> Find m' i = Find (subscriptions_map_ x) i) ->
  extends (us_expected_seqno_ u) (data_update data) /\
  exists x' u', accumulate shard (set_map m' x) id (user_data_ s) (DeliverData data) (prev_seqno (data_update data)) (current_seqno (data_update data)) = Ok x' /\
    objects x' !! user_data_ s = Some u' /\ us_expected_seqno_ u' = us_expected_seqno_ u /\ downstream_subscriptions_ u' = downstream_subscriptions_ u /\
    let x2 := placed (user_data_ s) u' (current_seqno (data_update data)) x' in
    mux_ok shard d x2 /\ lives x2 (user_data_ s) (sub_topic s) (current_seqno (data_update data) + 1) /\
    (forall a k place, a <> user_data_ s -> lives x a k place -> lives x2 a k place) /\ (all_used d x -> all_used d x2).
Proof.
  intros Hx Hsh Hroom Hs Ho HP Hz Hle Hsnap Hm' Hfr Hid Hf. set (v := data_update data) in *. pose proof (P_ok _ _ HP) as Hv. pose proof Hv as (_ & Hpc & Hcur).
  destruct (mk_sub _ _ _ Hx id s Hs) as (u0 & Ho0 & Huid & Htop & (resub & Hacc & Hplace & Hexp)). assert (u0 = u) as -> by congruence.
  assert (extends (us_expected_seqno_ u) v /\ (resub = true -> prev_seqno v = 0)) as [Hext Hre].
  { unfold extends. destruct resub; [specialize (Hsnap Hexp); specialize (Hz Hexp)|]; split_and!; intros; try lia; apply Hz; lia. }
  split; [done|]. destruct (consume_ok _ _ _ _ v Hacc (proj1 Hplace) HP Hv Hext Hre) as (a' & action & Hcons & Hacc').
  set (s' := set_expected (u64 (current_seqno v + 1)) s) in *.
  unfold accumulate, the_object. cbn [set_map objects]. rewrite Ho. cbn [obind]. change (ddata_payload_ data) with (contents v). rewrite Hcons. cbn [obind].
  assert (forall y m2 id2 s2, y = set_objects (<[user_data_ s := accumulated id2 a' (current_seqno v + 1) u]> (objects x)) (set_map m2 (set_allocator (upstream_allocator_ y) x)) ->
    mux_ok shard d y -> Find m2 id2 = Some s2 -> user_data_ s2 = user_data_ s -> sub_topic s2 = sub_topic s ->
    (forall i, i <> id -> i <> id2 -> Find m2 i = Find (subscriptions_map_ x) i) -> (id2 <> id -> Find m2 id = None /\ Find (subscriptions_map_ x) id2 = None) ->
    mux_ok shard d y /\ lives y (user_data_ s) (sub_topic s) (current_seqno v + 1) /\
    (forall a k place, a <> user_data_ s -> lives x a k place -> lives y a k place) /\ (all_used d x -> all_used d y)) as Hgo.
  { intros y m2 id2 s2 -> Hy Hs2 Hu2 Ht2 Hf2 Hn2. split; [done|]. split_and!.
    - exists id2, s2, (accumulated id2 a' (current_seqno v + 1) u). cbn. by rewrite lookup_insert_eq.
    - intros a k place Hne (i & s1 & u1 & Hi & <- & Hk & Ho1 & Hp). exists i, s1, u1. cbn. rewrite lookup_insert_ne by done. split_and!; try done.
      rewrite Hf2; [done|intros ->; congruence|]. intros ->. destruct (decide (id2 = id)) as [->|Hx2]; [congruence|]. destruct (Hn2 Hx2). congruence.
    - intros Hused i s1 Hi. cbn in Hi. destruct (decide (i = id2)) as [->|Hi2]; [assert (s1 = s2) as -> by congruence; rewrite Hu2; by apply (Hused id)|].
      destruct (decide (i = id)) as [->|Hi3]; [destruct (Hn2 ltac:(congruence)); congruence|]. apply (Hused i). by rewrite <-Hf2. }
  destruct action; cbn [obind].
  - eexists _, (accumulated id a' (us_expected_seqno_ u) u). split; [by rewrite Huid|]. split; [cbn; apply lookup_insert_eq|]. split; [done|]. split; [done|].
    cbv zeta. change (objects x) with (objects (set_map m' x)). fold (accumulated id a' (us_expected_seqno_ u) u).
    rewrite placed_accumulated; [|lia|destruct Hext; lia|done]. apply (Hgo _ m' id s'); try done.
    + apply (moved_ok shard d x m' id s id s' u); try done; [intros i Hi; by apply Hfr, (mk_ids _ _ _ Hx)|by intros; apply Hf|].
      exists false. unfold s'. cbn [accumulated us_expected_seqno_ expected_seqno_ set_expected]. rewrite wrap_small by (unfold fits; lia). split_and!; [done|lia|lia|done].
    + intros i Hi _. by apply Hf.
  - destruct (NextUpstreamID_core shard (set_map m' x) (mk_step _ _ _ Hx) (proj1 (mk_next _ _ _ Hx)) Hsh Hroom) as (new & al & E & Hal & Hna & Hnew).
    rewrite E. cbn [obind set_map set_allocator subscriptions_map_]. cbn in Hal, Hna. pose proof (Hfr new (mk_ids _ _ _ Hx new Hna)) as Hfresh.
    destruct (Rewind_ok m' id new 0 s' Hm' Hid Hfresh) as (m2 & E2 & Hm2 & _ & Hn2 & Hs2 & _ & Hf2). rewrite E2. cbn [obind].
    assert (new <> id) as Hne by (intros ->; destruct (mk_ids _ _ _ Hx id Hna); congruence).
    set (x3 := set_map m2 (set_allocator al x)).
    exists (set_objects (<[user_data_ s := accumulated new a' (us_expected_seqno_ u) u]> (objects x3)) x3), (accumulated new a' (us_expected_seqno_ u) u).
    split; [reflexivity|]. split; [cbn; apply lookup_insert_eq|]. split; [done|]. split; [done|].
    cbv zeta.
    rewrite placed_accumulated; [|lia|destruct Hext; lia|done]. apply (Hgo _ m2 new (rewound new 0 s')); try done.
    + assert (mux_ok shard d (set_allocator al x)) as Hx1 by (rewrite Hal; apply set_allocator_ok; [done|destruct Hroom; lia]).
      apply (moved_ok shard d (set_allocator al x) m2 id s new (rewound new 0 s') u); try done.
      * intros i Hi. apply (brings_fresh m' (DoRewind id new 0) m2 i Hm' (conj (ex_intro _ s' Hid) Hfresh) E2); [cbn; intros ->; done|].
        apply Hfr. by apply (mk_ids _ _ _ Hx1).
      * intros _. split; [|done]. destruct (mk_ids _ _ _ Hx new Hna). done.
      * intros i Hi Hi2. cbn. rewrite Hf2 by done. by apply Hf.
      * exists true. cbn [accumulated us_expected_seqno_]. split_and!; [done|lia|lia|done].
    + intros i Hi Hi2. rewrite Hf2 by done. by apply Hf.
    + intros _. split; [done|]. destruct (mk_ids _ _ _ Hx new Hna). done.
Qed.
End Mux.
