(* ===== verification/ProxyFacts.v ===== *)
(** * The upstream worker of the proxy

    Views of the worker of ProxyWorker.v, its invariant (every shard has a
    well-formed multiplexer whose subscriptions are those of the streams on it),
    what a step does to the clients ([step_ok], [step_new]), and a lemma for each
    handler. *)

From S2P Require Import Prelude Coding CodingFacts SubscriptionId IdAllocator Messages MessagesFacts SubscriptionsMap ClientFacts ResilientReceiver ProxyWorker ProxyMux.

#[local] Open Scope outcome_scope.

(** ** Views of the worker *)

Section Views.
Context {A : Type}.
Implicit Types w : UpstreamWorker A.

(** The object of a downstream subscription. *)
Definition entry w (st sub : Z) : option Z := streams_ w !! st ≫= fun ps => downstream_to_upstream_ ps !! sub.

Definition home w (st : Z) : option Z := per_shard_ <$> streams_ w !! st.

(** The same for the streams of one shard. *)
Definition down_of w (sh st sub : Z) : option Z := if decide (home w st = Some sh) then entry w st sub else None.

Definition says w (es : list ProxyEvent) : UpstreamWorker A := {| streams_ := streams_ w; shard_cache_ := shard_cache_ w; out := out w ++ es |}.

Lemma says_nil w : says w [] = w.
Proof. destruct w. unfold says. cbn. by rewrite app_nil_r. Qed.

Lemma says_says w es es' : says (says w es) es' = says w (es ++ es').
Proof. unfold says. cbn. by rewrite app_assoc. Qed.

(** The updates sent to a downstream subscription. *)
Definition sent_one (st sub : Z) (e : ProxyEvent) : option Update :=
  match e with
  | ToDownstream _ st' (DeliverData data) => if decide (st' = st /\ deliver_sub_id_ (ddata_deliver data) = sub) then Some (data_update data) else None
  | _ => None
  end.

Definition sent (st sub : Z) (es : list ProxyEvent) : list Update := omap (sent_one st sub) es.

Lemma sent_updates_app st sub es es' : sent st sub (es ++ es') = sent st sub es ++ sent st sub es'.
Proof. apply omap_app. Qed.
End Views.

Section Messages.
Context {A : Type} `{UpdatesAccumulator A} (options : ProxyOptions A).
Implicit Types w : UpstreamWorker A.

(** A stream of the downstream event loop. *)
Definition stream_ok (st : Z) : Prop := exists i, map_id (stream_to_id_ options) st = Ok i /\ i < num_downstream_threads options.

Lemma copied_ok m : Message_ok m -> received m = m -> copied m = Ok m.
Proof. intros Hm Hr. destruct (Serialize_received m Hm) as (b & Hs & Hc). unfold copied, Copy. rewrite Hs. cbn [obind]. by rewrite Hc, Hr. Qed.

(** A deliver message passes through the stream of the client. *)
Lemma ReceiveFromMultiplexer_data w st m d : is_Some (streams_ w !! st) -> stream_ok st -> deliver_of m = Some d ->
  exists i, ReceiveFromMultiplexer options w st m = Ok (says w [ToDownstream i st m]).
Proof.
  intros [ps Hps] (i & Hi & Hn) Hm. exists i. unfold ReceiveFromMultiplexer, the_stream. rewrite Hps. cbn [obind].
  assert (UpstreamWorker_ReceiveFromStream options w st m = Ok (says w [ToDownstream i st m])) as Hgo.
  { unfold UpstreamWorker_ReceiveFromStream. rewrite Hi. cbn [obind]. rewrite (proj2 (Z.ltb_lt _ _) Hn). cbn [assert_that obind]. by destruct m. }
  destruct m; try done; cbn [assert_that obind]; exact Hgo.
Qed.

Definition data_message (tenant sub : Z) (id : list byte) (u : Update) : Message :=
  DeliverData {| ddata_deliver := {| deliver_base := {| type_ := MessageType.mDeliverData; tenantid_ := tenant |}; deliver_sub_id_ := sub;
                                     deliver_seqno_prev_ := prev_seqno u; deliver_seqno_ := current_seqno u |};
                 message_id_ := id; ddata_payload_ := contents u |}.

Lemma data_message_ok tenant sub id u : fits 16 tenant -> fits 64 sub -> length id = 16%nat -> update_ok u -> Message_ok (data_message tenant sub id u).
Proof.
  intros Ht Hs Hid (Hc & Hp & Hq). assert (base_ok MessageType.mDeliverData {| type_ := MessageType.mDeliverData; tenantid_ := tenant |}) as Hb by (by split_and!).
  split; [|done]. split; [exact Hb|]. cbn [deliver_sub_id_ ddata_deliver deliver_seqno_prev_ deliver_seqno_]. split; [done|]. unfold fits. lia.
Qed.

Lemma bootstrap_loop_ok w st sub tenant ups : is_Some (streams_ w !! st) -> stream_ok st -> fits 64 sub -> fits 16 tenant -> Forall update_ok ups ->
  exists es, bootstrap_loop options w st sub tenant ups = Ok (says w es) /\ sent st sub es = ups /\
    forall st' sub', (st', sub') <> (st, sub) -> sent st' sub' es = [].
Proof.
  intros Hps Hst Hsub Hten Hups. revert w Hps. induction Hups as [|u ups Hu Hups IH]; intros w Hps; cbn [bootstrap_loop].
  { exists []. by rewrite says_nil. }
  unfold NewDeliverData, deliver_header. pose proof Hu as (_ & Hp & Hq). rewrite (proj2 (Z.leb_le _ _)) by lia. cbn [assert_that obind].
  pose proof (data_message_ok tenant sub MsgId0 u Hten Hsub eq_refl Hu) as Hm. unfold data_message in Hm. rewrite (copied_ok _ Hm eq_refl). cbn [obind].
  fold (data_message tenant sub MsgId0 u).
  destruct (ReceiveFromMultiplexer_data w st (data_message tenant sub MsgId0 u) _ Hps Hst eq_refl) as (i & ->). cbn [obind].
  destruct (IH (says w [ToDownstream i st (data_message tenant sub MsgId0 u)]) Hps) as (es & -> & He & Ho). rewrite says_says. eexists. split; [reflexivity|]. split.
  - rewrite sent_updates_app, He. cbn. rewrite decide_True by done. by destruct u.
  - intros st' sub' Hne. rewrite sent_updates_app, Ho by done. cbn. rewrite decide_False; [done|]. intros [-> ->]. done.
Qed.

Lemma broadcast_data_ok w entries data : NoDup entries -> MessageDeliverData_ok data ->
  (forall st sub, (st, sub) ∈ entries -> is_Some (streams_ w !! st) /\ stream_ok st /\ fits 64 sub) ->
  exists es, broadcast options w entries (DeliverData data) = Ok (says w es) /\
    forall st sub, sent st sub es = if decide ((st, sub) ∈ entries) then [data_update data] else [].
Proof.
  intros Hnd Hdata. revert w. induction Hnd as [|[st sub] entries Hnin Hnd IH]; intros w Hall; cbn [broadcast].
  { exists []. rewrite says_nil. split; [done|]. intros st sub. by rewrite decide_False by set_solver. }
  destruct (Hall st sub ltac:(by left)) as (Hps & Hst & Hsub). pose proof Hdata as ((Hb & _ & Hp & Hq & Hle) & Hid & Hsl).
  assert (Message_ok (set_sub_id sub (DeliverData data))) as Hm by (split_and!; cbn; try done).
  rewrite (copied_ok _ Hm eq_refl). cbn [obind]. destruct (ReceiveFromMultiplexer_data w st (set_sub_id sub (DeliverData data)) _ Hps Hst eq_refl) as (i & ->). cbn [obind].
  destruct (IH (says w [ToDownstream i st (set_sub_id sub (DeliverData data))])) as (es & -> & Hes); [intros st' sub' Hin; apply Hall; by right|].
  rewrite says_says. eexists. split; [reflexivity|]. intros st' sub'. rewrite sent_updates_app, Hes. cbn.
  destruct (decide ((st', sub') = (st, sub))) as [Heq|Hne].
  - injection Heq as -> ->. rewrite (decide_True (P := st = st /\ sub = sub)) by done. rewrite decide_False by done. by rewrite decide_True by (by left).
  - rewrite (decide_False (P := st = st' /\ sub = sub')) by (intros [-> ->]; done). cbn [app].
    apply decide_ext. rewrite elem_of_cons. naive_solver.
Qed.

Lemma ReceiveFromMultiplexer_unsubscribe w st u ps a : streams_ w !! st = Some ps -> downstream_to_upstream_ ps !! unsub_sub_id_ u = Some a -> stream_ok st ->
  exists i, ReceiveFromMultiplexer options w st (Messages.Unsubscribe u) =
    Ok (says (set_streams (<[st := set_subscriptions (delete (unsub_sub_id_ u) (downstream_to_upstream_ ps)) ps]> (streams_ w)) w) [ToDownstream i st (Messages.Unsubscribe u)]).
Proof.
  intros Hps Ha (i & Hi & Hn). exists i. unfold ReceiveFromMultiplexer, the_stream. rewrite Hps. cbn [obind assert_that]. rewrite Ha.
  rewrite bool_decide_eq_true_2 by (by eexists). cbn [assert_that obind]. unfold UpstreamWorker_ReceiveFromStream. rewrite Hi. cbn [obind].
  by rewrite (proj2 (Z.ltb_lt _ _) Hn).
Qed.

(** The end of subscriptions is passed on, and their entries are removed. *)
Lemma broadcast_unsubscribe_ok w entries u : NoDup entries -> MessageUnsubscribe_ok u ->
  (forall st sub, (st, sub) ∈ entries -> is_Some (entry w st sub) /\ stream_ok st /\ fits 64 sub) ->
  exists w' es, broadcast options w entries (Messages.Unsubscribe u) = Ok w' /\ shard_cache_ w' = shard_cache_ w /\ out w' = out w ++ es /\
    (forall st sub, sent st sub es = []) /\ (forall st, home w' st = home w st) /\
    forall st sub, entry w' st sub = if decide ((st, sub) ∈ entries) then None else entry w st sub.
Proof.
  intros Hnd Hu. revert w. induction Hnd as [|[st sub] entries Hnin Hnd IH]; intros w Hall; cbn [broadcast].
  { exists w, []. rewrite app_nil_r. by split_and!. }
  destruct (Hall st sub ltac:(by left)) as ([a Ha] & Hst & Hsub). unfold entry in Ha. destruct (streams_ w !! st) as [ps|] eqn:Eps; [|done]. cbn in Ha.
  destruct Hu as (Hb & Hid & Hr). assert (Message_ok (set_sub_id sub (Messages.Unsubscribe u))) as Hm by (split_and!; cbn; try done).
  rewrite (copied_ok _ Hm eq_refl). cbn [obind set_sub_id].
  destruct (ReceiveFromMultiplexer_unsubscribe w st {| unsub_base := unsub_base u; unsub_sub_id_ := sub; reason_ := reason_ u |} ps a Eps Ha Hst) as (i & ->). cbn [obind].
  set (w1 := says _ _).
  assert (forall st', home w1 st' = home w st') as Hh1.
  { intros st'. unfold home, w1. cbn. destruct (decide (st' = st)) as [->|Hne]; [by rewrite lookup_insert_eq, Eps|by rewrite lookup_insert_ne]. }
  assert (forall st' sub', entry w1 st' sub' = if decide ((st', sub') = (st, sub)) then None else entry w st' sub') as He1.
  { intros st' sub'. unfold entry, w1. cbn. destruct (decide (st' = st)) as [->|Hne].
    - rewrite lookup_insert_eq, Eps. cbn. destruct (decide (sub' = sub)) as [->|Hne].
      + by rewrite lookup_delete_eq, decide_True.
      + rewrite lookup_delete_ne, decide_False; [done| |done]. by intros [= ->].
    - rewrite lookup_insert_ne, decide_False; [done| |done]. by intros [= ->]. }
  destruct (IH w1) as (w' & es & -> & Hsh & Ho & Hs & Hh & He).
  { intros st' sub' Hin. destruct (Hall st' sub' ltac:(by right)) as (Hi' & Hst' & Hsub'). split_and!; try done. rewrite He1, decide_False; [done|]. intros [= -> ->]. done. }
  exists w', (ToDownstream i st (Messages.Unsubscribe {| unsub_base := unsub_base u; unsub_sub_id_ := sub; reason_ := reason_ u |}) :: es).
  split_and!; [done|by rewrite Hsh|by rewrite Ho; cbn; rewrite <-app_assoc|done|intros st'; by rewrite Hh|].
  intros st' sub'. rewrite He, He1. destruct (decide ((st', sub') ∈ entries)) as [Hin|Hnin']; [by rewrite decide_True by (by right)|].
  apply decide_ext. rewrite elem_of_cons. tauto.
Qed.
End Messages.

(** ** The invariant *)

Section Invariant.
Context {A : Type} `{AccumulatorLaws A} (options : ProxyOptions A) (P : slice * slice -> Update -> Prop).
Hypothesis P_ok : forall k u, P k u -> update_ok u.
Hypothesis accumulator_new : forall ns topic, accumulates (P (ns, topic)) (accumulator options ns topic) 0 false.
Implicit Types w : UpstreamWorker A.

Record worker_ok w : Prop := {
  wk_shard : forall sh S, shard_cache_ w !! sh = Some S ->
    fits 32 sh /\ mux_ok P sh (down_of w sh) (multiplexer_ S) /\ all_used (down_of w sh) (multiplexer_ S) /\ streams_on_shard_ S <> ∅;
  wk_members : forall sh S st, shard_cache_ w !! sh = Some S -> st ∈ streams_on_shard_ S <-> home w st = Some sh;
  wk_home : forall st sh, home w st = Some sh -> is_Some (shard_cache_ w !! sh) /\ stream_ok options st;
  wk_ids : forall st sub a, entry w st sub = Some a -> fits 64 sub
}.

(** A downstream subscription with its topic and its place. *)
Definition serves w (st sub : Z) (k : slice * slice) (place : Z) : Prop := exists sh S a,
  home w st = Some sh /\ entry w st sub = Some a /\ shard_cache_ w !! sh = Some S /\ lives (multiplexer_ S) a k place.

(** A step that serves no new subscription: one that is still served is on the same
    topic, and the updates sent to it bring it to its new place. *)
Record step_ok w w' (es : list ProxyEvent) : Prop := {
  st_ok : worker_ok w';
  st_out : out w' = out w ++ es;
  st_none : forall st sub, entry w st sub = None -> entry w' st sub = None;
  st_keep : forall st sub k place, serves w st sub k place -> entry w' st sub = None \/
    exists place', serves w' st sub k place' /\ Forall (P k) (sent st sub es) /\ brings_from (sent st sub es) place place'
}.

Lemma step_ok_trans w w1 w2 es1 es2 : step_ok w w1 es1 -> step_ok w1 w2 es2 -> step_ok w w2 (es1 ++ es2).
Proof.
  intros [H1 Ho1 Hn1 Hk1] [H2 Ho2 Hn2 Hk2]. split; [done|by rewrite Ho2, Ho1, app_assoc|by intros; apply Hn2, Hn1|].
  intros st sub k place Hs. destruct (Hk1 st sub k place Hs) as [Hn|(p1 & Hs1 & HP1 & Hb1)]; [left; by apply Hn2|].
  destruct (Hk2 st sub k p1 Hs1) as [Hn|(p2 & Hs2 & HP2 & Hb2)]; [by left|right]. exists p2. rewrite sent_updates_app. split_and!; [done|by apply Forall_app|].
  by apply (brings_from_app _ _ _ p1).
Qed.

(** Nothing changes but what is said to others than subscriptions. *)
Lemma says_ok w es : worker_ok w -> (forall st sub, is_Some (entry w st sub) -> sent st sub es = []) -> step_ok w (says w es) es.
Proof.
  intros Hw Hes. split; [|done|done|].
  - destruct Hw as [H1 H2 H3 H4]. split; done.
  - intros st sub k place Hs. right. exists place. rewrite Hes by (destruct Hs as (? & ? & a & _ & Ha & _); by exists a).
    split_and!; [done|done|apply brings_from_nil].
Qed.

Lemma serves_unique w st sub k place k' place' : worker_ok w -> serves w st sub k place -> serves w st sub k' place' -> k = k' /\ place = place'.
Proof.
  intros Hw (sh & S & a & Hh & He & Hs & Hl) (sh' & S' & a' & Hh' & He' & Hs' & Hl'). assert (sh' = sh) as -> by congruence. assert (S' = S) as -> by congruence.
  assert (a' = a) as -> by congruence. destruct (wk_shard _ Hw sh S Hs) as (_ & Hx & _). by apply (lives_unique P sh _ _ a k place k' place' Hx).
Qed.

Lemma entry_serves w st sub a : worker_ok w -> entry w st sub = Some a -> exists k place, serves w st sub k place.
Proof.
  intros Hw He. assert (exists sh, home w st = Some sh) as [sh Hh]. { unfold entry, home in *. destruct (streams_ w !! st) as [ps|]; [by eexists|done]. }
  destruct (proj1 (wk_home _ Hw st sh Hh)) as [S HS]. destruct (wk_shard _ Hw sh S HS) as (_ & Hx & _).
  destruct (down_lives P sh _ _ st sub a Hx) as (k & place & Hl); [unfold down_of; by rewrite decide_True|]. exists k, place, sh, S, a. done.
Qed.

(** A change of the multiplexer of one shard, and of entries. *)
Definition with_mux (S : PerShard A) (x : Multiplexer A) : PerShard A :=
  {| router_version_ := router_version_ S; host_ := host_ S; streams_on_shard_ := streams_on_shard_ S; multiplexer_ := x |}.

Lemma put_multiplexer_ok w sh S x : shard_cache_ w !! sh = Some S -> put_multiplexer w sh x = Ok (set_shards (<[sh := with_mux S x]> (shard_cache_ w)) w).
Proof. intros HS. unfold put_multiplexer, the_shard. by rewrite HS. Qed.

Lemma worker_ok_mux w w' sh S S1 : worker_ok w -> shard_cache_ w !! sh = Some S ->
  shard_cache_ w' = <[sh := S1]> (shard_cache_ w) -> streams_on_shard_ S1 = streams_on_shard_ S -> (forall st, home w' st = home w st) ->
  (forall st sub, home w st <> Some sh -> entry w' st sub = entry w st sub) ->
  (forall st sub a, entry w' st sub = Some a -> fits 64 sub) ->
  mux_ok P sh (down_of w' sh) (multiplexer_ S1) -> all_used (down_of w' sh) (multiplexer_ S1) -> worker_ok w'.
Proof.
  intros [H1 H2 H3 H4] HS Hsh Hon Hh He Hids Hx Hu. split.
  - intros sh' S'. rewrite Hsh, lookup_insert_Some. intros [[<- <-]|[Hne HS']].
    + destruct (H1 sh S HS) as (Hf & _ & _ & Hne). rewrite <-Hon in Hne. exact (conj Hf (conj Hx (conj Hu Hne))).
    + destruct (H1 sh' S' HS') as (? & Hx' & Hu' & ?).
      assert (forall st sub, down_of w sh' st sub = down_of w' sh' st sub) as Hd.
      { intros st sub. unfold down_of. rewrite Hh. case_decide as Hq; [|done]. symmetry. apply He. congruence. }
      split_and!; try done; [by apply (mux_ok_ext P sh' _ _ _ Hd)|]. intros id s Hs. destruct (Hu' id s Hs) as (st & sub & Hq). exists st, sub. by rewrite <-Hd.
  - intros sh' S' st. rewrite Hsh, Hh, lookup_insert_Some. intros [[<- <-]|[Hne HS']]; [rewrite Hon; exact (H2 sh S st HS)|exact (H2 sh' S' st HS')].
  - intros st sh'. rewrite Hh, Hsh. intros Hq. destruct (H3 st sh' Hq) as [Hi ?]. split; [|done]. destruct (decide (sh' = sh)) as [->|Hne].
    + by rewrite lookup_insert_eq.
    + by rewrite lookup_insert_ne.
  - done.
Qed.

(** ** The end of a stream *)

Definition cut (d : Z -> Z -> option Z) (st : Z) (subs : list Z) : Z -> Z -> option Z :=
  fun st' sub' => if decide (st' = st /\ sub' ∈ subs) then None else d st' sub'.

Lemma with_mux_id w sh S : shard_cache_ w !! sh = Some S -> set_shards (<[sh := with_mux S (multiplexer_ S)]> (shard_cache_ w)) w = w.
Proof. intros HS. destruct w as [streams shards o]. destruct S. unfold set_shards, with_mux. cbn in *. by rewrite insert_id. Qed.

Lemma unsubscribe_all_ok w sh S d st subs : shard_cache_ w !! sh = Some S -> mux_ok P sh d (multiplexer_ S) -> all_used d (multiplexer_ S) ->
  NoDup subs.*1 -> (forall sub a, (sub, a) ∈ subs -> d st sub = Some a) ->
  exists x', unsubscribe_all w sh st subs = Ok (set_shards (<[sh := with_mux S x']> (shard_cache_ w)) w) /\
    mux_ok P sh (cut d st subs.*1) x' /\ all_used (cut d st subs.*1) x' /\
    (forall a k place st' sub', lives (multiplexer_ S) a k place -> cut d st subs.*1 st' sub' = Some a -> lives x' a k place).
Proof.
  revert w S d. induction subs as [|[sub a] subs IH]; intros w S d HS Hx Hu Hnd Hall; cbn [unsubscribe_all fmap list_fmap fst] in *.
  { exists (multiplexer_ S). rewrite with_mux_id by done.
    assert (forall st' sub', d st' sub' = cut d st [] st' sub') as Hd by (intros; unfold cut; rewrite decide_False; [done|set_solver]).
    split_and!; [done|by apply (mux_ok_ext P sh d)| |done]. intros id s Hs. destruct (Hu id s Hs) as (st' & sub' & Hq). exists st', sub'. by rewrite <-Hd. }
  apply NoDup_cons in Hnd as [Hnin Hnd]. pose proof (Hall sub a ltac:(by left)) as Hda.
  unfold Multiplexer_Unsubscribe, the_shard. rewrite HS. cbn [obind].
  destruct (drop_downstream_ok options P P_ok accumulator_new sh d _ st sub a Hx Hda) as (x1 & -> & Hx1 & Hu1 & _ & Hl1). cbn [obind].
  rewrite (put_multiplexer_ok w sh S x1 HS). cbn [obind]. set (w1 := set_shards _ w).
  destruct (IH w1 (with_mux S x1) (upd d st sub None)) as (x' & -> & Hx' & Hu' & Hl').
  - apply lookup_insert_eq.
  - done.
  - by apply Hu1.
  - done.
  - intros sub' a' Hin. unfold upd. rewrite decide_False; [apply Hall; by right|]. intros [= ->]. apply Hnin. apply list_elem_of_fmap. by exists (sub, a').
  - exists x'. assert (forall st' sub', cut (upd d st sub None) st subs.*1 st' sub' = cut d st (sub :: subs.*1) st' sub') as Hd.
    { intros st' sub'. unfold cut, upd. repeat case_decide; try done; set_solver. }
    split_and!; [unfold w1, set_shards; cbn; by rewrite insert_insert_eq|by apply (mux_ok_ext P sh _ _ _ Hd)| |].
    + intros id s Hs. destruct (Hu' id s Hs) as (st' & sub' & Hq). exists st', sub'. by rewrite <-Hd.
    + intros a' k place st' sub' Hl Hq. apply (Hl' a' k place st' sub'); [|by rewrite Hd]. apply (Hl1 a' k place st' sub'); [done|].
      rewrite <-Hd in Hq. unfold cut in Hq. by case_decide.
Qed.

Lemma PerStream_CleanupState_ok w st : worker_ok w -> is_Some (streams_ w !! st) ->
  exists w' es, PerStream_CleanupState w st = Ok w' /\ step_ok w w' es /\ (forall sub, entry w' st sub = None) /\ (forall st', home w' st' = home w st') /\
    (forall st' sub, sent st' sub es = []).
Proof.
  intros Hw [ps Hps]. unfold PerStream_CleanupState, the_stream. rewrite Hps. cbn [obind]. cbv zeta.
  set (es := if upstream_ ps then [Closed st] else []). set (sh := per_shard_ ps).
  set (ps' := {| per_shard_ := sh; upstream_ := false; downstream_to_upstream_ := ∅ |}).
  assert (set_streams (<[st := ps']> (streams_ (if upstream_ ps then emit (Closed st) w else w))) (if upstream_ ps then emit (Closed st) w else w) =
    says (set_streams (<[st := ps']> (streams_ w)) w) es) as -> by (unfold es; destruct (upstream_ ps); [done|by rewrite says_nil]).
  set (w1 := says _ es). assert (home w st = Some sh) as Hh by (unfold home; by rewrite Hps).
  destruct (proj1 (wk_home _ Hw st sh Hh)) as [S HS]. destruct (wk_shard _ Hw sh S HS) as (Hfit & Hx & Hu & Hne).
  assert (forall st', home w1 st' = home w st') as Hh1.
  { intros st'. unfold home, w1. cbn. destruct (decide (st' = st)) as [->|Hne']; [by rewrite lookup_insert_eq, Hps|by rewrite lookup_insert_ne]. }
  assert (forall st' sub, entry w1 st' sub = if decide (st' = st) then None else entry w st' sub) as He1.
  { intros st' sub. unfold entry, w1. cbn. destruct (decide (st' = st)) as [->|Hne']; [by rewrite lookup_insert_eq|by rewrite lookup_insert_ne]. }
  destruct (unsubscribe_all_ok w1 sh S (down_of w sh) st (map_to_list (downstream_to_upstream_ ps))) as (x' & E & Hx' & Hu' & Hl'); try done.
  { apply NoDup_fst_map_to_list. }
  { intros sub a Ha%elem_of_map_to_list. unfold down_of, entry. rewrite decide_True by done. by rewrite Hps. }
  rewrite E. set (w2 := set_shards _ w1). exists w2, es.
  assert (forall st' sub', cut (down_of w sh) st (map_to_list (downstream_to_upstream_ ps)).*1 st' sub' = down_of w2 sh st' sub') as Hd.
  { intros st' sub'. unfold cut, down_of. change (home w2 st') with (home w1 st'). change (entry w2 st' sub') with (entry w1 st' sub'). rewrite Hh1, He1.
    destruct (decide (st' = st)) as [->|Hne']; [|by rewrite decide_False by naive_solver]. destruct (decide (sub' ∈ (map_to_list (downstream_to_upstream_ ps)).*1)) as [Hin|Hnin].
    - rewrite decide_True by done. by case_decide.
    - rewrite decide_False by naive_solver. rewrite !decide_True by done. unfold entry. rewrite Hps. cbn.
      destruct (downstream_to_upstream_ ps !! sub') as [a|] eqn:Ea; [|done]. exfalso. apply Hnin. apply list_elem_of_fmap. exists (sub', a). split; [done|by apply elem_of_map_to_list]. }
  assert (forall st' sub, sent st' sub es = []) as Hes by (unfold es; by destruct (upstream_ ps)).
  split; [done|]. split; [split|].
  - apply (worker_ok_mux w w2 sh S (with_mux S x')); try done.
    + intros st' sub' Hne'. change (entry w2 st' sub') with (entry w1 st' sub'). rewrite He1, decide_False; [done|]. intros ->. done.
    + intros st' sub' a. change (entry w2 st' sub') with (entry w1 st' sub'). rewrite He1. case_decide; [done|]. apply (wk_ids _ Hw).
    + by apply (mux_ok_ext P sh _ _ _ Hd).
    + intros id s Hs. destruct (Hu' id s Hs) as (st' & sub' & Hq). exists st', sub'. by rewrite <-Hd.
  - done.
  - intros st' sub' Hn. change (entry w2 st' sub') with (entry w1 st' sub'). rewrite He1. by case_decide.
  - intros st' sub' k place (sh' & S' & a & Hh' & Ha & HS' & Hl). change (entry w2 st' sub') with (entry w1 st' sub'). rewrite He1.
    destruct (decide (st' = st)) as [->|Hne']; [by left|right]. exists place. rewrite Hes. split_and!; [|done|apply brings_from_nil].
    destruct (decide (sh' = sh)) as [->|Hsh].
    + assert (S' = S) as -> by congruence. exists sh, (with_mux S x'), a. split_and!; [exact (eq_trans (Hh1 st') Hh')|exact (eq_trans (He1 st' sub') ltac:(by rewrite decide_False))|apply lookup_insert_eq|].
      apply (Hl' a k place st' sub' Hl). rewrite Hd. unfold down_of. change (home w2 st') with (home w1 st'). rewrite Hh1, decide_True by done.
      change (entry w2 st' sub') with (entry w1 st' sub'). by rewrite He1, decide_False.
    + exists sh', S', a. split_and!; [exact (eq_trans (Hh1 st') Hh')|exact (eq_trans (He1 st' sub') ltac:(by rewrite decide_False))| |done].
      cbn. by rewrite lookup_insert_ne.
  - split_and!; [|done|done]. intros sub. exact (eq_trans (He1 st sub) ltac:(by rewrite decide_True)).
Qed.

(** A stream without subscriptions goes, perhaps with its shard. *)
Lemma CleanupState_ok w st : worker_ok w -> is_Some (home w st) -> (forall sub, entry w st sub = None) ->
  exists w', CleanupState w st = Ok w' /\ step_ok w w' [] /\ home w' st = None.
Proof.
  intros Hw [sh Hh] Hno. pose proof Hw as [H1 H2 H3 H4]. destruct (proj1 (H3 st sh Hh)) as [S HS]. destruct (H1 sh S HS) as (Hfit & Hx & Hu & Hne).
  unfold CleanupState, the_stream, the_shard. assert (exists ps, streams_ w !! st = Some ps /\ per_shard_ ps = sh) as (ps & Hps & Hsh).
  { unfold home in Hh. destruct (streams_ w !! st) as [ps|]; [|done]. exists ps. split; [done|]. by injection Hh. }
  rewrite Hps. cbn [obind]. rewrite Hsh, HS. cbn [obind]. rewrite bool_decide_eq_true_2 by (by apply (H2 sh S)). cbn [assert_that obind streams_on_shard_ set_streams shard_cache_].
  set (rest := streams_on_shard_ S ∖ {[ st ]}). set (w1 := set_streams (delete st (streams_ w)) w).
  assert (forall w' : UpstreamWorker A, streams_ w' = delete st (streams_ w) -> (forall st', home w' st' = if decide (st' = st) then None else home w st') /\
    forall st' sub', entry w' st' sub' = entry w st' sub') as Hview.
  { intros w' E. split.
    - intros st'. unfold home. rewrite E. case_decide as Hd; [subst; by rewrite lookup_delete_eq|by rewrite lookup_delete_ne].
    - intros st' sub'. destruct (decide (st' = st)) as [->|Hd]; [rewrite Hno; unfold entry; rewrite E; by rewrite lookup_delete_eq|].
      unfold entry. rewrite E. by rewrite lookup_delete_ne. }
  assert (forall w' : UpstreamWorker A, streams_ w' = delete st (streams_ w) -> out w' = out w ->
    (forall sh' S', shard_cache_ w' !! sh' = Some S' -> exists S0, shard_cache_ w !! sh' = Some S0 /\ multiplexer_ S' = multiplexer_ S0 /\ streams_on_shard_ S' <> ∅ /\
       forall st', st' ∈ streams_on_shard_ S' <-> st' ∈ streams_on_shard_ S0 /\ st' <> st) ->
    (forall st' sh', st' <> st -> home w st' = Some sh' -> exists S0 S', shard_cache_ w !! sh' = Some S0 /\ shard_cache_ w' !! sh' = Some S' /\ multiplexer_ S' = multiplexer_ S0) ->
    step_ok w w' [] /\ home w' st = None) as Hgo.
  { intros w' E Ho Hback Hforth. destruct (Hview w' E) as [Hh' He']. split; [|by rewrite Hh', decide_True]. split.
    - split.
      + intros sh' S' HS'. destruct (Hback sh' S' HS') as (S0 & HS0 & -> & Hne' & _). destruct (H1 sh' S0 HS0) as (Hf0 & Hx0 & Hu0 & _).
        assert (forall st' sub', down_of w sh' st' sub' = down_of w' sh' st' sub') as Hd.
        { intros st' sub'. unfold down_of. rewrite Hh', He'. destruct (decide (st' = st)) as [->|Hq]; [|done]. rewrite Hno. by repeat case_decide. }
        split; [done|]. split; [by apply (mux_ok_ext P sh' _ _ _ Hd)|]. split; [|done]. intros id s Hs. destruct (Hu0 id s Hs) as (st' & sub' & Hq). exists st', sub'. by rewrite <-Hd.
      + intros sh' S' st' HS'. destruct (Hback sh' S' HS') as (S0 & HS0 & _ & _ & Hin). rewrite Hin, Hh', (H2 sh' S0 st' HS0). case_decide; naive_solver.
      + intros st' sh'. rewrite Hh'. case_decide as Hd; [done|]. intros Hq. destruct (Hforth st' sh' Hd Hq) as (_ & S' & _ & HS' & _).
        split; [by eexists|]. by apply (H3 st' sh').
      + intros st' sub' a. rewrite He'. apply H4.
    - by rewrite app_nil_r.
    - intros st' sub'. by rewrite He'.
    - intros st' sub' k place (sh' & S0 & a & Hq & Ha & HS0 & Hl). right. exists place. split_and!; [|done|apply brings_from_nil].
      assert (st' <> st) as Hd by (intros ->; rewrite Hno in Ha; done). destruct (Hforth st' sh' Hd Hq) as (S1 & S' & HS1 & HS' & Hm).
      exists sh', S', a. rewrite Hh', He', decide_False by done. split_and!; try done. rewrite Hm. by assert (S1 = S0) as -> by congruence. }
  destruct (decide (rest = ∅)) as [Hr|Hr]; (eexists; split; [reflexivity|]; apply Hgo; [done|done| |]); cbn.
  - intros sh' S' [Hne' HS']%lookup_delete_Some. exists S'. split_and!; [done|done|by apply (H1 sh' S')|]. intros st'. rewrite (H2 sh' S' st' HS'). split; [|tauto].
    intros Hq. split; [done|]. intros ->. congruence.
  - intros st' sh' Hd Hq. assert (sh' <> sh) as Hne'. { intros ->. apply (H2 sh S st' HS) in Hq. assert (st' ∈ rest) by set_solver. rewrite Hr in *. set_solver. }
    destruct (proj1 (H3 st' sh' Hq)) as [S0 HS0]. exists S0, S0. by rewrite lookup_delete_ne.
  - intros sh' S'. rewrite lookup_insert_Some. intros [[<- <-]|[Hne' HS']].
    + exists S. cbn. split_and!; [done|done|done|]. intros st'. unfold rest. set_solver.
    + exists S'. split_and!; [done|done|by apply (H1 sh' S')|]. intros st'. rewrite (H2 sh' S' st' HS'). split; [|tauto]. intros Hq. split; [done|]. intros ->. congruence.
  - intros st' sh' Hd Hq. destruct (decide (sh' = sh)) as [->|Hne'].
    + exists S. eexists. by rewrite lookup_insert_eq.
    + destruct (proj1 (H3 st' sh' Hq)) as [S0 HS0]. exists S0, S0. by rewrite lookup_insert_ne.
Qed.

Lemma home_stream w st : is_Some (home w st) <-> is_Some (streams_ w !! st).
Proof. apply fmap_is_Some. Qed.

Lemma step_ok_nil_r w w' w2 es : step_ok w w' es -> step_ok w' w2 [] -> step_ok w w2 es.
Proof. intros H1 H2. rewrite <-(app_nil_r es). by apply (step_ok_trans w w'). Qed.

Definition no_data (es : list ProxyEvent) : Prop := forall st sub, sent st sub es = [].

(** A goodbye from below closes the stream and is passed to the client. *)
Lemma close_ok w st g : worker_ok w -> is_Some (home w st) ->
  exists w' es, PerStream_ReceiveFromStream options w st (Goodbye g) = Ok w' /\ step_ok w w' es /\ home w' st = None.
Proof.
  intros Hw Hh. unfold PerStream_ReceiveFromStream. destruct (PerStream_CleanupState_ok w st Hw (proj1 (home_stream w st) Hh)) as (w1 & es1 & -> & Hs1 & He1 & Hh1 & _).
  cbn [obind]. unfold UpstreamWorker_ReceiveFromStream. rewrite <-Hh1 in Hh. pose proof (st_ok _ _ _ Hs1) as Hw1. pose proof Hh as [sh Hsh].
  destruct (proj2 (wk_home _ Hw1 st sh Hsh)) as (i & -> & Hn). cbn [obind]. rewrite (proj2 (Z.ltb_lt _ _) Hn). cbn [assert_that obind].
  assert (step_ok w1 (says w1 [ToDownstream i st (Goodbye g)]) [ToDownstream i st (Goodbye g)]) as Hs2 by (by apply says_ok).
  change (emit (ToDownstream i st (Goodbye g)) w1) with (says w1 [ToDownstream i st (Goodbye g)]).
  destruct (CleanupState_ok (says w1 [ToDownstream i st (Goodbye g)]) st (st_ok _ _ _ Hs2) Hh He1) as (w' & -> & Hs3 & Hh3).
  eexists w', _. split_and!; [done| |done]. apply (step_ok_trans w w1); [exact Hs1|]. exact (step_ok_nil_r _ _ _ _ Hs2 Hs3).
Qed.

(** ** Messages of clients *)

(** Nothing that matters to subscriptions changes. *)
Lemma views_ok w w' es : worker_ok w -> shard_cache_ w' = shard_cache_ w -> (forall st, home w' st = home w st) -> (forall st sub, entry w' st sub = entry w st sub) ->
  out w' = out w ++ es -> no_data es -> step_ok w w' es.
Proof.
  intros Hw Hsh Hh He Ho Hes. assert (forall sh st sub, down_of w sh st sub = down_of w' sh st sub) as Hd by (intros; unfold down_of; by rewrite Hh, He).
  destruct Hw as [H1 H2 H3 H4]. split; [split| | |].
  - intros sh S. rewrite Hsh. intros HS. destruct (H1 sh S HS) as (Hf & Hx & Hu & Hne). split; [done|]. split; [by apply (mux_ok_ext P sh _ _ _ (Hd sh))|].
    split; [|done]. intros id s Hs. destruct (Hu id s Hs) as (st & sub & Hq). exists st, sub. by rewrite <-Hd.
  - intros sh S st. rewrite Hsh, Hh. apply H2.
  - intros st sh. rewrite Hsh, Hh. apply H3.
  - intros st sub a. rewrite He. apply H4.
  - done.
  - intros st sub. by rewrite He.
  - intros st sub k place (sh & S & a & Hq & Ha & HS & Hl). right. exists place. rewrite Hes. split_and!; [|done|apply brings_from_nil].
    exists sh, S, a. by rewrite Hh, He, Hsh.
Qed.

(** Whether a message can be passed to the server on a stream of its own. *)
Definition upstream_available w (st : Z) (answers : Answers) : Prop :=
  exists ps, streams_ w !! st = Some ps /\ (upstream_ ps = true \/ OpensStream answers = true /\ exists S host, shard_cache_ w !! per_shard_ ps = Some S /\ host_ S = Some host).

Lemma open_upstream_ok w st answers : worker_ok w -> is_Some (home w st) ->
  exists w' es is_open, open_upstream options w st answers = Ok (w', is_open) /\ step_ok w w' es /\
    (is_open = true -> is_Some (home w' st)) /\ (upstream_available w st answers -> is_open = true).
Proof.
  intros Hw Hh. pose proof (proj1 (home_stream w st) Hh) as [ps Hps]. unfold open_upstream, the_stream, the_shard. rewrite Hps. cbn [obind].
  assert (home w st = Some (per_shard_ ps)) as Hhome by (unfold home; by rewrite Hps). destruct (proj1 (wk_home _ Hw st _ Hhome)) as [S HS].
  assert (exists w' es, ForceCloseStream options w st = Ok w' /\ step_ok w w' es) as (wc & esc & Ec & Hc).
  { destruct (close_ok w st {| goodbye_base := {| type_ := MessageType.mGoodbye; tenantid_ := GuestTenant |}; code_ := SocketError; origin_type_ := OriginServer |} Hw Hh) as (w' & es & E & Hs & _).
    by exists w', es. }
  destruct (upstream_ ps) eqn:Eu.
  { exists w, [], true. split_and!; try done. rewrite <-(says_nil w) at 2. by apply says_ok. }
  rewrite HS. cbn [obind]. destruct (host_ S) as [host|] eqn:Ehost; [destruct (OpensStream answers) eqn:Eo|]; rewrite ?Ec; cbn [obind].
  - eexists _, [Opened st host], true. split; [reflexivity|].
    assert (forall st', home (emit (Opened st host) (set_streams (<[st := set_upstream_ true ps]> (streams_ w)) w)) st' = home w st') as Hv.
    { intros st'. unfold home. cbn. destruct (decide (st' = st)) as [->|Hne]; [by rewrite lookup_insert_eq, Hps|by rewrite lookup_insert_ne]. }
    split_and!; [|by rewrite Hv|done]. apply views_ok; try done. intros st' sub'. unfold entry. cbn.
    destruct (decide (st' = st)) as [->|Hne]; [by rewrite lookup_insert_eq, Hps|by rewrite lookup_insert_ne].
  - exists wc, esc, false. split_and!; try done. intros (ps' & Hps' & [?|[? _]]); congruence.
  - exists wc, esc, false. split_and!; try done. intros (ps' & Hps' & [?|[_ (S' & host & HS' & ?)]]); congruence.
Qed.

Lemma forward_upstream_ok w st m answers : worker_ok w -> is_Some (home w st) -> is_goodbye m = false ->
  exists w' es, forward_upstream options w st m answers = Ok w' /\ step_ok w w' es.
Proof.
  intros Hw Hh Hm. unfold forward_upstream. destruct (open_upstream_ok w st answers Hw Hh) as (w1 & es1 & b & -> & Hs1 & _ & _). cbn [obind].
  destruct b; [|by exists w1, es1]. exists (says w1 [ToServer st m]), (es1 ++ [ToServer st m]). split; [by destruct m|].
  apply (step_ok_trans w w1); [done|]. apply says_ok; [by apply (st_ok _ _ _ Hs1)|done].
Qed.

(** A goodbye of a client that can be passed on. *)
Lemma forward_goodbye_ok w st g answers : worker_ok w -> upstream_available w st answers ->
  exists w' es, forward_upstream options w st (Goodbye g) answers = Ok w' /\ step_ok w w' es /\ is_Some (home w' st) /\ forall sub, entry w' st sub = None.
Proof.
  intros Hw Hav. assert (is_Some (home w st)) as Hh by (apply home_stream; destruct Hav as (ps & -> & _); by eexists).
  unfold forward_upstream. destruct (open_upstream_ok w st answers Hw Hh) as (w1 & es1 & b & -> & Hs1 & Hh1 & Hb). cbn [obind]. rewrite (Hb Hav) in *. specialize (Hh1 eq_refl).
  change (emit (ToServer st (Goodbye g)) w1) with (says w1 [ToServer st (Goodbye g)]). set (w2 := says w1 _).
  assert (step_ok w1 w2 [ToServer st (Goodbye g)]) as Hs2 by (apply says_ok; [by apply (st_ok _ _ _ Hs1)|done]).
  destruct (PerStream_CleanupState_ok w2 st (st_ok _ _ _ Hs2) (proj1 (home_stream w2 st) Hh1)) as (w3 & es3 & -> & Hs3 & He3 & Hh3 & _).
  eexists w3, _. split_and!; [done| |rewrite Hh3; exact Hh1|done]. apply (step_ok_trans w w1); [exact Hs1|]. exact (step_ok_trans _ _ _ _ _ Hs2 Hs3).
Qed.

Definition empty_multiplexer : Multiplexer A :=
  {| upstream_allocator_ := {| step_ := 1; next_ := 1 |}; subscriptions_map_ := NewSubscriptionsMap; topic_index_ := ∅; objects := ∅; next_address := 1 |}.

Lemma NewMultiplexer_ok : NewMultiplexer = Ok empty_multiplexer.
Proof. reflexivity. Qed.

Lemma empty_multiplexer_ok sh d : (forall st sub, d st sub = None) -> mux_ok P sh d empty_multiplexer /\ all_used d empty_multiplexer.
Proof.
  intros Hd. split; [|done]. split; cbn; [apply New_client_ok|done|lia|done|done|done|done|]. intros st sub a. rewrite Hd.
  split; [done|]. intros (id & s & u & Hs & _). done.
Qed.

(** A stream joins a shard, which is made if need be. *)
Record joins w (st sh : Z) (S : PerShard A) w' : Prop := {
  jn_home : forall st', home w' st' = if decide (st' = st) then Some sh else home w st';
  jn_entry : forall st' sub, entry w' st' sub = entry w st' sub;
  jn_shard : shard_cache_ w' !! sh = Some S;
  jn_others : forall sh', sh' <> sh -> shard_cache_ w' !! sh' = shard_cache_ w !! sh';
  jn_mux : multiplexer_ S = default empty_multiplexer (multiplexer_ <$> shard_cache_ w !! sh);
  jn_streams : streams_on_shard_ S = {[ st ]} ∪ default ∅ (streams_on_shard_ <$> shard_cache_ w !! sh)
}.

Lemma NewPerStream_joins w st sh S : streams_ w !! st = None -> shard_cache_ w !! sh = Some S -> (st ∉ streams_on_shard_ S) ->
  exists w' S', NewPerStream w st sh = Ok w' /\ joins w st sh S' w' /\ out w' = out w.
Proof.
  intros Hnone HS Hnin. unfold NewPerStream, the_shard. rewrite HS. cbn [obind]. rewrite bool_decide_eq_true_2 by done. cbn [assert_that obind].
  set (S' := {| router_version_ := router_version_ S |}). set (w' := set_streams _ _). exists w', S'. split_and!; [done| |done]. split.
  - intros st'. unfold home, w'. cbn. case_decide as Hd; [subst; by rewrite lookup_insert_eq|by rewrite lookup_insert_ne].
  - intros st' sub'. unfold entry, w'. cbn. destruct (decide (st' = st)) as [->|Hd]; [by rewrite lookup_insert_eq, Hnone|by rewrite lookup_insert_ne].
  - apply lookup_insert_eq.
  - intros sh' Hne. cbn. by rewrite lookup_insert_ne.
  - by rewrite HS.
  - by rewrite HS.
Qed.

(** Making a shard first gives the same. *)
Lemma joins_new_shard w w1 st sh S1 S w' : streams_ w1 = streams_ w -> shard_cache_ w !! sh = None -> shard_cache_ w1 = <[sh := S1]> (shard_cache_ w) ->
  multiplexer_ S1 = empty_multiplexer -> streams_on_shard_ S1 = ∅ -> joins w1 st sh S w' -> joins w st sh S w'.
Proof.
  intros Hst Hno Hs1 Hm Hss [H1 H2 H3 H4 H5 H6]. rewrite Hs1, lookup_insert_eq in H5, H6. cbn in H5, H6. rewrite Hm in H5. rewrite Hss in H6. split; try done.
  - intros st'. rewrite H1. unfold home. by rewrite Hst.
  - intros st' sub. rewrite H2. unfold entry. by rewrite Hst.
  - intros sh' Hne. by rewrite H4, Hs1, lookup_insert_ne.
  - by rewrite Hno.
  - by rewrite Hno.
Qed.

Lemma find_stream_joins w st q answers : worker_ok w -> home w st = None ->
  exists w' S es, find_stream options w st (Messages.Subscribe q) answers = Ok (Some w') /\
    joins w st (GetShard options (sub_namespace_id_ q) (sub_topic_name_ q)) S w' /\ out w' = out w ++ es /\ no_data es.
Proof.
  intros Hw Hh. unfold find_stream. assert (streams_ w !! st = None) as Hnone by (unfold home in Hh; by destruct (streams_ w !! st)). rewrite Hnone.
  set (sh := GetShard options _ _) in *. destruct (shard_cache_ w !! sh) as [S|] eqn:HS; cbn [obind].
  - destruct (NewPerStream_joins w st sh S Hnone HS) as (w' & S' & -> & Hj & Ho); [intros Hin%(wk_members _ Hw sh S st HS); congruence|].
    cbn [obind]. exists w', S', []. by rewrite app_nil_r.
  - unfold NewPerShard. rewrite NewMultiplexer_ok. cbn [obind]. set (S1 := {| router_version_ := GetVersion answers |}). set (w1 := emit _ _).
    destruct (NewPerStream_joins w1 st sh S1 Hnone) as (w' & S' & -> & Hj & Ho); [apply lookup_insert_eq|set_solver|].
    cbn [obind]. exists w', S', [ConnectsTo sh (GetHost answers)]. split_and!; [done| |done|done]. by apply (joins_new_shard w w1 st sh S1).
Qed.

Lemma joins_down w st sh S w' : home w st = None -> joins w st sh S w' -> forall sh' st' sub, down_of w sh' st' sub = down_of w' sh' st' sub.
Proof.
  intros Hh Hj sh' st' sub. unfold down_of. rewrite (jn_home _ _ _ _ _ Hj), (jn_entry _ _ _ _ _ Hj). destruct (decide (st' = st)) as [->|Hne]; [|done].
  assert (entry w st sub = None) as -> by (unfold entry; unfold home in Hh; by destruct (streams_ w !! st)). by repeat case_decide.
Qed.

Lemma joins_ok w st sh S w' : worker_ok w -> home w st = None -> stream_ok options st -> fits 32 sh -> joins w st sh S w' -> worker_ok w'.
Proof.
  intros Hw Hh Hst Hfit Hj. pose proof Hw as [H1 H2 H3 H4]. pose proof (joins_down w st sh S w' Hh Hj) as Hd. destruct Hj as [Jh Je Js Jo Jm Jss]. split.
  - intros sh' S'. destruct (decide (sh' = sh)) as [->|Hne].
    + rewrite Js. intros [= <-]. rewrite Jm. split; [done|]. assert (streams_on_shard_ S <> ∅) as HSne by (rewrite Jss; set_solver).
      destruct (shard_cache_ w !! sh) as [S0|] eqn:HS; cbn [fmap option_fmap option_map default from_option id].
      * destruct (H1 sh S0 HS) as (_ & Hx & Hu & _). split; [by apply (mux_ok_ext P sh _ _ _ (Hd sh))|]. split; [|done].
        intros id s Hs. destruct (Hu id s Hs) as (st' & sub' & Hq). exists st', sub'. by rewrite <-Hd.
      * destruct (empty_multiplexer_ok sh (down_of w' sh)) as [Hx Hu]; [|by split]. intros st' sub'. rewrite <-Hd. unfold down_of. case_decide as Hq; [|done].
        destruct (proj1 (H3 st' sh Hq)) as [S0 ?]. congruence.
    + rewrite Jo by done. intros HS'. destruct (H1 sh' S' HS') as (Hf & Hx & Hu & Hne'). split; [done|]. split; [by apply (mux_ok_ext P sh' _ _ _ (Hd sh'))|]. split; [|done].
      intros id s Hs. destruct (Hu id s Hs) as (st' & sub' & Hq). exists st', sub'. by rewrite <-Hd.
  - intros sh' S' st'. rewrite Jh. destruct (decide (sh' = sh)) as [->|Hne].
    + rewrite Js. intros [= <-]. rewrite Jss. case_decide as Hq; [subst; set_solver|]. destruct (shard_cache_ w !! sh) as [S0|] eqn:HS; cbn.
      * rewrite <-(H2 sh S0 st' HS). set_solver.
      * split; [set_solver|]. intros Hq'. destruct (proj1 (H3 st' sh Hq')) as [S0 ?]. congruence.
    + rewrite Jo by done. intros HS'. case_decide as Hq; [subst|by apply H2]. split; [|congruence]. intros Hin%(H2 sh' S' st HS'). congruence.
  - intros st' sh'. rewrite Jh. case_decide as Hq; [subst; intros [= <-]; split; [by eexists|done]|]. intros Hq'. destruct (H3 st' sh' Hq') as [[S' HS'] ?].
    split; [|done]. destruct (decide (sh' = sh)) as [->|Hne]; [by eexists|]. exists S'. by rewrite Jo.
  - intros st' sub' a. rewrite Je. apply H4.
Qed.

Lemma joins_serves w st sh S w' st' sub k place : home w st = None -> joins w st sh S w' -> serves w st' sub k place -> serves w' st' sub k place.
Proof.
  intros Hh [Jh Je Js Jo Jm Jss] (sh' & S' & a & Hq & Ha & HS' & Hl). assert (st' <> st) as Hne by (intros ->; congruence).
  destruct (decide (sh' = sh)) as [->|Hne'].
  - exists sh, S, a. rewrite Jh, decide_False, Je, Jm, HS' by done. done.
  - exists sh', S', a. rewrite Jh, decide_False, Je, Jo by done. done.
Qed.

Lemma new_stream_ok w st q answers : worker_ok w -> home w st = None -> stream_ok options st ->
  fits 32 (GetShard options (sub_namespace_id_ q) (sub_topic_name_ q)) ->
  exists w' S es, find_stream options w st (Messages.Subscribe q) answers = Ok (Some w') /\ step_ok w w' es /\
    joins w st (GetShard options (sub_namespace_id_ q) (sub_topic_name_ q)) S w' /\ no_data es.
Proof.
  intros Hw Hh Hst Hfit. destruct (find_stream_joins w st q answers Hw Hh) as (w' & S & es & E & Hj & Ho & Hes). exists w', S, es. split_and!; try done. split.
  - exact (joins_ok w st _ S w' Hw Hh Hst Hfit Hj).
  - done.
  - intros st' sub. by rewrite (jn_entry _ _ _ _ _ Hj).
  - intros st' sub k place Hs. right. exists place. rewrite Hes. split_and!; [|done|apply brings_from_nil]. exact (joins_serves w st _ S w' st' sub k place Hh Hj Hs).
Qed.

(** A step that begins to serve a subscription, which the updates bring to its place. *)
Record step_new w w' (es : list ProxyEvent) (st sub : Z) (k : slice * slice) : Prop := {
  sn_ok : worker_ok w';
  sn_out : out w' = out w ++ es;
  sn_none : forall st' sub', (st', sub') <> (st, sub) -> entry w st' sub' = None -> entry w' st' sub' = None;
  sn_keep : forall st' sub' k' place, serves w st' sub' k' place -> entry w' st' sub' = None \/
    exists place', serves w' st' sub' k' place' /\ Forall (P k') (sent st' sub' es) /\ brings_from (sent st' sub' es) place place';
  sn_new : exists place, serves w' st sub k place /\ Forall (P k) (sent st sub es) /\ brings_from (sent st sub es) 0 place
}.

Lemma step_new_after w w1 w2 es1 es2 st sub k : step_ok w w1 es1 -> no_data es1 -> entry w st sub = None -> step_new w1 w2 es2 st sub k ->
  step_new w w2 (es1 ++ es2) st sub k.
Proof.
  intros [H1 Ho1 Hn1 Hk1] Hes Hno [H2 Ho2 Hn2 Hk2 (p & Hs & HP & Hb)]. split; [done|by rewrite Ho2, Ho1, app_assoc|by intros; apply Hn2; [|apply Hn1]| |].
  - intros st' sub' k' place Hs'. destruct (Hk1 st' sub' k' place Hs') as [Hn|(p1 & Hs1 & HP1 & Hb1)].
    + left. apply Hn2; [|done]. intros [= -> ->]. destruct Hs' as (sh & S & a & _ & Ha & _). congruence.
    + destruct (Hk2 st' sub' k' p1 Hs1) as [Hn|(p2 & Hs2 & HP2 & Hb2)]; [by left|right]. exists p2. rewrite sent_updates_app. split_and!; [done|by apply Forall_app|].
      by apply (brings_from_app _ _ _ p1).
  - exists p. rewrite sent_updates_app, Hes. done.
Qed.

(** What [Multiplexer::Subscribe] does. *)
Lemma Multiplexer_Subscribe_ok w sh S tenant ns topic initial st sub : worker_ok w -> home w st = Some sh -> shard_cache_ w !! sh = Some S -> entry w st sub = None ->
  fits 16 tenant -> fits 64 sub -> id_room sh (multiplexer_ S) ->
  exists es x a place, Multiplexer_Subscribe options w sh tenant ns topic initial st sub = Ok (says (set_shards (<[sh := with_mux S x]> (shard_cache_ w)) w) es, a) /\
    mux_ok P sh (upd (down_of w sh) st sub (Some a)) x /\ all_used (upd (down_of w sh) st sub (Some a)) x /\ lives x a (ns, topic) place /\
    (forall a k place, lives (multiplexer_ S) a k place -> lives x a k place) /\
    Forall (P (ns, topic)) (sent st sub es) /\ brings_from (sent st sub es) 0 place /\ (forall st' sub', (st', sub') <> (st, sub) -> sent st' sub' es = []).
Proof.
  intros Hw Hh HS Hno Hten Hsub Hroom. destruct (wk_shard _ Hw sh S HS) as (Hfit & Hx & Hu & Hne). unfold Multiplexer_Subscribe, the_shard. rewrite HS. cbn [obind].
  destruct (FindOrCreate_ok options P P_ok accumulator_new sh tenant ns topic _ _ Hx Hfit Hroom) as (a & x1 & u & -> & Hx1 & Ho1 & Hl1 & Hkeep1 & Hu1). cbn [obind].
  rewrite (put_multiplexer_ok w sh S x1 HS). cbn [obind]. unfold the_object. rewrite Ho1. cbn [obind]. set (w1 := set_shards _ w).
  unfold AddDownstream, the_shard. assert (shard_cache_ w1 !! sh = Some (with_mux S x1)) as HS1 by apply lookup_insert_eq. rewrite HS1. cbn [obind with_mux multiplexer_].
  unfold the_object. rewrite Ho1. cbn [obind]. destruct (BootstrapSubscription (accumulator_ u) initial) as [ups to] eqn:Eb.
  pose proof Hl1 as (id & s & u' & Hs & Hud & Hk & Ho' & _). assert (u' = u) as -> by congruence.
  destruct (mk_sub P _ _ _ Hx1 id s Hs) as (u' & Ho2 & _ & _ & (resub & Hacc & Hplace & _)). rewrite Hud in Ho2. assert (u' = u) as -> by congruence. rewrite Hk in Hacc.
  destruct (bootstrap_ok _ _ _ _ _ _ _ Hacc Eb) as (-> & HPu & Hbr).
  destruct (bootstrap_loop_ok options w1 st sub tenant ups) as (es & -> & Hse & Hso); [by apply home_stream; exists sh|by apply (wk_home _ Hw st sh)|done|done| |].
  { apply (Forall_impl _ _ _ HPu). intros v. apply P_ok. }
  cbn [obind]. rewrite Z.eqb_refl, !orb_true_r. cbn [assert_that obind].
  assert (down_of w sh st sub = None) as Hd by (unfold down_of; by case_decide).
  assert ((st, sub) ∉ downstream_subscriptions_ u) as Hnin.
  { intros Hin. assert (down_of w sh st sub = Some a); [|congruence]. apply (mk_down P _ _ _ Hx1). by exists id, s, u. }
  rewrite bool_decide_eq_true_2 by done. cbn [assert_that obind]. change (shard_cache_ (says w1 es)) with (shard_cache_ w1). rewrite HS1. cbn [obind with_mux multiplexer_].
  set (x2 := set_objects _ x1). rewrite (put_multiplexer_ok (says w1 es) sh (with_mux S x1) x2 HS1). cbn [obind].
  exists es, x2, a, (us_expected_seqno_ u).
  assert (mux_ok P sh (upd (down_of w sh) st sub (Some a)) x2) as Hx2.
  { unfold x2. rewrite <-Hud. apply (add_downstream_ok P sh (down_of w sh) x1 id s u st sub); [done|done|by rewrite Hud|done]. }
  assert (forall a' k place, lives x1 a' k place -> lives x2 a' k place) as Hlr.
  { intros a' k place. unfold x2. rewrite <-Hud. apply (lives_replaced x1 id s u); [done|by rewrite Hud|done]. }
  split_and!; [|done| |by apply Hlr|by intros; apply Hlr, Hkeep1|by rewrite Hse|by rewrite Hse|done].
  - f_equal. f_equal. unfold w1, says, set_shards. cbn. by rewrite insert_insert_eq.
  - intros id' s' Hs'. unfold upd. destruct (Hu1 Hu id' s' Hs') as [->|(st' & sub' & Hq)]; [exists st, sub; by rewrite decide_True|].
    exists st', sub'. rewrite decide_False; [done|]. intros [= -> ->]. congruence.
Qed.

Lemma subscribe_ok w sh S q st answers : worker_ok w -> home w st = Some sh -> shard_cache_ w !! sh = Some S -> entry w st (sub_sub_id_ q) = None ->
  MessageSubscribe_ok q -> id_room sh (multiplexer_ S) -> IsHotTopic answers = true ->
  exists w' es, ReceiveFromWorker options w st (Messages.Subscribe q) answers = Ok w' /\
    step_new w w' es st (sub_sub_id_ q) (sub_namespace_id_ q, sub_topic_name_ q).
Proof.
  intros Hw Hh HS Hno Hq Hroom Hhot. unfold ReceiveFromWorker, the_stream. set (sub := sub_sub_id_ q) in *.
  assert (exists ps, streams_ w !! st = Some ps /\ per_shard_ ps = sh) as (ps & Hps & Hsh).
  { unfold home in Hh. destruct (streams_ w !! st) as [ps|]; [|done]. exists ps. split; [done|]. by injection Hh. }
  rewrite Hps. cbn [obind]. rewrite Hhot, Hsh.
  assert (fits 16 (tenantid_ (sub_base q)) /\ fits 64 sub) as [Hten Hsub] by (destruct Hq as ((_ & _ & _ & ?) & ?); unfold sub; tauto).
  destruct (Multiplexer_Subscribe_ok w sh S (tenantid_ (sub_base q)) (sub_namespace_id_ q) (sub_topic_name_ q) (start_seqno_ q) st sub Hw Hh HS Hno Hten Hsub Hroom)
    as (es & x & a & place & -> & Hx & Hu & Hl & Hkeep & HP & Hbr & Hso).
  cbn [obind says set_shards streams_]. rewrite Hps. cbn [obind]. assert (downstream_to_upstream_ ps !! sub = None) as Hn by (unfold entry in Hno; by rewrite Hps in Hno).
  rewrite bool_decide_eq_true_2 by done. cbn [assert_that obind]. set (w' := set_streams _ _). exists w', es. split; [done|].
  assert (forall st', home w' st' = home w st') as Hh'.
  { intros st'. unfold home, w'. cbn. destruct (decide (st' = st)) as [->|Hd]; [by rewrite lookup_insert_eq, Hps|by rewrite lookup_insert_ne]. }
  assert (forall st' sub', entry w' st' sub' = if decide ((st', sub') = (st, sub)) then Some a else entry w st' sub') as He'.
  { intros st' sub'. unfold entry, w'. cbn. destruct (decide (st' = st)) as [->|Hd].
    - rewrite lookup_insert_eq, Hps. cbn. destruct (decide (sub' = sub)) as [->|Hd]; [by rewrite lookup_insert_eq, decide_True|].
      rewrite lookup_insert_ne, decide_False; [done| |done]. by intros [= ->].
    - rewrite lookup_insert_ne, decide_False; [done| |done]. by intros [= ->]. }
  assert (forall st' sub', upd (down_of w sh) st sub (Some a) st' sub' = down_of w' sh st' sub') as Hd.
  { intros st' sub'. unfold upd, down_of. rewrite Hh', He'. repeat case_decide; try done. naive_solver. }
  assert (forall st' sub' k p, (st', sub') <> (st, sub) -> serves w st' sub' k p -> serves w' st' sub' k p) as Hserve.
  { intros st' sub' k p Hne (sh' & S' & a' & Hq' & Ha & HS' & Hl'). destruct (decide (sh' = sh)) as [->|Hne'].
    - exists sh, (with_mux S x), a'. rewrite Hh', He', decide_False by done. split_and!; try done; [unfold w'; cbn; apply lookup_insert_eq|]. apply Hkeep. by assert (S' = S) as <- by congruence.
    - exists sh', S', a'. rewrite Hh', He', decide_False by done. split_and!; try done. unfold w'. cbn. by rewrite lookup_insert_ne. }
  split.
  - apply (worker_ok_mux w w' sh S (with_mux S x)); try done.
    + intros st' sub' Hne. rewrite He', decide_False; [done|]. intros [= -> ->]. done.
    + intros st' sub' a'. rewrite He'. case_decide as Hdd; [injection Hdd as -> ->; done|]. apply (wk_ids _ Hw).
    + by apply (mux_ok_ext P sh _ _ _ Hd).
    + intros id s Hs. destruct (Hu id s Hs) as (st' & sub' & Hqq). exists st', sub'. by rewrite <-Hd.
  - done.
  - intros st' sub' Hne Hn'. by rewrite He', decide_False.
  - intros st' sub' k p Hs'. right. assert ((st', sub') <> (st, sub)) as Hne.
    { intros [= -> ->]. destruct Hs' as (? & ? & ? & _ & Ha & _). congruence. }
    exists p. rewrite Hso by done. split_and!; [by apply Hserve|done|apply brings_from_nil].
  - exists place. split_and!; [|done|done]. exists sh, (with_mux S x), a. rewrite Hh', He', decide_True by done. split_and!; try done. unfold w'. cbn. apply lookup_insert_eq.
Qed.

Lemma down_home w sh st sub a : down_of w sh st sub = Some a <-> home w st = Some sh /\ entry w st sub = Some a.
Proof. unfold down_of. case_decide; naive_solver. Qed.

Lemma unsubscribe_ok w st sub a u answers : worker_ok w -> entry w st sub = Some a -> unsub_sub_id_ u = sub ->
  exists w' es, ReceiveFromWorker options w st (Messages.Unsubscribe u) answers = Ok w' /\ step_ok w w' es.
Proof.
  intros Hw Ha Hsub. unfold ReceiveFromWorker, the_stream. rewrite Hsub. unfold entry in Ha. destruct (streams_ w !! st) as [ps|] eqn:Hps; [|done]. cbn in Ha.
  cbn [obind]. rewrite Ha. set (sh := per_shard_ ps). assert (home w st = Some sh) as Hh by (unfold home; by rewrite Hps).
  assert (entry w st sub = Some a) as He by (unfold entry; by rewrite Hps). destruct (proj1 (wk_home _ Hw st sh Hh)) as [S HS]. destruct (wk_shard _ Hw sh S HS) as (Hfit & Hx & Hu & Hne).
  unfold Multiplexer_Unsubscribe, the_shard. rewrite HS. cbn [obind].
  destruct (drop_downstream_ok options P P_ok accumulator_new sh _ _ st sub a Hx) as (x & -> & Hx' & Hu' & _ & Hl'); [by apply down_home|]. cbn [obind].
  rewrite (put_multiplexer_ok w sh S x HS). cbn [obind set_shards streams_]. rewrite Hps. cbn [obind]. set (w' := set_streams _ _). exists w', []. split; [done|].
  assert (forall st', home w' st' = home w st') as Hh'.
  { intros st'. unfold home, w'. cbn. destruct (decide (st' = st)) as [->|Hd]; [by rewrite lookup_insert_eq, Hps|by rewrite lookup_insert_ne]. }
  assert (forall st' sub', entry w' st' sub' = if decide ((st', sub') = (st, sub)) then None else entry w st' sub') as He'.
  { intros st' sub'. unfold entry, w'. cbn. destruct (decide (st' = st)) as [->|Hd].
    - rewrite lookup_insert_eq, Hps. cbn. destruct (decide (sub' = sub)) as [->|Hd]; [by rewrite lookup_delete_eq, decide_True|].
      rewrite lookup_delete_ne, decide_False; [done| |done]. by intros [= ->].
    - rewrite lookup_insert_ne, decide_False; [done| |done]. by intros [= ->]. }
  assert (forall st' sub', upd (down_of w sh) st sub None st' sub' = down_of w' sh st' sub') as Hd.
  { intros st' sub'. unfold upd, down_of. rewrite Hh', He'. by repeat case_decide. }
  split.
  - apply (worker_ok_mux w w' sh S (with_mux S x)); try done.
    + intros st' sub' Hne'. rewrite He', decide_False; [done|]. intros [= -> ->]. done.
    + intros st' sub' a'. rewrite He'. case_decide; [done|]. apply (wk_ids _ Hw).
    + by apply (mux_ok_ext P sh _ _ _ Hd).
    + intros id s Hs. destruct (Hu' Hu id s Hs) as (st' & sub' & Hq). exists st', sub'. by rewrite <-Hd.
  - by rewrite app_nil_r.
  - intros st' sub' Hn. rewrite He'. by case_decide.
  - intros st' sub' k place (sh' & S' & a' & Hq & Ha' & HS' & Hl). rewrite He'. case_decide as Hdd; [by left|right]. exists place. split_and!; [|done|apply brings_from_nil].
    destruct (decide (sh' = sh)) as [->|Hne'].
    + exists sh, (with_mux S x), a'. rewrite Hh', He', decide_False by done. split_and!; try done; [unfold w'; cbn; apply lookup_insert_eq|].
      apply (Hl' a' k place st' sub'); [by assert (S' = S) as <- by congruence|]. unfold upd. rewrite decide_False by done. by apply down_home.
    + exists sh', S', a'. rewrite Hh', He', decide_False by done. split_and!; try done. unfold w'. cbn. by rewrite lookup_insert_ne.
Qed.

(** ** Routes *)

Lemma change_routes_ok w sh streams : worker_ok w -> exists w' es, change_routes options w sh streams = Ok w' /\ step_ok w w' es.
Proof.
  revert w. induction streams as [|st streams IH]; intros w Hw; cbn [change_routes].
  { exists w, []. split; [done|]. rewrite <-(says_nil w) at 2. by apply says_ok. }
  destruct (bool_decide _) eqn:E.
  - apply bool_decide_eq_true in E. destruct (shard_cache_ w !! sh) as [S|] eqn:HS; cbn in E; [|set_solver]. apply (wk_members _ Hw sh S st HS) in E.
    destruct (close_ok w st {| goodbye_base := {| type_ := MessageType.mGoodbye; tenantid_ := GuestTenant |}; code_ := SocketError; origin_type_ := OriginServer |} Hw)
      as (w1 & es1 & E1 & Hs1 & _); [by exists sh|]. unfold ForceCloseStream, server_goodbye. rewrite E1. cbn [obind].
    destruct (IH w1 (st_ok _ _ _ Hs1)) as (w2 & es2 & -> & Hs2). eexists w2, _. split; [done|]. by apply (step_ok_trans w w1).
  - cbn [obind]. by apply IH.
Qed.

Lemma reroute_ok w sh S S1 : worker_ok w -> shard_cache_ w !! sh = Some S -> streams_on_shard_ S1 = streams_on_shard_ S -> multiplexer_ S1 = multiplexer_ S ->
  step_ok w (set_shards (<[sh := S1]> (shard_cache_ w)) w) [].
Proof.
  intros Hw HS Hon Hm. destruct (wk_shard _ Hw sh S HS) as (_ & Hx & Hu & _). split; [|by rewrite app_nil_r|done|].
  - apply (worker_ok_mux w _ sh S S1); try done; [apply (wk_ids _ Hw)|by rewrite Hm|by rewrite Hm].
  - intros st sub k place (sh' & S' & a & Hq & Ha & HS' & Hl). right. exists place. split_and!; [|done|apply brings_from_nil].
    destruct (decide (sh' = sh)) as [->|Hne]; [exists sh, S1, a|exists sh', S', a]; split_and!; try done; cbn.
    + apply lookup_insert_eq.
    + rewrite Hm. by assert (S' = S) as <- by congruence.
    + by rewrite lookup_insert_ne.
Qed.

Lemma CheckRoutes_ok w sh answers : worker_ok w -> is_Some (shard_cache_ w !! sh) -> exists w' es, CheckRoutes options w sh answers = Ok w' /\ step_ok w w' es.
Proof.
  intros Hw [S HS]. unfold CheckRoutes, the_shard. rewrite HS. cbn [obind]. destruct (_ =? _).
  { exists w, []. split; [done|]. rewrite <-(says_nil w) at 2. by apply says_ok. }
  destruct (bool_decide _); [eexists _, []; split; [reflexivity|]; by apply (reroute_ok w sh S)|].
  set (S1 := {| router_version_ := GetVersion answers |}). pose proof (reroute_ok w sh S S1 Hw HS eq_refl eq_refl) as Hs1. set (w1 := set_shards _ w) in *.
  destruct (change_routes_ok w1 sh (elements (streams_on_shard_ S)) (st_ok _ _ _ Hs1)) as (w2 & es2 & -> & Hs2). cbn [obind].
  eexists (says w2 [ConnectsTo sh (GetHost answers)]), _. split; [done|]. apply (step_ok_trans w w1); [exact Hs1|]. apply (step_ok_trans w1 w2); [exact Hs2|].
  apply says_ok; [by apply (st_ok _ _ _ Hs2)|done].
Qed.

(** ** Messages of the server *)

(** A step that changes only the multiplexer of a shard, and says [es]: it is enough
    that its objects stay in use, with updates that bring their subscriptions on. *)
Lemma mux_step_ok w sh S x es : worker_ok w -> shard_cache_ w !! sh = Some S -> mux_ok P sh (down_of w sh) x -> all_used (down_of w sh) x ->
  (forall st sub a k place, down_of w sh st sub = Some a -> lives (multiplexer_ S) a k place ->
     exists place', lives x a k place' /\ Forall (P k) (sent st sub es) /\ brings_from (sent st sub es) place place') ->
  (forall st sub, home w st <> Some sh -> sent st sub es = []) ->
  step_ok w (says (set_shards (<[sh := with_mux S x]> (shard_cache_ w)) w) es) es.
Proof.
  intros Hw HS Hx Hu Hlive Hother. split; [|done|done|].
  - apply (worker_ok_mux w _ sh S (with_mux S x)); try done. apply (wk_ids _ Hw).
  - intros st sub k place (sh' & S' & a & Hq & Ha & HS' & Hl). right. destruct (decide (sh' = sh)) as [->|Hne].
    + assert (S' = S) as -> by congruence. destruct (Hlive st sub a k place (proj2 (down_home w sh st sub a) (conj Hq Ha)) Hl) as (place' & Hl' & HP & Hb).
      exists place'. split_and!; try done. exists sh, (with_mux S x), a. split_and!; try done. cbn. apply lookup_insert_eq.
    + exists place. rewrite Hother by congruence. split_and!; [|done|apply brings_from_nil]. exists sh', S', a. split_and!; try done. cbn. by rewrite lookup_insert_ne.
Qed.

(** The downstream subscriptions of an object. *)
Lemma downstream_of w sh S id s u st sub : worker_ok w -> shard_cache_ w !! sh = Some S -> Find (subscriptions_map_ (multiplexer_ S)) id = Some s ->
  objects (multiplexer_ S) !! user_data_ s = Some u -> (st, sub) ∈ downstream_subscriptions_ u <-> down_of w sh st sub = Some (user_data_ s).
Proof.
  intros Hw HS Hs Ho. destruct (wk_shard _ Hw sh S HS) as (_ & Hx & _). rewrite (mk_down P _ _ _ Hx). split.
  - intros Hin. by exists id, s, u.
  - intros (id' & s' & u' & _ & _ & Ho' & Hin). by assert (u' = u) as <- by congruence.
Qed.

Lemma downstream_streams w sh st sub a : worker_ok w -> down_of w sh st sub = Some a -> is_Some (streams_ w !! st) /\ stream_ok options st /\ fits 64 sub.
Proof.
  intros Hw [Hh He]%down_home. split_and!; [apply home_stream; by exists sh|by apply (wk_home _ Hw st sh)|by apply (wk_ids _ Hw st sub a)].
Qed.

(** Data that the server may send: genuine, and, if the subscription was sent back
    to 0, not older than what the proxy has. *)
Definition data_allowed (x : Multiplexer A) (data : MessageDeliverData) : Prop :=
  forall s u, Find (subscriptions_map_ x) (deliver_sub_id_ (ddata_deliver data)) = Some s -> objects x !! user_data_ s = Some u ->
    P (sub_topic s) (data_update data) /\ (expected_seqno_ s = 0 -> us_expected_seqno_ u <= deliver_seqno_ (ddata_deliver data) + 1).

Lemma deliver_ok w sh S data : worker_ok w -> shard_cache_ w !! sh = Some S -> MessageDeliverData_ok data -> id_room sh (multiplexer_ S) ->
  deliver_sub_id_ (ddata_deliver data) ∈ known (events (subscriptions_map_ (multiplexer_ S))) -> sink_ (subscriptions_map_ (multiplexer_ S)) = true ->
  data_allowed (multiplexer_ S) data ->
  exists w' es, ShardReceive options w sh (DeliverData data) = Ok w' /\ step_ok w w' es.
Proof.
  intros Hw HS Hdata Hroom Hk Hsink Hallow. destruct (wk_shard _ Hw sh S HS) as (Hfit & Hx & Hu & Hne). pose proof Hdata as ((_ & _ & _ & _ & Hle) & _).
  set (id := deliver_sub_id_ (ddata_deliver data)) in *. set (m := subscriptions_map_ (multiplexer_ S)) in *.
  unfold ShardReceive, the_shard. rewrite HS. cbn [obind deliver_of]. fold id m.
  destruct (ReceiveDeliver_cases m id _ _ (mk_map P _ _ _ Hx) Hk Hle) as [E|(m' & s & E & Hm' & Hs & H0' & Hpe & Hev & Hun & Hid & Hf)]; rewrite E; cbn [obind].
  { assert (set_map m (multiplexer_ S) = multiplexer_ S) as -> by (unfold m; by destruct (multiplexer_ S)). rewrite (put_multiplexer_ok w sh S _ HS), with_mux_id by done.
    exists w, []. split; [done|]. rewrite <-(says_nil w) at 2. by apply says_ok. }
  destruct (mk_sub P _ _ _ Hx id s Hs) as (u & Ho & _ & _ & _). destruct (Hallow s u Hs Ho) as [HP Hsnap].
  rewrite (put_multiplexer_ok w sh S _ HS). cbn [obind]. set (w1 := set_shards _ w).
  assert (forall i, fresh m i -> fresh m' i) as Hfr.
  { intros i Hi. apply (brings_fresh m (HearDeliver id (deliver_seqno_prev_ (ddata_deliver data)) (deliver_seqno_ (ddata_deliver data))) m' i (mk_map P _ _ _ Hx)); [done| |by intros []|done].
    cbn [run_client]. by rewrite E. }
  destruct (accumulate_ok P P_ok sh _ _ id s u data m' Hx Hfit Hroom Hs Ho HP H0' Hpe Hsnap Hm' Hfr Hid Hf) as (Hext & x' & u' & Ea & Ho' & Hexp & Hdown & Hx2 & Hl2 & Hlo & Hu2).
  set (x2 := placed (user_data_ s) u' (current_seqno (data_update data)) x') in *.
  unfold Multiplexer_ReceiveDeliver. cbn [deliver_of]. rewrite bool_decide_eq_true_2 by (by eexists). cbn [assert_that obind]. unfold the_shard.
  assert (shard_cache_ w1 !! sh = Some (with_mux S (set_map m' (multiplexer_ S)))) as HS1 by apply lookup_insert_eq. rewrite HS1. cbn [obind with_mux multiplexer_ set_map subscriptions_map_].
  rewrite Hid. change (user_data_ (set_expected _ s)) with (user_data_ s). cbn [data_update prev_seqno current_seqno] in Ea. rewrite Ea. cbn [obind].
  rewrite (put_multiplexer_ok w1 sh _ x' HS1). cbn [obind]. set (w2 := set_shards _ w1). assert (shard_cache_ w2 !! sh = Some (with_mux S x')) as HS2 by apply lookup_insert_eq.
  unfold UpstreamSubscription_ReceiveDeliver, the_shard, the_object. rewrite HS2. cbn [obind with_mux multiplexer_]. rewrite Ho'. cbn [obind].
  assert (forall x0 es0, says (set_shards (<[sh := with_mux S x0]> (shard_cache_ w2)) w2) es0 = says (set_shards (<[sh := with_mux S x0]> (shard_cache_ w)) w) es0) as Hsame.
  { intros x0 es0. unfold w2, w1, says, set_shards. cbn. by rewrite !insert_insert_eq. }
  pose proof (P_ok _ _ HP) as Hup.
  assert (forall es, (forall st sub, sent st sub es = if decide ((st, sub) ∈ downstream_subscriptions_ u) then
      (if negb (us_expected_seqno_ u' =? 0) && (deliver_seqno_ (ddata_deliver data) <? us_expected_seqno_ u') then [] else [data_update data]) else []) ->
    step_ok w (says (set_shards (<[sh := with_mux S x2]> (shard_cache_ w)) w) es) es) as Hgo.
  { intros es Hes. apply mux_step_ok; try done; [by apply Hu2| |].
    - intros st sub a k place Hd Hl. rewrite Hes. destruct (decide ((st, sub) ∈ downstream_subscriptions_ u)) as [Hin|Hnin].
      + apply (downstream_of w sh S id s u st sub Hw HS Hs Ho) in Hin. assert (a = user_data_ s) as -> by congruence.
        assert (lives (multiplexer_ S) (user_data_ s) (sub_topic s) (us_expected_seqno_ u)) as Hl0 by (by exists id, s, u).
        destruct (lives_unique P sh _ _ _ _ _ _ _ Hx Hl Hl0) as [-> ->]. exists (current_seqno (data_update data) + 1). split; [done|].
        destruct (_ && _) eqn:Ed.
        * split; [done|]. replace (us_expected_seqno_ u) with (current_seqno (data_update data) + 1); [apply brings_from_nil|]. destruct Hext as [_ Hb]. cbn in *. lia.
        * split; [by apply Forall_singleton|]. apply brings_from_one; [done| |done]. destruct (mk_sub P _ _ _ Hx id s Hs) as (u3 & Ho3 & _ & _ & (? & _ & Hb & _)). assert (u3 = u) as <- by congruence. lia.
      + exists place. split_and!; [|done|apply brings_from_nil]. apply Hlo; [|done]. intros ->. apply Hnin. by apply (downstream_of w sh S id s u st sub Hw HS Hs Ho).
    - intros st sub Hnh. rewrite Hes, decide_False; [done|]. intros Hin. apply (downstream_of w sh S id s u st sub Hw HS Hs Ho), down_home in Hin. tauto. }
  unfold placed in x2. cbn [data_update current_seqno] in x2. destruct (_ && _) eqn:Ed.
  - exists w2, []. split; [done|]. rewrite <-(says_nil w2). assert (w2 = set_shards (<[sh := with_mux S x2]> (shard_cache_ w)) w) as -> by (unfold w2, w1, set_shards; cbn; by rewrite insert_insert_eq).
    apply Hgo. intros st sub. by case_decide.
  - change (put_multiplexer w2 sh (set_objects _ x')) with (put_multiplexer w2 sh x2). rewrite (put_multiplexer_ok w2 sh _ x2 HS2). cbn [obind]. set (w3 := set_shards _ w2).
    destruct (broadcast_data_ok options w3 (elements (downstream_subscriptions_ u')) data) as (es & -> & Hes); [apply NoDup_elements|done| |].
    { intros st sub Hin%elem_of_elements. rewrite Hdown in Hin. apply (downstream_of w sh S id s u st sub Hw HS Hs Ho) in Hin.
      exact (downstream_streams w sh st sub _ Hw Hin). }
    exists (says w3 es), es. split; [done|]. change w3 with (set_shards (<[sh := with_mux S x2]> (shard_cache_ w2)) w2). rewrite Hsame. apply Hgo. intros st sub. rewrite Hes, Hdown. apply decide_ext. apply elem_of_elements.
Qed.

Lemma server_unsubscribe_ok w sh S q : worker_ok w -> shard_cache_ w !! sh = Some S -> MessageUnsubscribe_ok q ->
  unsub_sub_id_ q ∈ known (events (subscriptions_map_ (multiplexer_ S))) -> sink_ (subscriptions_map_ (multiplexer_ S)) = true ->
  exists w' es, ShardReceive options w sh (Messages.Unsubscribe q) = Ok w' /\ step_ok w w' es.
Proof.
  intros Hw HS Hq Hk Hsink. destruct (wk_shard _ Hw sh S HS) as (Hfit & Hx & Hu & Hne). unfold ShardReceive, the_shard. rewrite HS. cbn [obind].
  destruct (terminate_ok P sh _ _ (unsub_sub_id_ q) (reason_ q) Hx Hsink Hk) as (m' & [(s & u & Hs & Ho & Ht & Hcb & Hx' & Hf & Hn)|(Hcb & Hx' & Hf)]); rewrite Hcb.
  - unfold Multiplexer_ReceiveTerminate, the_shard. rewrite HS. cbn [obind]. rewrite Hs, (RemoveFromIndex_ok s _ _ Ht). cbn [obind].
    set (x1 := set_index _ _). rewrite (put_multiplexer_ok w sh S x1 HS). cbn [obind]. unfold the_object. change (objects x1) with (objects (multiplexer_ S)). rewrite Ho. cbn [obind].
    set (w1 := set_shards _ w).
    destruct (broadcast_unsubscribe_ok options w1 (elements (downstream_subscriptions_ u)) q) as (w2 & es & -> & Hsh2 & Ho2 & Hes & Hh2 & He2); [apply NoDup_elements|done| |].
    { intros st sub Hin%elem_of_elements. apply (downstream_of w sh S _ s u st sub Hw HS Hs Ho) in Hin. destruct (downstream_streams w sh st sub _ Hw Hin) as (_ & Hst & Hsub).
      apply down_home in Hin as [_ He]. split_and!; [by exists (user_data_ s)|done|done]. }
    cbn [obind]. assert (shard_cache_ w2 !! sh = Some (with_mux S x1)) as HS2 by (rewrite Hsh2; apply lookup_insert_eq). rewrite HS2. cbn [obind with_mux multiplexer_].
    rewrite (put_multiplexer_ok w2 sh _ _ HS2). set (x2 := set_map m' x1). set (w' := set_shards _ w2). exists w', es. split; [done|].
    assert (forall st, home w' st = home w st) as Hh' by (intros st; exact (Hh2 st)).
    assert (forall st sub, entry w' st sub = if decide (down_of w sh st sub = Some (user_data_ s)) then None else entry w st sub) as He'.
    { intros st sub. change (entry w' st sub) with (entry w2 st sub). rewrite He2. change (entry w1 st sub) with (entry w st sub). apply decide_ext.
      rewrite elem_of_elements. by apply (downstream_of w sh S (unsub_sub_id_ q)). }
    assert (forall st sub a, down_of w' sh st sub = Some a <-> down_of w sh st sub = Some a /\ a <> user_data_ s) as Hd.
    { intros st sub a. rewrite !down_home, Hh', He'. split.
      - intros [Hh He]. case_decide as Hdd; [done|]. split_and!; try done. intros ->. apply Hdd. by apply down_home.
      - intros [[Hh He] Hna]. split; [done|]. rewrite decide_False; [done|]. rewrite down_home. intros [_ He2']. congruence. }
    assert (shard_cache_ w' = <[sh := with_mux S x2]> (shard_cache_ w)) as Hsh' by (unfold w'; cbn; rewrite Hsh2; apply insert_insert_eq).
    split.
    + apply (worker_ok_mux w w' sh S (with_mux S x2)); try done.
      * intros st sub Hnh. rewrite He', decide_False; [done|]. rewrite down_home. tauto.
      * intros st sub a. rewrite He'. case_decide; [done|]. apply (wk_ids _ Hw).
      * by apply Hx'.
      * intros id s' Hs'. cbn in Hs'. assert (id <> unsub_sub_id_ q) as Hne' by (intros ->; congruence). rewrite Hf in Hs' by done.
        destruct (Hu id s' Hs') as (st & sub & Hqq). exists st, sub. apply Hd. split; [done|]. intros Heq. by destruct (same_object P _ _ _ _ _ _ _ Hx Hs' Hs Heq).
    + done.
    + intros st sub Hno. rewrite He'. by case_decide.
    + intros st sub k place (sh' & S' & a & Hh & Ha & HS' & Hl). rewrite He'. case_decide as Hdd; [by left|right]. exists place. rewrite Hes. split_and!; [|done|apply brings_from_nil].
      destruct (decide (sh' = sh)) as [->|Hne'].
      * assert (S' = S) as -> by congruence. exists sh, (with_mux S x2), a. rewrite Hh', He', decide_False by done. split_and!; try done; [by rewrite Hsh', lookup_insert_eq|].
        destruct Hl as (id & s' & u' & Hs' & Hud & Hkk & Ho' & Hp). exists id, s', u'. split_and!; try done. cbn. rewrite Hf; [done|].
        intros ->. assert (s' = s) as -> by congruence. apply Hdd. apply down_home. by rewrite Hud.
      * exists sh', S', a. rewrite Hh', He', decide_False by done. split_and!; try done. by rewrite Hsh', lookup_insert_ne.
  - cbn [obind]. rewrite HS. cbn [obind]. rewrite (put_multiplexer_ok w sh S _ HS). eexists _, []. split; [reflexivity|]. rewrite <-(says_nil (set_shards _ w)).
    apply mux_step_ok; try done.
    + intros id s. cbn. rewrite Hf. apply Hu.
    + intros st sub a k place _ Hl. exists place. split_and!; [by apply lives_set_map|done|apply brings_from_nil].
Qed.

Lemma shard_map_ok w sh S a : worker_ok w -> shard_cache_ w !! sh = Some S -> client_enabled (subscriptions_map_ (multiplexer_ S)) a -> stream_action a ->
  exists w' es, ShardMap w sh (run_client a) = Ok w' /\ step_ok w w' es.
Proof.
  intros Hw HS Hen Ha. destruct (wk_shard _ Hw sh S HS) as (_ & Hx & Hu & _). unfold ShardMap, the_shard. rewrite HS. cbn [obind].
  destruct (stream_step_ok P sh _ _ a Hx Hen Ha) as (m' & -> & Hx' & Hf). cbn [obind]. rewrite (put_multiplexer_ok w sh S _ HS). eexists _, []. split; [reflexivity|].
  rewrite <-(says_nil (set_shards _ w)). apply mux_step_ok; try done.
  - intros id s. cbn. rewrite Hf. apply Hu.
  - intros st sub a' k place _ Hl. exists place. split_and!; [by apply lives_set_map|done|apply brings_from_nil].
Qed.
End Invariant.
