(* ===== verification/Proxy.v ===== *)
(** * The proxy

    The upstream worker as a machine, what is assumed of clients and servers, and
    the properties of the proxy, with runs that show what happens outside the
    assumptions. *)

From S2P Require Import Prelude Coding CodingFacts SubscriptionId IdAllocator Messages MessagesFacts SubscriptionsMap ClientFacts ResilientReceiver ProxyWorker ProxyMux ProxyFacts.

#[local] Open Scope outcome_scope.

(** ** The machine *)

(** A message of a client's stream, from the downstream worker; one of the server on
    the stream of a client, or on the stream of the multiplexer of a shard; what else
    happens on that stream; and the timer that checks the routes of a shard. *)
Inductive proxy_action :=
| FromClient (st : Z) (m : Message) (answers : Answers)
| FromServer (st : Z) (m : Message)
| FromUpstream (sh : Z) (m : Message)
| OnUpstream (sh : Z) (a : client_action)
| RouteTimer (sh : Z) (answers : Answers).

Section Proxy.
Context {A : Type} `{AccumulatorLaws A} (options : ProxyOptions A) (P : slice * slice -> Update -> Prop).
Implicit Types w : UpstreamWorker A.

Definition run_proxy (a : proxy_action) w : outcome (UpstreamWorker A) :=
  match a with
  | FromClient st m answers => ReceiveFromQueue options w st m answers
  | FromServer st m => PerStream_ReceiveFromStream options w st m
  | FromUpstream sh m => ShardReceive options w sh m
  | OnUpstream sh a => ShardMap w sh (run_client a)
  | RouteTimer sh answers => CheckRoutes options w sh answers
  end.

(** The next ID of the shard can be encoded. *)
Definition room_for w (sh : Z) : Prop := id_room sh (default empty_multiplexer (multiplexer_ <$> shard_cache_ w !! sh)).

(** Clients use an ID for one subscription at a time, and their goodbye can be
    passed on.  Servers speak about subscriptions they were told of; what they send
    about multiplexed ones is genuine data, without gaps, and a snapshot is not older
    than what was sent before. *)
Definition proxy_enabled w (a : proxy_action) : Prop :=
  match a with
  | FromClient st m answers => stream_ok options st /\ Message_ok m /\
      match m with
      | Messages.Subscribe q =>
          let sh := default (GetShard options (sub_namespace_id_ q) (sub_topic_name_ q)) (home w st) in
          fits 32 sh /\ (IsHotTopic answers = true -> entry w st (sub_sub_id_ q) = None /\ room_for w sh)
      | Goodbye _ => is_Some (home w st) -> upstream_available w st answers
      | _ => True
      end
  | FromServer st m => (exists ps, streams_ w !! st = Some ps /\ upstream_ ps = true) /\
      forall d, deliver_of m = Some d -> entry w st (deliver_sub_id_ d) = None
  | FromUpstream sh m => exists S, shard_cache_ w !! sh = Some S /\ sink_ (subscriptions_map_ (multiplexer_ S)) = true /\ Message_ok m /\
      match m with
      | DeliverData data => deliver_sub_id_ (ddata_deliver data) ∈ known (events (subscriptions_map_ (multiplexer_ S))) /\
          data_allowed P (multiplexer_ S) data /\ room_for w sh
      | Messages.Unsubscribe q => unsub_sub_id_ q ∈ known (events (subscriptions_map_ (multiplexer_ S)))
      | DeliverGap _ | Gap _ | Heartbeat _ | Data _ => False
      | _ => True
      end
  | OnUpstream sh a => exists S, shard_cache_ w !! sh = Some S /\ stream_action a /\ client_enabled (subscriptions_map_ (multiplexer_ S)) a
  | RouteTimer sh _ => is_Some (shard_cache_ w !! sh)
  end.

Inductive proxy_runs : UpstreamWorker A -> list proxy_action -> UpstreamWorker A -> Prop :=
| proxy_runs_nil w : proxy_runs w [] w
| proxy_runs_cons w a acts w1 w' : proxy_enabled w a -> run_proxy a w = Ok w1 -> proxy_runs w1 acts w' -> proxy_runs w (a :: acts) w'.

(** A run during which a downstream subscription is served. *)
Inductive serving_runs (st sub : Z) : UpstreamWorker A -> list proxy_action -> UpstreamWorker A -> Prop :=
| serving_runs_nil w : serving_runs st sub w [] w
| serving_runs_cons w a acts w1 w' : proxy_enabled w a -> run_proxy a w = Ok w1 -> is_Some (entry w1 st sub) -> serving_runs st sub w1 acts w' ->
    serving_runs st sub w (a :: acts) w'.

Hypothesis P_ok : forall k u, P k u -> update_ok u.
Hypothesis accumulator_new : forall ns topic, accumulates (P (ns, topic)) (accumulator options ns topic) 0 false.

Lemma new_worker_ok : worker_ok options P NewUpstreamWorker.
Proof. split; by intros. Qed.

Abbreviation okay := (worker_ok options P).
Abbreviation steps := (step_ok options P).

Lemma stay_ok w : okay w -> steps w w [].
Proof. intros Hw. rewrite <-(says_nil w) at 2. by apply says_ok. Qed.

(** Messages on a stream that is known, other than hot subscriptions and goodbyes. *)
Lemma cold_ok w st m answers : okay w -> is_Some (home w st) -> is_goodbye m = false ->
  (match m with Messages.Subscribe _ => IsHotTopic answers = false | _ => True end) ->
  exists w' es, ReceiveFromWorker options w st m answers = Ok w' /\ steps w w' es.
Proof.
  intros Hw Hh Hg Hm. pose proof (proj1 (home_stream w st) Hh) as [ps Hps].
  assert (exists w' es, forward_upstream options w st m answers = Ok w' /\ steps w w' es) as (w1 & es1 & E1 & Hs1) by (by apply (forward_upstream_ok options P P_ok accumulator_new)).
  destruct m; try done; try (exists w1, es1; split; [|done]; unfold ReceiveFromWorker, the_stream; by rewrite Hps).
  - exists w1, es1. split; [|done]. unfold ReceiveFromWorker, the_stream. rewrite Hps. cbn [obind]. by rewrite Hm.
  - destruct (downstream_to_upstream_ ps !! unsub_sub_id_ m) as [a|] eqn:Ea.
    + apply (unsubscribe_ok options P P_ok accumulator_new w st (unsub_sub_id_ m) a m answers Hw); [|done]. unfold entry. by rewrite Hps.
    + exists w1, es1. split; [|done]. unfold ReceiveFromWorker, the_stream. rewrite Hps. cbn [obind]. by rewrite Ea.
Qed.

Lemma find_stream_known w st m answers : is_Some (home w st) -> find_stream options w st m answers = Ok (Some w).
Proof. intros [ps Hps]%home_stream. unfold find_stream. by rewrite Hps. Qed.

(** A hot subscription, on a stream that is known or new. *)
Lemma hot_ok w st q answers : okay w -> proxy_enabled w (FromClient st (Messages.Subscribe q) answers) -> IsHotTopic answers = true ->
  exists w' es, ReceiveFromQueue options w st (Messages.Subscribe q) answers = Ok w' /\
    step_new options P w w' es st (sub_sub_id_ q) (sub_namespace_id_ q, sub_topic_name_ q).
Proof.
  intros Hw (Hst & Hq & Hfit & Hhot) Hh. destruct (Hhot Hh) as [Hno Hroom]. unfold ReceiveFromQueue. cbv zeta in *. destruct (home w st) as [sh|] eqn:Ehome; rewrite ?Ehome in Hfit, Hroom; cbn in Hfit, Hroom.
  - rewrite find_stream_known by (by eexists). cbn [obind]. destruct (proj1 (wk_home _ _ _ Hw st sh Ehome)) as [S HS]. unfold room_for in Hroom. rewrite HS in Hroom.
    destruct (subscribe_ok options P P_ok accumulator_new w sh S q st answers Hw Ehome HS Hno Hq Hroom Hh) as (w' & es & -> & Hn). by exists w', es.
  - destruct (new_stream_ok options P P_ok accumulator_new w st q answers Hw Ehome Hst Hfit) as (w1 & S1 & es1 & -> & Hs1 & Hj & Hes1). cbn [obind].
    set (sh := GetShard options _ _) in *. pose proof (jn_shard _ _ _ _ _ Hj) as HS1. assert (home w1 st = Some sh) as Hh1 by (by rewrite (jn_home _ _ _ _ _ Hj), decide_True).
    assert (id_room sh (multiplexer_ S1)) as Hroom1 by (by rewrite (jn_mux _ _ _ _ _ Hj)).
    assert (entry w1 st (sub_sub_id_ q) = None) as He1 by (by rewrite (jn_entry _ _ _ _ _ Hj)).
    destruct (subscribe_ok options P P_ok accumulator_new w1 sh S1 q st answers (st_ok _ _ _ _ _ Hs1) Hh1 HS1 He1 Hq Hroom1 Hh) as (w' & es & -> & Hn).
    eexists w', _. split; [done|]. exact (step_new_after options P _ _ _ _ _ _ _ _ Hs1 Hes1 Hno Hn).
Qed.

Lemma from_client_ok w st m answers : okay w -> proxy_enabled w (FromClient st m answers) ->
  (forall q, m = Messages.Subscribe q -> IsHotTopic answers = false) -> exists w' es, ReceiveFromQueue options w st m answers = Ok w' /\ steps w w' es.
Proof.
  intros Hw (Hst & Hm & Hen) Hcold. unfold ReceiveFromQueue.
  assert (forall w1 es1, steps w w1 es1 -> is_Some (home w1 st) -> is_goodbye m = false ->
    exists w' es, (w2 <~ ReceiveFromWorker options w1 st m answers ;; match m with Goodbye _ => CleanupState w2 st | _ => Ok w2 end) = Ok w' /\ steps w w' es) as Hgo.
  { intros w1 es1 Hs1 Hh1 Hg. destruct (cold_ok w1 st m answers (st_ok _ _ _ _ _ Hs1) Hh1 Hg) as (w2 & es2 & -> & Hs2); [destruct m; try done; by eapply Hcold|].
    exists w2, (es1 ++ es2). split; [by destruct m|]. by apply (step_ok_trans options P w w1). }
  destruct (home w st) as [sh|] eqn:Ehome.
  - rewrite find_stream_known by (by eexists). cbn [obind]. destruct (is_goodbye m) eqn:Eg; [|by apply (Hgo w [] (stay_ok w Hw)); [eexists|]].
    destruct m; try done. destruct (forward_goodbye_ok options P P_ok accumulator_new w st m answers Hw (Hen ltac:(by eexists))) as (w1 & es1 & E1 & Hs1 & Hh1 & He1).
    assert (ReceiveFromWorker options w st (Goodbye m) answers = Ok w1) as ->.
    { unfold ReceiveFromWorker, the_stream. assert (is_Some (home w st)) as [ps Hps]%home_stream by (by exists sh). by rewrite Hps. }
    cbn [obind]. destruct (CleanupState_ok options P P_ok accumulator_new w1 st (st_ok _ _ _ _ _ Hs1) Hh1 He1) as (w' & -> & Hs2 & _). exists w', es1. split; [done|].
    exact (step_ok_nil_r options P _ _ _ _ Hs1 Hs2).
  - assert (find_stream options w st m answers = Ok None \/ exists q, m = Messages.Subscribe q) as [->|[q ->]].
    { unfold find_stream. assert (streams_ w !! st = None) as -> by (unfold home in Ehome; by destruct (streams_ w !! st)). destruct m; try (by left). right. by eexists. }
    + exists w, []. split; [done|]. by apply stay_ok.
    + destruct Hen as [Hfit _]. cbn [default] in Hfit. destruct (new_stream_ok options P P_ok accumulator_new w st q answers Hw Ehome Hst Hfit) as (w1 & S1 & es1 & -> & Hs1 & Hj & _).
      cbn [obind]. apply (Hgo w1 es1 Hs1); [|done]. rewrite (jn_home _ _ _ _ _ Hj), decide_True by done. by eexists.
Qed.

Lemma from_server_ok w st m : okay w -> proxy_enabled w (FromServer st m) -> exists w' es, PerStream_ReceiveFromStream options w st m = Ok w' /\ steps w w' es.
Proof.
  intros Hw [(ps & Hps & _) Hm]. assert (is_Some (home w st)) as Hh by (apply home_stream; by exists ps). destruct (is_goodbye m) eqn:Eg.
  - destruct m; try done. destruct (close_ok options P P_ok accumulator_new w st m Hw Hh) as (w' & es & E & Hs & _). by exists w', es.
  - destruct Hh as [sh Hh]. destruct (proj2 (wk_home _ _ _ Hw st sh Hh)) as (i & Hi & Hn). exists (says w [ToDownstream i st m]), [ToDownstream i st m]. split.
    + unfold PerStream_ReceiveFromStream, UpstreamWorker_ReceiveFromStream. destruct m; try done; cbn [obind]; rewrite Hi; cbn [obind]; by rewrite (proj2 (Z.ltb_lt _ _) Hn).
    + apply says_ok; [done|]. intros st' sub' [a Ha]. unfold sent. cbn. destruct m; try done. case_decide as Hd; [|done]. destruct Hd as [-> <-].
      rewrite (Hm _ eq_refl) in Ha. done.
Qed.

Lemma proxy_step w a : okay w -> proxy_enabled w a -> exists w' es, run_proxy a w = Ok w' /\
  (steps w w' es \/ exists st q answers, a = FromClient st (Messages.Subscribe q) answers /\ IsHotTopic answers = true /\
     step_new options P w w' es st (sub_sub_id_ q) (sub_namespace_id_ q, sub_topic_name_ q)).
Proof.
  intros Hw Hen. destruct a as [st m answers|st m|sh m|sh a|sh answers]; cbn [run_proxy].
  - assert ((exists q, m = Messages.Subscribe q /\ IsHotTopic answers = true) \/ forall q, m = Messages.Subscribe q -> IsHotTopic answers = false) as [(q & -> & Hh)|Hc].
    { destruct m; try (by right). destruct (IsHotTopic answers) eqn:E; [left; by eexists|by right]. }
    + destruct (hot_ok w st q answers Hw Hen Hh) as (w' & es & E & Hn). exists w', es. split; [done|]. right. by exists st, q, answers.
    + destruct (from_client_ok w st m answers Hw Hen Hc) as (w' & es & E & Hs). exists w', es. split; [done|by left].
  - destruct (from_server_ok w st m Hw Hen) as (w' & es & E & Hs). exists w', es. split; [done|by left].
  - destruct Hen as (S & HS & Hsink & Hm & Hen). destruct m; try done.
    all: try (exists w, []; split; [unfold ShardReceive, the_shard; by rewrite HS|left; by apply stay_ok]).
    + destruct (server_unsubscribe_ok options P w sh S m Hw HS Hm Hen Hsink) as (w' & es & E & Hs). exists w', es. split; [done|by left].
    + destruct Hen as (Hk & Hd & Hroom). unfold room_for in Hroom. rewrite HS in Hroom.
      destruct (deliver_ok options P P_ok w sh S m Hw HS Hm Hroom Hk Hsink Hd) as (w' & es & E & Hs). exists w', es. split; [done|by left].
  - destruct Hen as (S & HS & Ha & Hen). destruct (shard_map_ok options P w sh S a Hw HS Hen Ha) as (w' & es & E & Hs). exists w', es. split; [done|by left].
  - destruct (CheckRoutes_ok options P P_ok accumulator_new w sh answers Hw Hen) as (w' & es & E & Hs). exists w', es. split; [done|by left].
Qed.

Lemma proxy_step_ok w a w' : okay w -> proxy_enabled w a -> run_proxy a w = Ok w' -> okay w'.
Proof.
  intros Hw Hen E. destruct (proxy_step w a Hw Hen) as (w2 & es & E2 & Hs). rewrite E in E2. apply Ok_inj in E2 as <-.
  destruct Hs as [Hs|(st & q & answers & _ & _ & Hs)]; [by apply (st_ok _ _ _ _ _ Hs)|by apply (sn_ok _ _ _ _ _ _ _ _ Hs)].
Qed.

Lemma proxy_runs_ok w acts w' : okay w -> proxy_runs w acts w' -> okay w'.
Proof. intros Hw Hr. induction Hr as [|w a acts w1 w' Hen E Hr IH]; [done|]. apply IH. by apply (proxy_step_ok w a). Qed.

(** Along a run that serves a subscription, the updates sent bring it to its place. *)
Lemma serving_runs_ok st sub w acts w' k place : okay w -> serving_runs st sub w acts w' -> serves w st sub k place ->
  exists es place', out w' = out w ++ es /\ serves w' st sub k place' /\ Forall (P k) (sent st sub es) /\ brings_from (sent st sub es) place place'.
Proof.
  intros Hw Hr. revert place. induction Hr as [w|w a acts w1 w' Hen E Hi Hr IH]; intros place Hs.
  { exists [], place. rewrite app_nil_r. split_and!; [done|done|done|apply brings_from_nil]. }
  pose proof (proxy_step_ok w a w1 Hw Hen E) as Hw1. destruct (proxy_step w a Hw Hen) as (w2 & es & E2 & Hstep). rewrite E in E2. apply Ok_inj in E2 as <-.
  assert (out w1 = out w ++ es /\ exists p1, serves w1 st sub k p1 /\ Forall (P k) (sent st sub es) /\ brings_from (sent st sub es) place p1) as (Ho & p1 & Hs1 & HP1 & Hb1).
  { destruct Hi as [a1 Ha1]. destruct Hstep as [[_ Ho _ Hk]|(st' & q & answers & _ & _ & [_ Ho _ Hk _])];
      (split; [done|]; destruct (Hk st sub k place Hs) as [?|Hr']; [congruence|exact Hr']). }
  destruct (IH Hw1 p1 Hs1) as (es2 & p2 & Ho2 & Hs2 & HP2 & Hb2). exists (es ++ es2), p2. rewrite Ho2, Ho, sent_updates_app, app_assoc.
  split_and!; [done|done|by apply Forall_app|by apply (brings_from_app _ _ _ p1)].
Qed.

(** C19: the proxy multiplexes.  Whatever clients, servers, routers and timers do,
    within the assumptions of [proxy_enabled], the next action is handled without a
    failed assertion and without use of an object that is gone; a topic has one
    subscription at the server per shard; each of them serves a subscription of a
    client, and each subscription of a client on a hot topic is served; a stream
    belongs to one shard, and a shard without streams is not kept. *)
Theorem proxy_multiplexes acts w : proxy_runs NewUpstreamWorker acts w ->
  (forall a, proxy_enabled w a -> exists w', run_proxy a w = Ok w') /\
  (forall sh S id s id' s', shard_cache_ w !! sh = Some S -> Find (subscriptions_map_ (multiplexer_ S)) id = Some s ->
     Find (subscriptions_map_ (multiplexer_ S)) id' = Some s' -> sub_topic s = sub_topic s' -> id = id') /\
  (forall sh S id s, shard_cache_ w !! sh = Some S -> Find (subscriptions_map_ (multiplexer_ S)) id = Some s ->
     exists st sub place, home w st = Some sh /\ entry w st sub = Some (user_data_ s) /\ serves w st sub (sub_topic s) place) /\
  (forall st sub a, entry w st sub = Some a -> exists k place, serves w st sub k place) /\
  (forall sh S, shard_cache_ w !! sh = Some S -> exists st, home w st = Some sh) /\
  (forall st sh, home w st = Some sh -> is_Some (shard_cache_ w !! sh)).
Proof.
  intros Hr. pose proof (proxy_runs_ok _ _ _ new_worker_ok Hr) as Hw. split_and!.
  - intros a Hen. destruct (proxy_step w a Hw Hen) as (w' & es & E & _). by exists w'.
  - intros sh S id s id' s' HS Hs Hs' Ht. destruct (wk_shard _ _ _ Hw sh S HS) as (_ & Hx & _). by apply (same_topic P sh _ _ id s id' s' Hx).
  - intros sh S id s HS Hs. destruct (wk_shard _ _ _ Hw sh S HS) as (_ & Hx & Hu & _). destruct (Hu id s Hs) as (st & sub & [Hh He]%down_home).
    destruct (mk_sub P _ _ _ Hx id s Hs) as (u & Ho & _). exists st, sub, (us_expected_seqno_ u). split_and!; [done|done|].
    exists sh, S, (user_data_ s). split_and!; [done|done|done|by exists id, s, u].
  - intros st sub a. by apply (entry_serves options P).
  - intros sh S HS. destruct (wk_shard _ _ _ Hw sh S HS) as (_ & _ & _ & [st Hst]%set_choose_L). exists st. by apply (wk_members _ _ _ Hw sh S).
  - intros st sh Hh. by apply (wk_home _ _ _ Hw st sh).
Qed.

(** C18: the clients of the proxy follow the server, within the assumptions of
    [proxy_enabled].  From the moment a client subscribes to a hot topic and for
    as long as the proxy serves the subscription, the updates sent to it are
    genuine updates of the topic, and they bring a client that applies them as
    the client library does, whatever sequence number it asked to start at, to
    the place that the proxy has reached on that topic, although the
    subscription at the server is shared, older than the client's, and sent back
    to 0 whenever the accumulator asks for it.  It is assumed that servers send
    no gaps on multiplexed subscriptions ([gap_then_subscribe_aborts],
    [gap_after_resubscription_aborts]), after a resubscription from 0 no
    snapshot older than what the proxy has ([stale_snapshot_aborts]), genuine
    updates, and these only about IDs they were told of on the stream; that a
    client uses a subscription ID of its stream once; that a goodbye can be
    forwarded ([goodbye_used_after_free]); that the IDs of a shard do not run
    out; and that the accumulator keeps its contract ([accumulates]). *)
Theorem proxy_follows acts0 w0 st q answers w acts w' : proxy_runs NewUpstreamWorker acts0 w0 ->
  proxy_enabled w0 (FromClient st (Messages.Subscribe q) answers) -> IsHotTopic answers = true ->
  run_proxy (FromClient st (Messages.Subscribe q) answers) w0 = Ok w -> serving_runs st (sub_sub_id_ q) w acts w' ->
  exists es place, out w' = out w0 ++ es /\ serves w' st (sub_sub_id_ q) (sub_namespace_id_ q, sub_topic_name_ q) place /\
    Forall (P (sub_namespace_id_ q, sub_topic_name_ q)) (sent st (sub_sub_id_ q) es) /\
    forall s, expected_seqno_ s = start_seqno_ q ->
      exists s', feed (sent st (sub_sub_id_ q) es) s = Ok s' /\ expected_seqno_ s' = bring (start_seqno_ q) place.
Proof.
  intros Hr Hen Hhot E Hs. pose proof (proxy_runs_ok _ _ _ new_worker_ok Hr) as Hw0. destruct (hot_ok w0 st q answers Hw0 Hen Hhot) as (w2 & es1 & E2 & Hn).
  cbn [run_proxy] in E. rewrite E in E2. apply Ok_inj in E2 as <-. destruct (sn_new _ _ _ _ _ _ _ _ Hn) as (p1 & Hs1 & HP1 & Hb1).
  destruct (serving_runs_ok st (sub_sub_id_ q) w acts w' _ p1 (sn_ok _ _ _ _ _ _ _ _ Hn) Hs Hs1) as (es2 & p2 & Ho2 & Hs2 & HP2 & Hb2).
  exists (es1 ++ es2), p2. rewrite Ho2, (sn_out _ _ _ _ _ _ _ _ Hn), app_assoc, sent_updates_app. split_and!; [done|done|by apply Forall_app|].
  destruct Hen as (_ & (_ & _ & Hst & _) & _). intros s Hstart. apply (brings_from_app _ _ _ _ _ Hb1 Hb2); [unfold fits in Hst; lia|done].
Qed.
End Proxy.

(** ** Runs *)

(** Two clients on one topic, with an accumulator that keeps two updates. *)
Definition example_proxy : ProxyOptions DefaultAccumulator :=
  {| GetShard := fun _ _ => 3; accumulator := fun _ _ => CreateDefault 2; stream_to_id_ := {| shift_ := 0; mask_ := 0 |};
     num_downstream_threads := 1; num_upstream_threads := 1 |}.

Definition genuine : slice * slice -> Update -> Prop := fun _ => update_ok.

Definition hot : Answers := {| IsHotTopic := true; GetVersion := 1; GetHost := Some 20; OpensStream := true |}.

Definition subscribes (id start : Z) : MessageSubscribe :=
  {| sub_base := {| type_ := MessageType.mSubscribe; tenantid_ := 1 |}; sub_namespace_id_ := [Byte.x61]; sub_topic_name_ := [Byte.x62];
     start_seqno_ := start; sub_sub_id_ := id |}.

Definition server_data (id previous current : Z) : MessageDeliverData :=
  {| ddata_deliver := {| deliver_base := {| type_ := MessageType.mDeliverData; tenantid_ := 1 |}; deliver_sub_id_ := id;
                         deliver_seqno_prev_ := previous; deliver_seqno_ := current |};
     message_id_ := MsgId0; ddata_payload_ := [Byte.x63] |}.

Definition server_gap (id previous current : Z) : Message :=
  DeliverGap {| dgap_deliver := {| deliver_base := {| type_ := MessageType.mDeliverGap; tenantid_ := 1 |}; deliver_sub_id_ := id;
                                   deliver_seqno_prev_ := previous; deliver_seqno_ := current |};
                dgap_gap_type_ := 0 |}.

(** What happens in the runs. *)
Inductive scene :=
| Subscribes (st id start : Z)
| Streams (sh : Z) (a : client_action)
| Delivers (sh id previous current : Z).

Definition act (e : scene) : proxy_action :=
  match e with
  | Subscribes st id start => FromClient st (Messages.Subscribe (subscribes id start)) hot
  | Streams sh a => OnUpstream sh a
  | Delivers sh id previous current => FromUpstream sh (DeliverData (server_data id previous current))
  end.

Definition has_room (w : UpstreamWorker DefaultAccumulator) (sh : Z) : bool :=
  let x := default empty_multiplexer (multiplexer_ <$> shard_cache_ w !! sh) in
  (next_ (upstream_allocator_ x) + 1 <? 2 ^ 64) && match ForShard sh (next_ (upstream_allocator_ x)) with Ok id => negb (id =? 0) | Abort _ => false end.

(** Whether the assumptions hold. *)
Definition may (w : UpstreamWorker DefaultAccumulator) (e : scene) : bool :=
  match e with
  | Subscribes st id start => (0 <=? id) && (id <? 2 ^ 64) && (0 <=? start) && (start <? 2 ^ 64) &&
      bool_decide (default 3 (home w st) = 3) && bool_decide (entry w st id = None) && has_room w 3
  | Streams sh a =>
      match shard_cache_ w !! sh with
      | None => false
      | Some s =>
          let m := subscriptions_map_ (multiplexer_ s) in
          match a with
          | Connected | Disconnected => true
          | SendSubscribe id => read_enabled m && bool_decide (is_Some (Keyless.Find id (pending_subscriptions_ m)))
          | SendUnsubscribe id => read_enabled m && bool_decide (id ∈ pending_unsubscribes_ m)
          | _ => false
          end
      end
  | Delivers sh id previous current => (0 <=? id) && (id <? 2 ^ 64) && (0 <=? previous) && (previous <=? current) && (current <? 2 ^ 64 - 1) && has_room w sh &&
      match shard_cache_ w !! sh with
      | None => false
      | Some s =>
          let x := multiplexer_ s in
          sink_ (subscriptions_map_ x) && bool_decide (id ∈ known (events (subscriptions_map_ x))) &&
          match Find (subscriptions_map_ x) id with
          | None => true
          | Some s => (0 <? expected_seqno_ s) || match objects x !! user_data_ s with None => true | Some u => us_expected_seqno_ u <=? current + 1 end
          end
      end
  end.

Lemma has_room_ok w sh : has_room w sh = true -> room_for w sh.
Proof.
  unfold has_room, room_for, id_room. intros [Hn Hid]%andb_prop. split; [lia|]. destruct (ForShard _ _) as [id|] eqn:E; [|done]. exists id. split; [done|]. lia.
Qed.

Lemma may_ok w e : may w e = true -> proxy_enabled example_proxy genuine w (act e).
Proof.
  destruct e as [st id start|sh a|sh id previous current]; cbn [may act proxy_enabled].
  - rewrite !andb_true_iff, !bool_decide_eq_true. intros [[[[[[? ?] ?] ?] Hh] He] Hr].
    split. { exists 0. split; [cbn; by rewrite Z.land_0_r|done]. }
    split. { unfold Message_ok, MessageSubscribe_ok, base_ok, topic_ok, fits, slice_ok. cbn. split_and!; try done; lia. }
    cbn [GetShard example_proxy]. rewrite Hh. split; [by split|]. intros _. split; [done|by apply has_room_ok].
  - destruct (shard_cache_ w !! sh) as [s|]; [|done]. intros Hm. exists s. split; [done|].
    destruct a; try done; apply andb_prop in Hm as [? Hb]; apply bool_decide_eq_true in Hb; done.
  - rewrite !andb_true_iff. intros [[[[[[? ?] ?] ?] ?] Hr] Hm]. destruct (shard_cache_ w !! sh) as [s|]; [|done].
    rewrite !andb_true_iff, bool_decide_eq_true in Hm. destruct Hm as [[Hs Hk] Hf]. exists s. split_and!; try done.
    + unfold Message_ok, MessageDeliverData_ok, MessageDeliverData_fields_ok, MessageDeliver_ok, base_ok, fits, slice_ok. cbn. split_and!; try done; lia.
    + intros s' u Hs' Hu. cbn in Hs'. rewrite Hs', Hu in Hf. split; [|cbn; lia]. unfold genuine, update_ok, slice_ok. cbn. split_and!; try done; lia.
    + by apply has_room_ok.
Qed.

(** A run that keeps to the assumptions, and in which [keep] holds. *)
Fixpoint play (keep : UpstreamWorker DefaultAccumulator -> bool) (es : list scene) (w : UpstreamWorker DefaultAccumulator) : outcome (UpstreamWorker DefaultAccumulator) :=
  match es with
  | [] => Ok w
  | e :: es =>
      assert_that (may w e) "may" ;;;
      w <~ run_proxy example_proxy (act e) w ;;
      assert_that (keep w) "keep" ;;;
      play keep es w
  end.

Lemma play_serves st sub es w w' : play (fun w => bool_decide (is_Some (entry w st sub))) es w = Ok w' -> serving_runs example_proxy genuine st sub w (act <$> es) w'.
Proof.
  revert w. induction es as [|e es IH]; intros w; cbn [play]; [intros [= <-]; constructor|]. destruct (may w e) eqn:Em; [|done]. cbn [assert_that obind].
  destruct (run_proxy _ _ _) as [w1|] eqn:E; [|done]. cbn [obind]. case_bool_decide as Hi; [|done]. cbn [assert_that obind]. intros Hp.
  cbn. by econstructor; [apply may_ok|exact E| |apply IH].
Qed.

Lemma play_runs es w w' : play (fun _ => true) es w = Ok w' -> proxy_runs example_proxy genuine w (act <$> es) w'.
Proof.
  revert w. induction es as [|e es IH]; intros w; cbn [play]; [intros [= <-]; constructor|]. destruct (may w e) eqn:Em; [|done]. cbn [assert_that obind].
  destruct (run_proxy _ _ _) as [w1|] eqn:E; [|done]. cbn [obind assert_that]. intros Hp. cbn. by econstructor; [apply may_ok|exact E|apply IH].
Qed.

(** The first two IDs of the shard. *)
Definition first_id : Z := 2 ^ 8 + 3.
Definition second_id : Z := 2 ^ 9 + 3.

(** The first client subscribes, the server sends a snapshot up to 9. *)
Definition warm_up : list scene :=
  [Subscribes 7 11 0; Streams 3 Connected; Streams 3 (SendSubscribe first_id); Delivers 3 first_id 0 9].

(** The second client gets it from the accumulator; then an update up to 10, for
    which the subscription at the server is sent back to 0, and a new snapshot. *)
Definition carry_on : list scene :=
  [Delivers 3 first_id 10 10; Streams 3 (SendSubscribe second_id); Streams 3 (SendUnsubscribe first_id); Delivers 3 second_id 0 12].

Definition sent_by (r : outcome (UpstreamWorker DefaultAccumulator)) (st sub : Z) : list (Z * Z) :=
  match r with Ok w => (fun u => (prev_seqno u, current_seqno u)) <$> sent st sub (out w) | Abort _ => [] end.

Example both_clients_follow :
  let r := play (fun _ => true) (warm_up ++ Subscribes 8 5 4 :: carry_on) NewUpstreamWorker in
  sent_by r 7 11 = [(0, 9); (10, 10); (0, 12)] /\ sent_by r 8 5 = [(0, 9); (10, 10); (0, 12)].
Proof. vm_compute. by split. Qed.

Definition reached (r : outcome (UpstreamWorker DefaultAccumulator)) : UpstreamWorker DefaultAccumulator := match r with Ok w => w | Abort _ => NewUpstreamWorker end.

Definition succeeds {T} (r : outcome T) : bool := match r with Ok _ => true | Abort _ => false end.

Lemma reached_ok r : succeeds r = true -> r = Ok (reached r).
Proof. by destruct r. Qed.

Definition warm : UpstreamWorker DefaultAccumulator := reached (play (fun _ => true) warm_up NewUpstreamWorker).
Definition joined : UpstreamWorker DefaultAccumulator := reached (run_proxy example_proxy (act (Subscribes 8 5 4)) warm).
Definition carried : UpstreamWorker DefaultAccumulator := reached (play (fun w => bool_decide (is_Some (entry w 8 5))) carry_on joined).

Lemma example_accumulator ns topic : accumulates (genuine (ns, topic)) (accumulator example_proxy ns topic) 0 false.
Proof. by apply CreateDefault_ok. Qed.

Lemma proxy_multiplexes_witness : may warm (Delivers 3 first_id 10 10) = true /\
  exists w', run_proxy example_proxy (act (Delivers 3 first_id 10 10)) warm = Ok w'.
Proof.
  assert (may warm (Delivers 3 first_id 10 10) = true) as Hm by (vm_compute; reflexivity). split; [exact Hm|].
  assert (proxy_runs example_proxy genuine NewUpstreamWorker (act <$> warm_up) warm) as Hr by (apply play_runs, reached_ok; vm_compute; reflexivity).
  destruct (proxy_multiplexes example_proxy genuine (fun _ _ H => H) example_accumulator _ _ Hr) as (Hgo & _). apply Hgo, may_ok, Hm.
Defined.

Lemma proxy_follows_witness : sent_by (Ok carried) 8 5 = [(0, 9); (10, 10); (0, 12)] /\
  exists es place, out carried = out warm ++ es /\ serves carried 8 5 ([Byte.x61], [Byte.x62]) place /\
    Forall update_ok (sent 8 5 es) /\
    forall s, expected_seqno_ s = 4 -> exists s', feed (sent 8 5 es) s = Ok s' /\ expected_seqno_ s' = bring 4 place.
Proof.
  split; [vm_compute; reflexivity|].
  assert (proxy_runs example_proxy genuine NewUpstreamWorker (act <$> warm_up) warm) as Hr by (apply play_runs, reached_ok; vm_compute; reflexivity).
  assert (may warm (Subscribes 8 5 4) = true) as Hm by (vm_compute; reflexivity).
  assert (run_proxy example_proxy (act (Subscribes 8 5 4)) warm = Ok joined) as Hj by (apply reached_ok; vm_compute; reflexivity).
  assert (serving_runs example_proxy genuine 8 5 joined (act <$> carry_on) carried) as Hs by (apply play_serves, reached_ok; vm_compute; reflexivity).
  exact (proxy_follows example_proxy genuine (fun _ _ H => H) example_accumulator _ warm 8 (subscribes 5 4) hot joined _ carried Hr (may_ok _ _ Hm) eq_refl Hj Hs).
Defined.

(** ** Outside the assumptions *)

Fixpoint proxy_after (acts : list proxy_action) (w : UpstreamWorker DefaultAccumulator) : outcome (UpstreamWorker DefaultAccumulator) :=
  match acts with
  | [] => Ok w
  | a :: acts => w <~ run_proxy example_proxy a w ;; proxy_after acts w
  end.

Definition ends_with (r : outcome (UpstreamWorker DefaultAccumulator)) : option string := match r with Ok _ => None | Abort message => Some message end.

(** A gap moves the place of the subscription, but the accumulator does not hear of
    it: the next client that subscribes fails an assertion. *)
Lemma gap_then_subscribe_aborts :
  ends_with (proxy_after [FromUpstream 3 (server_gap first_id 10 14); act (Subscribes 8 5 4)] warm) =
    Some "bootstrapped_to == 0 || expected_seqno_check == 0 || bootstrapped_to == expected_seqno_check".
Proof. vm_compute. reflexivity. Qed.

(** After the subscription was sent back to 0, a gap from 0 followed by an update,
    instead of a snapshot, overflows the accumulator. *)
Lemma gap_after_resubscription_aborts :
  ends_with (proxy_after ((act <$> take 3 carry_on) ++ [FromUpstream 3 (server_gap second_id 0 11); act (Delivers 3 second_id 12 12)]) joined) =
    Some "updates_.size() < count_limit_".
Proof. vm_compute. reflexivity. Qed.

(** So does, for the next client, a snapshot that is older than what was sent. *)
Lemma stale_snapshot_aborts :
  ends_with (proxy_after ((act <$> take 3 carry_on) ++ [act (Delivers 3 second_id 0 8); act (Subscribes 9 6 0)]) joined) =
    Some "bootstrapped_to == 0 || expected_seqno_check == 0 || bootstrapped_to == expected_seqno_check".
Proof. vm_compute. reflexivity. Qed.

(** A client on hot topics has no stream to the server; when it leaves and none can
    be opened for its goodbye, its state is deleted twice. *)
Definition leaves : Message :=
  Goodbye {| goodbye_base := {| type_ := MessageType.mGoodbye; tenantid_ := 1 |}; code_ := Graceful; origin_type_ := OriginClient |}.

Definition no_stream : Answers := {| IsHotTopic := false; GetVersion := 1; GetHost := Some 20; OpensStream := false |}.

Lemma goodbye_used_after_free : ends_with (proxy_after [FromClient 8 leaves no_stream] joined) = Some "use after free".
Proof. vm_compute. reflexivity. Qed.
