(* ===== verification/ProxyServer.v ===== *)
(** * Connecting the workers of the proxy

    Model of [src/proxy2/abstract_worker.cc], of the constructors of the two kinds
    of workers, and of the part of [ProxyServerImpl::Start] in
    [src/proxy2/proxy_server.cc] that gives every pair of an upstream and a
    downstream worker a queue in each direction. *)

From S2P Require Import Prelude.

#[local] Open Scope outcome_scope.

(** ** Workers *)

Inductive Side := Upstream | Downstream.

#[export] Instance Side_eq_dec : EqDecision Side.
Proof. solve_decision. Defined.

#[export] Instance Side_countable : Countable Side.
Proof.
  refine (inj_countable' (fun s => match s with Upstream => true | Downstream => false end) (fun b : bool => if b then Upstream else Downstream) _).
  by intros [].
Defined.

(** A worker, by its side and its index; a queue, by the worker that reads it and
    the ID that worker has for it. *)
Abbreviation worker_id := (Side * nat)%type.
Abbreviation MessageQueue := (Side * nat * nat)%type.

Record AbstractWorker := {
  num_inbound_queues : nat;
  num_outbound_queues : nat;
  inbound_queues_ : gmap nat MessageQueue;
  outbound_queues_ : gmap nat MessageQueue
}.

(** Both constructors pass the numbers of threads in this order. *)
Definition NewWorker (num_upstream_threads num_downstream_threads : nat) : AbstractWorker :=
  {| num_inbound_queues := num_upstream_threads; num_outbound_queues := num_downstream_threads; inbound_queues_ := ∅; outbound_queues_ := ∅ |}.

Definition CreateInboundQueue (self : worker_id) (inbound_id : nat) (w : AbstractWorker) : outcome (AbstractWorker * MessageQueue) :=
  assert_that (inbound_id <? num_inbound_queues w)%nat "inbound_id < inbound_queues_.size()" ;;;
  assert_that (bool_decide (inbound_queues_ w !! inbound_id = None)) "!inbound_queues_[inbound_id]" ;;;
  let queue := (self, inbound_id) in
  Ok ({| num_inbound_queues := num_inbound_queues w; num_outbound_queues := num_outbound_queues w;
         inbound_queues_ := <[inbound_id := queue]> (inbound_queues_ w); outbound_queues_ := outbound_queues_ w |}, queue).

Definition ConnectOutboundQueue (outbound_id : nat) (queue : MessageQueue) (w : AbstractWorker) : outcome AbstractWorker :=
  assert_that (outbound_id <? num_outbound_queues w)%nat "outbound_id < outbound_queues_.size()" ;;;
  assert_that (bool_decide (outbound_queues_ w !! outbound_id = None)) "!outbound_queues_[outbound_id]" ;;;
  Ok {| num_inbound_queues := num_inbound_queues w; num_outbound_queues := num_outbound_queues w;
        inbound_queues_ := inbound_queues_ w; outbound_queues_ := <[outbound_id := queue]> (outbound_queues_ w) |}.

(** ** The server *)

Abbreviation Workers := (gmap worker_id AbstractWorker).

Definition the_worker (ws : Workers) (i : worker_id) : outcome AbstractWorker :=
  match ws !! i with Some w => Ok w | None => Abort "out of range" end.

(** [to->ConnectOutboundQueue(to_id, from->CreateInboundQueue(from_id))] *)
Definition connect (to : worker_id) (to_id : nat) (from : worker_id) (from_id : nat) (ws : Workers) : outcome Workers :=
  f <~ the_worker ws from ;;
  r <~ CreateInboundQueue from from_id f ;;
  let ws := <[from := fst r]> ws in
  t <~ the_worker ws to ;;
  t <~ ConnectOutboundQueue to_id (snd r) t ;;
  Ok (<[to := t]> ws).

Definition connect_pair (downstream_id upstream_id : nat) (ws : Workers) : outcome Workers :=
  ws <~ connect (Upstream, upstream_id) downstream_id (Downstream, downstream_id) upstream_id ws ;;
  connect (Downstream, downstream_id) upstream_id (Upstream, upstream_id) downstream_id ws.

Fixpoint connect_upstreams (downstream_id : nat) (upstreams : list nat) (ws : Workers) : outcome Workers :=
  match upstreams with
  | [] => Ok ws
  | u :: upstreams => ws <~ connect_pair downstream_id u ws ;; connect_upstreams downstream_id upstreams ws
  end.

Fixpoint connect_downstreams (downstreams upstreams : list nat) (ws : Workers) : outcome Workers :=
  match downstreams with
  | [] => Ok ws
  | d :: downstreams => ws <~ connect_upstreams d upstreams ws ;; connect_downstreams downstreams upstreams ws
  end.

Definition new_workers (num_upstream_threads num_downstream_threads : nat) : Workers :=
  let w := NewWorker num_upstream_threads num_downstream_threads in
  list_to_map (((fun i => ((Upstream, i), w)) <$> seq 0 num_upstream_threads) ++ ((fun i => ((Downstream, i), w)) <$> seq 0 num_downstream_threads)).

Definition Start (num_upstream_threads num_downstream_threads : nat) : outcome Workers :=
  connect_downstreams (seq 0 num_downstream_threads) (seq 0 num_upstream_threads) (new_workers num_upstream_threads num_downstream_threads).

(** ** Links *)

Definition other (s : Side) : Side := match s with Upstream => Downstream | Downstream => Upstream end.

(** [L s i j] says that worker [i] of side [s] writes to worker [j] of the other
    side; the queue is the one that the reader has for the writer's index. *)
Definition wired (n : nat) (L : Side -> nat -> nat -> Prop) (ws : Workers) : Prop := forall s i, (i < n)%nat -> exists w, ws !! (s, i) = Some w /\
  num_inbound_queues w = n /\ num_outbound_queues w = n /\
  (forall j q, inbound_queues_ w !! j = Some q <-> L (other s) j i /\ q = ((s, i), j)) /\
  (forall j q, outbound_queues_ w !! j = Some q <-> L s i j /\ q = ((other s, j), i)).

Lemma wired_ext n (L L' : Side -> nat -> nat -> Prop) ws : (forall s i j, L s i j <-> L' s i j) -> wired n L ws -> wired n L' ws.
Proof.
  intros HL Hw s i Hi. destruct (Hw s i Hi) as (w & Hl & Hn & Hm & Hin & Hout). exists w. split_and!; try done.
  - intros j q. rewrite Hin. by rewrite HL.
  - intros j q. rewrite Hout. by rewrite HL.
Qed.

Lemma insert_iff {V} (m : gmap nat V) (k : nat) (v : V) (F : nat -> Prop) (f : nat -> V) : f k = v -> (forall j q, m !! j = Some q <-> F j /\ q = f j) ->
  forall j q, <[k := v]> m !! j = Some q <-> (F j \/ j = k) /\ q = f j.
Proof.
  intros Hf Hm j q. destruct (decide (j = k)) as [->|Hne].
  - rewrite lookup_insert_eq. split; [intros [= <-]; split; [by right|done]|intros [_ ->]; by rewrite Hf].
  - rewrite lookup_insert_ne by done. rewrite Hm. naive_solver.
Qed.

Lemma not_wired_none {V} (m : gmap nat V) k (F : nat -> Prop) (f : nat -> V) : (forall j q, m !! j = Some q <-> F j /\ q = f j) -> ~ F k -> m !! k = None.
Proof. intros Hm Hk. destruct (m !! k) as [q|] eqn:E; [|done]. apply Hm in E. tauto. Qed.

Lemma connect_ok n L ws s i j : wired n L ws -> (i < n)%nat -> (j < n)%nat -> ~ L s i j ->
  exists ws', connect (s, i) j (other s, j) i ws = Ok ws' /\ wired n (fun s' i' j' => L s' i' j' \/ (s', i', j') = (s, i, j)) ws'.
Proof.
  intros Hw Hi Hj Hno. unfold connect, the_worker.
  destruct (Hw (other s) j Hj) as (f & Hf & Hfi & Hfo & Hfin & Hfout). destruct (Hw s i Hi) as (t & Ht & Hti & Hto & Htin & Htout).
  assert (other (other s) = s) as Hss by (by destruct s). assert ((other s, j) <> (s, i)) as Hne by (by destruct s).
  rewrite Hf. cbn [obind]. unfold CreateInboundQueue. rewrite Hfi, (proj2 (Nat.ltb_lt _ _) Hi). rewrite Hss in Hfin.
  rewrite bool_decide_eq_true_2 by (apply (not_wired_none _ _ _ _ Hfin Hno)). cbn [assert_that obind fst snd].
  rewrite lookup_insert_ne, Ht by done. cbn [obind]. unfold ConnectOutboundQueue. rewrite Hto, (proj2 (Nat.ltb_lt _ _) Hj).
  rewrite bool_decide_eq_true_2 by (apply (not_wired_none _ _ _ _ Htout Hno)). cbn [assert_that obind]. eexists. split; [reflexivity|].
  intros s' i' Hi'. destruct (decide ((s', i') = (s, i))) as [Heq|Hne1]; [|destruct (decide ((s', i') = (other s, j))) as [Heq|Hne2]].
  - injection Heq as -> ->. rewrite lookup_insert_eq. eexists. split; [reflexivity|]. cbn. split_and!; [done|done| |].
    + intros j' q. rewrite Htin. destruct s; naive_solver.
    + intros j' q. rewrite (insert_iff _ j _ _ _ eq_refl Htout). naive_solver.
  - injection Heq as -> ->. rewrite lookup_insert_ne, lookup_insert_eq by done. eexists. split; [reflexivity|]. cbn. rewrite Hss. split_and!; [done|done| |].
    + intros j' q. rewrite (insert_iff _ i _ _ _ eq_refl Hfin). naive_solver.
    + intros j' q. rewrite Hfout, Hss. destruct s; naive_solver.
  - rewrite !lookup_insert_ne by done. destruct (Hw s' i' Hi') as (w & Hl & Hn & Hm & Hin & Hout). exists w. split_and!; try done.
    + intros j' q. rewrite Hin. destruct s, s'; naive_solver.
    + intros j' q. rewrite Hout. naive_solver.
Qed.

(** The pairs of a downstream and an upstream worker that are connected. *)
Definition between (X : nat -> nat -> Prop) (s : Side) (i j : nat) : Prop := match s with Upstream => X j i | Downstream => X i j end.

Lemma connect_pair_ok n X ws d u : wired n (between X) ws -> (d < n)%nat -> (u < n)%nat -> ~ X d u ->
  exists ws', connect_pair d u ws = Ok ws' /\ wired n (between (fun d' u' => X d' u' \/ (d' = d /\ u' = u))) ws'.
Proof.
  intros Hw Hd Hu Hno. unfold connect_pair. destruct (connect_ok n _ ws Upstream u d Hw Hu Hd Hno) as (ws1 & E1 & Hw1). cbn [other] in E1. rewrite E1. cbn [obind].
  destruct (connect_ok n _ ws1 Downstream d u Hw1 Hd Hu) as (ws2 & E2 & Hw2); [intros [?|?]; done|]. exists ws2. split; [exact E2|].
  refine (wired_ext _ _ _ _ _ Hw2). intros [] i j; cbn; naive_solver.
Qed.

Lemma connect_upstreams_ok n d us : forall X ws, NoDup us -> wired n (between X) ws -> (d < n)%nat -> (forall u, u ∈ us -> (u < n)%nat /\ ~ X d u) ->
  exists ws', connect_upstreams d us ws = Ok ws' /\ wired n (between (fun d' u' => X d' u' \/ (d' = d /\ u' ∈ us))) ws'.
Proof.
  induction us as [|u us IH]; intros X ws Hnd Hw Hd Hus; cbn [connect_upstreams].
  { exists ws. split; [done|]. refine (wired_ext _ _ _ _ _ Hw). intros [] i j; cbn; set_solver. }
  apply NoDup_cons in Hnd as [Hnin Hnd]. destruct (Hus u ltac:(by left)) as [Hu Hno]. destruct (connect_pair_ok n X ws d u Hw Hd Hu Hno) as (ws1 & -> & Hw1). cbn [obind].
  destruct (IH _ ws1 Hnd Hw1 Hd) as (ws2 & E2 & Hw2).
  { intros u' Hin. destruct (Hus u' ltac:(by right)) as [? ?]. split; [done|]. intros [?|[_ ->]]; done. }
  exists ws2. split; [done|]. refine (wired_ext _ _ _ _ _ Hw2). intros [] i j; cbn; set_solver.
Qed.

Lemma connect_downstreams_ok n us ds : forall X ws, NoDup us -> NoDup ds -> wired n (between X) ws -> (forall u, u ∈ us -> (u < n)%nat) ->
  (forall d, d ∈ ds -> (d < n)%nat /\ forall u, ~ X d u) ->
  exists ws', connect_downstreams ds us ws = Ok ws' /\ wired n (between (fun d u => X d u \/ (d ∈ ds /\ u ∈ us))) ws'.
Proof.
  induction ds as [|d ds IH]; intros X ws Hnu Hnd Hw Hus Hds; cbn [connect_downstreams].
  { exists ws. split; [done|]. refine (wired_ext _ _ _ _ _ Hw). intros [] i j; cbn; set_solver. }
  apply NoDup_cons in Hnd as [Hnin Hnd]. destruct (Hds d ltac:(by left)) as [Hd Hno].
  destruct (connect_upstreams_ok n d us X ws Hnu Hw Hd) as (ws1 & -> & Hw1); [by intros u Hin; split; [apply Hus|apply Hno]|]. cbn [obind].
  destruct (IH _ ws1 Hnu Hnd Hw1 Hus) as (ws2 & E2 & Hw2).
  { intros d' Hin. destruct (Hds d' ltac:(by right)) as [? Hno']. split; [done|]. intros u [?|[-> _]]; [by eapply Hno'|done]. }
  exists ws2. split; [done|]. refine (wired_ext _ _ _ _ _ Hw2). intros [] i j; cbn; set_solver.
Qed.

(** ** What the assertions require *)

Definition sized (U D : nat) (ws : Workers) : Prop := forall k w, ws !! k = Some w -> num_inbound_queues w = U /\ num_outbound_queues w = D.

Lemma sized_insert U D ws k w : sized U D ws -> num_inbound_queues w = U -> num_outbound_queues w = D -> sized U D (<[k := w]> ws).
Proof. intros Hs HU HD k' w' [[_ <-]|[_ Hl]]%lookup_insert_Some; [done|by apply (Hs k')]. Qed.

Lemma connect_needs U D ws to to_id from from_id ws' : sized U D ws -> connect to to_id from from_id ws = Ok ws' ->
  (from_id < U)%nat /\ (to_id < D)%nat /\ sized U D ws'.
Proof.
  intros Hs. unfold connect, the_worker. destruct (ws !! from) as [f|] eqn:Ef; [|done]. cbn [obind]. destruct (Hs from f Ef) as [HfU HfD].
  unfold CreateInboundQueue. rewrite HfU. destruct (Nat.ltb_spec from_id U) as [Hfrom|]; [|done]. destruct (bool_decide _); [|done]. cbn [assert_that obind fst snd].
  set (f' := {| num_inbound_queues := U |}). pose proof (sized_insert U D ws from f' Hs eq_refl HfD) as Hs1. destruct (_ !! to) as [t|] eqn:Et; [|done]. cbn [obind].
  destruct (Hs1 to t Et) as [HtU HtD]. unfold ConnectOutboundQueue. rewrite HtD. destruct (Nat.ltb_spec to_id D) as [Hto|]; [|done].
  destruct (bool_decide _); [|done]. cbn [assert_that obind]. intros [= <-]. split_and!; [done|done|]. by apply sized_insert.
Qed.

Lemma connect_pair_needs U D ws d u ws' : sized U D ws -> connect_pair d u ws = Ok ws' -> (d < U)%nat /\ (u < D)%nat /\ sized U D ws'.
Proof.
  intros Hs. unfold connect_pair. destruct (connect _ _ _ _ ws) as [ws1|] eqn:E1; [|done]. cbn [obind]. intros E2.
  destruct (connect_needs U D _ _ _ _ _ _ Hs E1) as (_ & _ & Hs1). destruct (connect_needs U D _ _ _ _ _ _ Hs1 E2) as (? & ? & ?). done.
Qed.

Lemma connect_upstreams_needs U D d us : forall ws ws', sized U D ws -> connect_upstreams d us ws = Ok ws' ->
  (forall u, u ∈ us -> (d < U)%nat /\ (u < D)%nat) /\ sized U D ws'.
Proof.
  induction us as [|u us IH]; intros ws ws' Hs; cbn [connect_upstreams]; [intros [= <-]; split; [set_solver|done]|].
  destruct (connect_pair d u ws) as [ws1|] eqn:E1; [|done]. cbn [obind]. intros E2. destruct (connect_pair_needs U D _ _ _ _ Hs E1) as (? & ? & Hs1).
  destruct (IH ws1 ws' Hs1 E2) as [Hall Hs']. split; [|done]. intros u' [->|Hin]%elem_of_cons; [done|by apply Hall].
Qed.

Lemma connect_downstreams_needs U D us ds : forall ws ws', sized U D ws -> connect_downstreams ds us ws = Ok ws' ->
  forall d u, d ∈ ds -> u ∈ us -> (d < U)%nat /\ (u < D)%nat.
Proof.
  induction ds as [|d ds IH]; intros ws ws' Hs; cbn [connect_downstreams]; [set_solver|].
  destruct (connect_upstreams d us ws) as [ws1|] eqn:E1; [|done]. cbn [obind]. intros E2. destruct (connect_upstreams_needs U D _ _ _ _ Hs E1) as [Hall Hs1].
  intros d' u [->|Hin]%elem_of_cons Hu; [by apply Hall|]. by apply (IH ws1 ws' Hs1 E2).
Qed.

Lemma new_workers_lookup U D s i w : new_workers U D !! (s, i) = Some w <-> (i < match s with Upstream => U | Downstream => D end)%nat /\ w = NewWorker U D.
Proof.
  unfold new_workers. rewrite <-elem_of_list_to_map.
  - rewrite elem_of_app, !list_elem_of_fmap. setoid_rewrite elem_of_seq. split.
    + intros [(x & [= -> -> ->] & ?)|(x & [= -> -> ->] & ?)]; (split; [lia|done]).
    + intros [? ->]. destruct s; [left|right]; exists i; (split; [done|lia]).
  - rewrite fmap_app, <-!list_fmap_compose. apply NoDup_app. split_and!.
    + apply (NoDup_fmap_2 (fun i => (Upstream, i))), NoDup_seq.
    + intros x (j & -> & _)%list_elem_of_fmap (j' & Hx & _)%list_elem_of_fmap. done.
    + apply (NoDup_fmap_2 (fun i => (Downstream, i))), NoDup_seq.
Qed.

Lemma new_workers_sized U D : sized U D (new_workers U D).
Proof. intros [s i] w [_ ->]%new_workers_lookup. done. Qed.

Lemma new_workers_wired n : wired n (between (fun _ _ => False)) (new_workers n n).
Proof.
  intros s i Hi. exists (NewWorker n n). split_and!; [apply new_workers_lookup; by destruct s|done|done| |];
    (intros j q; cbn; rewrite lookup_empty; split; [done|intros [Hf _]; by destruct s]).
Qed.

(** C21: the proxy starts exactly if it has as many upstream as downstream threads.
    Then every upstream and every downstream worker have a queue in each direction:
    what one writes to under the index of the other is what the other reads under
    the index of the first, and no two pairs share a queue.  With other numbers,
    both positive, an assertion fails, since the constructors of both kinds of
    workers give the number of upstream threads for their readers and the number of
    downstream threads for their writers. *)
Theorem workers_connect U D : (0 < U)%nat -> (0 < D)%nat ->
  ((exists ws, Start U D = Ok ws) <-> U = D) /\
  forall ws d u, Start U D = Ok ws -> (d < D)%nat -> (u < U)%nat -> exists up down,
    ws !! (Upstream, u) = Some up /\ ws !! (Downstream, d) = Some down /\
    outbound_queues_ up !! d = Some (Downstream, d, u) /\ inbound_queues_ down !! u = Some (Downstream, d, u) /\
    outbound_queues_ down !! u = Some (Upstream, u, d) /\ inbound_queues_ up !! d = Some (Upstream, u, d).
Proof.
  intros HU HD. assert (forall ws, Start U D = Ok ws -> U = D) as Heq.
  { intros ws E. pose proof (connect_downstreams_needs U D _ _ _ _ (new_workers_sized U D) E) as Hall. setoid_rewrite elem_of_seq in Hall.
    destruct (Hall (D - 1)%nat (U - 1)%nat ltac:(lia) ltac:(lia)). lia. }
  assert (U = D -> exists ws, Start U D = Ok ws /\ wired U (between (fun d u => (d < D)%nat /\ (u < U)%nat)) ws) as Hgo.
  { intros <-. destruct (connect_downstreams_ok U (seq 0 U) (seq 0 U) _ _ (NoDup_seq _ _) (NoDup_seq _ _) (new_workers_wired U)) as (ws & E & Hw).
    - intros u. rewrite elem_of_seq. lia.
    - intros d. rewrite elem_of_seq. split; [lia|by intros ? ?].
    - exists ws. split; [exact E|]. refine (wired_ext _ _ _ _ _ Hw). intros [] i j; cbn; rewrite !elem_of_seq; lia. }
  split; [split; [intros [ws E]; by apply (Heq ws)|intros Hud; destruct (Hgo Hud) as (ws & E & _); by exists ws]|].
  intros ws d u E Hd Hu. destruct (Hgo (Heq ws E)) as (ws' & E' & Hw). rewrite E in E'. apply Ok_inj in E' as <-. pose proof (Heq ws E) as ->.
  destruct (Hw Upstream u Hu) as (up & Hup & _ & _ & Hui & Huo). destruct (Hw Downstream d Hd) as (down & Hdown & _ & _ & Hdi & Hdo).
  exists up, down. split_and!; [done|done|by apply Huo|by apply Hdi|by apply Hdo|by apply Hui].
Qed.

Lemma workers_connect_witness : Start 2 1 = Abort "outbound_id < outbound_queues_.size()" /\ exists ws, Start 3 3 = Ok ws.
Proof. split; [vm_compute; reflexivity|]. by apply (workers_connect 3 3); lia. Defined.
